(* ===== verification/_CoqProject ===== *)
-Q . S2P
Prelude.v
Api.v
Strings.v
Effects.v
SendRecorder.v
SendPrefs.v
SmtpAccounts.v
SyncLimits.v
SyncInterfaces.v
SyncJob.v
Network.v
SyncMetadata.v
SyncDownload.v
SyncBuild.v
SyncPipeline.v
SyncHandler.v
Json.v
SyncState.v
UserEvents.v
UserIdentity.v
SmtpErrors.v
SmtpSend.v
SmtpService.v
ImapUpdates.v
LabelConflicts.v
LabelEvents.v
AddressEvents.v
Connector.v
ConnectorImport.v
Ports.v
Vault.v
MailServers.v
Users.v
VaultHandles.v
UsersSafety.v
Files.v
Versions.v
Launcher.v
Updates.v
FolderSync.v
Logs.v
MediaTypes.v
Charsets.v
Utf7.v
MailHeaders.v
MessageParts.v
InlineImages.v
MessageParse.v
MboxLines.v
MessageBuild.v
Observability.v
JsonMaps.v
FeatureFlags.v
Notifications.v
Dialers.v
SyncReporter.v
Sanitizer.v
Locations.v
VaultKey.v
Migration.v
Heartbeat.v
EventStream.v
GuiLogin.v
Tasks.v
MessageEvents.v
ImapServiceLoop.v
