(* ===== verification/Prelude.v ===== *)
(** * Proton Mail Bridge: a verification development

    Proton Mail Bridge runs on the user's machine between mail clients, which speak
    IMAP and SMTP, and the Proton API.  For every account it keeps the API's events
    flowing to the services of the account, synchronises the mailbox once in the
    background, answers IMAP clients from a local store and sends the messages that
    clients submit over SMTP.  Around this it keeps a vault, updates itself, restarts
    after crashes and talks to a graphical client.  This library models the parts of
    the Go sources that carry this logic and proves what makes them correct.

    ** The program and the files that model it

    The paths are relative to the repository root; each file says in its own header
    which sources it models.

    - Shared code.  [Prelude] (this file): results of fallible calls, machine
      integers, slices and maps (pkg/utils), case-insensitive comparison, sorting,
      automation.  [Api]: the records of the Proton API the code reads.  [Strings]:
      functions of the packages strings and bytes.  [Effects]: a state monad for code
      that calls services in sequence.  [JsonMaps]: maps kept in JSON files.
      [Tasks]: calls between goroutines and groups of goroutines (pkg/cpc,
      internal/services/orderedtasks).

    - Sending (internal/services/sendrecorder, internal/services/smtp).
      [SendRecorder] models the recorder that keeps a message from being sent twice:
      its entries, expiry, the wait channels and the interleavings of concurrent
      senders.  [SendPrefs] models the encryption preferences of a recipient
      (smtp_prefs.go) and the packages of a send request (smtp_packages.go).
      [SmtpAccounts] models the accounts of the SMTP server with the limiter of
      failing commands (accounts.go).  [SmtpErrors]: what a client is told of an
      error (pkg/errmapper).  [SmtpSend]: sending one message (smtp.go).
      [SmtpService]: the loop of the service and the sessions of clients.

    - Synchronisation (internal/services/syncservice, internal/network).
      [SyncLimits]: memory limits (limits.go).  [SyncInterfaces]: the status of a sync
      and the interface [StateProvider] of its persistent state (interfaces.go).
      [SyncJob]: jobs, their children and the waiter that decides when a job is over
      (job.go), and the cache of downloads (download_cache.go).  [Network]: retries
      with a cool-down (internal/network/proton.go).  [SyncMetadata],
      [SyncDownload], [SyncBuild]: the stages of the pipeline (stage_metadata.go,
      stage_download.go, stage_build.go).  [SyncPipeline]: the apply stage
      (stage_apply.go) and the composition of the stages as a step relation.
      [SyncHandler]: the loop around the pipeline (handler.go).  [Json] and
      [SyncState]: the state file (internal/services/imapservice/
      sync_state_provider.go) over the part of encoding/json it uses; it implements
      [StateProvider], against which the other files are proved.  [SyncReporter]:
      reports of the progress.

    - Events and identity.  [UserEvents]: the event loop of a user
      (internal/services/userevents) as a state machine whose inputs are the
      answers of the API and of the subscribers and the calls of other goroutines;
      event handlers.  [UserIdentity]: addresses, authentication and keys of a user
      (internal/services/useridentity, internal/usertypes, pkg/algo/encode.go);
      its service is an event handler of [UserEvents].

    - The IMAP service (internal/services/imapservice).  [ImapUpdates]: which labels
      become mailboxes, their names and the updates for the IMAP server
      (imap_updates.go, helpers.go).  [LabelConflicts]: the resolver of name conflicts
      (conflicts.go) and the checker (labelchecker.go).  [LabelEvents]: the shared
      label map, label events and the labels and messages of a sync
      (shared_labels.go, service_label_events.go, sync_update_applier.go).
      [AddressEvents]: the connectors of an account as its addresses change
      (service_address_events.go).  [Connector] and [ConnectorImport]: what the
      connector does for mail clients (connector.go).  [MessageEvents]: message events
      (service_message_events.go, service_sync_events.go).  [ImapServiceLoop]: the
      loop that owns all of this (service.go).

    - Users, servers and the vault.  [Vault] and [VaultHandles]: the encrypted file
      with settings and users, and its handles (internal/vault).  [Users] and
      [UsersSafety]: users of the bridge, logging in and out, loading
      (internal/bridge/user.go, internal/user).  [Ports] and [MailServers]: the IMAP
      and SMTP servers and their listeners (internal/services/imapsmtpserver).

    - Start, keys and files.  [VaultKey]: the key of the vault and the keychain
      (internal/app/vault.go, pkg/keychain).  [Migration]: what version 2 left
      (internal/app/migration.go).  [Locations]: the directories of the program and
      clearing them.  [Launcher]: the launcher and restarts (cmd/launcher,
      pkg/restarter).  [Files], [Versions], [Updates], [FolderSync]: archives,
      installed versions, the updater, and the replacement of the application's
      folder on macOS (pkg/tar, pkg/sum, internal/versioner, internal/updater).
      [Logs]: rotation and pruning of log files, bug reports (internal/logging).
      [Sanitizer]: names of files (pkg/sanitizer).

    - Mail formats (pkg/mime, pkg/message).  [MediaTypes], [Charsets], [Utf7]:
      parameters of media types, names of character sets, a decoder.  [MailHeaders]:
      headers.  [MessageParts]: the tree of a message.  [InlineImages] and
      [MessageParse]: reading a message that a client submits or appends.
      [MboxLines] and [MessageBuild]: building a message of the API.

    - Talking to the API and to the user.  [Dialers]: pinned connections and the
      proxies (internal/dialer).  [FeatureFlags]: flags of the API (internal/unleash).
      [Notifications], [Observability], [Heartbeat]: notifications, metrics and the
      daily heartbeat.  [EventStream] and [GuiLogin]: the event stream and the login
      of the graphical client (internal/frontend/grpc).

    The components meet in interfaces: [StateProvider] (sync state),
    [EventHandler] (the handlers of [UserEvents]), [Mailboxes] (tables of the IMAP server),
    [Gluon], [APIClient], [SmtpClient], [ImapBackend].  [Users] is built on [Vault]
    through [VaultHandles]; [VaultKey] and [Migration] open and fill the same vault;
    [GuiLogin] drives the operations of [Users] and sends through the events of
    [EventStream]; [Versions] and [Updates] share the file system of [Files].

    ** How the code is modelled

    A Go struct is a record, an enumeration an inductive type.  A method that changes
    its receiver takes the state and returns the new one; a method that can fail
    returns a [result] or an optional error next to the state; a panic or an
    operation that blocks for ever is a [None] or a constructor of its own.
    Logging, metrics and tracing are left out.  Strings are strings of bytes; where
    the code compares without regard to case the model does so for ASCII letters.

    Goroutines are steps of a state machine.  Where an operation holds one lock from
    start to end it is one step.  Where goroutines meet in the middle of their work
    ([Dialers], [EventStream], [GuiLogin], [Tasks]) each is a thread with a program
    counter, its parts between two waits are steps, and a run is any sequence of the
    steps of all threads.  Memory that two parties hold is a store: the buffers of
    passwords in [GuiLogin], the children of a part in [InlineImages].

    What the language leaves open is an argument: the order of ranging over a map
    ([MapRange]), the order of equal elements in an unstable sort ([SortFunc],
    [SortLess]), what the clock, the random generator, the system and the API answer.
    Libraries that are not part of the repository are arguments too, as classes, with
    the behaviour the code relies on as laws: parallel execution ([Parallel],
    [DoContext]), versions and signatures ([SemVer], [Signing]), hashes ([Sha512]),
    the MIME, HTML and text libraries ([TextLib], [HeaderLib], [DecodeText]), the
    encoding of the vault ([VaultCodec]), the programs that keep secrets ([CredHelper]),
    OpenPGP and the message builder.  Each class with laws has a concrete instance,
    used by the witnesses.

    Integers are [Z] with the wrap-around of their width written out where the code
    computes with sizes or times: [u64] for the memory budgets and message sizes,
    [i64] for counts and durations.

    ** What the theorems show

    - Sending: a message is not submitted twice while an equal one is in flight or
      recently sent, failed messages can be retried and waiting senders are woken;
      the packages of a request cover every recipient once with the content its
      preferences ask for; preferences are internally consistent, use the key they
      should, and fail exactly in the listed cases; the limiter blocks an account
      exactly after repeated failures; the loop of the service keeps its types.

    - Synchronisation: the metadata stage requests every message once, in order and
      within the memory budget; download and build requests produce exactly the
      messages of the server, or record or cancel them; chunks respect the limits; a
      job's waiter ends exactly when all its children have ended, with the first
      error; in the composed pipeline the number of unfinished requests and the
      waiter's counter stay in step whatever fails or is cancelled; the handler
      reports success only after the state says that labels and messages are synced;
      the state file survives restarts, failing writes and crashes.

    - Events and identity: events are delivered at least once to every subscriber
      before their identifier is stored; transient errors are retried and permanent
      ones pause the loop; channels are closed once; the address list and map agree;
      published events determine the enabled addresses; login succeeds exactly with
      the bridge password and an enabled address.

    - The IMAP service: connectors follow the enabled addresses; the conflict resolver
      ends and its updates can be applied without a name conflict; a label sync creates
      every wanted mailbox; a message event that was handled is in the tables of the IMAP
      server or its message recorded as failed; a message is deleted for good only from
      Trash or Drafts when no other label keeps it; while events are handled in the
      mode of a sync there is an event to rewind to.

    - Users, servers, vault: in every run, whatever fails, the vault's handles are
      those of the users that are logged in and nothing panics; logging out removes the
      secrets; passwords of users that come back are restored; an address is never
      attached to an empty database that counts as synced; the events of the servers
      tell where they listen.

    - Start and updates: the users of the vault survive starts without a keychain,
      unless it is missing three times in a row; every account of the old version is migrated or reported; no update
      goes back to an older version; the launcher starts the highest verified version;
      when replacing a folder succeeds it is that of the update; restarts after crashes
      end; logs stay within their limits.

    - Mail formats: the decoder of UTF-7 gives the same text in parts as at once and
      inverts the encoder; the parts of a message form the tree of its entities;
      attachments are collected once; inline images are shown; a built message holds
      all its parts, and when decryption errors are ignored building never fails but
      for the libraries.

    - The API and the user: connections are made only to servers with a trusted key;
      metrics are sent no more often than the limit says, and while there are some
      something that leads to sending them waits;
      notifications are shown once a day; events reach a graphical client that
      listens; a login that ended leaves neither its session nor the password the
      service held; a service is ended only after those that were started later.

    Some theorems and examples state what the code does against its intention; the
    comment before each says so.

    ** Bounds and fuel

    Loops that are not structural take fuel and return a value of their own when it
    runs out; the theorems show that the fuel they ask for is enough: the number of
    throttled calls plus one ([Network]), the number of messages left plus one
    ([SyncMetadata]), the number of mailboxes plus two ([LabelConflicts]), some
    amount that depends on the depth of the hierarchy ([LabelEvents]), the number of
    attempts until one succeeds or the context ends ([SyncHandler]), the number of
    ports ([Ports]), the length of the text ([Utf7], [MediaTypes], [MessageBuild],
    [MboxLines]) or of the file ([Files]).  Retrying without end is
    shown as such.

    ** What is not modelled

    Graphical and command-line front ends other than the event stream and the login;
    the wiring of goroutines and channels (internal/app, internal/bridge/bridge.go,
    the sync service, the IMAP server manager); certificates, crash reports, cookies;
    tests.  The unbuffered channels between the stages of the pipeline are modelled as
    queues, which allows more interleavings than the code has.  A wait with a time
    limit, where the limit decides nothing else, can end at any time. *)

From stdpp Require Export base option list gmap strings fin_maps fin_sets sorting.
From Stdlib Require Export ZArith Lia.

#[global] Open Scope Z_scope.
#[global] Set Default Goal Selector "1".

(** ** Results of fallible Go functions

    A Go function that returns [(T, error)] is modelled by [result E T]: the
    callers in the modelled code never look at the value next to a non-nil
    error, so the pair collapses to a sum. *)
Inductive result (E A : Type) : Type :=
| Ok (a : A)
| Err (e : E).
Arguments Ok {E A} _.
Arguments Err {E A} _.

#[global] Instance result_ret {E} : MRet (result E) := fun A a => Ok a.
#[global] Instance result_bind {E} : MBind (result E) := fun A B f r =>
  match r with Ok a => f a | Err e => Err e end.
#[global] Instance result_fmap {E} : FMap (result E) := fun A B f r =>
  match r with Ok a => Ok (f a) | Err e => Err e end.

#[global] Instance result_eq_dec {E A} `{EqDecision E, EqDecision A} : EqDecision (result E A).
Proof. solve_decision. Defined.

(** [is_ok r] holds when the Go call returned a nil error. *)
Definition is_ok {E A} (r : result E A) : bool :=
  match r with Ok _ => true | Err _ => false end.

Lemma result_bind_Ok {E A B} (f : A -> result E B) (r : result E A) b :
  r ≫= f = Ok b <-> exists a, r = Ok a /\ f a = Ok b.
Proof. destruct r; naive_solver. Qed.

Lemma result_bind_Err {E A B} (f : A -> result E B) (r : result E A) e :
  r ≫= f = Err e <-> r = Err e \/ exists a, r = Ok a /\ f a = Err e.
Proof. destruct r; naive_solver. Qed.

(** ** Machine integers

    Go's [uint64], [int64] and [int] wrap; the code under study uses the
    64-bit widths only. *)
Definition two64 : Z := 2 ^ 64.
Definition u64 (z : Z) : Z := z mod two64.
Definition u64_ok (z : Z) : Prop := 0 <= z < two64.
Definition i64 (z : Z) : Z := (z + 2 ^ 63) mod two64 - 2 ^ 63.
Definition i64_ok (z : Z) : Prop := - 2 ^ 63 <= z < 2 ^ 63.

Lemma two64_pos : 0 < two64.
Proof. reflexivity. Qed.

Lemma u64_range z : u64_ok (u64 z).
Proof. apply Z.mod_pos_bound, two64_pos. Qed.

Lemma u64_id z : u64_ok z -> u64 z = z.
Proof. intros H. apply Z.mod_small, H. Qed.

Lemma i64_id z : i64_ok z -> i64 z = z.
Proof.
  unfold i64_ok, i64. intros H. rewrite Z.mod_small; [lia|].
  unfold two64. lia.
Qed.

(** ** Go slices and maps *)

(** [utils.Filter] (pkg/utils/filter.go): the elements [keep] accepts, in order. *)
Fixpoint Filter {E : Type} (s : list E) (keep : E -> bool) : list E :=
  match s with
  | [] => []
  | e :: s' => if keep e then e :: Filter s' keep else Filter s' keep
  end.

Lemma elem_of_Filter {E} (s : list E) keep e : e ∈ Filter s keep <-> e ∈ s /\ keep e = true.
Proof.
  induction s as [|x s IH]; simpl; [set_solver|].
  destruct (keep x) eqn:Hk; rewrite ?elem_of_cons, IH; naive_solver congruence.
Qed.

Lemma Filter_sublist {E} (s : list E) keep : Filter s keep `sublist_of` s.
Proof. induction s as [|x s IH]; simpl; [constructor|]. destruct (keep x); by constructor. Qed.

Lemma Filter_all {E} (s : list E) keep :
  (forall e, e ∈ s -> keep e = true) -> Filter s keep = s.
Proof.
  induction s as [|x s IH]; intros H; simpl; [done|].
  rewrite (H x) by set_solver. f_equal. apply IH. set_solver.
Qed.

Lemma Filter_nil {E} (s : list E) keep :
  Filter s keep = [] <-> forall e, e ∈ s -> keep e = false.
Proof.
  induction s as [|x s IH]; simpl; [set_solver|].
  destruct (keep x) eqn:Hk.
  - split; [done|]. intros H. rewrite (H x) in Hk by set_solver. done.
  - rewrite IH. setoid_rewrite elem_of_cons. naive_solver.
Qed.

Lemma Filter_app {E} (l l' : list E) keep : Filter (l ++ l') keep = Filter l keep ++ Filter l' keep.
Proof. induction l as [|x l IH]; simpl; [done|]. destruct (keep x); by rewrite IH. Qed.

Lemma NoDup_fmap_Filter {E B} (f : E -> B) (s : list E) keep :
  NoDup (f <$> s) -> NoDup (f <$> Filter s keep).
Proof. intros H. eapply sublist_NoDup; [exact H|]. apply fmap_sublist, Filter_sublist. Qed.

(** [slices.Contains] on strings. *)
Definition Contains (s : list string) (v : string) : bool := bool_decide (v ∈ s).

(** First element accepted by [p], the loop
    [for _, e := range l { if p(e) { return e } }]. *)
Fixpoint find_first {E : Type} (p : E -> bool) (l : list E) : option E :=
  match l with
  | [] => None
  | e :: l' => if p e then Some e else find_first p l'
  end.

Lemma find_first_Some {E} (p : E -> bool) l e : find_first p l = Some e -> e ∈ l /\ p e = true.
Proof. induction l as [|x l IH]; simpl; [done|]. destruct (p x) eqn:?; set_solver. Qed.

Lemma find_first_None {E} (p : E -> bool) l :
  find_first p l = None <-> forall e, e ∈ l -> p e = false.
Proof.
  induction l as [|x l IH]; simpl; [set_solver|].
  destruct (p x) eqn:Hp.
  - split; [done|]. intros H. rewrite (H x) in Hp by set_solver. done.
  - rewrite IH. setoid_rewrite elem_of_cons. naive_solver.
Qed.

Lemma find_first_is_Some {E} (p : E -> bool) l e :
  e ∈ l -> p e = true -> is_Some (find_first p l).
Proof.
  intros He Hp. destruct (find_first p l) eqn:Hf; [eauto|].
  apply find_first_None with (e := e) in Hf; [congruence|done].
Qed.

(** When at most one element is accepted, the loop finds it. *)
Lemma find_first_unique {E} (p : E -> bool) l e :
  e ∈ l -> p e = true -> (forall x, x ∈ l -> p x = true -> x = e) -> find_first p l = Some e.
Proof.
  intros He Hp Hu. destruct (find_first_is_Some p l e He Hp) as [x Hx].
  rewrite Hx. f_equal. apply find_first_Some in Hx as [? ?]. auto.
Qed.

(** Iterating over a Go map visits its bindings once each, in an order the
    language leaves open.  A definition that ranges over a map takes the order
    as an argument of this class, and its theorems hold for every order. *)
Class MapRange : Type := {
  map_range : forall A, gmap string A -> list (string * A);
  map_range_perm : forall A (m : gmap string A), map_range A m ≡ₚ map_to_list m
}.
Arguments map_range {_ A} _.
Arguments map_range_perm {_ A} _.

(** One possible iteration order, for the witnesses. *)
Definition canonical_range : MapRange :=
  {| map_range := fun A m => map_to_list m; map_range_perm := fun A m => reflexivity _ |}.

(** [utils.Keys] and [utils.Values] (pkg/utils/maps.go). *)
Definition Keys `{MapRange} {A} (m : gmap string A) : list string := (map_range m).*1.
Definition Values `{MapRange} {A} (m : gmap string A) : list A := (map_range m).*2.

Lemma elem_of_map_range `{MapRange} {A} (m : gmap string A) k v :
  (k, v) ∈ map_range m <-> m !! k = Some v.
Proof. rewrite map_range_perm. apply elem_of_map_to_list. Qed.

Lemma NoDup_Keys `{MapRange} {A} (m : gmap string A) : NoDup (Keys m).
Proof. unfold Keys. rewrite map_range_perm. apply NoDup_fst_map_to_list. Qed.

Lemma elem_of_Keys `{MapRange} {A} (m : gmap string A) k : k ∈ Keys m <-> is_Some (m !! k).
Proof.
  unfold Keys. rewrite list_elem_of_fmap. split.
  - intros [[k' v] [-> Hv]]. apply elem_of_map_range in Hv. eauto.
  - intros [v Hv]. exists (k, v). split; [done|]. by apply elem_of_map_range.
Qed.

Lemma elem_of_Values `{MapRange} {A} (m : gmap string A) v :
  v ∈ Values m <-> exists k, m !! k = Some v.
Proof.
  unfold Values. rewrite list_elem_of_fmap. split.
  - intros [[k v'] [-> Hv]]. apply elem_of_map_range in Hv. eauto.
  - intros [k Hv]. exists (k, v). split; [done|]. by apply elem_of_map_range.
Qed.

Lemma length_map_range `{MapRange} {A} (m : gmap string A) : length (map_range m) = size m.
Proof. rewrite map_range_perm. apply length_map_to_list. Qed.

(** ** Strings and orders *)

(** [strings.EqualFold] on ASCII text: equality without regard to the case of
    letters. *)
Definition lower (c : Ascii.ascii) : Ascii.ascii :=
  let n := Ascii.nat_of_ascii c in
  if (65 <=? n)%nat && (n <=? 90)%nat then Ascii.ascii_of_nat (n + 32) else c.

Fixpoint EqualFold (a b : string) : bool :=
  match a, b with
  | EmptyString, EmptyString => true
  | String x a', String y b' => Ascii.eqb (lower x) (lower y) && EqualFold a' b'
  | _, _ => false
  end.

Lemma EqualFold_refl a : EqualFold a a = true.
Proof. induction a as [|c a IH]; simpl; [done|]. by rewrite Ascii.eqb_refl. Qed.

(** [slices.SortFunc] by an integer key.  The sort is not stable, so elements with
    equal keys may come in any order; definitions that sort take the sort as an
    argument of this class. *)
Class SortFunc : Type := {
  sort_by : forall A, (A -> Z) -> list A -> list A;
  sort_by_perm : forall A (key : A -> Z) l, sort_by A key l ≡ₚ l;
  sort_by_sorted : forall A (key : A -> Z) l, StronglySorted Z.le (key <$> sort_by A key l)
}.
Arguments sort_by {_ A} _ _.
Arguments sort_by_perm {_ A} _ _.
Arguments sort_by_sorted {_ A} _ _.

(** One possible sort, for the witnesses. *)
Definition key_le {A} (key : A -> Z) (x y : A) : Prop := key x <= key y.
#[global] Instance key_le_dec {A} (key : A -> Z) x y : Decision (key_le key x y).
Proof. unfold key_le. apply _. Defined.
#[global] Instance key_le_total {A} (key : A -> Z) : Total (key_le key).
Proof. intros x y. unfold key_le. lia. Qed.
#[global] Instance key_le_trans {A} (key : A -> Z) : Transitive (key_le key).
Proof. intros x y z. unfold key_le. lia. Qed.

Lemma merge_sort_by_sorted {A} (key : A -> Z) l : StronglySorted Z.le (key <$> merge_sort (key_le key) l).
Proof.
  assert (Hs := StronglySorted_merge_sort (key_le key) l). induction Hs as [|x l' Hs IH Hx]; simpl; constructor; [done|].
  rewrite Forall_fmap. exact Hx.
Qed.

Definition merge_sort_by : SortFunc :=
  {| sort_by := fun A key l => merge_sort (key_le key) l;
     sort_by_perm := fun A key l => merge_sort_Permutation (key_le key) l;
     sort_by_sorted := fun A key l => merge_sort_by_sorted key l |}.

(** [sort.Sort] and [slices.SortFunc] by an order on the elements, given as what comes before.
    They are not stable either. *)
Class SortLess : Type := {
  sort_Sort : forall A, (A -> A -> bool) -> list A -> list A;
  sort_Sort_perm : forall A less (l : list A), sort_Sort A less l ≡ₚ l;
  sort_Sort_sorted : forall A (less : A -> A -> bool) (l : list A),
    (forall x y, less x y = true -> less y x = false) ->
    (forall x y z, less y x = false -> less z y = false -> less z x = false) ->
    StronglySorted (fun x y => less y x = false) (sort_Sort A less l)
}.
Arguments sort_Sort {_ A} _ _.
Arguments sort_Sort_perm {_ A} _ _.
Arguments sort_Sort_sorted {_ A} _ _ _ _.

Lemma StronglySorted_impl {A} (R S : A -> A -> Prop) l : (forall x y, R x y -> S x y) -> StronglySorted R l -> StronglySorted S l.
Proof. intros HRS Hs. rewrite <- (list_fmap_id l). by apply (StronglySorted_fmap id R S). Qed.

(** One possible sort, for the witnesses. *)
Definition not_before {A} (less : A -> A -> bool) (x y : A) : Prop := less y x = false.
#[global] Instance not_before_dec {A} (less : A -> A -> bool) x y : Decision (not_before less x y).
Proof. unfold not_before. apply _. Defined.

Lemma merge_sort_less {A} (less : A -> A -> bool) l :
  (forall x y, less x y = true -> less y x = false) ->
  (forall x y z, less y x = false -> less z y = false -> less z x = false) ->
  StronglySorted (not_before less) (merge_sort (not_before less) l).
Proof.
  intros Has Htr. apply StronglySorted_merge_sort; [intros x y z; apply Htr|].
  intros x y. unfold not_before. destruct (less y x) eqn:H; [right; by apply Has|by left].
Qed.

Definition merge_sort_lists : SortLess :=
  {| sort_Sort := fun A less l => merge_sort (not_before less) l;
     sort_Sort_perm := fun A less l => merge_sort_Permutation (not_before less) l;
     sort_Sort_sorted := fun A less l => merge_sort_less less l |}.

(** ** Automation *)

Create HintDb bridge.
#[export] Hint Resolve two64_pos u64_range NoDup_Keys Filter_sublist : bridge.
#[export] Hint Rewrite @elem_of_Filter @elem_of_Keys @elem_of_Values : bridge.

(** Case analysis on the scrutinee of a [match] or [if] of the goal or of a
    hypothesis, recording the equation, followed by clean-up. *)
Ltac break_match :=
  repeat (case_match; simplify_eq/=).

(** [boolp] turns the boolean tests of executable definitions into
    propositions. *)
Ltac boolp :=
  repeat match goal with
  | Hb : _ && _ = true |- _ => apply andb_true_iff in Hb as [? ?]
  | Hb : _ || _ = false |- _ => apply orb_false_iff in Hb as [? ?]
  | Hb : negb _ = true |- _ => apply negb_true_iff in Hb
  | Hb : negb _ = false |- _ => apply negb_false_iff in Hb
  | Hb : bool_decide _ = true |- _ => apply bool_decide_eq_true in Hb
  | Hb : bool_decide _ = false |- _ => apply bool_decide_eq_false in Hb
  | Hb : (_ =? _) = true |- _ => apply Z.eqb_eq in Hb
  | Hb : (_ =? _) = false |- _ => apply Z.eqb_neq in Hb
  | Hb : (_ <? _) = true |- _ => apply Z.ltb_lt in Hb
  | Hb : (_ <? _) = false |- _ => apply Z.ltb_ge in Hb
  | Hb : (_ <=? _) = true |- _ => apply Z.leb_le in Hb
  | Hb : (_ <=? _) = false |- _ => apply Z.leb_gt in Hb
  | Hb : String.eqb _ _ = true |- _ => apply String.eqb_eq in Hb
  | Hb : String.eqb _ _ = false |- _ => apply String.eqb_neq in Hb
  end.
