(* ===== verification/Api.v ===== *)
(** * Data of the Proton API

    The fields of the API's records that the modelled code reads: users, addresses,
    labels, message metadata and the events that report their changes.  The key
    material of users and addresses is kept as opaque text: it is only handed to
    the unlocking functions of the cryptographic library. *)

From S2P Require Import Prelude.

(** ** Addresses and users *)

Inductive AddressStatus : Type :=
| AddressStatusEnabled
| AddressStatusOther (code : Z).

#[global] Instance AddressStatus_eq_dec : EqDecision AddressStatus.
Proof. solve_decision. Defined.

Definition enabled (s : AddressStatus) : bool :=
  match s with AddressStatusEnabled => true | AddressStatusOther _ => false end.

Inductive AddressType : Type :=
| AddressTypeExternal
| AddressTypeOther (code : Z).

#[global] Instance AddressType_eq_dec : EqDecision AddressType.
Proof. solve_decision. Defined.

Record Address : Type := mkAddress {
  addr_ID : string;
  addr_Email : string;
  addr_Status : AddressStatus;
  addr_Order : Z;
  addr_Keys : list string;
  addr_Type : AddressType;
  addr_Send : bool;
  addr_DisplayName : string
}.

#[global] Instance Address_eq_dec : EqDecision Address.
Proof. solve_decision. Defined.

Definition zeroAddress : Address := mkAddress "" "" (AddressStatusOther 0) 0 [] (AddressTypeOther 0) false "".

Record User : Type := mkUser {
  user_ID : string;
  user_Name : string;
  user_UsedSpace : Z;
  user_Keys : list string
}.

#[global] Instance User_eq_dec : EqDecision User.
Proof. solve_decision. Defined.

(** ** Labels and messages *)

Inductive LabelType : Type :=
| LabelTypeLabel
| LabelTypeContactGroup
| LabelTypeFolder
| LabelTypeSystem
| LabelTypeOther (code : Z).

#[global] Instance LabelType_eq_dec : EqDecision LabelType.
Proof. solve_decision. Defined.

Record Label : Type := mkLabel {
  label_ID : string;
  label_ParentID : string;
  label_Name : string;
  label_Path : list string;
  label_Type : LabelType
}.

#[global] Instance Label_eq_dec : EqDecision Label.
Proof. solve_decision. Defined.

(** [meta_Seen], [meta_Starred] and [meta_IsDraft] are what the methods of that name
    answer, [meta_FlagSent] whether the flag [MessageFlagSent] is set. *)
Record MessageMetadata : Type := mkMetadata {
  meta_ID : string;
  meta_AddressID : string;
  meta_LabelIDs : list string;
  meta_Seen : bool;
  meta_Starred : bool;
  meta_IsDraft : bool;
  meta_IsReplied : bool;
  meta_IsRepliedAll : bool;
  meta_IsForwarded : bool;
  meta_FlagSent : bool
}.

#[global] Instance MessageMetadata_eq_dec : EqDecision MessageMetadata.
Proof. solve_decision. Defined.

(** The identifiers of the system labels. *)
Definition InboxLabel : string := "0".
Definition AllDraftsLabel : string := "1".
Definition AllSentLabel : string := "2".
Definition TrashLabel : string := "3".
Definition SpamLabel : string := "4".
Definition AllMailLabel : string := "5".
Definition ArchiveLabel : string := "6".
Definition SentLabel : string := "7".
Definition DraftsLabel : string := "8".
Definition OutboxLabel : string := "9".
Definition StarredLabel : string := "10".
Definition AllScheduledLabel : string := "12".

(** ** Events *)

Inductive EventAction : Type :=
| EventDelete
| EventCreate
| EventUpdate
| EventUpdateFlags
| EventActionOther (code : Z).

#[global] Instance EventAction_eq_dec : EqDecision EventAction.
Proof. solve_decision. Defined.

Record AddressEvent : Type := mkAddressEvent {
  ae_ID : string;
  ae_Action : EventAction;
  ae_Address : Address
}.

Record LabelEvent : Type := mkLabelEvent {
  le_ID : string;
  le_Action : EventAction;
  le_Label : Label
}.

Record MessageEvent : Type := mkMessageEvent {
  me_ID : string;
  me_Action : EventAction;
  me_Message : MessageMetadata
}.

#[global] Instance AddressEvent_eq_dec : EqDecision AddressEvent.
Proof. solve_decision. Defined.
#[global] Instance LabelEvent_eq_dec : EqDecision LabelEvent.
Proof. solve_decision. Defined.
#[global] Instance MessageEvent_eq_dec : EqDecision MessageEvent.
Proof. solve_decision. Defined.

(** [ev_UserSettings] and [ev_Notifications] are opaque payloads that no modelled
    handler looks into. *)
Record Event : Type := mkEvent {
  ev_EventID : string;
  ev_Refresh : Z;
  ev_User : option User;
  ev_UserSettings : option string;
  ev_Addresses : list AddressEvent;
  ev_Labels : list LabelEvent;
  ev_Messages : list MessageEvent;
  ev_UsedSpace : option Z;
  ev_Notifications : list string
}.

#[global] Instance Event_eq_dec : EqDecision Event.
Proof. solve_decision. Defined.

(** The bit of [proton.RefreshFlag] for mail. *)
Definition RefreshMail : Z := 1.

(** An event that only carries an identifier. *)
Definition emptyEvent (id : string) : Event := mkEvent id 0 None None [] [] [] None [].
