(* ===== verification/Strings.v ===== *)
(** * Strings

    The functions of Go's package strings the code uses, on ASCII text, with the lemmas
    about them that the components share. *)

From S2P Require Import Prelude.

(** ** Definitions *)

Definition at_sign : Ascii.ascii := Ascii.ascii_of_nat 64.
Definition plus_sign : Ascii.ascii := Ascii.ascii_of_nat 43.

(** [strings.Split] by a separator of one character: never empty. *)
Fixpoint Split (sep : Ascii.ascii) (s : string) : list string :=
  match s with
  | EmptyString => [""]
  | String c s' =>
      if Ascii.eqb c sep then "" :: Split sep s'
      else match Split sep s' with
           | [] => [String c ""]
           | part :: parts => String c part :: parts
           end
  end.

(** [strings.Index] of a character; [None] is -1. *)
Fixpoint Index (c : Ascii.ascii) (s : string) : option nat :=
  match s with
  | EmptyString => None
  | String x s' => if Ascii.eqb x c then Some 0%nat else S <$> Index c s'
  end.

(** [s[:n]] and [s[n:]]. *)
Fixpoint str_take (n : nat) (s : string) : string :=
  match n, s with S n, String c s' => String c (str_take n s') | _, _ => EmptyString end.
Fixpoint str_drop (n : nat) (s : string) : string :=
  match n, s with S n, String _ s' => str_drop n s' | _, _ => s end.

(** [strings.Contains] and [strings.TrimSuffix]. *)
Fixpoint has_prefix (p s : string) : bool :=
  match p, s with
  | EmptyString, _ => true
  | String a p', String b s' => Ascii.eqb a b && has_prefix p' s'
  | _, _ => false
  end.
Fixpoint str_contains (s sub : string) : bool :=
  has_prefix sub s || match s with EmptyString => false | String _ s' => str_contains s' sub end.
Fixpoint TrimSuffix (s suffix : string) : string :=
  if String.eqb s suffix then ""
  else match s with EmptyString => "" | String c s' => String c (TrimSuffix s' suffix) end.

(** [strings.ToUpper] on ASCII text and [s[:8]]. *)
Definition upper (c : Ascii.ascii) : Ascii.ascii :=
  let n := Ascii.nat_of_ascii c in if (97 <=? n)%nat && (n <=? 122)%nat then Ascii.ascii_of_nat (n - 32) else c.
Fixpoint str_map (f : Ascii.ascii -> Ascii.ascii) (s : string) : string :=
  match s with EmptyString => "" | String c s => String (f c) (str_map f s) end.
Definition ToUpper (s : string) : string := str_map upper s.

(** ** Lemmas *)

Lemma Index_app_None c s t : Index c s = None -> Index c (s +:+ t) = (fun n => (String.length s + n)%nat) <$> Index c t.
Proof.
  induction s as [|x s IH]; simpl; [intros _; change ("" +:+ t) with t; destruct (Index c t); reflexivity|]. destruct (Ascii.eqb x c); [done|].
  intros Hn%fmap_None. rewrite IH by done. by destruct (Index c t).
Qed.

Lemma Index_app_Some c s t n : Index c s = Some n -> Index c (s +:+ t) = Some n.
Proof.
  revert n. induction s as [|x s IH]; intros n; simpl; [done|]. destruct (Ascii.eqb x c); [done|].
  intros (k & Hk & ->)%fmap_Some. by rewrite (IH k Hk).
Qed.

Lemma Index_lt c s n : Index c s = Some n -> (n < String.length s)%nat.
Proof.
  revert n. induction s as [|x s IH]; intros n; simpl; [done|].
  destruct (Ascii.eqb x c); [intros [= <-]; lia|]. intros (k & Hk & ->)%fmap_Some. apply IH in Hk. lia.
Qed.

Lemma str_take_app n s t : (n <= String.length s)%nat -> str_take n (s +:+ t) = str_take n s.
Proof. revert n. induction s as [|x s IH]; intros [|n]; simpl; intros Hn; [done|lia|done|]. by rewrite IH by lia. Qed.

Lemma str_take_all s : str_take (String.length s) s = s.
Proof. induction s as [|x s IH]; simpl; [done|]. by rewrite IH. Qed.

Lemma str_drop_app s t : str_drop (String.length s) (s +:+ t) = t.
Proof. induction s as [|x s IH]; simpl; [by destruct t|done]. Qed.

Lemma Split_no_sep c s : Index c s = None -> Split c s = [s].
Proof.
  induction s as [|x s IH]; simpl; [done|]. destruct (Ascii.eqb x c); [done|].
  intros Hn%fmap_None. by rewrite IH.
Qed.

Lemma Split_app_sep c s t : Index c s = None -> Split c (s +:+ String c t) = s :: Split c t.
Proof.
  induction s as [|x s IH]; simpl.
  - by rewrite Ascii.eqb_refl.
  - destruct (Ascii.eqb x c); [done|]. intros Hn%fmap_None. by rewrite IH.
Qed.

Lemma hd_Split c s : hd "" (Split c s) = match Index c s with Some n => str_take n s | None => s end.
Proof.
  induction s as [|x s IH]; simpl; [done|]. destruct (Ascii.eqb x c); [done|].
  destruct (Split c s) as [|p ps]; simpl in *; destruct (Index c s); simpl; by rewrite <- ?IH.
Qed.

Lemma str_app_inj (s t u : string) : s +:+ t = s +:+ u -> t = u.
Proof. induction s as [|c s IH]; [done|]. intros [= H]. by apply IH. Qed.
Lemma str_app_assoc s t u : (s +:+ t) +:+ u = s +:+ (t +:+ u).
Proof. induction s as [|x s IH]; [done|]. change (String x ((s +:+ t) +:+ u) = String x (s +:+ (t +:+ u))). by rewrite IH. Qed.

(** A part contains no separator, and only what the whole contains. *)
Lemma Split_part c s p : p ∈ Split c s -> Index c p = None.
Proof.
  revert p. induction s as [|x s IH]; intros p; simpl; [by intros ->%list_elem_of_singleton|].
  destruct (Ascii.eqb x c) eqn:Hx; [intros [->|Hp]%elem_of_cons; eauto|].
  destruct (Split c s) as [|q qs]; [intros ->%list_elem_of_singleton; simpl; by rewrite Hx|].
  intros [->|Hp]%elem_of_cons; [simpl; rewrite Hx, IH by left; done|apply IH; by right].
Qed.

Lemma Split_within c d s p : Index c s = None -> p ∈ Split d s -> Index c p = None.
Proof.
  revert p. induction s as [|x s IH]; intros p; simpl; [by intros _ ->%list_elem_of_singleton|].
  destruct (Ascii.eqb x c) eqn:Hxc; [done|]. intros Hn%fmap_None.
  destruct (Ascii.eqb x d); [intros [->|Hp]%elem_of_cons; eauto|].
  destruct (Split d s) as [|q qs]; [intros ->%list_elem_of_singleton; simpl; by rewrite Hxc|].
  intros [->|Hp]%elem_of_cons; [simpl; rewrite Hxc, IH; [done|done|left]|apply IH; [done|by right]].
Qed.

Lemma length_str_take n s : String.length (str_take n s) = Nat.min n (String.length s).
Proof. revert n. induction s as [|c s IH]; intros [|n]; simpl; [done..|]. by rewrite IH. Qed.

Lemma length_str_drop n s : String.length (str_drop n s) = (String.length s - n)%nat.
Proof. revert n. induction s as [|c s IH]; intros [|n]; simpl; [done..|]. by rewrite IH. Qed.

Lemma str_take_drop_take n m s : (n <= m)%nat -> str_take n s +:+ str_take (m - n) (str_drop n s) = str_take m s.
Proof.
  revert n m. induction s as [|c s IH]; intros [|n] [|m] Hle; simpl; try done; try lia; [by destruct (m - n)%nat|].
  by rewrite <- (IH n m) by lia.
Qed.

Lemma str_take_drop n s : str_take n s +:+ str_drop n s = s.
Proof. revert n. induction s as [|c s IH]; intros [|n]; simpl; try done.
  change (String c (str_take n s +:+ str_drop n s) = String c s). by rewrite IH. Qed.

Lemma str_take_ge n s : (String.length s <= n)%nat -> str_take n s = s.
Proof. revert n. induction s as [|c s IH]; intros [|n] Hle; simpl in *; try done; [lia|]. rewrite IH by lia. done. Qed.

Lemma str_drop_ge n s : (String.length s <= n)%nat -> str_drop n s = "".
Proof. revert n. induction s as [|c s IH]; intros [|n] Hle; simpl in *; try done; [lia|]. apply IH. lia. Qed.

Lemma str_app_nil s : s +:+ "" = s.
Proof. induction s as [|c s IH]; simpl; [done|]. by rewrite <- IH at 2. Qed.

Lemma str_app_length s t : String.length (s +:+ t) = (String.length s + String.length t)%nat.
Proof. induction s as [|c s IH]; [done|]. change (S (String.length (s +:+ t)) = S (String.length s + String.length t)%nat). by rewrite IH. Qed.

Lemma str_contains_mid a s b : str_contains (a +:+ s +:+ b) s = true.
Proof.
  assert (Hp : forall s b, has_prefix s (s +:+ b) = true) by (intros x y; induction x as [|c x IH]; [done|]; change (Ascii.eqb c c && has_prefix x (x +:+ y) = true); by rewrite Ascii.eqb_refl, IH).
  induction a as [|c a IH]; [change ("" +:+ s +:+ b) with (s +:+ b); destruct (s +:+ b) eqn:E; cbn [str_contains]; by rewrite <- E, Hp|].
  change (String c a +:+ s +:+ b) with (String c (a +:+ s +:+ b)). cbn [str_contains]. by rewrite IH, orb_true_r.
Qed.
