(* ===== verification/Effects.v ===== *)
(** * Operations that change a state and can fail

    Handlers of the services thread a state through many calls, each of which can
    return an error, and leave early with the changes made so far.  [eff St E A] is
    such an operation; a call that only reads is lifted with [reads], and
    [ignoring] is a call whose error is logged and dropped. *)

From S2P Require Import Prelude.

Definition eff (St E A : Type) : Type := St -> St * result E A.

Section operations.
Context {St E : Type}.

#[global] Instance eff_ret : MRet (eff St E) := fun A a s => (s, Ok a).
#[global] Instance eff_bind : MBind (eff St E) := fun A B f m s =>
  match m s with
  | (s', Ok a) => f a s'
  | (s', Err e) => (s', Err e)
  end.

Definition fails {A} (e : E) : eff St E A := fun s => (s, Err e).
Definition get : eff St E St := fun s => (s, Ok s).
Definition modify (f : St -> St) : eff St E () := fun s => (f s, Ok ()).
Definition reads {A} (f : St -> result E A) : eff St E A := fun s => (s, f s).

(** A call that returns only an error. *)
Definition calls (f : St -> St * option E) : eff St E () := fun s =>
  match f s with (s', None) => (s', Ok ()) | (s', Some e) => (s', Err e) end.

(** [if err := m(); err != nil { return wrap(err) }]. *)
Definition wrapping {A} (wrap : E -> E) (m : eff St E A) : eff St E A := fun s =>
  match m s with (s', Ok a) => (s', Ok a) | (s', Err e) => (s', Err (wrap e)) end.

(** [if err := m(); err != nil { log }]. *)
Definition ignoring {A} (m : eff St E A) : eff St E () := fun s => ((m s).1, Ok ()).

(** [for _, x := range l { if err := f(x); err != nil { return err } }]. *)
Fixpoint for_each {T} (l : list T) (f : T -> eff St E ()) : eff St E () :=
  match l with
  | [] => mret ()
  | x :: l' => f x ≫= fun _ => for_each l' f
  end.

(** *** Reasoning *)

Lemma eff_bind_inv {A B} (m : eff St E A) (f : A -> eff St E B) s s' r :
  (m ≫= f) s = (s', r) ->
  (exists e, m s = (s', Err e) /\ r = Err e) \/ (exists s1 a, m s = (s1, Ok a) /\ f a s1 = (s', r)).
Proof.
  unfold mbind, eff_bind. destruct (m s) as [s1 [a|e]] eqn:Hm; intros Hf.
  - right. eauto.
  - left. exists e. naive_solver.
Qed.

Lemma eff_bind_Ok {A B} (m : eff St E A) (f : A -> eff St E B) s s' b :
  (m ≫= f) s = (s', Ok b) <-> exists s1 a, m s = (s1, Ok a) /\ f a s1 = (s', Ok b).
Proof.
  split.
  - intros [(e & _ & He)|H]%eff_bind_inv; [done|exact H].
  - intros (s1 & a & Hm & Hf). unfold mbind, eff_bind. by rewrite Hm.
Qed.

Lemma wrapping_Ok_iff {A} wrap (m : eff St E A) s s' a : wrapping wrap m s = (s', Ok a) <-> m s = (s', Ok a).
Proof. unfold wrapping. destruct (m s) as [? [|]]; naive_solver. Qed.

(** [leaves R m]: whatever [m] returns, its final state is related to the initial one. *)
Definition leaves (R : St -> St -> Prop) {A} (m : eff St E A) : Prop := forall s, R s (m s).1.

Lemma leaves_ret R `{!Reflexive R} {A} (a : A) : leaves R (mret a).
Proof. intros s. simpl. reflexivity. Qed.

Lemma leaves_fails R `{!Reflexive R} {A} (e : E) : leaves R (fails (A := A) e).
Proof. intros s. simpl. reflexivity. Qed.

Lemma leaves_reads R `{!Reflexive R} {A} (f : St -> result E A) : leaves R (reads f).
Proof. intros s. simpl. reflexivity. Qed.

Lemma leaves_bind R `{!Transitive R} {A B} (m : eff St E A) (f : A -> eff St E B) :
  leaves R m -> (forall a, leaves R (f a)) -> leaves R (m ≫= f).
Proof.
  intros Hm Hf s. unfold mbind, eff_bind. specialize (Hm s).
  destruct (m s) as [s1 [a|e]]; simpl in *; [|done]. etrans; [exact Hm|]. apply Hf.
Qed.

Lemma leaves_wrapping R {A} wrap (m : eff St E A) : leaves R m -> leaves R (wrapping wrap m).
Proof. intros Hm s. unfold wrapping. specialize (Hm s). by destruct (m s) as [? [|]]. Qed.

Lemma leaves_ignoring R {A} (m : eff St E A) : leaves R m -> leaves R (ignoring m).
Proof. intros Hm s. apply Hm. Qed.

Lemma leaves_for_each R `{!Reflexive R, !Transitive R} {T} (l : list T) (f : T -> eff St E ()) :
  (forall x, x ∈ l -> leaves R (f x)) -> leaves R (for_each l f).
Proof.
  induction l as [|x l IH]; intros Hf; simpl; [by apply leaves_ret|].
  apply leaves_bind; [done|apply Hf; left|]. intros _. apply IH. intros y Hy. apply Hf. by right.
Qed.

(** [triple P m Q]: from a state with [P], the final state has [Q], whatever [m] returns. *)
Definition triple (P : St -> Prop) {A} (m : eff St E A) (Q : St -> Prop) : Prop := forall s, P s -> Q (m s).1.

Lemma triple_bind (P Q : St -> Prop) {A B} (m : eff St E A) (f : A -> eff St E B) :
  triple P m P -> (forall a, triple P (f a) Q) -> (forall s, P s -> Q s) -> triple P (m ≫= f) Q.
Proof.
  intros Hm Hf Hw s HP. unfold mbind, eff_bind. specialize (Hm s HP).
  destruct (m s) as [s1 [a|e]]; simpl in *; [by apply Hf|by apply Hw].
Qed.

Lemma triple_seq (P R Q : St -> Prop) {A B} (m : eff St E A) (f : A -> eff St E B) :
  triple P m R -> (forall a, triple R (f a) Q) -> (forall s, R s -> Q s) -> triple P (m ≫= f) Q.
Proof.
  intros Hm Hf Hw s HP. unfold mbind, eff_bind. specialize (Hm s HP).
  destruct (m s) as [s1 [a|e]]; simpl in *; [by apply Hf|by apply Hw].
Qed.

Lemma triple_ret (P : St -> Prop) {A} (a : A) : triple P (mret a) P.
Proof. intros s HP. exact HP. Qed.

Lemma triple_reads (P : St -> Prop) {A} (f : St -> result E A) : triple P (reads f) P.
Proof. intros s HP. exact HP. Qed.

Lemma triple_wrapping (P Q : St -> Prop) {A} wrap (m : eff St E A) : triple P m Q -> triple P (wrapping wrap m) Q.
Proof. intros Hm s HP. specialize (Hm s HP). unfold wrapping. by destruct (m s) as [? [|]]. Qed.

Lemma leaves_triple (R : St -> St -> Prop) (P : St -> Prop) {A} (m : eff St E A) :
  leaves R m -> (forall s s', R s s' -> P s -> P s') -> triple P m P.
Proof. intros Hm HR s HP. by apply (HR s), HP. Qed.

(** [wp m Q s]: the outcome and the final state of [m] from [s] satisfy [Q]. *)
Definition wp {A} (m : eff St E A) (Q : result E A -> St -> Prop) (s : St) : Prop := Q (m s).2 (m s).1.

Lemma wp_bind {A B} (m : eff St E A) (f : A -> eff St E B) Q s :
  wp m (fun r s1 => match r with Ok a => wp (f a) Q s1 | Err e => Q (Err e) s1 end) s -> wp (m ≫= f) Q s.
Proof. unfold wp, mbind, eff_bind. by destruct (m s) as [s1 [a|e]]. Qed.

Lemma wp_wrapping {A} wrap (m : eff St E A) Q s :
  wp m (fun r s1 => Q (match r with Ok a => Ok a | Err e => Err (wrap e) end) s1) s -> wp (wrapping wrap m) Q s.
Proof. unfold wp, wrapping. by destruct (m s) as [s1 [a|e]]. Qed.

Lemma wp_reads {A} (f : St -> result E A) Q s : Q (f s) s -> wp (reads f) Q s.
Proof. done. Qed.

Lemma wp_get Q s : Q (Ok s) s -> wp get Q s.
Proof. done. Qed.

Lemma wp_ignoring {A} (m : eff St E A) Q s : wp m (fun _ s' => Q (Ok ()) s') s -> wp (ignoring m) Q s.
Proof. done. Qed.

Lemma wp_mono {A} (m : eff St E A) (Q Q' : result E A -> St -> Prop) s :
  (forall r s', Q r s' -> Q' r s') -> wp m Q s -> wp m Q' s.
Proof. unfold wp. eauto. Qed.

(** What [m] leaves related is all that is needed of its final state. *)
Lemma wp_leaves {A} (R : St -> St -> Prop) (m : eff St E A) (Q : result E A -> St -> Prop) s :
  leaves R m -> (forall r s', R s s' -> Q r s') -> wp m Q s.
Proof. intros Hm HQ. apply HQ, Hm. Qed.

End operations.

#[export] Hint Resolve triple_ret triple_reads triple_wrapping : bridge.
#[export] Hint Resolve leaves_ret leaves_fails leaves_reads leaves_bind leaves_wrapping leaves_ignoring : bridge.
