(* ===== verification/SendRecorder.v ===== *)
(** * Send recorder (internal/services/sendrecorder/recorder.go)

    The recorder deduplicates outgoing mail: SMTP and the IMAP append path ask
    it for permission to send a message (a hash plus its recipient list), and a
    second attempt waits for the first one.  This file holds the recorder's
    state, every operation that runs under [entriesLock], the two blocking
    operations as thread state machines interleaved with the operations of
    other goroutines, the well-formedness invariant and the deduplication
    theorems. *)

From S2P Require Import Prelude.

(** ** State *)

(** [type sendEntry struct]; a channel is named by a number. *)
Record sendEntry : Type := mkEntry {
  srID : Z;
  msgID : string;
  toList : list string;
  exp : Z;
  waitCh : nat;
  waitChClosed : bool
}.

(** [type SendRecorder struct].  [chans] is the part of the Go heap the
    recorder allocates: every channel it made, [true] once closed; [nextChan]
    names the next one. *)
Record SendRecorder : Type := mkRecorder {
  expiry : Z;
  entries : gmap string (list sendEntry);
  cancelIDCounter : Z;
  chans : gmap nat bool;
  nextChan : nat
}.

Definition with_entries (es : gmap string (list sendEntry)) (h : SendRecorder) : SendRecorder :=
  mkRecorder (expiry h) es (cancelIDCounter h) (chans h) (nextChan h).
Definition with_chans (cs : gmap nat bool) (h : SendRecorder) : SendRecorder :=
  mkRecorder (expiry h) (entries h) (cancelIDCounter h) cs (nextChan h).

Definition NewSendRecorder (expiry : Z) : SendRecorder := mkRecorder expiry ∅ 0 ∅ 0.

(** ** Operations *)

Definition matchToList (a b : list string) : bool :=
  if negb (Nat.eqb (length a) (length b)) then false
  else if negb (forallb (fun x => Contains b x) a) then false
  else forallb (fun x => Contains a x) b.

(** Closing a closed channel panics: [None]. *)
Definition close_chan (c : nat) (cs : gmap nat bool) : option (gmap nat bool) :=
  match cs !! c with
  | Some false => Some (<[c := true]> cs)
  | _ => None
  end.

Definition closeWaitChannel (s : sendEntry) (cs : gmap nat bool)
    : option (sendEntry * gmap nat bool) :=
  if negb (waitChClosed s) then
    cs' ← close_chan (waitCh s) cs;
    Some (mkEntry (srID s) (msgID s) (toList s) (exp s) (waitCh s) true, cs')
  else Some (s, cs).

(** The sweep; [now] is the reading of the clock. *)
Definition remaining (now : Z) (l : list sendEntry) : option (list sendEntry) :=
  match Filter l (fun t => negb (exp t <? now)) with
  | [] => None
  | r => Some r
  end.

Definition removeExpiredUnsafe (now : Z) (h : SendRecorder) : SendRecorder :=
  with_entries (omap (remaining now) (entries h)) h.

Definition newSendRecorderID (h : SendRecorder) : SendRecorder * Z :=
  let c := u64 (cancelIDCounter h + 1) in
  (mkRecorder (expiry h) (entries h) c (chans h) (nextChan h), c).

(** [make(chan struct{})]. *)
Definition make_chan (h : SendRecorder) : SendRecorder * nat :=
  (mkRecorder (expiry h) (entries h) (cancelIDCounter h)
     (<[nextChan h := false]> (chans h)) (S (nextChan h)), nextChan h).

(** [now] is read by the sweep, [now'] when the new entry is stamped. *)
Definition TryInsert (now now' : Z) (hash : string) (to : list string) (h : SendRecorder)
    : SendRecorder * (Z * nat * bool) :=
  let h := removeExpiredUnsafe now h in
  let es := default [] (entries h !! hash) in
  match find_first (fun e => matchToList (toList e) to) es with
  | Some e => (h, (srID e, waitCh e, false))
  | None =>
      let '(h, cancelID) := newSendRecorderID h in
      let '(h, ch) := make_chan h in
      let e := mkEntry cancelID "" to (now' + expiry h) ch false in
      (with_entries (<[hash := es ++ [e]]> (entries h)) h, (cancelID, ch, true))
  end.

Definition getEntryWaitInfo (now : Z) (hash : string) (to : list string) (h : SendRecorder)
    : SendRecorder * option (Z * nat) :=
  let h := removeExpiredUnsafe now h in
  (h, match entries h !! hash with
      | Some es => (fun e => (srID e, waitCh e)) <$>
                   find_first (fun e => matchToList (toList e) to) es
      | None => None
      end).

(** The loop of [SignalMessageSent] over the entries of one hash. *)
Fixpoint signal_entry (id : Z) (msg : string) (l : list sendEntry) (cs : gmap nat bool)
    : option (list sendEntry * gmap nat bool) :=
  match l with
  | [] => Some ([], cs)
  | e :: l' =>
      if srID e =? id then
        '(e', cs') ← closeWaitChannel
                       (mkEntry (srID e) msg (toList e) (exp e) (waitCh e) (waitChClosed e)) cs;
        Some (e' :: l', cs')
      else '(l'', cs') ← signal_entry id msg l' cs; Some (e :: l'', cs')
  end.

Definition SignalMessageSent (hash : string) (id : Z) (msg : string) (h : SendRecorder)
    : option SendRecorder :=
  match entries h !! hash with
  | Some es =>
      '(es', cs') ← signal_entry id msg es (chans h);
      Some (with_chans cs' (with_entries (<[hash := es']> (entries h)) h))
  | None => Some h
  end.

Fixpoint close_all (l : list sendEntry) (cs : gmap nat bool) : option (gmap nat bool) :=
  match l with
  | [] => Some cs
  | e :: l' => '(_, cs') ← closeWaitChannel e cs; close_all l' cs'
  end.

Definition RemoveOnFail (hash : string) (id : Z) (h : SendRecorder) : option SendRecorder :=
  match entries h !! hash with
  | None => Some h
  | Some es =>
      let toClose := Filter es (fun e => (srID e =? id) && String.eqb (msgID e) "") in
      let toKeep := Filter es (fun t => negb (srID t =? id) || negb (String.eqb (msgID t) "")) in
      cs' ← close_all toClose (chans h);
      let es' := match toKeep with
                 | [] => delete hash (entries h)
                 | _ => <[hash := toKeep]> (entries h)
                 end in
      Some (with_chans cs' (with_entries es' h))
  end.

(** [wait] after its [select] chose the channel: the locked lookup.  [None] is
    [("", false, nil)]. *)
Definition wait_lookup (hash : string) (id : Z) (h : SendRecorder) : option string :=
  match entries h !! hash with
  | Some es => msgID <$> find_first (fun e => srID e =? id) es
  | None => None
  end.

(** ** The blocking operations as threads

    [wait] blocks in a [select] on the context (or the deadline) and on the
    entry's channel, so [TryInsertWait] and [HasEntryWait] are state machines
    whose steps interleave with the critical sections of other goroutines. *)

(** The cases of the [select] in [wait] that are ready: [ctxErr] is the error
    of the derived context when it is done. *)
Inductive selected : Type := SelDone (deadlineExceeded : bool) | SelWaitCh.

Definition ready (ctxErr : option bool) (ch : nat) (h : SendRecorder) (c : selected) : bool :=
  match c with
  | SelDone d => match ctxErr with Some d' => Bool.eqb d d' | None => false end
  | SelWaitCh => match chans h !! ch with Some true => true | _ => false end
  end.

(** [TryInsertWait]: about to call [TryInsert], blocked in [wait], returned. *)
Inductive tiw_state : Type :=
| TIWStart
| TIWWaiting (id : Z) (ch : nat)
| TIWReturned (id : Z) (inserted : bool)
| TIWFailed.

Definition tiw_try (now now' : Z) (hash : string) (to : list string) (h : SendRecorder)
    : SendRecorder * tiw_state :=
  let '(h', (id, ch, ok)) := TryInsert now now' hash to h in
  (h', if ok then TIWReturned id true else TIWWaiting id ch).

Definition tiw_wake (hash : string) (c : selected) (id : Z) (h : SendRecorder) : tiw_state :=
  match c with
  | SelDone _ => TIWFailed
  | SelWaitCh => match wait_lookup hash id h with
                 | Some _ => TIWReturned id false
                 | None => TIWStart
                 end
  end.


(** [HasEntryWait]: its results are [("", false, nil)], an error, and
    [(messageID, true, nil)]. *)
Inductive hew_state : Type :=
| HEWStart
| HEWWaiting (id : Z) (ch : nat)
| HEWNotFound
| HEWFound (messageID : string)
| HEWFailed.

Definition hew_try (now : Z) (hash : string) (to : list string) (h : SendRecorder)
    : SendRecorder * hew_state :=
  let '(h', r) := getEntryWaitInfo now hash to h in
  (h', match r with Some (id, ch) => HEWWaiting id ch | None => HEWNotFound end).

Definition hew_wake (hash : string) (c : selected) (id : Z) (h : SendRecorder) : hew_state :=
  match c with
  | SelDone deadlineExceeded => if deadlineExceeded then HEWNotFound else HEWFailed
  | SelWaitCh => match wait_lookup hash id h with
                 | Some m => HEWFound m
                 | None => HEWStart
                 end
  end.


(** ** Runs of the recorder

    The critical sections other goroutines run, in any order. *)
Inductive op : Type :=
| OpTryInsert (now now' : Z) (hash : string) (to : list string)
| OpGetEntry (now : Z) (hash : string) (to : list string)
| OpSignal (hash : string) (id : Z) (msg : string)
| OpRemove (hash : string) (id : Z).

Definition run_op (o : op) (h : SendRecorder) : option SendRecorder :=
  match o with
  | OpTryInsert now now' hash to => Some (TryInsert now now' hash to h).1
  | OpGetEntry now hash to => Some (getEntryWaitInfo now hash to h).1
  | OpSignal hash id msg => SignalMessageSent hash id msg h
  | OpRemove hash id => RemoveOnFail hash id h
  end.

Fixpoint run_ops (os : list op) (h : SendRecorder) : option SendRecorder :=
  match os with
  | [] => Some h
  | o :: os' => h' ← run_op o h; run_ops os' h'
  end.

(** Runs of one [TryInsertWait] (one [HasEntryWait]) thread and its environment
    from a new recorder; the list is the critical sections run so far, the
    thread's own included. *)
Inductive TryInsertWait_run (ex : Z) (hash : string) (to : list string)
  : list op -> SendRecorder -> tiw_state -> Prop :=
| tiw_run_start : TryInsertWait_run ex hash to [] (NewSendRecorder ex) TIWStart
| tiw_run_env os h st o h' :
    TryInsertWait_run ex hash to os h st -> run_op o h = Some h' ->
    TryInsertWait_run ex hash to (os ++ [o]) h' st
| tiw_run_try os h now now' h' st' :
    TryInsertWait_run ex hash to os h TIWStart -> tiw_try now now' hash to h = (h', st') ->
    TryInsertWait_run ex hash to (os ++ [OpTryInsert now now' hash to]) h' st'
| tiw_run_wake os h id ch ctxErr c :
    TryInsertWait_run ex hash to os h (TIWWaiting id ch) -> ready ctxErr ch h c = true ->
    TryInsertWait_run ex hash to os h (tiw_wake hash c id h).

Inductive HasEntryWait_run (ex : Z) (hash : string) (to : list string)
  : list op -> SendRecorder -> hew_state -> Prop :=
| hew_run_start : HasEntryWait_run ex hash to [] (NewSendRecorder ex) HEWStart
| hew_run_env os h st o h' :
    HasEntryWait_run ex hash to os h st -> run_op o h = Some h' ->
    HasEntryWait_run ex hash to (os ++ [o]) h' st
| hew_run_try os h now h' st' :
    HasEntryWait_run ex hash to os h HEWStart -> hew_try now hash to h = (h', st') ->
    HasEntryWait_run ex hash to (os ++ [OpGetEntry now hash to]) h' st'
| hew_run_wake os h id ch ctxErr c :
    HasEntryWait_run ex hash to os h (HEWWaiting id ch) -> ready ctxErr ch h c = true ->
    HasEntryWait_run ex hash to os h (hew_wake hash c id h).

(** ** Well-formedness *)

(** Entry [e] is recorded under [k]. *)
Definition present (h : SendRecorder) (k : string) (e : sendEntry) : Prop :=
  exists l, entries h !! k = Some l /\ e ∈ l.

(** An entry's identifier has been handed out, its channel is the one made with
    that identifier, and [waitChClosed] mirrors the state of the channel. *)
Definition entry_ok (h : SendRecorder) (e : sendEntry) : Prop :=
  0 < srID e <= cancelIDCounter h /\
  Z.of_nat (waitCh e) = srID e - 1 /\
  chans h !! waitCh e = Some (waitChClosed e).

Record wf (h : SendRecorder) : Prop := {
  wf_counter : Z.of_nat (nextChan h) = cancelIDCounter h;
  wf_nonempty : forall k, entries h !! k <> Some [];
  wf_nodup : forall k l, entries h !! k = Some l -> NoDup (srID <$> l);
  wf_entry : forall k e, present h k e -> entry_ok h e;
  wf_id : forall k1 k2 e1 e2, present h k1 e1 -> present h k2 e2 ->
          srID e1 = srID e2 -> k1 = k2 /\ e1 = e2;
  wf_match : forall k e1 e2, present h k e1 -> present h k e2 ->
          matchToList (toList e1) (toList e2) = true -> e1 = e2
}.

(** *** Recipient lists *)

Lemma matchToList_spec a b :
  matchToList a b = true <-> length a = length b /\ forall x, x ∈ a <-> x ∈ b.
Proof.
  unfold matchToList, Contains.
  destruct (Nat.eqb_spec (length a) (length b)) as [Hl|Hl]; simpl; [|naive_solver].
  destruct (forallb _ a) eqn:Ha; simpl.
  - rewrite forallb_forall in *. setoid_rewrite <- list_elem_of_In.
    setoid_rewrite <- list_elem_of_In in Ha.
    setoid_rewrite bool_decide_eq_true. setoid_rewrite bool_decide_eq_true in Ha. naive_solver.
  - split; [done|]. intros [_ H]. apply not_true_iff_false in Ha. exfalso. apply Ha.
    apply forallb_forall. intros x Hx. apply bool_decide_eq_true, H, list_elem_of_In, Hx.
Qed.

(** [matchToList] is an equivalence, so "the same recipients" is well defined. *)
Lemma matchToList_refl a : matchToList a a = true.
Proof. by apply matchToList_spec. Qed.

Lemma matchToList_sym a b : matchToList a b = true -> matchToList b a = true.
Proof. rewrite !matchToList_spec. intros [? H]. split; [done|]. intros x. by rewrite H. Qed.

Lemma matchToList_trans a b c :
  matchToList a b = true -> matchToList b c = true -> matchToList a c = true.
Proof.
  rewrite !matchToList_spec. intros [? H1] [? H2]. split; [congruence|].
  intros x. by rewrite H1.
Qed.

#[export] Hint Resolve matchToList_refl matchToList_sym : bridge.

(** *** What each operation does to the set of recorded entries *)

Lemma present_sweep now h k e :
  present (removeExpiredUnsafe now h) k e <-> present h k e /\ now <= exp e.
Proof.
  unfold present, removeExpiredUnsafe; simpl. setoid_rewrite lookup_omap.
  unfold remaining. split.
  - intros (l & Hl & He). destruct (entries h !! k) as [l0|]; simpl in Hl; [|done].
    assert (e ∈ Filter l0 (fun t => negb (exp t <? now))) as He'
      by (break_match; simplify_eq; congruence || (by rewrite H)).
    apply elem_of_Filter in He' as [? ?]. boolp. naive_solver lia.
  - intros [(l0 & Hl & He) Hexp]. rewrite Hl; simpl.
    assert (e ∈ Filter l0 (fun t => negb (exp t <? now))) as He'.
    { apply elem_of_Filter. split; [done|]. apply negb_true_iff, Z.ltb_ge. lia. }
    destruct (Filter l0 _) eqn:HF; [set_solver|]. eauto.
Qed.

Lemma sweep_lookup now h k l :
  entries (removeExpiredUnsafe now h) !! k = Some l ->
  exists l0, entries h !! k = Some l0 /\ l = Filter l0 (fun t => negb (exp t <? now)) /\ l <> [].
Proof.
  unfold removeExpiredUnsafe, remaining; simpl. rewrite lookup_omap.
  destruct (entries h !! k) as [l0|]; simpl; [|done].
  destruct (Filter l0 _) eqn:HF; naive_solver.
Qed.

Lemma sweep_wf now h : wf h -> wf (removeExpiredUnsafe now h).
Proof.
  intros W. split.
  - apply W.
  - intros k Hk. apply sweep_lookup in Hk as (? & _ & _ & ?). done.
  - intros k l Hk. apply sweep_lookup in Hk as (l0 & Hl0 & -> & _).
    eapply NoDup_fmap_Filter, W, Hl0.
  - intros k e [He _]%present_sweep. apply W in He. exact He.
  - intros k1 k2 e1 e2 [H1 _]%present_sweep [H2 _]%present_sweep. by apply W.
  - intros k e1 e2 [H1 _]%present_sweep [H2 _]%present_sweep. by apply (wf_match h W k).
Qed.

(** The three outcomes of [TryInsert], against the swept state [h0]. *)
Lemma TryInsert_found now now' hash to h e :
  wf h -> present h hash e -> now <= exp e -> matchToList (toList e) to = true ->
  TryInsert now now' hash to h = (removeExpiredUnsafe now h, (srID e, waitCh e, false)).
Proof.
  intros W He Hexp Hm. assert (wf (removeExpiredUnsafe now h)) as W0 by by apply sweep_wf.
  assert (present (removeExpiredUnsafe now h) hash e) as He0 by by apply present_sweep.
  unfold TryInsert. destruct He0 as (l & Hl & Hel). rewrite Hl. simpl.
  rewrite (find_first_unique _ l e); [done..|].
  intros x Hx Hxm. apply (wf_match _ W0 hash); [by exists l..|].
  by apply matchToList_trans with to; [|apply matchToList_sym].
Qed.

Lemma TryInsert_false_inv now now' hash to h h' id ch :
  TryInsert now now' hash to h = (h', (id, ch, false)) ->
  h' = removeExpiredUnsafe now h /\
  exists e, present h' hash e /\ matchToList (toList e) to = true /\ id = srID e /\ ch = waitCh e.
Proof.
  unfold TryInsert. destruct (find_first _ _) as [e|] eqn:Hf; intros Heq; simplify_eq/=.
  split; [done|]. apply find_first_Some in Hf as [Hin Hm]. exists e.
  split; [|done]. unfold present. simpl.
  destruct (omap (remaining now) (entries h) !! hash) as [l|] eqn:Hl; simpl in Hin; [eauto|set_solver].
Qed.

Lemma TryInsert_true_inv now now' hash to h h' id ch :
  TryInsert now now' hash to h = (h', (id, ch, true)) ->
  let h0 := removeExpiredUnsafe now h in
  let es := default [] (entries h0 !! hash) in
  let e := mkEntry id "" to (now' + expiry h) ch false in
  (forall x, present h0 hash x -> matchToList (toList x) to = false) /\
  id = u64 (cancelIDCounter h + 1) /\ ch = nextChan h /\
  h' = mkRecorder (expiry h) (<[hash := es ++ [e]]> (entries h0)) id
         (<[ch := false]> (chans h)) (S ch).
Proof.
  unfold TryInsert. destruct (find_first _ _) as [e|] eqn:Hf; intros Heq; simplify_eq/=.
  split; [|done]. intros x (l & Hl & Hx). simpl in Hl. rewrite Hl in Hf.
  eapply find_first_None in Hf; eauto.
Qed.

(** Entries after a successful insertion: the swept ones and the new one. *)
Lemma present_insert h0 ex hash e c cs n k x :
  present (mkRecorder ex (<[hash := default [] (entries h0 !! hash) ++ [e]]> (entries h0)) c cs n) k x
  <-> present h0 k x \/ (k = hash /\ x = e).
Proof.
  unfold present; simpl. destruct (decide (k = hash)) as [->|Hne].
  - rewrite lookup_insert_eq. destruct (entries h0 !! hash) as [l|] eqn:Hl; simpl; split.
    + intros (? & [= <-] & [?| ->%list_elem_of_singleton]%elem_of_app); eauto.
    + intros [(? & [= <-] & ?)|[_ ->]]; eexists; split; [done|set_solver|done|set_solver].
    + intros (? & [= <-] & ->%list_elem_of_singleton); eauto.
    + intros [(? & [=] & ?)|[_ ->]]. eexists; split; [done|set_solver].
  - rewrite lookup_insert_ne by done. naive_solver.
Qed.

Lemma TryInsert_wf now now' hash to h :
  wf h -> cancelIDCounter h + 1 < two64 -> wf (TryInsert now now' hash to h).1.
Proof.
  intros W Hc. destruct (TryInsert now now' hash to h) as [h' [[id ch] ok]] eqn:HT.
  simpl. destruct ok; [|apply TryInsert_false_inv in HT as [-> _]; by apply sweep_wf].
  apply TryInsert_true_inv in HT as (Hnew & Hid & Hch & ->).
  pose proof (sweep_wf now h W) as W0. pose proof (wf_counter h W) as Hcnt.
  rewrite u64_id in Hid by (split; lia).
  assert (cancelIDCounter (removeExpiredUnsafe now h) = cancelIDCounter h) as Hc0 by done.
  assert (chans (removeExpiredUnsafe now h) = chans h) as Hcs0 by done.
  cbv zeta in *. revert W0 Hnew Hc0 Hcs0. generalize (removeExpiredUnsafe now h) as h0.
  intros h0 W0 Hnew Hc0 Hcs0.
  set (e := mkEntry id "" to (now' + expiry h) ch false) in *.
  assert (forall k x, present h0 k x -> srID x <> id /\ waitCh x <> ch) as Hfresh.
  { intros k x Hx. apply W0 in Hx as ([_ Hle] & Hw & _). lia. }
  split; simpl.
  - lia.
  - intros k. destruct (decide (k = hash)) as [->|?].
    + rewrite lookup_insert_eq. by destruct (default [] _).
    + rewrite lookup_insert_ne by done. apply W0.
  - intros k l. destruct (decide (k = hash)) as [->|?].
    + rewrite lookup_insert_eq. intros [= <-]. rewrite fmap_app. apply NoDup_app.
      split; [|split; [|apply NoDup_singleton]].
      * destruct (_ !! hash) eqn:Hl; simpl; [by apply (wf_nodup _ W0 hash)|constructor].
      * intros i (x & Hi & Hx)%list_elem_of_fmap Hi'%list_elem_of_singleton. simpl in Hi'.
        destruct (_ !! hash) as [l0|] eqn:Hl; simpl in Hx; [|set_solver].
        destruct (Hfresh hash x) as [? _]; [by exists l0|congruence].
    + rewrite lookup_insert_ne by done. apply W0.
  - intros k x [Hx|[-> ->]]%present_insert.
    + pose proof (Hfresh k x Hx) as [_ ?]. apply W0 in Hx as (? & ? & ?). simpl in *.
      split; simpl; [lia|]. split; [done|]. rewrite lookup_insert_ne by done. congruence.
    + split; simpl; [lia|]. split; [lia|]. apply lookup_insert_eq.
  - intros k1 k2 x1 x2 [H1|[-> ->]]%present_insert [H2|[-> ->]]%present_insert Heq; simpl in *.
    + by apply (wf_id _ W0).
    + by apply Hfresh in H1 as [? _].
    + by apply Hfresh in H2 as [? _].
    + done.
  - intros k x1 x2 [H1|[Hk1 ->]]%present_insert [H2|[Hk2 ->]]%present_insert Hm; subst; simpl in *.
    + by apply (wf_match _ W0 k).
    + apply Hnew in H1. congruence.
    + apply Hnew in H2. apply matchToList_sym in Hm. congruence.
    + done.
Qed.

(** What [SignalMessageSent] makes of an entry with the signalled identifier. *)
Definition signalled (msg : string) (e : sendEntry) : sendEntry :=
  mkEntry (srID e) msg (toList e) (exp e) (waitCh e) true.
Definition sig_map (id : Z) (msg : string) (e : sendEntry) : sendEntry :=
  if srID e =? id then signalled msg e else e.

Lemma closeWaitChannel_ok e cs :
  cs !! waitCh e = Some (waitChClosed e) ->
  closeWaitChannel e cs =
    Some (mkEntry (srID e) (msgID e) (toList e) (exp e) (waitCh e) true, <[waitCh e := true]> cs).
Proof.
  intros H. unfold closeWaitChannel, close_chan. destruct e as [i m t x w []]; simpl in *.
  - by rewrite insert_id.
  - by rewrite H.
Qed.

Lemma sig_map_ne id msg (l : list sendEntry) : id ∉ srID <$> l -> sig_map id msg <$> l = l.
Proof.
  intros Hid. rewrite <-(list_fmap_id l) at 2. apply list_fmap_ext. intros i x Hx.
  unfold sig_map. destruct (Z.eqb_spec (srID x) id); [|done]. exfalso. apply Hid.
  apply list_elem_of_fmap. exists x. split; [done|]. by eapply list_elem_of_lookup_2.
Qed.

(** The loop of [SignalMessageSent] rewrites the one matching entry and closes
    its channel. *)
Lemma signal_entry_ok id msg l cs :
  NoDup (srID <$> l) -> (forall e, e ∈ l -> cs !! waitCh e = Some (waitChClosed e)) ->
  exists cs', signal_entry id msg l cs = Some (sig_map id msg <$> l, cs') /\
    (forall e, e ∈ l -> srID e = id -> cs' !! waitCh e = Some true) /\
    (forall c, (forall e, e ∈ l -> srID e = id -> waitCh e <> c) -> cs' !! c = cs !! c).
Proof.
  induction l as [|e l IH]; simpl; intros Hnd Hcs.
  { exists cs. split; [done|]. split; [|done]. intros e He. by apply elem_of_nil in He. }
  pose proof (Hcs e (list_elem_of_here _ _)) as Hcse.
  assert (forall x, x ∈ l -> x ∈ e :: l) as Hsub by (intros; by apply list_elem_of_further).
  apply NoDup_cons in Hnd as [Hni Hnd]. unfold sig_map at 1.
  destruct (Z.eqb_spec (srID e) id) as [<-|Hne].
  - rewrite closeWaitChannel_ok by done. simpl. rewrite sig_map_ne by done.
    eexists. split; [done|]. split.
    + intros x [->|Hx]%elem_of_cons Hid; [apply lookup_insert_eq|].
      exfalso. apply Hni. rewrite <-Hid. by apply list_elem_of_fmap_2.
    + intros c Hc. apply lookup_insert_ne, Hc; [apply list_elem_of_here|done].
  - destruct IH as (cs' & -> & Hin & Hout); [done|eauto|]. simpl. eexists. split; [done|].
    split; [|eauto]. intros x [->|Hx]%elem_of_cons ?; [done|eauto].
Qed.

Definition sig_at (hash : string) (id : Z) (msg : string) (k : string) (e : sendEntry) : sendEntry :=
  if decide (k = hash) then sig_map id msg e else e.

Lemma sig_at_proj hash id msg k e :
  srID (sig_at hash id msg k e) = srID e /\ toList (sig_at hash id msg k e) = toList e /\
  exp (sig_at hash id msg k e) = exp e /\ waitCh (sig_at hash id msg k e) = waitCh e.
Proof. unfold sig_at, sig_map. case_decide; [destruct (_ =? _)|]; done. Qed.

(** Equal identifiers determine the entry, its channel and its hash. *)
Lemma wf_chan h k1 k2 e1 e2 :
  wf h -> present h k1 e1 -> present h k2 e2 -> waitCh e1 = waitCh e2 -> k1 = k2 /\ e1 = e2.
Proof.
  intros W H1 H2 Hw. apply (wf_id h W); [done..|].
  apply W in H1 as (_ & ? & _). apply W in H2 as (_ & ? & _). lia.
Qed.

Lemma SignalMessageSent_ok hash id msg h :
  wf h -> exists h', SignalMessageSent hash id msg h = Some h' /\
    cancelIDCounter h' = cancelIDCounter h /\ expiry h' = expiry h /\
    (forall k x, present h' k x <-> exists e, present h k e /\ x = sig_at hash id msg k e) /\ wf h'.
Proof.
  intros W. unfold SignalMessageSent. destruct (entries h !! hash) as [l|] eqn:Hl.
  2: { exists h. split; [done|]. split; [done|]. split; [done|]. split; [|done].
       intros k x. unfold sig_at. split.
       - intros Hx. exists x. split; [done|]. destruct Hx as (l & Hk & _). case_decide; congruence.
       - intros (e & He & ->). pose proof He as (l & Hk & _). case_decide; [congruence|done]. }
  destruct (signal_entry_ok id msg l (chans h)) as (cs' & -> & Hin & Hout).
  { by eapply wf_nodup. }
  { intros e He. apply (wf_entry h W hash). by exists l. }
  simpl. eexists. split; [done|]. split; [done|]. split; [done|].
  match goal with |- _ /\ wf ?x => set (h' := x) end.
  assert (forall k x, present h' k x <-> exists e, present h k e /\ x = sig_at hash id msg k e) as Hp.
  { intros k x. unfold present, sig_at; simpl. destruct (decide (k = hash)) as [->|Hne].
    - rewrite lookup_insert_eq. split.
      + intros (? & [= <-] & (e & -> & He)%list_elem_of_fmap). eauto.
      + intros (e & (l' & ? & He) & ->). simplify_eq. eexists. split; [done|]. by apply list_elem_of_fmap_2.
    - rewrite lookup_insert_ne by done. naive_solver. }
  split; [done|]. split.
  - apply W.
  - intros k. simpl. destruct (decide (k = hash)) as [->|?].
    + rewrite lookup_insert_eq. intros [= Hnil]. apply fmap_nil_inv in Hnil as ->.
      by apply (wf_nonempty h W hash).
    + rewrite lookup_insert_ne by done. apply W.
  - intros k l'. simpl. destruct (decide (k = hash)) as [->|?].
    + rewrite lookup_insert_eq. intros [= <-]. rewrite <-list_fmap_compose.
      erewrite list_fmap_ext; [by eapply wf_nodup|].
      intros i x _. unfold compose, sig_map. by destruct (_ =? _).
    + rewrite lookup_insert_ne by done. apply W.
  - intros k x (e & He & ->)%Hp. unfold entry_ok.
    destruct (sig_at_proj hash id msg k e) as (-> & _ & _ & ->).
    pose proof (wf_entry h W k e He) as (? & ? & Hc). split; [done|]. split; [done|]. simpl.
    unfold sig_at, sig_map. case_decide as Hk; [subst k; destruct (Z.eqb_spec (srID e) id)|].
    + destruct He as (l' & ? & ?). simplify_eq. by apply Hin.
    + rewrite Hout; [done|]. intros e' He' Hid Hw. destruct (wf_chan h hash hash e' e) as [_ ->]; [done|by exists l|done..].
    + rewrite Hout; [done|]. intros e' He' Hid Hw.
      destruct (wf_chan h hash k e' e) as [-> _]; [done|by exists l|done..].
  - intros k1 k2 x1 x2 (e1 & He1 & ->)%Hp (e2 & He2 & ->)%Hp.
    destruct (sig_at_proj hash id msg k1 e1) as (-> & _). destruct (sig_at_proj hash id msg k2 e2) as (-> & _).
    intros Heq. by destruct (wf_id h W k1 k2 e1 e2) as [-> ->].
  - intros k x1 x2 (e1 & He1 & ->)%Hp (e2 & He2 & ->)%Hp.
    destruct (sig_at_proj hash id msg k e1) as (_ & -> & _). destruct (sig_at_proj hash id msg k e2) as (_ & -> & _).
    intros Hm. by rewrite (wf_match h W k e1 e2).
Qed.

Lemma close_all_ok l cs :
  NoDup (waitCh <$> l) -> (forall e, e ∈ l -> cs !! waitCh e = Some (waitChClosed e)) ->
  exists cs', close_all l cs = Some cs' /\
    (forall e, e ∈ l -> cs' !! waitCh e = Some true) /\
    (forall c, c ∉ waitCh <$> l -> cs' !! c = cs !! c).
Proof.
  revert cs. induction l as [|e l IH]; simpl; intros cs Hnd Hcs.
  { exists cs. split; [done|]. split; [|done]. intros e He. by apply elem_of_nil in He. }
  apply NoDup_cons in Hnd as [Hni Hnd].
  rewrite closeWaitChannel_ok by (apply Hcs, list_elem_of_here). simpl.
  destruct (IH (<[waitCh e := true]> cs)) as (cs' & -> & Hin & Hout); [done| |].
  { intros x Hx. rewrite lookup_insert_ne; [by apply Hcs, list_elem_of_further|].
    intros Heq. apply Hni. rewrite Heq. by apply list_elem_of_fmap_2. }
  eexists. split; [done|]. split.
  - intros x [->|Hx]%elem_of_cons; [|eauto]. rewrite Hout by done. apply lookup_insert_eq.
  - intros c [? ?]%not_elem_of_cons. rewrite Hout by done. by apply lookup_insert_ne.
Qed.

(** Dropping entries keeps the invariant, as long as the channels of the kept
    ones are untouched. *)
Lemma wf_restrict h h' :
  wf h -> nextChan h' = nextChan h -> cancelIDCounter h' = cancelIDCounter h ->
  (forall k l, entries h' !! k = Some l ->
     l <> [] /\ exists l0, entries h !! k = Some l0 /\ l `sublist_of` l0) ->
  (forall k e, present h' k e -> chans h' !! waitCh e = chans h !! waitCh e) ->
  wf h'.
Proof.
  intros W Hn Hc Hl Hch.
  assert (forall k e, present h' k e -> present h k e) as Hp.
  { intros k e (l & Hk & He). apply Hl in Hk as (_ & l0 & ? & Hs). exists l0.
    split; [done|]. by eapply elem_of_sublist. }
  split.
  - rewrite Hn, Hc. apply W.
  - intros k Hk. by apply Hl in Hk as [? _].
  - intros k l Hk. apply Hl in Hk as (_ & l0 & Hl0 & Hs).
    eapply sublist_NoDup; [by eapply wf_nodup|]. by apply fmap_sublist.
  - intros k e He. pose proof (Hch k e He). apply Hp, W in He as (? & ? & ?).
    unfold entry_ok. rewrite Hc. naive_solver congruence.
  - intros k1 k2 e1 e2 H1%Hp H2%Hp. by apply W.
  - intros k e1 e2 H1%Hp H2%Hp. by apply (wf_match h W k).
Qed.

Definition dropped (hash : string) (id : Z) (k : string) (e : sendEntry) : Prop :=
  k = hash /\ srID e = id /\ msgID e = ""%string.

Lemma RemoveOnFail_ok hash id h :
  wf h -> exists h', RemoveOnFail hash id h = Some h' /\
    cancelIDCounter h' = cancelIDCounter h /\ expiry h' = expiry h /\
    (forall k x, present h' k x <-> present h k x /\ ~ dropped hash id k x) /\
    (forall e, present h hash e -> dropped hash id hash e -> chans h' !! waitCh e = Some true) /\
    wf h'.
Proof.
  intros W. unfold RemoveOnFail. destruct (entries h !! hash) as [l|] eqn:Hl.
  2: { exists h. do 3 (split; [done|]). split; [|split; [|done]].
       - intros k x. split; [|naive_solver]. intros Hx. split; [done|]. intros [-> _].
         destruct Hx as (? & ? & _). congruence.
       - intros e (? & ? & _). congruence. }
  set (toKeep := Filter l _). set (toClose := Filter l _).
  assert (forall e, e ∈ toClose <-> e ∈ l /\ dropped hash id hash e) as Htc.
  { intros e. unfold toClose, dropped. rewrite elem_of_Filter. cbv beta.
    rewrite andb_true_iff, Z.eqb_eq, String.eqb_eq. naive_solver. }
  assert (forall e, e ∈ toKeep <-> e ∈ l /\ ~ dropped hash id hash e) as Htk.
  { intros e. unfold toKeep, dropped. rewrite elem_of_Filter. cbv beta.
    rewrite <-negb_andb, negb_true_iff, <-not_true_iff_false, andb_true_iff, Z.eqb_eq, String.eqb_eq.
    naive_solver. }
  destruct (close_all_ok toClose (chans h)) as (cs' & -> & Hin & Hout).
  { apply (NoDup_fmap_1 (fun n => Z.of_nat n + 1)). rewrite <-list_fmap_compose.
    erewrite list_fmap_ext; [eapply NoDup_fmap_Filter, wf_nodup; [exact W|exact Hl]|].
    intros i e He%list_elem_of_lookup_2%Htc. simpl. unfold compose.
    destruct (wf_entry h W hash e) as (_ & ? & _); [by exists l; destruct He|lia]. }
  { intros e [He _]%Htc. apply (wf_entry h W hash). by exists l. }
  simpl. eexists. do 3 (split; [done|]).
  match goal with |- _ /\ _ /\ wf ?x => set (h' := x) end.
  assert (entries h' !! hash = match toKeep with [] => None | _ => Some toKeep end) as Hh.
  { simpl. destruct toKeep; [apply lookup_delete_eq|apply lookup_insert_eq]. }
  assert (forall k, k <> hash -> entries h' !! k = entries h !! k) as Hk.
  { intros k Hne. simpl. destruct toKeep; [by apply lookup_delete_ne|by apply lookup_insert_ne]. }
  assert (forall k x, present h' k x <-> present h k x /\ ~ dropped hash id k x) as Hp.
  { intros k x. unfold present. destruct (decide (k = hash)) as [->|Hne].
    - rewrite Hh, Hl. transitivity (x ∈ toKeep); [|rewrite Htk; naive_solver].
      destruct toKeep; [|naive_solver]. split; [naive_solver|]. by intros ?%elem_of_nil.
    - rewrite Hk by done. unfold dropped. naive_solver. }
  split; [done|]. split.
  { intros e (l' & ? & He) Hd. simplify_eq. simpl. by apply Hin, Htc. }
  apply (wf_restrict h); [done|done|done| |].
  - intros k l'. destruct (decide (k = hash)) as [->|Hne].
    + rewrite Hh. destruct toKeep eqn:HK; [done|]. intros [= <-]. split; [done|].
      exists l. split; [done|]. rewrite <-HK. apply Filter_sublist.
    + rewrite Hk by done. intros Hl'. split; [intros ->; by apply (wf_nonempty h W k)|]. eauto.
  - intros k e [He Hd]%Hp. simpl. apply Hout. intros (e' & Hw & [He' Hd']%Htc)%list_elem_of_fmap.
    destruct (wf_chan h hash k e' e) as [<- ->]; [done|by exists l|done..].
Qed.

(** *** Runs *)

Lemma run_op_ok o h :
  wf h -> cancelIDCounter h + 1 < two64 ->
  exists h', run_op o h = Some h' /\ wf h' /\ expiry h' = expiry h /\
    cancelIDCounter h <= cancelIDCounter h' <= cancelIDCounter h + 1.
Proof.
  intros W Hc. pose proof (wf_counter h W). destruct o as [now now' k to|now k to|k id msg|k id]; simpl.
  - eexists. split; [done|]. split; [by apply TryInsert_wf|].
    destruct (TryInsert now now' k to h) as [h' [[id ch] []]] eqn:HT; simpl.
    + apply TryInsert_true_inv in HT as (_ & -> & _ & ->). simpl. rewrite u64_id by (split; lia). lia.
    + apply TryInsert_false_inv in HT as [-> _]. simpl. lia.
  - eexists. split; [done|]. split; [by apply sweep_wf|]. simpl. lia.
  - destruct (SignalMessageSent_ok k id msg h W) as (h' & -> & ? & ? & _ & ?).
    exists h'. split_and!; [done..|lia|lia].
  - destruct (RemoveOnFail_ok k id h W) as (h' & -> & ? & ? & _ & _ & ?).
    exists h'. split_and!; [done..|lia|lia].
Qed.

Lemma run_ops_ok os h :
  wf h -> cancelIDCounter h + Z.of_nat (length os) < two64 ->
  exists h', run_ops os h = Some h' /\ wf h' /\ expiry h' = expiry h /\
    cancelIDCounter h <= cancelIDCounter h' <= cancelIDCounter h + Z.of_nat (length os).
Proof.
  revert h. induction os as [|o os IH]; intros h W Hc; simpl in *.
  { exists h. split_and!; [done..|lia|lia]. }
  destruct (run_op_ok o h W) as (h1 & -> & W1 & He1 & Hc1); [lia|].
  destruct (IH h1 W1) as (h2 & Hr & W2 & He2 & Hc2); [lia|]. simpl.
  exists h2. split_and!; [done|done|congruence|lia|lia].
Qed.

Lemma NewSendRecorder_wf ex : wf (NewSendRecorder ex).
Proof.
  assert (forall k e, ~ present (NewSendRecorder ex) k e) as Hp.
  { intros k e (l & Hl & _). unfold NewSendRecorder, entries in Hl. by rewrite lookup_empty in Hl. }
  split; [done|done| | | |].
  - intros k l Hl. unfold NewSendRecorder, entries in Hl. by rewrite lookup_empty in Hl.
  - intros k e He. by apply Hp in He.
  - intros k1 k2 e1 e2 He. by apply Hp in He.
  - intros k e1 e2 He. by apply Hp in He.
Qed.

(** *** Persistence of entries *)

(** [same_entry e e']: [e'] is [e] up to the fields a signal may change. *)
Definition same_entry (e e' : sendEntry) : Prop :=
  srID e' = srID e /\ toList e' = toList e /\ exp e' = exp e /\ waitCh e' = waitCh e.

(** Operations that cannot drop entry [e] of [hash]: no failed send of [e] is
    reported, and no sweep runs after the entry expired. *)
Definition keeps (hash : string) (id expires : Z) (o : op) : Prop :=
  match o with
  | OpTryInsert now _ _ _ => now <= expires
  | OpGetEntry now _ _ => now <= expires
  | OpSignal _ _ _ => True
  | OpRemove k i => ~ (k = hash /\ i = id)
  end.

Lemma TryInsert_present now now' k to h hash e :
  present h hash e -> now <= exp e -> present (TryInsert now now' k to h).1 hash e.
Proof.
  intros He Hexp. destruct (TryInsert now now' k to h) as [h' [[i c] []]] eqn:HT; simpl.
  - apply TryInsert_true_inv in HT as (_ & _ & _ & ->).
    apply (present_insert (removeExpiredUnsafe now h)). left. by apply present_sweep.
  - apply TryInsert_false_inv in HT as [-> _]. by apply present_sweep.
Qed.

Lemma run_op_keeps hash e o h h' :
  wf h -> present h hash e -> keeps hash (srID e) (exp e) o -> run_op o h = Some h' ->
  exists e', present h' hash e' /\ same_entry e e'.
Proof.
  intros W He Hk Hr. destruct o as [now now' k to|now k to|k id msg|k id]; simpl in *; simplify_eq.
  - exists e. split; [by apply TryInsert_present|done].
  - exists e. split; [by apply present_sweep|done].
  - destruct (SignalMessageSent_ok k id msg h W) as (h1 & Hs & _ & _ & Hp & _). simplify_eq.
    exists (sig_at k id msg hash e). split; [apply Hp; eauto|apply sig_at_proj].
  - destruct (RemoveOnFail_ok k id h W) as (h1 & Hs & _ & _ & Hp & _). simplify_eq.
    exists e. split; [|done]. apply Hp. split; [done|]. unfold dropped. naive_solver.
Qed.

Lemma run_ops_keeps hash e os h h' :
  wf h -> cancelIDCounter h + Z.of_nat (length os) < two64 ->
  present h hash e -> Forall (keeps hash (srID e) (exp e)) os -> run_ops os h = Some h' ->
  exists e', present h' hash e' /\ same_entry e e'.
Proof.
  revert h e. induction os as [|o os IH]; intros h e W Hc He Hk Hr; simpl in *; simplify_eq.
  { by exists e. }
  apply Forall_cons in Hk as [Ho Hos].
  destruct (run_op_ok o h W) as (h1 & Ho1 & W1 & _ & Hc1); [lia|]. rewrite Ho1 in Hr. simpl in Hr.
  destruct (run_op_keeps hash e o h h1) as (e1 & He1 & (Hi & Ht & Hx & Hw)); [done..|].
  destruct (IH h1 e1) as (e2 & He2 & (? & ? & ? & ?)); [done|lia|done|by rewrite Hi, Hx|done|].
  exists e2. split; [done|]. split_and!; congruence.
Qed.

(** *** The history behind a closed channel *)

(** An entry whose channel is closed was signalled, with the message ID it
    holds, by one of the operations [os]. *)
Definition closed_signalled (os : list op) (h : SendRecorder) : Prop :=
  forall k e, present h k e -> waitChClosed e = true -> OpSignal k (srID e) (msgID e) ∈ os.

Lemma closed_signalled_op o os h h' :
  wf h -> closed_signalled os h -> run_op o h = Some h' -> closed_signalled (os ++ [o]) h'.
Proof.
  intros W Hs Hr k x Hx Hc.
  assert (present h k x -> OpSignal k (srID x) (msgID x) ∈ os ++ [o]) as Hold.
  { intros Hp. apply elem_of_app. left. by apply Hs. }
  destruct o as [now now' hash to|now hash to|hash id msg|hash id]; simpl in Hr; simplify_eq.
  - destruct (TryInsert now now' hash to h) as [h' [[i c] []]] eqn:HT; simpl in Hx.
    + apply TryInsert_true_inv in HT as (_ & _ & _ & ->).
      apply (present_insert (removeExpiredUnsafe now h)) in Hx as [[Hx _]%present_sweep|[-> ->]]; [eauto|done].
    + apply TryInsert_false_inv in HT as [-> _]. apply present_sweep in Hx as [Hx _]. eauto.
  - apply present_sweep in Hx as [Hx _]. eauto.
  - destruct (SignalMessageSent_ok hash id msg h W) as (h1 & ? & _ & _ & Hp & _). simplify_eq.
    apply Hp in Hx as (e & He & ->). unfold sig_at, sig_map in *.
    case_decide; [destruct (Z.eqb_spec (srID e) id)|]; subst; simpl in *.
    + apply elem_of_app. right. by apply list_elem_of_singleton.
    + apply elem_of_app. left. by apply Hs.
    + apply elem_of_app. left. by apply Hs.
  - destruct (RemoveOnFail_ok hash id h W) as (h1 & ? & _ & _ & Hp & _). simplify_eq.
    apply Hp in Hx as [Hx _]. eauto.
Qed.

(** What the two thread machines maintain about the recorder. *)
Definition recorder_inv (os : list op) (h : SendRecorder) : Prop :=
  wf h /\ closed_signalled os h /\ cancelIDCounter h <= Z.of_nat (length os).

Lemma recorder_inv_new ex : recorder_inv [] (NewSendRecorder ex).
Proof.
  split; [apply NewSendRecorder_wf|]. split; [|done].
  intros k e (l & Hl & _). unfold NewSendRecorder, entries in Hl. by rewrite lookup_empty in Hl.
Qed.

Lemma recorder_inv_op o os h h' :
  recorder_inv os h -> Z.of_nat (length (os ++ [o])) < two64 -> run_op o h = Some h' ->
  recorder_inv (os ++ [o]) h'.
Proof.
  rewrite length_app. simpl. intros (W & Hs & Hc) Hl Hr.
  destruct (run_op_ok o h W) as (h1 & ? & W1 & _ & Hc1); [lia|]. simplify_eq.
  split; [done|]. split; [by apply (closed_signalled_op o os h)|]. rewrite length_app. simpl. lia.
Qed.

(** A waiter that is woken by its channel and still finds its entry was told so
    by a signal. *)
Lemma woken_signalled os h ctxErr hash id ch m :
  recorder_inv os h -> Z.of_nat ch = id - 1 -> ready ctxErr ch h SelWaitCh = true ->
  wait_lookup hash id h = Some m -> OpSignal hash id m ∈ os.
Proof.
  intros (W & Hs & _) Hch Hr Hw. unfold wait_lookup in Hw. simpl in Hr.
  destruct (entries h !! hash) as [l|] eqn:Hl; [|done].
  destruct (find_first _ l) as [e|] eqn:Hf; simplify_eq/=.
  apply find_first_Some in Hf as [He Hid]. boolp. subst id.
  assert (present h hash e) as Hp by by exists l.
  apply Hs; [done|]. apply W in Hp as (_ & Hwc & Hc).
  replace (waitCh e) with ch in Hc by lia. rewrite Hc in Hr. by destruct (waitChClosed e).
Qed.

Definition tiw_ok (os : list op) (hash : string) (st : tiw_state) : Prop :=
  match st with
  | TIWWaiting id ch => Z.of_nat ch = id - 1
  | TIWReturned id false => exists msg, OpSignal hash id msg ∈ os
  | _ => True
  end.

Lemma tiw_ok_app os o hash st : tiw_ok os hash st -> tiw_ok (os ++ [o]) hash st.
Proof. destruct st as [| |id []|]; simpl; try done. intros [msg Hm]. exists msg. apply elem_of_app. by left. Qed.

Lemma tiw_inv ex hash to os h st :
  TryInsertWait_run ex hash to os h st -> Z.of_nat (length os) < two64 ->
  recorder_inv os h /\ tiw_ok os hash st.
Proof.
  intros Hrun. induction Hrun as [|os h st o h' Hrun IH Ho|os h now now' h' st' Hrun IH Ht|os h id ch ctxErr c Hrun IH Hr];
    intros Hlen.
  - split; [apply recorder_inv_new|done].
  - rewrite length_app in Hlen. simpl in Hlen. destruct IH as [Hi Hst]; [lia|].
    split; [|by apply tiw_ok_app]. eapply recorder_inv_op; [done| |done]. rewrite length_app. simpl. lia.
  - rewrite length_app in Hlen. simpl in Hlen. destruct IH as [Hi _]; [lia|].
    unfold tiw_try in Ht. destruct (TryInsert now now' hash to h) as [h1 [[id ch] ok]] eqn:HT. simplify_eq.
    assert (recorder_inv (os ++ [OpTryInsert now now' hash to]) h') as Hi'.
    { eapply recorder_inv_op; [done| |by simpl; rewrite HT]. rewrite length_app. simpl. lia. }
    split; [done|]. destruct ok; [done|]. simpl.
    apply TryInsert_false_inv in HT as (_ & e & He & _ & -> & ->).
    by apply Hi' in He as (_ & ? & _).
  - destruct IH as [Hi Hch]; [done|]. split; [done|]. simpl in Hch. destruct c; simpl; [done|].
    destruct (wait_lookup hash id h) as [m|] eqn:Hw; simpl; [|done].
    exists m. by eapply woken_signalled.
Qed.

Definition hew_ok (os : list op) (hash : string) (st : hew_state) : Prop :=
  match st with
  | HEWWaiting id ch => Z.of_nat ch = id - 1
  | HEWFound m => exists id, OpSignal hash id m ∈ os
  | _ => True
  end.

Lemma hew_inv ex hash to os h st :
  HasEntryWait_run ex hash to os h st -> Z.of_nat (length os) < two64 ->
  recorder_inv os h /\ hew_ok os hash st.
Proof.
  intros Hrun. induction Hrun as [|os h st o h' Hrun IH Ho|os h now h' st' Hrun IH Ht|os h id ch ctxErr c Hrun IH Hr];
    intros Hlen.
  - split; [apply recorder_inv_new|done].
  - rewrite length_app in Hlen. simpl in Hlen. destruct IH as [Hi Hst]; [lia|]. split.
    + eapply recorder_inv_op; [done| |done]. rewrite length_app. simpl. lia.
    + destruct st; simpl in *; try done. destruct Hst as [id Hid]. exists id. apply elem_of_app. by left.
  - rewrite length_app in Hlen. simpl in Hlen. destruct IH as [Hi _]; [lia|].
    assert (recorder_inv (os ++ [OpGetEntry now hash to]) h') as Hi'.
    { eapply recorder_inv_op; [done| |]; [rewrite length_app; simpl; lia|].
      unfold hew_try in Ht. simpl in *. by simplify_eq. }
    split; [done|]. unfold hew_try, getEntryWaitInfo in Ht. simplify_eq.
    case_match eqn:Hg; [|done]. destruct p as [id ch]. simpl.
    destruct (entries (removeExpiredUnsafe now h) !! hash) as [l|] eqn:Hl; [|done].
    apply fmap_Some in Hg as (e & [He _]%find_first_Some & [= -> ->]).
    destruct Hi' as (W & _). destruct (wf_entry _ W hash e) as (_ & ? & _); [by exists l|done].
  - destruct IH as [Hi Hch]; [done|]. split; [done|]. simpl in Hch. destruct c as [[]|]; simpl; try done.
    destruct (wait_lookup hash id h) as [m|] eqn:Hw; simpl; [|done].
    exists id. by eapply woken_signalled.
Qed.

(** ** Theorems *)

(** Whatever critical sections the goroutines of Bridge run on a new
    recorder, in whatever order and with whatever identifiers, none of them
    panics (no wait channel is ever closed twice), and the recorder stays well
    formed: identifiers are unique, entries of one hash have pairwise different
    recipients, and [waitChClosed] mirrors its channel.  The bound is the width
    of [cancelIDCounter]. *)
Theorem recorder_run_safe ex os :
  Z.of_nat (length os) < two64 -> exists h, run_ops os (NewSendRecorder ex) = Some h /\ wf h.
Proof.
  intros Hl. destruct (run_ops_ok os (NewSendRecorder ex)) as (h & ? & ? & _);
    [apply NewSendRecorder_wf|simpl; lia|eauto].
Qed.

Lemma recorder_run_safe_witness :
  exists h, run_ops [OpTryInsert 0 0 "h" ["a"]; OpRemove "h" 1; OpSignal "h" 1 "m"] (NewSendRecorder 10) = Some h /\ wf h.
Proof. apply (recorder_run_safe 10); vm_compute; reflexivity. Defined.

(** What a granted [TryInsert] leaves behind. *)
Lemma TryInsert_granted ex pre h now now' hash to h1 id ch :
  run_ops pre (NewSendRecorder ex) = Some h -> Z.of_nat (length pre) + 1 < two64 ->
  TryInsert now now' hash to h = (h1, (id, ch, true)) ->
  wf h1 /\ cancelIDCounter h1 <= Z.of_nat (length pre) + 1 /\ present h1 hash (mkEntry id "" to (now' + ex) ch false).
Proof.
  intros Hpre Hlen HT.
  destruct (run_ops_ok pre (NewSendRecorder ex)) as (h' & ? & W & Hex & Hc);
    [apply NewSendRecorder_wf|simpl; lia|]. simplify_eq. simpl in Hex, Hc.
  destruct (run_op_ok (OpTryInsert now now' hash to) h W) as (? & Hr & ? & _ & ? & ?); [lia|].
  simpl in Hr. rewrite HT in Hr. injection Hr as <-. split_and!; [done|lia|].
  apply TryInsert_true_inv in HT as (_ & _ & _ & ->). rewrite <- Hex.
  apply (present_insert (removeExpiredUnsafe now h)). by right.
Qed.

Lemma granted_dedup ex pre h now0 now0' hash to h1 id ch post h2 now now' to' :
  run_ops pre (NewSendRecorder ex) = Some h ->
  TryInsert now0 now0' hash to h = (h1, (id, ch, true)) ->
  Forall (keeps hash id (now0' + ex)) post -> run_ops post h1 = Some h2 ->
  Z.of_nat (length pre) + 1 + Z.of_nat (length post) < two64 ->
  now <= now0' + ex -> matchToList to to' = true ->
  (TryInsert now now' hash to' h2).2 = (id, ch, false).
Proof.
  intros Hpre HT Hkeep Hpost Hlen Hnow Hm.
  destruct (TryInsert_granted ex pre h now0 now0' hash to h1 id ch) as (W1 & Hc1 & He); [done|lia|done|].
  destruct (run_ops_keeps hash (mkEntry id "" to (now0' + ex) ch false) post h1 h2 W1) as (e' & He' & (Hi & Ht & Hx & Hw)); [lia|exact He|done|done|].
  destruct (run_ops_ok post h1) as (h2' & ? & W2 & _); [done|lia|]. simplify_eq. simpl in Hi, Ht, Hx, Hw.
  erewrite TryInsert_found; [|done|done|rewrite Hx; done|by rewrite Ht]. simpl. by rewrite Hi, Hw.
Qed.

(** C1: No message is sent twice: once [TryInsert] granted a hash and a recipient
    list, then as long as nobody reports that send as failed and no clock reading
    passes its expiry, every later attempt with the same recipients (in any order)
    is refused and is handed the first attempt's identifier and channel, whatever
    other operations ran in between. *)
Theorem TryInsert_dedup ex pre h now0 now0' hash to h1 id ch post h2 now now' to' :
  run_ops pre (NewSendRecorder ex) = Some h ->
  TryInsert now0 now0' hash to h = (h1, (id, ch, true)) ->
  Forall (keeps hash id (now0' + ex)) post -> run_ops post h1 = Some h2 ->
  Z.of_nat (length pre) + 1 + Z.of_nat (length post) < two64 ->
  now <= now0' + ex -> matchToList to to' = true ->
  (TryInsert now now' hash to' h2).2 = (id, ch, false).
Proof. apply granted_dedup. Qed.

Lemma TryInsert_dedup_witness :
  (TryInsert 5 5 "h" ["b"; "a"]
     (TryInsert 1 1 "k" ["c"] (TryInsert 0 0 "h" ["a"; "b"] (NewSendRecorder 10)).1).1).2 = (1, 0%nat, false).
Proof.
  refine (TryInsert_dedup 10 [] _ 0 0 "h" ["a"; "b"] _ 1 0 [OpTryInsert 1 1 "k" ["c"]] _ 5 5 ["b"; "a"]
            eq_refl eq_refl _ eq_refl _ _ _); [|vm_compute; done|lia|vm_compute; reflexivity].
  repeat constructor; simpl; lia.
Defined.

Lemma RemoveOnFail_again h hash e :
  wf h -> cancelIDCounter h + 1 < two64 -> present h hash e -> msgID e = ""%string ->
  exists h', RemoveOnFail hash (srID e) h = Some h' /\ wf h' /\
    (forall k x, present h' k x <-> present h k x /\ ~ (k = hash /\ x = e)) /\
    ready None (waitCh e) h' SelWaitCh = true /\
    tiw_wake hash SelWaitCh (srID e) h' = TIWStart /\
    forall now now' to, matchToList (toList e) to = true ->
      exists id ch, (TryInsert now now' hash to h').2 = (id, ch, true) /\ id <> srID e.
Proof.
  intros W Hc He Hm. destruct (RemoveOnFail_ok hash (srID e) h W) as (h' & Hr & Hcnt & _ & Hp & Hcl & W').
  assert (forall k x, present h' k x <-> present h k x /\ ~ (k = hash /\ x = e)) as Hp'.
  { intros k x. rewrite Hp. unfold dropped. split; [naive_solver|]. intros [Hx Hn]. split; [done|].
    intros (-> & Hid & _). apply Hn. split; [done|]. by apply (wf_id h W hash hash). }
  exists h'. split; [done|]. split; [done|]. split; [done|]. split; [|split].
  - simpl. by rewrite Hcl.
  - simpl. unfold wait_lookup. destruct (entries h' !! hash) as [l|] eqn:Hl; [|done].
    destruct (find_first _ l) as [x|] eqn:Hf; [|done]. exfalso.
    apply find_first_Some in Hf as [Hx Hid]. boolp. assert (present h' hash x) as [Hx' Hn]%Hp' by by exists l.
    apply Hn. split; [done|]. by apply (wf_id h W hash hash).
  - intros now now' to Hto. destruct (TryInsert now now' hash to h') as [h2 [[id ch] ok]] eqn:HT. simpl.
    exists id, ch. destruct ok.
    + split; [done|]. apply TryInsert_true_inv in HT as (_ & -> & _).
      apply (wf_entry h W hash) in He as ([? ?] & _). rewrite u64_id by (split; lia). lia.
    + exfalso. apply TryInsert_false_inv in HT as (-> & x & [Hx _]%present_sweep & Hxm & _).
      apply Hp' in Hx as [Hx Hn]. apply Hn. split; [done|]. apply (wf_match h W hash); [done..|].
      by apply matchToList_trans with to; [|apply matchToList_sym].
Qed.

(** A failed send can be retried: reporting the failure of an entry that was
    not sent drops exactly that entry and closes its channel, so a goroutine
    waiting on it wakes up and starts over, and the next attempt with the same
    recipients is granted under a fresh identifier. *)
Theorem RemoveOnFail_retry h hash e :
  wf h -> cancelIDCounter h + 1 < two64 -> present h hash e -> msgID e = ""%string ->
  exists h', RemoveOnFail hash (srID e) h = Some h' /\ wf h' /\
    (forall k x, present h' k x <-> present h k x /\ ~ (k = hash /\ x = e)) /\
    ready None (waitCh e) h' SelWaitCh = true /\
    tiw_wake hash SelWaitCh (srID e) h' = TIWStart /\
    forall now now' to, matchToList (toList e) to = true ->
      exists id ch, (TryInsert now now' hash to h').2 = (id, ch, true) /\ id <> srID e.
Proof. apply RemoveOnFail_again. Qed.

Lemma RemoveOnFail_retry_witness :
  exists h', RemoveOnFail "h" 1 (TryInsert 0 0 "h" ["a"] (NewSendRecorder 10)).1 = Some h' /\
    tiw_wake "h" SelWaitCh 1 h' = TIWStart.
Proof.
  destruct (RemoveOnFail_retry (TryInsert 0 0 "h" ["a"] (NewSendRecorder 10)).1 "h" (mkEntry 1 "" ["a"] 10 0 false))
    as (h' & Hr & _ & _ & _ & Hw & _); [|vm_compute; reflexivity| |reflexivity|exists h'; split; [exact Hr|exact Hw]].
  - apply TryInsert_wf; [apply NewSendRecorder_wf|vm_compute; reflexivity].
  - eexists. split; [reflexivity|apply list_elem_of_here].
Defined.

(** A successful send reaches everyone who waits for it: after
    [SignalMessageSent] the entry's channel is closed, a waiting [TryInsertWait]
    returns that the message needs no sending, a waiting [HasEntryWait] returns
    the message ID, and a later failure report for the same identifier no longer
    removes the entry. *)
Theorem SignalMessageSent_wakes h hash e msg :
  wf h -> present h hash e -> msg <> ""%string ->
  exists h', SignalMessageSent hash (srID e) msg h = Some h' /\ wf h' /\
    ready None (waitCh e) h' SelWaitCh = true /\
    tiw_wake hash SelWaitCh (srID e) h' = TIWReturned (srID e) false /\
    hew_wake hash SelWaitCh (srID e) h' = HEWFound msg /\
    exists h'', RemoveOnFail hash (srID e) h' = Some h'' /\ present h'' hash (signalled msg e).
Proof.
  intros W He Hmsg. destruct (SignalMessageSent_ok hash (srID e) msg h W) as (h' & Hs & _ & _ & Hp & W').
  assert (present h' hash (signalled msg e)) as He'.
  { apply Hp. exists e. split; [done|]. unfold sig_at, sig_map. by rewrite decide_True, Z.eqb_refl. }
  assert (wait_lookup hash (srID e) h' = Some msg) as Hw.
  { pose proof He' as (l & Hl & Hin). unfold wait_lookup. rewrite Hl.
    rewrite (find_first_unique _ l (signalled msg e)); [done|done|apply Z.eqb_refl|].
    intros x Hx Hid. boolp. apply (wf_id h' W' hash hash); [by exists l|done|done]. }
  exists h'. split; [done|]. split; [done|]. split; [|split; [|split]].
  - apply W' in He' as (_ & _ & Hc). simpl in *. by rewrite Hc.
  - simpl. by rewrite Hw.
  - simpl. by rewrite Hw.
  - destruct (RemoveOnFail_ok hash (srID e) h' W') as (h'' & -> & _ & _ & Hp'' & _).
    exists h''. split; [done|]. apply Hp''. split; [done|]. unfold dropped. simpl. naive_solver.
Qed.

Lemma SignalMessageSent_wakes_witness :
  exists h', SignalMessageSent "h" 1 "m" (TryInsert 0 0 "h" ["a"] (NewSendRecorder 10)).1 = Some h' /\
    hew_wake "h" SelWaitCh 1 h' = HEWFound "m".
Proof.
  destruct (SignalMessageSent_wakes (TryInsert 0 0 "h" ["a"] (NewSendRecorder 10)).1 "h"
              (mkEntry 1 "" ["a"] 10 0 false) "m")
    as (h' & Hr & _ & _ & _ & Hw & _); [| |done|exists h'; split; [exact Hr|exact Hw]].
  - apply TryInsert_wf; [apply NewSendRecorder_wf|vm_compute; reflexivity].
  - eexists. split; [reflexivity|apply list_elem_of_here].
Defined.

(** Nobody is told "already sent" without a send: in every interleaving of a
    [TryInsertWait] (a [HasEntryWait]) with other goroutines, if it returns that
    another attempt sent the message (returns the message ID), then a goroutine
    had called [SignalMessageSent] for that hash and that identifier (with that
    message ID). *)
Theorem wait_result_signalled ex hash to os h :
  Z.of_nat (length os) < two64 ->
  (forall id, TryInsertWait_run ex hash to os h (TIWReturned id false) ->
     exists msg, OpSignal hash id msg ∈ os) /\
  (forall m, HasEntryWait_run ex hash to os h (HEWFound m) ->
     exists id, OpSignal hash id m ∈ os).
Proof.
  intros Hl. split.
  - intros id Hr. by apply tiw_inv in Hr as [_ Hok].
  - intros m Hr. by apply hew_inv in Hr as [_ Hok].
Qed.

(** A run in which the thread waits, the owner signals, and the thread returns. *)
Definition witness_ops : list op :=
  [OpTryInsert 0 0 "h" ["a"]; OpGetEntry 1 "h" ["a"]; OpSignal "h" 1 "m"].

Lemma witness_hew_run :
  exists h, HasEntryWait_run 10 "h" ["a"] witness_ops h (HEWFound "m").
Proof.
  pose proof (hew_run_start 10 "h" ["a"]) as R.
  eapply (hew_run_env _ _ _ _ _ _ (OpTryInsert 0 0 "h" ["a"])) in R; [|reflexivity].
  eapply (hew_run_try _ _ _ _ _ 1) in R; [|reflexivity].
  eapply (hew_run_env _ _ _ _ _ _ (OpSignal "h" 1 "m")) in R; [|reflexivity].
  eapply (hew_run_wake _ _ _ _ _ 1 0 None SelWaitCh) in R; [|reflexivity].
  eexists. exact R.
Qed.

Lemma wait_result_signalled_witness :
  exists id, OpSignal "h" id "m" ∈ witness_ops.
Proof.
  destruct witness_hew_run as [h Hrun].
  apply (proj2 (wait_result_signalled 10 "h" ["a"] witness_ops h ltac:(vm_compute; reflexivity)) "m" Hrun).
Defined.
