(* ===== verification/SendPrefs.v ===== *)
(** * Send preferences and send packages (internal/services/smtp/smtp_prefs.go,
      internal/services/smtp/smtp_packages.go)

    For every recipient Bridge decides whether to encrypt and sign, with which
    scheme, in which MIME type and with which key; the recipients are then
    grouped into the packages of the send request.  This file translates the
    preference builder method by method, the choice of the sending key and the
    packaging, and shows that the two fit together: what the builder produces is
    always packaged, each recipient in exactly one package. *)

From S2P Require Import Prelude.

(** ** Types of the proton API and of gopenpgp *)

(** [proton.EncryptionScheme]; the Go type is an integer, so values outside the
    named constants exist. *)
Inductive EncryptionScheme : Type :=
| InternalScheme | EncryptedOutsideScheme | ClearScheme
| PGPInlineScheme | PGPMIMEScheme | ClearMIMEScheme
| OtherScheme (n : Z).

Inductive SignatureType : Type := NoSignature | DetachedSignature.

#[global] Instance EncryptionScheme_eq_dec : EqDecision EncryptionScheme.
Proof. solve_decision. Defined.

(** The part of gopenpgp the code calls: keys and key rings are abstract. *)
Class PGP : Type := {
  Key : Type;
  KeyRing : Type;
  Serialize : Key -> option string;
  NewKey : string -> option Key;
  NewKeyFromArmored : string -> option Key;
  NewKeyRing : Key -> option KeyRing;
  GetFingerprint : Key -> string
}.

(** The constants of rfc822.MIMEType. *)
#[local] Notation TextHTML := "text/html"%string.
#[local] Notation TextPlain := "text/plain"%string.
#[local] Notation MultipartMixed := "multipart/mixed"%string.

Section prefs.
Context `{PGP}.

(** [proton.ContactSettings], [proton.MailSettings] and
    [proton.SendPreferences], with the fields the code uses. *)
Record ContactSettings : Type := mkContactSettings {
  cs_MIMEType : option string;
  cs_Keys : list Key;
  cs_Scheme : option EncryptionScheme;
  cs_Sign : option bool;
  cs_Encrypt : option bool;
  cs_EncryptUntrusted : option bool
}.

Record MailSettings : Type := mkMailSettings {
  ms_Sign : Z;
  ms_PGPScheme : EncryptionScheme;
  ms_DraftMIMEType : string
}.

Record SendPreferences : Type := mkSendPreferences {
  sp_Encrypt : bool;
  sp_PubKey : option KeyRing;
  sp_SignatureType : SignatureType;
  sp_EncryptionScheme : EncryptionScheme;
  sp_MIMEType : string
}.

(** Failures: a returned error, or a panic. *)
Inductive prefErr : Type :=
| ErrNoAPIKey
| ErrBadKey
| PanicUnknownScheme
| PanicSerialize
| PanicIndex.

(** ** Local contact settings *)

Definition pgpInline : string := "pgp-inline".
Definition pgpMIME : string := "pgp-mime".
Definition pmInternal : string := "internal".

Record contactSettings : Type := mkVCard {
  vc_Keys : list string;
  vc_Scheme : string;
  vc_Sign : bool;
  vc_SignIsSet : bool;
  vc_Encrypt : bool;
  vc_EncryptUntrusted : bool;
  vc_MIMEType : string
}.

Definition of_opt {A} (e : prefErr) (o : option A) : result prefErr A :=
  match o with Some a => Ok a | None => Err e end.

Fixpoint collect {A B} (e : prefErr) (f : A -> option B) (l : list A) : result prefErr (list B) :=
  match l with
  | [] => Ok []
  | a :: l' => b ← of_opt e (f a); bs ← collect e f l'; Ok (b :: bs)
  end.

Definition newContactSettings (settings : ContactSettings) : result prefErr contactSettings :=
  scheme ← match cs_Scheme settings with
           | None => Ok ""%string
           | Some PGPMIMEScheme => Ok pgpMIME
           | Some PGPInlineScheme => Ok pgpInline
           | Some _ => Err PanicUnknownScheme
           end;
  keys ← collect PanicSerialize Serialize (cs_Keys settings);
  Ok {| vc_Keys := keys;
        vc_Scheme := scheme;
        vc_Sign := default false (cs_Sign settings);
        vc_SignIsSet := match cs_Sign settings with Some _ => true | None => false end;
        vc_Encrypt := default false (cs_Encrypt settings);
        vc_EncryptUntrusted := default true (cs_EncryptUntrusted settings);
        vc_MIMEType := default ""%string (cs_MIMEType settings) |}.

(** ** The builder *)

Record sendPrefsBuilder : Type := mkBuilder {
  b_internal : bool;
  b_encrypt : option bool;
  b_sign : option bool;
  b_scheme : option string;
  b_mimeType : option string;
  b_publicKey : option KeyRing
}.

Definition emptyBuilder : sendPrefsBuilder := mkBuilder false None None None None None.

Definition withInternal (b : sendPrefsBuilder) : sendPrefsBuilder :=
  mkBuilder true (b_encrypt b) (b_sign b) (b_scheme b) (b_mimeType b) (b_publicKey b).
Definition isInternal (b : sendPrefsBuilder) : bool := b_internal b.
Definition withEncrypt (v : bool) (b : sendPrefsBuilder) : sendPrefsBuilder :=
  mkBuilder (b_internal b) (Some v) (b_sign b) (b_scheme b) (b_mimeType b) (b_publicKey b).
Definition withEncryptDefault (v : bool) (b : sendPrefsBuilder) : sendPrefsBuilder :=
  match b_encrypt b with None => withEncrypt v b | Some _ => b end.
Definition shouldEncrypt (b : sendPrefsBuilder) : bool :=
  match b_encrypt b with Some v => v | None => false end.
Definition withSign (v : bool) (b : sendPrefsBuilder) : sendPrefsBuilder :=
  mkBuilder (b_internal b) (b_encrypt b) (Some v) (b_scheme b) (b_mimeType b) (b_publicKey b).
Definition withSignDefault (b : sendPrefsBuilder) : sendPrefsBuilder :=
  match b_sign b with None => withSign true b | Some _ => b end.
Definition shouldSign (b : sendPrefsBuilder) : bool :=
  match b_sign b with Some v => v | None => false end.
Definition withScheme (v : string) (b : sendPrefsBuilder) : sendPrefsBuilder :=
  mkBuilder (b_internal b) (b_encrypt b) (b_sign b) (Some v) (b_mimeType b) (b_publicKey b).
Definition withSchemeDefault (v : string) (b : sendPrefsBuilder) : sendPrefsBuilder :=
  match b_scheme b with None => withScheme v b | Some _ => b end.
Definition getScheme (b : sendPrefsBuilder) : string :=
  match b_scheme b with Some v => v | None => "" end.
Definition withMIMEType (v : string) (b : sendPrefsBuilder) : sendPrefsBuilder :=
  mkBuilder (b_internal b) (b_encrypt b) (b_sign b) (b_scheme b) (Some v) (b_publicKey b).
Definition withMIMETypeDefault (v : string) (b : sendPrefsBuilder) : sendPrefsBuilder :=
  match b_mimeType b with None => withMIMEType v b | Some _ => b end.
Definition removeMIMEType (b : sendPrefsBuilder) : sendPrefsBuilder :=
  mkBuilder (b_internal b) (b_encrypt b) (b_sign b) (b_scheme b) None (b_publicKey b).
Definition getMIMEType (b : sendPrefsBuilder) : string :=
  match b_mimeType b with Some v => v | None => "" end.
Definition withPublicKey (v : KeyRing) (b : sendPrefsBuilder) : sendPrefsBuilder :=
  mkBuilder (b_internal b) (b_encrypt b) (b_sign b) (b_scheme b) (b_mimeType b) (Some v).

Definition build (b : sendPrefsBuilder) : SendPreferences :=
  {| sp_Encrypt := shouldEncrypt b;
     sp_MIMEType := getMIMEType b;
     sp_PubKey := b_publicKey b;
     sp_SignatureType := if shouldSign b then DetachedSignature else NoSignature;
     sp_EncryptionScheme :=
       if isInternal b then InternalScheme
       else if shouldSign b && shouldEncrypt b then
         if String.eqb (getScheme b) pgpInline then PGPInlineScheme else PGPMIMEScheme
       else if shouldSign b && negb (shouldEncrypt b) then
         if String.eqb (getScheme b) pgpInline then ClearScheme else ClearMIMEScheme
       else ClearScheme |}.

(** *** The sending key *)

Fixpoint fingerprint_map (a : list Key) (aMap : gmap string Key) : gmap string Key :=
  match a with
  | [] => aMap
  | el :: a' => fingerprint_map a' (<[GetFingerprint el := el]> aMap)
  end.

Definition matchFingerprints (a b : list Key) : list Key :=
  let aMap := fingerprint_map a ∅ in
  Filter b (fun el => match aMap !! GetFingerprint el with Some _ => true | None => false end).

Definition pickSendingKey (vCardData : contactSettings) (rawAPIKeys : list string)
    : result prefErr KeyRing :=
  contactKeys ← collect ErrBadKey NewKey (vc_Keys vCardData);
  apiKeys ← collect ErrBadKey NewKeyFromArmored rawAPIKeys;
  sendingKey ← match matchFingerprints contactKeys apiKeys with
               | k :: _ => Ok k
               | [] => match apiKeys with k :: _ => Ok k | [] => Err PanicIndex end
               end;
  of_opt ErrBadKey (NewKeyRing sendingKey).

(** *** The three sources of PGP settings *)

Definition setInternalPGPSettings (vCardData : contactSettings) (apiKeys : list string)
    (b : sendPrefsBuilder) : result prefErr sendPrefsBuilder :=
  match apiKeys with
  | [] => Err ErrNoAPIKey
  | _ =>
      let b := withEncrypt true b in
      let b := withSign true b in
      let b := withScheme pmInternal b in
      let b := if negb (String.eqb (vc_MIMEType vCardData) "")
               then withMIMEType (vc_MIMEType vCardData) b else b in
      sendingKey ← pickSendingKey vCardData apiKeys;
      Ok (withPublicKey sendingKey b)
  end.

Definition setExternalPGPSettingsWithWKDKeys (vCardData : contactSettings) (apiKeys : list string)
    (b : sendPrefsBuilder) : result prefErr sendPrefsBuilder :=
  match apiKeys with
  | [] => Err ErrNoAPIKey
  | _ =>
      let b := withEncrypt (vc_EncryptUntrusted vCardData) b in
      let b := if vc_EncryptUntrusted vCardData then withSign true b
               else if vc_SignIsSet vCardData then withSign (vc_Sign vCardData) b else b in
      let b := if negb (String.eqb (vc_Scheme vCardData) "")
               then withScheme (vc_Scheme vCardData) b else b in
      let b := if String.eqb (vc_Scheme vCardData) pgpMIME then removeMIMEType b
               else if String.eqb (vc_Scheme vCardData) pgpInline then withMIMEType "text/plain" b
               else b in
      sendingKey ← pickSendingKey vCardData apiKeys;
      Ok (withPublicKey sendingKey b)
  end.

Definition setExternalPGPSettingsWithoutWKDKeys (vCardData : contactSettings)
    (b : sendPrefsBuilder) : result prefErr sendPrefsBuilder :=
  let b := withEncrypt (vc_Encrypt vCardData) b in
  let b := if vc_SignIsSet vCardData then withSign (vc_Sign vCardData) b else b in
  let b := if vc_Encrypt vCardData then withSign true b else b in
  let b := if negb (String.eqb (vc_Scheme vCardData) "")
           then withScheme (vc_Scheme vCardData) b else b in
  let b := if vc_Sign vCardData then
             if String.eqb (vc_Scheme vCardData) pgpMIME then removeMIMEType b
             else if String.eqb (vc_Scheme vCardData) pgpInline then withMIMEType "text/plain" b
             else b
           else if negb (String.eqb (vc_MIMEType vCardData) "")
           then withMIMEType (vc_MIMEType vCardData) b else b in
  match vc_Keys vCardData with
  | [] => Ok b
  | k :: _ =>
      key ← of_opt ErrBadKey (NewKey k);
      kr ← of_opt ErrBadKey (NewKeyRing key);
      Ok (withPublicKey kr b)
  end.

Definition setPGPSettings (vCardData : contactSettings) (apiKeys : list string)
    (isInternal : bool) (b : sendPrefsBuilder) : result prefErr sendPrefsBuilder :=
  if isInternal then setInternalPGPSettings vCardData apiKeys (withInternal b)
  else match apiKeys with
       | _ :: _ => setExternalPGPSettingsWithWKDKeys vCardData apiKeys b
       | [] => setExternalPGPSettingsWithoutWKDKeys vCardData b
       end.

Definition setEncryptionPreferences (mailSettings : MailSettings) (b : sendPrefsBuilder)
    : sendPrefsBuilder :=
  let b := withEncryptDefault false b in
  let b := if 0 <? ms_Sign mailSettings then withSignDefault b else b in
  let b := if shouldEncrypt b then withSign true b else b in
  let b := match ms_PGPScheme mailSettings with
           | PGPInlineScheme => withSchemeDefault pgpInline b
           | PGPMIMEScheme => withSchemeDefault pgpMIME b
           | _ => b
           end in
  if shouldSign b && String.eqb (getScheme b) pgpInline then withMIMEType "text/plain" b
  else withMIMETypeDefault (ms_DraftMIMEType mailSettings) b.

Definition setMIMEPreferences (composerMIMEType : string) (b : sendPrefsBuilder) : sendPrefsBuilder :=
  if negb (isInternal b) && shouldSign b then
    if String.eqb (getScheme b) pgpInline then withMIMEType "text/plain" b
    else withMIMEType "multipart/mixed" b
  else if String.eqb composerMIMEType "text/plain" then withMIMEType "text/plain" b
  else b.

(** An API key is its armored text ([proton.PublicKey.PublicKey]). *)
Definition buildSendPrefs (contactSettings : ContactSettings) (mailSettings : MailSettings)
    (pubKeys : list string) (mimeType : string) (isInternal : bool)
    : result prefErr SendPreferences :=
  vCardData ← newContactSettings contactSettings;
  b ← setPGPSettings vCardData pubKeys isInternal emptyBuilder;
  let b := setEncryptionPreferences mailSettings b in
  let b := setMIMEPreferences mimeType b in
  Ok (build b).

(** ** Packages of the send request (smtp_packages.go) *)

Abbreviation recipients := (gmap string SendPreferences).

(** [proton.SendDraftReq] and its two methods, with the signing keyring, the
    body, the recipients and, for a text package, the MIME type and the session
    keys of the attachments. *)
Class SendReq : Type := {
  SendDraftReq : Type;
  SessionKey : Type;
  sendErr : Type;
  newReq : SendDraftReq;
  AddMIMEPackage : KeyRing -> string -> recipients -> SendDraftReq -> result sendErr SendDraftReq;
  AddTextPackage : KeyRing -> string -> string -> recipients -> gmap string SessionKey ->
                   SendDraftReq -> result sendErr SendDraftReq;
  invalidMIMEType : string -> sendErr
}.

(** The loop [for _, addr := range Filter(Keys(r), ..) { res[addr] = r[addr] }];
    every address it visits is a key of [r]. *)
Definition copy_recipients (r : recipients) (addrs : list string) : recipients :=
  foldl (fun res addr =>
    match r !! addr with Some p => <[addr := p]> res | None => res end) ∅ addrs.

Definition scheme `{MapRange} (schemes : list EncryptionScheme) (r : recipients) : recipients :=
  copy_recipients r (Filter (Keys r) (fun addr =>
    match r !! addr with
    | Some p => bool_decide (sp_EncryptionScheme p ∈ schemes)
    | None => false
    end)).

Definition content `{MapRange} (mimeTypes : list string) (r : recipients) : recipients :=
  copy_recipients r (Filter (Keys r) (fun addr =>
    match r !! addr with
    | Some p => Contains mimeTypes (sp_MIMEType p)
    | None => false
    end)).

Definition createSendReq `{MapRange} `{SendReq} (kr : KeyRing) (mimeBody richBody plainBody : string)
    (rs : recipients) (attKeys : gmap string SessionKey) : result sendErr SendDraftReq :=
  let mime := scheme [PGPMIMEScheme; ClearMIMEScheme] rs in
  req ← (if decide (mime = ∅) then Ok newReq else AddMIMEPackage kr mimeBody mime newReq);
  let recs := scheme [InternalScheme; ClearScheme; PGPInlineScheme] rs in
  if decide (recs = ∅) then Ok req else
    let html := content [TextHTML] recs in
    req ← (if decide (html = ∅) then Ok req
           else AddTextPackage kr richBody TextHTML html attKeys req);
    let plain := content [TextPlain] recs in
    req ← (if decide (plain = ∅) then Ok req
           else AddTextPackage kr plainBody TextPlain plain attKeys req);
    if decide (content [MultipartMixed] recs = ∅) then Ok req
    else Err (invalidMIMEType MultipartMixed).

(** ** The preferences the builder produces *)

(** What the PGP settings leave in the builder before the defaults are filled
    in: an encrypting builder signs, an internal one encrypts, and the MIME type
    is unset, plain text, or the contact's. *)
Definition settings_ok (vc : contactSettings) (int : bool) (b : sendPrefsBuilder) : Prop :=
  b_internal b = int /\
  (b_encrypt b = Some true -> b_sign b = Some true) /\
  (int = true -> b_encrypt b = Some true) /\
  (b_mimeType b = None \/ b_mimeType b = Some "text/plain"%string \/
   (vc_MIMEType vc <> ""%string /\ b_mimeType b = Some (vc_MIMEType vc))).

Lemma internal_settings_ok vc keys b :
  setInternalPGPSettings vc keys (withInternal emptyBuilder) = Ok b -> settings_ok vc true b.
Proof.
  unfold setInternalPGPSettings, settings_ok. intros Hb. destruct keys; [done|]. cbv zeta in Hb.
  apply result_bind_Ok in Hb as (kr & _ & [= <-]).
  destruct (String.eqb_spec (vc_MIMEType vc) ""); simpl; naive_solver.
Qed.

Lemma wkd_settings_ok vc keys b :
  setExternalPGPSettingsWithWKDKeys vc keys emptyBuilder = Ok b -> settings_ok vc false b.
Proof.
  unfold setExternalPGPSettingsWithWKDKeys, settings_ok. intros Hb. destruct keys; [done|].
  cbv zeta in Hb. apply result_bind_Ok in Hb as (kr & _ & [= <-]).
  destruct (vc_EncryptUntrusted vc), (vc_SignIsSet vc), (String.eqb (vc_Scheme vc) ""),
    (String.eqb (vc_Scheme vc) pgpMIME), (String.eqb (vc_Scheme vc) pgpInline);
    simpl; naive_solver.
Qed.

(** The builder of an external recipient without published keys, before its key
    is set. *)
Definition nokeys_builder (vc : contactSettings) : sendPrefsBuilder :=
  let b := withEncrypt (vc_Encrypt vc) emptyBuilder in
  let b := if vc_SignIsSet vc then withSign (vc_Sign vc) b else b in
  let b := if vc_Encrypt vc then withSign true b else b in
  let b := if negb (String.eqb (vc_Scheme vc) "") then withScheme (vc_Scheme vc) b else b in
  if vc_Sign vc then
    if String.eqb (vc_Scheme vc) pgpMIME then removeMIMEType b
    else if String.eqb (vc_Scheme vc) pgpInline then withMIMEType "text/plain" b else b
  else if negb (String.eqb (vc_MIMEType vc) "") then withMIMEType (vc_MIMEType vc) b else b.

Lemma nokeys_settings vc b :
  setExternalPGPSettingsWithoutWKDKeys vc emptyBuilder = Ok b ->
  (vc_Keys vc = [] /\ b = nokeys_builder vc) \/
  (exists k ks key kr, vc_Keys vc = k :: ks /\ NewKey k = Some key /\ NewKeyRing key = Some kr /\
     b = withPublicKey kr (nokeys_builder vc)).
Proof.
  unfold setExternalPGPSettingsWithoutWKDKeys. cbv zeta. fold (nokeys_builder vc).
  destruct (vc_Keys vc) as [|k ks]; [intros [= <-]; by left|].
  intros Hb. right. unfold of_opt in Hb.
  destruct (NewKey k) as [key|] eqn:?; [|done]. simpl in Hb.
  destruct (NewKeyRing key) as [kr|] eqn:?; [|done]. injection Hb as <-. naive_solver.
Qed.

Lemma nokeys_settings_ok vc b :
  setExternalPGPSettingsWithoutWKDKeys vc emptyBuilder = Ok b -> settings_ok vc false b.
Proof.
  intros Hb. assert (Hn : settings_ok vc false (nokeys_builder vc)).
  { unfold nokeys_builder, settings_ok. destruct (String.eqb_spec (vc_MIMEType vc) "").
    all: destruct (vc_Encrypt vc), (vc_SignIsSet vc), (vc_Sign vc), (String.eqb (vc_Scheme vc) ""),
      (String.eqb (vc_Scheme vc) pgpMIME), (String.eqb (vc_Scheme vc) pgpInline);
      simpl; naive_solver. }
  apply nokeys_settings in Hb as [[_ ->]|(k & ks & key & kr & _ & _ & _ & ->)]; exact Hn.
Qed.

Lemma setPGPSettings_ok vc keys int b :
  setPGPSettings vc keys int emptyBuilder = Ok b -> settings_ok vc int b.
Proof.
  unfold setPGPSettings. destruct int; [apply internal_settings_ok|].
  destruct keys; [apply nokeys_settings_ok | apply wkd_settings_ok].
Qed.

(** The defaults and the MIME preferences, applied to a builder with
    [settings_ok], and what [build] makes of them. *)
Definition finish (ms : MailSettings) (mime : string) (b : sendPrefsBuilder) : SendPreferences :=
  build (setMIMEPreferences mime (setEncryptionPreferences ms b)).

Lemma buildSendPrefs_inv cs ms keys mime int p :
  buildSendPrefs cs ms keys mime int = Ok p ->
  exists vc b, newContactSettings cs = Ok vc /\
    setPGPSettings vc keys int emptyBuilder = Ok b /\ p = finish ms mime b.
Proof.
  unfold buildSendPrefs. intros H0.
  apply result_bind_Ok in H0 as (vc & Hvc & H0). apply result_bind_Ok in H0 as (b & Hb & [= <-]).
  naive_solver.
Qed.

(** The flags once the account's defaults are filled in. *)
Definition final_encrypt (b : sendPrefsBuilder) : bool := default false (b_encrypt b).
Definition final_sign (ms : MailSettings) (b : sendPrefsBuilder) : bool :=
  final_encrypt b || default (0 <? ms_Sign ms) (b_sign b).
Definition final_scheme (ms : MailSettings) (b : sendPrefsBuilder) : string :=
  match b_scheme b, ms_PGPScheme ms with
  | Some s, _ => s
  | None, PGPInlineScheme => pgpInline
  | None, PGPMIMEScheme => pgpMIME
  | None, _ => ""
  end.
Definition final_mime (ms : MailSettings) (mime : string) (b : sendPrefsBuilder) : string :=
  if negb (b_internal b) && final_sign ms b then
    if String.eqb (final_scheme ms b) pgpInline then "text/plain" else "multipart/mixed"
  else if String.eqb mime "text/plain" then "text/plain"
  else if final_sign ms b && String.eqb (final_scheme ms b) pgpInline then "text/plain"
  else default (ms_DraftMIMEType ms) (b_mimeType b).

Lemma setEncryptionPreferences_fields ms b :
  let b' := setEncryptionPreferences ms b in
  b_internal b' = b_internal b /\ b_publicKey b' = b_publicKey b /\
  shouldEncrypt b' = final_encrypt b /\ shouldSign b' = final_sign ms b /\
  getScheme b' = final_scheme ms b /\
  getMIMEType b' =
    (if final_sign ms b && String.eqb (final_scheme ms b) pgpInline then "text/plain"%string
     else default (ms_DraftMIMEType ms) (b_mimeType b)).
Proof.
  unfold setEncryptionPreferences. cbv zeta.
  set (b1 := withEncryptDefault false b).
  set (b2 := if shouldEncrypt (if 0 <? ms_Sign ms then withSignDefault b1 else b1) then _ else _).
  set (b3 := match ms_PGPScheme ms with PGPInlineScheme => _ | _ => _ end).
  assert (H2 : b_internal b2 = b_internal b /\ b_publicKey b2 = b_publicKey b /\
    shouldEncrypt b2 = final_encrypt b /\ shouldSign b2 = final_sign ms b /\
    b_scheme b2 = b_scheme b /\ b_mimeType b2 = b_mimeType b).
  { destruct b as [? [[]|] [[]|] ? ? ?]; subst b1 b2;
      unfold final_sign; simpl; destruct (0 <? ms_Sign ms); done. }
  clearbody b2. destruct H2 as (Hi & Hk & He & Hs & Hsc & Hm). clear b1.
  assert (H3 : b_internal b3 = b_internal b /\ b_publicKey b3 = b_publicKey b /\
    shouldEncrypt b3 = final_encrypt b /\ shouldSign b3 = final_sign ms b /\
    getScheme b3 = final_scheme ms b /\ b_mimeType b3 = b_mimeType b).
  { subst b3. unfold withSchemeDefault, getScheme, final_scheme. rewrite <- Hsc.
    destruct (ms_PGPScheme ms), (b_scheme b2) eqn:E; simpl; rewrite ?E; repeat split; done. }
  clearbody b3. clear Hi Hk He Hs Hsc Hm b2. destruct H3 as (Hi & Hk & He & Hs & Hsc & Hm).
  rewrite Hs, Hsc, <- Hm. destruct (final_sign ms b && _); [by repeat split|].
  unfold withMIMETypeDefault, getMIMEType.
  destruct (b_mimeType b3) eqn:Hm3; rewrite ?Hm3; by repeat split.
Qed.

Lemma finish_fields ms mime b :
  let p := finish ms mime b in
  sp_Encrypt p = final_encrypt b /\ sp_PubKey p = b_publicKey b /\
  sp_SignatureType p = (if final_sign ms b then DetachedSignature else NoSignature) /\
  sp_MIMEType p = final_mime ms mime b /\
  sp_EncryptionScheme p =
    (if b_internal b then InternalScheme
     else if final_sign ms b then
       if final_encrypt b then
         if String.eqb (final_scheme ms b) pgpInline then PGPInlineScheme else PGPMIMEScheme
       else if String.eqb (final_scheme ms b) pgpInline then ClearScheme else ClearMIMEScheme
     else ClearScheme).
Proof.
  unfold finish, setMIMEPreferences, final_mime, isInternal. cbv zeta.
  destruct (setEncryptionPreferences_fields ms b) as (Hi & Hk & He & Hs & Hsc & Hm).
  set (b' := setEncryptionPreferences ms b) in *. rewrite Hi, Hs, Hsc, <- Hm.
  destruct (negb (b_internal b) && final_sign ms b) eqn:?,
    (String.eqb (final_scheme ms b) pgpInline) eqn:Hpi, (String.eqb mime "text/plain") eqn:?;
    unfold build, isInternal; simpl.
  all: change (shouldEncrypt (withMIMEType ?x b')) with (shouldEncrypt b').
  all: change (shouldSign (withMIMEType ?x b')) with (shouldSign b').
  all: change (getScheme (withMIMEType ?x b')) with (getScheme b').
  all: rewrite ?Hi, ?Hs, ?Hsc, ?He, ?Hpi, ?Hk; destruct (b_internal b), (final_sign ms b), (final_encrypt b); done.
Qed.

(** The MIME types a contact or the account's "composer mode" setting can hold
    according to the comments of the builder. *)
Definition text_type (t : string) : Prop := t = TextHTML \/ t = TextPlain.
Definition text_settings (cs : ContactSettings) (ms : MailSettings) : Prop :=
  (forall t, cs_MIMEType cs = Some t -> t <> ""%string -> text_type t) /\
  text_type (ms_DraftMIMEType ms).

Lemma newContactSettings_MIMEType cs vc :
  newContactSettings cs = Ok vc -> vc_MIMEType vc = default ""%string (cs_MIMEType cs).
Proof.
  unfold newContactSettings. intros Hn.
  apply result_bind_Ok in Hn as (? & _ & Hn). by apply result_bind_Ok in Hn as (? & _ & [= <-]).
Qed.

(** A builder's MIME type, when set, is a text type. *)
Lemma settings_text cs ms keys int vc b t :
  text_settings cs ms -> newContactSettings cs = Ok vc ->
  setPGPSettings vc keys int emptyBuilder = Ok b ->
  b_mimeType b = Some t -> text_type t.
Proof.
  intros [Ht _] Hvc Hb Hm. apply setPGPSettings_ok in Hb as (_ & _ & _ & Hmt).
  destruct Hmt as [?|[?|[Hne ?]]]; simplify_eq; [by right|].
  rewrite (newContactSettings_MIMEType cs vc Hvc) in *. destruct (cs_MIMEType cs) eqn:?; simpl in *; [|done].
  eauto.
Qed.

Lemma final_sign_encrypt ms b : final_encrypt b = true -> final_sign ms b = true.
Proof. unfold final_sign. by intros ->. Qed.

Lemma final_mime_text ms mime b :
  text_type (ms_DraftMIMEType ms) -> (forall t, b_mimeType b = Some t -> text_type t) ->
  negb (b_internal b) && final_sign ms b && negb (String.eqb (final_scheme ms b) pgpInline) = false ->
  text_type (final_mime ms mime b).
Proof.
  unfold final_mime. intros Hd Hb Hf.
  destruct (negb (b_internal b)), (final_sign ms b), (String.eqb (final_scheme ms b) pgpInline),
    (String.eqb mime "text/plain"); try done; try (by right); simpl in *;
    destruct (b_mimeType b); simpl; eauto.
Qed.

(** The preferences the builder returns are consistent: an encrypted message
    is also signed; an internal recipient always gets the internal scheme,
    encrypted; the scheme is an encrypting one exactly when the message is
    encrypted; and, when the contact and the account name a text format, the
    message is sent as [multipart/mixed] exactly under the PGP/MIME and clear
    MIME schemes and as plain text under PGP/Inline. *)
Theorem buildSendPrefs_consistent cs ms keys mime int p :
  text_settings cs ms ->
  buildSendPrefs cs ms keys mime int = Ok p ->
  (sp_Encrypt p = true -> sp_SignatureType p = DetachedSignature) /\
  (int = true -> sp_EncryptionScheme p = InternalScheme /\ sp_Encrypt p = true) /\
  (sp_Encrypt p = true <-> sp_EncryptionScheme p ∈ [InternalScheme; PGPInlineScheme; PGPMIMEScheme]) /\
  (sp_MIMEType p = MultipartMixed <-> sp_EncryptionScheme p ∈ [PGPMIMEScheme; ClearMIMEScheme]) /\
  (sp_EncryptionScheme p = PGPInlineScheme -> sp_MIMEType p = TextPlain).
Proof.
  intros Ht Hp. apply buildSendPrefs_inv in Hp as (vc & b & Hvc & Hb & ->).
  assert (Hmt := final_mime_text ms mime b (proj2 Ht) (fun t => settings_text cs ms keys int vc b t Ht Hvc Hb)).
  apply setPGPSettings_ok in Hb as (Hi & Hes & Hie & _).
  destruct (finish_fields ms mime b) as (-> & _ & -> & -> & ->).
  assert (Hse := final_sign_encrypt ms b). unfold final_encrypt in *. rewrite Hi in *.
  assert (Hne : forall t, text_type t -> t <> MultipartMixed) by (by intros ? [-> | ->]).
  repeat setoid_rewrite elem_of_cons. rewrite !elem_of_nil. unfold final_mime in *. rewrite Hi in *.
  destruct int.
  { rewrite Hie in * by done. simpl in *. rewrite Hse in * by done. simpl in *. naive_solver. }
  simpl in *.
  destruct (default false (b_encrypt b)); [rewrite Hse in * by done|destruct (final_sign ms b)];
    destruct (String.eqb (final_scheme ms b) pgpInline); simpl in *; naive_solver.
Qed.

(** ** Packaging *)

Lemma copy_recipients_lookup (r : recipients) addrs a q :
  copy_recipients r addrs !! a = Some q <-> a ∈ addrs /\ r !! a = Some q.
Proof.
  unfold copy_recipients. induction addrs as [|x l IH] using rev_ind; simpl.
  { rewrite elem_of_nil, lookup_empty. naive_solver. }
  rewrite foldl_snoc, elem_of_app, list_elem_of_singleton.
  destruct (r !! x) eqn:Hx; [|rewrite IH; naive_solver].
  destruct (decide (a = x)) as [->|Hne]; [rewrite lookup_insert_eq; naive_solver|].
  rewrite lookup_insert_ne by done. rewrite IH. naive_solver.
Qed.

Lemma scheme_lookup `{MapRange} ss (r : recipients) a q :
  scheme ss r !! a = Some q <-> r !! a = Some q /\ sp_EncryptionScheme q ∈ ss.
Proof.
  unfold scheme. rewrite copy_recipients_lookup, elem_of_Filter, elem_of_Keys.
  split.
  - intros [[_ Hk] Hr]. rewrite Hr in Hk. apply bool_decide_eq_true in Hk. done.
  - intros [Hr Hs]. rewrite Hr. split; [|done]. split; [eauto|]. by apply bool_decide_eq_true.
Qed.

Lemma content_lookup `{MapRange} ts (r : recipients) a q :
  content ts r !! a = Some q <-> r !! a = Some q /\ sp_MIMEType q ∈ ts.
Proof.
  unfold content. rewrite copy_recipients_lookup, elem_of_Filter, elem_of_Keys.
  split.
  - intros [[_ Hk] Hr]. rewrite Hr in Hk. apply bool_decide_eq_true in Hk. done.
  - intros [Hr Hs]. rewrite Hr. split; [|done]. split; [eauto|]. by apply bool_decide_eq_true.
Qed.

(** A package of the request: the MIME body, or a text body in one format. *)
Inductive package : Type :=
| MIMEPackage (rs : recipients)
| TextPackage (t : string) (rs : recipients).

Definition package_recipients (k : package) : recipients :=
  match k with MIMEPackage rs => rs | TextPackage _ rs => rs end.

(** A recipient belongs in a package when its scheme and its MIME type say so. *)
Definition fits (k : package) (q : SendPreferences) : Prop :=
  match k with
  | MIMEPackage _ => sp_EncryptionScheme q ∈ [PGPMIMEScheme; ClearMIMEScheme]
  | TextPackage t _ =>
      sp_EncryptionScheme q ∈ [InternalScheme; ClearScheme; PGPInlineScheme] /\ sp_MIMEType q = t
  end.

(** The calls that add the packages [ks] in order. *)
Fixpoint add_packages `{SendReq} (kr : KeyRing) (mimeBody richBody plainBody : string)
    (attKeys : gmap string SessionKey) (ks : list package) (req : SendDraftReq)
    : result sendErr SendDraftReq :=
  match ks with
  | [] => Ok req
  | k :: ks' =>
      req' ← match k with
             | MIMEPackage rs => AddMIMEPackage kr mimeBody rs req
             | TextPackage t rs =>
                 AddTextPackage kr (if String.eqb t TextHTML then richBody else plainBody) t rs attKeys req
             end;
      add_packages kr mimeBody richBody plainBody attKeys ks' req'
  end.

(** The packages of a request: those of the three kinds that are not empty. *)
Definition packages `{MapRange} (rs : recipients) : list package :=
  let text := scheme [InternalScheme; ClearScheme; PGPInlineScheme] rs in
  Filter [MIMEPackage (scheme [PGPMIMEScheme; ClearMIMEScheme] rs);
          TextPackage TextHTML (content [TextHTML] text);
          TextPackage TextPlain (content [TextPlain] text)]
    (fun k => negb (bool_decide (package_recipients k = ∅))).

Definition packageable (q : SendPreferences) : Prop :=
  sp_EncryptionScheme q ∈ [PGPMIMEScheme; ClearMIMEScheme] \/
  (sp_EncryptionScheme q ∈ [InternalScheme; ClearScheme; PGPInlineScheme] /\ text_type (sp_MIMEType q)).

Lemma content_empty `{MapRange} ts : content ts ∅ = ∅.
Proof.
  apply map_empty. intros a. apply eq_None_not_Some. intros [q Hq].
  apply content_lookup in Hq as [Hq _]. by rewrite lookup_empty in Hq.
Qed.

Lemma createSendReq_packages `{MapRange} `{SendReq} kr mb rb pb attKeys (rs : recipients) :
  (forall a q, rs !! a = Some q -> packageable q) ->
  createSendReq kr mb rb pb rs attKeys = add_packages kr mb rb pb attKeys (packages rs) newReq.
Proof.
  intros Hpk. unfold createSendReq, packages. cbv zeta.
  set (mime := scheme [PGPMIMEScheme; ClearMIMEScheme] rs).
  set (text := scheme [InternalScheme; ClearScheme; PGPInlineScheme] rs).
  assert (Hmm : content [MultipartMixed] text = ∅).
  { apply map_empty. intros a. apply eq_None_not_Some. intros [q Hq].
    apply content_lookup in Hq as [Hq Hm]. apply scheme_lookup in Hq as [Hq Hs].
    apply list_elem_of_singleton in Hm. apply Hpk in Hq as [Hq|[_ [Ht|Ht]]]; [|congruence..].
    destruct q as [? ? ? sc ?]; simpl in *. rewrite !elem_of_cons in *. rewrite elem_of_nil in *.
    naive_solver. }
  rewrite Hmm.
  assert (Hd : forall P (D : Decision P), negb (bool_decide P) = if decide P then false else true)
    by (intros P []; reflexivity).
  cbn [Filter package_recipients]. rewrite !Hd.
  destruct (decide (text = ∅)) as [->|Ht]; [rewrite !content_empty|].
  all: repeat case_decide; cbn [add_packages]; simpl String.eqb; cbv iota; try done.
  all: repeat match goal with |- ?x ≫= _ = _ => destruct x; simpl; try done end.
Qed.

Lemma buildSendPrefs_packageable cs ms keys mime int q :
  text_settings cs ms -> buildSendPrefs cs ms keys mime int = Ok q -> packageable q.
Proof.
  intros Ht Hp. apply buildSendPrefs_inv in Hp as (vc & b & Hvc & Hb & ->).
  assert (Hmt := final_mime_text ms mime b (proj2 Ht) (fun t => settings_text cs ms keys int vc b t Ht Hvc Hb)).
  destruct (finish_fields ms mime b) as (_ & _ & _ & Hm & Hs).
  unfold packageable. rewrite Hm, Hs. repeat setoid_rewrite elem_of_cons. rewrite !elem_of_nil.
  destruct (b_internal b); [naive_solver|]. simpl in *.
  destruct (final_sign ms b), (final_encrypt b), (String.eqb (final_scheme ms b) pgpInline);
    simpl in *; naive_solver.
Qed.

Lemma packages_nonempty `{MapRange} (rs : recipients) k :
  k ∈ packages rs -> package_recipients k <> ∅.
Proof.
  intros Hk. apply elem_of_Filter in Hk as [_ Hne]. by apply negb_true_iff, bool_decide_eq_false in Hne.
Qed.

Lemma packages_lookup `{MapRange} (rs : recipients) k a q :
  k ∈ packages rs -> package_recipients k !! a = Some q <-> rs !! a = Some q /\ fits k q.
Proof.
  intros Hk. apply elem_of_Filter in Hk as [Hk _]. rewrite !elem_of_cons, elem_of_nil in Hk.
  destruct Hk as [->|[->|[->|[]]]]; simpl;
    rewrite ?content_lookup, scheme_lookup, ?list_elem_of_singleton; naive_solver.
Qed.

Lemma packages_fits `{MapRange} (rs : recipients) a q :
  rs !! a = Some q -> packageable q -> exists k, k ∈ packages rs /\ fits k q.
Proof.
  intros Hr Hp. unfold packages. cbv zeta. setoid_rewrite elem_of_Filter. cbv beta.
  assert (Hne : forall m : recipients, m !! a = Some q -> negb (bool_decide (m = ∅)) = true).
  { intros m Hm. apply negb_true_iff, bool_decide_eq_false. intros ->. by rewrite lookup_empty in Hm. }
  destruct Hp as [Hs|[Hs [Ht|Ht]]]; eexists.
  - split; [split; [apply list_elem_of_here|]|exact Hs]. apply Hne. by apply scheme_lookup.
  - split; [split; [apply list_elem_of_further, list_elem_of_here|]|by split]. apply Hne. simpl.
    rewrite content_lookup, scheme_lookup, Ht. by rewrite list_elem_of_singleton.
  - split; [split; [do 2 apply list_elem_of_further; apply list_elem_of_here|]|by split]. apply Hne. simpl.
    rewrite content_lookup, scheme_lookup, Ht. by rewrite list_elem_of_singleton.
Qed.

Lemma scheme_families_disjoint sc :
  sc ∈ [PGPMIMEScheme; ClearMIMEScheme] -> sc ∈ [InternalScheme; ClearScheme; PGPInlineScheme] -> False.
Proof. rewrite !elem_of_cons, !elem_of_nil. naive_solver. Qed.

Lemma packages_unique `{MapRange} (rs : recipients) k k' q :
  k ∈ packages rs -> k' ∈ packages rs -> fits k q -> fits k' q -> k = k'.
Proof.
  unfold packages. rewrite !elem_of_Filter, !elem_of_cons, !elem_of_nil.
  intros [Hk _] [Hk' _] Hf Hf'.
  destruct Hk as [->|[->|[->|[]]]], Hk' as [->|[->|[->|[]]]]; simpl in *; try done.
  all: repeat match goal with H : _ /\ _ |- _ => destruct H end; try congruence.
  all: exfalso; by eapply scheme_families_disjoint.
Qed.

(** C23: When every recipient's preferences come from the builder, the send
    request is built by adding non-empty packages, never stopping at the
    "invalid MIME type" error, and every recipient is in exactly one package, the
    one its scheme and MIME type call for, with its own preferences. *)
Theorem createSendReq_complete `{MapRange} `{SendReq} kr mb rb pb attKeys (rs : recipients) :
  (forall a q, rs !! a = Some q ->
     exists cs ms keys mime int, text_settings cs ms /\ buildSendPrefs cs ms keys mime int = Ok q) ->
  exists ks, createSendReq kr mb rb pb rs attKeys = add_packages kr mb rb pb attKeys ks newReq /\
    Forall (fun k => package_recipients k <> ∅) ks /\
    (forall a q, rs !! a = Some q ->
       exists k, k ∈ ks /\ fits k q /\ package_recipients k !! a = Some q /\
         forall k', k' ∈ ks -> is_Some (package_recipients k' !! a) -> k' = k) /\
    (forall k a q, k ∈ ks -> package_recipients k !! a = Some q -> rs !! a = Some q).
Proof.
  intros Hb. exists (packages rs).
  assert (Hp : forall a q, rs !! a = Some q -> packageable q).
  { intros a q Hq. destruct (Hb a q Hq) as (cs & ms & keys & mime & int & Ht & Hq').
    by eapply buildSendPrefs_packageable. }
  split; [by apply createSendReq_packages|].
  split; [apply Forall_forall; intros k Hk; by apply (packages_nonempty rs)|].
  split; [|intros k a q Hk Ha; by apply (packages_lookup rs) in Ha as [? _]].
  intros a q Hq. destruct (packages_fits rs a q Hq (Hp a q Hq)) as (k & Hk & Hf).
  exists k. split; [done|]. split; [done|]. split; [by apply (packages_lookup rs)|].
  intros k' Hk' [q' Hq']. apply (packages_lookup rs) in Hq' as [Hr Hf']; [|done].
  assert (q' = q) as -> by congruence. by eapply packages_unique.
Qed.

(** ** The sending key *)

Definition pinned (contact : list Key) (k : Key) : Prop :=
  GetFingerprint k ∈ (GetFingerprint <$> contact).

Lemma fingerprint_map_lookup a m f :
  is_Some (fingerprint_map a m !! f) <-> f ∈ (GetFingerprint <$> a) \/ is_Some (m !! f).
Proof.
  revert m. induction a as [|k a IH]; intros m; simpl; [rewrite elem_of_nil; naive_solver|].
  rewrite IH, elem_of_cons, lookup_insert_is_Some. destruct (decide (f = GetFingerprint k)); naive_solver.
Qed.

Lemma elem_of_matchFingerprints a b k :
  k ∈ matchFingerprints a b <-> k ∈ b /\ pinned a k.
Proof.
  unfold matchFingerprints, pinned. rewrite elem_of_Filter. cbv beta.
  assert (Hf := fingerprint_map_lookup a ∅ (GetFingerprint k)).
  rewrite lookup_empty in Hf. destruct (fingerprint_map a ∅ !! GetFingerprint k); split; naive_solver.
Qed.

Lemma Filter_head {E} (l : list E) keep x l' :
  Filter l keep = x :: l' ->
  exists pre post, l = pre ++ x :: post /\ keep x = true /\ forall y, y ∈ pre -> keep y = false.
Proof.
  induction l as [|y l IH]; simpl; [done|]. destruct (keep y) eqn:Hy.
  - intros [= <- _]. exists [], l. split; [done|]. split; [done|]. intros ? []%elem_of_nil.
  - intros (pre & post & -> & Hx & Hpre)%IH. exists (y :: pre), post. split; [done|]. split; [done|].
    intros z [->|Hz]%elem_of_cons; auto.
Qed.

Lemma collect_Ok {A B} e (f : A -> option B) l bs :
  collect e f l = Ok bs <-> Forall2 (fun a b => f a = Some b) l bs.
Proof.
  revert bs. induction l as [|a l IH]; intros bs; simpl.
  { split; [intros [= <-]; constructor|]. intros Hl. by inversion Hl. }
  unfold of_opt. destruct (f a) as [b|] eqn:Hf; simpl.
  - split.
    + intros (bs' & Hl & [= <-])%result_bind_Ok. constructor; [done|]. by apply IH.
    + intros Hl. inversion Hl as [|? b' ? bs' ? Hl']; simplify_eq. apply IH in Hl'. by rewrite Hl'.
  - split; [done|]. intros Hl. inversion Hl; congruence.
Qed.

Lemma collect_Err {A B} e (f : A -> option B) l e' : collect e f l = Err e' -> e' = e.
Proof.
  induction l as [|a l IH]; simpl; [done|]. unfold of_opt. destruct (f a); simpl; [|congruence].
  intros [?|(bs & _ & ?)]%result_bind_Err; [auto|done].
Qed.

(** The choice [pickSendingKey] documents: the first key of the API that is
    pinned in the contact, or the first key of the API when none is. *)
Definition sending_key (contact api : list Key) (k : Key) : Prop :=
  (exists pre post, api = pre ++ k :: post /\ pinned contact k /\ forall y, y ∈ pre -> ~ pinned contact y) \/
  (head api = Some k /\ forall y, y ∈ api -> ~ pinned contact y).

Lemma pickSendingKey_Ok vc raw kr :
  pickSendingKey vc raw = Ok kr ->
  exists contact api k,
    Forall2 (fun s k => NewKey s = Some k) (vc_Keys vc) contact /\
    Forall2 (fun s k => NewKeyFromArmored s = Some k) raw api /\
    sending_key contact api k /\ NewKeyRing k = Some kr.
Proof.
  unfold pickSendingKey. intros (contact & Hc & Hp)%result_bind_Ok.
  apply result_bind_Ok in Hp as (api & Ha & (k & Hk & Hr)%result_bind_Ok).
  apply collect_Ok in Hc, Ha. exists contact, api, k. do 2 (split; [done|]).
  split; [|unfold of_opt in Hr; by destruct (NewKeyRing k); simplify_eq].
  destruct (matchFingerprints contact api) as [|x l] eqn:Hm; simplify_eq.
  - right. destruct api as [|x api]; simplify_eq. split; [done|]. intros y Hy Hpin.
    assert (y ∈ matchFingerprints contact (k :: api)) as Hin by (by apply elem_of_matchFingerprints).
    rewrite Hm in Hin. by apply elem_of_nil in Hin.
  - left. assert (Hin : k ∈ matchFingerprints contact api) by (rewrite Hm; apply list_elem_of_here).
    apply elem_of_matchFingerprints in Hin as [_ Hpin].
    apply Filter_head in Hm as (pre & post & Hapi & _ & Hpre). exists pre, post.
    split; [done|]. split; [done|]. intros y Hy Hpin'. specialize (Hpre y Hy). cbv beta in Hpre.
    assert (Hs : is_Some (fingerprint_map contact ∅ !! GetFingerprint y))
      by (apply fingerprint_map_lookup; by left).
    destruct Hs as [? Hs]. by rewrite Hs in Hpre.
Qed.

(** The key of the result depends on the PGP settings only. *)
Lemma setPGPSettings_key vc keys int b :
  setPGPSettings vc keys int emptyBuilder = Ok b ->
  match keys with
  | [] => match vc_Keys vc with
          | [] => b_publicKey b = None
          | s :: _ => exists k kr, NewKey s = Some k /\ NewKeyRing k = Some kr /\ b_publicKey b = Some kr
          end
  | _ => exists kr, pickSendingKey vc keys = Ok kr /\ b_publicKey b = Some kr
  end.
Proof.
  unfold setPGPSettings, setInternalPGPSettings, setExternalPGPSettingsWithWKDKeys.
  intros Hb. destruct int, keys as [|s keys]; simpl in Hb; [done| |..].
  - apply result_bind_Ok in Hb as (kr & Hkr & [= <-]). eauto.
  - assert (Hn : b_publicKey (nokeys_builder vc) = None).
    { unfold nokeys_builder. by repeat case_match. }
    apply nokeys_settings in Hb as [[-> ->]|(k & ks & key & kr & -> & ? & ? & ->)]; [done|].
    eauto.
  - apply result_bind_Ok in Hb as (kr & Hkr & [= <-]). eauto.
Qed.

(** The key of the preferences: with keys published by the API it is the
    first one whose fingerprint is pinned in the contact, or the first one when
    none is pinned; without, it is the contact's first key, and there is no key
    exactly when the contact has none either. *)
Theorem buildSendPrefs_key cs ms keys mime int p :
  buildSendPrefs cs ms keys mime int = Ok p ->
  exists blobs, Forall2 (fun k s => Serialize k = Some s) (cs_Keys cs) blobs /\
    match keys, blobs with
    | [], [] => sp_PubKey p = None
    | [], s :: _ => exists k kr, NewKey s = Some k /\ NewKeyRing k = Some kr /\ sp_PubKey p = Some kr
    | _ :: _, _ => exists contact api k kr,
        Forall2 (fun s k => NewKey s = Some k) blobs contact /\
        Forall2 (fun s k => NewKeyFromArmored s = Some k) keys api /\
        sending_key contact api k /\ NewKeyRing k = Some kr /\ sp_PubKey p = Some kr
    end.
Proof.
  intros Hp. apply buildSendPrefs_inv in Hp as (vc & b & Hvc & Hb & ->).
  destruct (finish_fields ms mime b) as (_ & -> & _). exists (vc_Keys vc). split.
  { unfold newContactSettings in Hvc. apply result_bind_Ok in Hvc as (? & _ & Hvc).
    apply result_bind_Ok in Hvc as (ks & Hks & [= <-]). by apply collect_Ok in Hks. }
  apply setPGPSettings_key in Hb. destruct keys as [|raw keys]; [by destruct (vc_Keys vc)|].
  destruct Hb as (kr & (contact & api & k & ? & ? & ? & ?)%pickSendingKey_Ok & ->).
  naive_solver.
Qed.

Lemma pickSendingKey_Err vc k ks e : pickSendingKey vc (k :: ks) = Err e -> e = ErrBadKey.
Proof.
  unfold pickSendingKey, of_opt. intros [?%collect_Err|(c & _ & He)]%result_bind_Err; [done|].
  apply result_bind_Err in He as [?%collect_Err|(a & Ha & He)]; [done|]. apply collect_Ok in Ha.
  destruct a as [|x a]; [by inversion Ha|].
  destruct (matchFingerprints c (x :: a)) as [|y l]; simpl in He.
  - destruct (NewKeyRing x); congruence.
  - destruct (NewKeyRing y); congruence.
Qed.

Lemma setPGPSettings_Err vc keys int e :
  setPGPSettings vc keys int emptyBuilder = Err e ->
  e = ErrBadKey \/ (e = ErrNoAPIKey /\ int = true /\ keys = []).
Proof.
  unfold setPGPSettings, setInternalPGPSettings, setExternalPGPSettingsWithWKDKeys,
    setExternalPGPSettingsWithoutWKDKeys, of_opt. intros He.
  destruct int, keys; cbv zeta in He; [naive_solver| | |].
  - apply result_bind_Err in He as [?%pickSendingKey_Err|(? & _ & ?)]; [by left|done].
  - left. destruct (vc_Keys vc) as [|k ks]; [done|].
    destruct (NewKey k) as [key|]; simpl in He; [destruct (NewKeyRing key); simpl in He|]; congruence.
  - apply result_bind_Err in He as [?%pickSendingKey_Err|(? & _ & ?)]; [by left|done].
Qed.

Definition unknown_scheme (cs : ContactSettings) : Prop :=
  exists sc, cs_Scheme cs = Some sc /\ sc <> PGPMIMEScheme /\ sc <> PGPInlineScheme.

Lemma newContactSettings_Err cs e :
  newContactSettings cs = Err e ->
  (e = PanicUnknownScheme /\ unknown_scheme cs) \/ (e = PanicSerialize /\ ~ unknown_scheme cs).
Proof.
  unfold newContactSettings, unknown_scheme. intros [He|(sc & Hsc & He)]%result_bind_Err.
  - left. destruct (cs_Scheme cs) as [[]|]; naive_solver.
  - right. apply result_bind_Err in He as [?%collect_Err|(? & _ & ?)]; [|done]. split; [done|].
    destruct (cs_Scheme cs) as [[]|]; naive_solver.
Qed.

Lemma newContactSettings_Ok cs vc : newContactSettings cs = Ok vc -> ~ unknown_scheme cs.
Proof.
  unfold newContactSettings, unknown_scheme. intros (sc & Hsc & He)%result_bind_Ok.
  destruct (cs_Scheme cs) as [[]|]; naive_solver.
Qed.

(** How the builder fails: the index panic of [apiKeys[0]] never happens; it
    panics on the contact's scheme exactly when the contact has a scheme other
    than PGP/MIME and PGP/Inline; the missing-key error is only for an internal
    recipient without keys. *)
Theorem buildSendPrefs_errors cs ms keys mime int :
  buildSendPrefs cs ms keys mime int <> Err PanicIndex /\
  (buildSendPrefs cs ms keys mime int = Err PanicUnknownScheme <-> unknown_scheme cs) /\
  (buildSendPrefs cs ms keys mime int = Err ErrNoAPIKey -> int = true /\ keys = []).
Proof.
  unfold buildSendPrefs. destruct (newContactSettings cs) as [vc|e] eqn:Hvc; simpl.
  - apply newContactSettings_Ok in Hvc.
    destruct (setPGPSettings vc keys int emptyBuilder) as [b|e] eqn:Hb; simpl; [naive_solver|].
    apply setPGPSettings_Err in Hb. naive_solver.
  - apply newContactSettings_Err in Hvc. naive_solver.
Qed.

(** A contact that asks for encryption without holding a key: the preferences
    say "encrypt" and carry no key. *)
Lemma encrypt_without_key ms mime cs :
  cs_Keys cs = [] -> cs_Scheme cs = None -> cs_Encrypt cs = Some true ->
  exists p, buildSendPrefs cs ms [] mime false = Ok p /\ sp_Encrypt p = true /\ sp_PubKey p = None.
Proof.
  intros Hk Hsc He. unfold buildSendPrefs, newContactSettings. rewrite Hk, Hsc, He. simpl.
  eexists. split; [reflexivity|].
  match goal with |- sp_Encrypt (build (setMIMEPreferences _ (setEncryptionPreferences _ ?b))) = _ /\ _ =>
    destruct (finish_fields ms mime b) as (E1 & E2 & _) end.
  unfold finish in *. rewrite E1, E2. by destruct (cs_Sign cs) as [[]|], (negb _).
Qed.

End prefs.

(** ** Concrete instances for the witnesses *)

(** Keys that are their own text and their own fingerprint. *)
Definition text_keys : PGP :=
  {| Key := string; KeyRing := string; Serialize := Some; NewKey := Some;
     NewKeyFromArmored := Some; NewKeyRing := Some; GetFingerprint := id |}.

(** A send request that is the list of its packages. *)
Definition list_req : @SendReq text_keys :=
  @Build_SendReq text_keys (list (string * gmap string (@SendPreferences text_keys))) unit string []
    (fun _ _ rs req => Ok (req ++ [(MultipartMixed, rs)]))
    (fun _ _ t rs _ req => Ok (req ++ [(t, rs)])) id.

Definition ex_contact : @ContactSettings text_keys :=
  @mkContactSettings text_keys (Some TextHTML) ["k2"]%string None None (Some true) None.
Definition ex_settings : MailSettings := mkMailSettings 1 PGPMIMEScheme TextPlain.
Definition ex_prefs : @SendPreferences text_keys :=
  @mkSendPreferences text_keys true (Some "k2"%string) DetachedSignature InternalScheme TextHTML.

Lemma ex_text : @text_settings text_keys ex_contact ex_settings.
Proof. split; [|by right]. intros t [= <-] _. by left. Qed.

Lemma buildSendPrefs_consistent_witness :
  sp_EncryptionScheme ex_prefs = InternalScheme /\ sp_Encrypt ex_prefs = true.
Proof.
  apply (@buildSendPrefs_consistent text_keys ex_contact ex_settings ["k1"; "k2"]%string TextHTML true ex_prefs ex_text);
    reflexivity.
Defined.

Lemma buildSendPrefs_key_witness :
  exists blobs, Forall2 (fun k s => @Serialize text_keys k = Some s) (cs_Keys ex_contact) blobs /\
    match blobs with
    | _ => exists contact api k kr,
        Forall2 (fun s k => @NewKey text_keys s = Some k) blobs contact /\
        Forall2 (fun s k => @NewKeyFromArmored text_keys s = Some k) ["k1"; "k2"]%string api /\
        @sending_key text_keys contact api k /\ @NewKeyRing text_keys k = Some kr /\ sp_PubKey ex_prefs = Some kr
    end.
Proof.
  exact (@buildSendPrefs_key text_keys ex_contact ex_settings ["k1"; "k2"]%string TextHTML true ex_prefs eq_refl).
Defined.

Lemma createSendReq_complete_witness :
  exists ks : list (@package text_keys),
    @createSendReq text_keys canonical_range list_req "kr"%string "m"%string "r"%string "p"%string
      {["a@b"%string := ex_prefs]} ∅ =
    @add_packages text_keys list_req "kr"%string "m"%string "r"%string "p"%string ∅ ks [].
Proof.
  destruct (@createSendReq_complete text_keys canonical_range list_req "kr"%string "m"%string "r"%string
    "p"%string ∅ {["a@b"%string := ex_prefs]}) as (ks & Hks & _).
  - intros a q [_ <-]%lookup_singleton_Some.
    exists ex_contact, ex_settings, ["k1"; "k2"]%string, TextHTML, true.
    split; [exact ex_text|reflexivity].
  - exists ks. exact Hks.
Defined.
