(* ===== verification/SmtpAccounts.v ===== *)
(** * SMTP accounts and their error limiter (internal/services/smtp/accounts.go)

    The SMTP server looks up accounts by user ID, authenticates against any of
    them and sends through one.  Each account counts successive failures and
    refuses to send for a while after too many.  The file models the account map,
    the counter, and sequences of operations on them. *)

From S2P Require Import Prelude.

(** Instants are nanoseconds since Go's zero time, so the zero [time.Time] of a
    fresh account is 0.  [Sub] saturates at the bounds of [time.Duration]. *)
Definition Sub (t u : Z) : Z := Z.max (- 2 ^ 63) (Z.min (2 ^ 63 - 1) (t - u)).

Definition Second : Z := 1000000000.
Definition maxFailedCommands : Z := 3.
Definition defaultErrTimeout : Z := 20 * Second.
Definition successiveErrInterval : Z := Second.

(** The user's SMTP service, outside this file: its user ID, its check of
    credentials and the error its [SendMail] may return. *)
Class SMTPService : Type := {
  Service : Type;
  UserID : Service -> string;
  checkAuth : Service -> string -> string -> option string;
  ServiceErr : Type
}.

Section accounts.
Context `{SMTPService}.

Inductive smtpErr : Type :=
| ErrSMTPAuthFailed
| ErrInvalidRecipient
| ErrNoSuchUser
| ErrTooManyErrors
| ErrService (e : ServiceErr).

Record smtpAccountState : Type := mkState {
  service : Service;
  errTimeout : Z;
  errCounter : Z;
  lastRequest : Z
}.

Definition withErr (c : Z) (s : smtpAccountState) : smtpAccountState :=
  mkState (service s) (errTimeout s) c (lastRequest s).
Definition withLast (t : Z) (s : smtpAccountState) : smtpAccountState :=
  mkState (service s) (errTimeout s) (errCounter s) t.

(** The new state, and whether the request may be made. *)
Definition canMakeRequest (requestTime : Z) (s : smtpAccountState) : smtpAccountState * bool :=
  if maxFailedCommands <=? errCounter s then
    if errTimeout s <=? Sub requestTime (lastRequest s) then (withErr 0 s, true)
    else (s, false)
  else (s, true).

Definition handleSMTPErr (requestTime : Z) (err : option ServiceErr) (s : smtpAccountState)
    : smtpAccountState :=
  let s :=
    match err with
    | None => withErr 0 s
    | Some _ =>
        if successiveErrInterval <? Sub requestTime (lastRequest s) then withErr 0 s
        else withErr (i64 (errCounter s + 1)) s
    end in
  withLast requestTime s.

Abbreviation Accounts := (gmap string smtpAccountState).

Definition NewAccounts : Accounts := ∅.

Definition AddAccount (account : Service) (s : Accounts) : Accounts :=
  <[UserID account := mkState account defaultErrTimeout 0 0]> s.

Definition RemoveAccount (account : Service) (s : Accounts) : Accounts :=
  delete (UserID account) s.

(** The first account of the iteration whose service accepts the credentials. *)
Definition CheckAuth `{MapRange} (user password : string) (s : Accounts)
    : result smtpErr (string * string) :=
  match find_first (fun '(_, account) =>
          match checkAuth (service account) user password with Some _ => true | None => false end)
        (map_range s) with
  | Some (id, account) =>
      match checkAuth (service account) user password with
      | Some addrID => Ok (id, addrID)
      | None => Err ErrSMTPAuthFailed
      end
  | None => Err ErrSMTPAuthFailed
  end.

(** One whole [SendMail].  [requestTime] is the clock it reads and [sent] what the
    account's service returns if it is called; the last component of the result
    says whether it was. *)
Definition SendMail (userID : string) (to : list string) (requestTime : Z)
    (sent : option ServiceErr) (s : Accounts) : Accounts * option smtpErr * bool :=
  match to with
  | [] => (s, Some ErrInvalidRecipient, false)
  | _ =>
      match s !! userID with
      | None => (s, Some ErrNoSuchUser, false)
      | Some account =>
          match canMakeRequest requestTime account with
          | (account, false) => (<[userID := account]> s, Some ErrTooManyErrors, false)
          | (account, true) =>
              let account := handleSMTPErr requestTime sent account in
              (<[userID := account]> s, ErrService <$> sent, true)
          end
      end
  end.

(** ** Sequences of operations, with a log of what was sent *)

Inductive op : Type :=
| OpAdd (account : Service)
| OpRemove (account : Service)
| OpSend (userID : string) (to : list string) (t : Z) (sent : option ServiceErr).

(** The log of a user: the requests that reached its service since the account
    was added, the latest first, each with its time and whether it failed. *)
Abbreviation logs := (gmap string (list (Z * bool))).

Definition failed (sent : option ServiceErr) : bool :=
  match sent with Some _ => true | None => false end.

Definition step (o : op) (st : Accounts * logs) : Accounts * logs :=
  let '(s, l) := st in
  match o with
  | OpAdd a => (AddAccount a s, <[UserID a := []]> l)
  | OpRemove a => (RemoveAccount a s, delete (UserID a) l)
  | OpSend u to t sent =>
      let '(s', _, called) := SendMail u to t sent s in
      (s', if called then <[u := (t, failed sent) :: default [] (l !! u)]> l else l)
  end.

Definition exec (ops : list op) : Accounts * logs := foldl (fun st o => step o st) (NewAccounts, ∅) ops.

(** [streak n h]: the latest [n] requests of the log all failed, each at most a
    second after the request before it. *)
Fixpoint streak (n : nat) (h : list (Z * bool)) : Prop :=
  match n, h with
  | O, _ => True
  | S n', (t, true) :: (((t', _) :: _) as h') => Sub t t' <= successiveErrInterval /\ streak n' h'
  | _, _ => False
  end.

(** ** The limiter *)

(** The clock reads more than a second after Go's zero time. *)
Definition clock_ok (o : op) : Prop :=
  match o with OpSend _ _ t _ => Second < t | _ => True end.

Definition last_time (h : list (Z * bool)) : Z :=
  match h with [] => 0 | (t, _) :: _ => t end.

(** The counter is the length of the current streak of fast failures. *)
Definition account_ok (h : list (Z * bool)) (a : smtpAccountState) : Prop :=
  errTimeout a = defaultErrTimeout /\ lastRequest a = last_time h /\
  exists n : nat, errCounter a = Z.of_nat n /\ (n <= 3)%nat /\ streak n h /\ ~ streak (S n) h.

Lemma streak_S n t b h :
  Second < t ->
  streak (S n) ((t, b) :: h) <->
  b = true /\ Sub t (last_time h) <= successiveErrInterval /\ streak n h.
Proof.
  intros Ht. destruct b; [|simpl; naive_solver]. destruct h as [|[t' b'] h]; simpl; [|naive_solver].
  split; [done|]. unfold Sub, successiveErrInterval, Second in *. intros (_ & Hs & _). lia.
Qed.

(** A request that reached the service keeps the counter exact. *)
Lemma handleSMTPErr_ok t sent a h :
  Second < t -> account_ok h a -> errCounter a < maxFailedCommands ->
  account_ok ((t, failed sent) :: h) (handleSMTPErr t sent a).
Proof.
  unfold maxFailedCommands.
  intros Ht (Hto & Hl & n & Hc & Hn & Hs & Hns) Hlt. unfold handleSMTPErr, account_ok.
  setoid_rewrite streak_S; [|done]. rewrite Hl.
  destruct sent as [e|]; simpl failed; cbv zeta.
  - destruct (Z.ltb_spec successiveErrInterval (Sub t (last_time h))); simpl.
    + split; [done|]. split; [done|]. exists 0%nat. repeat split; [lia|]. naive_solver lia.
    + split; [done|]. split; [done|]. exists (S n). rewrite streak_S by done.
      rewrite i64_id by (unfold i64_ok; lia). repeat split; [lia|lia|lia|done|naive_solver].
  - simpl. split; [done|]. split; [done|]. exists 0%nat. repeat split; [lia|]. naive_solver.
Qed.

(** The request that ends a refusal comes so late that it starts a new streak. *)
Lemma handleSMTPErr_reset t sent a h :
  Second < t -> account_ok h a -> defaultErrTimeout <= Sub t (lastRequest a) ->
  account_ok ((t, failed sent) :: h) (handleSMTPErr t sent (withErr 0 a)).
Proof.
  intros Ht (Hto & Hl & _) Hlate. unfold handleSMTPErr, account_ok. simpl lastRequest.
  setoid_rewrite streak_S; [|done]. rewrite Hl in *.
  assert (Hg : successiveErrInterval < Sub t (last_time h))
    by (unfold defaultErrTimeout, successiveErrInterval, Second in *; lia).
  rewrite (proj2 (Z.ltb_lt _ _) Hg). destruct sent; simpl; (split; [done|]; split; [done|]);
    exists 0%nat; repeat split; try lia; naive_solver lia.
Qed.

Lemma accounts_lookup (l : logs) (s : Accounts) u a :
  map_Forall2 (fun _ => account_ok) l s -> s !! u = Some a ->
  exists h, l !! u = Some h /\ account_ok h a.
Proof.
  intros Hinv Ha. specialize (Hinv u). rewrite Ha in Hinv. inversion Hinv; eauto.
Qed.

Lemma SendMail_ok u to t sent s l s' r called :
  Second < t -> map_Forall2 (fun _ => account_ok) l s ->
  SendMail u to t sent s = (s', r, called) ->
  map_Forall2 (fun _ => account_ok)
    (if called then <[u := (t, failed sent) :: default [] (l !! u)]> l else l) s'.
Proof.
  intros Ht Hinv. unfold SendMail. destruct to as [|to1 to]; [by intros [= <- _ <-]|].
  destruct (s !! u) as [a|] eqn:Ha; [|by intros [= <- _ <-]].
  destruct (accounts_lookup l s u a Hinv Ha) as (h & Hh & Hok).
  unfold canMakeRequest. destruct (Z.leb_spec maxFailedCommands (errCounter a)) as [Hc|Hc].
  - destruct (Z.leb_spec (errTimeout a) (Sub t (lastRequest a))) as [Hl|Hl].
    + intros [= <- _ <-]. rewrite Hh. apply map_Forall2_insert_2; [|done].
      apply handleSMTPErr_reset; [done|done|]. by destruct Hok as [<- _].
    + intros [= <- _ <-]. by rewrite insert_id.
  - intros [= <- _ <-]. rewrite Hh. apply map_Forall2_insert_2; [|done].
    by apply handleSMTPErr_ok.
Qed.

Lemma exec_ok ops :
  Forall clock_ok ops -> map_Forall2 (fun _ => account_ok) (exec ops).2 (exec ops).1.
Proof.
  induction ops as [|o ops IH] using rev_ind; [intros _; apply map_Forall2_empty|].
  rewrite Forall_app, Forall_singleton. intros [Hops Ho]. specialize (IH Hops).
  unfold exec in *. rewrite foldl_snoc. destruct (foldl _ _ ops) as [s l]. simpl in IH.
  destruct o as [a|a|u to t sent]; simpl.
  - apply map_Forall2_insert_2; [|done]. split; [done|]. split; [done|]. exists 0%nat. simpl. naive_solver lia.
  - by apply map_Forall2_delete.
  - destruct (SendMail u to t sent s) as [[s' r] called] eqn:Hs. simpl in *. by eapply SendMail_ok.
Qed.

(** The streak decides the counter. *)
Lemma streak_le n m h : (n <= m)%nat -> streak m h -> streak n h.
Proof.
  revert m h. induction n as [|n IH]; intros m h Hle; [done|].
  destruct m as [|m]; [lia|]. destruct h as [|[t []] [|[t' b'] h]]; simpl; [done..| |done|done].
  intros [? Hs]. split; [done|]. apply (IH m); [lia|exact Hs].
Qed.

(** After any sequence of operations, sending for a user is refused with
    "too many errors" exactly when the latest three requests of the account all
    failed, each within a second of the request before it, and less than 20
    seconds have passed since the last one; a refusal changes nothing and does not
    reach the service, every other request to a known user does. *)
Theorem SendMail_limited ops u to t sent (s' : Accounts) r called a h :
  Forall clock_ok ops ->
  (exec ops).1 !! u = Some a -> (exec ops).2 !! u = Some h -> to <> [] ->
  SendMail u to t sent (exec ops).1 = (s', r, called) ->
  (r = Some ErrTooManyErrors <-> streak 3 h /\ Sub t (last_time h) < defaultErrTimeout) /\
  (r = Some ErrTooManyErrors -> s' = (exec ops).1) /\
  (called = false <-> r = Some ErrTooManyErrors) /\
  (r <> Some ErrTooManyErrors -> r = ErrService <$> sent).
Proof.
  intros Hops Ha Hh Hto Hs.
  destruct (accounts_lookup _ _ _ _ (exec_ok ops Hops) Ha) as (h' & Hh' & Hok).
  assert (h' = h) as -> by congruence. destruct Hok as (Hti & Hl & n & Hc & Hn & Hst & Hns).
  unfold SendMail in Hs. rewrite Ha in Hs. destruct to as [|to1 to]; [done|].
  unfold canMakeRequest in Hs. rewrite Hti, Hl, Hc in Hs. unfold maxFailedCommands in Hs.
  assert (H3 : 3 <= Z.of_nat n <-> streak 3 h).
  { split; [intros Hle; apply (streak_le 3 n); [lia|done]|]. intros H3.
    destruct (decide (n < 3)%nat) as [Hlt|?]; [|lia]. destruct Hns. by apply (streak_le (S n) 3). }
  destruct (Z.leb_spec 3 (Z.of_nat n)) as [Hle|Hlt];
    [destruct (Z.leb_spec defaultErrTimeout (Sub t (last_time h)))|].
  - injection Hs as <- <- <-. destruct sent; simpl; naive_solver lia.
  - injection Hs as <- <- <-. rewrite insert_id by done. naive_solver lia.
  - injection Hs as <- <- <-. destruct sent; simpl; naive_solver lia.
Qed.

(** Authentication succeeds exactly when some account accepts the
    credentials, and it returns the ID and the address of an account that does,
    whatever the iteration order. *)
Theorem CheckAuth_sound `{MapRange} user password (s : Accounts) :
  match CheckAuth user password s with
  | Ok (id, addrID) => exists a, s !! id = Some a /\ checkAuth (service a) user password = Some addrID
  | Err e => e = ErrSMTPAuthFailed /\
             forall id a, s !! id = Some a -> checkAuth (service a) user password = None
  end.
Proof.
  unfold CheckAuth. destruct (find_first _ (map_range s)) as [[id a]|] eqn:Hf.
  - apply find_first_Some in Hf as [Hin Hp]. apply elem_of_map_range in Hin. cbv beta iota in Hp.
    destruct (checkAuth (service a) user password) eqn:Hc; [eauto|done].
  - split; [done|]. intros id a Ha. apply elem_of_map_range in Ha.
    rewrite find_first_None in Hf. specialize (Hf (id, a) Ha). cbv beta iota in Hf.
    by destruct (checkAuth (service a) user password).
Qed.

End accounts.

(** ** Witness *)

(** Services that are their own user ID and accept their own name as password. *)
Definition named_service : SMTPService :=
  {| Service := string; UserID := id; ServiceErr := unit;
     checkAuth := fun s u p => if String.eqb p s then Some u else None |}.

Definition ex_ops : list (@op named_service) :=
  let fail t := @OpSend named_service "u" ["x@y"]%string t (Some tt) in
  [@OpAdd named_service "u"%string; fail (10 * Second); fail (10 * Second + 1); fail (10 * Second + 2);
   fail (11 * Second)].

Lemma SendMail_limited_witness :
  exists r, (@SendMail named_service "u" ["x@y"]%string (12 * Second) None (exec ex_ops).1).1.2 = r /\
    r = Some ErrTooManyErrors.
Proof.
  eexists. split; [reflexivity|].
  refine (proj2 (proj1 (@SendMail_limited named_service ex_ops "u" ["x@y"]%string (12 * Second) None
    _ _ _ _ _ _ eq_refl eq_refl _ eq_refl)) _).
  - repeat constructor.
  - discriminate.
  - vm_compute. intuition discriminate.
Defined.
