(* ===== verification/SyncLimits.v ===== *)
(** * Memory limits of the sync pipeline (internal/services/syncservice/limits.go)

    [newSyncLimits] turns the requested amount of memory and the size of the
    machine into the budgets of the download and build stages, all in [uint64]. *)

From S2P Require Import Prelude.

Definition Kilobyte : Z := 1024.
Definition Megabyte : Z := 1024 * Kilobyte.
Definition Gigabyte : Z := 1024 * Megabyte.

Record syncLimits : Type := mkLimits {
  MaxDownloadRequestMem : Z;
  MinDownloadRequestMem : Z;
  MaxMessageBuildingMem : Z;
  MinMessageBuildingMem : Z;
  MaxSyncMemory : Z;
  MaxParallelDownloads : Z;
  DownloadRequestMem : Z;
  MessageBuildMem : Z
}.

Definition withMaxSyncMemory (v : Z) (l : syncLimits) : syncLimits :=
  mkLimits (MaxDownloadRequestMem l) (MinDownloadRequestMem l) (MaxMessageBuildingMem l)
    (MinMessageBuildingMem l) v (MaxParallelDownloads l) (DownloadRequestMem l) (MessageBuildMem l).

Definition withBudgets (download build : Z) (l : syncLimits) : syncLimits :=
  mkLimits (MaxDownloadRequestMem l) (MinDownloadRequestMem l) (MaxMessageBuildingMem l)
    (MinMessageBuildingMem l) (MaxSyncMemory l) (MaxParallelDownloads l) download build.

(** The defaults, and the overrides when BRIDGE_SYNC_FORCE_MINIMUM_SPEC is in the
    environment ([forceMinimum]). *)
Definition initialLimits (forceMinimum : bool) (maxSyncMemory : Z) : syncLimits :=
  let limits :=
    mkLimits (128 * Megabyte) (40 * Megabyte) (128 * Megabyte) (64 * Megabyte) maxSyncMemory 32 0 0 in
  if forceMinimum then
    mkLimits (50 * Megabyte) (MinDownloadRequestMem limits) (80 * Megabyte)
      (MinMessageBuildingMem limits) (800 * Megabyte) 2 0 0
  else limits.

(** At most half of the memory the system reports, at least 800 MB. *)
Definition clampLimits (totalMemory : Z) (limits : syncLimits) : syncLimits :=
  let limits :=
    if totalMemory / 2 <=? MaxSyncMemory limits
    then withMaxSyncMemory (totalMemory / 2) limits else limits in
  if MaxSyncMemory limits <? 800 * Megabyte
  then withMaxSyncMemory (800 * Megabyte) limits else limits.

(** The switch that sets the two budgets, with the warning its first branch may
    log. *)
Definition setBudgets (limits : syncLimits) : syncLimits * bool :=
  if MaxSyncMemory limits <? 2 * Gigabyte then
    (withBudgets (MinDownloadRequestMem limits) (MinMessageBuildingMem limits) limits,
     MaxSyncMemory limits <? 800 * Megabyte)
  else if MaxSyncMemory limits =? 2 * Gigabyte then
    (withBudgets (MaxDownloadRequestMem limits) (MaxMessageBuildingMem limits) limits, false)
  else
    let remainingMemory := u64 (MaxSyncMemory limits - 2 * Gigabyte) / 8 in
    (withBudgets (u64 (MaxDownloadRequestMem limits + remainingMemory))
       (u64 (MaxMessageBuildingMem limits + remainingMemory)) limits, false).

Definition newSyncLimits (forceMinimum : bool) (totalMemory maxSyncMemory : Z) : syncLimits :=
  (setBudgets (clampLimits totalMemory (initialLimits forceMinimum maxSyncMemory))).1.

(** The value the function logs as "Predicted Max Total". *)
Definition predictedTotal (l : syncLimits) : Z :=
  u64 (u64 (MessageBuildMem l * 4) + u64 (DownloadRequestMem l * 4)).

Ltac limits_lia :=
  unfold u64_ok, two64, Gigabyte, Megabyte, Kilobyte in *;
  Z.to_euclidean_division_equations; lia.

Lemma clampLimits_eq total l :
  clampLimits total l =
  withMaxSyncMemory (Z.max (800 * Megabyte) (Z.min (MaxSyncMemory l) (total / 2))) l.
Proof.
  destruct l as [? ? ? ? m ? ? ?]. unfold clampLimits, withMaxSyncMemory; simpl.
  destruct (Z.leb_spec (total / 2) m); simpl;
    [destruct (Z.ltb_spec (total / 2) (800 * Megabyte))|destruct (Z.ltb_spec m (800 * Megabyte))];
    f_equal; lia.
Qed.

(** The limits for any 64-bit inputs: the sync memory is the request (or the
    forced minimum) cut to half of the machine and raised to 800 MB; no addition
    or subtraction wraps around; and the predicted total, four times the sum of the
    two budgets, stays within the sync memory. *)
Theorem newSyncLimits_fit force total requested :
  u64_ok total -> u64_ok requested ->
  let l := newSyncLimits force total requested in
  MaxSyncMemory l = Z.max (800 * Megabyte)
    (Z.min (if force then 800 * Megabyte else requested) (total / 2)) /\
  predictedTotal l = 4 * (MessageBuildMem l + DownloadRequestMem l) /\
  predictedTotal l <= MaxSyncMemory l /\
  MinDownloadRequestMem l <= DownloadRequestMem l /\ MinMessageBuildingMem l <= MessageBuildMem l /\
  (setBudgets (clampLimits total (initialLimits force requested))).2 = false.
Proof.
  intros Ht Hr. unfold newSyncLimits. rewrite clampLimits_eq.
  replace (MaxSyncMemory (initialLimits force requested))
    with (if force then 800 * Megabyte else requested) by (by destruct force).
  set (m := Z.max _ _).
  assert (Hm : 800 * Megabyte <= m < two64) by (subst m; destruct force; limits_lia).
  assert (Hf : force = true -> m = 800 * Megabyte) by (subst m; destruct force; limits_lia).
  clearbody m. unfold setBudgets. cbn [MaxSyncMemory withMaxSyncMemory].
  unfold predictedTotal.
  destruct (Z.ltb_spec m (2 * Gigabyte)) as [Hlt|Hge];
    [rewrite (proj2 (Z.ltb_ge m (800 * Megabyte))) by lia|destruct (Z.eqb_spec m (2 * Gigabyte)) as [->|Hne]].
  all: destruct force; try limits_lia.
  all: cbn [fst snd MaxDownloadRequestMem MaxMessageBuildingMem MinDownloadRequestMem MinMessageBuildingMem
         MaxSyncMemory DownloadRequestMem MessageBuildMem withBudgets withMaxSyncMemory initialLimits].
  4: rewrite (u64_id (m - 2 * Gigabyte)), !(u64_id (128 * Megabyte + _)) by limits_lia.
  all: rewrite !(u64_id (_ * 4)), u64_id by limits_lia; repeat split; limits_lia.
Qed.

Lemma newSyncLimits_fit_witness :
  predictedTotal (newSyncLimits false (32 * Gigabyte) (2 * Gigabyte)) <=
  MaxSyncMemory (newSyncLimits false (32 * Gigabyte) (2 * Gigabyte)).
Proof.
  refine (proj1 (proj2 (proj2 (newSyncLimits_fit false (32 * Gigabyte) (2 * Gigabyte) _ _))));
    (split; [discriminate|reflexivity]).
Defined.
