(* ===== verification/SyncInterfaces.v ===== *)
(** * Interfaces of the sync service (internal/services/syncservice/interfaces.go)

    The persistent sync status and the interface through which the sync pipeline
    and its handler read and update it.  The handler and the pipeline are verified
    against the class [StateProvider]; the file-backed implementation is an
    instance. *)

From S2P Require Import Prelude.

(** [Status]; a nil [FailedMessages] map is [None]. *)
Record Status : Type := mkStatus {
  HasLabels : bool;
  HasMessages : bool;
  HasMessageCount : bool;
  FailedMessages : option (gset string);
  LastSyncedMessageID : string;
  NumSyncedMessages : Z;
  TotalMessageCount : Z;
  StartSyncEventID : string
}.

Definition DefaultStatus : Status := mkStatus false false false (Some ∅) "" 0 0 "".

Definition IsComplete (s : Status) : bool := HasLabels s && HasMessages s.
Definition InProgress (s : Status) : bool := HasLabels s || HasMessageCount s.

(** The field updates of the interface's methods. *)
Definition withLabels (b : bool) (s : Status) : Status :=
  mkStatus b (HasMessages s) (HasMessageCount s) (FailedMessages s) (LastSyncedMessageID s)
    (NumSyncedMessages s) (TotalMessageCount s) (StartSyncEventID s).
Definition withMessages (b : bool) (s : Status) : Status :=
  mkStatus (HasLabels s) b (HasMessageCount s) (FailedMessages s) (LastSyncedMessageID s)
    (NumSyncedMessages s) (TotalMessageCount s) (StartSyncEventID s).
Definition withLastMessage (id : string) (i : Z) (s : Status) : Status :=
  mkStatus (HasLabels s) (HasMessages s) (HasMessageCount s) (FailedMessages s) id
    (i64 (NumSyncedMessages s + i)) (TotalMessageCount s) (StartSyncEventID s).
Definition withMessageCount (i : Z) (s : Status) : Status :=
  mkStatus (HasLabels s) (HasMessages s) true (FailedMessages s) (LastSyncedMessageID s)
    (NumSyncedMessages s) i (StartSyncEventID s).
Definition withFailed (f : option (gset string)) (s : Status) : Status :=
  mkStatus (HasLabels s) (HasMessages s) (HasMessageCount s) f (LastSyncedMessageID s)
    (NumSyncedMessages s) (TotalMessageCount s) (StartSyncEventID s).
Definition withStartSyncEventID (id : string) (s : Status) : Status :=
  mkStatus (HasLabels s) (HasMessages s) (HasMessageCount s) (FailedMessages s)
    (LastSyncedMessageID s) (NumSyncedMessages s) (TotalMessageCount s) id.

(** The failed message IDs, for the statements. *)
Definition failedIDs (s : Status) : gset string := default ∅ (FailedMessages s).

(** What [syncservice] relies on: an operation returns its new state and an
    error, and when there is none the status is the old one with the field
    changed. *)
Class StateProvider : Type := {
  provider : Type;
  providerErr : Type;
  status_of : provider -> Status;
  AddFailedMessageID : list string -> provider -> provider * option providerErr;
  RemFailedMessageID : list string -> provider -> provider * option providerErr;
  GetSyncStatus : provider -> result providerErr Status;
  ClearSyncStatus : provider -> provider * option providerErr;
  SetHasLabels : bool -> provider -> provider * option providerErr;
  SetHasMessages : bool -> provider -> provider * option providerErr;
  SetLastMessageID : string -> Z -> provider -> provider * option providerErr;
  SetMessageCount : Z -> provider -> provider * option providerErr
}.

Class StateProviderLaws `{StateProvider} : Prop := {
  AddFailedMessageID_law ids p p' :
    AddFailedMessageID ids p = (p', None) ->
    failedIDs (status_of p') = failedIDs (status_of p) ∪ list_to_set ids /\
    status_of p' = withFailed (FailedMessages (status_of p')) (status_of p);
  RemFailedMessageID_law ids p p' :
    RemFailedMessageID ids p = (p', None) ->
    failedIDs (status_of p') = failedIDs (status_of p) ∖ list_to_set ids /\
    status_of p' = withFailed (FailedMessages (status_of p')) (status_of p);
  GetSyncStatus_law p st : GetSyncStatus p = Ok st -> st = status_of p;
  ClearSyncStatus_law p p' : ClearSyncStatus p = (p', None) -> status_of p' = DefaultStatus;
  SetHasLabels_law b p p' :
    SetHasLabels b p = (p', None) -> status_of p' = withLabels b (status_of p);
  SetHasMessages_law b p p' :
    SetHasMessages b p = (p', None) -> status_of p' = withMessages b (status_of p);
  SetLastMessageID_law id i p p' :
    SetLastMessageID id i p = (p', None) -> status_of p' = withLastMessage id i (status_of p);
  SetMessageCount_law i p p' :
    SetMessageCount i p = (p', None) -> status_of p' = withMessageCount i (status_of p)
}.

(** A state provider that is the status itself and never fails. *)
Definition pure_provider : StateProvider := {|
  provider := Status; providerErr := Empty_set; status_of := id;
  AddFailedMessageID := fun ids s => (withFailed (Some (failedIDs s ∪ list_to_set ids)) s, None);
  RemFailedMessageID := fun ids s => (withFailed (Some (failedIDs s ∖ list_to_set ids)) s, None);
  GetSyncStatus := Ok;
  ClearSyncStatus := fun _ => (DefaultStatus, None);
  SetHasLabels := fun b s => (withLabels b s, None);
  SetHasMessages := fun b s => (withMessages b s, None);
  SetLastMessageID := fun id i s => (withLastMessage id i s, None);
  SetMessageCount := fun i s => (withMessageCount i s, None)
|}.

Lemma pure_provider_laws : @StateProviderLaws pure_provider.
Proof.
  split; simpl; intros; repeat match goal with H : (_, _) = (_, _) |- _ => injection H as <- end;
    try match goal with H : Ok _ = Ok _ |- _ => injection H as <- end; done.
Qed.
