(* ===== verification/SyncJob.v ===== *)
(** * Sync jobs (internal/services/syncservice/job.go, download_cache.go)

    A sync job is split into child jobs that travel down the pipeline; a waiter
    goroutine counts the children and reports the first error once they are all
    done.  This file models the waiter, the job and its children, the division of
    a child into chunks, and the cache of downloads. *)

From S2P Require Import Prelude.
From S2P Require Import SyncInterfaces.

(** ** Messages (the fields of go-proton-api's types the pipeline reads) *)

Record Attachment : Type := mkAttachment { att_ID : string; att_Size : Z }.

Record Message : Type := mkMessage {
  msg_ID : string;
  msg_AddressID : string;
  msg_Attachments : list Attachment;
  msg_Body : string
}.

(** [FullMessage]: the attachments' data, [None] where it is not set. *)
Record FullMessage : Type := mkFull {
  fm_Message : Message;
  fm_AttData : list (option string)
}.

Definition fm_ID (m : FullMessage) : string := msg_ID (fm_Message m).
Definition fm_Attachments (m : FullMessage) : list Attachment := msg_Attachments (fm_Message m).

(** ** The download cache *)

Record DownloadCache : Type := mkCache {
  messages : gmap string Message;
  attachments : gmap string string
}.

Definition newDownloadCache : DownloadCache := mkCache ∅ ∅.
Definition StoreMessage (message : Message) (s : DownloadCache) : DownloadCache :=
  mkCache (<[msg_ID message := message]> (messages s)) (attachments s).
Definition StoreAttachment (id data : string) (s : DownloadCache) : DownloadCache :=
  mkCache (messages s) (<[id := data]> (attachments s)).
Definition DeleteMessages (ids : list string) (s : DownloadCache) : DownloadCache :=
  mkCache (foldl (fun m id => delete id m) (messages s) ids) (attachments s).
Definition DeleteAttachments (ids : list string) (s : DownloadCache) : DownloadCache :=
  mkCache (messages s) (foldl (fun m id => delete id m) (attachments s) ids).
Definition GetMessage (id : string) (s : DownloadCache) : option Message := messages s !! id.
Definition GetAttachment (id : string) (s : DownloadCache) : option string := attachments s !! id.
Definition Clear (s : DownloadCache) : DownloadCache := mkCache ∅ ∅.
Definition Count (s : DownloadCache) : nat * nat := (size (messages s), size (attachments s)).

(** ** The job waiter *)

Section jobs.
Context {E : Type}.

Inductive JobWaiterMessage : Type :=
| JobWaiterMessageCreated
| JobWaiterMessageFinished
| JobWaiterMessageOther (n : Z).

(** The goroutine started by [begin]: its two variables, and whether it has
    written [doneCh] and returned. *)
Record jobWaiter : Type := mkWaiter {
  jw_total : Z;
  jw_err : option E;
  jw_done : bool
}.

(** [newJobWaiter] followed by [begin]. *)
Definition jw_begin : jobWaiter := mkWaiter 1 None false.

(** One iteration of the loop of [begin] on a received message. *)
Definition jw_receive (m : JobWaiterMessage) (err : option E) (w : jobWaiter) : jobWaiter :=
  match m with
  | JobWaiterMessageCreated =>
      let total := i64 (jw_total w + 1) in
      mkWaiter total (jw_err w) (total <=? 0)
  | JobWaiterMessageFinished =>
      let total := i64 (jw_total w - 1) in
      let err' := match jw_err w, err with None, Some e => Some e | e, _ => e end in
      mkWaiter total err' (total <=? 0)
  | JobWaiterMessageOther _ => w
  end.

(** The channel is unbuffered: once the goroutine has returned, a send waits for
    ever ([None]). *)
Definition sendMessage (m : JobWaiterMessage) (err : option E) (w : jobWaiter) : option jobWaiter :=
  if jw_done w then None else Some (jw_receive m err w).

Definition onTaskFinished (err : option E) : jobWaiter -> option jobWaiter :=
  sendMessage JobWaiterMessageFinished err.
Definition onTaskCreated : jobWaiter -> option jobWaiter :=
  sendMessage JobWaiterMessageCreated None.

(** *** Sequences of messages to the waiter *)

Fixpoint sends (ms : list (JobWaiterMessage * option E)) (w : jobWaiter) : option jobWaiter :=
  match ms with
  | [] => Some w
  | (m, err) :: ms' => sendMessage m err w ≫= sends ms'
  end.

Fixpoint createdCount (ms : list (JobWaiterMessage * option E)) : Z :=
  match ms with
  | [] => 0
  | (JobWaiterMessageCreated, _) :: ms' => 1 + createdCount ms'
  | _ :: ms' => createdCount ms'
  end.

Fixpoint finishedCount (ms : list (JobWaiterMessage * option E)) : Z :=
  match ms with
  | [] => 0
  | (JobWaiterMessageFinished, _) :: ms' => 1 + finishedCount ms'
  | _ :: ms' => finishedCount ms'
  end.

Fixpoint firstError (ms : list (JobWaiterMessage * option E)) : option E :=
  match ms with
  | [] => None
  | (JobWaiterMessageFinished, Some e) :: _ => Some e
  | _ :: ms' => firstError ms'
  end.

Lemma counts_bounds ms :
  0 <= createdCount ms /\ 0 <= finishedCount ms /\
  createdCount ms + finishedCount ms <= Z.of_nat (length ms).
Proof. induction ms as [|[[] ?] ms IH]; simpl; lia. Qed.

Lemma createdCount_app ms ms' : createdCount (ms ++ ms') = createdCount ms + createdCount ms'.
Proof. induction ms as [|[[] ?] ms IH]; simpl; lia. Qed.

Lemma finishedCount_app ms ms' : finishedCount (ms ++ ms') = finishedCount ms + finishedCount ms'.
Proof. induction ms as [|[[] ?] ms IH]; simpl; lia. Qed.

(** The waiter after the messages [ms], from a count of [n]. *)
Lemma sends_spec ms n err :
  0 < n -> n + Z.of_nat (length ms) < 2 ^ 63 ->
  (forall k, (k < length ms)%nat -> 0 < n + createdCount (take k ms) - finishedCount (take k ms)) ->
  sends ms (mkWaiter n err false) =
  Some (let total := n + createdCount ms - finishedCount ms in
        mkWaiter total (match err with Some e => Some e | None => firstError ms end) (total <=? 0)).
Proof.
  revert n err. induction ms as [|[m e] ms IH]; intros n err Hn Hlen Hk; simpl.
  { rewrite Z.add_0_r, Z.sub_0_r, (proj2 (Z.leb_gt n 0)) by lia. by destruct err. }
  simpl in Hlen.
  assert (Hpre := fun k (Hlt : (k < length ms)%nat) => Hk (S k) ltac:(simpl; lia)). simpl in Hpre.
  destruct m; simpl.
  - rewrite i64_id by (unfold i64_ok; lia). rewrite (proj2 (Z.leb_gt (n + 1) 0)) by lia.
    rewrite IH; [|lia|lia|intros k Hlt; specialize (Hpre k Hlt); lia].
    replace (n + 1 + createdCount ms - finishedCount ms)
      with (n + (1 + createdCount ms) - finishedCount ms) by lia. destruct err, e; done.
  - rewrite i64_id by (unfold i64_ok; lia).
    assert (Heq : n - 1 + createdCount ms - finishedCount ms = n + createdCount ms - (1 + finishedCount ms)) by lia.
    destruct ms as [|m' ms].
    { rewrite <- Heq. simpl. rewrite Z.add_0_r, Z.sub_0_r. by destruct err, e. }
    assert (H0 := Hpre 0%nat ltac:(simpl; lia)). simpl in H0.
    rewrite (proj2 (Z.leb_gt (n - 1) 0)) by lia.
    rewrite IH; [|lia|lia|intros k Hlt; specialize (Hpre k Hlt); lia].
    rewrite Heq. by destruct err, e.
  - rewrite IH; [|lia|lia|intros k Hlt; specialize (Hpre k Hlt); lia]. done.
Qed.

(** Once the count reached zero the waiter takes no more messages. *)
Lemma sends_blocked ms n err k :
  0 < n -> n + Z.of_nat (length ms) < 2 ^ 63 -> (k < length ms)%nat ->
  n + createdCount (take k ms) - finishedCount (take k ms) <= 0 ->
  sends ms (mkWaiter n err false) = None.
Proof.
  revert n err k. induction ms as [|[m e] ms IH]; intros n err k Hn Hlen Hk Hc; simpl in Hk; [lia|].
  simpl in Hlen. destruct k as [|k]; [simpl in Hc; lia|].
  assert (Hb := counts_bounds (take k ms)). simpl in Hc. destruct m; simpl.
  - rewrite i64_id by (unfold i64_ok; lia). rewrite (proj2 (Z.leb_gt (n + 1) 0)) by lia.
    apply (IH (n + 1) err k); lia.
  - rewrite i64_id by (unfold i64_ok; lia). destruct (Z.leb_spec (n - 1) 0) as [Hz|Hp].
    + destruct ms as [|[m' e'] ms]; [simpl in Hk; lia|]. done.
    + apply (IH _ _ k); lia.
  - apply (IH _ _ k); lia.
Qed.

(** The waiter of a job that is sent the messages [ms]: every send is
    received exactly when no earlier point of the sequence had all tasks finished;
    then the waiter's count is the number of unfinished tasks, never negative, it
    is done exactly when every created task and the job itself have finished, and
    what it reports is the first error, if any. *)
Theorem waiter_result ms :
  Z.of_nat (length ms) < 2 ^ 62 ->
  if bool_decide (Forall (fun k => finishedCount (take k ms) <= createdCount (take k ms)) (seq 0 (length ms)))
  then exists w, sends ms jw_begin = Some w /\
         jw_total w = 1 + createdCount ms - finishedCount ms /\ 0 <= jw_total w /\
         (jw_done w = true <-> finishedCount ms = createdCount ms + 1) /\
         jw_err w = firstError ms
  else sends ms jw_begin = None.
Proof.
  intros Hlen. case_bool_decide as Hk.
  - rewrite Forall_forall in Hk.
    assert (Hp : forall k, (k < length ms)%nat -> finishedCount (take k ms) <= createdCount (take k ms)).
    { intros k Hlt. apply Hk, elem_of_seq. lia. }
    eexists. split; [apply sends_spec; [lia|lia|intros k Hlt; specialize (Hp k Hlt); lia]|]. simpl.
    split; [lia|]. assert (Hge : 0 <= 1 + createdCount ms - finishedCount ms).
    { destruct ms as [|m ms] using rev_ind; [done|].
      specialize (Hp (length ms)). rewrite length_app, take_app_length in Hp. simpl in Hp.
      specialize (Hp ltac:(lia)). rewrite createdCount_app, finishedCount_app.
      destruct m as [[] ?]; simpl; lia. }
    split; [done|]. split; [|done]. rewrite Z.leb_le. lia.
  - apply not_Forall_Exists in Hk; [|apply _]. apply Exists_exists in Hk as (k & Hin & Hlt).
    cbv beta delta [compose] in Hlt. apply elem_of_seq in Hin. apply (sends_blocked ms 1 None k); lia.
Qed.

(** ** Jobs

    The part of a job that changes: its context, its waiter, the state provider,
    the progress it reported and the cache it shares.  The error type [E] must
    carry the provider's errors. *)
Context `{StateProvider} (inject : providerErr -> E).

Record Job : Type := mkJob {
  j_cancelled : option E;     (* ctx.Err() of the job's context *)
  j_jw : jobWaiter;
  j_state : provider;
  j_progress : Z;
  j_cache : DownloadCache
}.

Definition with_jw (w : jobWaiter) (j : Job) : Job :=
  mkJob (j_cancelled j) w (j_state j) (j_progress j) (j_cache j).
Definition with_state (p : provider) (j : Job) : Job :=
  mkJob (j_cancelled j) (j_jw j) p (j_progress j) (j_cache j).
Definition with_cache (c : DownloadCache) (j : Job) : Job :=
  mkJob (j_cancelled j) (j_jw j) (j_state j) (j_progress j) c.

(** [NewJob] on a context that is not cancelled. *)
Definition NewJob (state : provider) (cache : DownloadCache) : Job :=
  mkJob None jw_begin state 0 cache.

(** Cancelling sets the context's error unless it has one. *)
Definition j_cancel (canceled : E) (j : Job) : Job :=
  mkJob (match j_cancelled j with None => Some canceled | e => e end) (j_jw j) (j_state j)
    (j_progress j) (j_cache j).

Definition jw_send (f : jobWaiter -> option jobWaiter) (j : Job) : option Job :=
  w ← f (j_jw j); Some (with_jw w j).

Definition OnProgress (count : Z) (j : Job) : Job :=
  mkJob (j_cancelled j) (j_jw j) (j_state j) (i64 (j_progress j + count)) (j_cache j).

Definition onError (canceled err : E) (j : Job) : option Job :=
  jw_send (onTaskFinished (Some err)) (j_cancel canceled j).

Definition onStageCompleted (count : Z) (j : Job) : Job := OnProgress count j.

Definition onJobFinished (canceled : E) (lastMessageID : string) (count : Z) (j : Job) : option Job :=
  match SetLastMessageID lastMessageID count (j_state j) with
  | (p, Some err) => onError canceled (inject err) (with_state p j)
  | (p, None) => jw_send (onTaskFinished None) (OnProgress count (with_state p j))
  end.

Definition j_end (j : Job) : option Job := jw_send (onTaskFinished None) j.

(** ** Child jobs *)

Record childJob : Type := mkChild {
  lastMessageID : string;
  messageCount : Z;
  cachedMessageIDs : list string;
  cachedAttachmentIDs : list string
}.

Definition newChildJob (messageID : string) (count : Z) (j : Job) : option (childJob * Job) :=
  j' ← jw_send onTaskCreated j; Some (mkChild messageID count [] [], j').

Definition collectIDs (c : childJob) (msgs : list FullMessage) : childJob :=
  mkChild (lastMessageID c) (messageCount c)
    (fm_ID <$> msgs)
    (msgs ≫= fun m => att_ID <$> fm_Attachments m).

(** The outcome of a call: it returns, a send to the waiter blocks for ever,
    or the panic of indexing an empty slice. *)
Inductive outcome (A : Type) : Type :=
| Returned (a : A)
| Blocked
| Panicked.
#[global] Arguments Returned {A} _.
#[global] Arguments Blocked {A}.
#[global] Arguments Panicked {A}.

(** The loop over all chunks but the last one, and the last one. *)
Fixpoint divide_front (s : childJob) (chunks : list (list FullMessage)) (j : Job)
    : outcome (list childJob * Job) :=
  match chunks with
  | [] => Panicked                                   (* result[numChunks-1] with no chunk *)
  | [c] => Returned ([collectIDs s c], j)             (* the last chunk keeps the child itself *)
  | c :: chunks' =>
      match last c with
      | None => Panicked
      | Some m =>
          match newChildJob (fm_ID m) (Z.of_nat (length c)) j with
          | None => Blocked
          | Some (child, j') =>
              match divide_front s chunks' j' with
              | Returned (rest, j'') => Returned (collectIDs child c :: rest, j'')
              | Blocked => Blocked
              | Panicked => Panicked
              end
          end
      end
  end.

Definition chunkDivide (s : childJob) (chunks : list (list FullMessage)) (j : Job)
    : outcome (list childJob * Job) :=
  match chunks with
  | [_] => Returned ([s], j)
  | _ => divide_front s chunks j
  end.

Definition c_onError (canceled err : E) (s : childJob) (j : Job) : option Job := onError canceled err j.

Definition onFinished (canceled : E) (s : childJob) (j : Job) : option Job :=
  j' ← onJobFinished canceled (lastMessageID s) (messageCount s) j;
  Some (with_cache (DeleteAttachments (cachedAttachmentIDs s)
          (DeleteMessages (cachedMessageIDs s) (j_cache j'))) j').

Definition c_onStageCompleted (s : childJob) (j : Job) : Job := onStageCompleted (messageCount s) j.

(** [None] when the send blocks; otherwise whether the job was cancelled. *)
Definition checkCancelled (j : Job) : option (bool * Job) :=
  match j_cancelled j with
  | Some err => j' ← jw_send (onTaskFinished (Some err)) j; Some (true, j')
  | None => Some (false, j)
  end.

(** ** Dividing a child job *)

(** The child made for a chunk that is not the last one. *)
Definition chunk_child (c : list FullMessage) (child : childJob) : Prop :=
  exists m, last c = Some m /\
    child = collectIDs (mkChild (fm_ID m) (Z.of_nat (length c)) [] []) c.

Definition waiter_plus (n : Z) (w : jobWaiter) : jobWaiter :=
  mkWaiter (jw_total w + n) (jw_err w) (jw_done w).

Definition running (w : jobWaiter) : Prop := jw_done w = false /\ 0 < jw_total w.

Lemma newChildJob_spec id n j :
  running (j_jw j) -> jw_total (j_jw j) < 2 ^ 62 ->
  newChildJob id n j = Some (mkChild id n [] [], with_jw (waiter_plus 1 (j_jw j)) j).
Proof.
  intros [Hd Hp] Hb. unfold newChildJob, jw_send, onTaskCreated, sendMessage. rewrite Hd. simpl.
  rewrite i64_id by (unfold i64_ok; lia). rewrite (proj2 (Z.leb_gt _ 0)) by lia.
  unfold waiter_plus. by rewrite Hd.
Qed.

Lemma divide_front_spec s cs c j :
  Forall (fun c => c <> []) cs -> running (j_jw j) ->
  jw_total (j_jw j) + Z.of_nat (length cs) < 2 ^ 62 ->
  exists front,
    divide_front s (cs ++ [c]) j =
      Returned (front ++ [collectIDs s c], with_jw (waiter_plus (Z.of_nat (length cs)) (j_jw j)) j) /\
    Forall2 chunk_child cs front.
Proof.
  revert j. induction cs as [|ch cs IH]; intros j Hne Hr Hb.
  { exists []. split; [|constructor]. simpl. unfold waiter_plus, with_jw. rewrite Z.add_0_r.
    by destruct j as [? [] ? ? ?]. }
  apply Forall_cons in Hne as [Hch Hne]. cbn [app divide_front].
  destruct (cs ++ [c]) as [|c' cs'] eqn:Hcs; [by destruct cs|].
  destruct (last ch) as [m|] eqn:Hm; [|by apply last_None in Hm].
  simpl length in Hb. rewrite newChildJob_spec by (done || lia).
  destruct (IH (with_jw (waiter_plus 1 (j_jw j)) j)) as (front & -> & Hf); [done| | |].
  { destruct Hr. split; simpl; [done|lia]. }
  { simpl. lia. }
  eexists (_ :: front). split; [|constructor; [by exists m|done]].
  cbn. unfold waiter_plus, with_jw. simpl. rewrite <- Z.add_assoc, Nat2Z.inj_succ.
  replace (1 + Z.of_nat (length cs)) with (Z.succ (Z.of_nat (length cs))) by lia. done.
Qed.

Lemma chunkDivide_children s cs c j :
  Forall (fun c => c <> []) cs -> running (j_jw j) ->
  jw_total (j_jw j) + Z.of_nat (length cs) < 2 ^ 62 ->
  exists front,
    chunkDivide s (cs ++ [c]) j =
      Returned (front ++ [if decide (cs = []) then s else collectIDs s c],
               with_jw (waiter_plus (Z.of_nat (length cs)) (j_jw j)) j) /\
    Forall2 chunk_child cs front.
Proof.
  intros Hne Hr Hb. destruct cs as [|ch cs].
  - exists []. split; [|constructor]. simpl. unfold waiter_plus, with_jw. rewrite Z.add_0_r.
    by destruct j as [? [] ? ? ?].
  - rewrite decide_False by done. destruct (divide_front_spec s (ch :: cs) c j) as (front & Hd & Hf); [done..|].
    exists front. split; [|done]. rewrite <- Hd. simpl. by destruct (cs ++ [c]) eqn:Hcs; [destruct cs|].
Qed.

(** Dividing a child over non-empty chunks, at least one of them, never
    panics nor blocks: one child per chunk comes back, the job's waiter counts one
    more task for each of them but the last, and nothing else of the job changes.
    Every chunk but the last gets a new child that ends at the chunk's last
    message, counts the chunk's messages and lists exactly its messages and
    attachments for removal from the cache; the last chunk gets the divided child
    itself, with its own lists when there are several chunks. *)
Theorem chunkDivide_spec s cs c j :
  Forall (fun c => c <> []) cs -> running (j_jw j) ->
  jw_total (j_jw j) + Z.of_nat (length cs) < 2 ^ 62 ->
  exists front,
    chunkDivide s (cs ++ [c]) j =
      Returned (front ++ [if decide (cs = []) then s else collectIDs s c],
               with_jw (waiter_plus (Z.of_nat (length cs)) (j_jw j)) j) /\
    Forall2 chunk_child cs front.
Proof. apply chunkDivide_children. Qed.

Definition total_count (js : list childJob) : Z := foldr (fun c n => messageCount c + n) 0 js.

(** The children of a divided batch count some messages twice: the last one keeps
    the count of the whole batch. *)
Lemma chunkDivide_overcount s cs c front :
  cs <> [] -> Forall (fun c => c <> []) cs -> Forall2 chunk_child cs front ->
  messageCount s = Z.of_nat (length (mjoin (cs ++ [c]))) ->
  messageCount s < total_count (front ++ [collectIDs s c]).
Proof.
  intros Hcs Hne Hf _.
  assert (Ht : total_count (front ++ [collectIDs s c]) = total_count front + messageCount s).
  { clear. unfold total_count. induction front as [|x l IH]; simpl; [lia|]. rewrite IH. lia. }
  assert (Hp : cs <> [] -> 0 < total_count front); [|specialize (Hp Hcs); lia].
  clear -Hne Hf. induction Hf as [|ch child cs front (m & Hm & ->) Hf IH]; [done|]. intros _. simpl.
  apply Forall_cons in Hne as [Hch Hne].
  assert (0 < Z.of_nat (length ch)) by (destruct ch; simpl; [done|lia]).
  destruct cs; [inversion Hf; subst; simpl; lia|]. specialize (IH Hne ltac:(done)). lia.
Qed.

End jobs.

(** ** Witnesses *)

Lemma waiter_result_witness :
  exists w, sends [(JobWaiterMessageCreated, None); (JobWaiterMessageFinished, Some "bad"%string);
                   (JobWaiterMessageFinished, None)] jw_begin = Some w /\ jw_done w = true.
Proof.
  assert (H := waiter_result [(JobWaiterMessageCreated, None); (JobWaiterMessageFinished, Some "bad"%string);
                   (JobWaiterMessageFinished, None)] ltac:(reflexivity)).
  rewrite bool_decide_eq_true_2 in H by (repeat constructor; discriminate).
  destruct H as (w & Hw & _ & _ & Hd & _). exists w. split; [exact Hw|]. apply Hd. reflexivity.
Defined.

Definition ex_full (id : string) : FullMessage := mkFull (mkMessage id "a" [] "") [].

Lemma chunkDivide_spec_witness :
  exists front : list childJob,
    @chunkDivide Empty_set pure_provider (mkChild "m2" 2 [] [])
      [[ex_full "m1"]; [ex_full "m2"]] (@NewJob Empty_set pure_provider DefaultStatus newDownloadCache) =
    Returned (front ++ [collectIDs (mkChild "m2" 2 [] []) [ex_full "m2"]],
      with_jw (waiter_plus 1 jw_begin) (@NewJob Empty_set pure_provider DefaultStatus newDownloadCache)).
Proof.
  destruct (@chunkDivide_spec Empty_set pure_provider (mkChild "m2" 2 [] []) [[ex_full "m1"]] [ex_full "m2"]
    (@NewJob Empty_set pure_provider DefaultStatus newDownloadCache)) as (front & Hf & _).
  - repeat constructor. discriminate.
  - split; reflexivity.
  - reflexivity.
  - exists front. exact Hf.
Defined.
