(* ===== verification/Network.v ===== *)
(** * Retrying API calls (internal/network/proton.go)

    Calls to the API are retried while they fail with status 429 or 5xx, with an
    exponential cool-down.  The call is an argument: the sequence of its
    outcomes. *)

From S2P Require Import Prelude.

(** The errors of the client: [api_status e] is the status of the [*proton.APIError]
    that [errors.As] finds in [e], if any. *)
Class APIErrors (E : Type) : Type := { api_status : E -> option Z }.

Definition Is429Or5XXError {E} `{APIErrors E} (err : E) : bool :=
  match api_status err with
  | Some status => (status =? 429) || (500 <=? status)
  | None => false
  end.

(** ** Cool-down *)

Definition second : Z := 1000000000.
Definition waitTimes : list Z :=
  [20 * second; 40 * second; 80 * second; 160 * second; 300 * second; 600 * second].

(** [jitter(10)]: [r] is the value of [rand.Intn(10)]. *)
Definition jitter (r : Z) : Z := r * second.

(** [ExpCoolDown] is its counter. *)
Definition GetNextWaitTime (r : Z) (count : nat) : Z * nat :=
  let last := (length waitTimes - 1)%nat in
  if (last <=? count)%nat then (nth last waitTimes 0 + jitter r, count)
  else (nth (S count - 1) waitTimes 0 + jitter r, S count).

Definition Reset (count : nat) : nat := 0.

(** ** The retry loop *)

Section retry.
Context {E R : Type} `{APIErrors E}.

(** [f i] is the outcome of the [i]-th call and [rand i] what [rand.Intn] returns
    for the [i]-th wait.  The result is the outcome, the flag
    [encountered429or5xx], the cool-down's counter and the waits; [None] when the
    fuel, which bounds the number of calls, runs out. *)
Fixpoint retry_loop (fuel : nat) (f : nat -> result E R) (rand : nat -> Z) (i : nat)
    (encountered : bool) (count : nat) (waits : list Z)
    : option (result E R * bool * nat * list Z) :=
  match fuel with
  | O => None
  | S fuel' =>
      match f i with
      | Err err =>
          if Is429Or5XXError err then
            let '(w, count') := GetNextWaitTime (rand i) count in
            retry_loop fuel' f rand (S i) true count' (waits ++ [w])
          else Some (Err err, encountered, count, waits)
      | Ok r => Some (Ok r, encountered, count, waits)
      end
  end.

Definition Retry (fuel : nat) (f : nat -> result E R) (rand : nat -> Z) (count : nat)
    : option (result E R * bool * nat * list Z) :=
  retry_loop fuel f rand 0 false (Reset count) [].

(** A throttled outcome. *)
Definition throttled (r : result E R) : bool :=
  match r with Err e => Is429Or5XXError e | Ok _ => false end.

(** The wait after the [i]-th throttled call, without its jitter. *)
Definition base_wait (i : nat) : Z := nth (Nat.min i 5) waitTimes 0.

Lemma retry_loop_spec k fuel f rand i enc waits :
  (k < fuel)%nat -> (forall n, (n < k)%nat -> throttled (f (i + n)%nat) = true) ->
  throttled (f (i + k)%nat) = false ->
  retry_loop fuel f rand i enc (Nat.min i 5) waits =
  Some (f (i + k)%nat, enc || (0 <? k)%nat, Nat.min (i + k) 5,
        waits ++ ((fun n => base_wait n + jitter (rand n)) <$> seq i k)).
Proof.
  revert fuel i enc waits. induction k as [|k IH]; intros fuel i enc waits Hf Ht Hk;
    (destruct fuel as [|fuel]; [lia|]); cbn [retry_loop].
  - rewrite Nat.add_0_r in *. rewrite orb_false_r, app_nil_r.
    destruct (f i) as [r|e]; [done|]. simpl in Hk. by rewrite Hk.
  - assert (H0 := Ht 0%nat ltac:(lia)). rewrite Nat.add_0_r in H0.
    destruct (f i) as [r|e] eqn:Hfi; [done|]. simpl in H0. rewrite H0.
    assert (Hg : GetNextWaitTime (rand i) (Nat.min i 5) =
      (base_wait i + jitter (rand i), Nat.min (S i) 5)).
    { unfold GetNextWaitTime, base_wait. simpl length. simpl Nat.sub.
      destruct (Nat.leb_spec 5 (Nat.min i 5)); f_equal; try lia.
      - do 2 f_equal; lia.
      - do 2 f_equal; lia. }
    rewrite Hg, IH.
    + rewrite orb_true_r. simpl. rewrite <- app_assoc. simpl.
      replace (i + S k)%nat with (S (i + k))%nat by lia. done.
    + lia.
    + intros n Hn. specialize (Ht (S n) ltac:(lia)). by replace (S i + n)%nat with (i + S n)%nat by lia.
    + by replace (S i + k)%nat with (i + S k)%nat by lia.
Qed.

(** A call whose first [k] outcomes are throttled (429 or 5xx) and whose next
    one is not returns that next outcome, success or error, after exactly [k]
    waits of 20, 40, 80, 160, 300 and then always 600 seconds plus the jitter; the
    wrapper reports throttling exactly when [k] is not zero; and while all outcomes
    are throttled the call never returns. *)
Theorem Retry_spec f rand count :
  (forall k fuel, (k < fuel)%nat -> (forall n, (n < k)%nat -> throttled (f n) = true) ->
     throttled (f k) = false ->
     exists c, Retry fuel f rand count =
       Some (f k, (0 <? k)%nat, c, (fun n => base_wait n + jitter (rand n)) <$> seq 0 k)) /\
  ((forall n, throttled (f n) = true) -> forall fuel, Retry fuel f rand count = None).
Proof.
  split.
  - intros k fuel Hk Ht Hf. eexists. unfold Retry, Reset. by apply (retry_loop_spec k fuel f rand 0).
  - intros Ht fuel. unfold Retry. generalize (Reset count), 0%nat, false, (@nil Z).
    induction fuel as [|fuel IH]; intros c i b w; [done|]. cbn [retry_loop].
    specialize (Ht i) as Hi. destruct (f i) as [r|e]; [done|]. simpl in Hi. rewrite Hi.
    destruct (GetNextWaitTime (rand i) c). apply IH.
Qed.

End retry.

Lemma Retry_spec_witness :
  exists c, @Retry Z string {| api_status := Some |} 5
      (fun i => match i with O => Err 503 | _ => Ok "done"%string end) (fun _ => 3) 7 =
    Some (Ok "done"%string, true, c, [23 * second]).
Proof.
  destruct (proj1 (@Retry_spec Z string {| api_status := Some |}
    (fun i => match i with O => Err 503 | _ => Ok "done"%string end) (fun _ => 3) 7) 1%nat 5%nat)
    as (c & Hc).
  - lia.
  - intros n Hn. replace n with 0%nat by lia. reflexivity.
  - reflexivity.
  - exists c. exact Hc.
Defined.
