(* ===== verification/SyncMetadata.v ===== *)
(** * The metadata stage (internal/services/syncservice/stage_metadata.go)

    The first stage of the sync pipeline pages through the metadata of all
    messages and cuts it into download requests bounded by a message count and by
    an amount of memory.  The API client is an argument; a call stands for the call
    with its retries (Network). *)

From S2P Require Import Prelude.
From S2P Require Import SyncInterfaces.
From S2P Require Import SyncJob.

Record MessageMetadata : Type := mkMeta { md_ID : string; md_Size : Z }.

(** [proton.MessageFilter] with the fields the stage sets. *)
Record MessageFilter : Type := mkFilter { EndID : string; Desc : bool }.

Record DownloadRequest : Type := mkDownloadRequest {
  dr_child : childJob;
  dr_ids : list string
}.

Definition zeroRequest : DownloadRequest := mkDownloadRequest (mkChild "" 0 [] []) [].

Record metadataIterator : Type := mkIterator {
  mi_lastMessageID : string;
  mi_remaining : list MessageMetadata;
  mi_downloadReqIDs : list string;
  mi_expectedSize : Z
}.

Section metadata.
Context {E : Type} `{StateProvider} (inject : providerErr -> E).
Abbreviation job := (@Job E _).

(** [GetMessageMetadataPage(ctx, page, pageSize, filter)]. *)
Variable GetMessageMetadataPage : Z -> Z -> MessageFilter -> result E (list MessageMetadata).

Definition newMetadataIterator (j : job) : result E metadataIterator :=
  match GetSyncStatus (j_state j) with
  | Err e => Err (inject e)
  | Ok syncStatus => Ok (mkIterator (LastSyncedMessageID syncStatus) [] [] 0)
  end.

(** The closure [Next] passes to [RetryWithClient]. *)
Definition fetch_page (lastID : string) (metadataPageSize : Z) : result E (list MessageMetadata) :=
  if String.eqb lastID "" then GetMessageMetadataPage 0 metadataPageSize (mkFilter "" true)
  else
    meta ← GetMessageMetadataPage 0 metadataPageSize (mkFilter lastID true);
    match meta with
    | [] => Ok meta
    | m :: ms => if String.eqb (md_ID m) lastID then Ok ms else Ok meta
    end.

(** The head of the loop of [Next]: get the next page when the current one is used
    up, and remember its last message. *)
Definition refill (metadataPageSize : Z) (m : metadataIterator) : result E metadataIterator :=
  match mi_remaining m with
  | [] =>
      metadata ← fetch_page (mi_lastMessageID m) metadataPageSize;
      Ok (mkIterator (match last metadata with Some l => md_ID l | None => mi_lastMessageID m end)
            metadata (mi_downloadReqIDs m) (mi_expectedSize m))
  | _ => Ok m
  end.

(** The loop [for idx, meta := range m.remaining]: either it stops at a full
    request, with the metadata left over, or it takes everything. *)
Inductive scanned : Type :=
| ScanCut (ids : list string) (remaining : list MessageMetadata)
| ScanEnd (ids : list string) (expectedSize : Z).

Fixpoint scan (maxDownloadMem maxMessages : Z) (rest : list MessageMetadata) (ids : list string)
    (expectedSize : Z) : scanned :=
  match rest with
  | [] => ScanEnd ids expectedSize
  | meta :: rest' =>
      let nextSize := u64 (expectedSize + u64 (md_Size meta)) in
      if (maxDownloadMem <=? nextSize) || (maxMessages <=? Z.of_nat (length ids)) then
        match ids with
        | [] => ScanCut [md_ID meta] rest'
        | _ => ScanCut ids (meta :: rest')
        end
      else scan maxDownloadMem maxMessages rest' (ids ++ [md_ID meta]) nextSize
  end.

(** The outcome of [Next]: a request with [hasMore], an error, a send to the
    job's waiter that blocks, or no more fuel. *)
Inductive nextResult : Type :=
| NextOut (req : DownloadRequest) (hasMore : bool) (m : metadataIterator) (j : job)
| NextErr (e : E) (m : metadataIterator) (j : job)
| NextBlocked
| NextFuel.

Definition make_request (ids : list string) (hasMore : bool) (m : metadataIterator) (j : job) : nextResult :=
  match newChildJob (default ""%string (last ids)) (Z.of_nat (length ids)) j with
  | Some (child, j') => NextOut (mkDownloadRequest child ids) hasMore m j'
  | None => NextBlocked
  end.

Fixpoint Next (fuel : nat) (maxDownloadMem metadataPageSize maxMessages : Z)
    (m : metadataIterator) (j : job) : nextResult :=
  match fuel with
  | O => NextFuel
  | S fuel' =>
      match j_cancelled j with
      | Some e => NextErr e m j
      | None =>
          match refill metadataPageSize m with
          | Err e => NextErr e m j
          | Ok m =>
              match mi_remaining m with
              | [] =>
                  match mi_downloadReqIDs m with
                  | [] => NextOut zeroRequest false m j
                  | ids => make_request ids false m j
                  end
              | _ =>
                  match scan maxDownloadMem maxMessages (mi_remaining m) (mi_downloadReqIDs m)
                          (mi_expectedSize m) with
                  | ScanCut ids remaining =>
                      make_request ids true (mkIterator (mi_lastMessageID m) remaining [] 0) j
                  | ScanEnd ids size =>
                      Next fuel' maxDownloadMem metadataPageSize maxMessages
                        (mkIterator (mi_lastMessageID m) [] ids size) j
                  end
              end
          end
      end
  end.

(** One turn of the loop of the goroutine [MetadataStage.run] starts for a job:
    the request it put on the output, if any, and the iterator, unless the
    goroutine has ended.  [produce] is the error the output would return,
    [canceled] the error of a cancelled context. *)
Inductive turnResult : Type :=
| Turn (req : option DownloadRequest) (m : option metadataIterator) (j : job)
| TurnBlocked
| TurnFuel.

Definition turn_end (req : option DownloadRequest) (r : option job) : turnResult :=
  match r with Some j => Turn req None j | None => TurnBlocked end.

Definition metadata_turn (maxDownloadMem metadataPageSize maxMessages : Z) (canceled : E)
    (produce : option E) (m : metadataIterator) (j : job) : turnResult :=
  match j_cancelled j with
  | Some _ => turn_end None (j_end j)
  | None =>
      match Next (S (S (Z.to_nat maxMessages))) maxDownloadMem metadataPageSize maxMessages m j with
      | NextFuel => TurnFuel
      | NextBlocked => TurnBlocked
      | NextErr e m j => turn_end None (onError canceled e j)
      | NextOut req hasMore m j =>
          match dr_ids req with
          | [] => if hasMore then Turn None (Some m) j else turn_end None (j_end j)
          | _ =>
              let j := c_onStageCompleted (dr_child req) j in
              match produce with
              | Some e => turn_end None (onError canceled e j)
              | None => if hasMore then Turn (Some req) (Some m) j else turn_end (Some req) (j_end j)
              end
          end
      end
  end.

(** The whole goroutine: the requests it produced, and the job; [produce n] is
    for the [n]-th request. *)
Inductive stageResult : Type :=
| StageEnd (out : list DownloadRequest) (j : job)
| StageBlocked
| StageFuel.

Fixpoint metadata_job (fuel : nat) (maxDownloadMem metadataPageSize maxMessages : Z) (canceled : E)
    (produce : nat -> option E) (out : list DownloadRequest) (m : metadataIterator) (j : job) : stageResult :=
  match fuel with
  | O => StageFuel
  | S fuel' =>
      match metadata_turn maxDownloadMem metadataPageSize maxMessages canceled (produce (length out)) m j with
      | TurnFuel => StageFuel
      | TurnBlocked => StageBlocked
      | Turn req m j =>
          let out := out ++ option_list req in
          match m with
          | Some m =>
              metadata_job fuel' maxDownloadMem metadataPageSize maxMessages canceled produce out m j
          | None => StageEnd out j
          end
      end
  end.

(** ** Scanning a page *)

Definition IDs (l : list MessageMetadata) : list string := md_ID <$> l.
Definition sizes (l : list MessageMetadata) : Z := foldr (fun m n => md_Size m + n) 0 l.
Definition sizes_ok (l : list MessageMetadata) : Prop := Forall (fun m => 0 <= md_Size m) l.

Lemma sizes_app l l' : sizes (l ++ l') = sizes l + sizes l'.
Proof. unfold sizes. induction l; simpl; lia. Qed.

Lemma sizes_nonneg l : sizes_ok l -> 0 <= sizes l.
Proof. unfold sizes. induction 1; simpl; lia. Qed.

(** A batch that may be sent: not empty, at most [maxMessages] long and below the
    memory limit, unless it is a single message. *)
Definition batch_ok (maxMem maxMessages : Z) (b : list MessageMetadata) : Prop :=
  b <> [] /\ (length b = 1%nat \/ (Z.of_nat (length b) <= maxMessages /\ sizes b < maxMem)).

(** What is collected so far: nothing, or a batch within the limits. *)
Definition pending_ok (maxMem maxMessages : Z) (b : list MessageMetadata) : Prop :=
  b = [] \/ (Z.of_nat (length b) <= maxMessages /\ sizes b < maxMem).

Lemma pending_batch maxMem maxMessages b :
  pending_ok maxMem maxMessages b -> b <> [] -> batch_ok maxMem maxMessages b.
Proof. intros [?|?] Hb; [done|]. split; auto. Qed.

(** [scan] from the batch [b]: it cuts a batch off the front of [b ++ rest], or
    takes all of it. *)
Lemma scan_spec maxMem maxMessages rest b :
  sizes_ok (b ++ rest) -> sizes (b ++ rest) < two64 -> pending_ok maxMem maxMessages b ->
  match scan maxMem maxMessages rest (IDs b) (sizes b) with
  | ScanCut ids remaining =>
      exists cut, b ++ rest = cut ++ remaining /\ ids = IDs cut /\ batch_ok maxMem maxMessages cut /\
        exists used, rest = used ++ remaining
  | ScanEnd ids size =>
      ids = IDs (b ++ rest) /\ size = sizes (b ++ rest) /\ pending_ok maxMem maxMessages (b ++ rest)
  end.
Proof.
  revert b. induction rest as [|meta rest IH]; intros b Hok Hlt Hp; simpl.
  { by rewrite app_nil_r. }
  assert (Hm : 0 <= md_Size meta /\ 0 <= sizes rest /\ 0 <= sizes b).
  { unfold sizes_ok in Hok. rewrite Forall_app, Forall_cons in Hok. destruct Hok as (? & ? & ?).
    split; [done|]. split; by apply sizes_nonneg. }
  assert (Hs : sizes (b ++ meta :: rest) = sizes b + md_Size meta + sizes rest)
    by (rewrite sizes_app; unfold sizes; simpl; lia).
  rewrite (u64_id (md_Size meta)), u64_id by (unfold u64_ok; lia).
  destruct ((maxMem <=? sizes b + md_Size meta) || (maxMessages <=? Z.of_nat (length (IDs b)))) eqn:Hc.
  - destruct b as [|m0 b]; simpl.
    + exists [meta]. split; [done|]. split; [done|]. split; [split; [done|by left]|]. by exists [meta].
    + exists (m0 :: b). split; [done|]. split; [done|]. split; [by apply pending_batch|]. by exists [].
  - boolp. unfold IDs in *. rewrite length_fmap in *.
    assert (Hb : b ++ meta :: rest = (b ++ [meta]) ++ rest) by (by rewrite <- app_assoc).
    specialize (IH (b ++ [meta])). rewrite <- Hb, fmap_app in IH.
    replace (sizes (b ++ [meta])) with (sizes b + md_Size meta) in IH
      by (rewrite sizes_app; unfold sizes; simpl; lia).
    assert (Hp' : pending_ok maxMem maxMessages (b ++ [meta])).
    { right. rewrite length_app, sizes_app. unfold sizes at 2. simpl. lia. }
    specialize (IH Hok Hlt Hp'). simpl in IH.
    destruct (scan _ _ rest _ _); [|done].
    destruct IH as (cut & ? & ? & ? & used & ->). exists cut. do 3 (split; [done|]). by exists (meta :: used).
Qed.

(** ** The server *)

(** The mailbox as the API shows it, latest message first. *)
Definition mailbox_ok (all : list MessageMetadata) : Prop :=
  NoDup (IDs all) /\ ""%string ∉ IDs all /\ sizes_ok all /\ sizes all < two64.

(** The documented behaviour of the listing: a page from the start, or from the
    message [EndID], which is included. *)
Definition server_ok (all : list MessageMetadata) : Prop :=
  (forall n, 0 <= n -> GetMessageMetadataPage 0 n (mkFilter "" true) = Ok (take (Z.to_nat n) all)) /\
  (forall n pre m post, 0 <= n -> all = pre ++ m :: post ->
     GetMessageMetadataPage 0 n (mkFilter (md_ID m) true) = Ok (take (Z.to_nat n) (m :: post))).

(** The iterator has read the prefix [pre] of the mailbox. *)
Definition at_pos (lastID : string) (pre : list MessageMetadata) : Prop :=
  (lastID = ""%string /\ pre = []) \/ (exists pre' m, pre = pre' ++ [m] /\ lastID = md_ID m).

Lemma fetch_page_spec all pre post lastID n :
  mailbox_ok all -> server_ok all -> all = pre ++ post -> at_pos lastID pre -> 2 <= n ->
  exists page post', fetch_page lastID n = Ok page /\ post = page ++ post' /\
    (page = [] -> post = []) /\
    at_pos (match last page with Some l => md_ID l | None => lastID end) (pre ++ page).
Proof.
  intros (Hnd & Hne & _) [Hs0 Hs] Hall Hpos Hn.
  assert (Hat : forall page, at_pos (match last page with Some l => md_ID l | None => lastID end) (pre ++ page)).
  { intros page. destruct page as [|l page] using rev_ind; [by rewrite app_nil_r|].
    rewrite last_snoc. right. exists (pre ++ page), l. by rewrite app_assoc. }
  assert (Htake : forall k, (0 < k)%nat -> take k post = [] -> post = []).
  { intros k Hk. by destruct post, k; [..|lia|]. }
  unfold fetch_page. destruct Hpos as [[-> ->]|(pre' & m & -> & ->)].
  - simpl. exists (take (Z.to_nat n) post), (drop (Z.to_nat n) post).
    simpl in Hall. subst all. rewrite Hs0 by lia. rewrite take_drop.
    split; [done|]. split; [done|]. split; [apply Htake; lia|]. apply Hat.
  - assert (Hin : md_ID m ∈ IDs all).
    { subst all. apply list_elem_of_fmap_2, elem_of_app. left. apply elem_of_app. right. apply list_elem_of_here. }
    destruct (String.eqb_spec (md_ID m) ""%string) as [He|_]; [rewrite He in Hin; done|].
    rewrite (Hs n pre' m post) by (lia || (rewrite Hall, <- app_assoc; done)).
    destruct (Z.to_nat n) as [|k] eqn:Hk; [lia|]. simpl. rewrite String.eqb_refl.
    exists (take k post), (drop k post). rewrite take_drop.
    split; [done|]. split; [done|]. split; [apply Htake; lia|]. apply Hat.
Qed.

(** ** The iterator *)

(** The request for a batch: its child ends at the batch's last message. *)
Definition request_for (b : list MessageMetadata) : DownloadRequest :=
  mkDownloadRequest (mkChild (default ""%string (last (IDs b))) (Z.of_nat (length b)) [] []) (IDs b).

(** The iterator has sent the prefix [sent] of the mailbox, holds the batch [b]
    and the rest [r] of the current page, and [post] is still on the server. *)
Definition iter_ok (maxMem maxMessages : Z) (all sent b r post : list MessageMetadata)
    (m : metadataIterator) : Prop :=
  all = sent ++ b ++ r ++ post /\ at_pos (mi_lastMessageID m) (sent ++ b ++ r) /\
  mi_remaining m = r /\ mi_downloadReqIDs m = IDs b /\ mi_expectedSize m = sizes b /\
  pending_ok maxMem maxMessages b.

Definition job_ok (bound : Z) (j : job) : Prop :=
  j_cancelled j = None /\ running (j_jw j) /\ jw_total (j_jw j) + bound < 2 ^ 62.

Definition job_plus (n : Z) (j : job) : job := with_jw (waiter_plus n (j_jw j)) j.

Lemma job_ok_le a b j : job_ok a j -> b <= a -> job_ok b j.
Proof. intros (? & ? & ?) ?. split; [done|]. split; [done|lia]. Qed.

Lemma job_ok_progress a n j : job_ok a j -> job_ok a (OnProgress n j).
Proof. done. Qed.

Lemma job_ok_plus a n j : job_ok a j -> 0 <= n <= a -> job_ok (a - n) (job_plus n j).
Proof. intros (? & [? ?] & ?) ?. split; [done|]. split; [split|]; simpl; [done|lia|lia]. Qed.

Lemma make_request_spec b more m j :
  job_ok 0 j -> make_request (IDs b) more m j = NextOut (request_for b) more m (job_plus 1 j).
Proof.
  intros (_ & Hr & Hb). unfold make_request. rewrite newChildJob_spec by (done || lia).
  unfold request_for, IDs. by rewrite length_fmap.
Qed.

Definition next_spec (maxMem maxMessages : Z) (all sent todo : list MessageMetadata) (j : job)
    (r : nextResult) : Prop :=
  (exists b r' post' m', r = NextOut (request_for b) true m' (job_plus 1 j) /\
     batch_ok maxMem maxMessages b /\ todo = b ++ r' ++ post' /\
     iter_ok maxMem maxMessages all (sent ++ b) [] r' post' m') \/
  (exists m', r = NextOut (request_for todo) false m' (job_plus 1 j) /\ batch_ok maxMem maxMessages todo) \/
  (todo = [] /\ exists m', r = NextOut zeroRequest false m' j).

Lemma mailbox_part all a b c :
  mailbox_ok all -> all = a ++ b ++ c -> sizes_ok b /\ sizes b < two64.
Proof.
  intros (_ & _ & Hok & Hlt) ->. unfold sizes_ok in *. rewrite !Forall_app in Hok.
  destruct Hok as (Ha & Hb & Hc). split; [done|]. rewrite !sizes_app in Hlt.
  apply sizes_nonneg in Ha, Hc. lia.
Qed.

(** After [refill] the current page is empty only when the server has no more. *)
Lemma refill_spec maxMem maxMessages n all sent b r post m :
  mailbox_ok all -> server_ok all -> 2 <= n -> iter_ok maxMem maxMessages all sent b r post m ->
  exists r' post' m', r ++ post = r' ++ post' /\ refill n m = Ok m' /\
    iter_ok maxMem maxMessages all sent b r' post' m' /\ (r' = [] -> post' = []).
Proof.
  intros Hmb Hsrv Hn (Hall & Hpos & Hr & Hd & He & Hp). unfold refill. rewrite Hr. destruct r as [|m0 r].
  - rewrite app_nil_r in Hpos. simpl in Hall.
    destruct (fetch_page_spec all (sent ++ b) post (mi_lastMessageID m) n)
      as (page & post' & Hf & Hpost & Hnil & Hpos'); [done|done|by rewrite <- app_assoc|done|done|].
    exists page, post'. eexists. rewrite Hf. simpl. split; [done|]. split; [reflexivity|].
    split; [|intros ->; specialize (Hnil eq_refl); subst; by destruct post'].
    split; [by rewrite Hall, Hpost|]. simpl. split; [by rewrite app_assoc|]. done.
  - exists (m0 :: r), post, m. split; [done|]. split; [done|]. split; [|done]. by repeat split.
Qed.

Lemma Next_spec maxMem maxMessages n fuel all sent b r post m j :
  mailbox_ok all -> server_ok all -> 2 <= n -> job_ok 0 j ->
  iter_ok maxMem maxMessages all sent b r post m ->
  (Z.to_nat maxMessages < fuel + length b)%nat ->
  next_spec maxMem maxMessages all sent (b ++ r ++ post) j (Next fuel maxMem n maxMessages m j).
Proof.
  intros Hmb Hsrv Hn Hj. revert b r post m. induction fuel as [|fuel IH]; intros b r post m Hit Hfuel.
  { destruct Hit as (_ & _ & _ & _ & _ & [->|[Hl _]]); simpl in Hfuel; lia. }
  cbn [Next]. rewrite (proj1 Hj).
  destruct (refill_spec maxMem maxMessages n all sent b r post m Hmb Hsrv Hn Hit)
    as (r' & post' & m' & -> & -> & Hit' & Hend). clear Hit. destruct Hit' as (Hall & Hpos & Hr & Hd & He & Hp).
  rewrite Hr, Hd, He. destruct r' as [|m0 r'].
  - rewrite (Hend eq_refl), !app_nil_r. destruct b as [|b0 b].
    + right; right. eauto.
    + right; left. exists m'. cbn [IDs fmap list_fmap]. rewrite <- (make_request_spec (b0 :: b) false m' j Hj).
      split; [done|]. by apply pending_batch.
  - destruct (mailbox_part all sent (b ++ m0 :: r') post') as [Hok Hlt];
      [done|by rewrite Hall, <- app_assoc|].
    assert (Hs := scan_spec maxMem maxMessages (m0 :: r') b Hok Hlt Hp).
    destruct (scan _ _ _ _ _) as [ids remaining|ids size].
    + destruct Hs as (cut & Hcut & -> & Hbok & used & Hused). rewrite (make_request_spec cut) by done.
      left. exists cut, remaining, post'. eexists. split; [done|]. split; [done|].
      assert (Heq : b ++ (m0 :: r') ++ post' = cut ++ remaining ++ post')
        by (by rewrite app_assoc, Hcut, <- app_assoc).
      split; [exact Heq|]. split; [by rewrite Hall, Heq, <- app_assoc|]. simpl.
      rewrite <- app_assoc, <- Hcut. split; [done|]. repeat split. by left.
    + destruct Hs as (-> & -> & Hp'). specialize (IH (b ++ m0 :: r') [] post'
        (mkIterator (mi_lastMessageID m') [] (IDs (b ++ m0 :: r')) (sizes (b ++ m0 :: r')))).
      rewrite <- app_assoc in IH. apply IH; [|rewrite length_app; simpl; lia].
      split; [by rewrite Hall, <- app_assoc|]. simpl. rewrite !app_nil_r. by repeat split.
Qed.

(** ** Termination of [Next] *)

Lemma scan_end_length maxMem maxMessages rest ids size ids' size' :
  scan maxMem maxMessages rest ids size = ScanEnd ids' size' -> rest <> [] ->
  (length ids' = length ids + length rest)%nat /\ Z.of_nat (length ids') <= maxMessages.
Proof.
  revert ids size. induction rest as [|meta rest IH]; intros ids size Hs Hne; [done|]. simpl in Hs.
  destruct ((maxMem <=? _) || (maxMessages <=? _)) eqn:Hc; [by destruct ids|]. boolp.
  destruct rest as [|m0 rest].
  - simpl in Hs. injection Hs as <- _. rewrite length_app. simpl. lia.
  - apply IH in Hs as [Hl Hm]; [|done]. rewrite length_app in Hl. simpl in *. lia.
Qed.

Lemma make_request_fuel ids more m j : make_request ids more m j <> NextFuel.
Proof. unfold make_request. by destruct (newChildJob _ _ j) as [[]|]. Qed.

Lemma Next_returns fuel maxMem n maxMessages m j :
  (0 < fuel)%nat -> (Z.to_nat maxMessages < fuel + length (mi_downloadReqIDs m))%nat ->
  Next fuel maxMem n maxMessages m j <> NextFuel.
Proof.
  revert m. induction fuel as [|fuel IH]; intros m Hf Hlt; [lia|]. cbn [Next].
  destruct (j_cancelled j); [done|]. destruct (refill n m) as [m'|] eqn:Hr; [|done].
  assert (Hids : mi_downloadReqIDs m' = mi_downloadReqIDs m).
  { unfold refill in Hr. destruct (mi_remaining m); [|by simplify_eq].
    by apply result_bind_Ok in Hr as (? & _ & [= <-]). }
  rewrite Hids. destruct (mi_remaining m') as [|m0 r].
  - destruct (mi_downloadReqIDs m); [done|]. apply make_request_fuel.
  - destruct (scan _ _ _ _ _) as [|ids size] eqn:Hs; [apply make_request_fuel|].
    apply scan_end_length in Hs as [Hl Hm]; [|done]. simpl in Hl. apply IH; simpl; lia.
Qed.

(** Whatever pages the server returns, [Next] makes at most one more turn of
    its loop than [maxMessages], since every turn that does not return adds a
    message to the request. *)
Theorem Next_terminates fuel maxMem n maxMessages m j :
  (0 < fuel)%nat -> (Z.to_nat maxMessages < fuel + length (mi_downloadReqIDs m))%nat ->
  Next fuel maxMem n maxMessages m j <> NextFuel.
Proof. apply Next_returns. Qed.

(** ** The whole stage for one job *)

Lemma j_end_spec j :
  job_ok 0 j ->
  j_end j = Some (with_jw (mkWaiter (jw_total (j_jw j) - 1) (jw_err (j_jw j)) (jw_total (j_jw j) - 1 <=? 0)) j).
Proof.
  intros (_ & [Hd Hp] & Hb). unfold j_end, jw_send, onTaskFinished, sendMessage. rewrite Hd. simpl.
  rewrite i64_id by (unfold i64_ok; lia). by destruct (jw_err (j_jw j)).
Qed.

Lemma metadata_job_spec maxMem maxMessages n canceled all fuel out sent r post m j :
  mailbox_ok all -> server_ok all -> 2 <= n ->
  iter_ok maxMem maxMessages all sent [] r post m ->
  job_ok (Z.of_nat (length (r ++ post))) j -> (length (r ++ post) < fuel)%nat ->
  exists bs j',
    metadata_job fuel maxMem n maxMessages canceled (fun _ => None) out m j =
      StageEnd (out ++ (request_for <$> bs)) j' /\
    mjoin bs = r ++ post /\ Forall (batch_ok maxMem maxMessages) bs /\
    j_jw j' = (let total := jw_total (j_jw j) + Z.of_nat (length bs) - 1 in
               mkWaiter total (jw_err (j_jw j)) (total <=? 0)) /\
    j_cancelled j' = None /\ j_state j' = j_state j /\ j_cache j' = j_cache j.
Proof.
  intros Hmb Hsrv Hn. revert out sent r post m j.
  induction fuel as [|fuel IH]; intros out sent r post m j Hit Hj Hf; [lia|].
  assert (Hj0 : job_ok 0 j) by (apply (job_ok_le _ _ _ Hj); lia).
  assert (HN := Next_spec maxMem maxMessages n (S (S (Z.to_nat maxMessages))) all sent [] r post m j
    Hmb Hsrv Hn Hj0 Hit ltac:(simpl; lia)). simpl app in HN.
  cbn [metadata_job]. unfold metadata_turn. rewrite (proj1 Hj).
  destruct HN as [(b & r' & post' & m' & -> & Hb & Heq & Hit')|[(m' & -> & Hb)|(Hnil & m' & ->)]].
  - destruct Hb as [Hne Hb]. assert (Hl : (length (r ++ post) = length b + length (r' ++ post'))%nat)
      by (rewrite Heq, length_app; done).
    destruct b as [|b0 b]; [done|]. cbn [dr_ids request_for IDs fmap list_fmap option_list].
    edestruct (IH (out ++ [request_for (b0 :: b)])
      (sent ++ b0 :: b) r' post' m' (c_onStageCompleted (dr_child (request_for (b0 :: b))) (job_plus 1 j)))
      as (bs & j' & Hrun & Hjoin & Hbs & Hw & Hc & Hst & Hca); [done| | |].
    { apply job_ok_progress. apply (job_ok_le _ _ _ (job_ok_plus _ 1 _ Hj ltac:(simpl in Hl; lia))).
      simpl in Hl. lia. }
    { simpl in Hl. lia. }
    exists ((b0 :: b) :: bs), j'. split; [rewrite <- app_assoc in Hrun; exact Hrun|].
    split; [by rewrite Heq; simpl; rewrite Hjoin|]. split; [by constructor|].
    split; [|done]. rewrite Hw. simpl length. cbn. f_equal; [lia|f_equal; lia].
  - destruct Hb as [Hne Hb]. destruct (r ++ post) as [|b0 b] eqn:Hrp; [done|].
    cbn [dr_ids request_for IDs fmap list_fmap].
    assert (Hj1 : job_ok 0 (c_onStageCompleted (dr_child (request_for (b0 :: b))) (job_plus 1 j))).
    { apply job_ok_progress. apply (job_ok_le _ _ _ (job_ok_plus _ 1 _ Hj ltac:(simpl; lia))). simpl. lia. }
    rewrite j_end_spec by exact Hj1. exists [b0 :: b]. eexists. split; [reflexivity|].
    split; [by simpl; rewrite app_nil_r|]. split; [by constructor|]. split; [|by destruct Hj1].
    simpl. done.
  - simpl. rewrite j_end_spec by done. exists []. eexists. split; [reflexivity|].
    split; [done|]. split; [constructor|]. split; [|by destruct Hj]. simpl. f_equal; [lia|f_equal; lia].
Qed.

(** A sync that resumes after the prefix [sent] of the mailbox (all of it
    starts at the empty prefix) sends requests for exactly the remaining messages,
    each once and in order, in batches that are not empty and respect both limits
    or are a single message; every request's child ends at the batch's last message
    and counts the batch; the stage then ends with no task of its own left open:
    the waiter counts exactly the children that were sent. *)
Theorem metadata_job_complete maxMem maxMessages n canceled all sent todo fuel j st :
  mailbox_ok all -> server_ok all -> 2 <= n ->
  all = sent ++ todo -> GetSyncStatus (j_state j) = Ok st -> at_pos (LastSyncedMessageID st) sent ->
  job_ok (Z.of_nat (length todo)) j -> jw_total (j_jw j) = 1 -> (length todo < fuel)%nat ->
  exists m bs j',
    newMetadataIterator j = Ok m /\
    metadata_job fuel maxMem n maxMessages canceled (fun _ => None) [] m j =
      StageEnd (request_for <$> bs) j' /\
    mjoin bs = todo /\ Forall (batch_ok maxMem maxMessages) bs /\
    jw_total (j_jw j') = Z.of_nat (length bs) /\
    (jw_done (j_jw j') = true <-> todo = []).
Proof.
  intros Hmb Hsrv Hn Hall Hst Hpos Hj Ht Hf. unfold newMetadataIterator. rewrite Hst.
  destruct (metadata_job_spec maxMem maxMessages n canceled all fuel [] sent [] todo
    (mkIterator (LastSyncedMessageID st) [] [] 0) j) as (bs & j' & Hrun & Hjoin & Hbs & Hw & _);
    [done|done|done| |done|done|].
  { split; [done|]. simpl. rewrite app_nil_r. repeat split; [done|by left]. }
  eexists _, bs, j'. split; [done|]. split; [exact Hrun|]. split; [done|]. split; [done|].
  rewrite Hw, Ht. simpl. split; [lia|]. rewrite Z.leb_le. destruct bs as [|b bs]; simpl in *.
  - subst. split; [done|lia].
  - split; [lia|]. intros Hnil. apply Forall_cons in Hbs as [[Hb _] _]. rewrite Hnil in Hjoin.
    by apply app_eq_nil in Hjoin as [? _].
Qed.

End metadata.

(** ** Witnesses *)

Definition ex_mailbox : list MessageMetadata := [mkMeta "m3" 10; mkMeta "m2" 2000; mkMeta "m1" 5].

(** A server that lists [ex_mailbox]. *)
Fixpoint drop_until (id : string) (l : list MessageMetadata) : list MessageMetadata :=
  match l with
  | [] => []
  | m :: l' => if String.eqb (md_ID m) id then l else drop_until id l'
  end.

Definition ex_server (page n : Z) (f : MessageFilter) : result string (list MessageMetadata) :=
  Ok (take (Z.to_nat n) (if String.eqb (EndID f) "" then ex_mailbox else drop_until (EndID f) ex_mailbox)).

Lemma ex_mailbox_ok : mailbox_ok ex_mailbox.
Proof.
  split; [|split; [|split]].
  - apply (bool_decide_unpack _). vm_compute. exact I.
  - apply (bool_decide_unpack _). vm_compute. exact I.
  - repeat constructor; simpl; lia.
  - reflexivity.
Qed.

Lemma ex_server_ok : @server_ok string ex_server ex_mailbox.
Proof.
  split; [done|]. intros n pre m post Hn Hall. unfold ex_server. simpl EndID. do 2 f_equal.
  destruct pre as [|x pre]; [injection Hall as <- <-; done|].
  destruct pre as [|y pre]; [injection Hall as <- <- <-; done|].
  destruct pre as [|z pre]; [injection Hall as <- <- <- <-; done|].
  injection Hall as _ _ _ Hall. by destruct pre.
Qed.

Definition ex_job : @Job string pure_provider := NewJob (H := pure_provider) DefaultStatus newDownloadCache.

Lemma Next_terminates_witness :
  @Next string pure_provider ex_server 3 100 2 2 (mkIterator "" [] [] 0) ex_job <> NextFuel.
Proof.
  apply (@Next_terminates string pure_provider ex_server 3 100 2 2 (mkIterator "" [] [] 0) ex_job);
    vm_compute; lia.
Defined.

Lemma metadata_job_complete_witness :
  exists m bs j',
    @newMetadataIterator string pure_provider (fun _ => ""%string) ex_job = Ok m /\
    @metadata_job string pure_provider ex_server 4 100 2 2 "canceled"%string (fun _ => None) [] m ex_job =
      StageEnd (request_for <$> bs) j' /\
    mjoin bs = ex_mailbox.
Proof.
  destruct (@metadata_job_complete string pure_provider (fun _ => ""%string) ex_server 100 2 2
    "canceled"%string ex_mailbox [] ex_mailbox 4 ex_job DefaultStatus)
    as (m & bs & j & Hm & Hrun & Hbs & _).
  - exact ex_mailbox_ok.
  - exact ex_server_ok.
  - lia.
  - reflexivity.
  - reflexivity.
  - left. split; reflexivity.
  - split; [reflexivity|]. split; [split; reflexivity|]. reflexivity.
  - reflexivity.
  - vm_compute. lia.
  - exists m, bs, j. split; [exact Hm|]. split; [exact Hrun|exact Hbs].
Defined.
