(* ===== verification/SyncDownload.v ===== *)
(** * The download stage (internal/services/syncservice/stage_download.go)

    The second stage downloads the messages of a request and then their
    attachments, in parallel, through a cache, and puts every attachment's data in
    its place.  The API client and the library functions [xslices.Chunk] and
    [parallel.MapContext] are parameters. *)

From S2P Require Import Prelude.
From S2P Require Import SyncInterfaces.
From S2P Require Import SyncJob.
From S2P Require Import Network.
From S2P Require Import SyncMetadata.

(** juniper's [xslices.Chunk] and [parallel.MapContext], with the documented
    behaviour the stage relies on: chunks are consecutive pieces of the slice;
    the results of a parallel map are in the order of its input, and the map
    succeeds when every call does. *)
Class Parallel (E : Type) : Type := {
  Chunk : forall {T}, list T -> Z -> list (list T);
  MapContext : forall {T R}, Z -> list T -> (T -> result E R) -> result E (list R)
}.

Class ParallelLaws (E : Type) `{Parallel E} : Prop := {
  Chunk_law {T} (l : list T) n : 0 < n -> mjoin (Chunk l n) = l;
  MapContext_Ok {T R} n (l : list T) (f : T -> result E R) rs :
    MapContext n l f = Ok rs -> Forall2 (fun t r => f t = Ok r) l rs;
  MapContext_total {T R} n (l : list T) (f : T -> result E R) rs :
    0 < n -> Forall2 (fun t r => f t = Ok r) l rs -> MapContext n l f = Ok rs
}.

(** ** The download rate *)

(** [DefaultDownloadRateModifier.Apply]. *)
Definition Apply (wasSuccess : bool) (currentValue maxValue : Z) : Z :=
  if negb wasSuccess then 2 else Z.min (i64 (currentValue * 2)) maxValue.

Section rate.
Context {E : Type} `{Parallel E} {T R : Type}.

(** The loop of [autoDownloadRate].  [ctx i] is the context's error before the
    [i]-th chunk; [f] gives the outcome of the retried call on an input and
    [throttledBy] whether its wrapper met a 429 or 5xx.  The second component
    lists the parallelism of every chunk. *)
Fixpoint rate_loop (ctx : nat -> option E) (modifier : bool -> Z -> Z -> Z) (maxParallelDownloads : Z)
    (f : T -> result E R) (throttledBy : T -> bool) (chunks : list (list T))
    (i : nat) (counter : Z) (parallelTasks : Z) (rs : list R) (trace : list Z)
    : result E (list R) * list Z :=
  match chunks with
  | [] => (Ok rs, trace)
  | chunk :: chunks' =>
      match ctx i with
      | Some e => (Err e, trace)
      | None =>
          let parallelTasks := modifier (negb (counter =? 0)) parallelTasks maxParallelDownloads in
          let trace := trace ++ [parallelTasks] in
          match MapContext parallelTasks chunk f with
          | Err e => (Err e, trace)
          | Ok chunkResult =>
              rate_loop ctx modifier maxParallelDownloads f throttledBy chunks' (S i)
                (Z.of_nat (length (Filter chunk throttledBy))) parallelTasks (rs ++ chunkResult) trace
          end
      end
  end.

Definition autoDownloadRate (ctx : nat -> option E) (modifier : bool -> Z -> Z -> Z)
    (maxParallelDownloads : Z) (data : list T) (f : T -> result E R) (throttledBy : T -> bool)
    : result E (list R) * list Z :=
  rate_loop ctx modifier maxParallelDownloads f throttledBy (Chunk data maxParallelDownloads)
    0 0 maxParallelDownloads [] [].

(** *** Results and rate *)

Lemma rate_loop_Ok `{!ParallelLaws E} ctx modifier maxP (f : T -> result E R) th chunks i c p rs trace rs' :
  (rate_loop ctx modifier maxP f th chunks i c p rs trace).1 = Ok rs' ->
  exists new, rs' = rs ++ new /\ Forall2 (fun t r => f t = Ok r) (mjoin chunks) new.
Proof.
  revert i c p rs trace. induction chunks as [|chunk chunks IH]; intros i c p rs trace; simpl.
  - intros [= <-]. exists []. rewrite app_nil_r. split; [done|constructor].
  - destruct (ctx i); [done|]. destruct (MapContext _ chunk f) as [cr|e] eqn:Hm; [|done].
    intros (new & -> & Hnew)%IH. exists (cr ++ new). rewrite app_assoc. split; [done|].
    apply Forall2_app; [|done]. by apply MapContext_Ok in Hm.
Qed.

(** The results are those of the calls, in the order of the data. *)
Lemma autoDownloadRate_Ok `{!ParallelLaws E} ctx modifier maxP data (f : T -> result E R) th rs :
  0 < maxP -> (autoDownloadRate ctx modifier maxP data f th).1 = Ok rs ->
  Forall2 (fun t r => f t = Ok r) data rs.
Proof.
  intros Hm Hr. apply rate_loop_Ok in Hr as (new & -> & Hn). by rewrite Chunk_law in Hn.
Qed.

Lemma Apply_bounds b cur maxP :
  2 <= maxP < 2 ^ 62 -> 1 < cur <= maxP -> 2 <= Apply b cur maxP <= maxP.
Proof.
  intros Hm Hc. unfold Apply. destruct b; simpl; [|lia]. rewrite i64_id by (unfold i64_ok; lia). lia.
Qed.

Lemma rate_loop_total `{!ParallelLaws E} maxP (f : T -> result E R) th chunks i c p rs trace :
  2 <= maxP < 2 ^ 62 -> 2 <= p <= maxP ->
  (forall t, t ∈ mjoin chunks -> exists r, f t = Ok r) ->
  exists rs', (rate_loop (fun _ => None) Apply maxP f th chunks i c p rs trace).1 = Ok rs'.
Proof.
  intros Hm. revert i c p rs trace.
  induction chunks as [|chunk chunks IH]; intros i c p rs trace Hp Hall; simpl; [eauto|].
  assert (Hb := Apply_bounds (negb (c =? 0)) p maxP Hm ltac:(lia)).
  assert (Hr : exists crs, Forall2 (fun t r => f t = Ok r) chunk crs).
  { assert (Hc : forall t, t ∈ chunk -> exists r, f t = Ok r)
      by (intros t Ht; apply Hall; simpl; apply elem_of_app; by left).
    clear -Hc. induction chunk as [|t chunk IH]; [exists []; constructor|].
    destruct (Hc t) as [r Hr]; [apply list_elem_of_here|].
    destruct IH as [crs Hcrs]; [intros; apply Hc; by apply list_elem_of_further|].
    exists (r :: crs). by constructor. }
  destruct Hr as [crs Hcrs]. rewrite (MapContext_total _ chunk f crs) by (done || lia).
  apply IH; [done|]. intros t Ht. apply Hall. simpl. apply elem_of_app. by right.
Qed.

Lemma autoDownloadRate_total `{!ParallelLaws E} maxP data (f : T -> result E R) th :
  2 <= maxP < 2 ^ 62 -> (forall t, t ∈ data -> exists r, f t = Ok r) ->
  exists rs, (autoDownloadRate (fun _ => None) Apply maxP data f th).1 = Ok rs.
Proof.
  intros Hm Hall. apply rate_loop_total; [done|lia|]. rewrite Chunk_law by lia. done.
Qed.

(** The parallelism of the next chunk: two, or twice the last when the last chunk
    met throttling. *)
Definition chunk_throttled (th : T -> bool) (chunk : list T) : bool := existsb th chunk.

Fixpoint rates (maxP : Z) (th : T -> bool) (before : bool) (cur : Z) (chunks : list (list T)) : list Z :=
  match chunks with
  | [] => []
  | chunk :: chunks' =>
      let cur' := if before then Z.min (2 * cur) maxP else 2 in
      cur' :: rates maxP th (chunk_throttled th chunk) cur' chunks'
  end.

Lemma Filter_length_zero (th : T -> bool) chunk :
  negb (Z.of_nat (length (Filter chunk th)) =? 0) = chunk_throttled th chunk.
Proof.
  unfold chunk_throttled. induction chunk as [|t chunk IH]; [done|]. simpl. by destruct (th t).
Qed.

Lemma rates_bounds maxP th before cur chunks :
  2 <= maxP -> 2 <= cur <= maxP -> Forall (fun p => 2 <= p <= maxP) (rates maxP th before cur chunks).
Proof.
  intros Hm. revert before cur. induction chunks as [|chunk chunks IH]; intros before cur Hc; simpl; [constructor|].
  assert (Hb : 2 <= (if before then Z.min (2 * cur) maxP else 2) <= maxP) by (destruct before; lia).
  constructor; [done|]. by apply IH.
Qed.

Lemma rate_loop_trace ctx maxP (f : T -> result E R) th chunks i c p rs trace rs' :
  2 <= maxP < 2 ^ 62 -> 2 <= p <= maxP ->
  (rate_loop ctx Apply maxP f th chunks i c p rs trace).1 = Ok rs' ->
  (rate_loop ctx Apply maxP f th chunks i c p rs trace).2 =
  trace ++ rates maxP th (negb (c =? 0)) p chunks.
Proof.
  intros Hm. revert i c p rs trace. induction chunks as [|chunk chunks IH]; intros i c p rs trace Hp; simpl.
  { by rewrite app_nil_r. }
  destruct (ctx i); [done|]. destruct (MapContext _ chunk f) as [cr|e]; [|done].
  assert (Ha : Apply (negb (c =? 0)) p maxP = if negb (c =? 0) then Z.min (2 * p) maxP else 2).
  { unfold Apply. destruct (negb (c =? 0)); simpl; [|done].
    rewrite i64_id by (unfold i64_ok; lia). f_equal; lia. }
  rewrite Ha. intros Hr. rewrite IH; [|destruct (negb (c =? 0)); lia|exact Hr].
  rewrite Filter_length_zero, <- app_assoc. done.
Qed.

(** The rate of a successful batched download with the default modifier: the
    first chunk, and every chunk after one that met no throttling, runs two calls
    in parallel; a chunk after one that was throttled runs twice as many as that
    one, up to the maximum.  The rate always stays between two and the maximum. *)
Theorem autoDownloadRate_rate ctx maxP data (f : T -> result E R) th rs :
  2 <= maxP < 2 ^ 62 ->
  (autoDownloadRate ctx Apply maxP data f th).1 = Ok rs ->
  (autoDownloadRate ctx Apply maxP data f th).2 = rates maxP th false maxP (Chunk data maxP) /\
  Forall (fun p => 2 <= p <= maxP) (rates maxP th false maxP (Chunk data maxP)).
Proof.
  intros Hm Hr. split; [|apply rates_bounds; lia].
  unfold autoDownloadRate in *. rewrite (rate_loop_trace _ _ _ _ _ _ _ _ _ _ rs); [done|done|lia|done].
Qed.

End rate.

(** ** Downloads through the cache *)

Section download.
Context {E : Type} `{APIErrors E} `{StateProvider} `{Parallel E}.
Abbreviation job := (@Job E _).

(** The API client: a message, and the content of an attachment. *)
Variable client_GetMessage : string -> result E Message.
Variable client_GetAttachmentInto : string -> result E string.

Definition downloadMessage (cache : DownloadCache) (id : string) : result E Message * DownloadCache :=
  match GetMessage id cache with
  | Some msg => (Ok msg, cache)
  | None =>
      match client_GetMessage id with
      | Err e => (Err e, cache)
      | Ok msg => (Ok msg, StoreMessage msg cache)
      end
  end.

(** [size] is only used to reserve the buffer. *)
Definition downloadAttachment (cache : DownloadCache) (id : string) (size : Z)
    : result E string * DownloadCache :=
  match GetAttachment id cache with
  | Some data => (Ok data, cache)
  | None =>
      match client_GetAttachmentInto id with
      | Err e => (Err e, cache)
      | Ok data => (Ok data, StoreAttachment id data cache)
      end
  end.

(** The closure of step 1: a message the server refuses with 422 becomes the zero
    [FullMessage]. *)
Definition zeroFull : FullMessage := mkFull (mkMessage "" "" [] "") [].

Definition message_call (cache : DownloadCache) (id : string) : result E FullMessage :=
  match (downloadMessage cache id).1 with
  | Err e => if bool_decide (api_status e = Some 422) then Ok zeroFull else Err e
  | Ok msg => Ok (mkFull msg (replicate (length (msg_Attachments msg)) None))
  end.

(** Step 2: the places of all attachments, message by message. *)
Fixpoint attachment_indices (msgIdx : nat) (result : list FullMessage) : list (nat * nat) :=
  match result with
  | [] => []
  | v :: result' =>
      ((fun attIdx => (msgIdx, attIdx)) <$> seq 0 (length (fm_Attachments v)))
      ++ attachment_indices (S msgIdx) result'
  end.

Definition attachment_at (result : list FullMessage) (i : nat * nat) : option Attachment :=
  m ← result !! i.1; fm_Attachments m !! i.2.

Definition attachment_ids (result : list FullMessage) : list string :=
  result ≫= fun v => att_ID <$> fm_Attachments v.

(** The closure of step 3; an index of [attachment_indices] is always in range. *)
Definition attachment_call (cache : DownloadCache) (result : list FullMessage) (bad : E)
    (i : nat * nat) : Prelude.result E string :=
  match attachment_at result i with
  | None => Err bad
  | Some att => (downloadAttachment cache (att_ID att) (att_Size att)).1
  end.

(** Step 4: [result[meta.msgIdx].AttData[meta.attIdx] = attachments[i]]. *)
Definition set_att (i : nat * nat) (data : string) (result : list FullMessage) : list FullMessage :=
  alter (fun v => mkFull (fm_Message v) (<[i.2 := Some data]> (fm_AttData v))) i.1 result.

Fixpoint attach (indices : list (nat * nat)) (data : list string) (result : list FullMessage)
    : list FullMessage :=
  match indices, data with
  | i :: indices', d :: data' => attach indices' data' (set_att i d result)
  | _, _ => result
  end.

(** The effect of the calls on the cache; [completed] says which of them ran. *)
Definition messages_cached (completed : string -> bool) (ids : list string) (cache : DownloadCache)
    : DownloadCache :=
  foldl (fun c id => if completed id then (downloadMessage c id).2 else c) cache ids.

Definition attachments_cached (completed : string -> bool) (ids : list string) (cache : DownloadCache)
    : DownloadCache :=
  foldl (fun c id => if completed id then (downloadAttachment c id 0).2 else c) cache ids.

Record BuildRequest : Type := mkBuildRequest {
  br_child : childJob;
  br_batch : list FullMessage
}.

(** The outside of one turn of the loop of [run]: the context, the throttling of
    the calls, which calls of a failed batch had run, and the output's error. *)
Record download_env : Type := mkDownloadEnv {
  de_canceled : E;
  de_ctx1 : nat -> option E;
  de_ctx2 : nat -> option E;
  de_throttled : string -> bool;
  de_completed : string -> bool;
  de_produce : option E;
  de_bad : E
}.

(** One turn of the loop of [DownloadStage.run] on a consumed request: the build
    request produced, if any, and the job; [None] when a send blocks. *)
Definition download_request (maxParallelDownloads : Z) (env : download_env) (request : DownloadRequest)
    (j : job) : option (option BuildRequest * job) :=
  '(isCancelled, j) ← checkCancelled j;
  if (isCancelled : bool) then Some (None, j) else
  let ids := dr_ids request in
  let cache := j_cache j in
  match (autoDownloadRate (de_ctx1 env) Apply maxParallelDownloads ids
           (message_call cache) (de_throttled env)).1 with
  | Err e =>
      let j := with_cache (messages_cached (de_completed env) ids cache) j in
      j ← onError (de_canceled env) e j; Some (None, j)
  | Ok result =>
      let cache := messages_cached (fun _ => true) ids cache in
      let result := Filter result (fun t => negb (String.eqb (fm_ID t) "")) in
      let indices := attachment_indices 0 result in
      let attachmentIDs := attachment_ids result in
      match (autoDownloadRate (de_ctx2 env) Apply maxParallelDownloads indices
               (attachment_call cache result (de_bad env))
               (fun i => match attachment_at result i with
                         | Some att => de_throttled env (att_ID att) | None => false end)).1 with
      | Err e =>
          let j := with_cache (attachments_cached (de_completed env) attachmentIDs cache) j in
          j ← onError (de_canceled env) e j; Some (None, j)
      | Ok data =>
          let j := with_cache (attachments_cached (fun _ => true) attachmentIDs cache) j in
          let result := attach indices data result in
          let child := mkChild (lastMessageID (dr_child request)) (messageCount (dr_child request))
                         ids attachmentIDs in
          let j := c_onStageCompleted child j in
          match de_produce env with
          | Some e => j ← onError (de_canceled env) e j; Some (None, j)
          | None => Some (Some (mkBuildRequest child result), j)
          end
      end
  end.

(** ** The cache is transparent *)

(** Everything cached is what the server returned for it. *)
Definition cache_ok (c : DownloadCache) : Prop :=
  (forall id m, GetMessage id c = Some m -> client_GetMessage id = Ok m) /\
  (forall id d, GetAttachment id c = Some d -> client_GetAttachmentInto id = Ok d).

(** The server returns messages under their own ID. *)
Definition client_ok : Prop := forall id m, client_GetMessage id = Ok m -> msg_ID m = id.

Lemma downloadMessage_transparent c id :
  cache_ok c -> client_ok ->
  (downloadMessage c id).1 = client_GetMessage id /\ cache_ok (downloadMessage c id).2.
Proof.
  intros [Hm Ha] Hc. unfold downloadMessage.
  destruct (GetMessage id c) as [m|] eqn:Hg; [by rewrite (Hm id m Hg)|].
  destruct (client_GetMessage id) as [m|e] eqn:Hr; [|done]. split; [done|]. split; [|exact Ha].
  intros id' m'. unfold GetMessage, StoreMessage. simpl. rewrite (Hc id m Hr).
  destruct (decide (id' = id)) as [->|Hne]; [rewrite lookup_insert_eq|rewrite lookup_insert_ne by done];
    [congruence|apply Hm].
Qed.

Lemma downloadAttachment_transparent c id size :
  cache_ok c ->
  (downloadAttachment c id size).1 = client_GetAttachmentInto id /\ cache_ok (downloadAttachment c id size).2.
Proof.
  intros [Hm Ha]. unfold downloadAttachment.
  destruct (GetAttachment id c) as [d|] eqn:Hg; [by rewrite (Ha id d Hg)|].
  destruct (client_GetAttachmentInto id) as [d|e] eqn:Hr; [|done]. split; [done|]. split; [exact Hm|].
  intros id' d'. unfold GetAttachment, StoreAttachment. simpl.
  destruct (decide (id' = id)) as [->|Hne]; [rewrite lookup_insert_eq|rewrite lookup_insert_ne by done];
    [congruence|apply Ha].
Qed.

Lemma messages_cached_ok completed ids c : cache_ok c -> client_ok -> cache_ok (messages_cached completed ids c).
Proof.
  intros Hc Hcl. unfold messages_cached. revert c Hc. induction ids as [|id ids IH]; intros c Hc; [done|].
  simpl. apply IH. destruct (completed id); [|done]. by apply downloadMessage_transparent.
Qed.

Lemma attachments_cached_ok completed ids c : cache_ok c -> cache_ok (attachments_cached completed ids c).
Proof.
  intros Hc. unfold attachments_cached. revert c Hc. induction ids as [|id ids IH]; intros c Hc; [done|].
  simpl. apply IH. destruct (completed id); [|done]. by apply downloadAttachment_transparent.
Qed.

(** ** Attaching the data *)

Lemma attach_app is1 ds1 is2 ds2 l :
  length is1 = length ds1 -> attach (is1 ++ is2) (ds1 ++ ds2) l = attach is2 ds2 (attach is1 ds1 l).
Proof.
  revert ds1 l. induction is1 as [|i is1 IH]; intros [|d ds1] l Hl; simpl in *; [done|done|done|].
  apply IH. lia.
Qed.

(** The indices of one message fill its data from position [length x] on. *)
Lemma attach_one pre post msg x ds :
  attach ((fun a => (length pre, a)) <$> seq (length x) (length ds)) ds
    (pre ++ mkFull msg (x ++ replicate (length ds) None) :: post) =
  pre ++ mkFull msg (x ++ (Some <$> ds)) :: post.
Proof.
  revert x. induction ds as [|d ds IH]; intros x; [done|]. cbn [length seq fmap list_fmap attach].
  unfold set_att. simpl fst. simpl snd.
  rewrite alter_app_r_alt, Nat.sub_diag by lia. simpl.
  rewrite insert_app_r_alt, Nat.sub_diag by lia. simpl.
  specialize (IH (x ++ [Some d])). rewrite length_app in IH. simpl in IH.
  rewrite Nat.add_1_r, <- !app_assoc in IH. exact IH.
Qed.

Definition bare (m : Message) : FullMessage := mkFull m (replicate (length (msg_Attachments m)) None).

Lemma attach_all pre ms dss :
  Forall2 (fun m ds => length ds = length (msg_Attachments m)) ms dss ->
  attach (attachment_indices (length pre) (bare <$> ms)) (mjoin dss) (pre ++ (bare <$> ms)) =
  pre ++ zip_with (fun m ds => mkFull m (Some <$> ds)) ms dss.
Proof.
  intros Hl. revert pre. induction Hl as [|m ds ms dss Hm Hl IH]; intros pre; [done|].
  cbn [fmap list_fmap attachment_indices mjoin list_join zip_with]. rewrite attach_app by
    (rewrite length_fmap, length_seq; done).
  change (fm_Attachments (bare m)) with (msg_Attachments m).
  change (bare m) with (mkFull m (replicate (length (msg_Attachments m)) None)).
  rewrite <- Hm, (attach_one pre _ m [] ds). simpl.
  specialize (IH (pre ++ [mkFull m (Some <$> ds)])). rewrite length_app in IH. simpl in IH.
  rewrite Nat.add_1_r, <- !app_assoc in IH. exact IH.
Qed.

Lemma attachment_indices_lookup pre l :
  (fun i => attachment_at (pre ++ l) i) <$> attachment_indices (length pre) l =
  Some <$> (l ≫= fm_Attachments).
Proof.
  revert pre. induction l as [|v l IH]; intros pre; [done|]. cbn [attachment_indices mbind list_bind].
  rewrite !fmap_app. f_equal.
  - rewrite <- list_fmap_compose. apply list_eq. intros k. rewrite !list_lookup_fmap.
    destruct (decide (k < length (fm_Attachments v))%nat) as [Hk|Hk].
    + rewrite lookup_seq_lt by done. simpl. unfold attachment_at. simpl.
      rewrite lookup_app_r, Nat.sub_diag by lia. simpl.
      destruct (lookup_lt_is_Some_2 (fm_Attachments v) k Hk) as [a Ha]. by rewrite Ha.
    + rewrite lookup_seq_ge, lookup_ge_None_2 by lia. done.
  - specialize (IH (pre ++ [v])). rewrite length_app in IH. simpl in IH.
    rewrite Nat.add_1_r, <- app_assoc in IH. exact IH.
Qed.

(** ** One request *)

(** The messages of a request that exist on the server. *)
Definition server_messages (ids : list string) : list Message :=
  omap (fun id => match client_GetMessage id with Ok m => Some m | Err _ => None end) ids.

(** A message with the data of each of its attachments. *)
Definition complete (m : Message) (v : FullMessage) : Prop :=
  fm_Message v = m /\
  exists ds, fm_AttData v = Some <$> ds /\
    Forall2 (fun a d => client_GetAttachmentInto (att_ID a) = Ok d) (msg_Attachments m) ds.

Lemma message_call_transparent c id :
  cache_ok c -> client_ok ->
  message_call c id =
  match client_GetMessage id with
  | Ok m => Ok (bare m)
  | Err e => if bool_decide (api_status e = Some 422) then Ok zeroFull else Err e
  end.
Proof.
  intros Hc Hcl. unfold message_call. rewrite (proj1 (downloadMessage_transparent c id Hc Hcl)).
  by destruct (client_GetMessage id).
Qed.

Lemma message_results c ids rs :
  cache_ok c -> client_ok -> ""%string ∉ ids ->
  Forall2 (fun id r => message_call c id = Ok r) ids rs ->
  Filter rs (fun t => negb (String.eqb (fm_ID t) "")) = bare <$> server_messages ids.
Proof.
  intros Hc Hcl Hne Hr. induction Hr as [|id r ids rs Hid Hr IH]; [done|].
  apply not_elem_of_cons in Hne as [Hid' Hne]. specialize (IH Hne).
  rewrite message_call_transparent in Hid by done. unfold server_messages in *.
  cbn [Filter omap list_omap]. destruct (client_GetMessage id) as [m|e] eqn:Hg.
  - injection Hid as <-. assert (Hb : fm_ID (bare m) = id) by exact (Hcl id m Hg).
    rewrite Hb, (proj2 (String.eqb_neq id "")) by congruence. simpl. by rewrite IH.
  - case_bool_decide; [|done]. injection Hid as <-. simpl. exact IH.
Qed.

Lemma Forall2_bind_split {A B C} (P : B -> C -> Prop) (g : A -> list B) l data :
  Forall2 P (l ≫= g) data ->
  exists dss, data = mjoin dss /\ Forall2 (fun x ds => Forall2 P (g x) ds) l dss.
Proof.
  revert data. induction l as [|x l IH]; intros data Hd; simpl in Hd.
  { apply Forall2_nil_inv_l in Hd as ->. exists []. split; [done|constructor]. }
  apply Forall2_app_inv_l in Hd as (ds & rest & Hds & (dss & -> & Hr)%IH & ->).
  exists (ds :: dss). split; [done|]. by constructor.
Qed.

(** The data of a batch, message by message. *)
Lemma attachment_results c bad ms data :
  cache_ok c ->
  Forall2 (fun i d => attachment_call c (bare <$> ms) bad i = Ok d)
    (attachment_indices 0 (bare <$> ms)) data ->
  exists dss, data = mjoin dss /\
    Forall2 (fun m ds => Forall2 (fun a d => client_GetAttachmentInto (att_ID a) = Ok d)
                           (msg_Attachments m) ds) ms dss.
Proof.
  intros Hc Hd. apply (Forall2_bind_split _ msg_Attachments).
  assert (Hb : (bare <$> ms) ≫= fm_Attachments = ms ≫= msg_Attachments).
  { clear. induction ms as [|m ms IH]; [done|]. simpl. f_equal. exact IH. }
  assert (Hi := attachment_indices_lookup [] (bare <$> ms)). simpl in Hi. rewrite Hb in Hi.
  set (ix := attachment_indices 0 (bare <$> ms)) in *. clearbody ix. clear Hb.
  revert data Hd Hi. generalize (ms ≫= msg_Attachments) as atts.
  induction ix as [|i ix IH]; intros atts data Hd Hi; destruct atts as [|a atts]; try done.
  { apply Forall2_nil_inv_l in Hd as ->. constructor. }
  injection Hi as Ha Hi. apply Forall2_cons_inv_l in Hd as (d & data' & Hd & Hds & ->).
  constructor; [|by apply IH]. unfold attachment_call in Hd. rewrite Ha in Hd.
  by rewrite (proj1 (downloadAttachment_transparent c (att_ID a) (att_Size a) Hc)) in Hd.
Qed.

Lemma attachment_calls_total c bad ms :
  cache_ok c ->
  (forall m a, m ∈ ms -> a ∈ msg_Attachments m -> exists d, client_GetAttachmentInto (att_ID a) = Ok d) ->
  forall i, i ∈ attachment_indices 0 (bare <$> ms) ->
  exists d, attachment_call c (bare <$> ms) bad i = Ok d.
Proof.
  intros Hc Hall i Hin. assert (Hi := attachment_indices_lookup [] (bare <$> ms)). simpl in Hi.
  assert (Ha : attachment_at (bare <$> ms) i ∈ (Some <$> ((bare <$> ms) ≫= fm_Attachments))).
  { rewrite <- Hi. by apply (list_elem_of_fmap_2 (fun i => attachment_at (bare <$> ms) i)). }
  apply list_elem_of_fmap in Ha as (a & Ha & Hin'). apply list_elem_of_bind in Hin' as (v & Hv & Hv').
  apply list_elem_of_fmap in Hv' as (m & -> & Hm). unfold attachment_call. rewrite Ha.
  rewrite (proj1 (downloadAttachment_transparent c (att_ID a) (att_Size a) Hc)). by apply (Hall m).
Qed.

(** A request whose messages can all be downloaded, or are gone from the
    server (422), is turned into a build request, whatever the cache already
    holds: its batch is the existing messages in the order of the request, each
    with every attachment's data in its place; its child keeps the request's last
    message and count and lists the request's messages and all the attachments for
    removal from the cache; the waiter is not told anything and the cache still
    holds only what the server returned. *)
Theorem download_request_complete `{!ParallelLaws E} maxP canceled th completed bad child ids (j : job) :
  2 <= maxP < 2 ^ 62 -> client_ok -> cache_ok (j_cache j) -> ""%string ∉ ids -> j_cancelled j = None ->
  (forall id, id ∈ ids -> (exists m, client_GetMessage id = Ok m) \/
                          (exists e, client_GetMessage id = Err e /\ api_status e = Some 422)) ->
  (forall m a, m ∈ server_messages ids -> a ∈ msg_Attachments m ->
     exists d, client_GetAttachmentInto (att_ID a) = Ok d) ->
  exists batch j',
    download_request maxP (mkDownloadEnv canceled (fun _ => None) (fun _ => None) th completed None bad)
      (mkDownloadRequest child ids) j =
    Some (Some (mkBuildRequest
                  (mkChild (lastMessageID child) (messageCount child) ids
                     (server_messages ids ≫= fun m => att_ID <$> msg_Attachments m)) batch), j') /\
    Forall2 complete (server_messages ids) batch /\
    j_jw j' = j_jw j /\ j_state j' = j_state j /\ j_cancelled j' = None /\ cache_ok (j_cache j').
Proof.
  intros Hm Hcl Hc Hne Hj Hmsgs Hatts. unfold download_request, checkCancelled. rewrite Hj.
  cbn [mbind option_bind de_ctx1 de_ctx2 de_throttled de_produce de_bad dr_ids dr_child].
  destruct (autoDownloadRate_total maxP ids (message_call (j_cache j)) th Hm) as [rs Hrs].
  { intros id Hin. rewrite message_call_transparent by done.
    destruct (Hmsgs id Hin) as [[m ->]|(e & -> & He)]; [eauto|]. rewrite bool_decide_eq_true_2 by done. eauto. }
  rewrite Hrs. apply autoDownloadRate_Ok in Hrs; [|lia].
  rewrite (message_results (j_cache j) ids rs) by done.
  set (c' := messages_cached _ ids (j_cache j)).
  assert (Hc' : cache_ok c') by (by apply messages_cached_ok). clearbody c'.
  set (ms := server_messages ids) in *. cbv zeta.
  match goal with |- context [autoDownloadRate (fun _ => None) Apply maxP ?ix ?f ?t] =>
    destruct (autoDownloadRate_total maxP ix f t Hm) as [data Hd] end.
  { by apply attachment_calls_total. }
  rewrite Hd. apply autoDownloadRate_Ok in Hd; [|lia].
  apply attachment_results in Hd as (dss & -> & Hdss); [|done].
  assert (Hl : Forall2 (fun m ds => length ds = length (msg_Attachments m)) ms dss).
  { eapply Forall2_impl; [exact Hdss|]. intros m ds Hf. symmetry. exact (Forall2_length _ _ _ Hf). }
  assert (Hat := attach_all [] ms dss Hl). simpl in Hat. rewrite Hat.
  assert (Hids : attachment_ids (bare <$> ms) = ms ≫= fun m => att_ID <$> msg_Attachments m).
  { clear. induction ms as [|m ms IH]; [done|]. unfold attachment_ids in *. simpl. f_equal. exact IH. }
  rewrite Hids. do 2 eexists. split; [reflexivity|]. split.
  - clear -Hdss. induction Hdss as [|m ds ms dss Hds Hdss IH]; simpl; [constructor|].
    constructor; [|exact IH]. split; [done|]. eauto.
  - split; [done|]. split; [done|]. split; [done|]. simpl. by apply attachments_cached_ok.
Qed.

End download.

(** ** Witnesses *)

(** A sequential map and chunks of the given size. *)
Fixpoint chunk_fuel {T} (fuel : nat) (l : list T) (n : nat) : list (list T) :=
  match fuel, l with
  | S fuel', _ :: _ => take n l :: chunk_fuel fuel' (drop n l) n
  | _, _ => []
  end.

Fixpoint map_seq {E T R} (l : list T) (f : T -> result E R) : result E (list R) :=
  match l with
  | [] => Ok []
  | t :: l' => r ← f t; rs ← map_seq l' f; Ok (r :: rs)
  end.

Definition sequential : Parallel Z :=
  {| Chunk := fun T l n => chunk_fuel (length l) l (Z.to_nat n);
     MapContext := fun T R n l f => map_seq l f |}.

Lemma chunk_fuel_join {T} fuel (l : list T) n :
  (0 < n)%nat -> (length l <= fuel)%nat -> mjoin (chunk_fuel fuel l n) = l.
Proof.
  intros Hn. revert l. induction fuel as [|fuel IH]; intros [|t l] Hl; simpl in *; [done|lia|done|].
  rewrite IH by (rewrite length_drop; simpl; lia). by rewrite (take_drop n (t :: l)).
Qed.

Lemma map_seq_Ok {E T R} (l : list T) (f : T -> result E R) rs :
  map_seq l f = Ok rs <-> Forall2 (fun t r => f t = Ok r) l rs.
Proof.
  revert rs. induction l as [|t l IH]; intros rs; simpl.
  - split; [intros [= <-]; constructor|]. intros Hl. by apply Forall2_nil_inv_l in Hl as ->.
  - rewrite result_bind_Ok. setoid_rewrite result_bind_Ok. setoid_rewrite IH. split.
    + intros (r & Hr & rs' & Hrs & [= <-]). by constructor.
    + intros Hl. apply Forall2_cons_inv_l in Hl as (r & rs' & ? & ? & ->). eauto 10.
Qed.

Lemma sequential_laws : @ParallelLaws Z sequential.
Proof.
  split; simpl.
  - intros T l n Hn. apply chunk_fuel_join; lia.
  - intros T R n l f rs. apply map_seq_Ok.
  - intros T R n l f rs _. apply map_seq_Ok.
Qed.

Lemma autoDownloadRate_rate_witness :
  (@autoDownloadRate Z sequential nat nat (fun _ => None) Apply 4 (seq 0 10) (fun t => Ok t)
     (fun t => (t <? 2)%nat)).2 = [2; 4; 2].
Proof.
  rewrite (proj1 (@autoDownloadRate_rate Z sequential nat nat (fun _ => None) 4 (seq 0 10) (fun t => Ok t)
     (fun t => (t <? 2)%nat) (seq 0 10) ltac:(lia) eq_refl)). reflexivity.
Defined.

(** A server with two messages; any other ID is refused with 422. *)
Definition ex_GetMessage (id : string) : result Z Message :=
  if String.eqb id "m1" then Ok (mkMessage "m1" "a" [mkAttachment "x" 1; mkAttachment "y" 2] "b1")
  else if String.eqb id "m2" then Ok (mkMessage "m2" "a" [mkAttachment "z" 3] "b2")
  else Err 422.

Lemma ex_client_ok : client_ok ex_GetMessage.
Proof.
  intros id m. unfold ex_GetMessage. destruct (String.eqb_spec id "m1") as [->|_]; [by intros [= <-]|].
  destruct (String.eqb_spec id "m2") as [->|_]; [by intros [= <-]|done].
Qed.

Lemma download_request_complete_witness :
  exists batch j',
    @download_request Z {| api_status := Some |} pure_provider sequential ex_GetMessage Ok 4
      (mkDownloadEnv 0 (fun _ => None) (fun _ => None) (fun _ => false) (fun _ => true) None 0)
      (mkDownloadRequest (mkChild "m2" 3 [] []) ["m1"; "gone"; "m2"]%string)
      (@NewJob Z pure_provider DefaultStatus newDownloadCache) =
    Some (Some (mkBuildRequest (mkChild "m2" 3 ["m1"; "gone"; "m2"]%string ["x"; "y"; "z"]%string) batch), j') /\
    Forall2 (@complete Z Ok) (server_messages ex_GetMessage ["m1"; "gone"; "m2"]%string) batch.
Proof.
  destruct (@download_request_complete Z {| api_status := Some |} pure_provider sequential ex_GetMessage Ok
    sequential_laws 4 0 (fun _ => false) (fun _ => true) 0 (mkChild "m2" 3 [] []) ["m1"; "gone"; "m2"]%string
    (@NewJob Z pure_provider DefaultStatus newDownloadCache)) as (batch & j' & Hrun & Hb & _).
  - lia.
  - exact ex_client_ok.
  - split; intros ? ? Hg; discriminate Hg.
  - apply (bool_decide_unpack _). vm_compute. exact I.
  - reflexivity.
  - intros id Hin. repeat (apply elem_of_cons in Hin as [->|Hin]; [vm_compute; eauto|]).
    exfalso. by apply elem_of_nil in Hin.
  - intros m a Hm Ha. eauto.
  - exists batch, j'. split; [exact Hrun|exact Hb].
Defined.
