(* ===== verification/SyncBuild.v ===== *)
(** * The build stage (internal/services/syncservice/stage_build.go)

    The third stage splits a batch into chunks that fit in memory, builds every
    message of a chunk, records the ones it could not build, and sends the rest to
    the apply stage.  The key rings, the message builder and the parallel map are
    parameters. *)

From S2P Require Import Prelude.
From S2P Require Import SyncInterfaces.
From S2P Require Import SyncJob.
From S2P Require Import SyncMetadata.
From S2P Require Import SyncDownload.

(** ** Chunks *)

(** Go's [l[a:b]]. *)
Definition slice {A} (a b : nat) (l : list A) : list A := take (b - a) (drop a l).

(** [dataSize] of a message, in [uint64]. *)
Definition dataSize (v : FullMessage) : Z :=
  let atts := foldl (fun n a => u64 (n + u64 (att_Size a))) 0 (fm_Attachments v) in
  u64 (u64 (atts * 2) + Z.of_nat (String.length (msg_Body (fm_Message v)))).

(** The loop of [chunkSyncBuilderBatch]: the chunks and [lastIndex]. *)
Fixpoint chunk_loop (batch : list FullMessage) (maxMemory : Z) (rest : list FullMessage)
    (index lastIndex : nat) (expectedMemUsage : Z) (chunks : list (list FullMessage))
    : list (list FullMessage) * nat :=
  match rest with
  | [] => (chunks, lastIndex)
  | v :: rest' =>
      let size := dataSize v in
      let nextMemSize := u64 (expectedMemUsage + size) in
      if maxMemory <=? nextMemSize then
        if (lastIndex <? index)%nat then
          chunk_loop batch maxMemory rest' (S index) index size (chunks ++ [slice lastIndex index batch])
        else chunk_loop batch maxMemory rest' (S index) lastIndex size chunks
      else chunk_loop batch maxMemory rest' (S index) lastIndex nextMemSize chunks
  end.

Definition chunkSyncBuilderBatch (batch : list FullMessage) (maxMemory : Z) : list (list FullMessage) :=
  let '(chunks, lastIndex) := chunk_loop batch maxMemory batch 0 0 0 [] in
  if (lastIndex <? length batch)%nat then chunks ++ [drop lastIndex batch] else chunks.

(** *** What the chunks are *)

Definition message_mem (v : FullMessage) : Z :=
  2 * foldr (fun a n => att_Size a + n) 0 (fm_Attachments v)
  + Z.of_nat (String.length (msg_Body (fm_Message v))).
Definition batch_mem (l : list FullMessage) : Z := foldr (fun v n => message_mem v + n) 0 l.
Definition sizes_nat (l : list FullMessage) : Prop :=
  Forall (fun v => Forall (fun a => 0 <= att_Size a) (fm_Attachments v)) l.

Lemma batch_mem_app l l' : batch_mem (l ++ l') = batch_mem l + batch_mem l'.
Proof. unfold batch_mem. induction l; simpl; lia. Qed.

Lemma att_sum_nonneg (l : list Attachment) :
  Forall (fun a => 0 <= att_Size a) l -> 0 <= foldr (fun a n => att_Size a + n) 0 l.
Proof. induction 1; simpl; lia. Qed.

Lemma batch_mem_nonneg l : sizes_nat l -> 0 <= batch_mem l.
Proof.
  unfold batch_mem, sizes_nat. induction 1 as [|v l Hv Hl IH]; simpl; [lia|].
  apply att_sum_nonneg in Hv. unfold message_mem at 1. lia.
Qed.

Lemma dataSize_exact v :
  Forall (fun a => 0 <= att_Size a) (fm_Attachments v) -> message_mem v < two64 ->
  dataSize v = message_mem v.
Proof.
  unfold dataSize, message_mem. intros Hv Hlt.
  assert (Hs : forall n, 0 <= n -> n + foldr (fun a n => att_Size a + n) 0 (fm_Attachments v) < two64 ->
    foldl (fun n a => u64 (n + u64 (att_Size a))) n (fm_Attachments v) =
    n + foldr (fun a n => att_Size a + n) 0 (fm_Attachments v)).
  { clear Hlt. induction Hv as [|a l Ha Hl IH]; intros n Hn Hlt; simpl in *; [lia|].
    assert (0 <= foldr (fun a n => att_Size a + n) 0 l) by (by apply att_sum_nonneg).
    rewrite (u64_id (att_Size a)), u64_id by (unfold u64_ok; lia). rewrite IH by lia. lia. }
  assert (0 <= foldr (fun a n => att_Size a + n) 0 (fm_Attachments v)) by (by apply att_sum_nonneg).
  rewrite Hs by lia. rewrite (u64_id (_ * 2)), u64_id by (unfold u64_ok; lia). lia.
Qed.

(** A chunk that may be built: one message, or below the limit. *)
Definition chunk_ok (maxMemory : Z) (c : list FullMessage) : Prop :=
  c <> [] /\ (length c = 1%nat \/ batch_mem c < maxMemory).

(** The memory of a batch can be computed in 64 bits. *)
Definition mem_ok (batch : list FullMessage) : Prop := sizes_nat batch /\ batch_mem batch < two64.

Lemma mem_ok_step prev cur v rest :
  mem_ok (prev ++ cur ++ v :: rest) ->
  dataSize v = batch_mem [v] /\ u64 (batch_mem cur + dataSize v) = batch_mem (cur ++ [v]).
Proof.
  intros [Hs Hlt]. unfold sizes_nat in Hs. rewrite !Forall_app, Forall_cons in Hs.
  destruct Hs as (H1 & H2 & H3 & H4). rewrite !batch_mem_app in Hlt.
  change (v :: rest) with ([v] ++ rest) in Hlt. rewrite batch_mem_app in Hlt.
  apply batch_mem_nonneg in H1, H2, H4.
  assert (Hv : batch_mem [v] = message_mem v) by (unfold batch_mem; simpl; lia).
  assert (0 <= message_mem v) by (unfold message_mem; apply att_sum_nonneg in H3; lia).
  assert (Hd : dataSize v = message_mem v) by (apply dataSize_exact; [done|lia]).
  rewrite Hd, Hv, batch_mem_app, Hv. split; [done|]. apply u64_id. unfold u64_ok. lia.
Qed.

(** The loop has cut [prev] into [chunks] and is collecting [cur].  The claims on
    memory need sizes that do not overflow, the others hold for all messages. *)
Definition loop_ok (maxMemory : Z) (batch prev cur : list FullMessage) (mem : Z)
    (chunks : list (list FullMessage)) : Prop :=
  mjoin chunks = prev /\ Forall (fun c => c <> []) chunks /\
  (mem_ok batch -> mem = batch_mem cur /\ Forall (chunk_ok maxMemory) chunks /\
     (cur = [] \/ chunk_ok maxMemory cur)).

Lemma chunk_loop_spec maxMemory batch rest prev cur mem chunks :
  batch = prev ++ cur ++ rest -> loop_ok maxMemory batch prev cur mem chunks ->
  exists chunks' prev' cur' mem',
    chunk_loop batch maxMemory rest (length prev + length cur) (length prev) mem chunks =
      (chunks', length prev') /\
    batch = prev' ++ cur' /\ loop_ok maxMemory batch prev' cur' mem' chunks'.
Proof.
  revert prev cur mem chunks.
  induction rest as [|v rest IH]; intros prev cur mem chunks Hb Hok; cbn [chunk_loop].
  { rewrite app_nil_r in Hb. by exists chunks, prev, cur, mem. }
  assert (Hsingle : chunk_ok maxMemory [v]) by (split; [done|by left]).
  assert (Hstep : mem_ok batch -> mem = batch_mem cur ->
    dataSize v = batch_mem [v] /\ u64 (mem + dataSize v) = batch_mem (cur ++ [v])).
  { intros Hm ->. rewrite Hb in Hm. by apply mem_ok_step in Hm. }
  destruct Hok as (Hj & Hne & Hmem).
  destruct (Z.leb_spec maxMemory (u64 (mem + dataSize v))) as [Hle|Hgt].
  - destruct (decide (cur = [])) as [->|Hcur].
    + simpl length. rewrite Nat.add_0_r, Nat.ltb_irrefl.
      destruct (IH prev [v] (dataSize v) chunks) as (c' & p' & cu' & me' & Hr & Hrest); [done| |].
      { split; [done|]. split; [done|]. intros Hm. destruct (Hmem Hm) as (He & Hc & _).
        split; [by apply Hstep|]. split; [done|by right]. }
      simpl length in Hr. rewrite Nat.add_1_r in Hr. rewrite Hr. by exists c', p', cu', me'.
    + assert (Hpos : (0 < length cur)%nat) by (destruct cur; [done|simpl; lia]).
      rewrite (proj2 (Nat.ltb_lt _ _)) by lia.
      assert (Hsl : slice (length prev) (length prev + length cur) batch = cur).
      { unfold slice. rewrite Hb, drop_app_length. replace (length prev + length cur - length prev)%nat
          with (length cur) by lia. by rewrite take_app_length. }
      rewrite Hsl.
      destruct (IH (prev ++ cur) [v] (dataSize v) (chunks ++ [cur])) as (c' & p' & cu' & me' & Hr & Hrest).
      * by rewrite Hb, <- app_assoc.
      * split; [rewrite join_app, Hj; simpl; by rewrite app_nil_r|].
        split; [apply Forall_app; by split; [|constructor]|]. intros Hm. destruct (Hmem Hm) as (He & Hc & [?|Hcok]); [done|].
        split; [by apply Hstep|]. split; [apply Forall_app; by split; [|constructor]|by right].
      * rewrite length_app in Hr. simpl length in Hr. rewrite Nat.add_1_r in Hr. rewrite Hr. by exists c', p', cu', me'.
  - destruct (IH prev (cur ++ [v]) (u64 (mem + dataSize v)) chunks) as (c' & p' & cu' & me' & Hr & Hrest).
    + by rewrite Hb, <- app_assoc.
    + split; [done|]. split; [done|]. intros Hm. destruct (Hmem Hm) as (He & Hc & _).
      destruct (Hstep Hm He) as [_ Hu]. split; [done|]. split; [done|]. right. split; [by destruct cur|]. right. lia.
    + rewrite length_app in Hr. simpl length in Hr.
      rewrite Nat.add_1_r, Nat.add_succ_r in Hr. rewrite Hr. by exists c', p', cu', me'.
Qed.

Lemma chunkSyncBuilderBatch_chunks batch maxMemory :
  mjoin (chunkSyncBuilderBatch batch maxMemory) = batch /\
  Forall (fun c => c <> []) (chunkSyncBuilderBatch batch maxMemory) /\
  (mem_ok batch -> Forall (chunk_ok maxMemory) (chunkSyncBuilderBatch batch maxMemory)).
Proof.
  unfold chunkSyncBuilderBatch.
  destruct (chunk_loop_spec maxMemory batch batch [] [] 0 [])
    as (chunks & prev & cur & mem & Hr & Hb & Hj & Hne & Hmem); [done| |].
  { split; [done|]. split; [constructor|]. intros _. split; [done|]. split; [constructor|by left]. }
  simpl length in Hr. simpl Nat.add in Hr. rewrite Hr.
  destruct (Nat.ltb_spec (length prev) (length batch)) as [Hl|Hl].
  - assert (Hd : drop (length prev) batch = cur) by (by rewrite Hb, drop_app_length).
    assert (Hcur : cur <> []) by (intros ->; rewrite Hb, app_nil_r in Hl; lia).
    rewrite Hd, join_app, Hj. simpl. rewrite app_nil_r. split; [done|].
    rewrite !Forall_app, !Forall_singleton. split; [done|]. intros Hm. destruct (Hmem Hm) as (_ & ? & [?|?]); done.
  - assert (cur = []) as ->.
    { rewrite Hb, length_app in Hl. destruct cur; [done|]. simpl in Hl. lia. }
    rewrite app_nil_r in Hb. split; [congruence|]. split; [done|]. intros Hm. by apply Hmem.
Qed.

(** The chunks of a batch, for any memory limit: put together they are the
    batch, in order, and none is empty, so there is at least one for a batch that is
    not.  When the sizes do not overflow 64 bits, each is a single message or needs
    less than the limit. *)
Theorem chunkSyncBuilderBatch_spec batch maxMemory :
  mjoin (chunkSyncBuilderBatch batch maxMemory) = batch /\
  Forall (fun c => c <> []) (chunkSyncBuilderBatch batch maxMemory) /\
  (mem_ok batch -> Forall (chunk_ok maxMemory) (chunkSyncBuilderBatch batch maxMemory)).
Proof. apply chunkSyncBuilderBatch_chunks. Qed.

(** ** Building a request *)

(** [BuildResult]; [Update] is the IMAP update, nil for a message that was not
    built. *)
Record BuildResult {U : Type} : Type := mkResult {
  res_AddressID : string;
  res_MessageID : string;
  res_Update : option U
}.
Arguments BuildResult : clear implicits.
Arguments mkResult {U} _ _ _.

Record ApplyRequest {U : Type} : Type := mkApplyRequest {
  ar_child : childJob;
  ar_messages : list (BuildResult U)
}.
Arguments ApplyRequest : clear implicits.
Arguments mkApplyRequest {U} _ _.

Section build.
Context {E KR U : Type} `{StateProvider}.
Abbreviation job := (@Job E _).

(** [MessageBuilder.BuildMessage] with the job's labels. *)
Variable BuildMessage : FullMessage -> KR -> result E (BuildResult U).

(** The closure passed to [parallel.MapContext]: what it returns, and whether it
    failed to build the message. *)
Definition could_build (addrKRs : gmap string KR) (v : FullMessage) : bool :=
  match addrKRs !! msg_AddressID (fm_Message v) with
  | None => false
  | Some kr => is_ok (BuildMessage v kr)
  end.

Definition build_one (addrKRs : gmap string KR) (v : FullMessage) : BuildResult U :=
  match addrKRs !! msg_AddressID (fm_Message v) with
  | None => mkResult "" "" None
  | Some kr => match BuildMessage v kr with Ok r => r | Err _ => mkResult "" "" None end
  end.

(** The filter [t.Update != nil] of the results. *)
Definition was_built (t : BuildResult U) : bool :=
  match res_Update t with Some _ => true | None => false end.

(** Its calls of [AddFailedMessageID], whose error is only logged, for the
    messages it was run on. *)
Definition record_failed (addrKRs : gmap string KR) (ran : string -> bool) (chunk : list FullMessage)
    (p : provider) : provider :=
  foldl (fun p v => if ran (fm_ID v) && negb (could_build addrKRs v)
                    then (AddFailedMessageID [fm_ID v] p).1 else p) p chunk.

(** The outside of one turn of [run]: the error of the parallel map of a chunk
    (its context was cancelled) with the messages that were run, the error of the
    output, and whether the job's context was cancelled from outside before a
    chunk. *)
Record build_env : Type := mkBuildEnv {
  be_canceled : E;
  be_map : nat -> option E;
  be_ran : string -> bool;
  be_produce : nat -> option E;
  be_cancel : nat -> bool
}.

Fixpoint cancel_all (n : nat) (j : job) : outcome job :=
  match n with
  | O => Returned j
  | S n' => match checkCancelled j with Some (_, j') => cancel_all n' j' | None => Blocked end
  end.

(** The loop over the chunks: the requests produced, the error returned, the job. *)
Fixpoint build_chunks (env : build_env) (addrKRs : gmap string KR) (idx : nat)
    (work : list (childJob * list FullMessage)) (out : list (ApplyRequest U)) (j : job)
    : outcome (list (ApplyRequest U) * option E * job) :=
  match work with
  | [] => Returned (out, None, j)
  | (child, chunk) :: work' =>
      let j := if be_cancel env idx then j_cancel (be_canceled env) j else j in
      match checkCancelled j with
      | None => Blocked
      | Some (true, j) =>
          match cancel_all (length work') j with
          | Returned j => Returned (out, None, j)
          | Blocked => Blocked
          | Panicked => Panicked
          end
      | Some (false, j) =>
          match be_map env idx with
          | Some e => Returned (out, Some e, with_state (record_failed addrKRs (be_ran env) chunk (j_state j)) j)
          | None =>
              let p := record_failed addrKRs (fun _ => true) chunk (j_state j) in
              let success := Filter (build_one addrKRs <$> chunk) was_built in
              let p := match success with
                       | [] => p
                       | _ => (RemFailedMessageID (res_MessageID <$> success) p).1
                       end in
              let j := c_onStageCompleted child (with_state p j) in
              match be_produce env idx with
              | Some e => Returned (out, Some e, j)
              | None => build_chunks env addrKRs (S idx) work' (out ++ [mkApplyRequest child success]) j
              end
          end
      end
  end.

Definition fail (canceled e : E) (out : list (ApplyRequest U)) (j : job)
    : outcome (list (ApplyRequest U) * job) :=
  match onError canceled e j with Some j => Returned (out, j) | None => Blocked end.

(** One turn of the loop of [BuildStage.run] on a consumed request.  [withKeys] is
    what [messageBuilder.WithKeys] passes to its argument, or its own error. *)
Definition build_request (maxBuildMem : Z) (env : build_env) (withKeys : result E (gmap string KR))
    (req : BuildRequest) (j : job) : outcome (list (ApplyRequest U) * job) :=
  match checkCancelled j with
  | None => Blocked
  | Some (true, j) => Returned ([], j)
  | Some (false, j) =>
      match br_batch req with
      | [] =>
          let j := c_onStageCompleted (br_child req) j in
          match be_produce env 0 with
          | Some e => fail (be_canceled env) e [] j
          | None => Returned ([mkApplyRequest (br_child req) []], j)
          end
      | batch =>
          match withKeys with
          | Err e => fail (be_canceled env) e [] j
          | Ok addrKRs =>
              let chunks := chunkSyncBuilderBatch batch maxBuildMem in
              match chunkDivide (br_child req) chunks j with
              | Blocked => Blocked
              | Panicked => Panicked
              | Returned (chunkedJobs, j) =>
                  match build_chunks env addrKRs 0 (zip chunkedJobs chunks) [] j with
                  | Blocked => Blocked
                  | Panicked => Panicked
                  | Returned (out, None, j) => Returned (out, j)
                  | Returned (out, Some e, j) => fail (be_canceled env) e out j
                  end
              end
          end
      end
  end.

(** ** Every message is built or recorded *)

Definition buildable (addrKRs : gmap string KR) (l : list FullMessage) : list FullMessage :=
  Filter l (could_build addrKRs).
Definition unbuildable (addrKRs : gmap string KR) (l : list FullMessage) : list FullMessage :=
  Filter l (fun v => negb (could_build addrKRs v)).
Definition ids_of (l : list FullMessage) : gset string := list_to_set (fm_ID <$> l).

(** What the stage relies on: the builder returns an update under the message's
    own ID, and the state can be stored. *)
Definition builder_ok : Prop := forall v kr r,
  BuildMessage v kr = Ok r -> res_MessageID r = fm_ID v /\ is_Some (res_Update r).
Definition state_reliable : Prop := forall ids p,
  (AddFailedMessageID ids p).2 = None /\ (RemFailedMessageID ids p).2 = None.

Lemma Filter_fmap_ext {A B} (f : A -> B) (l : list A) p q :
  (forall x, p (f x) = q x) -> Filter (f <$> l) p = f <$> Filter l q.
Proof.
  intros Hpq. induction l as [|x l IH]; [done|]. cbn [fmap list_fmap Filter]. rewrite Hpq, IH.
  by destruct (q x).
Qed.

Lemma build_one_built addrKRs v :
  builder_ok -> was_built (build_one addrKRs v) = could_build addrKRs v.
Proof.
  intros Hb. unfold build_one, could_build, was_built.
  destruct (addrKRs !! _) as [kr|]; [|done]. destruct (BuildMessage v kr) as [r|e] eqn:Hr; [|done].
  destruct (Hb v kr r Hr) as [_ [u ->]]. done.
Qed.

Lemma buildable_ids addrKRs chunk :
  builder_ok ->
  res_MessageID <$> (build_one addrKRs <$> buildable addrKRs chunk) = fm_ID <$> buildable addrKRs chunk.
Proof.
  intros Hb. rewrite <- list_fmap_compose. apply list_fmap_ext. intros i v Hv.
  apply list_elem_of_lookup_2, elem_of_Filter in Hv as [_ Hv]. unfold could_build in Hv.
  unfold build_one. simpl. destruct (addrKRs !! _) as [kr|]; [|done].
  destruct (BuildMessage v kr) as [r|e] eqn:Hr; [|done]. by apply (Hb v kr r).
Qed.

Lemma record_failed_spec `{!StateProviderLaws} addrKRs chunk p :
  state_reliable ->
  failedIDs (status_of (record_failed addrKRs (fun _ => true) chunk p)) =
  failedIDs (status_of p) ∪ ids_of (unbuildable addrKRs chunk).
Proof.
  intros Hr. unfold record_failed, unbuildable, ids_of. revert p. induction chunk as [|v chunk IH]; intros p.
  { simpl. set_solver. }
  simpl. rewrite IH. destruct (could_build addrKRs v); simpl; [done|].
  destruct (AddFailedMessageID [fm_ID v] p) as [p' e] eqn:Ha.
  assert (e = None) as -> by (by destruct (Hr [fm_ID v] p) as [He _]; rewrite Ha in He).
  apply AddFailedMessageID_law in Ha as [Ha _]. simpl. rewrite Ha. simpl. set_solver.
Qed.

Lemma ids_of_app l l' : ids_of (l ++ l') = ids_of l ∪ ids_of l'.
Proof. unfold ids_of. by rewrite fmap_app, list_to_set_app_L. Qed.

Lemma elem_of_ids_of x l : x ∈ ids_of l <-> exists v, v ∈ l /\ fm_ID v = x.
Proof.
  unfold ids_of. rewrite elem_of_list_to_set, list_elem_of_fmap. naive_solver.
Qed.

(** With distinct IDs no message is both built and recorded as failed. *)
Lemma built_unbuilt_disjoint addrKRs l :
  NoDup (fm_ID <$> l) -> ids_of (buildable addrKRs l) ## ids_of (unbuildable addrKRs l).
Proof.
  intros Hnd x. rewrite !elem_of_ids_of. intros (v & Hv & <-) (w & Hw & Hid).
  apply elem_of_Filter in Hv as [Hv Hbv]. apply elem_of_Filter in Hw as [Hw Hbw].
  assert (v = w) as ->.
  { apply list_elem_of_lookup in Hv as [a Ha], Hw as [b Hb].
    assert (a = b) as ->; [|congruence].
    apply (NoDup_lookup _ _ _ (fm_ID v) Hnd); rewrite list_lookup_fmap; [by rewrite Ha|by rewrite Hb, <- Hid]. }
  by rewrite Hbv in Hbw.
Qed.

Definition env_ok (env : build_env) : Prop :=
  (forall i, be_map env i = None) /\ (forall i, be_produce env i = None) /\ (forall i, be_cancel env i = false).

Definition applied (addrKRs : gmap string KR) (w : childJob * list FullMessage) : ApplyRequest U :=
  mkApplyRequest w.1 (build_one addrKRs <$> buildable addrKRs w.2).

Definition failed_after (addrKRs : gmap string KR) (l : list FullMessage) (f : gset string) : gset string :=
  (f ∖ ids_of (buildable addrKRs l)) ∪ ids_of (unbuildable addrKRs l).

(** The state after one chunk. *)
Lemma chunk_state `{!StateProviderLaws} addrKRs chunk p :
  builder_ok -> state_reliable -> NoDup (fm_ID <$> chunk) ->
  failedIDs (status_of
    (match build_one addrKRs <$> buildable addrKRs chunk with
     | [] => record_failed addrKRs (fun _ => true) chunk p
     | _ => (RemFailedMessageID (res_MessageID <$> (build_one addrKRs <$> buildable addrKRs chunk))
               (record_failed addrKRs (fun _ => true) chunk p)).1
     end)) = failed_after addrKRs chunk (failedIDs (status_of p)).
Proof.
  intros Hb Hr Hnd. assert (Hd := built_unbuilt_disjoint addrKRs chunk Hnd).
  assert (Hrec := record_failed_spec addrKRs chunk p Hr). unfold failed_after.
  set (q := record_failed addrKRs (fun _ => true) chunk p) in *.
  assert (Hids := buildable_ids addrKRs chunk Hb).
  destruct (build_one addrKRs <$> buildable addrKRs chunk) as [|s0 ss] eqn:Hs.
  - rewrite Hrec. apply fmap_nil_inv in Hs. rewrite Hs. unfold ids_of at 2. simpl. set_solver.
  - rewrite Hids. destruct (RemFailedMessageID (fm_ID <$> buildable addrKRs chunk) q) as [q' e] eqn:Hq.
    assert (e = None) as -> by (by destruct (Hr (fm_ID <$> buildable addrKRs chunk) q) as [_ He]; rewrite Hq in He).
    apply RemFailedMessageID_law in Hq as [Hq _]. simpl. rewrite Hq, Hrec.
    fold (ids_of (buildable addrKRs chunk)). set_solver.
Qed.

Lemma failed_after_app addrKRs l l' f :
  NoDup (fm_ID <$> (l ++ l')) ->
  failed_after addrKRs l' (failed_after addrKRs l f) = failed_after addrKRs (l ++ l') f.
Proof.
  intros Hnd. assert (Hd := built_unbuilt_disjoint addrKRs (l ++ l') Hnd). unfold failed_after.
  unfold buildable, unbuildable in *. rewrite !Filter_app, !ids_of_app in *. set_solver.
Qed.

Lemma build_chunks_spec `{!StateProviderLaws} env addrKRs idx work out j :
  builder_ok -> state_reliable -> env_ok env -> j_cancelled j = None ->
  NoDup (fm_ID <$> mjoin work.*2) ->
  exists j', build_chunks env addrKRs idx work out j =
      Returned (out ++ (applied addrKRs <$> work), None, j') /\
    failedIDs (status_of (j_state j')) =
      failed_after addrKRs (mjoin work.*2) (failedIDs (status_of (j_state j))) /\
    j_jw j' = j_jw j /\ j_cancelled j' = None /\ j_cache j' = j_cache j.
Proof.
  intros Hb Hr (Hmap & Hprod & Hcan). revert idx out j.
  induction work as [|[child chunk] work IH]; intros idx out j Hj Hnd.
  { exists j. rewrite app_nil_r. split; [done|]. split; [|done]. unfold failed_after, ids_of. simpl. set_solver. }
  cbn [build_chunks]. rewrite Hcan. unfold checkCancelled. rewrite Hj, Hmap, Hprod. cbv zeta.
  rewrite (Filter_fmap_ext (build_one addrKRs) chunk was_built (could_build addrKRs))
    by (intros v; by apply build_one_built).
  fold (buildable addrKRs chunk). simpl in Hnd. assert (Hnd' := Hnd). rewrite fmap_app in Hnd.
  apply NoDup_app in Hnd as (Hnd1 & _ & Hnd2).
  assert (Hst := chunk_state addrKRs chunk (j_state j) Hb Hr Hnd1).
  match type of Hst with failedIDs (status_of ?p) = _ => set (p' := p) in * end.
  destruct (IH (S idx) (out ++ [applied addrKRs (child, chunk)]) (c_onStageCompleted child (with_state p' j)))
    as (j' & Hrun & Hf & Hw & Hc & Hca); [done|done|].
  exists j'. rewrite <- app_assoc in Hrun. split; [exact Hrun|]. split; [|done].
  rewrite Hf. simpl. rewrite Hst. by apply failed_after_app.
Qed.

Lemma chunks_length (chunks : list (list FullMessage)) :
  Forall (fun c => c <> []) chunks -> (length chunks <= length (mjoin chunks))%nat.
Proof.
  induction 1 as [|c chunks Hc Hcs IH]; simpl; [lia|]. rewrite length_app. destruct c; simpl; [done|lia].
Qed.

Lemma applied_messages addrKRs (jobs : list childJob) (chunks : list (list FullMessage)) :
  length jobs = length chunks ->
  mjoin (ar_messages <$> (applied addrKRs <$> zip jobs chunks)) =
  build_one addrKRs <$> buildable addrKRs (mjoin chunks).
Proof.
  revert chunks. induction jobs as [|c jobs IH]; intros [|ch chunks] Hl; simpl in *; [done|done|done|].
  unfold buildable in *. rewrite Filter_app, fmap_app. f_equal. apply IH. lia.
Qed.

Lemma zip_last {A B} (l : list A) x (k : list B) :
  length (l ++ [x]) = length k ->
  exists front c, zip (l ++ [x]) k = front ++ [(x, c)] /\ length front = length l.
Proof.
  rewrite length_app. simpl. intros Hl. destruct k as [|c k _] using rev_ind; [simpl in Hl; lia|].
  rewrite length_app in Hl. simpl in Hl. exists (zip l k), c. rewrite zip_with_app by lia.
  split; [done|]. rewrite length_zip. lia.
Qed.

(** The division of a batch that is not empty, chunk by chunk. *)
Lemma divide_batch child batch maxMem (j : job) :
  batch <> [] -> running (j_jw j) -> jw_total (j_jw j) + Z.of_nat (length batch) < 2 ^ 62 ->
  let chunks := chunkSyncBuilderBatch batch maxMem in
  exists jobs x, chunkDivide child chunks j =
      Returned (jobs ++ [x], job_plus (Z.of_nat (length chunks) - 1) j) /\
    length (jobs ++ [x]) = length chunks /\ lastMessageID x = lastMessageID child.
Proof.
  intros Hne Hr Hb chunks.
  destruct (chunkSyncBuilderBatch_chunks batch maxMem) as (Hj & Hnil & _). fold chunks in Hj, Hnil.
  assert (Hlen := chunks_length chunks Hnil). rewrite Hj in Hlen. clearbody chunks.
  destruct chunks as [|c cs _] using rev_ind; [by subst|].
  rewrite Forall_app in Hnil. rewrite length_app in *. simpl in *.
  destruct (chunkDivide_children child cs c j) as (front & Hd & Hf); [tauto|done|lia|].
  exists front. eexists. split; [rewrite Hd; unfold job_plus; repeat f_equal; lia|].
  split; [rewrite length_app; simpl; by rewrite (Forall2_length _ _ _ Hf)|]. by destruct (decide (cs = [])).
Qed.

(** Building a request when nothing is cancelled: the stage neither panics
    nor blocks; the apply requests it sends hold, in order, the result of every
    message that could be built, and the last of them carries the request's last
    message; the messages that could not be built are exactly the ones added to the
    failed messages of the sync state, the built ones are removed from it; and the
    job's waiter counts one more task for every extra request. *)
Theorem build_request_complete `{!StateProviderLaws} maxMem env addrKRs child batch (j : job) :
  builder_ok -> state_reliable -> env_ok env ->
  NoDup (fm_ID <$> batch) ->
  job_ok (Z.of_nat (length batch)) j ->
  exists reqs x j',
    build_request maxMem env (Ok addrKRs) (mkBuildRequest child batch) j = Returned (reqs ++ [x], j') /\
    mjoin (ar_messages <$> (reqs ++ [x])) = build_one addrKRs <$> buildable addrKRs batch /\
    lastMessageID (ar_child x) = lastMessageID child /\
    failedIDs (status_of (j_state j')) = failed_after addrKRs batch (failedIDs (status_of (j_state j))) /\
    j_jw j' = waiter_plus (Z.of_nat (length reqs)) (j_jw j) /\ j_cancelled j' = None.
Proof.
  intros Hb Hr Henv Hnd Hj. unfold build_request, checkCancelled. rewrite (proj1 Hj).
  cbn [br_batch br_child]. destruct (decide (batch = [])) as [->|Hne].
  { destruct Henv as (_ & -> & _). exists []. do 2 eexists. split; [done|]. split; [done|]. split; [done|].
    split; [unfold failed_after, ids_of; simpl; set_solver|]. simpl. split; [|by destruct Hj].
    unfold waiter_plus. rewrite Z.add_0_r. by destruct (j_jw j). }
  destruct (divide_batch child batch maxMem j) as (jobs & x & Hd & Hl & Hx);
    [done|by destruct Hj as (_ & ? & _)|by destruct Hj as (_ & _ & ?)|].
  destruct (chunkSyncBuilderBatch_chunks batch maxMem) as [Hjoin _].
  destruct batch as [|b0 batch]; [done|]. cbv zeta in *. rewrite Hd.
  set (chunks := chunkSyncBuilderBatch (b0 :: batch) maxMem) in *.
  assert (Hsnd : (zip (jobs ++ [x]) chunks).*2 = chunks) by (apply snd_zip; lia).
  destruct (build_chunks_spec env addrKRs 0 (zip (jobs ++ [x]) chunks) []
    (job_plus (Z.of_nat (length chunks) - 1) j)) as (j' & -> & Hf & Hw & Hc & _);
    [done|done|done|by destruct Hj|by rewrite Hsnd, Hjoin|].
  rewrite Hsnd, Hjoin in Hf. simpl app.
  destruct (zip_last jobs x chunks Hl) as (front & c & Hz & Hlf).
  assert (Ham := applied_messages addrKRs (jobs ++ [x]) chunks Hl). rewrite Hjoin in Ham.
  rewrite Hz in Ham |- *. rewrite fmap_app in Ham |- *. cbn [fmap list_fmap] in Ham |- *.
  eexists _, _, j'. split; [reflexivity|]. split; [exact Ham|]. split; [exact Hx|]. split; [exact Hf|].
  split; [|done]. rewrite Hw, length_fmap, Hlf, <- Hl, length_app. simpl. f_equal. lia.
Qed.

End build.

(** ** Witnesses *)

(** A builder that builds every message but "m2". *)
Definition ex_build (v : FullMessage) (kr : unit) : result string (BuildResult unit) :=
  if String.eqb (fm_ID v) "m2" then Err "bad"%string else Ok (mkResult "a" (fm_ID v) (Some tt)).

Lemma build_request_complete_witness :
  exists reqs x j',
    @build_request string unit unit pure_provider ex_build 1
      (mkBuildEnv "canceled" (fun _ => None) (fun _ => true) (fun _ => None) (fun _ => false))
      (Ok {["a"%string := tt]}) (mkBuildRequest (mkChild "m3" 3 [] []) [ex_full "m1"; ex_full "m2"; ex_full "m3"])
      (@NewJob string pure_provider DefaultStatus newDownloadCache) = Returned (reqs ++ [x], j') /\
    failedIDs (j_state j') = {["m2"%string]}.
Proof.
  destruct (@build_request_complete string unit unit pure_provider ex_build pure_provider_laws 1
    (mkBuildEnv "canceled" (fun _ => None) (fun _ => true) (fun _ => None) (fun _ => false))
    {["a"%string := tt]} (mkChild "m3" 3 [] []) [ex_full "m1"; ex_full "m2"; ex_full "m3"]
    (@NewJob string pure_provider DefaultStatus newDownloadCache)) as (reqs & x & j' & Hrun & _ & _ & Hf & _).
  - intros v kr r. unfold ex_build. destruct (String.eqb _ _); [done|]. intros [= <-]. split; [done|eauto].
  - done.
  - done.
  - apply (bool_decide_unpack _). vm_compute. exact I.
  - split; [reflexivity|]. split; [split; reflexivity|]. reflexivity.
  - exists reqs, x, j'. split; [exact Hrun|]. simpl in Hf. rewrite Hf. vm_compute. reflexivity.
Defined.
