(* ===== verification/SyncPipeline.v ===== *)
(** * The sync pipeline (internal/services/syncservice/stage_apply.go and the
      composition of the stages)

    The apply stage, and the four stages put together: each is a goroutine that
    takes one request at a time from its input channel and sends its results to the
    next.  The file models the interleavings of the stages working on one job as a
    step relation and shows that the job's waiter always counts exactly the work
    that is still in the pipeline. *)

From S2P Require Import Prelude.
From S2P Require Import SyncInterfaces.
From S2P Require Import SyncJob.
From S2P Require Import Network.
From S2P Require Import SyncMetadata.
From S2P Require Import SyncDownload.
From S2P Require Import SyncBuild.

Section pipeline.
Context {E KR U : Type} `{APIErrors E} `{StateProvider} `{Parallel E}.
Context (inject : providerErr -> E) (canceled : E).
Abbreviation job := (@Job E _).

(** ** The apply stage *)

(** One turn of the loop of [ApplyStage.run] on a consumed request; [applyErr] is
    what [ApplySyncUpdates] returns on it. *)
Definition apply_request (applyErr : option E) (req : ApplyRequest U) (j : job) : option job :=
  '(isCancelled, j) ← checkCancelled j;
  if (isCancelled : bool) then Some j
  else match ar_messages req with
       | [] => onFinished inject canceled (ar_child req) j
       | _ => match applyErr with
              | Some e => onError canceled e j
              | None => onFinished inject canceled (ar_child req) j
              end
       end.

(** ** The waiter during the stages *)

(** One for a present value. *)
Definition one_if {A} (o : option A) : Z := match o with Some _ => 1 | None => 0 end.

(** The waiter counts [n] tasks. *)
Definition counts (n : Z) (w : @jobWaiter E) : Prop :=
  jw_total w = n /\ jw_done w = (n <=? 0).

Lemma counts_eq n m w : counts n w -> n = m -> counts m w.
Proof. by intros ? <-. Qed.

Lemma finished_counts n err (j : job) :
  counts n (j_jw j) -> 0 < n < 2 ^ 62 ->
  exists j', jw_send (onTaskFinished err) j = Some j' /\ counts (n - 1) (j_jw j') /\
    j_cancelled j' = j_cancelled j.
Proof.
  intros [Ht Hd] Hn. unfold jw_send, onTaskFinished, sendMessage. rewrite Hd, (proj2 (Z.leb_gt n 0)) by lia.
  eexists. split; [reflexivity|]. simpl. rewrite Ht, i64_id by (unfold i64_ok; lia). by repeat split.
Qed.

Lemma created_counts n id k (j : job) :
  counts n (j_jw j) -> 0 < n < 2 ^ 62 ->
  exists j', newChildJob id k j = Some (mkChild id k [] [], j') /\ counts (n + 1) (j_jw j') /\
    j_cancelled j' = j_cancelled j.
Proof.
  intros [Ht Hd] Hn. unfold newChildJob, jw_send, onTaskCreated, sendMessage.
  rewrite Hd, (proj2 (Z.leb_gt n 0)) by lia. eexists. split; [reflexivity|]. simpl.
  rewrite Ht, i64_id by (unfold i64_ok; lia). by repeat split.
Qed.

Lemma onError_counts c n e (j : job) :
  counts n (j_jw j) -> 0 < n < 2 ^ 62 ->
  exists j', onError c e j = Some j' /\ counts (n - 1) (j_jw j') /\ is_Some (j_cancelled j').
Proof.
  intros Hc Hn. unfold onError.
  destruct (finished_counts n (Some e) (j_cancel c j)) as (j' & -> & Hc' & Hj'); [exact Hc|done|].
  exists j'. split; [done|]. split; [done|]. rewrite Hj'. simpl. destruct (j_cancelled j); eauto.
Qed.

(** A cancelled job gives up the request; another one is untouched. *)
Lemma checkCancelled_counts n (j : job) :
  counts n (j_jw j) -> 0 < n < 2 ^ 62 ->
  (exists j', checkCancelled j = Some (true, j') /\ counts (n - 1) (j_jw j')) \/
  (j_cancelled j = None /\ checkCancelled j = Some (false, j)).
Proof.
  intros Hc Hn. unfold checkCancelled. destruct (j_cancelled j) as [e|]; [left|by right].
  destruct (finished_counts n (Some e) j) as (j' & -> & Hc' & _); [done..|]. by exists j'.
Qed.

Lemma onFinished_counts n child (j : job) :
  counts n (j_jw j) -> 0 < n < 2 ^ 62 ->
  exists j', onFinished inject canceled child j = Some j' /\ counts (n - 1) (j_jw j').
Proof.
  intros Hc Hn. unfold onFinished, onJobFinished.
  destruct (SetLastMessageID _ _ _) as [p [err|]].
  - destruct (onError_counts canceled n (inject err) (with_state p j)) as (j' & -> & Hc' & _); [done..|].
    eexists. split; [reflexivity|]. done.
  - destruct (finished_counts n None (OnProgress (messageCount child) (with_state p j)))
      as (j' & -> & Hc' & _); [done..|]. eexists. split; [reflexivity|]. done.
Qed.

(** *** Every stage keeps the count *)

Lemma apply_request_counts n applyErr req (j : job) :
  counts n (j_jw j) -> 0 < n < 2 ^ 62 ->
  exists j', apply_request applyErr req j = Some j' /\ counts (n - 1) (j_jw j').
Proof.
  intros Hc Hn. unfold apply_request.
  destruct (checkCancelled_counts n j Hc Hn) as [(j' & -> & Hc')|[_ ->]]; simpl; [eauto|].
  destruct (ar_messages req); [by apply onFinished_counts|].
  destruct applyErr as [e|]; [|by apply onFinished_counts].
  destruct (onError_counts canceled n e j Hc Hn) as (j' & -> & ? & _). eauto.
Qed.

Section stages.
Variable GetMessageMetadataPage : Z -> Z -> MessageFilter -> result E (list MessageMetadata).
Variable client_GetMessage : string -> result E Message.
Variable client_GetAttachmentInto : string -> result E string.
Variable BuildMessage : FullMessage -> KR -> result E (BuildResult U).

Lemma make_request_counts n ids more m (j : job) :
  counts n (j_jw j) -> 0 < n < 2 ^ 62 ->
  exists req j', make_request ids more m j = NextOut req more m j' /\ dr_ids req = ids /\
    j_cancelled j' = j_cancelled j /\ counts (n + 1) (j_jw j').
Proof.
  intros Hc Hn. unfold make_request.
  destruct (created_counts n (default ""%string (last ids)) (Z.of_nat (length ids)) j) as (j' & -> & Hc' & Hj');
    [done..|]. eauto 10.
Qed.

Lemma scan_cut_nonempty maxMem maxMessages rest ids size ids' r :
  scan maxMem maxMessages rest ids size = ScanCut ids' r -> ids' <> [].
Proof.
  revert ids size. induction rest as [|x rest IH]; intros ids size; simpl; [done|].
  destruct (_ || _); [destruct ids; by intros [= <- <-]|apply IH].
Qed.

(** [Next] on a job that is not cancelled: an error, or a request with a new task
    for it unless it is empty. *)
Definition next_counts (n : Z) (j : job) (r : nextResult) : Prop :=
  (exists e m', r = NextErr e m' j) \/
  (exists req more m' j', r = NextOut req more m' j' /\ j_cancelled j' = None /\
     counts (if decide (dr_ids req = []) then n else n + 1) (j_jw j')).

Lemma make_request_next n ids more m (j : job) :
  counts n (j_jw j) -> 0 < n < 2 ^ 62 -> j_cancelled j = None -> ids <> [] ->
  next_counts n j (make_request ids more m j).
Proof.
  intros Hc Hn Hj Hids. destruct (make_request_counts n ids more m j Hc Hn) as (req & j' & -> & Hr & Hj' & Hc').
  right. exists req, more, m, j'. split; [done|]. split; [congruence|]. by rewrite decide_False by congruence.
Qed.

Lemma Next_counts n fuel maxMem pageSize maxMessages m (j : job) :
  counts n (j_jw j) -> 0 < n < 2 ^ 62 -> j_cancelled j = None ->
  Next GetMessageMetadataPage fuel maxMem pageSize maxMessages m j = NextFuel \/
  next_counts n j (Next GetMessageMetadataPage fuel maxMem pageSize maxMessages m j).
Proof.
  intros Hc Hn Hj. revert m. induction fuel as [|fuel IH]; intros m; [by left|]. cbn [Next]. rewrite Hj.
  destruct (refill _ _ m) as [m'|e]; [|right; left; eauto].
  destruct (mi_remaining m') as [|m0 r].
  - right. destruct (mi_downloadReqIDs m') eqn:Hids; [right; by exists zeroRequest, false, m', j|].
    by apply make_request_next.
  - destruct (scan _ _ _ _ _) as [ids rem|ids size] eqn:Hs; [|apply IH].
    right. apply make_request_next; [done..|]. by eapply scan_cut_nonempty.
Qed.

Lemma download_request_counts n maxP env request (j : job) :
  counts n (j_jw j) -> 0 < n < 2 ^ 62 ->
  exists r j', download_request client_GetMessage client_GetAttachmentInto maxP env request j = Some (r, j') /\
    counts (n - 1 + one_if r) (j_jw j').
Proof.
  intros Hc Hn. unfold download_request.
  destruct (checkCancelled_counts n j Hc Hn) as [(j' & -> & Hc')|[_ ->]]; cbn [mbind option_bind].
  { exists None, j'. rewrite Z.add_0_r. done. }
  destruct (autoDownloadRate _ _ _ _ _ _) as [[result|e] t]; cbn [fst];
    [destruct (autoDownloadRate _ _ _ _ _ _) as [[data|e] t']; cbn [fst]; cbv zeta;
     [destruct (de_produce env) as [e|]|]|].
  2: { eexists _, _. split; [reflexivity|]. cbn [one_if].
       replace (n - 1 + 1) with n by lia. exact Hc. }
  all: match goal with |- context [onError ?c ?err ?k] =>
         destruct (onError_counts c n err k) as (j' & -> & Hc' & _); [exact Hc|exact Hn|] end.
  all: exists None, j'; rewrite Z.add_0_r; done.
Qed.

Lemma metadata_turn_counts n maxMem pageSize maxMessages m (j : job) :
  counts n (j_jw j) -> 0 < n < 2 ^ 62 - 1 ->
  exists r m' j',
    metadata_turn GetMessageMetadataPage maxMem pageSize maxMessages canceled None m j = Turn r m' j' /\
    counts (n - 1 + one_if r + one_if m') (j_jw j').
Proof.
  intros Hc Hn. unfold metadata_turn, turn_end. destruct (j_cancelled j) as [e|] eqn:Hj.
  { destruct (finished_counts n None j) as (j' & Hf & Hc' & _); [done|lia|]. unfold j_end. rewrite Hf.
    exists None, None, j'. split; [done|]. simpl. by rewrite !Z.add_0_r. }
  assert (Hfuel : Next GetMessageMetadataPage (S (S (Z.to_nat maxMessages))) maxMem pageSize maxMessages m j <> NextFuel)
    by (apply Next_returns; lia).
  destruct (Next_counts n (S (S (Z.to_nat maxMessages))) maxMem pageSize maxMessages m j)
    as [?|[(e & m' & ->)|(req & more & m' & j' & -> & Hj' & Hc')]]; [done|lia|done|done| |]; clear Hfuel.
  { destruct (onError_counts canceled n e j) as (j' & -> & Hc' & _); [done|lia|].
    exists None, None, j'. split; [done|]. simpl. by rewrite !Z.add_0_r. }
  destruct (dr_ids req) as [|id ids] eqn:Hids; [rewrite decide_True in Hc' by done|rewrite decide_False in Hc' by done].
  - destruct more.
    + exists None, (Some m'), j'. split; [done|]. cbn [one_if].
      by replace (n - 1 + 0 + 1) with n by lia.
    + destruct (finished_counts n None j') as (j'' & Hf & Hc'' & _); [done|lia|]. unfold j_end. rewrite Hf.
      exists None, None, j''. split; [done|]. simpl. by rewrite !Z.add_0_r.
  - destruct more.
    + exists (Some req), (Some m'), (c_onStageCompleted (dr_child req) j'). split; [done|]. cbn [one_if].
      by replace (n - 1 + 1 + 1) with (n + 1) by lia.
    + destruct (finished_counts (n + 1) None (c_onStageCompleted (dr_child req) j')) as (j'' & Hf & Hc'' & _);
        [done|lia|]. unfold j_end. rewrite Hf. exists (Some req), None, j''. split; [done|].
      cbn [one_if]. by replace (n - 1 + 1 + 0) with (n + 1 - 1) by lia.
Qed.

Lemma checkCancelled_true (j j' : job) :
  checkCancelled j = Some (true, j') -> is_Some (j_cancelled j) /\ j_cancelled j' = j_cancelled j.
Proof.
  unfold checkCancelled, jw_send. destruct (j_cancelled j) eqn:Hj; [|done].
  destruct (onTaskFinished _ _); simpl; [|done]. intros [= <-]. simpl. eauto.
Qed.

Lemma cancel_all_counts n k (j : job) :
  counts n (j_jw j) -> Z.of_nat k <= n < 2 ^ 62 -> is_Some (j_cancelled j) ->
  exists j', cancel_all k j = Returned j' /\ counts (n - Z.of_nat k) (j_jw j').
Proof.
  revert n j. induction k as [|k IH]; intros n j Hc Hn Hj; cbn [cancel_all].
  { exists j. by rewrite Z.sub_0_r. }
  destruct (checkCancelled_counts n j) as [(j' & He & Hc')|[Hnone _]]; [done|lia| |by rewrite Hnone in Hj; destruct Hj].
  rewrite He. apply checkCancelled_true in He as [_ Hj'].
  destruct (IH (n - 1) j') as (j'' & -> & Hc''); [done|lia|by rewrite Hj'|].
  exists j''. split; [done|]. by replace (n - Z.of_nat (S k)) with (n - 1 - Z.of_nat k) by lia.
Qed.

(** The outputs of the stages accept every request. *)
Definition outputs_ok (env : @build_env E) : Prop :=
  (forall i, be_map env i = None) /\ (forall i, be_produce env i = None).

Lemma build_chunks_counts env addrKRs idx work out n (j : job) :
  outputs_ok env -> counts n (j_jw j) -> Z.of_nat (length work) <= n < 2 ^ 62 ->
  exists new j', build_chunks BuildMessage env addrKRs idx work out j = Returned (out ++ new, None, j') /\
    counts (n - Z.of_nat (length work) + Z.of_nat (length new)) (j_jw j').
Proof.
  intros [Hmap Hprod]. revert idx out j. induction work as [|[child chunk] work IH]; intros idx out j Hc Hn.
  { exists [], j. rewrite app_nil_r. simpl. by rewrite Z.sub_0_r, Z.add_0_r. }
  cbn [build_chunks length] in *. rewrite Hmap, Hprod.
  set (j1 := if be_cancel env idx then _ else j).
  assert (Hc1 : counts n (j_jw j1)) by (subst j1; by destruct (be_cancel env idx)).
  clearbody j1. destruct (checkCancelled_counts n j1) as [(j' & He & Hc')|[_ ->]]; [done|lia| |].
  - rewrite He. apply checkCancelled_true in He as [Hj1 Hj'].
    destruct (cancel_all_counts (n - 1) (length work) j') as (j'' & -> & Hc''); [done|lia|by rewrite Hj'|].
    exists [], j''. rewrite app_nil_r. split; [done|]. simpl length. cbn [length].
    by replace (n - Z.of_nat (S (length work)) + Z.of_nat 0) with (n - 1 - Z.of_nat (length work)) by lia.
  - match goal with |- context [build_chunks _ _ _ _ _ (out ++ [?r]) ?k] =>
      destruct (IH (S idx) (out ++ [r]) k) as (new & j' & -> & Hc'); [exact Hc1|lia|];
      exists (r :: new), j' end.
    rewrite <- app_assoc. split; [done|]. cbn [length].
    by replace (n - Z.of_nat (S (length work)) + Z.of_nat (S (length new)))
      with (n - Z.of_nat (length work) + Z.of_nat (length new)) by lia.
Qed.

Lemma build_request_counts n maxMem env withKeys req (j : job) :
  outputs_ok env -> counts n (j_jw j) -> 0 < n -> n + Z.of_nat (length (br_batch req)) < 2 ^ 62 ->
  exists reqs j', build_request BuildMessage maxMem env withKeys req j = Returned (reqs, j') /\
    counts (n - 1 + Z.of_nat (length reqs)) (j_jw j').
Proof.
  intros Henv Hc Hn Hb. unfold build_request.
  destruct (checkCancelled_counts n j Hc) as [(j' & -> & Hc')|[Hj ->]]; [lia| |].
  { exists [], j'. simpl. by rewrite Z.add_0_r. }
  destruct (br_batch req) as [|b0 batch] eqn:Hbatch.
  { destruct Henv as [_ ->]. eexists _, _. split; [reflexivity|]. cbn [length].
    by replace (n - 1 + Z.of_nat 1) with n by lia. }
  destruct withKeys as [addrKRs|e].
  2: { unfold fail. destruct (onError_counts (be_canceled env) n e j) as (j' & -> & Hc' & _); [done|lia|].
       exists [], j'. simpl. by rewrite Z.add_0_r. }
  destruct Hc as [Ht Hd]. rewrite (proj2 (Z.leb_gt n 0)) in Hd by lia.
  destruct (divide_batch (br_child req) (b0 :: batch) maxMem j) as (jobs & x & -> & Hl & _);
    [done|split; [done|lia]|rewrite Ht; exact Hb|]. cbv zeta.
  set (chunks := chunkSyncBuilderBatch (b0 :: batch) maxMem) in *.
  assert (Hlen : (length chunks <= length (b0 :: batch))%nat).
  { destruct (chunkSyncBuilderBatch_chunks (b0 :: batch) maxMem) as (Hjoin & Hne & _).
    apply chunks_length in Hne. by rewrite Hjoin in Hne. }
  assert (Hlz : length (zip (jobs ++ [x]) chunks) = length chunks) by (rewrite length_zip; lia).
  assert (Hc1 : (1 <= length chunks)%nat) by (rewrite <- Hl, length_app; simpl; lia).
  destruct (build_chunks_counts env addrKRs 0 (zip (jobs ++ [x]) chunks) [] (n + (Z.of_nat (length chunks) - 1))
    (job_plus (Z.of_nat (length chunks) - 1) j)) as (new & j' & -> & Hc'); [done| |rewrite Hlz; lia|].
  { split; simpl; [by rewrite Ht|]. rewrite Hd. symmetry. apply Z.leb_gt. lia. }
  exists new, j'. split; [done|]. rewrite Hlz in Hc'.
  by replace (n - 1 + Z.of_nat (length new))
    with (n + (Z.of_nat (length chunks) - 1) - Z.of_nat (length chunks) + Z.of_nat (length new)) by lia.
Qed.

(** ** The stages together *)

(** The goroutine of the metadata stage, unless it has ended, the three channels
    and the job. *)
Record pipeline : Type := mkPipeline {
  p_meta : option metadataIterator;
  p_download : list DownloadRequest;
  p_build : list BuildRequest;
  p_apply : list (ApplyRequest U);
  p_job : job
}.

(** What can happen next: a turn of one of the stages, with what its surroundings
    do, or a cancellation of the job's context from outside. *)
Inductive event : Type :=
| EvMetadata (maxDownloadMem metadataPageSize maxMessages : Z)
| EvDownload (maxParallelDownloads : Z) (env : @download_env E)
| EvBuild (maxBuildMem : Z) (env : @build_env E) (withKeys : result E (gmap string KR))
| EvApply (applyErr : option E)
| EvCancel.

(** [None] when the stage has nothing to do. *)
Definition exec_event (ev : event) (s : pipeline) : option (outcome pipeline) :=
  let '(mkPipeline meta dl bl ap j) := s in
  match ev with
  | EvMetadata mem pageSize maxMessages =>
      match meta with
      | None => None
      | Some m =>
          match metadata_turn GetMessageMetadataPage mem pageSize maxMessages canceled None m j with
          | Turn req m' j' => Some (Returned (mkPipeline m' (dl ++ option_list req) bl ap j'))
          | TurnBlocked => Some Blocked
          | TurnFuel => Some Blocked
          end
      end
  | EvDownload maxP env =>
      match dl with
      | [] => None
      | req :: dl' =>
          match download_request client_GetMessage client_GetAttachmentInto maxP env req j with
          | Some (r, j') => Some (Returned (mkPipeline meta dl' (bl ++ option_list r) ap j'))
          | None => Some Blocked
          end
      end
  | EvBuild mem env withKeys =>
      match bl with
      | [] => None
      | req :: bl' =>
          match build_request BuildMessage mem env withKeys req j with
          | Returned (rs, j') => Some (Returned (mkPipeline meta dl bl' (ap ++ rs) j'))
          | Blocked => Some Blocked
          | Panicked => Some Panicked
          end
      end
  | EvApply applyErr =>
      match ap with
      | [] => None
      | req :: ap' =>
          match apply_request applyErr req j with
          | Some j' => Some (Returned (mkPipeline meta dl bl ap' j'))
          | None => Some Blocked
          end
      end
  | EvCancel => Some (Returned (mkPipeline meta dl bl ap (j_cancel canceled j)))
  end.

(** The outputs accept the requests of the metadata and build stages. *)
Definition event_ok (ev : event) : Prop :=
  match ev with EvBuild _ env _ => outputs_ok env | _ => True end.

(** The work in the pipeline: the goroutine of the metadata stage and every queued
    request. *)
Definition in_flight (s : pipeline) : Z :=
  one_if (p_meta s) + Z.of_nat (length (p_download s)) + Z.of_nat (length (p_build s))
  + Z.of_nat (length (p_apply s)).

(** The counters do not leave the range of [int]. *)
Definition small (s : pipeline) : Prop :=
  in_flight s + 1 < 2 ^ 62 /\
  Forall (fun r => in_flight s + Z.of_nat (length (br_batch r)) < 2 ^ 62) (p_build s).

Inductive reachable : pipeline -> Prop :=
| reach_start m j : j_jw j = jw_begin -> reachable (mkPipeline (Some m) [] [] [] j)
| reach_step ev s s' :
    reachable s -> small s -> event_ok ev -> exec_event ev s = Some (Returned s') -> reachable s'.

Lemma length_option_list {A} (o : option A) : Z.of_nat (length (option_list o)) = one_if o.
Proof. by destruct o. Qed.

(** A turn of a stage keeps the balance. *)
Lemma exec_event_counts ev s :
  small s -> event_ok ev -> counts (in_flight s) (j_jw (p_job s)) ->
  match exec_event ev s with
  | None => True
  | Some r => exists s', r = Returned s' /\ counts (in_flight s') (j_jw (p_job s'))
  end.
Proof.
  destruct s as [meta dl bl ap j]. unfold small, in_flight. simpl. intros [Hsm Hsb] Hev Hc.
  destruct ev as [mem ps mm|maxP env|mem env keys|ae|]; simpl.
  - destruct meta as [m|]; [|done].
    destruct (metadata_turn_counts _ mem ps mm m j Hc) as (r & m' & j' & -> & Hc'); [simpl in *; lia|].
    eexists. split; [reflexivity|]. simpl in *. rewrite length_app, Nat2Z.inj_add, length_option_list.
    eapply counts_eq; [exact Hc'|lia].
  - destruct dl as [|req dl]; [done|]. cbn [length] in *. assert (0 <= one_if meta) by (destruct meta; simpl; lia).
    destruct (download_request_counts _ maxP env req j Hc) as (r & j' & -> & Hc'); [lia|].
    eexists. split; [reflexivity|]. simpl. rewrite length_app, Nat2Z.inj_add, length_option_list.
    eapply counts_eq; [exact Hc'|lia].
  - destruct bl as [|req bl]; [done|]. cbn [length] in *. assert (0 <= one_if meta) by (destruct meta; simpl; lia).
    apply Forall_cons in Hsb as [Hb _].
    destruct (build_request_counts _ mem env keys req j Hev Hc) as (rs & j' & -> & Hc'); [lia|lia|].
    eexists. split; [reflexivity|]. simpl. rewrite length_app, Nat2Z.inj_add.
    eapply counts_eq; [exact Hc'|lia].
  - destruct ap as [|req ap]; [done|]. cbn [length] in *. assert (0 <= one_if meta) by (destruct meta; simpl; lia).
    destruct (apply_request_counts _ ae req j Hc) as (j' & -> & Hc'); [lia|].
    eexists. split; [reflexivity|]. simpl. eapply counts_eq; [exact Hc'|lia].
  - eexists. split; [reflexivity|]. exact Hc.
Qed.

Lemma reachable_counts s : reachable s -> counts (in_flight s) (j_jw (p_job s)).
Proof.
  induction 1 as [m j Hj|ev s s' Hr IH Hsm Hev He].
  - simpl. rewrite Hj. done.
  - assert (Hx := exec_event_counts ev s Hsm Hev IH). rewrite He in Hx. by destruct Hx as (? & [= <-] & ?).
Qed.


End stages.


End pipeline.

(** ** Witness and examples *)

(** A server with the mailbox of [SyncMetadata], errors being statuses. *)
Definition page_server (page n : Z) (f : MessageFilter) : result Z (list MessageMetadata) :=
  Ok (take (Z.to_nat n) (if String.eqb (EndID f) "" then ex_mailbox else drop_until (EndID f) ex_mailbox)).

Definition build_all (v : FullMessage) (kr : unit) : result Z (BuildResult unit) :=
  Ok (mkResult "a" (fm_ID v) (Some tt)).

Definition start_job : @Job Z pure_provider := NewJob (H := pure_provider) DefaultStatus newDownloadCache.

Abbreviation ex_exec := (@exec_event Z unit unit {| api_status := Some |} pure_provider sequential
  (fun e => match e with end) 0 page_server ex_GetMessage (fun id => Ok id) build_all).

Definition ex_state : option (outcome pipeline) :=
  ex_exec (EvMetadata 100 2 2) (mkPipeline (Some (mkIterator "" [] [] 0)) [] [] [] start_job).


(** The metadata stage cannot hand over a request: nothing of the job is left, but
    its waiter still counts one task and is not done. *)
Lemma metadata_output_failure_leaks :
  match @metadata_turn Z pure_provider page_server 100 2 2 0 (Some 7) (mkIterator "" [] [] 0) start_job with
  | Turn None None j' => jw_total (j_jw j') = 1 /\ jw_done (j_jw j') = false
  | _ => False
  end.
Proof. vm_compute. by split. Qed.

(** The build stage cannot hand over the first of two chunks: the second one is
    neither sent nor reported as finished. *)
Lemma build_output_failure_leaks :
  match @build_request Z unit unit pure_provider build_all 0
      (mkBuildEnv 0 (fun _ => None) (fun _ => true) (fun _ => Some 7) (fun _ => false))
      (Ok {["a"%string := tt]}) (mkBuildRequest (mkChild "m2" 2 [] []) [ex_full "m1"; ex_full "m2"]) start_job with
  | Returned ([], j') => jw_total (j_jw j') = 1 /\ jw_done (j_jw j') = false
  | _ => False
  end.
Proof. vm_compute. by split. Qed.
