(* ===== verification/SyncHandler.v ===== *)
(** * The sync handler (internal/services/syncservice/handler.go)

    The handler runs the sync of one user: the labels, the message count and the
    messages, each recorded in the sync state once done, retried until it succeeds
    or is cancelled.  It is verified against the interface of the sync state. *)

From S2P Require Import Prelude.
From S2P Require Import Api.
From S2P Require Import SyncInterfaces.

Definition NumSyncStages : Z := 4.

(** The count of the first group for "All Mail", or zero. *)
Fixpoint allMailTotal (messageCounts : list (string * Z)) : Z :=
  match messageCounts with
  | [] => 0
  | (LabelID, Total) :: rest => if String.eqb LabelID AllMailLabel then i64 Total else allMailTotal rest
  end.

Section handler.
Context {E : Type} `{StateProvider} (inject : providerErr -> E).

(** What the handler asks others to do, in order. *)
Inductive action : Type :=
| ASyncLabels
| AInitProgress (current total : Z)
| ASyncMessages.

(** The outside of one attempt: the result of [SyncLabels], of the retried API
    call for the counts, and of the message sync (starting the job and waiting for
    it), which works on the sync state. *)
Record attempt : Type := mkAttempt {
  at_SyncLabels : option E;
  at_counts : result E (list (string * Z));
  at_SyncMessages : provider -> provider * option E
}.

(** One step of [run] that may return early: the state, the actions so far and the
    error, if any. *)
Abbreviation progress := (provider * list action * option E)%type.

Definition and_then (r : progress) (f : provider -> list action -> progress) : progress :=
  match r with
  | (p, log, None) => f p log
  | _ => r
  end.

Definition of_provider (r : provider * option providerErr) (log : list action) : progress :=
  (r.1, log, inject <$> r.2).

Definition run_labels (a : attempt) (syncStatus : Status) (p : provider) (log : list action) : progress :=
  if negb (HasLabels syncStatus) then
    match at_SyncLabels a with
    | Some e => (p, log ++ [ASyncLabels], Some e)
    | None => of_provider (SetHasLabels true p) (log ++ [ASyncLabels])
    end
  else (p, log, None).

(** The new local copy of the status comes with the result. *)
Definition run_counts (a : attempt) (syncStatus : Status) (p : provider) (log : list action)
    : progress * Status :=
  if negb (HasMessageCount syncStatus) then
    match at_counts a with
    | Err e => ((p, log, Some e), syncStatus)
    | Ok messageCounts =>
        let totalMessageCount := allMailTotal messageCounts in
        (of_provider (SetMessageCount totalMessageCount p) log,
         mkStatus (HasLabels syncStatus) (HasMessages syncStatus) (HasMessageCount syncStatus)
           (FailedMessages syncStatus) (LastSyncedMessageID syncStatus) (NumSyncedMessages syncStatus)
           totalMessageCount (StartSyncEventID syncStatus))
    end
  else ((p, log, None), syncStatus).

Definition run_messages (a : attempt) (syncStatus : Status) (p : provider) (log : list action) : progress :=
  let log := log ++ [AInitProgress (i64 (NumSyncedMessages syncStatus * NumSyncStages))
                       (i64 (TotalMessageCount syncStatus * NumSyncStages))] in
  if negb (HasMessages syncStatus) then
    match at_SyncMessages a p with
    | (p, Some e) => (p, log ++ [ASyncMessages], Some e)
    | (p, None) => of_provider (SetHasMessages true p) (log ++ [ASyncMessages])
    end
  else (p, log, None).

Definition run (a : attempt) (p : provider) : progress :=
  match GetSyncStatus p with
  | Err e => (p, [], Some (inject e))
  | Ok syncStatus =>
      if IsComplete syncStatus then (p, [ASyncLabels], at_SyncLabels a)
      else
        and_then (run_labels a syncStatus p []) (fun p log =>
          let '(r, syncStatus) := run_counts a syncStatus p log in
          and_then r (fun p log => run_messages a syncStatus p log))
  end.

(** ** The retry loop of [Execute] *)

Inductive report : Type := OnStart | OnFinished | OnError (e : E).

(** [ctx i] is the context's error before the [i]-th attempt.  The result is what
    the reporter was told and the error sent to the channel of finished syncs. *)
Fixpoint execute_loop (fuel : nat) (ctx : nat -> option E) (attempts : nat -> attempt) (i : nat)
    (p : provider) : option (option E * provider) :=
  match fuel with
  | O => None
  | S fuel' =>
      match ctx i with
      | Some e => Some (Some e, p)
      | None =>
          match run (attempts i) p with
          | (p', _, None) => Some (None, p')
          | (p', _, Some _) => execute_loop fuel' ctx attempts (S i) p'
          end
      end
  end.

Definition Execute (fuel : nat) (ctx : nat -> option E) (attempts : nat -> attempt) (p : provider)
    : option (list report * option E * provider) :=
  match execute_loop fuel ctx attempts 0 p with
  | None => None
  | Some (Some e, p') => Some ([OnStart; OnError e], Some e, p')
  | Some (None, p') => Some ([OnStart; OnFinished], None, p')
  end.

(** ** Correctness *)

(** The message sync only records progress: it leaves what is known of labels and
    counts alone. *)
Definition messages_frame (a : attempt) : Prop := forall p p' err,
  at_SyncMessages a p = (p', err) -> HasLabels (status_of p') = HasLabels (status_of p).

Lemma of_provider_None r log p' log' : of_provider r log = (p', log', None) -> r = (p', None) /\ log' = log.
Proof. destruct r as [p [e|]]; unfold of_provider; simpl; [done|]. by intros [= <- <-]. Qed.

Lemma run_labels_ok `{!StateProviderLaws} a st p p' log :
  st = status_of p -> run_labels a st p [] = (p', log, None) ->
  HasLabels (status_of p') = true /\ HasMessages (status_of p') = HasMessages st /\
  log = (if HasLabels st then [] else [ASyncLabels]).
Proof.
  intros ->. unfold run_labels. destruct (HasLabels (status_of p)) eqn:Hl; simpl; [by intros [= <- <-]|].
  destruct (at_SyncLabels a); [done|]. intros [H1 ->]%of_provider_None.
  apply SetHasLabels_law in H1. by rewrite H1.
Qed.

Lemma run_counts_ok `{!StateProviderLaws} a st p log p' log' st' :
  run_counts a st p log = ((p', log', None), st') ->
  HasLabels (status_of p') = HasLabels (status_of p) /\ HasMessages (status_of p') = HasMessages (status_of p) /\
  HasMessages st' = HasMessages st /\ log' = log.
Proof.
  unfold run_counts. destruct (HasMessageCount st); simpl; [by intros [= <- <- <-]|].
  destruct (at_counts a) as [c|e]; [|done]. intros [= Hp Hl He <-].
  destruct (SetMessageCount (allMailTotal c) p) as [p1 [e|]] eqn:Hs; [done|]. simpl in Hp. subst p1.
  apply SetMessageCount_law in Hs. by rewrite Hs.
Qed.

Lemma run_complete_aux `{!StateProviderLaws} a p p' log :
  messages_frame a -> run a p = (p', log, None) ->
  IsComplete (status_of p') = true /\
  (if IsComplete (status_of p) then log = [ASyncLabels]
   else exists n t, log = (if HasLabels (status_of p) then [] else [ASyncLabels]) ++ [AInitProgress n t] ++
                          (if HasMessages (status_of p) then [] else [ASyncMessages])).
Proof.
  intros Hfr. unfold run. destruct (GetSyncStatus p) as [st|e] eqn:Hg; [|done].
  apply GetSyncStatus_law in Hg as ->. destruct (IsComplete (status_of p)) eqn:Hc; [by intros [= <- <-]|].
  destruct (run_labels a (status_of p) p []) as [[p1 log1] [e|]] eqn:Hl; [done|]. cbn [and_then].
  apply run_labels_ok in Hl as (Hl1 & Hm1 & ->); [|done].
  destruct (run_counts a (status_of p) p1 _) as [[[p2 log2] [e|]] st2] eqn:Hrc; [done|]. cbn [and_then].
  apply run_counts_ok in Hrc as (Hl2 & Hm2 & Hst2 & ->). unfold run_messages. rewrite Hst2.
  destruct (HasMessages (status_of p)) eqn:Hm; simpl.
  - intros [= <- <-]. split; [|eauto]. unfold IsComplete. by rewrite Hl2, Hl1, Hm2, Hm1.
  - destruct (at_SyncMessages a p2) as [p3 [e|]] eqn:Hs; [done|]. intros [H3 ->]%of_provider_None.
    apply Hfr in Hs. apply SetHasMessages_law in H3. unfold IsComplete. rewrite H3. simpl.
    rewrite Hs, Hl2, Hl1. split; [done|]. do 2 eexists. by rewrite <- app_assoc.
Qed.

(** C22: An attempt that returns no error leaves a complete sync state; it has
    synced the labels, unless an earlier attempt had recorded them and the messages
    were still missing, always before it started on the messages, and it has synced
    the messages unless they were recorded. *)
Theorem run_complete `{!StateProviderLaws} a p p' log :
  messages_frame a -> run a p = (p', log, None) ->
  IsComplete (status_of p') = true /\
  (if IsComplete (status_of p) then log = [ASyncLabels]
   else exists n t, log = (if HasLabels (status_of p) then [] else [ASyncLabels]) ++ [AInitProgress n t] ++
                          (if HasMessages (status_of p) then [] else [ASyncMessages])).
Proof. apply run_complete_aux. Qed.

Lemma execute_loop_result fuel ctx attempts i p err q :
  execute_loop fuel ctx attempts i p = Some (err, q) ->
  match err with
  | None => exists k q0 log, (k < i + fuel)%nat /\ ctx k = None /\ run (attempts k) q0 = (q, log, None)
  | Some e => exists k, (k < i + fuel)%nat /\ ctx k = Some e
  end.
Proof.
  revert i p. induction fuel as [|fuel IH]; intros i p; [done|]. cbn [execute_loop].
  destruct (ctx i) as [e|] eqn:Hc; [intros [= <- <-]; exists i; split; [lia|done]|].
  destruct (run (attempts i) p) as [[p1 log] [e|]] eqn:Hr.
  - intros Hl. apply IH in Hl. rewrite Nat.add_succ_comm in Hl. exact Hl.
  - intros [= <- <-]. exists i, p, log. split; [lia|done].
Qed.

Lemma execute_loop_ends fuel ctx attempts i k p :
  (k < fuel)%nat -> (forall n, (n <= i + k)%nat -> ctx n = None) ->
  (forall q, exists q' log, run (attempts (i + k)%nat) q = (q', log, None)) ->
  exists p', execute_loop fuel ctx attempts i p = Some (None, p').
Proof.
  revert i k p. induction fuel as [|fuel IH]; intros i k p Hk Hc Hr; [lia|]. cbn [execute_loop].
  rewrite Hc by lia. destruct (run (attempts i) p) as [[p1 log] [e|]] eqn:Hi; [|eauto].
  destruct k as [|k].
  - rewrite Nat.add_0_r in Hr. destruct (Hr p) as (q' & log' & Hq). congruence.
  - apply (IH (S i) k); [lia| |].
    + intros n Hn. apply Hc. lia.
    + by rewrite Nat.add_succ_comm.
Qed.

(** The sync loop ends with an error only when the context was cancelled, and
    then reports that error; when it ends without one, an attempt succeeded, the
    reporter was told of the start and once of the finish, and the sync state is
    complete.  It does end, without an error, when the context is not cancelled
    before an attempt that succeeds. *)
Theorem Execute_result `{!StateProviderLaws} fuel ctx attempts p :
  (forall i, messages_frame (attempts i)) ->
  (forall reports err p', Execute fuel ctx attempts p = Some (reports, err, p') ->
     match err with
     | None => reports = [OnStart; OnFinished] /\ IsComplete (status_of p') = true /\
               exists k q log, (k < fuel)%nat /\ ctx k = None /\ run (attempts k) q = (p', log, None)
     | Some e => reports = [OnStart; OnError e] /\ exists k, (k < fuel)%nat /\ ctx k = Some e
     end) /\
  (forall k, (k < fuel)%nat -> (forall n, (n <= k)%nat -> ctx n = None) ->
     (forall q, exists q' log, run (attempts k) q = (q', log, None)) ->
     exists p', Execute fuel ctx attempts p = Some ([OnStart; OnFinished], None, p')).
Proof.
  intros Hfr. unfold Execute. split.
  - intros reports err p'. destruct (execute_loop fuel ctx attempts 0 p) as [[err' q]|] eqn:He; [|done].
    apply execute_loop_result in He. destruct err' as [e|]; intros [= <- <- <-]; [done|].
    destruct He as (k & q0 & log & Hk & Hck & Hr). split; [done|].
    split; [by apply run_complete_aux in Hr as [? _]|]. by exists k, q0, log.
  - intros k Hk Hc Hr. destruct (execute_loop_ends fuel ctx attempts 0 k p) as [p' ->]; eauto.
Qed.

End handler.

(** ** Witnesses *)

Definition ex_attempt (fails : bool) : @attempt string pure_provider :=
  @mkAttempt string pure_provider None (Ok [("0", 7); ("5", 12)]%string)
    (fun s => (s, if fails then Some "bad"%string else None)).

Lemma run_complete_witness :
  exists p' log, @run string pure_provider (fun _ => ""%string) (ex_attempt false) DefaultStatus = (p', log, None) /\
    IsComplete p' = true.
Proof.
  do 2 eexists. split; [reflexivity|].
  apply (@run_complete string pure_provider (fun _ => ""%string) pure_provider_laws (ex_attempt false)
    DefaultStatus _ _ ltac:(intros p p' err [= <- _]; reflexivity) eq_refl).
Defined.

Lemma Execute_result_witness :
  exists p', @Execute string pure_provider (fun _ => ""%string) 2 (fun _ => None)
    (fun i => ex_attempt (i =? 0)%nat) DefaultStatus = Some ([OnStart; OnFinished], None, p').
Proof.
  refine (proj2 (@Execute_result string pure_provider (fun _ => ""%string) pure_provider_laws 2 (fun _ => None)
    (fun i => ex_attempt (i =? 0)%nat) DefaultStatus _) 1%nat _ _ _).
  - intros i p p' err [= <- _]. reflexivity.
  - lia.
  - reflexivity.
  - intros [[] [] [] f l n t e]; do 2 eexists; reflexivity.
Defined.
