(* ===== verification/Json.v ===== *)
(** * The part of Go's encoding/json the sync state uses

    Documents without arrays and fractions: a printer that writes what
    [json.Marshal] writes for structs, maps, booleans, integers and strings, a
    parser, and the proof that the parser reads back every printed document.
    Strings are bytes; the escapes are those of [json.Marshal] for ASCII text, and
    bytes from 128 on, which it passes through when they are valid UTF-8, are
    passed through. *)

From Stdlib Require Import Ascii.
From S2P Require Import Prelude.

(* The libraries' [string_scope] is open for the literals of this file. *)
#[local] Open Scope string_scope.
#[local] Open Scope char_scope.
#[local] Open Scope Z_scope.

Inductive json : Type :=
| JNull
| JBool (b : bool)
| JNum (z : Z)
| JStr (s : string)
| JObj (members : list (string * json)).

(** ** Strings *)

Definition quote : ascii := "034"%char.
Definition backslash : ascii := "092"%char.

Definition hex_digit (n : nat) : ascii :=
  if (n <? 10)%nat then ascii_of_nat (48 + n) else ascii_of_nat (87 + n).

Definition hex_value (c : ascii) : option nat :=
  let n := nat_of_ascii c in
  if (48 <=? n)%nat && (n <=? 57)%nat then Some (n - 48)%nat
  else if (97 <=? n)%nat && (n <=? 102)%nat then Some (n - 87)%nat
  else if (65 <=? n)%nat && (n <=? 70)%nat then Some (n - 55)%nat
  else None.

(** The escape [\u00XX]. *)
Definition unicode_escape (c : ascii) (s : string) : string :=
  let n := nat_of_ascii c in
  String backslash (String "u" (String "0" (String "0"
    (String (hex_digit (n / 16)) (String (hex_digit (n mod 16)) s))))).

Definition quote_char (c : ascii) (s : string) : string :=
  let n := nat_of_ascii c in
  let esc e := String backslash (String e s) in
  if (n =? 34)%nat then esc quote
  else if (n =? 92)%nat then esc backslash
  else if (n =? 8)%nat then esc "b"%char
  else if (n =? 12)%nat then esc "f"%char
  else if (n =? 10)%nat then esc "n"%char
  else if (n =? 13)%nat then esc "r"%char
  else if (n =? 9)%nat then esc "t"%char
  else if (n <? 32)%nat || (n =? 38)%nat || (n =? 60)%nat || (n =? 62)%nat then unicode_escape c s
  else String c s.

(** The characters of a literal, up to and with its closing quote. *)
Fixpoint quote_body (s rest : string) : string :=
  match s with
  | EmptyString => String quote rest
  | String c s' => quote_char c (quote_body s' rest)
  end.

Definition unescape (e : ascii) : option ascii :=
  let n := nat_of_ascii e in
  if (n =? 34)%nat then Some quote
  else if (n =? 92)%nat then Some backslash
  else if (n =? 47)%nat then Some "/"%char
  else if (n =? 98)%nat then Some (ascii_of_nat 8)
  else if (n =? 102)%nat then Some (ascii_of_nat 12)
  else if (n =? 110)%nat then Some (ascii_of_nat 10)
  else if (n =? 114)%nat then Some (ascii_of_nat 13)
  else if (n =? 116)%nat then Some (ascii_of_nat 9)
  else None.

Definition hex_code (a b c d : ascii) : option nat :=
  a ← hex_value a; b ← hex_value b; c ← hex_value c; d ← hex_value d;
  Some (((a * 16 + b) * 16 + c) * 16 + d)%nat.

Definition cons_char (c : ascii) (r : string * string) : string * string := (String c r.1, r.2).

(** A literal after its opening quote: its value and what follows it.  Escapes of
    code points beyond ASCII are not read. *)
Fixpoint unquote (s : string) : option (string * string) :=
  match s with
  | EmptyString => None
  | String c s' =>
      if Ascii.eqb c quote then Some (EmptyString, s')
      else if Ascii.eqb c backslash then
        match s' with
        | EmptyString => None
        | String e s'' =>
            if Ascii.eqb e "u" then
              match s'' with
              | String h1 (String h2 (String h3 (String h4 s3))) =>
                  match hex_code h1 h2 h3 h4 with
                  | Some n => if (n <? 128)%nat then cons_char (ascii_of_nat n) <$> unquote s3 else None
                  | None => None
                  end
              | _ => None
              end
            else match unescape e with
                 | Some c' => cons_char c' <$> unquote s''
                 | None => None
                 end
        end
      else if (nat_of_ascii c <? 32)%nat then None
      else cons_char c <$> unquote s'
  end.

Lemma unquote_quote_char c t : unquote (quote_char c t) = cons_char c <$> unquote t.
Proof. destruct c as [[] [] [] [] [] [] [] []]; reflexivity. Qed.

Lemma unquote_quote_body s rest : unquote (quote_body s rest) = Some (s, rest).
Proof. induction s as [|c s IH]; simpl; [done|]. by rewrite unquote_quote_char, IH. Qed.

(** ** Numbers *)

Definition digit (n : Z) : ascii := ascii_of_nat (48 + Z.to_nat n).

(** The digits of a non-negative number before [acc]; the fuel bounds their
    number. *)
Fixpoint print_digits (fuel : nat) (n : Z) (acc : string) : string :=
  match fuel with
  | O => acc
  | S fuel' =>
      let acc := String (digit (n mod 10)) acc in
      if n <? 10 then acc else print_digits fuel' (n / 10) acc
  end.

Definition print_Z (z : Z) (rest : string) : string :=
  let n := Z.abs z in
  let s := print_digits (S (Z.to_nat (Z.log2 n))) n rest in
  if z <? 0 then String "-" s else s.

Definition digit_value (c : ascii) : option Z :=
  let n := nat_of_ascii c in
  if (48 <=? n)%nat && (n <=? 57)%nat then Some (Z.of_nat (n - 48)) else None.

Fixpoint parse_digits (s : string) (acc : Z) : Z * string :=
  match s with
  | String c s' => match digit_value c with Some d => parse_digits s' (10 * acc + d) | None => (acc, s) end
  | EmptyString => (acc, s)
  end.

Definition starts_with_digit (s : string) : bool :=
  match s with String c _ => match digit_value c with Some _ => true | None => false end | _ => false end.

Definition parse_number (s : string) : option (Z * string) :=
  match s with
  | String c s' =>
      if Ascii.eqb c "-" then
        if starts_with_digit s' then Some (let '(n, r) := parse_digits s' 0 in (- n, r)) else None
      else if starts_with_digit s then Some (parse_digits s 0) else None
  | EmptyString => None
  end.

Lemma digit_value_digit n : 0 <= n < 10 -> digit_value (digit n) = Some n.
Proof.
  intros Hn. destruct n as [|p|p]; [reflexivity| |lia].
  do 4 (destruct p as [p|p|]; try reflexivity; try lia).
Qed.

Lemma parse_print_digits fuel n acc :
  0 <= n < 2 ^ Z.of_nat fuel -> (0 < fuel)%nat ->
  exists k, 0 <= k /\ forall a,
    parse_digits (print_digits fuel n acc) a = parse_digits acc (a * 10 ^ k + n) /\
    starts_with_digit (print_digits fuel n acc) = true.
Proof.
  revert n acc. induction fuel as [|fuel IH]; intros n acc Hn Hf; [lia|]. cbn [print_digits].
  assert (Hd : 0 <= n mod 10 < 10) by (apply Z.mod_pos_bound; lia).
  assert (Hv := digit_value_digit (n mod 10) Hd).
  destruct (Z.ltb_spec n 10) as [Hlt|Hge].
  - exists 1. split; [lia|]. intros a. cbn [parse_digits starts_with_digit]. rewrite Hv.
    split; [|done]. apply (f_equal (parse_digits acc)).
    rewrite Z.mod_small by lia. lia.
  - assert (Hlt' : n / 10 < 2 ^ Z.of_nat fuel).
    { apply Z.div_lt_upper_bound; [lia|]. rewrite Nat2Z.inj_succ, Z.pow_succ_r in Hn by lia. lia. }
    assert (Hf' : (0 < fuel)%nat).
    { destruct fuel; [|lia]. simpl in Hn. lia. }
    destruct (IH (n / 10) (String (digit (n mod 10)) acc)) as (k & Hk & IHk); [|done|].
    { split; [apply Z.div_pos; lia|done]. }
    exists (k + 1). split; [lia|]. intros a. destruct (IHk a) as [IHa Hs]. split; [|done].
    rewrite IHa. cbn [parse_digits]. rewrite Hv. apply (f_equal (parse_digits acc)).
    rewrite Z.pow_add_r, Z.pow_1_r by lia. assert (n = 10 * (n / 10) + n mod 10) by (apply Z.div_mod; lia). lia.
Qed.

Lemma parse_print_Z z rest :
  starts_with_digit rest = false -> parse_number (print_Z z rest) = Some (z, rest).
Proof.
  intros Hr. unfold print_Z.
  set (fuel := S (Z.to_nat (Z.log2 (Z.abs z)))).
  assert (Hb : 0 <= Z.abs z < 2 ^ Z.of_nat fuel).
  { subst fuel. split; [lia|]. destruct (Z.eq_dec (Z.abs z) 0) as [->|Hz]; [simpl; lia|].
    rewrite Nat2Z.inj_succ, Z2Nat.id by apply Z.log2_nonneg. apply Z.log2_spec. lia. }
  destruct (parse_print_digits fuel (Z.abs z) rest Hb) as (k & Hk & Hp); [subst fuel; lia|].
  destruct (Hp 0) as [Hv Hs]. rewrite Z.mul_0_l, Z.add_0_l in Hv.
  assert (Hend : parse_digits rest (Z.abs z) = (Z.abs z, rest)).
  { destruct rest as [|c rest]; [done|]. simpl in Hr |- *. by destruct (digit_value c). }
  rewrite Hend in Hv. clearbody fuel. destruct (Z.ltb_spec z 0) as [Hneg|Hpos].
  - simpl. rewrite Hs, Hv. do 2 f_equal. lia.
  - destruct (print_digits fuel (Z.abs z) rest) as [|c s] eqn:Hd; [done|].
    unfold parse_number. destruct (Ascii.eqb_spec c "-") as [->|_]; [done|].
    rewrite Hs, Hv. do 2 f_equal. lia.
Qed.

(** ** Documents *)

Definition is_space (c : ascii) : bool :=
  let n := nat_of_ascii c in (n =? 32)%nat || (n =? 9)%nat || (n =? 10)%nat || (n =? 13)%nat.

Fixpoint skip_spaces (s : string) : string :=
  match s with
  | String c s' => if is_space c then skip_spaces s' else s
  | EmptyString => s
  end.

(** The compact form [json.Marshal] writes, before [rest]. *)
Fixpoint print_json (j : json) (rest : string) : string :=
  match j with
  | JNull => "null" +:+ rest
  | JBool true => "true" +:+ rest
  | JBool false => "false" +:+ rest
  | JNum z => print_Z z rest
  | JStr s => String quote (quote_body s rest)
  | JObj ms =>
      String "{"
        ((fix go (ms : list (string * json)) (first : bool) : string :=
            match ms with
            | [] => String "}" rest
            | (k, v) :: ms' =>
                let m := String quote (quote_body k (String ":" (print_json v (go ms' false)))) in
                if first then m else String "," m
            end) ms true)
  end.

Fixpoint strip (p s : string) : option string :=
  match p, s with
  | EmptyString, _ => Some s
  | String a p', String b s' => if Ascii.eqb a b then strip p' s' else None
  | _, EmptyString => None
  end.

(** A literal: its opening quote, then [unquote]. *)
Definition parse_literal (s : string) : option (string * string) :=
  match s with
  | String c s' => if Ascii.eqb c quote then unquote s' else None
  | EmptyString => None
  end.

(** A document without leading space, and the members of an object after its
    first brace or a comma ([first] allows the closing brace).  The fuel bounds the
    nesting and the number of members. *)
Fixpoint parse_json (fuel : nat) (s : string) : option (json * string) :=
  match fuel with
  | O => None
  | S fuel' =>
      match s with
      | EmptyString => None
      | String c s' =>
          if Ascii.eqb c "{" then
            '(ms, r) ← parse_members fuel' true (skip_spaces s'); Some (JObj ms, r)
          else if Ascii.eqb c quote then '(v, r) ← unquote s'; Some (JStr v, r)
          else if Ascii.eqb c "n" then r ← strip "null" s; Some (JNull, r)
          else if Ascii.eqb c "t" then r ← strip "true" s; Some (JBool true, r)
          else if Ascii.eqb c "f" then r ← strip "false" s; Some (JBool false, r)
          else '(z, r) ← parse_number s; Some (JNum z, r)
      end
  end
with parse_members (fuel : nat) (first : bool) (s : string) : option (list (string * json) * string) :=
  match fuel with
  | O => None
  | S fuel' =>
      match s with
      | EmptyString => None
      | String c s' =>
          if Ascii.eqb c "}" && first then Some ([], s')
          else
            '(k, s1) ← parse_literal s;
            match skip_spaces s1 with
            | String c1 s2 =>
                if Ascii.eqb c1 ":" then
                  '(v, s3) ← parse_json fuel' (skip_spaces s2);
                  match skip_spaces s3 with
                  | String c2 s4 =>
                      if Ascii.eqb c2 "," then
                        '(ms, r) ← parse_members fuel' false (skip_spaces s4); Some ((k, v) :: ms, r)
                      else if Ascii.eqb c2 "}" then Some ([(k, v)], s4)
                      else None
                  | EmptyString => None
                  end
                else None
            | EmptyString => None
            end
      end
  end.

Definition parse_document (s : string) : option json :=
  '(j, r) ← parse_json (2 * String.length s + 2) (skip_spaces s);
  match skip_spaces r with EmptyString => Some j | _ => None end.

(** ** Reading back what was printed *)

(** The members of an object after its first brace or after a comma. *)
Fixpoint print_members (ms : list (string * json)) (rest : string) : string :=
  match ms with
  | [] => String "}" rest
  | (k, v) :: ms' =>
      String quote (quote_body k (String ":" (print_json v
        (match ms' with [] => String "}" rest | _ => String "," (print_members ms' rest) end))))
  end.

Lemma print_json_obj ms rest : print_json (JObj ms) rest = String "{" (print_members ms rest).
Proof.
  cbn [print_json]. f_equal. destruct ms as [|[k v] ms]; [done|]. cbn [print_members]. do 4 f_equal.
  revert k v. induction ms as [|[k' v'] ms IH]; intros k v; [done|]. cbn [print_members]. do 5 f_equal. by apply IH.
Qed.

(** The fuel a document needs. *)
Fixpoint json_fuel (j : json) : nat :=
  match j with
  | JObj ms => S (foldr (fun m n => S (Nat.max (json_fuel m.2) n)) 1%nat ms)
  | _ => 1
  end.
Definition members_fuel (ms : list (string * json)) : nat :=
  foldr (fun m n => S (Nat.max (json_fuel m.2) n)) 1%nat ms.

Lemma print_Z_head z rest :
  exists c s, print_Z z rest = String c s /\ (c = "-"%char \/ is_Some (digit_value c)).
Proof.
  unfold print_Z. destruct (z <? 0); [eauto|].
  set (fuel := Z.to_nat _). clearbody fuel. generalize (Z.abs z), (Z.abs_nonneg z). intros n Hn.
  assert (Hg : forall fuel n acc, 0 <= n -> (exists c s, acc = String c s /\ is_Some (digit_value c)) ->
    exists c s, print_digits fuel n acc = String c s /\ is_Some (digit_value c)).
  { clear. induction fuel as [|fuel IH]; intros n acc Hn Hacc; [done|]. cbn [print_digits].
    assert (Hd : is_Some (digit_value (digit (n mod 10))))
      by (rewrite digit_value_digit by (apply Z.mod_pos_bound; lia); eauto).
    destruct (n <? 10); [eauto|]. apply IH; [apply Z.div_pos; lia|eauto]. }
  cbn [print_digits]. assert (Hd : is_Some (digit_value (digit (n mod 10))))
    by (rewrite digit_value_digit by (apply Z.mod_pos_bound; lia); eauto).
  destruct (n <? 10); [eauto|]. destruct (Hg fuel (n / 10) (String (digit (n mod 10)) rest)) as (c & s & -> & ?);
    [apply Z.div_pos; lia|eauto|eauto 10].
Qed.

(** The first character of a number is none of those that start another value, and
    not a space. *)
Lemma number_head c :
  c = "-"%char \/ is_Some (digit_value c) ->
  Ascii.eqb c "{" = false /\ Ascii.eqb c quote = false /\ Ascii.eqb c "n" = false /\
  Ascii.eqb c "t" = false /\ Ascii.eqb c "f" = false /\ is_space c = false.
Proof.
  intros Hc. destruct c as [[] [] [] [] [] [] [] []]; (done || (exfalso; destruct Hc as [Hc|[x Hc]]; discriminate Hc)).
Qed.

Lemma print_json_skip j rest : skip_spaces (print_json j rest) = print_json j rest.
Proof.
  destruct j as [|[]|z|s|ms]; try done. simpl. destruct (print_Z_head z rest) as (c & s & -> & Hc).
  apply number_head in Hc as (_ & _ & _ & _ & _ & Hs). simpl. by rewrite Hs.
Qed.

Lemma print_members_skip ms rest : skip_spaces (print_members ms rest) = print_members ms rest.
Proof. by destruct ms as [|[k v] ms]. Qed.

Lemma parse_print fuel :
  (forall j rest, (json_fuel j <= fuel)%nat -> starts_with_digit rest = false ->
     parse_json fuel (print_json j rest) = Some (j, rest)) /\
  (forall ms first rest, (members_fuel ms <= fuel)%nat -> first = true \/ ms <> [] ->
     parse_members fuel first (print_members ms rest) = Some (ms, rest)).
Proof.
  induction fuel as [|fuel [IHj IHm]].
  { split; [intros [] ? Hf; simpl in Hf; lia|]. intros [] ? ? Hf; simpl in Hf; lia. }
  split.
  - intros j rest Hf Hr. destruct j as [|b|z|s|ms].
    + done.
    + by destruct b.
    + cbn [print_json]. destruct (print_Z_head z rest) as (c & s & Hz & Hc).
      assert (Hp := parse_print_Z z rest Hr). rewrite Hz in *.
      destruct (number_head c Hc) as (H1 & H2 & H3 & H4 & H5 & _).
      cbn [parse_json]. rewrite H1, H2, H3, H4, H5, Hp. done.
    + cbn [print_json parse_json]. change (Ascii.eqb quote "{") with false. rewrite Ascii.eqb_refl.
      by rewrite unquote_quote_body.
    + rewrite print_json_obj. cbn [parse_json]. rewrite Ascii.eqb_refl, print_members_skip.
      rewrite IHm by (cbn [json_fuel] in Hf; unfold members_fuel; auto with lia). done.
  - intros ms first rest Hf Hfirst. destruct ms as [|[k v] ms].
    { destruct Hfirst as [->|?]; [|done]. done. }
    cbn [print_members]. set (tail := match ms with [] => _ | _ => _ end). cbn [parse_members].
    change (Ascii.eqb quote "}") with false. cbn [andb parse_literal]. rewrite Ascii.eqb_refl, unquote_quote_body.
    cbn [mbind option_bind]. change (skip_spaces (String ":" (print_json v tail))) with (String ":" (print_json v tail)).
    cbv iota. rewrite Ascii.eqb_refl, print_json_skip.
    unfold members_fuel in Hf. cbn [foldr snd] in Hf.
    assert (Htail : starts_with_digit tail = false) by (subst tail; by destruct ms).
    rewrite IHj by (done || lia). cbn [mbind option_bind]. subst tail. destruct ms as [|m ms]; [done|].
    change (skip_spaces (String "," (print_members (m :: ms) rest))) with (String "," (print_members (m :: ms) rest)).
    cbv iota. rewrite Ascii.eqb_refl, print_members_skip.
    rewrite IHm by (done || (unfold members_fuel; lia) || by right). done.
Qed.

(** *** The fuel of [parse_document] is enough *)

Lemma quote_char_length c s : (String.length s <= String.length (quote_char c s))%nat.
Proof.
  unfold quote_char, unicode_escape. repeat (case_match; [cbn [String.length]; lia|]). cbn [String.length]. lia.
Qed.

Lemma quote_body_length s rest : (S (String.length rest) <= String.length (quote_body s rest))%nat.
Proof.
  induction s as [|c s IH]; [done|]. cbn [quote_body]. assert (Hc := quote_char_length c (quote_body s rest)). lia.
Qed.

Lemma print_Z_length z rest : (String.length rest <= String.length (print_Z z rest))%nat.
Proof.
  assert (Hd : forall fuel n acc, (String.length acc <= String.length (print_digits fuel n acc))%nat).
  { induction fuel as [|fuel IH]; intros n acc; cbn [print_digits]; [lia|]. case_match; [simpl; lia|].
    specialize (IH (n / 10) (String (digit (n mod 10)) acc)). cbn [String.length] in IH. lia. }
  unfold print_Z. specialize (Hd (S (Z.to_nat (Z.log2 (Z.abs z)))) (Z.abs z) rest).
  case_match; cbn [String.length]; lia.
Qed.

Lemma json_fuel_length n :
  (forall j rest, (json_fuel j <= n)%nat ->
     (json_fuel j + String.length rest <= S (String.length (print_json j rest)))%nat) /\
  (forall ms rest, (members_fuel ms <= n)%nat ->
     (members_fuel ms + String.length rest <= String.length (print_members ms rest))%nat).
Proof.
  induction n as [|n [IHj IHm]]; [split; [intros [] ? Hf|intros [] ? Hf]; simpl in Hf; lia|]. split.
  - intros j rest Hf. destruct j as [|b|z|s|ms].
    + simpl. change ("" +:+ rest) with rest. lia.
    + destruct b; simpl; change ("" +:+ rest) with rest; lia.
    + cbn [json_fuel print_json]. assert (Hl := print_Z_length z rest). lia.
    + cbn [json_fuel print_json String.length]. assert (Hl := quote_body_length s rest). lia.
    + rewrite print_json_obj. cbn [json_fuel String.length] in *. fold (members_fuel ms) in *.
      specialize (IHm ms rest ltac:(lia)). lia.
  - intros [|[k v] ms] rest Hf; [simpl; lia|]. cbn [print_members]. set (tail := match ms with [] => _ | _ => _ end).
    unfold members_fuel in Hf |- *. cbn [foldr snd] in Hf |- *. fold (members_fuel ms) in *.
    assert (Hv := IHj v tail ltac:(lia)).
    assert (Ht : (members_fuel ms + String.length rest <= String.length tail)%nat).
    { subst tail. destruct ms as [|m ms]; [simpl; lia|]. specialize (IHm (m :: ms) rest ltac:(lia)).
      cbn [String.length]. lia. }
    assert (Hq := quote_body_length k (String ":" (print_json v tail))). cbn [String.length] in Hq |- *.
    assert (1 <= json_fuel v)%nat by (destruct v; simpl; lia). lia.
Qed.

(** Every printed document is read back. *)
Lemma parse_document_print j : parse_document (print_json j EmptyString) = Some j.
Proof.
  unfold parse_document. rewrite print_json_skip.
  assert (Hf := proj1 (json_fuel_length (json_fuel j)) j EmptyString ltac:(lia)).
  rewrite (proj1 (parse_print _) j EmptyString); [done| |done]. simpl in Hf. lia.
Qed.
