(* ===== verification/SyncState.v ===== *)
(** * The persistent sync state (internal/services/imapservice/sync_state_provider.go)

    The sync status is kept in memory and in a JSON file that is replaced through a
    temporary file.  The file models the file system, failures and crashes in the
    middle of a store, the operations, and shows that the state implements the
    interface the sync service relies on, that what an operation stored is what a
    restart loads, and that a crash leaves the old or the new status. *)

From S2P Require Import Prelude.
From S2P Require Import SyncInterfaces.
From S2P Require Import Json.

(** ** JSON form of the status *)

Definition SyncFileVersion : Z := 1.

(** The keys of a set in the order [json.Marshal] writes them. *)
Definition sorted_keys (s : gset string) : list string := merge_sort String.le (elements s).

Definition encode_failed (f : option (gset string)) : json :=
  match f with
  | None => JNull
  | Some s => JObj ((fun id => (id, JObj [])) <$> sorted_keys s)
  end.

Definition encode_status (st : Status) : json :=
  JObj [("HasLabels", JBool (HasLabels st)); ("HasMessages", JBool (HasMessages st));
        ("HasMessageCount", JBool (HasMessageCount st)); ("FailedMessages", encode_failed (FailedMessages st));
        ("LastSyncedMessageID", JStr (LastSyncedMessageID st));
        ("NumSyncedMessages", JNum (NumSyncedMessages st)); ("TotalMessageCount", JNum (TotalMessageCount st));
        ("StartSyncEventID", JStr (StartSyncEventID st))]%string.

(** [json.Unmarshal] into a field: [null] leaves it alone, another kind of value is
    an error. *)
Definition decode_bool (j : json) (old : bool) : option bool :=
  match j with JBool b => Some b | JNull => Some old | _ => None end.
Definition decode_string (j : json) (old : string) : option string :=
  match j with JStr s => Some s | JNull => Some old | _ => None end.
Definition decode_int64 (j : json) (old : Z) : option Z :=
  match j with
  | JNum z => if (- 2 ^ 63 <=? z) && (z <? 2 ^ 63) then Some z else None
  | JNull => Some old
  | _ => None
  end.

(** A map of empty structs: [null] makes it nil, an object adds its keys. *)
Fixpoint decode_keys (ms : list (string * json)) (s : gset string) : option (gset string) :=
  match ms with
  | [] => Some s
  | (k, v) :: ms' =>
      match v with
      | JObj _ | JNull => decode_keys ms' ({[k]} ∪ s)
      | _ => None
      end
  end.

Definition decode_failed (j : json) (old : option (gset string)) : option (option (gset string)) :=
  match j with
  | JNull => Some None
  | JObj ms => Some <$> decode_keys ms (default ∅ old)
  | _ => None
  end.

(** One member of the document; unknown ones are ignored. *)
Definition decode_field (k : string) (v : json) (st : Status) : option Status :=
  if EqualFold k "HasLabels" then (fun b => withLabels b st) <$> decode_bool v (HasLabels st)
  else if EqualFold k "HasMessages" then (fun b => withMessages b st) <$> decode_bool v (HasMessages st)
  else if EqualFold k "HasMessageCount" then
    (fun b => mkStatus (HasLabels st) (HasMessages st) b (FailedMessages st) (LastSyncedMessageID st)
                (NumSyncedMessages st) (TotalMessageCount st) (StartSyncEventID st))
    <$> decode_bool v (HasMessageCount st)
  else if EqualFold k "FailedMessages" then
    (fun f => withFailed f st) <$> decode_failed v (FailedMessages st)
  else if EqualFold k "LastSyncedMessageID" then
    (fun id => mkStatus (HasLabels st) (HasMessages st) (HasMessageCount st) (FailedMessages st) id
                 (NumSyncedMessages st) (TotalMessageCount st) (StartSyncEventID st))
    <$> decode_string v (LastSyncedMessageID st)
  else if EqualFold k "NumSyncedMessages" then
    (fun n => mkStatus (HasLabels st) (HasMessages st) (HasMessageCount st) (FailedMessages st)
                (LastSyncedMessageID st) n (TotalMessageCount st) (StartSyncEventID st))
    <$> decode_int64 v (NumSyncedMessages st)
  else if EqualFold k "TotalMessageCount" then
    (fun n => mkStatus (HasLabels st) (HasMessages st) (HasMessageCount st) (FailedMessages st)
                (LastSyncedMessageID st) (NumSyncedMessages st) n (StartSyncEventID st))
    <$> decode_int64 v (TotalMessageCount st)
  else if EqualFold k "StartSyncEventID" then
    (fun id => withStartSyncEventID id st) <$> decode_string v (StartSyncEventID st)
  else Some st.

Fixpoint decode_fields (ms : list (string * json)) (st : Status) : option Status :=
  match ms with
  | [] => Some st
  | (k, v) :: ms' => st' ← decode_field k v st; decode_fields ms' st'
  end.

(** A zero [Status], with its nil map, is where decoding starts. *)
Definition zeroStatus : Status := mkStatus false false false None "" 0 0 "".

(** [syncFileVersion1]. *)
Fixpoint decode_v1 (ms : list (string * json)) (st : Status) : option Status :=
  match ms with
  | [] => Some st
  | (k, v) :: ms' =>
      st' ← (if EqualFold k "Status" then
               match v with JObj fs => decode_fields fs st | JNull => Some st | _ => None end
             else Some st);
      decode_v1 ms' st'
  end.

Definition unmarshal_v1 (data : string) : option Status :=
  j ← parse_document data;
  match j with JObj ms => decode_v1 ms zeroStatus | JNull => Some zeroStatus | _ => None end.

Definition marshal_v1 (st : Status) : string := print_json (JObj [("Status"%string, encode_status st)]) "".

(** [syncStateFile]: version and data. *)
Fixpoint decode_file (ms : list (string * json)) (f : Z * string) : option (Z * string) :=
  match ms with
  | [] => Some f
  | (k, v) :: ms' =>
      f' ← (if EqualFold k "Version" then (fun n => (n, f.2)) <$> decode_int64 v f.1
            else if EqualFold k "Data" then (fun d => (f.1, d)) <$> decode_string v f.2
            else Some f);
      decode_file ms' f'
  end.

Definition unmarshal_file (data : string) : option (Z * string) :=
  j ← parse_document data;
  match j with JObj ms => decode_file ms (0, ""%string) | JNull => Some (0, ""%string) | _ => None end.

Definition marshal_file (version : Z) (data : string) : string :=
  print_json (JObj [("Version", JNum version); ("Data", JStr data)]%string) "".

(** ** Files *)

Abbreviation files := (gmap string string).

(** How the two steps of a store go: the write of the temporary file may fail, and
    then may have left some content in it; the rename may fail. *)
Record store_env : Type := mkEnv {
  write_fails : option (option string);
  rename_fails : bool
}.

Inductive stateErr : Type :=
| ErrWrite
| ErrRename
| ErrRead
| ErrUnmarshal
| ErrInvalidSyncFileVersion
| ErrNilMap.   (* the panic of adding to a nil map *)

Definition tmp_of (path : string) : string := path +:+ ".tmp".

Definition storeImpl (env : store_env) (st : Status) (path : string) (fs : files)
    : files * option stateErr :=
  let syncFileData := marshal_file SyncFileVersion (marshal_v1 st) in
  let tmpFile := tmp_of path in
  match write_fails env with
  | Some None => (fs, Some ErrWrite)
  | Some (Some partial) => (<[tmpFile := partial]> fs, Some ErrWrite)
  | None =>
      let fs := <[tmpFile := syncFileData]> fs in
      if rename_fails env then (fs, Some ErrRename)
      else (<[path := syncFileData]> (delete tmpFile fs), None)
  end.

(** [loadUnsafe]: the status it leaves, given the current one.  [readable] is false
    when the file exists but cannot be read. *)
Definition loadUnsafe (readable : bool) (path : string) (fs : files) (st : Status) : result stateErr Status :=
  match fs !! path with
  | None => Ok st
  | Some data =>
      if negb readable then Err ErrRead
      else match unmarshal_file data with
           | None => Err ErrUnmarshal
           | Some (version, d) =>
               if negb (version =? SyncFileVersion) then Err ErrInvalidSyncFileVersion
               else match unmarshal_v1 d with None => Err ErrUnmarshal | Some v1 => Ok v1 end
           end
  end.

(** ** The state and its operations *)

Record SyncState : Type := mkSyncState {
  filePath : string;
  status : Status;
  disk : files;
  stores : nat     (* how many stores were attempted *)
}.

Definition set_status (st : Status) (s : SyncState) : SyncState :=
  mkSyncState (filePath s) st (disk s) (stores s).

Definition NewSyncState (readable : bool) (path : string) (fs : files) : result stateErr SyncState :=
  st ← loadUnsafe readable path fs DefaultStatus; Ok (mkSyncState path st fs 0).

(** [DeleteSyncState] on the path of a user's file. *)
Definition DeleteSyncState (path : string) (fs : files) : files := delete path fs.

Section state.
(** How the n-th store goes. *)
Variable env : nat -> store_env.

Definition storeUnsafe (s : SyncState) : SyncState * option stateErr :=
  let '(fs, err) := storeImpl (env (stores s)) (status s) (filePath s) (disk s) in
  (mkSyncState (filePath s) (status s) fs (S (stores s)), err).

Definition ss_AddFailedMessageID (ids : list string) (s : SyncState) : SyncState * option stateErr :=
  match FailedMessages (status s), ids with
  | None, [] => (s, None)
  | None, _ => (s, Some ErrNilMap)
  | Some f, _ =>
      let f' := foldl (fun f id => {[id]} ∪ f) f ids in
      let s := set_status (withFailed (Some f') (status s)) s in
      if (size f =? size f')%nat then (s, None) else storeUnsafe s
  end.

Definition ss_RemFailedMessageID (ids : list string) (s : SyncState) : SyncState * option stateErr :=
  match FailedMessages (status s) with
  | None => (s, None)
  | Some f =>
      let f' := foldl (fun f id => f ∖ {[id]}) f ids in
      let s := set_status (withFailed (Some f') (status s)) s in
      if (size f =? size f')%nat then (s, None) else storeUnsafe s
  end.

Definition ss_GetSyncStatus (s : SyncState) : result stateErr Status := Ok (status s).

Definition ss_ClearSyncStatus (s : SyncState) : SyncState * option stateErr :=
  let oldStatus := status s in
  match storeUnsafe (set_status DefaultStatus s) with
  | (s, Some err) => (set_status oldStatus s, Some err)
  | (s, None) => (s, None)
  end.

Definition ss_SetHasLabels (b : bool) (s : SyncState) : SyncState * option stateErr :=
  storeUnsafe (set_status (withLabels b (status s)) s).
Definition ss_SetHasMessages (b : bool) (s : SyncState) : SyncState * option stateErr :=
  storeUnsafe (set_status (withMessages b (status s)) s).
Definition ss_SetLastMessageID (id : string) (i : Z) (s : SyncState) : SyncState * option stateErr :=
  storeUnsafe (set_status (withLastMessage id i (status s)) s).
Definition ss_SetMessageCount (i : Z) (s : SyncState) : SyncState * option stateErr :=
  storeUnsafe (set_status (withMessageCount i (status s)) s).
Definition ss_SetStartSyncEventID (id : string) (s : SyncState) : SyncState * option stateErr :=
  storeUnsafe (set_status (withStartSyncEventID id (status s)) s).

(** The file-backed state is a state provider. *)
Definition file_provider : StateProvider := {|
  provider := SyncState; providerErr := stateErr; status_of := status;
  AddFailedMessageID := ss_AddFailedMessageID; RemFailedMessageID := ss_RemFailedMessageID;
  GetSyncStatus := ss_GetSyncStatus; ClearSyncStatus := ss_ClearSyncStatus;
  SetHasLabels := ss_SetHasLabels; SetHasMessages := ss_SetHasMessages;
  SetLastMessageID := ss_SetLastMessageID; SetMessageCount := ss_SetMessageCount
|}.

End state.

(** Migration of the old vault settings: false when the file exists already. *)
Definition MigrateVaultSettings (env : store_env) (readable : bool) (filePath : string)
    (hasLabels hasMessages : bool) (failedMessageIDs : list string) (fs : files)
    : files * bool * option stateErr :=
  match fs !! filePath with
  | Some _ => if readable then (fs, false, None) else (fs, false, Some ErrRead)
  | None =>
      let st := mkStatus hasLabels hasMessages hasMessages (Some (list_to_set failedMessageIDs)) "" 0 0 "" in
      let '(fs', err) := storeImpl env st filePath fs in (fs', true, err)
  end.

(** ** A stored status is read back *)

Definition status_ok (st : Status) : Prop := i64_ok (NumSyncedMessages st) /\ i64_ok (TotalMessageCount st).

Lemma decode_int64_ok z old : i64_ok z -> decode_int64 (JNum z) old = Some z.
Proof.
  intros Hz. unfold decode_int64, i64_ok in *.
  rewrite (proj2 (Z.leb_le _ _)), (proj2 (Z.ltb_lt _ _)) by lia. done.
Qed.

Lemma decode_keys_spec ids s :
  decode_keys ((fun id => (id, JObj [])) <$> ids) s = Some (list_to_set ids ∪ s).
Proof.
  revert s. induction ids as [|id ids IH]; intros s; simpl; [f_equal; set_solver|].
  rewrite IH. f_equal. set_solver.
Qed.

Lemma decode_failed_encode f : decode_failed (encode_failed f) None = Some f.
Proof.
  destruct f as [s|]; [|done]. simpl. rewrite decode_keys_spec. simpl. do 2 f_equal.
  unfold sorted_keys. rewrite (list_to_set_perm_L (merge_sort String.le (elements s)) (elements s))
    by apply merge_sort_Permutation.
  rewrite list_to_set_elements_L. set_solver.
Qed.

Ltac eval_fields :=
  repeat match goal with
  | |- context [EqualFold ?a ?b] =>
      let r := eval vm_compute in (EqualFold a b) in change (EqualFold a b) with r; cbv iota
  end.

Lemma unmarshal_marshal_v1 st : status_ok st -> unmarshal_v1 (marshal_v1 st) = Some st.
Proof.
  intros [Hn Ht]. unfold unmarshal_v1, marshal_v1. rewrite parse_document_print.
  destruct st as [hl hm hc f id n t ev]. simpl in Hn, Ht.
  cbn [mbind option_bind decode_v1 encode_status decode_fields HasLabels HasMessages HasMessageCount FailedMessages
       LastSyncedMessageID NumSyncedMessages TotalMessageCount StartSyncEventID].
  unfold decode_field. eval_fields. unfold withLabels, withMessages, withFailed, withStartSyncEventID.
  cbn [fmap option_fmap option_map decode_bool decode_string mbind option_bind HasLabels HasMessages HasMessageCount FailedMessages
       LastSyncedMessageID NumSyncedMessages TotalMessageCount StartSyncEventID zeroStatus].
  rewrite decode_failed_encode. cbn [fmap option_fmap option_map mbind option_bind FailedMessages HasLabels HasMessages HasMessageCount
       LastSyncedMessageID NumSyncedMessages TotalMessageCount StartSyncEventID].
  rewrite decode_int64_ok by done. cbn [fmap option_fmap option_map mbind option_bind TotalMessageCount].
  rewrite decode_int64_ok by done. done.
Qed.

Lemma unmarshal_marshal_file v d : i64_ok v -> unmarshal_file (marshal_file v d) = Some (v, d).
Proof.
  intros Hv. unfold unmarshal_file, marshal_file. rewrite parse_document_print.
  cbn [mbind option_bind decode_file]. eval_fields. rewrite decode_int64_ok by done. done.
Qed.

Lemma tmp_of_ne path : tmp_of path <> path.
Proof.
  unfold tmp_of. intros He. apply (f_equal String.length) in He.
  induction path as [|c path IH]; [done|]. simpl in He. injection He as He. auto.
Qed.

(** The status a start of the service finds on disk. *)
Definition load (path : string) (fs : files) : result stateErr Status := loadUnsafe true path fs DefaultStatus.

Lemma load_stored st path fs :
  status_ok st -> fs !! path = Some (marshal_file SyncFileVersion (marshal_v1 st)) -> load path fs = Ok st.
Proof.
  intros Hs Hf. unfold load, loadUnsafe. rewrite Hf. simpl negb. cbv iota.
  rewrite unmarshal_marshal_file by done. simpl. by rewrite unmarshal_marshal_v1.
Qed.

Lemma load_ext path fs fs' : fs !! path = fs' !! path -> load path fs = load path fs'.
Proof. intros Hl. unfold load, loadUnsafe. by rewrite Hl. Qed.

(** A store that succeeds is durable, one that fails leaves the file as it was. *)
Lemma storeImpl_spec env st path fs fs' err :
  status_ok st -> storeImpl env st path fs = (fs', err) ->
  match err with None => load path fs' = Ok st | Some _ => load path fs' = load path fs end.
Proof.
  intros Hs. assert (Hne := tmp_of_ne path). unfold storeImpl.
  destruct (write_fails env) as [[partial|]|]; [intros [= <- <-]..|].
  - apply load_ext. by rewrite lookup_insert_ne.
  - done.
  - destruct (rename_fails env); intros [= <- <-].
    + apply load_ext. by rewrite lookup_insert_ne.
    + apply load_stored; [done|]. by rewrite lookup_insert_eq.
Qed.

(** ** Sequences of operations *)

Inductive op : Type :=
| OpAddFailed (ids : list string)
| OpRemFailed (ids : list string)
| OpClear
| OpHasLabels (b : bool)
| OpHasMessages (b : bool)
| OpLastMessage (id : string) (i : Z)
| OpMessageCount (i : Z)
| OpStartEvent (id : string).

(** A message count is an [int64]. *)
Definition op_ok (o : op) : Prop := match o with OpMessageCount i => i64_ok i | _ => True end.

Section runs.
Variable env : nat -> store_env.

Definition apply_op (o : op) : SyncState -> SyncState * option stateErr :=
  match o with
  | OpAddFailed ids => ss_AddFailedMessageID env ids
  | OpRemFailed ids => ss_RemFailedMessageID env ids
  | OpClear => ss_ClearSyncStatus env
  | OpHasLabels b => ss_SetHasLabels env b
  | OpHasMessages b => ss_SetHasMessages env b
  | OpLastMessage id i => ss_SetLastMessageID env id i
  | OpMessageCount i => ss_SetMessageCount env i
  | OpStartEvent id => ss_SetStartSyncEventID env id
  end.

Definition run_ops (ops : list op) (s : SyncState) : SyncState := foldl (fun s o => (apply_op o s).1) s ops.

Lemma i64_range z : i64_ok (i64 z).
Proof. unfold i64_ok, i64. assert (H := Z.mod_pos_bound (z + 2 ^ 63) two64 ltac:(done)). unfold two64 in *. lia. Qed.

(** The status in memory is changed, then stored or not. *)
Lemma storeUnsafe_spec s s' err :
  status_ok (status s) -> storeUnsafe env s = (s', err) ->
  filePath s' = filePath s /\ status s' = status s /\
  match err with
  | None => load (filePath s) (disk s') = Ok (status s')
  | Some _ => load (filePath s) (disk s') = load (filePath s) (disk s)
  end.
Proof.
  intros Hs. unfold storeUnsafe. destruct (storeImpl _ _ _ _) as [fs e] eqn:Hst. intros [= <- <-].
  split; [done|]. split; [done|]. by apply storeImpl_spec in Hst.
Qed.

(** What an operation does: the path stays, the status stays in range, and the
    disk is as before or holds the new status; when it succeeds on a state whose
    status is on disk, the new status is on disk. *)
Definition step_spec (s s' : SyncState) (err : option stateErr) : Prop :=
  filePath s' = filePath s /\ status_ok (status s') /\
  (load (filePath s) (disk s') = load (filePath s) (disk s) \/
   load (filePath s) (disk s') = Ok (status s')) /\
  (err = None -> load (filePath s) (disk s) = Ok (status s) -> load (filePath s) (disk s') = Ok (status s')).

Lemma store_step st s s' err :
  status_ok st -> storeUnsafe env (set_status st s) = (s', err) -> step_spec s s' err.
Proof.
  intros Hst Hs. apply storeUnsafe_spec in Hs as (Hp & Hs' & Hl); [|done]. simpl in *. unfold step_spec.
  split; [done|]. split; [by rewrite Hs'|]. destruct err; split; try done; auto.
Qed.

(** A change of the failed messages that does not change their number changes
    nothing. *)
Lemma failed_step f f' s s' err :
  status_ok (status s) -> FailedMessages (status s) = Some f -> f ⊆ f' \/ f' ⊆ f ->
  (if (size f =? size f')%nat then (set_status (withFailed (Some f') (status s)) s, None)
   else storeUnsafe env (set_status (withFailed (Some f') (status s)) s)) = (s', err) ->
  step_spec s s' err.
Proof.
  intros Hs Hf Hsub. destruct (Nat.eqb_spec (size f) (size f')) as [He|_]; [|by apply store_step].
  assert (f = f') as <-.
  { destruct Hsub as [Hsub|Hsub]; [|symmetry]; apply set_eq; intros x; split; [apply Hsub| |apply Hsub|];
      intros Hx; apply dec_stable; intros Hn;
      [assert (f ⊂ f') as Hlt by (split; [done|set_solver])|assert (f' ⊂ f) as Hlt by (split; [done|set_solver])];
      apply subset_size in Hlt; lia. }
  intros [= <- <-]. assert (Hw : withFailed (Some f) (status s) = status s) by (rewrite <- Hf; by destruct (status s)).
  rewrite Hw. unfold step_spec, set_status. simpl. auto.
Qed.

Lemma foldl_add ids (f : gset string) : f ⊆ foldl (fun f id => {[id]} ∪ f) f ids.
Proof. revert f. induction ids as [|id ids IH]; intros f; simpl; [done|]. specialize (IH ({[id]} ∪ f)). set_solver. Qed.

Lemma foldl_rem ids (f : gset string) : foldl (fun f id => f ∖ {[id]}) f ids ⊆ f.
Proof. revert f. induction ids as [|id ids IH]; intros f; simpl; [done|]. specialize (IH (f ∖ {[id]})). set_solver. Qed.

Lemma apply_op_spec o s s' err :
  status_ok (status s) -> op_ok o -> apply_op o s = (s', err) -> step_spec s s' err.
Proof.
  intros [Hn Ht] Ho. assert (Hs : status_ok (status s)) by done.
  destruct o as [ids|ids| |b|b|id i|i|id]; simpl.
  - unfold ss_AddFailedMessageID. destruct (FailedMessages (status s)) as [f|] eqn:Hf.
    + apply failed_step; [done|done|left; apply foldl_add].
    + destruct ids; intros [= <- <-]; unfold step_spec; naive_solver.
  - unfold ss_RemFailedMessageID. destruct (FailedMessages (status s)) as [f|] eqn:Hf.
    + apply failed_step; [done|done|right; apply foldl_rem].
    + intros [= <- <-]; unfold step_spec; naive_solver.
  - unfold ss_ClearSyncStatus. destruct (storeUnsafe env _) as [s1 [e|]] eqn:He; intros [= <- <-].
    + apply storeUnsafe_spec in He as (Hp & _ & Hl); [|done]. unfold step_spec. simpl in *. naive_solver.
    + apply (store_step DefaultStatus); [done|exact He].
  - by apply store_step.
  - by apply store_step.
  - apply store_step. split; [apply i64_range|done].
  - by apply store_step.
  - by apply store_step.
Qed.

(** C21: A restart after any sequence of operations, with stores failing in any
    place, loads the status as it was in memory after some prefix of the sequence;
    and when no operation reported an error it loads the latest status, field by
    field, through the JSON file. *)
Theorem SyncState_restart ops s :
  status_ok (status s) -> load (filePath s) (disk s) = Ok (status s) -> Forall op_ok ops ->
  (exists pre post, ops = pre ++ post /\
     load (filePath s) (disk (run_ops ops s)) = Ok (status (run_ops pre s))) /\
  ((forall pre o post, ops = pre ++ o :: post -> (apply_op o (run_ops pre s)).2 = None) ->
   load (filePath s) (disk (run_ops ops s)) = Ok (status (run_ops ops s))).
Proof.
  intros Hs Hl Hops.
  assert (Hgen : (filePath (run_ops ops s) = filePath s /\ status_ok (status (run_ops ops s))) /\
    (exists pre post, ops = pre ++ post /\ load (filePath s) (disk (run_ops ops s)) = Ok (status (run_ops pre s))) /\
    ((forall pre o post, ops = pre ++ o :: post -> (apply_op o (run_ops pre s)).2 = None) ->
     load (filePath s) (disk (run_ops ops s)) = Ok (status (run_ops ops s)))); [|by destruct Hgen].
  induction ops as [|o ops IH] using rev_ind.
  { split; [done|]. split; [|done]. by exists [], []. }
  apply Forall_app in Hops as [Hops Ho]. apply Forall_cons in Ho as [Ho _].
  destruct (IH Hops) as ((Hp & Hok) & (pre & post & -> & Hpre) & Hnone). clear IH.
  set (ops := pre ++ post) in *. destruct (apply_op o (run_ops ops s)) as [s' err] eqn:He.
  assert (Hrun : run_ops (ops ++ [o]) s = s') by (unfold run_ops in *; rewrite foldl_snoc; by rewrite He).
  apply apply_op_spec in He as He'; [|done|done]. destruct He' as (Hp' & Hok' & Hd & Hsucc).
  rewrite Hp in Hp', Hd, Hsucc. rewrite Hrun. split; [done|]. split.
  - destruct Hd as [Hd|Hd].
    + exists pre, (post ++ [o]). split; [by rewrite app_assoc|]. by rewrite Hd.
    + exists (ops ++ [o]), []. split; [by rewrite app_nil_r|]. by rewrite Hd, Hrun.
  - intros Hall. apply Hsucc.
    + specialize (Hall ops o [] eq_refl). by rewrite He in Hall.
    + apply Hnone. intros p' o' q' Heq. apply (Hall p' o' (q' ++ [o])). by rewrite Heq, <- app_assoc.
Qed.

(** The interface *)

Lemma foldl_add_eq ids (f : gset string) : foldl (fun f id => {[id]} ∪ f) f ids = f ∪ list_to_set ids.
Proof. revert f. induction ids as [|id ids IH]; intros f; simpl; [set_solver|]. rewrite IH. set_solver. Qed.

Lemma foldl_rem_eq ids (f : gset string) : foldl (fun f id => f ∖ {[id]}) f ids = f ∖ list_to_set ids.
Proof. revert f. induction ids as [|id ids IH]; intros f; simpl; [set_solver|]. rewrite IH. set_solver. Qed.

Lemma storeUnsafe_status s s' err : storeUnsafe env s = (s', err) -> status s' = status s.
Proof. unfold storeUnsafe. destruct (storeImpl _ _ _ _). by intros [= <- _]. Qed.

(** The two ways a change of the failed messages ends leave the same status. *)
Lemma failed_status (b : bool) f s s' err :
  (if b then (set_status (withFailed (Some f) (status s)) s, None)
   else storeUnsafe env (set_status (withFailed (Some f) (status s)) s)) = (s', err) ->
  status s' = withFailed (Some f) (status s).
Proof. destruct b; [by intros [= <- _]|]. intros H. by apply storeUnsafe_status in H. Qed.

(** The file-backed state implements the interface of the sync service: every
    operation that reports no error has changed exactly the fields of the status
    the interface says. *)
Theorem file_provider_laws : @StateProviderLaws (file_provider env).
Proof.
  split; simpl.
  - intros ids p p'. unfold ss_AddFailedMessageID, failedIDs.
    destruct (FailedMessages (status p)) as [f|] eqn:Hf.
    + intros H. apply failed_status in H. rewrite H, foldl_add_eq. done.
    + destruct ids; [|done]. intros [= <-]. rewrite Hf. simpl. split; [set_solver|].
      rewrite <- Hf. by destruct (status p).
  - intros ids p p'. unfold ss_RemFailedMessageID, failedIDs.
    destruct (FailedMessages (status p)) as [f|] eqn:Hf.
    + intros H. apply failed_status in H. rewrite H, foldl_rem_eq. done.
    + intros [= <-]. rewrite Hf. simpl. split; [set_solver|]. rewrite <- Hf. by destruct (status p).
  - by intros p st [= <-].
  - intros p p'. unfold ss_ClearSyncStatus. destruct (storeUnsafe env _) as [s1 [e|]] eqn:He; [done|].
    intros [= <-]. by apply storeUnsafe_status in He.
  - intros b p p' H. by apply storeUnsafe_status in H.
  - intros b p p' H. by apply storeUnsafe_status in H.
  - intros id i p p' H. by apply storeUnsafe_status in H.
  - intros i p p' H. by apply storeUnsafe_status in H.
Qed.

End runs.

(** ** Crashes *)

(** The disks a crash in the middle of a store can leave: nothing done yet, any
    part of the temporary file written, all of it, or the file replaced. *)
Inductive crashed (st : Status) (path : string) (fs : files) : files -> Prop :=
| crash_before : crashed st path fs fs
| crash_writing partial : crashed st path fs (<[tmp_of path := partial]> fs)
| crash_written :
    crashed st path fs (<[tmp_of path := marshal_file SyncFileVersion (marshal_v1 st)]> fs)
| crash_after :
    crashed st path fs (storeImpl (mkEnv None false) st path fs).1.

(** A crash at any point of a store leaves a disk from which the next start
    loads the status stored before or the new one, and never an error that was not
    there before. *)
Theorem storeImpl_crash_safe st path fs fs' :
  status_ok st -> crashed st path fs fs' ->
  load path fs' = load path fs \/ load path fs' = Ok st.
Proof.
  intros Hs Hc. assert (Hne := tmp_of_ne path). destruct Hc; [by left|left|left|right].
  - apply load_ext. by rewrite lookup_insert_ne.
  - apply load_ext. by rewrite lookup_insert_ne.
  - destruct (storeImpl (mkEnv None false) st path fs) as [fs' err] eqn:He.
    assert (Hspec := storeImpl_spec _ _ _ _ _ _ Hs He). injection He as <- <-. exact Hspec.
Qed.

(** Migrating the old settings writes them once: with no file yet, a migration
    whose store succeeds leaves a file from which exactly the old settings are
    loaded, and every migration after it changes nothing. *)
Theorem MigrateVaultSettings_once env env' path hl hm failed hl' hm' failed' fs fs' :
  fs !! path = None -> MigrateVaultSettings env true path hl hm failed fs = (fs', true, None) ->
  load path fs' = Ok (mkStatus hl hm hm (Some (list_to_set failed)) "" 0 0 "") /\
  MigrateVaultSettings env' true path hl' hm' failed' fs' = (fs', false, None).
Proof.
  intros Hn. unfold MigrateVaultSettings. rewrite Hn.
  destruct (storeImpl _ _ _ _) as [fs1 err] eqn:He. intros [= <- ->].
  apply storeImpl_spec in He as Hl; [|split; unfold i64_ok; simpl; lia]. split; [exact Hl|].
  assert (Hs : is_Some (fs1 !! path)).
  { unfold storeImpl in He. destruct (write_fails env) as [[]|]; [done|done|].
    destruct (rename_fails env); [done|]. injection He as <-. rewrite lookup_insert_eq. eauto. }
  by destruct Hs as [d ->].
Qed.

(** Adding a failed message whose store fails and adding it again: the second call
    reports success, but the message is not on disk. *)
Lemma AddFailedMessageID_retry_lost :
  let env n := match n with O => mkEnv (Some None) false | _ => mkEnv None false end in
  let s0 := mkSyncState "p" DefaultStatus ∅ 0 in
  let s1 := (ss_AddFailedMessageID env ["m"]%string s0).1 in
  (ss_AddFailedMessageID env ["m"]%string s1).2 = None /\
  load "p" (disk (ss_AddFailedMessageID env ["m"]%string s1).1) = Ok DefaultStatus.
Proof. split; reflexivity. Qed.

(** ** Witnesses *)

Definition ex_sync : SyncState := mkSyncState "sync-user" DefaultStatus ∅ 0.

Lemma SyncState_restart_witness :
  load "sync-user" (disk (run_ops (fun _ => mkEnv None false)
    [OpHasLabels true; OpAddFailed ["m1"; "m2"]%string; OpLastMessage "m9" 64] ex_sync)) =
  Ok (mkStatus true false false (Some {["m1"; "m2"]}) "m9" 64 0 "").
Proof.
  refine (proj2 (SyncState_restart (fun _ => mkEnv None false)
    [OpHasLabels true; OpAddFailed ["m1"; "m2"]%string; OpLastMessage "m9" 64] ex_sync _ _ _) _).
  - split; split; reflexivity || discriminate.
  - reflexivity.
  - repeat constructor.
  - intros pre o post Heq.
    destruct pre as [|o1 pre]; [injection Heq as <- <-; reflexivity|].
    destruct pre as [|o2 pre]; [injection Heq as <- <- <-; reflexivity|].
    destruct pre as [|o3 pre]; [injection Heq as <- <- <- <-; reflexivity|].
    injection Heq as _ _ _ Heq. destruct pre; discriminate Heq.
Defined.

Lemma storeImpl_crash_safe_witness :
  load "p" (<["p.tmp"%string := "garb"%string]> ∅) = load "p" ∅ \/
  load "p" (<["p.tmp"%string := "garb"%string]> ∅) = Ok (withLabels true DefaultStatus).
Proof.
  apply (storeImpl_crash_safe (withLabels true DefaultStatus) "p" ∅).
  - split; split; reflexivity || discriminate.
  - apply (crash_writing _ "p" ∅ "garb").
Defined.

Lemma MigrateVaultSettings_once_witness :
  exists fs', MigrateVaultSettings (mkEnv None false) true "p" true true ["m"]%string ∅ = (fs', true, None) /\
    MigrateVaultSettings (mkEnv None false) true "p" false false [] fs' = (fs', false, None).
Proof.
  eexists. split; [reflexivity|].
  apply (MigrateVaultSettings_once (mkEnv None false) (mkEnv None false) "p" true true ["m"]%string false false [] ∅);
    reflexivity.
Defined.
