(* ===== verification/UserEvents.v ===== *)
(** * The event loop of a user (internal/services/userevents: service.go,
      subscriber.go, subscription.go, eventid_store.go, event_poll_waiter.go)

    The service polls the API for events after the last processed one, hands each
    event to every subscriber and then stores the new event ID.  Subscriptions and
    pauses are requested at any time by other goroutines; the loop applies them at
    fixed points.  The model is a state machine: [step] is one iteration of the
    loop or one call of a public method, and the environment (what the API
    answers, what the subscribers answer, which calls arrive while an event is
    handled) is the input of the step. *)

From S2P Require Import Prelude.
From S2P Require Import Api.

(** ** Errors *)

(** The errors that [handleEventError] tells apart.  [ErrWrap] is [fmt.Errorf] with
    [%w]; [ErrPublish] is [publishError], which has no [Unwrap] method. *)
Inductive err : Type :=
| ErrCanceled
| ErrNetError (cause : err)
| ErrNetOp (cause : err)
| ErrUnmarshalType
| ErrUnexpectedEOF
| ErrAPI (status : Z)
| ErrUniqueLabel
| ErrPublish (subscriber : string) (e : err)
| ErrWrap (msg : string) (e : err)
| ErrOther (msg : string).

(** The errors [errors.Is] and [errors.As] look at. *)
Fixpoint chain (e : err) : list err :=
  e :: match e with
       | ErrNetError c | ErrNetOp c | ErrWrap _ c => chain c
       | _ => []
       end.

Definition is_canceled (e : err) : bool := match e with ErrCanceled => true | _ => false end.
Definition is_net (e : err) : bool := match e with ErrNetError _ => true | _ => false end.
Definition is_netop (e : err) : bool := match e with ErrNetOp _ => true | _ => false end.
Definition is_json (e : err) : bool := match e with ErrUnmarshalType => true | _ => false end.
Definition is_eof (e : err) : bool := match e with ErrUnexpectedEOF => true | _ => false end.
Definition is_label (e : err) : bool := match e with ErrUniqueLabel => true | _ => false end.

Fixpoint apiStatus (es : list err) : option Z :=
  match es with
  | [] => None
  | ErrAPI status :: _ => Some status
  | _ :: es' => apiStatus es'
  end.

Fixpoint publishErr (es : list err) : option (string * err) :=
  match es with
  | [] => None
  | ErrPublish name e :: _ => Some (name, e)
  | _ :: es' => publishErr es'
  end.

Definition unpackPublisherError (e : err) : string * err :=
  match publishErr (chain e) with Some r => r | None => ("", e) end.

(** ** Subscribers *)

(** A subscriber is a pointer; [sub_id] is its identity. *)
Record Subscriber : Type := mkSubscriber { sub_id : nat; sub_name : string }.

#[global] Instance Subscriber_eq_dec : EqDecision Subscriber.
Proof. solve_decision. Defined.

Definition list_Add (subscriber : Subscriber) (subscribers : list Subscriber) : list Subscriber :=
  if bool_decide (subscriber ∈ subscribers) then subscribers else subscribers ++ [subscriber].

(** [slices.Index] followed by [slices.Delete]; the flag tells whether the
    subscriber was found and its channel closed. *)
Fixpoint list_Remove (subscriber : Subscriber) (subscribers : list Subscriber)
    : list Subscriber * bool :=
  match subscribers with
  | [] => ([], false)
  | x :: rest =>
      if bool_decide (x = subscriber) then (rest, true)
      else let '(rest', found) := list_Remove subscriber rest in (x :: rest', found)
  end.

(** [parallel.DoContext] of the juniper library runs [f 0 .. f (n-1)] and returns
    the first error.  The calls that finished without error are reported next to
    it.  What the code relies on is stated as laws: a nil error means that every
    call ran and returned nil; an error is the error of a call or that of the
    context; and when no call fails and the context lives, there is none. *)
Class DoContext : Type := {
  doContext : option err -> nat -> (nat -> option err) -> list nat * option err;
  doContext_done : forall ctx n f l r, doContext ctx n f = (l, r) ->
    Forall (fun i => (i < n)%nat /\ f i = None) l;
  doContext_nil : forall ctx n f l, doContext ctx n f = (l, None) ->
    forall i, (i < n)%nat -> i ∈ l;
  doContext_err : forall ctx n f l e, doContext ctx n f = (l, Some e) ->
    ctx = Some e \/ exists i, (i < n)%nat /\ f i = Some e;
  doContext_ok : forall n f, (forall i, (i < n)%nat -> f i = None) -> (doContext None n f).2 = None
}.

Section publish.
Context `{DoContext}.

(** What the environment answers while one event is published: the result of each
    subscriber and the state of the context. *)
Record publish_env : Type := mkPublishEnv {
  pub_handle : Subscriber -> Event -> option err;
  pub_ctx : option err
}.

(** [Publish]; the first component lists the subscribers that handled the event
    without error. *)
Fixpoint Publish (env : publish_env) (event : Event) (subscribers : list Subscriber)
    : list Subscriber * option err :=
  match subscribers with
  | [] => ([], None)
  | subscriber :: rest =>
      match pub_handle env subscriber event with
      | Some e => ([], Some (ErrPublish (sub_name subscriber) e))
      | None =>
          match pub_ctx env with
          | Some e => ([subscriber], Some (ErrPublish (sub_name subscriber) e))
          | None => let '(done, r) := Publish env event rest in (subscriber :: done, r)
          end
      end
  end.

Definition handle_at (env : publish_env) (event : Event) (subscribers : list Subscriber) (index : nat)
    : option err :=
  match subscribers !! index with
  | Some subscriber => ErrPublish (sub_name subscriber) <$> pub_handle env subscriber event
  | None => None
  end.

Definition PublishParallel (env : publish_env) (event : Event) (subscribers : list Subscriber)
    : list Subscriber * option err :=
  if (length subscribers <=? 1)%nat then Publish env event subscribers
  else
    let '(done, r) := doContext (pub_ctx env) (length subscribers) (handle_at env event subscribers) in
    (omap (fun i => subscribers !! i) done, r).

(** [handleEvent] for a batch of events, stopping at the first failure. *)
Fixpoint handleEvents (env : publish_env) (subscribers : list Subscriber) (events : list Event)
    : list (Subscriber * Event) * option (Event * err) :=
  match events with
  | [] => ([], None)
  | event :: rest =>
      match PublishParallel env event subscribers with
      | (done, Some e) => ((fun s => (s, event)) <$> done, Some (event, e))
      | (done, None) =>
          let '(more, r) := handleEvents env subscribers rest in
          (((fun s => (s, event)) <$> done) ++ more, r)
      end
  end.

End publish.

(** ** Event handlers *)

Section handler.
Context {S : Type}.

Definition handling (A : Type) : Type := A -> S -> S * option err.

(** A nil handler is [None]. *)
Record EventHandler : Type := mkEventHandler {
  RefreshHandler : option (handling (Z * string));
  UserSettingsHandler : option (handling string);
  UserHandler : option (handling User);
  AddressHandler : option (handling (list AddressEvent));
  LabelHandler : option (handling (list LabelEvent));
  MessageHandler : option (handling (list MessageEvent));
  UsedSpaceHandler : option (handling Z);
  NotificationHandler : option (handling (list string))
}.

(** [if data != nil && handler != nil { if err := handler(data); err != nil {
    return wrap } }] and then the rest. *)
Definition then_handle {A} (handler : option (handling A)) (data : option A) (msg : string)
    (next : S -> S * option err) (s : S) : S * option err :=
  match handler, data with
  | Some f, Some a =>
      match f a s with
      | (s', Some e) => (s', Some (ErrWrap msg e))
      | (s', None) => next s'
      end
  | _, _ => next s
  end.

Definition non_empty {A} (l : list A) : option (list A) := match l with [] => None | _ => Some l end.

Definition OnEvent (e : EventHandler) (event : Event) (s : S) : S * option err :=
  match negb (Z.land (ev_Refresh event) RefreshMail =? 0), RefreshHandler e with
  | true, Some f => f (ev_Refresh event, ev_EventID event) s
  | _, _ =>
      then_handle (UserSettingsHandler e) (ev_UserSettings event) "failed to apply user event"
     (then_handle (UserHandler e) (ev_User event) "failed to apply user event"
     (then_handle (AddressHandler e) (non_empty (ev_Addresses event)) "failed to apply address events"
     (then_handle (LabelHandler e) (non_empty (ev_Labels event)) "failed to apply label events"
     (then_handle (MessageHandler e) (non_empty (ev_Messages event)) "failed to apply message events"
     (then_handle (UsedSpaceHandler e) (ev_UsedSpace event) "failed to apply message events"
     (then_handle (NotificationHandler e) (non_empty (ev_Notifications event))
        "failed to apply notification events"
        (fun s => (s, None)))))))) s
  end.

(** A property of the state that every handler keeps is kept by [OnEvent]. *)
Definition handler_keeps {A} (P : S -> Prop) (h : option (handling A)) : Prop :=
  forall f a s, h = Some f -> P s -> P (f a s).1.

Lemma then_handle_keeps {A} P (h : option (handling A)) data msg next :
  handler_keeps P h -> (forall s, P s -> P (next s).1) -> forall s, P s -> P (then_handle h data msg next s).1.
Proof.
  intros Hh Hn s Hs. unfold then_handle. destruct h as [f|]; [|by apply Hn]. destruct data as [a|]; [|by apply Hn].
  specialize (Hh f a s eq_refl Hs). destruct (f a s) as [s' [e|]]; [done|by apply Hn].
Qed.

Lemma OnEvent_keeps P (e : EventHandler) event s :
  handler_keeps P (RefreshHandler e) -> handler_keeps P (UserSettingsHandler e) ->
  handler_keeps P (UserHandler e) -> handler_keeps P (AddressHandler e) -> handler_keeps P (LabelHandler e) ->
  handler_keeps P (MessageHandler e) -> handler_keeps P (UsedSpaceHandler e) ->
  handler_keeps P (NotificationHandler e) -> P s -> P (OnEvent e event s).1.
Proof.
  intros Hr ? ? ? ? ? ? ? Hs. unfold OnEvent. set (rest := then_handle (UserSettingsHandler e) _ _ _).
  assert (Hrest : P (rest s).1) by (revert s Hs; repeat (apply then_handle_keeps; [done|]); done).
  destruct (negb _); [|done]. destruct (RefreshHandler e) as [f|] eqn:Hf; [|done]. by apply Hr.
Qed.

End handler.
Arguments EventHandler : clear implicits.
Arguments handling : clear implicits.

(** ** The store of the event ID *)

(** After a failed store the old or the new identifier may be read back. *)
Class EventIDStore : Type := {
  store : Type;
  Load : store -> result err string;
  Store : string -> store -> store * option err;
  Load_Store : forall id st st', Store id st = (st', None) -> Load st' = Ok id;
  Load_Store_err : forall id st st' e, Store id st = (st', Some e) ->
    Load st' = Load st \/ Load st' = Ok id
}.

Definition InMemory_Load (i : string) : result err string := Ok i.
Definition InMemory_Store (id : string) (i : string) : string * option err := (id, None).

#[refine] Definition InMemoryEventIDStore : EventIDStore :=
  {| store := string; Load := InMemory_Load; Store := InMemory_Store |}.
Proof. all: unfold InMemory_Store, InMemory_Load; naive_solver. Defined.

(** ** The service *)

Inductive pendingOp : Type := pendingOpAdd | pendingOpRemove.

(** What the service publishes to the bridge and reports to Sentry. *)
Inductive published : Type :=
| UserBadEvent (userID oldEventID newEventID : string) (e : err)
| UncategorizedEventError (userID : string) (e : err)
| LabelConstraintReport (e : err).

Section service.
Context `{DC : DoContext, ES : EventIDStore}.

(** The fields of [Service] and the variable [lastEventID] of [run].
    [svc_closed] lists the subscribers whose [close] was called and [svc_cancelled]
    those whose [cancel] was, [svc_closedWaiters] the closed waiters, [svc_out] what
    was published, [svc_delivered] the events a subscriber handled without error. *)
Record Service : Type := mkService {
  svc_userID : string;
  svc_store : store;
  svc_lastEventID : string;
  svc_paused : bool;
  svc_subscribers : list Subscriber;
  svc_pending : list (pendingOp * Subscriber);
  svc_waiters : list nat;
  svc_closedWaiters : list nat;
  svc_closed : list Subscriber;
  svc_cancelled : list Subscriber;
  svc_out : list published;
  svc_delivered : list (Subscriber * Event)
}.

Definition set_paused (b : bool) (s : Service) : Service :=
  mkService (svc_userID s) (svc_store s) (svc_lastEventID s) b (svc_subscribers s) (svc_pending s)
    (svc_waiters s) (svc_closedWaiters s) (svc_closed s) (svc_cancelled s) (svc_out s) (svc_delivered s).
Definition set_lastEventID (id : string) (s : Service) : Service :=
  mkService (svc_userID s) (svc_store s) id (svc_paused s) (svc_subscribers s) (svc_pending s)
    (svc_waiters s) (svc_closedWaiters s) (svc_closed s) (svc_cancelled s) (svc_out s) (svc_delivered s).
Definition set_store (st : store) (s : Service) : Service :=
  mkService (svc_userID s) st (svc_lastEventID s) (svc_paused s) (svc_subscribers s) (svc_pending s)
    (svc_waiters s) (svc_closedWaiters s) (svc_closed s) (svc_cancelled s) (svc_out s) (svc_delivered s).
Definition set_pending (p : list (pendingOp * Subscriber)) (s : Service) : Service :=
  mkService (svc_userID s) (svc_store s) (svc_lastEventID s) (svc_paused s) (svc_subscribers s) p
    (svc_waiters s) (svc_closedWaiters s) (svc_closed s) (svc_cancelled s) (svc_out s) (svc_delivered s).
Definition set_subscribers (l closed : list Subscriber) (s : Service) : Service :=
  mkService (svc_userID s) (svc_store s) (svc_lastEventID s) (svc_paused s) l (svc_pending s)
    (svc_waiters s) (svc_closedWaiters s) closed (svc_cancelled s) (svc_out s) (svc_delivered s).
Definition set_waiters (w closed : list nat) (s : Service) : Service :=
  mkService (svc_userID s) (svc_store s) (svc_lastEventID s) (svc_paused s) (svc_subscribers s)
    (svc_pending s) w closed (svc_closed s) (svc_cancelled s) (svc_out s) (svc_delivered s).
Definition set_cancelled (l : list Subscriber) (s : Service) : Service :=
  mkService (svc_userID s) (svc_store s) (svc_lastEventID s) (svc_paused s) (svc_subscribers s)
    (svc_pending s) (svc_waiters s) (svc_closedWaiters s) (svc_closed s) l (svc_out s) (svc_delivered s).
Definition publish (p : published) (s : Service) : Service :=
  mkService (svc_userID s) (svc_store s) (svc_lastEventID s) (svc_paused s) (svc_subscribers s)
    (svc_pending s) (svc_waiters s) (svc_closedWaiters s) (svc_closed s) (svc_cancelled s)
    (svc_out s ++ [p]) (svc_delivered s).
Definition deliver (l : list (Subscriber * Event)) (s : Service) : Service :=
  mkService (svc_userID s) (svc_store s) (svc_lastEventID s) (svc_paused s) (svc_subscribers s)
    (svc_pending s) (svc_waiters s) (svc_closedWaiters s) (svc_closed s) (svc_cancelled s)
    (svc_out s) (svc_delivered s ++ l).

(** The service starts paused. *)
Definition NewService (userID : string) (st : store) : Service :=
  mkService userID st "" true [] [] [] [] [] [] [] [].

(** *** Calls from other goroutines *)

Definition Subscribe (sub : Subscriber) (s : Service) : Service :=
  set_pending (svc_pending s ++ [(pendingOpAdd, sub)]) s.
Definition Unsubscribe (sub : Subscriber) (s : Service) : Service :=
  let s := set_cancelled (svc_cancelled s ++ [sub]) s in
  set_pending (svc_pending s ++ [(pendingOpRemove, sub)]) s.
Definition Pause (s : Service) : Service := set_paused true s.
Definition PauseWithWaiter (waiter : nat) (s : Service) : Service :=
  let s := set_paused true s in set_waiters (svc_waiters s ++ [waiter]) (svc_closedWaiters s) s.
Definition Resume (s : Service) : Service := set_paused false s.
Definition IsPaused (s : Service) : bool := svc_paused s.

Inductive call : Type :=
| CSubscribe (sub : Subscriber)
| CUnsubscribe (sub : Subscriber)
| CPause
| CPauseWithWaiter (waiter : nat)
| CResume.

Definition do_call (c : call) (s : Service) : Service :=
  match c with
  | CSubscribe sub => Subscribe sub s
  | CUnsubscribe sub => Unsubscribe sub s
  | CPause => Pause s
  | CPauseWithWaiter waiter => PauseWithWaiter waiter s
  | CResume => Resume s
  end.

Definition do_calls (cs : list call) (s : Service) : Service := foldl (fun s c => do_call c s) s cs.

(** [Start]: [latest] is the result of asking the API for its latest event. *)
Definition Start (latest : result err string) (s : Service) : Service * result err string :=
  match Load (svc_store s) with
  | Err e => (s, Err (ErrWrap "failed to load last event id" e))
  | Ok lastEventID =>
      if String.eqb lastEventID "" then
        match latest with
        | Err e => (s, Err (ErrWrap "failed to get latest event id" e))
        | Ok eventID =>
            match Store eventID (svc_store s) with
            | (st, Some e) => (set_store st s, Err (ErrOther "failed to store event in event id store"))
            | (st, None) => (set_lastEventID eventID (set_store st s), Ok eventID)
            end
        end
      else (set_lastEventID lastEventID s, Ok lastEventID)
  end.

(** *** One iteration of the loop *)

Definition closePollWaiters (s : Service) : Service :=
  set_waiters [] (svc_closedWaiters s ++ svc_waiters s) s.

Definition apply_pending_one (s : Service) (p : pendingOp * Subscriber) : Service :=
  match p with
  | (pendingOpAdd, sub) => set_subscribers (list_Add sub (svc_subscribers s)) (svc_closed s) s
  | (pendingOpRemove, sub) =>
      let '(l, found) := list_Remove sub (svc_subscribers s) in
      set_subscribers l (if found then svc_closed s ++ [sub] else svc_closed s) s
  end.

Definition apply_pending (s : Service) : Service :=
  set_pending [] (foldl apply_pending_one s (svc_pending s)).

Definition onBadEvent (event : published) (s : Service) : Service := publish event (Pause s).

Definition handleEventError (lastEventID : string) (event : Event) (e : err) (s : Service)
    : Service * (string * err) :=
  let '(subscriberName, e) := unpackPublisherError e in
  let es := chain e in
  if existsb is_canceled es then
    (s, (subscriberName, ErrWrap "failed to handle event due to context cancellation" e))
  else if existsb is_net es then
    (s, (subscriberName, ErrWrap "failed to handle event due to network issue" e))
  else if existsb is_netop es then
    (s, (subscriberName, ErrWrap "failed to handle event due to network issues (uncategorized)" e))
  else if existsb is_json es then
    (publish (UncategorizedEventError (svc_userID s) e) s,
     (subscriberName, ErrWrap "failed to handle event due to JSON issue" e))
  else if existsb is_eof es then
    (s, (subscriberName, ErrWrap "failed to handle event due to EOF" e))
  else if match apiStatus es with Some status => (status =? 429) || (500 <=? status) | None => false end then
    (s, (subscriberName, ErrWrap "failed to handle event due to server error" e))
  else
    let s := if existsb is_label es then publish (LabelConstraintReport e) s else s in
    (onBadEvent (UserBadEvent (svc_userID s) lastEventID (ev_EventID event) e) s,
     (subscriberName, ErrWrap "failed to handle event due to client error" e)).

(** The environment of one poll: the answer of the API after its retries, the
    answers of the subscribers, and the calls of other goroutines that arrive
    before the loop looks at the pause flag again. *)
Record poll_env : Type := mkPollEnv {
  poll_events : string -> result err (list Event);
  poll_publish : publish_env;
  poll_during : list call
}.

(** The part of the loop after the [select].  [None] is the panic of
    [newEvents[len(newEvents)-1]] on an empty slice. *)
Definition poll (env : poll_env) (s : Service) : option Service :=
  let s := apply_pending s in
  let lastEventID := svc_lastEventID s in
  match poll_events env lastEventID with
  | Err _ => Some (do_calls (poll_during env) s)
  | Ok newEvents =>
      match last newEvents with
      | None => None
      | Some latest =>
          if String.eqb (ev_EventID latest) lastEventID then Some (do_calls (poll_during env) s)
          else
            let '(delivered, failure) := handleEvents (poll_publish env) (svc_subscribers s) newEvents in
            let s := do_calls (poll_during env) (deliver delivered s) in
            match failure with
            | Some (event, e) => Some (handleEventError lastEventID event e s).1
            | None =>
                let newEventID := ev_EventID latest in
                match Store newEventID (svc_store s) with
                | (st, Some e) =>
                    Some (onBadEvent (UserBadEvent (svc_userID s) "" ""
                            (ErrWrap "failed to store new event ID" e)) (set_store st s))
                | (st, None) =>
                    let s := set_lastEventID newEventID (set_store st s) in
                    Some (if IsPaused s then closePollWaiters s else s)
                end
            end
      end
  end.

Definition rewindEventLoop (id : string) (s : Service) : Service * option err :=
  let '(st, r) := Store id (svc_store s) in (set_store st s, r).

Inductive input : Type :=
| ICall (c : call)
| ITick (env : poll_env)
| IRewind (eventID : string)
| IUnknownRequest
| IConnStatusDown (env : poll_env)
| IConnStatusUp (env : poll_env)
| IWatcherClosed.

Definition step (i : input) (s : Service) : option Service :=
  match i with
  | ICall c => Some (do_call c s)
  | ITick env => if IsPaused s then Some (closePollWaiters s) else poll env s
  | IRewind eventID =>
      match rewindEventLoop eventID s with
      | (s, None) => Some (set_lastEventID eventID s)
      | (s, Some _) => Some s
      end
  | IUnknownRequest => Some s
  | IConnStatusDown env => poll env (Pause s)
  | IConnStatusUp env => poll env (Resume s)
  | IWatcherClosed => Some s
  end.

Fixpoint run (ins : list input) (s : Service) : option Service :=
  match ins with
  | [] => Some s
  | i :: ins' => s ← step i s; run ins' s
  end.

(** [Close], after the loop has ended. *)
Fixpoint close_pending (processed : list Subscriber) (ps : list (pendingOp * Subscriber)) (s : Service)
    : Service :=
  match ps with
  | [] => s
  | (op, sub) :: rest =>
      if bool_decide (sub ∈ processed) then close_pending processed rest s
      else
        let s := match op with
                 | pendingOpRemove => s
                 | pendingOpAdd => set_cancelled (svc_cancelled s ++ [sub]) s
                 end in
        close_pending (sub :: processed) rest
          (set_subscribers (svc_subscribers s) (svc_closed s ++ [sub]) s)
  end.

Definition Close (s : Service) : Service := set_pending [] (close_pending [] (svc_pending s) s).

(** ** Delivery of events *)

Lemma Publish_nil env event subs done : Publish env event subs = (done, None) -> subs ⊆ done.
Proof.
  revert done. induction subs as [|x subs IH]; intros done; simpl; [set_solver|].
  destruct (pub_handle env x event); [done|]. destruct (pub_ctx env); [done|].
  destruct (Publish env event subs) as [d r] eqn:Hp. intros [= <- ->]. specialize (IH _ eq_refl). set_solver.
Qed.

Lemma Publish_ok env event subs :
  pub_ctx env = None -> (forall x, x ∈ subs -> pub_handle env x event = None) ->
  (Publish env event subs).2 = None.
Proof.
  intros Hc. induction subs as [|x subs IH]; intros Hh; simpl; [done|].
  rewrite (Hh x), Hc by set_solver. destruct (Publish env event subs) as [d r]. apply IH. set_solver.
Qed.

Lemma PublishParallel_nil env event subs done :
  PublishParallel env event subs = (done, None) -> subs ⊆ done.
Proof.
  unfold PublishParallel. destruct (_ <=? 1)%nat; [apply Publish_nil|].
  destruct (doContext _ _ _) as [d r] eqn:Hd. intros [= <- ->] x Hx.
  apply list_elem_of_lookup in Hx as [i Hi]. apply list_elem_of_omap. exists i. split; [|done].
  eapply doContext_nil; [done|]. by eapply lookup_lt_Some.
Qed.

Lemma PublishParallel_ok env event subs :
  pub_ctx env = None -> (forall x, x ∈ subs -> pub_handle env x event = None) ->
  (PublishParallel env event subs).2 = None.
Proof.
  intros Hc Hh. unfold PublishParallel. destruct (_ <=? 1)%nat; [by apply Publish_ok|].
  rewrite Hc. assert (Hd := doContext_ok (length subs) (handle_at env event subs)).
  destruct (doContext _ _ _) as [d r]. apply Hd. intros i Hi. unfold handle_at.
  destruct (lookup_lt_is_Some_2 subs i Hi) as [x Hx]. rewrite Hx, Hh; [done|]. by eapply list_elem_of_lookup_2.
Qed.

(** A batch that is handled without failure reached every subscriber. *)
Lemma handleEvents_nil env subs events d :
  handleEvents env subs events = (d, None) ->
  forall x event, x ∈ subs -> event ∈ events -> (x, event) ∈ d.
Proof.
  revert d. induction events as [|e events IH]; intros d; simpl; [set_solver|].
  destruct (PublishParallel env e subs) as [ok [f|]] eqn:Hp; [done|].
  destruct (handleEvents env subs events) as [more r] eqn:He. intros [= <- ->] x event Hx Hev.
  apply elem_of_app. apply elem_of_cons in Hev as [->|Hev]; [left|right; by eapply IH].
  apply list_elem_of_fmap. exists x. split; [done|]. by apply (PublishParallel_nil env e subs ok Hp).
Qed.

Lemma handleEvents_ok env subs events :
  pub_ctx env = None -> (forall x event, x ∈ subs -> event ∈ events -> pub_handle env x event = None) ->
  (handleEvents env subs events).2 = None.
Proof.
  intros Hc. induction events as [|e events IH]; intros Hh; simpl; [done|].
  assert (Hp := PublishParallel_ok env e subs Hc (fun x Hx => Hh x e Hx (list_elem_of_here _ _))).
  destruct (PublishParallel env e subs) as [ok f]. simpl in Hp. subst f.
  destruct (handleEvents env subs events) as [more r]. apply IH. set_solver.
Qed.

(** The event that fails is one of the batch. *)
Lemma handleEvents_failure env subs events d event e :
  handleEvents env subs events = (d, Some (event, e)) -> event ∈ events.
Proof.
  revert d. induction events as [|x events IH]; intros d; simpl; [done|].
  destruct (PublishParallel env x subs) as [ok [f|]]; [intros; simplify_eq; set_solver|].
  destruct (handleEvents env subs events) as [more r]. intros [= _ ->]. apply elem_of_cons. right. by eapply IH.
Qed.

(** What [do_calls] and [apply_pending] leave alone. *)
Definition same_progress (s s' : Service) : Prop :=
  svc_userID s' = svc_userID s /\ svc_store s' = svc_store s /\
  svc_lastEventID s' = svc_lastEventID s /\ svc_delivered s' = svc_delivered s.

#[local] Instance same_progress_preorder : PreOrder same_progress.
Proof. split; unfold same_progress; [done|]. intros x y z. intuition congruence. Qed.

Lemma do_call_progress c s : same_progress s (do_call c s) /\ svc_subscribers (do_call c s) = svc_subscribers s.
Proof. by destruct c. Qed.

Lemma do_calls_progress cs s :
  same_progress s (do_calls cs s) /\ svc_subscribers (do_calls cs s) = svc_subscribers s.
Proof.
  unfold do_calls. revert s. induction cs as [|c cs IH]; intros s; simpl; [done|].
  destruct (IH (do_call c s)) as [Hs Hl], (do_call_progress c s) as [Hs' Hl'].
  split; [by etrans|congruence].
Qed.

Lemma apply_pending_one_progress s p : same_progress s (apply_pending_one s p).
Proof. destruct p as [[] sub]; simpl; [done|]. by destruct (list_Remove _ _). Qed.

Lemma apply_pending_progress s : same_progress s (apply_pending s).
Proof.
  unfold apply_pending. enough (same_progress s (foldl apply_pending_one s (svc_pending s))) by done.
  generalize (svc_pending s). intros ps. revert s. induction ps as [|p ps IH]; intros s; simpl; [done|].
  etrans; [apply apply_pending_one_progress|apply IH].
Qed.

(** The four ways a poll can end. *)
Inductive poll_end (env : poll_env) (s : Service) : Service -> Prop :=
| poll_idle :
    poll_end env s (do_calls (poll_during env) (apply_pending s))
| poll_failed evs d event e :
    poll_events env (svc_lastEventID s) = Ok evs ->
    handleEvents (poll_publish env) (svc_subscribers (apply_pending s)) evs = (d, Some (event, e)) ->
    poll_end env s (handleEventError (svc_lastEventID s) event e
      (do_calls (poll_during env) (deliver d (apply_pending s)))).1
| poll_stored evs latest d st r s1 :
    poll_events env (svc_lastEventID s) = Ok evs -> last evs = Some latest ->
    ev_EventID latest <> svc_lastEventID s ->
    handleEvents (poll_publish env) (svc_subscribers (apply_pending s)) evs = (d, None) ->
    s1 = do_calls (poll_during env) (deliver d (apply_pending s)) ->
    Store (ev_EventID latest) (svc_store s) = (st, r) ->
    poll_end env s
      match r with
      | Some e => onBadEvent (UserBadEvent (svc_userID s1) "" ""
                    (ErrWrap "failed to store new event ID" e)) (set_store st s1)
      | None => let s2 := set_lastEventID (ev_EventID latest) (set_store st s1) in
                if IsPaused s2 then closePollWaiters s2 else s2
      end.

Lemma poll_inv env s s' : poll env s = Some s' -> poll_end env s s'.
Proof.
  unfold poll. destruct (apply_pending_progress s) as (Hu & Hst & Hl & Hd). rewrite Hl.
  destruct (poll_events env (svc_lastEventID s)) as [evs|e] eqn:Hev; [|intros [= <-]; apply poll_idle].
  destruct (last evs) as [latest|] eqn:Hlast; [|done].
  destruct (String.eqb_spec (ev_EventID latest) (svc_lastEventID s)) as [Hid|Hid]; [intros [= <-]; apply poll_idle|].
  destruct (handleEvents _ _ _) as [d [[event e]|]] eqn:Hh; [intros [= <-]; by eapply poll_failed|].
  set (s1 := do_calls _ _). assert (Hs1 : svc_store s1 = svc_store s).
  { unfold s1. destruct (do_calls_progress (poll_during env) (deliver d (apply_pending s))) as [(_ & -> & _) _]. exact Hst. }
  rewrite Hs1. destruct (Store _ _) as [st r] eqn:HS. intros Hr.
  eassert (Hend := poll_stored env s evs latest d st r s1 Hev Hlast Hid Hh eq_refl HS).
  destruct r; injection Hr as <-; exact Hend.
Qed.

(** *** The event log of the server *)

(** The events that follow the one with the given identifier. *)
Fixpoint after (id : string) (log : list Event) : option (list Event) :=
  match log with
  | [] => None
  | e :: rest => if String.eqb (ev_EventID e) id then Some rest else after id rest
  end.

Lemma after_split id log rest :
  after id log = Some rest -> exists pre e, log = pre ++ e :: rest /\ ev_EventID e = id.
Proof.
  induction log as [|x log IH]; simpl; [done|].
  destruct (String.eqb_spec (ev_EventID x) id) as [Hx|Hx]; [intros [= ->]; by exists [], x|].
  intros Ha. destruct (IH Ha) as (pre & e & -> & He). by exists (x :: pre), e.
Qed.

Lemma after_at pre e rest :
  NoDup (ev_EventID <$> pre ++ e :: rest) -> after (ev_EventID e) (pre ++ e :: rest) = Some rest.
Proof.
  induction pre as [|x pre IH]; simpl; [by rewrite String.eqb_refl|].
  intros [Hx Hn]%NoDup_cons. destruct (String.eqb_spec (ev_EventID x) (ev_EventID e)) as [He|He]; [|by apply IH].
  exfalso. apply Hx. rewrite He. apply list_elem_of_fmap. exists e. set_solver.
Qed.

(** Following a batch. *)
Lemma after_batch log id evs latest post :
  NoDup (ev_EventID <$> log) -> after id log = Some (evs ++ post) -> last evs = Some latest ->
  after (ev_EventID latest) log = Some post.
Proof.
  intros Hn Ha Hl. destruct (after_split _ _ _ Ha) as (pre & e & -> & He).
  apply last_Some in Hl as [evs' ->].
  replace (pre ++ e :: (evs' ++ [latest]) ++ post) with ((pre ++ e :: evs') ++ latest :: post) in *
    by (by rewrite <- !app_assoc).
  by apply after_at.
Qed.

(** The API answers a poll with the last event again, or with events that follow
    it in the log. *)
Definition source_ok (log : list Event) (env : poll_env) : Prop :=
  forall id evs, poll_events env id = Ok evs ->
    (exists e, evs = [e] /\ ev_EventID e = id) \/
    (exists rest, after id log = Some (evs ++ rest)).

Definition input_env (i : input) : option poll_env :=
  match i with ITick env | IConnStatusDown env | IConnStatusUp env => Some env | _ => None end.
Definition input_calls (i : input) : list call :=
  match i with
  | ICall c => [c]
  | ITick env | IConnStatusDown env | IConnStatusUp env => poll_during env
  | _ => []
  end.
Definition input_ok (log : list Event) (i : input) : Prop :=
  from_option (source_ok log) True (input_env i) /\ match i with IRewind _ => False | _ => True end.

Definition keeps (sub : Subscriber) (s : Service) : Prop :=
  sub ∈ svc_subscribers s /\ (pendingOpRemove, sub) ∉ svc_pending s.

(** The events between [id0] and [id] were all handled by [sub]. *)
Definition handled_up_to (log : list Event) (id0 : string) (sub : Subscriber)
    (delivered : list (Subscriber * Event)) (id : string) : Prop :=
  exists mid post, after id0 log = Some (mid ++ post) /\ after id log = Some post /\
    Forall (fun event => (sub, event) ∈ delivered) mid.

Lemma handled_up_to_more log id0 sub d d' id :
  d ⊆ d' -> handled_up_to log id0 sub d id -> handled_up_to log id0 sub d' id.
Proof. intros Hd (mid & post & ? & ? & Hf). exists mid, post. repeat split; [done..|]. eapply Forall_impl; [done|]. set_solver. Qed.

(** A batch handled without failure extends what was handled. *)
Lemma handled_up_to_batch log id0 sub d id evs rest latest d' :
  NoDup (ev_EventID <$> log) -> handled_up_to log id0 sub d id ->
  after id log = Some (evs ++ rest) -> last evs = Some latest ->
  (forall event, event ∈ evs -> (sub, event) ∈ d') -> d ⊆ d' ->
  handled_up_to log id0 sub d' (ev_EventID latest).
Proof.
  intros Hn (mid & post & H0 & Hid & Hf) Ha Hl Hd Hsub. rewrite Hid in Ha. injection Ha as ->.
  exists (mid ++ evs), rest. rewrite <- app_assoc. split; [done|]. split; [by eapply after_batch|].
  apply Forall_app. split; [|by apply Forall_forall]. eapply Forall_impl; [done|]. set_solver.
Qed.

Lemma list_Add_elem x l y : y ∈ l -> y ∈ list_Add x l.
Proof. unfold list_Add. case_bool_decide; set_solver. Qed.

Lemma list_Remove_elem x l y : y <> x -> y ∈ l -> y ∈ (list_Remove x l).1.
Proof.
  intros Hne. induction l as [|z l IH]; simpl; [done|]. case_bool_decide; [set_solver|].
  destruct (list_Remove x l) as [l' b]. set_solver.
Qed.

(** A subscriber that is not being removed stays. *)
Lemma apply_pending_keeps sub s : keeps sub s -> keeps sub (apply_pending s).
Proof.
  intros [Hs Hp]. unfold apply_pending, keeps. simpl. split; [|set_solver].
  revert s Hs Hp. intros s. generalize (svc_pending s) as ps. intros ps. revert s.
  induction ps as [|[[] x] ps IH]; intros s Hs Hp; simpl; [done|..].
  - apply IH; [by apply list_Add_elem|set_solver].
  - destruct (list_Remove x (svc_subscribers s)) as [l b] eqn:Hr. apply IH; [|set_solver].
    simpl. change l with (l, b).1. rewrite <- Hr. apply list_Remove_elem; [|done]. intros ->. set_solver.
Qed.

Lemma do_call_keeps sub c s : c <> CUnsubscribe sub -> keeps sub s -> keeps sub (do_call c s).
Proof. unfold keeps. destruct c; simpl; set_solver. Qed.

Lemma do_calls_keeps sub cs s : CUnsubscribe sub ∉ cs -> keeps sub s -> keeps sub (do_calls cs s).
Proof.
  unfold do_calls. revert s. induction cs as [|c cs IH]; intros s Hc Hk; simpl; [done|].
  apply IH; [set_solver|]. apply do_call_keeps; [set_solver|done].
Qed.

(** An error decides what is published and whether the loop pauses, and nothing
    else. *)
Lemma handleEventError_frame last event e s :
  let s' := (handleEventError last event e s).1 in
  same_progress s s' /\ svc_subscribers s' = svc_subscribers s /\ svc_pending s' = svc_pending s /\
  svc_waiters s' = svc_waiters s /\ svc_closedWaiters s' = svc_closedWaiters s /\
  svc_closed s' = svc_closed s.
Proof.
  unfold handleEventError. destruct (unpackPublisherError e) as [name e'].
  repeat (case_match; simpl; [done|]). by destruct (existsb is_label (chain e')).
Qed.

Lemma keeps_eq sub s s' :
  svc_subscribers s' = svc_subscribers s -> svc_pending s' = svc_pending s -> keeps sub s -> keeps sub s'.
Proof. unfold keeps. by intros -> ->. Qed.

Lemma poll_keeps sub env s s' :
  CUnsubscribe sub ∉ poll_during env -> keeps sub s -> poll env s = Some s' -> keeps sub s'.
Proof.
  intros Hc Hk Hp. apply poll_inv in Hp. apply apply_pending_keeps in Hk.
  destruct Hp as [|evs d event e _ _|evs latest d st r s1 _ _ _ _ Hs1 _].
  - by apply do_calls_keeps.
  - destruct (handleEventError_frame (svc_lastEventID s) event e
      (do_calls (poll_during env) (deliver d (apply_pending s)))) as (_ & Hl & Hq & _).
    eapply keeps_eq; [exact Hl|exact Hq|]. by apply do_calls_keeps.
  - assert (Hk1 : keeps sub s1) by (subst s1; by apply do_calls_keeps).
    destruct r as [e|]; [exact Hk1|]. cbv zeta. case_match; exact Hk1.
Qed.

Section at_least_once.
Context (log : list Event) (log_ids : NoDup (ev_EventID <$> log)).
Context (id0 : string) (sub : Subscriber).

Definition delivery_inv (s : Service) : Prop :=
  keeps sub s /\ handled_up_to log id0 sub (svc_delivered s) (svc_lastEventID s) /\
  exists id, Load (svc_store s) = Ok id /\ handled_up_to log id0 sub (svc_delivered s) id.

Lemma delivery_frame s s' :
  keeps sub s' -> svc_store s' = svc_store s -> svc_lastEventID s' = svc_lastEventID s ->
  svc_delivered s ⊆ svc_delivered s' -> delivery_inv s -> delivery_inv s'.
Proof.
  intros Hk Hst Hl Hd (_ & Ha & id & Hid & Hb). unfold delivery_inv. rewrite Hst, Hl.
  split; [done|]. split; [by eapply handled_up_to_more|]. exists id. split; [done|]. by eapply handled_up_to_more.
Qed.

Lemma poll_delivery env s s' :
  source_ok log env -> CUnsubscribe sub ∉ poll_during env -> delivery_inv s ->
  poll env s = Some s' -> delivery_inv s'.
Proof.
  intros Hsrc Hc Hi Hp. assert (Hk' := poll_keeps sub env s s' Hc (proj1 Hi) Hp).
  apply poll_inv in Hp. destruct (apply_pending_progress s) as (_ & Pst & Pl & Pd).
  destruct Hp as [|evs d event e _ _|evs latest d st r s1 Hev Hl Hne Hh Hs1 HS].
  - destruct (do_calls_progress (poll_during env) (apply_pending s)) as [(_ & Cst & Cl & Cd) _].
    apply (delivery_frame s); [done|congruence|congruence|by rewrite Cd, Pd|done].
  - destruct (handleEventError_frame (svc_lastEventID s) event e
      (do_calls (poll_during env) (deliver d (apply_pending s)))) as ((_ & Est & El & Ed) & _).
    destruct (do_calls_progress (poll_during env) (deliver d (apply_pending s))) as [(_ & Cst & Cl & Cd) _].
    apply (delivery_frame s); [done|etrans; [exact Est|]; etrans; [exact Cst|exact Pst]| |
      etrans; [|by rewrite Ed, Cd]; rewrite <- Pd; simpl; set_solver|done].
    etrans; [exact El|]. etrans; [exact Cl|exact Pl].
  - destruct (do_calls_progress (poll_during env) (deliver d (apply_pending s))) as [(_ & Cst & Cl & Cd) _].
    rewrite <- Hs1 in Cst, Cl, Cd.
    change (svc_store s1 = svc_store (apply_pending s)) in Cst.
    change (svc_lastEventID s1 = svc_lastEventID (apply_pending s)) in Cl.
    change (svc_delivered s1 = svc_delivered (apply_pending s) ++ d) in Cd.
    rewrite Pst in Cst. rewrite Pl in Cl. rewrite Pd in Cd.
    destruct Hi as (Hk & Ha & id & Hid & Hb).
    assert (Hin : sub ∈ svc_subscribers (apply_pending s)) by apply (apply_pending_keeps sub s Hk).
    assert (Hnew : handled_up_to log id0 sub (svc_delivered s1) (ev_EventID latest)).
    { destruct (Hsrc _ _ Hev) as [(e & -> & He)|[rest Hrest]]; [injection Hl as ->; by destruct Hne|].
      eapply handled_up_to_batch; [done|exact Ha|exact Hrest|done| |rewrite Cd; set_solver].
      intros event Hin'. rewrite Cd. apply elem_of_app. right. by eapply handleEvents_nil. }
    assert (Hmore : forall x, handled_up_to log id0 sub (svc_delivered s) x ->
      handled_up_to log id0 sub (svc_delivered s1) x).
    { intros x. apply handled_up_to_more. rewrite Cd. set_solver. }
    destruct r as [e|].
    + split; [done|]. simpl. rewrite Cl. split; [by apply Hmore|].
      destruct (Load_Store_err _ _ _ _ HS) as [Hold|Hn]; [exists id; rewrite Hold; auto|eauto].
    + apply Load_Store in HS. cbv zeta in *. unfold delivery_inv. case_match; simpl; eauto.
Qed.

Lemma step_delivery i s s' :
  input_ok log i -> CUnsubscribe sub ∉ input_calls i -> delivery_inv s ->
  step i s = Some s' -> delivery_inv s'.
Proof.
  intros [Hok Hrw] Hc Hi. destruct i as [c|env|id| |env|env|]; simpl in *.
  - intros [= <-]. destruct (do_call_progress c s) as [(_ & Hst & Hl & Hd) _].
    apply (delivery_frame s); [|done|done|by rewrite Hd|done]. apply do_call_keeps; [set_solver|apply Hi].
  - destruct (IsPaused s); [intros [= <-]; exact Hi|by apply poll_delivery].
  - done.
  - by intros [= <-].
  - by apply poll_delivery.
  - by apply poll_delivery.
  - by intros [= <-].
Qed.

(** C2: At-least-once delivery.  Take any run of the loop (ticks, connection changes,
    calls of [Subscribe], [Unsubscribe], [Pause] and [Resume] at any time, failing
    polls, subscribers and stores) without a rewind, against an API that serves a
    log of events with distinct identifiers, and a subscriber that is subscribed
    when the loop is at the stored event [id0] and never unsubscribes.  Then the
    identifier that a restart would load is in the log, and every event after
    [id0] up to it has been handled by the subscriber without error: no event is
    skipped, whatever failed in between.  The same holds of [lastEventID]. *)
Theorem events_at_least_once ins s s' :
  keeps sub s -> svc_lastEventID s = id0 -> Load (svc_store s) = Ok id0 -> is_Some (after id0 log) ->
  Forall (input_ok log) ins -> (forall i, i ∈ ins -> CUnsubscribe sub ∉ input_calls i) ->
  run ins s = Some s' ->
  handled_up_to log id0 sub (svc_delivered s') (svc_lastEventID s') /\
  exists id, Load (svc_store s') = Ok id /\ handled_up_to log id0 sub (svc_delivered s') id.
Proof.
  intros Hk Hl Hst [rest Ha] Hok Hc Hrun.
  assert (Hi : delivery_inv s).
  { assert (Hh : handled_up_to log id0 sub (svc_delivered s) id0) by (exists [], rest; repeat split; auto).
    split; [done|]. rewrite Hl. eauto. }
  clear Hk Hl Hst Ha rest. revert s Hi Hrun. induction ins as [|i ins IH]; intros s Hi Hrun; simpl in Hrun.
  - injection Hrun as ->. apply Hi.
  - apply Forall_cons in Hok as [Hok Hoks]. apply bind_Some in Hrun as (s1 & H1 & Hrun).
    eapply (IH Hoks); [intros j Hj; apply Hc; set_solver| |exact Hrun].
    eapply step_delivery; [exact Hok|apply Hc; set_solver|exact Hi|exact H1].
Qed.

End at_least_once.

(** ** Failing events *)

(** The errors after which the loop tries the same events again. *)
Definition transient (e : err) : bool :=
  let es := chain (unpackPublisherError e).2 in
  existsb is_canceled es || existsb is_net es || existsb is_netop es || existsb is_json es ||
  existsb is_eof es ||
  match apiStatus es with Some status => (status =? 429) || (500 <=? status) | None => false end.

Definition is_bad_event (p : published) : bool :=
  match p with UserBadEvent _ _ _ _ => true | _ => false end.

Lemma handleEventError_paused last event e s :
  let s' := (handleEventError last event e s).1 in
  exists out, svc_out s' = svc_out s ++ out /\
  if transient e then svc_paused s' = svc_paused s /\ forallb (fun p => negb (is_bad_event p)) out = true
  else svc_paused s' = true /\
       UserBadEvent (svc_userID s) last (ev_EventID event) (unpackPublisherError e).2 ∈ out.
Proof.
  unfold handleEventError, transient. destruct (unpackPublisherError e) as [name e']. simpl.
  repeat (match goal with |- context [if ?b then _ else _] => destruct b eqn:? end; simpl;
    [first [exists []; rewrite app_nil_r; done | eexists; split; [done|]; done]|]).
  destruct (existsb is_label (chain e')); simpl; rewrite <- ?app_assoc;
    (eexists; split; [done|]; split; [done|]; set_solver).
Qed.

Definition quiet (i : input) : Prop :=
  match i with
  | ICall CResume | IRewind _ | IConnStatusDown _ | IConnStatusUp _ => False
  | _ => True
  end.

Lemma paused_quiet ins s s' :
  svc_paused s = true -> Forall quiet ins -> run ins s = Some s' ->
  same_progress s s' /\ svc_paused s' = true.
Proof.
  revert s. induction ins as [|i ins IH]; intros s Hp Hq Hr; simpl in Hr; [by simplify_eq|].
  apply Forall_cons in Hq as [Hq Hqs]. apply bind_Some in Hr as (s1 & H1 & Hr).
  assert (Hs1 : same_progress s s1 /\ svc_paused s1 = true).
  { destruct i as [c| | | | | |]; simpl in H1; unfold IsPaused in H1; try done; try (by simplify_eq).
    - injection H1 as <-. by destruct c.
    - rewrite Hp in H1. injection H1 as <-. done. }
  destruct (IH s1 (proj2 Hs1) Hqs Hr) as [Hs Hp']. split; [|done]. etrans; [apply Hs1|exact Hs].
Qed.

(** What a poll does with new events.  Let the API answer with events whose last
    identifier is new.  If every subscriber handles every event, the context lives
    and the new identifier can be stored, the loop moves to it, in memory and in
    the store.  If an event fails, neither moves, so the same events are asked for
    again: after a transient error (cancellation, network, JSON type, unexpected
    EOF, status 429 or 5xx) the loop stays as it was and publishes no bad event;
    after any other error it pauses, publishes a bad event that names the failing
    event, and from then on no tick and no call makes it deliver anything or move,
    until someone resumes or rewinds it or the connection changes. *)
Theorem poll_outcome env s evs latest :
  poll_events env (svc_lastEventID s) = Ok evs -> last evs = Some latest ->
  ev_EventID latest <> svc_lastEventID s -> poll_during env = [] ->
  let subs := svc_subscribers (apply_pending s) in
  (pub_ctx (poll_publish env) = None ->
   (forall x event, x ∈ subs -> event ∈ evs -> pub_handle (poll_publish env) x event = None) ->
   (Store (ev_EventID latest) (svc_store s)).2 = None ->
   exists s', poll env s = Some s' /\ svc_lastEventID s' = ev_EventID latest /\
     Load (svc_store s') = Ok (ev_EventID latest)) /\
  (forall d event e, handleEvents (poll_publish env) subs evs = (d, Some (event, e)) ->
   exists s', poll env s = Some s' /\ event ∈ evs /\
     svc_lastEventID s' = svc_lastEventID s /\ svc_store s' = svc_store s /\
     if transient e then
       svc_paused s' = svc_paused (apply_pending s) /\
       Filter (svc_out s') is_bad_event = Filter (svc_out (apply_pending s)) is_bad_event
     else
       svc_paused s' = true /\
       UserBadEvent (svc_userID s) (svc_lastEventID s) (ev_EventID event) (unpackPublisherError e).2
         ∈ svc_out s' /\
       forall ins s'', Forall quiet ins -> run ins s' = Some s'' -> same_progress s' s'').
Proof.
  intros Hev Hl Hne Hdur subs. destruct (apply_pending_progress s) as (Pu & Pst & Pl & Pd).
  unfold poll. rewrite Pl, Hev, Hl, Hdur. destruct (String.eqb_spec (ev_EventID latest) (svc_lastEventID s)); [done|].
  fold subs. split.
  - intros Hc Hh HS. assert (Hn := handleEvents_ok _ subs evs Hc Hh).
    destruct (handleEvents _ subs evs) as [d f]. simpl in Hn. subst f. cbn [do_calls foldl].
    change (svc_store (deliver d (apply_pending s))) with (svc_store (apply_pending s)). rewrite Pst.
    destruct (Store (ev_EventID latest) (svc_store s)) as [st r] eqn:Hst. simpl in HS. subst r.
    eexists. split; [done|]. apply Load_Store in Hst. case_match; done.
  - intros d event e Hh. rewrite Hh. eexists. split; [done|]. split; [by eapply handleEvents_failure|].
    cbn [do_calls foldl]. set (s1 := deliver d (apply_pending s)).
    destruct (handleEventError_frame (svc_lastEventID s) event e s1) as ((_ & Est & El & _) & _).
    destruct (handleEventError_paused (svc_lastEventID s) event e s1) as (out & Hout & Hp).
    set (s2 := (handleEventError _ _ _ _).1) in *.
    split; [etrans; [exact El|exact Pl]|]. split; [etrans; [exact Est|exact Pst]|].
    destruct (transient e).
    + destruct Hp as [Hp Hb]. split; [exact Hp|]. rewrite Hout, Filter_app.
      rewrite (proj2 (Filter_nil out is_bad_event)); [apply app_nil_r|].
      intros p Hin. rewrite forallb_forall in Hb. apply negb_true_iff, Hb. by apply list_elem_of_In.
    + destruct Hp as [Hp Hb]. split; [done|]. split.
      * rewrite Hout. apply elem_of_app. right. by rewrite <- Pu.
      * intros ins s'' Hq Hr. by apply (paused_quiet ins s2 s'' Hp Hq Hr).
Qed.

(** ** Channels are closed once *)

Definition subscribed_by (c : call) : option Subscriber := match c with CSubscribe x => Some x | _ => None end.
Definition unsubscribed_by (c : call) : option Subscriber := match c with CUnsubscribe x => Some x | _ => None end.
Definition waiter_of (c : call) : option nat := match c with CPauseWithWaiter w => Some w | _ => None end.

Definition added (p : pendingOp * Subscriber) : option Subscriber :=
  match p with (pendingOpAdd, x) => Some x | _ => None end.
Definition removed (p : pendingOp * Subscriber) : option Subscriber :=
  match p with (pendingOpRemove, x) => Some x | _ => None end.

(** Callers subscribe and unsubscribe a subscriber at most once each, and every
    waiter is new. *)
Definition calls_ok (cs : list call) : Prop :=
  NoDup (omap subscribed_by cs) /\ NoDup (omap unsubscribed_by cs) /\ NoDup (omap waiter_of cs).

(** [ps] is the list of pending subscriptions that are still to be applied. *)
Definition channel_inv (cs : list call) (ps : list (pendingOp * Subscriber)) (s : Service) : Prop :=
  NoDup (svc_closed s ++ svc_subscribers s ++ omap added ps) /\
  svc_closed s ++ svc_subscribers s ++ omap added ps ⊆ omap subscribed_by cs /\
  NoDup (omap removed ps) /\ omap removed ps ⊆ omap unsubscribed_by cs /\
  svc_closed s ⊆ omap unsubscribed_by cs /\
  (forall x, x ∈ svc_closed s -> x ∉ omap removed ps) /\
  NoDup (svc_closedWaiters s ++ svc_waiters s) /\
  svc_closedWaiters s ++ svc_waiters s ⊆ omap waiter_of cs.

Lemma calls_ok_app cs cs' : calls_ok (cs ++ cs') -> calls_ok cs.
Proof. unfold calls_ok. rewrite !omap_app, !NoDup_app. tauto. Qed.

Lemma do_call_channels cs c s :
  calls_ok (cs ++ [c]) -> channel_inv cs (svc_pending s) s ->
  channel_inv (cs ++ [c]) (svc_pending (do_call c s)) (do_call c s).
Proof.
  unfold calls_ok. rewrite !omap_app, !NoDup_app.
  intros ((_ & Ha & _) & (_ & Hu & _) & (_ & Hw & _)) (I1 & I2 & I3 & I4 & I5 & I6 & I7 & I8).
  unfold channel_inv. rewrite !omap_app.
  assert (Hl : forall A (l m n : list A), l ⊆ m -> l ⊆ m ++ n) by (intros A l m n Hlm y Hy; apply elem_of_app; auto).
  destruct c as [x|x| |w|]; simpl in *; rewrite ?omap_app; simpl; rewrite ?app_nil_r; split_and!; auto.
  - rewrite !app_assoc. rewrite app_assoc in I1. apply NoDup_app. split_and!; [done| |apply NoDup_singleton].
    intros y Hy ->%list_elem_of_singleton. eapply Ha; [apply I2; by rewrite app_assoc|by apply list_elem_of_singleton].
  - rewrite !app_assoc. rewrite app_assoc in I2. intros y [Hy|Hy]%elem_of_app; apply elem_of_app; auto.
  - apply NoDup_app. split_and!; [done| |apply NoDup_singleton].
    intros y Hy ->%list_elem_of_singleton. eapply Hu; [by apply I4|by apply list_elem_of_singleton].
  - intros y [Hy|Hy]%elem_of_app; apply elem_of_app; auto.
  - intros y Hy [Hy'|Hy']%elem_of_app; [by eapply I6|]. apply list_elem_of_singleton in Hy' as ->.
    eapply Hu; [by apply I5|by apply list_elem_of_singleton].
  - rewrite app_assoc. apply NoDup_app. split_and!; [done| |apply NoDup_singleton].
    intros y Hy ->%list_elem_of_singleton. eapply Hw; [by apply I8|by apply list_elem_of_singleton].
  - rewrite app_assoc. intros y [Hy|Hy]%elem_of_app; apply elem_of_app; auto.
Qed.

Lemma do_calls_channels cs cs' s :
  calls_ok (cs ++ cs') -> channel_inv cs (svc_pending s) s ->
  channel_inv (cs ++ cs') (svc_pending (do_calls cs' s)) (do_calls cs' s).
Proof.
  unfold do_calls. revert cs s. induction cs' as [|c cs' IH]; intros cs s Hok Hi; simpl.
  - by rewrite app_nil_r.
  - rewrite (cons_middle c cs cs') in *. rewrite app_assoc in *. apply IH; [done|].
    apply do_call_channels; [by eapply calls_ok_app|done].
Qed.

Lemma list_Add_new x l : x ∉ l -> list_Add x l = l ++ [x].
Proof. intros Hx. unfold list_Add. by rewrite bool_decide_eq_false_2. Qed.

Lemma list_Remove_perm x l :
  match list_Remove x l with
  | (l', true) => l ≡ₚ x :: l'
  | (l', false) => l' = l
  end.
Proof.
  induction l as [|y l IH]; simpl; [done|]. case_bool_decide as Hy; [by rewrite Hy|].
  destruct (list_Remove x l) as [l' []]; [|by rewrite IH]. rewrite IH. apply Permutation_swap.
Qed.

Lemma apply_pending_one_channels cs p ps s :
  channel_inv cs (p :: ps) s -> channel_inv cs ps (apply_pending_one s p).
Proof.
  intros (I1 & I2 & I3 & I4 & I5 & I6 & I7 & I8). unfold channel_inv.
  destruct p as [[] x]; simpl in *.
  - assert (Hx : x ∉ svc_subscribers s).
    { apply NoDup_app in I1 as (_ & _ & I1). apply NoDup_app in I1 as (_ & I1 & _).
      intros Hx. eapply I1; [exact Hx|apply list_elem_of_here]. }
    rewrite (list_Add_new x _ Hx), <- app_assoc. done.
  - assert (Hr := list_Remove_perm x (svc_subscribers s)). apply NoDup_cons in I3 as [I3 I3'].
    destruct (list_Remove x (svc_subscribers s)) as [l' []]; simpl; [|subst l'; split_and!; auto; set_solver].
    assert (Hp : (svc_closed s ++ [x]) ++ l' ++ omap added ps ≡ₚ svc_closed s ++ svc_subscribers s ++ omap added ps).
    { by rewrite Hr, <- app_assoc. }
    rewrite Hp. split_and!; auto.
    + intros y Hy. apply I4. by apply list_elem_of_further.
    + intros y [Hy|Hy]%elem_of_app; [by apply I5|]. apply I4. apply elem_of_cons. left. by apply list_elem_of_singleton.
    + intros y [Hy|Hy]%elem_of_app Hy'; [eapply I6; [exact Hy|by apply list_elem_of_further]|].
      apply list_elem_of_singleton in Hy as ->. done.
Qed.

Lemma apply_pending_channels cs s :
  channel_inv cs (svc_pending s) s -> channel_inv cs (svc_pending (apply_pending s)) (apply_pending s).
Proof.
  intros Hi. unfold apply_pending. simpl. change (channel_inv cs [] (foldl apply_pending_one s (svc_pending s))).
  revert Hi. generalize (svc_pending s) as ps. intros ps. revert s.
  induction ps as [|p ps IH]; intros s Hi; simpl; [done|]. by apply IH, apply_pending_one_channels.
Qed.

Lemma closePollWaiters_channels cs s :
  channel_inv cs (svc_pending s) s -> channel_inv cs (svc_pending (closePollWaiters s)) (closePollWaiters s).
Proof. unfold channel_inv. simpl. by rewrite app_nil_r. Qed.

(** The fields of the invariant are not touched by a failure. *)
Lemma channel_inv_eq cs s s' :
  svc_closed s' = svc_closed s -> svc_subscribers s' = svc_subscribers s -> svc_pending s' = svc_pending s ->
  svc_waiters s' = svc_waiters s -> svc_closedWaiters s' = svc_closedWaiters s ->
  channel_inv cs (svc_pending s) s -> channel_inv cs (svc_pending s') s'.
Proof. unfold channel_inv. by intros -> -> -> -> ->. Qed.

Lemma channel_inv_later cs cs' ps s : channel_inv cs ps s -> channel_inv (cs ++ cs') ps s.
Proof.
  assert (Hl : forall A (l m n : list A), l ⊆ m -> l ⊆ m ++ n) by (intros A l m n Hlm y Hy; apply elem_of_app; auto).
  intros (I1 & I2 & I3 & I4 & I5 & I6 & I7 & I8). unfold channel_inv. rewrite !omap_app. split_and!; auto.
Qed.

Lemma poll_channels cs env s s' :
  calls_ok (cs ++ poll_during env) -> channel_inv cs (svc_pending s) s -> poll env s = Some s' ->
  channel_inv (cs ++ poll_during env) (svc_pending s') s'.
Proof.
  intros Hok Hi Hp. apply poll_inv in Hp. apply apply_pending_channels in Hi.
  destruct Hp as [|evs d event e _ _|evs latest d st r s1 _ _ _ _ Hs1 _]; [by apply do_calls_channels|..].
  - destruct (handleEventError_frame (svc_lastEventID s) event e
      (do_calls (poll_during env) (deliver d (apply_pending s)))) as (_ & ? & ? & ? & ? & ?).
    eapply channel_inv_eq; [done..|]. by apply do_calls_channels.
  - assert (H1 : channel_inv (cs ++ poll_during env) (svc_pending s1) s1) by (subst s1; by apply do_calls_channels).
    destruct r as [e|]; [exact H1|]. cbv zeta. case_match; [|exact H1].
    apply closePollWaiters_channels. exact H1.
Qed.

Lemma step_channels cs i s s' :
  calls_ok (cs ++ input_calls i) -> channel_inv cs (svc_pending s) s -> step i s = Some s' ->
  channel_inv (cs ++ input_calls i) (svc_pending s') s'.
Proof.
  intros Hok Hi. destruct i as [c|env|id| |env|env|]; simpl in *; rewrite ?app_nil_r in *.
  - intros [= <-]. by apply do_call_channels.
  - destruct (IsPaused s); [intros [= <-]|by apply poll_channels].
    apply closePollWaiters_channels. by apply channel_inv_later.
  - unfold rewindEventLoop. destruct (Store id (svc_store s)) as [st [e|]]; intros [= <-]; exact Hi.
  - by intros [= <-].
  - by apply poll_channels.
  - by apply poll_channels.
  - by intros [= <-].
Qed.

Lemma run_channels cs ins s s' :
  calls_ok (cs ++ (ins ≫= input_calls)) -> channel_inv cs (svc_pending s) s -> run ins s = Some s' ->
  channel_inv (cs ++ (ins ≫= input_calls)) (svc_pending s') s'.
Proof.
  revert cs s. induction ins as [|i ins IH]; intros cs s Hok Hi Hr; simpl in *.
  - rewrite app_nil_r. by simplify_eq.
  - apply bind_Some in Hr as (s1 & H1 & Hr). rewrite app_assoc in *. apply (IH _ s1); [done| |done].
    eapply step_channels; [by eapply calls_ok_app|exact Hi|exact H1].
Qed.

(** [Close] closes every pending subscriber once. *)
Lemma close_pending_closed processed ps s :
  exists l, svc_closed (close_pending processed ps s) = svc_closed s ++ l /\ NoDup l /\
    (forall x, x ∈ l -> x ∈ ps.*2 /\ x ∉ processed) /\ (forall x, x ∈ ps.*2 -> x ∈ processed \/ x ∈ l).
Proof.
  revert processed s. induction ps as [|[op x] ps IH]; intros processed s; cbn [close_pending].
  - exists []. rewrite app_nil_r. repeat split; [constructor|set_solver..].
  - case_bool_decide as Hx.
    + destruct (IH processed s) as (l & Hl & Hn & Hin & Hall). exists l.
      repeat split; [done..|apply elem_of_cons; right; by apply Hin|by apply Hin|].
      intros y [->|Hy]%elem_of_cons; auto.
    + match goal with |- context [close_pending (x :: processed) ps ?s'] =>
        destruct (IH (x :: processed) s') as (l & Hl & Hn & Hin & Hall) end.
      exists (x :: l). split; [rewrite Hl; destruct op; simpl; by rewrite <- app_assoc|].
      split; [apply NoDup_cons; split; [|done]; intros Hxl; apply Hin in Hxl; set_solver|].
      split.
      * intros y [->|Hy]%elem_of_cons; [split; [apply list_elem_of_here|done]|].
        destruct (Hin y Hy). split; [by apply list_elem_of_further|set_solver].
      * intros y [->|Hy]%elem_of_cons; [right; apply list_elem_of_here|].
        destruct (Hall y Hy) as [[->|?]%elem_of_cons|?]; [right; apply list_elem_of_here|auto|].
        right. by apply list_elem_of_further.
Qed.

Lemma elem_of_pending x (ps : list (pendingOp * Subscriber)) :
  x ∈ ps.*2 -> x ∈ omap added ps \/ x ∈ omap removed ps.
Proof.
  intros [[op y] [-> Hy]]%list_elem_of_fmap. simpl. destruct op; [left|right];
    apply list_elem_of_omap; eexists; split; [exact Hy|done|exact Hy|done].
Qed.

(** A Go channel must not be closed twice.  Whatever the loop and the other
    goroutines do from the start of the service, if callers subscribe and
    unsubscribe a subscriber at most once each, then no subscriber's channel is
    closed twice, by the loop or by [Close]; [Close] closes those of all
    subscriptions still pending; and no waiter is closed twice. *)
Theorem channels_closed_once userID st latest ins s :
  calls_ok (ins ≫= input_calls) -> run ins (Start latest (NewService userID st)).1 = Some s ->
  NoDup (svc_closed (Close s)) /\ (forall x, x ∈ (svc_pending s).*2 -> x ∈ svc_closed (Close s)) /\
  NoDup (svc_closedWaiters s ++ svc_waiters s).
Proof.
  intros Hok Hr.
  assert (H0 : channel_inv [] (svc_pending (Start latest (NewService userID st)).1) (Start latest (NewService userID st)).1).
  { unfold Start. repeat case_match; repeat split; simpl; try constructor; set_solver. }
  destruct (run_channels [] ins _ s Hok H0 Hr) as (I1 & _ & _ & _ & _ & I6 & I7 & _).
  unfold Close. simpl. destruct (close_pending_closed [] (svc_pending s) s) as (l & -> & Hn & Hin & Hall).
  split; [|split; [|exact I7]].
  - apply NoDup_app in I1 as (I1 & I1' & _). apply NoDup_app. split_and!; [done| |done].
    intros x Hx Hl. apply Hin in Hl as [[Hl|Hl]%elem_of_pending _]; [|by eapply I6].
    eapply I1'; [exact Hx|]. apply elem_of_app. by right.
  - intros x Hx. apply elem_of_app. right. destruct (Hall x Hx) as [?%elem_of_nil|?]; done.
Qed.

End service.

(** ** Concrete runs *)

(** One implementation of [parallel.DoContext]: one worker. *)
Fixpoint do_in_order (f : nat -> option err) (is_ : list nat) : list nat * option err :=
  match is_ with
  | [] => ([], None)
  | i :: rest =>
      match f i with
      | Some e => ([], Some e)
      | None => let '(l, r) := do_in_order f rest in (i :: l, r)
      end
  end.

Definition one_worker_do (ctx : option err) (n : nat) (f : nat -> option err) : list nat * option err :=
  match ctx with Some e => ([], Some e) | None => do_in_order f (seq 0 n) end.

Lemma do_in_order_spec f is_ l r :
  do_in_order f is_ = (l, r) ->
  Forall (fun i => i ∈ is_ /\ f i = None) l /\
  match r with
  | None => l = is_
  | Some e => exists i, i ∈ is_ /\ f i = Some e
  end.
Proof.
  revert l. induction is_ as [|i is_ IH]; intros l; simpl; [intros [= <- <-]; by split|].
  destruct (f i) as [e|] eqn:Hi.
  - intros [= <- <-]. split; [constructor|]. exists i. split; [apply list_elem_of_here|done].
  - destruct (do_in_order f is_) as [l' r'] eqn:Hd. intros [= <- <-]. destruct (IH _ eq_refl) as [Hl Hr]. split.
    + constructor; [split; [apply list_elem_of_here|done]|]. eapply Forall_impl; [exact Hl|]. intros j [Hj ?].
      split; [by apply list_elem_of_further|done].
    + destruct r' as [e|]; [|by subst]. destruct Hr as (j & Hj & He). exists j. split; [by apply list_elem_of_further|done].
Qed.

#[refine] Definition one_worker : DoContext := {| doContext := one_worker_do |}.
Proof.
  - intros ctx n f l r. unfold one_worker_do. destruct ctx; [intros [= <- <-]; constructor|].
    intros [Hl _]%do_in_order_spec. eapply Forall_impl; [exact Hl|]. intros i [Hi%elem_of_seq ?]. split; [lia|done].
  - intros ctx n f l. unfold one_worker_do. destruct ctx; [done|]. intros [_ ->]%do_in_order_spec i Hi.
    apply elem_of_seq. lia.
  - intros ctx n f l e. unfold one_worker_do. destruct ctx as [e'|]; [intros [= <- <-]; by left|].
    intros [_ (i & Hi%elem_of_seq & He)]%do_in_order_spec. right. exists i. split; [lia|done].
  - intros n f Hf. unfold one_worker_do. destruct (do_in_order f (seq 0 n)) as [l [e|]] eqn:Hd; [|done].
    apply do_in_order_spec in Hd as [_ (i & Hi%elem_of_seq & He)]. rewrite Hf in He by lia. done.
Defined.

Definition ex_log : list Event := emptyEvent <$> ["1"; "2"; "3"].
Definition ex_sub : Subscriber := mkSubscriber 0 "imap".
Definition ex_other : Subscriber := mkSubscriber 1 "smtp".

(** An API that serves [ex_log], two events at a time. *)
Definition ex_events (id : string) : result err (list Event) :=
  match after id ex_log with
  | None => Err (ErrAPI 422)
  | Some [] => Ok [emptyEvent id]
  | Some rest => Ok (take 2 rest)
  end.

(** [fails] tells which subscriber fails and how. *)
Definition ex_poll (fails : Subscriber -> option err) (during : list call) : poll_env :=
  mkPollEnv ex_events (mkPublishEnv (fun x _ => fails x) None) during.

Definition ex_fail (e : err) (x : Subscriber) : option err :=
  if bool_decide (x = ex_other) then Some e else None.

Lemma ex_source_ok fails during : source_ok ex_log (ex_poll fails during).
Proof.
  intros id evs. simpl. unfold ex_events. destruct (after id ex_log) as [[|e rest]|] eqn:Ha; intros [= <-].
  - left. eauto.
  - right. exists (drop 1 rest). simpl. by rewrite take_drop.
Qed.

(** A run with a transient failure of the second subscriber, a pause and a resume. *)
Definition ex_inputs : list input :=
  [ICall (CSubscribe ex_other); ITick (ex_poll (ex_fail (ErrAPI 503)) []);
   ICall CPause; ITick (ex_poll (fun _ => None) []); ICall CResume; ITick (ex_poll (fun _ => None) [])].

Definition ex_service : @Service InMemoryEventIDStore :=
  @mkService InMemoryEventIDStore "user" "1" "1" false [ex_sub] [] [] [] [] [] [] [].

Lemma events_at_least_once_witness :
  exists s' : @Service InMemoryEventIDStore,
    @run one_worker InMemoryEventIDStore ex_inputs ex_service = Some s' /\ svc_lastEventID s' = "3" /\
    handled_up_to ex_log "1" ex_sub (svc_delivered s') (svc_lastEventID s').
Proof.
  assert (Hlast : match @run one_worker InMemoryEventIDStore ex_inputs ex_service with
                  | Some s' => svc_lastEventID s' = "3" | None => False end) by (vm_compute; reflexivity).
  destruct (@run one_worker InMemoryEventIDStore ex_inputs ex_service) as [s'|] eqn:Hr; [|destruct Hlast].
  exists s'. split; [reflexivity|]. split; [exact Hlast|].
  refine (proj1 (@events_at_least_once one_worker InMemoryEventIDStore ex_log _ "1" ex_sub ex_inputs
    ex_service s' _ _ _ _ _ _ Hr)).
  - apply (bool_decide_unpack _). vm_compute. exact I.
  - split; [apply list_elem_of_here|apply not_elem_of_nil].
  - reflexivity.
  - reflexivity.
  - by eexists.
  - repeat (apply Forall_cons_2; [split; [try exact I; apply ex_source_ok|exact I]|]). apply Forall_nil_2.
  - intros i Hi. repeat (apply elem_of_cons in Hi as [->|Hi]; [by intros ?%list_elem_of_singleton || apply not_elem_of_nil|]).
    by apply elem_of_nil in Hi.
Defined.

Lemma poll_outcome_witness :
  exists s', @poll one_worker InMemoryEventIDStore (ex_poll (fun _ => None) []) ex_service = Some s' /\
    svc_lastEventID s' = "3".
Proof.
  destruct (@poll_outcome one_worker InMemoryEventIDStore (ex_poll (fun _ => None) []) ex_service
    [emptyEvent "2"; emptyEvent "3"] (emptyEvent "3")) as [Hok _].
  - reflexivity.
  - reflexivity.
  - discriminate.
  - reflexivity.
  - destruct Hok as (s' & Hp & Hl & _); [reflexivity..|]. exists s'. split; [exact Hp|exact Hl].
Defined.

Definition ex_closing : list input :=
  [ICall (CSubscribe ex_sub); ICall CResume; ITick (ex_poll (fun _ => None) [CUnsubscribe ex_sub]);
   ICall (CSubscribe ex_other); ICall (CUnsubscribe ex_other)].

Lemma channels_closed_once_witness :
  match @run one_worker InMemoryEventIDStore ex_closing
      (Start (Ok "1") (@NewService InMemoryEventIDStore "user" "")).1 with
  | Some s => svc_closed (Close s) = [ex_sub; ex_other] /\ NoDup (svc_closed (Close s))
  | None => False
  end.
Proof.
  assert (Hlast : match @run one_worker InMemoryEventIDStore ex_closing
      (Start (Ok "1") (@NewService InMemoryEventIDStore "user" "")).1 with
      | Some s => svc_closed (Close s) = [ex_sub; ex_other] | None => False end) by (vm_compute; reflexivity).
  destruct (@run one_worker InMemoryEventIDStore ex_closing _) as [s|] eqn:Hr; [|exact Hlast].
  split; [exact Hlast|].
  refine (proj1 (@channels_closed_once one_worker InMemoryEventIDStore "user" "" (Ok "1") ex_closing s _ Hr)).
  apply (bool_decide_unpack _). vm_compute. exact I.
Defined.

(** A tick of a service polls an API that answers with no event at all and
    panics. *)
Lemma poll_empty_panics s :
  @step one_worker InMemoryEventIDStore
    (ITick (mkPollEnv (fun _ => Ok []) (mkPublishEnv (fun _ _ => None) None) [])) (Resume s) = None.
Proof. reflexivity. Qed.

(** A paused service that loses its connection still polls and delivers. *)
Lemma connection_lost_polls :
  exists s', @step one_worker InMemoryEventIDStore (IConnStatusDown (ex_poll (fun _ => None) []))
    (Pause ex_service) = Some s' /\ svc_lastEventID s' = "3".
Proof. eexists. split; reflexivity. Qed.
