(* ===== verification/UserIdentity.v ===== *)
(** * User identity (internal/services/useridentity/state.go and service.go,
      internal/usertypes/types.go, addressmode.go and keys.go, pkg/algo/encode.go)

    The addresses of a user, kept as a map and as a list sorted by order, the
    events that change them, what the service publishes about them, and the check
    of the credentials of mail clients. *)

From S2P Require Import Prelude.
From S2P Require Import Strings.
From S2P Require Import Api.
From S2P Require Import UserEvents.

(** ** Base64 of bridge passwords (pkg/algo/encode.go)

    A byte is a number below 256.  [base64.RawURLEncoding] has no padding; its
    decoder skips line breaks. *)

Definition is_byte (b : Z) : Prop := 0 <= b < 256.

Definition b64_char (v : Z) : Z :=
  if v <? 26 then 65 + v else if v <? 52 then 71 + v else if v <? 62 then v - 4
  else if v =? 62 then 45 else 95.

Definition b64_value (c : Z) : option Z :=
  if (65 <=? c) && (c <=? 90) then Some (c - 65)
  else if (97 <=? c) && (c <=? 122) then Some (c - 71)
  else if (48 <=? c) && (c <=? 57) then Some (c + 4)
  else if c =? 45 then Some 62
  else if c =? 95 then Some 63
  else None.

(** Three bytes, or the last one or two, as sextets. *)
Fixpoint B64RawEncode (b : list Z) : list Z :=
  match b with
  | [] => []
  | [x] => [b64_char (x / 4); b64_char ((x mod 4) * 16)]
  | [x; y] => [b64_char (x / 4); b64_char ((x mod 4) * 16 + y / 16); b64_char ((y mod 16) * 4)]
  | x :: y :: z :: rest =>
      b64_char (x / 4) :: b64_char ((x mod 4) * 16 + y / 16)
      :: b64_char ((y mod 16) * 4 + z / 64) :: b64_char (z mod 64) :: B64RawEncode rest
  end.

Fixpoint b64_groups (c : list Z) : option (list Z) :=
  match c with
  | [] => Some []
  | [_] => None
  | [p; q] => p ← b64_value p; q ← b64_value q; Some [p * 4 + q / 16]
  | [p; q; r] =>
      p ← b64_value p; q ← b64_value q; r ← b64_value r;
      Some [p * 4 + q / 16; (q mod 16) * 16 + r / 4]
  | p :: q :: r :: s :: rest =>
      p ← b64_value p; q ← b64_value q; r ← b64_value r; s ← b64_value s;
      tail ← b64_groups rest;
      Some (p * 4 + q / 16 :: (q mod 16) * 16 + r / 4 :: (r mod 4) * 64 + s :: tail)
  end.

Definition B64RawDecode (b : list Z) : option (list Z) :=
  b64_groups (Filter b (fun c => negb ((c =? 10) || (c =? 13)))).

Lemma b64_value_char v : 0 <= v < 64 -> b64_value (b64_char v) = Some v.
Proof.
  intros Hv. unfold b64_value, b64_char.
  repeat match goal with |- context [Z.ltb ?a ?b] => destruct (Z.ltb_spec a b) end;
  repeat match goal with |- context [Z.eqb ?a ?b] => destruct (Z.eqb_spec a b) end;
  repeat match goal with |- context [Z.leb ?a ?b] => destruct (Z.leb_spec a b) end;
  simpl; try lia; f_equal; lia.
Qed.

Lemma b64_char_visible v : 0 <= v < 64 -> negb ((b64_char v =? 10) || (b64_char v =? 13)) = true.
Proof.
  intros Hv. assert (45 <= b64_char v) by (unfold b64_char; repeat case_match; boolp; lia).
  destruct (Z.eqb_spec (b64_char v) 10), (Z.eqb_spec (b64_char v) 13); simpl; first [done|exfalso; lia].
Qed.

Ltac sextets := Z.to_euclidean_division_equations; lia.

(** Every byte string is decoded from its encoding. *)
Lemma B64RawDecode_Encode b : Forall is_byte b -> B64RawDecode (B64RawEncode b) = Some b.
Proof.
  unfold B64RawDecode. assert (Hgen : forall n b, (length b <= n)%nat -> Forall is_byte b ->
    b64_groups (Filter (B64RawEncode b) (fun c => negb ((c =? 10) || (c =? 13)))) = Some b); [|by eapply Hgen].
  clear b. induction n as [|n IH]; intros b Hn Hb.
  { destruct b; [done|simpl in Hn; lia]. }
  unfold is_byte in *.
  destruct b as [|x [|y [|z rest]]]; [done|..];
    repeat match goal with H : Forall _ (_ :: _) |- _ => apply Forall_cons in H as [? ?] end.
  - cbn [B64RawEncode Filter]. rewrite !b64_char_visible by sextets. cbn [b64_groups].
    rewrite !b64_value_char by sextets. cbn [mbind option_bind]. do 2 f_equal. sextets.
  - cbn [B64RawEncode Filter]. rewrite !b64_char_visible by sextets. cbn [b64_groups].
    rewrite !b64_value_char by sextets. cbn [mbind option_bind]. do 3 f_equal; [|f_equal]; sextets.
  - cbn [B64RawEncode Filter]. rewrite !b64_char_visible by sextets. cbn [b64_groups].
    rewrite !b64_value_char by sextets. cbn [mbind option_bind].
    rewrite (IH rest) by (done || (simpl in Hn; lia)). cbn [mbind option_bind].
    f_equal. f_equal; [sextets|]. f_equal; [sextets|]. f_equal. sextets.
Qed.

(** ** Helpers (internal/usertypes) *)

(** The address without the part after the plus sign of its local part. *)
Definition SanitizeEmail (email : string) : string :=
  match Split at_sign email with
  | [user; domain] => hd "" (Split plus_sign user) +:+ String at_sign domain
  | _ => email
  end.

Definition GroupBy {Value : Type} (items : list Value) (key : Value -> string) : gmap string Value :=
  foldl (fun groups item => <[key item := item]> groups) ∅ items.

Section usertypes.
Context `{MapRange, SortFunc}.

Definition sortAddresses (addr : list Address) : list Address := sort_by addr_Order addr.

Definition GetAddrID (apiAddrs : gmap string Address) (email : string) : result err string :=
  match find_first (fun addr => EqualFold (addr_Email addr) (SanitizeEmail email)) (Values apiAddrs) with
  | Some addr => Ok (addr_ID addr)
  | None => Err (ErrOther "address not found")
  end.

Definition GetAddrIdx (apiAddrs : gmap string Address) (idx : Z) : result err Address :=
  let sorted := sortAddresses (Values apiAddrs) in
  if idx <? 0 then Err (ErrOther "address index out of range")
  else match sorted !! Z.to_nat idx with
       | Some a => Ok a
       | None => Err (ErrOther "address index out of range")
       end.

Definition GetPrimaryAddr (apiAddrs : gmap string Address) : result err Address :=
  match sortAddresses (Values apiAddrs) with
  | [] => Err (ErrOther "no addresses available")
  | a :: _ => Ok a
  end.

End usertypes.

(** The vault stores the mode of a user; [VaultMode] are its two values. *)
Inductive AddressMode : Type := AddressModeCombined | AddressModeSplit.
Inductive VaultMode : Type := CombinedMode | SplitMode.

Definition VaultToAddressMode (mode : VaultMode) : AddressMode :=
  match mode with SplitMode => AddressModeSplit | CombinedMode => AddressModeCombined end.
Definition AddressModeToVault (mode : AddressMode) : VaultMode :=
  match mode with AddressModeCombined => CombinedMode | AddressModeSplit => SplitMode end.

(** *** Keys

    [Unlock keys keyPass userKR] is the cryptographic library, [CountEntities] counts
    the keys a ring can decrypt with. *)
Section keys.
Context `{MapRange} {KeyRing : Type}.
Context (Unlock : list string -> list Z -> option KeyRing -> result err KeyRing).
Context (CountEntities : KeyRing -> Z).

Definition WithAddrKR {S} (apiUser : User) (apiAddr : Address) (keyPass : list Z)
    (fn : KeyRing -> KeyRing -> S -> S * option err) (s : S) : S * option err :=
  match Unlock (user_Keys apiUser) keyPass None with
  | Err e => (s, Some (ErrWrap "failed to unlock user keys" e))
  | Ok userKR =>
      match Unlock (addr_Keys apiAddr) keyPass (Some userKR) with
      | Err e => (s, Some (ErrWrap "failed to unlock address keys" e))
      | Ok addrKR => fn userKR addrKR s
      end
  end.

(** The loop over the addresses. *)
Definition unlock_address (keyPass : list Z) (userKR : KeyRing) (addrKRs : gmap string KeyRing)
    (b : string * Address) : gmap string KeyRing :=
  match Unlock (addr_Keys b.2) keyPass (Some userKR) with
  | Err _ => addrKRs
  | Ok addrKR => if CountEntities addrKR =? 0 then addrKRs else <[b.1 := addrKR]> addrKRs
  end.

Definition WithAddrKRs {S} (apiUser : User) (apiAddr : gmap string Address) (keyPass : list Z)
    (fn : KeyRing -> gmap string KeyRing -> S -> S * option err) (s : S) : S * option err :=
  match Unlock (user_Keys apiUser) keyPass None with
  | Err e => (s, Some (ErrWrap "failed to unlock user keys" e))
  | Ok userKR => fn userKR (foldl (unlock_address keyPass userKR) ∅ (map_range apiAddr)) s
  end.

End keys.

(** ** The identity state (state.go) *)

(** The answers of the API client of the state. *)
Record IdentityProvider : Type := mkProvider {
  prov_GetUser : result err User;
  prov_GetAddresses : result err (list Address)
}.

Record State : Type := mkState {
  AddressesSorted : list Address;
  Addresses : gmap string Address;
  st_User : User
}.

Inductive AddressUpdate : Type :=
| AddressUpdateNoop
| AddressUpdateCreated
| AddressUpdateEnabled
| AddressUpdateDisabled
| AddressUpdateUpdated
| AddressUpdateDeleted.

#[global] Instance AddressUpdate_eq_dec : EqDecision AddressUpdate.
Proof. solve_decision. Defined.

Definition buildAddressMapFromSlice (addr : list Address) : gmap string Address := GroupBy addr addr_ID.

(** A call that may panic. *)
Inductive checked (A : Type) : Type := Returns (a : A) | Panics.
Arguments Returns {A} _.
Arguments Panics {A}.

Section state.
Context `{MR : MapRange, SF : SortFunc}.

Definition with_addresses (m : gmap string Address) (s : State) : State :=
  mkState (sortAddresses (Values m)) m (st_User s).

Definition NewState (user : User) (addresses : list Address) : State :=
  let addressMap := buildAddressMapFromSlice addresses in
  mkState (sortAddresses (Values addressMap)) addressMap user.

Definition NewStateFromProvider (provider : IdentityProvider) : result err State :=
  match prov_GetUser provider with
  | Err e => Err (ErrWrap "failed to get user" e)
  | Ok user =>
      match prov_GetAddresses provider with
      | Err e => Err (ErrWrap "failed to get user addresses" e)
      | Ok addresses => Ok (NewState user addresses)
      end
  end.

Definition GetAddr (email : string) (s : State) : result err Address :=
  match find_first (fun addr => EqualFold (addr_Email addr) (SanitizeEmail email)) (AddressesSorted s) with
  | Some addr => Ok addr
  | None => Err (ErrOther "address not found")
  end.

Definition GetAddrByID (id : string) (s : State) : option Address := Addresses s !! id.

Definition state_GetPrimaryAddr (s : State) : result err Address :=
  match AddressesSorted s with
  | [] => Err (ErrOther "no addresses available")
  | a :: _ => Ok a
  end.

Definition OnUserEvent (user : User) (s : State) : State := mkState (AddressesSorted s) (Addresses s) user.

Definition OnRefreshEvent (provider : IdentityProvider) (s : State) : State * option err :=
  match prov_GetUser provider with
  | Err e => (s, Some (ErrWrap "failed to get user" e))
  | Ok user =>
      match prov_GetAddresses provider with
      | Err e => (s, Some (ErrWrap "failed to get addresses" e))
      | Ok addresses => (with_addresses (buildAddressMapFromSlice addresses) (OnUserEvent user s), None)
      end
  end.

Definition OnUserSpaceChanged (value : Z) (s : State) : State * bool :=
  let u := st_User s in
  if user_UsedSpace u =? value then (s, false)
  else (OnUserEvent (mkUser (user_ID u) (user_Name u) value (user_Keys u)) s, true).

Definition OnAddressCreated (event : AddressEvent) (s : State) : State * AddressUpdate :=
  let a := ae_Address event in
  match Addresses s !! addr_ID a with
  | Some _ => (s, AddressUpdateNoop)
  | None =>
      (with_addresses (<[addr_ID a := a]> (Addresses s)) s,
       if enabled (addr_Status a) then AddressUpdateCreated else AddressUpdateNoop)
  end.

Definition OnAddressUpdated (event : AddressEvent) (s : State) : State * (Address * AddressUpdate) :=
  let a := ae_Address event in
  match Addresses s !! addr_ID a with
  | None => let '(s', u) := OnAddressCreated event s in (s', (a, u))
  | Some oldAddr =>
      (with_addresses (<[addr_ID a := a]> (Addresses s)) s,
       (a, if negb (enabled (addr_Status oldAddr)) && enabled (addr_Status a) then AddressUpdateEnabled
           else if enabled (addr_Status oldAddr) && negb (enabled (addr_Status a)) then AddressUpdateDisabled
           else AddressUpdateUpdated))
  end.

Definition OnAddressDeleted (event : AddressEvent) (s : State) : State * (Address * AddressUpdate) :=
  match Addresses s !! ae_ID event with
  | None => (s, (zeroAddress, AddressUpdateNoop))
  | Some addr =>
      (with_addresses (delete (ae_ID event) (Addresses s)) s,
       if enabled (addr_Status addr) then (addr, AddressUpdateDeleted) else (zeroAddress, AddressUpdateNoop))
  end.

Definition OnAddressEvent (evt : AddressEvent) (s : State) : State :=
  match ae_Action evt with
  | EventCreate => (OnAddressCreated evt s).1
  | EventUpdate | EventUpdateFlags => (OnAddressUpdated evt s).1
  | EventDelete => (OnAddressDeleted evt s).1
  | EventActionOther _ => s
  end.

Definition OnAddressEvents (events : list AddressEvent) (s : State) : State :=
  foldl (fun s evt => OnAddressEvent evt s) s events.

Definition Clone (s : State) : State :=
  mkState (AddressesSorted s) (map_fold (fun k v m => <[k := v]> m) ∅ (Addresses s)) (st_User s).

(** [bridgePass] is what [bridgePassProvider.BridgePass] returns; the comparison is
    the equality of byte strings, in constant time. *)
Definition CheckAuth (bridgePass : list Z) (email : string) (password : list Z) (s : State)
    : checked (result err string) :=
  if String.eqb email "crash@bandicoot" then Panics
  else Returns
    match B64RawDecode password with
    | None => Err (ErrOther "failed to decode password")
    | Some dec =>
        if negb (bool_decide (bridgePass = dec)) then Err (ErrOther "invalid password")
        else
          match find_first (fun addr => enabled (addr_Status addr) && EqualFold (addr_Email addr) email)
                  (AddressesSorted s) with
          | Some addr => Ok (addr_ID addr)
          | None => Err (ErrOther "invalid email")
          end
    end.

Definition state_WithAddrKR {KeyRing T} Unlock (addrID : string) (keyPass : list Z)
    (fn : KeyRing -> KeyRing -> T -> T * option err) (s : State) (t : T) : T * option err :=
  match Addresses s !! addrID with
  | None => (t, Some (ErrOther "address not found"))
  | Some addr => WithAddrKR Unlock (st_User s) addr keyPass fn t
  end.

Definition state_WithAddrKRs {KeyRing T} Unlock CountEntities (keyPass : list Z)
    (fn : KeyRing -> gmap string KeyRing -> T -> T * option err) (s : State) : T -> T * option err :=
  WithAddrKRs Unlock CountEntities (st_User s) (Addresses s) keyPass fn.

(** ** The identity service (service.go) *)

(** What the service publishes (internal/events). *)
Inductive bridge_event : Type :=
| UsedSpaceChanged (userID : string) (usedSpace : Z)
| UserChanged (userID : string)
| UserRefreshed (userID : string) (cancelEventPool : bool)
| UserAddressCreated (userID addressID email : string)
| UserAddressEnabled (userID addressID email : string)
| UserAddressDisabled (userID addressID email : string)
| UserAddressUpdated (userID addressID email : string)
| UserAddressDeleted (userID addressID email : string).

(** The identity and what was published so far. *)
Record IdService : Type := mkIdService { identity : State; id_out : list bridge_event }.

Definition PublishEvent (e : bridge_event) (s : IdService) : IdService :=
  mkIdService (identity s) (id_out s ++ [e]).
Definition set_identity (i : State) (s : IdService) : IdService := mkIdService i (id_out s).
Definition UserID (s : IdService) : string := user_ID (st_User (identity s)).

Definition HandleUsedSpaceEvent (newSpace : Z) (s : IdService) : IdService * option err :=
  let '(i, changed) := OnUserSpaceChanged (u64 newSpace) (identity s) in
  let s := set_identity i s in
  (if changed then PublishEvent (UsedSpaceChanged (UserID s) (u64 newSpace)) s else s, None).

Definition HandleUserEvent (user : User) (s : IdService) : IdService * option err :=
  (PublishEvent (UserChanged (user_ID user)) (set_identity (OnUserEvent user (identity s)) s), None).

Definition HandleAddressEvent (event : AddressEvent) (s : IdService) : IdService :=
  match ae_Action event with
  | EventCreate =>
      let '(i, u) := OnAddressCreated event (identity s) in
      let s := set_identity i s in
      match u with
      | AddressUpdateCreated =>
          PublishEvent (UserAddressCreated (UserID s) (addr_ID (ae_Address event)) (addr_Email (ae_Address event))) s
      | _ => s
      end
  | EventUpdate | EventUpdateFlags =>
      let '(i, (addr, status)) := OnAddressUpdated event (identity s) in
      let s := set_identity i s in
      match status with
      | AddressUpdateCreated => PublishEvent (UserAddressCreated (UserID s) (addr_ID addr) (addr_Email addr)) s
      | AddressUpdateUpdated => PublishEvent (UserAddressUpdated (UserID s) (addr_ID addr) (addr_Email addr)) s
      | AddressUpdateDisabled => PublishEvent (UserAddressDisabled (UserID s) (addr_ID addr) (addr_Email addr)) s
      | AddressUpdateEnabled => PublishEvent (UserAddressEnabled (UserID s) (addr_ID addr) (addr_Email addr)) s
      | AddressUpdateNoop | AddressUpdateDeleted => s
      end
  | EventDelete =>
      let '(i, (addr, status)) := OnAddressDeleted event (identity s) in
      let s := set_identity i s in
      match status with
      | AddressUpdateDeleted => PublishEvent (UserAddressDeleted (UserID s) (ae_ID event) (addr_Email addr)) s
      | _ => s
      end
  | EventActionOther _ => s
  end.

Definition HandleAddressEvents (addressEvents : list AddressEvent) (s : IdService) : IdService * option err :=
  (foldl (fun s event => HandleAddressEvent event s) s addressEvents, None).

Definition HandleRefreshEvent (provider : IdentityProvider) (flag : Z * string) (s : IdService)
    : IdService * option err :=
  match OnRefreshEvent provider (identity s) with
  | (i, Some e) => (set_identity i s, Some e)
  | (i, None) => let s := set_identity i s in (PublishEvent (UserRefreshed (UserID s) false) s, None)
  end.

(** The handlers the service registers, and its request loop. *)
Definition identityHandler (provider : IdentityProvider) : EventHandler IdService :=
  mkEventHandler (Some (HandleRefreshEvent provider)) None (Some HandleUserEvent) (Some HandleAddressEvents)
    None None (Some HandleUsedSpaceEvent) None.

Inductive request : Type :=
| resyncReq
| getUserReq
| getAddressesReq
| checkAuthReq (email : string) (password : list Z).

Inductive reply : Type :=
| RNil (e : option err)
| RUser (u : User)
| RAddresses (m : gmap string Address)
| RAuth (r : checked (result err string)).

Definition serve (provider : IdentityProvider) (bridgePass : list Z) (r : request) (s : IdService)
    : IdService * reply :=
  match r with
  | resyncReq => let '(i, e) := OnRefreshEvent provider (identity s) in (set_identity i s, RNil e)
  | getUserReq => (s, RUser (st_User (identity s)))
  | getAddressesReq => (s, RAddresses (Addresses (identity s)))
  | checkAuthReq email password => (s, RAuth (CheckAuth bridgePass email password (identity s)))
  end.

(** One iteration of [run]: a request or an event, with what the API answers. *)
Inductive id_input : Type :=
| IdRequest (provider : IdentityProvider) (bridgePass : list Z) (r : request)
| IdEvent (provider : IdentityProvider) (event : Event).

Definition id_step (s : IdService) (i : id_input) : IdService :=
  match i with
  | IdRequest provider bridgePass r => (serve provider bridgePass r s).1
  | IdEvent provider event => (OnEvent (identityHandler provider) event s).1
  end.

(** ** The invariant of the state *)

(** The map is keyed by identifiers, and the list holds exactly the addresses of
    the map, by increasing order. *)
Definition identity_ok (s : State) : Prop :=
  map_Forall (fun id a => addr_ID a = id) (Addresses s) /\
  AddressesSorted s ≡ₚ (map_to_list (Addresses s)).*2 /\
  StronglySorted Z.le (addr_Order <$> AddressesSorted s).

Lemma with_addresses_ok m s :
  map_Forall (fun id a => addr_ID a = id) m -> identity_ok (with_addresses m s).
Proof.
  intros Hm. split; [done|]. simpl. unfold sortAddresses. split; [|apply sort_by_sorted].
  rewrite sort_by_perm. unfold Values. by rewrite map_range_perm.
Qed.

Lemma GroupBy_snoc {V} (items : list V) x key : GroupBy (items ++ [x]) key = <[key x := x]> (GroupBy items key).
Proof. unfold GroupBy. by rewrite foldl_app. Qed.

Lemma buildAddressMap_keys addr : map_Forall (fun id a => addr_ID a = id) (buildAddressMapFromSlice addr).
Proof.
  unfold buildAddressMapFromSlice. induction addr as [|a addr IH] using rev_ind; [apply map_Forall_empty|].
  rewrite GroupBy_snoc. by apply map_Forall_insert_2.
Qed.

Lemma NewState_ok user addr : identity_ok (NewState user addr).
Proof. apply (with_addresses_ok _ (mkState [] ∅ user)), buildAddressMap_keys. Qed.

Lemma OnUserEvent_ok user s : identity_ok s -> identity_ok (OnUserEvent user s).
Proof. done. Qed.

Lemma OnRefreshEvent_ok p s : identity_ok s -> identity_ok (OnRefreshEvent p s).1.
Proof.
  intros Hs. unfold OnRefreshEvent. destruct (prov_GetUser p); [|done]. destruct (prov_GetAddresses p); [|done].
  apply with_addresses_ok, buildAddressMap_keys.
Qed.

Lemma OnUserSpaceChanged_ok v s : identity_ok s -> identity_ok (OnUserSpaceChanged v s).1.
Proof. unfold OnUserSpaceChanged. by case_match. Qed.

Lemma OnAddressCreated_ok ev s : identity_ok s -> identity_ok (OnAddressCreated ev s).1.
Proof.
  intros Hs. unfold OnAddressCreated. destruct (Addresses s !! _); [done|].
  apply with_addresses_ok, map_Forall_insert_2; [done|apply Hs].
Qed.

Lemma OnAddressUpdated_ok ev s : identity_ok s -> identity_ok (OnAddressUpdated ev s).1.
Proof.
  intros Hs. assert (Hc := OnAddressCreated_ok ev s Hs). unfold OnAddressUpdated. destruct (Addresses s !! _).
  - apply with_addresses_ok, map_Forall_insert_2; [done|apply Hs].
  - by destruct (OnAddressCreated ev s).
Qed.

Lemma OnAddressDeleted_ok ev s : identity_ok s -> identity_ok (OnAddressDeleted ev s).1.
Proof.
  intros Hs. unfold OnAddressDeleted. destruct (Addresses s !! _); [|done].
  apply with_addresses_ok, map_Forall_delete, Hs.
Qed.

#[local] Hint Resolve OnUserEvent_ok OnRefreshEvent_ok OnUserSpaceChanged_ok OnAddressCreated_ok
  OnAddressUpdated_ok OnAddressDeleted_ok : bridge.

(** Publishing does not change the identity. *)
Lemma HandleAddressEvent_identity ev s : identity (HandleAddressEvent ev s) = OnAddressEvent ev (identity s).
Proof.
  unfold HandleAddressEvent, OnAddressEvent. destruct (ae_Action ev); [..|done].
  - destruct (OnAddressDeleted ev (identity s)) as [i [a []]]; done.
  - destruct (OnAddressCreated ev (identity s)) as [i []]; done.
  - destruct (OnAddressUpdated ev (identity s)) as [i [a []]]; done.
  - destruct (OnAddressUpdated ev (identity s)) as [i [a []]]; done.
Qed.

Lemma OnAddressEvent_ok ev s : identity_ok s -> identity_ok (OnAddressEvent ev s).
Proof. unfold OnAddressEvent. destruct (ae_Action ev); auto with bridge. Qed.

Lemma HandleAddressEvents_identity evs s :
  identity (HandleAddressEvents evs s).1 = OnAddressEvents evs (identity s).
Proof.
  unfold HandleAddressEvents, OnAddressEvents. simpl. revert s. induction evs as [|ev evs IH]; intros s; simpl; [done|].
  by rewrite IH, HandleAddressEvent_identity.
Qed.

Lemma OnAddressEvents_ok evs s : identity_ok s -> identity_ok (OnAddressEvents evs s).
Proof.
  unfold OnAddressEvents. revert s. induction evs as [|ev evs IH]; intros s Hs; simpl; [done|].
  by apply IH, OnAddressEvent_ok.
Qed.

Lemma id_step_ok s i : identity_ok (identity s) -> identity_ok (identity (id_step s i)).
Proof.
  intros Hs. destruct i as [p pass r|p ev]; simpl.
  - destruct r; simpl; [|done..]. assert (Ho := OnRefreshEvent_ok p _ Hs). by destruct (OnRefreshEvent p (identity s)).
  - apply (OnEvent_keeps (fun s => identity_ok (identity s))); [..|done]; intros f a t; simpl; try done; intros [= <-] Ht.
    + unfold HandleRefreshEvent. assert (Ho := OnRefreshEvent_ok p _ Ht).
      by destruct (OnRefreshEvent p (identity t)) as [i [e|]].
    + done.
    + rewrite HandleAddressEvents_identity. by apply OnAddressEvents_ok.
    + unfold HandleUsedSpaceEvent. assert (Ho := OnUserSpaceChanged_ok (u64 a) _ Ht).
      by destruct (OnUserSpaceChanged (u64 a) (identity t)) as [i []].
Qed.

(** What the invariant gives to the clients of the state. *)
Lemma elem_of_sorted s a :
  identity_ok s -> a ∈ AddressesSorted s <-> Addresses s !! addr_ID a = Some a.
Proof.
  intros (Hk & Hp & _). rewrite Hp, list_elem_of_fmap. split.
  - intros [[id b] [-> Hb]]. apply elem_of_map_to_list in Hb. simpl. by rewrite (Hk _ _ Hb).
  - intros Ha. exists (addr_ID a, a). split; [done|]. by apply elem_of_map_to_list.
Qed.

(** Whatever requests and events the identity service handles, in whatever order
    and with whatever answers of the API, the list and the map of addresses keep
    describing the same addresses: an address is in the list exactly when the map
    has it under its own identifier, the list has no duplicates and is sorted by
    order, so the primary address is one of least order, and there is none exactly
    when there is no address at all. *)
Theorem identity_invariant user addresses ins :
  let s := identity (foldl id_step (mkIdService (NewState user addresses) []) ins) in
  (forall a, a ∈ AddressesSorted s <-> GetAddrByID (addr_ID a) s = Some a) /\
  (forall id a, GetAddrByID id s = Some a -> addr_ID a = id) /\
  NoDup (addr_ID <$> AddressesSorted s) /\ StronglySorted Z.le (addr_Order <$> AddressesSorted s) /\
  match state_GetPrimaryAddr s with
  | Ok p => GetAddrByID (addr_ID p) s = Some p /\
            forall id a, GetAddrByID id s = Some a -> addr_Order p <= addr_Order a
  | Err _ => Addresses s = ∅
  end.
Proof.
  intros s. assert (Hs : identity_ok s).
  { subst s. generalize (NewState_ok user addresses). generalize (@nil bridge_event).
    generalize (NewState user addresses). intros st out Hst.
    assert (Hi : identity_ok (identity (mkIdService st out))) by done. revert Hi.
    generalize (mkIdService st out). induction ins as [|i ins IH]; intros sv Hsv; simpl; [done|].
    by apply IH, id_step_ok. }
  clearbody s. assert (Hmem := fun a => elem_of_sorted s a Hs). destruct Hs as (Hk & Hp & Hsort).
  unfold GetAddrByID. split; [done|]. split; [apply Hk|].
  assert (Hkeys : addr_ID <$> (map_to_list (Addresses s)).*2 = (map_to_list (Addresses s)).*1).
  { rewrite <- list_fmap_compose. apply list_fmap_ext. intros i [id a] Hi. simpl. apply Hk.
    apply elem_of_map_to_list. by eapply list_elem_of_lookup_2. }
  split; [rewrite Hp, Hkeys; apply NoDup_fst_map_to_list|]. split; [done|].
  unfold state_GetPrimaryAddr. destruct (AddressesSorted s) as [|p rest] eqn:Hl.
  - symmetry in Hp. apply Permutation_nil_r in Hp. apply fmap_nil_inv in Hp. by apply map_to_list_empty_iff.
  - split; [apply Hmem, list_elem_of_here|]. intros id a Ha.
    assert (Hin : a ∈ p :: rest) by (apply Hmem; by rewrite (Hk _ _ Ha)).
    apply elem_of_cons in Hin as [->|Hin]; [lia|]. simpl in Hsort. apply StronglySorted_inv in Hsort as [_ Hf].
    rewrite Forall_forall in Hf. apply Hf. by apply list_elem_of_fmap_2.
Qed.

(** ** What is published *)

(** The enabled addresses with their mail address: what clients see of an account. *)
Definition enabled_emails (s : State) : gmap string string :=
  omap (fun a => if enabled (addr_Status a) then Some (addr_Email a) else None) (Addresses s).

(** A listener that keeps the enabled addresses from the published events alone. *)
Definition observe (m : gmap string string) (e : bridge_event) : gmap string string :=
  match e with
  | UserAddressCreated _ id email | UserAddressEnabled _ id email => <[id := email]> m
  | UserAddressDisabled _ id _ | UserAddressDeleted _ id _ => delete id m
  | UserAddressUpdated _ id email => alter (fun _ => email) id m
  | _ => m
  end.

Lemma enabled_emails_insert m u k a l :
  enabled_emails (mkState l (<[k := a]> m) u) =
  if enabled (addr_Status a) then <[k := addr_Email a]> (enabled_emails (mkState l m u))
  else delete k (enabled_emails (mkState l m u)).
Proof.
  unfold enabled_emails. simpl. case_match eqn:He; [eapply omap_insert_Some|eapply omap_insert_None]; by rewrite He.
Qed.

Lemma enabled_emails_lookup m u l k :
  enabled_emails (mkState l m u) !! k =
  a ← m !! k; if enabled (addr_Status a) then Some (addr_Email a) else None.
Proof. unfold enabled_emails. simpl. by rewrite lookup_omap. Qed.

(** An update that does not change whether the address is enabled. *)
Lemma observe_updated m u l uid a old :
  m !! addr_ID a = Some old -> enabled (addr_Status old) = enabled (addr_Status a) ->
  observe (enabled_emails (mkState l m u)) (UserAddressUpdated uid (addr_ID a) (addr_Email a)) =
  enabled_emails (mkState l (<[addr_ID a := a]> m) u).
Proof.
  intros Hm He. rewrite enabled_emails_insert. simpl. apply map_eq. intros k.
  destruct (decide (k = addr_ID a)) as [->|Hk].
  - rewrite lookup_alter_eq, enabled_emails_lookup, Hm. simpl. rewrite He.
    case_match; simpl; by rewrite ?lookup_insert_eq, ?lookup_delete_eq.
  - rewrite lookup_alter_ne by done. case_match; by rewrite ?lookup_insert_ne, ?lookup_delete_ne by done.
Qed.

Lemma observe_created m u l uid a :
  m !! addr_ID a = None ->
  foldl observe (enabled_emails (mkState l m u))
    (if enabled (addr_Status a) then [UserAddressCreated uid (addr_ID a) (addr_Email a)] else []) =
  enabled_emails (mkState l (<[addr_ID a := a]> m) u).
Proof.
  intros Hm. rewrite enabled_emails_insert. case_match; simpl; [done|].
  rewrite delete_id; [done|]. by rewrite enabled_emails_lookup, Hm.
Qed.

(** [s'] is [s] after publishing events from which a listener learns the new
    enabled addresses. *)
Definition observed (s s' : IdService) : Prop :=
  exists es, id_out s' = id_out s ++ es /\
    foldl observe (enabled_emails (identity s)) es = enabled_emails (identity s').

Lemma observed_refl s : observed s s.
Proof. exists []. by rewrite app_nil_r. Qed.

Lemma observed_trans s1 s2 s3 : observed s1 s2 -> observed s2 s3 -> observed s1 s3.
Proof.
  intros (es & Ho & Hv) (es' & Ho' & Hv'). exists (es ++ es'). rewrite Ho', Ho, app_assoc, foldl_app, Hv. done.
Qed.

Lemma HandleAddressCreated_observed ev s :
  observed s (HandleAddressEvent (mkAddressEvent (ae_ID ev) EventCreate (ae_Address ev)) s).
Proof.
  destruct s as [[l m u] out]. unfold HandleAddressEvent, OnAddressCreated. simpl.
  destruct (m !! addr_ID (ae_Address ev)) eqn:Hm; [apply observed_refl|].
  assert (Hc := observe_created m u l (user_ID u) _ Hm).
  destruct (enabled (addr_Status (ae_Address ev))); eexists; (split; [|exact Hc]); simpl; by rewrite ?app_nil_r.
Qed.

Lemma HandleAddressUpdated_observed ev s :
  observed s (HandleAddressEvent (mkAddressEvent (ae_ID ev) EventUpdate (ae_Address ev)) s).
Proof.
  destruct s as [[l m u] out]. unfold HandleAddressEvent, OnAddressUpdated, OnAddressCreated. simpl.
  destruct (m !! addr_ID (ae_Address ev)) as [old|] eqn:Hm; simpl.
  - assert (Hupd := fun l uid => observe_updated m u l uid _ old Hm).
    destruct (enabled (addr_Status old)) eqn:Ho, (enabled (addr_Status (ae_Address ev))) eqn:He; simpl;
      (eexists; split; [done|]); [by apply Hupd| | |by apply Hupd]; simpl;
      symmetry; (etrans; [apply (enabled_emails_insert m u _ _ l)|]); by rewrite He.
  - assert (Hc := observe_created m u l (user_ID u) _ Hm).
    destruct (enabled (addr_Status (ae_Address ev))); eexists; (split; [|exact Hc]); simpl; by rewrite ?app_nil_r.
Qed.

Lemma HandleAddressDeleted_observed ev s :
  observed s (HandleAddressEvent (mkAddressEvent (ae_ID ev) EventDelete (ae_Address ev)) s).
Proof.
  destruct s as [[l m u] out]. unfold HandleAddressEvent, OnAddressDeleted. simpl.
  destruct (m !! ae_ID ev) as [a|] eqn:Hm; [|apply observed_refl].
  destruct (enabled (addr_Status a)) eqn:He; simpl.
  - eexists. split; [done|]. simpl. unfold enabled_emails. simpl. by rewrite omap_delete.
  - exists []. rewrite app_nil_r. split; [done|]. simpl. unfold enabled_emails. simpl.
    rewrite omap_delete, delete_id; [done|]. by rewrite lookup_omap, Hm; simpl; rewrite He.
Qed.

Lemma HandleAddressEvent_observed ev s : observed s (HandleAddressEvent ev s).
Proof.
  assert (Hc := HandleAddressCreated_observed ev s). assert (Hu := HandleAddressUpdated_observed ev s).
  assert (Hd := HandleAddressDeleted_observed ev s). destruct ev as [id [] a]; try done. apply observed_refl.
Qed.

(** C32: From the published events alone a listener knows the enabled addresses.
    Start from any state of the identity and any list of address events (creations,
    updates, deletions, repeated or out of order, of enabled and disabled
    addresses): applying the events the service publishes, one by one, to the
    enabled addresses before gives exactly the enabled addresses, with their mail
    addresses, after; and the service never fails. *)
Theorem published_addresses addressEvents s :
  exists s' es, HandleAddressEvents addressEvents s = (s', None) /\ id_out s' = id_out s ++ es /\
    identity s' = OnAddressEvents addressEvents (identity s) /\
    foldl observe (enabled_emails (identity s)) es = enabled_emails (identity s').
Proof.
  assert (Ho : observed s (HandleAddressEvents addressEvents s).1).
  { unfold HandleAddressEvents. simpl. revert s. induction addressEvents as [|ev evs IH]; intros s; simpl.
    - apply observed_refl.
    - eapply observed_trans; [apply HandleAddressEvent_observed|apply IH]. }
  destruct Ho as (es & Hout & Hv). exists (HandleAddressEvents addressEvents s).1, es.
  split; [done|]. split; [done|]. split; [apply HandleAddressEvents_identity|done].
Qed.

(** Mail clients log in exactly with the bridge password and an enabled address.
    On a state that satisfies the invariant, for any mail address other than the
    crash test, [CheckAuth] accepts a password exactly when it is a base64 text of
    the bridge password and some enabled address matches without regard to case;
    it then returns the identifier of such an address, and the encoding of the
    bridge password itself is always accepted for an enabled address. *)
Theorem CheckAuth_spec bridgePass email s :
  identity_ok s -> Forall is_byte bridgePass -> email <> "crash@bandicoot" ->
  (forall password,
   exists r, CheckAuth bridgePass email password s = Returns r /\
   (is_ok r = true <-> B64RawDecode password = Some bridgePass /\
      exists id a, GetAddrByID id s = Some a /\ enabled (addr_Status a) = true /\ EqualFold (addr_Email a) email = true) /\
   (forall id, r = Ok id -> exists a, GetAddrByID id s = Some a /\ enabled (addr_Status a) = true /\
      EqualFold (addr_Email a) email = true)) /\
  (forall id a, GetAddrByID id s = Some a -> enabled (addr_Status a) = true -> addr_Email a = email ->
   exists id', CheckAuth bridgePass email (B64RawEncode bridgePass) s = Returns (Ok id')).
Proof.
  intros Hs Hb Hc.
  assert (Hfind : forall id a, GetAddrByID id s = Some a -> enabled (addr_Status a) = true ->
    EqualFold (addr_Email a) email = true -> is_Some (find_first
      (fun addr => enabled (addr_Status addr) && EqualFold (addr_Email addr) email) (AddressesSorted s))).
  { intros id a Ha He Hf. apply (find_first_is_Some _ _ a); [|by rewrite He, Hf].
    apply elem_of_sorted; [done|]. unfold GetAddrByID in Ha. destruct Hs as [Hk _]. by rewrite (Hk _ _ Ha). }
  unfold CheckAuth. destruct (String.eqb_spec email "crash@bandicoot"); [done|]. split.
  - intros password. eexists. split; [done|]. destruct (B64RawDecode password) as [dec|]; [|split; [naive_solver|done]].
    case_bool_decide as Hd; simpl; [subst dec|split; [naive_solver|done]].
    destruct (find_first _ _) as [a|] eqn:Hf.
    + apply find_first_Some in Hf as [Hin [He Hm]%andb_true_iff]. apply elem_of_sorted in Hin; [|done].
      split; [split; [|done]; intros _; split; [done|]; by exists (addr_ID a), a|]. intros id [= <-]. by exists a.
    + split; [|done]. split; [done|]. intros (_ & id & a & Ha & He & Hm). by destruct (Hfind id a Ha He Hm).
  - intros id a Ha He Hm. rewrite B64RawDecode_Encode by done. rewrite bool_decide_eq_true_2 by done. simpl.
    destruct (Hfind id a Ha He) as [b Hf]; [rewrite Hm; apply EqualFold_refl|]. rewrite Hf. by eexists.
Qed.

End state.

(** ** A concrete account *)

Definition ex_identity : State :=
  @NewState canonical_range merge_sort_by (mkUser "u" "user" 0 [])
    [mkAddress "b" "Second@pm.me" AddressStatusEnabled 2 [] (AddressTypeOther 1) true ""; mkAddress "a" "first@pm.me" AddressStatusEnabled 1 [] (AddressTypeOther 1) true "";
     mkAddress "c" "old@pm.me" (AddressStatusOther 0) 3 [] (AddressTypeOther 1) true ""].

Example ex_identity_primary : state_GetPrimaryAddr ex_identity = Ok (mkAddress "a" "first@pm.me" AddressStatusEnabled 1 [] (AddressTypeOther 1) true "").
Proof. vm_compute. reflexivity. Qed.

Example ex_SanitizeEmail : SanitizeEmail "user+tag+x@pm.me" = "user@pm.me" /\ SanitizeEmail "a@b@c" = "a@b@c".
Proof. split; vm_compute; reflexivity. Qed.

Lemma CheckAuth_spec_witness :
  exists id, CheckAuth [104; 105; 33; 255] "second@PM.me" (B64RawEncode [104; 105; 33; 255]) ex_identity = Returns (Ok id) /\
  exists a, GetAddrByID id ex_identity = Some a /\ enabled (addr_Status a) = true.
Proof.
  destruct (CheckAuth_spec [104; 105; 33; 255] "second@PM.me" ex_identity) as [Hspec _].
  - apply (@NewState_ok canonical_range merge_sort_by).
  - unfold is_byte. repeat (apply Forall_cons_2; [lia|]). apply Forall_nil_2.
  - discriminate.
  - destruct (Hspec (B64RawEncode [104; 105; 33; 255])) as (r & Hr & _ & Hid).
    assert (Hb : CheckAuth [104; 105; 33; 255] "second@PM.me" (B64RawEncode [104; 105; 33; 255]) ex_identity
      = Returns (Ok "b")) by (vm_compute; reflexivity).
    exists "b". split; [exact Hb|]. rewrite Hb in Hr. injection Hr as <-.
    destruct (Hid "b" eq_refl) as (a & Ha & He & _). exists a. split; [exact Ha|exact He].
Defined.
