(* ===== verification/SmtpErrors.v ===== *)
(** * Errors of the SMTP service (pkg/errmapper, internal/services/smtp/errors.go,
      internal/services/smtp/errormapper.go)

    Errors wrap other errors, one or two at a time, and carry sentinels that say where
    they come from.  At the boundary of the SMTP server a list of rules turns an error
    into the text the mail client shows. *)

From S2P Require Import Prelude.

(** ** Errors *)

Inductive sentinel : Type :=
| ErrInvalidRecipient
| ErrInvalidReturnPath
| ErrNoSuchUser
| ErrSMTPAuthFailed
| ErrTooManyErrors
| ErrSendMessageOperation
| ErrGetRecipientsOperation
| ErrGetSendPreferencesOperation
| ErrLookupRecipientPublicKey
| ErrSenderAddressNotOwned
| ErrUnsupportedOutgoingMIME
| ErrInvalidListOfRecipients
| ErrMessageTooLarge
| ErrValidationFailed.

#[global] Instance sentinel_eq_dec : EqDecision sentinel.
Proof. solve_decision. Defined.

Definition errCodeAddressDoesNotExist : Z := 33102.
Definition errCodeValidationFailed : Z := 2001.
Definition errCodeMessageTooLarge : Z := 2024.
Definition errCodeInvalidListOfRecipients : Z := 2002.

(** A tree: [GWrap] is [fmt.Errorf] with one [%w], [GJoin] with two. *)
Inductive goerr : Type :=
| GSentinel (s : sentinel)
| GRecipientAddressDoesNotExist (address : string)
| GCannotSendFromAddress (address : string)
| GAPI (status code : Z)
| GOther (msg : string)
| GWrap (msg : string) (e : goerr)
| GJoin (e1 : goerr) (msg : string) (e2 : goerr).

#[global] Instance goerr_eq_dec : EqDecision goerr.
Proof. solve_decision. Defined.

(** The nodes in the order [errors.Is] and [errors.As] visit them. *)
Fixpoint nodes (e : goerr) : list goerr :=
  e :: match e with
       | GWrap _ e => nodes e
       | GJoin e1 _ e2 => nodes e1 ++ nodes e2
       | _ => []
       end.

(** What a node is compared with: a sentinel, or one of the two types whose [Is] method
    accepts any value of the type. *)
Inductive target : Type :=
| TSentinel (s : sentinel)
| TRecipientAddressDoesNotExist
| TCannotSendFromAddress.

Definition node_is (t : target) (e : goerr) : bool :=
  match t, e with
  | TSentinel s, GSentinel s' => bool_decide (s = s')
  | TRecipientAddressDoesNotExist, GRecipientAddressDoesNotExist _ => true
  | TCannotSendFromAddress, GCannotSendFromAddress _ => true
  | _, _ => false
  end.

Definition go_Is (e : goerr) (t : target) : bool := existsb (node_is t) (nodes e).

(** [errors.AsType] for the two types and for the errors of the API. *)
Fixpoint first_of {A} (f : goerr -> option A) (l : list goerr) : option A :=
  match l with [] => None | e :: l => match f e with Some a => Some a | None => first_of f l end end.

Definition as_recipient (e : goerr) : option string :=
  first_of (fun e => match e with GRecipientAddressDoesNotExist a => Some a | _ => None end) (nodes e).
Definition as_sender (e : goerr) : option string :=
  first_of (fun e => match e with GCannotSendFromAddress a => Some a | _ => None end) (nodes e).
Definition as_API (e : goerr) : option (Z * Z) :=
  first_of (fun e => match e with GAPI status code => Some (status, code) | _ => None end) (nodes e).

(** ** The mapper (pkg/errmapper) *)

Inductive MatchType : Type := MatchAny | MatchAll.

Record Rule : Type := mkRule {
  Targets : list target;
  rule_MatchType : MatchType;
  ResultFn : goerr -> goerr
}.

Definition NewRule (targets : list target) (m : MatchType) (res : goerr) : Rule := mkRule targets m (fun _ => res).
Definition NewRuleWithResultFunc (targets : list target) (m : MatchType) (f : goerr -> goerr) : Rule := mkRule targets m f.

Definition rule_match (e : goerr) (r : Rule) : bool :=
  match rule_MatchType r with
  | MatchAny => existsb (go_Is e) (Targets r)
  | MatchAll => forallb (go_Is e) (Targets r)
  end.

Fixpoint Resolve (rules : list Rule) (e : goerr) : goerr :=
  match rules with
  | [] => e
  | r :: rest => if rule_match e r then ResultFn r e else Resolve rest e
  end.

(** ** The rules of the SMTP server *)

Definition missing_recipient (address : string) : goerr :=
  GOther ("No email was sent. The address " +:+ address +:+ " does not exist. Correct the recipient and resend the message").
Definition bad_sender (address : string) : goerr :=
  GOther ("You cannot send from this address: " +:+ address +:+ ". Check your email client and Bridge settings").

Definition smtpErrRules : list Rule := [
  NewRuleWithResultFunc
    [TSentinel ErrSendMessageOperation; TSentinel ErrGetRecipientsOperation; TSentinel ErrGetSendPreferencesOperation;
     TSentinel ErrLookupRecipientPublicKey; TRecipientAddressDoesNotExist]
    MatchAll
    (fun e => match as_recipient e with
              | Some a => missing_recipient a
              | None => GOther "No email was sent. One or more addresses do not exist. Correct the recipients and resend the message"
              end);
  NewRule [TSentinel ErrSendMessageOperation; TSentinel ErrValidationFailed] MatchAll
    (GOther "This message couldn't be sent because the email client sent a malformed message");
  NewRuleWithResultFunc [TCannotSendFromAddress] MatchAny
    (fun e => match as_sender e with
              | Some a => bad_sender a
              | None => GOther "You cannot send from this address. Check your email client and Bridge settings"
              end);
  NewRule [TSentinel ErrTooManyErrors] MatchAny (GOther "Too many failed send attempts. Try again later");
  NewRule [TSentinel ErrSenderAddressNotOwned] MatchAny
    (GOther "The sender address is not valid for this account. Check your email client and Proton settings, or choose a different sender address");
  NewRule [TSentinel ErrUnsupportedOutgoingMIME] MatchAny
    (GOther "This message uses an unsupported message format. Try plain text or HTML");
  NewRule [TSentinel ErrSMTPAuthFailed] MatchAny
    (GOther "User Authentication failed. Please check the outgoing server configuration in your mail client and try again");
  NewRule [TSentinel ErrNoSuchUser] MatchAll
    (GOther "The account is not available in Bridge. Verify the outgoing server settings in your mail client and try again");
  NewRule [TSentinel ErrInvalidRecipient; TSentinel ErrInvalidReturnPath] MatchAny
    (GOther "The sender or recipient address is not valid. Review the addresses and resend the message")
].

Definition mapError (e : goerr) : goerr := Resolve smtpErrRules e.

(** ** Lemmas *)

Lemma go_Is_wrap msg e t : go_Is (GWrap msg e) t = go_Is e t.
Proof. unfold go_Is. simpl. by destruct t. Qed.

Lemma go_Is_join e1 msg e2 t : go_Is (GJoin e1 msg e2) t = go_Is e1 t || go_Is e2 t.
Proof. unfold go_Is. simpl. rewrite existsb_app. by destruct t. Qed.

Lemma first_of_app {A} (f : goerr -> option A) l l' :
  first_of f (l ++ l') = match first_of f l with Some a => Some a | None => first_of f l' end.
Proof. induction l as [|x l IH]; simpl; [done|]. by destruct (f x). Qed.

Lemma as_recipient_wrap msg e : as_recipient (GWrap msg e) = as_recipient e.
Proof. done. Qed.

Lemma as_recipient_join e1 msg e2 :
  as_recipient (GJoin e1 msg e2) = match as_recipient e1 with Some a => Some a | None => as_recipient e2 end.
Proof. unfold as_recipient. simpl. apply first_of_app. Qed.

(** A plain text matches no rule. *)
Lemma mapError_other msg : mapError (GOther msg) = GOther msg.
Proof. done. Qed.

Lemma Resolve_cases rules e :
  (exists r, r ∈ rules /\ rule_match e r = true /\ Resolve rules e = ResultFn r e) \/
  (Forall (fun r => rule_match e r = false) rules /\ Resolve rules e = e).
Proof.
  induction rules as [|r rules IH]; simpl; [by right|]. destruct (rule_match e r) eqn:Hm.
  - left. exists r. split_and!; [left|done..].
  - destruct IH as [(r' & Hin & Hr)|[Hall Hr]]; [left; exists r'; split; [by right|done]|right]. by split; [constructor|].
Qed.

(** The text for the mail client is that of a rule, or, when no rule applies, the error
    as it is; mapping it again changes nothing. *)
Theorem mapError_stable e :
  mapError (mapError e) = mapError e /\
  (mapError e <> e -> exists msg, mapError e = GOther msg).
Proof.
  destruct (Resolve_cases smtpErrRules e) as [(r & Hr & _ & He)|[_ He]]; fold (mapError e) in He.
  - assert (exists msg, mapError e = GOther msg) as [msg ->]; [|by eauto using mapError_other].
    rewrite He. unfold smtpErrRules in Hr.
    repeat (apply elem_of_cons in Hr as [->|Hr]; [cbn; repeat case_match; eexists; reflexivity|]).
    by apply elem_of_nil in Hr.
  - by rewrite He.
Qed.
