(* ===== verification/SmtpSend.v ===== *)
(** * Sending a message over SMTP (internal/services/smtp: smtp.go, service.go,
      smtp_backend.go)

    A mail client submits a message with an envelope.  The service refuses what was sent
    recently, finds the address to send from, creates a draft with its attachments,
    looks up the preferences of every recipient, packs the message for them and sends
    the draft.  The send recorder is told the outcome, so that the message can be
    retried or is known as sent.  The client of the API is the class [SmtpClient]; the
    parser and the keys are arguments.  Uploads and lookups run in parallel in the code
    and in order here. *)

From S2P Require Import Prelude.
From S2P Require Import Strings.
From S2P Require Import Api.
From S2P Require Import SendRecorder.
From S2P Require Import SendPrefs.
From S2P Require Import SmtpErrors.
From S2P Require Import UserIdentity.
From S2P Require Import Effects.

(** ** Messages *)

Record MailAddress : Type := mkMailAddress { ma_Name : string; ma_Address : string }.

Record Attachment : Type := mkAttachment {
  att_Name : string; att_ContentID : string; att_MIMEType : string; att_MIMEParams : gmap string string;
  att_Disposition : string; att_Data : string
}.

(** [message.Message]. *)
Record Message : Type := mkMessage {
  msg_MIMEBody : string; msg_RichBody : string; msg_PlainBody : string; msg_MIMEType : string;
  msg_Subject : string; msg_Sender : option MailAddress;
  msg_ToList : list MailAddress; msg_CCList : list MailAddress; msg_BCCList : list MailAddress;
  msg_References : list string; msg_ExternalID : string; msg_InReplyTo : string; msg_XForward : string;
  msg_Attachments : list Attachment
}.

Definition TextHTML : string := "text/html".
Definition TextPlain : string := "text/plain".
Definition InternalIDDomain : string := "protonmail.internalid".

(** ** The API *)

Record DraftTemplate : Type := mkDraftTemplate {
  dt_Subject : string; dt_Body : string; dt_MIMEType : string; dt_Sender : option MailAddress;
  dt_ToList : list MailAddress; dt_CCList : list MailAddress; dt_BCCList : list MailAddress; dt_ExternalID : string
}.

Inductive CreateDraftAction : Type := ReplyAction | ForwardAction.
Record CreateDraftReq : Type := mkCreateDraftReq { cdr_Message : DraftTemplate; cdr_ParentID : string; cdr_Action : CreateDraftAction }.

Record Draft : Type := mkDraft {
  d_ID : string; d_MIMEType : string; d_ToList : list MailAddress; d_CCList : list MailAddress; d_BCCList : list MailAddress
}.

Record AttachmentUpload : Type := mkAttachmentUpload {
  au_Filename : string; au_MessageID : string; au_MIMEType : string; au_Disposition : string; au_ContentID : string;
  au_Body : string
}.

Record MetaFilter : Type := mkMetaFilter { mf_ID : list string; mf_ExternalID : string; mf_AddressID : string }.
Record SendMeta : Type := mkSendMeta { sm_ID : string; sm_IsDraft : bool; sm_FlagSent : bool; sm_FlagReceived : bool }.

Section smtp.
Context `{PG : PGP} `{SR : @SendReq PG}.

(** The mail settings, with the switch that attaches the public key. *)
Class SmtpClient (W : Type) : Type := {
  smtp_GetMailSettings : W -> result goerr (MailSettings * bool);
  GetMessageMetadata : MetaFilter -> W -> result goerr (list SendMeta);
  smtp_CreateDraft : KeyRing -> CreateDraftReq -> W -> W * result goerr Draft;
  smtp_UploadAttachment : KeyRing -> AttachmentUpload -> W -> W * result goerr (string * SessionKey);
  GetPublicKeys : string -> W -> result goerr (list string * bool);
  GetAllContactEmails : string -> W -> result goerr (list (string * string));
  GetContactSettings : KeyRing -> string -> string -> W -> result goerr ContactSettings;
  SendDraft : string -> SendDraftReq -> W -> W * result goerr string;
  smtp_DeleteMessage : list string -> W -> W * option goerr
}.

(** The parser of the message and the keys. *)
Class SmtpLib (Parser : Type) : Type := {
  smtp_ParserNew : string -> result goerr Parser;
  smtp_From : Parser -> string;
  smtp_ParseAddressList : string -> result goerr (list string);
  smtp_AttachEmptyText : Parser -> Parser;
  smtp_AttachPublicKey : string -> string -> Parser -> Parser;
  smtp_ParseMessage : Parser -> result goerr Message;
  smtp_MessageHash : string -> result goerr string;
  FormatMediaType : string -> gmap string string -> string;
  smtp_Unlock : list string -> list Z -> option KeyRing -> result goerr KeyRing;
  smtp_FirstKey : KeyRing -> result goerr KeyRing;
  GetArmoredPublicKey : KeyRing -> result goerr string;
  key_Fingerprint : KeyRing -> string;
  key_IdentityName : KeyRing -> string
}.

(** ** References (getParentID) *)

Definition internal_refs (references : list string) : list string :=
  (fun ref => TrimSuffix ref ("@" +:+ InternalIDDomain)) <$> Filter references (fun ref => str_contains ref InternalIDDomain).
Definition external_refs (references : list string) : list string :=
  Filter references (fun ref => negb (str_contains ref InternalIDDomain)).

Definition filter_address (authAddrID : string) (addrMode : AddressMode) : string :=
  match addrMode with AddressModeSplit => authAddrID | AddressModeCombined => "" end.

(** The loop over the metadata of one internal reference. *)
Fixpoint scan_metadata (metadata : list SendMeta) (parentID : string) (draftsToDelete : list string) : string * list string :=
  match metadata with
  | [] => (parentID, draftsToDelete)
  | m :: rest =>
      if negb (sm_IsDraft m) then scan_metadata rest (sm_ID m) draftsToDelete
      else scan_metadata rest parentID (draftsToDelete ++ [sm_ID m])
  end.

Fixpoint scan_internal (lookup : MetaFilter -> result goerr (list SendMeta)) (addrID : string) (internal : list string)
    (parentID : string) (draftsToDelete : list string) : result goerr (string * list string) :=
  match internal with
  | [] => Ok (parentID, draftsToDelete)
  | ref :: rest =>
      match lookup (mkMetaFilter [ref] "" addrID) with
      | Err e => Err (GWrap "failed to get message metadata" e)
      | Ok metadata =>
          let '(parentID, draftsToDelete) := scan_metadata metadata parentID draftsToDelete in
          scan_internal lookup addrID rest parentID draftsToDelete
      end
  end.

(** The parent among the messages with the external identifier. *)
Definition pick_external (metadata : list SendMeta) : string :=
  match metadata with
  | [m] => if sm_FlagSent m || sm_FlagReceived m then sm_ID m else ""
  | [] => ""
  | _ => match find_first sm_FlagSent metadata with Some m => sm_ID m | None => "" end
  end.

Definition getParentID (lookup : MetaFilter -> result goerr (list SendMeta)) (authAddrID : string) (addrMode : AddressMode)
    (references : list string) : result goerr (string * list string) :=
  let addrID := filter_address authAddrID addrMode in
  r ← scan_internal lookup addrID (internal_refs references) "" [];
  let '(parentID, draftsToDelete) := r in
  match String.eqb parentID "", List.rev (external_refs references) with
  | true, ext :: _ =>
      match lookup (mkMetaFilter [] ext addrID) with
      | Err e => Err (GWrap "failed to get message metadata" e)
      | Ok metadata => Ok (pick_external metadata, draftsToDelete)
      end
  | _, _ => Ok (parentID, draftsToDelete)
  end.

(** ** The draft *)

Definition constructEmail (headerEmail addressEmail : string) : string :=
  match Split at_sign headerEmail with
  | [user; _] =>
      match Split plus_sign user with
      | [_; tag] =>
          match Split at_sign addressEmail with
          | [local; domain] => local +:+ "+" +:+ tag +:+ "@" +:+ domain
          | _ => addressEmail
          end
      | _ => addressEmail
      end
  | _ => addressEmail
  end.

(** The sender of the template, when the user owns it. *)
Definition draft_sender (emails : list string) (from : string) (sender : option MailAddress) : result goerr MailAddress :=
  let sender := match sender with
                | None => mkMailAddress "" from
                | Some s => if String.eqb (ma_Address s) "" then mkMailAddress (ma_Name s) from else s
                end in
  match find_first (fun email => EqualFold email (SanitizeEmail (ma_Address sender))) emails with
  | None => Err (GWrap "address is not owned by user" (GSentinel ErrSenderAddressNotOwned))
  | Some email => Ok (mkMailAddress (ma_Name sender) (constructEmail (ma_Address sender) email))
  end.

(** The loop that adds the remaining recipients to the blind copies. *)
Definition fill_BCC (to : list string) (ToList CCList BCCList : list MailAddress) : list MailAddress :=
  foldl (fun bcc recipient =>
    if Contains (ma_Address <$> (ToList ++ CCList ++ bcc)) recipient then bcc
    else bcc ++ [mkMailAddress "" recipient]) BCCList to.

Definition draft_template (emails : list string) (from : string) (to : list string) (template : DraftTemplate)
    : result goerr DraftTemplate :=
  sender ← draft_sender emails from (dt_Sender template);
  let ToList := Filter (dt_ToList template) (fun addr => Contains to (ma_Address addr)) in
  let BCCList := fill_BCC to ToList (dt_CCList template) (dt_BCCList template) in
  Ok (mkDraftTemplate (dt_Subject template) (dt_Body template) (dt_MIMEType template) (Some sender) ToList
        (dt_CCList template) BCCList (dt_ExternalID template)).

Definition draft_action (replyToID xForwardID : string) : CreateDraftAction :=
  if String.eqb replyToID "" then ForwardAction
  else if String.eqb replyToID xForwardID then ForwardAction
  else ReplyAction.

(** ** The service *)

(** The server and the calls of the send recorder so far. *)
Record SmtpState (W : Type) : Type := mkSmtpState { ss_api : W; ss_rec : list op }.
#[global] Arguments mkSmtpState {W} _ _.
#[global] Arguments ss_api {W} _.
#[global] Arguments ss_rec {W} _.

Section service.
Context {W : Type} `{SC : SmtpClient W} {Parser : Type} `{LIB : SmtpLib Parser} `{MR : MapRange}.

Notation M := (eff (SmtpState W) goerr).

Definition smtp_api {A} (f : W -> W * result goerr A) : M A := fun s =>
  let '(w, r) := f (ss_api s) in (mkSmtpState w (ss_rec s), r).
Definition smtp_read {A} (f : W -> result goerr A) : M A := reads (fun s => f (ss_api s)).
Definition record_call (o : op) : M () := modify (fun s => mkSmtpState (ss_api s) (ss_rec s ++ [o])).

Definition createDraft (addrKR : KeyRing) (emails : list string) (from : string) (to : list string) (parentID : string)
    (replyToID xForwardID : string) (template : DraftTemplate) : M Draft :=
  template ← reads (fun _ => draft_template emails from to template);
  smtp_api (smtp_CreateDraft addrKR (mkCreateDraftReq template parentID (draft_action replyToID xForwardID))).

Definition upload_disposition (att : Attachment) : string :=
  if String.eqb (att_Disposition att) "inline" then
    (if String.eqb (att_ContentID att) "" then "attachment" else "inline")
  else if String.eqb (att_Disposition att) "attachment" then "attachment"
  else if negb (String.eqb (att_ContentID att) "") then "inline" else "attachment".

(** [smtp_UploadAttachment] includes decoding and decrypting the session key. *)
Fixpoint createAttachments (addrKR : KeyRing) (draftID : string) (attachments : list Attachment) : M (gmap string SessionKey) :=
  match attachments with
  | [] => mret ∅
  | att :: rest =>
      let params := delete "filename" (delete "name" (att_MIMEParams att)) in
      k ← wrapping (GWrap "failed to upload attachment") (smtp_api (smtp_UploadAttachment addrKR
            (mkAttachmentUpload (att_Name att) draftID (FormatMediaType (att_MIMEType att) params) (upload_disposition att)
               (att_ContentID att) (att_Data att))));
      ks ← createAttachments addrKR draftID rest;
      mret (match ks !! k.1 with Some _ => ks | None => <[k.1 := k.2]> ks end)
  end.

(** *** Recipients *)

Definition zeroContactSettings : ContactSettings := mkContactSettings None [] None None None None.

Definition smtp_getContactSettings (userKR : KeyRing) (recipient : string) (w : W) : result goerr ContactSettings :=
  match GetAllContactEmails recipient w with
  | Err e => Err (GWrap "failed to get contact data" e)
  | Ok contacts =>
      match find_first (fun c => String.eqb c.1 recipient) contacts with
      | None => Ok zeroContactSettings
      | Some c =>
          match GetContactSettings userKR c.2 recipient w with
          | Err e => Err (GWrap "failed to get contact" e)
          | Ok settings => Ok settings
          end
      end
  end.

(** A panic of the preferences is an error here; [SendPrefs.buildSendPrefs_errors] lists
    when they happen. *)
Definition prefs_error (e : prefErr) : goerr := GOther "failed to build send preferences".

Definition recipient_prefs (userKR : KeyRing) (settings : MailSettings) (mimeType recipient : string) (w : W)
    : result goerr SendPreferences :=
  match GetPublicKeys recipient w with
  | Err e =>
      let e := match as_API e with
               | Some (status, code) =>
                   if (status =? 422) && (code =? errCodeAddressDoesNotExist)
                   then GJoin (GRecipientAddressDoesNotExist recipient) "" e else e
               | None => e
               end in
      Err (GJoin (GSentinel ErrLookupRecipientPublicKey) "failed to get public key" e)
  | Ok (pubKeys, isInternal) =>
      match smtp_getContactSettings userKR recipient w with
      | Err e => Err (GWrap "failed to get contact settings" e)
      | Ok contactSettings =>
          match buildSendPrefs contactSettings settings pubKeys mimeType isInternal with
          | Err e => Err (prefs_error e)
          | Ok p => Ok p
          end
      end
  end.

Fixpoint all_prefs (userKR : KeyRing) (settings : MailSettings) (mimeType : string) (addresses : list string) (w : W)
    : result goerr (list SendPreferences) :=
  match addresses with
  | [] => Ok []
  | a :: rest => p ← recipient_prefs userKR settings mimeType a w; ps ← all_prefs userKR settings mimeType rest w; Ok (p :: ps)
  end.

Definition draft_addresses (draft : Draft) : list string := ma_Address <$> (d_ToList draft ++ d_CCList draft ++ d_BCCList draft).

Definition getRecipients (userKR : KeyRing) (settings : MailSettings) (draft : Draft) (w : W)
    : result goerr (gmap string SendPreferences) :=
  let addresses := draft_addresses draft in
  match all_prefs userKR settings (d_MIMEType draft) addresses w with
  | Err e => Err (GJoin (GSentinel ErrGetSendPreferencesOperation) "" e)
  | Ok prefs => Ok (foldl (fun m p => <[p.1 := p.2]> m) ∅ (zip addresses prefs))
  end.

(** *** Sending *)

(** The errors of creating a draft that the client is told about. *)
Definition draft_error (e : goerr) : goerr :=
  match as_API e with
  | Some (status, code) =>
      if status =? 422 then
        if code =? errCodeValidationFailed then GSentinel ErrValidationFailed
        else if code =? errCodeMessageTooLarge then GSentinel ErrMessageTooLarge
        else if code =? errCodeInvalidListOfRecipients then GSentinel ErrInvalidListOfRecipients
        else GWrap "failed to create draft" e
      else GWrap "failed to create draft" e
  | None => GWrap "failed to create draft" e
  end.

Definition packages_error (e : sendErr) : goerr := GOther "failed to create packages".

Definition sendWithKey (authAddrID : string) (addrMode : AddressMode) (settings : MailSettings) (userKR addrKR : KeyRing)
    (emails : list string) (from : string) (to : list string) (message : Message) : M string :=
  let references := msg_References message ++ (if String.eqb (msg_InReplyTo message) "" then [] else [msg_InReplyTo message]) in
  parent ← smtp_read (fun w => match getParentID (fun f => GetMessageMetadata f w) authAddrID addrMode references with
                               | Ok p => Ok p
                               | Err _ => Ok ("", [])
                               end);
  decBody ← reads (fun _ => if String.eqb (msg_MIMEType message) TextHTML then Ok (msg_RichBody message)
                            else if String.eqb (msg_MIMEType message) TextPlain then Ok (msg_PlainBody message)
                            else Err (GWrap (msg_MIMEType message) (GSentinel ErrUnsupportedOutgoingMIME)));
  draft ← wrapping draft_error (createDraft addrKR emails from to parent.1 (msg_InReplyTo message) (msg_XForward message)
            (mkDraftTemplate (msg_Subject message) decBody (msg_MIMEType message) (msg_Sender message) (msg_ToList message)
               (msg_CCList message) (msg_BCCList message) (msg_ExternalID message)));
  attKeys ← wrapping (GWrap "failed to create attachments") (createAttachments addrKR (d_ID draft) (msg_Attachments message));
  rs ← wrapping (GJoin (GSentinel ErrGetRecipientsOperation) "") (smtp_read (getRecipients userKR settings draft));
  req ← reads (fun _ => match createSendReq addrKR (msg_MIMEBody message) (msg_RichBody message) (msg_PlainBody message) rs attKeys with
                        | Ok req => Ok req
                        | Err e => Err (packages_error e)
                        end);
  res ← wrapping (GWrap "failed to send draft") (smtp_api (SendDraft (d_ID draft) req));
  (if bool_decide (parent.2 = []) then mret ()
   else ignoring (calls (fun s => let '(w, e) := smtp_DeleteMessage parent.2 (ss_api s) in (mkSmtpState w (ss_rec s), e)))) ≫= fun _ =>
  mret res.

Definition getMessageSender (p : Parser) : option string :=
  match smtp_ParseAddressList (smtp_From p) with
  | Err _ => None
  | Ok [] => None
  | Ok (a :: _) => Some a
  end.

(** The closure under the keys of the address. *)
Definition send_body (i : State) (mode : AddressMode) (authID : string) (settings : MailSettings) (attachKey : bool)
    (emails : list string) (from : string) (to : list string) (p : Parser) (hash : string) (srID : Z)
    (userKR addrKR : KeyRing) : M () :=
  addrKR ← wrapping (GWrap "failed to get first key") (reads (fun _ => smtp_FirstKey addrKR));
  let p := smtp_AttachEmptyText p in
  p ← (if attachKey : bool then
         pubKey ← wrapping (GWrap "failed to get public key") (reads (fun _ => GetArmoredPublicKey addrKR));
         mret (smtp_AttachPublicKey pubKey
                 ("publickey - " +:+ key_IdentityName addrKR +:+ " - 0x" +:+ ToUpper (String.substring 0 8 (key_Fingerprint addrKR))) p)
       else mret p);
  message ← wrapping (GWrap "failed to parse message") (reads (fun _ => smtp_ParseMessage p));
  sent ← wrapping (GJoin (GSentinel ErrSendMessageOperation) "")
           (sendWithKey authID mode settings userKR addrKR emails from to message);
  record_call (OpSignal hash srID sent).

Definition smtp_WithAddrKR {A} (i : State) (addr : Address) (keyPass : list Z) (fn : KeyRing -> KeyRing -> M A) : M A :=
  userKR ← wrapping (GWrap "failed to unlock user keys") (reads (fun _ => smtp_Unlock (user_Keys (st_User i)) keyPass None));
  addrKR ← wrapping (GWrap "failed to unlock address keys") (reads (fun _ => smtp_Unlock (addr_Keys addr) keyPass (Some userKR)));
  fn userKR addrKR.

(** [if err := m(); err != nil { RemoveOnFail; return err }]. *)
Definition or_remove {A} (hash : string) (srID : Z) (m : M A) : M A := fun s =>
  match m s with
  | (s', Err e) => ((record_call (OpRemove hash srID) s').1, Err e)
  | r => r
  end.

(** [TryInsertWait] is the outcome of registering the message with the send recorder
    (file [SendRecorder]): the entry made, or that it was sent already. *)
Definition smtpSendMail (i : State) (mode : AddressMode) (keyPass : list Z)
    (TryInsertWait : string -> list string -> result goerr (Z * bool))
    (authID from : string) (to : list string) (body : string) : M () :=
  match GetAddr from i with
  | Err _ => fails (GSentinel ErrInvalidReturnPath)
  | Ok fromAddr =>
      let emails := addr_Email <$> AddressesSorted i in
      hash ← reads (fun _ => smtp_MessageHash body);
      entry ← wrapping (GWrap "failed to check send hash") (reads (fun _ => TryInsertWait hash to));
      let '(srID, inserted) := entry in
      if negb (inserted : bool) then mret ()
      else
        p ← or_remove hash srID (wrapping (GWrap "failed to create parser") (reads (fun _ => smtp_ParserNew body)));
        sender ← reads (fun _ =>
          match getMessageSender p with
          | None => Ok (from, fromAddr)
          | Some sender =>
              match GetAddr sender i with
              | Err _ => Err (GSentinel ErrInvalidReturnPath)
              | Ok fromAddr => Ok (sender, fromAddr)
              end
          end);
        let '(from, fromAddr) := sender in
        if negb (addr_Send fromAddr) || negb (enabled (addr_Status fromAddr)) then fails (GCannotSendFromAddress (addr_Email fromAddr))
        else
          settings ← or_remove hash srID (wrapping (GWrap "failed to get mail settings") (smtp_read smtp_GetMailSettings));
          or_remove hash srID
            (smtp_WithAddrKR i fromAddr keyPass
               (send_body i mode authID settings.1 settings.2 emails from to p hash srID))
  end.

(** ** What the recorder is told *)

(** A part that tells the recorder nothing. *)
Definition same_rec (s s' : SmtpState W) : Prop := ss_rec s' = ss_rec s.
Definition silent {A} (m : M A) : Prop := leaves same_rec m.

#[local] Instance same_rec_reflexive : Reflexive same_rec.
Proof. intros s. done. Qed.
#[local] Instance same_rec_transitive : Transitive same_rec.
Proof. intros s1 s2 s3. unfold same_rec. congruence. Qed.

Lemma smtp_api_silent {A} (f : W -> W * result goerr A) : silent (smtp_api f).
Proof. intros s. unfold smtp_api. by destruct (f (ss_api s)). Qed.

#[local] Ltac silence :=
  unfold silent, smtp_read in *;
  repeat match goal with
  | |- leaves _ (_ ≫= _) => apply leaves_bind; [exact _| |intros ?]
  | |- leaves _ (wrapping _ _) => apply leaves_wrapping
  | |- leaves _ (ignoring _) => apply leaves_ignoring
  | |- leaves _ (smtp_api _) => apply smtp_api_silent
  | |- leaves _ (reads _) => apply leaves_reads; exact _
  | |- leaves _ (mret _) => apply leaves_ret; exact _
  | |- leaves _ (fails _) => apply leaves_fails; exact _
  | |- leaves _ _ => assumption
  | |- context [match _ with _ => _ end] => case_match
  end.

Lemma createDraft_silent kr emails from to parentID replyTo fwd t : silent (createDraft kr emails from to parentID replyTo fwd t).
Proof. unfold createDraft. silence. Qed.

Lemma createAttachments_silent kr id atts : silent (createAttachments kr id atts).
Proof. induction atts as [|att atts IH]; simpl; silence. Qed.

Lemma sendWithKey_silent authID mode settings userKR addrKR emails from to message :
  silent (sendWithKey authID mode settings userKR addrKR emails from to message).
Proof.
  unfold sendWithKey. silence; [apply createDraft_silent|apply createAttachments_silent|].
  intros s. unfold calls. by destruct (smtp_DeleteMessage _ _) as [? [|]].
Qed.

(** On success the recorder is told that the message was sent, on failure what [fail] says. *)
Definition tells (hash : string) (id : Z) (fail : goerr -> list op -> Prop) (before : list op) (r : result goerr ()) (s : SmtpState W) : Prop :=
  exists ops, ss_rec s = before ++ ops /\
    match r with
    | Ok _ => exists sent, ops = [OpSignal hash id sent]
    | Err e => fail e ops
    end.

Definition nothing (e : goerr) (ops : list op) : Prop := ops = [].

Lemma tells_nothing hash id before e s : ss_rec s = before -> tells hash id nothing before (Err e) s.
Proof. intros <-. exists []. split; [by rewrite app_nil_r|done]. Qed.

#[local] Ltac step :=
  first [ apply wp_bind | apply wp_wrapping | apply wp_reads ]; simpl.

(** The closure signals the recorder exactly when it succeeds. *)
Lemma send_body_tells i mode authID settings attach emails from to p hash id userKR addrKR s :
  wp (send_body i mode authID settings attach emails from to p hash id userKR addrKR) (tells hash id nothing (ss_rec s)) s.
Proof.
  unfold send_body. do 3 step. destruct (smtp_FirstKey addrKR) as [kr|e]; [|by apply tells_nothing]. step.
  apply (wp_leaves same_rec).
  { destruct attach; silence. }
  intros [p'|e] s1 H1; [|by apply tells_nothing]. do 3 step.
  destruct (smtp_ParseMessage p') as [message|e]; [|by apply tells_nothing]. do 2 step.
  apply (wp_leaves same_rec); [apply sendWithKey_silent|]. intros [sent|e] s2 H2.
  - unfold wp, record_call, modify. simpl. exists [OpSignal hash id sent].
    split; [|by eauto]. simpl. rewrite H2. f_equal. exact H1.
  - apply tells_nothing. rewrite H2. exact H1.
Qed.

Lemma smtp_WithAddrKR_tells i addr keyPass fn hash id s :
  (forall userKR addrKR, wp (fn userKR addrKR) (tells hash id nothing (ss_rec s)) s) ->
  wp (smtp_WithAddrKR i addr keyPass fn) (tells hash id nothing (ss_rec s)) s.
Proof.
  intros Hfn. unfold smtp_WithAddrKR. do 3 step.
  destruct (smtp_Unlock _ _ _) as [userKR|e]; [|by apply tells_nothing]. do 3 step.
  destruct (smtp_Unlock _ _ _) as [addrKR|e]; [|by apply tells_nothing]. apply Hfn.
Qed.

Lemma wp_or_remove {A} hash id (m : M A) Q s :
  wp m (fun r s1 => Q r (match r with Ok _ => s1 | Err _ => mkSmtpState (ss_api s1) (ss_rec s1 ++ [OpRemove hash id]) end)) s ->
  wp (or_remove hash id m) Q s.
Proof. unfold wp, or_remove. by destruct (m s) as [s1 [a|e]]. Qed.

(** What the recorder is told when the message is not sent. *)
Definition on_failure (hash : string) (id : Z) (e : goerr) (ops : list op) : Prop :=
  ops = [OpRemove hash id] \/ ops = [] /\ (e = GSentinel ErrInvalidReturnPath \/ exists a, e = GCannotSendFromAddress a).

Lemma wp_or_remove_silent {A} hash id (m : M A) Q s :
  silent m ->
  (forall a s1, ss_rec s1 = ss_rec s -> Q (Ok a) s1) ->
  (forall e s1, tells hash id (on_failure hash id) (ss_rec s) (Err e) s1 -> Q (Err e) s1) ->
  wp (or_remove hash id m) Q s.
Proof.
  intros Hm Hok Herr. apply wp_or_remove, (wp_leaves same_rec); [done|]. intros [a|e] s1 H1; [by apply Hok|].
  apply Herr. exists [OpRemove hash id]. simpl. rewrite H1. split; [done|by left].
Qed.

Lemma smtpSendMail_tells i mode keyPass TryInsertWait authID from to body addr hash id s :
  GetAddr from i = Ok addr -> smtp_MessageHash body = Ok hash -> TryInsertWait hash to = Ok (id, true) ->
  wp (smtpSendMail i mode keyPass TryInsertWait authID from to body) (tells hash id (on_failure hash id) (ss_rec s)) s.
Proof.
  intros Haddr Hhash Hins. unfold smtpSendMail. rewrite Haddr. do 2 step. rewrite Hhash. do 3 step. rewrite Hins. simpl.
  step. apply wp_or_remove_silent; [silence| |done]. intros p s1 H1. do 2 step.
  assert (Hnone : forall e s2, ss_rec s2 = ss_rec s -> (e = GSentinel ErrInvalidReturnPath \/ exists a, e = GCannotSendFromAddress a) ->
    tells hash id (on_failure hash id) (ss_rec s) (Err e) s2).
  { intros e s2 <- He. exists []. rewrite app_nil_r. split; [done|by right]. }
  destruct (match getMessageSender p with None => _ | _ => _ end) as [[sender addr']|e] eqn:Hsender.
  2: { apply Hnone; [done|]. repeat case_match; simplify_eq; by left. }
  destruct (negb (addr_Send addr') || negb (enabled (addr_Status addr'))).
  { apply Hnone; [done|]. eauto. }
  step. rewrite <- H1. apply wp_or_remove_silent; [silence| |done]. intros settings s2 H2. rewrite <- H2.
  apply wp_or_remove.
  eapply wp_mono; [|apply smtp_WithAddrKR_tells; intros userKR addrKR; apply send_body_tells].
  intros [[]|e] s3 (ops & Hrec & Hops); [by exists ops|]. exists [OpRemove hash id].
  unfold nothing in Hops. subst ops. simpl. rewrite Hrec, app_nil_r. split; [done|by left].
Qed.

(** The recorder learns the outcome of every message it accepted: a message that was
    sent is signalled, and one that failed is removed, except when its own sender is
    unknown or may not send.  A message that is refused or was sent before reaches
    neither the API nor the recorder. *)
Theorem smtpSendMail_recorder i mode keyPass TryInsertWait authID from to body s :
  let '(s', r) := smtpSendMail i mode keyPass TryInsertWait authID from to body s in
  match GetAddr from i, smtp_MessageHash body with
  | Ok _, Ok hash =>
      match TryInsertWait hash to with
      | Ok (id, true) =>
          exists ops, ss_rec s' = ss_rec s ++ ops /\
            match r with
            | Ok _ => exists sent, ops = [OpSignal hash id sent]
            | Err e => ops = [OpRemove hash id] \/
                ops = [] /\ (e = GSentinel ErrInvalidReturnPath \/ exists a, e = GCannotSendFromAddress a)
            end
      | Ok (_, false) => s' = s /\ r = Ok ()
      | Err e => s' = s /\ r = Err (GWrap "failed to check send hash" e)
      end
  | Err _, _ => s' = s /\ r = Err (GSentinel ErrInvalidReturnPath)
  | _, Err e => s' = s /\ r = Err e
  end.
Proof.
  destruct (smtpSendMail _ _ _ _ _ _ _ _ s) as [s' r] eqn:Hrun.
  destruct (GetAddr from i) as [addr|e] eqn:Haddr; [destruct (smtp_MessageHash body) as [hash|e] eqn:Hhash|];
    [destruct (TryInsertWait hash to) as [[id []]|e] eqn:Hins|..].
  { pose proof (smtpSendMail_tells i mode keyPass TryInsertWait authID from to body addr hash id s Haddr Hhash Hins) as Hw.
    unfold wp in Hw. rewrite Hrun in Hw. exact Hw. }
  all: revert Hrun; unfold smtpSendMail; rewrite Haddr; try (unfold mbind, eff_bind, reads; rewrite Hhash);
    try (unfold wrapping; rewrite Hins); by intros [= <- <-].
Qed.

(** C6: Sending again, with the recorder as it is: after a success an attempt with the same
    recipients is refused as a duplicate until the entry expires; after a failure that
    the recorder was told about it is accepted, under a new identifier. *)
Theorem resend i mode keyPass TryInsertWait authID from to body addr hash w s' r ex pre h now now' h1 id ch :
  GetAddr from i = Ok addr -> smtp_MessageHash body = Ok hash ->
  run_ops pre (NewSendRecorder ex) = Some h -> Z.of_nat (length pre) + 2 < two64 ->
  TryInsert now now' hash to h = (h1, (id, ch, true)) -> TryInsertWait hash to = Ok (id, true) ->
  smtpSendMail i mode keyPass TryInsertWait authID from to body (mkSmtpState w []) = (s', r) ->
  exists h2, run_ops (ss_rec s') h1 = Some h2 /\
    forall later later' to', matchToList to to' = true ->
      match r with
      | Ok _ => later <= now' + ex -> (TryInsert later later' hash to' h2).2 = (id, ch, false)
      | Err e => e <> GSentinel ErrInvalidReturnPath -> (forall a, e <> GCannotSendFromAddress a) ->
          exists id' ch', (TryInsert later later' hash to' h2).2 = (id', ch', true) /\ id' <> id
      end.
Proof.
  intros Haddr Hhash Hpre Hlen HT Hins Hrun.
  pose proof (smtpSendMail_tells i mode keyPass TryInsertWait authID from to body addr hash id (mkSmtpState w []) Haddr Hhash Hins) as Hw.
  unfold wp in Hw. rewrite Hrun in Hw. destruct Hw as (ops & Hrec & Hops). simpl in Hrec. rewrite Hrec.
  destruct (TryInsert_granted ex pre h now now' hash to h1 id ch) as (W1 & Hc1 & He); [done|lia|done|].
  destruct r as [[]|e]; simpl in Hops.
  - destruct Hops as [sent ->]. destruct (run_ops_ok [OpSignal hash id sent] h1) as (h2 & Hr & _); [done|simpl; lia|].
    exists h2. split; [done|]. intros later later' to' Hto Hexp.
    eapply (granted_dedup ex pre h now now' hash to h1 id ch [OpSignal hash id sent]); [done|done|repeat constructor|exact Hr|simpl; lia|exact Hexp|done].
  - destruct Hops as [->|[-> Hno]].
    + destruct (RemoveOnFail_again h1 hash (mkEntry id "" to (now' + ex) ch false) W1) as (h2 & Hr & _ & _ & _ & _ & Hagain); [lia|exact He|done|].
      exists h2. simpl in *. rewrite Hr. split; [done|]. intros later later' to' Hto _ _. by apply Hagain.
    + exists h1. split; [done|]. intros later later' to' _ H1 H2. destruct Hno as [->|[a ->]]; [done|by destruct (H2 a)].
Qed.

End service.
(** ** The sender and the recipients of the draft *)

(** The alias the client added is put on the address of the account, and nothing else is
    changed: without the alias it is still that address. *)
Lemma constructEmail_SanitizeEmail header address : SanitizeEmail (constructEmail header address) = SanitizeEmail address.
Proof.
  unfold constructEmail.
  destruct (Split at_sign header) as [|u [|? []]] eqn:Hh; [done..| |done].
  destruct (Split plus_sign u) as [|v [|tag []]] eqn:Hp; [done..| |done].
  destruct (Split at_sign address) as [|local [|domain []]] eqn:Ha; [done..| |done].
  assert (Hu : Index at_sign u = None) by (apply (Split_part _ header); rewrite Hh; left).
  assert (Ht : Index at_sign tag = None) by (apply (Split_within _ plus_sign u); [done|rewrite Hp; right; left]).
  assert (Hl : Index at_sign local = None) by (apply (Split_part _ address); rewrite Ha; left).
  assert (Hd : Index at_sign domain = None) by (apply (Split_part _ address); rewrite Ha; right; left).
  assert (Hlt : Index at_sign (local +:+ ("+" +:+ tag)) = None).
  { rewrite Index_app_None by done. change ("+" +:+ tag) with (String plus_sign tag). simpl. by rewrite Ht. }
  unfold SanitizeEmail. rewrite Ha.
  replace (local +:+ "+" +:+ tag +:+ "@" +:+ domain) with ((local +:+ ("+" +:+ tag)) +:+ String at_sign domain)
    by (rewrite !str_app_assoc; done).
  rewrite Split_app_sep, Split_no_sep by done. f_equal. change ("+" +:+ tag) with (String plus_sign tag).
  rewrite !hd_Split. destruct (Index plus_sign local) as [n|] eqn:Hn.
  - rewrite (Index_app_Some _ _ _ _ Hn). apply str_take_app. apply Index_lt in Hn. lia.
  - rewrite Index_app_None by done. cbn [Index]. rewrite Ascii.eqb_refl. cbn [fmap option_fmap option_map].
    rewrite Nat.add_0_r, str_take_app by lia. apply str_take_all.
Qed.

Definition template_addresses (t : DraftTemplate) : list string :=
  ma_Address <$> (dt_ToList t ++ dt_CCList t ++ dt_BCCList t).

Lemma fill_BCC_extra to ToList CCList BCCList :
  exists extra, fill_BCC to ToList CCList BCCList = BCCList ++ (mkMailAddress "" <$> extra) /\ NoDup extra /\
    forall x, x ∈ extra <-> x ∈ to /\ x ∉ ma_Address <$> (ToList ++ CCList ++ BCCList).
Proof.
  revert BCCList. unfold fill_BCC. induction to as [|r to IH]; intros B; simpl.
  { exists []. rewrite app_nil_r. split; [done|]. split; [constructor|]. intros x. rewrite elem_of_nil. naive_solver. }
  destruct (Contains _ r) eqn:Hr; [apply bool_decide_eq_true in Hr|apply bool_decide_eq_false in Hr].
  - destruct (IH B) as (extra & He & Hnd & Hx). exists extra. split; [done|]. split; [done|].
    intros x. rewrite Hx, elem_of_cons. split; [naive_solver|]. intros [[->|?] ?]; [done|done].
  - destruct (IH (B ++ [mkMailAddress "" r])) as (extra & He & Hnd & Hx).
    assert (Ha : forall x, x ∈ ma_Address <$> (ToList ++ CCList ++ B ++ [mkMailAddress "" r]) <->
                           x ∈ ma_Address <$> (ToList ++ CCList ++ B) \/ x = r).
    { intros x. rewrite !fmap_app, !elem_of_app. simpl. rewrite list_elem_of_singleton. tauto. }
    exists (r :: extra). split; [rewrite He; simpl; by rewrite <- app_assoc|].
    split; [constructor; [rewrite Hx, Ha; tauto|done]|].
    intros x. rewrite !elem_of_cons, Hx, Ha. destruct (decide (x = r)) as [->|Hne]; tauto.
Qed.

Lemma draft_template_covers emails from to t t' :
  draft_template emails from to t = Ok t' -> forall a, a ∈ to -> a ∈ template_addresses t'.
Proof.
  unfold draft_template. destruct (draft_sender emails from (dt_Sender t)) as [sender|e] eqn:Hs; [|done].
  intros [= <-] a Ha. unfold template_addresses. simpl.
  destruct (fill_BCC_extra to (Filter (dt_ToList t) (fun addr => Contains to (ma_Address addr))) (dt_CCList t) (dt_BCCList t))
    as (extra & -> & _ & Hx). rewrite !fmap_app, !elem_of_app.
  destruct (decide (a ∈ extra)) as [Hin|Hin].
  - do 3 right. rewrite <- list_fmap_compose. apply list_elem_of_fmap. by exists a.
  - rewrite Hx in Hin. rewrite !fmap_app, !elem_of_app in Hin.
    destruct (decide (a ∈ ma_Address <$> Filter (dt_ToList t) (fun addr => Contains to (ma_Address addr)))); [by left|].
    destruct (decide (a ∈ ma_Address <$> dt_CCList t)); [tauto|]. destruct (decide (a ∈ ma_Address <$> dt_BCCList t)); tauto.
Qed.

(** The draft goes to whom the envelope names: every recipient of the envelope is on a
    list of the draft, the To list has no one else, and each recipient the header does
    not mention is added once to the blind copies; the sender is an address of the
    account, with or without an alias. *)
Theorem draft_template_recipients emails from to t t' :
  draft_template emails from to t = Ok t' ->
  (forall a, a ∈ to -> a ∈ template_addresses t') /\
  (forall m, m ∈ dt_ToList t' <-> m ∈ dt_ToList t /\ ma_Address m ∈ to) /\
  dt_CCList t' = dt_CCList t /\
  (exists extra, dt_BCCList t' = dt_BCCList t ++ (mkMailAddress "" <$> extra) /\ NoDup extra /\
     forall a, a ∈ extra <-> a ∈ to /\ a ∉ ma_Address <$> (dt_ToList t' ++ dt_CCList t ++ dt_BCCList t)) /\
  exists sender email, dt_Sender t' = Some sender /\ email ∈ emails /\
    SanitizeEmail (ma_Address sender) = SanitizeEmail email.
Proof.
  intros Ht. pose proof (draft_template_covers _ _ _ _ _ Ht) as Hcov. revert Ht.
  unfold draft_template. destruct (draft_sender emails from (dt_Sender t)) as [sender|e] eqn:Hs; [|done].
  intros [= <-]. simpl. split_and!; [done| |done|apply fill_BCC_extra|].
  - intros m. rewrite elem_of_Filter. unfold Contains. by rewrite bool_decide_eq_true.
  - unfold draft_sender in Hs. destruct (find_first _ emails) as [email|] eqn:Hf; [|done]. injection Hs as <-.
    apply find_first_Some in Hf as [Hin _]. eexists _, email. split; [done|]. split; [done|]. apply constructEmail_SanitizeEmail.
Qed.

(** ** The parent of a reply *)

Definition drafts_of (metadata : list SendMeta) : list string := sm_ID <$> Filter metadata sm_IsDraft.

Lemma scan_metadata_spec metadata parentID drafts :
  (scan_metadata metadata parentID drafts).2 = drafts ++ drafts_of metadata /\
  ((scan_metadata metadata parentID drafts).1 = parentID \/
   exists m, m ∈ metadata /\ sm_IsDraft m = false /\ sm_ID m = (scan_metadata metadata parentID drafts).1).
Proof.
  revert parentID drafts. induction metadata as [|m metadata IH]; intros parentID drafts; simpl.
  { split; [by rewrite app_nil_r|by left]. }
  unfold drafts_of. simpl. destruct (sm_IsDraft m) eqn:Hm; simpl.
  - destruct (IH parentID (drafts ++ [sm_ID m])) as [-> Hp]. rewrite <- app_assoc. split; [done|].
    destruct Hp as [|(x & ? & ? & ?)]; [by left|right; exists x; split; [by right|done]].
  - destruct (IH (sm_ID m) drafts) as [-> Hp]. split; [done|]. right.
    destruct Hp as [->|(x & ? & ? & ?)]; [exists m; split; [left|done]|exists x; split; [by right|done]].
Qed.

(** A message the server returned for the filter. *)
Definition returned (lookup : MetaFilter -> result goerr (list SendMeta)) (f : MetaFilter) (m : SendMeta) : Prop :=
  exists metadata, lookup f = Ok metadata /\ m ∈ metadata.

Lemma scan_internal_spec lookup addrID internal parentID drafts p ds :
  scan_internal lookup addrID internal parentID drafts = Ok (p, ds) ->
  (forall d, d ∈ ds <-> d ∈ drafts \/ exists ref m, ref ∈ internal /\ returned lookup (mkMetaFilter [ref] "" addrID) m /\
                                   sm_IsDraft m = true /\ sm_ID m = d) /\
  (p = parentID \/ exists ref m, ref ∈ internal /\ returned lookup (mkMetaFilter [ref] "" addrID) m /\
                    sm_IsDraft m = false /\ sm_ID m = p).
Proof.
  revert parentID drafts. induction internal as [|ref internal IH]; intros parentID drafts; simpl.
  { intros [= <- <-]. split; [|by left]. intros d. split; [by left|]. intros [|(? & ? & Hin & _)]; [done|]. by apply elem_of_nil in Hin. }
  destruct (lookup (mkMetaFilter [ref] "" addrID)) as [metadata|e] eqn:Hl; [|done].
  destruct (scan_metadata metadata parentID drafts) as [p1 ds1] eqn:Hs. intros Hrun.
  destruct (scan_metadata_spec metadata parentID drafts) as [Hd Hp]. rewrite Hs in Hd, Hp. simpl in Hd, Hp. subst ds1.
  destruct (IH _ _ Hrun) as [Hds Hpar]. split.
  - intros d. rewrite Hds, elem_of_app. unfold drafts_of, returned. rewrite list_elem_of_fmap. setoid_rewrite elem_of_Filter. split.
    + intros [[Hd|(m & -> & Hm & Hdr)]|(r & m & Hr & Hm)]; [by left|right; exists ref, m; split; [left|naive_solver]|].
      right. exists r, m. split; [by right|done].
    + intros [Hd|(r & m & [->|Hr]%elem_of_cons & (md & Hmd & Hm) & Hdr & <-)]; [by left; left| |].
      * left. right. exists m. rewrite Hl in Hmd. by injection Hmd as <-.
      * right. exists r, m. split; [done|]. by split; [exists md|].
  - destruct Hpar as [->|(r & m & Hr & Hm)]; [|right; exists r, m; split; [by right|done]].
    destruct Hp as [->|(m & Hm & Hdr & Hid)]; [by left|right]. exists ref, m. split; [left|]. split; [by exists metadata|done].
Qed.

Lemma pick_external_spec metadata :
  pick_external metadata = "" \/
  exists m, m ∈ metadata /\ sm_FlagSent m || sm_FlagReceived m = true /\ sm_ID m = pick_external metadata.
Proof.
  unfold pick_external. destruct metadata as [|m [|m' rest]]; [by left|..].
  - destruct (sm_FlagSent m || sm_FlagReceived m) eqn:Hm; [right|by left]. exists m. split; [left|done].
  - destruct (find_first sm_FlagSent (m :: m' :: rest)) as [x|] eqn:Hx; [right|by left].
    apply find_first_Some in Hx as [Hin Hs]. exists x. by rewrite Hs.
Qed.

(** The parent of a reply is a message the server returned for one of its references: for
    an internal one it is not a draft, for an external one it was sent or received; and
    the drafts to delete afterwards are exactly those the internal references name. *)
Theorem getParentID_spec lookup authAddrID mode references parentID drafts :
  getParentID lookup authAddrID mode references = Ok (parentID, drafts) ->
  let addrID := filter_address authAddrID mode in
  let internal ref m := ref ∈ internal_refs references /\ returned lookup (mkMetaFilter [ref] "" addrID) m in
  (forall d, d ∈ drafts <-> exists ref m, internal ref m /\ sm_IsDraft m = true /\ sm_ID m = d) /\
  (parentID <> "" ->
     (exists ref m, internal ref m /\ sm_IsDraft m = false /\ sm_ID m = parentID) \/
     (exists ref m, ref ∈ external_refs references /\ returned lookup (mkMetaFilter [] ref addrID) m /\
        sm_FlagSent m || sm_FlagReceived m = true /\ sm_ID m = parentID)).
Proof.
  unfold getParentID. intros Hrun. simpl.
  destruct (scan_internal _ _ _ "" []) as [[p ds]|e] eqn:Hs; [|done]. simpl in Hrun.
  destruct (scan_internal_spec _ _ _ _ _ _ _ Hs) as [Hds Hp].
  assert (Hd : forall d, d ∈ ds <-> exists ref m, (ref ∈ internal_refs references /\
    returned lookup (mkMetaFilter [ref] "" (filter_address authAddrID mode)) m) /\ sm_IsDraft m = true /\ sm_ID m = d).
  { intros d. rewrite Hds, elem_of_nil. naive_solver. }
  assert (Hin : p <> "" -> exists ref m, (ref ∈ internal_refs references /\
    returned lookup (mkMetaFilter [ref] "" (filter_address authAddrID mode)) m) /\ sm_IsDraft m = false /\ sm_ID m = p).
  { intros Hne. destruct Hp as [->|(r & m & ? & ? & ? & ?)]; [done|]. by exists r, m. }
  destruct (String.eqb p "") eqn:He; [|injection Hrun as <- <-; split; [done|]; intros Hne; left; by apply Hin].
  destruct (List.rev (external_refs references)) as [|ext rest] eqn:Hr.
  { injection Hrun as <- <-. apply String.eqb_eq in He. by split. }
  destruct (lookup (mkMetaFilter [] ext _)) as [metadata|] eqn:Hl; [|done]. injection Hrun as <- <-. split; [done|].
  intros Hne. right. destruct (pick_external_spec metadata) as [|(m & Hm & Hf & Hid)]; [done|].
  exists ext, m. split; [|by split; [exists metadata|]].
  apply list_elem_of_In, in_rev. rewrite Hr. by left.
Qed.

(** ** The recipients of the message *)

Section delivery.
Context {W : Type} `{SC : SmtpClient W} {Parser : Type} `{LIB : SmtpLib Parser} `{MR : MapRange}.

Lemma all_prefs_Forall2 userKR settings mime addresses w prefs :
  all_prefs userKR settings mime addresses w = Ok prefs ->
  Forall2 (fun a p => recipient_prefs userKR settings mime a w = Ok p) addresses prefs.
Proof.
  revert prefs. induction addresses as [|a addresses IH]; intros prefs; simpl; [by intros [= <-]; constructor|].
  destruct (recipient_prefs userKR settings mime a w) as [p|e] eqn:Ha; [|done]. simpl.
  destruct (all_prefs userKR settings mime addresses w) as [ps|e]; [|done]. simpl. intros [= <-].
  constructor; [done|by apply IH].
Qed.

Lemma getRecipients_lookup userKR settings draft w rs :
  getRecipients userKR settings draft w = Ok rs ->
  forall a, match rs !! a with
            | Some p => a ∈ draft_addresses draft /\ recipient_prefs userKR settings (d_MIMEType draft) a w = Ok p
            | None => a ∉ draft_addresses draft
            end.
Proof.
  unfold getRecipients. destruct (all_prefs _ _ _ _ w) as [prefs|e] eqn:Hp; [|done]. intros [= <-].
  apply all_prefs_Forall2 in Hp. revert Hp. generalize (draft_addresses draft) as l. intros l Hp a.
  assert (Hgen : forall m : gmap string SendPreferences,
    match foldl (fun m p => <[p.1 := p.2]> m) m (zip l prefs) !! a with
    | Some p => (a ∈ l /\ recipient_prefs userKR settings (d_MIMEType draft) a w = Ok p) \/ m !! a = Some p
    | None => a ∉ l /\ m !! a = None
    end).
  { induction Hp as [|x p l ps Hx Hp IH]; intros m; simpl.
    - destruct (m !! a); [by right|]. split; [|done]. by intros ?%elem_of_nil.
    - specialize (IH (<[x := p]> m)). destruct (foldl _ _ _ !! a) as [q|].
      + destruct IH as [[? ?]|Hm]; [left; split; [by right|done]|].
        destruct (decide (x = a)) as [->|Hne]; [rewrite lookup_insert_eq in Hm; injection Hm as <-; left; split; [left|done]|].
        rewrite lookup_insert_ne in Hm by done. by right.
      + destruct IH as [Hn Hm]. destruct (decide (x = a)) as [->|Hne]; [by rewrite lookup_insert_eq in Hm|].
        rewrite lookup_insert_ne in Hm by done. split; [|done]. rewrite elem_of_cons. naive_solver. }
  specialize (Hgen ∅). destruct (foldl _ ∅ _ !! a); [|tauto]. destruct Hgen as [|Hm]; [done|]. by rewrite lookup_empty in Hm.
Qed.

(** The draft the server makes has the recipients of the request. *)
Definition echoes_recipients : Prop := forall kr req w w' d,
  smtp_CreateDraft kr req w = (w', Ok d) ->
  draft_addresses d = template_addresses (cdr_Message req).

(** C24: When sending succeeds, the message went out in a request built from the preferences
    of every recipient of the envelope, looked up for the draft that carries it. *)
Theorem sendWithKey_delivers authID mode settings userKR addrKR emails from to message s s' sent :
  echoes_recipients ->
  sendWithKey authID mode settings userKR addrKR emails from to message s = (s', Ok sent) ->
  exists draft (rs : gmap string SendPreferences) attKeys req w,
    (forall a, a ∈ to -> exists p, rs !! a = Some p) /\
    (forall a p, rs !! a = Some p -> a ∈ draft_addresses draft /\
                  recipient_prefs userKR settings (d_MIMEType draft) a w = Ok p) /\
    createSendReq addrKR (msg_MIMEBody message) (msg_RichBody message) (msg_PlainBody message) rs attKeys = Ok req /\
    (SendDraft (d_ID draft) req w).2 = Ok sent.
Proof.
  intros Hecho. unfold sendWithKey.
  intros (s1 & parent & _ & Hrun)%eff_bind_Ok. apply eff_bind_Ok in Hrun as (s2 & decBody & _ & Hrun).
  apply eff_bind_Ok in Hrun as (s3 & draft & Hd%wrapping_Ok_iff & Hrun).
  apply eff_bind_Ok in Hrun as (s4 & attKeys & _ & Hrun).
  apply eff_bind_Ok in Hrun as (s5 & rs & Hrs%wrapping_Ok_iff & Hrun).
  apply eff_bind_Ok in Hrun as (s6 & req & Hreq & Hrun).
  apply eff_bind_Ok in Hrun as (s7 & res & Hres%wrapping_Ok_iff & Hrun).
  apply eff_bind_Ok in Hrun as (s8 & [] & _ & Hret). injection Hret as _ <-.
  unfold createDraft in Hd. apply eff_bind_Ok in Hd as (s9 & t' & Ht & Hd).
  injection Ht as <- Ht. unfold smtp_api in Hd. destruct (smtp_CreateDraft _ _ _) as [w' r] eqn:Hc. simplify_eq.
  unfold smtp_read, reads in Hrs. injection Hrs as <- Hrs.
  unfold reads in Hreq. destruct (createSendReq _ _ _ _ _ _) as [rq|e] eqn:Hq; [|done]. injection Hreq as <- <-.
  unfold smtp_api in Hres. destruct (SendDraft (d_ID draft) rq (ss_api s4)) as [w2 r2] eqn:Hsend. simplify_eq.
  pose proof (getRecipients_lookup _ _ _ _ _ Hrs) as Hlook.
  exists draft, rs, attKeys, rq, (ss_api s4). split; [|split; [|split; [done|by rewrite Hsend]]].
  - intros a Ha. apply (draft_template_covers _ _ _ _ _ Ht) in Ha.
    specialize (Hlook a). destruct (rs !! a) as [p|]; [by exists p|]. destruct Hlook. by rewrite (Hecho _ _ _ _ _ Hc).
  - intros a p Ha. specialize (Hlook a). by rewrite Ha in Hlook.
Qed.

(** When the server does not know a recipient, the client is told which one. *)
Theorem missing_recipient_named userKR settings draft w before a after e :
  draft_addresses draft = before ++ a :: after ->
  Forall (fun b => exists p, recipient_prefs userKR settings (d_MIMEType draft) b w = Ok p) before ->
  GetPublicKeys a w = Err e -> as_API e = Some (422, errCodeAddressDoesNotExist) ->
  exists e', getRecipients userKR settings draft w = Err e' /\
    mapError (GJoin (GSentinel ErrSendMessageOperation) "" (GJoin (GSentinel ErrGetRecipientsOperation) "" e')) = missing_recipient a.
Proof.
  intros Hd Hb Hk He. unfold getRecipients. rewrite Hd.
  assert (Ha : all_prefs userKR settings (d_MIMEType draft) (before ++ a :: after) w =
    Err (GJoin (GSentinel ErrLookupRecipientPublicKey) "failed to get public key" (GJoin (GRecipientAddressDoesNotExist a) "" e))).
  { clear Hd. induction Hb as [|b before [p Hp] _ IH]; simpl.
    - unfold recipient_prefs. by rewrite Hk, He.
    - by rewrite Hp, IH. }
  rewrite Ha. eexists. split; [done|]. done.
Qed.

End delivery.
End smtp.

(** ** A concrete account that sends *)

#[local] Existing Instance text_keys.
#[local] Existing Instance list_req.
#[local] Existing Instance canonical_range.

(** The server keeps the identifiers of what it sent; it does not know the address
    "gone@pm.me". *)
#[local] Instance ex_client : SmtpClient (list string) := {
  smtp_GetMailSettings := fun w => Ok (ex_settings, true);
  GetMessageMetadata := fun f w =>
    Ok (if bool_decide (mf_ID f = ["old"]) then [mkSendMeta "old" true false false; mkSendMeta "parent" false false true] else []);
  smtp_CreateDraft := fun kr req w =>
    (w, Ok (mkDraft "draft" (dt_MIMEType (cdr_Message req)) (dt_ToList (cdr_Message req)) (dt_CCList (cdr_Message req)) (dt_BCCList (cdr_Message req))));
  smtp_UploadAttachment := fun kr a w => (w, Err (GOther "full"));
  GetPublicKeys := fun a w => if String.eqb a "gone@pm.me" then Err (GWrap "request" (GAPI 422 33102)) else Ok (["k1"], true);
  GetAllContactEmails := fun a w => Ok [(a, "c")];
  GetContactSettings := fun kr c a w => Ok (@mkContactSettings text_keys (Some TextHTML) [] None None (Some true) None);
  SendDraft := fun id req w => (w ++ [id], Ok "sent");
  smtp_DeleteMessage := fun ids w => (w, Some (GOther "offline"))
}.

#[local] Instance ex_lib : SmtpLib string := {
  smtp_ParserNew := fun b => Ok b;
  smtp_From := fun _ => "From: first@pm.me";
  smtp_ParseAddressList := fun _ => Ok ["first+shop@pm.me"];
  smtp_AttachEmptyText := fun p => p;
  smtp_AttachPublicKey := fun _ _ p => p;
  smtp_ParseMessage := fun p =>
    Ok (mkMessage p p p TextPlain "hello" (Some (mkMailAddress "Me" "first+shop@pm.me")) [mkMailAddress "Ann" "ann@pm.me"] [] []
          ["old@protonmail.internalid"] "ext" "" "" []);
  smtp_MessageHash := fun b => Ok b;
  FormatMediaType := fun t _ => t;
  smtp_Unlock := fun _ _ _ => Ok "kr";
  smtp_FirstKey := fun kr => Ok kr;
  GetArmoredPublicKey := fun kr => Ok kr;
  key_Fingerprint := fun _ => "0123456789abcdef";
  key_IdentityName := fun _ => "me"
}.

Definition ex_send (to : list string) : SmtpState (list string) * result goerr () :=
  smtpSendMail ex_identity AddressModeCombined [] (fun _ _ => Ok (1, true)) "a" "first@pm.me" to "body" (mkSmtpState [] []).

Example ex_send_ok : ex_send ["ann@pm.me"; "bob@pm.me"] = (mkSmtpState ["draft"] [OpSignal "body" 1 "sent"], Ok ()).
Proof. vm_compute. reflexivity. Qed.

Example ex_send_missing :
  let '(s, r) := ex_send ["ann@pm.me"; "gone@pm.me"] in
  ss_rec s = [OpRemove "body" 1] /\ exists e, r = Err e /\ mapError e = missing_recipient "gone@pm.me".
Proof. vm_compute. split; [reflexivity|]. eexists. split; reflexivity. Qed.

Lemma resend_witness :
  exists s' h2, ex_send ["ann@pm.me"; "gone@pm.me"] = s' /\ run_ops (ss_rec s'.1) (TryInsert 0 0 "body" ["ann@pm.me"; "gone@pm.me"] (NewSendRecorder 10)).1 = Some h2 /\
    exists id' ch', (TryInsert 1 1 "body" ["gone@pm.me"; "ann@pm.me"] h2).2 = (id', ch', true).
Proof.
  destruct (ex_send ["ann@pm.me"; "gone@pm.me"]) as [s' r] eqn:Hrun.
  assert (Hr : exists e, r = Err e /\ e <> GSentinel ErrInvalidReturnPath /\ forall a, e <> GCannotSendFromAddress a).
  { vm_compute in Hrun. injection Hrun as <- <-. eexists. split; [reflexivity|]. by split. }
  unfold ex_send in Hrun.
  destruct (resend ex_identity AddressModeCombined [] (fun _ _ => Ok (1, true)) "a" "first@pm.me" ["ann@pm.me"; "gone@pm.me"] "body"
    (mkAddress "a" "first@pm.me" AddressStatusEnabled 1 [] (AddressTypeOther 1) true "") "body" [] s' r 10 [] (NewSendRecorder 10) 0 0
    (TryInsert 0 0 "body" ["ann@pm.me"; "gone@pm.me"] (NewSendRecorder 10)).1 1 0%nat)
    as (h2 & Hh2 & Hagain); [vm_compute; reflexivity|reflexivity|reflexivity|vm_compute; reflexivity|vm_compute; reflexivity|reflexivity|exact Hrun|].
  exists (s', r), h2. split; [reflexivity|]. split; [exact Hh2|].
  destruct Hr as (e & -> & Hne & Hns). specialize (Hagain 1 1 ["gone@pm.me"; "ann@pm.me"]). simpl in Hagain.
  destruct Hagain as (id' & ch' & Ha & _); [vm_compute; reflexivity|exact Hne|exact Hns|]. exists id', ch'. exact Ha.
Defined.

Definition ex_template : DraftTemplate :=
  mkDraftTemplate "hello" "body" TextPlain (Some (mkMailAddress "Me" "FIRST+shop@pm.me")) [mkMailAddress "Ann" "ann@pm.me"; mkMailAddress "" "list@pm.me"]
    [mkMailAddress "" "carl@pm.me"] [] "ext".

Lemma draft_template_recipients_witness :
  exists t', draft_template ["first@pm.me"] "first@pm.me" ["ann@pm.me"; "bob@pm.me"; "bob@pm.me"] ex_template = Ok t' /\
    dt_Sender t' = Some (mkMailAddress "Me" "first+shop@pm.me") /\ dt_BCCList t' = [mkMailAddress "" "bob@pm.me"] /\
    forall a, a ∈ ["ann@pm.me"; "bob@pm.me"; "bob@pm.me"] -> a ∈ template_addresses t'.
Proof.
  destruct (draft_template ["first@pm.me"] "first@pm.me" ["ann@pm.me"; "bob@pm.me"; "bob@pm.me"] ex_template) as [t'|e] eqn:Ht; [|discriminate Ht].
  exists t'. split; [reflexivity|]. split; [vm_compute in Ht; injection Ht as <-; reflexivity|].
  split; [vm_compute in Ht; injection Ht as <-; reflexivity|].
  exact (proj1 (draft_template_recipients _ _ _ _ _ Ht)).
Defined.

Lemma getParentID_spec_witness :
  getParentID (fun f => GetMessageMetadata f []) "a" AddressModeSplit ["old@protonmail.internalid"; "<x@y>"] = Ok ("parent", ["old"]) /\
  exists ref m, (ref ∈ internal_refs ["old@protonmail.internalid"; "<x@y>"] /\
    returned (fun f => GetMessageMetadata f []) (mkMetaFilter [ref] "" "a") m) /\ sm_IsDraft m = true /\ sm_ID m = "old".
Proof.
  assert (Hrun : getParentID (fun f => GetMessageMetadata f []) "a" AddressModeSplit ["old@protonmail.internalid"; "<x@y>"] = Ok ("parent", ["old"]))
    by (vm_compute; reflexivity).
  split; [exact Hrun|]. apply (getParentID_spec _ _ _ _ _ _ Hrun). left.
Defined.

Definition ex_with_key : SmtpState (list string) * result goerr string :=
  sendWithKey "a" AddressModeCombined ex_settings "kr" "kr" ["first@pm.me"] "first@pm.me" ["ann@pm.me"; "bob@pm.me"]
    (mkMessage "m" "r" "p" TextPlain "hello" None [mkMailAddress "Ann" "ann@pm.me"] [] [] [] "ext" "" "" []) (mkSmtpState [] []).

Lemma sendWithKey_delivers_witness :
  exists s', ex_with_key = (s', Ok "sent") /\
  exists (rs : gmap string SendPreferences), exists p, rs !! "bob@pm.me" = Some p.
Proof.
  destruct ex_with_key as [s' r] eqn:Hrun. assert (r = Ok "sent") as -> by (vm_compute in Hrun; injection Hrun as <- <-; reflexivity).
  exists s'. split; [reflexivity|]. unfold ex_with_key in Hrun.
  assert (Hecho : echoes_recipients (W := list string)) by (intros kr req w w' d [= <- <-]; reflexivity).
  destruct (sendWithKey_delivers _ _ _ _ _ _ _ _ _ _ _ _ Hecho Hrun) as (draft & rs & attKeys & req & w & Hto & _).
  exists rs. apply Hto. right. left.
Defined.

Lemma missing_recipient_named_witness :
  exists e', getRecipients (PG := text_keys) "kr" ex_settings (mkDraft "draft" TextPlain [mkMailAddress "" "ann@pm.me"; mkMailAddress "" "gone@pm.me"] [] []) [] = Err e' /\
    mapError (GJoin (GSentinel ErrSendMessageOperation) "" (GJoin (GSentinel ErrGetRecipientsOperation) "" e')) = missing_recipient "gone@pm.me".
Proof.
  apply (missing_recipient_named (PG := text_keys) "kr" ex_settings _ [] ["ann@pm.me"] "gone@pm.me" [] (GWrap "request" (GAPI 422 33102)));
    [reflexivity| |reflexivity|reflexivity].
  constructor; [|constructor]. eexists. vm_compute. reflexivity.
Defined.
