(* ===== verification/SmtpService.v ===== *)
(** * The SMTP service and its sessions (internal/services/smtp: service.go,
      smtp_backend.go)

    The service of an account runs a loop over requests and events that share its
    identity state and its address mode; sending is the work of [SmtpSend].  A session
    is what the SMTP server keeps for one connection: who logged in, and the envelope of
    the message being submitted. *)

From S2P Require Import Prelude.
From S2P Require Import Strings.
From S2P Require Import Api.
From S2P Require Import SendRecorder.
From S2P Require Import SendPrefs.
From S2P Require Import SmtpErrors.
From S2P Require Import UserEvents.
From S2P Require Import UserIdentity.
From S2P Require Import Effects.
From S2P Require Import SmtpSend.
From S2P Require SmtpAccounts.

(** ** The service *)

Section service.
Context `{PG : PGP} `{SR : !SendReq} {W : Type} `{SC : !SmtpClient W} {Parser : Type} `{LIB : !SmtpLib Parser}.
Context `{MR : MapRange, SF : SortFunc}.

(** [smtp_registered] is whether the account is on the SMTP server. *)
Record SmtpService : Type := mkSmtpService {
  smtp_identity : State;
  smtp_addressMode : AddressMode;
  smtp_state : SmtpState W;
  smtp_registered : bool
}.

Definition smtp_set_identity (i : State) (s : SmtpService) : SmtpService :=
  mkSmtpService i (smtp_addressMode s) (smtp_state s) (smtp_registered s).

(** What the rest of the account answers while a request or an event is handled. *)
Record smtp_env : Type := mkSmtpEnv {
  env_provider : IdentityProvider;
  env_bridgePass : list Z;
  env_keyPass : list Z;
  env_TryInsertWait : string -> list string -> result goerr (Z * bool);
  env_AddSMTPAccount : option err;
  env_RemoveSMTPAccount : option err
}.

Definition smtp_HandleRefreshEvent (env : smtp_env) (flag : Z * string) (s : SmtpService) : SmtpService * option err :=
  let '(i, e) := OnRefreshEvent (env_provider env) (smtp_identity s) in (smtp_set_identity i s, e).

Definition smtp_HandleAddressEvents (events : list AddressEvent) (s : SmtpService) : SmtpService * option err :=
  (smtp_set_identity (OnAddressEvents events (smtp_identity s)) s, None).

Definition smtp_HandleUserEvent (user : User) (s : SmtpService) : SmtpService * option err :=
  (smtp_set_identity (OnUserEvent user (smtp_identity s)) s, None).

Definition smtpHandler (env : smtp_env) : EventHandler SmtpService :=
  mkEventHandler (Some (smtp_HandleRefreshEvent env)) None (Some smtp_HandleUserEvent) (Some smtp_HandleAddressEvents)
    None None None None.

(** The requests of [SendMail], [SetAddressMode], [checkAuth], [Resync] and [OnLogout]. *)
Inductive smtp_request : Type :=
| sendMailReq (authID from : string) (to : list string) (body : string)
| setAddressModeReq (mode : AddressMode)
| smtp_checkAuthReq (email : string) (password : list Z)
| smtp_resyncReq
| onLogoutReq.

Inductive smtp_reply : Type :=
| SmtpSent (r : result goerr ())
| SmtpReply (e : option err)
| SmtpAuth (r : checked (result err string)).

Definition sendMail (env : smtp_env) (authID from : string) (to : list string) (body : string) (s : SmtpService)
    : SmtpService * result goerr () :=
  let '(st, r) := smtpSendMail (smtp_identity s) (smtp_addressMode s) (env_keyPass env) (env_TryInsertWait env)
                    authID from to body (smtp_state s) in
  (mkSmtpService (smtp_identity s) (smtp_addressMode s) st (smtp_registered s), r).

Definition smtp_serve (env : smtp_env) (r : smtp_request) (s : SmtpService) : SmtpService * smtp_reply :=
  match r with
  | sendMailReq authID from to body => let '(s, r) := sendMail env authID from to body s in (s, SmtpSent r)
  | setAddressModeReq mode =>
      (mkSmtpService (smtp_identity s) mode (smtp_state s) (smtp_registered s), SmtpReply None)
  | smtp_checkAuthReq email password => (s, SmtpAuth (CheckAuth (env_bridgePass env) email password (smtp_identity s)))
  | smtp_resyncReq =>
      let '(i, e) := OnRefreshEvent (env_provider env) (smtp_identity s) in (smtp_set_identity i s, SmtpReply e)
  | onLogoutReq =>
      match env_RemoveSMTPAccount env with
      | Some e => (s, SmtpReply (Some e))
      | None => (mkSmtpService (smtp_identity s) (smtp_addressMode s) (smtp_state s) false, SmtpReply None)
      end
  end.

(** [Start] registers the account before the loop runs. *)
Definition smtp_Start (env : smtp_env) (s : SmtpService) : SmtpService * option err :=
  match env_AddSMTPAccount env with
  | Some e => (s, Some (ErrWrap "failed to add SMTP account to server" e))
  | None => (mkSmtpService (smtp_identity s) (smtp_addressMode s) (smtp_state s) true, None)
  end.

(** One iteration of [run]. *)
Inductive smtp_input : Type :=
| SmtpRequest (env : smtp_env) (r : smtp_request)
| SmtpEvent (env : smtp_env) (event : Event).

Definition smtp_step (s : SmtpService) (i : smtp_input) : SmtpService :=
  match i with
  | SmtpRequest env r => (smtp_serve env r s).1
  | SmtpEvent env event => (OnEvent (smtpHandler env) event s).1
  end.

(** *** The loop *)

Lemma smtp_step_identity_ok s i : identity_ok (smtp_identity s) -> identity_ok (smtp_identity (smtp_step s i)).
Proof.
  intros Hs. destruct i as [env r|env ev]; simpl.
  - destruct r; simpl; try done.
    + unfold sendMail. by destruct (smtpSendMail _ _ _ _ _ _ _ _ _).
    + assert (Ho := OnRefreshEvent_ok (env_provider env) _ Hs). by destruct (OnRefreshEvent _ _).
    + by destruct (env_RemoveSMTPAccount env).
  - apply (OnEvent_keeps (fun s => identity_ok (smtp_identity s))); [..|done]; intros f a t; simpl; try done; intros [= <-] Ht.
    + unfold smtp_HandleRefreshEvent. assert (Ho := OnRefreshEvent_ok (env_provider env) _ Ht). by destruct (OnRefreshEvent _ _).
    + done.
    + by apply OnAddressEvents_ok.
Qed.

(** The mode set last. *)
Definition mode_after (mode : AddressMode) (ins : list smtp_input) : AddressMode :=
  foldl (fun m i => match i with SmtpRequest _ (setAddressModeReq m') => m' | _ => m end) mode ins.

Definition is_sendMail (i : smtp_input) : bool := match i with SmtpRequest _ (sendMailReq _ _ _ _) => true | _ => false end.

Lemma smtp_event_frame env ev s :
  let s' := (OnEvent (smtpHandler env) ev s).1 in
  smtp_addressMode s' = smtp_addressMode s /\ smtp_state s' = smtp_state s.
Proof.
  apply (OnEvent_keeps (fun t => smtp_addressMode t = smtp_addressMode s /\ smtp_state t = smtp_state s)); [..|done];
    intros f a t; simpl; try done; intros [= <-] Ht; try done.
  unfold smtp_HandleRefreshEvent. by destruct (OnRefreshEvent _ _).
Qed.

Lemma smtp_step_frame s i :
  smtp_addressMode (smtp_step s i) = mode_after (smtp_addressMode s) [i] /\
  (is_sendMail i = false -> smtp_state (smtp_step s i) = smtp_state s).
Proof.
  destruct i as [env r|env ev]; simpl; [|destruct (smtp_event_frame env ev s) as [-> ->]; done].
  destruct r; simpl; try done.
  - unfold sendMail. by destruct (smtpSendMail _ _ _ _ _ _ _ _ _).
  - by destruct (OnRefreshEvent _ _).
  - by destruct (env_RemoveSMTPAccount env).
Qed.


(** The same addresses. *)
Definition same_addresses (i j : State) : Prop := AddressesSorted i = AddressesSorted j /\ Addresses i = Addresses j.

Lemma OnRefreshEvent_same provider i j :
  same_addresses i j ->
  same_addresses (OnRefreshEvent provider i).1 (OnRefreshEvent provider j).1 /\
  (OnRefreshEvent provider i).2 = (OnRefreshEvent provider j).2.
Proof. intros [H1 H2]. unfold OnRefreshEvent. repeat case_match; done. Qed.

Lemma OnAddressEvents_same events i j : same_addresses i j -> same_addresses (OnAddressEvents events i) (OnAddressEvents events j).
Proof.
  unfold OnAddressEvents. revert i j. induction events as [|ev events IH]; intros i j Hij; simpl; [done|]. apply IH.
  destruct Hij as [H1 H2]. unfold OnAddressEvent, OnAddressDeleted, OnAddressUpdated, OnAddressCreated. rewrite H2.
  repeat case_match; simplify_eq/=; by split.
Qed.

Lemma HandleUsedSpaceEvent_same v s j (f : err -> err) :
  same_addresses (identity s) j ->
  same_addresses (identity (let (s', o) := HandleUsedSpaceEvent v s in match o with Some e => (s', Some (f e)) | None => (s', None) end).1) j.
Proof. unfold HandleUsedSpaceEvent, OnUserSpaceChanged. by destruct (user_UsedSpace _ =? _). Qed.

(** The service of the identities and the SMTP service keep the same addresses: each has
    its own state, and any sequence of events, with the same answers of the API, leaves
    them with the same addresses. *)
Theorem identities_agree user addresses mode st reg out (events : list (smtp_env * Event)) :
  same_addresses
    (identity (foldl (fun s e => id_step s (IdEvent (env_provider e.1) e.2)) (mkIdService (NewState user addresses) out) events))
    (smtp_identity (foldl (fun s e => smtp_step s (SmtpEvent e.1 e.2)) (mkSmtpService (NewState user addresses) mode st reg) events)).
Proof.
  assert (Hgen : forall s t, same_addresses (identity s) (smtp_identity t) ->
    same_addresses (identity (foldl (fun s e => id_step s (IdEvent (env_provider e.1) e.2)) s events))
      (smtp_identity (foldl (fun s e => smtp_step s (SmtpEvent e.1 e.2)) t events))); [|by apply Hgen].
  induction events as [|[env ev] events IH]; intros s t Hst; simpl; [done|]. apply IH. clear IH.
  unfold OnEvent. simpl. destruct (negb _).
  { unfold HandleRefreshEvent, smtp_HandleRefreshEvent. destruct (OnRefreshEvent_same (env_provider env) _ _ Hst) as [Hs He].
    destruct (OnRefreshEvent _ (identity s)) as [i [e|]], (OnRefreshEvent _ (smtp_identity t)) as [j ej]; exact Hs. }
  assert (Hevs : forall a s j, same_addresses (identity s) j ->
    same_addresses (identity (foldl (fun s event => HandleAddressEvent event s) s a)) (OnAddressEvents a j)).
  { intros a s' j Hs'. change (foldl _ s' a) with (HandleAddressEvents a s').1.
    rewrite HandleAddressEvents_identity. by apply OnAddressEvents_same. }
  unfold then_handle. cbn [smtpHandler identityHandler UserSettingsHandler UserHandler AddressHandler
    LabelHandler MessageHandler UsedSpaceHandler NotificationHandler].
  destruct (ev_User ev) as [u|], (non_empty (ev_Addresses ev)) as [a|], (ev_UsedSpace ev) as [v|];
    unfold HandleUserEvent, HandleAddressEvents; cbn;
    try apply HandleUsedSpaceEvent_same; try apply Hevs; done.
Qed.

End service.

(** ** A session of the SMTP server *)

(** The user agent string the bridge reports (internal/identifier). *)
Class UserAgentUpdater (UA : Type) : Type := {
  GetUserAgent : UA -> string;
  SetUserAgent : string -> string -> UA -> UA
}.

Definition DefaultUserAgent : string := "NoClient/0.0.1".
Definition DefaultVersion : string := "0.0.1".
Definition UnknownClient : string := "UnknownClient".

Section session.
Context `{ACC : SmtpAccounts.SMTPService} `{MR : MapRange} {UA : Type} `{UserAgentUpdater UA}.
Context (of_service : SmtpAccounts.ServiceErr -> goerr).

(** [sess_accounts] and [sess_userAgent] are shared with the other sessions. *)
Record smtpSession : Type := mkSession {
  sess_accounts : gmap string SmtpAccounts.smtpAccountState;
  sess_userAgent : UA;
  sess_userID : string;
  sess_authID : string;
  sess_from : string;
  sess_to : list string
}.

Definition NewSession (accounts : gmap string SmtpAccounts.smtpAccountState) (userAgent : UA) : smtpSession :=
  mkSession accounts userAgent "" "" "" [].

Definition account_error (e : SmtpAccounts.smtpErr) : goerr :=
  match e with
  | SmtpAccounts.ErrSMTPAuthFailed => GSentinel ErrSMTPAuthFailed
  | SmtpAccounts.ErrInvalidRecipient => GSentinel ErrInvalidRecipient
  | SmtpAccounts.ErrNoSuchUser => GSentinel ErrNoSuchUser
  | SmtpAccounts.ErrTooManyErrors => GSentinel ErrTooManyErrors
  | SmtpAccounts.ErrService e => of_service e
  end.

Definition AuthPlain (username password : string) (s : smtpSession) : smtpSession * option goerr :=
  match SmtpAccounts.CheckAuth username password (sess_accounts s) with
  | Err e =>
      (s, Some (GOther (if go_Is (account_error e) (TSentinel ErrNoSuchUser) then "invalid username or password" else "unknown error")))
  | Ok (userID, authID) =>
      let ua := if str_contains (GetUserAgent (sess_userAgent s)) DefaultUserAgent
                then SetUserAgent UnknownClient DefaultVersion (sess_userAgent s) else sess_userAgent s in
      (mkSession (sess_accounts s) ua userID authID (sess_from s) (sess_to s), None)
  end.

Definition session_Reset (s : smtpSession) : smtpSession :=
  mkSession (sess_accounts s) (sess_userAgent s) (sess_userID s) (sess_authID s) "" [].
Definition session_Logout (s : smtpSession) : smtpSession := session_Reset s.

Definition session_Mail (from : string) (s : smtpSession) : smtpSession :=
  mkSession (sess_accounts s) (sess_userAgent s) (sess_userID s) (sess_authID s) from (sess_to s).

Definition session_Rcpt (to : string) (s : smtpSession) : smtpSession :=
  if negb (String.eqb to "")
  then mkSession (sess_accounts s) (sess_userAgent s) (sess_userID s) (sess_authID s) (sess_from s) (sess_to s ++ [to])
  else s.

(** [requestTime] is the clock the accounts read, [sent] the answer of the service for
    the envelope and the body. *)
Definition session_Data (requestTime : Z) (sent : string -> string -> list string -> string -> option SmtpAccounts.ServiceErr)
    (body : string) (s : smtpSession) : smtpSession * option goerr :=
  let '(accounts, e, _) := SmtpAccounts.SendMail (sess_userID s) (sess_to s) requestTime
                             (sent (sess_authID s) (sess_from s) (sess_to s) body) (sess_accounts s) in
  (mkSession accounts (sess_userAgent s) (sess_userID s) (sess_authID s) (sess_from s) (sess_to s),
   (fun e => mapError (account_error e)) <$> e).

(** The commands of a connection. *)
Inductive command : Type :=
| CmdAuth (username password : string)
| CmdReset
| CmdLogout
| CmdMail (from : string)
| CmdRcpt (to : string)
| CmdData (requestTime : Z) (sent : string -> string -> list string -> string -> option SmtpAccounts.ServiceErr) (body : string).

Definition command_step (s : smtpSession) (c : command) : smtpSession :=
  match c with
  | CmdAuth username password => (AuthPlain username password s).1
  | CmdReset => session_Reset s
  | CmdLogout => session_Logout s
  | CmdMail from => session_Mail from s
  | CmdRcpt to => session_Rcpt to s
  | CmdData t sent body => (session_Data t sent body s).1
  end.

(** *** The envelope *)

Lemma foldl_Rcpt to (s : smtpSession) :
  foldl command_step s (CmdRcpt <$> to) =
  mkSession (sess_accounts s) (sess_userAgent s) (sess_userID s) (sess_authID s) (sess_from s)
    (sess_to s ++ Filter to (fun a => negb (String.eqb a ""))).
Proof.
  revert s. induction to as [|a to IH]; intros s; simpl; [rewrite app_nil_r; by destruct s|].
  rewrite IH. unfold session_Rcpt. destruct (String.eqb a ""); simpl; [done|]. by rewrite <- app_assoc.
Qed.

(** A message goes out with its own envelope: after a reset, what earlier commands of the
    connection left behind plays no part, and the account of the login gets the sender
    and the recipients that are not empty, in order. *)
Theorem session_envelope (s : smtpSession) from to t sent body :
  let to' := Filter to (fun a => negb (String.eqb a "")) in
  let r := SmtpAccounts.SendMail (sess_userID s) to' t (sent (sess_authID s) from to' body) (sess_accounts s) in
  session_Data t sent body (foldl command_step s (CmdReset :: CmdMail from :: (CmdRcpt <$> to))) =
  (mkSession r.1.1 (sess_userAgent s) (sess_userID s) (sess_authID s) from to',
   (fun e => mapError (account_error e)) <$> r.1.2).
Proof.
  intros to' r. simpl. rewrite foldl_Rcpt. simpl. fold to'. unfold session_Data. simpl. fold r. by destruct r as [[accounts e] called].
Qed.

(** The login of a session is one the accounts accepted. *)
Definition logged_in (s : smtpSession) : Prop :=
  exists username password accounts, SmtpAccounts.CheckAuth username password accounts = Ok (sess_userID s, sess_authID s).

Definition no_user (accounts : gmap string SmtpAccounts.smtpAccountState) : Prop := accounts !! "" = None.

Lemma SendMail_no_user u to t sent accounts : no_user accounts -> no_user (SmtpAccounts.SendMail u to t sent accounts).1.1.
Proof.
  intros Hn. unfold SmtpAccounts.SendMail. destruct to as [|a to]; [done|]. destruct (accounts !! u) as [acc|] eqn:Hu; [|done].
  assert (u <> "") as Hne by (intros ->; by unfold no_user in Hn; rewrite Hn in Hu).
  destruct (SmtpAccounts.canMakeRequest t acc) as [acc' []]; simpl; unfold no_user; by rewrite lookup_insert_ne.
Qed.

Lemma command_step_login s c :
  no_user (sess_accounts s) -> (sess_userID s = "" /\ sess_authID s = "" \/ logged_in s) ->
  no_user (sess_accounts (command_step s c)) /\
  (sess_userID (command_step s c) = "" /\ sess_authID (command_step s c) = "" \/ logged_in (command_step s c)).
Proof.
  intros Hn Hs. destruct c as [u p| | |f|a|t sent body]; simpl; try done.
  - unfold AuthPlain. destruct (SmtpAccounts.CheckAuth u p (sess_accounts s)) as [[userID authID]|e] eqn:Hc; [|done].
    split; [done|]. right. by exists u, p, (sess_accounts s).
  - unfold session_Rcpt. by destruct (negb _).
  - unfold session_Data. pose proof (SendMail_no_user (sess_userID s) (sess_to s) t (sent (sess_authID s) (sess_from s) (sess_to s) body) _ Hn) as Hn'.
    destruct (SmtpAccounts.SendMail _ _ _ _ _) as [[accounts e] called]. by split.
Qed.

(** Whatever commands a connection sends in whatever order, a message only reaches the
    service of an account when a login was accepted for that account; before, sending
    fails and changes no account. *)
Theorem session_needs_login accounts userAgent cmds t sent body :
  no_user accounts ->
  let s := foldl command_step (NewSession accounts userAgent) cmds in
  logged_in s \/
  exists e, session_Data t sent body s = (s, Some e) /\
    (e = mapError (GSentinel ErrInvalidRecipient) \/ e = mapError (GSentinel ErrNoSuchUser)).
Proof.
  intros Hn s.
  assert (Hs : no_user (sess_accounts s) /\ (sess_userID s = "" /\ sess_authID s = "" \/ logged_in s)).
  { subst s. assert (H0 : no_user (sess_accounts (NewSession accounts userAgent)) /\
      (sess_userID (NewSession accounts userAgent) = "" /\ sess_authID (NewSession accounts userAgent) = "" \/ logged_in (NewSession accounts userAgent)))
      by (split; [done|by left]).
    revert H0. generalize (NewSession accounts userAgent). induction cmds as [|c cmds IH]; intros s0 [Hn0 H0]; simpl; [done|].
    by apply IH, command_step_login. }
  destruct Hs as [Hn' [[Hu Ha]|Hl]]; [right|by left]. unfold session_Data, SmtpAccounts.SendMail.
  destruct (sess_to s) as [|a to] eqn:Hto.
  - eexists. split; [by rewrite <- Hto; destruct s|]. by left.
  - rewrite Hu. unfold no_user in Hn'. rewrite Hn'. eexists. split; [|by right]. by rewrite <- Hto, <- Hu; destruct s.
Qed.

(** A login that is refused is never said to have the wrong password: the accounts only
    answer with [ErrSMTPAuthFailed], and the session asks for [ErrNoSuchUser]. *)
Theorem AuthPlain_unknown username password (s s' : smtpSession) e :
  AuthPlain username password s = (s', Some e) -> e = GOther "unknown error" /\ s' = s.
Proof.
  unfold AuthPlain, SmtpAccounts.CheckAuth.
  destruct (find_first _ _) as [[id account]|]; [destruct (SmtpAccounts.checkAuth _ _ _) as [addrID|]|]; simpl; by intros [= <- <-].
Qed.

End session.

(** ** A connection *)

#[local] Instance ex_agent : UserAgentUpdater string := {
  GetUserAgent := fun s => s;
  SetUserAgent := fun name version _ => name +:+ "/" +:+ version
}.

(** A service that accepts one password. *)
#[local] Instance ex_account : SmtpAccounts.SMTPService := {|
  SmtpAccounts.Service := string;
  SmtpAccounts.UserID := fun s => s;
  SmtpAccounts.checkAuth := fun s user password => if String.eqb password "secret" then Some user else None;
  SmtpAccounts.ServiceErr := goerr
|}.
#[local] Existing Instance canonical_range.

Definition ex_of_service : @SmtpAccounts.ServiceErr ex_account -> goerr := fun e => e.

Definition ex_accounts : gmap string SmtpAccounts.smtpAccountState :=
  @SmtpAccounts.AddAccount ex_account "u" SmtpAccounts.NewAccounts.

Definition ex_session : smtpSession :=
  NewSession ex_accounts DefaultUserAgent.

Example ex_login :
  (AuthPlain ex_of_service "me@pm.me" "secret" ex_session).1 =
  mkSession ex_accounts "UnknownClient/0.0.1" "u" "me@pm.me" "" [].
Proof. vm_compute. reflexivity. Qed.

Lemma session_needs_login_witness :
  let s := foldl (command_step ex_of_service) ex_session [CmdAuth "me@pm.me" "wrong"; CmdMail "me@pm.me"; CmdRcpt "ann@pm.me"] in
  logged_in s \/
  exists e, session_Data ex_of_service 100 (fun _ _ _ _ => None) "body" s = (s, Some e) /\
    (e = mapError (GSentinel ErrInvalidRecipient) \/ e = mapError (GSentinel ErrNoSuchUser)).
Proof.
  apply (session_needs_login ex_of_service ex_accounts DefaultUserAgent). vm_compute. reflexivity.
Defined.
