(* ===== verification/ImapUpdates.v ===== *)
(** * Mailboxes and updates of the IMAP service (internal/services/imapservice:
      imap_updates.go, helpers.go, parts of connector.go)

    Which labels become mailboxes, how a mailbox is named and which updates the
    service sends to the IMAP server. *)

From S2P Require Import Prelude.
From S2P Require Import Api.

(** ** Flags and attributes *)

Inductive flag : Type := FlagSeen | FlagFlagged | FlagDeleted | FlagDraft | FlagAnswered | ForwardFlagList.
Inductive attribute : Type :=
| AttrNoInferiors | AttrNoSelect | AttrTrash | AttrJunk | AttrAll | AttrArchive | AttrSent | AttrDrafts | AttrFlagged.

#[global] Instance flag_eq_dec : EqDecision flag.
Proof. solve_decision. Defined.
#[global] Instance attribute_eq_dec : EqDecision attribute.
Proof. solve_decision. Defined.

Definition defaultMailboxFlags : list flag := [FlagSeen; FlagFlagged; FlagDeleted; ForwardFlagList].
Definition defaultMailboxPermanentFlags : list flag := defaultMailboxFlags.

(** [imap.Mailbox]. *)
Record Mailbox : Type := mkMailbox {
  mb_ID : string;
  mb_Name : list string;
  mb_Flags : list flag;
  mb_PermanentFlags : list flag;
  mb_Attributes : list attribute
}.

#[global] Instance Mailbox_eq_dec : EqDecision Mailbox.
Proof. solve_decision. Defined.

(** The updates about mailboxes. *)
Inductive update : Type :=
| MailboxCreated (m : Mailbox)
| MailboxUpdated (id : string) (name : list string)
| MailboxUpdatedOrCreated (m : Mailbox)
| MailboxDeleted (id : string)
| MailboxDeletedSilent (id : string).

#[global] Instance update_eq_dec : EqDecision update.
Proof. solve_decision. Defined.

Definition folderPrefix : string := "Folders".
Definition labelPrefix : string := "Labels".
Definition Inbox : string := "INBOX".

(** ** Constructors of updates *)

Definition newSystemMailboxCreatedUpdate (labelID labelName : string) : update :=
  let labelName := if EqualFold labelName Inbox then Inbox else labelName in
  let seen := [FlagSeen; FlagFlagged] in
  let make name attrs flags permanentFlags :=
    MailboxCreated (mkMailbox labelID [name] flags permanentFlags (AttrNoInferiors :: attrs)) in
  let usual name attrs := make name attrs defaultMailboxFlags defaultMailboxPermanentFlags in
  if String.eqb labelID TrashLabel then usual labelName [AttrTrash]
  else if String.eqb labelID SpamLabel then usual labelName [AttrJunk]
  else if String.eqb labelID AllMailLabel then make labelName [AttrAll] seen seen
  else if String.eqb labelID ArchiveLabel then usual labelName [AttrArchive]
  else if String.eqb labelID SentLabel then usual labelName [AttrSent]
  else if String.eqb labelID DraftsLabel then usual labelName [AttrDrafts]
  else if String.eqb labelID StarredLabel then usual labelName [AttrFlagged]
  else if String.eqb labelID AllScheduledLabel then usual "Scheduled" []
  else usual labelName [].

Definition newPlaceHolderMailboxCreatedUpdate (labelName : string) : update :=
  MailboxCreated (mkMailbox labelName [labelName] defaultMailboxFlags defaultMailboxPermanentFlags [AttrNoSelect]).

Definition newMailboxCreatedUpdate (labelID : string) (labelName : list string) : update :=
  MailboxCreated (mkMailbox labelID labelName defaultMailboxFlags defaultMailboxPermanentFlags []).

Definition newMailboxUpdatedOrCreated (labelID : string) (labelName : list string) : update :=
  MailboxUpdatedOrCreated (mkMailbox labelID labelName defaultMailboxFlags defaultMailboxPermanentFlags []).

(** ** Names *)

Definition GetMailboxName (label : Label) : list string :=
  match label_Type label with
  | LabelTypeFolder => folderPrefix :: label_Path label
  | LabelTypeLabel => labelPrefix :: label_Path label
  | LabelTypeSystem => [label_Name label]
  | LabelTypeContactGroup | LabelTypeOther _ => label_Path label
  end.

(** [None] is the panic of indexing an empty slice. *)
Fixpoint nameWithTempPrefix (path : list string) : option (list string) :=
  match path with
  | [] => None
  | [name] => Some [("tmp_" +:+ name)%string]
  | name :: rest => rest' ← nameWithTempPrefix rest; Some (name :: rest')
  end.

Definition getMailboxNameWithTempPrefix (label : Label) : option (list string) :=
  nameWithTempPrefix (GetMailboxName label).

Definition toIMAPMailbox (label : Label) (flags permFlags : list flag) (attrs : list attribute) : Mailbox :=
  let path := match label_Type label with
              | LabelTypeLabel => labelPrefix :: label_Path label
              | LabelTypeFolder => folderPrefix :: label_Path label
              | _ => label_Path label
              end in
  mkMailbox (label_ID label) path flags permFlags attrs.

Definition isAllMailOrScheduled (mailboxID : string) : bool :=
  String.eqb mailboxID AllMailLabel || String.eqb mailboxID AllScheduledLabel.

(** ** Wanted labels *)

Definition WantLabel (label : Label) : bool :=
  match label_Type label with
  | LabelTypeSystem =>
      existsb (String.eqb (label_ID label))
        [InboxLabel; TrashLabel; SpamLabel; AllMailLabel; ArchiveLabel; SentLabel; DraftsLabel;
         StarredLabel; AllScheduledLabel]
  | LabelTypeContactGroup => false
  | _ => true
  end.

Definition wantLabels (apiLabels : gmap string Label) (labelIDs : list string) : list string :=
  Filter labelIDs (fun labelID =>
    match apiLabels !! labelID with
    | None => false
    | Some apiLabel => WantLabel apiLabel
    end).

(** ** Flags of messages *)

Definition BuildFlagSetFromMessageMetadata (message : MessageMetadata) : list flag :=
  (if meta_Seen message then [FlagSeen] else []) ++
  (if meta_Starred message then [FlagFlagged] else []) ++
  (if meta_IsDraft message then [FlagDraft] else []) ++
  (if meta_IsRepliedAll message || meta_IsReplied message then [FlagAnswered] else []) ++
  (if meta_IsForwarded message then [ForwardFlagList] else []).

(** ** Lemmas *)

Lemma nameWithTempPrefix_Some path : path <> [] -> is_Some (nameWithTempPrefix path).
Proof.
  induction path as [|x [|y rest] IH]; [done|by eexists|]. intros _.
  destruct IH as [rest' Hr]; [done|]. cbn [nameWithTempPrefix] in *. rewrite Hr. by eexists.
Qed.

(** The temporary name of a path is another path, of the same length. *)
Lemma nameWithTempPrefix_spec path path' :
  nameWithTempPrefix path = Some path' ->
  exists pre name, path = pre ++ [name] /\ path' = pre ++ [("tmp_" +:+ name)%string].
Proof.
  revert path'. induction path as [|x [|y rest] IH]; intros path'; [done|..].
  - intros [= <-]. by exists [], x.
  - intros (rest' & Hr & [= <-])%bind_Some. destruct (IH rest' Hr) as (pre & name & -> & ->).
    by exists (x :: pre), name.
Qed.

Lemma elem_of_wantLabels apiLabels ids id :
  id ∈ wantLabels apiLabels ids <->
  id ∈ ids /\ exists l, apiLabels !! id = Some l /\ WantLabel l = true.
Proof.
  unfold wantLabels. rewrite elem_of_Filter. destruct (apiLabels !! id) as [l|] eqn:Hl; naive_solver.
Qed.
