(* ===== verification/LabelConflicts.v ===== *)
(** * Label conflicts (internal/services/imapservice/conflicts.go, labelchecker.go)

    The API identifies labels by ID, the IMAP server keeps mailboxes with unique
    names.  When the mailbox name of a label is taken by another label, the resolver
    follows the chain of labels whose mailboxes are in the way and produces the
    updates that move them, deepest first, breaking a cycle with a temporary name.
    The tables of the IMAP server and the labels of the API are parameters; the
    server is used through the interface [Mailboxes]. *)

From S2P Require Import Prelude.
From S2P Require Import Api.
From S2P Require Import ImapUpdates.

Inductive lc_err : Type :=
| ErrNotFound
| ErrNoSuchLabel
| ErrNoConnectors
| ErrUnexpectedConflict (labelID conflictingID : string)
| ErrInternalConflict
| ErrAPIStatus (status : Z)
| ErrService (msg : string).

(** [imap.MailboxData]. *)
Record MailboxData : Type := mkMailboxData { md_RemoteID : string; md_BridgeName : list string }.

Definition mailboxFetcherFn : Type := Label -> result lc_err MailboxData.
Definition labelFetcherFn : Type := string -> result lc_err Label.

(** A generator of updates; [None] when generating them panics. *)
Definition updateFn : Type := unit -> option (list update).

(** [generateMailboxFetcher]: [connectors] are the addresses of the connectors. *)
Fixpoint generateMailboxFetcher (GetGluonID : string -> option string)
    (GetUserMailboxByName : string -> list string -> result lc_err MailboxData)
    (connectors : list string) : mailboxFetcherFn :=
  fun label =>
  match connectors with
  | [] => Err ErrNoConnectors
  | addrID :: rest =>
      match GetGluonID addrID with
      | None => generateMailboxFetcher GetGluonID GetUserMailboxByName rest label
      | Some gluonID => GetUserMailboxByName gluonID (GetMailboxName label)
      end
  end.

Fixpoint combine_fns (fns : list updateFn) : option (list update) :=
  match fns with
  | [] => Some []
  | fn :: rest => us ← fn (); us' ← combine_fns rest; Some (us ++ us')
  end.
Definition combineIMAPUpdateFns (updateFunctions : list updateFn) : updateFn :=
  fun _ => combine_fns updateFunctions.

(** [strings.Join(name, "")]. *)
Fixpoint join_empty (name : list string) : string :=
  match name with [] => "" | s :: rest => (s +:+ join_empty rest)%string end.

Definition compareLabelNames (labelName1 labelName2 : list string) : bool :=
  String.eqb (join_empty labelName1) (join_empty labelName2).

(** ** The resolver *)

Section resolver.
Context (mailboxFetch : mailboxFetcherFn) (GetLabel : labelFetcherFn).

Definition rename_fn (label : Label) : updateFn :=
  fun _ => Some [newMailboxUpdatedOrCreated (label_ID label) (GetMailboxName label)].
Definition temp_fn (label : Label) : updateFn :=
  fun _ => name ← getMailboxNameWithTempPrefix label; Some [newMailboxUpdatedOrCreated (label_ID label) name].
Definition delete_fn (remoteID : string) (label : Label) : updateFn :=
  fun _ => Some [MailboxDeleted remoteID; newMailboxUpdatedOrCreated (label_ID label) (GetMailboxName label)].

(** [visited] is the map shared by the recursive calls.  The fuel bounds the depth
    of the recursion; [None] when it runs out. *)
Fixpoint ResolveConflict (fuel : nat) (label : Label) (visited : gset string)
    : option (result lc_err updateFn) :=
  match fuel with
  | O => None
  | S fuel =>
      if bool_decide (label_ID label ∈ visited) then Some (Ok (combineIMAPUpdateFns [temp_fn label]))
      else
        let visited := {[label_ID label]} ∪ visited in
        match mailboxFetch label with
        | Err ErrNotFound => Some (Ok (combineIMAPUpdateFns [rename_fn label]))
        | Err e => Some (Err e)
        | Ok mailboxData =>
            if String.eqb (md_RemoteID mailboxData) (label_ID label) then Some (Ok (combineIMAPUpdateFns []))
            else
              match GetLabel (md_RemoteID mailboxData) with
              | Err ErrNoSuchLabel =>
                  Some (Ok (combineIMAPUpdateFns [delete_fn (md_RemoteID mailboxData) label]))
              | Err e => Some (Err e)
              | Ok conflictingLabel =>
                  if compareLabelNames (GetMailboxName conflictingLabel) (md_BridgeName mailboxData) then
                    Some (Err (ErrUnexpectedConflict (label_ID label) (label_ID conflictingLabel)))
                  else
                    r ← ResolveConflict fuel conflictingLabel visited;
                    match r with
                    | Err e => Some (Err e)
                    | Ok childUpdateFns => Some (Ok (combineIMAPUpdateFns [childUpdateFns; rename_fn label]))
                    end
              end
        end
  end.

(** [internalLabelConflictResolverImpl.ResolveConflict]. *)
Definition internalLabel (prefix : string) : Label := mkLabel prefix "" prefix [prefix] (LabelTypeOther 0).

Fixpoint internal_loop (apiLabels : gmap string Label) (prefixes : list string) (updateFns : list updateFn)
    : result lc_err updateFn :=
  match prefixes with
  | [] => Ok (combineIMAPUpdateFns updateFns)
  | prefix :: rest =>
      match mailboxFetch (internalLabel prefix) with
      | Err ErrNotFound => internal_loop apiLabels rest updateFns
      | Err e => Err e
      | Ok mbox =>
          if String.eqb (md_RemoteID mbox) (label_ID (internalLabel prefix)) then internal_loop apiLabels rest updateFns
          else
            match apiLabels !! md_RemoteID mbox with
            | Some _ => Err ErrInternalConflict
            | None => internal_loop apiLabels rest
                        (updateFns ++ [fun _ => Some [MailboxDeletedSilent (md_RemoteID mbox)]])
            end
      end
  end.

Definition internal_ResolveConflict (apiLabels : gmap string Label) : result lc_err updateFn :=
  internal_loop apiLabels [folderPrefix; labelPrefix] [].

End resolver.

(** ** The checker (labelchecker.go) *)

Inductive labelDiscrepancyType : Type := discrepancyInternal | discrepancySystem | discrepancyUser.

(** The identifying part of [labelDiscrepancy]; its other fields are hashes for the
    report. *)
Record labelDiscrepancy : Type := mkDiscrepancy {
  ld_labelID : string;
  ld_conflictingLabelID : string;
  ld_Type : labelDiscrepancyType
}.

Section checker.
Context `{MR : MapRange} (mboxFetch : mailboxFetcherFn).

Definition discrepancy_of (label : Label) (dType : labelDiscrepancyType)
    : result lc_err (list labelDiscrepancy) :=
  match mboxFetch label with
  | Err ErrNotFound => Ok []
  | Err e => Err e
  | Ok mbox =>
      Ok (if String.eqb (md_RemoteID mbox) (label_ID label) then []
          else [mkDiscrepancy (label_ID label) (md_RemoteID mbox) dType])
  end.

Fixpoint check_all (labels : list (Label * labelDiscrepancyType)) (discrepancies : list labelDiscrepancy)
    : result lc_err (list labelDiscrepancy) :=
  match labels with
  | [] => Ok discrepancies
  | (label, dType) :: rest =>
      match discrepancy_of label dType with
      | Err e => Err e
      | Ok ds => check_all rest (discrepancies ++ ds)
      end
  end.

Definition user_dType (label : Label) : labelDiscrepancyType :=
  match label_Type label with
  | LabelTypeFolder | LabelTypeLabel => discrepancyUser
  | _ => discrepancySystem
  end.

Definition checkConflicts (labels : gmap string Label) : result lc_err (list labelDiscrepancy) :=
  check_all (((fun p => (internalLabel p, discrepancyInternal)) <$> [folderPrefix; labelPrefix]) ++
             ((fun l => (l, user_dType l)) <$> Filter (Values labels) WantLabel)) [].

End checker.

(** ** The mailboxes of the IMAP server *)

(** What the resolver relies on: a name belongs to at most one mailbox, renaming a
    mailbox to a name that is free or its own succeeds and gives it that name and no
    other, and deleting a mailbox removes it and nothing else. *)
Class Mailboxes : Type := {
  table : Type;
  holder : table -> list string -> option string;
  apply_update : update -> table -> option table;
  apply_rename : forall t m, holder t (mb_Name m) = None \/ holder t (mb_Name m) = Some (mb_ID m) ->
    exists t', apply_update (MailboxUpdatedOrCreated m) t = Some t' /\
      forall n, holder t' n = if decide (n = mb_Name m) then Some (mb_ID m)
                              else if decide (holder t n = Some (mb_ID m)) then None else holder t n;
  apply_delete : forall t id, exists t', apply_update (MailboxDeleted id) t = Some t' /\
      forall n, holder t' n = if decide (holder t n = Some id) then None else holder t n
}.

Fixpoint apply_updates `{Mailboxes} (us : list update) (t : table) : option table :=
  match us with
  | [] => Some t
  | u :: us' => t' ← apply_update u t; apply_updates us' t'
  end.

Lemma apply_updates_app `{Mailboxes} us us' t t' :
  apply_updates us t = Some t' -> apply_updates (us ++ us') t = apply_updates us' t'.
Proof.
  revert t. induction us as [|u us IH]; intros t; simpl; [by intros [= ->]|].
  intros (t1 & H1 & Hr)%bind_Some. rewrite H1. simpl. by apply IH.
Qed.

Lemma compareLabelNames_false n n' : compareLabelNames n n' = false -> n <> n'.
Proof. unfold compareLabelNames. intros H ->. by rewrite String.eqb_refl in H. Qed.

Section correctness.
Context `{M : Mailboxes}.
Context (mailboxFetch : mailboxFetcherFn) (GetLabel : labelFetcherFn) (t : table).

(** The fetcher looks names up in [t]; it may fail. *)
Definition fetch_ok : Prop := forall l,
  match mailboxFetch l with
  | Ok d => holder t (GetMailboxName l) = Some (md_RemoteID d) /\ md_BridgeName d = GetMailboxName l
  | Err ErrNotFound => holder t (GetMailboxName l) = None
  | Err _ => True
  end.

(** A mailbox has one name. *)
Definition one_name : Prop := forall n n' id, holder t n = Some id -> holder t n' = Some id -> n = n'.

(** The API returns the label it is asked for, and its labels have distinct,
    non-empty mailbox names; no mailbox has a temporary name. *)
Definition remote_ok : Prop :=
  (forall id l, GetLabel id = Ok l -> label_ID l = id /\ GetMailboxName l <> []) /\
  (forall id id' l l', GetLabel id = Ok l -> GetLabel id' = Ok l' -> GetMailboxName l = GetMailboxName l' -> id = id') /\
  (forall id l tmp, GetLabel id = Ok l -> getMailboxNameWithTempPrefix l = Some tmp ->
     holder t tmp = None /\ forall id' l', GetLabel id' = Ok l' -> GetMailboxName l' <> tmp).

Context (Hfetch : fetch_ok) (Hone : one_name) (Hremote : remote_ok).

(** [t1] comes from [t] by moves of the resolver below the labels [V]: a mailbox
    keeps its name, or has the name the API gives it, or, for a label of [V], its
    temporary name; and no mailbox of a label the API knows was lost. *)
Definition moved (V : gset string) (t1 : table) : Prop :=
  (forall n id, holder t1 n = Some id ->
     holder t n = Some id \/
     (id ∉ V /\ exists l, GetLabel id = Ok l /\ n = GetMailboxName l) \/
     (id ∈ V /\ exists l, GetLabel id = Ok l /\ getMailboxNameWithTempPrefix l = Some n)) /\
  (forall n id, holder t n = Some id -> GetLabel id <> Err ErrNoSuchLabel -> exists n', holder t1 n' = Some id).

(** The label has been moved to its own name, or, in a cycle, out of the way of the
    labels of [V]. *)
Definition resolved (V : gset string) (label : Label) (t1 : table) : Prop :=
  moved V t1 /\
  (label_ID label ∉ V -> forall n, holder t1 n = Some (label_ID label) <-> n = GetMailboxName label) /\
  (forall idp lp, idp ∈ V -> GetLabel idp = Ok lp -> GetMailboxName lp <> GetMailboxName label ->
     holder t (GetMailboxName lp) = Some (label_ID label) -> holder t1 (GetMailboxName lp) = None).

Lemma moved_refl V : moved V t.
Proof. split; [auto|eauto]. Qed.

(** Renaming a label to its free name after the moves below it. *)
Lemma rename_resolved V label t1 :
  label_ID label ∉ V -> GetLabel (label_ID label) = Ok label ->
  moved ({[label_ID label]} ∪ V) t1 -> holder t1 (GetMailboxName label) = None ->
  exists t2, apply_update (newMailboxUpdatedOrCreated (label_ID label) (GetMailboxName label)) t1 = Some t2 /\
    resolved V label t2.
Proof.
  intros HV Hl [Hc He] Hfree. destruct Hremote as (_ & Hinj & Htmp).
  destruct (apply_rename t1 (mkMailbox (label_ID label) (GetMailboxName label) defaultMailboxFlags
    defaultMailboxPermanentFlags [])) as (t2 & Ht2 & Hh); [by left|]. simpl in Hh.
  exists t2. split; [done|]. split; [split|split].
  - intros n id Hn. rewrite Hh in Hn. destruct (decide (n = _)) as [->|Hne].
    + injection Hn as <-. right; left. eauto.
    + destruct (decide (holder t1 n = Some (label_ID label))) as [|Hnid]; [done|].
      destruct (Hc _ _ Hn) as [?|[[? ?]|[Hin ?]]]; [by left|right; left; set_solver|].
      right; right. split; [|done]. assert (id <> label_ID label) by congruence. set_solver.
  - intros n id Hn Hns. destruct (He n id Hn Hns) as [n' Hn'].
    destruct (decide (id = label_ID label)) as [->|Hid].
    + exists (GetMailboxName label). rewrite Hh. by rewrite decide_True.
    + exists n'. rewrite Hh. rewrite decide_False by congruence. by rewrite decide_False by congruence.
  - intros _ n. rewrite Hh. destruct (decide (n = _)) as [->|Hne]; [done|].
    destruct (decide (holder t1 n = _)); [done|]. split; [done|by intros ->].
  - intros idp lp Hp Hlp Hne Hold. rewrite Hh. rewrite decide_False by done.
    destruct (decide (holder t1 _ = _)) as [|Hnid]; [done|].
    destruct (holder t1 (GetMailboxName lp)) as [id|] eqn:Hid; [|done]. exfalso.
    destruct (Hc _ _ Hid) as [Ht|[(Hin & l & Hgl & Hn)|(_ & l & Hgl & Hn)]]; [congruence| |].
    + assert (idp = id) by (by eapply Hinj). set_solver.
    + by destruct (Htmp _ _ _ Hgl Hn) as [_ []%(fun H => H idp lp Hlp)].
Qed.

(** A label that is already being moved gets a temporary name. *)
Lemma temp_resolved V label :
  label_ID label ∈ V -> GetLabel (label_ID label) = Ok label ->
  exists us t1, temp_fn label () = Some us /\ apply_updates us t = Some t1 /\ resolved V label t1.
Proof.
  intros HV Hl. destruct Hremote as (Hid & _ & Htmp).
  destruct (nameWithTempPrefix_Some (GetMailboxName label)) as [tmp Ht]; [by apply (Hid _ _ Hl)|].
  destruct (Htmp _ _ _ Hl Ht) as [Hfree Hne].
  destruct (apply_rename t (mkMailbox (label_ID label) tmp defaultMailboxFlags
    defaultMailboxPermanentFlags [])) as (t1 & Ht1 & Hh); [by left|]. simpl in Hh.
  unfold temp_fn, getMailboxNameWithTempPrefix. rewrite Ht. eexists _, t1. split; [done|].
  split; [simpl; unfold newMailboxUpdatedOrCreated; by rewrite Ht1|]. split; [split|split].
  - intros n id Hn. rewrite Hh in Hn. destruct (decide (n = _)) as [->|]; [injection Hn as <-; right; right; eauto|].
    destruct (decide _); [done|by left].
  - intros n id Hn _. destruct (decide (id = label_ID label)) as [->|?].
    + exists tmp. rewrite Hh. by rewrite decide_True.
    + exists n. rewrite Hh. rewrite decide_False by congruence. by rewrite decide_False by congruence.
  - done.
  - intros idp lp _ Hlp _ Hold. rewrite Hh. rewrite decide_False by (by apply (Hne idp)). by rewrite decide_True.
Qed.

Lemma delete_moved V id t1 :
  GetLabel id = Err ErrNoSuchLabel ->
  (forall n, holder t1 n = if decide (holder t n = Some id) then None else holder t n) -> moved V t1.
Proof.
  intros Hg Hh. split.
  - intros n id' Hn. rewrite Hh in Hn. destruct (decide _); [done|by left].
  - intros n id' Hn Hns. exists n. rewrite Hh. rewrite decide_False; [done|]. intros Hn'. congruence.
Qed.

Lemma ResolveConflict_sound fuel label V fn :
  GetLabel (label_ID label) = Ok label ->
  ResolveConflict mailboxFetch GetLabel fuel label V = Some (Ok fn) ->
  exists us t1, fn () = Some us /\ apply_updates us t = Some t1 /\ resolved V label t1.
Proof.
  revert label V fn. induction fuel as [|fuel IH]; intros label V fn Hl; [done|]. cbn [ResolveConflict].
  case_bool_decide as HV.
  { intros [= <-]. destruct (temp_resolved V label HV Hl) as (us & t1 & Hus & Ha & Hr).
    exists us, t1. unfold combineIMAPUpdateFns. cbn [combine_fns]. rewrite Hus. simpl. by rewrite app_nil_r. }
  assert (Hf := Hfetch label). destruct (mailboxFetch label) as [d|[]]; try done.
  - destruct Hf as [Hhold Hname]. destruct (String.eqb_spec (md_RemoteID d) (label_ID label)) as [Hid|Hid].
    + intros [= <-]. rewrite Hid in Hhold. exists [], t. split; [done|]. split; [done|].
      split; [apply moved_refl|]. split.
      * intros _ n. split; [intros Hn; by eapply Hone|by intros ->].
      * intros idp lp _ _ Hne Hold. by destruct Hne; eapply Hone.
    + destruct (GetLabel (md_RemoteID d)) as [l1|[]] eqn:Hg; try done.
      * destruct (compareLabelNames _ _) eqn:Hcmp; [done|]. rewrite Hname in Hcmp.
        apply compareLabelNames_false in Hcmp. assert (Hl1 := proj1 (proj1 Hremote _ _ Hg)).
        intros (r & Hrec & Hr)%bind_Some. destruct r as [child|]; [|done]. injection Hr as <-.
        destruct (IH l1 _ child ltac:(by rewrite Hl1) Hrec) as (us & t1 & Hus & Ha & Hm & _ & Hb).
        destruct (rename_resolved V label t1 HV Hl Hm) as (t2 & Ht2 & Hres).
        { apply (Hb (label_ID label) label); [set_solver|done|by apply not_eq_sym|by rewrite Hl1]. }
        eexists _, t2. unfold combineIMAPUpdateFns. cbn [combine_fns]. rewrite Hus. split; [done|].
        split; [|done]. rewrite (apply_updates_app _ _ _ _ Ha). simpl. by rewrite Ht2.
      * intros [= <-]. destruct (apply_delete t (md_RemoteID d)) as (t1 & Ht1 & Hh).
        destruct (rename_resolved V label t1 HV Hl (delete_moved _ _ _ Hg Hh)) as (t2 & Ht2 & Hres).
        { rewrite Hh. by rewrite decide_True. }
        eexists _, t2. split; [done|]. split; [|done]. simpl. rewrite Ht1. simpl. by rewrite Ht2.
  - intros [= <-]. destruct (rename_resolved V label t HV Hl (moved_refl _) Hf) as (t2 & Ht2 & Hres).
    eexists _, t2. split; [done|]. split; [|done]. simpl. by rewrite Ht2.
Qed.

(** C4: The updates of the conflict resolver work.  Let the fetcher look mailboxes up
    in the table of the IMAP server, where a mailbox has one name, and let the API
    know the label under its ID, with distinct names for distinct labels and no
    mailbox under a temporary name.  Then, whatever chain or cycle of labels is in
    the way, the updates the resolver returns can be generated and applied one
    after the other without ever giving a mailbox a name that is taken; afterwards
    the label's mailbox has exactly its own name, every other mailbox has kept its
    name or has the one the API gives it (no temporary name is left), and no mailbox
    of a label the API still has is lost. *)
Theorem ResolveConflict_resolves fuel label fn :
  GetLabel (label_ID label) = Ok label ->
  ResolveConflict mailboxFetch GetLabel fuel label ∅ = Some (Ok fn) ->
  exists us t1, fn () = Some us /\ apply_updates us t = Some t1 /\
    (forall n, holder t1 n = Some (label_ID label) <-> n = GetMailboxName label) /\
    (forall n id, holder t1 n = Some id ->
       holder t n = Some id \/ exists l, GetLabel id = Ok l /\ n = GetMailboxName l) /\
    (forall n id, holder t n = Some id -> GetLabel id <> Err ErrNoSuchLabel -> exists n', holder t1 n' = Some id).
Proof.
  intros Hl Hr. destruct (ResolveConflict_sound fuel label ∅ fn Hl Hr) as (us & t1 & Hus & Ha & [Hm He] & Hn & _).
  exists us, t1. split; [done|]. split; [done|]. split; [apply Hn; set_solver|]. split; [|exact He].
  intros n id Hid. destruct (Hm n id Hid) as [?|[[_ ?]|[? _]]]; [by left|by right|set_solver].
Qed.

End correctness.

(** ** Termination *)

Section termination.
Context (mailboxFetch : mailboxFetcherFn) (GetLabel : labelFetcherFn).
Context (ids : gset string).
Context (fetch_ids : forall l d, mailboxFetch l = Ok d -> md_RemoteID d ∈ ids).
Context (label_ids : forall id l, GetLabel id = Ok l -> label_ID l = id).

Lemma ResolveConflict_returns fuel label V :
  label_ID label ∈ ids -> (size (ids ∖ V) < fuel)%nat ->
  is_Some (ResolveConflict mailboxFetch GetLabel fuel label V).
Proof.
  revert label V. induction fuel as [|fuel IH]; intros label V Hin Hf; [lia|]. cbn [ResolveConflict].
  case_bool_decide as HV; [by eexists|].
  destruct (mailboxFetch label) as [d|[]] eqn:Hfetch; [|by eexists..].
  destruct (String.eqb _ _); [by eexists|]. destruct (GetLabel (md_RemoteID d)) as [l1|[]] eqn:Hg; [|by eexists..].
  destruct (compareLabelNames _ _); [by eexists|].
  destruct (IH l1 ({[label_ID label]} ∪ V)) as [r Hr].
  - rewrite (label_ids _ _ Hg). by eapply fetch_ids.
  - assert (size (ids ∖ ({[label_ID label]} ∪ V)) < size (ids ∖ V))%nat; [|lia].
    apply subset_size. set_solver.
  - rewrite Hr. simpl. destruct r; by eexists.
Qed.

(** The resolver terminates.  When the mailboxes of the server carry the finitely
    many IDs [ids] and the API returns the label it is asked for, the recursion ends
    for every label, whatever names the labels have and whatever calls fail, after
    at most two more levels than there are mailboxes: a label met a second time is
    not followed again. *)
Theorem ResolveConflict_terminates label fuel :
  (size ids + 2 <= fuel)%nat -> is_Some (ResolveConflict mailboxFetch GetLabel fuel label ∅).
Proof.
  intros Hf. destruct fuel as [|fuel]; [lia|]. cbn [ResolveConflict]. rewrite bool_decide_eq_false_2 by set_solver.
  destruct (mailboxFetch label) as [d|[]] eqn:Hfetch; [|by eexists..].
  destruct (String.eqb _ _); [by eexists|]. destruct (GetLabel (md_RemoteID d)) as [l1|[]] eqn:Hg; [|by eexists..].
  destruct (compareLabelNames _ _); [by eexists|].
  destruct (ResolveConflict_returns fuel l1 ({[label_ID label]} ∪ ∅)) as [r Hr].
  - rewrite (label_ids _ _ Hg). by eapply fetch_ids.
  - assert (size (ids ∖ ({[label_ID label]} ∪ ∅)) <= size ids)%nat by (apply subseteq_size; set_solver). lia.
  - rewrite Hr. simpl. destruct r; by eexists.
Qed.

End termination.

(** ** A concrete server *)

(** Mailbox names with the ID of their mailbox. *)
Notation name_table := (gmap (list string) string).

Definition without (id : string) (t : name_table) : name_table := filter (fun p => p.2 <> id) t.

Definition put (id : string) (name : list string) (t : name_table) : option name_table :=
  match t !! name with
  | Some id' => if String.eqb id' id then Some (<[name := id]> (without id t)) else None
  | None => Some (<[name := id]> (without id t))
  end.

Definition name_table_apply (u : update) (t : name_table) : option name_table :=
  match u with
  | MailboxCreated m => match t !! mb_Name m with Some _ => Some t | None => put (mb_ID m) (mb_Name m) t end
  | MailboxUpdated id name => put id name t
  | MailboxUpdatedOrCreated m => put (mb_ID m) (mb_Name m) t
  | MailboxDeleted id | MailboxDeletedSilent id => Some (without id t)
  end.

Lemma lookup_without id t n : without id t !! n = if decide (t !! n = Some id) then None else t !! n.
Proof.
  unfold without. destruct (decide _) as [Hn|Hn].
  - apply map_lookup_filter_None. right. intros x Hx Hne. apply Hne. simpl. congruence.
  - destruct (t !! n) as [x|] eqn:Hx.
    + apply map_lookup_filter_Some. split; [done|]. simpl. congruence.
    + apply map_lookup_filter_None. by left.
Qed.

#[refine] Definition name_mailboxes : Mailboxes :=
  {| table := name_table; holder := fun t n => t !! n; apply_update := name_table_apply |}.
Proof.
  - intros t m Hm. exists (<[mb_Name m := mb_ID m]> (without (mb_ID m) t)). split.
    + simpl. unfold put. destruct Hm as [->| ->]; [done|]. by rewrite String.eqb_refl.
    + intros n. destruct (decide (n = mb_Name m)) as [->|Hn]; [apply lookup_insert_eq|].
      rewrite lookup_insert_ne by done. apply lookup_without.
  - intros t id. exists (without id t). split; [done|]. apply lookup_without.
Defined.

Definition name_fetch (t : name_table) : mailboxFetcherFn := fun l =>
  match t !! GetMailboxName l with
  | Some id => Ok (mkMailboxData id (GetMailboxName l))
  | None => Err ErrNotFound
  end.

Definition ex_folder (id name : string) : Label := mkLabel id "" name [name] LabelTypeFolder.

(** The API has swapped the names of two folders. *)
Definition ex_swapped (id : string) : result lc_err Label :=
  if String.eqb id "1" then Ok (ex_folder "1" "b")
  else if String.eqb id "2" then Ok (ex_folder "2" "a")
  else Err ErrNoSuchLabel.
Definition ex_table : name_table := {[ ["Folders"; "a"] := "1"; ["Folders"; "b"] := "2" ]}.

Lemma ex_table_lookup n id :
  ex_table !! n = Some id -> (n = ["Folders"; "a"] /\ id = "1") \/ (n = ["Folders"; "b"] /\ id = "2").
Proof.
  unfold ex_table. rewrite lookup_insert_Some, lookup_singleton_Some. naive_solver.
Qed.

Lemma ex_swapped_inv id l :
  ex_swapped id = Ok l -> (id = "1" /\ l = ex_folder "1" "b") \/ (id = "2" /\ l = ex_folder "2" "a").
Proof.
  unfold ex_swapped. destruct (String.eqb_spec id "1"); [naive_solver|].
  destruct (String.eqb_spec id "2"); naive_solver.
Qed.

Lemma ex_remote_ok : @remote_ok name_mailboxes ex_swapped ex_table.
Proof.
  split; [|split].
  - intros id l [[-> ->]|[-> ->]]%ex_swapped_inv; done.
  - intros id id' l l' [[-> ->]|[-> ->]]%ex_swapped_inv [[-> ->]|[-> ->]]%ex_swapped_inv; done.
  - intros id l tmp [[-> ->]|[-> ->]]%ex_swapped_inv [= <-]; (split; [by vm_compute|]);
      intros id' l' [[-> ->]|[-> ->]]%ex_swapped_inv; discriminate.
Qed.

Lemma name_fetch_ok t : @fetch_ok name_mailboxes (name_fetch t) t.
Proof. intros l. unfold name_fetch. simpl. destruct (t !! GetMailboxName l) eqn:Hl; done. Qed.

Lemma ResolveConflict_resolves_witness :
  exists us t1, @apply_updates name_mailboxes us ex_table = Some t1 /\ length us = 3%nat /\
    t1 !! ["Folders"; "b"] = Some "1".
Proof.
  destruct (@ResolveConflict_resolves name_mailboxes (name_fetch ex_table) ex_swapped ex_table
    (name_fetch_ok ex_table)
    ltac:(intros n n' id [[-> ->]|[-> ->]]%ex_table_lookup [[-> ?]|[-> ?]]%ex_table_lookup; done)
    ex_remote_ok 4 (ex_folder "1" "b")
    (combineIMAPUpdateFns [combineIMAPUpdateFns [combineIMAPUpdateFns [temp_fn (ex_folder "1" "b")];
       rename_fn (ex_folder "2" "a")]; rename_fn (ex_folder "1" "b")]))
    as (us & t1 & Hus & Ha & Hn & _).
  - reflexivity.
  - vm_compute. reflexivity.
  - exists us, t1. split; [exact Ha|]. split; [|by apply Hn].
    vm_compute in Hus. injection Hus as <-. reflexivity.
Defined.

Lemma ResolveConflict_terminates_witness :
  is_Some (ResolveConflict (name_fetch ex_table) ex_swapped 4 (ex_folder "1" "b") ∅).
Proof.
  apply (ResolveConflict_terminates (name_fetch ex_table) ex_swapped {["1"; "2"]}).
  - intros l d. unfold name_fetch. destruct (ex_table !! GetMailboxName l) as [id|] eqn:Hl; intros [= <-]. simpl.
    apply ex_table_lookup in Hl as [[_ ->]|[_ ->]]; set_solver.
  - intros id l [[-> ->]|[-> ->]]%ex_swapped_inv; done.
  - vm_compute. lia.
Defined.

(** Names are compared without a separator, so a folder that moved from "a/bc" to
    "ab/c" counts as not moved, and the conflict is refused. *)
Definition ex_moved (id : string) : result lc_err Label :=
  if String.eqb id "2" then Ok (mkLabel "2" "" "c" ["ab"; "c"] LabelTypeFolder) else Err ErrNoSuchLabel.

Lemma compareLabelNames_ambiguous :
  ResolveConflict (name_fetch {[ ["Folders"; "a"; "bc"] := "2" ]}) ex_moved 4
    (mkLabel "1" "" "bc" ["a"; "bc"] LabelTypeFolder) ∅ = Some (Err (ErrUnexpectedConflict "1" "2")) /\
  GetMailboxName (mkLabel "2" "" "c" ["ab"; "c"] LabelTypeFolder) <> ["Folders"; "a"; "bc"].
Proof. split; [vm_compute; reflexivity|discriminate]. Qed.
