(* ===== verification/LabelEvents.v ===== *)
(** * Label events of the IMAP service (internal/services/imapservice:
      service_label_events.go, shared_labels.go, sync_update_applier.go)

    The service keeps the labels of the API in a map shared by its connectors and
    turns label events, and the labels of a sync, into updates for the IMAP server
    of every connector.  The conflict resolver decides which updates must come
    first. *)

From S2P Require Import Prelude.
From S2P Require Import Api.
From S2P Require Import ImapUpdates.
From S2P Require Import LabelConflicts.

(** ** The shared map of labels (shared_labels.go) *)

Notation labelMap := (gmap string Label).
Definition newRWLabels : labelMap := ∅.
Definition rw_GetLabel (id : string) (r : labelMap) : option Label := r !! id.
Definition rw_GetLabels `{MapRange} (r : labelMap) : list Label := Values r.
Definition rw_SetLabel (id : string) (label : Label) (r : labelMap) : labelMap := <[id := label]> r.
Definition rw_Delete (id : string) (r : labelMap) : labelMap := delete id r.
Definition rw_SetLabels (labels : list Label) (r : labelMap) : labelMap :=
  foldl (fun groups item => <[label_ID item := item]> groups) ∅ labels.

(** ** The service *)

(** What the service publishes to the bridge. *)
Inductive label_notice : Type :=
| UserLabelCreated (userID labelID name : string)
| UserLabelUpdated (userID labelID name : string)
| UserLabelDeleted (userID labelID : string).

(** [svc_out] is what was sent to the update channels of the connectors, in order. *)
Record ImapService : Type := mkImapService {
  is_userID : string;
  is_connectors : list string;
  is_labels : labelMap;
  is_out : list (string * update);
  is_notices : list label_notice
}.

Definition set_labels (m : labelMap) (s : ImapService) : ImapService :=
  mkImapService (is_userID s) (is_connectors s) m (is_out s) (is_notices s).
Definition notify (n : label_notice) (s : ImapService) : ImapService :=
  mkImapService (is_userID s) (is_connectors s) (is_labels s) (is_out s) (is_notices s ++ [n]).

(** The loop [for _, updateCh := range s.getConnectors()] that publishes the updates
    [us] to each connector. *)
Definition publish_each (us : list update) (s : ImapService) : ImapService :=
  mkImapService (is_userID s) (is_connectors s) (is_labels s)
    (is_out s ++ (is_connectors s ≫= fun c => (fun u => (c, u)) <$> us)) (is_notices s).
(** The updates to wait for: one copy per connector. *)
Definition copies (us : list update) (s : ImapService) : list update := is_connectors s ≫= fun _ => us.

(** The environment of one event: the answers of the API and of the IMAP server; the
    [i]-th label handled sees [env_fetch i]. *)
Record label_env : Type := mkLabelEnv {
  env_GetLabel : labelFetcherFn;
  env_fetch : nat -> mailboxFetcherFn;
  env_fuel : nat
}.

(** [http.StatusUnprocessableEntity]. *)
Definition is_unprocessable (e : lc_err) : bool :=
  match e with ErrAPIStatus status => status =? 422 | _ => false end.

(** The outcome of a handler: [None] when it panics or the fuel runs out. *)
Definition handled : Type := option (ImapService * result lc_err (list update)).

(** [ResolveConflict] followed by one call of its generator. *)
Definition resolve (env : label_env) (i : nat) (label : Label) : option (result lc_err (list update)) :=
  match ResolveConflict (env_fetch env i) (env_GetLabel env) (env_fuel env) label ∅ with
  | None => None
  | Some (Err e) => Some (Err e)
  | Some (Ok fn) => us ← fn (); Some (Ok us)
  end.

Definition onLabelCreated (env : label_env) (event : LabelEvent) (s : ImapService) : handled :=
  let label := le_Label event in
  let s := set_labels (rw_SetLabel (label_ID label) label (is_labels s)) s in
  r ← resolve env 0 label;
  match r with
  | Err e => Some (s, Err e)
  | Ok conflictUpdates =>
      let us := conflictUpdates ++ [newMailboxCreatedUpdate (le_ID event) (GetMailboxName label)] in
      Some (notify (UserLabelCreated (is_userID s) (label_ID label) (label_Name label)) (publish_each us s),
            Ok (copies us s))
  end.

Section handlers.
Context `{MR : MapRange}.

(** The loop of [onLabelUpdated] over its stack. *)
Fixpoint update_loop (fuel : nat) (env : label_env) (eventLabel : Label) (i : nat) (stack : list Label)
    (updates : list update) (s : ImapService) : handled :=
  match fuel with
  | O => None
  | S fuel =>
      match stack with
      | [] => Some (s, Ok updates)
      | label :: stack =>
          let s := match rw_GetLabel (label_ID label) (is_labels s) with
                   | Some _ => set_labels (rw_SetLabel (label_ID label) eventLabel (is_labels s)) s
                   | None => s
                   end in
          match env_GetLabel env (label_ID label) with
          | Err e =>
              if is_unprocessable e then update_loop fuel env eventLabel (S i) stack updates s
              else Some (s, Err e)
          | Ok apiLabel =>
              let s := set_labels (rw_SetLabel (label_ID apiLabel) apiLabel (is_labels s)) s in
              r ← resolve env i apiLabel;
              match r with
              | Err e => Some (s, Err e)
              | Ok conflictUpdates =>
                  let us := conflictUpdates ++ [MailboxUpdated (label_ID apiLabel) (GetMailboxName apiLabel)] in
                  let s := notify (UserLabelUpdated (is_userID s) (label_ID apiLabel) (label_Name apiLabel))
                             (publish_each us s) in
                  let children := Filter (rw_GetLabels (is_labels s))
                                    (fun other => String.eqb (label_ParentID other) (label_ID label)) in
                  update_loop fuel env eventLabel (S i) (stack ++ children) (updates ++ copies us s) s
              end
          end
      end
  end.

Definition onLabelUpdated (fuel : nat) (env : label_env) (event : LabelEvent) (s : ImapService) : handled :=
  update_loop fuel env (le_Label event) 0 [le_Label event] [] s.

Definition onLabelDeleted (event : LabelEvent) (s : ImapService) : ImapService * list update :=
  let us := [MailboxDeleted (le_ID event)] in
  let s := publish_each us s in
  let s := set_labels (rw_Delete (le_ID event) (is_labels s)) s in
  (notify (UserLabelDeleted (is_userID s) (le_ID event)) s, copies us s).

(** [waitOnIMAPUpdates]: [wait u] is the error of applying [u], if any. *)
Fixpoint waitOnIMAPUpdates (wait : update -> option lc_err) (updates : list update) : option lc_err :=
  match updates with
  | [] => None
  | u :: rest => match wait u with Some e => Some e | None => waitOnIMAPUpdates wait rest end
  end.

Definition then_wait (wait : update -> option lc_err) (h : handled) : option (ImapService * option lc_err) :=
  match h with
  | None => None
  | Some (s, Err e) => Some (s, Some e)
  | Some (s, Ok updates) => Some (s, waitOnIMAPUpdates wait updates)
  end.

Definition HandleLabelEvent (fuel : nat) (env : label_env) (wait : update -> option lc_err)
    (event : LabelEvent) (s : ImapService) : option (ImapService * option lc_err) :=
  match le_Action event with
  | EventCreate =>
      if WantLabel (le_Label event) then then_wait wait (onLabelCreated env event s) else Some (s, None)
  | EventUpdateFlags | EventUpdate =>
      if WantLabel (le_Label event) then then_wait wait (onLabelUpdated fuel env event s) else Some (s, None)
  | EventDelete =>
      let '(s, updates) := onLabelDeleted event s in Some (s, waitOnIMAPUpdates wait updates)
  | EventActionOther _ => Some (s, None)
  end.

(** [envs] gives the environment of each event. *)
Fixpoint HandleLabelEvents (fuel : nat) (envs : nat -> label_env) (wait : update -> option lc_err) (k : nat)
    (events : list LabelEvent) (s : ImapService) : option (ImapService * option lc_err) :=
  match events with
  | [] => Some (s, None)
  | event :: rest =>
      r ← HandleLabelEvent fuel (envs k) wait event s;
      match r with
      | (s, Some e) => Some (s, Some e)
      | (s, None) => HandleLabelEvents fuel envs wait (S k) rest s
      end
  end.

(** ** Labels of a sync (sync_update_applier.go) *)

(** One label of the loop of [syncLabels]; [i] counts the labels. *)
Definition sync_label (env : label_env) (i : nat) (labelID : string) (label : Label) (s : ImapService) : handled :=
  if negb (WantLabel label) then Some (s, Ok [])
  else
    match label_Type label with
    | LabelTypeSystem =>
        let us := [newSystemMailboxCreatedUpdate (label_ID label) (label_Name label)] in
        Some (publish_each us s, Ok (copies us s))
    | LabelTypeFolder | LabelTypeLabel =>
        r ← resolve env i label;
        match r with
        | Err e => Some (s, Err e)
        | Ok conflictUpdates =>
            let us := conflictUpdates ++ [newMailboxCreatedUpdate labelID (GetMailboxName label)] in
            Some (publish_each us s, Ok (copies us s))
        end
    | _ => Some (s, Ok [])
    end.

Fixpoint sync_loop (env : label_env) (i : nat) (labels : list (string * Label)) (updates : list update)
    (s : ImapService) : handled :=
  match labels with
  | [] => Some (s, Ok updates)
  | (labelID, label) :: rest =>
      r ← sync_label env i labelID label s;
      match r with
      | (s, Err e) => Some (s, Err e)
      | (s, Ok us) => sync_loop env (S i) rest (updates ++ us) s
      end
  end.

(** The placeholders "Folders" and "Labels". *)
Definition placeholder (prefix : string) : list update :=
  [newPlaceHolderMailboxCreatedUpdate prefix; MailboxUpdated prefix [prefix]].

Definition syncLabels (env : label_env) (labels : gmap string Label) (s : ImapService) : handled :=
  match internal_ResolveConflict (env_fetch env 0) labels with
  | Err e => Some (s, Err e)
  | Ok conflictUpdateGenerator =>
      conflictUpdates ← conflictUpdateGenerator ();
      let s1 := publish_each conflictUpdates s in
      let s2 := publish_each (placeholder folderPrefix) s1 in
      let s3 := publish_each (placeholder labelPrefix) s2 in
      sync_loop env 1 (map_range labels)
        (copies conflictUpdates s ++ copies (placeholder folderPrefix) s ++ copies (placeholder labelPrefix) s) s3
  end.

(** ** Messages of a sync *)

Section apply.
Context {U : Type}.

(** [update, ok := updateMap[up.AddressID]; ...; update.Messages = append(...)]: the
    updates in the order of their creation, each with its address and messages. *)
Fixpoint add_to (addressID : string) (u : U) (result : list (string * list U)) : list (string * list U) :=
  match result with
  | [] => [(addressID, [u])]
  | (a, us) :: rest =>
      if String.eqb a addressID then (a, us ++ [u]) :: rest else (a, us) :: add_to addressID u rest
  end.

Definition split_updates (updates : list (string * U)) : list (string * list U) :=
  foldl (fun result up => add_to up.1 up.2 result) [] updates.

(** The request of [ApplySyncUpdates].  The first component lists what is published
    and to which connector, the second the updates the caller then waits for;
    [None] is an error. *)
Definition apply_request (combined : bool) (connectors : list string) (updates : list (string * U))
    : option (list (string * list U) * list (list U)) :=
  if combined then
    match connectors with
    | [c] => Some ([(c, updates.*2)], [updates.*2])
    | _ => None
    end
  else
    let result := split_updates updates in
    let updateMap : gmap string (list U) := list_to_map result in
    Some (Filter (map_range updateMap) (fun p => bool_decide (p.1 ∈ connectors)), result.*2).

(** The messages a connector is sent. *)
Definition sent_to (c : string) (published : list (string * list U)) : list U :=
  published ≫= fun p => if bool_decide (p.1 = c) then p.2 else [].

End apply.

(** ** What a connector receives *)

Definition sent_on (c : string) (out : list (string * update)) : list update :=
  omap (fun p => if bool_decide (p.1 = c) then Some p.2 else None) out.

Lemma sent_on_same c us : sent_on c ((fun u => (c, u)) <$> us) = us.
Proof.
  induction us as [|u us IH]; [done|]. unfold sent_on in *. simpl. rewrite bool_decide_eq_true_2 by done. f_equal. exact IH.
Qed.

Lemma sent_on_other c c' us : c <> c' -> sent_on c ((fun u => (c', u)) <$> us) = [].
Proof.
  intros Hc. induction us as [|u us IH]; [done|]. unfold sent_on in *. simpl. rewrite bool_decide_eq_false_2 by congruence. exact IH.
Qed.

Lemma sent_on_app c out out' : sent_on c (out ++ out') = sent_on c out ++ sent_on c out'.
Proof. apply omap_app. Qed.

(** Each connector receives the updates once. *)
Lemma sent_on_publish c us s :
  NoDup (is_connectors s) -> c ∈ is_connectors s ->
  sent_on c (is_out (publish_each us s)) = sent_on c (is_out s) ++ us.
Proof.
  intros Hn Hc. cbn [is_out publish_each]. rewrite sent_on_app. f_equal. revert Hn Hc. generalize (is_connectors s) as cs.
  induction cs as [|c' cs IH]; intros Hn Hc; [by apply elem_of_nil in Hc|]. apply NoDup_cons in Hn as [Hc' Hn].
  rewrite bind_cons, sent_on_app. apply elem_of_cons in Hc as [->|Hc].
  - rewrite sent_on_same. enough (sent_on c' (cs ≫= fun c => (fun u => (c, u)) <$> us) = []) as -> by apply app_nil_r.
    clear -Hc'. induction cs as [|x cs IH]; [done|]. rewrite bind_cons, sent_on_app, IH by set_solver.
    rewrite sent_on_other by set_solver. done.
  - rewrite sent_on_other by (intros ->; done). by apply IH.
Qed.

(** [s'] was reached from [s] by sending the same updates to every connector. *)
Definition broadcast (us : list update) (s s' : ImapService) : Prop :=
  is_connectors s' = is_connectors s /\
  (NoDup (is_connectors s) -> forall c, c ∈ is_connectors s -> sent_on c (is_out s') = sent_on c (is_out s) ++ us).

Lemma broadcast_refl s : broadcast [] s s.
Proof. split; [done|]. intros _ c _. by rewrite app_nil_r. Qed.

Lemma broadcast_publish us s : broadcast us s (publish_each us s).
Proof. split; [done|]. intros Hn c Hc. by apply sent_on_publish. Qed.

Lemma broadcast_trans us us' s1 s2 s3 : broadcast us s1 s2 -> broadcast us' s2 s3 -> broadcast (us ++ us') s1 s3.
Proof.
  intros [H1 H2] [H3 H4]. split; [congruence|]. intros Hn c Hc. rewrite H4, H2 by congruence. by rewrite app_assoc.
Qed.

Lemma broadcast_frame us s1 s2 s2' :
  is_connectors s2' = is_connectors s2 -> is_out s2' = is_out s2 -> broadcast us s1 s2 -> broadcast us s1 s2'.
Proof. intros Hc Ho [H1 H2]. split; [congruence|]. by rewrite Ho. Qed.

(** ** Updated labels *)

Section updated.
Context (env : label_env) (eventLabel : Label).
Context (api_ids : forall id l, env_GetLabel env id = Ok l -> label_ID l = id).

(** What a map entry may be while an update is handled. *)
Definition entry_ok (old : labelMap) (id : string) (entry : option Label) : Prop :=
  entry = old !! id \/ (exists l, entry = Some l /\ env_GetLabel env id = Ok l) \/
  (entry = Some eventLabel /\ exists e, env_GetLabel env id = Err e).

Definition label_inv (old : labelMap) (seen : gset string) (m : labelMap) : Prop :=
  (forall id, entry_ok old id (m !! id)) /\
  (forall id l, id ∈ seen -> env_GetLabel env id = Ok l -> m !! id = Some l).

Lemma label_inv_skip old seen m id e :
  env_GetLabel env id = Err e -> label_inv old seen m ->
  label_inv old seen (match rw_GetLabel id m with Some _ => rw_SetLabel id eventLabel m | None => m end).
Proof.
  intros He [H1 H2]. destruct (rw_GetLabel id m) as [l0|]; [|done]. unfold rw_SetLabel. split.
  - intros id'. destruct (decide (id' = id)) as [->|Hne].
    + rewrite lookup_insert_eq. right; right. eauto.
    + rewrite lookup_insert_ne by done. apply H1.
  - intros id' l Hd Hg. destruct (decide (id' = id)) as [->|Hne]; [congruence|].
    rewrite lookup_insert_ne by done. by apply H2.
Qed.

Lemma label_inv_set old seen m id l :
  env_GetLabel env id = Ok l -> label_inv old seen m ->
  label_inv old ({[id]} ∪ seen)
    (rw_SetLabel id l (match rw_GetLabel id m with Some _ => rw_SetLabel id eventLabel m | None => m end)).
Proof.
  intros Hg [H1 H2]. unfold rw_SetLabel.
  assert (Hl : forall id', id' <> id ->
    (<[id := l]> (match rw_GetLabel id m with Some _ => <[id := eventLabel]> m | None => m end) : labelMap) !! id' = m !! id').
  { intros id' Hne. rewrite lookup_insert_ne by done. destruct (rw_GetLabel id m); [by rewrite lookup_insert_ne|done]. }
  split.
  - intros id'. destruct (decide (id' = id)) as [->|Hne].
    + rewrite lookup_insert_eq. right; left. eauto.
    + rewrite Hl by done. apply H1.
  - intros id' l' Hd Hg'. destruct (decide (id' = id)) as [->|Hne].
    + rewrite lookup_insert_eq. congruence.
    + rewrite Hl by done. apply H2; set_solver.
Qed.

(** The loop keeps the invariant and sends every connector the same updates; the
    labels of the stack that the API has are all done at the end. *)
Lemma update_loop_sound fuel i stack updates s s' us' old seen :
  update_loop fuel env eventLabel i stack updates s = Some (s', Ok us') ->
  label_inv old seen (is_labels s) ->
  exists us seen', label_inv old seen' (is_labels s') /\ seen ⊆ seen' /\ broadcast us s s' /\
    (forall l, l ∈ stack -> forall api, env_GetLabel env (label_ID l) = Ok api ->
       label_ID l ∈ seen' /\ MailboxUpdated (label_ID l) (GetMailboxName api) ∈ us).
Proof.
  revert i stack updates s seen. induction fuel as [|fuel IH]; intros i stack updates s seen; [done|].
  cbn [update_loop]. destruct stack as [|label stack].
  { intros [= <- <-] Hi. exists [], seen. split; [done|]. split; [done|]. split; [apply broadcast_refl|set_solver]. }
  set (m1 := match rw_GetLabel (label_ID label) (is_labels s) with
             | Some _ => rw_SetLabel (label_ID label) eventLabel (is_labels s) | None => is_labels s end).
  replace (match rw_GetLabel (label_ID label) (is_labels s) with
           | Some _ => set_labels (rw_SetLabel (label_ID label) eventLabel (is_labels s)) s
           | None => s end) with (set_labels m1 s) by (unfold m1; destruct (rw_GetLabel _ _), s; done).
  intros Hr Hi. destruct (env_GetLabel env (label_ID label)) as [api|e] eqn:Hg.
  - apply bind_Some in Hr as (r & _ & Hr). destruct r as [conf|]; [|done].
    assert (Hid := api_ids _ _ Hg).
    apply (IH _ _ _ _ ({[label_ID label]} ∪ seen)) in Hr as (us & seen' & Hinv & Hsub & Hb & Hst).
    2: { cbn [is_labels notify publish_each set_labels]. rewrite Hid. by apply label_inv_set. }
    eexists _, seen'. split; [done|]. split; [set_solver|]. split.
    + eapply broadcast_trans; [|exact Hb]. eapply broadcast_frame; [| |apply broadcast_publish]; reflexivity.
    + intros l [->|Hl]%elem_of_cons api' Hapi.
      * rewrite Hg in Hapi. injection Hapi as <-. split; [set_solver|]. rewrite Hid.
        apply elem_of_app. left. apply elem_of_app. right. apply list_elem_of_here.
      * destruct (Hst l) with (api := api') as [Hd Hin]; [apply elem_of_app; by left|done|].
        split; [done|]. apply elem_of_app. by right.
  - destruct (is_unprocessable e); [|done].
    apply (IH _ _ _ _ seen) in Hr as (us & seen' & Hinv & Hsub & Hb & Hst).
    2: { cbn [is_labels set_labels]. by eapply label_inv_skip. }
    exists us, seen'. split; [done|]. split; [done|]. split; [exact Hb|].
    intros l [->|Hl]%elem_of_cons api' Hapi; [congruence|]. by apply Hst.
Qed.

(** *** Termination *)

Context (rank : string -> nat) (depth : nat).

(** A label is below its parent, and the hierarchy has finite depth. *)
Definition ranked (l : Label) : Prop :=
  (rank (label_ParentID l) < rank (label_ID l) <= depth)%nat.

Context (api_ranked : forall id l, env_GetLabel env id = Ok l -> ranked l).
Context (event_ranked : ranked eventLabel).
Context (resolver_returns : forall i id l, env_GetLabel env id = Ok l -> is_Some (resolve env i l)).

Definition map_ranked (m : labelMap) : Prop := map_Forall (fun _ l => ranked l) m.

Lemma map_ranked_set id l m : ranked l -> map_ranked m -> map_ranked (rw_SetLabel id l m).
Proof. intros Hl Hm. by apply map_Forall_insert_2. Qed.

Lemma children_ranked label m l :
  map_ranked m -> l ∈ Filter (rw_GetLabels m) (fun other => String.eqb (label_ParentID other) (label_ID label)) ->
  ranked l /\ (rank (label_ID label) < rank (label_ID l))%nat.
Proof.
  intros Hm [Hl Hp]%elem_of_Filter. apply elem_of_Values in Hl as [k Hk]. apply String.eqb_eq in Hp.
  assert (Hr := Hm _ _ Hk). simpl in Hr. split; [done|]. rewrite <- Hp. apply Hr.
Qed.

(** [r] is the least rank of the labels that are left, [d] how many ranks are left. *)
Lemma update_loop_returns d r stack below i updates s :
  (depth < r + d)%nat -> map_ranked (is_labels s) ->
  Forall (fun l => ranked l /\ (r <= rank (label_ID l))%nat) stack ->
  Forall (fun l => ranked l /\ (r < rank (label_ID l))%nat) below ->
  exists F, forall fuel, (F <= fuel)%nat -> is_Some (update_loop fuel env eventLabel i (stack ++ below) updates s).
Proof.
  revert r stack below i updates s. induction d as [|d IHd]; intros r stack below i updates s Hd.
  { intros _ Hs Hb. destruct stack as [|x ?]; [|apply Forall_cons in Hs as [[[_ ?] ?] _]; lia].
    destruct below as [|x ?]; [|apply Forall_cons in Hb as [[[_ ?] ?] _]; lia].
    exists 1%nat. intros [|fuel] ?; [lia|by eexists]. }
  revert below i updates s. induction stack as [|label stack IHs]; intros below i updates s Hm Hs Hb.
  { destruct (IHd (S r) below [] i updates s) as [F HF]; [lia|done| |constructor|].
    - eapply Forall_impl; [exact Hb|]. intros l [? ?]. split; [done|lia].
    - exists F. rewrite app_nil_r in HF. exact HF. }
  apply Forall_cons in Hs as [[Hl Hr] Hs].
  set (s1 := match rw_GetLabel (label_ID label) (is_labels s) with
             | Some _ => set_labels (rw_SetLabel (label_ID label) eventLabel (is_labels s)) s
             | None => s end).
  assert (Hm1 : map_ranked (is_labels s1)).
  { unfold s1. destruct (rw_GetLabel _ _); [by apply map_ranked_set|done]. }
  destruct (env_GetLabel env (label_ID label)) as [api|e] eqn:Hg.
  - destruct (resolver_returns i _ _ Hg) as [[conf|e] Hres].
    + set (us := conf ++ [MailboxUpdated (label_ID api) (GetMailboxName api)]).
      set (s2 := notify (UserLabelUpdated (is_userID s1) (label_ID api) (label_Name api))
        (publish_each us (set_labels (rw_SetLabel (label_ID api) api (is_labels s1)) s1))).
      assert (Hm2 : map_ranked (is_labels s2)) by (apply map_ranked_set; [by eapply api_ranked|done]).
      set (children := Filter (rw_GetLabels (is_labels s2))
        (fun other => String.eqb (label_ParentID other) (label_ID label))).
      destruct (IHs (below ++ children) (S i) (updates ++ copies us s2) s2 Hm2 Hs) as [F HF].
      { apply Forall_app. split; [done|]. apply Forall_forall. intros l Hin.
        destruct (children_ranked label _ l Hm2 Hin). split; [done|lia]. }
      exists (S F). intros [|fuel] Hf; [lia|]. cbn [app update_loop]. fold s1. rewrite Hg, Hres. cbn [mbind option_bind].
      rewrite <- app_assoc. apply HF. lia.
    + exists 1%nat. intros [|fuel] Hf; [lia|]. cbn [app update_loop]. fold s1. rewrite Hg, Hres. by eexists.
  - destruct (is_unprocessable e) eqn:He.
    + destruct (IHs below (S i) updates s1 Hm1 Hs Hb) as [F HF]. exists (S F).
      intros [|fuel] Hf; [lia|]. cbn [app update_loop]. fold s1. rewrite Hg, He. apply HF. lia.
    + exists 1%nat. intros [|fuel] Hf; [lia|]. cbn [app update_loop]. fold s1. rewrite Hg, He. by eexists.
Qed.

(** Updating a label and everything below it.  Let the API return the labels it
    is asked for, let the labels form a hierarchy of finite depth and let the
    conflict resolver return.  Then the loop over the label and its descendants
    ends.  When it ends without error, every entry of the shared map is what it was
    before, or what the API has for that ID, or, only where the API reported the
    label as missing, the label of the event; the updated label itself, if the API
    has it, is stored as the API has it; all connectors have been sent the same
    updates in the same order, among them the new name of the label. *)
Theorem onLabelUpdated_spec event s :
  le_Label event = eventLabel -> map_ranked (is_labels s) ->
  (exists F, forall fuel, (F <= fuel)%nat -> is_Some (onLabelUpdated fuel env event s)) /\
  (forall fuel s' updates, onLabelUpdated fuel env event s = Some (s', Ok updates) ->
   (forall id, is_labels s' !! id = is_labels s !! id \/
      (exists l, is_labels s' !! id = Some l /\ env_GetLabel env id = Ok l) \/
      (is_labels s' !! id = Some eventLabel /\ exists e, env_GetLabel env id = Err e)) /\
   exists us,
     (NoDup (is_connectors s) -> forall c, c ∈ is_connectors s -> sent_on c (is_out s') = sent_on c (is_out s) ++ us) /\
     forall api, env_GetLabel env (label_ID eventLabel) = Ok api ->
       is_labels s' !! label_ID eventLabel = Some api /\
       MailboxUpdated (label_ID eventLabel) (GetMailboxName api) ∈ us).
Proof.
  intros He Hm. unfold onLabelUpdated. rewrite He. split.
  - destruct (update_loop_returns (S depth) 0 [eventLabel] [] 0 [] s) as [F HF]; [lia|done| |constructor|].
    + constructor; [|constructor]. split; [done|lia].
    + by exists F.
  - intros fuel s' updates Hr.
    destruct (update_loop_sound fuel 0 [eventLabel] [] s s' updates (is_labels s) ∅ Hr) as (us & seen' & [H1 H2] & _ & [_ Hb] & Hst).
    { split; [by left|set_solver]. }
    split; [exact H1|]. exists us. split; [exact Hb|]. intros api Hapi.
    destruct (Hst eventLabel (list_elem_of_here _ _) api Hapi) as [Hd Hin]. split; [by apply H2|done].
Qed.

End updated.

(** ** Synced labels *)

(** The updates for one label of the API: none for an unwanted label, the creation of
    its mailbox for a wanted one, after the updates that make room for it. *)
Definition creates (label : string * Label) (us : list update) : Prop :=
  let '(labelID, l) := label in
  if WantLabel l then
    match label_Type l with
    | LabelTypeSystem => us = [newSystemMailboxCreatedUpdate (label_ID l) (label_Name l)]
    | LabelTypeFolder | LabelTypeLabel =>
        exists conflicts, us = conflicts ++ [newMailboxCreatedUpdate labelID (GetMailboxName l)]
    | _ => us = []
    end
  else us = [].

Lemma copies_eq us s s' : is_connectors s' = is_connectors s -> copies us s' = copies us s.
Proof. unfold copies. by intros ->. Qed.

Lemma sync_label_spec env i labelID label s s' us :
  sync_label env i labelID label s = Some (s', Ok us) ->
  exists vs, creates (labelID, label) vs /\ broadcast vs s s' /\ us = copies vs s.
Proof.
  unfold sync_label, creates. intros Hr.
  assert (Hnil : [] = copies [] s) by (unfold copies; induction (is_connectors s); done).
  destruct (WantLabel label); simpl in Hr;
    [|injection Hr as <- <-; exists []; split; [done|]; split; [apply broadcast_refl|exact Hnil]].
  destruct (label_Type label).
  1,3: apply bind_Some in Hr as ([conf|] & _ & Hr); [|done]; injection Hr as <- <-;
    eexists; split; [by eexists|]; split; [apply broadcast_publish|done].
  1,3: injection Hr as <- <-; exists []; split; [done|]; split; [apply broadcast_refl|exact Hnil].
  injection Hr as <- <-. eexists. split; [done|]. split; [apply broadcast_publish|done].
Qed.

Lemma sync_loop_spec env i labels updates s s' us :
  sync_loop env i labels updates s = Some (s', Ok us) ->
  exists vss, Forall2 creates labels vss /\ broadcast (concat vss) s s' /\
    us = updates ++ (vss ≫= fun vs => copies vs s).
Proof.
  revert i updates s. induction labels as [|[id l] labels IH]; intros i updates s; cbn [sync_loop].
  { intros [= <- <-]. exists []. split; [constructor|]. split; [apply broadcast_refl|]. by rewrite app_nil_r. }
  intros ([s1 [us1|e]] & H1 & Hr)%bind_Some; [|done].
  destruct (sync_label_spec _ _ _ _ _ _ _ H1) as (vs & Hc & Hb & ->).
  destruct (IH _ _ _ Hr) as (vss & Hcs & Hbs & ->). exists (vs :: vss). split; [by constructor|].
  split; [by eapply broadcast_trans|]. rewrite <- app_assoc. do 2 f_equal. cbn. f_equal.
  destruct Hb as [Hconn _]. clear -Hconn. induction vss as [|v vss IHv]; [done|]. cbn.
  f_equal; [by apply copies_eq|exact IHv].
Qed.

(** The internal resolver only deletes mailboxes the API does not know. *)
Definition deletes_unknown (apiLabels : gmap string Label) (fn : updateFn) : Prop :=
  exists id, apiLabels !! id = None /\ fn () = Some [MailboxDeletedSilent id].

Lemma internal_loop_spec fetch apiLabels prefixes fns fn :
  Forall (deletes_unknown apiLabels) fns -> internal_loop fetch apiLabels prefixes fns = Ok fn ->
  exists fns', fn = combineIMAPUpdateFns fns' /\ Forall (deletes_unknown apiLabels) fns'.
Proof.
  revert fns. induction prefixes as [|p prefixes IH]; intros fns Hf; cbn [internal_loop].
  { intros [= <-]. by exists fns. }
  destruct (fetch (internalLabel p)) as [d|[]]; try done; [|by apply IH].
  destruct (String.eqb _ _); [by apply IH|]. destruct (apiLabels !! md_RemoteID d) eqn:Hd; [done|].
  apply IH. apply Forall_app. split; [done|]. constructor; [|constructor]. by exists (md_RemoteID d).
Qed.

Lemma combine_deletes apiLabels fns us :
  Forall (deletes_unknown apiLabels) fns -> combine_fns fns = Some us ->
  Forall (fun u => exists id, u = MailboxDeletedSilent id /\ apiLabels !! id = None) us.
Proof.
  intros Hf. revert us. induction Hf as [|fn fns (id & Hn & Hfn) Hf IH]; intros us; cbn [combine_fns].
  { intros [= <-]. constructor. }
  rewrite Hfn. simpl. intros (us' & Hus & [= <-])%bind_Some. constructor; [by exists id|by apply IH].
Qed.

Lemma elem_of_copies u us s : u ∈ us -> is_connectors s <> [] -> u ∈ copies us s.
Proof. intros Hu Hc. unfold copies. destruct (is_connectors s); [done|]. cbn. apply elem_of_app. by left. Qed.

(** Synchronising the labels.  When [syncLabels] returns without error, every
    connector has been sent, once and in this order: deletions of mailboxes the API
    does not know that occupy the names "Folders" and "Labels", the two placeholder
    mailboxes with these names, and then, for each label of the API in turn,
    nothing if the label is not wanted, and otherwise the updates that make room
    for its mailbox followed by its creation.  Every update sent is among those the
    caller waits for. *)
Theorem syncLabels_complete env labels s s' updates :
  syncLabels env labels s = Some (s', Ok updates) -> NoDup (is_connectors s) -> is_connectors s <> [] ->
  exists conflicts vss,
    Forall (fun u => exists id, u = MailboxDeletedSilent id /\ labels !! id = None) conflicts /\
    Forall2 creates (map_range labels) vss /\
    let us := conflicts ++ placeholder folderPrefix ++ placeholder labelPrefix ++ concat vss in
    (forall c, c ∈ is_connectors s -> sent_on c (is_out s') = sent_on c (is_out s) ++ us) /\
    (forall u, u ∈ us -> u ∈ updates).
Proof.
  intros Hr Hn Hc. unfold syncLabels in Hr.
  destruct (internal_ResolveConflict _ labels) as [gen|] eqn:Hi; [|done].
  apply internal_loop_spec in Hi as (fns & -> & Hf); [|constructor].
  apply bind_Some in Hr as (conflicts & Hconf & Hr).
  destruct (sync_loop_spec _ _ _ _ _ _ _ Hr) as (vss & Hvss & Hb & ->).
  exists conflicts, vss. split; [by eapply combine_deletes|]. split; [done|]. cbv zeta. split.
  - assert (Hall : broadcast (((conflicts ++ placeholder folderPrefix) ++ placeholder labelPrefix) ++ concat vss) s s').
    { repeat (eapply broadcast_trans; [|first [apply broadcast_publish|exact Hb]]). apply broadcast_publish. }
    intros c Hcc. rewrite (proj2 Hall Hn c Hcc). by rewrite <- !app_assoc.
  - intros u. rewrite !elem_of_app. intros [Hu|[Hu|[Hu|Hu]]].
    + left; left. by apply elem_of_copies.
    + left; right; left. by apply elem_of_copies.
    + left; right; right. by apply elem_of_copies.
    + right. apply list_elem_of_In, in_concat in Hu as (vs & Hvs & Hu). apply list_elem_of_bind.
      exists vs. split; [|by apply list_elem_of_In]. apply elem_of_copies; [by apply list_elem_of_In|done].
Qed.

(** ** Synced messages *)

Section messages.
Context {U : Type}.
Implicit Types (updates : list (string * U)).

(** The messages of an address, in order. *)
Definition messages_of (a : string) updates : list U := (Filter updates (fun up => bool_decide (up.1 = a))).*2.

Lemma add_to_map a (u : U) result :
  (list_to_map (add_to a u result) : gmap string (list U)) =
  <[a := default [] ((list_to_map result : gmap string (list U)) !! a) ++ [u]]> (list_to_map result).
Proof.
  induction result as [|[a' us] rest IH]; [done|]. cbn [add_to].
  destruct (String.eqb_spec a' a) as [->|Hne].
  - rewrite !list_to_map_cons, lookup_insert_eq, insert_insert_eq. done.
  - rewrite !list_to_map_cons, IH, lookup_insert_ne by done. by apply insert_insert_ne.
Qed.

Lemma split_updates_map updates a :
  default [] ((list_to_map (split_updates updates) : gmap string (list U)) !! a) = messages_of a updates.
Proof.
  unfold split_updates, messages_of. induction updates as [|[b u] updates IH] using rev_ind; [done|].
  rewrite foldl_app. cbn [foldl fst snd]. rewrite add_to_map, Filter_app, fmap_app. cbn [Filter fst].
  destruct (decide (b = a)) as [->|Hne].
  - rewrite lookup_insert_eq, IH. by rewrite bool_decide_eq_true_2.
  - rewrite lookup_insert_ne by done. rewrite bool_decide_eq_false_2 by done. by rewrite IH, app_nil_r.
Qed.

Lemma sent_to_absent c (published : list (string * list U)) : c ∉ published.*1 -> sent_to c published = [].
Proof.
  induction published as [|[a us] rest IH]; [done|]. cbn. rewrite not_elem_of_cons. intros [Hne Hc].
  rewrite bool_decide_eq_false_2 by congruence. by apply IH.
Qed.

Lemma sent_to_unique c us (published : list (string * list U)) :
  NoDup published.*1 -> (c, us) ∈ published -> sent_to c published = us.
Proof.
  induction published as [|[a vs] rest IH]; [set_solver|]. cbn. intros [Ha Hn]%NoDup_cons [Heq|Hin]%elem_of_cons.
  - injection Heq as <- <-. rewrite bool_decide_eq_true_2 by done.
    change (us ++ sent_to c rest = us). rewrite sent_to_absent by done. apply app_nil_r.
  - rewrite bool_decide_eq_false_2; [by apply IH|]. intros ->. apply Ha. apply list_elem_of_fmap. by exists (c, us).
Qed.

(** Messages of a sync reach the right connector.  With one connector in combined
    mode it is sent all messages in one update, and any other number of connectors
    is an error.  In split mode every connector is sent exactly the messages of its
    own address, each once and in order, and nothing is sent for an address that
    has no connector, whatever order the map of updates is walked in. *)
Theorem apply_request_delivers connectors updates :
  (forall c, connectors = [c] -> exists waits, apply_request true connectors updates = Some ([(c, updates.*2)], waits)) /\
  (length connectors <> 1%nat -> apply_request true connectors updates = None) /\
  exists published waits, apply_request false connectors updates = Some (published, waits) /\
    forall c, sent_to c published = if bool_decide (c ∈ connectors) then messages_of c updates else [].
Proof.
  split; [intros c ->; by eexists|]. split; [by destruct connectors as [|? [|? ?]]|].
  eexists _, _. split; [done|]. intros c. rewrite <- split_updates_map.
  set (m := list_to_map (split_updates updates) : gmap string (list U)).
  set (published := Filter _ _).
  assert (Hn : NoDup published.*1) by (apply NoDup_fmap_Filter; rewrite map_range_perm; apply NoDup_fst_map_to_list).
  assert (Hin : forall us, (c, us) ∈ published <-> m !! c = Some us /\ c ∈ connectors).
  { intros us. unfold published. rewrite elem_of_Filter, elem_of_map_range, bool_decide_eq_true. done. }
  case_bool_decide as Hc.
  - destruct (m !! c) as [us|] eqn:Hm; simpl; [by apply sent_to_unique, Hin|].
    apply sent_to_absent. intros [[c' us] [-> Hus]]%list_elem_of_fmap. simpl in Hm. apply Hin in Hus as [? _]. congruence.
  - apply sent_to_absent. intros [[c' us] [-> Hus]]%list_elem_of_fmap. by apply Hin in Hus as [_ ?].
Qed.

End messages.

End handlers.

(** A message of an address without a connector is not published, and yet its update
    is among those waited for. *)
Lemma apply_request_waits_for_unpublished :
  @apply_request canonical_range string false ["a"] [("b", "message")] = Some ([], [["message"]]).
Proof. vm_compute. reflexivity. Qed.

(** ** A concrete account *)

Definition ex_parent : Label := mkLabel "p" "" "work" ["work"] LabelTypeFolder.
Definition ex_child : Label := mkLabel "c" "p" "2024" ["work"; "2024"] LabelTypeFolder.
Definition ex_renamed : Label := mkLabel "p" "" "job" ["job"] LabelTypeFolder.
Definition ex_renamed_child : Label := mkLabel "c" "p" "2024" ["job"; "2024"] LabelTypeFolder.

(** The API after the rename; [child] is its answer for the child. *)
Definition ex_api (child : result lc_err Label) (id : string) : result lc_err Label :=
  if String.eqb id "p" then Ok ex_renamed else if String.eqb id "c" then child else Err ErrNoSuchLabel.

Definition ex_env (child : result lc_err Label) : label_env :=
  mkLabelEnv (ex_api child) (fun _ _ => Err ErrNotFound) 5.

Definition ex_imap : ImapService :=
  mkImapService "user" ["addr1"; "addr2"] {["p" := ex_parent; "c" := ex_child]} [] [].

Definition ex_rank (id : string) : nat :=
  if String.eqb id "p" then 1 else if String.eqb id "c" then 2 else 0.

Lemma ex_api_inv id l :
  ex_api (Ok ex_renamed_child) id = Ok l -> (id = "p" /\ l = ex_renamed) \/ (id = "c" /\ l = ex_renamed_child).
Proof.
  unfold ex_api. destruct (String.eqb_spec id "p"); [naive_solver|]. destruct (String.eqb_spec id "c"); naive_solver.
Qed.

Lemma onLabelUpdated_spec_witness :
  exists s' updates,
    @onLabelUpdated canonical_range 5 (ex_env (Ok ex_renamed_child)) (mkLabelEvent "p" EventUpdate ex_renamed) ex_imap
      = Some (s', Ok updates) /\
    is_labels s' !! "p" = Some ex_renamed /\ length updates = 8%nat.
Proof.
  destruct (@onLabelUpdated_spec canonical_range (ex_env (Ok ex_renamed_child)) ex_renamed
    ltac:(by intros id l [[-> ->]|[-> ->]]%ex_api_inv) ex_rank 2
    ltac:(intros id l [[-> ->]|[-> ->]]%ex_api_inv; vm_compute; split; repeat constructor)
    ltac:(vm_compute; split; repeat constructor)
    ltac:(intros i id l [[-> ->]|[-> ->]]%ex_api_inv; by eexists)
    (mkLabelEvent "p" EventUpdate ex_renamed) ex_imap) as [_ Hspec].
  - reflexivity.
  - intros id l Hl. unfold ex_imap in Hl. cbn [is_labels] in Hl. apply lookup_insert_Some in Hl as [[<- <-]|[_ Hl]]; [vm_compute; split; repeat constructor|].
    apply lookup_singleton_Some in Hl as [<- <-]. vm_compute; split; repeat constructor.
  - assert (Hlen : match @onLabelUpdated canonical_range 5 (ex_env (Ok ex_renamed_child))
        (mkLabelEvent "p" EventUpdate ex_renamed) ex_imap with
      | Some (_, Ok us) => length us = 8%nat | _ => False end) by (vm_compute; reflexivity).
    destruct (@onLabelUpdated canonical_range 5 (ex_env (Ok ex_renamed_child))
      (mkLabelEvent "p" EventUpdate ex_renamed) ex_imap) as [[s' [us|]]|] eqn:Hr; [|destruct Hlen..].
    exists s', us. split; [reflexivity|]. split; [|exact Hlen].
    destruct (Hspec 5%nat s' us Hr) as (_ & vs & _ & Hapi). by apply (Hapi ex_renamed).
Defined.

Lemma syncLabels_complete_witness :
  exists s' updates, @syncLabels canonical_range (ex_env (Ok ex_renamed_child)) (is_labels ex_imap) ex_imap
      = Some (s', Ok updates) /\
    exists us, sent_on "addr1" (is_out s') = us /\ sent_on "addr2" (is_out s') = us.
Proof.
  assert (Hret : match @syncLabels canonical_range (ex_env (Ok ex_renamed_child)) (is_labels ex_imap) ex_imap with
    | Some (_, Ok us) => length us = 16%nat | _ => False end) by (vm_compute; reflexivity).
  destruct (@syncLabels canonical_range (ex_env (Ok ex_renamed_child)) (is_labels ex_imap) ex_imap)
    as [[s' [us|]]|] eqn:Hr; [|destruct Hret..].
  exists s', us. split; [reflexivity|].
  destruct (@syncLabels_complete canonical_range (ex_env (Ok ex_renamed_child)) (is_labels ex_imap) ex_imap s' us Hr)
    as (conf & vss & _ & _ & Hsent & _).
  - apply (bool_decide_unpack _). vm_compute. exact I.
  - discriminate.
  - eexists. split; (etrans; [apply Hsent|reflexivity]); simpl; [apply list_elem_of_here|].
    apply list_elem_of_further, list_elem_of_here.
Defined.

(** When the API no longer has a child of the updated label, the entry of the child
    is left with the label of its parent. *)
Lemma onLabelUpdated_child_overwritten :
  match @onLabelUpdated canonical_range 5 (ex_env (Err (ErrAPIStatus 422)))
      (mkLabelEvent "p" EventUpdate ex_renamed) ex_imap with
  | Some (s', Ok _) => is_labels s' !! "c" = Some ex_renamed
  | _ => False
  end.
Proof. vm_compute. reflexivity. Qed.

(** A label that the resolver would treat as deleted makes the update fail. *)
Lemma onLabelUpdated_missing_label_fails :
  match @onLabelUpdated canonical_range 5 (ex_env (Err ErrNoSuchLabel))
      (mkLabelEvent "p" EventUpdate ex_renamed) ex_imap with
  | Some (_, Err ErrNoSuchLabel) => True
  | _ => False
  end.
Proof. vm_compute. exact I. Qed.
