(* ===== verification/AddressEvents.v ===== *)
(** * Address events of the IMAP service (internal/services/imapservice:
      service_address_events.go, shared_identity.go)

    The IMAP service has one connector for the whole account in combined mode, under
    the primary address, and one connector per enabled address in split mode.
    Address events change the identity of the account and the set of connectors
    together. *)

From S2P Require Import Prelude.
From S2P Require Import Api.
From S2P Require Import UserEvents.
From S2P Require Import UserIdentity.

(** The identity, the mode and the connectors of the service.  A connector remembers
    the address it was made for; [as_users] are the accounts of the IMAP server. *)
Record AddressService : Type := mkAddressService {
  as_identity : State;
  as_mode : AddressMode;
  as_connectors : gmap string string;
  as_users : list string
}.

Definition with_identity (i : State) (s : AddressService) : AddressService :=
  mkAddressService i (as_mode s) (as_connectors s) (as_users s).
Definition with_connectors (m : gmap string string) (s : AddressService) : AddressService :=
  mkAddressService (as_identity s) (as_mode s) m (as_users s).
Definition with_users (l : list string) (s : AddressService) : AddressService :=
  mkAddressService (as_identity s) (as_mode s) (as_connectors s) l.

(** The answers of the IMAP server manager and of the sync of the labels of a new
    connector. *)
Record address_env : Type := mkAddressEnv {
  AddIMAPUser : string -> option err;
  RemoveIMAPUser : string -> option err;
  env_syncLabels : string -> option err
}.

Definition addNewAddressSplitMode (env : address_env) (addrID : string) (s : AddressService)
    : AddressService * option err :=
  match AddIMAPUser env addrID with
  | Some e => (s, Some (ErrWrap "failed to add new account to server" e))
  | None =>
      let s := with_connectors (<[addrID := addrID]> (as_connectors s)) (with_users (as_users s ++ [addrID]) s) in
      match env_syncLabels env addrID with
      | Some e => (s, Some (ErrWrap "failed to sync labels for new address" e))
      | None => (s, None)
      end
  end.

Definition removeAddressSplitMode (env : address_env) (addrID : string) (s : AddressService)
    : AddressService * option err :=
  match as_connectors s !! addrID with
  | None => (s, None)
  | Some _ =>
      match RemoveIMAPUser env addrID with
      | Some e => (s, Some (ErrWrap "failed to remove user from server" e))
      | None =>
          (with_connectors (delete addrID (as_connectors s))
             (with_users (Filter (as_users s) (fun u => negb (String.eqb u addrID))) s), None)
      end
  end.

Section handlers.
Context `{MR : MapRange, SF : SortFunc}.

Definition HandleAddressEvents_combined (events : list AddressEvent) (s : AddressService)
    : AddressService * option err :=
  match state_GetPrimaryAddr (as_identity s) with
  | Err e => (s, Some (ErrWrap "failed to get primary addr" e))
  | Ok oldPrimaryAddr =>
      let s := with_identity (OnAddressEvents events (as_identity s)) s in
      match state_GetPrimaryAddr (as_identity s) with
      | Err e => (s, Some (ErrWrap "failed to get primary addr after update" e))
      | Ok newPrimaryAddr =>
          if String.eqb (addr_ID oldPrimaryAddr) (addr_ID newPrimaryAddr) then (s, None)
          else
            match as_connectors s !! addr_ID oldPrimaryAddr with
            | None => (s, Some (ErrOther "could not find old primary addr connector"))
            | Some connector =>
                (with_connectors (delete (addr_ID oldPrimaryAddr)
                   (<[addr_ID newPrimaryAddr := connector]> (as_connectors s))) s, None)
            end
      end
  end.

(** One event of the loop for split mode. *)
Definition HandleAddressEvent_split (env : address_env) (event : AddressEvent) (s : AddressService)
    : AddressService * option err :=
  match ae_Action event with
  | EventCreate =>
      let '(i, status) := OnAddressCreated event (as_identity s) in
      let s := with_identity i s in
      match status with
      | AddressUpdateCreated => addNewAddressSplitMode env (addr_ID (ae_Address event)) s
      | _ => (s, None)
      end
  | EventUpdateFlags | EventUpdate =>
      let '(i, (addr, status)) := OnAddressUpdated event (as_identity s) in
      let s := with_identity i s in
      match status with
      | AddressUpdateCreated | AddressUpdateEnabled => addNewAddressSplitMode env (addr_ID addr) s
      | AddressUpdateDisabled => removeAddressSplitMode env (addr_ID addr) s
      | _ => (s, None)
      end
  | EventDelete =>
      let '(i, (_, status)) := OnAddressDeleted event (as_identity s) in
      let s := with_identity i s in
      match status with
      | AddressUpdateDeleted => removeAddressSplitMode env (ae_ID event) s
      | _ => (s, None)
      end
  | EventActionOther _ => (s, Some (ErrOther "unknown event action"))
  end.

(** [envs] gives the environment of each event. *)
Fixpoint HandleAddressEvents_split (envs : nat -> address_env) (k : nat) (events : list AddressEvent)
    (s : AddressService) : AddressService * option err :=
  match events with
  | [] => (s, None)
  | event :: rest =>
      match HandleAddressEvent_split (envs k) event s with
      | (s, Some e) => (s, Some e)
      | (s, None) => HandleAddressEvents_split envs (S k) rest s
      end
  end.

Definition imap_HandleAddressEvents (envs : nat -> address_env) (events : list AddressEvent) (s : AddressService)
    : AddressService * option err :=
  match as_mode s with
  | AddressModeCombined => HandleAddressEvents_combined events s
  | AddressModeSplit => HandleAddressEvents_split envs 0 events s
  end.

(** ** The connectors follow the addresses *)

Definition enabled_ids (i : State) : gset string := dom (enabled_emails i).

(** Which addresses have a connector. *)
Definition connectors_ok (s : AddressService) : Prop :=
  match as_mode s with
  | AddressModeCombined =>
      exists p, state_GetPrimaryAddr (as_identity s) = Ok p /\ dom (as_connectors s) = {[addr_ID p]}
  | AddressModeSplit => dom (as_connectors s) = enabled_ids (as_identity s)
  end.

Lemma enabled_ids_insert l m u a :
  enabled_ids (mkState l (<[addr_ID a := a]> m) u) =
  if enabled (addr_Status a) then {[addr_ID a]} ∪ enabled_ids (mkState l m u)
  else enabled_ids (mkState l m u) ∖ {[addr_ID a]}.
Proof.
  unfold enabled_ids. rewrite enabled_emails_insert. case_match; [apply dom_insert_L|apply dom_delete_L].
Qed.

Lemma enabled_ids_delete l m u id :
  enabled_ids (mkState l (delete id m) u) = enabled_ids (mkState l m u) ∖ {[id]}.
Proof. unfold enabled_ids, enabled_emails. simpl. rewrite omap_delete. apply dom_delete_L. Qed.

(** An address that the map does not have, or has disabled, is not enabled. *)
Lemma enabled_ids_not_in i id :
  (forall a, Addresses i !! id = Some a -> enabled (addr_Status a) = false) -> id ∉ enabled_ids i.
Proof.
  intros Hn. destruct i as [l m u]. unfold enabled_ids. rewrite elem_of_dom, enabled_emails_lookup. simpl in *.
  destruct (m !! id) as [a|]; simpl; [rewrite (Hn a eq_refl)|]; intros [? [=]].
Qed.

Lemma enabled_ids_in i id a :
  Addresses i !! id = Some a -> enabled (addr_Status a) = true -> id ∈ enabled_ids i.
Proof.
  intros Ha He. destruct i as [l m u]. unfold enabled_ids. rewrite elem_of_dom, enabled_emails_lookup. simpl in *.
  rewrite Ha. simpl. rewrite He. by eexists.
Qed.

Lemma addNewAddressSplitMode_dom env id s s' :
  addNewAddressSplitMode env id s = (s', None) ->
  as_identity s' = as_identity s /\ as_mode s' = as_mode s /\ dom (as_connectors s') = {[id]} ∪ dom (as_connectors s).
Proof.
  unfold addNewAddressSplitMode. destruct (AddIMAPUser env id); [done|].
  destruct (env_syncLabels env id); [done|]. intros [= <-]. simpl. split; [done|]. split; [done|]. apply dom_insert_L.
Qed.

Lemma removeAddressSplitMode_dom env id s s' :
  removeAddressSplitMode env id s = (s', None) ->
  as_identity s' = as_identity s /\ as_mode s' = as_mode s /\ dom (as_connectors s') = dom (as_connectors s) ∖ {[id]}.
Proof.
  unfold removeAddressSplitMode. destruct (as_connectors s !! id) eqn:Hc.
  - destruct (RemoveIMAPUser env id); [done|]. intros [= <-]. simpl. split; [done|]. split; [done|]. apply dom_delete_L.
  - intros [= <-]. split; [done|]. split; [done|]. apply not_elem_of_dom in Hc. set_solver.
Qed.

(** How each operation of the identity changes the enabled addresses. *)
Lemma OnAddressCreated_enabled ev i :
  let '(i', status) := OnAddressCreated ev i in
  match status with
  | AddressUpdateCreated => enabled_ids i' = {[addr_ID (ae_Address ev)]} ∪ enabled_ids i
  | _ => enabled_ids i' = enabled_ids i
  end.
Proof.
  unfold OnAddressCreated. destruct (Addresses i !! addr_ID (ae_Address ev)) eqn:Hm; [done|].
  destruct i as [l m u]. simpl in *.
  assert (Hi := enabled_ids_insert l m u (ae_Address ev)). destruct (enabled _); [exact Hi|].
  etrans; [exact Hi|]. assert (addr_ID (ae_Address ev) ∉ enabled_ids (mkState l m u)); [|set_solver].
  apply enabled_ids_not_in. simpl. by rewrite Hm.
Qed.

Lemma OnAddressUpdated_enabled ev i :
  let '(i', (addr, status)) := OnAddressUpdated ev i in
  match status with
  | AddressUpdateCreated | AddressUpdateEnabled => enabled_ids i' = {[addr_ID addr]} ∪ enabled_ids i
  | AddressUpdateDisabled => enabled_ids i' = enabled_ids i ∖ {[addr_ID addr]}
  | _ => enabled_ids i' = enabled_ids i
  end.
Proof.
  unfold OnAddressUpdated. destruct (Addresses i !! addr_ID (ae_Address ev)) as [old|] eqn:Hm.
  - destruct i as [l m u]. simpl in *. assert (Hi := enabled_ids_insert l m u (ae_Address ev)).
    assert (Hin := enabled_ids_in (mkState l m u) _ old Hm). assert (Hnot := enabled_ids_not_in (mkState l m u) (addr_ID (ae_Address ev))).
    simpl in Hnot. destruct (enabled (addr_Status old)) eqn:Ho, (enabled (addr_Status (ae_Address ev))); simpl;
      (etrans; [exact Hi|]); [|done|done|].
    + specialize (Hin eq_refl). set_solver.
    + assert (addr_ID (ae_Address ev) ∉ enabled_ids (mkState l m u)); [|set_solver]. apply Hnot. intros a Ha. congruence.
  - assert (Hc := OnAddressCreated_enabled ev i). destruct (OnAddressCreated ev i) as [i' status] eqn:Hcr.
    destruct status; try exact Hc;
      (revert Hcr; unfold OnAddressCreated; rewrite Hm; destruct (enabled _); intros [= ? ?]).
Qed.

Lemma OnAddressDeleted_enabled ev i :
  let '(i', (_, status)) := OnAddressDeleted ev i in
  match status with
  | AddressUpdateDeleted => enabled_ids i' = enabled_ids i ∖ {[ae_ID ev]}
  | _ => enabled_ids i' = enabled_ids i
  end.
Proof.
  unfold OnAddressDeleted. destruct (Addresses i !! ae_ID ev) as [a|] eqn:Hm; [|done].
  destruct i as [l m u]. simpl in *. assert (Hd := enabled_ids_delete l m u (ae_ID ev)).
  destruct (enabled (addr_Status a)) eqn:He; [exact Hd|]. etrans; [exact Hd|].
  assert (ae_ID ev ∉ enabled_ids (mkState l m u)); [|set_solver]. apply enabled_ids_not_in. simpl. intros b Hb. congruence.
Qed.

Lemma HandleAddressEvent_split_ok env ev s s' :
  HandleAddressEvent_split env ev s = (s', None) ->
  dom (as_connectors s) = enabled_ids (as_identity s) ->
  as_mode s' = as_mode s /\ dom (as_connectors s') = enabled_ids (as_identity s').
Proof.
  unfold HandleAddressEvent_split. intros Hr Hd.
  assert (Hsame : forall i, enabled_ids i = enabled_ids (as_identity s) -> (with_identity i s, @None err) = (s', None) ->
    as_mode s' = as_mode s /\ dom (as_connectors s') = enabled_ids (as_identity s')).
  { intros i Hi [= <-]. split; [done|]. simpl. congruence. }
  assert (Hadd : forall i id, enabled_ids i = {[id]} ∪ enabled_ids (as_identity s) ->
    addNewAddressSplitMode env id (with_identity i s) = (s', None) ->
    as_mode s' = as_mode s /\ dom (as_connectors s') = enabled_ids (as_identity s')).
  { intros i id Hi (-> & -> & ->)%addNewAddressSplitMode_dom. split; [done|]. simpl. congruence. }
  assert (Hrem : forall i id, enabled_ids i = enabled_ids (as_identity s) ∖ {[id]} ->
    removeAddressSplitMode env id (with_identity i s) = (s', None) ->
    as_mode s' = as_mode s /\ dom (as_connectors s') = enabled_ids (as_identity s')).
  { intros i id Hi (-> & -> & ->)%removeAddressSplitMode_dom. split; [done|]. simpl. congruence. }
  destruct (ae_Action ev).
  - assert (He := OnAddressDeleted_enabled ev (as_identity s)).
    destruct (OnAddressDeleted ev (as_identity s)) as [i [a []]]; eauto.
  - assert (He := OnAddressCreated_enabled ev (as_identity s)).
    destruct (OnAddressCreated ev (as_identity s)) as [i []]; eauto.
  - assert (He := OnAddressUpdated_enabled ev (as_identity s)).
    destruct (OnAddressUpdated ev (as_identity s)) as [i [a []]]; eauto.
  - assert (He := OnAddressUpdated_enabled ev (as_identity s)).
    destruct (OnAddressUpdated ev (as_identity s)) as [i [a []]]; eauto.
  - done.
Qed.

Lemma HandleAddressEvents_split_ok envs k events s s' :
  HandleAddressEvents_split envs k events s = (s', None) ->
  dom (as_connectors s) = enabled_ids (as_identity s) ->
  as_mode s' = as_mode s /\ dom (as_connectors s') = enabled_ids (as_identity s').
Proof.
  revert k s. induction events as [|ev events IH]; intros k s; simpl; [by intros [= <-]|].
  destruct (HandleAddressEvent_split (envs k) ev s) as [s1 [e|]] eqn:H1; [done|]. intros Hr Hd.
  destruct (HandleAddressEvent_split_ok _ _ _ _ H1 Hd) as [Hm1 Hd1]. destruct (IH _ _ Hr Hd1) as [Hm Hd2].
  split; [congruence|done].
Qed.

Lemma HandleAddressEvents_combined_ok events s s' :
  HandleAddressEvents_combined events s = (s', None) ->
  (exists p, state_GetPrimaryAddr (as_identity s) = Ok p /\ dom (as_connectors s) = {[addr_ID p]}) ->
  as_mode s' = as_mode s /\
  exists p, state_GetPrimaryAddr (as_identity s') = Ok p /\ dom (as_connectors s') = {[addr_ID p]}.
Proof.
  unfold HandleAddressEvents_combined. intros Hr (p & Hp & Hd). rewrite Hp in Hr. simpl in Hr.
  destruct (state_GetPrimaryAddr (OnAddressEvents events (as_identity s))) as [p'|e] eqn:Hp'; [|done].
  destruct (String.eqb_spec (addr_ID p) (addr_ID p')) as [Heq|Hne].
  - injection Hr as <-. split; [done|]. exists p'. split; [done|]. simpl. congruence.
  - destruct (as_connectors s !! addr_ID p) as [c|] eqn:Hc; [|done]. injection Hr as <-.
    split; [done|]. exists p'. split; [done|]. simpl. rewrite dom_delete_L, dom_insert_L, Hd. set_solver.
Qed.

(** The connectors follow the addresses.  If the service has a connector exactly
    for each enabled address (split mode), or exactly one, under the primary
    address (combined mode), then so it has after any list of address events that
    is handled without error: created, enabled, disabled, changed and deleted
    addresses, repeated events, and a change of the primary address. *)
Theorem HandleAddressEvents_connectors envs events s s' :
  imap_HandleAddressEvents envs events s = (s', None) -> connectors_ok s ->
  as_mode s' = as_mode s /\ connectors_ok s'.
Proof.
  unfold imap_HandleAddressEvents, connectors_ok. destruct (as_mode s) eqn:Hmode; intros Hr Hok.
  - destruct (HandleAddressEvents_combined_ok _ _ _ Hr Hok) as [Hm Hp]. rewrite Hm, Hmode. done.
  - destruct (HandleAddressEvents_split_ok _ _ _ _ _ Hr Hok) as [Hm Hd]. rewrite Hm, Hmode. done.
Qed.

End handlers.

(** ** Concrete events *)

Definition ex_new_address : Address := mkAddress "d" "new@pm.me" AddressStatusEnabled 4 [] (AddressTypeOther 1) true "".
Definition ex_created : AddressEvent := mkAddressEvent "d" EventCreate ex_new_address.

Definition ex_ok : address_env := mkAddressEnv (fun _ => None) (fun _ => None) (fun _ => None).
Definition ex_failing : address_env :=
  mkAddressEnv (fun _ => Some (ErrAPI 503)) (fun _ => None) (fun _ => None).

Definition ex_split : AddressService :=
  mkAddressService ex_identity AddressModeSplit {["a" := "a"; "b" := "b"]} ["a"; "b"].

Lemma HandleAddressEvents_connectors_witness :
  exists s', @imap_HandleAddressEvents canonical_range merge_sort_by (fun _ => ex_ok) [ex_created] ex_split = (s', None) /\
    connectors_ok s' /\ as_connectors s' !! "d" = Some "d".
Proof.
  destruct (@imap_HandleAddressEvents canonical_range merge_sort_by (fun _ => ex_ok) [ex_created] ex_split)
    as [s' r] eqn:Hr.
  assert (Hres : r = None /\ as_connectors s' !! "d" = Some "d").
  { change r with (s', r).2. change (as_connectors s') with (as_connectors (s', r).1). rewrite <- Hr.
    split; vm_compute; reflexivity. }
  destruct Hres as [-> Hd]. exists s'. split; [reflexivity|]. split; [|exact Hd].
  refine (proj2 (@HandleAddressEvents_connectors canonical_range merge_sort_by (fun _ => ex_ok) [ex_created] ex_split s' Hr _)).
  vm_compute. reflexivity.
Defined.

(** When the server cannot add the account, the event fails and is delivered again;
    by then the identity already has the address, and no connector is ever made. *)
Lemma address_retry_lost :
  let '(s1, r1) := @imap_HandleAddressEvents canonical_range merge_sort_by (fun _ => ex_failing) [ex_created] ex_split in
  let '(s2, r2) := @imap_HandleAddressEvents canonical_range merge_sort_by (fun _ => ex_ok) [ex_created] s1 in
  is_Some r1 /\ r2 = None /\ as_connectors s2 !! "d" = None /\ "d" ∈ enabled_ids (as_identity s2).
Proof.
  vm_compute. split; [by eexists|]. split; [reflexivity|]. split; [reflexivity|].
  apply (bool_decide_unpack _). vm_compute. exact I.
Qed.
