(* ===== verification/Connector.v ===== *)
(** * The IMAP connector: mailboxes and messages (internal/services/imapservice:
      connector.go, shared_cache.go)

    The IMAP server calls the connector of an account or address when a client
    creates, renames or deletes a mailbox, and copies, moves, flags or removes
    messages.  The connector turns the call into calls of the API and keeps the map
    of labels, which all connectors of the account share.  The client of the API is
    the class [APIClient], its documented behaviour the class [APILaws]. *)

From S2P Require Import Prelude.
From S2P Require Import Api.
From S2P Require Import Effects.
From S2P Require Import UserEvents.
From S2P Require Import UserIdentity.
From S2P Require Import ImapUpdates.
From S2P Require Import LabelEvents.

(** ** The API *)

Record CreateLabelReq : Type := mkCreateLabelReq { clr_Name : string; clr_Type : LabelType; clr_ParentID : string }.
Record UpdateLabelReq : Type := mkUpdateLabelReq { ulr_Name : string; ulr_ParentID : string }.

(** The methods of the client the connector uses, over the state [W] of the server. *)
Class APIClient (W : Type) : Type := {
  LabelMessages : list string -> string -> W -> W * option err;
  UnlabelMessages : list string -> string -> W -> W * option err;
  DeleteMessage : list string -> W -> W * option err;
  MarkMessagesRead : list string -> W -> W * option err;
  MarkMessagesUnread : list string -> W -> W * option err;
  api_MarkMessagesForwarded : list string -> W -> W * option err;
  MarkMessagesUnForwarded : list string -> W -> W * option err;
  GetMessageMetadataPage : Z -> Z -> list string -> W -> result err (list MessageMetadata);
  GetLabel : string -> list LabelType -> W -> result err Label;
  CreateLabel : CreateLabelReq -> W -> W * result err Label;
  UpdateLabel : string -> UpdateLabelReq -> W -> W * result err Label;
  DeleteLabel : string -> W -> W * option err
}.

(** The sentinel errors, and [errors.Is] for them. *)
Definition ErrOperationNotAllowed : err := ErrOther "operation not allowed".
Definition ErrNoSuchLabel : err := ErrOther "no such label".
Definition is_sentinel (target e : err) : bool :=
  match target, e with ErrOther m, ErrOther m' => String.eqb m m' | _, _ => false end.
Definition Is (target e : err) : bool := existsb (is_sentinel target) (chain e).

(** juniper's [xslices.Chunk]. *)
Class XSlices : Type := { xslices_Chunk : forall {T}, list T -> Z -> list (list T) }.
Class XSlicesLaws `{XSlices} : Prop := {
  xslices_Chunk_join {T} (l : list T) n : 0 < n -> mjoin (xslices_Chunk l n) = l;
  xslices_Chunk_length {T} (l : list T) n c : 0 < n -> c ∈ xslices_Chunk l n -> Z.of_nat (length c) <= n
}.

(** ** The connector *)

(** The fields that do not change during a call; flags and attributes are the
    defaults. *)
Record Connector : Type := mkConnector {
  cn_addrID : string;
  cn_addressMode : AddressMode;
  cn_showAllMail : Z
}.

(** The label map, shared by the connectors of the account, and the server. *)
Record ConnState (W : Type) : Type := mkConnState { cs_labels : labelMap; cs_api : W }.
Arguments mkConnState {W} _ _.
Arguments cs_labels {W} _.
Arguments cs_api {W} _.

Definition b32 (b : bool) : Z := if b then 1 else 0.

Definition NewConnector (addrID : string) (mode : AddressMode) (showAllMail : bool) : Connector :=
  mkConnector addrID mode (b32 showAllMail).

Definition ShowAllMail (v : bool) (c : Connector) : Connector :=
  mkConnector (cn_addrID c) (cn_addressMode c) (b32 v).

Inductive MailboxVisibility : Type := Hidden | Visible | HiddenIfEmpty.

Definition GetMailboxVisibility (c : Connector) (mboxID : string) : MailboxVisibility :=
  if String.eqb mboxID AllMailLabel then (if negb (cn_showAllMail c =? 0) then Visible else Hidden)
  else if String.eqb mboxID AllScheduledLabel then HiddenIfEmpty
  else Visible.

#[global] Instance AddressMode_eq_dec : EqDecision AddressMode.
Proof. solve_decision. Defined.

(** The panic of [CheckAuth] passes through. *)
Definition Authorize (c : Connector) (bridgePass : list Z) (username : string) (password : list Z) (i : State)
    : checked bool :=
  match CheckAuth bridgePass username password i with
  | Panics => Panics
  | Returns (Err _) => Returns false
  | Returns (Ok addrID) =>
      Returns (if bool_decide (cn_addressMode c = AddressModeSplit) && negb (String.eqb addrID (cn_addrID c))
                 then false else true)
  end.

(** ** The cache of the IMAP state (shared_cache.go)

    [SharedCache] holds the accessor of the IMAP server's tables while there is one;
    [readers] counts the accessors that hold its read lock, during which [Set] and
    [Close] wait. *)
Record SharedCache (C : Type) : Type := mkSharedCache { sc_cache : option C; sc_readers : nat }.
Arguments mkSharedCache {C} _ _.
Arguments sc_cache {C} _.
Arguments sc_readers {C} _.

Definition NewSharedCached {C} : SharedCache C := mkSharedCache None 0.
Definition ErrCacheNotAvailable : err := ErrOther "cache no longer available".

(** [None]: the call has to wait for the readers. *)
Definition cache_Set {C} (cache : C) (s : SharedCache C) : option (SharedCache C) :=
  match sc_readers s with O => Some (mkSharedCache (Some cache) 0) | S _ => None end.
Definition cache_Close {C} (s : SharedCache C) : option (SharedCache C) :=
  match sc_readers s with O => Some (mkSharedCache None 0) | S _ => None end.
Definition Acquire {C} (s : SharedCache C) : SharedCache C * result err C :=
  match sc_cache s with
  | None => (s, Err ErrCacheNotAvailable)
  | Some cache => (mkSharedCache (Some cache) (S (sc_readers s)), Ok cache)
  end.
Definition accessor_Close {C} (s : SharedCache C) : SharedCache C :=
  mkSharedCache (sc_cache s) (pred (sc_readers s)).

Section connector.
Context {W : Type} `{API : APIClient W} `{XS : XSlices} `{MR : MapRange}.

Notation M := (eff (ConnState W) err).

(** A method of the client called from the connector. *)
Definition client (f : W -> W * option err) : M () := calls (fun s =>
  let '(w, e) := f (cs_api s) in (mkConnState (cs_labels s) w, e)).
Definition client_result {A} (f : W -> W * result err A) : M A := fun s =>
  let '(w, r) := f (cs_api s) in (mkConnState (cs_labels s) w, r).
Definition set_shared (f : labelMap -> labelMap) : M () :=
  modify (fun s => mkConnState (f (cs_labels s)) (cs_api s)).

(** ** Mailboxes *)

Definition notAllowed (msg : string) : err := ErrWrap msg ErrOperationNotAllowed.

Definition createLabel (name : list string) : M Mailbox :=
  match name with
  | [n] =>
      label ← client_result (CreateLabel (mkCreateLabelReq n LabelTypeLabel ""));
      set_shared (rw_SetLabel (label_ID label) label) ≫= fun _ =>
      mret (toIMAPMailbox label defaultMailboxFlags defaultMailboxPermanentFlags [])
  | _ => fails (notAllowed "a label cannot have children")
  end.

(** [name[:len(name)-1]] and [name[len(name)-1]]. *)
Definition parent_path (name : list string) : list string := removelast name.
Definition base_name (name : list string) : string := List.last name "".

(** The loop that looks for the parent of a folder with more than one component;
    without a parent the identifier is empty. *)
Definition findParent (name : list string) (labels : labelMap) : result err string :=
  if (1 <? length name)%nat then
    let parentID := match find_first (fun label => bool_decide (label_Path label = parent_path name))
                            (rw_GetLabels labels) with
                    | Some label => label_ID label
                    | None => ""
                    end in
    if String.eqb parentID "" then Err (notAllowed "parent folder does not exist") else Ok parentID
  else Ok "".

Definition createFolder (name : list string) : M Mailbox :=
  parentID ← reads (fun s => findParent name (cs_labels s));
  label ← client_result (CreateLabel (mkCreateLabelReq (base_name name) LabelTypeFolder parentID));
  set_shared (rw_SetLabel (label_ID label) label) ≫= fun _ =>
  mret (toIMAPMailbox label defaultMailboxFlags defaultMailboxPermanentFlags []).

Definition CreateMailbox (name : list string) : M Mailbox :=
  match name with
  | top :: (_ :: _) as rest =>
      if String.eqb top folderPrefix then createFolder rest
      else if String.eqb top labelPrefix then createLabel rest
      else fails (notAllowed "invalid mailbox name")
  | _ => fails (notAllowed "invalid mailbox name")
  end.

Definition updateLabel (labelID : string) (name : list string) : M () :=
  match name with
  | [n] =>
      label ← reads (fun s => GetLabel labelID [LabelTypeLabel] (cs_api s));
      update ← client_result (UpdateLabel (label_ID label) (mkUpdateLabelReq n ""));
      set_shared (rw_SetLabel (label_ID label) update)
  | _ => fails (notAllowed "a label cannot have children")
  end.

Definition updateFolder (labelID : string) (name : list string) : M () :=
  parentID ← reads (fun s => findParent name (cs_labels s));
  label ← reads (fun s => GetLabel labelID [LabelTypeFolder] (cs_api s));
  update ← client_result (UpdateLabel labelID (mkUpdateLabelReq (base_name name) parentID));
  set_shared (rw_SetLabel (label_ID label) update).

Definition UpdateMailboxName (mboxID : string) (name : list string) : M () :=
  match name with
  | top :: (_ :: _) as rest =>
      if String.eqb top folderPrefix then updateFolder mboxID rest
      else if String.eqb top labelPrefix then updateLabel mboxID rest
      else fails (notAllowed "invalid mailbox name")
  | _ => fails (notAllowed "invalid mailbox name")
  end.

Definition DeleteMailbox (mboxID : string) : M () :=
  client (DeleteLabel mboxID) ≫= fun _ => set_shared (rw_Delete mboxID).

(** ** Messages of a mailbox *)

Definition AddMessagesToMailbox (messageIDs : list string) (mboxID : string) : M () :=
  if isAllMailOrScheduled mboxID then fails ErrOperationNotAllowed
  else client (LabelMessages messageIDs mboxID).

Definition isMailboxOfTypeLabel (mboxID : string) (labels : labelMap) : bool :=
  match rw_GetLabel mboxID labels with
  | Some v => bool_decide (label_Type v = LabelTypeLabel)
  | None => false
  end.

Definition unlabelMessages (messageIDs : list string) (labelID : string) : M () :=
  client (UnlabelMessages messageIDs labelID).

Definition ChunkSize : Z := 150.

(** A label of the message: from the shared map, or asked from the API. *)
Definition resolve_label (id : string) (s : ConnState W) : result err (option Label) :=
  match rw_GetLabel id (cs_labels s) with
  | Some label => Ok (Some label)
  | None =>
      match GetLabel id [LabelTypeFolder; LabelTypeSystem; LabelTypeSystem] (cs_api s) with
      | Ok label => Ok (Some label)
      | Err e => if Is ErrNoSuchLabel e then Ok None else Err (ErrWrap "failed to resolve label" e)
      end
  end.

(** Does the label keep a message from being deleted?  [unlabelled] is the mailbox
    treated as already removed, if the variant does so. *)
Definition counts_as_remaining (unlabelled : option string) (id : string) (label : Label) : bool :=
  WantLabel label && negb (bool_decide (unlabelled = Some id)) &&
  negb (bool_decide (label_Type label = LabelTypeSystem) &&
        (String.eqb id AllDraftsLabel || String.eqb id AllMailLabel ||
         String.eqb id AllSentLabel || String.eqb id AllScheduledLabel)).

(** The loop over the labels of one message. *)
Fixpoint remainingLabels (unlabelled : option string) (s : ConnState W) (msgID : string) (ids : list string)
    : result err (list string) :=
  match ids with
  | [] => Ok []
  | id :: rest =>
      match resolve_label id s with
      | Err e => Err e
      | Ok None => remainingLabels unlabelled s msgID rest
      | Ok (Some label) =>
          if counts_as_remaining unlabelled id label then
            r ← remainingLabels unlabelled s msgID rest; Ok (msgID :: r)
          else remainingLabels unlabelled s msgID rest
      end
  end.

(** The loop over the messages of a chunk. *)
Fixpoint marked_in (unlabelled : option string) (s : ConnState W) (metadata : list MessageMetadata)
    : result err (list string) :=
  match metadata with
  | [] => Ok []
  | m :: rest =>
      remaining ← remainingLabels unlabelled s (meta_ID m) (meta_LabelIDs m);
      r ← marked_in unlabelled s rest;
      Ok (if bool_decide (remaining = []) then meta_ID m :: r else r)
  end.

(** The loop over the chunks. *)
Fixpoint marked (unlabelled : option string) (s : ConnState W) (chunks : list (list string))
    : result err (list string) :=
  match chunks with
  | [] => Ok []
  | chunk :: rest =>
      metadata ← GetMessageMetadataPage 0 ChunkSize chunk (cs_api s);
      ids ← marked_in unlabelled s metadata;
      r ← marked unlabelled s rest;
      Ok (ids ++ r)
  end.

Definition permaDelete (unlabelled : option string) (messageIDs : list string) : M () :=
  msgToPermaDelete ← reads (fun s => marked unlabelled s (xslices_Chunk messageIDs ChunkSize));
  if negb (length msgToPermaDelete =? 0)%nat then client (DeleteMessage msgToPermaDelete) else mret ().

Definition deletable (mboxID : string) : bool :=
  String.eqb mboxID TrashLabel || String.eqb mboxID DraftsLabel.

Definition removeMessagesFromMailboxWithoutUnlabelOnFolders (messageIDs : list string) (mboxID : string) : M () :=
  if isAllMailOrScheduled mboxID then fails ErrOperationNotAllowed
  else
    isLabel ← reads (fun s => Ok (isMailboxOfTypeLabel mboxID (cs_labels s)));
    (if isLabel : bool then unlabelMessages messageIDs mboxID else mret ()) ≫= fun _ =>
    if deletable mboxID then permaDelete (Some mboxID) messageIDs else mret ().

Definition removeMessagesFromMailboxWithUnlabelCallOnFolders (messageIDs : list string) (mboxID : string) : M () :=
  if isAllMailOrScheduled mboxID then fails ErrOperationNotAllowed
  else
    unlabelMessages messageIDs mboxID ≫= fun _ =>
    if deletable mboxID then permaDelete None messageIDs else mret ().

(** [FolderUnlabelCallDisabled] is the value of the feature flag. *)
Definition RemoveMessagesFromMailbox (FolderUnlabelCallDisabled : bool) (messageIDs : list string) (mboxID : string)
    : M () :=
  if FolderUnlabelCallDisabled then removeMessagesFromMailboxWithoutUnlabelOnFolders messageIDs mboxID
  else removeMessagesFromMailboxWithUnlabelCallOnFolders messageIDs mboxID.

(** ** Moves *)

Definition move_forbidden (mboxFromID mboxToID : string) : bool :=
  (String.eqb mboxFromID InboxLabel && String.eqb mboxToID SentLabel) ||
  (String.eqb mboxFromID SentLabel && String.eqb mboxToID InboxLabel) ||
  isAllMailOrScheduled mboxFromID || isAllMailOrScheduled mboxToID.

Definition is_exclusive (t : LabelType) : bool := bool_decide (t = LabelTypeFolder) || bool_decide (t = LabelTypeSystem).

Definition shouldExpungeWithout (mboxFromID mboxToID : string) (labels : labelMap) : bool :=
  if isMailboxOfTypeLabel mboxFromID labels then true
  else match rw_GetLabel mboxToID labels with
       | Some v => if is_exclusive (label_Type v) then true else false
       | None => false
       end.

Definition shouldExpungeWith (mboxFromID mboxToID : string) (labels : labelMap) : bool :=
  let result := match rw_GetLabel mboxFromID labels with
                | Some v => if bool_decide (label_Type v = LabelTypeLabel) then true else false
                | None => false
                end in
  match rw_GetLabel mboxToID labels with
  | Some v => if is_exclusive (label_Type v) then true else result
  | None => result
  end.

Definition moveMessagesWithoutUnlabelCallOnFolders (messageIDs : list string) (mboxFromID mboxToID : string) : M bool :=
  if move_forbidden mboxFromID mboxToID then fails ErrOperationNotAllowed
  else
    shouldExpungeOldLocation ← reads (fun s => Ok (shouldExpungeWithout mboxFromID mboxToID (cs_labels s)));
    wrapping (ErrWrap "labeling messages") (client (LabelMessages messageIDs mboxToID)) ≫= fun _ =>
    isLabel ← reads (fun s => Ok (isMailboxOfTypeLabel mboxFromID (cs_labels s)));
    (if isLabel : bool then wrapping (ErrWrap "unlabeling messages") (unlabelMessages messageIDs mboxFromID)
     else mret ()) ≫= fun _ =>
    mret shouldExpungeOldLocation.

Definition moveMessagesWithUnlabelCallOnFolders (messageIDs : list string) (mboxFromID mboxToID : string) : M bool :=
  if move_forbidden mboxFromID mboxToID then fails ErrOperationNotAllowed
  else
    shouldExpungeOldLocation ← reads (fun s => Ok (shouldExpungeWith mboxFromID mboxToID (cs_labels s)));
    wrapping (ErrWrap "labeling messages") (client (LabelMessages messageIDs mboxToID)) ≫= fun _ =>
    (if shouldExpungeOldLocation : bool
     then wrapping (ErrWrap "unlabeling messages") (unlabelMessages messageIDs mboxFromID)
     else mret ()) ≫= fun _ =>
    mret shouldExpungeOldLocation.

Definition MoveMessages (FolderUnlabelCallDisabled : bool) (messageIDs : list string) (mboxFromID mboxToID : string)
    : M bool :=
  if FolderUnlabelCallDisabled then moveMessagesWithoutUnlabelCallOnFolders messageIDs mboxFromID mboxToID
  else moveMessagesWithUnlabelCallOnFolders messageIDs mboxFromID mboxToID.

(** ** Flags *)

Definition MarkMessagesSeen (messageIDs : list string) (seen : bool) : M () :=
  if seen then client (MarkMessagesRead messageIDs) else client (MarkMessagesUnread messageIDs).

Definition MarkMessagesFlagged (messageIDs : list string) (flagged : bool) : M () :=
  if flagged then client (LabelMessages messageIDs StarredLabel) else unlabelMessages messageIDs StarredLabel.

Definition MarkMessagesForwarded (messageIDs : list string) (flagged : bool) : M () :=
  if flagged then client (api_MarkMessagesForwarded messageIDs) else client (MarkMessagesUnForwarded messageIDs).

End connector.

(** ** What the API promises

    [api_messages] and [api_labels] are the messages and labels of the account.  A call
    that fails may have been carried out in part, but only touches the messages it
    names. *)
Class APILaws (W : Type) `{APIClient W} : Type := {
  api_messages : W -> gmap string MessageMetadata;
  api_labels : W -> gmap string Label;
  (** Removing a label. *)
  unlabel_labels ids l w : api_labels (UnlabelMessages ids l w).1 = api_labels w;
  unlabel_none ids l w id : api_messages w !! id = None -> api_messages (UnlabelMessages ids l w).1 !! id = None;
  unlabel_only ids l w id m : api_messages w !! id = Some m ->
    exists m', api_messages (UnlabelMessages ids l w).1 !! id = Some m' /\
               forall l', l' <> l -> l' ∈ meta_LabelIDs m' <-> l' ∈ meta_LabelIDs m;
  unlabel_ok ids l w id m : (UnlabelMessages ids l w).2 = None -> id ∈ ids ->
    api_messages (UnlabelMessages ids l w).1 !! id = Some m -> l ∉ meta_LabelIDs m;
  (** Adding a label; a folder replaces the folder the message was in. *)
  label_present ids l w id : is_Some (api_messages w !! id) -> is_Some (api_messages (LabelMessages ids l w).1 !! id);
  label_ok ids l w id m : (LabelMessages ids l w).2 = None -> id ∈ ids ->
    api_messages (LabelMessages ids l w).1 !! id = Some m -> l ∈ meta_LabelIDs m;
  (** Deleting for good. *)
  delete_others ids w id : id ∉ ids -> api_messages (DeleteMessage ids w).1 !! id = api_messages w !! id;
  delete_ok ids w id : (DeleteMessage ids w).2 = None -> id ∈ ids -> api_messages (DeleteMessage ids w).1 !! id = None;
  (** Reading. *)
  metadata_sound p n ids w ms m : GetMessageMetadataPage p n ids w = Ok ms -> m ∈ ms ->
    api_messages w !! meta_ID m = Some m /\ meta_ID m ∈ ids;
  metadata_complete n ids w ms id m : GetMessageMetadataPage 0 n ids w = Ok ms -> Z.of_nat (length ids) <= n ->
    id ∈ ids -> api_messages w !! id = Some m -> meta_ID m = id /\ m ∈ ms;
  getlabel_ok id types w l : GetLabel id types w = Ok l ->
    api_labels w !! id = Some l /\ label_Type l ∈ types /\ label_ID l = id;
  getlabel_missing id types w e l : GetLabel id types w = Err e -> Is ErrNoSuchLabel e = true ->
    api_labels w !! id = Some l -> label_Type l ∉ types;
  (** Creating and renaming labels. *)
  create_ok req w w' l : CreateLabel req w = (w', Ok l) ->
    api_labels w !! label_ID l = None /\ api_labels w' = <[label_ID l := l]> (api_labels w) /\
    label_ParentID l = clr_ParentID req /\
    label_Type l = clr_Type req /\
    label_Path l = (if String.eqb (clr_ParentID req) "" then []
                    else from_option label_Path [] (api_labels w !! clr_ParentID req)) ++ [clr_Name req];
  update_ok id req w w' l : UpdateLabel id req w = (w', Ok l) ->
    label_ID l = id /\ label_ParentID l = ulr_ParentID req /\
    (forall l0, api_labels w !! id = Some l0 -> label_Type l = label_Type l0) /\
    label_Path l = (if String.eqb (ulr_ParentID req) "" then []
                    else from_option label_Path [] (api_labels w !! ulr_ParentID req)) ++ [ulr_Name req]
}.

Section laws.
Context {W : Type} `{API : APIClient W} {AL : APILaws W} `{XS : XSlices} {XL : XSlicesLaws} `{MR : MapRange}.

Notation messages s := (api_messages (cs_api s)).
Notation labels s := (api_labels (cs_api s)).

(** ** Removing messages *)

(** The label keeps its messages from being deleted for good: it is known to the
    connector, or the API finds it among folders and system labels, it is shown to
    clients and it is not one of the labels every message or draft has. *)
Definition protects (s : ConnState W) (id : string) : Prop :=
  exists label,
    (cs_labels s !! id = Some label \/
     cs_labels s !! id = None /\ labels s !! id = Some label /\
     label_Type label ∈ [LabelTypeFolder; LabelTypeSystem; LabelTypeSystem]) /\
    counts_as_remaining None id label = true.

Lemma resolve_label_spec id s o :
  resolve_label id s = Ok o ->
  protects s id <-> exists label, o = Some label /\ counts_as_remaining None id label = true.
Proof.
  unfold resolve_label, protects, rw_GetLabel. destruct (cs_labels s !! id) as [l|] eqn:Hl.
  { intros [= <-]. naive_solver. }
  destruct (GetLabel _ _ _) as [l|e] eqn:Hg.
  - intros [= <-]. apply getlabel_ok in Hg as (? & ? & _). naive_solver.
  - destruct (Is ErrNoSuchLabel e) eqn:He; [|done]. intros [= <-].
    split; [|naive_solver]. intros (l & [?|(_ & Hl' & Ht)] & _); [done|].
    by destruct (getlabel_missing _ _ _ _ _ Hg He Hl').
Qed.

Lemma counts_skip u id label :
  counts_as_remaining u id label = counts_as_remaining None id label && negb (bool_decide (u = Some id)).
Proof.
  unfold counts_as_remaining.
  destruct (WantLabel label), (bool_decide (u = Some id)); simpl; by rewrite ?andb_true_r, ?andb_false_r.
Qed.

Lemma remainingLabels_nil u s msgID ids r :
  remainingLabels u s msgID ids = Ok r ->
  r = [] <-> forall id, id ∈ ids -> u <> Some id -> ~ protects s id.
Proof.
  revert r. induction ids as [|id ids IH]; intros r Hr; simpl in Hr.
  { injection Hr as <-. split; [intros _ id Hid; by apply elem_of_nil in Hid|done]. }
  assert (forall (P : Prop), (P <-> (u <> Some id -> ~ protects s id)) ->
            (P /\ (forall i, i ∈ ids -> u <> Some i -> ~ protects s i)) <->
            forall i, i ∈ id :: ids -> u <> Some i -> ~ protects s i) as Hcons.
  { intros P HP. rewrite HP. setoid_rewrite elem_of_cons. naive_solver. }
  destruct (resolve_label id s) as [o|e] eqn:Hl; [|done].
  pose proof (resolve_label_spec _ _ _ Hl) as Hp. destruct o as [label|].
  2:{ rewrite (IH r Hr), <- (Hcons True); [tauto|]. split; [|done]. by intros _ _ (l & [=] & _)%Hp. }
  rewrite counts_skip in Hr. destruct (counts_as_remaining None id label) eqn:Hc; simpl in Hr.
  - case_bool_decide as Hu; simpl in Hr.
    + rewrite (IH r Hr), <- (Hcons True); [tauto|]. by split.
    + apply result_bind_Ok in Hr as (r0 & _ & [= <-]). split; [done|].
      intros Hall. exfalso. apply (Hall id); [left|done|]. apply Hp. eauto.
  - rewrite (IH r Hr), <- (Hcons True); [tauto|]. split; [|done]. intros _ _ (l & [= <-] & Hc')%Hp. congruence.
Qed.

(** The messages to delete are those of the page without a protecting label. *)
Lemma elem_of_marked_in u s ms ids id :
  marked_in u s ms = Ok ids ->
  id ∈ ids <-> exists m, m ∈ ms /\ meta_ID m = id /\
                         forall l, l ∈ meta_LabelIDs m -> u <> Some l -> ~ protects s l.
Proof.
  revert ids. induction ms as [|m ms IH]; intros ids Hr; simpl in Hr.
  { injection Hr as <-. setoid_rewrite elem_of_nil. naive_solver. }
  apply result_bind_Ok in Hr as (rem & Hrem & Hr). apply result_bind_Ok in Hr as (r & Hms & Hr).
  apply remainingLabels_nil in Hrem. injection Hr as <-. setoid_rewrite elem_of_cons.
  case_bool_decide as Hnil; [rewrite elem_of_cons|]; rewrite (IH r Hms); [|naive_solver].
  pose proof (proj1 Hrem Hnil). naive_solver.
Qed.

Lemma elem_of_marked u s chunks ids id :
  marked u s chunks = Ok ids -> (forall c, c ∈ chunks -> Z.of_nat (length c) <= ChunkSize) ->
  id ∈ ids <-> id ∈ mjoin chunks /\ exists m, messages s !! id = Some m /\
                  forall l, l ∈ meta_LabelIDs m -> u <> Some l -> ~ protects s l.
Proof.
  revert ids. induction chunks as [|c chunks IH]; intros ids Hr Hlen; simpl in Hr.
  { injection Hr as <-. cbn. setoid_rewrite elem_of_nil. naive_solver. }
  apply result_bind_Ok in Hr as (ms & Hms & Hr). apply result_bind_Ok in Hr as (ids1 & Hin & Hr).
  apply result_bind_Ok in Hr as (ids2 & Hrest & Hr). injection Hr as <-.
  specialize (IH ids2 Hrest (fun c' Hc' => Hlen c' (list_elem_of_further _ _ _ Hc'))).
  change (mjoin (c :: chunks)) with (c ++ mjoin chunks).
  rewrite !elem_of_app, IH, (elem_of_marked_in _ _ _ _ _ Hin).
  assert ((exists m, m ∈ ms /\ meta_ID m = id /\ forall l, l ∈ meta_LabelIDs m -> u <> Some l -> ~ protects s l) <->
          id ∈ c /\ exists m, messages s !! id = Some m /\
                     forall l, l ∈ meta_LabelIDs m -> u <> Some l -> ~ protects s l) as ->; [|tauto].
  split.
  - intros (m & Hm & <- & Hall). destruct (metadata_sound _ _ _ _ _ _ Hms Hm) as [Hid Hc]. eauto.
  - intros (Hc & m & Hm & Hall). exists m.
    destruct (metadata_complete _ _ _ _ _ _ Hms (Hlen c (list_elem_of_here _ _)) Hc Hm). done.
Qed.

(** The message has no label that keeps it, the mailbox aside. *)
Definition unprotected (mboxID : string) (s : ConnState W) (m : MessageMetadata) : Prop :=
  forall l, l ∈ meta_LabelIDs m -> l <> mboxID -> ~ protects s l.

Lemma permaDelete_spec u ids s s' r :
  permaDelete u ids s = (s', r) ->
  let doomed id := id ∈ ids /\ exists m, messages s !! id = Some m /\
                     forall l, l ∈ meta_LabelIDs m -> u <> Some l -> ~ protects s l in
  cs_labels s' = cs_labels s /\
  (forall id, messages s' !! id = messages s !! id \/ doomed id) /\
  (r = Ok () -> forall id, doomed id -> messages s' !! id = None).
Proof.
  intros Hrun doomed. unfold permaDelete in Hrun.
  apply eff_bind_inv in Hrun as [(e & He & ->)|(s1 & del & Hd & Hrun)].
  { unfold reads in He. injection He as <- _. naive_solver. }
  unfold reads in Hd. injection Hd as <- Hd.
  assert (forall id, id ∈ del <-> doomed id) as Hdel.
  { intros id. rewrite (elem_of_marked _ _ _ _ _ Hd).
    - by rewrite xslices_Chunk_join.
    - intros c Hc. by apply xslices_Chunk_length in Hc. }
  destruct del as [|x del]; simpl in Hrun.
  { injection Hrun as <- <-. split_and!; [done|by left|]. intros _ id Hid%Hdel. by apply elem_of_nil in Hid. }
  unfold client, calls in Hrun. destruct (DeleteMessage _ _) as [w e] eqn:Hc.
  assert (w = (DeleteMessage (x :: del) (cs_api s)).1 /\ e = (DeleteMessage (x :: del) (cs_api s)).2) as [-> ->]
    by (by rewrite Hc). clear Hc.
  assert (s' = mkConnState (cs_labels s) (DeleteMessage (x :: del) (cs_api s)).1) as ->
    by (by destruct (DeleteMessage (x :: del) (cs_api s)).2; simplify_eq).
  split_and!; [done|..].
  - intros id. destruct (decide (id ∈ x :: del)) as [Hid|Hid]; [right; by apply Hdel|].
    left. by apply delete_others.
  - intros -> id Hid%Hdel. simpl. apply delete_ok; [|done].
    by destruct (DeleteMessage (x :: del) (cs_api s)).2.
Qed.

(** What a removal of labels leaves as it was. *)
Definition only_unlabels (mboxID : string) (s s' : ConnState W) : Prop :=
  cs_labels s' = cs_labels s /\ labels s' = labels s /\
  forall id, match messages s !! id with
             | None => messages s' !! id = None
             | Some m => exists m', messages s' !! id = Some m' /\
                           forall l, l <> mboxID -> l ∈ meta_LabelIDs m' <-> l ∈ meta_LabelIDs m
             end.

Lemma only_unlabels_refl mboxID s : only_unlabels mboxID s s.
Proof. split_and!; [done..|]. intros id. destruct (messages s !! id); naive_solver. Qed.

Lemma unlabelMessages_spec ids mboxID s s' r :
  unlabelMessages ids mboxID s = (s', r) ->
  only_unlabels mboxID s s' /\
  (r = Ok () -> forall id m, id ∈ ids -> messages s' !! id = Some m -> mboxID ∉ meta_LabelIDs m).
Proof.
  unfold unlabelMessages, client, calls. intros Hrun.
  destruct (UnlabelMessages _ _ _) as [w e] eqn:Hc.
  assert (w = (UnlabelMessages ids mboxID (cs_api s)).1 /\ e = (UnlabelMessages ids mboxID (cs_api s)).2) as [-> ->]
    by (by rewrite Hc). clear Hc.
  assert (s' = mkConnState (cs_labels s) (UnlabelMessages ids mboxID (cs_api s)).1) as ->
    by (by destruct (UnlabelMessages ids mboxID (cs_api s)).2; simplify_eq).
  split; [split_and!|]; simpl.
  - done.
  - apply unlabel_labels.
  - intros id. destruct (messages s !! id) as [m|] eqn:Hm; [by apply unlabel_only|by apply unlabel_none].
  - intros -> id m Hid Hm. eapply unlabel_ok; [|exact Hid|exact Hm].
    by destruct (UnlabelMessages ids mboxID (cs_api s)).2.
Qed.

Lemma protects_same s s' id : cs_labels s' = cs_labels s -> labels s' = labels s -> protects s' id <-> protects s id.
Proof. unfold protects. by intros -> ->. Qed.

(** Both variants: at most labels are removed, then messages may be deleted. *)
Lemma RemoveMessages_phases flag ids mboxID s s' r :
  RemoveMessagesFromMailbox flag ids mboxID s = (s', r) ->
  exists s1, only_unlabels mboxID s s1 /\
    ((s' = s1 /\ (r = Ok () -> isAllMailOrScheduled mboxID = false /\ deletable mboxID = false)) \/
     exists u, permaDelete u ids s1 = (s', r) /\ deletable mboxID = true /\
       (u = Some mboxID \/ u = None /\ forall id m, id ∈ ids -> messages s1 !! id = Some m -> mboxID ∉ meta_LabelIDs m)).
Proof.
  unfold RemoveMessagesFromMailbox, removeMessagesFromMailboxWithoutUnlabelOnFolders,
    removeMessagesFromMailboxWithUnlabelCallOnFolders.
  assert (only_unlabels mboxID s s) as Hrefl by apply only_unlabels_refl.
  destruct (isAllMailOrScheduled mboxID); [destruct flag; intros [= <- <-]; exists s; (split; [done|by left])|].
  destruct flag; intros Hrun.
  - apply eff_bind_inv in Hrun as [(e & [=] & _)|(s0 & b & [= <- <-] & Hrun)].
    apply eff_bind_inv in Hrun as [(e & He & ->)|(s1 & [] & Hb & Hrun)].
    + exists s'. split; [|by left]. destruct (isMailboxOfTypeLabel _ _); [|done].
      by apply unlabelMessages_spec in He as [? _].
    + exists s1. split.
      { destruct (isMailboxOfTypeLabel _ _); [by apply unlabelMessages_spec in Hb as [? _]|].
        by injection Hb as <-. }
      destruct (deletable mboxID); [right; eauto|left]. by injection Hrun as <- <-.
  - apply eff_bind_inv in Hrun as [(e & He & ->)|(s1 & [] & Hb & Hrun)].
    + exists s'. split; [|by left]. by apply unlabelMessages_spec in He as [? _].
    + apply unlabelMessages_spec in Hb as [Hun Hok]. exists s1. split; [done|].
      destruct (deletable mboxID); [right; exists None|left]; [split_and!; eauto|]. by injection Hrun as <- <-.
Qed.

Lemma RemoveMessages_gone flag ids mboxID s s' r id m :
  RemoveMessagesFromMailbox flag ids mboxID s = (s', r) ->
  messages s !! id = Some m -> messages s' !! id = None ->
  deletable mboxID = true /\ id ∈ ids /\ unprotected mboxID s m.
Proof.
  intros Hrun Hm Hgone. destruct (RemoveMessages_phases _ _ _ _ _ _ Hrun) as (s1 & (Hls & Hapi & Hid) & Hcase).
  specialize (Hid id). rewrite Hm in Hid. destruct Hid as (m1 & Hm1 & Hlab).
  destruct Hcase as [[-> _]|(u & Hdel & Hd & Hu)]; [congruence|].
  destruct (permaDelete_spec _ _ _ _ _ Hdel) as (_ & Hall & _).
  destruct (Hall id) as [Heq|(Hin & m1' & Hm1' & Hno)]; [congruence|].
  assert (m1' = m1) as -> by congruence. split_and!; [done..|].
  intros l Hl Hne Hp. apply (Hno l); [by apply Hlab|destruct Hu as [->|[-> _]]; congruence|].
  by apply (protects_same s s1 l Hls Hapi).
Qed.


Lemma RemoveMessages_exact flag ids mboxID s s' id m :
  RemoveMessagesFromMailbox flag ids mboxID s = (s', Ok ()) -> deletable mboxID = true ->
  id ∈ ids -> messages s !! id = Some m ->
  messages s' !! id = None <-> unprotected mboxID s m.
Proof.
  intros Hrun Hd Hin Hm. destruct (RemoveMessages_phases _ _ _ _ _ _ Hrun) as (s1 & (Hls & Hapi & Hid) & Hcase).
  specialize (Hid id). rewrite Hm in Hid. destruct Hid as (m1 & Hm1 & Hlab).
  destruct Hcase as [[-> Hok]|(u & Hdel & _ & Hu)]; [destruct (Hok eq_refl); congruence|].
  destruct (permaDelete_spec _ _ _ _ _ Hdel) as (_ & Hall & Hdone).
  assert (unprotected mboxID s m <-> forall l, l ∈ meta_LabelIDs m1 -> u <> Some l -> ~ protects s1 l) as Hequiv.
  { unfold unprotected. setoid_rewrite (protects_same s s1 _ Hls Hapi). split.
    - intros Hun l Hl Hne. destruct (decide (l = mboxID)) as [->|Hl'].
      + destruct Hu as [->|[-> Hno]]; [done|]. by destruct (Hno id m1 Hin Hm1).
      + apply Hun; [by apply Hlab|done].
    - intros Hno l Hl Hne. apply Hno; [by apply Hlab|destruct Hu as [->|[-> _]]; congruence]. }
  rewrite Hequiv. split.
  - intros Hgone. destruct (Hall id) as [Heq|(_ & m1' & Hm1' & Hno)]; [congruence|].
    assert (m1' = m1) as -> by congruence. exact Hno.
  - intros Hno. apply (Hdone eq_refl id). eauto.
Qed.

(** When removing messages from Trash or Drafts succeeds, the messages deleted for
    good are exactly those without another label that keeps them. *)
Theorem RemoveMessages_deletes flag ids mboxID s s' :
  RemoveMessagesFromMailbox flag ids mboxID s = (s', Ok ()) -> deletable mboxID = true ->
  forall id m, id ∈ ids -> messages s !! id = Some m ->
  messages s' !! id = None <-> unprotected mboxID s m.
Proof. intros Hrun Hd id m. by apply RemoveMessages_exact with flag. Qed.

(** The two variants of removing messages, between which a feature flag chooses,
    delete the same messages when both succeed. *)
Theorem RemoveMessages_variants_agree ids mboxID s s1 s2 :
  RemoveMessagesFromMailbox true ids mboxID s = (s1, Ok ()) ->
  RemoveMessagesFromMailbox false ids mboxID s = (s2, Ok ()) ->
  forall id, is_Some (messages s !! id) -> messages s1 !! id = None <-> messages s2 !! id = None.
Proof.
  intros H1 H2 id [m Hm]. destruct (deletable mboxID) eqn:Hd; [destruct (decide (id ∈ ids)) as [Hin|Hin]|].
  - rewrite (RemoveMessages_exact _ _ _ _ _ _ _ H1 Hd Hin Hm).
    by rewrite (RemoveMessages_exact _ _ _ _ _ _ _ H2 Hd Hin Hm).
  - split; intros Hgone; exfalso;
      [destruct (RemoveMessages_gone _ _ _ _ _ _ _ _ H1 Hm Hgone) as (_ & ? & _)
      |destruct (RemoveMessages_gone _ _ _ _ _ _ _ _ H2 Hm Hgone) as (_ & ? & _)]; done.
  - split; intros Hgone; exfalso;
      [destruct (RemoveMessages_gone _ _ _ _ _ _ _ _ H1 Hm Hgone) as (? & _)
      |destruct (RemoveMessages_gone _ _ _ _ _ _ _ _ H2 Hm Hgone) as (? & _)]; congruence.
Qed.

(** ** Moving messages *)

Lemma shouldExpunge_agree from to ls : shouldExpungeWith from to ls = shouldExpungeWithout from to ls.
Proof. unfold shouldExpungeWith, shouldExpungeWithout, isMailboxOfTypeLabel. by repeat case_match. Qed.

Lemma labelMessages_spec ids mboxID s s' r :
  client (LabelMessages ids mboxID) s = (s', r) ->
  cs_labels s' = cs_labels s /\ (forall id, is_Some (messages s !! id) -> is_Some (messages s' !! id)) /\
  (r = Ok () -> forall id m, id ∈ ids -> messages s' !! id = Some m -> mboxID ∈ meta_LabelIDs m).
Proof.
  unfold client, calls. intros Hrun. destruct (LabelMessages _ _ _) as [w e] eqn:Hc.
  assert (w = (LabelMessages ids mboxID (cs_api s)).1 /\ e = (LabelMessages ids mboxID (cs_api s)).2) as [-> ->]
    by (by rewrite Hc). clear Hc.
  assert (s' = mkConnState (cs_labels s) (LabelMessages ids mboxID (cs_api s)).1) as ->
    by (by destruct (LabelMessages ids mboxID (cs_api s)).2; simplify_eq).
  split_and!; simpl; [done|intros id; apply label_present|].
  intros -> id m Hid Hm. eapply label_ok; [|exact Hid|exact Hm].
  by destruct (LabelMessages ids mboxID (cs_api s)).2.
Qed.

(** Both variants: label with the destination, then unlabel the source when [unlabel]. *)
Lemma MoveMessages_phases flag ids from to s s' b :
  MoveMessages flag ids from to s = (s', Ok b) ->
  move_forbidden from to = false /\ b = shouldExpungeWithout from to (cs_labels s) /\
  exists s1, client (LabelMessages ids to) s = (s1, Ok ()) /\
    (if if flag then isMailboxOfTypeLabel from (cs_labels s) else b then unlabelMessages ids from s1 = (s', Ok ())
     else s' = s1).
Proof.
  unfold MoveMessages, moveMessagesWithoutUnlabelCallOnFolders, moveMessagesWithUnlabelCallOnFolders.
  destruct (move_forbidden from to); [by destruct flag|].
  destruct flag; intros Hrun; apply eff_bind_Ok in Hrun as (s0 & b0 & [= <- <-] & Hrun);
    apply eff_bind_Ok in Hrun as (s1 & [] & Hl%wrapping_Ok_iff & Hrun);
    destruct (labelMessages_spec _ _ _ _ _ Hl) as (Hls & _ & _).
  - apply eff_bind_Ok in Hrun as (s2 & isl & [= <- <-] & Hrun). rewrite Hls in Hrun.
    apply eff_bind_Ok in Hrun as (s3 & [] & Hu & [= -> <-]). split_and!; [done..|]. exists s1. split; [done|].
    destruct (isMailboxOfTypeLabel _ _); [by apply wrapping_Ok_iff in Hu|by injection Hu].
  - rewrite shouldExpunge_agree in Hrun.
    apply eff_bind_Ok in Hrun as (s3 & [] & Hu & [= -> <-]). split_and!; [done..|]. exists s1. split; [done|].
    destruct (shouldExpungeWithout _ _ _); [by apply wrapping_Ok_iff in Hu|by injection Hu].
Qed.

(** A successful move leaves every message in the account and in the destination; the
    source is removed from it when the old location is to be expunged, except that with
    the feature flag only a source that is a label is removed by the connector. *)
Theorem MoveMessages_moves flag ids from to s s' b :
  MoveMessages flag ids from to s = (s', Ok b) -> from <> to ->
  b = isMailboxOfTypeLabel from (cs_labels s) ||
      from_option (fun v => is_exclusive (label_Type v)) false (cs_labels s !! to) /\
  forall id, id ∈ ids -> is_Some (messages s !! id) ->
  exists m, messages s' !! id = Some m /\ to ∈ meta_LabelIDs m /\
            ((if flag then isMailboxOfTypeLabel from (cs_labels s) else b) = true -> from ∉ meta_LabelIDs m).
Proof.
  intros Hrun Hne. apply MoveMessages_phases in Hrun as (_ & Hb & s1 & Hl & Hu). split.
  { rewrite Hb. unfold shouldExpungeWithout, rw_GetLabel. by repeat (case_match; simpl). }
  intros id Hin His. apply labelMessages_spec in Hl as (_ & Hp & Hl).
  destruct (Hp id His) as [m1 Hm1]. specialize (Hl eq_refl id m1 Hin Hm1).
  destruct (if flag then _ else b); [|subst s1; exists m1; split_and!; [done..|by intros]].
  apply unlabelMessages_spec in Hu as ((_ & _ & Hid) & Hok). specialize (Hid id). rewrite Hm1 in Hid.
  destruct Hid as (m & Hm & Hlab). exists m. split_and!; [done|by apply Hlab|]. intros _. by apply (Hok eq_refl id).
Qed.

(** ** Names of mailboxes *)

(** The map holds labels as the server has them, under their identifiers. *)
Definition labels_agree (s : ConnState W) : Prop :=
  forall id l, cs_labels s !! id = Some l -> labels s !! id = Some l /\ label_ID l = id.

Lemma parent_base name : name <> [] -> parent_path name ++ [base_name name] = name.
Proof. intros Hn. symmetry. by apply app_removelast_last. Qed.

(** What [findParent] finds. *)
Lemma findParent_path name s p :
  labels_agree s -> findParent name (cs_labels s) = Ok p ->
  (if String.eqb p "" then [] else from_option label_Path [] (labels s !! p)) = parent_path name.
Proof.
  intros Hag. unfold findParent. destruct (1 <? length name)%nat eqn:Hlen.
  - destruct (find_first _ _) as [l|] eqn:Hf; [|done]. destruct (String.eqb (label_ID l) "") eqn:Hid; [done|].
    intros [= <-]. rewrite Hid. apply find_first_Some in Hf as [Hin Hp]. apply bool_decide_eq_true in Hp.
    unfold rw_GetLabels in Hin. apply elem_of_Values in Hin as [k Hk].
    destruct (Hag k l Hk) as [Hl ->]. by rewrite Hl.
  - intros [= <-]. simpl. apply Nat.ltb_ge in Hlen. by destruct name as [|? [|? ?]]; simpl in *; [..|lia].
Qed.

Lemma CreateMailbox_label name s s' mb :
  labels_agree s -> CreateMailbox name s = (s', Ok mb) ->
  exists l, cs_labels s' = <[label_ID l := l]> (cs_labels s) /\
            labels s' = <[label_ID l := l]> (labels s) /\ labels s !! label_ID l = None /\
            mb = toIMAPMailbox l defaultMailboxFlags defaultMailboxPermanentFlags [] /\
            GetMailboxName l = name /\ mb_Name mb = name.
Proof.
  intros Hag. destruct name as [|top [|n rest]]; [done..|]. unfold CreateMailbox.
  destruct (String.eqb top folderPrefix) eqn:Hf; [|destruct (String.eqb top labelPrefix) eqn:Hlp; [|done]]; boolp; subst top.
  - intros Hrun. apply eff_bind_Ok in Hrun as (s0 & p & [= <- Hp] & Hrun).
    apply eff_bind_Ok in Hrun as (s1 & l & Hc & Hrun). apply eff_bind_Ok in Hrun as (s2 & [] & [= <-] & [= <- <-]).
    unfold client_result in Hc. destruct (CreateLabel _ _) as [w r] eqn:Hcl. injection Hc as <- ->.
    apply create_ok in Hcl as (Hfresh & Hw & _ & Ht & Hpath). simpl in *.
    rewrite (findParent_path _ _ _ Hag Hp), parent_base in Hpath by done.
    exists l. unfold GetMailboxName, toIMAPMailbox. simpl. rewrite Ht, Hpath. done.
  - unfold createLabel. destruct rest; [|done]. intros Hrun.
    apply eff_bind_Ok in Hrun as (s1 & l & Hc & Hrun). apply eff_bind_Ok in Hrun as (s2 & [] & [= <-] & [= <- <-]).
    unfold client_result in Hc. destruct (CreateLabel _ _) as [w r] eqn:Hcl. injection Hc as <- ->.
    apply create_ok in Hcl as (Hfresh & Hw & _ & Ht & Hpath). simpl in *.
    exists l. unfold GetMailboxName, toIMAPMailbox. simpl. rewrite Ht, Hpath. done.
Qed.

(** A mailbox that was created has the requested name, the label map gives it the
    same name, no other label changes and the map still agrees with the server. *)
Theorem CreateMailbox_named name s s' mb :
  labels_agree s -> CreateMailbox name s = (s', Ok mb) ->
  mb_Name mb = name /\ labels_agree s' /\
  exists l, cs_labels s' !! mb_ID mb = Some l /\ GetMailboxName l = name /\
            forall id, id <> mb_ID mb -> cs_labels s' !! id = cs_labels s !! id.
Proof.
  intros Hag Hrun. destruct (CreateMailbox_label _ _ _ _ Hag Hrun) as (l & Hm & Hw & Hfresh & -> & Hn & Hn').
  split; [done|]. split.
  - intros id l'. rewrite Hm, Hw. destruct (decide (id = label_ID l)) as [->|Hne].
    + rewrite !lookup_insert_eq. naive_solver.
    + rewrite !lookup_insert_ne by done. apply Hag.
  - exists l. rewrite Hm. simpl. rewrite lookup_insert_eq. split_and!; [done..|]. intros id Hne.
    by rewrite lookup_insert_ne.
Qed.

(** A mailbox that was renamed has the new name in the label map and keeps its
    identifier; the other entries of the map stay. *)
Theorem UpdateMailboxName_named mboxID name s s' :
  labels_agree s -> UpdateMailboxName mboxID name s = (s', Ok ()) ->
  exists l, cs_labels s' = <[mboxID := l]> (cs_labels s) /\ label_ID l = mboxID /\ GetMailboxName l = name.
Proof.
  intros Hag. destruct name as [|top [|n rest]]; [done..|]. unfold UpdateMailboxName.
  destruct (String.eqb top folderPrefix) eqn:Hf; [|destruct (String.eqb top labelPrefix) eqn:Hlp; [|done]]; boolp; subst top.
  - intros Hrun. apply eff_bind_Ok in Hrun as (s0 & p & [= <- Hp] & Hrun).
    apply eff_bind_Ok in Hrun as (s0 & l & [= <- Hg] & Hrun).
    apply eff_bind_Ok in Hrun as (s1 & l' & Hc & [= <-]).
    unfold client_result in Hc. destruct (UpdateLabel _ _ _) as [w r] eqn:Hcl. injection Hc as <- ->.
    apply getlabel_ok in Hg as (Hapi & Ht & Hid). apply update_ok in Hcl as (Hid' & _ & Ht' & Hpath). simpl in *.
    rewrite (findParent_path _ _ _ Hag Hp), parent_base in Hpath by done.
    exists l'. rewrite Hid. split_and!; [done..|]. unfold GetMailboxName.
    rewrite (Ht' l Hapi), Hpath. by apply list_elem_of_singleton in Ht as ->.
  - unfold updateLabel. destruct rest; [|done]. intros Hrun.
    apply eff_bind_Ok in Hrun as (s0 & l & [= <- Hg] & Hrun).
    apply eff_bind_Ok in Hrun as (s1 & l' & Hc & [= <-]).
    unfold client_result in Hc. destruct (UpdateLabel _ _ _) as [w r] eqn:Hcl. injection Hc as <- ->.
    apply getlabel_ok in Hg as (Hapi & Ht & Hid). apply update_ok in Hcl as (Hid' & _ & Ht' & Hpath). simpl in *.
    rewrite Hid in *. exists l'. split_and!; [done..|]. unfold GetMailboxName.
    rewrite (Ht' l Hapi), Hpath. by apply list_elem_of_singleton in Ht as ->.
Qed.

End laws.

(** ** A server in memory

    An instance of the interface: labels under their identifiers, and for every
    message its labels. *)
Record Server : Type := mkServer { srv_labels : gmap string Label; srv_messages : gmap string (list string) }.

Definition with_id (id : string) (l : Label) : Label :=
  mkLabel id (label_ParentID l) (label_Name l) (label_Path l) (label_Type l).
Definition as_metadata (id : string) (ls : list string) : MessageMetadata :=
  mkMetadata id "" ls false false false false false false false.
Definition server_labels (w : Server) : gmap string Label := map_imap (fun id l => Some (with_id id l)) (srv_labels w).
Definition server_messages (w : Server) : gmap string MessageMetadata :=
  map_imap (fun id ls => Some (as_metadata id ls)) (srv_messages w).

(** The listed messages, changed by [f]. *)
Definition on_messages (ids : list string) (f : list string -> list string) (w : Server) : Server :=
  mkServer (srv_labels w) (map_imap (fun id ls => Some (if bool_decide (id ∈ ids) then f ls else ls)) (srv_messages w)).
Definition server_path (parentID name : string) (w : Server) : list string :=
  (if String.eqb parentID "" then [] else from_option label_Path [] (server_labels w !! parentID)) ++ [name].
Definition put_label (l : Label) (w : Server) : Server := mkServer (<[label_ID l := l]> (srv_labels w)) (srv_messages w).

#[global] Instance server_client : APIClient Server := {
  LabelMessages ids l w := (on_messages ids (fun ls => l :: ls) w, None);
  UnlabelMessages ids l w := (on_messages ids (filter (.≠ l)) w, None);
  DeleteMessage ids w := (mkServer (srv_labels w) (filter (fun p => p.1 ∉ ids) (srv_messages w)), None);
  MarkMessagesRead ids w := (w, None);
  MarkMessagesUnread ids w := (w, None);
  api_MarkMessagesForwarded ids w := (w, None);
  MarkMessagesUnForwarded ids w := (w, None);
  GetMessageMetadataPage p n ids w :=
    Ok (take (Z.to_nat n) (drop (Z.to_nat (p * n)) (omap (fun id => server_messages w !! id) ids)));
  GetLabel id types w :=
    match server_labels w !! id with
    | Some l => if bool_decide (label_Type l ∈ types) then Ok l else Err ErrNoSuchLabel
    | None => Err ErrNoSuchLabel
    end;
  CreateLabel req w :=
    let id := fresh (dom (srv_labels w)) in
    let l := mkLabel id (clr_ParentID req) (clr_Name req) (server_path (clr_ParentID req) (clr_Name req) w) (clr_Type req) in
    (put_label l w, Ok l);
  UpdateLabel id req w :=
    match server_labels w !! id with
    | Some l0 =>
        let l := mkLabel id (ulr_ParentID req) (ulr_Name req) (server_path (ulr_ParentID req) (ulr_Name req) w) (label_Type l0) in
        (put_label l w, Ok l)
    | None => (w, Err ErrNoSuchLabel)
    end;
  DeleteLabel id w := (mkServer (delete id (srv_labels w)) (srv_messages w), None)
}.

Lemma server_labels_lookup w id : server_labels w !! id = with_id id <$> srv_labels w !! id.
Proof. unfold server_labels. rewrite map_lookup_imap. by destruct (srv_labels w !! id). Qed.
Lemma server_messages_lookup w id : server_messages w !! id = as_metadata id <$> srv_messages w !! id.
Proof. unfold server_messages. rewrite map_lookup_imap. by destruct (srv_messages w !! id). Qed.
Lemma on_messages_lookup ids f w id :
  srv_messages (on_messages ids f w) !! id = (fun ls => if bool_decide (id ∈ ids) then f ls else ls) <$> srv_messages w !! id.
Proof. unfold on_messages. simpl. rewrite map_lookup_imap. by destruct (srv_messages w !! id). Qed.
Lemma put_label_labels l w : server_labels (put_label l w) = <[label_ID l := l]> (server_labels w).
Proof.
  apply map_eq. intros id. rewrite server_labels_lookup. simpl.
  destruct (decide (id = label_ID l)) as [->|Hne].
  - rewrite !lookup_insert_eq. simpl. f_equal. by destruct l.
  - rewrite !lookup_insert_ne by done. by rewrite server_labels_lookup.
Qed.

Lemma page_sound p n ids w ms m :
  GetMessageMetadataPage p n ids w = Ok ms -> m ∈ ms -> server_messages w !! meta_ID m = Some m /\ meta_ID m ∈ ids.
Proof.
  intros [= <-] (i & Hi & _)%elem_of_take. rewrite lookup_drop in Hi.
  apply list_elem_of_lookup_2, list_elem_of_omap in Hi as (id & Hid & Hm).
  assert (meta_ID m = id) as ->; [|done].
  rewrite server_messages_lookup in Hm. destruct (srv_messages w !! id); [|done]. by injection Hm as <-.
Qed.

Lemma page_complete n ids w ms id m :
  GetMessageMetadataPage 0 n ids w = Ok ms -> Z.of_nat (length ids) <= n ->
  id ∈ ids -> server_messages w !! id = Some m -> meta_ID m = id /\ m ∈ ms.
Proof.
  intros [= <-] Hn Hid Hm. split.
  - rewrite server_messages_lookup in Hm. destruct (srv_messages w !! id); [|done]. by injection Hm as <-.
  - simpl. rewrite drop_0, take_ge.
    + apply list_elem_of_omap. eauto.
    + assert (length (omap (fun i => server_messages w !! i) ids) <= length ids)%nat; [|lia].
      clear. induction ids as [|x ids IH]; csimpl; [lia|]. case_match; csimpl; lia.
Qed.

Lemma find_label_spec id types w r :
  GetLabel id types w = r ->
  match r with
  | Ok l => server_labels w !! id = Some l /\ label_Type l ∈ types /\ label_ID l = id
  | Err e => forall l, server_labels w !! id = Some l -> label_Type l ∉ types
  end.
Proof.
  intros <-. simpl. destruct (server_labels w !! id) as [l|] eqn:Hl; [case_bool_decide|].
  - split_and!; [done..|]. rewrite server_labels_lookup in Hl. destruct (srv_labels w !! id); [|done]. by injection Hl as <-.
  - by intros l' [= <-].
  - done.
Qed.

(** The messages after a change of the listed ones. *)
Lemma changed_lookup ids f w id :
  server_messages (on_messages ids f w) !! id =
  (fun ls => as_metadata id (if bool_decide (id ∈ ids) then f ls else ls)) <$> srv_messages w !! id.
Proof. rewrite server_messages_lookup, on_messages_lookup. by destruct (srv_messages w !! id). Qed.

Lemma remaining_lookup ids w id :
  server_messages (DeleteMessage ids w).1 !! id = if bool_decide (id ∈ ids) then None else server_messages w !! id.
Proof.
  rewrite !server_messages_lookup. simpl. rewrite map_lookup_filter.
  destruct (srv_messages w !! id); simpl; [|by case_bool_decide].
  case_bool_decide; [by rewrite option_guard_False by tauto|by rewrite option_guard_True].
Qed.

#[global] Instance server_laws : APILaws Server.
Proof.
  refine {| api_messages := server_messages; api_labels := server_labels; metadata_sound := page_sound;
            metadata_complete := page_complete |}; intros *.
  - done.
  - intros H. change ((UnlabelMessages ids l w).1) with (on_messages ids (filter (.≠ l)) w). rewrite changed_lookup.
    rewrite server_messages_lookup in H. by destruct (srv_messages w !! id).
  - change ((UnlabelMessages ids l w).1) with (on_messages ids (filter (.≠ l)) w). rewrite changed_lookup, server_messages_lookup.
    destruct (srv_messages w !! id) as [ls|]; [|done]. intros [= <-]. eexists. split; [done|].
    intros l' Hne. simpl. case_bool_decide; [|done]. rewrite list_elem_of_filter. naive_solver.
  - intros _ Hid. change ((UnlabelMessages ids l w).1) with (on_messages ids (filter (.≠ l)) w). rewrite changed_lookup.
    rewrite bool_decide_eq_true_2 by done. destruct (srv_messages w !! id) as [ls|]; [|done].
    intros [= <-]. simpl. rewrite list_elem_of_filter. naive_solver.
  - change ((LabelMessages ids l w).1) with (on_messages ids (fun ls => l :: ls) w). rewrite changed_lookup, server_messages_lookup.
    destruct (srv_messages w !! id); simpl; [eauto|by intros [? ?]].
  - intros _ Hid. change ((LabelMessages ids l w).1) with (on_messages ids (fun ls => l :: ls) w). rewrite changed_lookup.
    rewrite bool_decide_eq_true_2 by done. destruct (srv_messages w !! id) as [ls|]; [|done].
    intros [= <-]. simpl. left.
  - intros Hid. by rewrite remaining_lookup, bool_decide_eq_false_2.
  - intros _ Hid. by rewrite remaining_lookup, bool_decide_eq_true_2.
  - intros Hg. exact (find_label_spec id types w _ Hg).
  - intros Hg _. by apply (find_label_spec id types w _ Hg).
  - intros Hc. cbn -[fresh] in Hc. injection Hc as <- <-. cbn -[fresh server_labels put_label]. split_and!; [|apply put_label_labels|done..].
    rewrite server_labels_lookup. destruct (srv_labels w !! fresh (dom (srv_labels w))) eqn:Hl; [|done].
    exfalso. apply (is_fresh (dom (srv_labels w))). apply elem_of_dom. eauto.
  - intros Hu. cbn -[server_labels put_label server_path] in Hu. destruct (server_labels w !! id) as [l0|] eqn:Hl; [|done].
    injection Hu as <- <-. split_and!; [done..| |done]. intros l1 Hl1. by injection Hl1 as ->.
Defined.

Fixpoint pieces {T} (fuel n : nat) (l : list T) : list (list T) :=
  match fuel, l with
  | S fuel, _ :: _ => take n l :: pieces fuel n (drop n l)
  | _, _ => []
  end.

Lemma pieces_join {T} fuel n (l : list T) : (0 < n)%nat -> (length l <= fuel)%nat -> mjoin (pieces fuel n l) = l.
Proof.
  intros Hn. revert l. induction fuel as [|fuel IH]; intros [|x l] Hl; simpl in *; [done|lia|done|].
  destruct n as [|n]; [lia|]. change (take (S n) (x :: l) ++ mjoin (pieces fuel (S n) (drop (S n) (x :: l))) = x :: l).
  rewrite IH; [apply take_drop|]. rewrite length_drop. simpl. lia.
Qed.

Lemma pieces_length {T} fuel n (l c : list T) : c ∈ pieces fuel n l -> (length c <= n)%nat.
Proof.
  revert l. induction fuel as [|fuel IH]; intros [|x l]; simpl; [by intros ?%elem_of_nil..|].
  rewrite elem_of_cons. intros [->|Hc]; [rewrite length_take; lia|eauto].
Qed.

#[global] Instance pieces_slices : XSlices := { xslices_Chunk T l n := pieces (length l) (Z.to_nat n) l }.
#[global] Instance pieces_laws : XSlicesLaws.
Proof.
  constructor; intros; simpl.
  - apply pieces_join; lia.
  - match goal with Hc : _ ∈ _ |- _ => apply pieces_length in Hc end. lia.
Qed.

(** *** Examples *)

Definition ex_label (id name : string) (t : LabelType) : Label := mkLabel id "" name [name] t.
Definition ex_server : Server :=
  mkServer (list_to_map ((fun l => (label_ID l, l)) <$>
              [ex_label "3" "Trash" LabelTypeSystem; ex_label "5" "All Mail" LabelTypeSystem;
               ex_label "f" "Work" LabelTypeFolder; ex_label "t" "Tag" LabelTypeLabel]))
    {["m1" := ["3"; "5"]; "m2" := ["3"; "5"; "f"]; "m3" := ["3"; "5"; "t"]]}.
(** The connector does not know the label "t" yet. *)
Definition ex_state : ConnState Server := mkConnState (delete "t" (server_labels ex_server)) ex_server.
Definition ex_range : MapRange := canonical_range.


Lemma RemoveMessages_deletes_witness :
  exists s', RemoveMessagesFromMailbox true ["m1"; "m2"] "3" ex_state = (s', Ok ()) /\
  (api_messages (cs_api s') !! "m2" = None <-> unprotected "3" ex_state (as_metadata "m2" ["3"; "5"; "f"])).
Proof.
  exists (RemoveMessagesFromMailbox true ["m1"; "m2"] "3" ex_state).1.
  assert (RemoveMessagesFromMailbox true ["m1"; "m2"] "3" ex_state =
          ((RemoveMessagesFromMailbox true ["m1"; "m2"] "3" ex_state).1, Ok ())) as Hrun by (vm_compute; reflexivity).
  split; [exact Hrun|].
  apply (RemoveMessages_deletes _ _ _ _ _ Hrun); [reflexivity|right; left|vm_compute; reflexivity].
Defined.

Lemma RemoveMessages_variants_agree_witness :
  exists s1 s2, RemoveMessagesFromMailbox true ["m1"; "m2"] "3" ex_state = (s1, Ok ()) /\
  RemoveMessagesFromMailbox false ["m1"; "m2"] "3" ex_state = (s2, Ok ()) /\
  (api_messages (cs_api s1) !! "m1" = None <-> api_messages (cs_api s2) !! "m1" = None).
Proof.
  exists (RemoveMessagesFromMailbox true ["m1"; "m2"] "3" ex_state).1, (RemoveMessagesFromMailbox false ["m1"; "m2"] "3" ex_state).1.
  assert (RemoveMessagesFromMailbox true ["m1"; "m2"] "3" ex_state =
          ((RemoveMessagesFromMailbox true ["m1"; "m2"] "3" ex_state).1, Ok ())) as H1 by (vm_compute; reflexivity).
  assert (RemoveMessagesFromMailbox false ["m1"; "m2"] "3" ex_state =
          ((RemoveMessagesFromMailbox false ["m1"; "m2"] "3" ex_state).1, Ok ())) as H2 by (vm_compute; reflexivity).
  split_and!; [exact H1|exact H2|].
  apply (RemoveMessages_variants_agree _ _ _ _ _ H1 H2). eexists. vm_compute. reflexivity.
Defined.

(** The label "t" is of a type the connector does not ask for, so the message that
    carries it is deleted for good although it is still visible under the label. *)
Lemma unknown_label_deleted :
  api_labels (cs_api ex_state) !! "t" = Some (ex_label "t" "Tag" LabelTypeLabel) /\
  WantLabel (ex_label "t" "Tag" LabelTypeLabel) = true /\
  api_messages (cs_api ex_state) !! "m3" = Some (as_metadata "m3" ["3"; "5"; "t"]) /\
  api_messages (cs_api (RemoveMessagesFromMailbox false ["m3"] "3" ex_state).1) !! "m3" = None.
Proof. vm_compute. done. Qed.

Lemma MoveMessages_moves_witness :
  exists s', MoveMessages false ["m1"] "3" "f" ex_state = (s', Ok true) /\
  exists m, api_messages (cs_api s') !! "m1" = Some m /\ "f" ∈ meta_LabelIDs m /\ "3" ∉ meta_LabelIDs m.
Proof.
  exists (MoveMessages false ["m1"] "3" "f" ex_state).1.
  assert (MoveMessages false ["m1"] "3" "f" ex_state = ((MoveMessages false ["m1"] "3" "f" ex_state).1, Ok true)) as Hrun
    by (vm_compute; reflexivity).
  split; [exact Hrun|].
  destruct (MoveMessages_moves _ _ _ _ _ _ _ Hrun) as [_ Hall]; [done|].
  destruct (Hall "m1") as (m & Hm & Hf & H3); [left|eexists; vm_compute; reflexivity|].
  exists m. split_and!; [exact Hm|exact Hf|by apply H3].
Defined.

Lemma ex_agree : labels_agree ex_state.
Proof.
  intros id l. change (cs_labels ex_state) with (delete "t" (server_labels ex_server)).
  change (api_labels (cs_api ex_state)) with (server_labels ex_server). rewrite lookup_delete_Some. intros [_ Hl].
  split; [exact Hl|]. rewrite server_labels_lookup in Hl. destruct (srv_labels ex_server !! id); [|done]. by injection Hl as <-.
Qed.

Lemma CreateMailbox_named_witness :
  exists s' mb, CreateMailbox (MR := ex_range) ["Folders"; "Work"; "2024"] ex_state = (s', Ok mb) /\
  mb_Name mb = ["Folders"; "Work"; "2024"].
Proof.
  destruct (CreateMailbox (MR := ex_range) ["Folders"; "Work"; "2024"] ex_state) as [s' r] eqn:Hrun.
  assert (is_ok (CreateMailbox (MR := ex_range) ["Folders"; "Work"; "2024"] ex_state).2 = true) as Hok
    by (vm_compute; reflexivity).
  rewrite Hrun in Hok. destruct r as [mb|]; [|done]. exists s', mb. split; [done|].
  apply (CreateMailbox_named (MR := ex_range) _ _ _ _ ex_agree Hrun).
Defined.

Lemma UpdateMailboxName_named_witness :
  exists s' l, UpdateMailboxName (MR := ex_range) "f" ["Folders"; "Play"] ex_state = (s', Ok ()) /\
  cs_labels s' !! "f" = Some l /\ GetMailboxName l = ["Folders"; "Play"].
Proof.
  exists (UpdateMailboxName (MR := ex_range) "f" ["Folders"; "Play"] ex_state).1.
  assert (UpdateMailboxName (MR := ex_range) "f" ["Folders"; "Play"] ex_state =
          ((UpdateMailboxName (MR := ex_range) "f" ["Folders"; "Play"] ex_state).1, Ok ())) as Hrun by (vm_compute; reflexivity).
  destruct (UpdateMailboxName_named (MR := ex_range) _ _ _ _ ex_agree Hrun) as (l & Hl & _ & Hn).
  exists l. split_and!; [exact Hrun| |exact Hn]. rewrite Hl. apply lookup_insert_eq.
Defined.
