(* ===== verification/ConnectorImport.v ===== *)
(** * The IMAP connector: new messages and start-up (internal/services/imapservice:
      connector.go, utils.go, helpers.go)

    A message that an IMAP client appends to a mailbox is imported, stored as a draft,
    or, when it was just sent over SMTP, replaced by the message on the server.  The
    address whose key encrypts it is chosen from the sender.  At start-up the connector
    repairs the names of mailboxes that lost their prefix.  Parsing and building of
    messages, the hash of the send recorder and the outcome of waiting for it are
    arguments; dates are left out. *)

From S2P Require Import Prelude.
From S2P Require Import Strings.
From S2P Require Import Api.
From S2P Require Import Effects.
From S2P Require Import UserEvents.
From S2P Require Import UserIdentity.
From S2P Require Import ImapUpdates.
From S2P Require Import LabelEvents.
From S2P Require Import Connector.

(** ** Addresses without alias *)

Definition stripPlusAlias (a : string) : string :=
  match Index plus_sign a, Index at_sign a with
  | Some iPlus, Some iAt =>
      if (iPlus <=? 0)%nat || (iAt <=? 0)%nat || (iAt <=? iPlus)%nat then a
      else str_take iPlus a +:+ str_drop iAt a
  | _, _ => a
  end.

Definition equalAddresses (a b : string) : bool := EqualFold (stripPlusAlias a) (stripPlusAlias b).

(** ** The address of an import *)

(** The header of a parsed message and the address parser. *)
Class MailHeader (Header : Type) : Type := {
  header_Len : Header -> nat;
  header_Get : Header -> string -> string;
  ParseAddressList : string -> result err (list string)
}.

Definition errNoSenderAddressMatch : err := ErrOther "no matching sender found in address list".

Section address.
Context {Header : Type} `{MailHeader Header}.

(** [root] is the header of [p.Root()], if there is one. *)
Definition getSenderProtonAddress (root : option Header) (i : State) : result err Address :=
  match root with
  | None => Err (ErrOther "invalid message encountered while trying to extract sender address")
  | Some h =>
      if (header_Len h =? 0)%nat then Err (ErrOther "invalid message encountered while trying to extract sender address")
      else
        let addrField := header_Get h "From" in
        let addrField := if String.eqb addrField "" then header_Get h "Sender" else addrField in
        if String.eqb addrField "" then Err (ErrOther "no sender found in message headers")
        else
          match ParseAddressList addrField with
          | Err e => Err (ErrWrap "invalid sender address in message" e)
          | Ok [] => Err (ErrOther "invalid sender address in message")
          | Ok (addrStr :: _) =>
              match find_first (fun a => equalAddresses (addr_Email a) addrStr) (AddressesSorted i) with
              | None => Err errNoSenderAddressMatch
              | Some a => Ok a
              end
          end
  end.

Definition is_external (a : Address) : bool := bool_decide (addr_Type a = AddressTypeExternal).

Definition getImportAddress (root : option Header) (isDraft : bool) (id : string) (mode : AddressMode) (i : State)
    : result err Address :=
  match GetAddrByID id i with
  | None => Err (ErrOther "could not find account address")
  | Some address =>
      address ←
        (if is_external address && negb (addr_Send address) then
           match state_GetPrimaryAddr i with
           | Err _ => Err (ErrOther "could not get primary account address")
           | Ok primary => Ok primary
           end
         else Ok address);
      if negb (bool_decide (mode = AddressModeCombined)) then Ok address
      else
        match getSenderProtonAddress root i with
        | Err _ => Ok address
        | Ok senderAddr =>
            if String.eqb (addr_ID senderAddr) (addr_ID address) then Ok address
            else
              let isSenderAddressDisabled := negb (addr_Send senderAddr) || negb (enabled (addr_Status senderAddr)) in
              let isSenderExternalNonBYOE := is_external senderAddr && negb (addr_Send senderAddr) in
              if isSenderExternalNonBYOE || (isDraft && isSenderAddressDisabled) then Ok address
              else Ok senderAddr
        end
  end.

End address.

(** ** Creating messages *)

Inductive MessageFlag : Type := MessageFlagReceived | MessageFlagSent | MessageFlagReplied.
#[global] Instance MessageFlag_eq_dec : EqDecision MessageFlag.
Proof. solve_decision. Defined.

(** [full_Payload] is the encrypted body with the data of the attachments. *)
Record FullMessage : Type := mkFullMessage { full_Metadata : MessageMetadata; full_Payload : string }.
Definition zeroFull : FullMessage :=
  mkFullMessage (mkMetadata "" "" [] false false false false false false false) "".

Record ImportReq : Type := mkImportReq {
  ir_AddressID : string; ir_LabelIDs : list string; ir_Unread : bool; ir_Flags : list MessageFlag; ir_Message : string
}.
Record DraftReq : Type := mkDraftReq {
  dr_Subject : string; dr_Body : string; dr_MIMEType : string; dr_SenderName : string; dr_SenderAddress : string;
  dr_ToList : list string; dr_CCList : list string; dr_BCCList : list string; dr_ExternalID : string
}.
Inductive AttDisposition : Type := AttachmentDisposition | InlineDisposition.
Record AttachmentReq : Type := mkAttachmentReq {
  ar_MessageID : string; ar_Filename : string; ar_MIMEType : string; ar_Disposition : AttDisposition;
  ar_ContentID : string; ar_Body : string
}.

(** The parts of [message.Message] the draft is made of. *)
Record ParsedAttachment : Type := mkParsedAttachment {
  pa_Name : string; pa_MIMEType : string; pa_Disposition : string; pa_ContentID : string; pa_Data : string
}.
Record ParsedMessage : Type := mkParsedMessage {
  pm_Subject : string; pm_PlainBody : string; pm_RichBody : string; pm_MIMEType : string;
  pm_ToList : list string; pm_CCList : list string; pm_BCCList : list string; pm_ExternalID : string;
  pm_Attachments : list ParsedAttachment
}.

(** [ImportMessages] includes the collection of the stream of answers. *)
Class ImportClient (W KeyRing : Type) : Type := {
  GetFullMessage : string -> W -> result err FullMessage;
  ImportMessages : KeyRing -> ImportReq -> W -> W * result err (list string);
  CreateDraft : KeyRing -> DraftReq -> W -> W * result err string;
  UploadAttachment : KeyRing -> AttachmentReq -> W -> W * option err
}.

(** The libraries that read and write messages. *)
Class MessageLib (Header Parser KeyRing : Type) : Type := {
  rfc822_NewHeader : string -> result err Header;
  rfc822_GetChecked : Header -> string -> option string;
  rfc822_ParseHeader : string -> result err Header;
  rfc822_Has : Header -> string -> bool;
  parser_New : string -> result err Parser;
  parser_Root : Parser -> option Header;
  AttachEmptyTextPartIfNoneExists : Parser -> Parser * bool;
  parser_Write : Parser -> result err string;
  ParseWithParser : Parser -> result err ParsedMessage;
  DecryptAndBuildRFC822 : KeyRing -> FullMessage -> result err string;
  FirstKey : KeyRing -> result err KeyRing;
  Unlock : list string -> list Z -> option KeyRing -> result err KeyRing;
  GetMessageHash : string -> result err string
}.

(** [imap.Message], without its date. *)
Record IMAPMessage : Type := mkIMAPMessage { im_ID : string; im_Flags : list flag }.
Definition toIMAPMessage (m : MessageMetadata) : IMAPMessage := mkIMAPMessage (meta_ID m) (BuildFlagSetFromMessageMetadata m).

Definition ErrImportSizeExceeded : err := ErrOther "import size exceeded".
Definition ErrMessageSizeExceedsLimits : err := ErrOther "message size exceeds limits".

Definition flags_Contain (flags : list flag) (f : flag) : bool := bool_decide (f ∈ flags).

(** The identity with its key password, and [identityState.WithAddrKR] around a closure
    that assigns the captured variable [A], initially [zero]. *)
Definition withAddrKR {St KeyRing A} (Unlock : list string -> list Z -> option KeyRing -> result err KeyRing) (zero : A)
    (i : State) (keyPass : list Z) (addrID : string) (fn : KeyRing -> eff St err A) : eff St err A :=
  fun s =>
    let body := fun (_ addrKR : KeyRing) (t : St * A) =>
                  match fn addrKR t.1 with
                  | (s', Ok a) => ((s', a), None)
                  | (s', Err e) => ((s', t.2), Some e)
                  end in
    match state_WithAddrKR Unlock addrID keyPass body i (s, zero) with
    | ((s', a), None) => (s', Ok a)
    | ((s', _), Some e) => (s', Err e)
    end.

Section create.
Context {W Header Parser KeyRing : Type} `{IC : ImportClient W KeyRing} `{MH : MailHeader Header}
        `{ML : MessageLib Header Parser KeyRing}.

Notation M := (eff (ConnState W) err).

(** The addresses of one header field, if it is there. *)
Definition parseAddress (header : Header) (field : string) : result err (list string) :=
  match rfc822_GetChecked header field with
  | None => Ok []
  | Some fieldAddr =>
      match ParseAddressList fieldAddr with
      | Err e => Err (ErrWrap "failed to parse addresses" e)
      | Ok addrs => Ok addrs
      end
  end.

Definition getLiteralToList (literal : string) : result err (list string) :=
  header ← rfc822_NewHeader literal;
  to ← parseAddress header "To";
  cc ← parseAddress header "Cc";
  bcc ← parseAddress header "Bcc";
  Ok (to ++ cc ++ bcc).

Definition disposition_of (att : ParsedAttachment) : AttDisposition :=
  if String.eqb (pa_Disposition att) "inline" && negb (String.eqb (pa_ContentID att) "") then InlineDisposition
  else AttachmentDisposition.

Definition createDraftWithParser (p : Parser) (addrKR : KeyRing) (sender : Address) : M string :=
  message ← wrapping (ErrWrap "failed to parse message") (reads (fun _ => ParseWithParser p));
  let decBody := if negb (String.eqb (pm_RichBody message) "") then pm_RichBody message else pm_PlainBody message in
  draft ← wrapping (ErrWrap "failed to create draft") (client_result (CreateDraft addrKR
            (mkDraftReq (pm_Subject message) decBody (pm_MIMEType message) (addr_DisplayName sender) (addr_Email sender)
               (pm_ToList message) (pm_CCList message) (pm_BCCList message) (pm_ExternalID message))));
  for_each (pm_Attachments message) (fun att =>
    wrapping (ErrWrap "failed to add attachment to draft") (client (UploadAttachment addrKR
      (mkAttachmentReq draft (pa_Name att) (pa_MIMEType att) (disposition_of att) (pa_ContentID att) (pa_Data att)))))
  ≫= fun _ => mret draft.

(** The closure of [importMessage].  [None] stands for the panic of indexing the
    empty answer of the API. *)
Definition import_body (p : Parser) (literal : string) (labelIDs : list string) (flags : list MessageFlag)
    (unread isDraft : bool) (addr : Address) (addrKR : KeyRing) : M (option (FullMessage * string)) :=
  primaryKey ← wrapping (ErrWrap "failed to get primary key for import") (reads (fun _ => FirstKey addrKR));
  messageID ←
    (if isDraft : bool then
       id ← wrapping (ErrWrap "failed to create draft") (createDraftWithParser p primaryKey addr); mret (Some id)
     else
       let '(p, attached) := AttachEmptyTextPartIfNoneExists p in
       literal ← (if attached : bool
                  then wrapping (ErrWrap "failed build new MIMEBody") (reads (fun _ => parser_Write p))
                  else mret literal);
       res ← wrapping (ErrWrap "failed to prepare message for import")
               (client_result (ImportMessages primaryKey (mkImportReq (addr_ID addr) labelIDs unread flags literal)));
       mret (head res));
  match messageID with
  | None => mret None
  | Some messageID =>
      full ← wrapping (ErrWrap "failed to fetch message") (reads (fun s => GetFullMessage messageID (cs_api s)));
      built ← wrapping (ErrWrap "failed to build message") (reads (fun _ => DecryptAndBuildRFC822 primaryKey full));
      mret (Some (full, built))
  end.

Definition importMessage (c : Connector) (i : State) (keyPass : list Z) (literal : string) (labelIDs : list string)
    (flags : list MessageFlag) (unread : bool) : M (option (IMAPMessage * string)) :=
  p ← wrapping (ErrWrap "failed to parse literal") (reads (fun _ => parser_New literal));
  let isDraft := Contains labelIDs DraftsLabel in
  addr ← reads (fun _ => getImportAddress (parser_Root p) isDraft (cn_addrID c) (cn_addressMode c) i);
  r ← withAddrKR Unlock (Some (zeroFull, literal)) i keyPass (addr_ID addr)
        (import_body p literal labelIDs flags unread isDraft addr);
  mret ((fun '(full, built) => (toIMAPMessage (full_Metadata full), built)) <$> r).

(** The flags of an import into a mailbox other than Drafts. *)
Definition direction_flag (mailboxID : string) (header : Header) : MessageFlag :=
  if String.eqb mailboxID InboxLabel then MessageFlagReceived
  else if String.eqb mailboxID SentLabel then MessageFlagSent
  else if rfc822_Has header "Received" then MessageFlagReceived
  else MessageFlagSent.

(** [HasEntryWait hash toList] is the outcome of waiting for a message that is being
    sent: the identifier of a message sent recently, if there is one. *)
Definition CreateMessage (c : Connector) (i : State) (keyPass : list Z)
    (HasEntryWait : string -> list string -> result err (option string))
    (mailboxID : string) (literal : string) (flags : list flag) : M (option (IMAPMessage * string)) :=
  if String.eqb mailboxID AllMailLabel then fails ErrOperationNotAllowed
  else
    toList ← wrapping (ErrWrap "failed to retrieve addresses from literal") (reads (fun _ => getLiteralToList literal));
    hash ← reads (fun _ => GetMessageHash literal);
    sent ← wrapping (ErrWrap "failed to check send hash") (reads (fun _ => HasEntryWait hash toList));
    match sent with
    | Some messageID =>
        full ← wrapping (ErrWrap "failed to fetch message") (reads (fun s => GetFullMessage messageID (cs_api s)));
        literal ← wrapping (ErrWrap "failed to build message")
                    (withAddrKR Unlock literal i keyPass (meta_AddressID (full_Metadata full))
                       (fun addrKR => reads (fun _ => DecryptAndBuildRFC822 addrKR full)));
        mret (Some (toIMAPMessage (full_Metadata full), literal))
    | None =>
        let wantLabelIDs := mailboxID :: (if flags_Contain flags FlagFlagged then [StarredLabel] else []) in
        direction ← (if negb (String.eqb mailboxID DraftsLabel) then
                       header ← reads (fun _ => rfc822_ParseHeader literal);
                       mret [direction_flag mailboxID header]
                     else mret []);
        let unread := if String.eqb mailboxID DraftsLabel then false else negb (flags_Contain flags FlagSeen) in
        let wantFlags := direction ++ (if flags_Contain flags FlagAnswered then [MessageFlagReplied] else []) in
        wrapping (fun e => if Is ErrImportSizeExceeded e then ErrWrap "import size exceeded" ErrMessageSizeExceedsLimits else e)
          (importMessage c i keyPass literal wantLabelIDs wantFlags unread)
    end.

End create.

(** ** Start-up *)

(** The tables of the IMAP server during [Init]. *)
Class IMAPStateWrite (C : Type) : Type := {
  GetMailboxesWithoutAttrib : C -> result err (list (string * list string));
  PatchMailboxHierarchyWithoutTransforms : string -> list string -> C -> C * option err;
  AddFlagsToAllMailboxes : list flag -> C -> C * option err;
  AddPermFlagsToAllMailboxes : list flag -> C -> C * option err
}.

Section start.
Context {C : Type} `{IMAPStateWrite C}.

(** The prefix that belongs to a label. *)
Definition wanted_prefix (l : Label) : option string :=
  match label_Type l with
  | LabelTypeFolder => Some folderPrefix
  | LabelTypeLabel => Some labelPrefix
  | _ => None
  end.

(** [None] is the panic of [mbox.Name[0]] on an empty name. *)
Fixpoint fixGODT3003Labels (mboxes : list (string * list string)) (rd : labelMap) (applied : bool) (write : C)
    : option (C * result err bool) :=
  match mboxes with
  | [] => Some (write, Ok applied)
  | (id, name) :: rest =>
      match rw_GetLabel id rd ≫= wanted_prefix with
      | None => fixGODT3003Labels rest rd applied write
      | Some prefix =>
          top ← head name;
          if String.eqb top prefix then fixGODT3003Labels rest rd applied write
          else
            match PatchMailboxHierarchyWithoutTransforms id (prefix :: name) write with
            | (write, Some e) => Some (write, Err (ErrWrap "failed to update mailbox name" e))
            | (write, None) => fixGODT3003Labels rest rd true write
            end
      end
  end.

(** [clear] is [ClearSyncStatus] on the sync state [T]. *)
Definition connector_Init {T} (clear : T -> T * option err) (rd : labelMap) (write : C) (t : T)
    : option (C * T * option err) :=
  match GetMailboxesWithoutAttrib write with
  | Err e => Some (write, t, Some e)
  | Ok mboxes =>
      r ← fixGODT3003Labels mboxes rd false write;
      match r with
      | (write, Err e) => Some (write, t, Some e)
      | (write, Ok applied) =>
          let '(t, e) := if applied : bool then clear t else (t, None) in
          match e with
          | Some e => Some (write, t, Some e)
          | None =>
              match AddFlagsToAllMailboxes [ForwardFlagList] write with
              | (write, Some e) => Some (write, t, Some (ErrWrap "failed to add flag to all mailboxes" e))
              | (write, None) =>
                  match AddPermFlagsToAllMailboxes [ForwardFlagList] write with
                  | (write, Some e) => Some (write, t, Some (ErrWrap "failed to add permanent flag to all mailboxes" e))
                  | (write, None) => Some (write, t, None)
                  end
              end
          end
      end
  end.

End start.

(** ** Aliases *)

(** The two functions that drop the alias of an address, one for logins and one for
    senders, agree on every address with one at sign whose local part does not
    begin with a plus sign. *)
Theorem stripPlusAlias_SanitizeEmail user domain :
  Index at_sign user = None -> Index at_sign domain = None -> Index plus_sign user <> Some 0%nat ->
  let email := user +:+ String at_sign domain in
  stripPlusAlias email = SanitizeEmail email.
Proof.
  intros Hu Hd Hp email. unfold stripPlusAlias, SanitizeEmail, email.
  rewrite Split_app_sep, Split_no_sep, hd_Split by done.
  rewrite (Index_app_None at_sign) by done. cbn [Index]. rewrite Ascii.eqb_refl. cbn [fmap option_fmap option_map].
  destruct (Index plus_sign user) as [[|n]|] eqn:Hplus; [done|..].
  - rewrite (Index_app_Some _ _ _ _ Hplus). pose proof (Index_lt _ _ _ Hplus) as Hlt.
    rewrite Nat.add_0_r, (proj2 (Nat.leb_gt (S n) 0)), (proj2 (Nat.leb_gt (String.length user) 0)),
      (proj2 (Nat.leb_gt (String.length user) (S n))) by lia. cbn [orb].
    rewrite str_take_app, str_drop_app by lia. done.
  - rewrite Index_app_None by done.
    destruct (Index plus_sign (String at_sign domain)) as [k|]; cbn [fmap option_fmap option_map]; [|done].
    rewrite (proj2 (Nat.leb_le (String.length user + 0) (String.length user + k))) by lia. by rewrite orb_true_r.
Qed.

Lemma stripPlusAlias_SanitizeEmail_witness :
  stripPlusAlias "bridge+shop@pm.me" = "bridge@pm.me" /\
  stripPlusAlias "bridge+shop@pm.me" = SanitizeEmail "bridge+shop@pm.me".
Proof. split; [reflexivity|]. apply (stripPlusAlias_SanitizeEmail "bridge+shop" "pm.me"); done. Defined.

(** An address whose local part is only an alias: the login loses it, the sender keeps it. *)
Lemma leading_plus_differs : stripPlusAlias "+shop@pm.me" = "+shop@pm.me" /\ SanitizeEmail "+shop@pm.me" = "@pm.me".
Proof. done. Qed.

(** ** The address of an import *)

Section address_laws.
Context {Header : Type} `{MailHeader Header}.

(** The address of the connector, or the primary one when it is external and cannot
    send. *)
Definition default_address (id : string) (i : State) (a : Address) : Prop :=
  exists own, GetAddrByID id i = Some own /\
    if is_external own && negb (addr_Send own) then state_GetPrimaryAddr i = Ok a else a = own.

Lemma getSenderProtonAddress_Ok root i a :
  getSenderProtonAddress root i = Ok a ->
  a ∈ AddressesSorted i /\
  exists h field from rest, root = Some h /\ field <> "" /\
    (header_Get h "From" = field \/ header_Get h "From" = "" /\ header_Get h "Sender" = field) /\
    ParseAddressList field = Ok (from :: rest) /\ equalAddresses (addr_Email a) from = true.
Proof.
  unfold getSenderProtonAddress. destruct root as [h|]; [|done]. destruct (_ =? 0)%nat; [done|].
  set (field := if String.eqb (header_Get h "From") "" then header_Get h "Sender" else header_Get h "From").
  destruct (String.eqb field "") eqn:Hf; [done|].
  destruct (ParseAddressList field) as [[|from rest]|e] eqn:Hp; [done| |done].
  destruct (find_first _ _) as [a'|] eqn:Ha; [|done]. intros [= ->]. apply find_first_Some in Ha as [Hin Heq].
  split; [done|]. exists h, field, from, rest. boolp. split_and!; [done..| |done|done].
  unfold field. destruct (String.eqb (header_Get h "From") "") eqn:He; [right|left]; boolp; done.
Qed.

(** The address of an import is the default one, or, in combined mode, an address of
    the account that matches the sender of the message, never an external one that
    cannot send, and for a draft one that is enabled and can send.  The choice fails only
    when there is no default address: an unreadable or unknown sender never prevents an
    import. *)
Theorem getImportAddress_choice root isDraft id mode i :
  match getImportAddress root isDraft id mode i with
  | Ok a =>
      default_address id i a \/
      mode = AddressModeCombined /\ getSenderProtonAddress root i = Ok a /\ a ∈ AddressesSorted i /\
      (is_external a = true -> addr_Send a = true) /\
      (isDraft = true -> addr_Send a = true /\ enabled (addr_Status a) = true)
  | Err _ => forall a, ~ default_address id i a
  end.
Proof.
  unfold getImportAddress, default_address. destruct (GetAddrByID id i) as [own|]; [|by intros a (? & ? & _)].
  set (choice := if is_external own && negb (addr_Send own) then _ else _).
  assert (match choice with
          | Ok d => if is_external own && negb (addr_Send own) then state_GetPrimaryAddr i = Ok d else d = own
          | Err _ => forall a, ~ exists own', Some own = Some own' /\
                       if is_external own' && negb (addr_Send own') then state_GetPrimaryAddr i = Ok a else a = own'
          end) as Hc.
  { unfold choice. destruct (is_external own && negb (addr_Send own)) eqn:Hext; [|done].
    destruct (state_GetPrimaryAddr i) eqn:Hp; [done|]. intros a (own' & [= <-] & Ha). rewrite Hext in Ha. congruence. }
  destruct choice as [d|e]; cbn [mbind result_bind]; [|exact Hc].
  assert (exists own', Some own = Some own' /\
            if is_external own' && negb (addr_Send own') then state_GetPrimaryAddr i = Ok d else d = own') as Hd by eauto.
  destruct (bool_decide _) eqn:Hm; simpl; [|by left].
  destruct (getSenderProtonAddress root i) as [sa|] eqn:Hs; [|by left].
  destruct (String.eqb _ _); [by left|].
  destruct (_ || _) eqn:Hbad; [by left|right]. apply orb_false_iff in Hbad as [H1 H2]. boolp.
  split_and!; [done|done|by apply getSenderProtonAddress_Ok in Hs as [? _]|..].
  - intros Hx. rewrite Hx in H1. by destruct (addr_Send sa).
  - intros ->. simpl in H2. apply orb_false_iff in H2 as [? ?]. boolp. done.
Qed.

End address_laws.

(** ** Creating messages *)

Section keyring.
Context {St KeyRing : Type} (Unlock : list string -> list Z -> option KeyRing -> result err KeyRing).

(** The identity's closure runs at most once, and nothing else changes the state. *)
Lemma withAddrKR_leaves (R : St -> St -> Prop) `{!Reflexive R} {A} (zero : A) i keyPass addrID
    (fn : KeyRing -> eff St err A) :
  (forall kr, leaves R (fn kr)) -> leaves R (withAddrKR Unlock zero i keyPass addrID fn).
Proof.
  intros Hfn s. unfold withAddrKR, state_WithAddrKR, WithAddrKR.
  destruct (Addresses i !! addrID); [|simpl; reflexivity].
  destruct (Unlock (user_Keys _) _ _); [|simpl; reflexivity].
  destruct (Unlock (addr_Keys _) _ _) as [kr|]; [|simpl; reflexivity]. cbn [fst].
  specialize (Hfn kr s). by destruct (fn kr s) as [s' [?|?]].
Qed.

Lemma withAddrKR_Ok {A} (zero : A) i keyPass addrID (fn : KeyRing -> eff St err A) s s' a :
  withAddrKR Unlock zero i keyPass addrID fn s = (s', Ok a) -> exists kr, fn kr s = (s', Ok a).
Proof.
  unfold withAddrKR, state_WithAddrKR, WithAddrKR.
  destruct (Addresses i !! addrID); [|done].
  destruct (Unlock (user_Keys _) _ _); [|done]. destruct (Unlock (addr_Keys _) _ _) as [kr|]; [|done].
  cbn [fst]. destruct (fn kr s) as [s1 [x|e]] eqn:Hf; [|done]. intros [= <- <-]. eauto.
Qed.

End keyring.

Section create_laws.
Context {W Header Parser KeyRing : Type} `{IC : ImportClient W KeyRing} `{MH : MailHeader Header}
        `{ML : MessageLib Header Parser KeyRing}.

(** A message that the account is sending or has just sent is not imported a second
    time: nothing changes on the server, and the client is given the message that is
    there already. *)
Theorem CreateMessage_sent c i keyPass HasEntryWait mailboxID literal flags s s' r id :
  CreateMessage c i keyPass HasEntryWait mailboxID literal flags s = (s', r) ->
  (forall hash toList, HasEntryWait hash toList = Ok (Some id)) ->
  s' = s /\
  forall v, r = Ok v ->
  exists full kr built, GetFullMessage id (cs_api s) = Ok full /\ DecryptAndBuildRFC822 kr full = Ok built /\
    v = Some (toIMAPMessage (full_Metadata full), built).
Proof.
  intros Hrun Hsent. unfold CreateMessage in Hrun. destruct (String.eqb mailboxID AllMailLabel).
  { injection Hrun as <- <-. split; [done|]. by intros v [=]. }
  unfold wrapping, reads, mbind, eff_bind in Hrun.
  destruct (getLiteralToList literal) as [toList|]; [|by injection Hrun as <- <-].
  destruct (GetMessageHash literal) as [hash|]; [|by injection Hrun as <- <-].
  rewrite Hsent in Hrun.
  destruct (GetFullMessage id (cs_api s)) as [full|] eqn:Hfull; [|by injection Hrun as <- <-].
  set (call := withAddrKR _ _ _ _ _ _) in Hrun.
  assert (leaves eq call) as Hk.
  { apply withAddrKR_leaves; [apply _|]. intros kr. apply leaves_reads. apply _. }
  specialize (Hk s). destruct (call s) as [s1 [built|e]] eqn:Hc; simpl in Hk; subst s1; injection Hrun as <- <-.
  - split; [done|]. intros v [= <-]. apply withAddrKR_Ok in Hc as (kr & [= Hb]).
    exists full, kr, built. done.
  - split; [done|]. by intros v [=].
Qed.

End create_laws.

(** ** Start-up *)

(** The tables list the mailboxes once each; patching one changes its name only. *)
Class IMAPStateWriteLaws (C : Type) `{IMAPStateWrite C} : Prop := {
  mailboxes_nodup w l : GetMailboxesWithoutAttrib w = Ok l -> NoDup l.*1;
  patch_ok id name w w' l :
    PatchMailboxHierarchyWithoutTransforms id name w = (w', None) -> GetMailboxesWithoutAttrib w = Ok l ->
    GetMailboxesWithoutAttrib w' = Ok ((fun p => if bool_decide (p.1 = id) then (id, name) else p) <$> l)
}.

Section start_laws.
Context {C : Type} `{IMAPStateWriteLaws C}.

(** A folder or label has the prefix of its kind. *)
Definition prefix_ok (rd : labelMap) (p : string * list string) : Prop :=
  forall prefix, rw_GetLabel p.1 rd ≫= wanted_prefix = Some prefix -> head p.2 = Some prefix.

Lemma patch_middle (before after : list (string * list string)) id name name' :
  NoDup ((before ++ (id, name) :: after).*1) ->
  (fun p => if bool_decide (p.1 = id) then (id, name') else p) <$> before ++ (id, name) :: after =
  before ++ (id, name') :: after.
Proof.
  rewrite !fmap_app. intros (_ & Hb & Ha)%NoDup_app. simpl in *. apply NoDup_cons in Ha as [Ha _].
  assert (forall l : list (string * list string), id ∉ l.*1 ->
            (fun p => if bool_decide (p.1 = id) then (id, name') else p) <$> l = l) as Hid.
  { intros l Hl. rewrite <- (list_fmap_id l) at 2. apply list_fmap_ext. intros k p Hp%list_elem_of_lookup_2.
    rewrite bool_decide_eq_false_2; [done|]. intros <-. apply Hl. by apply list_elem_of_fmap_2. }
  rewrite bool_decide_eq_true_2 by done. f_equal; [apply Hid|f_equal; by apply Hid].
  intros Hin. apply (Hb id Hin). left.
Qed.

Lemma fix_loop before rest rd applied w w' b :
  GetMailboxesWithoutAttrib w = Ok (before ++ rest) -> Forall (prefix_ok rd) before ->
  fixGODT3003Labels rest rd applied w = Some (w', Ok b) ->
  exists l, GetMailboxesWithoutAttrib w' = Ok l /\ Forall (prefix_ok rd) l /\ l.*1 = (before ++ rest).*1 /\
            (b = false -> l = before ++ rest) /\
            ((forall p, p ∈ before ++ rest -> p.2 <> []) -> forall p, p ∈ l -> p.2 <> []).
Proof.
  revert before applied w. induction rest as [|[id name] rest IH]; intros before applied w Hget Hok Hrun; simpl in Hrun.
  { injection Hrun as <- <-. exists (before ++ []). rewrite app_nil_r in *. done. }
  assert (forall name', prefix_ok rd (id, name') -> Forall (prefix_ok rd) (before ++ [(id, name')])) as Hsnoc.
  { intros name' Hn. apply Forall_app. split; [done|]. by apply Forall_singleton. }
  assert (before ++ (id, name) :: rest = (before ++ [(id, name)]) ++ rest) as Happ by (by rewrite <- app_assoc).
  destruct (rw_GetLabel id rd ≫= wanted_prefix) as [prefix|] eqn:Hp; cbn in Hrun.
  2:{ rewrite Happ in *. eapply IH; [exact Hget| |exact Hrun]. apply Hsnoc. intros q Hq. cbn [fst] in Hq. by rewrite Hp in Hq. }
  destruct name as [|top name]; [done|]. cbn in Hrun. destruct (String.eqb top prefix) eqn:Ht; boolp.
  { subst top. rewrite Happ in *. eapply IH; [exact Hget| |exact Hrun]. apply Hsnoc. intros q Hq. cbn [fst] in Hq. by rewrite Hp in Hq. }
  destruct (PatchMailboxHierarchyWithoutTransforms _ _ _) as [w1 [e|]] eqn:Hpatch; [done|].
  pose proof (patch_ok _ _ _ _ _ Hpatch Hget) as Hget'.
  rewrite patch_middle in Hget' by (by eapply mailboxes_nodup).
  assert (forall l : list (string * list string), before ++ (id, prefix :: top :: name) :: l =
            (before ++ [(id, prefix :: top :: name)]) ++ l) as Happ' by (intros; by rewrite <- app_assoc).
  assert (prefix_ok rd (id, prefix :: top :: name)) as Hnew by (intros q Hq; cbn [fst] in Hq; by rewrite Hp in Hq).
  rewrite Happ' in Hget'. destruct (IH _ _ _ Hget' (Hsnoc _ Hnew) Hrun) as (l & Hl & Hf & Hids & _ & Hne).
  exists l. split_and!; [done..| | |].
  - rewrite Hids, Happ, !fmap_app. done.
  - intros ->. exfalso. clear -Hrun. revert Hrun. generalize w1. induction rest as [|[i n] rest IH]; intros w2 Hrun; simpl in Hrun; [done|].
    destruct (rw_GetLabel i rd ≫= wanted_prefix); cbn in Hrun; [|by eapply IH]. destruct n as [|t n]; [done|]. cbn in Hrun.
    destruct (String.eqb _ _); [by eapply IH|].
    destruct (PatchMailboxHierarchyWithoutTransforms _ _ _) as [w3 [e|]]; [done|by eapply IH].
  - intros Hall. apply Hne. intros p. rewrite <- app_assoc. simpl. rewrite elem_of_app, elem_of_cons.
    intros [Hq|[->|Hq]]; [apply Hall; set_solver|done|apply Hall; set_solver].
Qed.

Lemma fix_repaired l rd applied w :
  Forall (prefix_ok rd) l -> (forall p, p ∈ l -> p.2 <> []) -> fixGODT3003Labels l rd applied w = Some (w, Ok applied).
Proof.
  induction l as [|[id name] l IH]; intros Hok Hne; simpl; [done|]. apply Forall_cons in Hok as [Hp Hok].
  specialize (IH Hok (fun p Hin => Hne p (list_elem_of_further _ _ _ Hin))).
  destruct (rw_GetLabel id rd ≫= wanted_prefix) as [prefix|] eqn:Hpre; cbn; [|exact IH].
  specialize (Hp prefix Hpre). cbn in Hp. destruct name as [|top name]; [done|]. injection Hp as ->. cbn.
  by rewrite String.eqb_refl.
Qed.

(** The repair of mailbox names at start-up leaves every folder and label under the
    prefix of its kind, reports a change exactly when it made one, and a second run finds
    nothing to do. *)
Theorem fixGODT3003Labels_repairs l rd w w' b :
  GetMailboxesWithoutAttrib w = Ok l -> (forall p, p ∈ l -> p.2 <> []) ->
  fixGODT3003Labels l rd false w = Some (w', Ok b) ->
  exists l', GetMailboxesWithoutAttrib w' = Ok l' /\ l'.*1 = l.*1 /\ Forall (prefix_ok rd) l' /\
             (b = false <-> Forall (prefix_ok rd) l) /\
             fixGODT3003Labels l' rd false w' = Some (w', Ok false).
Proof.
  intros Hget Hne Hrun. destruct (fix_loop [] l rd false w w' b Hget (Forall_nil_2 _) Hrun) as (l' & Hget' & Hok & Hids & Hb & Hne').
  exists l'. split_and!; [done..| |].
  - split; [intros Hf; rewrite (Hb Hf) in Hok; exact Hok|].
    intros Hall. rewrite (fix_repaired _ _ _ _ Hall Hne) in Hrun. by injection Hrun as _ <-.
  - apply fix_repaired; [done|]. by apply Hne'.
Qed.

End start_laws.

(** ** Examples *)

(** Tables as a list of mailboxes. *)
Definition table_boxes (w : list (string * list string)) : list (string * list string) :=
  if decide (NoDup w.*1) then w else [].
Definition table_patch (id : string) (name : list string) (w : list (string * list string)) :=
  (fun p : string * list string => if bool_decide (p.1 = id) then (id, name) else p) <$> w.

#[global] Instance table_state : IMAPStateWrite (list (string * list string)) := {
  GetMailboxesWithoutAttrib w := Ok (table_boxes w);
  PatchMailboxHierarchyWithoutTransforms id name w := (table_patch id name w, None);
  AddFlagsToAllMailboxes _ w := (w, None);
  AddPermFlagsToAllMailboxes _ w := (w, None)
}.

Lemma table_patch_ids id name w : (table_patch id name w).*1 = w.*1.
Proof.
  unfold table_patch. induction w as [|[i n] w IH]; csimpl; [done|]. rewrite IH. f_equal.
  case_bool_decide; simpl; done.
Qed.

#[global] Instance table_laws : IMAPStateWriteLaws (list (string * list string)).
Proof.
  constructor.
  - intros w l [= <-]. unfold table_boxes. destruct (decide _); [done|constructor].
  - intros id name w w' l [= <-] [= <-]. simpl. unfold table_boxes. rewrite table_patch_ids.
    by destruct (decide _).
Qed.

Definition ex_tables : list (string * list string) := [("f", ["Work"]); ("0", ["INBOX"]); ("t", ["Labels"; "Tag"])].

Lemma fixGODT3003Labels_repairs_witness :
  exists w' l', fixGODT3003Labels ex_tables (server_labels ex_server) false ex_tables = Some (w', Ok true) /\
  GetMailboxesWithoutAttrib w' = Ok l' /\ Forall (prefix_ok (server_labels ex_server)) l'.
Proof.
  exists [("f", ["Folders"; "Work"]); ("0", ["INBOX"]); ("t", ["Labels"; "Tag"])].
  assert (fixGODT3003Labels ex_tables (server_labels ex_server) false ex_tables =
          Some ([("f", ["Folders"; "Work"]); ("0", ["INBOX"]); ("t", ["Labels"; "Tag"])], Ok true)) as Hrun
    by (vm_compute; reflexivity).
  destruct (fixGODT3003Labels_repairs ex_tables (server_labels ex_server) ex_tables
    [("f", ["Folders"; "Work"]); ("0", ["INBOX"]); ("t", ["Labels"; "Tag"])] true) as (l' & Hl & _ & Hok & _);
    [vm_compute; reflexivity| |exact Hrun|].
  - intros p Hp. by repeat (apply elem_of_cons in Hp as [->|Hp]; [done|]); apply elem_of_nil in Hp.
  - exists l'. split_and!; [exact Hrun|exact Hl|exact Hok].
Defined.

(** Messages that are their own text. *)
#[global] Instance plain_client : ImportClient Server () := {
  GetFullMessage id w :=
    match srv_messages w !! id with
    | Some ls => Ok (mkFullMessage (mkMetadata id "a" ls false false false false false false false) "text")
    | None => Err (ErrAPI 422)
    end;
  ImportMessages _ req w := (w, Ok [""]);
  CreateDraft _ _ w := (w, Ok "");
  UploadAttachment _ _ w := (w, None)
}.
#[global] Instance plain_header : MailHeader string := {
  header_Len h := String.length h; header_Get h _ := h; ParseAddressList s := Ok [s]
}.
#[global] Instance plain_lib : MessageLib string string () := {
  rfc822_NewHeader s := Ok s; rfc822_GetChecked h _ := Some h; rfc822_ParseHeader s := Ok s; rfc822_Has _ _ := false;
  parser_New s := Ok s; parser_Root s := Some s; AttachEmptyTextPartIfNoneExists s := (s, false);
  parser_Write s := Ok s; ParseWithParser _ := Err (ErrOther "no draft");
  DecryptAndBuildRFC822 _ full := Ok (full_Payload full); FirstKey k := Ok k; Unlock _ _ _ := Ok (); GetMessageHash s := Ok s
}.

Definition ex_append : ConnState Server * result err (option (IMAPMessage * string)) :=
  CreateMessage (NewConnector "a" AddressModeCombined false) ex_identity [] (fun _ _ => Ok (Some "m1")) "7" "mail" []
    ex_state.

Lemma CreateMessage_sent_witness : ex_append = (ex_state, Ok (Some (mkIMAPMessage "m1" [], "text"))) /\ ex_append.1 = ex_state.
Proof.
  destruct ex_append as [s' r] eqn:Hrun. unfold ex_append in Hrun.
  destruct (CreateMessage_sent _ _ _ _ _ _ _ _ _ _ "m1" Hrun) as [-> _]; [by intros|].
  split; [|reflexivity]. rewrite <- Hrun. vm_compute. reflexivity.
Defined.
