(* ===== verification/Ports.v ===== *)
(** * Free ports (pkg/ports/ports.go)

    The servers listen on a port near their default.  The search goes up, wraps around
    once, and gives up with the port it began from. *)

From S2P Require Import Prelude.

Definition maxPortNumber : Z := 65535.

(** What listening tells: [occupied true] on every interface, [occupied false] on
    localhost. *)
Section ports.
Context (occupied : bool -> Z -> bool).

Definition IsPortFree (port : Z) : bool :=
  if (port <=? 0) || (maxPortNumber <=? port) then false
  else if occupied false port then false
  else negb (occupied true port).

Definition usable (exclude : list Z) (port : Z) : bool := negb (existsb (Z.eqb port) exclude) && IsPortFree port.

Fixpoint find_port (fuel : nat) (exclude : list Z) (startPort freePort : Z) (loopedOnce : bool) : option Z :=
  match fuel with
  | O => None
  | S fuel =>
      if usable exclude freePort then Some freePort
      else
        let freePort := i64 (freePort + 1) in
        if maxPortNumber <=? freePort then
          if loopedOnce then Some startPort else find_port fuel exclude startPort 1 true
        else find_port fuel exclude startPort freePort loopedOnce
  end.

(** Enough for both rounds. *)
Definition port_fuel (startPort : Z) : nat := Z.to_nat (Z.max 0 (maxPortNumber - startPort) + maxPortNumber + 1).

Definition FindFreePortFrom (startPort : Z) (exclude : list Z) : option Z :=
  find_port (port_fuel startPort) exclude startPort startPort false.

(** ** The search *)

Lemma usable_range exclude p : usable exclude p = true -> 1 <= p < maxPortNumber.
Proof. unfold usable, IsPortFree. intros H. boolp. repeat case_match; boolp; try done; lia. Qed.

(** The second round. *)
Lemma find_port_second fuel exclude startPort p :
  1 <= p < maxPortNumber -> (Z.to_nat (maxPortNumber - p) <= fuel)%nat ->
  (exists q, find_port fuel exclude startPort p true = Some q /\ usable exclude q = true) \/
  (find_port fuel exclude startPort p true = Some startPort /\ forall q, p <= q < maxPortNumber -> usable exclude q = false).
Proof.
  revert p. induction fuel as [|fuel IH]; intros p Hp Hf; [unfold maxPortNumber in *; lia|]. simpl.
  destruct (usable exclude p) eqn:Hu; [left; by exists p|].
  rewrite i64_id by (unfold i64_ok, maxPortNumber in *; lia).
  destruct (Z.leb_spec maxPortNumber (p + 1)).
  - right. split; [done|]. intros q Hq. by replace q with p by (unfold maxPortNumber in *; lia).
  - destruct (IH (p + 1)) as [?|[Hr Hall]]; [lia|lia|by left|right]. split; [done|].
    intros q Hq. destruct (decide (q = p)) as [->|]; [done|]. apply Hall. lia.
Qed.

Lemma find_port_first fuel exclude startPort p :
  - 2 ^ 63 <= p <= maxPortNumber -> (Z.to_nat (Z.max 0 (maxPortNumber - p) + maxPortNumber + 1) <= fuel)%nat ->
  (exists q, find_port fuel exclude startPort p false = Some q /\ usable exclude q = true) \/
  (find_port fuel exclude startPort p false = Some startPort /\ forall q, 1 <= q < maxPortNumber -> usable exclude q = false).
Proof.
  revert p. induction fuel as [|fuel IH]; intros p Hp Hf; [unfold maxPortNumber in *; lia|]. simpl.
  destruct (usable exclude p) eqn:Hu; [left; by exists p|].
  rewrite i64_id by (unfold i64_ok, maxPortNumber in *; lia).
  destruct (Z.leb_spec maxPortNumber (p + 1)).
  - apply find_port_second; unfold maxPortNumber in *; lia.
  - apply IH; unfold maxPortNumber in *; lia.
Qed.

(** The search ends: with a port that is free and not excluded, or, when there is none at
    all, with the port it began from. *)
Theorem FindFreePortFrom_ends startPort exclude :
  - 2 ^ 63 <= startPort <= maxPortNumber ->
  (exists p, FindFreePortFrom startPort exclude = Some p /\ p ∉ exclude /\ IsPortFree p = true) \/
  (FindFreePortFrom startPort exclude = Some startPort /\
   forall p, 1 <= p < maxPortNumber -> p ∈ exclude \/ IsPortFree p = false).
Proof.
  intros Hs. assert (Hex : forall p, existsb (Z.eqb p) exclude = true <-> p ∈ exclude).
  { intros p. rewrite existsb_exists. split.
    - intros (x & Hx & ->%Z.eqb_eq). by apply list_elem_of_In.
    - intros Hp. exists p. split; [by apply list_elem_of_In|apply Z.eqb_refl]. }
  destruct (find_port_first (port_fuel startPort) exclude startPort startPort Hs) as [(p & Hp & Hu)|[Hr Hall]]; [done|left|right].
  - exists p. split; [done|]. unfold usable in Hu. boolp. split; [|done].
    intros Hin%Hex. by rewrite Hin in *.
  - split; [done|]. intros p Hp. specialize (Hall p Hp). unfold usable in Hall.
    destruct (existsb (Z.eqb p) exclude) eqn:He; [left; by apply Hex|by right].
Qed.

End ports.

Lemma FindFreePortFrom_ends_witness :
  FindFreePortFrom (fun public p => public && (p =? 1025)) 1025 [1026] = Some 1027 /\
  exists p, FindFreePortFrom (fun public p => public && (p =? 1025)) 1025 [1026] = Some p /\ p ∉ [1026].
Proof.
  split; [vm_compute; reflexivity|].
  destruct (FindFreePortFrom_ends (fun public p => public && (p =? 1025)) 1025 [1026]) as [(p & Hp & Hn & _)|[Hr Hall]].
  - unfold maxPortNumber. lia.
  - exists p. split; [exact Hp|exact Hn].
  - exfalso. destruct (Hall 1027) as [Hin|Hf]; [unfold maxPortNumber; lia| |discriminate Hf].
    apply list_elem_of_singleton in Hin. discriminate Hin.
Defined.
