(* ===== verification/Vault.v ===== *)
(** * The vault (internal/vault)

    The bridge keeps its settings and its users in one encrypted file.  A vault holds the
    encrypted bytes in memory; every reading decrypts them, and every change decrypts,
    edits, encrypts and replaces the file by way of a temporary one.  Users are handed
    out as handles that are counted, so that a user in use is not deleted.

    The serialisation and the encryption are the class [VaultCodec]; the random
    sources, the system and the disk answer through [venv].  Floating-point numbers are
    rationals, instants are numbers. *)

From Stdlib Require Import QArith Qabs.
From S2P Require Import Prelude.
From S2P Require Import Effects.
From S2P Require Import Ports.
From S2P Require UserIdentity.

Abbreviation bytes := (list Z).

(** ** The data *)

(** [Archive] and the maps of a user are [None] when they are nil. *)
Record Settings : Type := mkSettings {
  GluonDir : string; IMAPPort : Z; SMTPPort : Z; IMAPSSL : bool; SMTPSSL : bool; UpdateChannel : string;
  UpdateRollout : Q; ColorScheme : string; ProxyAllowed : bool; ShowAllMail : bool; Autostart : bool;
  AutoUpdate : bool; TelemetryDisabled : bool; LastVersion : string; FirstStart : bool;
  MaxSyncMemory : Z; LastUserAgent : string; LastHeartbeatSent : Z; Archive : option (gmap string bytes);
  SyncWorkers : Z; SyncAttPool : Z
}.

Definition with_GluonDir (v : string) (s : Settings) : Settings :=
  mkSettings v (IMAPPort s) (SMTPPort s) (IMAPSSL s) (SMTPSSL s) (UpdateChannel s) (UpdateRollout s)
    (ColorScheme s) (ProxyAllowed s) (ShowAllMail s) (Autostart s) (AutoUpdate s) (TelemetryDisabled s)
    (LastVersion s) (FirstStart s) (MaxSyncMemory s) (LastUserAgent s) (LastHeartbeatSent s) (Archive s)
    (SyncWorkers s) (SyncAttPool s).
Definition with_IMAPPort (v : Z) (s : Settings) : Settings :=
  mkSettings (GluonDir s) v (SMTPPort s) (IMAPSSL s) (SMTPSSL s) (UpdateChannel s) (UpdateRollout s)
    (ColorScheme s) (ProxyAllowed s) (ShowAllMail s) (Autostart s) (AutoUpdate s) (TelemetryDisabled s)
    (LastVersion s) (FirstStart s) (MaxSyncMemory s) (LastUserAgent s) (LastHeartbeatSent s) (Archive s)
    (SyncWorkers s) (SyncAttPool s).
Definition with_SMTPPort (v : Z) (s : Settings) : Settings :=
  mkSettings (GluonDir s) (IMAPPort s) v (IMAPSSL s) (SMTPSSL s) (UpdateChannel s) (UpdateRollout s)
    (ColorScheme s) (ProxyAllowed s) (ShowAllMail s) (Autostart s) (AutoUpdate s) (TelemetryDisabled s)
    (LastVersion s) (FirstStart s) (MaxSyncMemory s) (LastUserAgent s) (LastHeartbeatSent s) (Archive s)
    (SyncWorkers s) (SyncAttPool s).
Definition with_IMAPSSL (v : bool) (s : Settings) : Settings :=
  mkSettings (GluonDir s) (IMAPPort s) (SMTPPort s) v (SMTPSSL s) (UpdateChannel s) (UpdateRollout s)
    (ColorScheme s) (ProxyAllowed s) (ShowAllMail s) (Autostart s) (AutoUpdate s) (TelemetryDisabled s)
    (LastVersion s) (FirstStart s) (MaxSyncMemory s) (LastUserAgent s) (LastHeartbeatSent s) (Archive s)
    (SyncWorkers s) (SyncAttPool s).
Definition with_SMTPSSL (v : bool) (s : Settings) : Settings :=
  mkSettings (GluonDir s) (IMAPPort s) (SMTPPort s) (IMAPSSL s) v (UpdateChannel s) (UpdateRollout s)
    (ColorScheme s) (ProxyAllowed s) (ShowAllMail s) (Autostart s) (AutoUpdate s) (TelemetryDisabled s)
    (LastVersion s) (FirstStart s) (MaxSyncMemory s) (LastUserAgent s) (LastHeartbeatSent s) (Archive s)
    (SyncWorkers s) (SyncAttPool s).
Definition with_UpdateChannel (v : string) (s : Settings) : Settings :=
  mkSettings (GluonDir s) (IMAPPort s) (SMTPPort s) (IMAPSSL s) (SMTPSSL s) v (UpdateRollout s) (ColorScheme s)
    (ProxyAllowed s) (ShowAllMail s) (Autostart s) (AutoUpdate s) (TelemetryDisabled s) (LastVersion s)
    (FirstStart s) (MaxSyncMemory s) (LastUserAgent s) (LastHeartbeatSent s) (Archive s) (SyncWorkers s)
    (SyncAttPool s).
Definition with_UpdateRollout (v : Q) (s : Settings) : Settings :=
  mkSettings (GluonDir s) (IMAPPort s) (SMTPPort s) (IMAPSSL s) (SMTPSSL s) (UpdateChannel s) v (ColorScheme s)
    (ProxyAllowed s) (ShowAllMail s) (Autostart s) (AutoUpdate s) (TelemetryDisabled s) (LastVersion s)
    (FirstStart s) (MaxSyncMemory s) (LastUserAgent s) (LastHeartbeatSent s) (Archive s) (SyncWorkers s)
    (SyncAttPool s).
Definition with_ColorScheme (v : string) (s : Settings) : Settings :=
  mkSettings (GluonDir s) (IMAPPort s) (SMTPPort s) (IMAPSSL s) (SMTPSSL s) (UpdateChannel s) (UpdateRollout s)
    v (ProxyAllowed s) (ShowAllMail s) (Autostart s) (AutoUpdate s) (TelemetryDisabled s) (LastVersion s)
    (FirstStart s) (MaxSyncMemory s) (LastUserAgent s) (LastHeartbeatSent s) (Archive s) (SyncWorkers s)
    (SyncAttPool s).
Definition with_ProxyAllowed (v : bool) (s : Settings) : Settings :=
  mkSettings (GluonDir s) (IMAPPort s) (SMTPPort s) (IMAPSSL s) (SMTPSSL s) (UpdateChannel s) (UpdateRollout s)
    (ColorScheme s) v (ShowAllMail s) (Autostart s) (AutoUpdate s) (TelemetryDisabled s) (LastVersion s)
    (FirstStart s) (MaxSyncMemory s) (LastUserAgent s) (LastHeartbeatSent s) (Archive s) (SyncWorkers s)
    (SyncAttPool s).
Definition with_ShowAllMail (v : bool) (s : Settings) : Settings :=
  mkSettings (GluonDir s) (IMAPPort s) (SMTPPort s) (IMAPSSL s) (SMTPSSL s) (UpdateChannel s) (UpdateRollout s)
    (ColorScheme s) (ProxyAllowed s) v (Autostart s) (AutoUpdate s) (TelemetryDisabled s) (LastVersion s)
    (FirstStart s) (MaxSyncMemory s) (LastUserAgent s) (LastHeartbeatSent s) (Archive s) (SyncWorkers s)
    (SyncAttPool s).
Definition with_Autostart (v : bool) (s : Settings) : Settings :=
  mkSettings (GluonDir s) (IMAPPort s) (SMTPPort s) (IMAPSSL s) (SMTPSSL s) (UpdateChannel s) (UpdateRollout s)
    (ColorScheme s) (ProxyAllowed s) (ShowAllMail s) v (AutoUpdate s) (TelemetryDisabled s) (LastVersion s)
    (FirstStart s) (MaxSyncMemory s) (LastUserAgent s) (LastHeartbeatSent s) (Archive s) (SyncWorkers s)
    (SyncAttPool s).
Definition with_AutoUpdate (v : bool) (s : Settings) : Settings :=
  mkSettings (GluonDir s) (IMAPPort s) (SMTPPort s) (IMAPSSL s) (SMTPSSL s) (UpdateChannel s) (UpdateRollout s)
    (ColorScheme s) (ProxyAllowed s) (ShowAllMail s) (Autostart s) v (TelemetryDisabled s) (LastVersion s)
    (FirstStart s) (MaxSyncMemory s) (LastUserAgent s) (LastHeartbeatSent s) (Archive s) (SyncWorkers s)
    (SyncAttPool s).
Definition with_TelemetryDisabled (v : bool) (s : Settings) : Settings :=
  mkSettings (GluonDir s) (IMAPPort s) (SMTPPort s) (IMAPSSL s) (SMTPSSL s) (UpdateChannel s) (UpdateRollout s)
    (ColorScheme s) (ProxyAllowed s) (ShowAllMail s) (Autostart s) (AutoUpdate s) v (LastVersion s)
    (FirstStart s) (MaxSyncMemory s) (LastUserAgent s) (LastHeartbeatSent s) (Archive s) (SyncWorkers s)
    (SyncAttPool s).
Definition with_LastVersion (v : string) (s : Settings) : Settings :=
  mkSettings (GluonDir s) (IMAPPort s) (SMTPPort s) (IMAPSSL s) (SMTPSSL s) (UpdateChannel s) (UpdateRollout s)
    (ColorScheme s) (ProxyAllowed s) (ShowAllMail s) (Autostart s) (AutoUpdate s) (TelemetryDisabled s) v
    (FirstStart s) (MaxSyncMemory s) (LastUserAgent s) (LastHeartbeatSent s) (Archive s) (SyncWorkers s)
    (SyncAttPool s).
Definition with_FirstStart (v : bool) (s : Settings) : Settings :=
  mkSettings (GluonDir s) (IMAPPort s) (SMTPPort s) (IMAPSSL s) (SMTPSSL s) (UpdateChannel s) (UpdateRollout s)
    (ColorScheme s) (ProxyAllowed s) (ShowAllMail s) (Autostart s) (AutoUpdate s) (TelemetryDisabled s)
    (LastVersion s) v (MaxSyncMemory s) (LastUserAgent s) (LastHeartbeatSent s) (Archive s) (SyncWorkers s)
    (SyncAttPool s).
Definition with_MaxSyncMemory (v : Z) (s : Settings) : Settings :=
  mkSettings (GluonDir s) (IMAPPort s) (SMTPPort s) (IMAPSSL s) (SMTPSSL s) (UpdateChannel s) (UpdateRollout s)
    (ColorScheme s) (ProxyAllowed s) (ShowAllMail s) (Autostart s) (AutoUpdate s) (TelemetryDisabled s)
    (LastVersion s) (FirstStart s) v (LastUserAgent s) (LastHeartbeatSent s) (Archive s) (SyncWorkers s)
    (SyncAttPool s).
Definition with_LastUserAgent (v : string) (s : Settings) : Settings :=
  mkSettings (GluonDir s) (IMAPPort s) (SMTPPort s) (IMAPSSL s) (SMTPSSL s) (UpdateChannel s) (UpdateRollout s)
    (ColorScheme s) (ProxyAllowed s) (ShowAllMail s) (Autostart s) (AutoUpdate s) (TelemetryDisabled s)
    (LastVersion s) (FirstStart s) (MaxSyncMemory s) v (LastHeartbeatSent s) (Archive s) (SyncWorkers s)
    (SyncAttPool s).
Definition with_LastHeartbeatSent (v : Z) (s : Settings) : Settings :=
  mkSettings (GluonDir s) (IMAPPort s) (SMTPPort s) (IMAPSSL s) (SMTPSSL s) (UpdateChannel s) (UpdateRollout s)
    (ColorScheme s) (ProxyAllowed s) (ShowAllMail s) (Autostart s) (AutoUpdate s) (TelemetryDisabled s)
    (LastVersion s) (FirstStart s) (MaxSyncMemory s) (LastUserAgent s) v (Archive s) (SyncWorkers s)
    (SyncAttPool s).
Definition with_Archive (v : option (gmap string bytes)) (s : Settings) : Settings :=
  mkSettings (GluonDir s) (IMAPPort s) (SMTPPort s) (IMAPSSL s) (SMTPSSL s) (UpdateChannel s) (UpdateRollout s)
    (ColorScheme s) (ProxyAllowed s) (ShowAllMail s) (Autostart s) (AutoUpdate s) (TelemetryDisabled s)
    (LastVersion s) (FirstStart s) (MaxSyncMemory s) (LastUserAgent s) (LastHeartbeatSent s) v (SyncWorkers s)
    (SyncAttPool s).

Record VaultSyncStatus : Type := mkVaultSyncStatus {
  vs_HasLabels : bool; vs_HasMessages : bool; vs_LastMessageID : string; vs_FailedMessageIDs : list string
}.

Definition zeroSyncStatus : VaultSyncStatus := mkVaultSyncStatus false false "" [].
Definition vs_IsComplete (status : VaultSyncStatus) : bool := vs_HasLabels status && vs_HasMessages status.

Record UserData : Type := mkUserData {
  ud_UserID : string; ud_Username : string; ud_PrimaryEmail : string; ud_GluonKey : bytes;
  ud_GluonIDs : option (gmap string string); ud_BridgePass : bytes; ud_AddressMode : UserIdentity.VaultMode;
  ud_AuthUID : string; ud_AuthRef : string; ud_KeyPass : bytes; ud_SyncStatus : VaultSyncStatus;
  ud_EventID : string; ud_UIDValidity : option (gmap string Z); ud_ShouldResync : bool
}.

Definition with_ud_Username (v : string) (u : UserData) : UserData :=
  mkUserData (ud_UserID u) v (ud_PrimaryEmail u) (ud_GluonKey u) (ud_GluonIDs u) (ud_BridgePass u)
    (ud_AddressMode u) (ud_AuthUID u) (ud_AuthRef u) (ud_KeyPass u) (ud_SyncStatus u) (ud_EventID u)
    (ud_UIDValidity u) (ud_ShouldResync u).
Definition with_ud_PrimaryEmail (v : string) (u : UserData) : UserData :=
  mkUserData (ud_UserID u) (ud_Username u) v (ud_GluonKey u) (ud_GluonIDs u) (ud_BridgePass u)
    (ud_AddressMode u) (ud_AuthUID u) (ud_AuthRef u) (ud_KeyPass u) (ud_SyncStatus u) (ud_EventID u)
    (ud_UIDValidity u) (ud_ShouldResync u).
Definition with_ud_GluonIDs (v : option (gmap string string)) (u : UserData) : UserData :=
  mkUserData (ud_UserID u) (ud_Username u) (ud_PrimaryEmail u) (ud_GluonKey u) v (ud_BridgePass u)
    (ud_AddressMode u) (ud_AuthUID u) (ud_AuthRef u) (ud_KeyPass u) (ud_SyncStatus u) (ud_EventID u)
    (ud_UIDValidity u) (ud_ShouldResync u).
Definition with_ud_BridgePass (v : bytes) (u : UserData) : UserData :=
  mkUserData (ud_UserID u) (ud_Username u) (ud_PrimaryEmail u) (ud_GluonKey u) (ud_GluonIDs u) v
    (ud_AddressMode u) (ud_AuthUID u) (ud_AuthRef u) (ud_KeyPass u) (ud_SyncStatus u) (ud_EventID u)
    (ud_UIDValidity u) (ud_ShouldResync u).
Definition with_ud_AddressMode (v : UserIdentity.VaultMode) (u : UserData) : UserData :=
  mkUserData (ud_UserID u) (ud_Username u) (ud_PrimaryEmail u) (ud_GluonKey u) (ud_GluonIDs u) (ud_BridgePass u)
    v (ud_AuthUID u) (ud_AuthRef u) (ud_KeyPass u) (ud_SyncStatus u) (ud_EventID u) (ud_UIDValidity u)
    (ud_ShouldResync u).
Definition with_ud_AuthUID (v : string) (u : UserData) : UserData :=
  mkUserData (ud_UserID u) (ud_Username u) (ud_PrimaryEmail u) (ud_GluonKey u) (ud_GluonIDs u) (ud_BridgePass u)
    (ud_AddressMode u) v (ud_AuthRef u) (ud_KeyPass u) (ud_SyncStatus u) (ud_EventID u) (ud_UIDValidity u)
    (ud_ShouldResync u).
Definition with_ud_AuthRef (v : string) (u : UserData) : UserData :=
  mkUserData (ud_UserID u) (ud_Username u) (ud_PrimaryEmail u) (ud_GluonKey u) (ud_GluonIDs u) (ud_BridgePass u)
    (ud_AddressMode u) (ud_AuthUID u) v (ud_KeyPass u) (ud_SyncStatus u) (ud_EventID u) (ud_UIDValidity u)
    (ud_ShouldResync u).
Definition with_ud_KeyPass (v : bytes) (u : UserData) : UserData :=
  mkUserData (ud_UserID u) (ud_Username u) (ud_PrimaryEmail u) (ud_GluonKey u) (ud_GluonIDs u) (ud_BridgePass u)
    (ud_AddressMode u) (ud_AuthUID u) (ud_AuthRef u) v (ud_SyncStatus u) (ud_EventID u) (ud_UIDValidity u)
    (ud_ShouldResync u).
Definition with_ud_SyncStatus (v : VaultSyncStatus) (u : UserData) : UserData :=
  mkUserData (ud_UserID u) (ud_Username u) (ud_PrimaryEmail u) (ud_GluonKey u) (ud_GluonIDs u) (ud_BridgePass u)
    (ud_AddressMode u) (ud_AuthUID u) (ud_AuthRef u) (ud_KeyPass u) v (ud_EventID u) (ud_UIDValidity u)
    (ud_ShouldResync u).
Definition with_ud_EventID (v : string) (u : UserData) : UserData :=
  mkUserData (ud_UserID u) (ud_Username u) (ud_PrimaryEmail u) (ud_GluonKey u) (ud_GluonIDs u) (ud_BridgePass u)
    (ud_AddressMode u) (ud_AuthUID u) (ud_AuthRef u) (ud_KeyPass u) (ud_SyncStatus u) v (ud_UIDValidity u)
    (ud_ShouldResync u).
Definition with_ud_ShouldResync (v : bool) (u : UserData) : UserData :=
  mkUserData (ud_UserID u) (ud_Username u) (ud_PrimaryEmail u) (ud_GluonKey u) (ud_GluonIDs u) (ud_BridgePass u)
    (ud_AddressMode u) (ud_AuthUID u) (ud_AuthRef u) (ud_KeyPass u) (ud_SyncStatus u) (ud_EventID u)
    (ud_UIDValidity u) v.

Record Cert : Type := mkCert { cert_Cert : bytes; cert_Key : bytes }.
Record Certs : Type := mkCerts { certs_Bridge : Cert; CustomCertPath : string; CustomKeyPath : string }.

Record Data : Type := mkData {
  Data_Settings : Settings; Data_Users : list UserData; Data_Cookies : bytes; Data_Certs : Certs;
  Data_Migrated : bool; FeatureFlagStickyKey : string
}.

(** The zero UUID. *)
Definition uuid_Nil : string := "00000000-0000-0000-0000-000000000000".

Definition set_Settings (f : Settings -> Settings) (d : Data) : Data :=
  mkData (f (Data_Settings d)) (Data_Users d) (Data_Cookies d) (Data_Certs d) (Data_Migrated d) (FeatureFlagStickyKey d).
Definition set_Users (l : list UserData) (d : Data) : Data :=
  mkData (Data_Settings d) l (Data_Cookies d) (Data_Certs d) (Data_Migrated d) (FeatureFlagStickyKey d).
Definition set_Cookies (c : bytes) (d : Data) : Data :=
  mkData (Data_Settings d) (Data_Users d) c (Data_Certs d) (Data_Migrated d) (FeatureFlagStickyKey d).
Definition set_Certs (c : Certs) (d : Data) : Data :=
  mkData (Data_Settings d) (Data_Users d) (Data_Cookies d) c (Data_Migrated d) (FeatureFlagStickyKey d).
Definition set_Migrated (b : bool) (d : Data) : Data :=
  mkData (Data_Settings d) (Data_Users d) (Data_Cookies d) (Data_Certs d) b (FeatureFlagStickyKey d).
Definition set_StickyKey (k : string) (d : Data) : Data :=
  mkData (Data_Settings d) (Data_Users d) (Data_Cookies d) (Data_Certs d) (Data_Migrated d) k.

(** ** Errors and the environment *)

Inductive verr : Type :=
| VErr (msg : string)
| VWrap (msg : string) (e : verr)
| ErrDecryptFailed
| ErrUnmarshal.

(** A call panics or returns an error. *)
Inductive fault : Type := Panics | Fails (e : verr).

(** What a call gets from the system: tokens of 16 and of 32 bytes, a nonce, a fresh UUID, a
    new certificate, a number of the random source, the occupied ports, the number of
    CPUs, and the answers of the disk; a failed write leaves some bytes behind. *)
Record venv : Type := mkVenv {
  env_token16 : bytes;
  env_token32 : bytes;
  env_nonce : bytes;
  env_uuid : string;
  env_cert : Cert;
  env_Float64 : Q;
  env_occupied : bool -> Z -> bool;
  env_NumCPU : Z;
  env_mkdir : option verr;
  env_read : option verr;
  env_write : option (verr * bytes);
  env_rename : option verr;
  env_pem : string -> string -> result verr (bytes * bytes)
}.

(** *** Defaults *)

Definition StableChannel : string := "stable".
Definition DefaultUserAgent : string := "NoClient/0.0.1".
Definition DefaultMaxSyncMemory : Z := 2 * 1024 * (1024 * 1024).
Definition GetDefaultSyncWorkerCount (env : venv) : Z := Z.max (env_NumCPU env * 4) 16.

(** The search for a port ends ([Ports.FindFreePortFrom_ends]). *)
Definition free_port (env : venv) (startPort : Z) (exclude : list Z) : Z :=
  default startPort (FindFreePortFrom (env_occupied env) startPort exclude).

Definition newDefaultSettings (env : venv) (gluonDir : string) : Settings :=
  let syncWorkers := GetDefaultSyncWorkerCount env in
  let imapPort := free_port env 1143 [] in
  let smtpPort := free_port env 1025 [imapPort] in
  mkSettings gluonDir imapPort smtpPort false false StableChannel (env_Float64 env) "" false true true true false "0.0.0" true
    DefaultMaxSyncMemory DefaultUserAgent 0 None syncWorkers syncWorkers.

Definition newDefaultCerts (env : venv) : Certs := mkCerts (env_cert env) "" "".

Definition newDefaultData (env : venv) (gluonDir : string) : Data :=
  mkData (newDefaultSettings env gluonDir) [] [] (newDefaultCerts env) false (env_uuid env).

Definition newDefaultUser (env : venv) (userID username primaryEmail authUID authRef : string) (keyPass bridgePass : bytes) : UserData :=
  mkUserData userID username primaryEmail (env_token32 env) (Some ∅) bridgePass UserIdentity.CombinedMode authUID authRef keyPass
    zeroSyncStatus "" (Some ∅) false.

(** ** Older versions (migrate*.go) *)

Definition v2_3_x : Z := 0.
Definition v2_4_x : Z := 1.
Definition Current : Z := 2.

Record Settings_2_3_x : Type := mkSettings_2_3_x { s23_GluonDir : string; s23_IMAPPort : string; s23_SMTPPort : string }.
Record UserData_2_3_x : Type := mkUserData_2_3_x { u23_ID : string; u23_Name : string; u23_GluonKey : bytes; u23_SplitMode : bool }.
Record Data_2_3_x : Type := mkData_2_3_x { d23_Settings : Settings_2_3_x; d23_Users : list UserData_2_3_x }.

(** A string of Go is its bytes. *)
Record Settings_2_4_x : Type := mkSettings_2_4_x { s24_GluonDir : string; s24_IMAPPort : Z; s24_SMTPPort : Z }.
Record UserData_2_4_x : Type := mkUserData_2_4_x { u24_UserID : string; u24_Username : string; u24_GluonKey : bytes; u24_SplitMode : bool }.
Record Data_2_4_x : Type := mkData_2_4_x { d24_Settings : Settings_2_4_x; d24_Users : list UserData_2_4_x }.

(** [strconv.Atoi]: a sign, digits, and the range of [int]. *)
Fixpoint digits_value (s : string) (acc : Z) : option Z :=
  match s with
  | EmptyString => Some acc
  | String c s =>
      let n := Z.of_nat (Ascii.nat_of_ascii c) - 48 in
      if (0 <=? n) && (n <=? 9) then digits_value s (10 * acc + n) else None
  end.
Definition in_int (z : Z) : option Z := if (- 2 ^ 63 <=? z) && (z <? 2 ^ 63) then Some z else None.
Definition digits (s : string) : option Z := match s with EmptyString => None | _ => digits_value s 0 end.
Definition minus : Ascii.ascii := Ascii.ascii_of_nat 45.
Definition plus : Ascii.ascii := Ascii.ascii_of_nat 43.
Definition Atoi (s : string) : option Z :=
  match s with
  | EmptyString => None
  | String c s' =>
      if Ascii.eqb c minus then z ← digits s'; in_int (- z)
      else if Ascii.eqb c plus then z ← digits s'; in_int z
      else z ← digits s; in_int z
  end.

(** A port that is not a number panics. *)
Definition migrate_Settings_2_3_x (s : Settings_2_3_x) : option Settings_2_4_x :=
  imapPort ← Atoi (s23_IMAPPort s); smtpPort ← Atoi (s23_SMTPPort s);
  Some (mkSettings_2_4_x (s23_GluonDir s) imapPort smtpPort).
Definition migrate_UserData_2_3_x (u : UserData_2_3_x) : UserData_2_4_x :=
  mkUserData_2_4_x (u23_ID u) (u23_Name u) (u23_GluonKey u) (u23_SplitMode u).
Definition migrate_Data_2_3_x (d : Data_2_3_x) : option Data_2_4_x :=
  s ← migrate_Settings_2_3_x (d23_Settings d); Some (mkData_2_4_x s (migrate_UserData_2_3_x <$> d23_Users d)).

Definition migrate_Settings_2_4_x (env : venv) (s : Settings_2_4_x) : Settings :=
  with_SMTPPort (s24_SMTPPort s) (with_IMAPPort (s24_IMAPPort s) (newDefaultSettings env (s24_GluonDir s))).
Definition migrate_UserData_2_4_x (u : UserData_2_4_x) : UserData :=
  mkUserData (u24_UserID u) (u24_Username u) "" (u24_GluonKey u) None []
    (if u24_SplitMode u then UserIdentity.SplitMode else UserIdentity.CombinedMode) "" "" [] zeroSyncStatus "" None false.
Definition migrate_Data_2_4_x (env : venv) (d : Data_2_4_x) : Data :=
  mkData (migrate_Settings_2_4_x env (d24_Settings d)) (migrate_UserData_2_4_x <$> d24_Users d) [] (mkCerts (mkCert [] []) "" "")
    false uuid_Nil.

(** ** The file *)

(** Serialisation (msgpack), the cipher made from the key, and the hash of an address.
    [gcm_Seal] is the sealed text without the nonce. *)
Class VaultCodec : Type := {
  gcm : Type;
  newGCM : bytes -> gcm;
  NonceSize : nat;
  gcm_Seal : gcm -> bytes -> bytes -> bytes;
  gcm_Open : gcm -> bytes -> bytes -> option bytes;
  marshal_File : Z * bytes -> bytes;
  unmarshal_File : bytes -> option (Z * bytes);
  marshal_Data : Data -> bytes;
  unmarshal_Data : bytes -> option Data;
  marshal_2_4_x : Data_2_4_x -> bytes;
  unmarshal_2_4_x : bytes -> option Data_2_4_x;
  unmarshal_2_3_x : bytes -> option Data_2_3_x;
  emailHashString : string -> string
}.

(** What is documented of them: what was written is read back. *)
Class VaultCodecLaws `{VaultCodec} : Prop := {
  Open_Seal : forall k nonce dec, length nonce = NonceSize -> gcm_Open k nonce (gcm_Seal k nonce dec) = Some dec;
  unmarshal_marshal_File : forall f, unmarshal_File (marshal_File f) = Some f;
  unmarshal_marshal_Data : forall d, unmarshal_Data (marshal_Data d) = Some d;
  unmarshal_marshal_2_4_x : forall d, unmarshal_2_4_x (marshal_2_4_x d) = Some d
}.

Section vault.
Context `{VC : VaultCodec}.

(** [upgrade]: from one version to the next. *)
Definition upgrade_2_3_x (b : bytes) : result fault bytes :=
  match unmarshal_2_3_x b with
  | None => Err (Fails (VErr "msgpack"))
  | Some old => match migrate_Data_2_3_x old with None => Err Panics | Some new => Ok (marshal_2_4_x new) end
  end.
Definition upgrade_2_4_x (env : venv) (b : bytes) : result fault bytes :=
  match unmarshal_2_4_x b with
  | None => Err (Fails (VErr "msgpack"))
  | Some old => Ok (marshal_Data (migrate_Data_2_4_x env old))
  end.
Definition upgrade (env : venv) (v : Z) (b : bytes) : result fault bytes :=
  if v =? v2_3_x then upgrade_2_3_x b
  else if v =? v2_4_x then upgrade_2_4_x env b
  else if v =? Current then Err (Fails (VErr "already at current version"))
  else Err (Fails (VErr "unknown version")).

(** [for v := f.Version; v < Current; v++]; [n] is the number of steps left. *)
Fixpoint upgrades (env : venv) (n : nat) (v : Z) (dec : bytes) : result fault bytes :=
  match n with
  | O => Ok dec
  | S n => dec ← upgrade env v dec; upgrades env n (v + 1) dec
  end.

(** A closed vault has no cipher; a file with less data than a nonce is sliced out of range. *)
Definition unmarshalFile (env : venv) (k : option gcm) (b : bytes) : result fault Data :=
  match unmarshal_File b with
  | None => Err (Fails ErrUnmarshal)
  | Some (version, data) =>
      match k with
      | None => Err Panics
      | Some k =>
          if (length data <? NonceSize)%nat then Err Panics
          else
            match gcm_Open k (take NonceSize data) (drop NonceSize data) with
            | None => Err (Fails ErrDecryptFailed)
            | Some dec =>
                dec ← upgrades env (Z.to_nat (Current - version)) version dec;
                match unmarshal_Data dec with
                | None => Err (Fails ErrUnmarshal)
                | Some d => Ok d
                end
            end
      end
  end.

Definition marshalFile (env : venv) (k : gcm) (d : Data) : bytes :=
  let nonce := env_nonce env in marshal_File (Current, nonce ++ gcm_Seal k nonce (marshal_Data d)).

(** ** The vault *)

(** [v_disk] is the directory: the contents of its files. *)
Record Vault : Type := mkVault {
  v_path : string;
  v_gcm : option gcm;
  v_enc : bytes;
  v_ref : gmap string Z;
  v_disk : gmap string bytes
}.

Definition set_enc (b : bytes) (s : Vault) : Vault := mkVault (v_path s) (v_gcm s) b (v_ref s) (v_disk s).
Definition set_ref (r : gmap string Z) (s : Vault) : Vault := mkVault (v_path s) (v_gcm s) (v_enc s) r (v_disk s).
Definition set_disk (d : gmap string bytes) (s : Vault) : Vault := mkVault (v_path s) (v_gcm s) (v_enc s) (v_ref s) d.
Definition set_gcm (k : option gcm) (s : Vault) : Vault := mkVault (v_path s) k (v_enc s) (v_ref s) (v_disk s).

Notation V := (eff Vault fault).

(** Panics for data that cannot be read. *)
Definition getUnsafe (env : venv) : V Data := reads (fun s =>
  match unmarshalFile env (v_gcm s) (v_enc s) with Ok d => Ok d | Err _ => Err Panics end).
Definition getSafe (env : venv) : V Data := getUnsafe env.

Definition tmp_path (path : string) : string := path +:+ ".tmp".

(** The change may panic. *)
Definition modUnsafe (env : venv) (fn : Data -> result fault Data) : V () := fun s =>
  match unmarshalFile env (v_gcm s) (v_enc s), v_gcm s with
  | Err e, _ => (s, Err e)
  | _, None => (s, Err Panics)
  | Ok data, Some k =>
      match fn data with
      | Err e => (s, Err e)
      | Ok data =>
          let enc := marshalFile env k data in
          let s := set_enc enc s in
          let tmpFile := tmp_path (v_path s) in
          match env_write env with
          | Some (e, partial) => (set_disk (<[tmpFile := partial]> (v_disk s)) s, Err (Fails (VWrap "failed write new vault to disk" e)))
          | None =>
              let s := set_disk (<[tmpFile := enc]> (v_disk s)) s in
              match env_rename env with
              | Some e => (s, Err (Fails (VWrap "failed to overwrite old vault data" e)))
              | None => (set_disk (<[v_path s := enc]> (delete tmpFile (v_disk s))) s, Ok ())
              end
          end
      end
  end.
Definition modSafe (env : venv) (fn : Data -> Data) : V () := modUnsafe env (fun d => Ok (fn d)).

Definition find_user (userID : string) (users : list UserData) : option (nat * UserData) :=
  list_find (fun user => ud_UserID user = userID) users.

(** Panics for a user that is not there. *)
Definition getUser (env : venv) (userID : string) : V UserData :=
  data ← getSafe env;
  match find_user userID (Data_Users data) with
  | None => fails Panics
  | Some (_, user) => mret user
  end.

Definition modUserUnsafe (env : venv) (userID : string) (fn : UserData -> result fault UserData) : V () :=
  modUnsafe env (fun data =>
    match find_user userID (Data_Users data) with
    | None => Err Panics
    | Some (idx, user) => user ← fn user; Ok (set_Users (<[idx := user]> (Data_Users data)) data)
    end).
Definition modUser (env : venv) (userID : string) (fn : UserData -> UserData) : V () :=
  modUserUnsafe env userID (fun u => Ok (fn u)).

(** *** Handles *)

Definition attachUserUnsafe (userID : string) : V string := fun s =>
  (set_ref (<[userID := i64 (default 0 (v_ref s !! userID) + 1)]> (v_ref s)) s, Ok userID).

Definition detachUser (userID : string) : V () := fun s =>
  match v_ref s !! userID with
  | None => (s, Err (Fails (VErr "user is not attached")))
  | Some n =>
      let n := i64 (n - 1) in
      (set_ref (if n =? 0 then delete userID (v_ref s) else <[userID := n]> (v_ref s)) s, Ok ())
  end.

Definition newUserUnsafe (env : venv) (userID : string) : V string :=
  data ← getUnsafe env;
  match find_user userID (Data_Users data) with
  | None => fails (Fails (VErr "no such user"))
  | Some _ => attachUserUnsafe userID
  end.
Definition NewUser (env : venv) (userID : string) : V string := newUserUnsafe env userID.

Definition user_Close (userID : string) : V () := detachUser userID.

(** [defer cleanup()]. *)
Definition finally {A} (m : V A) (cleanup : V ()) : V A := fun s =>
  let '(s, r) := m s in ((cleanup s).1, r).

(** The callback cannot fail but may panic; the handle is closed in any case. *)
Definition GetUser (env : venv) (userID : string) (fn : string -> V ()) : V () :=
  user ← NewUser env userID;
  finally (fn user) (user_Close user).

(** The loop of [getUsers], which closes what it opened when it fails. *)
Fixpoint open_users (env : venv) (users : list UserData) (result : list string) : V (list string) :=
  match users with
  | [] => mret result
  | user :: rest => fun s =>
      match newUserUnsafe env (ud_UserID user) s with
      | (s, Err (Fails e)) => ((for_each result (fun u => ignoring (user_Close u)) s).1, Err (Fails e))
      | (s, Err Panics) => (s, Err Panics)
      | (s, Ok u) => open_users env rest (result ++ [u]) s
      end
  end.
Definition getUsers (env : venv) : V (list string) :=
  data ← getUnsafe env; open_users env (Data_Users data) [].

(** The callbacks run in parallel in the code and in order here, and stop at the first that panics. *)
Definition ForUser (env : venv) (fn : string -> V ()) : V () :=
  users ← getUsers env;
  finally (for_each users fn) (for_each users (fun u => ignoring (user_Close u))).

Definition GetUserIDs (env : venv) : V (list string) := data ← getSafe env; mret (ud_UserID <$> Data_Users data).

Definition HasUser (env : venv) (userID : string) : V bool :=
  data ← getSafe env; mret (bool_decide (is_Some (find_user userID (Data_Users data)))).

(** *** The archive of passwords *)

Definition archive_set (emailAddress : string) (password : bytes) (p : option (gmap string bytes)) : option (gmap string bytes) :=
  Some (<[emailHashString emailAddress := password]> (default ∅ p)).
Definition archive_get (emailAddress : string) (p : option (gmap string bytes)) : bytes :=
  match p with None => [] | Some m => default [] (m !! emailHashString emailAddress) end.

(** *** Users *)

Definition add_user_data (env : venv) (userID username primaryEmail authUID authRef : string) (keyPass : bytes) (data : Data) : Data :=
  match find_user userID (Data_Users data) with
  | Some _ => data
  | None =>
      let archived := archive_get primaryEmail (Archive (Data_Settings data)) in
      let bridgePass := if bool_decide (archived = []) then env_token16 env else archived in
      set_Users (Data_Users data ++ [newDefaultUser env userID username primaryEmail authUID authRef keyPass bridgePass]) data
  end.

(** Whether the user exists is read from the data the change was applied to. *)
Definition addUserUnsafe (env : venv) (userID username primaryEmail authUID authRef : string) (keyPass : bytes) : V string :=
  data ← reads (fun s => unmarshalFile env (v_gcm s) (v_enc s));
  modUnsafe env (fun data => Ok (add_user_data env userID username primaryEmail authUID authRef keyPass data)) ≫= fun _ =>
  match find_user userID (Data_Users data) with
  | Some _ => fails (Fails (VErr "user already exists"))
  | None => attachUserUnsafe userID
  end.
Definition AddUser (env : venv) (userID username primaryEmail authUID authRef : string) (keyPass : bytes) : V string :=
  addUserUnsafe env userID username primaryEmail authUID authRef keyPass.

Definition setAuthAndKeyPassUnsafe (env : venv) (userID authUID authRef : string) (keyPass : bytes) : V () :=
  modUserUnsafe env userID (fun u => Ok (with_ud_KeyPass keyPass (with_ud_AuthUID authUID (with_ud_AuthRef authRef u)))).

(** [strings.TrimSpace] is empty exactly for a string of white space. *)
Fixpoint blank (s : string) : bool :=
  match s with
  | EmptyString => true
  | String c s => let n := Ascii.nat_of_ascii c in
      ((n =? 32)%nat || ((9 <=? n)%nat && (n <=? 13)%nat)) && blank s
  end.

Definition updateUsernameUnsafe (env : venv) (userID username : string) : V () :=
  if blank username then mret ()
  else
    user ← getUser env userID;
    (if String.eqb (ud_Username user) username then mret ()
     else modUserUnsafe env userID (fun u => Ok (with_ud_Username username u))).

(** Whether the user did not exist before. *)
Definition GetOrAddUser (env : venv) (userID username primaryEmail authUID authRef : string) (keyPass : bytes) : V (string * bool) :=
  data ← getUnsafe env;
  match find_user userID (Data_Users data) with
  | Some _ =>
      user ← attachUserUnsafe userID;
      setAuthAndKeyPassUnsafe env user authUID authRef keyPass ≫= fun _ =>
      updateUsernameUnsafe env user username ≫= fun _ => mret (user, false)
  | None => u ← addUserUnsafe env userID username primaryEmail authUID authRef keyPass; mret (u, true)
  end.

Definition delete_user_data (userID : string) (data : Data) : Data :=
  match find_user userID (Data_Users data) with
  | None => data
  | Some (idx, user) =>
      set_Users (delete idx (Data_Users data))
        (set_Settings (fun s => with_Archive (archive_set (ud_PrimaryEmail user) (ud_BridgePass user) (Archive s)) s) data)
  end.
Definition DeleteUser (env : venv) (userID : string) : V () := fun s =>
  match v_ref s !! userID with
  | Some _ => (s, Err (Fails (VErr "user is currently in use")))
  | None => modUnsafe env (fun data => Ok (delete_user_data userID data)) s
  end.

Definition Migrated (env : venv) : V bool := data ← getSafe env; mret (Data_Migrated data).
Definition SetMigrated (env : venv) : V () := modSafe env (set_Migrated true).
Definition Reset (env : venv) (gluonDir : string) : V () := modSafe env (fun _ => newDefaultData env gluonDir).

Definition vault_Close : V () := fun s =>
  if (0 <? Z.of_nat (size (v_ref s))) then (s, Err (Fails (VErr "vault is still in use"))) else (set_gcm None s, Ok ()).

Definition GetFeatureFlagStickyKey (env : venv) : V string := data ← getSafe env; mret (FeatureFlagStickyKey data).
Definition setFeatureFlagStickyKeyIfEmpty (env : venv) : V () :=
  key ← GetFeatureFlagStickyKey env;
  if negb (String.eqb key uuid_Nil) then mret () else modSafe env (set_StickyKey (env_uuid env)).

(** *** Opening *)

(** The disk and what is returned. *)
Definition initVault (env : venv) (path gluonDir : string) (k : gcm) (disk : gmap string bytes) : gmap string bytes * result fault bytes :=
  let enc := marshalFile env k (newDefaultData env gluonDir) in
  match env_write env with
  | Some (e, partial) => (<[path := partial]> disk, Err (Fails e))
  | None => (<[path := enc]> disk, Ok enc)
  end.

(** The vault with the error that made it start over, or the error of the disk. *)
Definition newVault (env : venv) (path gluonDir : string) (k : gcm) (disk : gmap string bytes)
    : gmap string bytes * result fault (Vault * option verr) :=
  let '(disk, init) := match disk !! path with
                       | Some _ => (disk, Ok [])
                       | None => initVault env path gluonDir k disk
                       end in
  match init with
  | Err e => (disk, Err e)
  | Ok _ =>
      match env_read env, disk !! path with
      | Some e, _ => (disk, Err (Fails e))
      | None, None => (disk, Err (Fails (VErr "file does not exist")))
      | None, Some enc =>
          match unmarshalFile env (Some k) enc with
          | Err Panics => (disk, Err Panics)
          | Ok _ => (disk, Ok (mkVault path (Some k) enc ∅ disk, None))
          | Err (Fails corrupt) =>
              match initVault env path gluonDir k disk with
              | (disk, Err e) => (disk, Err e)
              | (disk, Ok enc) => (disk, Ok (mkVault path (Some k) enc ∅ disk, Some corrupt))
              end
          end
      end
  end.

Definition New (env : venv) (vaultDir gluonCacheDir : string) (key : bytes) (disk : gmap string bytes)
    : gmap string bytes * result fault (Vault * option verr) :=
  match env_mkdir env with
  | Some e => (disk, Err (Fails e))
  | None =>
      match newVault env (vaultDir +:+ "/vault.enc") gluonCacheDir (newGCM key) disk with
      | (disk, Err e) => (disk, Err e)
      | (disk, Ok (vault, corrupt)) =>
          match setFeatureFlagStickyKeyIfEmpty env vault with
          | (vault, Ok _) => (v_disk vault, Ok (vault, corrupt))
          | (vault, Err e) => (v_disk vault, Err e)
          end
      end
  end.

(** *** Settings (settings.go) *)

Definition GetIMAPPort (env : venv) : V Z := data ← getSafe env; mret (IMAPPort (Data_Settings data)).
Definition SetIMAPPort (env : venv) (port : Z) : V () := modSafe env (set_Settings (with_IMAPPort port)).
Definition GetSMTPPort (env : venv) : V Z := data ← getSafe env; mret (SMTPPort (Data_Settings data)).
Definition SetSMTPPort (env : venv) (port : Z) : V () := modSafe env (set_Settings (with_SMTPPort port)).
Definition GetIMAPSSL (env : venv) : V bool := data ← getSafe env; mret (IMAPSSL (Data_Settings data)).
Definition SetIMAPSSL (env : venv) (ssl : bool) : V () := modSafe env (set_Settings (with_IMAPSSL ssl)).
Definition GetSMTPSSL (env : venv) : V bool := data ← getSafe env; mret (SMTPSSL (Data_Settings data)).
Definition SetSMTPSSL (env : venv) (ssl : bool) : V () := modSafe env (set_Settings (with_SMTPSSL ssl)).
Definition GetGluonCacheDir (env : venv) : V string := data ← getSafe env; mret (GluonDir (Data_Settings data)).
Definition SetGluonDir (env : venv) (dir : string) : V () := modSafe env (set_Settings (with_GluonDir dir)).
Definition GetUpdateChannel (env : venv) : V string := data ← getSafe env; mret (UpdateChannel (Data_Settings data)).
Definition SetUpdateChannel (env : venv) (channel : string) : V () := modSafe env (set_Settings (with_UpdateChannel channel)).
Definition SetUpdateRollout (env : venv) (rollout : Q) : V () := modSafe env (set_Settings (with_UpdateRollout rollout)).
Definition GetColorScheme (env : venv) : V string := data ← getSafe env; mret (ColorScheme (Data_Settings data)).
Definition SetColorScheme (env : venv) (colorScheme : string) : V () := modSafe env (set_Settings (with_ColorScheme colorScheme)).
Definition GetProxyAllowed (env : venv) : V bool := data ← getSafe env; mret (ProxyAllowed (Data_Settings data)).
Definition SetProxyAllowed (env : venv) (allowed : bool) : V () := modSafe env (set_Settings (with_ProxyAllowed allowed)).
Definition GetShowAllMail (env : venv) : V bool := data ← getSafe env; mret (ShowAllMail (Data_Settings data)).
Definition SetShowAllMail (env : venv) (showAllMail : bool) : V () := modSafe env (set_Settings (with_ShowAllMail showAllMail)).
Definition GetAutostart (env : venv) : V bool := data ← getSafe env; mret (Autostart (Data_Settings data)).
Definition SetAutostart (env : venv) (autostart : bool) : V () := modSafe env (set_Settings (with_Autostart autostart)).
Definition GetAutoUpdate (env : venv) : V bool := data ← getSafe env; mret (AutoUpdate (Data_Settings data)).
Definition SetAutoUpdate (env : venv) (autoUpdate : bool) : V () := modSafe env (set_Settings (with_AutoUpdate autoUpdate)).
Definition GetTelemetryDisabled (env : venv) : V bool := data ← getSafe env; mret (TelemetryDisabled (Data_Settings data)).
Definition SetTelemetryDisabled (env : venv) (telemetryDisabled : bool) : V () := modSafe env (set_Settings (with_TelemetryDisabled telemetryDisabled)).
Definition SetLastVersion (env : venv) (version : string) : V () := modSafe env (set_Settings (with_LastVersion version)).
Definition GetFirstStart (env : venv) : V bool := data ← getSafe env; mret (FirstStart (Data_Settings data)).
Definition SetFirstStart (env : venv) (firstStart : bool) : V () := modSafe env (set_Settings (with_FirstStart firstStart)).
Definition SetMaxSyncMemory (env : venv) (maxMemory : Z) : V () := modSafe env (set_Settings (with_MaxSyncMemory maxMemory)).
Definition SetLastUserAgent (env : venv) (userAgent : string) : V () := modSafe env (set_Settings (with_LastUserAgent userAgent)).
Definition GetLastHeartbeatSent (env : venv) : V Z := data ← getSafe env; mret (LastHeartbeatSent (Data_Settings data)).
Definition SetLastHeartbeatSent (env : venv) (timestamp : Z) : V () := modSafe env (set_Settings (with_LastHeartbeatSent timestamp)).

(** The first rollout value was picked without a seed and is drawn again; a failure to store
    the new one is logged. *)
Definition ForbiddenRollout : Q := 6046602879796196 # 10000000000000000.
Definition redraw_rollout (env : venv) : V Q := fun s =>
  match SetUpdateRollout env (env_Float64 env) s with
  | (s, Err Panics) => (s, Err Panics)
  | (s, _) => (s, Ok (env_Float64 env))
  end.
Definition GetUpdateRollout (env : venv) : V Q :=
  data ← getSafe env;
  let rollout := UpdateRollout (Data_Settings data) in
  if Qle_bool (1 # 100000000) (Qabs (rollout - ForbiddenRollout)%Q) then mret rollout
  else redraw_rollout env.

(** Versions are parsed by a library; [parse] is its answer, [version] the running one. *)
Definition GetLastVersion {Version} (parse : string -> option Version) (version : Version) (env : venv) : V Version :=
  data ← getSafe env; mret (default version (parse (LastVersion (Data_Settings data)))).

Definition GetMaxSyncMemory (env : venv) : V Z :=
  data ← getSafe env;
  let v := MaxSyncMemory (Data_Settings data) in mret (if v =? 0 then DefaultMaxSyncMemory else v).

Definition GetLastUserAgent (env : venv) : V string :=
  data ← getSafe env;
  let v := LastUserAgent (Data_Settings data) in mret (if String.eqb v "" then DefaultUserAgent else v).

(** *** Cookies and certificates *)

Definition GetCookies (env : venv) : V bytes := data ← getSafe env; mret (Data_Cookies data).
Definition SetCookies (env : venv) (cookies : bytes) : V () := modSafe env (set_Cookies cookies).

Definition GetBridgeTLSCert (env : venv) : V (bytes * bytes) :=
  data ← getSafe env;
  let certs := Data_Certs data in
  let fallback := (cert_Cert (certs_Bridge certs), cert_Key (certs_Bridge certs)) in
  mret (if negb (String.eqb (CustomCertPath certs) "") && negb (String.eqb (CustomKeyPath certs) "")
        then match env_pem env (CustomCertPath certs) (CustomKeyPath certs) with Ok pem => pem | Err _ => fallback end
        else fallback).
Definition SetBridgeTLSCertPath (env : venv) (certPath keyPath : string) : V () :=
  match env_pem env certPath keyPath with
  | Err e => fails (Fails (VWrap "invalid certificate" e))
  | Ok _ => modSafe env (fun d => set_Certs (mkCerts (certs_Bridge (Data_Certs d)) certPath keyPath) d)
  end.
Definition SetBridgeTLSCertKey (env : venv) (cert key : bytes) : V () :=
  modSafe env (fun d => set_Certs (mkCerts (mkCert cert key) (CustomCertPath (Data_Certs d)) (CustomKeyPath (Data_Certs d))) d).

(** *** One user (user.go) *)

Definition user_UserID (env : venv) (id : string) : V string := user ← getUser env id; mret (ud_UserID user).
Definition user_Username (env : venv) (id : string) : V string := user ← getUser env id; mret (ud_Username user).
Definition user_PrimaryEmail (env : venv) (id : string) : V string := user ← getUser env id; mret (ud_PrimaryEmail user).
Definition user_SetPrimaryEmail (env : venv) (id : string) (email : string) : V () := modUser env id (with_ud_PrimaryEmail email).
Definition user_GluonKey (env : venv) (id : string) : V bytes := user ← getUser env id; mret (ud_GluonKey user).
Definition user_AddressMode (env : venv) (id : string) : V UserIdentity.VaultMode := user ← getUser env id; mret (ud_AddressMode user).
Definition user_SetAddressMode (env : venv) (id : string) (mode : UserIdentity.VaultMode) : V () := modUser env id (with_ud_AddressMode mode).
Definition user_BridgePass (env : venv) (id : string) : V bytes := user ← getUser env id; mret (ud_BridgePass user).
Definition user_SetBridgePass (env : venv) (id : string) (newPass : bytes) : V () := modUser env id (with_ud_BridgePass newPass).
Definition user_AuthUID (env : venv) (id : string) : V string := user ← getUser env id; mret (ud_AuthUID user).
Definition user_AuthRef (env : venv) (id : string) : V string := user ← getUser env id; mret (ud_AuthRef user).
Definition user_KeyPass (env : venv) (id : string) : V bytes := user ← getUser env id; mret (ud_KeyPass user).
Definition user_SetKeyPass (env : venv) (id : string) (keyPass : bytes) : V () := modUser env id (with_ud_KeyPass keyPass).
Definition user_SyncStatus (env : venv) (id : string) : V VaultSyncStatus := user ← getUser env id; mret (ud_SyncStatus user).
Definition user_EventID (env : venv) (id : string) : V string := user ← getUser env id; mret (ud_EventID user).
Definition user_SetEventID (env : venv) (id : string) (eventID : string) : V () := modUser env id (with_ud_EventID eventID).
Definition user_GetShouldResync (env : venv) (id : string) : V bool := user ← getUser env id; mret (ud_ShouldResync user).
Definition user_SetShouldSync (env : venv) (id : string) (shouldResync : bool) : V () := modUser env id (with_ud_ShouldResync shouldResync).
Definition user_GetGluonIDs (env : venv) (id : string) : V (option (gmap string string)) := user ← getUser env id; mret (ud_GluonIDs user).

(** Writing to a nil map panics. *)
Definition user_SetGluonID (env : venv) (id addrID gluonID : string) : V () :=
  modUserUnsafe env id (fun u =>
    match ud_GluonIDs u with
    | None => Err Panics
    | Some m => Ok (with_ud_GluonIDs (Some (<[addrID := gluonID]> m)) u)
    end).

Definition gluon_mismatch (addrID gluonID : string) (u : UserData) : bool :=
  negb (String.eqb (default "" (default ∅ (ud_GluonIDs u) !! addrID)) gluonID).
(** The data is written in any case; the mismatch is returned. *)
Definition user_RemoveGluonID (env : venv) (id addrID gluonID : string) : V () :=
  user ← reads (fun s =>
    data ← unmarshalFile env (v_gcm s) (v_enc s);
    match find_user id (Data_Users data) with Some (_, user) => Ok user | None => Err Panics end);
  modUser env id (fun u => if gluon_mismatch addrID gluonID u then u else with_ud_GluonIDs (delete addrID <$> ud_GluonIDs u) u) ≫= fun _ =>
  if gluon_mismatch addrID gluonID user then fails (Fails (VErr "gluon ID mismatch")) else mret ().

Definition user_SetAuth (env : venv) (id authUID authRef : string) : V () :=
  modUser env id (fun u => with_ud_AuthRef authRef (with_ud_AuthUID authUID u)).

Definition user_modSync (env : venv) (id : string) (f : VaultSyncStatus -> VaultSyncStatus) : V () :=
  modUser env id (fun u => with_ud_SyncStatus (f (ud_SyncStatus u)) u).
Definition user_SetHasLabels (env : venv) (id : string) (hasLabels : bool) : V () :=
  user_modSync env id (fun s => mkVaultSyncStatus hasLabels (vs_HasMessages s) (vs_LastMessageID s) (vs_FailedMessageIDs s)).
Definition user_SetHasMessages (env : venv) (id : string) (hasMessages : bool) : V () :=
  user_modSync env id (fun s => mkVaultSyncStatus (vs_HasLabels s) hasMessages (vs_LastMessageID s) (vs_FailedMessageIDs s)).
Definition user_SetLastMessageID (env : venv) (id messageID : string) : V () :=
  user_modSync env id (fun s => mkVaultSyncStatus (vs_HasLabels s) (vs_HasMessages s) messageID (vs_FailedMessageIDs s)).
Definition user_AddFailedMessageID (env : venv) (id messageID : string) : V () :=
  user_modSync env id (fun s => mkVaultSyncStatus (vs_HasLabels s) (vs_HasMessages s) (vs_LastMessageID s)
    (if Contains (vs_FailedMessageIDs s) messageID then vs_FailedMessageIDs s else vs_FailedMessageIDs s ++ [messageID])).
Definition user_RemFailedMessageID (env : venv) (id messageID : string) : V () :=
  user_modSync env id (fun s => mkVaultSyncStatus (vs_HasLabels s) (vs_HasMessages s) (vs_LastMessageID s)
    (Filter (vs_FailedMessageIDs s) (fun otherID => negb (String.eqb otherID messageID)))).

Definition user_ClearSyncStatusDeprecated (env : venv) (id : string) : V () :=
  modUser env id (fun u => with_ud_EventID "" (with_ud_SyncStatus zeroSyncStatus u)).
Definition user_ClearSyncStatusWithoutEventID (env : venv) (id : string) : V () :=
  modUser env id (with_ud_SyncStatus zeroSyncStatus).

Definition user_Clear (env : venv) (id : string) : V () :=
  modUser env id (fun u => with_ud_KeyPass [] (with_ud_AuthRef "" (with_ud_AuthUID "" u))).

End vault.

(** ** What is written is read back *)

Section laws.
Context `{VC : VaultCodec} `{VL : !VaultCodecLaws}.

Notation V := (eff Vault fault).

(** The nonce has the length the cipher asks for. *)
Definition venv_ok (env : venv) : Prop := length (env_nonce env) = NonceSize.

Lemma unmarshal_marshalFile env env' k d : venv_ok env -> unmarshalFile env' (Some k) (marshalFile env k d) = Ok d.
Proof.
  intros Hn. unfold unmarshalFile, marshalFile. rewrite unmarshal_marshal_File. unfold venv_ok in Hn.
  destruct (Nat.ltb_spec (length (env_nonce env ++ gcm_Seal k (env_nonce env) (marshal_Data d))) NonceSize) as [Hl|_].
  { rewrite length_app in Hl. lia. }
  rewrite <- Hn at 1 2. rewrite take_app_length, drop_app_length, Open_Seal by done. simpl. by rewrite unmarshal_marshal_Data.
Qed.

(** The bytes hold these users, whatever the system answers. *)
Definition readable (k : gcm) (b : bytes) (us : list UserData) : Prop :=
  forall env, exists d, unmarshalFile env (Some k) b = Ok d /\ Data_Users d = us.

Lemma readable_marshalFile env k d : venv_ok env -> readable k (marshalFile env k d) (Data_Users d).
Proof. intros Hn env'. exists d. by rewrite unmarshal_marshalFile. Qed.

(** [users_ids us]. *)
Definition ids (us : list UserData) : list string := ud_UserID <$> us.

Lemma find_user_Some id us i u : find_user id us = Some (i, u) -> us !! i = Some u /\ ud_UserID u = id.
Proof. unfold find_user. intros (Hi & Hu & _)%list_find_Some. done. Qed.

Lemma find_user_None id us : find_user id us = None <-> id ∉ ids us.
Proof.
  unfold find_user, ids. rewrite list_find_None, Forall_forall, list_elem_of_fmap. split.
  - intros Hn (u & -> & Hu). by apply (Hn u).
  - intros Hn u Hu <-. apply Hn. by exists u.
Qed.

Lemma find_user_ids id us : id ∈ ids us -> exists i u, find_user id us = Some (i, u).
Proof.
  intros Hin. destruct (find_user id us) as [[i u]|] eqn:Hf; [by exists i, u|]. by apply find_user_None in Hf.
Qed.

(** The counters of the handles: they are positive and belong to users of the vault. *)
Definition refs_ok (us : list UserData) (ref : gmap string Z) : Prop :=
  map_Forall (fun id n => 0 < n /\ id ∈ ids us) ref.

(** Fewer than 2^63 handles of a user are open. *)
Definition handles_fit (s : Vault) : Prop := map_Forall (fun _ n => n + 1 < 2 ^ 63) (v_ref s).

Record vault_ok (s : Vault) (k : gcm) (us : list UserData) : Prop := {
  ok_gcm : v_gcm s = Some k;
  ok_enc : readable k (v_enc s) us;
  ok_ids : NoDup (ids us);
  ok_refs : refs_ok us (v_ref s);
  ok_disk : exists b us', v_disk s !! v_path s = Some b /\ readable k b us'
}.

Lemma tmp_path_ne path : tmp_path path <> path.
Proof.
  unfold tmp_path. intros Hp%(f_equal String.length). revert Hp.
  induction path as [|c path IH]; simpl; [done|]. intros [= Hp]. by apply IH.
Qed.

(** A change that does not panic: the new data is in memory; the file is replaced as a whole
    or left as it was. *)
Lemma modUnsafe_ok env fn k s us (Q : Data -> Prop) :
  venv_ok env -> v_gcm s = Some k -> readable k (v_enc s) us ->
  (forall d, Data_Users d = us -> exists d', fn d = Ok d' /\ Q d') ->
  exists d', Q d' /\ (modUnsafe env fn s).2 <> Err Panics /\
    v_gcm (modUnsafe env fn s).1 = Some k /\ v_ref (modUnsafe env fn s).1 = v_ref s /\
    v_path (modUnsafe env fn s).1 = v_path s /\ v_enc (modUnsafe env fn s).1 = marshalFile env k d' /\
    (v_disk (modUnsafe env fn s).1 !! v_path s = v_disk s !! v_path s \/
     v_disk (modUnsafe env fn s).1 !! v_path s = Some (marshalFile env k d')) /\
    ((modUnsafe env fn s).2 = Ok () -> v_disk (modUnsafe env fn s).1 !! v_path s = Some (marshalFile env k d')).
Proof.
  intros Hn Hk Hr Hfn. destruct (Hr env) as (d & Hd & Hu). destruct (Hfn d Hu) as (d' & Hd' & HQ).
  exists d'. split; [done|]. unfold modUnsafe. rewrite Hk, Hd, Hd'.
  pose proof (tmp_path_ne (v_path s)) as Hne.
  destruct (env_write env) as [[e partial]|]; simpl.
  { rewrite lookup_insert_ne by done. split_and!; try done. by left. }
  destruct (env_rename env) as [e|]; simpl.
  - rewrite lookup_insert_ne by done. split_and!; try done. by left.
  - rewrite lookup_insert_eq. split_and!; try done. by right.
Qed.

(** A change of the users that keeps the invariant. *)
Lemma modUnsafe_vault_ok env fn k s us us' :
  venv_ok env -> vault_ok s k us -> NoDup (ids us') -> refs_ok us' (v_ref s) ->
  (forall d, Data_Users d = us -> exists d', fn d = Ok d' /\ Data_Users d' = us') ->
  vault_ok (modUnsafe env fn s).1 k us' /\ (modUnsafe env fn s).2 <> Err Panics /\ v_ref (modUnsafe env fn s).1 = v_ref s.
Proof.
  intros Hn Hs Hnd Hrefs Hfn.
  destruct (modUnsafe_ok env fn k s us (fun d' => Data_Users d' = us') Hn (ok_gcm _ _ _ Hs) (ok_enc _ _ _ Hs) Hfn)
    as (d' & Hu & Hp & Hk & Hr & Hpath & Henc & Hdisk & _).
  assert (Hread : readable k (marshalFile env k d') us') by (rewrite <- Hu; by apply readable_marshalFile).
  split; [|done]. split; [done|by rewrite Henc|done|by rewrite Hr|]. rewrite Hpath.
  destruct Hdisk as [->| ->]; [apply (ok_disk _ _ _ Hs)|by eauto].
Qed.

Lemma modSafe_vault_ok env fn k s us :
  venv_ok env -> vault_ok s k us -> (forall d, Data_Users (fn d) = Data_Users d) ->
  vault_ok (modSafe env fn s).1 k us /\ (modSafe env fn s).2 <> Err Panics /\ v_ref (modSafe env fn s).1 = v_ref s.
Proof.
  intros Hn Hs Hf. apply (modUnsafe_vault_ok env _ k s us us Hn Hs (ok_ids _ _ _ Hs) (ok_refs _ _ _ Hs)).
  intros d Hd. exists (fn d). split; [done|]. by rewrite Hf.
Qed.

Lemma ids_insert (us : list UserData) i u u' : us !! i = Some u -> ud_UserID u' = ud_UserID u -> ids (<[i := u']> us) = ids us.
Proof.
  intros Hi Hid. unfold ids. rewrite list_fmap_insert, Hid. apply list_insert_id. by rewrite list_lookup_fmap, Hi.
Qed.

(** A handle that is open is of a user of the vault. *)
Lemma handle_user s k us id n : vault_ok s k us -> v_ref s !! id = Some n -> exists i u, find_user id us = Some (i, u).
Proof. intros Hs Hid. apply find_user_ids. by apply (ok_refs _ _ _ Hs) in Hid as [_ ?]. Qed.

(** A change of one user keeps the others. *)
Lemma modUserUnsafe_vault_ok env id fn k s us i u u' :
  venv_ok env -> vault_ok s k us -> find_user id us = Some (i, u) -> fn u = Ok u' -> ud_UserID u' = ud_UserID u ->
  vault_ok (modUserUnsafe env id fn s).1 k (<[i := u']> us) /\ (modUserUnsafe env id fn s).2 <> Err Panics /\
  v_ref (modUserUnsafe env id fn s).1 = v_ref s.
Proof.
  intros Hn Hs Hf Hfn Hid. destruct (find_user_Some _ _ _ _ Hf) as [Hi _].
  pose proof (ids_insert us i u u' Hi Hid) as Hids.
  apply (modUnsafe_vault_ok env _ k s us); [done|done| | |].
  - rewrite Hids. apply (ok_ids _ _ _ Hs).
  - unfold refs_ok. rewrite Hids. apply (ok_refs _ _ _ Hs).
  - intros d <-. rewrite Hf, Hfn. simpl. by eexists.
Qed.

Lemma getUser_ok env id k s us i u :
  vault_ok s k us -> find_user id us = Some (i, u) -> getUser env id s = (s, Ok u).
Proof.
  intros Hs Hf. unfold getUser, getSafe, getUnsafe, mbind, eff_bind, reads. rewrite (ok_gcm _ _ _ Hs).
  destruct (ok_enc _ _ _ Hs env) as (d & -> & Hu). by rewrite Hu, Hf.
Qed.

Lemma getUnsafe_ok env k s us : vault_ok s k us -> exists d, getUnsafe env s = (s, Ok d) /\ Data_Users d = us.
Proof.
  intros Hs. unfold getUnsafe, reads. rewrite (ok_gcm _ _ _ Hs). destruct (ok_enc _ _ _ Hs env) as (d & -> & Hu). by exists d.
Qed.

Lemma attach_vault_ok k s us id :
  vault_ok s k us -> handles_fit s -> id ∈ ids us -> vault_ok (attachUserUnsafe id s).1 k us.
Proof.
  intros [H1 H2 H3 H4 H5] Hfit Hid. split; simpl; try done. intros id' n [[-> <-]|[Hne Hn]]%lookup_insert_Some; [|by apply H4].
  split; [|done]. destruct (v_ref s !! id') as [m|] eqn:Hm; simpl.
  - destruct (H4 _ _ Hm) as [? _]. specialize (Hfit _ _ Hm). simpl in Hfit. rewrite i64_id by (unfold i64_ok; lia). lia.
  - vm_compute. done.
Qed.

Lemma detach_vault_ok k s us id : vault_ok s k us -> handles_fit s -> vault_ok (detachUser id s).1 k us.
Proof.
  intros [H1 H2 H3 H4 H5] Hfit. unfold detachUser. destruct (v_ref s !! id) as [n|] eqn:Hn; [|done].
  destruct (H4 _ _ Hn) as [Hpos Hid]. specialize (Hfit _ _ Hn). simpl in Hfit. rewrite i64_id by (unfold i64_ok; lia).
  split; simpl; try done. destruct (Z.eqb_spec (n - 1) 0).
  - intros id' m [_ Hm]%lookup_delete_Some. by apply H4.
  - intros id' m [[-> <-]|[_ Hm]]%lookup_insert_Some; [split; [lia|done]|by apply H4].
Qed.

(** ** Runs *)

(** The changes of the settings, and of one user by way of a handle. *)
Inductive data_call : Type :=
| CallSetIMAPPort (port : Z)
| CallSetSMTPPort (port : Z)
| CallSetIMAPSSL (ssl : bool)
| CallSetSMTPSSL (ssl : bool)
| CallSetGluonDir (dir : string)
| CallSetUpdateChannel (channel : string)
| CallSetUpdateRollout (rollout : Q)
| CallSetColorScheme (colorScheme : string)
| CallSetProxyAllowed (allowed : bool)
| CallSetShowAllMail (showAllMail : bool)
| CallSetAutostart (autostart : bool)
| CallSetAutoUpdate (autoUpdate : bool)
| CallSetTelemetryDisabled (telemetryDisabled : bool)
| CallSetLastVersion (version : string)
| CallSetFirstStart (firstStart : bool)
| CallSetMaxSyncMemory (maxMemory : Z)
| CallSetLastUserAgent (userAgent : string)
| CallSetLastHeartbeatSent (timestamp : Z)
| CallSetCookies (cookies : bytes)
| CallSetBridgeTLSCertPath (certPath keyPath : string)
| CallSetBridgeTLSCertKey (cert key : bytes)
| CallSetMigrated
| CallSetStickyKey.

Definition data_call_run (env : venv) (c : data_call) : V () :=
  match c with
  | CallSetIMAPPort port => SetIMAPPort env port
  | CallSetSMTPPort port => SetSMTPPort env port
  | CallSetIMAPSSL ssl => SetIMAPSSL env ssl
  | CallSetSMTPSSL ssl => SetSMTPSSL env ssl
  | CallSetGluonDir dir => SetGluonDir env dir
  | CallSetUpdateChannel channel => SetUpdateChannel env channel
  | CallSetUpdateRollout rollout => SetUpdateRollout env rollout
  | CallSetColorScheme colorScheme => SetColorScheme env colorScheme
  | CallSetProxyAllowed allowed => SetProxyAllowed env allowed
  | CallSetShowAllMail showAllMail => SetShowAllMail env showAllMail
  | CallSetAutostart autostart => SetAutostart env autostart
  | CallSetAutoUpdate autoUpdate => SetAutoUpdate env autoUpdate
  | CallSetTelemetryDisabled telemetryDisabled => SetTelemetryDisabled env telemetryDisabled
  | CallSetLastVersion version => SetLastVersion env version
  | CallSetFirstStart firstStart => SetFirstStart env firstStart
  | CallSetMaxSyncMemory maxMemory => SetMaxSyncMemory env maxMemory
  | CallSetLastUserAgent userAgent => SetLastUserAgent env userAgent
  | CallSetLastHeartbeatSent timestamp => SetLastHeartbeatSent env timestamp
  | CallSetCookies cookies => SetCookies env cookies
  | CallSetBridgeTLSCertPath certPath keyPath => SetBridgeTLSCertPath env certPath keyPath
  | CallSetBridgeTLSCertKey cert key => SetBridgeTLSCertKey env cert key
  | CallSetMigrated => SetMigrated env
  | CallSetStickyKey => setFeatureFlagStickyKeyIfEmpty env
  end.

Inductive user_call : Type :=
| CallSetPrimaryEmail (email : string)
| CallSetAddressMode (mode : UserIdentity.VaultMode)
| CallSetBridgePass (newPass : bytes)
| CallSetAuth (authUID authRef : string)
| CallSetKeyPass (keyPass : bytes)
| CallSetEventID (eventID : string)
| CallSetHasLabels (hasLabels : bool)
| CallSetHasMessages (hasMessages : bool)
| CallSetLastMessageID (messageID : string)
| CallAddFailedMessageID (messageID : string)
| CallRemFailedMessageID (messageID : string)
| CallClearSyncStatusDeprecated
| CallClearSyncStatusWithoutEventID
| CallClear
| CallSetShouldSync (shouldResync : bool)
| CallRemoveGluonID (addrID gluonID : string)
| CallReadUser.

Definition user_call_run (env : venv) (id : string) (c : user_call) : V () :=
  match c with
  | CallSetPrimaryEmail email => user_SetPrimaryEmail env id email
  | CallSetAddressMode mode => user_SetAddressMode env id mode
  | CallSetBridgePass newPass => user_SetBridgePass env id newPass
  | CallSetAuth authUID authRef => user_SetAuth env id authUID authRef
  | CallSetKeyPass keyPass => user_SetKeyPass env id keyPass
  | CallSetEventID eventID => user_SetEventID env id eventID
  | CallSetHasLabels hasLabels => user_SetHasLabels env id hasLabels
  | CallSetHasMessages hasMessages => user_SetHasMessages env id hasMessages
  | CallSetLastMessageID messageID => user_SetLastMessageID env id messageID
  | CallAddFailedMessageID messageID => user_AddFailedMessageID env id messageID
  | CallRemFailedMessageID messageID => user_RemFailedMessageID env id messageID
  | CallClearSyncStatusDeprecated => user_ClearSyncStatusDeprecated env id
  | CallClearSyncStatusWithoutEventID => user_ClearSyncStatusWithoutEventID env id
  | CallClear => user_Clear env id
  | CallSetShouldSync shouldResync => user_SetShouldSync env id shouldResync
  | CallRemoveGluonID addrID gluonID => user_RemoveGluonID env id addrID gluonID
  | CallReadUser => user ← getUser env id; mret ()
  end.

Inductive vault_call : Type :=
| CallData (c : data_call)
| CallUser (id : string) (c : user_call)
| CallNewUser (id : string)
| CallCloseUser (id : string)
| CallAddUser (userID username primaryEmail authUID authRef : string) (keyPass : bytes)
| CallGetOrAddUser (userID username primaryEmail authUID authRef : string) (keyPass : bytes)
| CallDeleteUser (userID : string)
| CallReset (gluonDir : string).

Definition void {A} (m : V A) : V () := m ≫= fun _ => mret ().

Definition vault_call_run (env : venv) (c : vault_call) : V () :=
  match c with
  | CallData c => data_call_run env c
  | CallUser id c => user_call_run env id c
  | CallNewUser id => void (NewUser env id)
  | CallCloseUser id => user_Close id
  | CallAddUser userID username primaryEmail authUID authRef keyPass =>
      void (AddUser env userID username primaryEmail authUID authRef keyPass)
  | CallGetOrAddUser userID username primaryEmail authUID authRef keyPass =>
      void (GetOrAddUser env userID username primaryEmail authUID authRef keyPass)
  | CallDeleteUser userID => DeleteUser env userID
  | CallReset gluonDir => Reset env gluonDir
  end.

(** How the vault is used: a user is changed through an open handle, and the vault is reset
    when no handle is open. *)
Definition call_ok (s : Vault) (c : vault_call) : Prop :=
  handles_fit s /\
  match c with
  | CallUser id _ => is_Some (v_ref s !! id)
  | CallReset _ => v_ref s = ∅
  | _ => True
  end.

(** The vaults that runs lead to, from one that was opened on any directory in which, if there
    is a vault that can be read, it has no user twice. *)
Inductive reachable (k : gcm) : Vault -> Prop :=
| reach_open env path gluonDir disk disk' s corrupt :
    venv_ok env -> newVault env path gluonDir k disk = (disk', Ok (s, corrupt)) ->
    (forall b, disk !! path = Some b ->
       forall env' d, unmarshalFile env' (Some k) b = Ok d -> NoDup (ids (Data_Users d))) ->
    reachable k s
| reach_call s env c : reachable k s -> venv_ok env -> call_ok s c -> reachable k (vault_call_run env c s).1.

Definition fine (k : gcm) (r : Vault * result fault ()) : Prop := (exists us, vault_ok r.1 k us) /\ r.2 <> Err Panics.

Lemma data_call_fine env c k s us : venv_ok env -> vault_ok s k us -> fine k (data_call_run env c s).
Proof.
  intros Hn Hs.
  assert (Hset : forall f, (forall d, Data_Users (f d) = Data_Users d) -> fine k (modSafe env f s)).
  { intros f Hf. destruct (modSafe_vault_ok env f k s us Hn Hs Hf) as (? & ? & _). split; eauto. }
  destruct c; simpl; try (apply Hset; done).
  - unfold SetBridgeTLSCertPath. destruct (env_pem env certPath keyPath); [by apply Hset|]. split; [by exists us|done].
  - unfold setFeatureFlagStickyKeyIfEmpty, GetFeatureFlagStickyKey, getSafe, mbind, eff_bind.
    destruct (getUnsafe_ok env k s us Hs) as (d & -> & _). simpl.
    destruct (negb _); [split; [by exists us|done]|by apply Hset].
Qed.

Lemma user_call_fine env id c k s us : venv_ok env -> vault_ok s k us -> is_Some (v_ref s !! id) -> fine k (user_call_run env id c s).
Proof.
  intros Hn Hs [n Hid]. destruct (handle_user s k us id n Hs Hid) as (i & u & Hf).
  assert (Hset : forall f, (forall u, ud_UserID (f u) = ud_UserID u) -> fine k (modUser env id f s)).
  { intros f Hff. destruct (modUserUnsafe_vault_ok env id (fun u => Ok (f u)) k s us i u (f u) Hn Hs Hf eq_refl (Hff u)) as (? & ? & _).
    split; eauto. }
  destruct c; simpl; try (apply Hset; done).
  - unfold user_RemoveGluonID. unfold mbind at 1, eff_bind at 1. unfold reads. rewrite (ok_gcm _ _ _ Hs).
    destruct (ok_enc _ _ _ Hs env) as (d & -> & Hu). simpl. rewrite Hu, Hf. unfold mbind, eff_bind.
    destruct (Hset (fun u => if gluon_mismatch addrID gluonID u then u else with_ud_GluonIDs (delete addrID <$> ud_GluonIDs u) u)) as [Hok Hp].
    { intros u'. by destruct (gluon_mismatch addrID gluonID u'). }
    destruct (modUser _ _ _ s) as [s' [[]|e]]; [|by split]. by destruct (gluon_mismatch addrID gluonID u).
  - unfold mbind, eff_bind. rewrite (getUser_ok env id k s us i u Hs Hf). split; [by exists us|done].
Qed.

Lemma NewUser_fine env id k s us : vault_ok s k us -> handles_fit s -> fine k (void (NewUser env id) s).
Proof.
  intros Hs Hfit. unfold void, NewUser, newUserUnsafe, mbind, eff_bind. destruct (getUnsafe_ok env k s us Hs) as (d & -> & Hu).
  destruct (find_user id (Data_Users d)) as [[i u]|] eqn:Hf; simpl; [|split; [by exists us|done]]. split; [|done].
  exists us. apply attach_vault_ok; [done|done|]. rewrite Hu in Hf. apply find_user_Some in Hf as [Hi <-].
  apply list_elem_of_fmap. exists u. split; [done|]. by eapply list_elem_of_lookup_2.
Qed.

(** The users after [addUserUnsafe]. *)
Lemma add_user_ids env userID username primaryEmail authUID authRef keyPass d :
  let d' := add_user_data env userID username primaryEmail authUID authRef keyPass d in
  NoDup (ids (Data_Users d)) -> NoDup (ids (Data_Users d')) /\ userID ∈ ids (Data_Users d') /\
  forall id, id ∈ ids (Data_Users d) -> id ∈ ids (Data_Users d').
Proof.
  intros d' Hnd. subst d'. unfold add_user_data. destruct (find_user userID (Data_Users d)) as [[i u]|] eqn:Hf.
  - split; [done|]. split; [|done]. destruct (find_user_Some _ _ _ _ Hf) as [Hi <-]. apply list_elem_of_fmap. exists u.
    split; [done|]. by eapply list_elem_of_lookup_2.
  - apply find_user_None in Hf. unfold ids in *. simpl. rewrite fmap_app. simpl. split_and!.
    + apply NoDup_app. split; [done|]. split; [|apply NoDup_singleton]. intros x Hx ->%list_elem_of_singleton. done.
    + apply elem_of_app. right. by apply list_elem_of_singleton.
    + intros id Hid. apply elem_of_app. by left.
Qed.

Lemma addUserUnsafe_fine env userID username primaryEmail authUID authRef keyPass k s us :
  venv_ok env -> vault_ok s k us -> handles_fit s ->
  fine k (void (addUserUnsafe env userID username primaryEmail authUID authRef keyPass) s).
Proof.
  intros Hn Hs Hfit. unfold void, addUserUnsafe.
  destruct (ok_enc _ _ _ Hs env) as (d & Hd & Hu).
  unfold mbind, eff_bind, reads. rewrite (ok_gcm _ _ _ Hs), Hd.
  set (us' := Data_Users (add_user_data env userID username primaryEmail authUID authRef keyPass d)).
  destruct (add_user_ids env userID username primaryEmail authUID authRef keyPass d) as (Hnd & Hin & Hsub);
    [rewrite Hu; apply (ok_ids _ _ _ Hs)|].
  assert (Hmod : let r := modUnsafe env (fun data => Ok (add_user_data env userID username primaryEmail authUID authRef keyPass data)) s in
    vault_ok r.1 k us' /\ r.2 <> Err Panics /\ v_ref r.1 = v_ref s).
  { destruct (modUnsafe_ok env (fun data => Ok (add_user_data env userID username primaryEmail authUID authRef keyPass data)) k s us
      (fun d' => d' = d') Hn (ok_gcm _ _ _ Hs) (ok_enc _ _ _ Hs)) as (_ & _ & Hp & Hk & Hr & Hpath & _ & _ & _); [intros; by eexists|].
    unfold modUnsafe in *. rewrite (ok_gcm _ _ _ Hs), Hd in *. simpl.
    assert (Hread : readable k (marshalFile env k (add_user_data env userID username primaryEmail authUID authRef keyPass d)) us')
      by by apply readable_marshalFile.
    pose proof (tmp_path_ne (v_path s)) as Hne. destruct (ok_disk _ _ _ Hs) as (b & ub & Hb & Hub).
    assert (Hrefs : refs_ok us' (v_ref s)).
    { intros id m Hm. destruct (ok_refs _ _ _ Hs _ _ Hm) as [? ?]. split; [done|]. apply Hsub. by rewrite Hu. }
    destruct (env_write env) as [[e partial]|]; [|destruct (env_rename env) as [e|]]; simpl; split_and!; try done;
      split; simpl; try done; try (by apply (ok_gcm _ _ _ Hs)); rewrite ?lookup_insert_eq, ?lookup_insert_ne by done; eauto. }
  destruct Hmod as (Hok & Hp & Hr). destruct (modUnsafe env _ s) as [s' [[]|e]]; simpl in *; [|split; [by exists us'|done]].
  destruct (find_user userID (Data_Users d)) as [[i u]|]; simpl; (split; [|done]); [by exists us'|].
  exists us'. apply attach_vault_ok; [done| |done]. unfold handles_fit. by rewrite Hr.
Qed.

Lemma setAuth_fine env id authUID authRef keyPass k s us i u :
  venv_ok env -> vault_ok s k us -> find_user id us = Some (i, u) ->
  exists us', vault_ok (setAuthAndKeyPassUnsafe env id authUID authRef keyPass s).1 k us' /\ ids us' = ids us /\
    (setAuthAndKeyPassUnsafe env id authUID authRef keyPass s).2 <> Err Panics.
Proof.
  intros Hn Hs Hf. unfold setAuthAndKeyPassUnsafe.
  destruct (modUserUnsafe_vault_ok env id (fun u => Ok (with_ud_KeyPass keyPass (with_ud_AuthUID authUID (with_ud_AuthRef authRef u))))
    k s us i u _ Hn Hs Hf eq_refl eq_refl) as (? & ? & _). eexists. split; [done|]. split; [|done].
  destruct (find_user_Some _ _ _ _ Hf) as [Hi _]. by eapply ids_insert.
Qed.

Lemma updateUsername_fine env id username k s us :
  venv_ok env -> vault_ok s k us -> id ∈ ids us -> fine k (updateUsernameUnsafe env id username s).
Proof.
  intros Hn Hs Hid. destruct (find_user_ids _ _ Hid) as (i & u & Hf). unfold updateUsernameUnsafe.
  destruct (blank username); [split; [by exists us|done]|]. unfold mbind, eff_bind. rewrite (getUser_ok env id k s us i u Hs Hf).
  destruct (String.eqb (ud_Username u) username); [split; [by exists us|done]|].
  destruct (modUserUnsafe_vault_ok env id (fun u => Ok (with_ud_Username username u)) k s us i u _ Hn Hs Hf eq_refl eq_refl) as (? & ? & _).
  split; eauto.
Qed.

Lemma GetOrAddUser_fine env userID username primaryEmail authUID authRef keyPass k s us :
  venv_ok env -> vault_ok s k us -> handles_fit s ->
  fine k (void (GetOrAddUser env userID username primaryEmail authUID authRef keyPass) s).
Proof.
  intros Hn Hs Hfit. unfold void, GetOrAddUser. unfold mbind at 1 2, eff_bind at 1 2.
  destruct (getUnsafe_ok env k s us Hs) as (d & -> & Hu). rewrite Hu.
  destruct (find_user userID us) as [[i u]|] eqn:Hf.
  - assert (Hid : userID ∈ ids us).
    { destruct (find_user_Some _ _ _ _ Hf) as [Hi <-]. apply list_elem_of_fmap. exists u. split; [done|]. by eapply list_elem_of_lookup_2. }
    pose proof (attach_vault_ok k s us userID Hs Hfit Hid) as Hs1. unfold mbind, eff_bind. simpl. simpl in Hs1.
    destruct (setAuth_fine env userID authUID authRef keyPass k _ us i u Hn Hs1 Hf) as (us' & Hs2 & Hids & Hp).
    destruct (setAuthAndKeyPassUnsafe env userID authUID authRef keyPass _) as [s2 [[]|e]]; simpl in *; [|split; [by exists us'|simpl; congruence]].
    destruct (updateUsername_fine env userID username k s2 us' Hn Hs2) as [Hok Hp']; [by rewrite Hids|].
    destruct (updateUsernameUnsafe env userID username s2) as [s3 [[]|e]]; split; simpl in *; congruence || done.
  - pose proof (addUserUnsafe_fine env userID username primaryEmail authUID authRef keyPass k s us Hn Hs Hfit) as Hadd.
    unfold void, mbind, eff_bind in *.
    by destruct (addUserUnsafe env userID username primaryEmail authUID authRef keyPass s) as [s2 [x|e]].
Qed.

Lemma ids_delete i us : ids (delete i us) = delete i (ids us).
Proof. unfold ids. apply list_fmap_delete. Qed.

Lemma DeleteUser_fine env userID k s us : venv_ok env -> vault_ok s k us -> fine k (DeleteUser env userID s).
Proof.
  intros Hn Hs. unfold DeleteUser. destruct (v_ref s !! userID) as [n|] eqn:Href; [split; [by exists us|done]|].
  set (us' := match find_user userID us with Some (i, _) => delete i us | None => us end).
  destruct (modUnsafe_vault_ok env (fun data => Ok (delete_user_data userID data)) k s us us') as (? & ? & _); try done.
  - subst us'. destruct (find_user userID us) as [[i u]|]; [|apply (ok_ids _ _ _ Hs)]. rewrite ids_delete.
    eapply sublist_NoDup; [apply (ok_ids _ _ _ Hs)|]. apply sublist_delete.
  - intros id m Hm. destruct (ok_refs _ _ _ Hs _ _ Hm) as [? Hin]. split; [done|]. subst us'.
    destruct (find_user userID us) as [[i u]|] eqn:Hf; [|done]. destruct (find_user_Some _ _ _ _ Hf) as [Hi Hid].
    apply list_elem_of_fmap in Hin as (x & -> & [j Hj]%list_elem_of_lookup).
    assert (j <> i) by (intros ->; simplify_eq; congruence).
    unfold ids. apply list_elem_of_fmap. exists x. split; [done|]. rewrite delete_take_drop. apply elem_of_app.
    destruct (decide (j < i)%nat).
    + left. apply (list_elem_of_lookup_2 _ j). by rewrite lookup_take_lt.
    + right. apply (list_elem_of_lookup_2 _ (j - S i)%nat). rewrite lookup_drop. by replace (S i + (j - S i))%nat with j by lia.
  - intros d Hd. eexists. split; [done|]. unfold delete_user_data. subst us'. rewrite Hd.
    destruct (find_user userID us) as [[i u]|]; [by rewrite <- Hd|done].
  - split; eauto.
Qed.

(** The users of a file do not depend on what the system answers. *)
Lemma unmarshalFile_users env k b d : unmarshalFile env (Some k) b = Ok d -> readable k b (Data_Users d).
Proof.
  unfold unmarshalFile. intros Hd env'. unfold unmarshalFile. destruct (unmarshal_File b) as [[version data]|]; [|done].
  destruct (_ <? _)%nat; [done|]. destruct (gcm_Open _ _ _) as [dec|]; [|done].
  destruct (Z.ltb_spec version 0).
  { destruct (Z.to_nat (Current - version)) eqn:Hn; [unfold Current in *; lia|]. simpl in Hd. unfold upgrade, v2_3_x, v2_4_x, Current in Hd.
    repeat (case_match; boolp; try lia; try done). }
  destruct (decide (version = 0)) as [->|]; [|destruct (decide (version = 1)) as [->|]].
  - simpl in *. change (Z.to_nat (Current - 0)) with 2%nat in *. simpl in *. unfold upgrade in *. simpl in *.
    destruct (upgrade_2_3_x dec) as [dec'|]; [|done]. simpl in *. unfold upgrade_2_4_x in *.
    destruct (unmarshal_2_4_x dec') as [old|]; [|done]. simpl in *. rewrite unmarshal_marshal_Data in *. simplify_eq. by eexists.
  - change (Z.to_nat (Current - 1)) with 1%nat in *. simpl in *. unfold upgrade in *. simpl in *. unfold upgrade_2_4_x in *.
    destruct (unmarshal_2_4_x dec) as [old|]; [|done]. simpl in *. rewrite unmarshal_marshal_Data in *. simplify_eq. by eexists.
  - replace (Z.to_nat (Current - version)) with 0%nat in * by (unfold Current; lia). simpl in *. by eexists.
Qed.

Lemma open_ok env path gluonDir k disk disk' s corrupt :
  venv_ok env -> newVault env path gluonDir k disk = (disk', Ok (s, corrupt)) ->
  (forall b, disk !! path = Some b -> forall env' d, unmarshalFile env' (Some k) b = Ok d -> NoDup (ids (Data_Users d))) ->
  exists us, vault_ok s k us.
Proof.
  intros Hn Hnew Hdisk.
  assert (Hinit : readable k (marshalFile env k (newDefaultData env gluonDir)) []) by by apply readable_marshalFile.
  assert (Hdef : vault_ok (mkVault path (Some k) (marshalFile env k (newDefaultData env gluonDir)) ∅
    (<[path := marshalFile env k (newDefaultData env gluonDir)]> disk)) k []).
  { split; simpl; try done; [constructor|]. rewrite lookup_insert_eq. eauto. }
  unfold newVault in Hnew. destruct (disk !! path) as [b|] eqn:Hb.
  - destruct (env_read env); [done|]. rewrite Hb in Hnew. destruct (unmarshalFile env (Some k) b) as [d|[|e]] eqn:Hu; [|done|].
    + simplify_eq. exists (Data_Users d). pose proof (unmarshalFile_users _ _ _ _ Hu) as Hr.
      split; simpl; try done; [by eapply Hdisk|]. eauto.
    + unfold initVault in Hnew. destruct (env_write env) as [[? ?]|]; simplify_eq. by exists [].
  - unfold initVault in Hnew. destruct (env_write env) as [[? ?]|]; [done|]. destruct (env_read env); [done|].
    rewrite lookup_insert_eq, unmarshal_marshalFile in Hnew by done. simplify_eq. by exists [].
Qed.

Lemma reachable_ok k s : reachable k s -> exists us, vault_ok s k us.
Proof.
  induction 1 as [env path gluonDir disk disk' s corrupt Hn Hnew Hdisk|s env c _ [us Hs] Hn [Hfit Hc]]; [by eapply open_ok|].
  destruct c; simpl in *.
  - by apply (data_call_fine env c k s us).
  - by apply (user_call_fine env id c k s us).
  - by apply (NewUser_fine env id k s us).
  - exists us. by apply detach_vault_ok.
  - by apply (addUserUnsafe_fine env userID username primaryEmail authUID authRef keyPass k s us).
  - by apply (GetOrAddUser_fine env userID username primaryEmail authUID authRef keyPass k s us).
  - by apply (DeleteUser_fine env userID k s us).
  - exists []. apply (modUnsafe_vault_ok env _ k s us []); [done|done|constructor|intros ? ?; by rewrite Hc|]. intros d _. by eexists.
Qed.

Lemma vault_call_no_panic k s env c us : vault_ok s k us -> venv_ok env -> call_ok s c -> (vault_call_run env c s).2 <> Err Panics.
Proof.
  intros Hs Hn [Hfit Hc]. destruct c; simpl in *.
  - by apply (data_call_fine env c k s us).
  - by apply (user_call_fine env id c k s us).
  - by apply (NewUser_fine env id k s us).
  - unfold user_Close, detachUser. by destruct (v_ref s !! id).
  - by apply (addUserUnsafe_fine env userID username primaryEmail authUID authRef keyPass k s us).
  - by apply (GetOrAddUser_fine env userID username primaryEmail authUID authRef keyPass k s us).
  - by apply (DeleteUser_fine env userID k s us).
  - apply (modUnsafe_vault_ok env _ k s us []); [done|done|constructor|intros ? ?; by rewrite Hc|]. intros d _. by eexists.
Qed.


(** ** Changes that last *)

(** A successful change: memory and file hold the changed data. *)
Lemma modUnsafe_success env fn s s' k :
  venv_ok env -> v_gcm s = Some k -> modUnsafe env fn s = (s', Ok ()) ->
  exists d d', unmarshalFile env (Some k) (v_enc s) = Ok d /\ fn d = Ok d' /\ v_gcm s' = Some k /\ v_path s' = v_path s /\
    v_ref s' = v_ref s /\ v_disk s' !! v_path s = Some (v_enc s') /\ forall env', unmarshalFile env' (Some k) (v_enc s') = Ok d'.
Proof.
  intros Hn Hk. unfold modUnsafe. rewrite Hk. destruct (unmarshalFile env (Some k) (v_enc s)) as [d|e]; [|done].
  destruct (fn d) as [d'|e] eqn:Hfn; [|done]. destruct (env_write env) as [[? ?]|]; [done|]. destruct (env_rename env); [done|].
  intros [= <-]. exists d, d'. simpl. rewrite lookup_insert_eq, Hk. split_and!; try done. intros env'. by rewrite unmarshal_marshalFile.
Qed.

(** A change that succeeded survives a restart: opening the directory again with the same
    key finds the file sound and gives the changed data. *)
Theorem change_survives_restart env env' fn gluonDir s s' k :
  venv_ok env -> v_gcm s = Some k -> modUnsafe env fn s = (s', Ok ()) -> env_read env' = None ->
  exists d d' s2, unmarshalFile env (Some k) (v_enc s) = Ok d /\ fn d = Ok d' /\
    newVault env' (v_path s) gluonDir k (v_disk s') = (v_disk s', Ok (s2, None)) /\
    (forall env2, getSafe env2 s2 = (s2, Ok d')) /\ v_ref s2 = ∅.
Proof.
  intros Hn Hk Hrun Hread. destruct (modUnsafe_success env fn s s' k Hn Hk Hrun) as (d & d' & Hd & Hd' & _ & _ & _ & Hdisk & Hdec).
  exists d, d', (mkVault (v_path s) (Some k) (v_enc s') ∅ (v_disk s')). split; [done|]. split; [done|]. split; [|split; [|done]].
  - unfold newVault. by rewrite Hdisk, Hread, Hdisk, Hdec.
  - intros env2. unfold getSafe, getUnsafe, reads. simpl. by rewrite Hdec.
Qed.

(** A change whose writing fails is reported as an error and is in memory all the same. *)
Lemma failed_write_kept env fn k s us :
  venv_ok env -> vault_ok s k us -> is_Some (env_write env) -> (forall d, exists d', fn d = Ok d') ->
  exists d d' e s', unmarshalFile env (Some k) (v_enc s) = Ok d /\ fn d = Ok d' /\
    modUnsafe env fn s = (s', Err (Fails e)) /\ unmarshalFile env (Some k) (v_enc s') = Ok d' /\
    v_disk s' !! v_path s' = v_disk s !! v_path s.
Proof.
  intros Hn Hs [[e0 partial] Hw] Hfn. destruct (ok_enc _ _ _ Hs env) as (d & Hd & _). destruct (Hfn d) as [d' Hd'].
  unfold modUnsafe. rewrite (ok_gcm _ _ _ Hs), Hd, Hd', Hw. eexists d, d', _, _. split; [done|]. split; [done|]. split; [done|].
  simpl. rewrite unmarshal_marshalFile by done. split; [done|]. by rewrite lookup_insert_ne by apply tmp_path_ne.
Qed.

(** *** Passwords *)

(** What the vault has archived for an address. *)
Definition archived (k : gcm) (s : Vault) (email : string) (pass : bytes) : Prop :=
  v_gcm s = Some k /\
  forall env, exists d, unmarshalFile env (Some k) (v_enc s) = Ok d /\ archive_get email (Archive (Data_Settings d)) = pass.

Lemma archived_modSafe env f k s email pass :
  venv_ok env -> archived k s email pass -> (forall d, Archive (Data_Settings (f d)) = Archive (Data_Settings d)) ->
  archived k (modSafe env f s).1 email pass.
Proof.
  intros Hn [Hk Ha] Hf. destruct (Ha env) as (d & Hd & Hp). unfold modSafe, modUnsafe. rewrite Hk, Hd.
  destruct (env_write env) as [[e partial]|]; [|destruct (env_rename env)]; (split; [done|]); intros env'; exists (f d); simpl;
    by rewrite unmarshal_marshalFile, Hf.
Qed.

Lemma archived_data_call env c k s email pass :
  venv_ok env -> archived k s email pass -> archived k (data_call_run env c s).1 email pass.
Proof.
  intros Hn Ha. destruct c; simpl; try (apply archived_modSafe; done).
  - unfold SetBridgeTLSCertPath. destruct (env_pem env certPath keyPath); [by apply archived_modSafe|done].
  - unfold setFeatureFlagStickyKeyIfEmpty, GetFeatureFlagStickyKey, getSafe, getUnsafe, mbind, eff_bind, reads.
    destruct Ha as [Hk Ha]. rewrite Hk. destruct (Ha env) as (d & -> & _). simpl.
    destruct (negb _); [by split|]. by apply archived_modSafe.
Qed.

Lemma archive_get_set email pass p : archive_get email (archive_set email pass p) = pass.
Proof. unfold archive_get, archive_set. by rewrite lookup_insert_eq. Qed.

Lemma find_user_snoc id us u : find_user id us = None -> ud_UserID u = id -> find_user id (us ++ [u]) = Some (length us, u).
Proof.
  unfold find_user. intros Hn Hu. rewrite list_find_app_r by done. simpl. by rewrite decide_True by done.
Qed.

(** C19: The password of a deleted user comes back: after the deletion and any changes of the
    settings, adding a user with the same primary address gives it the password the
    deleted user had, so its mail clients keep working. *)
Theorem password_restored env env' k s us userID i u s1 changes id username authUID authRef keyPass s2 handle env'' :
  venv_ok env -> venv_ok env' -> Forall (fun c => venv_ok c.1) changes ->
  vault_ok s k us -> find_user userID us = Some (i, u) -> ud_BridgePass u <> [] ->
  DeleteUser env userID s = (s1, Ok ()) ->
  AddUser env' id username (ud_PrimaryEmail u) authUID authRef keyPass
    (foldl (fun s c => (data_call_run c.1 c.2 s).1) s1 changes) = (s2, Ok handle) ->
  exists u', getUser env'' id s2 = (s2, Ok u') /\ ud_BridgePass u' = ud_BridgePass u /\
    ud_PrimaryEmail u' = ud_PrimaryEmail u /\ ud_AuthUID u' = authUID.
Proof.
  intros Hn Hn' Hch Hs Hf Hne Hdel Hadd.
  assert (Ha : archived k s1 (ud_PrimaryEmail u) (ud_BridgePass u)).
  { unfold DeleteUser in Hdel. destruct (v_ref s !! userID); [done|].
    destruct (modUnsafe_success _ _ _ _ k Hn (ok_gcm _ _ _ Hs) Hdel) as (d & d' & Hd & [= <-] & Hk & _ & _ & _ & Hdec).
    destruct (ok_enc _ _ _ Hs env) as (d0 & Hd0 & Hu). rewrite Hd in Hd0. injection Hd0 as <-.
    split; [done|]. intros e. eexists. split; [apply Hdec|]. unfold delete_user_data. rewrite Hu, Hf. apply archive_get_set. }
  assert (Ha' : archived k (foldl (fun s c => (data_call_run c.1 c.2 s).1) s1 changes) (ud_PrimaryEmail u) (ud_BridgePass u)).
  { revert s1 Ha Hdel Hadd. induction Hch as [|c changes Hc Hch IH]; intros s1 Ha Hdel Hadd; simpl; [done|].
    clear - IH Ha Hc Hch VL. revert Ha. generalize (ud_BridgePass u) (ud_PrimaryEmail u). intros pass email Ha.
    apply (archived_data_call c.1 c.2) in Ha; [|done]. revert Ha. generalize (data_call_run c.1 c.2 s1).1.
    clear IH Hc. induction Hch as [|c' changes Hc' Hch IH]; intros s' Ha; simpl; [done|]. by apply IH, archived_data_call. }
  clear Ha. revert Hadd Ha'. generalize (foldl (fun s c => (data_call_run c.1 c.2 s).1) s1 changes). intros s' Hadd [Hk Ha].
  unfold AddUser, addUserUnsafe in Hadd. destruct (Ha env') as (d & Hd & Hpass).
  unfold mbind, eff_bind, reads in Hadd. rewrite Hk, Hd in Hadd.
  destruct (modUnsafe env' _ s') as [s3 [[]|e]] eqn:Hmod; [|done].
  destruct (modUnsafe_success _ _ _ _ k Hn' Hk Hmod) as (d1 & d2 & Hd1 & [= <-] & Hk3 & _ & _ & _ & Hdec).
  rewrite Hd in Hd1. injection Hd1 as <-. destruct (find_user id (Data_Users d)) as [[j x]|] eqn:Hx; [done|].
  injection Hadd as <- _. unfold getUser, getSafe, getUnsafe, mbind, eff_bind, reads. simpl. rewrite Hk3, Hdec.
  unfold add_user_data. rewrite Hx, Hpass. simpl. rewrite (find_user_snoc id _ _ Hx) by done.
  eexists. split; [done|]. simpl. by rewrite bool_decide_eq_false_2.
Qed.

(** *** Older versions *)

(** A vault of the oldest version is read as it was: its directory and its ports, and for
    each user, in order, the identifier, the name, the key of its messages and the mode;
    its users have to log in again. *)
Theorem migration_2_3_x env k b nonce dec old imapPort smtpPort :
  unmarshal_File b = Some (v2_3_x, nonce ++ gcm_Seal k nonce dec) -> length nonce = NonceSize ->
  unmarshal_2_3_x dec = Some old ->
  Atoi (s23_IMAPPort (d23_Settings old)) = Some imapPort -> Atoi (s23_SMTPPort (d23_Settings old)) = Some smtpPort ->
  exists d, unmarshalFile env (Some k) b = Ok d /\
    GluonDir (Data_Settings d) = s23_GluonDir (d23_Settings old) /\
    IMAPPort (Data_Settings d) = imapPort /\ SMTPPort (Data_Settings d) = smtpPort /\
    Forall2 (fun u u' => ud_UserID u' = u23_ID u /\ ud_Username u' = u23_Name u /\ ud_GluonKey u' = u23_GluonKey u /\
      (ud_AddressMode u' = UserIdentity.SplitMode <-> u23_SplitMode u = true) /\ ud_AuthUID u' = "" /\ ud_KeyPass u' = [])
      (d23_Users old) (Data_Users d).
Proof.
  intros Hb Hn Hold Hi Hp. unfold unmarshalFile. rewrite Hb, length_app.
  destruct (Nat.ltb_spec (length nonce + length (gcm_Seal k nonce dec)) NonceSize) as [?|_]; [lia|].
  rewrite <- Hn, take_app_length, drop_app_length, Open_Seal by done.
  change (Z.to_nat (Current - v2_3_x)) with 2%nat. simpl. unfold upgrade. simpl. unfold upgrade_2_3_x. rewrite Hold.
  unfold migrate_Data_2_3_x, migrate_Settings_2_3_x. rewrite Hi, Hp. simpl.
  unfold upgrade_2_4_x. rewrite unmarshal_marshal_2_4_x. simpl. rewrite unmarshal_marshal_Data. eexists. split; [done|]. simpl.
  split_and!; try done. rewrite <- list_fmap_compose, Forall2_fmap_r. apply Forall_Forall2_diag, Forall_forall. intros u _. simpl.
  split_and!; try done. by destruct (u23_SplitMode u).
Qed.

(** A user of an older version has no map of Gluon identifiers, and setting one panics. *)
Lemma migrated_user_SetGluonID_panics env id addrID gluonID k s us i u :
  vault_ok s k us -> find_user id us = Some (i, migrate_UserData_2_4_x u) ->
  user_SetGluonID env id addrID gluonID s = (s, Err Panics).
Proof.
  intros Hs Hf. unfold user_SetGluonID, modUserUnsafe, modUnsafe. rewrite (ok_gcm _ _ _ Hs).
  destruct (ok_enc _ _ _ Hs env) as (d & -> & ->). by rewrite Hf.
Qed.

(** A file with less sealed data than a nonce is not reported as corrupt: opening panics. *)
Lemma short_file_panics env path gluonDir k disk b data version :
  disk !! path = Some b -> unmarshal_File b = Some (version, data) -> (length data < NonceSize)%nat -> env_read env = None ->
  newVault env path gluonDir k disk = (disk, Err Panics).
Proof.
  intros Hb Hf Hl Hr. unfold newVault. rewrite Hb, Hr, Hb. unfold unmarshalFile. rewrite Hf.
  by rewrite (proj2 (Nat.ltb_lt _ _) Hl).
Qed.

(** *** Opening and logging in *)

Lemma newVault_fresh env path gluonDir k disk :
  venv_ok env -> env_read env = None -> env_write env = None -> disk !! path = None ->
  let fresh := marshalFile env k (newDefaultData env gluonDir) in
  newVault env path gluonDir k disk =
  (<[path := fresh]> disk, Ok (mkVault path (Some k) fresh ∅ (<[path := fresh]> disk), None)).
Proof.
  intros Hn Hr Hw Hp fresh. unfold newVault, initVault. rewrite Hp, Hr, Hw, lookup_insert_eq. subst fresh.
  by rewrite unmarshal_marshalFile.
Qed.

(** Opening gives the vault that is in the directory, whoever has its users, or starts
    over: with no file a new vault is made, and a file that cannot be decrypted or read is
    replaced and its error is returned. *)
Theorem newVault_outcome env path gluonDir k disk :
  venv_ok env -> env_read env = None -> env_write env = None ->
  let fresh := marshalFile env k (newDefaultData env gluonDir) in
  newVault env path gluonDir k disk =
  match disk !! path with
  | None => let disk := <[path := fresh]> disk in (disk, Ok (mkVault path (Some k) fresh ∅ disk, None))
  | Some b =>
      match unmarshalFile env (Some k) b with
      | Ok _ => (disk, Ok (mkVault path (Some k) b ∅ disk, None))
      | Err (Fails corrupt) => let disk := <[path := fresh]> disk in (disk, Ok (mkVault path (Some k) fresh ∅ disk, Some corrupt))
      | Err Panics => (disk, Err Panics)
      end
  end.
Proof.
  intros Hn Hr Hw fresh. unfold newVault, initVault. fold fresh. rewrite Hr, Hw. destruct (disk !! path) as [b|] eqn:Hb.
  - rewrite Hb. by destruct (unmarshalFile env (Some k) b) as [d|[|e]].
  - rewrite lookup_insert_eq. subst fresh. by rewrite unmarshal_marshalFile.
Qed.

(** Logging in again keeps what the user had: the password for mail clients, the key and the
    identifiers of its messages, its mode and its sync status; only the session, the key
    password and a new name that is not blank are taken over, and no one else's data changes. *)
Theorem login_keeps_user env userID username primaryEmail authUID authRef keyPass k s us i u s' handle existed :
  venv_ok env -> vault_ok s k us -> handles_fit s -> find_user userID us = Some (i, u) ->
  GetOrAddUser env userID username primaryEmail authUID authRef keyPass s = (s', Ok (handle, existed)) ->
  existed = false /\ handle = userID /\ v_ref s' !! userID = Some (default 0 (v_ref s !! userID) + 1) /\
  let u' := with_ud_KeyPass keyPass (with_ud_AuthUID authUID (with_ud_AuthRef authRef u)) in
  let u' := if blank username then u' else with_ud_Username username u' in
  readable k (v_enc s') (<[i := u']> us).
Proof.
  intros Hn Hs Hfit Hf. unfold GetOrAddUser. unfold mbind at 1, eff_bind at 1. destruct (getUnsafe_ok env k s us Hs) as (d & -> & Hu).
  rewrite Hu, Hf. destruct (find_user_Some _ _ _ _ Hf) as [Hi Hid].
  assert (Hin : userID ∈ ids us) by (subst userID; apply list_elem_of_fmap; exists u; split; [done|by eapply list_elem_of_lookup_2]).
  pose proof (attach_vault_ok k s us userID Hs Hfit Hin) as Hs1. simpl in Hs1.
  assert (Href : i64 (default 0 (v_ref s !! userID) + 1) = default 0 (v_ref s !! userID) + 1).
  { apply i64_id. unfold i64_ok. destruct (v_ref s !! userID) as [n|] eqn:Hr; simpl; [|lia].
    specialize (Hfit _ _ Hr). destruct (ok_refs _ _ _ Hs _ _ Hr). simpl in *. lia. }
  unfold mbind, eff_bind. simpl. rewrite Href in *. set (s1 := set_ref _ s) in *.
  set (u1 := with_ud_KeyPass keyPass (with_ud_AuthUID authUID (with_ud_AuthRef authRef u))).
  destruct (setAuthAndKeyPassUnsafe env userID authUID authRef keyPass s1) as [s2 [[]|e]] eqn:Hauth; [|done].
  destruct (modUserUnsafe_vault_ok env userID (fun u => Ok (with_ud_KeyPass keyPass (with_ud_AuthUID authUID (with_ud_AuthRef authRef u))))
    k s1 us i u u1 Hn Hs1 Hf eq_refl eq_refl) as (Hs2 & _ & Hr2).
  unfold setAuthAndKeyPassUnsafe in Hauth. rewrite Hauth in Hs2, Hr2. simpl in Hs2, Hr2.
  assert (Hf2 : find_user userID (<[i := u1]> us) = Some (i, u1)).
  { apply list_find_Some in Hf as (_ & _ & Hmin). apply list_find_Some. split; [|split; [done|]].
    - apply list_lookup_insert_eq. by eapply lookup_lt_Some.
    - intros j x Hj Hlt. rewrite list_lookup_insert_ne in Hj by lia. by eapply Hmin. }
  unfold updateUsernameUnsafe. destruct (blank username); [|unfold mbind, eff_bind; rewrite (getUser_ok env userID k s2 _ i u1 Hs2 Hf2);
    destruct (String.eqb (ud_Username u1) username) eqn:He].
  - intros [= <- <- <-]. split; [done|]. split; [done|]. rewrite Hr2. split; [apply lookup_insert_eq|]. apply (ok_enc _ _ _ Hs2).
  - intros [= <- <- <-]. split; [done|]. split; [done|]. rewrite Hr2. split; [apply lookup_insert_eq|].
    apply String.eqb_eq in He. subst username. apply (ok_enc _ _ _ Hs2).
  - destruct (modUserUnsafe_vault_ok env userID (fun u => Ok (with_ud_Username username u)) k s2 _ i u1 _ Hn Hs2 Hf2 eq_refl eq_refl)
      as (Hs3 & _ & Hr3).
    destruct (modUserUnsafe env userID _ s2) as [s3 [[]|e]]; [|done]. simpl in *. intros [= <- <- <-].
    split; [done|]. split; [done|]. rewrite Hr3, Hr2. split; [apply lookup_insert_eq|].
    rewrite list_insert_insert_eq in Hs3. apply (ok_enc _ _ _ Hs3).
Qed.

End laws.

(** ** A concrete vault *)

#[local] Instance Q_eq_dec : EqDecision Q.
Proof. solve_decision. Defined.
#[local] Instance Q_countable : Countable Q.
Proof. refine (inj_countable' (fun q => (Qnum q, Qden q)) (fun '(n, d) => Qmake n d) _). by intros []. Defined.
#[local] Instance VaultMode_eq_dec : EqDecision UserIdentity.VaultMode.
Proof. solve_decision. Defined.
#[local] Instance VaultMode_countable : Countable UserIdentity.VaultMode.
Proof.
  refine (inj_countable' (fun m => match m with UserIdentity.CombinedMode => true | UserIdentity.SplitMode => false end)
    (fun b : bool => if b then UserIdentity.CombinedMode else UserIdentity.SplitMode) _). by intros [].
Defined.

#[local] Instance Settings_eq_dec : EqDecision Settings.
Proof. solve_decision. Defined.
#[local] Instance Settings_countable : Countable Settings.
Proof.
  refine (inj_countable' (fun x => (GluonDir x, IMAPPort x, SMTPPort x, IMAPSSL x, SMTPSSL x, UpdateChannel x, UpdateRollout x, ColorScheme x, ProxyAllowed x, ShowAllMail x, Autostart x, AutoUpdate x, TelemetryDisabled x, LastVersion x, FirstStart x, MaxSyncMemory x, LastUserAgent x, LastHeartbeatSent x, Archive x, SyncWorkers x, SyncAttPool x))
    (fun '(a0, a1, a2, a3, a4, a5, a6, a7, a8, a9, a10, a11, a12, a13, a14, a15, a16, a17, a18, a19, a20) => mkSettings a0 a1 a2 a3 a4 a5 a6 a7 a8 a9 a10 a11 a12 a13 a14 a15 a16 a17 a18 a19 a20) _).
  by intros [].
Defined.

#[local] Instance VaultSyncStatus_eq_dec : EqDecision VaultSyncStatus.
Proof. solve_decision. Defined.
#[local] Instance VaultSyncStatus_countable : Countable VaultSyncStatus.
Proof.
  refine (inj_countable' (fun x => (vs_HasLabels x, vs_HasMessages x, vs_LastMessageID x, vs_FailedMessageIDs x))
    (fun '(a0, a1, a2, a3) => mkVaultSyncStatus a0 a1 a2 a3) _).
  by intros [].
Defined.

#[local] Instance UserData_eq_dec : EqDecision UserData.
Proof. solve_decision. Defined.
#[local] Instance UserData_countable : Countable UserData.
Proof.
  refine (inj_countable' (fun x => (ud_UserID x, ud_Username x, ud_PrimaryEmail x, ud_GluonKey x, ud_GluonIDs x, ud_BridgePass x, ud_AddressMode x, ud_AuthUID x, ud_AuthRef x, ud_KeyPass x, ud_SyncStatus x, ud_EventID x, ud_UIDValidity x, ud_ShouldResync x))
    (fun '(a0, a1, a2, a3, a4, a5, a6, a7, a8, a9, a10, a11, a12, a13) => mkUserData a0 a1 a2 a3 a4 a5 a6 a7 a8 a9 a10 a11 a12 a13) _).
  by intros [].
Defined.

#[local] Instance Cert_eq_dec : EqDecision Cert.
Proof. solve_decision. Defined.
#[local] Instance Cert_countable : Countable Cert.
Proof.
  refine (inj_countable' (fun x => (cert_Cert x, cert_Key x))
    (fun '(a0, a1) => mkCert a0 a1) _).
  by intros [].
Defined.

#[local] Instance Certs_eq_dec : EqDecision Certs.
Proof. solve_decision. Defined.
#[local] Instance Certs_countable : Countable Certs.
Proof.
  refine (inj_countable' (fun x => (certs_Bridge x, CustomCertPath x, CustomKeyPath x))
    (fun '(a0, a1, a2) => mkCerts a0 a1 a2) _).
  by intros [].
Defined.

#[local] Instance Data_eq_dec : EqDecision Data.
Proof. solve_decision. Defined.
#[local] Instance Data_countable : Countable Data.
Proof.
  refine (inj_countable' (fun x => (Data_Settings x, Data_Users x, Data_Cookies x, Data_Certs x, Data_Migrated x, FeatureFlagStickyKey x))
    (fun '(a0, a1, a2, a3, a4, a5) => mkData a0 a1 a2 a3 a4 a5) _).
  by intros [].
Defined.

#[local] Instance Settings_2_4_x_eq_dec : EqDecision Settings_2_4_x.
Proof. solve_decision. Defined.
#[local] Instance Settings_2_4_x_countable : Countable Settings_2_4_x.
Proof.
  refine (inj_countable' (fun x => (s24_GluonDir x, s24_IMAPPort x, s24_SMTPPort x))
    (fun '(a0, a1, a2) => mkSettings_2_4_x a0 a1 a2) _).
  by intros [].
Defined.

#[local] Instance UserData_2_4_x_eq_dec : EqDecision UserData_2_4_x.
Proof. solve_decision. Defined.
#[local] Instance UserData_2_4_x_countable : Countable UserData_2_4_x.
Proof.
  refine (inj_countable' (fun x => (u24_UserID x, u24_Username x, u24_GluonKey x, u24_SplitMode x))
    (fun '(a0, a1, a2, a3) => mkUserData_2_4_x a0 a1 a2 a3) _).
  by intros [].
Defined.

#[local] Instance Data_2_4_x_eq_dec : EqDecision Data_2_4_x.
Proof. solve_decision. Defined.
#[local] Instance Data_2_4_x_countable : Countable Data_2_4_x.
Proof.
  refine (inj_countable' (fun x => (d24_Settings x, d24_Users x))
    (fun '(a0, a1) => mkData_2_4_x a0 a1) _).
  by intros [].
Defined.

(** Data as one number; how is of no interest. *)
Lemma numbering A `{Countable A} : { f : (A -> bytes) * (bytes -> option A) | forall a, f.2 (f.1 a) = Some a }.
Proof.
  exists (fun a => [Zpos (encode a)], fun b => match b with [Zpos p] => decode p | _ => None end). intros a. apply decode_encode.
Qed.
Definition number {A} `{Countable A} (a : A) : bytes := (proj1_sig (numbering A)).1 a.
Definition unnumber {A} `{Countable A} (b : bytes) : option A := (proj1_sig (numbering A)).2 b.

Lemma unnumber_number {A} `{Countable A} (a : A) : unnumber (number a) = Some a.
Proof. unfold unnumber, number. apply (proj2_sig (numbering A)). Qed.

(** Data is a number, and nothing is encrypted. *)
#[local] Instance ex_codec : VaultCodec := {
  gcm := ();
  newGCM := fun _ => ();
  NonceSize := 1;
  gcm_Seal := fun _ _ dec => dec;
  gcm_Open := fun _ _ b => Some b;
  marshal_File := number;
  unmarshal_File := unnumber;
  marshal_Data := number;
  unmarshal_Data := unnumber;
  marshal_2_4_x := number;
  unmarshal_2_4_x := unnumber;
  unmarshal_2_3_x := fun _ => Some (mkData_2_3_x (mkSettings_2_3_x "old" "1143" "+1025") [mkUserData_2_3_x "u" "me" [1] true]);
  emailHashString := fun s => s
}.

#[local] Instance ex_laws : VaultCodecLaws.
Proof. split; intros; [done|apply unnumber_number..]. Qed.

Definition ex_key : @gcm ex_codec := ().

Definition ex_env : venv :=
  mkVenv [16] [32] [7] "uuid" (mkCert [1] [2]) (1 # 2) (fun _ _ => false) 4 None None None None (fun _ _ => Err (VErr "no file")).

Definition ex_path : string := "vault.enc".
Definition ex_open : gmap string bytes * result fault (Vault * option verr) := newVault ex_env ex_path "gluon" ex_key ∅.
Definition ex_vault : Vault :=
  let enc := marshalFile ex_env ex_key (newDefaultData ex_env "gluon") in mkVault ex_path (Some ex_key) enc ∅ (<[ex_path := enc]> ∅).

Lemma ex_open_ok : ex_open = (v_disk ex_vault, Ok (ex_vault, None)).
Proof. by apply (newVault_fresh ex_env ex_path "gluon" ex_key ∅). Qed.

Lemma ex_reachable : reachable ex_key ex_vault.
Proof.
  eapply (reach_open ex_key ex_env ex_path "gluon" ∅); [done|exact ex_open_ok|]. intros b Hb. by rewrite lookup_empty in Hb.
Qed.

Lemma newVault_outcome_witness : ex_open = (v_disk ex_vault, Ok (ex_vault, None)).
Proof. unfold ex_open. rewrite (newVault_outcome ex_env ex_path "gluon" ex_key ∅ eq_refl eq_refl eq_refl). reflexivity. Defined.


Lemma migration_2_3_x_witness :
  exists d, unmarshalFile ex_env (Some ex_key) (marshal_File (v2_3_x, [7] ++ gcm_Seal ex_key [7] [5])) = Ok d /\
    IMAPPort (Data_Settings d) = 1143 /\ SMTPPort (Data_Settings d) = 1025.
Proof.
  destruct (migration_2_3_x ex_env ex_key (marshal_File (v2_3_x, [7] ++ gcm_Seal ex_key [7] [5])) [7] [5]
    (mkData_2_3_x (mkSettings_2_3_x "old" "1143" "+1025") [mkUserData_2_3_x "u" "me" [1] true]) 1143 1025)
    as (d & Hd & _ & Hi & Hs & _); [apply unmarshal_marshal_File|reflexivity|reflexivity|vm_compute; reflexivity|vm_compute; reflexivity|].
  exists d. split; [exact Hd|]. split; [exact Hi|exact Hs].
Defined.

(** A vault with these users. *)
Definition ex_data (us : list UserData) : Data := set_Users us (newDefaultData ex_env "gluon").
Definition ex_with (us : list UserData) (ref : gmap string Z) : Vault :=
  let enc := marshalFile ex_env ex_key (ex_data us) in mkVault ex_path (Some ex_key) enc ref (<[ex_path := enc]> ∅).

Lemma ex_with_ok us ref : NoDup (ids us) -> refs_ok us ref -> vault_ok (ex_with us ref) ex_key us.
Proof.
  intros Hnd Hrefs. assert (readable ex_key (marshalFile ex_env ex_key (ex_data us)) us) by by apply (readable_marshalFile ex_env ex_key (ex_data us)).
  split; try done. exists (marshalFile ex_env ex_key (ex_data us)), us. split; [|done]. simpl. apply lookup_insert_eq.
Qed.

Definition ex_user : UserData := newDefaultUser ex_env "u" "me" "me@pm.me" "uid" "ref" [1] [9; 9].

Lemma mod_succeeds fn s d d' :
  v_gcm s = Some ex_key -> unmarshalFile ex_env (Some ex_key) (v_enc s) = Ok d -> fn d = Ok d' ->
  modUnsafe ex_env fn s =
  (mkVault (v_path s) (Some ex_key) (marshalFile ex_env ex_key d') (v_ref s)
     (<[v_path s := marshalFile ex_env ex_key d']> (delete (tmp_path (v_path s)) (<[tmp_path (v_path s) := marshalFile ex_env ex_key d']> (v_disk s)))), Ok ()).
Proof. intros Hk Hd Hfn. unfold modUnsafe. rewrite Hk, Hd, Hfn. unfold set_disk, set_enc. simpl. by rewrite Hk. Qed.

Lemma ex_with_decodes us ref : unmarshalFile ex_env (Some ex_key) (v_enc (ex_with us ref)) = Ok (ex_data us).
Proof. by apply unmarshal_marshalFile. Qed.

#[local] Tactic Notation "mod_in" hyp(H) uconstr(dec) :=
  match type of H with context [modUnsafe ex_env ?fn ?s] => rewrite (mod_succeeds fn s _ _ eq_refl dec eq_refl) in H end.

Lemma change_survives_restart_witness :
  exists s' s2, SetIMAPPort ex_env 1144 ex_vault = (s', Ok ()) /\
    newVault ex_env ex_path "gluon" ex_key (v_disk s') = (v_disk s', Ok (s2, None)) /\
    exists d', getSafe ex_env s2 = (s2, Ok d') /\ IMAPPort (Data_Settings d') = 1144.
Proof.
  destruct (SetIMAPPort ex_env 1144 ex_vault) as [s' r] eqn:Hrun.
  assert (r = Ok ()) as ->.
  { unfold SetIMAPPort, modSafe in Hrun. mod_in Hrun (ex_with_decodes [] ∅). by injection Hrun. }
  destruct (change_survives_restart ex_env ex_env _ "gluon" ex_vault s' ex_key eq_refl eq_refl Hrun eq_refl)
    as (d & d' & s2 & _ & Hd' & Hopen & Hget & _).
  exists s', s2. split; [reflexivity|]. split; [exact Hopen|]. exists d'. split; [apply Hget|]. by injection Hd' as <-.
Defined.

Lemma login_keeps_user_witness :
  exists s' handle, GetOrAddUser ex_env "u" "new" "me@pm.me" "uid2" "ref2" [2] (ex_with [ex_user] ∅) = (s', Ok (handle, false)) /\
    readable ex_key (v_enc s') [with_ud_Username "new" (with_ud_KeyPass [2] (with_ud_AuthUID "uid2" (with_ud_AuthRef "ref2" ex_user)))].
Proof.
  assert (Hs : vault_ok (ex_with [ex_user] ∅) ex_key [ex_user]) by (apply ex_with_ok; [apply NoDup_singleton|apply map_Forall_empty]).
  destruct (GetOrAddUser ex_env "u" "new" "me@pm.me" "uid2" "ref2" [2] (ex_with [ex_user] ∅)) as [s' r] eqn:Hrun.
  assert (Hr : exists x, r = Ok x).
  { unfold GetOrAddUser, getUnsafe, mbind, eff_bind, reads in Hrun. simpl v_gcm in Hrun. rewrite ex_with_decodes in Hrun.
    assert (Hf1 : find_user "u" (Data_Users (ex_data [ex_user])) = Some (0%nat, ex_user)) by (vm_compute; reflexivity).
    rewrite Hf1 in Hrun. cbv beta iota in Hrun.
    unfold attachUserUnsafe at 1 in Hrun. unfold setAuthAndKeyPassUnsafe, modUserUnsafe in Hrun.
    mod_in Hrun (ex_with_decodes [ex_user] ∅). cbv beta iota in Hrun.
    unfold updateUsernameUnsafe in Hrun. change (blank "new") with false in Hrun. cbv beta iota in Hrun.
    unfold getUser, getSafe, getUnsafe, mbind, eff_bind, reads in Hrun. cbn [v_gcm v_enc] in Hrun.
    rewrite unmarshal_marshalFile in Hrun by reflexivity.
    match type of Hrun with context [find_user "u" ?l] => assert (Hf2 : find_user "u" l =
      Some (0%nat, with_ud_KeyPass [2] (with_ud_AuthUID "uid2" (with_ud_AuthRef "ref2" ex_user)))) by (vm_compute; reflexivity) end.
    rewrite Hf2 in Hrun.
    unfold mret, eff_ret in Hrun. cbv beta iota in Hrun.
    match type of Hrun with context [String.eqb ?a "new"] => change (String.eqb a "new") with false in Hrun end.
    cbv beta iota in Hrun. unfold modUserUnsafe in Hrun.
    mod_in Hrun (unmarshal_marshalFile ex_env ex_env ex_key _ eq_refl).
    injection Hrun as _ <-. by eexists. }
  destruct Hr as [[handle existed] ->].
  destruct (login_keeps_user ex_env "u" "new" "me@pm.me" "uid2" "ref2" [2] ex_key (ex_with [ex_user] ∅) [ex_user] 0 ex_user s' handle existed)
    as (-> & _ & _ & Hread); [reflexivity|exact Hs|apply map_Forall_empty|reflexivity|exact Hrun|].
  exists s', handle. split; [reflexivity|exact Hread].
Defined.

Lemma password_restored_witness :
  exists s1 s2 handle u', DeleteUser ex_env "u" (ex_with [ex_user] ∅) = (s1, Ok ()) /\
    AddUser ex_env "u" "me" "me@pm.me" "uid2" "ref2" [2] s1 = (s2, Ok handle) /\
    getUser ex_env "u" s2 = (s2, Ok u') /\ ud_BridgePass u' = [9; 9].
Proof.
  assert (Hs : vault_ok (ex_with [ex_user] ∅) ex_key [ex_user]) by (apply ex_with_ok; [apply NoDup_singleton|apply map_Forall_empty]).
  destruct (DeleteUser ex_env "u" (ex_with [ex_user] ∅)) as [s1 r] eqn:Hdel.
  destruct (AddUser ex_env "u" "me" "me@pm.me" "uid2" "ref2" [2] s1) as [s2 r2] eqn:Hadd.
  assert (Hr : r = Ok () /\ exists x, r2 = Ok x).
  { unfold DeleteUser in Hdel. cbn [ex_with v_ref] in Hdel. rewrite lookup_empty in Hdel.
    mod_in Hdel (ex_with_decodes [ex_user] ∅).
    pose proof (f_equal fst Hdel) as H1. pose proof (f_equal snd Hdel) as H2. cbn [fst snd] in H1, H2. subst s1 r. split; [reflexivity|].
    unfold AddUser, addUserUnsafe, mbind, eff_bind, reads in Hadd. cbn [v_gcm v_enc] in Hadd.
    cbn [ex_with v_gcm] in Hadd. rewrite unmarshal_marshalFile in Hadd by reflexivity.
    mod_in Hadd (unmarshal_marshalFile ex_env ex_env ex_key _ eq_refl). cbv beta iota in Hadd.
    match type of Hadd with context [find_user "u" ?l] => assert (Hf1 : find_user "u" l = None) by (vm_compute; reflexivity) end.
    rewrite Hf1 in Hadd.
    injection Hadd as _ <-. by eexists. }
  destruct Hr as [-> [handle ->]].
  destruct (password_restored ex_env ex_env ex_key (ex_with [ex_user] ∅) [ex_user] "u" 0 ex_user s1 [] "u" "me" "uid2" "ref2" [2] s2 handle ex_env)
    as (u' & Hu & Hp & _); [reflexivity|reflexivity|constructor|exact Hs|reflexivity|discriminate|exact Hdel|exact Hadd|].
  exists s1, s2, handle, u'. split; [reflexivity|]. split; [exact Hadd|]. split; [exact Hu|exact Hp].
Defined.
