(* ===== verification/MailServers.v ===== *)
(** * The IMAP and SMTP servers (internal/services/imapsmtpserver)

    One service owns both servers and their listeners.  It handles requests and changes
    of the connection one at a time, tells the application what it does with events, and
    attaches the addresses of the accounts to the IMAP server, which keeps a database
    per address.

    The IMAP library, the store of the identifiers of the databases and the sync state
    are the class [ImapBackend]; the system answers through [srv_env]. *)

From S2P Require Import Prelude.
From S2P Require Import UserEvents.
From S2P Require Import Effects.
From S2P Require SmtpAccounts.
From stdpp Require Import pretty.

(** The IMAP server (its databases are named by Gluon identifiers), and for each account its
    identifiers by address and whether its labels were synced.  The connector and the
    key of the database are passed on and left out. *)
Class ImapBackend (W : Type) : Type := {
  LoadUser : string -> W -> W * result err bool;
  RemoveUser : string -> bool -> W -> W * option err;
  AddUser : W -> W * result err string;
  GetAllMailboxRemoteIDsForUser : string -> W -> result err (list string);
  GetGluonID : string -> string -> W -> option string;
  SetGluonID : string -> string -> string -> W -> W * option err;
  RemoveGluonID : string -> string -> string -> W -> W * option err;
  ClearSyncStatus : string -> W -> W * option err;
  GetHasLabels : string -> W -> result err bool
}.

Inductive server_event : Type :=
| IMAPServerCreated
| IMAPServerReady (port : Z)
| IMAPServerStopped
| IMAPServerClosed
| IMAPServerError
| SMTPServerReady (port : Z)
| SMTPServerStopped
| SMTPServerError.

(** A handler returns an error or panics. *)
Inductive serr : Type := SPanics | SFails (e : err).

(** What the system answers while one request is handled: listening gives the port. *)
Record srv_env : Type := mkSrvEnv {
  env_listenIMAP : result err Z;
  env_closeIMAPListener : option err;
  env_serveIMAP : option err;
  env_setIMAPPort : option err;
  env_closeIMAPServer : option err;
  env_newIMAPServer : option err;
  env_DataDirectory : option err;
  env_listenSMTP : result err Z;
  env_closeSMTPListener : option err;
  env_setSMTPPort : option err;
  env_CopyDir : option err;
  env_SetCacheDirectory : option err;
  env_revertCacheDirectory : option err
}.

Section servers.
Context {W : Type} `{IB : ImapBackend W} `{ACC : SmtpAccounts.SMTPService}.

(** A listener is named by its port. *)
Record Servers : Type := mkServers {
  imapServer : bool;
  imapListener : option Z;
  smtpServer : bool;
  smtpListener : option Z;
  smtpAccounts : gmap string SmtpAccounts.smtpAccountState;
  imapPort : Z;
  smtpPort : Z;
  cacheDirectory : string;
  sm_events : list server_event;
  sm_world : W
}.

Definition set_imapServer (b : bool) (s : Servers) : Servers :=
  mkServers b (imapListener s) (smtpServer s) (smtpListener s) (smtpAccounts s) (imapPort s) (smtpPort s) (cacheDirectory s) (sm_events s) (sm_world s).
Definition set_imapListener (l : option Z) (s : Servers) : Servers :=
  mkServers (imapServer s) l (smtpServer s) (smtpListener s) (smtpAccounts s) (imapPort s) (smtpPort s) (cacheDirectory s) (sm_events s) (sm_world s).
Definition set_smtpServer (b : bool) (s : Servers) : Servers :=
  mkServers (imapServer s) (imapListener s) b (smtpListener s) (smtpAccounts s) (imapPort s) (smtpPort s) (cacheDirectory s) (sm_events s) (sm_world s).
Definition set_smtpListener (l : option Z) (s : Servers) : Servers :=
  mkServers (imapServer s) (imapListener s) (smtpServer s) l (smtpAccounts s) (imapPort s) (smtpPort s) (cacheDirectory s) (sm_events s) (sm_world s).
Definition set_accounts (a : gmap string SmtpAccounts.smtpAccountState) (s : Servers) : Servers :=
  mkServers (imapServer s) (imapListener s) (smtpServer s) (smtpListener s) a (imapPort s) (smtpPort s) (cacheDirectory s) (sm_events s) (sm_world s).
Definition set_imapPort (p : Z) (s : Servers) : Servers :=
  mkServers (imapServer s) (imapListener s) (smtpServer s) (smtpListener s) (smtpAccounts s) p (smtpPort s) (cacheDirectory s) (sm_events s) (sm_world s).
Definition set_smtpPort (p : Z) (s : Servers) : Servers :=
  mkServers (imapServer s) (imapListener s) (smtpServer s) (smtpListener s) (smtpAccounts s) (imapPort s) p (cacheDirectory s) (sm_events s) (sm_world s).
Definition set_cacheDirectory (d : string) (s : Servers) : Servers :=
  mkServers (imapServer s) (imapListener s) (smtpServer s) (smtpListener s) (smtpAccounts s) (imapPort s) (smtpPort s) d (sm_events s) (sm_world s).
Definition set_world (w : W) (s : Servers) : Servers :=
  mkServers (imapServer s) (imapListener s) (smtpServer s) (smtpListener s) (smtpAccounts s) (imapPort s) (smtpPort s) (cacheDirectory s) (sm_events s) w.
Definition publish_event (e : server_event) (s : Servers) : Servers :=
  mkServers (imapServer s) (imapListener s) (smtpServer s) (smtpListener s) (smtpAccounts s) (imapPort s) (smtpPort s) (cacheDirectory s)
    (sm_events s ++ [e]) (sm_world s).

Notation M := (eff Servers serr).

Definition fail (e : err) : serr := SFails e.
Definition wrap_err (msg : string) (e : serr) : serr := match e with SPanics => SPanics | SFails e => SFails (ErrWrap msg e) end.
Definition publish (e : server_event) : M () := modify (publish_event e).
Definition answer (e : option err) : M () := calls (fun s => (s, fail <$> e)).
Definition backend {A} (f : W -> W * result err A) : M A := fun s =>
  let '(w, r) := f (sm_world s) in (set_world w s, match r with Ok a => Ok a | Err e => Err (fail e) end).
Definition backend_err (f : W -> W * option err) : M () := backend (fun w => let '(w, e) := f w in (w, match e with None => Ok () | Some e => Err e end)).

(** ** Starting and stopping *)

Definition close_imap_listener (env : srv_env) (wrap : serr -> serr) : M () :=
  s ← get;
  match imapListener s with
  | None => mret ()
  | Some _ =>
      wrapping wrap (answer (env_closeIMAPListener env)) ≫= fun _ =>
      modify (set_imapListener None) ≫= fun _ => publish IMAPServerStopped
  end.

Definition stopIMAPListener (env : srv_env) : M () := close_imap_listener env id.

Definition closeSMTPServer (env : srv_env) : M () :=
  s ← get;
  (match smtpListener s with
   | None => mret ()
   | Some _ =>
       wrapping (wrap_err "failed to close SMTP listener") (answer (env_closeSMTPListener env)) ≫= fun _ =>
       modify (set_smtpListener None)
   end) ≫= fun _ =>
  s ← get;
  (if smtpServer s then modify (set_smtpServer false) ≫= fun _ => publish SMTPServerStopped else mret ()).

Definition closeIMAPServer (env : srv_env) : M () :=
  close_imap_listener env (wrap_err "failed to close IMAP listener") ≫= fun _ =>
  s ← get;
  (if imapServer s then
     wrapping (wrap_err "failed to close IMAP server") (answer (env_closeIMAPServer env)) ≫= fun _ =>
     modify (set_imapServer false) ≫= fun _ => publish IMAPServerClosed
   else mret ()).

(** [if err != nil { publish(failed) } else { publish(ready(port)) }]. *)
Definition announcing (failed : server_event) (ready : Z -> server_event) (m : M Z) : M () := fun s =>
  match m s with
  | (s, Err e) => (publish_event failed s, Err e)
  | (s, Ok port) => (publish_event (ready port) s, Ok ())
  end.

Definition listening (r : result err Z) : M Z := reads (fun _ => match r with Ok p => Ok p | Err e => Err (fail e) end).

Definition serveSMTP (env : srv_env) : M () := announcing SMTPServerError SMTPServerReady (
  port ← wrapping (wrap_err "failed to create SMTP listener") (listening (env_listenSMTP env));
  modify (set_smtpListener (Some port)) ≫= fun _ =>
  wrapping (wrap_err "failed to store SMTP port in vault") (answer (env_setSMTPPort env)) ≫= fun _ =>
  modify (set_smtpPort port) ≫= fun _ => mret port).

Definition serveIMAP (env : srv_env) : M () := announcing IMAPServerError IMAPServerReady (
  s ← get;
  if negb (imapServer s) then fails (fail (ErrOther "no IMAP server instance running"))
  else
    port ← wrapping (wrap_err "failed to create IMAP listener") (listening (env_listenIMAP env));
    modify (set_imapListener (Some port)) ≫= fun _ =>
    wrapping (wrap_err "failed to serve IMAP") (answer (env_serveIMAP env)) ≫= fun _ =>
    wrapping (wrap_err "failed to store IMAP port in vault") (answer (env_setIMAPPort env)) ≫= fun _ =>
    modify (set_imapPort port) ≫= fun _ => mret port).

Definition restartIMAP (env : srv_env) : M () :=
  close_imap_listener env (wrap_err "failed to close IMAP listener") ≫= fun _ => serveIMAP env.

Definition restartSMTP (env : srv_env) : M () :=
  wrapping (wrap_err "failed to close SMTP") (closeSMTPServer env) ≫= fun _ =>
  publish SMTPServerStopped ≫= fun _ =>
  modify (set_smtpServer true) ≫= fun _ => serveSMTP env.

(** The errors are logged. *)
Definition handleLoadedUserCountChange (env : srv_env) : M () :=
  s ← get;
  (match imapListener s with None => ignoring (serveIMAP env) | Some _ => mret () end) ≫= fun _ =>
  s ← get;
  match smtpListener s with None => ignoring (restartSMTP env) | Some _ => mret () end.

Definition handleClose (env : srv_env) : M () :=
  ignoring (closeIMAPServer env) ≫= fun _ => ignoring (closeSMTPServer env).

Definition createIMAPServer (env : srv_env) : M () :=
  wrapping (wrap_err "failed to get Gluon Database directory") (answer (env_DataDirectory env)) ≫= fun _ =>
  answer (env_newIMAPServer env) ≫= fun _ => publish IMAPServerCreated.

(** [Init]: a listener that fails at the start is forgotten. *)
Definition forgetting (m : M ()) (forget : Servers -> Servers) : M () := fun s =>
  match m s with (s, Err _) => (forget s, Ok ()) | r => r end.

Definition Init (env : srv_env) : M () :=
  createIMAPServer env ≫= fun _ =>
  modify (fun s => set_smtpServer true (set_imapServer true s)) ≫= fun _ =>
  forgetting (serveIMAP env) (set_imapListener None) ≫= fun _ =>
  forgetting (serveSMTP env) (set_smtpListener None).

(** ** The addresses of the accounts *)

Definition no_server : serr := fail (ErrOther "no imap server instance running").

Definition load_user (user addrID gluonID : string) : M () :=
  isNew ← wrapping (wrap_err "failed to load IMAP user") (backend (LoadUser gluonID));
  if isNew : bool then
    wrapping (wrap_err "failed to remove IMAP user") (backend_err (RemoveUser gluonID false)) ≫= fun _ =>
    wrapping (wrap_err "failed to clear sync status") (backend_err (ClearSyncStatus user)) ≫= fun _ =>
    isNew ← wrapping (wrap_err "failed to add IMAP user") (backend (LoadUser gluonID));
    if isNew : bool then fails SPanics else mret ()
  else
    hasLabels ← wrapping (wrap_err "failed to get sync status") (backend (fun w => (w, GetHasLabels user w)));
    if negb (hasLabels : bool) then
      wrapping (wrap_err "failed to remove old IMAP user") (backend_err (RemoveUser gluonID true)) ≫= fun _ =>
      wrapping (wrap_err "failed to remove old IMAP user ID") (backend_err (RemoveGluonID user addrID gluonID)) ≫= fun _ =>
      gluonID ← wrapping (wrap_err "failed to add IMAP user") (backend AddUser);
      wrapping (wrap_err "failed to set IMAP user ID") (backend_err (SetGluonID user addrID gluonID))
    else mret ().

Definition create_user (user addrID : string) : M () :=
  wrapping (wrap_err "failed to reset sync status") (backend_err (ClearSyncStatus user)) ≫= fun _ =>
  gluonID ← wrapping (wrap_err "failed to add IMAP user") (backend AddUser);
  wrapping (wrap_err "failed to set IMAP user ID") (backend_err (SetGluonID user addrID gluonID)).

Definition handleAddIMAPUserImpl (user addrID : string) : M () :=
  s ← get;
  if negb (imapServer s) then fails no_server
  else
    match GetGluonID user addrID (sm_world s) with
    | Some gluonID => load_user user addrID gluonID
    | None => create_user user addrID
    end.
Definition handleAddIMAPUser (user addrID : string) : M () := handleAddIMAPUserImpl user addrID.

Definition remove_address (user : string) (withData : bool) (addrID : string) : M () :=
  s ← get;
  match GetGluonID user addrID (sm_world s) with
  | None => mret ()
  | Some gluonID =>
      wrapping (wrap_err "failed to remove IMAP user") (backend_err (RemoveUser gluonID withData)) ≫= fun _ =>
      if withData : bool then wrapping (wrap_err "failed to remove IMAP user ID") (backend_err (RemoveGluonID user addrID gluonID))
      else mret ()
  end.

Definition handleRemoveIMAPUser (user : string) (withData : bool) (addrIDs : list string) : M () :=
  s ← get;
  if negb (imapServer s) then fails no_server else for_each addrIDs (remove_address user withData).

(** The labels are only logged. *)
Definition logRemoteLabelIDsFromServer (addrIDs : list string) : M () :=
  s ← get; if negb (imapServer s) then fails no_server else mret ().

(** ** Moving the cache *)

Definition gluon_dir (dir : string) : string := dir +:+ "/gluon".

Definition moveGluonCacheDir (env : srv_env) (newGluonDir : string) : M () :=
  wrapping (wrap_err "failed to copy gluon dir") (answer (env_CopyDir env)) ≫= fun _ =>
  wrapping (wrap_err "failed to set new gluon cache dir") (answer (env_SetCacheDirectory env)) ≫= fun _ =>
  modify (set_cacheDirectory newGluonDir).

(** After a failed move the setting is written back, and the error of the move is returned. *)
Definition reverting (env : srv_env) (currentGluonDir : string) (m : M ()) : M () := fun s =>
  match m s with
  | (s, Err e) =>
      match env_revertCacheDirectory env with
      | Some e' => (s, Err (SFails (ErrWrap "failed to revert GluonCacheDir" e')))
      | None => (set_cacheDirectory currentGluonDir s, Err e)
      end
  | r => r
  end.

Definition handleSetGluonDir (env : srv_env) (dir : string) : M () :=
  s ← get;
  let currentGluonDir := cacheDirectory s in
  let newGluonDir := gluon_dir dir in
  if String.eqb newGluonDir currentGluonDir then fails (fail (ErrOther "new gluon dir is the same as the old one"))
  else
    wrapping (wrap_err "failed to close IMAP") (closeIMAPServer env) ≫= fun _ =>
    reverting env currentGluonDir (moveGluonCacheDir env newGluonDir) ≫= fun _ =>
    wrapping (wrap_err "failed to create new IMAP server") (createIMAPServer env) ≫= fun _ =>
    modify (set_imapServer true) ≫= fun _ =>
    wrapping (wrap_err "failed to serve IMAP") (serveIMAP env).

(** ** The loop *)

Inductive srv_request : Type :=
| smRequestClose
| smRequestRestartIMAP
| smRequestRestartSMTP
| smRequestAddIMAPUser (user addrID : string)
| smRequestLogRemoteMailboxIDs (addrIDs : list string)
| smRequestRemoveIMAPUser (user : string) (withData : bool) (addrIDs : list string)
| smRequestSetGluonDir (dir : string)
| smRequestAddSMTPAccount (account : SmtpAccounts.Service)
| smRequestRemoveSMTPAccount (account : SmtpAccounts.Service).

(** [request.Reply(err); if err == nil { then }]. *)
Definition replying (m next : M ()) : M () := fun s =>
  match m s with
  | (s, Ok _) => ((next s).1, Ok ())
  | (s, Err e) => (s, Err e)
  end.

(** The reply to a request. *)
Definition srv_serve (env : srv_env) (r : srv_request) : M () :=
  match r with
  | smRequestClose => handleClose env
  | smRequestRestartSMTP => restartSMTP env
  | smRequestRestartIMAP => restartIMAP env
  | smRequestAddIMAPUser user addrID => replying (handleAddIMAPUser user addrID) (handleLoadedUserCountChange env)
  | smRequestLogRemoteMailboxIDs addrIDs => logRemoteLabelIDsFromServer addrIDs
  | smRequestRemoveIMAPUser user withData addrIDs =>
      replying (handleRemoveIMAPUser user withData addrIDs) (handleLoadedUserCountChange env)
  | smRequestSetGluonDir dir => handleSetGluonDir env dir
  | smRequestAddSMTPAccount account => modify (fun s => set_accounts (SmtpAccounts.AddAccount account (smtpAccounts s)) s)
  | smRequestRemoveSMTPAccount account => modify (fun s => set_accounts (SmtpAccounts.RemoveAccount account (smtpAccounts s)) s)
  end.

(** One iteration of [run]. *)
Inductive srv_input : Type :=
| SrvConnStatusDown
| SrvConnStatusUp
| SrvRequest (r : srv_request).

Definition srv_step (env : srv_env) (i : srv_input) : M () :=
  match i with
  | SrvConnStatusDown => ignoring (closeSMTPServer env) ≫= fun _ => ignoring (stopIMAPListener env)
  | SrvConnStatusUp => handleLoadedUserCountChange env
  | SrvRequest r => srv_serve env r
  end.

(** ** What the events tell *)

(** The port of the IMAP server (of the SMTP server) for one who follows the events. *)
Definition imap_follow (up : option Z) (e : server_event) : option Z :=
  match e with
  | IMAPServerReady p => Some p
  | IMAPServerStopped | IMAPServerClosed | IMAPServerError => None
  | _ => up
  end.
Definition imap_up (l : list server_event) : option Z := foldl imap_follow None l.
Definition smtp_follow (up : option Z) (e : server_event) : option Z :=
  match e with
  | SMTPServerReady p => Some p
  | SMTPServerStopped | SMTPServerError => None
  | _ => up
  end.
Definition smtp_up (l : list server_event) : option Z := foldl smtp_follow None l.

Lemma imap_up_snoc l e : imap_up (l ++ [e]) = imap_follow (imap_up l) e.
Proof. apply foldl_snoc. Qed.
Lemma smtp_up_snoc l e : smtp_up (l ++ [e]) = smtp_follow (smtp_up l) e.
Proof. apply foldl_snoc. Qed.

(** Once the port is taken, serving and storing the port succeed. *)
Definition healthy (env : srv_env) : Prop :=
  env_serveIMAP env = None /\ env_setIMAPPort env = None /\ env_setSMTPPort env = None.

(** With [b], the events tell exactly which listeners are open. *)
Record srv_ok (b : bool) (s : Servers) : Prop := {
  srv_imap : imapListener s <> None -> imapServer s = true;
  srv_smtp : smtpListener s <> None -> smtpServer s = true;
  srv_imap_up : forall p, imap_up (sm_events s) = Some p -> imapListener s = Some p;
  srv_smtp_up : forall p, smtp_up (sm_events s) = Some p -> smtpListener s = Some p;
  srv_exact : b = true -> imap_up (sm_events s) = imapListener s /\ smtp_up (sm_events s) = smtpListener s
}.

(** Nothing of the servers changes: an event that is not followed, a setting or the databases. *)
Lemma srv_ok_same b s s' :
  imapServer s' = imapServer s -> imapListener s' = imapListener s -> smtpServer s' = smtpServer s ->
  smtpListener s' = smtpListener s -> imap_up (sm_events s') = imap_up (sm_events s) ->
  smtp_up (sm_events s') = smtp_up (sm_events s) -> srv_ok b s -> srv_ok b s'.
Proof. intros H1 H2 H3 H4 H5 H6 [A B C D E]. split; rewrite ?H1, ?H2, ?H3, ?H4, ?H5, ?H6; done. Qed.

#[local] Ltac srv_solve :=
  repeat match goal with H : srv_ok _ _ |- _ => destruct H end;
  split; simpl in *; rewrite ?imap_up_snoc, ?smtp_up_snoc; simpl; try done; try congruence; naive_solver.

Lemma close_imap_listener_ok b env wrap s :
  srv_ok b s ->
  wp (close_imap_listener env wrap) (fun r s' => srv_ok b s' /\ (r = Ok () -> imapListener s' = None)) s.
Proof.
  intros Hs. apply wp_bind, wp_get. destruct (imapListener s) as [p|] eqn:Hl; [|done].
  unfold wp, mbind, eff_bind, wrapping, answer, calls. destruct (env_closeIMAPListener env); simpl; [done|]. split; [|done]. srv_solve.
Qed.

Lemma closeSMTPServer_ok b env s :
  srv_ok b s ->
  wp (closeSMTPServer env) (fun r s' => srv_ok b s' /\ (r = Ok () -> smtpListener s' = None)) s.
Proof.
  intros Hs. apply wp_bind, wp_get. unfold wp, mbind, eff_bind, get. destruct (smtpListener s) as [p|] eqn:Hl.
  - pose proof (srv_smtp _ _ Hs) as Hserver. rewrite Hl in Hserver.
    unfold wrapping, answer, calls. destruct (env_closeSMTPListener env); simpl; [done|].
    rewrite Hserver by done. simpl. split; [|done]. srv_solve.
  - simpl. destruct (smtpServer s) eqn:Hsv; simpl; [|done]. split; [|done]. srv_solve.
Qed.

Lemma closeIMAPServer_ok b env s :
  srv_ok b s ->
  wp (closeIMAPServer env) (fun r s' => srv_ok b s' /\ (r = Ok () -> imapListener s' = None)) s.
Proof.
  intros Hs. apply wp_bind. eapply wp_mono; [|by apply close_imap_listener_ok]. intros [[]|e] s1 [H1 Hn]; [|done].
  specialize (Hn eq_refl). apply wp_bind, wp_get. unfold wp, mbind, eff_bind. destruct (imapServer s1); simpl; [|done].
  unfold wrapping, answer, calls. destruct (env_closeIMAPServer env); simpl; [done|]. split; [|done]. srv_solve.
Qed.

Lemma serveIMAP_ok b env s :
  (b = true -> healthy env) -> srv_ok b s -> imapListener s = None -> srv_ok b (serveIMAP env s).1.
Proof.
  intros Hh Hs Hl. unfold serveIMAP, announcing, get, mbind, eff_bind. destruct (imapServer s) eqn:Hsv; simpl; [|srv_solve].
  unfold wrapping, listening, reads. destruct (env_listenIMAP env) as [p|e]; simpl; [|srv_solve].
  unfold answer, calls, modify. destruct (env_serveIMAP env) as [e|] eqn:Hserve; simpl.
  { assert (b = false) as -> by (destruct b; [destruct (Hh eq_refl); congruence|done]). srv_solve. }
  destruct (env_setIMAPPort env) as [e|] eqn:Hport; simpl; [|srv_solve].
  assert (b = false) as -> by (destruct b; [destruct (Hh eq_refl) as (_ & ? & _); congruence|done]). srv_solve.
Qed.

Lemma serveSMTP_ok b env s :
  (b = true -> healthy env) -> srv_ok b s -> smtpListener s = None -> smtpServer s = true -> srv_ok b (serveSMTP env s).1.
Proof.
  intros Hh Hs Hl Hsv. unfold serveSMTP, announcing, mbind, eff_bind.
  unfold wrapping, listening, reads. destruct (env_listenSMTP env) as [p|e]; simpl; [|srv_solve].
  unfold answer, calls, modify. destruct (env_setSMTPPort env) as [e|] eqn:Hport; simpl; [|srv_solve].
  assert (b = false) as -> by (destruct b; [destruct (Hh eq_refl) as (_ & _ & ?); congruence|done]). srv_solve.
Qed.

Lemma restartSMTP_ok b env s :
  (b = true -> healthy env) -> srv_ok b s -> wp (restartSMTP env) (fun _ s' => srv_ok b s') s.
Proof.
  intros Hh Hs. apply wp_bind, wp_wrapping. eapply wp_mono; [|by apply closeSMTPServer_ok].
  intros [[]|e] s1 [H1 Hn]; [|done]. specialize (Hn eq_refl). apply (serveSMTP_ok b env); [done| |done..]. srv_solve.
Qed.

Lemma restartIMAP_ok b env s :
  (b = true -> healthy env) -> srv_ok b s -> wp (restartIMAP env) (fun _ s' => srv_ok b s') s.
Proof.
  intros Hh Hs. apply wp_bind. eapply wp_mono; [|by apply close_imap_listener_ok].
  intros [[]|e] s1 [H1 Hn]; [|done]. apply serveIMAP_ok; [done|done|by apply Hn].
Qed.

Lemma handleLoaded_ok b env s :
  (b = true -> healthy env) -> srv_ok b s -> wp (handleLoadedUserCountChange env) (fun _ s' => srv_ok b s') s.
Proof.
  intros Hh Hs. apply wp_bind, wp_get, wp_bind. apply (wp_mono _ (fun r s' => r = Ok () /\ srv_ok b s')).
  - intros r s1 [-> H1]. apply wp_bind, wp_get. destruct (smtpListener s1) eqn:Hl; [done|]. apply wp_ignoring. by apply restartSMTP_ok.
  - destruct (imapListener s) eqn:Hl; [done|]. apply wp_ignoring. split; [done|]. by apply serveIMAP_ok.
Qed.

Lemma handleSetGluonDir_ok b env dir s :
  (b = true -> healthy env) -> srv_ok b s -> wp (handleSetGluonDir env dir) (fun _ s' => srv_ok b s') s.
Proof.
  intros Hh Hs. apply wp_bind, wp_get. cbv beta zeta. destruct (String.eqb (gluon_dir dir) (cacheDirectory s)); [exact Hs|].
  apply wp_bind, wp_wrapping. eapply wp_mono; [|by apply closeIMAPServer_ok].
  intros [[]|e] s1 [H1 Hn]; [|done]. specialize (Hn eq_refl). apply wp_bind.
  apply (wp_mono _ (fun _ s' => srv_ok b s' /\ imapListener s' = None)).
  - intros [[]|e] s2 [H2 Hn2]; [|done]. apply wp_bind, wp_wrapping.
    unfold wp, createIMAPServer, mbind, eff_bind, wrapping, answer, calls.
    destruct (env_DataDirectory env); simpl; [done|]. destruct (env_newIMAPServer env); simpl; [done|].
    assert (Hok : srv_ok b (set_imapServer true (publish_event IMAPServerCreated s2))) by srv_solve.
    apply (serveIMAP_ok b env _ Hh) in Hok; [|done].
    unfold modify. destruct (serveIMAP env _) as [s3 [[]|e]]; done.
  - unfold wp, reverting, moveGluonCacheDir, mbind, eff_bind, wrapping, answer, calls.
    destruct (env_CopyDir env); [destruct (env_revertCacheDirectory env)|
      destruct (env_SetCacheDirectory env); [destruct (env_revertCacheDirectory env)|]]; simpl; (split; [|done]);
      first [exact H1 | by eapply srv_ok_same; [..|exact H1]].
Qed.

(** The databases of the addresses do not touch the servers. *)
Definition same_servers (s s' : Servers) : Prop :=
  imapServer s' = imapServer s /\ imapListener s' = imapListener s /\ smtpServer s' = smtpServer s /\
  smtpListener s' = smtpListener s /\ sm_events s' = sm_events s.

#[local] Instance same_servers_reflexive : Reflexive same_servers.
Proof. intros s. done. Qed.
#[local] Instance same_servers_transitive : Transitive same_servers.
Proof. intros s1 s2 s3 (?&?&?&?&?) (?&?&?&?&?). unfold same_servers. by repeat split; etrans. Qed.

Lemma backend_same {A} (f : W -> W * result err A) : leaves same_servers (backend f).
Proof. intros s. unfold backend. by destruct (f (sm_world s)). Qed.

#[local] Ltac same :=
  repeat match goal with
  | |- leaves _ (_ ≫= _) => apply leaves_bind; [exact _| |intros ?]
  | |- leaves _ (wrapping _ _) => apply leaves_wrapping
  | |- leaves _ (backend _) => apply backend_same
  | |- leaves _ (backend_err _) => apply backend_same
  | |- leaves _ (mret _) => apply leaves_ret; exact _
  | |- leaves _ (fails _) => apply leaves_fails; exact _
  | |- leaves _ (for_each _ _) => apply leaves_for_each; [exact _|exact _|intros ? _]
  | |- leaves _ get => intros ?; reflexivity
  | |- leaves _ _ => assumption
  | |- context [match _ with _ => _ end] => case_match
  end.

Lemma handleAddIMAPUser_same user addrID : leaves same_servers (handleAddIMAPUser user addrID).
Proof.
  unfold handleAddIMAPUser, handleAddIMAPUserImpl. apply leaves_bind; [exact _|intros s; done|intros s0].
  unfold load_user, create_user. same.
Qed.

Lemma handleRemoveIMAPUser_same user withData addrIDs : leaves same_servers (handleRemoveIMAPUser user withData addrIDs).
Proof.
  unfold handleRemoveIMAPUser. apply leaves_bind; [exact _|intros s; done|intros s0]. case_match; [same|].
  apply leaves_for_each; [exact _|exact _|intros addrID _]. unfold remove_address.
  apply leaves_bind; [exact _|intros s; done|intros s1]. same.
Qed.

Lemma replying_ok b env (m : M ()) s :
  (b = true -> healthy env) -> srv_ok b s -> leaves same_servers m ->
  wp (replying m (handleLoadedUserCountChange env)) (fun _ s' => srv_ok b s') s.
Proof.
  intros Hh Hs Hm. unfold wp, replying. specialize (Hm s). destruct (m s) as [s1 r]. simpl in Hm.
  assert (H1 : srv_ok b s1) by (destruct Hm as (?&?&?&?&He); eapply srv_ok_same; [..|exact Hs]; rewrite ?He; done).
  destruct r as [a|e]; simpl; [|done]. by apply handleLoaded_ok.
Qed.

Lemma srv_step_ok b env i s :
  (b = true -> healthy env) -> srv_ok b s -> wp (srv_step env i) (fun _ s' => srv_ok b s') s.
Proof.
  intros Hh Hs. destruct i as [| |r]; simpl.
  - apply wp_bind, wp_ignoring. eapply wp_mono; [|by apply closeSMTPServer_ok]. intros r s1 [H1 _].
    apply wp_ignoring. eapply wp_mono; [|by apply close_imap_listener_ok]. by intros ? ? [? _].
  - by apply handleLoaded_ok.
  - destruct r; simpl.
    + apply wp_bind, wp_ignoring. eapply wp_mono; [|by apply closeIMAPServer_ok]. intros r s1 [H1 _].
      apply wp_ignoring. eapply wp_mono; [|by apply closeSMTPServer_ok]. by intros ? ? [? _].
    + by apply restartIMAP_ok.
    + by apply restartSMTP_ok.
    + apply replying_ok; [done|done|apply handleAddIMAPUser_same].
    + apply wp_bind, wp_get. by case_match.
    + apply replying_ok; [done|done|apply handleRemoveIMAPUser_same].
    + by apply handleSetGluonDir_ok.
    + unfold wp. simpl. by eapply srv_ok_same; [..|exact Hs].
    + unfold wp. simpl. by eapply srv_ok_same; [..|exact Hs].
Qed.

(** The service before [Init]. *)
Definition not_started (s : Servers) : Prop :=
  imapServer s = false /\ imapListener s = None /\ smtpServer s = false /\ smtpListener s = None /\ sm_events s = [].

Lemma forget_imap_ok b env s :
  srv_ok b s -> imapListener s = None ->
  wp (forgetting (serveIMAP env) (set_imapListener None))
    (fun _ s' => srv_ok b s' /\ smtpListener s' = smtpListener s /\ smtpServer s' = smtpServer s) s.
Proof.
  intros Hs Hl. unfold wp, forgetting, serveIMAP, announcing, get, mbind, eff_bind, wrapping, listening, reads, answer, calls, modify.
  destruct (imapServer s) eqn:Hsv; simpl; [|split; [srv_solve|done]].
  destruct (env_listenIMAP env); simpl; [|split; [srv_solve|done]].
  destruct (env_serveIMAP env); simpl; [split; [srv_solve|done]|].
  destruct (env_setIMAPPort env); simpl; (split; [srv_solve|done]).
Qed.

Lemma forget_smtp_ok b env s :
  srv_ok b s -> smtpListener s = None -> smtpServer s = true ->
  wp (forgetting (serveSMTP env) (set_smtpListener None)) (fun _ s' => srv_ok b s') s.
Proof.
  intros Hs Hl Hsv. unfold wp, forgetting, serveSMTP, announcing, mbind, eff_bind, wrapping, listening, reads, answer, calls, modify.
  destruct (env_listenSMTP env); simpl; [|srv_solve]. destruct (env_setSMTPPort env); simpl; srv_solve.
Qed.

Lemma Init_ok b env s : not_started s -> wp (Init env) (fun _ s' => srv_ok b s') s.
Proof.
  intros (H1 & H2 & H3 & H4 & H5).
  assert (H0 : srv_ok b s) by (split; rewrite ?H2, ?H4, ?H5; done).
  apply wp_bind. apply (wp_mono _ (fun _ s' => srv_ok b s' /\ imapListener s' = None /\ smtpListener s' = None)).
  - intros [[]|e] s1 (Hs1 & Hi & Hm); [|done]. apply wp_bind. unfold wp at 1. simpl.
    set (s2 := set_smtpServer true (set_imapServer true s1)).
    assert (Hs2 : srv_ok b s2) by (subst s2; srv_solve).
    apply wp_bind. eapply wp_mono; [|by apply (forget_imap_ok b)]. intros [[]|e] s3 (Hs3 & Hm3 & Hsv3); [|done].
    apply forget_smtp_ok; [done|by rewrite Hm3|by rewrite Hsv3].
  - unfold wp, createIMAPServer, mbind, eff_bind, wrapping, answer, calls.
    destruct (env_DataDirectory env); simpl; [done|]. destruct (env_newIMAPServer env); simpl; [done|].
    split; [srv_solve|done].
Qed.

(** C17: Following the events is enough to know where the servers listen: whatever requests and
    changes of the connection come in whatever order, and whatever fails, a server that
    was announced as ready and not as stopped since listens on the announced port; and
    if serving and storing the port never fail, the events tell exactly which listeners
    are open.  An open listener has its server. *)
Theorem events_tell_listeners s0 env0 (ins : list (srv_env * srv_input)) :
  not_started s0 ->
  let s := foldl (fun s i => (srv_step i.1 i.2 s).1) (Init env0 s0).1 ins in
  (forall p, imap_up (sm_events s) = Some p -> imapListener s = Some p) /\
  (forall p, smtp_up (sm_events s) = Some p -> smtpListener s = Some p) /\
  (Forall (fun i => healthy i.1) ins -> imap_up (sm_events s) = imapListener s /\ smtp_up (sm_events s) = smtpListener s) /\
  (imapListener s <> None -> imapServer s = true) /\ (smtpListener s <> None -> smtpServer s = true).
Proof.
  intros H0 s.
  assert (Hgen : forall b, (b = true -> Forall (fun i => healthy i.1) ins) -> srv_ok b s).
  { intros b Hb. subst s. pose proof (Init_ok b env0 s0 H0) as Hs. unfold wp in Hs. revert Hs Hb. generalize (Init env0 s0).1. clear H0.
    induction ins as [|[env i] l IH]; intros s Hs Hb; simpl; [done|]. apply IH.
    - apply srv_step_ok; [|done]. intros Hb'. specialize (Hb Hb'). by apply Forall_cons in Hb as [? _].
    - intros Hb'. specialize (Hb Hb'). by apply Forall_cons in Hb as [_ ?]. }
  destruct (Hgen false) as [A B C D _]; [done|]. split_and!; [done|done| |done|done].
  intros Hh. destruct (Hgen true) as [_ _ _ _ E]; [done|]. by apply E.
Qed.

(** ** The databases of the addresses *)

(** What the IMAP library and the stores promise: a database is absent, or just created and
    empty ([Some true]), or filled; whether it is loaded; and what a call leaves alone. *)
Class ImapBackendLaws : Type := {
  database : string -> W -> option bool;
  loaded : string -> W -> bool;
  LoadUser_spec g w w' isNew :
    LoadUser g w = (w', Ok isNew) ->
    loaded g w' = true /\ database g w' = (if isNew then Some true else database g w) /\
    (isNew = true <-> database g w = None) /\
    (forall u a, GetGluonID u a w' = GetGluonID u a w) /\ (forall u, GetHasLabels u w' = GetHasLabels u w);
  RemoveUser_spec g withData w w' :
    RemoveUser g withData w = (w', None) ->
    loaded g w' = false /\ database g w' = (if withData then None else database g w) /\
    (forall u a, GetGluonID u a w' = GetGluonID u a w) /\ (forall u, GetHasLabels u w' = GetHasLabels u w);
  AddUser_spec w w' g :
    AddUser w = (w', Ok g) ->
    loaded g w' = true /\ database g w' = Some true /\
    (forall u a, GetGluonID u a w' = GetGluonID u a w) /\ (forall u, GetHasLabels u w' = GetHasLabels u w);
  SetGluonID_spec u a g w w' :
    SetGluonID u a g w = (w', None) ->
    GetGluonID u a w' = Some g /\ loaded g w' = loaded g w /\ database g w' = database g w /\
    (forall u', GetHasLabels u' w' = GetHasLabels u' w);
  RemoveGluonID_spec u a g w w' :
    RemoveGluonID u a g w = (w', None) ->
    GetGluonID u a w' = None /\ (forall u' a', (u', a') <> (u, a) -> GetGluonID u' a' w' = GetGluonID u' a' w) /\
    (forall u', GetHasLabels u' w' = GetHasLabels u' w);
  ClearSyncStatus_spec u w w' :
    ClearSyncStatus u w = (w', None) ->
    GetHasLabels u w' = Ok false /\ (forall u' a, GetGluonID u' a w' = GetGluonID u' a w) /\
    (forall g, loaded g w' = loaded g w /\ database g w' = database g w)
}.

Section databases.
Context `{IBL : ImapBackendLaws}.

(** An empty database is not taken for a synced one. *)
Definition unsynced_if_empty (user addrID : string) (w : W) : Prop :=
  forall g, GetGluonID user addrID w = Some g -> database g w = Some true -> GetHasLabels user w = Ok false.

(** The address has its database, it is loaded. *)
Definition attached (user addrID : string) (w : W) : Prop :=
  exists g, GetGluonID user addrID w = Some g /\ loaded g w = true /\ database g w <> None.

Lemma wp_backend {A} (f : W -> W * result err A) Q s :
  (forall w' a, f (sm_world s) = (w', Ok a) -> Q (Ok a) (set_world w' s)) ->
  (forall e s', Q (Err (SFails e)) s') -> wp (backend f) Q s.
Proof. intros HQ He. unfold wp, backend. destruct (f (sm_world s)) as [w' [a|e]] eqn:Hf; simpl; [by apply HQ|by apply He]. Qed.

Lemma wp_backend_err (f : W -> W * option err) Q s :
  (forall w', f (sm_world s) = (w', None) -> Q (Ok ()) (set_world w' s)) ->
  (forall e s', Q (Err (SFails e)) s') -> wp (backend_err f) Q s.
Proof.
  intros HQ He. apply wp_backend; [|done]. intros w' [] Hf. apply HQ. destruct (f (sm_world s)) as [w1 [e|]]; naive_solver.
Qed.

(** What is wanted of [handleAddIMAPUser]. *)
Definition added (user addrID : string) (r : result serr ()) (s' : Servers) : Prop :=
  r <> Err SPanics /\ (r = Ok () -> attached user addrID (sm_world s') /\ unsynced_if_empty user addrID (sm_world s')).

Lemma added_fails user addrID e s' : added user addrID (Err (SFails e)) s'.
Proof. by split. Qed.

(** A new database is recorded under the address of an account without synced labels. *)
Lemma recreate_ok user addrID s :
  GetHasLabels user (sm_world s) = Ok false ->
  wp (gluonID ← wrapping (wrap_err "failed to add IMAP user") (backend AddUser);
      wrapping (wrap_err "failed to set IMAP user ID") (backend_err (SetGluonID user addrID gluonID))) (added user addrID) s.
Proof.
  intros HL. apply wp_bind, wp_wrapping, wp_backend; [|intros; apply added_fails].
  intros w1 g (Hl & Hd & _ & HL1)%AddUser_spec. apply wp_wrapping, wp_backend_err; [|intros; apply added_fails].
  intros w2 (Hg & Hl2 & Hd2 & HL2)%SetGluonID_spec. simpl in *. split; [done|]. intros _. split.
  - exists g. simpl. rewrite Hl2, Hd2, Hl, Hd. done.
  - intros g' _ _. simpl. by rewrite HL2, HL1.
Qed.

(** The same with a state in which the calls before may have failed. *)
Lemma load_user_ok user addrID g s :
  GetGluonID user addrID (sm_world s) = Some g -> unsynced_if_empty user addrID (sm_world s) ->
  wp (load_user user addrID g) (added user addrID) s.
Proof.
  intros Hg Hu. apply wp_bind, wp_wrapping, wp_backend; [|intros; apply added_fails].
  intros w1 [] (Hl & Hd & Hnew & Hg1 & HL1)%LoadUser_spec.
  - apply wp_bind, wp_wrapping, wp_backend_err; [|intros; apply added_fails].
    intros w2 (_ & Hd2 & Hg2 & HL2)%RemoveUser_spec. apply wp_bind, wp_wrapping, wp_backend_err; [|intros; apply added_fails].
    intros w3 (HL3 & Hg3 & Hw3)%ClearSyncStatus_spec. apply wp_bind, wp_wrapping, wp_backend; [|intros; apply added_fails].
    intros w4 isNew (Hl4 & Hd4 & Hn4 & Hg4 & HL4)%LoadUser_spec. simpl in *. destruct (Hw3 g) as [_ Hd3].
    destruct isNew; [destruct Hn4 as [Hn4 _]; specialize (Hn4 eq_refl); congruence|].
    split; [done|]. intros _. simpl. split.
    + exists g. rewrite Hg4, Hg3, Hg2, Hg1, Hd4, Hd3, Hd2, Hd. done.
    + intros g' _ _. by rewrite HL4.
  - apply wp_bind, wp_wrapping, wp_backend; [|intros; apply added_fails]. simpl.
    intros w2 hasLabels [= <- HL]. destruct hasLabels; simpl.
    + split; [done|]. intros _. simpl. split.
      * exists g. rewrite Hg1, Hd. split_and!; [done..|]. intros HN. by apply Hnew in HN.
      * intros g' Hg' Hd'. rewrite HL1. rewrite Hg1 in Hg'. apply (Hu g'); [done|]. assert (g' = g) as -> by congruence. by rewrite <- Hd.
    + apply wp_bind, wp_wrapping, wp_backend_err; [|intros; apply added_fails].
      intros w3 (_ & _ & _ & HL3)%RemoveUser_spec. apply wp_bind, wp_wrapping, wp_backend_err; [|intros; apply added_fails].
      intros w4 (_ & _ & HL4)%RemoveGluonID_spec. apply recreate_ok. simpl. by rewrite HL4, HL3.
Qed.

Lemma handleAddIMAPUser_ok user addrID s :
  unsynced_if_empty user addrID (sm_world s) -> wp (handleAddIMAPUser user addrID) (added user addrID) s.
Proof.
  intros Hu. apply wp_bind, wp_get. destruct (imapServer s); [|apply added_fails]. cbn [negb].
  destruct (GetGluonID user addrID (sm_world s)) as [g|] eqn:Hg; [by apply load_user_ok|].
  apply wp_bind, wp_wrapping, wp_backend_err; [|intros; apply added_fails].
  intros w1 (HL & _ & _)%ClearSyncStatus_spec. by apply recreate_ok.
Qed.


Lemma remove_address_ok user addrID s :
  wp (remove_address user true addrID) (fun r s' => r = Ok () ->
    GetGluonID user addrID (sm_world s') = None /\ same_servers s s' /\
    forall a, GetGluonID user a (sm_world s) = None -> GetGluonID user a (sm_world s') = None) s.
Proof.
  apply wp_bind, wp_get. destruct (GetGluonID user addrID (sm_world s)) as [g|] eqn:Hg; [|by intros _; split_and!].
  apply wp_bind, wp_wrapping, wp_backend_err; [|done].
  intros w1 (_ & _ & Hg1 & _)%RemoveUser_spec. apply wp_wrapping, wp_backend_err; [|done].
  intros w2 (HN & Hother & _)%RemoveGluonID_spec _. simpl. split_and!; [done|done|].
  intros a Ha. destruct (decide (a = addrID)) as [->|Hne]; [done|]. rewrite Hother by congruence. simpl. by rewrite Hg1.
Qed.

(** Removing an account with its data forgets the databases of all its addresses. *)
Theorem removed_with_data user addrIDs (s : Servers) addrID :
  (handleRemoveIMAPUser user true addrIDs s).2 = Ok () -> addrID ∈ addrIDs ->
  GetGluonID user addrID (sm_world (handleRemoveIMAPUser user true addrIDs s).1) = None.
Proof.
  unfold handleRemoveIMAPUser, mbind, eff_bind, get. destruct (imapServer s); [|done]. simpl. clear -IBL.
  assert (Hkeep : forall l s' a, GetGluonID user a (sm_world s') = None ->
    (for_each l (remove_address user true) s').2 = Ok () ->
    GetGluonID user a (sm_world (for_each l (remove_address user true) s').1) = None).
  { induction l as [|x l IH]; intros s' a Ha; simpl; [done|]. unfold mbind, eff_bind.
    pose proof (remove_address_ok user x s') as Hx. unfold wp in Hx.
    destruct (remove_address user true x s') as [s1 [[]|e]]; [|done]. simpl in Hx. intros Hr.
    destruct (Hx eq_refl) as (_ & _ & Hk). apply IH; [by apply Hk|done]. }
  revert s. induction addrIDs as [|x l IH]; intros s Hr Hin; [by apply elem_of_nil in Hin|]. revert Hr. simpl. unfold mbind, eff_bind.
  pose proof (remove_address_ok user x s) as Hx. unfold wp in Hx.
  destruct (remove_address user true x s) as [s1 [[]|e]]; [|done]. simpl in Hx. intros Hr.
  destruct (Hx eq_refl) as (HN & _ & _). apply elem_of_cons in Hin as [->|Hin]; [by apply Hkeep|by apply IH].
Qed.

End databases.

End servers.

(** ** Examples *)

(** A backend in memory: the databases ([true]: just created), the loaded ones, the identifiers and
    the accounts with synced labels. *)
Record ex_backend : Type := mkExBackend {
  ex_dbs : gmap string bool;
  ex_loaded : gset string;
  ex_ids : gmap (string * string) string;
  ex_labels : gset string
}.

Definition ex_load (g : string) (w : ex_backend) : ex_backend * result err bool :=
  match ex_dbs w !! g with
  | None => (mkExBackend (<[g := true]> (ex_dbs w)) ({[g]} ∪ ex_loaded w) (ex_ids w) (ex_labels w), Ok true)
  | Some _ => (mkExBackend (ex_dbs w) ({[g]} ∪ ex_loaded w) (ex_ids w) (ex_labels w), Ok false)
  end.
Definition ex_remove (g : string) (withData : bool) (w : ex_backend) : ex_backend * option err :=
  (mkExBackend (if withData then delete g (ex_dbs w) else ex_dbs w) (ex_loaded w ∖ {[g]}) (ex_ids w) (ex_labels w), None).
Definition ex_new (w : ex_backend) : string := "db" +:+ pretty (size (ex_dbs w)).

#[local] Instance ex_imap : ImapBackend ex_backend := {
  LoadUser := ex_load;
  RemoveUser := ex_remove;
  AddUser w := (mkExBackend (<[ex_new w := true]> (ex_dbs w)) ({[ex_new w]} ∪ ex_loaded w) (ex_ids w) (ex_labels w), Ok (ex_new w));
  GetAllMailboxRemoteIDsForUser _ _ := Ok [];
  GetGluonID u a w := ex_ids w !! (u, a);
  SetGluonID u a g w := (mkExBackend (ex_dbs w) (ex_loaded w) (<[(u, a) := g]> (ex_ids w)) (ex_labels w), None);
  RemoveGluonID u a _ w := (mkExBackend (ex_dbs w) (ex_loaded w) (delete (u, a) (ex_ids w)) (ex_labels w), None);
  ClearSyncStatus u w := (mkExBackend (ex_dbs w) (ex_loaded w) (ex_ids w) (ex_labels w ∖ {[u]}), None);
  GetHasLabels u w := Ok (bool_decide (u ∈ ex_labels w))
}.

#[local] Instance ex_laws : ImapBackendLaws.
Proof.
  refine {| database g w := ex_dbs w !! g; loaded g w := bool_decide (g ∈ ex_loaded w) |}.
  - intros g w w' isNew. cbn. unfold ex_load. destruct (ex_dbs w !! g) eqn:Hg; intros [= <- <-]; simpl; rewrite ?lookup_insert_eq;
      (split; [case_bool_decide; [done|set_solver]|]); naive_solver.
  - intros g withData w w'. cbn. unfold ex_remove. intros [= <-]. simpl. split; [case_bool_decide; [set_solver|done]|].
    destruct withData; rewrite ?lookup_delete_eq; done.
  - intros w w' g. cbn. intros [= <- <-]. simpl. rewrite lookup_insert_eq. split; [case_bool_decide; [done|set_solver]|done].
  - intros u a g w w'. cbn. intros [= <-]. simpl. by rewrite lookup_insert_eq.
  - intros u a g w w'. cbn. intros [= <-]. simpl. rewrite lookup_delete_eq. split_and!; [done| |done].
    intros u' a' Hne. by rewrite lookup_delete_ne.
  - intros u w w'. cbn. intros [= <-]. simpl. split; [|done]. f_equal. case_bool_decide; [set_solver|done].
Defined.

Definition ex_no_accounts : SmtpAccounts.SMTPService :=
  {| SmtpAccounts.Service := (); SmtpAccounts.UserID _ := "u"; SmtpAccounts.checkAuth _ _ _ := None; SmtpAccounts.ServiceErr := () |}.
#[local] Existing Instance ex_no_accounts.

Definition ex_env : srv_env :=
  mkSrvEnv (Ok 1143%Z) None None None None None None (Ok 1025%Z) None None None None None.
Definition ex_down : srv_env :=
  mkSrvEnv (Err (ErrOther "in use")) None None None None None None (Err (ErrOther "in use")) None None None None None.

Definition ex_world : ex_backend := mkExBackend ∅ ∅ ∅ ∅.
Definition ex_servers (w : ex_backend) : Servers := mkServers false None false None ∅ 0%Z 0%Z "/cache" [] w.

(** The ports are taken at first; when the first account is attached both servers start; the
    connection goes and comes back. *)
Definition ex_inputs : list (srv_env * srv_input) :=
  [(ex_env, SrvRequest (smRequestAddIMAPUser "u" "a")); (ex_env, SrvConnStatusDown); (ex_env, SrvConnStatusUp)].
Definition ex_run : Servers := foldl (fun s i => (srv_step i.1 i.2 s).1) (Init ex_down (ex_servers ex_world)).1 ex_inputs.

Example ex_run_events :
  sm_events ex_run =
    [IMAPServerCreated; IMAPServerError; SMTPServerError; IMAPServerReady 1143%Z; SMTPServerStopped; SMTPServerStopped; SMTPServerReady 1025%Z;
     SMTPServerStopped; IMAPServerStopped; IMAPServerReady 1143%Z; SMTPServerStopped; SMTPServerReady 1025%Z].
Proof. vm_compute. reflexivity. Qed.

Example events_tell_listeners_witness :
  imap_up (sm_events ex_run) = Some 1143%Z /\ imapListener ex_run = Some 1143%Z /\ smtpListener ex_run = Some 1025%Z.
Proof.
  destruct (events_tell_listeners (ex_servers ex_world) ex_down ex_inputs) as (_ & _ & Hx & _); [done|].
  destruct Hx as [H1 H2]; [repeat constructor|]. split_and!.
  - vm_compute. reflexivity.
  - transitivity (imap_up (sm_events ex_run)); [symmetry; exact H1|vm_compute; reflexivity].
  - transitivity (smtp_up (sm_events ex_run)); [symmetry; exact H2|vm_compute; reflexivity].
Defined.

(** An address whose database is lost, and the servers are up. *)
Definition ex_lost : Servers :=
  mkServers true None true None ∅ 0%Z 0%Z "/cache" [] (mkExBackend ∅ ∅ {[("u", "a") := "db7"]} {["u"]}).


Example removed_with_data_witness :
  GetGluonID "u" "a" (sm_world (handleRemoveIMAPUser "u" true ["b"; "a"] ex_lost).1) = None.
Proof. apply (removed_with_data "u" ["b"; "a"] ex_lost "a"); [vm_compute; reflexivity|set_solver]. Defined.

(** A move of the cache that fails leaves the IMAP server closed: no account can be attached until
    the application is restarted. *)
Definition ex_copy_fails : srv_env :=
  mkSrvEnv (Ok 1143%Z) None None None None None None (Ok 1025%Z) None None (Some (ErrOther "disk full")) None None.

Theorem failed_move_closes_IMAP :
  let s := (srv_step ex_copy_fails (SrvRequest (smRequestSetGluonDir "/new")) (Init ex_env (ex_servers ex_world)).1).1 in
  imapServer s = false /\ cacheDirectory s = "/cache" /\
  (srv_step ex_env (SrvRequest (smRequestAddIMAPUser "u" "a")) s).2 = Err no_server /\
  (srv_step ex_env (SrvRequest smRequestRestartIMAP) s).2 <> Ok ().
Proof. vm_compute. split_and!; done. Qed.

(** A listener whose server could not be started after the start is kept: nobody retries. *)
Definition ex_serve_fails : srv_env :=
  mkSrvEnv (Ok 1143%Z) None (Some (ErrOther "no")) None None None None (Ok 1025%Z) None None None None None.

Theorem failed_serve_is_not_retried :
  let s := (srv_step ex_serve_fails SrvConnStatusUp (Init ex_down (ex_servers ex_world)).1).1 in
  imapListener s = Some 1143%Z /\ imap_up (sm_events s) = None /\ imap_up (sm_events (srv_step ex_env SrvConnStatusUp s).1) = None.
Proof. vm_compute. split_and!; done. Qed.
