(* ===== verification/Users.v ===== *)
(** * The users of the bridge (internal/bridge/user.go and user_events.go,
      internal/user/user.go, user_check.go and migration.go)

    The bridge holds the users that are logged in, each with an open handle of the vault.
    Users log in and out, are loaded from the vault when the application starts and when
    the connection comes back, and are logged out when the session ends.  The vault is that
    of [Vault.v]; the answers of the API and of the services of a user come from outside. *)

From S2P Require Import Prelude.
From S2P Require Import Strings.
From S2P Require Import Api.
From S2P Require Import UserEvents.
From S2P Require Import UserIdentity.
From S2P Require Import Effects.
From S2P Require Vault.

Notation bytes := (list Z).

(** ** Errors *)

(** [UApi] is an error of the API with its code, [UResponse] a [resty.ResponseError], [UBoth]
    wraps two errors. *)
Inductive uerr : Type :=
| UErr (msg : string)
| UWrap (msg : string) (e : uerr)
| UBoth (e e' : uerr)
| UVault (e : Vault.verr)
| UApi (code : Z)
| UResponse
| UPanicked
| ErrFailedToUnlock
| ErrNoSuchUser
| ErrUserAlreadyLoggedIn.

Inductive ufault : Type := UPanics | UFails (e : uerr).

(** [errors.Is(err, ErrFailedToUnlock)] and [errors.As] to an error of the API. *)
Fixpoint is_failed_to_unlock (e : uerr) : bool :=
  match e with
  | ErrFailedToUnlock => true
  | UWrap _ e => is_failed_to_unlock e
  | UBoth e e' => is_failed_to_unlock e || is_failed_to_unlock e'
  | _ => false
  end.
Fixpoint api_code (e : uerr) : option Z :=
  match e with
  | UApi code => Some code
  | UWrap _ e => api_code e
  | UBoth e e' => match api_code e with Some c => Some c | None => api_code e' end
  | _ => None
  end.
Definition AuthRefreshTokenInvalid : Z := 10013.

(** The type assertion to [resty.ResponseError]: the error itself, not what it wraps. *)
Definition is_response (e : uerr) : bool := match e with UResponse => true | _ => false end.

(** ** State *)

Inductive user_event : Type :=
| UserDeauth
| UserBadEvent (reason : string)
| UserLoadedCheckResync
| UserOther (e : bridge_event).

(** A user that is logged in ([user.User]): its plan, what its identity service holds, and its
    events that the bridge did not take yet. *)
Record account : Type := mkAccount {
  acc_id : string;
  acc_plan : string;
  acc_identity : State;
  acc_queue : list user_event
}.

Inductive bridge_evt : Type :=
| UserLoggedIn (userID : string)
| UserLoggedOut (userID : string)
| UserDeleted (userID : string)
| UserLoading (userID : string)
| UserLoadSuccess (userID : string)
| UserLoadFail (userID authUID : string)
| AddressModeChanged (userID : string) (mode : VaultMode)
| UserEvent (userID : string) (e : user_event).

(** [b_connected] and [b_split] are what the heartbeat was told. *)
Record Bridge `{VC : Vault.VaultCodec} : Type := mkBridge {
  b_vault : Vault.Vault;
  b_users : gmap string account;
  b_connected : Z;
  b_split : bool;
  b_events : list bridge_evt
}.

(** A user of the API; its keys are behind [salt] and [unlock] below. *)
Record ApiUser : Type := mkApiUser { au_user : User; au_Email : string }.

(** What happens outside while a user is added: the disk at each call to the vault, the API, the
    sync state and the services. *)
Record add_env : Type := mkAddEnv {
  ae_GetOrAdd : Vault.venv;
  ae_Clear : Vault.venv;
  ae_Delete : Vault.venv;
  ae_Migrate : Vault.venv;
  ae_syncPath : option uerr;
  ae_migrated : result uerr bool;
  ae_GetAddresses : result uerr (list Address);
  ae_plan : option string;
  ae_GetLabels : option uerr;
  ae_syncStarted : result uerr bool;
  ae_startEvents : option uerr;
  ae_startSMTP : option uerr;
  ae_startIMAP : option uerr
}.

Record login_env : Type := mkLoginEnv {
  le_login : result uerr (string * (string * string));
  le_getTOTP : option (option uerr);
  le_getKeyPass : option uerr;
  le_GetUser : result uerr ApiUser;
  le_GetSalts : option uerr;
  le_SaltForKey : result uerr bytes;
  le_Unlock : result uerr Z;
  le_add : add_env
}.

Record load_env : Type := mkLoadEnv {
  lo_refresh : result uerr (string * string);
  lo_Clear : Vault.venv;
  lo_SetAuth : Vault.venv;
  lo_GetUser : result uerr ApiUser;
  lo_SetEmail : Vault.venv;
  lo_add : add_env
}.

Record logout_env : Type := mkLogoutEnv {
  out_smtp : option uerr;
  out_imapLogout : option uerr;
  out_imapDelete : option uerr;
  out_Clear : Vault.venv;
  out_syncPath : option uerr;
  out_DeleteSyncState : option uerr;
  out_Delete : Vault.venv
}.

Section bridge.
Context `{VC : Vault.VaultCodec} `{MR : MapRange, SF : SortFunc}.

Notation B := (eff Bridge ufault).

Definition set_vault (v : Vault.Vault) (s : Bridge) : Bridge := mkBridge VC v (b_users s) (b_connected s) (b_split s) (b_events s).
Definition set_users (m : gmap string account) (s : Bridge) : Bridge := mkBridge VC (b_vault s) m (b_connected s) (b_split s) (b_events s).
Definition SetNumberConnectedAccounts (n : Z) (s : Bridge) : Bridge := mkBridge VC (b_vault s) (b_users s) n (b_split s) (b_events s).
Definition SetSplitMode (b : bool) (s : Bridge) : Bridge := mkBridge VC (b_vault s) (b_users s) (b_connected s) b (b_events s).
Definition add_event (e : bridge_evt) (s : Bridge) : Bridge := mkBridge VC (b_vault s) (b_users s) (b_connected s) (b_split s) (b_events s ++ [e]).
Definition publish (e : bridge_evt) : B () := modify (add_event e).

Definition wrap_msg (msg : string) (f : ufault) : ufault := match f with UPanics => UPanics | UFails e => UFails (UWrap msg e) end.
Definition of_vault (f : Vault.fault) : ufault := match f with Vault.Panics => UPanics | Vault.Fails e => UFails (UVault e) end.

(** A call to the vault. *)
Definition vaulted {A} (m : eff Vault.Vault Vault.fault A) : B A := fun s =>
  let '(v, r) := m (b_vault s) in (set_vault v s, match r with Ok a => Ok a | Err f => Err (of_vault f) end).

(** What came from outside. *)
Definition outside {A} (r : result uerr A) : B A := reads (fun _ => match r with Ok a => Ok a | Err e => Err (UFails e) end).
Definition outside_err (e : option uerr) : B () := match e with None => mret () | Some e => fails (UFails e) end.

(** [if err := m(); err != nil { log }]; a panic goes on. *)
Definition logged {A} (m : B A) : B () := fun s =>
  match m s with
  | (s, Err UPanics) => (s, Err UPanics)
  | (s, _) => (s, Ok ())
  end.

(** [defer cleanup()]. *)
Definition deferring {A} (cleanup : Bridge -> Bridge) (m : B A) : B A := fun s => let '(s, r) := m s in (cleanup s, r).

(** ** Making a user *)

Definition checkIrrecoverableEventID (lastEventID : string) (started : result uerr bool) : result uerr (list user_event) :=
  if negb (String.eqb lastEventID "") then Ok []
  else
    match started with
    | Err e => Err e
    | Ok started => Ok (if started : bool then [UserBadEvent "EventID missing from vault"] else [])
    end.

Definition migrateSyncStatusFromVault (env : add_env) (id : string) : B () :=
  vaulted (Vault.user_SyncStatus (ae_Migrate env) id) ≫= fun _ =>
  migrated ← wrapping (wrap_msg "failed to migrate user sync settings") (outside (ae_migrated env));
  if migrated : bool then
    wrapping (wrap_msg "failed to clear sync settings from vault") (vaulted (Vault.user_ClearSyncStatusWithoutEventID (ae_Migrate env) id))
  else mret ().

(** The error comes with the user when there is one to clean up. *)
Definition with_user {A} (u : option account) (m : B A) : eff Bridge (option account * ufault) A := fun s =>
  match m s with (s, Ok a) => (s, Ok a) | (s, Err e) => (s, Err (u, e)) end.

Definition newImpl (env : add_env) (id : string) (apiUser : ApiUser) (isNew : bool) : eff Bridge (option account * ufault) account :=
  with_user None (migrateSyncStatusFromVault env id) ≫= fun _ =>
  apiAddrs ← with_user None (wrapping (wrap_msg "failed to get addresses") (outside (ae_GetAddresses env)));
  with_user None (wrapping (wrap_msg "failed to get labels") (outside_err (ae_GetLabels env))) ≫= fun _ =>
  lastEventID ← with_user None (vaulted (Vault.user_EventID (ae_Migrate env) id));
  queue ← with_user None (outside (if isNew then Ok [] else checkIrrecoverableEventID lastEventID (ae_syncStarted env)));
  let user := mkAccount (user_ID (au_user apiUser)) (default "" (ae_plan env)) (NewState (au_user apiUser) apiAddrs) queue in
  with_user (Some user) (wrapping (wrap_msg "failed to start event service") (outside_err (ae_startEvents env))) ≫= fun _ =>
  with_user (Some user) (wrapping (wrap_msg "failed to start smtp service") (outside_err (ae_startSMTP env))) ≫= fun _ =>
  with_user (Some user) (wrapping (wrap_msg "failed to start imap service") (outside_err (ae_startIMAP env))) ≫= fun _ =>
  mret user.

(** [User.Close]: the handle of the vault is closed. *)
Definition user_Close (u : account) : B () := logged (vaulted (Vault.user_Close (acc_id u))).

Definition New (env : add_env) (id : string) (apiUser : ApiUser) (isNew : bool) : B account := fun s =>
  match newImpl env id apiUser isNew s with
  | (s, Ok user) => (s, Ok user)
  | (s, Err (_, UPanics)) => (s, Err UPanics)
  | (s, Err (Some user, e)) => (user_Close user ≫= fun _ => fails e) s
  | (s, Err (None, e)) => (s, Err e)
  end.

Definition enqueue (e : user_event) (u : account) : account :=
  mkAccount (acc_id u) (acc_plan u) (acc_identity u) (acc_queue u ++ [e]).

Definition addUserWithVault (env : add_env) (apiUser : ApiUser) (vaultUser : string) (isNew : bool) : B () :=
  wrapping (wrap_msg "failed to get IMAP sync config path") (outside_err (ae_syncPath env)) ≫= fun _ =>
  user ← wrapping (wrap_msg "failed to create user") (New env vaultUser apiUser isNew);
  modify (fun s => set_users (<[user_ID (au_user apiUser) := user]> (b_users s)) s) ≫= fun _ =>
  modify (fun s => SetNumberConnectedAccounts (Z.of_nat (size (b_users s))) s) ≫= fun _ =>
  modify (fun s => set_users (alter (enqueue UserLoadedCheckResync) (user_ID (au_user apiUser)) (b_users s)) s).

Definition newVaultUser (env : add_env) (apiUser : ApiUser) (authUID authRef : string) (saltedKeyPass : bytes) : B (string * bool) :=
  vaulted (Vault.GetOrAddUser (ae_GetOrAdd env) (user_ID (au_user apiUser)) (user_Name (au_user apiUser)) (au_Email apiUser)
    authUID authRef saltedKeyPass).

(** What is undone when a user cannot be added. *)
Definition undo_add (env : add_env) (apiUser : ApiUser) (vaultUser : string) (isNew isLogin : bool) (e : uerr) : B () :=
  (if is_response e || isLogin then logged (vaulted (Vault.user_Clear (ae_Clear env) vaultUser)) else mret ()) ≫= fun _ =>
  logged (vaulted (Vault.user_Close vaultUser)) ≫= fun _ =>
  (if isNew then logged (vaulted (Vault.DeleteUser (ae_Delete env) (user_ID (au_user apiUser)))) else mret ()) ≫= fun _ =>
  fails (UFails (UWrap "failed to add user with vault" e)).

(** [if err := m(); err != nil { return handler(err) }]. *)
Definition handling {A} (m : B A) (handler : uerr -> B A) : B A := fun s =>
  match m s with
  | (s, Err (UFails e)) => handler e s
  | r => r
  end.

Definition addUser (env : add_env) (apiUser : ApiUser) (authUID authRef : string) (saltedKeyPass : bytes) (isLogin : bool) : B () :=
  added ← wrapping (wrap_msg "failed to add vault user") (newVaultUser env apiUser authUID authRef saltedKeyPass);
  handling (addUserWithVault env apiUser added.1 added.2) (undo_add env apiUser added.1 added.2 isLogin).

(** ** Logging in *)

(** [hv.IsHvRequest]: a human verification is asked for. *)
Definition HumanVerificationRequired : Z := 9001.
Definition is_hv_request (f : ufault) : bool :=
  match f with UPanics => false | UFails e => bool_decide (api_code e = Some HumanVerificationRequired) end.

Definition LoginAuth (env : login_env) (username : string) : B (string * (string * string)) :=
  if String.eqb username "crash@bandicoot" then fails UPanics
  else
    auth ← wrapping (fun f => if is_hv_request f then f else wrap_msg "failed to create new API client" f) (outside (le_login env));
    s ← get;
    match b_users s !! auth.1 with
    | Some _ => fails (UFails ErrUserAlreadyLoggedIn)
    | None => mret auth
    end.

Definition loginUser (env : login_env) (authUID authRef : string) : B string :=
  apiUser ← wrapping (wrap_msg "failed to get API user") (outside (le_GetUser env));
  wrapping (wrap_msg "failed to get key salts") (outside_err (le_GetSalts env)) ≫= fun _ =>
  saltedKeyPass ← wrapping (wrap_msg "failed to salt key password") (outside (le_SaltForKey env));
  entities ← outside (match le_Unlock env with Ok n => Ok n | Err e => Err (UBoth ErrFailedToUnlock e) end);
  if entities =? 0 then fails (UFails ErrFailedToUnlock)
  else
    wrapping (wrap_msg "failed to add bridge user") (addUser (le_add env) apiUser authUID authRef saltedKeyPass true) ≫= fun _ =>
    mret (user_ID (au_user apiUser)).

(** [try.CatchVal]: a panic becomes an error. *)
Definition catching {A} (m : B A) : B A := fun s =>
  match m s with (s, Err UPanics) => (s, Err (UFails UPanicked)) | r => r end.

Definition LoginUser (env : login_env) (authUID authRef : string) : B string :=
  userID ← wrapping (wrap_msg "failed to login user") (catching (loginUser env authUID authRef));
  publish (UserLoggedIn userID) ≫= fun _ => mret userID.

Definition LoginFull (env : login_env) (username : string) : B string :=
  auth ← wrapping (wrap_msg "failed to begin login process") (LoginAuth env username);
  (match le_getTOTP env with
   | None => mret ()
   | Some e => wrapping (wrap_msg "failed to get or use TOTP") (outside_err e)
   end) ≫= fun _ =>
  wrapping (wrap_msg "failed to get key password") (outside_err (le_getKeyPass env)) ≫= fun _ =>
  LoginUser env auth.2.1 auth.2.2.

(** ** Loading the users of the vault *)

Definition loadUser (env : load_env) (id : string) : B () :=
  vaulted (Vault.user_AuthUID (lo_Clear env) id) ≫= fun _ =>
  match lo_refresh env with
  | Err e =>
      (if bool_decide (api_code e = Some AuthRefreshTokenInvalid) then logged (vaulted (Vault.user_Clear (lo_Clear env) id)) else mret ()) ≫= fun _ =>
      fails (UFails (UWrap "failed to create API client" e))
  | Ok auth =>
      wrapping (wrap_msg "failed to set auth") (vaulted (Vault.user_SetAuth (lo_SetAuth env) id auth.1 auth.2)) ≫= fun _ =>
      apiUser ← wrapping (wrap_msg "failed to get user") (outside (lo_GetUser env));
      keyPass ← vaulted (Vault.user_KeyPass (lo_SetAuth env) id);
      wrapping (wrap_msg "failed to add user") (addUser (lo_add env) apiUser auth.1 auth.2 keyPass false) ≫= fun _ =>
      primaryEmail ← vaulted (Vault.user_PrimaryEmail (lo_SetEmail env) id);
      if String.eqb primaryEmail (au_Email apiUser) then mret ()
      else wrapping (wrap_msg "failed to modify user primary email") (vaulted (Vault.user_SetPrimaryEmail (lo_SetEmail env) id (au_Email apiUser)))
  end.

(** The verdict on a user is published. *)
Definition announcing_load (env : load_env) (id : string) (m : B ()) : B () :=
  handling (m ≫= fun _ => publish (UserLoadSuccess id))
    (fun _ => authUID ← vaulted (Vault.user_AuthUID (lo_Clear env) id); publish (UserLoadFail id authUID)).

Definition load_one (envs : string -> load_env) (id : string) : B () :=
  authUID ← vaulted (Vault.user_AuthUID (lo_Clear (envs id)) id);
  if String.eqb authUID "" then mret ()
  else
    s ← get;
    match b_users s !! id with
    | Some _ => mret ()
    | None => publish (UserLoading id) ≫= fun _ => announcing_load (envs id) id (loadUser (envs id) id)
    end.

(** [vault.ForUser] with callbacks that change the bridge; they run in parallel in the code and
    in order here. *)
Definition for_user (env : Vault.venv) (fn : string -> B ()) : B () := fun s =>
  match vaulted (Vault.getUsers env) s with
  | (s, Err e) => (s, Err e)
  | (s, Ok users) =>
      deferring (fun s => (for_each users (fun u => logged (vaulted (Vault.user_Close u))) s).1) (for_each users fn) s
  end.

Definition loadUsers (env : Vault.venv) (envs : string -> load_env) : B () := for_user env (load_one envs).

(** ** Logging out *)

Definition user_Logout (env : logout_env) (u : account) (withAPI withData : bool) : B () :=
  wrapping (wrap_msg "failed to remove user from smtp server") (outside_err (out_smtp env)) ≫= fun _ =>
  (if withData then wrapping (wrap_msg "failed to delete user from imap server") (outside_err (out_imapDelete env))
   else wrapping (wrap_msg "failed to remove user from imap server") (outside_err (out_imapLogout env))) ≫= fun _ =>
  wrapping (wrap_msg "failed to clear vault") (vaulted (Vault.user_Clear (out_Clear env) (acc_id u))).

Definition logoutUser (env : logout_env) (u : account) (withAPI withData : bool) : B () :=
  deferring (fun s => set_users (delete (acc_id u) (b_users s)) s) (
    logged (user_Logout env u withAPI withData) ≫= fun _ =>
    modify (fun s => SetNumberConnectedAccounts (Z.of_nat (size (b_users s)) - 1) s) ≫= fun _ =>
    user_Close u).

Definition LogoutUser (env : logout_env) (userID : string) : B () :=
  s ← get;
  match b_users s !! userID with
  | None => fails (UFails ErrNoSuchUser)
  | Some user => logoutUser env user true false ≫= fun _ => publish (UserLoggedOut userID)
  end.

Definition DeleteUser (env : logout_env) (userID : string) : B () :=
  wrapping (fun _ => UFails (UErr "failed to get sync config path")) (outside_err (out_syncPath env)) ≫= fun _ =>
  has ← vaulted (Vault.HasUser (out_Delete env) userID);
  if negb (has : bool) then fails (UFails ErrNoSuchUser)
  else
    s ← get;
    (match b_users s !! userID with
     | Some user => logoutUser env user true true
     | None => mret ()
     end) ≫= fun _ =>
    wrapping (fun _ => UFails (UErr "failed to delete use sync config")) (outside_err (out_DeleteSyncState env)) ≫= fun _ =>
    logged (vaulted (Vault.DeleteUser (out_Delete env) userID)) ≫= fun _ =>
    publish (UserDeleted userID).

(** ** Settings and events of a user *)

Record mode_env : Type := mkModeEnv {
  me_vault : Vault.venv;
  me_smtp : option uerr;
  me_imap : option uerr
}.

Definition user_SetAddressMode (env : mode_env) (u : account) (mode : VaultMode) : B () :=
  wrapping (wrap_msg "failed to set address mode") (vaulted (Vault.user_SetAddressMode (me_vault env) (acc_id u) mode)) ≫= fun _ =>
  wrapping (wrap_msg "failed to set smtp address mode") (outside_err (me_smtp env)) ≫= fun _ =>
  wrapping (wrap_msg "failed to imap address mode") (outside_err (me_imap env)).

Definition VaultMode_eqb (m m' : VaultMode) : bool :=
  match m, m' with CombinedMode, CombinedMode | SplitMode, SplitMode => true | _, _ => false end.

(** Whether one of the users is in split mode. *)
Fixpoint some_split (env : mode_env) (users : list account) : B bool :=
  match users with
  | [] => mret false
  | u :: users =>
      mode ← vaulted (Vault.user_AddressMode (me_vault env) (acc_id u));
      if VaultMode_eqb mode SplitMode then mret true else some_split env users
  end.

Definition SetAddressMode (env : mode_env) (userID : string) (mode : VaultMode) : B () :=
  s ← get;
  match b_users s !! userID with
  | None => fails (UFails ErrNoSuchUser)
  | Some user =>
      current ← vaulted (Vault.user_AddressMode (me_vault env) (acc_id user));
      if VaultMode_eqb current mode then fails (UFails (UErr "address mode is already set"))
      else
        wrapping (wrap_msg "failed to set address mode") (user_SetAddressMode env user mode) ≫= fun _ =>
        publish (AddressModeChanged userID mode) ≫= fun _ =>
        s ← get;
        splitMode ← some_split env (Values (b_users s));
        modify (SetSplitMode splitMode)
  end.

(** The answers to the calls that resynchronise a user, in their order. *)
Record resync_env : Type := mkResyncEnv {
  re_imapBadEvent : option uerr;
  re_identity : option uerr;
  re_smtp : option uerr;
  re_imap : option uerr;
  re_vault : Vault.venv;
  re_logout : logout_env
}.

(** What it returns, and whether the event loop goes on. *)
Definition BadEventFeedbackResync (env : resync_env) : bool * option uerr :=
  match re_imapBadEvent env, re_identity env, re_smtp env, re_imap env with
  | Some e, _, _, _ => (false, Some (UWrap "failed to execute bad event request on imap service" e))
  | None, Some e, _, _ => (false, Some (UWrap "failed to resync identity service" e))
  | None, None, Some e, _ => (false, Some (UWrap "failed to resync smtp service" e))
  | None, None, None, Some e => (false, Some (UWrap "failed to resync imap service" e))
  | None, None, None, None => (true, None)
  end.

Definition SendBadEventUserFeedback (env : resync_env) (userID : string) (doResync : bool) : B () :=
  s ← get;
  match b_users s !! userID with
  | None => fails (UFails ErrNoSuchUser)
  | Some user =>
      if doResync then outside_err (BadEventFeedbackResync env).2
      else logoutUser (re_logout env) user true false ≫= fun _ => publish (UserLoggedOut userID)
  end.

(** The flag is reset before the resync, whose failure is logged. *)
Definition VerifyResyncAndExecute (env : resync_env) (u : account) : B () :=
  shouldResync ← vaulted (Vault.user_GetShouldResync (re_vault env) (acc_id u));
  if shouldResync : bool then logged (vaulted (Vault.user_SetShouldSync (re_vault env) (acc_id u) false)) else mret ().

Definition handleUserEvent (env : resync_env) (u : account) (event : user_event) : B () :=
  match event with
  | UserDeauth => logoutUser (re_logout env) u false false
  | UserLoadedCheckResync => VerifyResyncAndExecute env u
  | UserBadEvent _ | UserOther _ => mret ()
  end.

(** The goroutine that takes the events of a user; closing the user discards the rest. *)
Definition next_event (env : resync_env) (userID : string) : B () :=
  s ← get;
  match b_users s !! userID with
  | None => mret ()
  | Some u =>
      match acc_queue u with
      | [] => mret ()
      | event :: queue =>
          let u := mkAccount (acc_id u) (acc_plan u) (acc_identity u) queue in
          modify (fun s => set_users (<[userID := u]> (b_users s)) s) ≫= fun _ =>
          handleUserEvent env u event ≫= fun _ => publish (UserEvent userID event)
      end
  end.

(** ** Information *)

(** [answers]: whether the identity service answers in time. *)
Definition GetAPIUser (answers : bool) (u : account) : option User := if answers then Some (st_User (acc_identity u)) else None.
Definition Name (answers : bool) (u : account) : string := match GetAPIUser answers u with Some apiUser => user_Name apiUser | None => "" end.
Definition UsedSpace (answers : bool) (u : account) : Z := match GetAPIUser answers u with Some apiUser => user_UsedSpace apiUser | None => 0 end.

Definition Match (answers : bool) (u : account) (query : string) : bool :=
  match GetAPIUser answers u with
  | None => false
  | Some apiUser =>
      String.eqb query (user_Name apiUser) ||
      existsb (fun addr => String.eqb query (addr_Email addr)) (Values (Addresses (acc_identity u)))
  end.

(** [IsBYOEAddress] is the API's. *)
Definition external (addr : Address) : bool := match addr_Type addr with AddressTypeExternal => true | _ => false end.
Definition protonAddresses (isBYOE : Address -> bool) (answers : bool) (u : account) : list Address :=
  if answers then
    sort_by addr_Order (Filter (Values (Addresses (acc_identity u)))
      (fun addr => enabled (addr_Status addr) && (isBYOE addr || negb (external addr))))
  else [].
Definition Emails (isBYOE : Address -> bool) (answers : bool) (u : account) : list string := addr_Email <$> protonAddresses isBYOE answers u.
Definition DisplayNames (isBYOE : Address -> bool) (answers : bool) (u : account) : gmap string string :=
  foldl (fun result address => <[addr_Email address := addr_DisplayName address]> result) ∅ (protonAddresses isBYOE answers u).

Inductive UserState : Type := SignedOut | Locked | Connected.
Record UserInfo : Type := mkUserInfo {
  ui_UserID : string;
  ui_Username : string;
  ui_State : UserState;
  ui_Addresses : list string;
  ui_AddressMode : VaultMode;
  ui_BridgePass : bytes;
  ui_UsedSpace : Z
}.

Definition getUserInfo (userID username primaryEmail : string) (state : UserState) (addressMode : VaultMode) : UserInfo :=
  mkUserInfo userID username state (if String.eqb primaryEmail "" then [] else [primaryEmail]) addressMode [] 0.

Definition getConnUserInfo (isBYOE : Address -> bool) (answers : bool) (env : Vault.venv) (u : account) : B UserInfo :=
  addressMode ← vaulted (Vault.user_AddressMode env (acc_id u));
  bridgePass ← vaulted (Vault.user_BridgePass env (acc_id u));
  mret (mkUserInfo (acc_id u) (Name answers u) Connected (Emails isBYOE answers u) addressMode (B64RawEncode bridgePass) (UsedSpace answers u)).

(** [vault.GetUser] with its callback. *)
Definition GetUserInfo (isBYOE : Address -> bool) (answers : bool) (env : Vault.venv) (userID : string) : B UserInfo :=
  s ← get;
  match b_users s !! userID with
  | Some user => getConnUserInfo isBYOE answers env user
  | None =>
      user ← wrapping (wrap_msg "failed to get user info") (vaulted (Vault.NewUser env userID));
      deferring (fun s => (vaulted (Vault.user_Close user) s).1) (
        data ← vaulted (Vault.getUser env user);
        mret (getUserInfo (Vault.ud_UserID data) (Vault.ud_Username data) (Vault.ud_PrimaryEmail data)
          (if String.eqb (Vault.ud_AuthUID data) "" then SignedOut else Locked) (Vault.ud_AddressMode data)))
  end.

Definition QueryUserInfo (isBYOE : Address -> bool) (answers : bool) (env : Vault.venv) (query : string) : B UserInfo :=
  s ← get;
  match find_first (fun u => Match answers u query) (Values (b_users s)) with
  | Some user => getConnUserInfo isBYOE answers env user
  | None => fails (UFails ErrNoSuchUser)
  end.

(** *** The databases of the addresses *)

Definition GetGluonID (env : Vault.venv) (u : account) (addrID : string) : B (option string) :=
  gluonIDs ← vaulted (Vault.user_GetGluonIDs env (acc_id u));
  match default ∅ gluonIDs !! addrID with
  | Some gluonID => mret (Some gluonID)
  | None =>
      mode ← vaulted (Vault.user_AddressMode env (acc_id u));
      if negb (VaultMode_eqb mode CombinedMode) then mret None
      else
        match Values (default ∅ gluonIDs) with
        | [gluonID] => logged (vaulted (Vault.user_SetGluonID env (acc_id u) addrID gluonID)) ≫= fun _ => mret (Some gluonID)
        | _ => mret None
        end
  end.

End bridge.
