(* ===== verification/VaultHandles.v ===== *)
(** * The handles of the vault (internal/vault)

    What the operations of [Vault.v] do to the users of the vault and to the number of open
    handles of each user: the facts its clients need, without its file. *)

From S2P Require Import Prelude.
From S2P Require Import Effects.
From S2P Require Vault.

Notation bytes := (list Z).

(** ** What the vault does with the handles

    [vs k us f v]: the vault holds the users [us], and [f id] handles of [id] are open. *)

Section handles.
Context `{VC : Vault.VaultCodec} `{VL : !Vault.VaultCodecLaws}.

Definition handles (v : Vault.Vault) (id : string) : Z := default 0 (Vault.v_ref v !! id).
Definition vs (k : Vault.gcm) (us : list Vault.UserData) (f : string -> Z) (v : Vault.Vault) : Prop :=
  Vault.vault_ok v k us /\ forall id, handles v id = f id.

(** One more handle, one less. *)
Definition inc (id : string) (f : string -> Z) : string -> Z := fun x => if String.eqb x id then f x + 1 else f x.
Definition dec (id : string) (f : string -> Z) : string -> Z := fun x => if String.eqb x id then Z.max 0 (f x - 1) else f x.

(** Few enough handles. *)
Definition fits (f : string -> Z) : Prop := forall id, f id + 1 < 2 ^ 63.

Lemma vs_fits k us f v : vs k us f v -> fits f -> Vault.handles_fit v.
Proof. intros [_ Hf] Hfit id n Hn. specialize (Hfit id). rewrite <- Hf in Hfit. unfold handles in Hfit. by rewrite Hn in Hfit. Qed.

Lemma vs_pos k us f v id : vs k us f v -> 0 <= f id.
Proof.
  intros [Hv Hf]. rewrite <- Hf. unfold handles. destruct (Vault.v_ref v !! id) as [n|] eqn:Hn; simpl; [|lia].
  apply (Vault.ok_refs _ _ _ Hv) in Hn as [? _]. lia.
Qed.

Lemma vs_user k us f v id : vs k us f v -> 0 < f id -> id ∈ Vault.ids us.
Proof.
  intros [Hv Hf]. rewrite <- Hf. unfold handles. destruct (Vault.v_ref v !! id) as [n|] eqn:Hn; simpl; [|lia].
  intros _. by apply (Vault.ok_refs _ _ _ Hv) in Hn as [_ ?].
Qed.

Lemma vs_ext k us f f' v : vs k us f v -> (forall id, f id = f' id) -> vs k us f' v.
Proof. intros [Hv Hf] He. split; [done|]. intros id. by rewrite Hf. Qed.

Lemma attach_vs k us f v id :
  vs k us f v -> fits f -> id ∈ Vault.ids us -> vs k us (inc id f) (Vault.attachUserUnsafe id v).1.
Proof.
  intros Hv Hfit Hid. split; [apply Vault.attach_vault_ok; [apply Hv|by eapply vs_fits|done]|].
  intros x. unfold handles, inc. simpl. pose proof (vs_pos _ _ _ _ id Hv). destruct Hv as [_ Hf]. rewrite <- !Hf in *. unfold handles in *.
  destruct (String.eqb_spec x id) as [->|Hne]; [|by rewrite lookup_insert_ne].
  rewrite lookup_insert_eq. simpl. specialize (Hfit id). rewrite <- Hf in Hfit. unfold handles in Hfit.
  apply i64_id. unfold i64_ok. lia.
Qed.

Lemma close_vs k us f v id :
  vs k us f v -> fits f ->
  vs k us (dec id f) (Vault.user_Close id v).1 /\ (Vault.user_Close id v).2 <> Err Vault.Panics.
Proof.
  intros Hv Hfit. pose proof (vs_fits _ _ _ _ Hv Hfit) as Hfit'. pose proof (vs_pos _ _ _ _ id Hv) as Hpos.
  destruct Hv as [Hv Hf]. split; [split; [by apply Vault.detach_vault_ok|]|].
  - intros x. unfold dec. rewrite <- Hf in *. unfold Vault.user_Close, Vault.detachUser, handles in *.
    specialize (Hfit id). rewrite <- Hf in Hfit. unfold handles in Hfit.
    destruct (Vault.v_ref v !! id) as [n|] eqn:Hn; simpl in *.
    + destruct (Vault.ok_refs _ _ _ Hv _ _ Hn) as [Hn0 _]. rewrite i64_id by (unfold i64_ok; lia).
      destruct (String.eqb_spec x id) as [->|Hne].
      * rewrite Hn. simpl. destruct (Z.eqb_spec (n - 1) 0); [rewrite lookup_delete_eq|rewrite lookup_insert_eq]; simpl; lia.
      * by destruct (Z.eqb_spec (n - 1) 0); rewrite ?lookup_delete_ne, ?lookup_insert_ne.
    + destruct (String.eqb_spec x id) as [->|Hne]; [by rewrite Hn|done].
  - unfold Vault.user_Close, Vault.detachUser. by destruct (Vault.v_ref v !! id).
Qed.

(** A change of one user. *)
Lemma modUser_vs env k us f v id g :
  Vault.venv_ok env -> vs k us f v -> id ∈ Vault.ids us -> (forall u, Vault.ud_UserID (g u) = Vault.ud_UserID u) ->
  exists us', vs k us' f (Vault.modUser env id g v).1 /\ Vault.ids us' = Vault.ids us /\ (Vault.modUser env id g v).2 <> Err Vault.Panics.
Proof.
  intros Hn [Hv Hf] Hid Hg. destruct (Vault.find_user_ids _ _ Hid) as (i & u & Hu).
  destruct (Vault.modUserUnsafe_vault_ok env id (fun u => Ok (g u)) k v us i u (g u) Hn Hv Hu eq_refl (Hg u)) as (Hok & Hp & Hr).
  exists (<[i := g u]> us). split; [split; [done|]|split; [|done]].
  - intros x. unfold handles, Vault.modUser. rewrite Hr. apply Hf.
  - destruct (Vault.find_user_Some _ _ _ _ Hu) as [Hi _]. by eapply Vault.ids_insert.
Qed.

Lemma getUser_vs env k us f v id :
  vs k us f v -> id ∈ Vault.ids us -> exists u, Vault.getUser env id v = (v, Ok u) /\ Vault.ud_UserID u = id.
Proof.
  intros [Hv _] Hid. destruct (Vault.find_user_ids _ _ Hid) as (i & u & Hu). exists u.
  split; [by eapply Vault.getUser_ok|]. by eapply Vault.find_user_Some.
Qed.

(** The disk takes what is written. *)
Definition healthy (env : Vault.venv) : Prop := Vault.env_write env = None /\ Vault.env_rename env = None.

Lemma modUnsafe_healthy env fn k us v :
  healthy env -> Vault.vault_ok v k us -> (forall d, Vault.Data_Users d = us -> exists d', fn d = Ok d') ->
  (Vault.modUnsafe env fn v).2 = Ok ().
Proof.
  intros [Hw Hr] Hv Hfn. unfold Vault.modUnsafe. rewrite (Vault.ok_gcm _ _ _ Hv).
  destruct (Vault.ok_enc _ _ _ Hv env) as (d & -> & Hu). destruct (Hfn d Hu) as [d' ->]. by rewrite Hw, Hr.
Qed.

Lemma modUser_healthy env k us f v id g : healthy env -> vs k us f v -> id ∈ Vault.ids us -> (Vault.modUser env id g v).2 = Ok ().
Proof.
  intros Hh [Hv _] Hid. apply (modUnsafe_healthy env _ k us); [done|done|]. intros d <-.
  destruct (Vault.find_user_ids _ _ Hid) as (i & u & ->). simpl. by eexists.
Qed.

(** Deleting a user: nothing happens while a handle is open. *)
Lemma DeleteUser_vs env k us f v id :
  Vault.venv_ok env -> vs k us f v ->
  exists us', vs k us' f (Vault.DeleteUser env id v).1 /\ (Vault.DeleteUser env id v).2 <> Err Vault.Panics /\
    (forall x, x ∈ Vault.ids us' <-> x ∈ Vault.ids us /\ (x = id -> 0 < f id)).
Proof.
  intros Hn Hv. pose proof (vs_pos _ _ _ _ id Hv) as Hpos. destruct Hv as [Hv Hf].
  destruct (Vault.v_ref v !! id) as [n|] eqn:Href.
  { exists us. unfold Vault.DeleteUser. rewrite Href. split; [done|]. split; [done|]. intros x. split; [|by intros [? _]]. intros Hx.
    split; [done|]. intros ->. rewrite <- Hf. unfold handles. rewrite Href. simpl. by apply (Vault.ok_refs _ _ _ Hv) in Href as [? _]. }
  assert (Hf0 : f id = 0) by (rewrite <- Hf; unfold handles; by rewrite Href).
  destruct (Vault.DeleteUser_fine env id k v us Hn Hv) as [(us' & Hok) Hp]. exists us'.
  assert (Hr : Vault.v_ref (Vault.DeleteUser env id v).1 = Vault.v_ref v /\
    forall x, x ∈ Vault.ids us' <-> x ∈ Vault.ids us /\ x <> id).
  { unfold Vault.DeleteUser in *. rewrite Href in *.
    destruct (Vault.modUnsafe_ok env (fun data => Ok (Vault.delete_user_data id data)) k v us
      (fun d' => forall x, x ∈ Vault.ids (Vault.Data_Users d') <-> x ∈ Vault.ids us /\ x <> id)
      Hn (Vault.ok_gcm _ _ _ Hv) (Vault.ok_enc _ _ _ Hv)) as (d' & Hd' & _ & Hk & Hr & _ & Henc & _).
    - intros d Hd. eexists. split; [done|]. intros x. unfold Vault.delete_user_data. rewrite Hd.
      pose proof (Vault.ok_ids _ _ _ Hv) as Hnd.
      destruct (Vault.find_user id us) as [[i u]|] eqn:Hfu; simpl.
      + destruct (Vault.find_user_Some _ _ _ _ Hfu) as [Hi Hid]. rewrite Vault.ids_delete.
        assert (Hii : Vault.ids us !! i = Some id) by (unfold Vault.ids; rewrite list_lookup_fmap, Hi; simpl; by rewrite Hid).
        revert Hnd Hii. generalize (Vault.ids us). intros l Hnd Hii.
        assert (Hl : l ≡ₚ id :: delete i l) by by apply delete_Permutation.
        rewrite Hl in Hnd. apply NoDup_cons in Hnd as [Hnot _]. rewrite Hl at 2. rewrite elem_of_cons. split.
        * intros Hx. split; [by right|]. intros ->. done.
        * intros [[->|Hx] Hne]; done.
      + rewrite Hd. apply Vault.find_user_None in Hfu. split; [|by intros [? _]]. intros Hx. split; [done|]. by intros ->.
    - split; [done|]. destruct (Vault.ok_enc _ _ _ Hok env) as (d1 & Hd1 & Hu1). rewrite Henc in Hd1.
      rewrite Vault.unmarshal_marshalFile in Hd1 by done. injection Hd1 as <-. by rewrite <- Hu1. }
  destruct Hr as [Hr Hids]. split; [split; [done|]|split; [done|]].
  - intros x. unfold handles. rewrite Hr. apply Hf.
  - intros x. rewrite Hids. split; intros [Hx H]; (split; [done|]); [done|]. intros He. specialize (H He). lia.
Qed.

(** Every user of the list gets one more handle. *)
Definition among (l : list string) (x : string) : Z := if bool_decide (x ∈ l) then 1 else 0.

Lemma open_users_vs env k us f v l acc :
  vs k us f v -> (forall x, f x + among (Vault.ids l) x + 1 < 2 ^ 63) -> NoDup (Vault.ids l) ->
  (forall x, x ∈ Vault.ids l -> x ∈ Vault.ids us) ->
  exists v', Vault.open_users env l acc v = (v', Ok (acc ++ Vault.ids l)) /\ vs k us (fun x => f x + among (Vault.ids l) x) v'.
Proof.
  revert f v acc. induction l as [|u l IH]; intros f v acc Hv Hfit Hnd Hsub.
  - exists v. unfold Vault.ids. simpl. rewrite app_nil_r. split; [done|]. eapply vs_ext; [exact Hv|]. intros x. unfold among. simpl. lia.
  - change (Vault.ids (u :: l)) with (Vault.ud_UserID u :: Vault.ids l) in *. apply NoDup_cons in Hnd as [Hnot Hnd].
    assert (Hsplit : forall x, inc (Vault.ud_UserID u) f x + among (Vault.ids l) x = f x + among (Vault.ud_UserID u :: Vault.ids l) x).
    { intros x. unfold inc, among. destruct (String.eqb_spec x (Vault.ud_UserID u)) as [->|Hne].
      - rewrite (bool_decide_eq_false_2 _ Hnot), bool_decide_eq_true_2 by (left). lia.
      - case_bool_decide as H1; case_bool_decide as H2; rewrite elem_of_cons in H2; naive_solver lia. }
    assert (Hv1 : vs k us (inc (Vault.ud_UserID u) f) (Vault.attachUserUnsafe (Vault.ud_UserID u) v).1).
    { apply attach_vs; [done| |apply Hsub; left]. intros x. specialize (Hfit x). revert Hfit. unfold among. case_bool_decide; lia. }
    destruct (IH _ _ (acc ++ [Vault.ud_UserID u]) Hv1) as (v' & Hrun & Hv'); [|done|intros x Hx; apply Hsub; by right|].
    { intros x. rewrite Hsplit. apply Hfit. }
    exists v'. split; [|by eapply vs_ext]. simpl. unfold Vault.newUserUnsafe, mbind, eff_bind.
    destruct (Vault.getUnsafe_ok env k v us) as (d & -> & Hd); [apply Hv|]. rewrite Hd.
    destruct (Vault.find_user_ids (Vault.ud_UserID u) us) as (i & u' & ->); [apply Hsub; left|].
    cbn -[Vault.attachUserUnsafe Vault.open_users]. rewrite <- app_assoc in Hrun. exact Hrun.
Qed.

Lemma getUsers_vs env k us f v :
  vs k us f v -> (forall x, f x + 2 < 2 ^ 63) ->
  exists v', Vault.getUsers env v = (v', Ok (Vault.ids us)) /\ vs k us (fun x => f x + among (Vault.ids us) x) v'.
Proof.
  intros Hv Hfit. unfold Vault.getUsers, mbind, eff_bind. destruct (Vault.getUnsafe_ok env k v us) as (d & -> & Hd); [apply Hv|].
  rewrite Hd. apply (open_users_vs env k us f v us []); [done| |apply (Vault.ok_ids _ _ _ (proj1 Hv))|done].
  intros x. specialize (Hfit x). unfold among. case_bool_decide; lia.
Qed.

(** What [GetOrAddUser] does: with the handle it opens the user exists; a failure may leave the
    handle open, but not when the disk takes what is written. *)
Definition got (k : Vault.gcm) (us : list Vault.UserData) (f : string -> Z) (userID : string) (env : Vault.venv)
    (r : result Vault.fault (string * bool)) (v' : Vault.Vault) : Prop :=
  exists us' f', vs k us' f' v' /\ (forall x, x ∈ Vault.ids us -> x ∈ Vault.ids us') /\
    match r with
    | Ok (h, isNew) => h = userID /\ userID ∈ Vault.ids us' /\ (forall x, f' x = inc userID f x) /\ (isNew = true <-> userID ∉ Vault.ids us) /\
        (forall x, x ∈ Vault.ids us' <-> x ∈ Vault.ids us \/ x = userID)
    | Err e => e <> Vault.Panics /\ ~ healthy env /\ (forall x, f x <= f' x <= inc userID f x)
    end.

Lemma inc_ge id f x : f x <= inc id f x.
Proof. unfold inc. destruct (String.eqb x id); lia. Qed.

(** A change that looks at the data it was applied to. *)
Lemma modUnsafe_vs env fn k us f v d d' :
  Vault.venv_ok env -> vs k us f v -> Vault.unmarshalFile env (Some k) (Vault.v_enc v) = Ok d -> fn d = Ok d' ->
  NoDup (Vault.ids (Vault.Data_Users d')) -> (forall x, x ∈ Vault.ids us -> x ∈ Vault.ids (Vault.Data_Users d')) ->
  vs k (Vault.Data_Users d') f (Vault.modUnsafe env fn v).1 /\ (Vault.modUnsafe env fn v).2 <> Err Vault.Panics /\
  (healthy env -> (Vault.modUnsafe env fn v).2 = Ok ()).
Proof.
  intros Hn [Hv Hf] Hd Hfn Hnd Hsub.
  assert (Heq : Vault.modUnsafe env fn v = Vault.modUnsafe env (fun _ => Ok d') v).
  { unfold Vault.modUnsafe. rewrite (Vault.ok_gcm _ _ _ Hv), Hd, Hfn. done. }
  rewrite Heq. destruct (Vault.modUnsafe_vault_ok env (fun _ => Ok d') k v us (Vault.Data_Users d') Hn Hv Hnd) as (Hok & Hp & Hr).
  - intros x n Hx. destruct (Vault.ok_refs _ _ _ Hv _ _ Hx) as [? ?]. auto.
  - intros d1 _. by exists d'.
  - split; [split; [done|]|split; [done|]].
    + intros x. unfold handles. rewrite Hr. apply Hf.
    + intros Hh. apply (modUnsafe_healthy env _ k us); [done|done|]. by eexists.
Qed.

Lemma addUser_vs env userID username primaryEmail authUID authRef keyPass k us f v :
  Vault.venv_ok env -> vs k us f v -> fits f -> userID ∉ Vault.ids us ->
  let r := Vault.addUserUnsafe env userID username primaryEmail authUID authRef keyPass v in
  got k us f userID env (match r.2 with Ok h => Ok (h, true) | Err e => Err e end) r.1.
Proof.
  intros Hn Hv Hfit Hnot. cbv zeta. unfold Vault.addUserUnsafe, mbind, eff_bind, reads.
  rewrite (Vault.ok_gcm _ _ _ (proj1 Hv)). destruct (Vault.ok_enc _ _ _ (proj1 Hv) env) as (d & Hd & Hu). rewrite Hd.
  set (fn := fun data => Ok (Vault.add_user_data env userID username primaryEmail authUID authRef keyPass data)).
  set (d' := Vault.add_user_data env userID username primaryEmail authUID authRef keyPass d).
  pose proof Hnot as Hfind. apply Vault.find_user_None in Hfind. rewrite <- Hu in Hfind.
  assert (Hids : Vault.ids (Vault.Data_Users d') = Vault.ids us ++ [userID]).
  { subst d'. unfold Vault.add_user_data. rewrite Hfind. unfold Vault.ids. simpl. by rewrite fmap_app, Hu. }
  assert (Hin : forall x, x ∈ Vault.ids (Vault.Data_Users d') <-> x ∈ Vault.ids us \/ x = userID).
  { intros x. by rewrite Hids, elem_of_app, list_elem_of_singleton. }
  destruct (modUnsafe_vs env fn k us f v d d' Hn Hv Hd eq_refl) as (Hv' & Hp & Hh).
  { rewrite Hids. apply NoDup_app. split; [apply (Vault.ok_ids _ _ _ (proj1 Hv))|]. split; [|apply NoDup_singleton].
    by intros x Hx ->%list_elem_of_singleton. }
  { intros x Hx. apply Hin. by left. }
  destruct (Vault.modUnsafe env fn v) as [v1 [[]|e]]; simpl in *.
  - rewrite Hfind. exists (Vault.Data_Users d'), (inc userID f). split; [|split; [intros x Hx; apply Hin; by left|]].
    + apply (attach_vs k (Vault.Data_Users d') f v1 userID Hv' Hfit). apply Hin. by right.
    + split_and!; [done|apply Hin; by right|done|done|done].
  - exists (Vault.Data_Users d'), f. split; [done|]. split; [intros x Hx; apply Hin; by left|].
    split; [congruence|]. split; [intros ?; naive_solver|]. intros x. pose proof (inc_ge userID f x). lia.
Qed.

Lemma updateUsername_vs env id username k us f v :
  Vault.venv_ok env -> vs k us f v -> id ∈ Vault.ids us ->
  exists us', vs k us' f (Vault.updateUsernameUnsafe env id username v).1 /\ Vault.ids us' = Vault.ids us /\
    (Vault.updateUsernameUnsafe env id username v).2 <> Err Vault.Panics /\ (healthy env -> (Vault.updateUsernameUnsafe env id username v).2 = Ok ()).
Proof.
  intros Hn Hv Hid. unfold Vault.updateUsernameUnsafe. destruct (Vault.blank username); [by exists us|].
  unfold mbind, eff_bind. destruct (getUser_vs env k us f v id Hv Hid) as (u & -> & _).
  destruct (String.eqb (Vault.ud_Username u) username); [by exists us|].
  destruct (modUser_vs env k us f v id (fun u => Vault.with_ud_Username username u) Hn Hv Hid) as (us' & ? & ? & ?); [done|].
  exists us'. split_and!; try done. intros Hh. by apply (modUser_healthy env k us f v id (fun u => Vault.with_ud_Username username u)).
Qed.

Lemma GetOrAddUser_vs env userID username primaryEmail authUID authRef keyPass k us f v :
  Vault.venv_ok env -> vs k us f v -> fits f ->
  let '(v', r) := Vault.GetOrAddUser env userID username primaryEmail authUID authRef keyPass v in got k us f userID env r v'.
Proof.
  intros Hn Hv Hfit. unfold Vault.GetOrAddUser. unfold mbind at 1 2, eff_bind at 1 2.
  destruct (Vault.getUnsafe_ok env k v us (proj1 Hv)) as (d & -> & Hu). rewrite Hu.
  destruct (Vault.find_user userID us) as [[i u]|] eqn:Hf.
  - assert (Hid : userID ∈ Vault.ids us).
    { destruct (decide (userID ∈ Vault.ids us)) as [?|Hno]; [done|]. apply Vault.find_user_None in Hno. congruence. }
    pose proof (attach_vs k us f v userID Hv Hfit Hid) as Hv1. unfold mbind, eff_bind. cbn [Vault.attachUserUnsafe fst] in Hv1.
    cbn [Vault.attachUserUnsafe]. revert Hv1. generalize (Vault.set_ref (<[userID := i64 (default 0 (Vault.v_ref v !! userID) + 1)]> (Vault.v_ref v)) v).
    intros v1 Hv1.
    destruct (modUser_vs env k us (inc userID f) v1 userID (fun u => Vault.with_ud_KeyPass keyPass (Vault.with_ud_AuthUID authUID (Vault.with_ud_AuthRef authRef u))))
      as (us2 & Hv2 & Hids2 & Hp2); [done..|].
    pose proof (modUser_healthy env k us (inc userID f) v1 userID (fun u => Vault.with_ud_KeyPass keyPass (Vault.with_ud_AuthUID authUID (Vault.with_ud_AuthRef authRef u)))) as Hh2.
    unfold Vault.setAuthAndKeyPassUnsafe. unfold Vault.modUser in *.
    destruct (Vault.modUserUnsafe env userID _ v1) as [v2 [[]|e]]; simpl in *.
    + destruct (updateUsername_vs env userID username k us2 (inc userID f) v2 Hn Hv2) as (us3 & Hv3 & Hids3 & Hp3 & Hh3); [by rewrite Hids2|].
      assert (Hall : Vault.ids us3 = Vault.ids us) by congruence.
      destruct (Vault.updateUsernameUnsafe env userID username v2) as [v3 [[]|e]]; simpl in *;
        (exists us3, (inc userID f); split; [done|]; split; [by rewrite Hall|]; rewrite ?Hall).
      * split_and!; [done|done|done|done|]. intros x. split; [by left|]. by intros [?| ->].
      * split; [congruence|]. split; [intros Hh; by apply Hh3 in Hh|]. intros x. pose proof (inc_ge userID f x). lia.
    + exists us2, (inc userID f). split; [done|]. rewrite Hids2. split; [done|].
      split; [congruence|]. split; [intros Hh; by apply Hh2 in Hh|]. intros x. pose proof (inc_ge userID f x). lia.
  - apply Vault.find_user_None in Hf. pose proof (addUser_vs env userID username primaryEmail authUID authRef keyPass k us f v Hn Hv Hfit Hf) as H.
    cbv zeta in H. unfold mbind, eff_bind. by destruct (Vault.addUserUnsafe env userID username primaryEmail authUID authRef keyPass v) as [v' [h|e]].
Qed.

End handles.
