(* ===== verification/UsersSafety.v ===== *)
(** * The users of the bridge: what holds of every run

    The operations of [Users.v] in any order, whatever the disk, the API and the services
    answer: no panic, a handle of the vault for each user that is logged in and no other, the
    verdict on each user that is loaded, and what deleting and logging out leave behind. *)

From S2P Require Import Prelude.
From S2P Require Import Strings.
From S2P Require Import Api.
From S2P Require Import UserEvents.
From S2P Require Import UserIdentity.
From S2P Require Import Effects.
From S2P Require Vault.
From S2P Require Import VaultHandles.
From S2P Require Import Users.

(** ** Runs of the bridge *)

Section runs.
Context `{VC : Vault.VaultCodec} `{VL : !Vault.VaultCodecLaws} `{MR : MapRange, SF : SortFunc}.
Context (k : Vault.gcm).

Notation B := (eff Bridge ufault).

(** How often a handle is in a list of open handles. *)
Fixpoint occ (l : list string) (x : string) : Z :=
  match l with [] => 0 | y :: l => (if String.eqb x y then 1 else 0) + occ l x end.

Definition held (s : Bridge) (x : string) : Z := match b_users s !! x with Some _ => 1 | None => 0 end.

(** The bridge with the handles [opened] besides those of its users: every user that is logged in
    has its own handle, and there are at most [most id] more.  The handles of [opened] are surely open
    for a user that is [firm]: a user that could not be made is closed twice, and then one of
    them may be gone. *)
Record tracked (firm : string -> bool) (most : string -> Z) (opened : list string) (s : Bridge) : Prop := {
  tr_vault : exists us f, vs k us f (b_vault s) /\ (forall id, id ∈ opened -> id ∈ Vault.ids us) /\
    (forall id, firm id = true \/ held s id = 1 -> held s id + occ opened id <= f id) /\
    (forall id, f id <= most id + held s id + occ opened id);
  tr_users : forall id u, b_users s !! id = Some u -> acc_id u = id;
  tr_connected : b_connected s = Z.of_nat (size (b_users s))
}.

Lemma occ_pos l x : 0 <= occ l x.
Proof. induction l as [|y l IH]; simpl; [lia|]. destruct (String.eqb x y); lia. Qed.

Lemma occ_in l x : x ∈ l -> 1 <= occ l x.
Proof.
  induction 1 as [x l|x y l _ IH]; simpl; [rewrite String.eqb_refl|]; [pose proof (occ_pos l x); lia|]. destruct (String.eqb x y); lia.
Qed.

Lemma occ_notin l x : x ∉ l -> occ l x = 0.
Proof.
  induction l as [|y l IH]; simpl; [done|]. rewrite not_elem_of_cons. intros [Hne Hl]. rewrite IH by done.
  by destruct (String.eqb_spec x y).
Qed.

Lemma occ_NoDup l x : NoDup l -> occ l x <= 1.
Proof.
  induction 1 as [|y l Hy _ IH]; simpl; [lia|]. destruct (String.eqb_spec x y) as [->|_]; [|lia]. rewrite (occ_notin l y) by done. lia.
Qed.

Lemma occ_among l x : NoDup l -> occ l x = among l x.
Proof.
  intros Hl. unfold among. case_bool_decide as Hx; [|by apply occ_notin].
  pose proof (occ_in l x Hx). pose proof (occ_NoDup l x Hl). lia.
Qed.

(** There is room for more handles. *)
Definition roomy (most : string -> Z) (opened : list string) : Prop := forall x, most x + occ opened x + 3 < 2 ^ 63.

Lemma tracked_mono firm most most' opened s :
  tracked firm most opened s -> (forall x, most x <= most' x) -> tracked firm most' opened s.
Proof.
  intros [(us & f & Hv & Hin & Hlow & Hmost) Hu Hc] Hm. split; [|done..]. exists us, f. split_and!; try done.
  intros id. specialize (Hmost id). specialize (Hm id). lia.
Qed.

Lemma held_le s x : 0 <= held s x <= 1.
Proof. unfold held. destruct (b_users s !! x); lia. Qed.

Lemma held_vault v s x : held (set_vault v s) x = held s x.
Proof. done. Qed.

(** The user may be changed: a handle is open or it is logged in. *)
Definition present (opened : list string) (s : Bridge) (id : string) : Prop := id ∈ opened \/ held s id = 1.

Lemma wp_vaulted {A} (m : eff Vault.Vault Vault.fault A) Q s :
  (let '(v, r) := m (b_vault s) in Q (match r with Ok a => Ok a | Err f => Err (of_vault f) end) (set_vault v s)) ->
  wp (vaulted m) Q s.
Proof. unfold wp, vaulted. by destruct (m (b_vault s)) as [v [a|f]]. Qed.

Lemma of_vault_panics f : of_vault f = UPanics -> f = Vault.Panics.
Proof. by destruct f. Qed.

(** After a call the servers are as before, and the vault still fits. *)
Definition kept (firm : string -> bool) (most : string -> Z) (opened : list string) (s s' : Bridge) : Prop :=
  tracked firm most opened s' /\ b_users s' = b_users s.

Lemma modUser_kept firm most opened env id g s :
  tracked firm most opened s -> present opened s id -> Vault.venv_ok env -> (forall u, Vault.ud_UserID (g u) = Vault.ud_UserID u) ->
  wp (vaulted (Vault.modUser env id g)) (fun r s' => r <> Err UPanics /\ kept firm most opened s s') s.
Proof.
  intros [(us & f & Hv & Hin & Hlow & Hmost) Hu Hc] Hid Hn Hg. apply wp_vaulted.
  assert (Hid' : id ∈ Vault.ids us).
  { destruct Hid as [?|Hheld]; [auto|]. eapply vs_user; [exact Hv|]. specialize (Hlow id (or_intror Hheld)). pose proof (occ_pos opened id). lia. }
  destruct (modUser_vs env k us f (b_vault s) id g Hn Hv Hid' Hg) as (us' & Hv' & Hids & Hp).
  destruct (Vault.modUser env id g (b_vault s)) as [v' r]. simpl in *. split; [destruct r as [?|e]; [done|]; intros [= He%of_vault_panics]; congruence|].
  split; [|done]. split; [|done..]. exists us', f. rewrite Hids. done.
Qed.

Lemma reading_kept {A} firm most opened env id (p : Vault.UserData -> A) s :
  tracked firm most opened s -> present opened s id ->
  exists a, vaulted (user ← Vault.getUser env id; mret (p user)) s = (s, Ok a).
Proof.
  intros [(us & f & Hv & Hin & Hlow & Hmost) Hu Hc] Hid.
  assert (Hid' : id ∈ Vault.ids us).
  { destruct Hid as [?|Hheld]; [auto|]. eapply vs_user; [exact Hv|]. specialize (Hlow id (or_intror Hheld)). pose proof (occ_pos opened id). lia. }
  destruct (getUser_vs env k us f (b_vault s) id Hv Hid') as (u & Hget & _). exists (p u).
  unfold vaulted, mbind, eff_bind. rewrite Hget. destruct s; done.
Qed.

Lemma fits_roomy most opened s (f : string -> Z) : roomy most opened -> (forall id, f id <= most id + held s id + occ opened id) -> fits f.
Proof. intros Hr Hf id. specialize (Hr id). specialize (Hf id). pose proof (held_le s id). lia. Qed.

(** Closing a handle: one of those in the list, or one more than there are when the user is not
    logged in. *)
Lemma close_kept firm most opened opened' id s :
  tracked firm most opened s -> roomy most opened -> (forall x, 0 <= most x) ->
  (opened = id :: opened' \/ (held s id = 0 /\ firm id = false /\ opened' = opened)) ->
  wp (vaulted (Vault.user_Close id)) (fun r s' => r <> Err UPanics /\ kept firm most opened' s s') s.
Proof.
  intros [(us & f & Hv & Hin & Hlow & Hmost) Hu Hc] Hroom H0 Hopen. apply wp_vaulted.
  pose proof (fits_roomy _ _ _ _ Hroom Hmost) as Hfit. destruct (close_vs k us f (b_vault s) id Hv Hfit) as [Hv' Hp].
  destruct (Vault.user_Close id (b_vault s)) as [v' r]. simpl in *. split; [destruct r as [?|e]; [done|]; intros [= He%of_vault_panics]; congruence|].
  assert (Hpos : forall x, 0 <= f x) by (intros x; by eapply vs_pos). pose proof (occ_pos opened') as Hocc.
  assert (Hheld : forall x, 0 <= held s x) by (intros x; unfold held; destruct (b_users s !! x); lia).
  split; [|done]. split; [|done..]. exists us, (dec id f).
  assert (Hsub : forall x, x ∈ opened' -> x ∈ opened) by (destruct Hopen as [->|(_ & _ & ->)]; [by right|done]).
  assert (Hcases : forall x, dec id f x = f x \/ (x = id /\ dec id f x = Z.max 0 (f x - 1))).
  { intros x. unfold dec. destruct (String.eqb_spec x id); auto. }
  assert (Hocc' : forall x, occ opened x = occ opened' x + (if String.eqb x id then 1 else 0) \/ (held s id = 0 /\ firm id = false /\ opened' = opened)).
  { intros x. destruct Hopen as [->|(? & ? & ->)]; simpl; [left; lia|by right]. }
  assert (Hdec : forall x, dec id f x = if String.eqb x id then Z.max 0 (f x - 1) else f x) by done.
  split_and!; [done|auto|..].
  - intros x Hx. rewrite held_vault in Hx. specialize (Hlow x Hx). rewrite held_vault, Hdec.
    destruct (Hocc' x) as [?|(? & ? & ->)]; destruct (String.eqb_spec x id) as [->|_]; try lia. destruct Hx; [congruence|lia].
  - intros x. specialize (Hmost x). specialize (Hpos x). specialize (Hocc x). specialize (Hheld x). specialize (H0 x). rewrite held_vault, Hdec. destruct (Hocc' x) as [?|(? & ? & ->)]; destruct (String.eqb_spec x id) as [->|_]; lia.
Qed.

(** Logging in again opens a handle; a failure may leave one behind. *)
Lemma GetOrAddUser_kept firm most opened env userID username primaryEmail authUID authRef keyPass s :
  tracked firm most opened s -> roomy most opened -> Vault.venv_ok env ->
  wp (vaulted (Vault.GetOrAddUser env userID username primaryEmail authUID authRef keyPass))
    (fun r s' => r <> Err UPanics /\ b_users s' = b_users s /\ (healthy env -> is_ok r = true) /\
      match r with
      | Ok (h, isNew) => h = userID /\ tracked firm most (userID :: opened) s' /\ (isNew = true -> userID ∉ opened /\ held s userID = 0)
      | Err _ => tracked firm (inc userID most) opened s'
      end) s.
Proof.
  intros [(us & f & Hv & Hin & Hlow & Hmost) Hu Hc] Hroom Hn. apply wp_vaulted.
  pose proof (fits_roomy _ _ _ _ Hroom Hmost) as Hfit.
  pose proof (GetOrAddUser_vs env userID username primaryEmail authUID authRef keyPass k us f (b_vault s) Hn Hv Hfit) as Hgot.
  destruct (Vault.GetOrAddUser env userID username primaryEmail authUID authRef keyPass (b_vault s)) as [v' [[h isNew]|e]];
    destruct Hgot as (us' & f' & Hv' & Hsub & Hgot).
  - destruct Hgot as (-> & Hin' & Hf' & Hnew & _). split; [done|]. split; [done|]. split; [done|]. split; [done|]. split.
    + split; [|done..]. exists us', f'. split_and!; [done| | |].
      * intros x [->|Hx]%elem_of_cons; auto.
      * intros x Hx. rewrite held_vault in Hx. specialize (Hlow x Hx). rewrite held_vault, Hf'. unfold inc. simpl. destruct (String.eqb x userID); lia.
      * intros x. specialize (Hmost x). rewrite held_vault, Hf'. unfold inc. simpl. destruct (String.eqb x userID); lia.
    + intros ->. assert (Hno : userID ∉ Vault.ids us) by by apply Hnew. split; [by intros ?%Hin|].
      unfold held. destruct (b_users s !! userID) as [u|] eqn:Hx; [|done]. exfalso. apply Hno. eapply vs_user; [exact Hv|].
      pose proof (occ_pos opened userID). assert (held s userID = 1) as Hy by (unfold held; by rewrite Hx). specialize (Hlow _ (or_intror Hy)). lia.
  - destruct Hgot as (He & Hun & Hf'). split; [intros [= Hp%of_vault_panics]; congruence|]. split; [done|].
    split; [done|]. split; [|done..]. exists us', f'. split_and!; [done|auto|..].
    + intros x Hx. rewrite held_vault in Hx. specialize (Hlow x Hx). specialize (Hf' x). rewrite held_vault. lia.
    + intros x. specialize (Hmost x). specialize (Hf' x). rewrite held_vault. unfold inc in *. destruct (String.eqb x userID); lia.
Qed.

(** Deleting a user that nobody uses. *)
Lemma DeleteUser_kept firm most opened env id s :
  tracked firm most opened s -> Vault.venv_ok env -> id ∉ opened ->
  wp (vaulted (Vault.DeleteUser env id)) (fun r s' => r <> Err UPanics /\ kept firm most opened s s') s.
Proof.
  intros [(us & f & Hv & Hin & Hlow & Hmost) Hu Hc] Hn Hid. apply wp_vaulted.
  destruct (DeleteUser_vs env k us f (b_vault s) id Hn Hv) as (us' & Hv' & Hp & Hids).
  destruct (Vault.DeleteUser env id (b_vault s)) as [v' r]. simpl in *. split; [destruct r as [?|e]; [done|]; intros [= He%of_vault_panics]; congruence|].
  split; [|done]. split; [|done..]. exists us', f. split_and!; try done. intros x Hx. apply Hids. split; [auto|]. by intros ->.
Qed.

(** *** Making a user *)

(** A call that neither panics nor touches users and handles. *)
Definition quiet {A} (opened : list string) (s : Bridge) (m : B A) : Prop :=
  forall firm most s1, tracked firm most opened s1 -> b_users s1 = b_users s ->
    wp m (fun r s' => r <> Err UPanics /\ kept firm most opened s1 s') s1.

Lemma kept_trans firm most opened s1 s2 s3 : kept firm most opened s1 s2 -> kept firm most opened s2 s3 -> kept firm most opened s1 s3.
Proof. intros [_ H1] [H2 H3]. split; [done|]. by rewrite H3. Qed.

Lemma kept_refl firm most opened s : tracked firm most opened s -> kept firm most opened s s.
Proof. by split. Qed.

Lemma quiet_bind {A C} opened s (m : B A) (f : A -> B C) : quiet opened s m -> (forall a, quiet opened s (f a)) -> quiet opened s (m ≫= f).
Proof.
  intros Hm Hf firm most s1 Ht Hs. apply wp_bind. eapply wp_mono; [|by apply Hm]. intros [a|e] s2 [Hp Hk]; [|split; [naive_solver|done]].
  eapply wp_mono; [|apply (Hf a firm most); [apply Hk|by rewrite (proj2 Hk)]]. intros r s3 [? Hk']. split; [done|]. by eapply kept_trans.
Qed.

Lemma quiet_wrapping {A} opened s g (m : B A) : quiet opened s m -> (forall f, g f = UPanics -> f = UPanics) -> quiet opened s (wrapping g m).
Proof.
  intros Hm Hg firm most s1 Ht Hs. apply wp_wrapping. eapply wp_mono; [|by apply Hm]. intros [a|e] s2 [Hp Hk]; (split; [|done]); [done|].
  intros [= He]. apply Hp. f_equal. by apply Hg.
Qed.

Lemma quiet_outside {A} opened s (r : result uerr A) : quiet opened s (outside r).
Proof. intros firm most s1 Ht Hs. apply wp_reads. destruct r; (split; [done|by apply kept_refl]). Qed.

Lemma quiet_outside_err opened s e : quiet opened s (outside_err e).
Proof. intros firm most s1 Ht Hs. destruct e; (split; [done|by apply kept_refl]). Qed.

Lemma quiet_ret {A} opened s (a : A) : quiet opened s (mret a).
Proof. intros firm most s1 Ht Hs. split; [done|by apply kept_refl]. Qed.

Lemma quiet_fails {A} opened s e : quiet opened s (fails (A := A) (UFails e)).
Proof. intros firm most s1 Ht Hs. split; [done|by apply kept_refl]. Qed.

Lemma quiet_modUser opened s env id g :
  present opened s id -> Vault.venv_ok env -> (forall u, Vault.ud_UserID (g u) = Vault.ud_UserID u) -> quiet opened s (vaulted (Vault.modUser env id g)).
Proof. intros Hid Hn Hg firm most s1 Ht Hs. apply modUser_kept; [done| |done|done]. unfold present, held in *. by rewrite Hs. Qed.

Lemma quiet_reading {A} opened s env id (p : Vault.UserData -> A) :
  present opened s id -> quiet opened s (vaulted (user ← Vault.getUser env id; mret (p user))).
Proof.
  intros Hid firm most s1 Ht Hs. unfold wp. destruct (reading_kept firm most opened env id p s1 Ht) as [a ->].
  - unfold present, held in *. by rewrite Hs.
  - split; [done|by apply kept_refl].
Qed.

Lemma quiet_logged {A} opened s (m : B A) : quiet opened s m -> quiet opened s (logged m).
Proof.
  intros Hm firm most s1 Ht Hs. specialize (Hm firm most s1 Ht Hs). unfold wp, logged in *. destruct (m s1) as [s2 [a|[|e]]]; simpl in *; naive_solver.
Qed.

Lemma wrap_msg_panics msg f : wrap_msg msg f = UPanics -> f = UPanics.
Proof. by destruct f. Qed.

#[local] Ltac quiet :=
  repeat match goal with
  | |- quiet _ _ (_ ≫= _) => apply quiet_bind; [|intros ?]
  | |- quiet _ _ (wrapping _ _) => apply quiet_wrapping; [|by intros [|]]
  | |- quiet _ _ (outside _) => apply quiet_outside
  | |- quiet _ _ (outside_err _) => apply quiet_outside_err
  | |- quiet _ _ (mret _) => apply quiet_ret
  | |- quiet _ _ (fails _) => apply quiet_fails
  | |- quiet _ _ (logged _) => apply quiet_logged
  | |- quiet _ _ (vaulted (Vault.modUser _ _ _)) => apply quiet_modUser; [done|done|done]
  | |- quiet _ _ (vaulted (Vault.getUser _ _ ≫= _)) => apply quiet_reading; done
  | |- quiet _ _ (if ?c then _ else _) => destruct c
  end.

Definition add_env_ok (env : add_env) : Prop :=
  Vault.venv_ok (ae_GetOrAdd env) /\ Vault.venv_ok (ae_Clear env) /\ Vault.venv_ok (ae_Delete env) /\ Vault.venv_ok (ae_Migrate env).

Lemma migrate_quiet opened s env id :
  present opened s id -> Vault.venv_ok (ae_Migrate env) -> quiet opened s (migrateSyncStatusFromVault env id).
Proof.
  intros Hid Hn. unfold migrateSyncStatusFromVault, Vault.user_SyncStatus, Vault.user_ClearSyncStatusWithoutEventID. quiet.
Qed.

(** Each part of [newImpl] is quiet, and the error says whether there is a user to close. *)
Lemma with_user_quiet {A} opened s ou (m : B A) firm most s1 :
  quiet opened s m -> tracked firm most opened s1 -> b_users s1 = b_users s ->
  wp (with_user ou m) (fun r s' => kept firm most opened s1 s' /\ match r with Ok _ => True | Err (ou', f) => ou' = ou /\ f <> UPanics end) s1.
Proof.
  intros Hm Ht Hs. specialize (Hm firm most s1 Ht Hs). unfold wp, with_user in *. destruct (m s1) as [s2 [a|e]]; simpl in *; [naive_solver|].
  destruct Hm as [Hp Hk]. split; [done|]. split; [done|]. congruence.
Qed.

(** The rest of [newImpl] after one of its parts. *)
Lemma with_user_bind {A C} opened s ou (m : B A) (f : A -> eff Bridge (option account * ufault) C) firm most s1 Q :
  quiet opened s m -> tracked firm most opened s1 -> b_users s1 = b_users s ->
  (forall a s2, tracked firm most opened s2 -> b_users s2 = b_users s -> wp (f a) Q s2) ->
  (forall e s2, tracked firm most opened s2 -> b_users s2 = b_users s -> e <> UPanics -> Q (Err (ou, e)) s2) ->
  wp (with_user ou m ≫= f) Q s1.
Proof.
  intros Hm Ht Hs Hf He. apply wp_bind. eapply wp_mono; [|by apply (with_user_quiet opened s ou m firm most)].
  intros [a|[ou' e]] s2 [[Hk Hu] Hr]; [apply Hf; [done|by rewrite Hu]|]. destruct Hr as [-> Hp]. apply He; [done|by rewrite Hu|done].
Qed.

Lemma newImpl_ok firm most opened env id apiUser isNew s :
  tracked firm most opened s -> present opened s id -> add_env_ok env -> user_ID (au_user apiUser) = id ->
  wp (newImpl env id apiUser isNew) (fun r s' => tracked firm most opened s' /\ b_users s' = b_users s /\
    match r with
    | Ok u => acc_id u = id
    | Err (ou, e) => e <> UPanics /\ (forall u, ou = Some u -> acc_id u = id)
    end) s.
Proof.
  intros Ht Hid (_ & _ & _ & Hn) Hu. unfold newImpl.
  apply (with_user_bind opened s _ _ _ firm most); [by apply migrate_quiet|done|done| |naive_solver]. intros _ s1 Ht1 Hs1.
  apply (with_user_bind opened s _ _ _ firm most); [by quiet|done|done| |naive_solver]. intros apiAddrs s2 Ht2 Hs2.
  apply (with_user_bind opened s _ _ _ firm most); [by quiet|done|done| |naive_solver]. intros _ s3 Ht3 Hs3.
  apply (with_user_bind opened s _ _ _ firm most); [unfold Vault.user_EventID; by quiet|done|done| |naive_solver]. intros eventID s4 Ht4 Hs4.
  apply (with_user_bind opened s _ _ _ firm most); [by quiet|done|done| |naive_solver]. intros queue s5 Ht5 Hs5. cbv zeta.
  apply (with_user_bind opened s _ _ _ firm most); [by quiet|done|done| |naive_solver]. intros _ s6 Ht6 Hs6.
  apply (with_user_bind opened s _ _ _ firm most); [by quiet|done|done| |naive_solver]. intros _ s7 Ht7 Hs7.
  apply (with_user_bind opened s _ _ _ firm most); [by quiet|done|done| |naive_solver]. intros _ s8 Ht8 Hs8. done.
Qed.

(** Its handle may have been closed. *)
Definition unfirm (id : string) (firm : string -> bool) : string -> bool := fun x => if String.eqb x id then false else firm x.

Lemma unfirm_tracked id firm most opened s : tracked firm most opened s -> tracked (unfirm id firm) most opened s.
Proof.
  intros [(us & f & Hv & Hin & Hlow & Hmost) Hu Hc]. split; [|done..]. exists us, f. split_and!; try done.
  intros x [Hx|Hx]; apply Hlow; [|by right]. left. revert Hx. unfold unfirm. by destruct (String.eqb x id).
Qed.

Lemma unfirm_same id firm : unfirm id firm id = false.
Proof. unfold unfirm. by rewrite String.eqb_refl. Qed.

(** A user is made, or what was made of it is closed. *)
Lemma New_ok firm most opened env id apiUser isNew s :
  tracked firm most (id :: opened) s -> roomy most (id :: opened) -> (forall x, 0 <= most x) -> add_env_ok env -> user_ID (au_user apiUser) = id ->
  held s id = 0 ->
  wp (New env id apiUser isNew) (fun r s' => r <> Err UPanics /\ b_users s' = b_users s /\
    match r with
    | Ok u => acc_id u = id /\ tracked firm most (id :: opened) s'
    | Err _ => tracked (unfirm id firm) most (id :: opened) s'
    end) s.
Proof.
  intros Ht Hroom H0 Hn Hu Hheld. assert (Hid : present (id :: opened) s id) by (left; left).
  pose proof (newImpl_ok firm most (id :: opened) env id apiUser isNew s Ht Hid Hn Hu) as H. unfold wp, New in *.
  destruct (newImpl env id apiUser isNew s) as [s1 [u|[[u|] [|e]]]]; simpl in *; destruct H as (Ht1 & Hs1 & H); try done; try (naive_solver).
  - destruct H as [_ H]. specialize (H u eq_refl). unfold mbind, eff_bind, user_Close. rewrite H.
    pose proof (close_kept (unfirm id firm) most (id :: opened) (id :: opened) id s1 (unfirm_tracked id _ _ _ _ Ht1) Hroom H0) as Hclose.
    unfold held in *. rewrite Hs1 in Hclose. specialize (Hclose (or_intror (conj Hheld (conj (unfirm_same id firm) eq_refl)))).
    unfold wp, logged in *.
    destruct (vaulted (Vault.user_Close id) s1) as [s2 [a|[|e']]]; simpl in *; destruct Hclose as [Hp [Hk Hk']]; [|done|];
      (split; [done|]; split; [by rewrite Hk'|done]).
  - split; [done|]. split; [done|]. by apply unfirm_tracked.
Qed.

(** The handle of the new user becomes that of a user that is logged in. *)
Lemma insert_tracked firm most opened id u s s' :
  tracked firm most (id :: opened) s -> held s id = 0 -> firm id = true -> acc_id u = id ->
  b_vault s' = b_vault s -> b_users s' = <[id := u]> (b_users s) -> b_connected s' = Z.of_nat (size (b_users s')) ->
  tracked firm most opened s'.
Proof.
  intros [(us & f & Hv & Hin & Hlow & Hmost) Hu Hc] Hno Hfirm Hacc Hvault Husers Hconn. split; [|..|done].
  - assert (Hheld : forall x, held s' x + occ opened x = held s x + occ (id :: opened) x /\ (x <> id -> held s' x = held s x)).
    { intros x. unfold held in *. rewrite Husers. simpl. destruct (String.eqb_spec x id) as [->|Hne].
      - rewrite lookup_insert_eq. split; [lia|done].
      - rewrite lookup_insert_ne by done. by split. }
    exists us, f. rewrite Hvault. split_and!; [done|intros x Hx; apply Hin; by right|..].
    + intros x Hx. destruct (Hheld x) as [-> Hne]. apply Hlow. destruct (decide (x = id)) as [->|?]; [by left|]. by rewrite <- Hne.
    + intros x. specialize (Hmost x). destruct (Hheld x) as [Hsum _]. lia.
  - intros x u'. rewrite Husers. intros [[-> <-]|[_ Hx]]%lookup_insert_Some; [done|by apply Hu].
Qed.

Lemma addUserWithVault_ok firm most opened env apiUser id isNew s :
  tracked firm most (id :: opened) s -> roomy most (id :: opened) -> (forall x, 0 <= most x) -> add_env_ok env -> user_ID (au_user apiUser) = id ->
  held s id = 0 -> firm id = true ->
  wp (addUserWithVault env apiUser id isNew) (fun r s' => r <> Err UPanics /\
    match r with
    | Ok _ => tracked firm most opened s' /\ exists u, b_users s' = <[id := u]> (b_users s)
    | Err _ => tracked (unfirm id firm) most (id :: opened) s' /\ b_users s' = b_users s
    end) s.
Proof.
  intros Ht Hroom H0 Hn Hu Hheld Hfirm. unfold addUserWithVault. rewrite Hu. apply wp_bind, wp_wrapping.
  unfold outside_err. destruct (ae_syncPath env) as [e|]; [split; [done|split; [by apply unfirm_tracked|done]]|].
  apply wp_bind, wp_wrapping. eapply wp_mono; [|by apply (New_ok firm most opened env id apiUser isNew)].
  intros [u|e] s1 (Hp & Hs1 & H); [|split; [destruct e; naive_solver|done]]. destruct H as [Hacc Ht1].
  unfold wp, mbind, eff_bind, modify. simpl. split; [done|]. split.
  - apply (insert_tracked firm most opened id (enqueue UserLoadedCheckResync u) s1); try done.
    + unfold held. by rewrite Hs1.
    + simpl. by rewrite alter_insert_eq.
    + simpl. rewrite alter_insert_eq, !map_size_insert. done.
  - exists (enqueue UserLoadedCheckResync u). by rewrite alter_insert_eq, Hs1.
Qed.

Lemma kept_logged {A} firm most opened' (m : B A) s :
  wp m (fun r s' => r <> Err UPanics /\ kept firm most opened' s s') s ->
  wp (logged m) (fun r s' => r = Ok () /\ kept firm most opened' s s') s.
Proof.
  intros Hm. unfold wp, logged in *. destruct (m s) as [s' [a|[|e]]]; simpl in *; naive_solver.
Qed.

Lemma undo_ok firm most opened env apiUser id isNew isLogin e s :
  tracked (unfirm id firm) most (id :: opened) s -> roomy most (id :: opened) -> (forall x, 0 <= most x) -> add_env_ok env -> user_ID (au_user apiUser) = id ->
  (isNew = true -> id ∉ opened) ->
  wp (undo_add env apiUser id isNew isLogin e) (fun r s' => (exists e', r = Err (UFails e')) /\
    tracked (unfirm id firm) most opened s' /\ b_users s' = b_users s) s.
Proof.
  intros Ht Hroom H0 (_ & HnC & HnD & _) Hu Hnew. unfold undo_add. rewrite Hu.
  assert (Hid : present (id :: opened) s id) by (left; left). apply wp_bind.
  apply (wp_mono _ (fun r s' => r = Ok () /\ kept (unfirm id firm) most (id :: opened) s s')).
  - intros r s1 [-> [Ht1 Hs1]]. apply wp_bind. eapply wp_mono; [|apply kept_logged, (close_kept (unfirm id firm) most (id :: opened) opened id s1 Ht1 Hroom H0); by left].
    intros r s2 [-> [Ht2 Hs2]]. apply wp_bind.
    apply (wp_mono _ (fun r s' => r = Ok () /\ kept (unfirm id firm) most opened s2 s')).
    + intros r s3 [-> [Ht3 Hs3]]. unfold wp. simpl. split; [by eexists|]. split; [done|]. by rewrite Hs3, Hs2, Hs1.
    + destruct isNew; [|split; [done|by apply kept_refl]]. apply kept_logged.
      apply DeleteUser_kept; [done|done|by apply Hnew].
  - destruct (is_response e || isLogin); [|split; [done|by apply kept_refl]]. apply kept_logged.
    by apply modUser_kept.
Qed.

(** The bound after an operation that may leave a handle of [id] behind; with [exact] it may not. *)
Definition grow (exact : bool) (id : string) (most : string -> Z) : string -> Z := if exact then most else inc id most.

Lemma grow_ge exact id most x : most x <= grow exact id most x.
Proof. unfold grow. destruct exact; [lia|apply inc_ge]. Qed.

(** The user that is added is logged in, or nothing changed but its handle, which may be left behind
    when the disk fails. *)
Lemma addUser_ok exact firm most opened env apiUser authUID authRef keyPass isLogin id s :
  tracked firm most opened s -> roomy most (id :: opened) -> (forall x, 0 <= most x) -> add_env_ok env -> user_ID (au_user apiUser) = id ->
  held s id = 0 -> firm id = true -> (exact = true -> healthy (ae_GetOrAdd env)) ->
  wp (addUser env apiUser authUID authRef keyPass isLogin) (fun r s' => r <> Err UPanics /\
    match r with
    | Ok _ => tracked firm most opened s' /\ exists u, b_users s' = <[id := u]> (b_users s)
    | Err _ => tracked (unfirm id firm) (grow exact id most) opened s' /\ b_users s' = b_users s
    end) s.
Proof.
  intros Ht Hroom H0 Hn Hu Hheld Hfirm Hex. unfold addUser, newVaultUser. rewrite Hu. apply wp_bind, wp_wrapping.
  assert (Hroom' : roomy most opened) by (intros x; specialize (Hroom x); simpl in Hroom; destruct (String.eqb x id); lia).
  eapply wp_mono; [|apply (GetOrAddUser_kept firm most opened); [done|done|apply Hn]].
  intros [[h isNew]|e] s1 (Hp & Hs1 & Hok & H).
  - destruct H as (-> & Ht1 & Hnew). simpl.
    assert (Hheld1 : held s1 id = 0) by (unfold held; by rewrite Hs1).
    pose proof (addUserWithVault_ok firm most opened env apiUser id isNew s1 Ht1 Hroom H0 Hn Hu Hheld1 Hfirm) as Hadd.
    unfold wp, handling in *. destruct (addUserWithVault env apiUser id isNew s1) as [s2 [[]|[|e]]]; simpl in *; destruct Hadd as [Hp2 Hadd].
    + split; [done|]. destruct Hadd as [Ht2 [u Hs2]]. split; [done|]. exists u. by rewrite Hs2, Hs1.
    + done.
    + destruct Hadd as [Ht2 Hs2].
      assert (Hnew' : isNew = true -> id ∉ opened) by (intros ->; by apply Hnew).
      pose proof (undo_ok firm most opened env apiUser id isNew isLogin e s2 Ht2 Hroom H0 Hn Hu Hnew') as Hundo. unfold wp in Hundo.
      destruct (undo_add env apiUser id isNew isLogin e s2) as [s3 r]; simpl in *. destruct Hundo as ([e' ->] & Ht3 & Hs3).
      split; [done|]. split; [|by rewrite Hs3, Hs2]. eapply tracked_mono; [exact Ht3|]. intros x. apply grow_ge.
  - split; [destruct e; naive_solver|]. split; [|done].
    assert (exact = false) as -> by (destruct exact; [by specialize (Hok (Hex eq_refl))|done]). by apply unfirm_tracked.
Qed.

(** *** Operations *)

Definition all_firm : string -> bool := fun _ => true.
Definition steady (most : string -> Z) (s : Bridge) : Prop := tracked all_firm most [] s.

Lemma tracked_steady firm most s : tracked firm most [] s -> steady most s.
Proof.
  intros [(us & f & Hv & Hin & Hlow & Hmost) Hu Hc]. split; [|done..]. exists us, f. split_and!; try done.
  intros x _. simpl. pose proof (held_le s x). destruct (decide (held s x = 1)) as [Hx|]; [apply Hlow; by right|].
  pose proof (vs_pos _ _ _ _ x Hv). lia.
Qed.

(** The bridge after an operation: nothing panicked, and one handle of some users may be left behind. *)
Definition ends (exact : bool) (most : string -> Z) {A} (r : result ufault A) (s' : Bridge) : Prop :=
  r <> Err UPanics /\ steady (if exact then most else fun x => most x + 1) s'.

Lemma steady_ends {A} exact most (r : result ufault A) s' : r <> Err UPanics -> steady most s' -> ends exact most r s'.
Proof. intros Hp Hs. split; [done|]. eapply tracked_mono; [exact Hs|]. intros x. destruct exact; lia. Qed.

Lemma grow_ends {A} exact id most (r : result ufault A) s' : r <> Err UPanics -> steady (grow exact id most) s' -> ends exact most r s'.
Proof.
  intros Hp Hs. split; [done|]. eapply tracked_mono; [exact Hs|]. intros x. unfold grow, inc. destruct exact; [lia|]. destruct (String.eqb x id); lia.
Qed.

(** A publication, or what the heartbeat is told about split mode. *)
Lemma steady_same firm most opened s s' :
  b_vault s' = b_vault s -> b_users s' = b_users s -> b_connected s' = b_connected s -> tracked firm most opened s -> tracked firm most opened s'.
Proof.
  intros Hv Hu Hc [(us & f & Hvs & Hin & Hlow & Hmost) Hus Hcs]. split; [|by rewrite Hu|by rewrite Hc, Hu].
  exists us, f. unfold held in *. rewrite Hv, Hu. done.
Qed.

(** Few enough handles for any operation. *)
Definition ample (most : string -> Z) : Prop := forall x, 0 <= most x /\ most x + 8 < 2 ^ 63.

(** The API gives the user of the session. *)
Definition login_env_ok (exact : bool) (env : login_env) : Prop :=
  add_env_ok (le_add env) /\ (exact = true -> healthy (ae_GetOrAdd (le_add env))) /\
  forall auth apiUser, le_login env = Ok auth -> le_GetUser env = Ok apiUser -> user_ID (au_user apiUser) = auth.1.

Lemma LoginFull_ends exact most env username s :
  steady most s -> ample most -> login_env_ok exact env -> username <> "crash@bandicoot" ->
  wp (LoginFull env username) (ends exact most) s.
Proof.
  intros Hs Hroom (Hn & Hex & Hsame) Hname. unfold LoginFull, LoginAuth. apply wp_bind, wp_wrapping.
  destruct (String.eqb_spec username "crash@bandicoot"); [done|]. apply wp_bind, wp_wrapping, wp_reads.
  destruct (le_login env) as [auth|e] eqn:Hlogin; [|apply steady_ends; [by destruct (is_hv_request (UFails e))|done]].
  apply wp_bind, wp_get. destruct (b_users s !! auth.1) as [u|] eqn:Hnot; [by apply steady_ends|]. cbn -[LoginUser].
  unfold wp at 1. cbn [mret eff_ret fst snd].
  assert (Hrest : wp (LoginUser env auth.2.1 auth.2.2) (ends exact most) s).
  2: { apply wp_bind. destruct (le_getTOTP env) as [[e|]|]; try (by apply steady_ends); (apply wp_bind; destruct (le_getKeyPass env) as [e|]; [by apply steady_ends|exact Hrest]). }
  unfold LoginUser. apply wp_bind, wp_wrapping.
  assert (Hlog : wp (loginUser env auth.2.1 auth.2.2) (fun r s' => r <> Err UPanics /\ ends exact most r s') s).
  2: { unfold wp, catching in *. destruct (loginUser env auth.2.1 auth.2.2 s) as [s' [a|[|e]]]; simpl in *; destruct Hlog as [Hp [_ He]]; [|done|]; (split; [done|]);
       [by eapply steady_same; [..|exact He]|exact He]. }
  unfold loginUser. apply wp_bind, wp_wrapping, wp_reads. destruct (le_GetUser env) as [apiUser|e] eqn:Hget; [|by split; [|apply steady_ends]].
  apply wp_bind, wp_wrapping. destruct (le_GetSalts env); [by split; [|apply steady_ends]|]. apply wp_bind, wp_wrapping, wp_reads.
  destruct (le_SaltForKey env) as [keyPass|e]; [|by split; [|apply steady_ends]]. apply wp_bind, wp_reads.
  destruct (le_Unlock env) as [entities|e]; [|by split; [|apply steady_ends]]. destruct (entities =? 0); [by split; [|apply steady_ends]|].
  apply wp_bind, wp_wrapping. eapply wp_mono; [|apply (addUser_ok exact all_firm most [] _ _ _ _ _ true auth.1 s Hs); try done].
  - intros [[]|e] s' [Hp [H _]].
    + split; [done|]. by apply steady_ends.
    + assert (Hp' : forall A, Err (A := A) (wrap_msg "failed to add bridge user" e) <> Err UPanics) by (intros A; destruct e; [done|done]).
      split; [apply Hp'|]. apply (grow_ends _ auth.1); [apply Hp'|by eapply tracked_steady].
  - intros x. specialize (Hroom x). simpl in *. destruct (String.eqb x auth.1); lia.
  - intros x. apply Hroom.
  - by apply Hsame.
  - unfold held. by rewrite Hnot.
Qed.

(** *** Loading *)

Definition load_env_ok (exact : bool) (id : string) (env : load_env) : Prop :=
  add_env_ok (lo_add env) /\ Vault.venv_ok (lo_Clear env) /\ Vault.venv_ok (lo_SetAuth env) /\ Vault.venv_ok (lo_SetEmail env) /\
  (exact = true -> healthy (ae_GetOrAdd (lo_add env))) /\
  forall apiUser, lo_GetUser env = Ok apiUser -> user_ID (au_user apiUser) = id.

(** The others are as they were. *)
Definition others (id : string) (s s' : Bridge) : Prop := forall x, x <> id -> b_users s' !! x = b_users s !! x.

Lemma quiet_run {A} firm most opened s (m : B A) :
  quiet opened s m -> tracked firm most opened s -> wp m (fun r s' => r <> Err UPanics /\ kept firm most opened s s') s.
Proof. intros Hm Ht. by apply Hm. Qed.

Lemma loadUser_ok exact firm most opened env id s :
  tracked firm most opened s -> roomy most (id :: opened) -> (forall x, 0 <= most x) -> load_env_ok exact id env ->
  id ∈ opened -> held s id = 0 -> firm id = true ->
  wp (loadUser env id) (fun r s' => r <> Err UPanics /\ tracked (unfirm id firm) (grow exact id most) opened s' /\ others id s s' /\
    (r = Ok () -> is_Some (b_users s' !! id))) s.
Proof.
  intros Ht Hroom H0 (Hn & Hn1 & Hn2 & Hn3 & Hex & Hsame) Hid Hheld Hfirm.
  assert (Hpres : present opened s id) by by left.
  assert (Hweak : forall s', tracked firm most opened s' -> tracked (unfirm id firm) (grow exact id most) opened s').
  { intros s' Ht'. apply (tracked_mono _ most); [by apply unfirm_tracked|]. intros x. apply grow_ge. }
  assert (Hfail : forall (e : uerr) s', kept firm most opened s s' ->
    Err (A := ()) (UFails e) <> Err UPanics /\ tracked (unfirm id firm) (grow exact id most) opened s' /\ others id s s' /\
      (Err (UFails e) = Ok () -> is_Some (b_users s' !! id))).
  { intros e s' [Hk Hu]. split_and!; [done|by apply Hweak| |done]. intros x _. by rewrite Hu. }
  unfold loadUser. apply wp_bind. eapply wp_mono; [|apply (quiet_run firm most opened s); [unfold Vault.user_AuthUID; quiet|done]].
  intros [authUID|[|e]] s1 [Hp1 Hk1]; [|done|by apply Hfail].
  assert (Hpres1 : present opened s1 id) by by left.
  destruct (lo_refresh env) as [auth|e].
  2: { apply wp_bind. eapply wp_mono; [|apply (quiet_run firm most opened s1); [unfold Vault.user_Clear; quiet|apply Hk1]].
       intros [[]|[|e']] s2 [Hp2 Hk2]; [|done|]; apply Hfail; by eapply kept_trans. }
  apply wp_bind, wp_wrapping. eapply wp_mono; [|apply (quiet_run firm most opened s1); [unfold Vault.user_SetAuth; quiet|apply Hk1]].
  intros [[]|[|e]] s2 [Hp2 Hk2]; [|done|by apply Hfail; eapply kept_trans]. assert (Hk2' := kept_trans _ _ _ _ _ _ Hk1 Hk2).
  apply wp_bind, wp_wrapping, wp_reads. destruct (lo_GetUser env) as [apiUser|e]; [|by apply Hfail]. specialize (Hsame _ eq_refl).
  assert (Hpres2 : present opened s2 id) by by left. apply wp_bind.
  eapply wp_mono; [|apply (quiet_run firm most opened s2); [unfold Vault.user_KeyPass; quiet|apply Hk2]].
  intros [keyPass|[|e]] s3 [Hp3 Hk3]; [|done|by apply Hfail; eapply kept_trans]. assert (Hk3' := kept_trans _ _ _ _ _ _ Hk2' Hk3).
  destruct Hk3' as [Ht3 Hs3]. apply wp_bind, wp_wrapping.
  eapply wp_mono; [|apply (addUser_ok exact firm most opened _ _ _ _ _ false id s3); try done; unfold held; by rewrite Hs3].
  intros [[]|[|e]] s4 [Hp4 H4]; [|done|].
  - destruct H4 as [Ht4 [u Hs4]].
    assert (Hin : is_Some (b_users s4 !! id)) by (rewrite Hs4, lookup_insert_eq; by eexists).
    assert (Hoth : others id s s4) by (intros x Hx; by rewrite Hs4, lookup_insert_ne, Hs3).
    assert (Hpres4 : present opened s4 id) by by left. apply wp_bind.
    eapply wp_mono; [|apply (quiet_run firm most opened s4); [unfold Vault.user_PrimaryEmail; quiet|done]].
    intros [email|[|e]] s5 [Hp5 [Ht5 Hs5]]; [|done|].
    2: { split_and!; [done|by apply Hweak| |done]. intros x Hx. rewrite Hs5. by apply Hoth. }
    destruct (String.eqb email (au_Email apiUser)).
    { unfold wp. simpl. split_and!; [done|by apply Hweak| |by rewrite Hs5]. intros x Hx. rewrite Hs5. by apply Hoth. }
    apply wp_wrapping. assert (Hpres5 : present opened s5 id) by by left.
    eapply wp_mono; [|apply (quiet_run firm most opened s5); [unfold Vault.user_SetPrimaryEmail; quiet|done]].
    intros [[]|[|e]] s6 [Hp6 [Ht6 Hs6]]; [|done|]; (split_and!; [done|by apply Hweak| |by rewrite Hs6, Hs5]);
      intros x Hx; rewrite Hs6, Hs5; by apply Hoth.
  - destruct H4 as [Ht4 Hs4]. split_and!; [done|done| |done]. intros x Hx. by rewrite Hs4, Hs3.
Qed.

Lemma tracked_publish firm most opened e s : tracked firm most opened s -> tracked firm most opened (add_event e s).
Proof. by apply steady_same. Qed.

Lemma wp_logged {A} (m : B A) Q s :
  wp m (fun r s' => match r with Err UPanics => Q (Err UPanics) s' | _ => Q (Ok ()) s' end) s -> wp (logged m) Q s.
Proof. unfold wp, logged. by destruct (m s) as [s' [a|[|e]]]. Qed.

Lemma wp_handling {A} (m : B A) handler Q s :
  wp m (fun r s' => match r with Err (UFails e) => wp (handler e) Q s' | _ => Q r s' end) s -> wp (handling m handler) Q s.
Proof. unfold wp, handling. by destruct (m s) as [s' [a|[|e]]]. Qed.

(** A user is loaded or not, and its own failure is announced. *)
Lemma load_one_ok exact firm most opened envs id s :
  tracked firm most opened s -> roomy most (id :: opened) -> (forall x, 0 <= most x) -> load_env_ok exact id (envs id) ->
  id ∈ opened -> firm id = true ->
  wp (load_one envs id) (fun r s' => r = Ok () /\ tracked (unfirm id firm) (grow exact id most) opened s' /\ others id s s') s.
Proof.
  intros Ht Hroom H0 Hn Hid Hfirm.
  assert (Hweak : forall s', tracked firm most opened s' -> tracked (unfirm id firm) (grow exact id most) opened s').
  { intros s' Ht'. apply (tracked_mono _ most); [by apply unfirm_tracked|]. intros x. apply grow_ge. }
  unfold load_one. apply wp_bind. unfold Vault.user_AuthUID.
  destruct (reading_kept firm most opened (lo_Clear (envs id)) id Vault.ud_AuthUID s Ht (or_introl Hid)) as [authUID Hread].
  unfold wp at 1. rewrite Hread. cbn [fst snd].
  assert (Hskip : Ok () = Ok (E := ufault) () /\ tracked (unfirm id firm) (grow exact id most) opened s /\ others id s s) by (split_and!; [done|by apply Hweak|done]).
  destruct (String.eqb authUID ""); [exact Hskip|].
  apply wp_bind, wp_get. destruct (b_users s !! id) as [u|] eqn:Hnot; [exact Hskip|].
  apply wp_bind. unfold wp at 1. cbn [publish modify fst snd].
  assert (Ht1 := tracked_publish _ _ _ (UserLoading id) _ Ht). revert Ht1. set (s1 := add_event (UserLoading id) s). intros Ht1.
  assert (Hheld : held s1 id = 0) by (unfold held; subst s1; simpl; by rewrite Hnot).
  pose proof (loadUser_ok exact firm most opened (envs id) id s1 Ht1 Hroom H0 Hn Hid Hheld Hfirm) as Hload.
  apply wp_handling, wp_bind. eapply wp_mono; [|exact Hload]. intros [[]|[|e]] s2 (Hp & Ht2 & Hoth & _); [|done|].
  - unfold wp. simpl. split_and!; [done|by apply tracked_publish|exact Hoth].
  - unfold Vault.user_AuthUID. apply wp_bind.
    destruct (reading_kept (unfirm id firm) (grow exact id most) opened (lo_Clear (envs id)) id Vault.ud_AuthUID s2 Ht2 (or_introl Hid)) as [uid Hread2].
    unfold wp at 1. rewrite Hread2. unfold wp. simpl. split_and!; [done|by apply tracked_publish|exact Hoth].
Qed.

(** The bound while the users of a list are still to be loaded. *)
Definition bound_at (exact : bool) (most : string -> Z) (todo : list string) : string -> Z :=
  if exact then most else fun x => if bool_decide (x ∈ todo) then most x else most x + 1.

Lemma bound_at_le exact most todo x : most x <= bound_at exact most todo x <= most x + 1.
Proof. unfold bound_at. destruct exact; [lia|]. case_bool_decide; lia. Qed.

Lemma bound_at_next exact most id todo x : NoDup (id :: todo) -> grow exact id (bound_at exact most (id :: todo)) x <= bound_at exact most todo x.
Proof.
  intros [Hid _]%NoDup_cons. unfold grow, bound_at, inc. destruct exact; [lia|]. destruct (String.eqb_spec x id) as [->|Hne].
  - rewrite bool_decide_eq_true_2 by left. rewrite bool_decide_eq_false_2 by done. lia.
  - case_bool_decide as H1; case_bool_decide as H2; rewrite elem_of_cons in H1; naive_solver lia.
Qed.

Lemma tracked_next id todo most opened s :
  id ∉ todo -> tracked (unfirm id (fun x => bool_decide (x ∈ id :: todo))) most opened s -> tracked (fun x => bool_decide (x ∈ todo)) most opened s.
Proof.
  intros Hid [(us & f & Hv & Hin & Hlow & Hmost) Hu Hc]. split; [|done..]. exists us, f. split_and!; try done.
  intros x [Hx%bool_decide_eq_true_1|Hx]; apply Hlow; [|by right]. left. unfold unfirm.
  destruct (String.eqb_spec x id) as [->|_]; [done|]. apply bool_decide_eq_true_2. by right.
Qed.

Lemma load_all_ok exact most opened envs todo s :
  tracked (fun x => bool_decide (x ∈ todo)) (bound_at exact most todo) opened s -> (forall x, 0 <= most x /\ most x + occ opened x + 5 < 2 ^ 63) ->
  (forall id, load_env_ok exact id (envs id)) -> NoDup todo -> (forall x, x ∈ todo -> x ∈ opened) ->
  wp (for_each todo (load_one envs)) (fun r s' => r = Ok () /\ tracked (fun _ => false) (bound_at exact most []) opened s') s.
Proof.
  intros Ht Hroom Hn. revert s Ht. induction todo as [|id todo IH]; intros s Ht Hnd Hsub.
  - split; [done|]. destruct Ht as [(us & f & Hv & Hin & Hlow & Hmost) Hu Hc]. split; [|done..]. exists us, f. split_and!; try done.
  - simpl. apply wp_bind. eapply wp_mono; [|apply (load_one_ok exact _ _ opened envs id s Ht)].
    + intros r s1 [-> [Ht1 _]]. apply NoDup_cons in Hnd as Hnd'. destruct Hnd' as [Hid Hnd'].
      apply (tracked_mono _ _ (bound_at exact most todo)) in Ht1; [|intros x; by apply bound_at_next].
      apply IH; [by apply (tracked_next id todo)|done|intros x Hx; apply Hsub; by right].
    + intros x. destruct (Hroom x) as [_ Hx]. pose proof (bound_at_le exact most (id :: todo) x). simpl. destruct (String.eqb x id); lia.
    + intros x. destruct (Hroom x) as [Hx _]. pose proof (bound_at_le exact most (id :: todo) x). lia.
    + done.
    + apply Hsub. left.
    + apply bool_decide_eq_true_2. left.
Qed.

(** Closing the handles of [ForUser]. *)
Lemma close_handles_ok most l s :
  tracked (fun _ => false) most l s -> (forall x, 0 <= most x /\ most x + occ l x + 5 < 2 ^ 63) ->
  wp (for_each l (fun u => logged (vaulted (Vault.user_Close u)))) (fun r s' => r = Ok () /\ tracked (fun _ => false) most [] s') s.
Proof.
  revert s. induction l as [|id l IH]; intros s Ht Hroom; [done|]. simpl. apply wp_bind.
  eapply wp_mono; [|apply kept_logged, (close_kept (fun _ => false) most (id :: l) l id s Ht); [|intros x; apply Hroom|by left]].
  - intros r s1 [-> [Ht1 _]]. apply IH; [done|]. intros x. destruct (Hroom x) as [? Hx]. simpl in Hx. destruct (String.eqb x id); lia.
  - intros x. destruct (Hroom x). lia.
Qed.

(** The handles of [ForUser] are open. *)
Lemma loading_state exact most env s :
  steady most s -> ample most ->
  exists us v', Vault.getUsers env (b_vault s) = (v', Ok (Vault.ids us)) /\ NoDup (Vault.ids us) /\
    tracked (fun x => bool_decide (x ∈ Vault.ids us)) (bound_at exact most (Vault.ids us)) (Vault.ids us) (set_vault v' s) /\
    forall x, 0 <= most x /\ most x + occ (Vault.ids us) x + 5 < 2 ^ 63.
Proof.
  intros [(us & f & Hv & Hin & Hlow & Hmost) Hu Hc] Hroom.
  destruct (getUsers_vs env k us f (b_vault s) Hv) as (v' & Hget & Hv').
  { intros x. specialize (Hmost x). specialize (Hroom x). pose proof (held_le s x). simpl in *. lia. }
  pose proof (Vault.ok_ids _ _ _ (proj1 Hv)) as Hnd. exists us, v'. split; [done|]. split; [done|]. split.
  - split; [|done..]. exists us, (fun x => f x + among (Vault.ids us) x). split_and!; [done|done|..]; intros x;
      rewrite held_vault, (occ_among _ _ Hnd); specialize (Hlow x (or_introl eq_refl)); specialize (Hmost x); simpl in *;
      pose proof (bound_at_le exact most (Vault.ids us) x); lia.
  - intros x. specialize (Hroom x). pose proof (occ_NoDup _ x Hnd). lia.
Qed.

Lemma loadUsers_ends exact most env envs s :
  steady most s -> ample most -> (forall id, load_env_ok exact id (envs id)) -> wp (loadUsers env envs) (ends exact most) s.
Proof.
  intros Hs Hroom Hn. destruct (loading_state exact most env s Hs Hroom) as (us & v' & Hget & Hnd & Ht & Hroom').
  pose proof (load_all_ok exact most (Vault.ids us) envs (Vault.ids us) _ Ht Hroom' Hn Hnd (fun x Hx => Hx)) as Hload.
  unfold wp, loadUsers, for_user, vaulted, deferring in *. rewrite Hget.
  destruct (for_each (Vault.ids us) (load_one envs) (set_vault v' s)) as [s1 r]. simpl in *. destruct Hload as [-> Ht1].
  destruct (close_handles_ok (bound_at exact most []) (Vault.ids us) s1 Ht1) as [_ Ht2].
  { intros x. specialize (Hroom x). pose proof (bound_at_le exact most [] x). pose proof (occ_NoDup _ x Hnd). lia. }
  split; [done|]. exact (tracked_steady _ _ _ Ht2).
Qed.

(** *** Logging out and the rest *)

Definition logout_env_ok (env : logout_env) : Prop := Vault.venv_ok (out_Clear env) /\ Vault.venv_ok (out_Delete env).

(** The user and its handle are gone. *)
Lemma remove_tracked most id u s s' us f :
  steady most s -> b_users s !! id = Some u -> vs k us f (b_vault s) -> vs k us (dec id f) (b_vault s') ->
  b_users s' = delete id (b_users s) -> b_connected s' = Z.of_nat (size (b_users s)) - 1 -> steady most s'.
Proof.
  intros [(us0 & f0 & Hv0 & Hin & Hlow & Hmost) Hus Hc] Hu Hv Hv' Husers Hconn.
  assert (Hf : forall x, f0 x = f x) by (intros x; by rewrite <- (proj2 Hv0), <- (proj2 Hv)).
  assert (Hheld : forall x, held s' x = if String.eqb x id then 0 else held s x).
  { intros x. unfold held. rewrite Husers. destruct (String.eqb_spec x id) as [->|Hne]; [by rewrite lookup_delete_eq|by rewrite lookup_delete_ne]. }
  assert (Hid : held s id = 1) by (unfold held; by rewrite Hu). split.
  - exists us, (dec id f). split_and!; [done| |..].
    + intros x Hx. by apply elem_of_nil in Hx.
    + intros x _. rewrite Hheld. unfold dec. specialize (Hlow x (or_introl eq_refl)). rewrite Hf in Hlow. simpl in *. destruct (String.eqb x id); lia.
    + intros x. rewrite Hheld. unfold dec. specialize (Hmost x). rewrite Hf in Hmost. simpl in *. destruct (String.eqb_spec x id) as [->|]; [|lia].
      specialize (Hlow id (or_introl eq_refl)). rewrite Hf in Hlow. lia.
  - intros x u'. rewrite Husers. intros [_ Hx]%lookup_delete_Some. by apply Hus.
  - rewrite Hconn, Husers. rewrite map_size_delete_Some by by eexists. assert (size (b_users s) <> 0%nat).
    { intros Hz%map_size_empty_iff. by rewrite Hz in Hu. } lia.
Qed.

Lemma user_Logout_quiet s env u withAPI withData :
  present [] s (acc_id u) -> logout_env_ok env -> quiet [] s (user_Logout env u withAPI withData).
Proof. intros Hid [Hn _]. unfold user_Logout, Vault.user_Clear. quiet. Qed.

Lemma logoutUser_ok most env u withAPI withData id s :
  steady most s -> ample most -> logout_env_ok env -> b_users s !! id = Some u ->
  wp (logoutUser env u withAPI withData) (fun r s' => r = Ok () /\ steady most s' /\ b_users s' = delete id (b_users s)) s.
Proof.
  intros Hs Hroom Hn Hu. assert (Hacc : acc_id u = id) by by eapply tr_users.
  assert (Hpres : present [] s (acc_id u)) by (right; unfold held; by rewrite Hacc, Hu).
  pose proof (kept_logged all_firm most [] _ s (quiet_run _ _ _ _ _ (user_Logout_quiet s env u withAPI withData Hpres Hn) Hs)) as Hlogout.
  unfold wp, logoutUser, deferring, mbind, eff_bind, modify in *. destruct (logged (user_Logout env u withAPI withData) s) as [s1 r1]. simpl in Hlogout.
  destruct Hlogout as [-> [Hs1 Hu1]]. destruct (tr_vault _ _ _ _ Hs1) as (us & f & Hv & _ & Hlow & Hmost).
  assert (Hfit : fits f).
  { intros x. specialize (Hmost x). specialize (Hroom x). pose proof (held_le s1 x). simpl in *. lia. }
  destruct (close_vs k us f (b_vault s1) id Hv Hfit) as [Hv' Hp].
  unfold user_Close, logged, vaulted. rewrite Hacc. cbn [SetNumberConnectedAccounts b_vault].
  assert (Hres : forall v', vs k us (dec id f) v' ->
    steady most (set_users (delete id (b_users s1)) (set_vault v' (SetNumberConnectedAccounts (Z.of_nat (size (b_users s1)) - 1) s1)))).
  { intros v' Hv1. eapply (remove_tracked most id u s1 _ us f); [done|by rewrite Hu1|done|exact Hv1|done|done]. }
  destruct (Vault.user_Close id (b_vault s1)) as [v' [a|[|e]]]; simpl in *; [|done|]; (split; [done|]; split; [by apply Hres|by rewrite Hu1]).
Qed.

Lemma LogoutUser_ends exact most env userID s :
  steady most s -> ample most -> logout_env_ok env -> wp (LogoutUser env userID) (ends exact most) s.
Proof.
  intros Hs Hroom Hn. apply wp_bind, wp_get. destruct (b_users s !! userID) as [u|] eqn:Hu; [|by apply steady_ends].
  apply wp_bind. eapply wp_mono; [|by apply (logoutUser_ok most env u true false userID)]. intros r s1 (-> & Hs1 & _).
  apply steady_ends; [done|]. by apply tracked_publish.
Qed.

Lemma HasUser_ok env id s us f :
  vs k us f (b_vault s) -> vaulted (Vault.HasUser env id) s = (s, Ok (bool_decide (id ∈ Vault.ids us))).
Proof.
  intros Hv. unfold vaulted, Vault.HasUser, Vault.getSafe, mbind, eff_bind. destruct (Vault.getUnsafe_ok env k (b_vault s) us (proj1 Hv)) as (d & -> & Hd).
  simpl. rewrite Hd. destruct s; simpl. do 2 f_equal. apply bool_decide_ext. split.
  - intros [[i u] Hf]. destruct (decide (id ∈ Vault.ids us)) as [?|Hno]; [done|]. apply Vault.find_user_None in Hno. congruence.
  - intros Hin. destruct (Vault.find_user_ids _ _ Hin) as (i & u & ->). by eexists.
Qed.

(** What [DeleteUser] does when its calls succeed. *)
Lemma DeleteUser_spec most env userID s :
  steady most s -> ample most -> logout_env_ok env ->
  wp (DeleteUser env userID) (fun r s' => r <> Err UPanics /\ steady most s' /\ (r = Ok () -> b_users s' !! userID = None)) s.
Proof.
  intros Hs Hroom Hn. unfold DeleteUser. apply wp_bind, wp_wrapping. destruct (out_syncPath env); [by split|]. apply wp_bind.
  destruct (tr_vault _ _ _ _ Hs) as (us & f & Hv & _). unfold wp at 1. rewrite (HasUser_ok _ _ _ us f Hv). cbn [fst snd].
  destruct (negb (bool_decide (userID ∈ Vault.ids us))); [by split|]. apply wp_bind, wp_get, wp_bind.
  apply (wp_mono _ (fun r s1 => r = Ok () /\ steady most s1 /\ b_users s1 !! userID = None)).
  - intros r s1 (-> & Hs1 & Hgone). apply wp_bind, wp_wrapping. destruct (out_DeleteSyncState env); [by split|]. apply wp_bind.
    eapply wp_mono; [|apply kept_logged, (DeleteUser_kept all_firm most [] (out_Delete env) userID s1 Hs1); [apply Hn|apply not_elem_of_nil]].
    intros r s2 [-> [Hs2 Hu2]]. unfold wp. simpl. split; [done|]. split; [by apply tracked_publish|]. intros _. by rewrite Hu2.
  - destruct (b_users s !! userID) as [u|] eqn:Hu; [|done]. eapply wp_mono; [|by apply (logoutUser_ok most env u true true userID)].
    intros r s1 (-> & Hs1 & Hu1). split; [done|]. split; [done|]. by rewrite Hu1, lookup_delete_eq.
Qed.

Definition mode_env_ok (env : mode_env) : Prop := Vault.venv_ok (me_vault env).

Lemma some_split_quiet s env users :
  (forall u, u ∈ users -> present [] s (acc_id u)) -> quiet [] s (some_split env users).
Proof.
  induction users as [|u users IH]; intros Hin; simpl; [quiet|]. unfold Vault.user_AddressMode.
  assert (Hu : present [] s (acc_id u)) by (apply Hin; left). quiet. apply IH. intros x Hx. apply Hin. by right.
Qed.

Lemma steady_present most s id u : steady most s -> b_users s !! id = Some u -> present [] s (acc_id u) /\ present [] s id.
Proof. intros Hs Hu. rewrite (tr_users _ _ _ _ Hs _ _ Hu). split; right; unfold held; by rewrite Hu. Qed.

Lemma SetAddressMode_ends exact most env userID mode s :
  steady most s -> mode_env_ok env -> wp (SetAddressMode env userID mode) (ends exact most) s.
Proof.
  intros Hs Hn. unfold SetAddressMode. apply wp_bind, wp_get. destruct (b_users s !! userID) as [u|] eqn:Hu; [|by apply steady_ends].
  destruct (steady_present _ _ _ _ Hs Hu) as [Hpres _]. apply wp_bind.
  eapply wp_mono; [|apply (quiet_run all_firm most [] s); [unfold Vault.user_AddressMode; quiet|done]].
  intros [current|e] s1 [Hp1 [Hs1 Hu1]]; [|by apply steady_ends; [destruct e; naive_solver|]].
  destruct (VaultMode_eqb current mode); [by apply steady_ends|].
  assert (Hpres1 : present [] s1 (acc_id u)) by (unfold present, held in *; by rewrite Hu1). apply wp_bind, wp_wrapping.
  eapply wp_mono; [|apply (quiet_run all_firm most [] s1); [unfold user_SetAddressMode, Vault.user_SetAddressMode; quiet|done]].
  intros [[]|[|e]] s2 [Hp2 [Hs2 Hu2]]; [|done|by apply steady_ends]. apply wp_bind. unfold wp at 1. cbn [publish modify fst snd].
  apply wp_bind, wp_get, wp_bind. set (s3 := add_event (AddressModeChanged userID mode) s2).
  assert (Hs3 : steady most s3) by by apply tracked_publish.
  eapply wp_mono; [|apply (quiet_run all_firm most [] s3); [apply some_split_quiet|done]].
  - intros [splitMode|e] s4 [Hp4 [Hs4 _]]; [|by apply steady_ends; [destruct e; naive_solver|]].
    apply steady_ends; [done|]. by apply (steady_same _ _ _ s4).
  - intros u' [id Hu']%elem_of_Values. by apply (steady_present most s3 id u').
Qed.

Definition resync_env_ok (env : resync_env) : Prop := Vault.venv_ok (re_vault env) /\ logout_env_ok (re_logout env).

Lemma SendBadEventUserFeedback_ends exact most env userID doResync s :
  steady most s -> ample most -> resync_env_ok env -> wp (SendBadEventUserFeedback env userID doResync) (ends exact most) s.
Proof.
  intros Hs Hroom [_ Hn]. apply wp_bind, wp_get. destruct (b_users s !! userID) as [u|] eqn:Hu; [|by apply steady_ends].
  destruct doResync; [destruct (BadEventFeedbackResync env) as [? [e|]]; by apply steady_ends|].
  apply wp_bind. eapply wp_mono; [|by apply (logoutUser_ok most (re_logout env) u true false userID)]. intros r s1 (-> & Hs1 & _).
  apply steady_ends; [done|]. by apply tracked_publish.
Qed.

(** Changing what the bridge knows of a user, not the user. *)
Lemma steady_insert most id u u' s :
  steady most s -> b_users s !! id = Some u -> acc_id u' = acc_id u -> steady most (set_users (<[id := u']> (b_users s)) s).
Proof.
  intros [(us & f & Hv & Hin & Hlow & Hmost) Hus Hc] Hu Hacc.
  assert (Hheld : forall x, held (set_users (<[id := u']> (b_users s)) s) x = held s x).
  { intros x. unfold held. simpl. destruct (decide (x = id)) as [->|Hne]; [by rewrite lookup_insert_eq, Hu|by rewrite lookup_insert_ne]. }
  split.
  - exists us, f. split_and!; try done; intros x; rewrite Hheld; auto.
  - intros x y. simpl. intros [[-> <-]|[_ Hx]]%lookup_insert_Some; [rewrite Hacc; by apply Hus|by apply Hus].
  - simpl. rewrite map_size_insert, Hu. done.
Qed.

Lemma next_event_ends exact most env userID s :
  steady most s -> ample most -> resync_env_ok env -> wp (next_event env userID) (ends exact most) s.
Proof.
  intros Hs Hroom [Hn Hn']. apply wp_bind, wp_get. destruct (b_users s !! userID) as [u|] eqn:Hu; [|by apply steady_ends].
  destruct (acc_queue u) as [|event queue]; [by apply steady_ends|]. cbv zeta. apply wp_bind. unfold wp at 1. cbn [modify fst snd].
  set (u' := mkAccount (acc_id u) (acc_plan u) (acc_identity u) queue). set (s1 := set_users (<[userID := u']> (b_users s)) s).
  assert (Hs1 : steady most s1) by by eapply steady_insert.
  assert (Hu1 : b_users s1 !! userID = Some u') by (subst s1; simpl; apply lookup_insert_eq). apply wp_bind.
  apply (wp_mono _ (fun r s2 => r <> Err UPanics /\ steady most s2)).
  { intros [[]|[|e]] s2 [Hp Hs2]; [|done|by apply steady_ends]. apply steady_ends; [done|]. by apply tracked_publish. }
  destruct event; simpl; [|split; [done|exact Hs1]| |split; [done|exact Hs1]].
  - eapply wp_mono; [|by apply (logoutUser_ok most (re_logout env) u' false false userID s1)]. by intros r s2 (-> & Hs2 & _).
  - assert (Hpres : present [] s1 (acc_id u')) by by apply (steady_present most s1 userID u').
    eapply wp_mono; [|apply (quiet_run all_firm most [] s1); [|exact Hs1]]; [by intros r s2 [Hp [Hs2 _]]|].
    unfold VerifyResyncAndExecute, Vault.user_GetShouldResync, Vault.user_SetShouldSync. quiet.
Qed.


(** A service of a user publishes an event. *)
Definition publish_user (userID : string) (e : user_event) : B () := modify (fun s => set_users (alter (enqueue e) userID (b_users s)) s).

Inductive bridge_op : Type :=
| OpLogin (env : login_env) (username : string)
| OpLoad (env : Vault.venv) (envs : string -> load_env)
| OpLogout (env : logout_env) (userID : string)
| OpDelete (env : logout_env) (userID : string)
| OpSetAddressMode (env : mode_env) (userID : string) (mode : VaultMode)
| OpFeedback (env : resync_env) (userID : string) (doResync : bool)
| OpPublish (userID : string) (e : user_event)
| OpNextEvent (env : resync_env) (userID : string).

Definition bridge_run (op : bridge_op) : B () :=
  match op with
  | OpLogin env username => LoginFull env username ≫= fun _ => mret ()
  | OpLoad env envs => loadUsers env envs
  | OpLogout env userID => LogoutUser env userID
  | OpDelete env userID => DeleteUser env userID
  | OpSetAddressMode env userID mode => SetAddressMode env userID mode
  | OpFeedback env userID doResync => SendBadEventUserFeedback env userID doResync
  | OpPublish userID e => publish_user userID e
  | OpNextEvent env userID => next_event env userID
  end.

(** The nonces have their length, and the API gives for a session always the same user; with [exact]
    the disk takes the session of a user that logs in again. *)
Definition op_ok (exact : bool) (op : bridge_op) : Prop :=
  match op with
  | OpLogin env username => login_env_ok exact env /\ username <> "crash@bandicoot"
  | OpLoad env envs => forall id, load_env_ok exact id (envs id)
  | OpLogout env _ | OpDelete env _ => logout_env_ok env
  | OpSetAddressMode env _ _ => mode_env_ok env
  | OpFeedback env _ _ | OpNextEvent env _ => resync_env_ok env
  | OpPublish _ _ => True
  end.

Lemma bridge_run_ends exact most op s : steady most s -> ample most -> op_ok exact op -> wp (bridge_run op) (ends exact most) s.
Proof.
  intros Hs Hroom Hop. destruct op; simpl in *.
  - apply wp_bind. destruct Hop as [Hop Hname]. eapply wp_mono; [|by apply (LoginFull_ends exact most)]. intros [a|e] s1 [Hp H]; (split; [|exact H]); [done|naive_solver].
  - by apply loadUsers_ends.
  - by apply LogoutUser_ends.
  - eapply wp_mono; [|by apply DeleteUser_spec]. intros r s1 (Hp & Hs1 & _). by apply steady_ends.
  - by apply SetAddressMode_ends.
  - by apply SendBadEventUserFeedback_ends.
  - unfold wp, publish_user, modify. cbn [fst snd]. apply steady_ends; [done|]. destruct (b_users s !! userID) as [u|] eqn:Hu.
    + rewrite (alter_alt_Some _ _ _ u) by done. by eapply steady_insert.
    + rewrite alter_id by congruence. by apply (steady_same _ _ _ s).
  - by apply next_event_ends.
Qed.

(** The bridge when the application has started: nobody is logged in, and no handle is open. *)
Definition started (s : Bridge) : Prop :=
  (exists us, Vault.vault_ok (b_vault s) k us) /\ Vault.v_ref (b_vault s) = ∅ /\ b_users s = ∅ /\ b_connected s = 0.

Definition run_ops (ops : list bridge_op) (s : Bridge) : Bridge := foldl (fun (s : Bridge) op => (bridge_run op s).1) s ops.

Lemma run_ops_steady (exact : bool) ops s n :
  steady (fun _ : string => if exact then 0 else Z.of_nat n) s -> Z.of_nat n + Z.of_nat (length ops) + 8 < 2 ^ 63 -> Forall (op_ok exact) ops ->
  steady (fun _ : string => if exact then 0 else Z.of_nat n + Z.of_nat (length ops)) (run_ops ops s).
Proof.
  revert s n. induction ops as [|op ops IH]; intros s n Hs Hlen Hok; simpl in *.
  - eapply tracked_mono; [exact Hs|]. intros x. destruct exact; lia.
  - apply Forall_cons in Hok as [Hop Hok].
    destruct (bridge_run_ends exact (fun _ => if exact then 0 else Z.of_nat n) op s Hs) as [_ Hs1]; [intros x; destruct exact; lia|done|].
    assert (Hs1' : steady (fun _ : string => if exact then 0 else Z.of_nat (S n)) (bridge_run op s).1) by (eapply tracked_mono; [exact Hs1|]; intros x; destruct exact; lia).
    eapply tracked_mono; [exact (IH _ (S n) Hs1' ltac:(lia) Hok)|]. intros x. simpl. destruct exact; lia.
Qed.

Lemma started_steady s : started s -> steady (fun _ => 0) s.
Proof.
  intros ((us & Hv) & Href & Hu & Hc). split; [|by rewrite Hu|by rewrite Hc, Hu, map_size_empty].
  exists us, (fun _ => 0). unfold held. rewrite Hu. split_and!.
  - split; [done|]. intros id. unfold handles. by rewrite Href, lookup_empty.
  - intros id Hid. by apply elem_of_nil in Hid.
  - intros id _. by rewrite lookup_empty.
  - intros id. by rewrite lookup_empty.
Qed.


(** *** Deleting a user *)

Lemma wp_skip {A} w (g : () -> B A) Q s : wp (g ()) Q s -> wp (wrapping w (outside_err None) ≫= g) Q s.
Proof. done. Qed.

Lemma DeleteUser_gone env id s env0 :
  steady (fun _ => 0) s -> logout_env_ok env -> out_syncPath env = None -> out_DeleteSyncState env = None ->
  (vaulted (Vault.HasUser env0 id) s).2 = Ok true ->
  wp (DeleteUser env id) (fun r s' => r = Ok () /\ b_users s' !! id = None /\ forall env', vaulted (Vault.HasUser env' id) s' = (s', Ok false)) s.
Proof.
  intros Hs Hn Hpath Hsync Hknown. assert (Hroom : ample (fun _ => 0)) by (intros x; lia).
  unfold DeleteUser. rewrite Hpath, Hsync. apply wp_skip, wp_bind.
  destruct (tr_vault _ _ _ _ Hs) as (us & f & Hv & _). rewrite (HasUser_ok env0 id s us f Hv) in Hknown. unfold wp at 1.
  rewrite (HasUser_ok _ _ _ us f Hv). injection Hknown as ->. cbn [fst snd negb].
  apply wp_bind, wp_get, wp_bind.
  apply (wp_mono _ (fun r s1 => r = Ok () /\ steady (fun _ => 0) s1 /\ b_users s1 !! id = None)).
  2: { destruct (b_users s !! id) as [u|] eqn:Hu; [|split; [done|split; [exact Hs|exact Hu]]]. eapply wp_mono; [|by apply (logoutUser_ok (fun _ => 0) env u true true id)].
       intros r s1 (-> & Hs1 & Hu1). by rewrite Hu1, lookup_delete_eq. }
  intros r s1 (-> & Hs1 & Hgone). apply wp_skip, wp_bind.
  destruct (tr_vault _ _ _ _ Hs1) as (us1 & f1 & Hv1 & _ & _ & Hmost). specialize (Hmost id). unfold held in Hmost. rewrite Hgone in Hmost. simpl in Hmost.
  destruct (DeleteUser_vs (out_Delete env) k us1 f1 (b_vault s1) id (proj2 Hn) Hv1) as (us2 & Hv2 & Hp & Hids).
  apply wp_logged, wp_vaulted. destruct (Vault.DeleteUser (out_Delete env) id (b_vault s1)) as [v' r']. simpl in *.
  assert (Hres : forall env', vaulted (Vault.HasUser env' id) (add_event (UserDeleted id) (set_vault v' s1)) = (add_event (UserDeleted id) (set_vault v' s1), Ok false)).
  { intros env'. rewrite (HasUser_ok _ _ (add_event (UserDeleted id) (set_vault v' s1)) us2 f1 Hv2). rewrite bool_decide_eq_false_2; [done|].
    intros [_ Hf]%Hids. specialize (Hf eq_refl). lia. }
  destruct r' as [[]|[|e]]; [|done|]; (split; [done|split; [exact Hgone|exact Hres]]).
Qed.

(** Deleting a known user works: when the files of its synchronisation can be deleted the call
    succeeds, and then the user is neither logged in nor known any more, whatever was done
    with the bridge before. *)
Theorem deleted_user_gone s0 ops env userID env0 :
  started s0 -> Forall (op_ok true) ops -> Z.of_nat (length ops) + 8 < 2 ^ 63 ->
  logout_env_ok env -> out_syncPath env = None -> out_DeleteSyncState env = None ->
  (vaulted (Vault.HasUser env0 userID) (run_ops ops s0)).2 = Ok true ->
  let '(s', r) := DeleteUser env userID (run_ops ops s0) in
  r = Ok () /\ b_users s' !! userID = None /\ forall env', vaulted (Vault.HasUser env' userID) s' = (s', Ok false).
Proof.
  intros H0 Hok Hlen Hn Hpath Hsync Hknown.
  pose proof (run_ops_steady true ops s0 0 (started_steady s0 H0) ltac:(lia) Hok) as Hs. simpl in Hs.
  pose proof (DeleteUser_gone env userID _ env0 Hs Hn Hpath Hsync Hknown) as H. unfold wp in H.
  by destruct (DeleteUser env userID (run_ops ops s0)).
Qed.

(** *** Logging out *)

Lemma modUser_get env id g us v i d :
  Vault.venv_ok env -> Vault.vault_ok v k us -> Vault.find_user id us = Some (i, d) -> Vault.ud_UserID (g d) = Vault.ud_UserID d ->
  exists us', Vault.vault_ok (Vault.modUser env id g v).1 k us' /\ Vault.find_user id us' = Some (i, g d).
Proof.
  intros Hn Hv Hf Hg. destruct (Vault.modUserUnsafe_vault_ok env id (fun u => Ok (g u)) k v us i d (g d) Hn Hv Hf eq_refl Hg) as (Hok & _ & _).
  exists (<[i := g d]> us). split; [exact Hok|]. destruct (Vault.find_user_Some _ _ _ _ Hf) as [Hi Hid].
  unfold Vault.find_user in *. apply list_find_Some in Hf as (_ & _ & Hmin). apply list_find_Some. split; [|split; [by rewrite Hg|]].
  - apply list_lookup_insert_eq. by eapply lookup_lt_Some.
  - intros j x Hj Hlt. rewrite list_lookup_insert_ne in Hj by lia. by eapply Hmin.
Qed.

(** The secrets of a session. *)
Definition cleared (d : Vault.UserData) : Vault.UserData :=
  Vault.with_ud_KeyPass [] (Vault.with_ud_AuthRef "" (Vault.with_ud_AuthUID "" d)).


(** *** What is announced of the users that are loaded *)

Definition same_events (s s' : Bridge) : Prop := b_events s' = b_events s.
#[local] Instance same_events_reflexive : Reflexive same_events.
Proof. intros s. reflexivity. Qed.
#[local] Instance same_events_transitive : Transitive same_events.
Proof. intros s1 s2 s3 H1 H2. unfold same_events in *. by rewrite H2. Qed.

Lemma vaulted_same {A} (m : eff Vault.Vault Vault.fault A) : leaves same_events (vaulted m).
Proof. intros s. unfold vaulted. by destruct (m (b_vault s)). Qed.
Lemma outside_err_same e : leaves same_events (outside_err e).
Proof. by destruct e. Qed.
Lemma logged_same {A} (m : B A) : leaves same_events m -> leaves same_events (logged m).
Proof. intros Hm s. unfold logged. specialize (Hm s). by destruct (m s) as [s' [a|[|e]]]. Qed.
Lemma with_user_same {A} ou (m : B A) : leaves same_events m -> leaves same_events (with_user ou m).
Proof. intros Hm s. unfold with_user. specialize (Hm s). by destruct (m s) as [s' [a|e]]. Qed.
Lemma handling_same {A} (m : B A) h : leaves same_events m -> (forall e, leaves same_events (h e)) -> leaves same_events (handling m h).
Proof.
  intros Hm Hh s. unfold handling. specialize (Hm s). destruct (m s) as [s' [a|[|e]]]; simpl in *; [done|done|]. etrans; [exact Hm|apply Hh].
Qed.

#[local] Ltac same_ev :=
  repeat match goal with
  | |- leaves same_events (_ ≫= _) => apply leaves_bind; [exact _| |intros ?]
  | |- leaves same_events (wrapping _ _) => apply leaves_wrapping
  | |- leaves same_events (vaulted _) => apply vaulted_same
  | |- leaves same_events (outside_err _) => apply outside_err_same
  | |- leaves same_events (outside _) => apply leaves_reads; exact _
  | |- leaves same_events (logged _) => apply logged_same
  | |- leaves same_events (with_user _ _) => apply with_user_same
  | |- leaves same_events (handling _ _) => apply handling_same; [|intros ?]
  | |- leaves same_events (mret _) => apply leaves_ret; exact _
  | |- leaves same_events (fails _) => apply leaves_fails; exact _
  | |- leaves same_events (modify _) => intros ?; reflexivity
  | |- leaves same_events (let x := _ in _) => cbv zeta
  | |- leaves same_events (match ?x with _ => _ end) => destruct x
  end.

Lemma New_same env id apiUser isNew : leaves same_events (New env id apiUser isNew).
Proof.
  assert (Himpl : leaves same_events (newImpl env id apiUser isNew)) by (unfold newImpl, migrateSyncStatusFromVault; same_ev).
  intros s. unfold New. specialize (Himpl s). destruct (newImpl env id apiUser isNew s) as [s1 [u|[[u|] [|e]]]]; simpl in *; try done.
  assert (Hclose : leaves same_events (user_Close u ≫= fun _ => fails (A := account) (UFails e))) by (unfold user_Close; same_ev).
  etrans; [exact Himpl|apply Hclose].
Qed.

Lemma loadUser_same env id : leaves same_events (loadUser env id).
Proof. unfold loadUser, addUser, newVaultUser, undo_add, addUserWithVault. same_ev. all: apply New_same. Qed.

(** The verdicts in the events. *)
Definition verdict (id : string) (evs : list bridge_evt) (s : Bridge) : Prop :=
  (UserLoadSuccess id ∈ evs /\ held s id = 1) \/ exists authUID, UserLoadFail id authUID ∈ evs.

Lemma load_one_verdict exact firm most opened envs id s :
  tracked firm most opened s -> roomy most (id :: opened) -> (forall x, 0 <= most x) -> load_env_ok exact id (envs id) ->
  id ∈ opened -> firm id = true ->
  wp (load_one envs id) (fun r s' => exists evs, b_events s' = b_events s ++ evs /\
    (evs = [] \/ (evs = [UserLoading id; UserLoadSuccess id] /\ held s' id = 1) \/ exists authUID, evs = [UserLoading id; UserLoadFail id authUID])) s.
Proof.
  intros Ht Hroom H0 Hn Hid Hfirm. unfold load_one. apply wp_bind. unfold Vault.user_AuthUID.
  destruct (reading_kept firm most opened (lo_Clear (envs id)) id Vault.ud_AuthUID s Ht (or_introl Hid)) as [authUID Hread].
  unfold wp at 1. rewrite Hread. cbn [fst snd].
  destruct (String.eqb authUID ""); [exists []; rewrite app_nil_r; auto|].
  apply wp_bind, wp_get. destruct (b_users s !! id) as [u|] eqn:Hnot; [exists []; rewrite app_nil_r; auto|].
  apply wp_bind. unfold wp at 1. cbn [publish modify fst snd].
  assert (Ht1 := tracked_publish _ _ _ (UserLoading id) _ Ht). set (s1 := add_event (UserLoading id) s) in *.
  assert (Hheld : held s1 id = 0) by (unfold held; subst s1; simpl; by rewrite Hnot).
  pose proof (loadUser_ok exact firm most opened (envs id) id s1 Ht1 Hroom H0 Hn Hid Hheld Hfirm) as Hload.
  pose proof (loadUser_same (envs id) id s1) as Hev. unfold same_events in Hev.
  apply wp_handling, wp_bind. unfold wp at 1 in Hload. unfold wp at 1.
  destruct (loadUser (envs id) id s1) as [s2 [[]|[|e]]]; cbn [fst snd] in *; destruct Hload as (Hp & Ht2 & Hoth & Hin); [|done|].
  - unfold wp. simpl. exists [UserLoading id; UserLoadSuccess id]. rewrite Hev. simpl. rewrite <- app_assoc. split; [done|]. right. left. split; [done|].
    unfold held. simpl. by destruct (Hin eq_refl) as [x ->].
  - apply wp_bind. unfold Vault.user_AuthUID.
    destruct (reading_kept _ _ opened (lo_Clear (envs id)) id Vault.ud_AuthUID s2 Ht2 (or_introl Hid)) as [uid Hread2].
    unfold wp at 1. rewrite Hread2. unfold wp. simpl. exists [UserLoading id; UserLoadFail id uid]. rewrite Hev. simpl. rewrite <- app_assoc.
    split; [done|]. right. right. by exists uid.
Qed.

Lemma closing_same l s :
  let s' := (for_each l (fun u => logged (vaulted (Vault.user_Close u))) s).1 in b_events s' = b_events s /\ b_users s' = b_users s.
Proof.
  revert s. induction l as [|u l IH]; intros s; cbv zeta; [done|]. simpl. unfold mbind, eff_bind.
  assert (Hone : let s1 := (logged (vaulted (Vault.user_Close u)) s).1 in b_events s1 = b_events s /\ b_users s1 = b_users s).
  { unfold logged, vaulted. destruct (Vault.user_Close u (b_vault s)) as [v [[]|[|e]]]; done. }
  destruct (logged (vaulted (Vault.user_Close u)) s) as [s1 [[]|e]]; simpl in *; [|done]. destruct (IH s1) as [H1 H2], Hone as [H3 H4].
  by rewrite H1, H2.
Qed.

Lemma load_all_verdict exact most opened envs todo s :
  tracked (fun x => bool_decide (x ∈ todo)) (bound_at exact most todo) opened s -> (forall x, 0 <= most x /\ most x + occ opened x + 5 < 2 ^ 63) ->
  (forall id, load_env_ok exact id (envs id)) -> NoDup todo -> (forall x, x ∈ todo -> x ∈ opened) ->
  wp (for_each todo (load_one envs)) (fun r s' => exists evs, b_events s' = b_events s ++ evs /\
    (forall id, UserLoading id ∈ evs -> id ∈ todo /\ verdict id evs s') /\ forall x, x ∉ todo -> held s' x = held s x) s.
Proof.
  intros Ht Hroom Hn. revert s Ht. induction todo as [|id todo IH]; intros s Ht Hnd Hsub.
  - exists []. rewrite app_nil_r. split_and!; [done| |done]. intros id Hid. by apply elem_of_nil in Hid.
  - assert (Hroom1 : roomy (bound_at exact most (id :: todo)) (id :: opened)).
    { intros x. destruct (Hroom x) as [_ Hx]. pose proof (bound_at_le exact most (id :: todo) x). simpl. destruct (String.eqb x id); lia. }
    assert (Hpos : forall x, 0 <= bound_at exact most (id :: todo) x).
    { intros x. destruct (Hroom x) as [Hx _]. pose proof (bound_at_le exact most (id :: todo) x). lia. }
    assert (Hin : id ∈ opened) by (apply Hsub; left).
    assert (Hfirm : bool_decide (id ∈ id :: todo) = true) by (apply bool_decide_eq_true_2; left).
    pose proof (load_one_ok exact _ _ opened envs id s Ht Hroom1 Hpos (Hn id) Hin Hfirm) as H1.
    pose proof (load_one_verdict exact _ _ opened envs id s Ht Hroom1 Hpos (Hn id) Hin Hfirm) as H2.
    pose proof (NoDup_cons_1_1 _ _ Hnd) as Hnot. pose proof (NoDup_cons_1_2 _ _ Hnd) as Hnd'.
    simpl. apply wp_bind. unfold wp at 1 in H1. unfold wp at 1 in H2. unfold wp at 1.
    destruct (load_one envs id s) as [s1 r]. cbn [fst snd] in *. destruct H1 as (-> & Ht1 & Hoth). destruct H2 as (evs1 & Hev1 & Hcase).
    apply (tracked_mono _ _ (bound_at exact most todo)) in Ht1; [|intros x; by apply bound_at_next].
    eapply wp_mono; [|apply (IH s1)]; [|by apply (tracked_next id todo)|done|intros x Hx; apply Hsub; by right].
    intros r s' (evs2 & Hev2 & Hver & Hheld). exists (evs1 ++ evs2). rewrite Hev2, Hev1, app_assoc. split; [done|]. split.
    + intros x [Hx|Hx]%elem_of_app.
      * assert (x = id) as -> by (destruct Hcase as [->|[[-> _]|[uid ->]]]; revert Hx; rewrite ?elem_of_cons, elem_of_nil; naive_solver).
        split; [left|]. destruct Hcase as [->|[[-> Hh]|[uid ->]]]; [by apply elem_of_nil in Hx|left|right].
        -- split; [apply elem_of_app; left; right; left|]. by rewrite Hheld.
        -- exists uid. apply elem_of_app. left. right. left.
      * destruct (Hver x Hx) as [Hx' [[Hs Hh]|[uid Hf]]]; (split; [by right|]); [left|right].
        -- split; [apply elem_of_app; by right|done].
        -- exists uid. apply elem_of_app. by right.
    + intros x Hx. rewrite Hheld by (intros ?; apply Hx; by right). unfold held. rewrite Hoth; [done|]. intros ->. apply Hx. left.
Qed.

(** No user is lost while the users are loaded: a user whose loading is announced is afterwards
    either announced as loaded, and then it is logged in, or its failure is announced; and
    loading itself always ends well. *)
Theorem loads_announced exact most env envs s :
  steady most s -> ample most -> (forall id, load_env_ok exact id (envs id)) ->
  let '(s', r) := loadUsers env envs s in
  r = Ok () /\ exists evs, b_events s' = b_events s ++ evs /\
    forall id, UserLoading id ∈ evs ->
      (UserLoadSuccess id ∈ evs /\ is_Some (b_users s' !! id)) \/ exists authUID, UserLoadFail id authUID ∈ evs.
Proof.
  intros Hs Hroom Hn. destruct (loading_state exact most env s Hs Hroom) as (us & v' & Hget & Hnd & Ht & Hroom').
  pose proof (load_all_ok exact most (Vault.ids us) envs (Vault.ids us) _ Ht Hroom' Hn Hnd (fun x Hx => Hx)) as H1.
  pose proof (load_all_verdict exact most (Vault.ids us) envs (Vault.ids us) _ Ht Hroom' Hn Hnd (fun x Hx => Hx)) as H2.
  unfold wp, loadUsers, for_user, vaulted, deferring in *. rewrite Hget.
  destruct (for_each (Vault.ids us) (load_one envs) (set_vault v' s)) as [s1 r]. cbn [fst snd] in *. destruct H1 as [-> _].
  destruct H2 as (evs & Hev & Hver & _). split; [done|]. exists evs. destruct (closing_same (Vault.ids us) s1) as [He Hu].
  unfold vaulted in He, Hu. rewrite He, Hu. split; [exact Hev|]. intros id Hid. destruct (Hver id Hid) as [_ [[Hs1 Hh]|Hf]]; [left|by right].
  split; [done|]. unfold held in Hh. destruct (b_users s1 !! id); [by eexists|done].
Qed.

(** *** Addresses *)

(** The addresses of a user that is logged in are listed in their order, and they are exactly
    its enabled addresses that are not external, besides those the user brought along. *)
Theorem Emails_spec isBYOE u :
  StronglySorted Z.le (addr_Order <$> protonAddresses isBYOE true u) /\
  Emails isBYOE true u = addr_Email <$> protonAddresses isBYOE true u /\
  forall addr, addr ∈ protonAddresses isBYOE true u <->
    (exists id, Addresses (acc_identity u) !! id = Some addr) /\ enabled (addr_Status addr) = true /\ (isBYOE addr = true \/ external addr = false).
Proof.
  split; [apply sort_by_sorted|]. split; [done|]. intros addr. unfold protonAddresses.
  rewrite (sort_by_perm addr_Order), elem_of_Filter, elem_of_Values, andb_true_iff, orb_true_iff, negb_true_iff. done.
Qed.

(** *** What the bridge does not do *)

(** The test for an error of the API client never succeeds: the error is wrapped before. *)
Lemma response_error_is_wrapped env apiUser vaultUser isNew s s' e :
  addUserWithVault env apiUser vaultUser isNew s = (s', Err (UFails e)) -> is_response e = false.
Proof.
  unfold addUserWithVault, mbind, eff_bind, wrapping. destruct (ae_syncPath env); simpl; [by intros [= <- <-]|].
  destruct (New env vaultUser apiUser isNew s) as [s1 [u|[|e']]]; simpl; [done|done|]. by intros [= <- <-].
Qed.

(** When a service does not let the user go, the user is logged out in the bridge but keeps its
    session in the vault, and is loaded again by the next start. *)
Lemma failed_logout_keeps_session most s env userID u e d :
  steady most s -> out_smtp env = Some e -> b_users s !! userID = Some u ->
  (forall env', Vault.getUser env' userID (b_vault s) = (b_vault s, Ok d)) ->
  let '(s', r) := LogoutUser env userID s in
  r = Ok () /\ b_users s' = delete userID (b_users s) /\ forall env', Vault.getUser env' userID (b_vault s') = (b_vault s', Ok d).
Proof.
  intros Hs Hsmtp Hu Hget. pose proof (tr_users _ _ _ _ Hs _ _ Hu) as Hacc.
  assert (Hsame : forall env' r, Vault.getUser env' userID (Vault.set_ref r (b_vault s)) = (Vault.set_ref r (b_vault s), Ok d)).
  { intros env' r. specialize (Hget env'). revert Hget. unfold Vault.getUser, Vault.getSafe, Vault.getUnsafe, mbind, eff_bind, reads. simpl.
    destruct (Vault.unmarshalFile env' _ _) as [data|]; [|done]. destruct (Vault.find_user userID (Vault.Data_Users data)) as [[j x]|]; [|done].
    by intros [= ->]. }
  unfold LogoutUser, get, mbind, eff_bind. rewrite Hu. unfold logoutUser, user_Logout, user_Close, outside_err. rewrite Hsmtp, Hacc.
  unfold deferring, logged, vaulted, wrapping, mbind, eff_bind. simpl. unfold Vault.user_Close, Vault.detachUser.
  destruct (Vault.v_ref (b_vault s) !! userID); simpl; (split; [done|]; split; [done|]); [intros env'; apply Hsame|exact Hget].
Qed.

(** When the disk refuses the session of a known user that logs in, its handle stays open, and the
    user cannot be deleted from the vault until the application is restarted. *)
Lemma refused_login_leaks_handle env userID username email authUID authRef keyPass us f v e :
  vs k us f v -> fits f -> userID ∈ Vault.ids us -> Vault.env_write env = Some e ->
  let '(v', r) := Vault.GetOrAddUser env userID username email authUID authRef keyPass v in
  is_ok r = false /\ is_Some (Vault.v_ref v' !! userID) /\
  forall env', Vault.DeleteUser env' userID v' = (v', Err (Vault.Fails (Vault.VErr "user is currently in use"))).
Proof.
  intros Hv Hfit Hin Hwrite. unfold Vault.GetOrAddUser, mbind, eff_bind. destruct (Vault.getUnsafe_ok env k v us (proj1 Hv)) as (d & -> & Hd).
  rewrite Hd. destruct (Vault.find_user_ids _ _ Hin) as (i & u & Hu). rewrite Hu. simpl.
  set (v1 := Vault.set_ref (<[userID := i64 (default 0 (Vault.v_ref v !! userID) + 1)]> (Vault.v_ref v)) v).
  assert (Hv1 : vs k us (inc userID f) v1) by by apply (attach_vs k us f v userID).
  unfold Vault.setAuthAndKeyPassUnsafe, Vault.modUserUnsafe, Vault.modUnsafe. rewrite (Vault.ok_gcm _ _ _ (proj1 Hv1)).
  destruct (Vault.ok_enc _ _ _ (proj1 Hv1) env) as (d1 & -> & Hd1). rewrite Hd1, Hu, Hwrite. destruct e as [e partial]. simpl.
  assert (Href : Vault.v_ref v1 !! userID = Some (i64 (default 0 (Vault.v_ref v !! userID) + 1))) by apply lookup_insert_eq.
  split; [done|]. split; [by eexists|]. intros env'. unfold Vault.DeleteUser. simpl. change (Vault.v_ref v) with (Vault.v_ref v).
  by rewrite lookup_insert_eq.
Qed.

End runs.

(** ** Examples *)

#[local] Existing Instance Vault.ex_codec.
#[local] Existing Instance Vault.ex_laws.
#[local] Existing Instance canonical_range.
#[local] Existing Instance merge_sort_by.

Definition ex_venv : Vault.venv := Vault.ex_env.
Lemma ex_venv_ok : Vault.venv_ok ex_venv.
Proof. vm_compute. reflexivity. Qed.

Definition ex_add : add_env := mkAddEnv ex_venv ex_venv ex_venv ex_venv None (Ok false) (Ok []) None None (Ok false) None None None.
Definition ex_login : login_env :=
  mkLoginEnv (Ok ("u", ("uid", "ref"))) None None (Ok (mkApiUser (mkUser "u" "me" 0 []) "me@pm.me")) None (Ok [1]) (Ok 1) ex_add.
Definition ex_load (id : string) : load_env :=
  mkLoadEnv (Ok ("uid2", "ref2")) ex_venv ex_venv (Ok (mkApiUser (mkUser id "me" 0 []) "me@pm.me")) ex_venv ex_add.
Definition ex_logout : logout_env := mkLogoutEnv None None None ex_venv None None ex_venv.

(** A vault with one user, and the application just started. *)
Definition ex_vault1 (ref : gmap string Z) : Vault.Vault := Vault.ex_with [Vault.ex_user] ref.
Definition ex_bridge : Bridge := mkBridge _ (ex_vault1 ∅) ∅ 0 false [].

Lemma ex_started : started Vault.ex_key ex_bridge.
Proof.
  split; [|done]. exists [Vault.ex_user]. apply Vault.ex_with_ok; [apply NoDup_singleton|]. intros id n Hid. by rewrite lookup_empty in Hid.
Qed.

Lemma ex_login_ok : login_env_ok true ex_login.
Proof. split; [repeat split; apply ex_venv_ok|]. split; [by intros _|]. by intros auth apiUser [= <-] [= <-]. Qed.


Example deleted_user_gone_witness :
  let '(s', r) := DeleteUser ex_logout "u" ex_bridge in r = Ok () /\ b_users s' !! "u" = None.
Proof.
  assert (Hknown : (vaulted (Vault.HasUser ex_venv "u") (run_ops [] ex_bridge)).2 = Ok true).
  { destruct ex_started as ((us & Hv) & _).
    assert (Hvs : vs Vault.ex_key [Vault.ex_user] (fun _ => 0) (b_vault ex_bridge)).
    { split; [|done]. apply Vault.ex_with_ok; [apply NoDup_singleton|]. intros id n Hid. by rewrite lookup_empty in Hid. }
    change (run_ops [] ex_bridge) with ex_bridge. by rewrite (HasUser_ok Vault.ex_key ex_venv "u" ex_bridge _ _ Hvs). }
  pose proof (deleted_user_gone Vault.ex_key ex_bridge [] ex_logout "u" ex_venv ex_started (Forall_nil_2 _) ltac:(vm_compute; reflexivity)
    (conj ex_venv_ok ex_venv_ok) eq_refl eq_refl Hknown) as H.
  change (run_ops [] ex_bridge) with ex_bridge in H. destruct (DeleteUser ex_logout "u" ex_bridge) as [s' r].
  destruct H as (Hr & Hu & _). split; [exact Hr|exact Hu].
Defined.

(** The user is logged in. *)
Definition ex_account : account := mkAccount "u" "" (NewState (mkUser "u" "me" 0 []) []) [].
Definition ex_logged_in : Bridge := mkBridge _ (ex_vault1 {["u" := 1]}) {["u" := ex_account]} 1 false [].

Lemma ex_logged_in_steady : steady Vault.ex_key (fun _ => 0) ex_logged_in.
Proof.
  split.
  - exists [Vault.ex_user], (fun x => if String.eqb x "u" then 1 else 0).
    assert (Hheld : forall x, held ex_logged_in x = if String.eqb x "u" then 1 else 0).
    { intros x. unfold held. simpl. destruct (String.eqb_spec x "u") as [->|Hne]; [done|]. by rewrite lookup_singleton_ne. }
    split_and!.
    + split.
      * apply Vault.ex_with_ok; [apply NoDup_singleton|]. intros id n [<- <-]%lookup_singleton_Some. split; [done|]. by apply list_elem_of_singleton.
      * intros x. unfold handles. simpl. destruct (String.eqb_spec x "u") as [->|Hne]; [done|]. by rewrite lookup_singleton_ne.
    + intros x Hx. by apply elem_of_nil in Hx.
    + intros x _. rewrite Hheld. simpl. lia.
    + intros x. rewrite Hheld. simpl. lia.
  - intros id u Hid. simpl in Hid. by apply lookup_singleton_Some in Hid as [<- <-].
  - done.
Qed.


Example loads_announced_witness : (loadUsers ex_venv ex_load ex_bridge).2 = Ok ().
Proof.
  assert (Hn : forall id, load_env_ok true id (ex_load id)).
  { intros id. repeat split; try apply ex_venv_ok; try done. by intros apiUser [= <-]. }
  pose proof (loads_announced Vault.ex_key true (fun _ => 0) ex_venv ex_load ex_bridge (started_steady _ _ ex_started) (fun _ => ltac:(lia)) Hn) as H.
  destruct (loadUsers ex_venv ex_load ex_bridge) as [s' r]. destruct H as [Hr _]. exact Hr.
Defined.
