(* ===== verification/Files.v ===== *)
(** * Files, archives and checksums (pkg/tar, pkg/sum)

    The part of the file system the updater works on: a path is the list of its
    components below the root of the file system, and a file system maps paths to files,
    directories and symbolic links.  [denied] says which paths the system refuses to
    create, remove or open.

    [UntarToDir] unpacks the archive of an update and [RecursiveSum] hashes the files of
    a directory.  A link is followed when it is the last component of a path.  The hash
    function is an argument ([Sha512]). *)

From S2P Require Import Prelude.
From S2P Require Import Strings.
From S2P Require Import Effects.
From S2P Require Import UserEvents.

Notation path := (list string) (only parsing).

Inductive node : Type :=
| NFile (exec : bool) (data : string)
| NDir
| NLink (target : path).

Notation FS := (gmap path node) (only parsing).

Class Sha512 : Type := sha512 : string -> string.

(** ** Paths (path/filepath) *)

Definition slash : Ascii.ascii := Ascii.ascii_of_nat 47.

(** The components that remain of a path; [stack] holds those already read, the last one
    first. *)
Fixpoint clean_from (rooted : bool) (stack segs : list string) : list string :=
  match segs with
  | [] => rev stack
  | s :: segs =>
      if String.eqb s "" || String.eqb s "." then clean_from rooted stack segs
      else if String.eqb s ".." then
        match stack with
        | [] => clean_from rooted (if rooted then [] else [".."]) segs
        | top :: rest => if String.eqb top ".." then clean_from rooted (".." :: stack) segs else clean_from rooted rest segs
        end
      else clean_from rooted (s :: stack) segs
  end.

Definition is_rooted (s : string) : bool := has_prefix "/" s.
Definition Clean (s : string) : list string := clean_from (is_rooted s) [] (Split slash s).
(** [filepath.Join(dir, name)] for an absolute [dir] and a clean [name]. *)
Definition Join (dir : path) (name : list string) : path := clean_from true [] (dir ++ name).
Definition Dir (p : path) : path := removelast p.

(** ** Operations of package os *)

Section os.
Variable denied : path -> bool.

Definition err_denied : err := ErrOther "permission denied".
Definition err_not_exist : err := ErrOther "file does not exist".
Definition err_exist : err := ErrOther "file exists".
Definition err_not_dir : err := ErrOther "not a directory".
Definition err_is_dir : err := ErrOther "is a directory".
Definition err_loop : err := ErrOther "too many levels of symbolic links".

(** The system follows at most 40 links. *)
Fixpoint follow (fuel : nat) (fs : FS) (p : path) : result err path :=
  match fs !! p with
  | Some (NLink t) => match fuel with O => Err err_loop | S fuel => follow fuel fs t end
  | _ => Ok p
  end.
Definition max_links : nat := 40.

Definition Stat (fs : FS) (p : path) : result err node :=
  p ← follow max_links fs p;
  match fs !! p with Some n => Ok n | None => Err err_not_exist end.

Definition ReadFile (fs : FS) (p : path) : result err string :=
  p ← follow max_links fs p;
  if denied p then Err err_denied
  else match fs !! p with
       | Some (NFile _ data) => Ok data
       | Some _ => Err err_is_dir
       | None => Err err_not_exist
       end.

Definition is_dir (fs : FS) (p : path) : bool :=
  match p with [] => true | _ => match fs !! p with Some NDir => true | _ => false end end.

(** The directory [p] and the missing ones above it; [above] is the part already there. *)
Fixpoint mkdir_from (above rest : path) (fs : FS) : FS * option err :=
  match rest with
  | [] => (fs, None)
  | s :: rest =>
      let p := above ++ [s] in
      match fs !! p with
      | Some NDir => mkdir_from p rest fs
      | Some _ => (fs, Some err_not_dir)
      | None => if denied p then (fs, Some err_denied) else mkdir_from p rest (<[p := NDir]> fs)
      end
  end.
Definition MkdirAll (p : path) (fs : FS) : FS * option err := mkdir_from [] p fs.

Definition Symlink (target p : path) (fs : FS) : FS * option err :=
  match fs !! p with
  | Some _ => (fs, Some err_exist)
  | None =>
      if negb (is_dir fs (Dir p)) then (fs, Some err_not_exist)
      else if denied p then (fs, Some err_denied) else (<[p := NLink target]> fs, None)
  end.

(** Opens an empty file for writing; returns where it is. *)
Definition Create (p : path) (fs : FS) : FS * result err path :=
  match follow max_links fs p with
  | Err e => (fs, Err e)
  | Ok p =>
      if denied p then (fs, Err err_denied)
      else match fs !! p with
           | Some (NFile exec _) => (<[p := NFile exec ""]> fs, Ok p)
           | Some _ => (fs, Err err_is_dir)
           | None => if is_dir fs (Dir p) then (<[p := NFile false ""]> fs, Ok p) else (fs, Err err_not_exist)
           end
  end.

Definition below (p : path) (fs : FS) : FS := filter (fun '(q, _) => p `prefix_of` q) fs.
Definition RemoveAll (p : path) (fs : FS) : FS * option err :=
  if denied p then (fs, Some err_denied) else (filter (fun '(q, _) => ~ p `prefix_of` q) fs, None).

(** The names in a directory, in order. *)
Definition name_le (a b : string) : Prop := String.leb a b = true.
#[global] Instance name_le_dec a b : Decision (name_le a b).
Proof. unfold name_le. apply _. Defined.

Definition child_of (p q : path) : option string :=
  match last q with Some n => if bool_decide (q = p ++ [n]) then Some n else None | None => None end.
Definition ReadDir (fs : FS) (p : path) : result err (list string) :=
  if denied p then Err err_denied
  else match fs !! p with
       | Some NDir => Ok (merge_sort name_le (omap (fun '(q, _) => child_of p q) (map_to_list fs)))
       | Some _ => Err err_not_dir
       | None => Err err_not_exist
       end.

(** ** Unpacking (pkg/tar/tar.go) *)

Definition maxFileSize : Z := 1 * 1024 * 1024 * 1024.
Definition ErrFileTooLarge : err := ErrOther "trying to decompress file larger than 1GB".

(** The content of an entry of the archive still to be read, and the error at its end
    ([None] is the end of the file, returned with the last bytes). *)
Record tar_reader : Type := mkTarReader { tr_rest : string; tr_end : option err }.

(** A call of [Read]: the bytes, whether there may be more, the reader. *)
Inductive read_outcome : Type := More | EndOfFile | ReadError (e : err).
Definition tar_Read (p : nat) (tr : tar_reader) : string * read_outcome * tar_reader :=
  (str_take p (tr_rest tr),
   if (String.length (tr_rest tr) <=? p)%nat then match tr_end tr with None => EndOfFile | Some e => ReadError e end else More,
   mkTarReader (str_drop p (tr_rest tr)) (tr_end tr)).

Record limitReader : Type := mkLimitReader { lr_r : tar_reader; lr_n : Z }.
Definition limit_Read (p : nat) (lr : limitReader) : string * read_outcome * limitReader :=
  if lr_n lr <=? 0 then ("", ReadError ErrFileTooLarge, lr)
  else
    let p := if Z.of_nat p >? lr_n lr then Z.to_nat (lr_n lr) else p in
    let '(b, o, r) := tar_Read p (lr_r lr) in
    (b, o, mkLimitReader r (lr_n lr - Z.of_nat (String.length b))).

(** [io.Copy]: what was copied, and the error. *)
Definition copyBuffer : nat := 32 * 1024.
Fixpoint io_Copy (fuel : nat) (lr : limitReader) : option (string * option err) :=
  match fuel with
  | O => None
  | S fuel =>
      match limit_Read copyBuffer lr with
      | (b, More, lr) => (fun '(w, e) => (b +:+ w, e)) <$> io_Copy fuel lr
      | (b, EndOfFile, _) => Some (b, None)
      | (b, ReadError e, _) => Some (b, Some e)
      end
  end.

Inductive tar_entry : Type :=
| TarLink (name linkname : string)
| TarDir (name : string)
| TarFile (name : string) (exec : bool) (content : tar_reader)
| TarBroken (e : err).

(** A link is relative to the directory it is in. *)
Definition link_target (p : path) (linkname : string) : path :=
  if is_rooted linkname then Clean linkname else Join (Dir p) (Split slash linkname).

Definition write_file (p : path) (exec : bool) (content : tar_reader) (fs : FS) : FS * option err :=
  match Create p fs with
  | (fs, Err e) => (fs, Some e)
  | (fs, Ok p) =>
      match io_Copy (S (String.length (tr_rest content))) (mkLimitReader content maxFileSize) with
      | None => (fs, None)
      | Some (w, Some e) => (alter (fun n => match n with NFile x _ => NFile x w | n => n end) p fs, Some e)
      | Some (w, None) => (<[p := NFile exec w]> fs, None)
      end
  end.

Definition untar_entry (dir : path) (h : tar_entry) (fs : FS) : FS * option err :=
  match h with
  | TarBroken e => (fs, Some e)
  | TarLink name linkname => let target := Join dir (Clean name) in Symlink (link_target target linkname) target fs
  | TarDir name => MkdirAll (Join dir (Clean name)) fs
  | TarFile name exec content => write_file (Join dir (Clean name)) exec content fs
  end.

Fixpoint UntarToDir (archive : list tar_entry) (dir : path) (fs : FS) : FS * option err :=
  match archive with
  | [] => (fs, None)
  | h :: archive =>
      match untar_entry dir h fs with
      | (fs, Some e) => (fs, Some e)
      | (fs, None) => UntarToDir archive dir fs
      end
  end.

(** ** Checksums (pkg/sum/sum.go) *)

Context `{SH : Sha512}.

Fixpoint path_leb (p q : path) : bool :=
  match p, q with
  | [], _ => true
  | _ :: _, [] => false
  | a :: p, b :: q => if String.eqb a b then path_leb p q else String.leb a b
  end.
Definition path_le (p q : path) : Prop := path_leb p q = true.
#[global] Instance path_le_dec p q : Decision (path_le p q).
Proof. unfold path_le. apply _. Defined.

(** The paths [filepath.Walk] visits: a directory before what it contains, in order. *)
Definition Walk (fs : FS) (root : path) : list path := merge_sort path_le (map_to_list (below root fs)).*1.

Fixpoint path_string (p : path) : string :=
  match p with [] => "" | [s] => s | s :: p => s +:+ "/" +:+ path_string p end.
Definition Rel (root p : path) : string := path_string (drop (length root) p).

(** What is written to the hash. *)
Definition sum_step (fs : FS) (root : path) (skip : string) (p : path) : result err string :=
  match fs !! p with
  | Some NDir => if denied p then Err err_denied else Ok ""
  | _ =>
      if bool_decide (p = root ++ [skip]) || bool_decide (p = root ++ [skip +:+ ".sig"]) then Ok ""
      else data ← ReadFile fs p; Ok (Rel root p +:+ data)
  end.

Fixpoint sum_files (fs : FS) (root : path) (skip : string) (ps : list path) : result err string :=
  match ps with
  | [] => Ok ""
  | p :: ps => b ← sum_step fs root skip p; rest ← sum_files fs root skip ps; Ok (b +:+ rest)
  end.

Definition RecursiveSum (fs : FS) (root : path) (skip : string) : result err string :=
  if decide (is_Some (fs !! root)) then b ← sum_files fs root skip (Walk fs root); Ok (sha512 b) else Err err_not_exist.

End os.

(** ** Copying with a limit *)

(** The whole content arrives when it fits, and otherwise as much of it as the limit allows,
    whatever the size of the buffer. *)
Lemma io_Copy_limit fuel tr n :
  (String.length (tr_rest tr) < fuel)%nat -> 0 < n ->
  io_Copy fuel (mkLimitReader tr n) =
    Some (if Z.of_nat (String.length (tr_rest tr)) <=? n then (tr_rest tr, tr_end tr)
          else (str_take (Z.to_nat n) (tr_rest tr), Some ErrFileTooLarge)).
Proof.
  revert tr n. induction fuel as [|fuel IH]; intros [rest e] n Hf Hn; simpl in Hf; [lia|].
  cbn [io_Copy]. unfold limit_Read. cbn [lr_n lr_r].
  destruct (n <=? 0) eqn:Hn0; [boolp; lia|].
  set (p := if Z.of_nat copyBuffer >? n then Z.to_nat n else copyBuffer).
  assert (Hp : (0 < p)%nat /\ Z.of_nat p <= n).
  { unfold p. destruct (Z.of_nat copyBuffer >? n) eqn:Hb; rewrite Z.gtb_ltb in Hb; boolp; [lia|].
    split; [unfold copyBuffer; lia|lia]. }
  clearbody p. unfold tar_Read. cbn [tr_rest tr_end].
  destruct (String.length rest <=? p)%nat eqn:Hl.
  - apply Nat.leb_le in Hl. rewrite (str_take_ge p rest) by done.
    replace (_ <=? n) with true by (symmetry; apply Z.leb_le; lia). by destruct e.
  - apply Nat.leb_gt in Hl. rewrite length_str_take, Nat.min_l by lia.
    destruct (decide (n = Z.of_nat p)) as [->|Hne].
    + destruct fuel as [|fuel]; [lia|]. cbn [io_Copy]. unfold limit_Read. cbn [lr_n].
      rewrite Z.sub_diag. cbn. rewrite str_app_nil.
      replace (_ <=? Z.of_nat p) with false by (symmetry; apply Z.leb_gt; lia). by rewrite Nat2Z.id.
    + rewrite IH; cbn [tr_rest tr_end]; rewrite ?length_str_drop; [|lia|lia]. cbn.
      replace (Z.of_nat (String.length rest - p) <=? n - Z.of_nat p) with (Z.of_nat (String.length rest) <=? n)
        by (apply eq_iff_eq_true; rewrite !Z.leb_le; lia).
      destruct (Z.of_nat (String.length rest) <=? n).
      * by rewrite str_take_drop.
      * f_equal. f_equal. rewrite <- (str_take_drop_take p (Z.to_nat n) rest) by lia. f_equal. f_equal. lia.
Qed.

(** ** Paths of an archive *)

Definition plain (s : string) : Prop := s <> "" /\ s <> "." /\ s <> "..".

Lemma clean_from_plain rooted stack segs : Forall plain segs -> clean_from rooted stack segs = rev stack ++ segs.
Proof.
  revert stack. induction segs as [|s segs IH]; intros stack Hs; simpl; [by rewrite app_nil_r|].
  apply Forall_cons in Hs as [(Hs1 & Hs2 & Hs3) Hs].
  apply String.eqb_neq in Hs1, Hs2, Hs3. rewrite Hs1, Hs2, Hs3. simpl.
  rewrite IH by done. simpl. by rewrite <- app_assoc.
Qed.

Lemma Join_plain dir name : Forall plain dir -> Forall plain name -> Join dir name = dir ++ name.
Proof. intros Hd Hn. unfold Join. rewrite clean_from_plain; [done|]. by apply Forall_app. Qed.

(** A rooted name never leads out of the directory it is joined to. *)
Lemma clean_from_rooted stack segs : Forall plain stack -> Forall plain (clean_from true stack segs).
Proof.
  revert stack. induction segs as [|s segs IH]; intros stack Hst; simpl.
  - by apply Forall_rev.
  - destruct (String.eqb s "" || String.eqb s ".") eqn:H1; [by apply IH|].
    destruct (String.eqb s "..") eqn:H2.
    + destruct stack as [|top rest]; [by apply IH|]. apply Forall_cons in Hst as [(? & ? & Ht) Hst].
      apply String.eqb_neq in Ht. rewrite Ht. by apply IH.
    + apply IH. boolp. constructor; [done|exact Hst].
Qed.

Lemma Clean_rooted name : is_rooted name = true -> Forall plain (Clean name).
Proof. intros Hr. unfold Clean. rewrite Hr. by apply clean_from_rooted. Qed.

Definition link_free (fs : FS) : Prop := forall p t, fs !! p <> Some (NLink t).

Lemma follow_link_free n fs p : link_free fs -> follow n fs p = Ok p.
Proof. intros Hl. destruct n; simpl; destruct (fs !! p) as [[| |t]|] eqn:Hp; try done; by destruct (Hl p t). Qed.

(** ** What unpacking changes *)

Section untar.
Variable denied : path -> bool.
Context (dir : path) (Hdir : Forall plain dir).

(** Below [dir] anything; elsewhere only the missing directories above it. *)
Definition stays_below (fs fs' : FS) : Prop :=
  link_free fs -> link_free fs' /\
  forall q, ~ dir `prefix_of` q -> fs' !! q = fs !! q \/ (q `prefix_of` dir /\ fs !! q = None /\ fs' !! q = Some NDir).

#[local] Instance stays_refl : Reflexive stays_below.
Proof. intros fs Hl. split; [done|]. by left. Qed.
#[local] Instance stays_trans : Transitive stays_below.
Proof.
  intros f1 f2 f3 H12 H23 Hl. destruct (H12 Hl) as [Hl2 H2]. destruct (H23 Hl2) as [Hl3 H3]. split; [done|].
  intros q Hq. destruct (H2 q Hq) as [E2|(? & ? & E2)], (H3 q Hq) as [E3|(? & ? & E3)]; try congruence; eauto using eq_trans.
Qed.

Lemma stays_insert fs q n : (forall t, n <> NLink t) -> (dir `prefix_of` q \/ (q `prefix_of` dir /\ fs !! q = None /\ n = NDir)) ->
  stays_below fs (<[q := n]> fs).
Proof.
  intros Hn Hq Hl. split.
  - intros p t. destruct (decide (p = q)) as [->|Hne]; [rewrite lookup_insert_eq; naive_solver|].
    rewrite lookup_insert_ne by done. apply Hl.
  - intros p Hp. destruct (decide (p = q)) as [->|Hne]; [|left; by rewrite lookup_insert_ne].
    destruct Hq as [Hq|(? & ? & ->)]; [done|]. right. by rewrite lookup_insert_eq.
Qed.

Lemma mkdir_stays above rest fs n : above ++ rest = dir ++ n -> stays_below fs (mkdir_from denied above rest fs).1.
Proof.
  revert above fs. induction rest as [|s rest IH]; intros above fs He; simpl; [done|].
  assert (He' : (above ++ [s]) ++ rest = dir ++ n) by (by rewrite <- app_assoc).
  destruct (fs !! (above ++ [s])) as [[| |]|] eqn:Hs; [done|by apply IH|done|].
  destruct (denied _); [done|]. etrans; [|by apply IH]. apply stays_insert; [done|].
  destruct (prefix_weak_total (above ++ [s]) dir (dir ++ n)); eauto using prefix_app_r. by exists rest.
Qed.

Lemma Create_link_free p fs fs' r : link_free fs -> Create denied p fs = (fs', r) ->
  (exists e, r = Err e /\ fs' = fs) \/ (r = Ok p /\ (exists x, fs' = <[p := NFile x ""]> fs)).
Proof.
  intros Hl. unfold Create. rewrite follow_link_free by done.
  destruct (denied p); [naive_solver|]. destruct (fs !! p) as [[| |]|]; [naive_solver..|].
  destruct (is_dir fs (Dir p)); naive_solver.
Qed.

Lemma write_file_inv p exec c fs fs' r : link_free fs -> write_file denied p exec c fs = (fs', r) ->
  (fs' = fs /\ r <> None) \/
  (exists x w, fs' = <[p := NFile x w]> fs /\
    (r = None -> x = exec /\ w = tr_rest c /\ tr_end c = None /\ Z.of_nat (String.length (tr_rest c)) <= maxFileSize)).
Proof.
  intros Hl. unfold write_file. destruct (Create denied p fs) as [fs1 r1] eqn:Hc.
  destruct (Create_link_free _ _ _ _ Hl Hc) as [(e & -> & ->)|(-> & x & ->)]; [intros [= <- <-]; by left|].
  rewrite io_Copy_limit by first [apply Nat.lt_succ_diag_r|reflexivity].
  intros Hw. right. revert Hw.
  destruct (Z.of_nat _ <=? maxFileSize) eqn:Hlen.
  - destruct (tr_end c) as [e|] eqn:He; intros [= <- <-].
    + exists x, (tr_rest c). by rewrite alter_insert_eq.
    + boolp. exists exec, (tr_rest c). by rewrite insert_insert_eq.
  - generalize (str_take (Z.to_nat maxFileSize) (tr_rest c)). intros w [= <- <-]. exists x, w.
    rewrite alter_insert_eq. split; [reflexivity|discriminate].
Qed.

(** The archive has no links and no name that leads upwards. *)
Definition entry_ok (h : tar_entry) : Prop :=
  match h with
  | TarBroken _ => True
  | TarLink _ _ => False
  | TarDir name | TarFile name _ _ => Forall plain (Clean name)
  end.

Lemma untar_entry_stays h fs : entry_ok h -> stays_below fs (untar_entry denied dir h fs).1.
Proof.
  destruct h as [| |name x c|]; simpl; intros Hh; [done| | |done].
  - rewrite Join_plain by done. by eapply mkdir_stays.
  - rewrite Join_plain by done. intros Hl.
    destruct (write_file denied (dir ++ Clean name) x c fs) as [fs' r] eqn:Hw.
    destruct (write_file_inv _ _ _ _ _ _ Hl Hw) as [[-> _]|(y & w & -> & _)]; simpl; [by apply stays_refl|].
    revert Hl. apply stays_insert; [done|]. left. by apply prefix_app_r.
Qed.

Lemma untar_stays archive fs : Forall entry_ok archive -> stays_below fs (UntarToDir denied archive dir fs).1.
Proof.
  revert fs. induction archive as [|h archive IH]; intros fs Ha; simpl; [done|].
  apply Forall_cons in Ha as [Hh Ha]. assert (Hs := untar_entry_stays h fs Hh).
  destruct (untar_entry denied dir h fs) as [fs1 [e|]]; [done|]. etrans; [exact Hs|]. by apply IH.
Qed.

(** *** What is there afterwards *)

Lemma mkdir_keeps above rest fs p n : fs !! p = Some n -> (mkdir_from denied above rest fs).1 !! p = Some n.
Proof.
  revert above fs. induction rest as [|s rest IH]; intros above fs Hp; simpl; [done|].
  destruct (fs !! (above ++ [s])) as [[| |]|] eqn:Hs; [done|by apply IH|done|].
  destruct (denied _); [done|]. apply IH. rewrite lookup_insert_ne by congruence. done.
Qed.

Lemma untar_entry_keeps h fs p x d :
  link_free fs -> entry_ok h -> (forall name x c, h = TarFile name x c -> dir ++ Clean name <> p) ->
  fs !! p = Some (NFile x d) -> (untar_entry denied dir h fs).1 !! p = Some (NFile x d).
Proof.
  intros Hl Hh Hne Hp. destruct h as [|name|name y c|]; simpl in *; [done| | |done].
  - by apply mkdir_keeps.
  - rewrite Join_plain by done. destruct (write_file denied (dir ++ Clean name) y c fs) as [fs' r] eqn:Hw.
    destruct (write_file_inv _ _ _ _ _ _ Hl Hw) as [[-> _]|(z & w & -> & _)]; [done|].
    simpl. rewrite lookup_insert_ne; [done|]. by eapply Hne.
Qed.

Lemma untar_cons h archive fs fs' r : UntarToDir denied (h :: archive) dir fs = (fs', r) -> r = None ->
  exists fs1, untar_entry denied dir h fs = (fs1, None) /\ UntarToDir denied archive dir fs1 = (fs', None).
Proof. simpl. destruct (untar_entry denied dir h fs) as [fs1 [e|]]; intros Hu ->; [congruence|eauto]. Qed.

Lemma untar_keeps archive fs fs' p x d :
  link_free fs -> Forall entry_ok archive -> UntarToDir denied archive dir fs = (fs', None) ->
  (forall name x c, TarFile name x c ∈ archive -> dir ++ Clean name <> p) ->
  fs !! p = Some (NFile x d) -> fs' !! p = Some (NFile x d).
Proof.
  revert fs. induction archive as [|h archive IH]; intros fs Hl Ha Hu Hne Hp; [by injection Hu as <-|].
  apply Forall_cons in Ha as [Hh Ha]. destruct (untar_cons _ _ _ _ _ Hu eq_refl) as (fs1 & Hh1 & Hu1).
  assert (Hl1 := proj1 (untar_entry_stays h fs Hh Hl)).
  assert (Hk := untar_entry_keeps h fs p x d Hl Hh). rewrite Hh1 in *. simpl in *.
  apply (IH fs1); [done..| |].
  - intros name y c Hin. apply (Hne name y c). by right.
  - apply Hk; [|done]. intros name y c ->. apply (Hne name y c). by left.
Qed.

Lemma untar_writes a1 name x c a2 fs fs' :
  link_free fs -> Forall entry_ok (a1 ++ TarFile name x c :: a2) ->
  UntarToDir denied (a1 ++ TarFile name x c :: a2) dir fs = (fs', None) ->
  (forall n' x' c', TarFile n' x' c' ∈ a2 -> Clean n' <> Clean name) ->
  fs' !! (dir ++ Clean name) = Some (NFile x (tr_rest c)) /\ tr_end c = None /\
  Z.of_nat (String.length (tr_rest c)) <= maxFileSize.
Proof.
  revert fs. induction a1 as [|h a1 IH]; intros fs Hl Ha Hu Hne; rewrite ?app_nil_l, <- ?app_comm_cons in *;
    destruct (untar_cons _ _ _ _ _ Hu eq_refl) as (fs1 & Hh1 & Hu1); apply Forall_cons in Ha as [Hh Ha];
    assert (Hl1 := proj1 (untar_entry_stays _ fs Hh Hl)); rewrite Hh1 in Hl1; simpl in Hl1.
  - simpl in Hh1. rewrite Join_plain in Hh1 by done.
    destruct (write_file_inv _ _ _ _ _ _ Hl Hh1) as [[_ ?]|(y & w & -> & Hok)]; [done|].
    destruct (Hok eq_refl) as (-> & -> & He & Hlen). split; [|done].
    apply (untar_keeps a2 _ _ _ _ _ Hl1 Ha Hu1); [|by rewrite lookup_insert_eq].
    intros n' x' c' Hin Heq%app_inv_head. by apply (Hne n' x' c').
  - by apply (IH fs1).
Qed.

End untar.

(** ** Checksums *)

Lemma elem_of_below root fs p n : below root fs !! p = Some n <-> fs !! p = Some n /\ root `prefix_of` p.
Proof. unfold below. apply map_lookup_filter_Some. Qed.

Lemma elem_of_Walk fs root p : p ∈ Walk fs root <-> is_Some (fs !! p) /\ root `prefix_of` p.
Proof.
  unfold Walk. rewrite merge_sort_Permutation, list_elem_of_fmap. split.
  - intros [[q n] [-> Hq]]. apply elem_of_map_to_list, elem_of_below in Hq as [Hq ?]. eauto.
  - intros [[n Hn] Hp]. exists (p, n). split; [done|]. by apply elem_of_map_to_list, elem_of_below.
Qed.

Lemma below_lookup root fs fs' p : below root fs = below root fs' -> root `prefix_of` p -> fs !! p = fs' !! p.
Proof.
  intros Hb Hp. apply option_eq. intros n. assert (Hn := elem_of_below root fs p n). rewrite Hb, elem_of_below in Hn. naive_solver.
Qed.

(** The sum depends only on what is in the directory. *)
Lemma RecursiveSum_local `{SH : Sha512} denied fs fs' root skip :
  link_free fs -> link_free fs' -> below root fs = below root fs' -> RecursiveSum denied fs root skip = RecursiveSum denied fs' root skip.
Proof.
  intros Hl Hl' Hb. unfold RecursiveSum. rewrite <- (below_lookup root fs fs' root Hb) by done.
  replace (Walk fs' root) with (Walk fs root) by (unfold Walk; by rewrite Hb).
  assert (Hps : forall ps, (forall p, p ∈ ps -> root `prefix_of` p) -> sum_files denied fs root skip ps = sum_files denied fs' root skip ps).
  { induction ps as [|p ps IH]; intros Hps; simpl; [done|].
    assert (Hp : fs !! p = fs' !! p) by (apply (below_lookup root); [done|apply Hps; left]).
    rewrite IH by (intros q Hq; apply Hps; by right). f_equal.
    unfold sum_step, ReadFile. rewrite !follow_link_free by done. simpl. by rewrite Hp. }
  destruct (decide _); [|done]. by rewrite Hps by (intros p Hp; by apply elem_of_Walk in Hp as []).
Qed.

Section archives.
Variable denied : path -> bool.
Context `{SH : Sha512}.

(** Copying a file of an archive ends and brings the whole content exactly when it has at most
    1 GB; of a larger file the first 1 GB arrives, with an error. *)
Theorem limited_copy tr :
  io_Copy (S (String.length (tr_rest tr))) (mkLimitReader tr maxFileSize) =
    Some (if Z.of_nat (String.length (tr_rest tr)) <=? maxFileSize then (tr_rest tr, tr_end tr)
          else (str_take (Z.to_nat maxFileSize) (tr_rest tr), Some ErrFileTooLarge)).
Proof. apply io_Copy_limit; [apply Nat.lt_succ_diag_r|reflexivity]. Qed.

(** Unpacking an archive without links and without names that lead upwards changes nothing
    outside the directory except for creating the missing directories above it, whether it
    succeeds or not; when it succeeds every file of the archive is there with its content and
    mode, unless a later entry has the same name. *)
Theorem archive_unpacked archive dir fs fs' r :
  Forall plain dir -> Forall entry_ok archive -> link_free fs -> UntarToDir denied archive dir fs = (fs', r) ->
  (forall q, ~ dir `prefix_of` q -> fs' !! q = fs !! q \/ (q `prefix_of` dir /\ fs !! q = None /\ fs' !! q = Some NDir)) /\
  (r = None -> forall a1 name x c a2, archive = a1 ++ TarFile name x c :: a2 ->
     (forall n' x' c', TarFile n' x' c' ∈ a2 -> Clean n' <> Clean name) ->
     fs' !! (dir ++ Clean name) = Some (NFile x (tr_rest c)) /\ tr_end c = None).
Proof.
  intros Hd Ha Hl Hu. split.
  - assert (Hs := untar_stays denied dir Hd archive fs Ha Hl). rewrite Hu in Hs. apply Hs.
  - intros -> a1 name x c a2 -> Hne. destruct (untar_writes denied dir Hd a1 name x c a2 fs fs') as (? & ? & _); done.
Qed.

End archives.

(** ** Examples *)

Definition ex_bytes (s : string) : tar_reader := mkTarReader s None.
Definition ex_fs : FS := <[["updates"] := NDir]> ∅.
Definition ex_archive : list tar_entry :=
  [TarDir "."; TarFile "bridge" true (ex_bytes "exe"); TarDir "lib/"; TarFile "lib/./a" false (ex_bytes "a")].

#[global] Instance plain_dec s : Decision (plain s).
Proof. unfold plain. apply _. Defined.
#[global] Instance entry_ok_dec h : Decision (entry_ok h).
Proof. destruct h; simpl; apply _. Defined.

Lemma ex_link_free : link_free ex_fs.
Proof. intros p t. unfold ex_fs. rewrite lookup_insert_Some, lookup_empty. naive_solver. Qed.

Lemma archive_unpacked_witness : exists fs',
  UntarToDir (fun _ => false) ex_archive ["updates"; "3.1.0"] ex_fs = (fs', None) /\
  fs' !! ["updates"; "3.1.0"; "lib"; "a"] = Some (NFile false "a").
Proof.
  destruct (UntarToDir (fun _ => false) ex_archive ["updates"; "3.1.0"] ex_fs) as [fs' r] eqn:Hu.
  assert (Hr : r = None) by (change r with (fs', r).2; rewrite <- Hu; vm_compute; reflexivity). subst r.
  exists fs'. split; [reflexivity|].
  refine (proj1 (proj2 (archive_unpacked (fun _ => false) ex_archive ["updates"; "3.1.0"] ex_fs fs' None _ _ ex_link_free Hu) eq_refl
    [TarDir "."; TarFile "bridge" true (ex_bytes "exe"); TarDir "lib/"] "lib/./a" false (ex_bytes "a") [] eq_refl _)).
  - apply (bool_decide_eq_true_1 _). vm_compute. reflexivity.
  - apply (bool_decide_eq_true_1 _). vm_compute. reflexivity.
  - intros ? ? ? H. apply elem_of_nil in H. destruct H.
Defined.

(** Cleaning a name does not keep it inside of the directory. *)
Example name_leads_out :
  (UntarToDir (fun _ => false) [TarFile "../evil" true (ex_bytes "x")] ["updates"] ex_fs).1 !! ["evil"] = Some (NFile true "x").
Proof. vm_compute. reflexivity. Qed.

(** Names and contents are hashed without separators: different directories have the same sum. *)
Definition ex_tree (files : list (string * string)) : FS :=
  list_to_map ((["d"], NDir) :: ((fun '(n, c) => (["d"; n], NFile false c)) <$> files)).
Example different_trees_same_sum (SH : Sha512) :
  RecursiveSum (fun _ => false) (ex_tree [("ab", "c")]) ["d"] ".sum" = RecursiveSum (fun _ => false) (ex_tree [("a", "bc")]) ["d"] ".sum".
Proof. vm_compute. reflexivity. Qed.
