(* ===== verification/Versions.v ===== *)
(** * Installed versions (internal/versioner, cmd/launcher)

    An update is unpacked into a directory named after its version below the directory of
    the updates.  The versioner lists these directories, verifies and removes them; the
    launcher starts the highest verified version that is newer than itself.

    Versions ([SemVer]) and signatures ([Signing]) are third-party code.  The code
    is that of Linux, where the versioner is used (macOS replaces the application in
    place). *)

From S2P Require Import Prelude.
From S2P Require Import Strings.
From S2P Require Import Effects.
From S2P Require Import UserEvents.
From S2P Require Import Files.
From S2P Require Vault.

(** Semantic versions: [Compare] disregards the metadata of a build, so different versions can
    be equal. *)
Class SemVer : Type := {
  Ver : Type;
  Compare : Ver -> Ver -> comparison;
  StrictNewVersion : string -> option Ver;
  Original : Ver -> string;
  zero_version : Ver
}.

Class SemVerLaws `{SemVer} : Prop := {
  Compare_opp : forall a b, Compare b a = CompOpp (Compare a b);
  Compare_le_trans : forall a b c, Compare a b <> Gt -> Compare b c <> Gt -> Compare a c <> Gt
}.

(** Detached signatures by the key of the updates. *)
Class Signing : Type := VerifyDetached : string -> string -> option err.

Section versions.
Context `{SV : SemVer}.

Definition Equal (a b : Ver) : bool := match Compare a b with Eq => true | _ => false end.
Definition LessThan (a b : Ver) : bool := match Compare a b with Lt => true | _ => false end.
Definition GreaterThan (a b : Ver) : bool := match Compare a b with Gt => true | _ => false end.

(** ** The versioner *)

Context `{SG : Signing, SH : Sha512, SO : SortLess}.

(** What the system answers besides the files: refused paths and the path of the running
    executable. *)
Record sys_env : Type := mkSysEnv { sys_denied : path -> bool; sys_executable : result err path }.

(** [Versioner.root]. *)
Variable root : path.

(** [Version]. *)
Record Version : Type := mkVersion { v_version : Ver; v_path : path }.

Definition Less (a b : Version) : bool := LessThan (v_version a) (v_version b).
Definition HasVersion (vs : list Version) (want : Ver) : bool := existsb (fun v => Equal (v_version v) want) vs.

(** [sort.Reverse] swaps the arguments of [Less]. *)
Definition ListVersions (env : sys_env) (fs : FS) : result err (list Version) :=
  dirs ← ReadDir (sys_denied env) fs root;
  Ok (sort_Sort (fun a b => Less b a)
       (omap (fun name => (fun v => mkVersion v (root ++ [name])) <$> StrictNewVersion name) dirs)).

Definition sumFile : string := ".sum".
Definition sigFile : string := ".sig".
Definition err_sum_mismatch : err := ErrOther "sum mismatch".

Definition VerifyUpdateFolder (env : sys_env) (fs : FS) (p : path) : option err :=
  let r :=
    fileBytes ← ReadFile (sys_denied env) fs (p ++ [sumFile]);
    sigBytes ← ReadFile (sys_denied env) fs (p ++ [sumFile +:+ sigFile]);
    (match VerifyDetached fileBytes sigBytes with Some e => Err e | None => Ok () end) ≫= fun _ =>
    sum ← RecursiveSum (sys_denied env) fs p sumFile;
    (if String.eqb sum fileBytes then Ok () else Err err_sum_mismatch)
  in match r with Ok _ => None | Err e => Some e end.

Definition VerifyFiles (env : sys_env) (fs : FS) (v : Version) : option err := VerifyUpdateFolder env fs (v_path v).

(** A directory has the bits of an executable. *)
Definition fileExists (fs : FS) (p : path) : bool := is_ok (Stat fs p).
Definition fileIsExecutable (fs : FS) (p : path) : bool :=
  match Stat fs p with Ok (NFile exec _) => exec | Ok _ => true | Err _ => false end.
Definition ErrNoExecutable : err := ErrOther "no executable found".
Definition getExeName (name : string) : string := name.
Definition getExecutableInDirectory (fs : FS) (name : string) (directory : path) : result err path :=
  let exe := directory ++ [getExeName name] in
  if negb (fileExists fs exe) || negb (fileIsExecutable fs exe) then Err ErrNoExecutable else Ok exe.
Definition GetExecutable (fs : FS) (v : Version) (name : string) : result err path := getExecutableInDirectory fs name (v_path v).

(** Errors of removing are logged. *)
Definition remove_logged (env : sys_env) (fs : FS) (p : path) : FS := (RemoveAll (sys_denied env) p fs).1.
Definition remove_each (env : sys_env) (vs : list Version) (fs : FS) : FS :=
  foldl (fun fs v => remove_logged env fs (v_path v)) fs vs.

Definition RemoveOldVersions (env : sys_env) (fs : FS) : FS * option err :=
  match ListVersions env fs with
  | Err e => (fs, Some e)
  | Ok versions => (remove_each env (drop 1 versions) fs, None)
  end.

(** The paths are compared as strings. *)
Definition ErrNoRemoveBase : err := ErrOther "can't remove base version".
Definition abs_string (p : path) : string := "/" +:+ path_string p.
Definition RemoveCurrentVersion (env : sys_env) (fs : FS) : FS * option err :=
  match sys_executable env with
  | Err e => (fs, Some e)
  | Ok exec =>
      if negb (has_prefix (abs_string root) (abs_string exec)) then (fs, Some ErrNoRemoveBase)
      else RemoveAll (sys_denied env) (Dir exec) fs
  end.

(** [semver.MustParse(constants.Version)] is the argument [current]. *)
Definition remove_other (env : sys_env) (versionToKeep current : Ver) (fs : FS) (v : Version) : FS :=
  if Equal (v_version v) versionToKeep then fs
  else if Equal (v_version v) current then (RemoveCurrentVersion env fs).1
  else remove_logged env fs (v_path v).

Definition RemoveOtherVersions (env : sys_env) (versionToKeep current : Ver) (fs : FS) : FS * option err :=
  match ListVersions env fs with
  | Err e => (fs, Some e)
  | Ok versions => (foldl (remove_other env versionToKeep current) fs versions, None)
  end.

(** Reading the package fails at once when it is not compressed with gzip. *)
Definition InstallNewVersion (env : sys_env) (version : Ver) (package : result err (list tar_entry)) (fs : FS) : FS * option err :=
  match package with
  | Err e => (fs, Some e)
  | Ok archive => UntarToDir (sys_denied env) archive (root ++ Clean (Original version)) fs
  end.

(** ** The executable the launcher starts (cmd/launcher/main.go) *)

Definition err_no_newer : err := ErrOther "no available newer versions".

Fixpoint pick_executable (env : sys_env) (name : string) (current : option Ver) (versions : list Version) (fs : FS) : FS * result err path :=
  match versions with
  | [] => (fs, Err err_no_newer)
  | v :: versions =>
      match VerifyFiles env fs v with
      | Some _ => pick_executable env name current versions (remove_logged env fs (v_path v))
      | None =>
          if match current with Some cur => negb (GreaterThan (v_version v) cur) | None => false end
          then pick_executable env name current versions fs
          else match GetExecutable fs v name with
               | Err _ => pick_executable env name current versions fs
               | Ok exe => (fs, Ok exe)
               end
      end
  end.

(** [constants.Version] may not parse: then every version counts as newer. *)
Definition getPathToUpdatedExecutable (env : sys_env) (name : string) (current : option Ver) (fs : FS) : FS * result err path :=
  match ListVersions env fs with
  | Err e => (fs, Err (ErrWrap "failed to list available versions" e))
  | Ok versions => pick_executable env name current versions fs
  end.

End versions.

(** ** Lists of versions *)

Section lists.
Context `{SV : SemVer} {SL : SemVerLaws} `{SO : SortLess}.
Variable root : path.

Lemma Compare_eq_sym a b : Compare a b = Eq -> Compare b a = Eq.
Proof. intros H. by rewrite Compare_opp, H. Qed.

Lemma not_less a b : LessThan a b = false <-> Compare a b <> Lt.
Proof. unfold LessThan. destruct (Compare a b); naive_solver. Qed.

Lemma Compare_ge_trans a b c : Compare a b <> Lt -> Compare b c <> Lt -> Compare a c <> Lt.
Proof.
  intros Hab Hbc Hac. apply (Compare_le_trans c b a).
  - intros Hcb. apply Hbc. by rewrite Compare_opp, Hcb.
  - intros Hba. apply Hab. by rewrite Compare_opp, Hba.
  - by rewrite Compare_opp, Hac.
Qed.

(** Each version of a sorted list is at least as high as the following ones. *)
Definition descending (vs : list Version) : Prop := StronglySorted (fun a b => Compare (v_version a) (v_version b) <> Lt) vs.

Lemma sort_descending vs : descending (sort_Sort (fun a b => Less b a) vs).
Proof.
  assert (Hs := sort_Sort_sorted (fun a b => Less b a) vs). unfold descending.
  eapply StronglySorted_impl; [|apply Hs].
  - intros x y. unfold Less. by rewrite not_less.
  - unfold Less, LessThan. intros x y. rewrite (Compare_opp (v_version y) (v_version x)).
    destruct (Compare (v_version y) (v_version x)); simpl; done.
  - intros x y z. unfold Less. rewrite !not_less. apply Compare_ge_trans.
Qed.

Lemma child_of_Some p q n : child_of p q = Some n <-> q = p ++ [n].
Proof.
  unfold child_of. split.
  - destruct (last q); [|done]. case_bool_decide; naive_solver.
  - intros ->. rewrite last_snoc. by rewrite bool_decide_eq_true_2.
Qed.

Lemma elem_of_ReadDir denied fs p names n : ReadDir denied fs p = Ok names -> n ∈ names <-> is_Some (fs !! (p ++ [n])).
Proof.
  unfold ReadDir. destruct (denied p); [done|]. destruct (fs !! p) as [[| |]|]; try done. intros [= <-].
  rewrite merge_sort_Permutation, list_elem_of_omap. split.
  - intros ([q m] & Hq & Hc). apply child_of_Some in Hc as ->. apply elem_of_map_to_list in Hq. eauto.
  - intros [m Hm]. exists (p ++ [n], m). rewrite child_of_Some. split; [by apply elem_of_map_to_list|done].
Qed.

Lemma NoDup_ReadDir denied fs p names : ReadDir denied fs p = Ok names -> NoDup names.
Proof.
  unfold ReadDir. destruct (denied p); [done|]. destruct (fs !! p) as [[| |]|]; try done. intros [= <-].
  rewrite merge_sort_Permutation. assert (Hd := NoDup_fst_map_to_list fs).
  induction (map_to_list fs) as [|[q m] l IH]; simpl; [constructor|].
  apply NoDup_cons in Hd as [Hq Hd]. specialize (IH Hd).
  destruct (child_of p q) as [n|] eqn:Hc; [|done]. apply NoDup_cons. split; [|done].
  rewrite list_elem_of_omap. intros ([q' m'] & Hin & Hc'). apply child_of_Some in Hc, Hc'. subst.
  apply Hq. apply list_elem_of_fmap. by exists (p ++ [n], m').
Qed.

Definition version_at (name : string) : option Version := (fun v => mkVersion v (root ++ [name])) <$> StrictNewVersion name.

Lemma ListVersions_spec env fs vs : ListVersions root env fs = Ok vs ->
  descending vs /\ NoDup (v_path <$> vs) /\
  forall v, v ∈ vs <-> exists name, is_Some (fs !! (root ++ [name])) /\ version_at name = Some v.
Proof.
  unfold ListVersions. intros (names & Hn & [= <-])%result_bind_Ok. split; [apply sort_descending|]. split.
  - rewrite sort_Sort_perm. apply NoDup_ReadDir in Hn. induction Hn as [|n names Hin _ IH]; simpl; [constructor|].
    destruct (StrictNewVersion n) as [v|] eqn:Hv; simpl; [|done]. apply NoDup_cons. split; [|done].
    rewrite list_elem_of_fmap. intros (w & Hp & (m & Hm & Hw)%list_elem_of_omap).
    destruct (StrictNewVersion m) as [u|]; simplify_eq/=. done.
  - intros v. rewrite sort_Sort_perm, list_elem_of_omap. setoid_rewrite (elem_of_ReadDir _ _ _ _ _ Hn). done.
Qed.

Lemma version_at_path name v : version_at name = Some v -> v_path v = root ++ [name].
Proof. unfold version_at. destruct (StrictNewVersion name); naive_solver. Qed.

(** Different versions of the list are in directories that do not overlap. *)
Definition apart (p q : path) : Prop := ~ p `prefix_of` q /\ ~ q `prefix_of` p.
Lemma siblings_apart a b : a <> b -> apart (root ++ [a]) (root ++ [b]).
Proof.
  intros Hne. split; intros [k Hk]; rewrite <- app_assoc in Hk; apply app_inv_head in Hk; by destruct k; simplify_eq/=.
Qed.

Lemma listed_apart env fs vs v w : ListVersions root env fs = Ok vs -> v ∈ vs -> w ∈ vs -> v_path v <> v_path w -> apart (v_path v) (v_path w).
Proof.
  intros Hl Hv Hw Hne. apply ListVersions_spec in Hl as (_ & _ & Hs).
  apply Hs in Hv as (a & _ & Ha). apply Hs in Hw as (b & _ & Hb).
  apply version_at_path in Ha, Hb. rewrite Ha, Hb in *. apply siblings_apart. congruence.
Qed.

(** ** Removing *)

Lemma remove_logged_lookup env fs p q : remove_logged env fs p !! q = if decide (sys_denied env p = false /\ p `prefix_of` q) then None else fs !! q.
Proof.
  unfold remove_logged, RemoveAll. destruct (sys_denied env p) eqn:Hd; cbn [fst].
  { destruct (decide _) as [[? _]|_]; [congruence|done]. }
  destruct (decide _) as [[_ Hp]|Hn].
  - apply map_lookup_filter_None. right. naive_solver.
  - destruct (fs !! q) as [n|] eqn:Hq; [apply map_lookup_filter_Some|apply map_lookup_filter_None]; naive_solver.
Qed.

Lemma remove_logged_link_free env fs p : link_free fs -> link_free (remove_logged env fs p).
Proof. intros Hl q t. rewrite remove_logged_lookup. destruct (decide _); [done|apply Hl]. Qed.

Lemma remove_logged_below env fs p q : apart p q -> below q (remove_logged env fs p) = below q fs.
Proof.
  intros [H1 H2]. apply map_eq. intros k. apply option_eq. intros n. rewrite !elem_of_below, remove_logged_lookup.
  destruct (decide _) as [[_ Hp]|_]; [|done]. split; [naive_solver|]. intros [_ Hq].
  destruct (prefix_weak_total p q k Hp Hq); done.
Qed.

Lemma remove_each_lookup env vs fs q :
  remove_each env vs fs !! q =
    if decide (Exists (fun v => sys_denied env (v_path v) = false /\ v_path v `prefix_of` q) vs) then None else fs !! q.
Proof.
  unfold remove_each. revert fs. induction vs as [|v vs IH]; intros fs; cbn [foldl].
  - destruct (decide _) as [H|_]; [by apply Exists_nil in H|done].
  - rewrite IH, remove_logged_lookup. repeat destruct (decide _); rewrite Exists_cons in *; naive_solver.
Qed.

End lists.

(** ** What is started and what is kept *)

Section launching.
Context `{SV : SemVer} {SL : SemVerLaws} `{SG : Signing, SH : Sha512, SO : SortLess}.
Variable root : path.

Lemma ReadFile_local denied fs fs' root' p :
  link_free fs -> link_free fs' -> below root' fs = below root' fs' -> root' `prefix_of` p -> ReadFile denied fs p = ReadFile denied fs' p.
Proof. intros Hl Hl' Hb Hp. unfold ReadFile. rewrite !follow_link_free by done. simpl. by rewrite (below_lookup root' fs fs'). Qed.

Lemma VerifyFiles_local env fs fs' v :
  link_free fs -> link_free fs' -> below (v_path v) fs = below (v_path v) fs' -> VerifyFiles env fs v = VerifyFiles env fs' v.
Proof.
  intros Hl Hl' Hb. unfold VerifyFiles, VerifyUpdateFolder.
  rewrite !(ReadFile_local (sys_denied env) fs fs' (v_path v)) by (done || by apply prefix_app_r).
  by rewrite (RecursiveSum_local (sys_denied env) fs fs').
Qed.

Lemma GetExecutable_local fs fs' v name :
  link_free fs -> link_free fs' -> below (v_path v) fs = below (v_path v) fs' -> GetExecutable fs v name = GetExecutable fs' v name.
Proof.
  intros Hl Hl' Hb. unfold GetExecutable, getExecutableInDirectory, fileExists, fileIsExecutable, Stat.
  rewrite !follow_link_free by done. simpl. by rewrite (below_lookup (v_path v) fs fs') by (done || by apply prefix_app_r).
Qed.

(** [v] is verified, newer than the launcher and has the executable. *)
Definition newer (current : option Ver) (v : Version) : bool :=
  match current with Some cur => GreaterThan (v_version v) cur | None => true end.
Definition launchable (env : sys_env) (fs : FS) (name : string) (current : option Ver) (v : Version) : bool :=
  match VerifyFiles env fs v with
  | Some _ => false
  | None => newer current v && is_ok (GetExecutable fs v name)
  end.

Lemma launchable_local env fs fs' name current v :
  link_free fs -> link_free fs' -> below (v_path v) fs = below (v_path v) fs' -> launchable env fs name current v = launchable env fs' name current v.
Proof. intros Hl Hl' Hb. unfold launchable. by rewrite (VerifyFiles_local env fs fs'), (GetExecutable_local fs fs') by done. Qed.

Definition picked (env : sys_env) (fs : FS) (name : string) (current : option Ver) (vs : list Version) : result err path :=
  match find_first (launchable env fs name current) vs with Some v => GetExecutable fs v name | None => Err err_no_newer end.

(** Only directories that are not verified were removed. *)
Definition unverified_gone (env : sys_env) (vs : list Version) (fs fs' : FS) : Prop :=
  forall q, fs' !! q = fs !! q \/ (fs' !! q = None /\ exists v, v ∈ vs /\ VerifyFiles env fs v <> None /\ v_path v `prefix_of` q).

Definition all_apart (vs : list Version) : Prop :=
  forall v w, v ∈ vs -> w ∈ vs -> v_path v <> v_path w -> apart (v_path v) (v_path w).

Lemma find_first_ext {A} (p p' : A -> bool) l : (forall x, x ∈ l -> p x = p' x) -> find_first p l = find_first p' l.
Proof.
  induction l as [|x l IH]; intros Hp; simpl; [done|].
  rewrite (Hp x) by left. destruct (p' x); [done|]. apply IH. intros y Hy. apply Hp. by right.
Qed.

Lemma picked_local env fs fs' name current vs :
  link_free fs -> link_free fs' -> (forall v, v ∈ vs -> below (v_path v) fs = below (v_path v) fs') ->
  picked env fs name current vs = picked env fs' name current vs.
Proof.
  intros Hl Hl' Hb. unfold picked.
  rewrite (find_first_ext (launchable env fs name current) (launchable env fs' name current))
    by (intros v Hv; apply launchable_local; auto).
  destruct (find_first _ vs) as [v|] eqn:Hf; [|done]. apply find_first_Some in Hf as [Hv _]. apply GetExecutable_local; auto.
Qed.

Lemma unverified_gone_cons env v vs fs fs' : unverified_gone env vs fs fs' -> unverified_gone env (v :: vs) fs fs'.
Proof.
  intros Hg q. destruct (Hg q) as [?|(? & w & ? & ?)]; [by left|right]. split; [done|]. exists w. split; [by right|done].
Qed.

Lemma unverified_gone_remove env v vs fs fs' :
  VerifyFiles env fs v <> None ->
  (forall w, w ∈ vs -> VerifyFiles env (remove_logged env fs (v_path v)) w = VerifyFiles env fs w) ->
  unverified_gone env vs (remove_logged env fs (v_path v)) fs' -> unverified_gone env (v :: vs) fs fs'.
Proof.
  intros Hv Hw Hg q. destruct (Hg q) as [->|(Hn & w & Hin & Hver & Hpre)].
  - rewrite remove_logged_lookup. destruct (decide _) as [[_ Hpre]|_]; [right|by left].
    split; [done|]. exists v. split; [by left|done].
  - right. split; [done|]. exists w. split; [by right|]. by rewrite <- Hw.
Qed.

Lemma all_apart_cons v vs : NoDup (v_path <$> v :: vs) -> all_apart (v :: vs) ->
  all_apart vs /\ forall w, w ∈ vs -> apart (v_path v) (v_path w).
Proof.
  intros [Hv _]%NoDup_cons Ha. split; [intros u w Hu Hw; apply Ha; by right|].
  intros w Hw. apply Ha; [by left|by right|]. intros Heq. apply Hv. rewrite Heq. by apply list_elem_of_fmap_2.
Qed.

Lemma picked_cons env fs name current v vs :
  picked env fs name current (v :: vs) =
    if launchable env fs name current v then GetExecutable fs v name else picked env fs name current vs.
Proof. unfold picked. simpl. by destruct (launchable env fs name current v). Qed.

Lemma pick_spec env name current vs fs fs' r :
  link_free fs -> NoDup (v_path <$> vs) -> all_apart vs ->
  pick_executable env name current vs fs = (fs', r) ->
  r = picked env fs name current vs /\ unverified_gone env vs fs fs'.
Proof.
  revert fs. induction vs as [|v vs IH]; intros fs Hl Hnd Hap; cbn [pick_executable].
  { intros [= <- <-]. split; [done|]. by left. }
  destruct (all_apart_cons v vs Hnd Hap) as [Htail Hap']. apply NoDup_cons in Hnd as [_ Hnd].
  assert (Hrest : pick_executable env name current vs fs = (fs', r) -> launchable env fs name current v = false ->
    r = picked env fs name current (v :: vs) /\ unverified_gone env (v :: vs) fs fs').
  { intros Hp Hnot. destruct (IH fs Hl Hnd Htail Hp) as [-> Hg].
    rewrite picked_cons, Hnot. split; [done|]. by apply unverified_gone_cons. }
  revert Hrest. rewrite picked_cons. unfold launchable, newer. destruct (VerifyFiles env fs v) as [e|] eqn:Hver; intros Hrest.
  - intros Hp. assert (Hl1 := remove_logged_link_free env fs (v_path v) Hl).
    assert (Hb : forall w, w ∈ vs -> below (v_path w) (remove_logged env fs (v_path v)) = below (v_path w) fs)
      by (intros w Hw; by apply remove_logged_below, Hap').
    destruct (IH _ Hl1 Hnd Htail Hp) as [-> Hg]. split; [by apply picked_local|].
    apply unverified_gone_remove; [congruence| |done]. intros w Hw. by apply VerifyFiles_local, Hb.
  - destruct (match current with Some cur => negb (GreaterThan (v_version v) cur) | None => false end) eqn:Hold.
    + intros Hp. destruct current as [cur|]; [|done]. apply negb_true_iff in Hold. rewrite Hold in *. by apply Hrest.
    + replace (match current with Some cur => GreaterThan (v_version v) cur | None => true end) with true in *
        by (destruct current; [by apply negb_false_iff in Hold|done]).
      destruct (GetExecutable fs v name) as [exe|e] eqn:He; simpl in *; [|by intros Hp; apply Hrest].
      intros [= <- <-]. split; [done|]. by left.
Qed.

Lemma find_first_descending {p : Version -> bool} vs v w :
  descending vs -> find_first p vs = Some v -> w ∈ vs -> p w = true -> Compare (v_version v) (v_version w) <> Lt.
Proof.
  intros Hd. induction Hd as [|x vs Hd IH Hx]; simpl; [done|].
  destruct (p x) eqn:Hpx.
  - intros [= ->] [->|Hw]%elem_of_cons Hpw.
    + assert (Ho := Compare_opp (v_version v) (v_version v)). by destruct (Compare (v_version v) (v_version v)).
    + by apply (proj1 (Forall_forall _ _) Hx).
  - intros Hf [->|Hw]%elem_of_cons Hpw; [congruence|by apply IH].
Qed.

Lemma listed_all_apart env fs vs : ListVersions root env fs = Ok vs -> all_apart vs.
Proof. intros Hl v w Hv Hw. by apply (listed_apart root env fs vs). Qed.

(** C14: The launcher starts the executable of a version that is verified and newer than itself, and
    no such version is higher; it finds none exactly when there is none.  The only directories it
    removes are those of versions that are not verified. *)
Theorem launcher_starts_highest env fs name current vs fs' r :
  link_free fs -> ListVersions root env fs = Ok vs ->
  getPathToUpdatedExecutable root env name current fs = (fs', r) ->
  (forall exe, r = Ok exe -> exists v, v ∈ vs /\ launchable env fs name current v = true /\ GetExecutable fs v name = Ok exe /\
     forall w, w ∈ vs -> launchable env fs name current w = true -> Compare (v_version v) (v_version w) <> Lt) /\
  (is_ok r = false <-> forall v, v ∈ vs -> launchable env fs name current v = false) /\
  unverified_gone env vs fs fs'.
Proof.
  intros Hl Hv. unfold getPathToUpdatedExecutable. rewrite Hv. intros Hp.
  destruct (ListVersions_spec root env fs vs Hv) as (Hd & Hnd & _).
  destruct (pick_spec _ _ _ _ _ _ _ Hl Hnd (listed_all_apart _ _ _ Hv) Hp) as [-> Hg].
  split; [|split; [|done]]; unfold picked; destruct (find_first _ vs) as [v|] eqn:Hf.
  - intros exe He. apply find_first_Some in Hf as Hv'. exists v. destruct Hv' as [Hin Hla]. repeat split; [done..|].
    intros w Hw. by apply (find_first_descending vs v w Hd Hf).
  - done.
  - apply find_first_Some in Hf as [Hin Hla]. split; intros H.
    + unfold launchable in Hla. destruct (VerifyFiles env fs v); [done|]. by rewrite H, andb_false_r in Hla.
    + specialize (H v Hin). congruence.
  - split; [|done]. intros _. by apply find_first_None.
Qed.

(** Removing old versions keeps the highest of the versions below the root as it is, removes the
    directories of all others unless the system refuses, and changes nothing else. *)
Theorem RemoveOldVersions_keeps_highest env fs vs :
  ListVersions root env fs = Ok vs -> vs <> [] ->
  exists v fs', RemoveOldVersions root env fs = (fs', None) /\ v ∈ vs /\
    (forall w, w ∈ vs -> Compare (v_version v) (v_version w) <> Lt) /\
    (forall q, v_path v `prefix_of` q -> fs' !! q = fs !! q) /\
    (forall q w, w ∈ vs -> w <> v -> sys_denied env (v_path w) = false -> v_path w `prefix_of` q -> fs' !! q = None) /\
    (forall q, (forall w, w ∈ vs -> ~ v_path w `prefix_of` q) -> fs' !! q = fs !! q).
Proof.
  intros Hv Hne. destruct (ListVersions_spec root env fs vs Hv) as (Hd & Hnd & _).
  unfold RemoveOldVersions. rewrite Hv. destruct vs as [|v vs]; [done|]. cbn [drop].
  destruct (all_apart_cons v vs Hnd (listed_all_apart _ _ _ Hv)) as [_ Hap].
  exists v, (remove_each env vs fs). split; [done|]. split; [by left|]. split; [|repeat split].
  - intros w Hw. apply (find_first_descending (p := fun _ => true) (v :: vs) v w Hd eq_refl Hw eq_refl).
  - intros q Hq. rewrite remove_each_lookup. destruct (decide _) as [He|_]; [exfalso|done].
    apply Exists_exists in He as (w & Hw & _ & Hwq). destruct (Hap w Hw) as [H1 H2].
    destruct (prefix_weak_total _ _ _ Hq Hwq); done.
  - intros q w [->|Hw]%elem_of_cons Hwv Hden Hq; [done|]. rewrite remove_each_lookup.
    destruct (decide _) as [_|Hn]; [done|]. exfalso. apply Hn, Exists_exists. eauto.
  - intros q Hq. rewrite remove_each_lookup. destruct (decide _) as [He|_]; [exfalso|done].
    apply Exists_exists in He as (w & Hw & _ & Hwq). apply (Hq w); [by right|done].
Qed.

(** A directory is verified exactly when its list of sums is signed with the key of the updates
    and is the sum of its other files. *)
Theorem VerifyUpdateFolder_iff env fs p :
  VerifyUpdateFolder env fs p = None <->
  exists sums sig, ReadFile (sys_denied env) fs (p ++ [sumFile]) = Ok sums /\ ReadFile (sys_denied env) fs (p ++ [".sum.sig"]) = Ok sig /\
    VerifyDetached sums sig = None /\ RecursiveSum (sys_denied env) fs p sumFile = Ok sums.
Proof.
  unfold VerifyUpdateFolder. change (sumFile +:+ sigFile) with ".sum.sig".
  destruct (ReadFile _ _ (p ++ [sumFile])) as [sums|] eqn:H1; simpl; [|naive_solver].
  destruct (ReadFile _ _ (p ++ [".sum.sig"])) as [sig|] eqn:H2; simpl; [|naive_solver].
  destruct (VerifyDetached sums sig) eqn:H3; simpl; [naive_solver|].
  destruct (RecursiveSum _ _ _ _) as [s|] eqn:H4; simpl; [|naive_solver].
  destruct (String.eqb s sums) eqn:H5; simpl; boolp; naive_solver.
Qed.

End launching.

(** ** Examples *)

(** Versions of three numbers, compared through one key. *)
Definition ex_key (v : string * Z) : Z := v.2.
Definition ex_parse (s : string) : option (string * Z) :=
  match Split (Ascii.ascii_of_nat 46) s with
  | [a; b; c] => x ← Vault.digits a; y ← Vault.digits b; z ← Vault.digits c; Some (s, x * 2 ^ 80 + y * 2 ^ 40 + z)
  | _ => None
  end.
Definition ex_semver : SemVer :=
  {| Ver := string * Z; Compare := fun a b => Z.compare (ex_key a) (ex_key b); StrictNewVersion := ex_parse;
     Original := fst; zero_version := ("", 0) |}.
Lemma ex_semver_laws : @SemVerLaws ex_semver.
Proof. split; simpl; intros; [apply Z.compare_antisym|]. rewrite Z.compare_le_iff in *. lia. Qed.

Definition ex_sha : Sha512 := fun s => s.
Definition ex_signing : Signing := fun sums sig => if String.eqb sig ("signed " +:+ sums) then None else Some (ErrOther "signature").
Definition ex_env : sys_env := mkSysEnv (fun _ => false) (Ok ["opt"; "bridge"]).

#[local] Existing Instances ex_semver ex_semver_laws merge_sort_lists ex_sha ex_signing.

(** An update with its sums and signature. *)
Definition ex_version (name : string) : list (path * node) :=
  [(["updates"; name], NDir); (["updates"; name; "bridge"], NFile true name);
   (["updates"; name; ".sum"], NFile false ("bridge" +:+ name));
   (["updates"; name; ".sum.sig"], NFile false ("signed bridge" +:+ name))].
Definition ex_updates : FS :=
  list_to_map ((["updates"], NDir) :: (["updates"; "3.10.0"], NDir) :: (["updates"; "notes.txt"], NFile false "") ::
               ex_version "3.9.0" ++ ex_version "3.8.0").
Definition ex_cur (s : string) : option Ver := StrictNewVersion s.

Lemma link_free_list (l : list (path * node)) :
  forallb (fun '(_, n) => match n with NLink _ => false | _ => true end) l = true -> link_free (list_to_map l).
Proof.
  intros Hl p t Hp. apply elem_of_list_to_map_2 in Hp.
  by apply forallb_forall with (x := (p, NLink t)) in Hl; [|by apply list_elem_of_In].
Qed.

Lemma ex_updates_link_free : link_free ex_updates.
Proof. apply link_free_list. reflexivity. Qed.

Lemma ex_listed : exists vs, ListVersions ["updates"] ex_env ex_updates = Ok vs.
Proof.
  assert (Hok : is_ok (ListVersions ["updates"] ex_env ex_updates) = true) by (vm_compute; reflexivity).
  destruct (ListVersions _ _ _); [eauto|done].
Qed.

(** 3.10.0 is empty: it is removed, and the launcher of version 3.8.0 starts 3.9.0. *)
Lemma launcher_starts_highest_witness :
  (getPathToUpdatedExecutable ["updates"] ex_env "bridge" (ex_cur "3.8.0") ex_updates).2 = Ok ["updates"; "3.9.0"; "bridge"] /\
  exists v, v_path v ++ ["bridge"] = ["updates"; "3.9.0"; "bridge"] /\ launchable ex_env ex_updates "bridge" (ex_cur "3.8.0") v = true.
Proof.
  assert (Hr : (getPathToUpdatedExecutable ["updates"] ex_env "bridge" (ex_cur "3.8.0") ex_updates).2 = Ok ["updates"; "3.9.0"; "bridge"])
    by (vm_compute; reflexivity).
  split; [exact Hr|]. destruct ex_listed as [vs Hv].
  destruct (proj1 (launcher_starts_highest ["updates"] ex_env ex_updates "bridge" (ex_cur "3.8.0") vs _ _ ex_updates_link_free Hv
    (surjective_pairing _)) _ Hr) as (v & _ & Hla & He & _).
  exists v. split; [|exact Hla]. unfold GetExecutable, getExecutableInDirectory in He.
  destruct (_ || _); [discriminate He|]. injection He as He. exact He.
Defined.

Lemma RemoveOldVersions_keeps_highest_witness : exists fs',
  RemoveOldVersions ["updates"] ex_env ex_updates = (fs', None).
Proof.
  destruct ex_listed as [vs Hv].
  assert (Hne : vs <> []).
  { intros ->. apply (f_equal (fun r => match r with Ok [] => true | _ => false end)) in Hv. vm_compute in Hv. discriminate Hv. }
  destruct (RemoveOldVersions_keeps_highest ["updates"] ex_env ex_updates vs Hv Hne) as (v & fs' & Hr & _).
  exists fs'. exact Hr.
Defined.

(** The highest version is kept whether it is verified or not: with an unpacked but broken update the
    application removes the version that works, and the launcher finds none. *)
Example broken_update_wins :
  let fs := (RemoveOldVersions ["updates"] ex_env ex_updates).1 in
  VerifyUpdateFolder ex_env ex_updates ["updates"; "3.9.0"] = None /\
  fs !! ["updates"; "3.9.0"; "bridge"] = None /\
  (getPathToUpdatedExecutable ["updates"] ex_env "bridge" (ex_cur "3.8.0") fs).2 = Err err_no_newer.
Proof. vm_compute. repeat split; reflexivity. Qed.

(** The base version is recognised by a prefix of strings: next to the directory of the updates
    it is taken for an update and removed. *)
Example base_version_removed :
  let env := mkSysEnv (fun _ => false) (Ok ["updates-base"; "bridge"]) in
  let fs : FS := list_to_map [(["updates-base"], NDir); (["updates-base"; "bridge"], NFile true "")] in
  RemoveCurrentVersion ["updates"] env fs = (∅, None).
Proof. vm_compute. reflexivity. Qed.
