(* ===== verification/Launcher.v ===== *)
(** * The launcher and restarts (cmd/launcher, pkg/restarter)

    The launcher starts the application with its own arguments, changed: it consumes the
    request to wait for a process, tells the application where the launcher is and gives the
    session its identifier.  When the application crashes or is asked to restart, the
    restarter starts the launcher again and counts crashes in the environment. *)

From stdpp Require Import pretty.
From S2P Require Import Prelude.
From S2P Require Import Strings.
From S2P Require Import UserEvents.
From S2P Require Import Files.
From S2P Require Import Versions.
From S2P Require Vault.

(** ** Arguments *)

Definition FlagCLI : string := "cli".
Definition FlagCLIShort : string := "c".
Definition FlagNonInteractive : string := "noninteractive".
Definition FlagNonInteractiveShort : string := "n".
Definition FlagSessionID : string := "session-id".
Definition HyphenatedFlagLauncher : string := "--launcher".
Definition HyphenatedFlagWait : string := "--wait".
Definition HyphenatedFlagSessionID : string := "--session-id".

Definition is_flag (flag arg : string) : bool := String.eqb arg ("-" +:+ flag) || String.eqb arg ("--" +:+ flag).

(** [slices.IndexFunc]; [None] is -1. *)
Fixpoint IndexFunc {A} (p : A -> bool) (l : list A) : option nat :=
  match l with [] => None | x :: l => if p x then Some 0%nat else S <$> IndexFunc p l end.
Definition flagIndex (args : list string) (flag : string) : option nat := IndexFunc (is_flag flag) args.
Definition hasFlag (args : list string) (flag : string) : bool := match flagIndex args flag with Some _ => true | None => false end.

Definition inCLIMode (args : list string) : bool :=
  hasFlag args FlagCLI || hasFlag args FlagCLIShort || hasFlag args FlagNonInteractive || hasFlag args FlagNonInteractiveShort.

Definition appendLauncherPath (launcher : string) (args : list string) : list string :=
  if Contains args HyphenatedFlagLauncher then args else args ++ [HyphenatedFlagLauncher; launcher].

Definition findAndStrip (slice : list string) (v : string) : list string * bool :=
  let stripped := Filter slice (fun value => negb (String.eqb value v)) in
  (stripped, negb (length stripped =? length slice)%nat).

(** The arguments that follow a [--wait]. *)
Fixpoint wait_values (args : list string) : list string :=
  match args with
  | v :: (next :: _) as rest => if String.eqb v HyphenatedFlagWait then next :: wait_values rest else wait_values rest
  | _ => []
  end.
Definition findAndStripWait (args : list string) : list string * bool * list string :=
  match wait_values args with
  | [] => (args, false, [])
  | values => (foldl (fun res v => (findAndStrip res v).1) (findAndStrip args HyphenatedFlagWait).1 values, true, values)
  end.

Definition appendOrModifySessionID (args : list string) (sessionID : string) : list string :=
  match flagIndex args FlagSessionID with
  | None => args ++ [HyphenatedFlagSessionID; sessionID]
  | Some index => if (index =? length args - 1)%nat then args ++ [sessionID] else <[(index + 1)%nat := sessionID]> args
  end.

Definition exeName : string := "bridge".
Definition guiName : string := "bridge-gui".

Section launch.
Context `{SV : SemVer, SG : Signing, SH : Sha512, SO : SortLess}.

(** [main]: the files after looking for updates, the executable with its arguments and the
    processes to wait for before; [None] when there is nothing to start.  [launcher] is the path of
    the launcher and [launcher_name] its base. *)
Definition launch (root : path) (env : sys_env) (current : option Ver) (launcher_dir : path) (launcher_name sessionID : string)
    (osArgs : list string) (fs : FS) : FS * option (path * list string * list string) :=
  let launcher := abs_string (launcher_dir ++ [launcher_name]) in
  let '(fs, found) := getPathToUpdatedExecutable root env launcher_name current fs in
  let exe := match found with
             | Ok exe => Some exe
             | Err _ =>
                 match getExecutableInDirectory fs (if inCLIMode osArgs then exeName else guiName) launcher_dir with
                 | Ok exe => Some exe
                 | Err _ => None
                 end
             end in
  match exe with
  | None => (fs, None)
  | Some exe =>
      let '(args, wait, mainExes) := findAndStripWait osArgs in
      (fs, Some (exe, appendLauncherPath launcher (appendOrModifySessionID args sessionID), if wait then mainExes else []))
  end.

End launch.

(** ** The restarter *)

Definition BridgeCrashCount : string := "BRIDGE_CRASH_COUNT".
Definition MaxCrashRestarts : Z := 10.

Record Restarter : Type := mkRestarter { r_restart : bool; r_crash : bool; r_exe : string; r_flags : list string }.
Definition newRestarter (exe : string) : Restarter := mkRestarter false false exe [].
Definition Set_restart (restart crash : bool) (r : Restarter) : Restarter := mkRestarter restart crash (r_exe r) (r_flags r).
Definition Override (exe : string) (r : Restarter) : Restarter := mkRestarter (r_restart r) (r_crash r) exe (r_flags r).
Definition AddFlags (flags : list string) (r : Restarter) : Restarter := mkRestarter (r_restart r) (r_crash r) (r_exe r) (r_flags r ++ flags).

Definition equals_sign : Ascii.ascii := Ascii.ascii_of_nat 61.
(** [strings.SplitN(entry, "=", 2)] when it has two parts. *)
Definition split_entry (entry : string) : option (string * string) :=
  n ← Index equals_sign entry; Some (str_take n entry, str_drop (S n) entry).
Definition getEnvMap (environ : list string) : gmap string string :=
  foldl (fun env entry => match split_entry entry with Some (k, v) => <[k := v]> env | None => env end) ∅ environ.
Definition getEnvList `{MapRange} (env : gmap string string) : list string :=
  (fun '(key, value) => key +:+ "=" +:+ value) <$> map_range env.

(** [strconv.Itoa]. *)
Definition Itoa (z : Z) : string := pretty z.
Definition increment (value : string) : string := Itoa (i64 (default 0 (Vault.Atoi value) + 1)).

Fixpoint removeFlagWithValue (argList : list string) (flag : string) : list string :=
  match argList with
  | [] => []
  | arg :: rest =>
      if is_flag flag arg then match rest with [] => [] | _ :: rest => removeFlagWithValue rest flag end
      else if has_prefix ("-" +:+ flag +:+ "=") arg || has_prefix ("--" +:+ flag +:+ "=") arg then removeFlagWithValue rest flag
      else arg :: removeFlagWithValue rest flag
  end.
Definition removeFlagsWithValue (argList flags : list string) : list string := foldl removeFlagWithValue argList flags.
Definition removeFlag (argList : list string) (flag : string) : list string := Filter argList (fun arg => negb (is_flag flag arg)).

Definition restart_args (r : Restarter) (osArgs : list string) : list string :=
  removeFlagsWithValue (removeFlag osArgs "no-window") ["parent-pid"; "session-id"] ++ r_flags r.

(** [Restart]: the executable, its arguments and its environment, when something is started. *)
Definition Restart `{MapRange} (r : Restarter) (osArgs environ : list string) : option (string * list string * list string) :=
  if negb (r_restart r) then None
  else if String.eqb (r_exe r) "" then None
  else
    let env := getEnvMap environ in
    let env := <[BridgeCrashCount := if r_crash r then increment (default "" (env !! BridgeCrashCount)) else "0"]> env in
    match Vault.Atoi (default "" (env !! BridgeCrashCount)) with
    | None => None
    | Some nCrash => if nCrash >=? MaxCrashRestarts then None else Some (r_exe r, restart_args r osArgs, getEnvList env)
    end.

(** ** Lemmas *)

Lemma IndexFunc_Some {A} (p : A -> bool) l i : IndexFunc p l = Some i ->
  exists x, l = take i l ++ x :: drop (S i) l /\ p x = true /\ (forall y, y ∈ take i l -> p y = false).
Proof.
  revert i. induction l as [|y l IH]; intros i; simpl; [done|]. destruct (p y) eqn:Hp.
  - intros [= <-]. exists y. simpl. split; [done|]. split; [done|]. by intros z ?%elem_of_nil.
  - destruct (IndexFunc p l) as [j|] eqn:Hj; simpl; [|done]. intros [= <-].
    destruct (IH j eq_refl) as (x & He & Hx & Hb). exists x. simpl. split; [by rewrite <- He|]. split; [done|].
    intros z [->|Hz]%elem_of_cons; [done|by apply Hb].
Qed.

Lemma IndexFunc_None {A} (p : A -> bool) l : IndexFunc p l = None <-> forall y, y ∈ l -> p y = false.
Proof.
  induction l as [|y l IH]; simpl; [set_solver|]. destruct (p y) eqn:Hp.
  - split; [done|]. intros H. rewrite (H y) in Hp by left. done.
  - rewrite fmap_None, IH. setoid_rewrite elem_of_cons. naive_solver.
Qed.

(** The loop drops one or two arguments, or keeps one. *)
Lemma removeFlag_ind (P : list string -> list string -> Prop) flag :
  P [] [] ->
  (forall arg rest res, P rest res -> P (arg :: rest) res) ->
  (forall arg rest res, is_flag flag arg = false -> P rest res -> P (arg :: rest) (arg :: res)) ->
  forall l, P l (removeFlagWithValue l flag).
Proof.
  intros Hnil Hdrop Hkeep l. remember (length l) as n eqn:Hn. revert l Hn.
  induction n as [n IH] using lt_wf_ind. intros [|arg rest] ->; simpl; [done|].
  assert (Hrest : P rest (removeFlagWithValue rest flag)) by (eapply IH; [|done]; simpl; lia).
  destruct (is_flag flag arg) eqn:Hf.
  - destruct rest as [|v rest]; [by apply Hdrop|]. apply Hdrop, Hdrop. eapply IH; [|done]. simpl. lia.
  - destruct (_ || _); [by apply Hdrop|by apply Hkeep].
Qed.

Lemma removeFlagWithValue_sublist l flag : removeFlagWithValue l flag `sublist_of` l.
Proof. apply (removeFlag_ind (fun l res => res `sublist_of` l) flag); [constructor|by constructor..]. Qed.

Lemma removeFlagWithValue_gone l flag arg : arg ∈ removeFlagWithValue l flag -> is_flag flag arg = false.
Proof.
  apply (removeFlag_ind (fun _ res => arg ∈ res -> is_flag flag arg = false) flag); [by intros ?%elem_of_nil|done|].
  intros x rest res Hx IH [->|Hin]%elem_of_cons; [done|by apply IH].
Qed.

Lemma stripped_sublist osArgs : removeFlagsWithValue (removeFlag osArgs "no-window") ["parent-pid"; "session-id"] `sublist_of` osArgs.
Proof.
  unfold removeFlagsWithValue. cbn [foldl]. do 2 (etrans; [apply removeFlagWithValue_sublist|]). apply Filter_sublist.
Qed.

Lemma wait_values_app args exe : HyphenatedFlagWait ∉ args -> wait_values (args ++ [HyphenatedFlagWait; exe]) = [exe].
Proof.
  induction args as [|a args IH]; intros Hn; [done|]. apply not_elem_of_cons in Hn as [Ha Hn].
  rewrite <- app_comm_cons. cbn [wait_values]. specialize (IH Hn).
  destruct (args ++ [HyphenatedFlagWait; exe]) as [|b rest] eqn:Hb; [by destruct args|].
  assert (Hab : String.eqb a HyphenatedFlagWait = false) by (apply String.eqb_neq; congruence). by rewrite Hab.
Qed.

Lemma strip_absent args v : v ∉ args -> (findAndStrip args v).1 = args.
Proof. intros Hv. apply Filter_all. intros e He. apply negb_true_iff, String.eqb_neq. congruence. Qed.

Lemma strip_app args args' v : (findAndStrip (args ++ args') v).1 = (findAndStrip args v).1 ++ (findAndStrip args' v).1.
Proof. apply Filter_app. Qed.

Lemma elem_of_strips args values x : x ∈ foldl (fun res v => (findAndStrip res v).1) args values <-> x ∈ args /\ x ∉ values.
Proof.
  revert args. induction values as [|v values IH]; intros args; cbn [foldl]; [set_solver|].
  rewrite IH. unfold findAndStrip. cbn [fst]. rewrite elem_of_Filter, negb_true_iff, String.eqb_neq, not_elem_of_cons. naive_solver.
Qed.

Lemma strips_sublist args values : foldl (fun res v => (findAndStrip res v).1) args values `sublist_of` args.
Proof.
  revert args. induction values as [|v values IH]; intros args; cbn [foldl]; [done|]. etrans; [apply IH|apply Filter_sublist].
Qed.

Lemma str_drop_S n s c t : str_drop n s = String c t -> str_drop (S n) s = t.
Proof.
  revert s. induction n as [|n IH]; intros [|d s]; simpl; try done; [naive_solver|]. intros H. by apply IH.
Qed.

Lemma split_entry_join k v : Index equals_sign k = None -> split_entry (k +:+ "=" +:+ v) = Some (k, v).
Proof.
  intros Hk. unfold split_entry. rewrite Index_app_None by done. simpl. rewrite Nat.add_0_r.
  rewrite str_take_app, str_take_all by done. f_equal. f_equal.
  by apply (str_drop_S _ _ equals_sign), str_drop_app.
Qed.

Lemma Index_str_take c s n : Index c s = Some n -> Index c (str_take n s) = None.
Proof.
  revert n. induction s as [|d s IH]; intros n; simpl; [done|]. destruct (Ascii.eqb d c) eqn:Hd; [by intros [= <-]|].
  destruct (Index c s) as [m|]; simpl; [|done]. intros [= <-]. simpl. by rewrite Hd, (IH m).
Qed.

(** No name of a variable has an equals sign. *)
Definition env_ok (env : gmap string string) : Prop := forall k v, env !! k = Some v -> Index equals_sign k = None.

Lemma env_ok_insert env k v : Index equals_sign k = None -> env_ok env -> env_ok (<[k := v]> env).
Proof. intros Hk He k' v'. rewrite lookup_insert_Some. naive_solver. Qed.

Lemma getEnvMap_ok environ : env_ok (getEnvMap environ).
Proof.
  unfold getEnvMap. assert (H0 : env_ok ∅) by (intros k v; by rewrite lookup_empty). revert H0. generalize (∅ : gmap string string).
  induction environ as [|entry environ IH]; intros env He; cbn [foldl]; [done|]. apply IH.
  unfold split_entry. destruct (Index equals_sign entry) as [n|] eqn:Hn; simpl; [|done].
  apply env_ok_insert; [by apply Index_str_take|done].
Qed.

Lemma getEnvMap_foldl (l : list (string * string)) env0 :
  NoDup l.*1 -> (forall kv, kv ∈ l -> Index equals_sign kv.1 = None) ->
  foldl (fun (env : gmap string string) entry => match split_entry entry with Some (k, v) => <[k := v]> env | None => env end) env0
    ((fun '(k, v) => k +:+ "=" +:+ v) <$> l) = list_to_map l ∪ env0.
Proof.
  revert env0. induction l as [|[k v] l IH]; intros env0 Hnd Hk; simpl; [by rewrite (left_id_L ∅ (∪))|].
  apply NoDup_cons in Hnd as [Hkl Hnd]. rewrite split_entry_join by exact (Hk (k, v) (list_elem_of_here _ _)).
  rewrite IH; [|done|intros kv Hkv; apply Hk; by right].
  rewrite <- insert_union_r by by apply not_elem_of_list_to_map_1. by rewrite insert_union_l.
Qed.

(** The environment survives being written as a list, in any order. *)
Lemma env_list_map `{MapRange} env : env_ok env -> getEnvMap (getEnvList env) = env.
Proof.
  intros He. unfold getEnvMap, getEnvList. rewrite getEnvMap_foldl.
  - rewrite (right_id_L ∅ (∪)). rewrite (list_to_map_proper _ (map_to_list env)); [apply list_to_map_to_list| |apply map_range_perm].
    rewrite map_range_perm. apply NoDup_fst_map_to_list.
  - rewrite map_range_perm. apply NoDup_fst_map_to_list.
  - intros [k v] Hin. apply elem_of_map_range in Hin. by apply (He k v).
Qed.

(** ** Theorems *)

(** The session gets the identifier of the launcher: the first session flag of the result is
    followed by it, and nothing else of the arguments changes. *)
Theorem session_identified args sid :
  exists before flag after,
    appendOrModifySessionID args sid = before ++ [flag; sid] ++ after /\
    is_flag FlagSessionID flag = true /\ hasFlag before FlagSessionID = false /\
    ((args = before /\ after = []) \/ (args = before ++ [flag] /\ after = []) \/ (exists old, args = before ++ [flag; old] ++ after)).
Proof.
  unfold appendOrModifySessionID, hasFlag. destruct (flagIndex args FlagSessionID) as [i|] eqn:Hi.
  - destruct (IndexFunc_Some _ _ _ Hi) as (flag & He & Hf & Hb).
    assert (Hnone : flagIndex (take i args) FlagSessionID = None) by (by apply IndexFunc_None).
    assert (Hlen : length (take i args) = i).
    { apply length_take_le. apply (f_equal length) in He. rewrite length_app, length_take in He. simpl in He. lia. }
    set (before := take i args) in *. set (after := drop (S i) args) in *. clearbody before after. subst args.
    rewrite length_app, Hlen. simpl. destruct after as [|old after].
    + cbn [length]. replace (i + 1 - 1)%nat with i by lia. rewrite Nat.eqb_refl.
      exists before, flag, []. rewrite Hnone.
      split; [by rewrite <- app_assoc|]. split; [done|]. split; [done|]. by right; left.
    + cbn [length]. rewrite (proj2 (Nat.eqb_neq i _)) by lia.
      exists before, flag, after. rewrite Hnone. split; [|split; [done|split; [done|right; right; by exists old]]].
      rewrite insert_app_r_alt by lia. rewrite Hlen. by replace (i + 1 - i)%nat with 1%nat by lia.
  - exists args, HyphenatedFlagSessionID, []. rewrite Hi. split; [done|]. split; [done|]. split; [done|]. by left.
Qed.

(** The launcher waits for exactly the processes named after [--wait], and passes on the other
    arguments without these names. *)
Theorem findAndStripWait_spec args res found values :
  findAndStripWait args = (res, found, values) ->
  values = wait_values args /\ (found = true <-> values <> []) /\
  res `sublist_of` args /\ forall x, x ∈ res <-> x ∈ args /\ (found = true -> x <> HyphenatedFlagWait /\ x ∉ values).
Proof.
  unfold findAndStripWait. destruct (wait_values args) as [|v vs] eqn:Hw; intros [= <- <- <-].
  - repeat split; naive_solver.
  - split; [done|]. split; [done|]. split.
    + etrans; [exact (strips_sublist (findAndStrip args HyphenatedFlagWait).1 (v :: vs))|apply Filter_sublist].
    + intros x. change (foldl _ _ _) with (foldl (fun res v => (findAndStrip res v).1) (findAndStrip args HyphenatedFlagWait).1 (v :: vs)).
      rewrite elem_of_strips. unfold findAndStrip. cbn [fst]. rewrite elem_of_Filter, negb_true_iff, String.eqb_neq.
      assert (true = true) by done. tauto.
Qed.

(** A restarted launcher waits for the process that started it and gives its application the same
    arguments, with a new session identifier. *)
Theorem restart_round_trip exe crash restart osArgs sid (r := AddFlags [HyphenatedFlagWait; exe] (Set_restart restart crash (newRestarter "launcher"))) :
  HyphenatedFlagWait ∉ osArgs -> exe ∉ osArgs -> exe <> HyphenatedFlagWait ->
  exists args, findAndStripWait (restart_args r osArgs) = (args, true, [exe]) /\
    args = removeFlagsWithValue (removeFlag osArgs "no-window") ["parent-pid"; "session-id"] /\
    appendOrModifySessionID args sid = args ++ [HyphenatedFlagSessionID; sid].
Proof.
  intros Hw He Hne. assert (Hsub := stripped_sublist osArgs).
  assert (Hs : flagIndex (removeFlagsWithValue (removeFlag osArgs "no-window") ["parent-pid"; "session-id"]) FlagSessionID = None).
  { apply IndexFunc_None. intros y. unfold removeFlagsWithValue. cbn [foldl]. apply removeFlagWithValue_gone. }
  unfold restart_args. simpl r_flags. revert Hsub Hs. generalize (removeFlagsWithValue (removeFlag osArgs "no-window") ["parent-pid"; "session-id"]).
  intros args Hsub Hs. exists args.
  assert (HwA : HyphenatedFlagWait ∉ args) by (intros Hin; by apply Hw, (elem_of_sublist _ _ _ Hin)).
  assert (HeA : exe ∉ args) by (intros Hin; by apply He, (elem_of_sublist _ _ _ Hin)).
  split; [|split; [done|by unfold appendOrModifySessionID; rewrite Hs]].
  unfold findAndStripWait. rewrite wait_values_app by done. f_equal. f_equal. cbn [foldl].
  rewrite strip_app, (strip_absent args HyphenatedFlagWait), strip_app, (strip_absent args exe) by done.
  unfold findAndStrip. cbn [Filter fst]. rewrite String.eqb_refl. simpl negb. cbn [Filter].
  rewrite (proj2 (String.eqb_neq exe HyphenatedFlagWait)) by done. cbn [negb Filter]. rewrite String.eqb_refl. cbn. apply app_nil_r.
Qed.

(** *** Repeated crashes *)

Section crashes.
Context `{MR : MapRange}.
Context (exe : string) (flags osArgs : list string) (Hexe : exe <> "").

Definition crashed : Restarter := mkRestarter true true exe flags.

(** The environment of the process after [n] crashes, if it was started every time. *)
Fixpoint after_crashes (n : nat) (environ : list string) : option (list string) :=
  match n with
  | O => Some environ
  | S n => after_crashes n environ ≫= fun environ => (fun '(_, _, environ) => environ) <$> Restart crashed osArgs environ
  end.

Definition crash_count (environ : list string) : Z := default 0 (Vault.Atoi (default "" (getEnvMap environ !! BridgeCrashCount))).

Lemma Atoi_Itoa_small z : 0 <= z <= 10 -> Vault.Atoi (Itoa z) = Some z.
Proof.
  intros Hz. assert (Hall : Forall (fun z => Vault.Atoi (Itoa z) = Some z) (seqZ 0 11)).
  { apply (bool_decide_eq_true_1 _). vm_compute. reflexivity. }
  rewrite Forall_forall in Hall. apply Hall, elem_of_seqZ. lia.
Qed.

Lemma crash_restart environ : 0 <= crash_count environ < 10 ->
  Restart crashed osArgs environ =
    if crash_count environ + 1 >=? MaxCrashRestarts then None
    else Some (exe, restart_args crashed osArgs, getEnvList (<[BridgeCrashCount := Itoa (crash_count environ + 1)]> (getEnvMap environ))).
Proof.
  intros Hc. unfold Restart. simpl r_restart. simpl r_exe. simpl r_crash. cbn [negb].
  rewrite (proj2 (String.eqb_neq exe "")) by done. rewrite lookup_insert_eq. unfold increment. fold (crash_count environ).
  simpl default at 1. rewrite i64_id by (unfold i64_ok; lia). rewrite Atoi_Itoa_small by lia. done.
Qed.

Lemma crash_count_insert environ z : 0 <= z <= 10 ->
  crash_count (getEnvList (<[BridgeCrashCount := Itoa z]> (getEnvMap environ))) = z /\
  getEnvMap (getEnvList (<[BridgeCrashCount := Itoa z]> (getEnvMap environ))) = <[BridgeCrashCount := Itoa z]> (getEnvMap environ).
Proof.
  intros Hz. assert (He : env_ok (<[BridgeCrashCount := Itoa z]> (getEnvMap environ))) by by apply env_ok_insert, getEnvMap_ok.
  unfold crash_count. rewrite env_list_map by done. rewrite lookup_insert_eq. change (default "" (Some (Itoa z))) with (Itoa z). by rewrite Atoi_Itoa_small by lia.
Qed.

(** C35: A launcher that keeps crashing is restarted until ten crashes are counted, each time with its
    environment unchanged except for the count, and not again. *)
Theorem crash_restarts_end environ (k := crash_count environ) : 0 <= k < 10 ->
  (forall n, k + Z.of_nat (S n) < 10 -> exists environ', after_crashes (S n) environ = Some environ' /\
     getEnvMap environ' = <[BridgeCrashCount := Itoa (k + Z.of_nat (S n))]> (getEnvMap environ)) /\
  (forall n, 10 <= k + Z.of_nat n -> after_crashes n environ = None).
Proof.
  intros Hk.
  assert (Hrun : forall n, k + Z.of_nat n < 10 -> exists environ', after_crashes n environ = Some environ' /\
    crash_count environ' = k + Z.of_nat n /\
    (n <> 0%nat -> getEnvMap environ' = <[BridgeCrashCount := Itoa (k + Z.of_nat n)]> (getEnvMap environ)) /\
    forall v, <[BridgeCrashCount := v]> (getEnvMap environ') = <[BridgeCrashCount := v]> (getEnvMap environ)).
  { induction n as [|n IH]; intros Hn.
    - exists environ. split; [done|]. split; [fold k; lia|]. by split.
    - destruct IH as (e1 & He & Hc & _ & Hi); [lia|]. cbn [after_crashes]. rewrite He. cbn [mbind option_bind].
      rewrite crash_restart, Hc, Hi by lia. unfold MaxCrashRestarts. rewrite Z.geb_leb, (proj2 (Z.leb_gt _ _)) by lia.
      replace (k + Z.of_nat n + 1) with (k + Z.of_nat (S n)) by lia.
      destruct (crash_count_insert environ (k + Z.of_nat (S n))) as [Hc' Hm]; [lia|].
      eexists. split; [reflexivity|]. split; [exact Hc'|]. split; [done|]. intros v. rewrite Hm. apply insert_insert_eq. }
  split.
  - intros n Hn. destruct (Hrun (S n) Hn) as (e & He & _ & Hm & _). exists e. auto.
  - induction n as [|n IH]; intros Hn; [lia|]. cbn [after_crashes].
    destruct (decide (10 <= k + Z.of_nat n)) as [Hd|Hd]; [by rewrite (IH Hd)|].
    destruct (Hrun n) as (e & He & Hc & _); [lia|]. rewrite He. cbn [mbind option_bind].
    rewrite crash_restart, Hc by lia. unfold MaxCrashRestarts. by rewrite Z.geb_leb, (proj2 (Z.leb_le _ _)) by lia.
Qed.

End crashes.

(** ** Examples *)

Lemma findAndStripWait_spec_witness :
  findAndStripWait ["--cli"; "--wait"; "/opt/bridge-gui"] = (["--cli"], true, ["/opt/bridge-gui"]) /\ "--cli" ∈ ["--cli"].
Proof.
  split; [reflexivity|].
  apply (findAndStripWait_spec ["--cli"; "--wait"; "/opt/bridge-gui"] ["--cli"] true ["/opt/bridge-gui"] eq_refl).
  split; [left|]. intros _. split; [discriminate|]. intros H. apply list_elem_of_singleton in H. discriminate H.
Defined.

Lemma restart_round_trip_witness : exists args,
  findAndStripWait (restart_args (AddFlags [HyphenatedFlagWait; "/opt/bridge-gui"] (Set_restart true true (newRestarter "launcher")))
    ["--no-window"; "-c"; "--session-id"; "s1"]) = (args, true, ["/opt/bridge-gui"]) /\ args = ["-c"].
Proof.
  destruct (restart_round_trip "/opt/bridge-gui" true true ["--no-window"; "-c"; "--session-id"; "s1"] "s2") as (args & H1 & H2 & _).
  - apply (bool_decide_eq_true_1 _). vm_compute. reflexivity.
  - apply (bool_decide_eq_true_1 _). vm_compute. reflexivity.
  - discriminate.
  - exists args. split; [exact H1|exact H2].
Defined.

Lemma crash_restarts_end_witness : crash_count ["HOME=/root"; "BRIDGE_CRASH_COUNT=7"] = 7 /\
  after_crashes (MR := canonical_range) "launcher" [] [] 3 ["HOME=/root"; "BRIDGE_CRASH_COUNT=7"] = None.
Proof.
  assert (Hc : crash_count ["HOME=/root"; "BRIDGE_CRASH_COUNT=7"] = 7) by (vm_compute; reflexivity).
  split; [exact Hc|]. refine (proj2 (crash_restarts_end (MR := canonical_range) "launcher" [] [] _ _ _) 3%nat _); [discriminate|..];
    rewrite Hc; lia.
Defined.

(** The value of [--wait] is removed wherever it occurs, also as the value of another flag. *)
Example waited_value_lost :
  findAndStripWait ["--launcher"; "/opt/launcher"; "--wait"; "/opt/launcher"] = (["--launcher"], true, ["/opt/launcher"]).
Proof. reflexivity. Qed.
