(* ===== verification/Updates.v ===== *)
(** * Updates (internal/updater, internal/bridge/updates.go)

    The bridge checks the list of releases from time to time, decides which release can be
    installed and installs it next to the running version; the launcher starts it later
    ([Versions]).  The decision looks at the channel, the rollout, the version of the
    operating system, the version of the bridge and the files of the release.

    Downloads with their signatures, decoding of the list of releases and of packages are
    the class [UpdateNet].  A nil version in the list makes the code panic.  Reports and
    logs are left out; the installer is that of Linux and Windows. *)

From S2P Require Import Prelude.
From S2P Require Import Strings.
From S2P Require Import UserEvents.
From S2P Require Import Files.
From S2P Require Import Versions.
From S2P Require Vault.
From Stdlib Require Import QArith.
Local Open Scope Z_scope.

(** ** Versions of the operating system (internal/updater/versioncompare) *)

Record SystemVersion : Type := mkSystemVersion { Minimum : string; Maximum : string }.

Definition dot : Ascii.ascii := Ascii.ascii_of_nat 46.
Definition err_invalid_number : err := ErrOther "invalid version number".
Definition err_no_host_version : err := ErrOther "could not get host version".
Definition err_below_minimum : err := ErrOther "host version is below minimum".
Definition err_above_maximum : err := ErrOther "host version is above maximum version".

Fixpoint compare_min (host : list Z) (minVersionArr : list string) : result err bool :=
  match host, minVersionArr with
  | hostNum :: host, s :: minVersionArr =>
      match Vault.Atoi s with
      | None => Err err_invalid_number
      | Some minNum =>
          if hostNum <? minNum then Ok false
          else if hostNum >? minNum then Ok true
          else compare_min host minVersionArr
      end
  | _, _ => Ok true
  end.
Definition compareMinimumVersion (host : list Z) (minVersion : string) : result err bool := compare_min host (Split dot minVersion).

Fixpoint compare_max (host : list Z) (maxVersionArr : list string) : result err bool :=
  match host, maxVersionArr with
  | hostNum :: host, s :: maxVersionArr =>
      match Vault.Atoi s with
      | None => Err err_invalid_number
      | Some maxNum =>
          if hostNum >? maxNum then Ok false
          else if hostNum <? maxNum then Ok true
          else compare_max host maxVersionArr
      end
  | _, _ => Ok true
  end.
Definition compareMaximumVersion (host : list Z) (maxVersion : string) : result err bool := compare_max host (Split dot maxVersion).

Fixpoint Atois (l : list string) : option (list Z) :=
  match l with [] => Some [] | s :: l => z ← Vault.Atoi s; zs ← Atois l; Some (z :: zs) end.

(** A check of a bound that is set: [Ok ()] goes on. *)
Definition check_bound (bound : string) (r : result err bool) (e : err) : result err () :=
  if String.eqb bound "" then Ok () else pass ← r; if pass : bool then Ok () else Err e.

(** On macOS: whether the update is eligible, and the error. *)
Definition IsHostVersionEligible_darwin (hostVersion : string) (sysVer : SystemVersion) : bool * option err :=
  if String.eqb (Minimum sysVer) "" && String.eqb (Maximum sysVer) "" then (true, None)
  else if String.eqb hostVersion "" then (true, Some err_no_host_version)
  else match Atois (Split dot hostVersion) with
       | None => (true, Some err_invalid_number)
       | Some host =>
           match check_bound (Minimum sysVer) (compareMinimumVersion host (Minimum sysVer)) err_below_minimum with
           | Err e => (false, Some e)
           | Ok _ =>
               match check_bound (Maximum sysVer) (compareMaximumVersion host (Maximum sysVer)) err_above_maximum with
               | Err e => (false, Some e)
               | Ok _ => (true, None)
               end
           end
       end.

Inductive os_name : Type := Darwin | Linux | Windows | FreeBSD | OpenBSD.
Definition IsHostVersionEligible (os : os_name) (hostVersion : string) (sysVer : SystemVersion) : bool * option err :=
  match os with
  | Darwin => IsHostVersionEligible_darwin hostVersion sysVer
  | Linux | Windows => (true, None)
  | FreeBSD | OpenBSD => (false, None)
  end.

(** ** Releases (types_version.go, version.go, channel.go) *)

Inductive ReleaseCategory : Type := EarlyAccessReleaseCategory | StableReleaseCategory.
Inductive FileIdentifier : Type := PackageIdentifier | InstallerIdentifier.
Definition StableChannel : string := "stable".
Definition EarlyChannel : string := "early".

#[global] Instance FileIdentifier_eq_dec : EqDecision FileIdentifier.
Proof. solve_decision. Defined.
#[global] Instance ReleaseCategory_eq_dec : EqDecision ReleaseCategory.
Proof. solve_decision. Defined.

(** [strings.TrimSpace] on ASCII text. *)
Definition is_space (c : Ascii.ascii) : bool :=
  let n := Ascii.nat_of_ascii c in (n =? 32)%nat || ((9 <=? n)%nat && (n <=? 13)%nat).
Fixpoint TrimLeft (s : string) : string :=
  match s with EmptyString => "" | String c s' => if is_space c then TrimLeft s' else s end.
Fixpoint TrimRight (s : string) : string :=
  match s with
  | EmptyString => ""
  | String c s' => match TrimRight s' with EmptyString => if is_space c then "" else String c "" | t => String c t end
  end.
Definition TrimSpace (s : string) : string := TrimRight (TrimLeft s).

Definition category_String (rc : ReleaseCategory) : string :=
  match rc with EarlyAccessReleaseCategory => "EarlyAccess" | StableReleaseCategory => "Stable" end.
Definition identifier_String (fi : FileIdentifier) : string :=
  match fi with PackageIdentifier => "package" | InstallerIdentifier => "installer" end.

Definition ParseReleaseCategory (s : string) : result err ReleaseCategory :=
  let s := TrimSpace (str_map lower s) in
  if String.eqb s "earlyaccess" then Ok EarlyAccessReleaseCategory
  else if String.eqb s "stable" then Ok StableReleaseCategory
  else Err (ErrOther (s +:+ " is not a valid release category")).
Definition ParseFileIdentifier (s : string) : result err FileIdentifier :=
  let s := TrimSpace (str_map lower s) in
  if String.eqb s "package" then Ok PackageIdentifier
  else if String.eqb s "installer" then Ok InstallerIdentifier
  else Err (ErrOther (s +:+ " is not a valid file identifier")).

Definition UpdateEligible (rc : ReleaseCategory) (channel : string) : bool :=
  if String.eqb channel StableChannel && bool_decide (rc = StableReleaseCategory) then true
  else if (String.eqb channel EarlyChannel && bool_decide (rc = EarlyAccessReleaseCategory)) || bool_decide (rc = StableReleaseCategory) then true
  else false.

Record File : Type := mkFile { URL : string; Sha512CheckSum : string; Identifier : FileIdentifier }.

Section releases.
Context `{SV : SemVer}.

(** The rollout is a decimal of the list. *)
Record Release : Type := mkRelease {
  rel_category : ReleaseCategory;
  rel_version : option Ver;
  rel_system : SystemVersion;
  RolloutProportion : Q;
  MinAuto : option Ver;
  ReleaseNotesPage : string;
  LandingPage : string;
  rel_files : list File
}.

Definition IsEmpty (r : Release) : bool :=
  match rel_version r with None => (length (rel_files r) =? 0)%nat | Some _ => false end.

Definition package_of (r : Release) : option File :=
  find_first (fun f => bool_decide (Identifier f = PackageIdentifier)) (rel_files r).

(** ** The updater (updater.go, install_default.go) *)

Class UpdateNet : Type := {
  DownloadAndVerify : string -> string -> result err string;
  decode_releases : string -> result err (list Release);
  unpack : string -> result err (list tar_entry)
}.
Context `{UN : UpdateNet, SG : Signing, SH : Sha512, SO : SortLess}.

Inductive update_err : Type :=
| ErrDownloadVerify (e : err)
| ErrInstall (e : err)
| ErrUpdateAlreadyInstalled
| ErrVersionFileDownloadOrVerify (e : err)
| ErrReleaseUpdatePackageMissing
| ErrDecode (e : err).

(** [Updater]: the root of the versioner, the product and the platform. *)
Record Updater : Type := mkUpdater { up_root : path; up_product : string; up_platform : string; up_os : os_name; up_host : string }.

Definition getVersionFileURL (u : Updater) : string :=
  up_host u +:+ "/" +:+ up_product u +:+ "/" +:+ up_platform u +:+
  (match up_os u with Darwin => "/universal/v1/version.json" | _ => "/x86/v1/version.json" end).

Definition GetVersionInfo (u : Updater) : result update_err (list Release) :=
  match DownloadAndVerify (getVersionFileURL u) (getVersionFileURL u +:+ ".sig") with
  | Err e => Err (ErrVersionFileDownloadOrVerify e)
  | Ok b => match decode_releases b with Err e => Err (ErrDecode e) | Ok releases => Ok releases end
  end.

Definition IsAlreadyInstalled (u : Updater) (env : sys_env) (fs : FS) (version : Ver) : bool :=
  match ListVersions (up_root u) env fs with Err _ => false | Ok versions => HasVersion versions version end.

(** [Updater.InstallUpdate] of a release with the given version. *)
Definition InstallUpdate (u : Updater) (env : sys_env) (release : Release) (version : Ver) (fs : FS) : FS * option update_err :=
  if IsAlreadyInstalled u env fs version then (fs, Some ErrUpdateAlreadyInstalled)
  else match package_of release with
       | None => (fs, Some ErrReleaseUpdatePackageMissing)
       | Some package =>
           match DownloadAndVerify (URL package) (URL package +:+ ".sig") with
           | Err e => (fs, Some (ErrDownloadVerify e))
           | Ok b =>
               match InstallNewVersion (up_root u) env version (unpack b) fs with
               | (fs, Some e) => (fs, Some (ErrInstall e))
               | (fs, None) => (fs, None)
               end
           end
       end.

(** ** The bridge (internal/bridge/updates.go) *)

Inductive update_event : Type :=
| UpdateLatest (r : Release)
| UpdateAvailable (r : Release) (compatible silent : bool)
| UpdateInstalled (r : Release) (silent : bool)
| UpdateFailed (r : Release) (silent : bool)
| UpdateNotAvailable
| UpdateCheckFailed (e : update_err).

(** What a check looks at: the settings, the current version and the operating system
    ([None] when it cannot be found out). *)
Record check_env : Type := mkCheckEnv {
  updateChannel : string;
  updateRollout : Q;
  autoUpdateEnabled : bool;
  curVersion : Ver;
  check_os : os_name;
  hostInfo : option string
}.

Definition system_ok (c : check_env) (r : Release) : bool :=
  match hostInfo c with None => true | Some host => (IsHostVersionEligible (check_os c) host (rel_system r)).1 end.

Inductive check_end : Type :=
| CheckDone
| CheckInstalls (r : Release)
| CheckPanics.

(** [GreaterThan] and [LessThan] of a nil version panic. *)
Fixpoint check_releases (c : check_env) (minAuto : Release) (releases : list Release) : list update_event * check_end :=
  match releases with
  | [] =>
      ((match rel_version minAuto with
        | Some v => if Equal v zero_version then [] else [UpdateAvailable minAuto false false]
        | None => []
        end) ++ [UpdateNotAvailable], CheckDone)
  | release :: releases =>
      if negb (UpdateEligible (rel_category release) (updateChannel c)) then check_releases c minAuto releases
      else match rel_version release with
      | None => ([], CheckPanics)
      | Some version =>
          if negb (GreaterThan version (curVersion c)) then check_releases c minAuto releases
          else if negb (Qle_bool (updateRollout c) (RolloutProportion release)) then check_releases c minAuto releases
          else if negb (system_ok c release) then check_releases c minAuto releases
          else if match MinAuto release with Some m => LessThan (curVersion c) m | None => false end
          then check_releases c
                 (match rel_version minAuto with
                  | Some v => if GreaterThan version v then release else minAuto
                  | None => minAuto
                  end) releases
          else match package_of release with
          | None => check_releases c minAuto releases
          | Some _ =>
              if negb (autoUpdateEnabled c) then ([UpdateAvailable release true false], CheckDone)
              else ([], CheckInstalls release)
          end
      end
  end.

Definition no_release : Release :=
  mkRelease EarlyAccessReleaseCategory (Some zero_version) (mkSystemVersion "" "") 0 None "" "" [].

Definition handleUpdate (c : check_env) (releases : list Release) : list update_event * check_end :=
  let '(events, e) := check_releases c no_release releases in
  (match releases with [] => [] | r :: _ => [UpdateLatest r] end ++ events, e).

(** The state of the bridge an installation changes. *)
Record UpdateState : Type := mkUpdateState { newVersion : Ver; up_files : FS; up_events : list update_event }.

Definition publish_update (es : list update_event) (s : UpdateState) : UpdateState :=
  mkUpdateState (newVersion s) (up_files s) (up_events s ++ es).

(** [installUpdate]; [None] is a panic. *)
Definition installUpdate (u : Updater) (env : sys_env) (release : Release) (silent : bool) (s : UpdateState) : option UpdateState :=
  version ← rel_version release;
  Some (
    if negb (GreaterThan version (newVersion s)) then s
    else
      let s := publish_update [UpdateAvailable release true silent] s in
      let '(fs, r) := InstallUpdate u env release version (up_files s) in
      let s := mkUpdateState (newVersion s) fs (up_events s) in
      match r with
      | Some ErrReleaseUpdatePackageMissing | Some (ErrDownloadVerify _) | Some ErrUpdateAlreadyInstalled => s
      | Some _ => publish_update [UpdateFailed release silent] s
      | None => mkUpdateState version (up_files s) (up_events s ++ [UpdateInstalled release silent])
      end).

(** [RemoveOldUpdates]: an error is logged. *)
Definition RemoveOldUpdates (u : Updater) (env : sys_env) (s : UpdateState) : UpdateState :=
  mkUpdateState (newVersion s) (RemoveOldVersions (up_root u) env (up_files s)).1 (up_events s).

(** What can happen: a check of the list, an installation the user asks for, and the removal of
    old versions.  The settings, the operating system and the answers are given with each. *)
Inductive update_input : Type :=
| InCheck (c : check_env)
| InInstall (r : Release)
| InRemoveOld.

Definition update_step (u : Updater) (env : sys_env) (i : update_input) (s : UpdateState) : option UpdateState :=
  match i with
  | InCheck c =>
      match GetVersionInfo u with
      | Err e => Some (publish_update [UpdateCheckFailed e] s)
      | Ok releases =>
          match handleUpdate c releases with
          | (es, CheckDone) => Some (publish_update es s)
          | (es, CheckInstalls r) => installUpdate u env r true (publish_update es s)
          | (_, CheckPanics) => None
          end
      end
  | InInstall r => installUpdate u env r false s
  | InRemoveOld => Some (RemoveOldUpdates u env s)
  end.

End releases.

(** ** Versions of the operating system *)

(** The order of the first difference; a version that ends before is equal to all that it
    begins. *)
Fixpoint compare_prefix (a b : list Z) : comparison :=
  match a, b with
  | x :: a, y :: b => match Z.compare x y with Eq => compare_prefix a b | o => o end
  | _, _ => Eq
  end.

Definition not_lt (o : comparison) : bool := match o with Lt => false | _ => true end.
Definition not_gt (o : comparison) : bool := match o with Gt => false | _ => true end.

Lemma Atois_cons s l z : Atois (s :: l) = Some z -> exists x zs, z = x :: zs /\ Vault.Atoi s = Some x /\ Atois l = Some zs.
Proof. simpl. destruct (Vault.Atoi s) as [x|]; simpl; [|done]. destruct (Atois l); simpl; [|done]. intros [= <-]. eauto. Qed.

Lemma compare_min_prefix host arr m : Atois arr = Some m -> compare_min host arr = Ok (not_lt (compare_prefix host m)).
Proof.
  revert host m. induction arr as [|s arr IH]; intros [|h host] m; [naive_solver..|].
  intros (x & zs & -> & Hs & Hr)%Atois_cons. simpl. rewrite Hs, (IH host zs Hr), Z.gtb_ltb.
  destruct (Z.compare_spec h x), (h <? x) eqn:H1, (x <? h) eqn:H2; boolp; try lia; done.
Qed.

Lemma compare_max_prefix host arr m : Atois arr = Some m -> compare_max host arr = Ok (not_gt (compare_prefix host m)).
Proof.
  revert host m. induction arr as [|s arr IH]; intros [|h host] m; [naive_solver..|].
  intros (x & zs & -> & Hs & Hr)%Atois_cons. simpl. rewrite Hs, (IH host zs Hr), Z.gtb_ltb.
  destruct (Z.compare_spec h x), (h <? x) eqn:H1, (x <? h) eqn:H2; boolp; try lia; done.
Qed.

(** The numbers of a bound; a bound that is not set has none. *)
Definition bound_numbers (s : string) : option (list Z) := if String.eqb s "" then Some [] else Atois (Split dot s).

Lemma compare_prefix_nil a : compare_prefix a [] = Eq.
Proof. by destruct a. Qed.

Lemma check_bound_spec (host : list Z) s m (cmp : result err bool) (keep : comparison -> bool) e :
  keep Eq = true -> bound_numbers s = Some m ->
  (forall m, Atois (Split dot s) = Some m -> cmp = Ok (keep (compare_prefix host m))) ->
  check_bound s cmp e = if keep (compare_prefix host m) then Ok () else Err e.
Proof.
  unfold bound_numbers, check_bound. intros Hk Hm Hcmp. destruct (String.eqb s "").
  - injection Hm as <-. by rewrite compare_prefix_nil, Hk.
  - rewrite (Hcmp m Hm). done.
Qed.

(** A version of macOS made of numbers is eligible exactly when it lies between the bounds of the
    release, each of which restricts only the numbers it gives. *)
Theorem system_version_range hostVersion sysVer host lo hi :
  hostVersion <> "" -> Atois (Split dot hostVersion) = Some host ->
  bound_numbers (Minimum sysVer) = Some lo -> bound_numbers (Maximum sysVer) = Some hi ->
  (IsHostVersionEligible Darwin hostVersion sysVer).1 = true <-> compare_prefix host lo <> Lt /\ compare_prefix host hi <> Gt.
Proof.
  intros Hne Hh Hlo Hhi. unfold IsHostVersionEligible, IsHostVersionEligible_darwin.
  rewrite (proj2 (String.eqb_neq _ _) Hne), Hh.
  rewrite (check_bound_spec host _ lo _ not_lt) by (done || intros m; apply compare_min_prefix).
  rewrite (check_bound_spec host _ hi _ not_gt) by (done || intros m; apply compare_max_prefix).
  destruct (String.eqb (Minimum sysVer) "" && String.eqb (Maximum sysVer) "") eqn:Hb.
  - apply andb_true_iff in Hb as [Hb1 Hb2]. unfold bound_numbers in *. rewrite Hb1, Hb2 in *. injection Hlo as <-. injection Hhi as <-.
    by rewrite compare_prefix_nil.
  - destruct (compare_prefix host lo), (compare_prefix host hi); simpl; naive_solver.
Qed.

(** Names of categories and files are read without regard to case and surrounding space. *)
Lemma parse_names rc fi s :
  (ParseReleaseCategory s = Ok rc <-> TrimSpace (str_map lower s) = str_map lower (category_String rc)) /\
  (ParseFileIdentifier s = Ok fi <-> TrimSpace (str_map lower s) = identifier_String fi).
Proof.
  unfold ParseReleaseCategory, ParseFileIdentifier. set (t := TrimSpace _). clearbody t. split.
  - replace (str_map lower (category_String rc)) with (match rc with EarlyAccessReleaseCategory => "earlyaccess" | _ => "stable" end)
      by (by destruct rc).
    destruct rc; cbn; destruct (String.eqb_spec t "earlyaccess") as [?|?], (String.eqb_spec t "stable") as [?|?]; split; congruence.
  - destruct fi; cbn; destruct (String.eqb_spec t "package") as [?|?], (String.eqb_spec t "installer") as [?|?]; split; congruence.
Qed.

(** ** Decisions *)

Section decisions.
Context `{SV : SemVer} {SL : SemVerLaws} `{UN : !UpdateNet, SG : Signing, SH : Sha512, SO : SortLess}.

(** The conditions on a release that concern everything but the version of the bridge and the package. *)
Definition offered (c : check_env) (r : Release) : bool :=
  match rel_version r with
  | None => false
  | Some v => UpdateEligible (rel_category r) (updateChannel c) && GreaterThan v (curVersion c) &&
              Qle_bool (updateRollout c) (RolloutProportion r) && system_ok c r
  end.
Definition needs_newer_bridge (c : check_env) (r : Release) : bool :=
  match MinAuto r with Some m => LessThan (curVersion c) m | None => false end.
Definition acceptable (c : check_env) (r : Release) : bool :=
  offered c r && negb (needs_newer_bridge c r) && match package_of r with Some _ => true | None => false end.

Definition version_of (r : Release) : Ver := default zero_version (rel_version r).

(** The release to install by hand: of those that need a newer bridge, the first of the highest
    version. *)
Definition keep_manual (m r : Release) : Release := if GreaterThan (version_of r) (version_of m) then r else m.
Definition manual (c : check_env) (releases : list Release) : Release :=
  foldl keep_manual no_release (Filter releases (fun r => offered c r && needs_newer_bridge c r)).

Definition manual_event (m : Release) : list update_event :=
  if Equal (version_of m) zero_version then [] else [UpdateAvailable m false false].

Lemma check_releases_spec c m releases :
  (forall r, r ∈ releases -> rel_version r <> None) -> rel_version m <> None ->
  check_releases c m releases =
    match find_first (acceptable c) releases with
    | Some r => if autoUpdateEnabled c then ([], CheckInstalls r) else ([UpdateAvailable r true false], CheckDone)
    | None => (manual_event (foldl keep_manual m (Filter releases (fun r => offered c r && needs_newer_bridge c r))) ++ [UpdateNotAvailable], CheckDone)
    end.
Proof.
  revert m. induction releases as [|r releases IH]; intros m Hv Hm.
  - simpl. unfold manual_event, version_of. by destruct (rel_version m).
  - assert (Hv' : forall r, r ∈ releases -> rel_version r <> None) by (intros r' Hr'; apply Hv; by right).
    assert (IHm := IH m Hv' Hm). cbn [check_releases find_first Filter].
    specialize (Hv r (list_elem_of_here _ _)). unfold acceptable, offered. destruct (rel_version r) as [v|] eqn:Hr; [|done].
    destruct (UpdateEligible (rel_category r) (updateChannel c)); cbn [negb andb]; [|exact IHm].
    destruct (GreaterThan v (curVersion c)); cbn [negb andb]; [|exact IHm].
    destruct (Qle_bool (updateRollout c) (RolloutProportion r)); cbn [negb andb]; [|exact IHm].
    destruct (system_ok c r); cbn [negb andb]; [|exact IHm]. fold (needs_newer_bridge c r).
    destruct (needs_newer_bridge c r); cbn [negb andb foldl].
    + unfold keep_manual at 2, version_of at 1 2. rewrite Hr. destruct (rel_version m) as [vm|] eqn:Hvm; [|done].
      cbn [default from_option id]. destruct (GreaterThan v vm); apply IH; first [done|congruence].
    + destruct (package_of r); [|exact IHm]. by destruct (autoUpdateEnabled c).
Qed.

(** A check announces the first release of the list and decides for the first acceptable one,
    which is newer than the running version; it is installed when automatic updates are on
    and otherwise announced.  Without one, a release that needs a newer bridge is announced
    as incompatible, and the check ends without an update. *)
Theorem check_takes_first_acceptable c releases (latest := match releases with [] => [] | r :: _ => [UpdateLatest r] end) :
  (forall r, r ∈ releases -> rel_version r <> None) ->
  handleUpdate c releases =
    match find_first (acceptable c) releases with
    | Some r => if autoUpdateEnabled c then (latest, CheckInstalls r) else (latest ++ [UpdateAvailable r true false], CheckDone)
    | None => (latest ++ manual_event (manual c releases) ++ [UpdateNotAvailable], CheckDone)
    end.
Proof.
  intros Hv. unfold handleUpdate. rewrite check_releases_spec by done. fold latest. unfold manual.
  destruct (find_first (acceptable c) releases) as [r|]; [|done]. destruct (autoUpdateEnabled c); [by rewrite app_nil_r|done].
Qed.

(** ** Installations *)

Lemma Compare_refl a : Compare a a = Eq.
Proof. assert (H := Compare_opp a a). by destruct (Compare a a). Qed.

Lemma Compare_lt_trans a b c : Compare a b = Lt -> Compare b c = Lt -> Compare a c = Lt.
Proof.
  intros Hab Hbc. assert (Hle : Compare a c <> Gt) by (apply (Compare_le_trans a b c); congruence).
  destruct (Compare a c) eqn:Hac; [exfalso|done|done].
  assert (Hca : Compare c a <> Gt) by (rewrite Compare_opp, Hac; done).
  assert (Hba := Compare_le_trans b c a). rewrite Hbc in Hba. specialize (Hba ltac:(done) Hca).
  rewrite Compare_opp, Hab in Hba. done.
Qed.

Lemma GreaterThan_lt a b : GreaterThan a b = true -> Compare b a = Lt.
Proof. unfold GreaterThan. rewrite (Compare_opp a b). by destruct (Compare a b). Qed.

(** The versions installed according to the events. *)
Definition installed_by (e : update_event) : option Ver :=
  match e with UpdateInstalled r _ => rel_version r | _ => None end.
Definition installed (es : list update_event) : list Ver := omap installed_by es.

(** Each installation is of a higher version than the one before, and the bridge knows the last. *)
Definition climbs (s s' : UpdateState) : Prop :=
  exists es, up_events s' = up_events s ++ es /\
    StronglySorted (fun a b => Compare a b = Lt) (newVersion s :: installed es) /\
    last (newVersion s :: installed es) = Some (newVersion s').

Lemma last_two {A} (x y : A) l : last (x :: l) = Some y -> l <> [] -> last l = Some y.
Proof. destruct l; done. Qed.

#[local] Instance climbs_trans : Transitive climbs.
Proof.
  intros s1 s2 s3 (es1 & He1 & Hs1 & Hl1) (es2 & He2 & Hs2 & Hl2). exists (es1 ++ es2).
  rewrite He2, He1, <- app_assoc. unfold installed in *. rewrite omap_app. split; [done|].
  rewrite app_comm_cons. split.
  - apply last_Some in Hl1 as [l Hl]. rewrite Hl in *. rewrite <- app_assoc. simpl.
    clear - Hs1 Hs2 SL. induction l as [|x l IH]; simpl in *; [done|].
    apply StronglySorted_cons in Hs1 as [Hx Hs1]. apply StronglySorted_cons. split; [|by apply IH].
    apply Forall_app in Hx as [Hx Hn]. rewrite Forall_singleton in Hn. apply Forall_app. split; [done|].
    constructor; [done|]. apply StronglySorted_cons in Hs2 as [H2 _].
    eapply Forall_impl; [exact H2|]. intros y Hy. by apply (Compare_lt_trans x (newVersion s2)).
  - destruct (omap installed_by es2) as [|v vs] eqn:Ho.
    + rewrite app_nil_r. injection Hl2 as <-. done.
    + rewrite last_app. by rewrite (last_two _ _ _ Hl2).
Qed.

Lemma climbs_quiet s s' es : newVersion s' = newVersion s -> up_events s' = up_events s ++ es -> installed es = [] -> climbs s s'.
Proof. intros Hn He Hi. exists es. rewrite Hi, Hn. split; [done|]. split; [|done]. repeat constructor. Qed.

Lemma installUpdate_climbs u env r silent s s' : installUpdate u env r silent s = Some s' -> climbs s s'.
Proof.
  unfold installUpdate. destruct (rel_version r) as [v|] eqn:Hv; simpl; [|done]. intros [= <-].
  destruct (GreaterThan v (newVersion s)) eqn:Hg; cbn [negb]; [|by apply (climbs_quiet s s []); [|rewrite app_nil_r|]].
  destruct (InstallUpdate u env r v (up_files s)) as [fs [e|]].
  - destruct e; first [by apply (climbs_quiet s _ [UpdateAvailable r true silent])|
      eapply climbs_quiet; [done|simpl; by rewrite <- app_assoc|done]].
  - exists [UpdateAvailable r true silent; UpdateInstalled r silent]. simpl. rewrite <- app_assoc. split; [done|].
    rewrite Hv. split; [|done]. apply StronglySorted_cons. split; [|repeat constructor].
    rewrite Forall_singleton. by apply GreaterThan_lt.
Qed.

Lemma handleUpdate_installs_nothing c releases : installed (handleUpdate c releases).1 = [].
Proof.
  unfold handleUpdate. destruct (check_releases c no_release releases) as [es e] eqn:Hc. simpl.
  assert (Hes : forall m, installed (check_releases c m releases).1 = []).
  { clear. induction releases as [|r releases IH]; intros m; simpl.
    - destruct (rel_version m) as [v|]; [|done]. by destruct (Equal v zero_version).
    - repeat (case_match; simpl; auto). }
  specialize (Hes no_release). rewrite Hc in Hes. unfold installed in *. rewrite omap_app. simpl in Hes. rewrite Hes. by destruct releases.
Qed.

Lemma update_step_climbs u env i s s' : update_step u env i s = Some s' -> climbs s s'.
Proof.
  destruct i as [c|r|]; simpl.
  - destruct (GetVersionInfo u) as [releases|e]; [|intros [= <-]; by eapply climbs_quiet].
    assert (Hn := handleUpdate_installs_nothing c releases). destruct (handleUpdate c releases) as [es [|r|]]; simpl in Hn; [| |done].
    + intros [= <-]. by eapply climbs_quiet.
    + intros Hi. etrans; [|by eapply installUpdate_climbs]. by eapply climbs_quiet.
  - apply installUpdate_climbs.
  - intros [= <-]. by eapply (climbs_quiet _ _ []); [|rewrite app_nil_r|].
Qed.

Fixpoint update_run (u : Updater) (env : sys_env) (inputs : list update_input) (s : UpdateState) : option UpdateState :=
  match inputs with [] => Some s | i :: inputs => update_step u env i s ≫= update_run u env inputs end.

(** C5: Whatever is checked, asked for and removed, the versions announced as installed climb strictly
    from the running version, and the last of them is the new version of the bridge. *)
Theorem updates_never_downgrade u env inputs s s' : update_run u env inputs s = Some s' ->
  exists es, up_events s' = up_events s ++ es /\
    StronglySorted (fun a b => Compare a b = Lt) (newVersion s :: installed es) /\
    last (newVersion s :: installed es) = Some (newVersion s').
Proof.
  revert s. induction inputs as [|i inputs IH]; intros s; cbn [update_run].
  - intros [= <-]. apply (climbs_quiet s s []); [done|by rewrite app_nil_r|done].
  - destruct (update_step u env i s) as [s1|] eqn:Hs; simpl; [|done]. intros Hr.
    exact (climbs_trans s s1 s' (update_step_climbs _ _ _ _ _ Hs) (IH s1 Hr)).
Qed.

End decisions.

(** ** Closing while an update is handed over

    The check hands a release to the goroutine that installs through a channel without a
    buffer and without looking at its context; closing the bridge cancels the context of both and
    waits for them. *)
Module Handover.

Inductive checker : Type := Checking | Sending | CheckerEnded.
Inductive installer : Type := Receiving | Installing | InstallerEnded.
Record state : Type := mkState { st_checker : checker; st_installer : installer; cancelled : bool }.

Inductive step : state -> state -> Prop :=
| finds_update i c : step (mkState Checking i c) (mkState Sending i c)
| finds_none i c : step (mkState Checking i c) (mkState CheckerEnded i c)
| hands_over c : step (mkState Sending Receiving c) (mkState CheckerEnded Installing c)
| installs s c : step (mkState s Installing c) (mkState s Receiving c)
| cancels s i : step (mkState s i false) (mkState s i true)
| receiver_ends s : step (mkState s Receiving true) (mkState s InstallerEnded true).

Definition closed (s : state) : Prop := st_checker s = CheckerEnded /\ st_installer s = InstallerEnded.

(** The bridge can get into a state from which it never closes. *)
Example close_can_hang : exists s, rtc step (mkState Checking Receiving false) s /\ cancelled s = true /\ ~ closed s /\ forall s', ~ step s s'.
Proof.
  exists (mkState Sending InstallerEnded true). split; [|split; [done|split]].
  - eapply rtc_l; [apply finds_update|]. eapply rtc_l; [apply cancels|]. eapply rtc_l; [apply receiver_ends|]. done.
  - by intros [[=] _].
  - intros s' Hs. inversion Hs.
Qed.

End Handover.

(** ** Examples *)

#[local] Existing Instances ex_semver ex_semver_laws merge_sort_lists ex_sha ex_signing.

Definition ex_release (v : string) (c : ReleaseCategory) (minAuto : string) : Release :=
  mkRelease c (StrictNewVersion v) (mkSystemVersion "13" "") 1 (StrictNewVersion minAuto) "" ""
    [mkFile ("https://host/" +:+ v) "" PackageIdentifier].
Definition ex_releases : list Release :=
  [ex_release "4.0.0" EarlyAccessReleaseCategory "3.0.0"; ex_release "3.21.0" StableReleaseCategory "3.20.0";
   ex_release "3.20.1" StableReleaseCategory "3.10.0"].

(** The package of 3.20.1 ends early. *)
Definition ex_package (url : string) : list tar_entry :=
  [TarDir "."; TarFile "bridge" true (ex_bytes "exe")] ++
  if String.eqb url "https://host/3.20.1" then [TarBroken (ErrOther "unexpected EOF")] else [].
Definition ex_net (releases : list Release) : UpdateNet :=
  {| DownloadAndVerify := fun url sig => Ok url; decode_releases := fun _ => Ok releases; unpack := fun b => Ok (ex_package b) |}.

Definition ex_updater : Updater := mkUpdater ["updates"] "bridge" "linux" Linux "https://host".
Definition ex_at (v : string) (host : string) : check_env :=
  mkCheckEnv StableChannel (1 # 2) true (default zero_version (StrictNewVersion v)) Darwin (Some host).
Definition ex_state (v : string) : UpdateState := mkUpdateState (default zero_version (StrictNewVersion v)) ex_updates [].

Lemma system_version_range_witness :
  (IsHostVersionEligible Darwin "13.2.1" (mkSystemVersion "12.7" "13")).1 = true.
Proof.
  apply (proj2 (system_version_range "13.2.1" (mkSystemVersion "12.7" "13") [13; 2; 1] [12; 7] [13] ltac:(discriminate) eq_refl eq_refl eq_refl)).
  split; discriminate.
Defined.

Lemma check_takes_first_acceptable_witness :
  find_first (acceptable (ex_at "3.10.0" "13.1")) ex_releases = Some (ex_release "3.20.1" StableReleaseCategory "3.10.0") /\
  (handleUpdate (ex_at "3.10.0" "13.1") ex_releases).2 = CheckInstalls (ex_release "3.20.1" StableReleaseCategory "3.10.0").
Proof.
  assert (Hf : find_first (acceptable (ex_at "3.10.0" "13.1")) ex_releases = Some (ex_release "3.20.1" StableReleaseCategory "3.10.0"))
    by (vm_compute; reflexivity).
  split; [exact Hf|]. rewrite (check_takes_first_acceptable (ex_at "3.10.0" "13.1") ex_releases).
  - rewrite Hf. reflexivity.
  - intros r Hr. repeat (apply elem_of_cons in Hr as [->|Hr]; [discriminate|]). by apply elem_of_nil in Hr.
Defined.

Definition ex_inputs : list update_input :=
  [InCheck (ex_at "3.10.0" "13.1"); InInstall (ex_release "3.21.0" StableReleaseCategory "3.20.0");
   InInstall (ex_release "3.20.1" StableReleaseCategory "3.10.0"); InRemoveOld].

Lemma updates_never_downgrade_witness : exists s',
  update_run (UN := ex_net ex_releases) ex_updater ex_env ex_inputs (ex_state "3.10.0") = Some s' /\
  last (newVersion (ex_state "3.10.0") :: installed (up_events s')) = Some (newVersion s').
Proof.
  assert (Hrun : match update_run (UN := ex_net ex_releases) ex_updater ex_env ex_inputs (ex_state "3.10.0") with Some _ => true | None => false end = true)
    by (vm_compute; reflexivity).
  destruct (update_run (UN := ex_net ex_releases) ex_updater ex_env ex_inputs (ex_state "3.10.0")) as [s'|] eqn:Hr; [|discriminate Hrun].
  exists s'. split; [reflexivity|].
  destruct (updates_never_downgrade (UN := ex_net ex_releases) ex_updater ex_env ex_inputs (ex_state "3.10.0") s' Hr) as (es & He & _ & Hl).
  rewrite He. exact Hl.
Defined.

(** An installation that fails on the way leaves its directory: from then on the release counts as
    installed, and asking for it again does nothing, without a word to the user. *)
Definition events_of (s : option UpdateState) : list string :=
  match s with
  | None => ["panic"]
  | Some s => (fun e => match e with UpdateAvailable _ _ _ => "available" | UpdateInstalled _ _ => "installed" | UpdateFailed _ _ => "failed" | _ => "other" end)
                <$> up_events s
  end.
Example failed_installation_not_repeated :
  let r := ex_release "3.20.1" StableReleaseCategory "3.10.0" in
  events_of (update_run (UN := ex_net []) ex_updater ex_env [InInstall r; InInstall r] (ex_state "3.10.0")) = ["available"; "failed"; "available"].
Proof. vm_compute. reflexivity. Qed.

(** A release without a version stops the check with a panic. *)
Example missing_version_panics :
  (handleUpdate (ex_at "3.10.0" "13.1") (mkRelease StableReleaseCategory None (mkSystemVersion "" "") 1 None "" "" [] :: ex_releases)).2 = CheckPanics.
Proof. vm_compute. reflexivity. Qed.
