(* ===== verification/FolderSync.v ===== *)
(** * Replacing an application folder by its update (internal/updater/sync.go)

    On macOS an update is unpacked beside the application and the application's folder is
    made equal to it: what the update does not have is removed, then every directory, link
    and file is copied, with a backup to go back to.

    The three folders (the application, the update, the backup) do not contain one another; each
    is a tree, a map from paths below its root, the root included, to what [Lstat] says is there.
    Any call to the system can be refused, by what it is and at which path, and in each phase anew. *)

From S2P Require Import Prelude.
From S2P Require Import Strings.
From S2P Require Import Effects.
From S2P Require Import UserEvents.
From S2P Require Import Files.

(** [EOther]: pipes, sockets, devices. *)
Inductive entry : Type := EFile (mode : Z) (data : string) | EDir (mode : Z) | ELink (target : string) | EOther (mode : Z).
Notation tree := (gmap path entry) (only parsing).

Inductive phase : Type := BackingUp | Cleaning | Copying | Restoring.
Inductive sys_call : Type := SysVisit | SysLstat | SysReadlink | SysRemove | SysRemoveAll | SysSymlink | SysMkdir | SysOpenFile | SysWrite | SysRename | SysSumSource | SysSumTarget | SysOpen.

(** [refused]: the error of a call; [removed_first]: what a failing [RemoveAll] has removed; [written_first]: how
    much a failing copy has written. *)
Class SysFaults : Type := {
  refused : phase -> sys_call -> path -> option err;
  removed_first : phase -> path -> path -> bool;
  written_first : phase -> path -> nat
}.
Class Sha256 : Type := sha256 : string -> string.

Definition err_irregular_source : err := ErrOther "irregular source file: copy not implemented".
Definition err_irregular_target : err := ErrOther "irregular target file: copy not implemented".

Definition is_link (e : entry) : bool := match e with ELink _ => true | _ => false end.
Definition is_folder (e : entry) : bool := match e with EDir _ => true | _ => false end.
Definition is_regular (e : entry) : bool := match e with EFile _ _ => true | _ => false end.

Section sync.
Context `{SF : SysFaults} `{SH : Sha256}.
Notation M := (eff tree err).

(** ** Calls to the system *)

Definition sys (ph : phase) (c : sys_call) (p : path) : M () := fun t => (t, match refused ph c p with Some e => Err e | None => Ok () end).

Definition lstat (ph : phase) (p : path) : M (option entry) := fun t =>
  (t, match refused ph SysLstat p with Some e => Err e | None => Ok (t !! p) end).

(** [os.Remove] of a link or a file. *)
Definition remove (ph : phase) (p : path) : M () := sys ph SysRemove p ≫= fun _ => modify (delete p).

(** It removes nothing when nothing is there. *)
Definition remove_all (ph : phase) (p : path) : M () := fun t =>
  match refused ph SysRemoveAll p with
  | Some e => (filter (fun '(q, _) => ~ (p `prefix_of` q /\ removed_first ph p q = true)) t, Err e)
  | None => (filter (fun '(q, _) => ~ p `prefix_of` q) t, Ok ())
  end.

(** The parent of the root is outside and is there. *)
Definition in_folder (t : tree) (p : path) : bool :=
  match p with [] => true | _ => match t !! Dir p with Some (EDir _) => true | _ => false end end.

Definition make_link (target : string) (p : path) : M () := fun t =>
  match t !! p with
  | Some _ => (t, Err err_exist)
  | None => if in_folder t p then (<[p := ELink target]> t, Ok ()) else (t, Err err_not_exist)
  end.
Definition symlink (ph : phase) (target : string) (p : path) : M () := sys ph SysSymlink p ≫= fun _ => make_link target p.

Definition mkdir_one (ph : phase) (mode : Z) (p : path) : M () := fun t =>
  match t !! p with
  | Some (EDir _) => (t, Ok ())
  | Some _ => (t, Err err_not_dir)
  | None => (sys ph SysMkdir p ≫= fun _ => modify <[p := EDir mode]>) t
  end.
Fixpoint mkdirs (ph : phase) (mode : Z) (above rest : path) : M () :=
  mkdir_one ph mode above ≫= fun _ => match rest with [] => mret () | s :: rest => mkdirs ph mode (above ++ [s]) rest end.
(** The directories above a path that do not exist are made too; one that exists keeps its mode. *)
Definition mkdir_all (ph : phase) (p : path) (mode : Z) : M () := mkdirs ph mode [] p.

(** ** Removing what the update does not have *)

(** Before the function is called for a path, its information, and the names in it, are read; with an error from that
    the walk ends.  The root has to be there. *)
Fixpoint walk_paths {St : Type} (ph : phase) (ps : list path) (f : path -> eff St err ()) : eff St err () :=
  match ps with
  | [] => mret ()
  | p :: ps => reads (fun _ => match refused ph SysVisit p with Some e => Err e | None => Ok () end) ≫= fun _ => f p ≫= fun _ => walk_paths ph ps f
  end.
Definition walk_order (t : tree) : list path := merge_sort path_le (map_to_list t).*1.
Definition walk_tree {St : Type} (ph : phase) (t : tree) (f : path -> eff St err ()) : eff St err () :=
  if decide (is_Some (t !! [])) then walk_paths ph (walk_order t) f else fails err_not_exist.

Definition existing_paths (ph : phase) (t : tree) : gset path * result err () :=
  walk_tree ph t (fun p => modify (fun s : gset path => {[p]} ∪ s)) ∅.
Definition missing_paths (ph : phase) (keep : gset path) (t : tree) : list path * result err () :=
  walk_tree ph t (fun p => modify (fun l : list path => if decide (p ∈ keep) then l else l ++ [p])) [].

Definition removeMissing (keep_tree : tree) : M () :=
  let '(keep, r) := existing_paths Cleaning keep_tree in
  reads (fun _ => r) ≫= fun _ =>
  get ≫= fun t =>
  let '(delList, r) := missing_paths Cleaning keep t in
  reads (fun _ => r) ≫= fun _ =>
  for_each delList (remove_all Cleaning).

(** ** Copying *)

(** The empty text when the file is not there or cannot be read; a link is not met here. *)
Definition checksum (ph : phase) (call : sys_call) (t : tree) (p : path) : string :=
  match t !! p with
  | Some (EFile _ data) =>
      match refused ph call p with None => sha256 data | Some _ => "" end
  | _ => ""
  end.

Definition temporary_of (p : path) : path := match last p with Some n => Dir p ++ [n +:+ ".tmp"] | None => p end.

(** What is written to a link or a device does not change the folder. *)
Definition open_truncated (p : path) (mode : Z) : M () := fun t =>
  match t !! p with
  | Some (EDir _) => (t, Err err_is_dir)
  | Some (EFile m _) => (<[p := EFile m ""]> t, Ok ())
  | Some _ => (t, Ok ())
  | None => if in_folder t p then (<[p := EFile mode ""]> t, Ok ()) else (t, Err err_not_exist)
  end.
Definition write_data (p : path) (data : string) : tree -> tree := alter (fun e => match e with EFile m _ => EFile m data | e => e end) p.
Definition copyToFileTruncate (ph : phase) (data : string) (p : path) (mode : Z) : M () :=
  sys ph SysOpenFile p ≫= fun _ => open_truncated p mode ≫= fun _ =>
  match refused ph SysWrite p with
  | Some e => modify (write_data p (str_take (written_first ph p) data)) ≫= fun _ => fails e
  | None => modify (write_data p data)
  end.

Definition move_entry (src dst : path) : M () := fun t =>
  match t !! src with
  | None => (t, Err err_not_exist)
  | Some e => match t !! dst with Some (EDir _) => (t, Err err_is_dir) | _ => (<[dst := e]> (delete src t), Ok ()) end
  end.
Definition rename (ph : phase) (src dst : path) : M () := sys ph SysRename dst ≫= fun _ => move_entry src dst.

Definition copyToTmpFileRename (ph : phase) (data : string) (p : path) (mode : Z) : M () :=
  copyToFileTruncate ph data (temporary_of p) mode ≫= fun _ => rename ph (temporary_of p) p.

(** What is in the way is removed. *)
Definition make_room (ph : phase) (src : entry) (p : path) : M () :=
  d ← lstat ph p;
  match d with
  | None => mret ()
  | Some (EOther _) => fails err_irregular_target
  | Some d =>
      (if is_link d then remove ph p else mret ()) ≫= fun _ =>
      (if is_folder d && negb (is_folder src) then remove_all ph p else mret ()) ≫= fun _ =>
      (if is_regular d && negb (is_regular src) then remove ph p else mret ())
  end.

Definition copy_file (ph : phase) (src : tree) (p : path) (mode : Z) (data : string) : M () :=
  dst ← get;
  if String.eqb (checksum ph SysSumSource src p) (checksum ph SysSumTarget dst p) then mret ()
  else sys ph SysOpen p ≫= fun _ => copyToTmpFileRename ph data p mode.

Definition copy_path (ph : phase) (src : tree) (p : path) : M () :=
  match src !! p with
  | None => mret ()
  | Some (EOther _) => fails err_irregular_source
  | Some (ELink target) => make_room ph (ELink target) p ≫= fun _ => sys ph SysReadlink p ≫= fun _ => symlink ph target p
  | Some (EDir mode) => make_room ph (EDir mode) p ≫= fun _ => mkdir_all ph p mode
  | Some (EFile mode data) => make_room ph (EFile mode data) p ≫= fun _ => copy_file ph src p mode data
  end.

Definition copyRecursively (ph : phase) (src : tree) : M () := walk_tree ph src (copy_path ph src).

(** ** Backups, and the whole *)

Definition mkdirAllClear (ph : phase) (mode : Z) : M () := remove_all ph [] ≫= fun _ => mkdir_all ph [] mode.
Definition backup_mode : Z := 488.
Definition createBackup (src : tree) : M () := mkdirAllClear BackingUp backup_mode ≫= fun _ => copyRecursively BackingUp src.

Definition restoreFromBackup (backup : tree) : M () := ignoring (copyRecursively Restoring backup).

Record folders : Type := mkFolders { local : tree; update : tree; backup : tree }.

Definition syncFolders (fs : folders) : folders * result err () :=
  match createBackup (local fs) (backup fs) with
  | (b, Err e) => (mkFolders (local fs) (update fs) b, Err e)
  | (b, Ok _) =>
      match (removeMissing (update fs) ≫= fun _ => copyRecursively Copying (update fs)) (local fs) with
      | (t, Err e) => (mkFolders (restoreFromBackup b t).1 (update fs) b, Err e)
      | (t, Ok _) => (mkFolders t (update fs) b, Ok ())
      end
  end.

End sync.

(** ** The order of a walk *)

#[export] Instance path_le_refl : Reflexive path_le.
Proof. intros p. unfold path_le. induction p as [|a p IH]; [done|]. cbn [path_leb]. by rewrite String.eqb_refl. Qed.

#[export] Instance path_le_trans : Transitive path_le.
Proof.
  intros p q r. unfold path_le. revert q r. induction p as [|a p IH]; intros [|b q] [|c r]; cbn [path_leb]; try done.
  destruct (String.eqb_spec a b) as [->|Hab], (String.eqb_spec b c) as [->|Hbc]; rewrite ?String.eqb_refl; [apply IH| |by destruct (String.eqb_spec a c)|].
  - by destruct (String.eqb_spec b c).
  - intros H1 H2. destruct (String.eqb_spec a c) as [->|_]; [destruct Hab; by apply String.leb_antisym|].
    apply Is_true_true, (transitivity (R := String.le) (y := b)); by apply Is_true_true.
Qed.

Lemma path_le_total p q : path_le p q \/ path_le q p.
Proof.
  unfold path_le. revert q. induction p as [|a p IH]; intros [|b q]; cbn [path_leb]; auto.
  rewrite (String.eqb_sym b a). destruct (String.eqb a b); [apply IH|]. apply String.leb_total.
Qed.

Lemma path_le_antisymm p q : path_le p q -> path_le q p -> p = q.
Proof.
  unfold path_le. revert q. induction p as [|a p IH]; intros [|b q]; cbn [path_leb]; try done.
  rewrite (String.eqb_sym b a). destruct (String.eqb_spec a b) as [->|Hab]; [intros; f_equal; by apply IH|].
  intros H1 H2. destruct Hab. by apply String.leb_antisym.
Qed.

Lemma path_le_prefix p q : p `prefix_of` q -> path_le p q.
Proof. intros [k ->]. unfold path_le. induction p as [|a p IH]; [done|]. cbn [path_leb app]. by rewrite String.eqb_refl. Qed.

Lemma elem_of_walk_order (t : tree) p : p ∈ walk_order t <-> is_Some (t !! p).
Proof.
  unfold walk_order. rewrite (merge_sort_Permutation path_le). split.
  - intros ([q e] & -> & Hq)%list_elem_of_fmap. apply elem_of_map_to_list in Hq. by exists e.
  - intros [e He]. apply list_elem_of_fmap. exists (p, e). split; [done|]. by apply elem_of_map_to_list.
Qed.

Lemma NoDup_walk_order (t : tree) : NoDup (walk_order t).
Proof. unfold walk_order. rewrite (merge_sort_Permutation path_le). apply NoDup_fst_map_to_list. Qed.

(** A path comes before those below it. *)
Lemma walk_order_split (t : tree) done p rest : walk_order t = done ++ p :: rest ->
  forall q, is_Some (t !! q) -> q `prefix_of` p -> q <> p -> q ∈ done.
Proof.
  intros Hw q Hq Hpre Hne. apply elem_of_walk_order in Hq. rewrite Hw in Hq. apply elem_of_app in Hq as [Hq|[->|Hq]%elem_of_cons]; [done|done|].
  assert (Hs : StronglySorted path_le (walk_order t)) by (apply StronglySorted_merge_sort; [intros ???; apply path_le_trans|intros a b; apply path_le_total]).
  rewrite Hw in Hs. apply StronglySorted_app in Hs as (_ & _ & Hs). apply StronglySorted_cons in Hs as [Hf _]. rewrite Forall_forall in Hf.
  destruct Hne. apply path_le_antisymm; [by apply path_le_prefix|by apply Hf].
Qed.

Lemma walk_order_not_below (t : tree) done p rest q : walk_order t = done ++ p :: rest -> q ∈ done -> ~ p `prefix_of` q.
Proof.
  intros Hw Hq Hpre. assert (Hnd := NoDup_walk_order t). rewrite Hw in Hnd. apply NoDup_app in Hnd as (_ & Hnd & _).
  assert (Hs : StronglySorted path_le (walk_order t)) by (apply StronglySorted_merge_sort; [intros ???; apply path_le_trans|intros a b; apply path_le_total]).
  rewrite Hw in Hs. apply StronglySorted_app in Hs as (Hs & _ & _). assert (Hle : path_le q p) by (apply Hs; [done|left]).
  assert (q = p) as -> by (apply path_le_antisymm; [done|by apply path_le_prefix]). apply (Hnd p Hq). left.
Qed.

(** ** What a step changes *)

Section sync_facts.
Context `{SF : SysFaults} `{SH : Sha256}.
Notation M := (eff tree err).

(** What is neither at or below [p] nor the temporary file of [p] stays; what is new is [p] or above it. *)
Definition changes (p : path) (t t' : tree) : Prop :=
  (forall q e, t !! q = Some e -> ~ p `prefix_of` q -> q <> temporary_of p -> t' !! q = Some e) /\
  (forall q e, t' !! q = Some e -> t !! q = Some e \/ q `prefix_of` p).

#[local] Instance changes_refl p : Reflexive (changes p).
Proof. split; auto. Qed.
#[local] Instance changes_trans p : Transitive (changes p).
Proof. intros t1 t2 t3 [H1 H2] [H3 H4]. split; [eauto|]. intros q e [Hq|Hq]%H4; [by apply H2|by right]. Qed.

(** Nothing is new, and only what is at or below [p] is gone. *)
Definition clears (p : path) (t t' : tree) : Prop := (forall q, ~ p `prefix_of` q -> t' !! q = t !! q) /\ t' ⊆ t.

#[local] Instance clears_refl p : Reflexive (clears p).
Proof. split; auto. Qed.
#[local] Instance clears_trans p : Transitive (clears p).
Proof. intros t1 t2 t3 [H1 H2] [H3 H4]. split; [|by etrans]. intros q Hq. by rewrite H3, H1. Qed.

Lemma clears_changes p t t' : clears p t t' -> changes p t t'.
Proof. intros [H1 H2]. split; [intros q e Hq Hp _; by rewrite H1|]. intros q e Hq. left. by eapply lookup_weaken. Qed.

Lemma clears_delete p t : clears p t (delete p t).
Proof. split; [|apply delete_subseteq]. intros q Hq. apply lookup_delete_ne. by intros ->. Qed.

Lemma clears_filter (P : path * entry -> Prop) `{!forall x, Decision (P x)} p t : (forall q e, ~ p `prefix_of` q -> P (q, e)) -> clears p t (filter P t).
Proof.
  intros HP. split; [|apply map_filter_subseteq]. intros q Hq. apply option_eq. intros e. rewrite map_lookup_filter_Some. naive_solver.
Qed.

Lemma changes_insert p q e t : q `prefix_of` p -> t !! q = None \/ q = p -> changes p t (<[q := e]> t).
Proof.
  intros Hq Ht. split.
  - intros r e' Hr Hpre _. rewrite lookup_insert_ne; [done|]. intros <-. destruct Ht as [Ht| ->]; [congruence|]. by apply Hpre.
  - intros r e' Hr. destruct (decide (r = q)) as [->|Hne]; [by right|]. rewrite lookup_insert_ne in Hr by done. by left.
Qed.

Lemma leaves_sys ph c p q : leaves (clears p) (sys ph c q).
Proof. intros t. simpl. reflexivity. Qed.

Lemma leaves_remove ph p : leaves (clears p) (remove ph p).
Proof. apply leaves_bind; [apply _|apply leaves_sys|]. intros _ t. apply clears_delete. Qed.

Lemma leaves_remove_all ph p : leaves (clears p) (remove_all ph p).
Proof. intros t. unfold remove_all. destruct (refused _ _ _); apply clears_filter; intros q e' Hq; tauto. Qed.

Lemma leaves_if (R : tree -> tree -> Prop) `{!Reflexive R} (b : bool) (m : M ()) : leaves R m -> leaves R (if b then m else mret ()).
Proof. intros Hm. destruct b; [done|by apply leaves_ret]. Qed.

Lemma leaves_make_room ph src p : leaves (clears p) (make_room ph src p).
Proof.
  apply leaves_bind; [apply _|intros t; unfold lstat; simpl; reflexivity|]. intros [d|]; [|by apply leaves_ret, _].
  assert (Hd : leaves (clears p) ((if is_link d then remove ph p else mret ()) ≫= fun _ => (if is_folder d && negb (is_folder src) then remove_all ph p else mret ()) ≫= fun _ =>
      (if is_regular d && negb (is_regular src) then remove ph p else mret ()))).
  { apply leaves_bind; [apply _|apply leaves_if; [apply _|apply leaves_remove]|]. intros _.
    apply leaves_bind; [apply _|apply leaves_if; [apply _|apply leaves_remove_all]|]. intros _. apply leaves_if; [apply _|apply leaves_remove]. }
  destruct d; exact Hd || apply leaves_fails, _.
Qed.

(** What is left in the way can stay: a folder where one goes, a file where one goes. *)
Lemma make_room_makes ph src p t t' : make_room ph src p t = (t', Ok ()) ->
  forall d, t' !! p = Some d -> is_folder d && is_folder src || is_regular d && is_regular src = true.
Proof.
  intros Hm d Hd. revert Hm. unfold make_room, lstat, remove, remove_all, sys, modify, fails, mbind, eff_bind, mret, eff_ret.
  destruct (refused ph SysLstat p); [done|]. destruct (t !! p) as [[m b|m|g|m]|] eqn:Ht; cbn [is_link is_folder is_regular andb negb]; [| | |done|intros [= <-]; congruence].
  - destruct (is_regular src) eqn:Hs; cbn [negb]; [intros [= <-]; rewrite Ht in Hd; injection Hd as <-; cbn [is_folder is_regular andb orb]; done|].
    destruct (refused ph SysRemove p); [done|]. intros [= <-]. by rewrite lookup_delete_eq in Hd.
  - destruct (is_folder src) eqn:Hs; cbn [negb]; [intros [= <-]; rewrite Ht in Hd; injection Hd as <-; done|].
    destruct (refused ph SysRemoveAll p); [done|]. intros [= <-]. apply map_lookup_filter_Some in Hd as [_ Hd]. by destruct Hd.
  - destruct (refused ph SysRemove p); [done|]. intros [= <-]. by rewrite lookup_delete_eq in Hd.
Qed.

Lemma mkdir_one_changes ph mode p q : q `prefix_of` p -> leaves (changes p) (mkdir_one ph mode q).
Proof.
  intros Hq t. unfold mkdir_one. destruct (t !! q) as [[]|] eqn:Ht; simpl; try reflexivity.
  unfold sys, modify, mbind, eff_bind. destruct (refused ph SysMkdir q); [done|]. apply changes_insert; auto.
Qed.

Lemma mkdirs_changes ph mode p above rest : (above ++ rest) `prefix_of` p -> leaves (changes p) (mkdirs ph mode above rest).
Proof.
  revert above. induction rest as [|s rest IH]; intros above Hp; cbn [mkdirs].
  - rewrite app_nil_r in Hp. apply leaves_bind; [apply _|by apply mkdir_one_changes|]. intros _. by apply leaves_ret, _.
  - apply leaves_bind; [apply _|apply mkdir_one_changes; by eapply prefix_app_l|]. intros _. apply IH. by rewrite <- app_assoc.
Qed.

Lemma mkdir_one_makes ph mode p t t' : mkdir_one ph mode p t = (t', Ok ()) -> exists m, t' !! p = Some (EDir m).
Proof.
  unfold mkdir_one, sys, modify, mbind, eff_bind. destruct (t !! p) as [[]|] eqn:Ht; try done; [intros [= <-]; eauto|].
  destruct (refused ph SysMkdir p); [done|]. intros [= <-]. exists mode. apply lookup_insert_eq.
Qed.

Lemma mkdirs_makes ph mode above rest t t' : mkdirs ph mode above rest t = (t', Ok ()) -> exists m, t' !! (above ++ rest) = Some (EDir m).
Proof.
  revert above t. induction rest as [|s rest IH]; intros above t; cbn [mkdirs]; rewrite eff_bind_Ok; intros (t1 & [] & H1 & H2).
  - injection H2 as <-. rewrite app_nil_r. by eapply mkdir_one_makes.
  - apply IH in H2. by rewrite <- app_assoc in H2.
Qed.

(** Two entries are the same but for their modes. *)
Definition same_entry (e e' : entry) : Prop :=
  match e, e' with EFile _ d, EFile _ d' => d = d' | EDir _, EDir _ => True | ELink g, ELink g' => g = g' | _, _ => False end.

Lemma symlink_makes ph g p t t' : symlink ph g p t = (t', Ok ()) -> t' = <[p := ELink g]> t.
Proof.
  unfold symlink, sys, make_link, mbind, eff_bind. destruct (refused _ _ _); [done|]. destruct (t !! p); [done|]. destruct (in_folder t p); [|done]. by intros [= <-].
Qed.

(** The temporary file of [p] is another file, or nothing is there. *)
Definition tmp_clear (p : path) (t : tree) : Prop := temporary_of p <> p /\ (t !! temporary_of p = None \/ exists m d, t !! temporary_of p = Some (EFile m d)).

Lemma copy_file_copies ph d p mode t t' : tmp_clear p t -> copyToTmpFileRename ph d p mode t = (t', Ok ()) ->
  exists m, t' = <[p := EFile m d]> (delete (temporary_of p) t).
Proof.
  intros [Hne Hclear]. unfold copyToTmpFileRename, copyToFileTruncate, rename, sys, open_truncated, move_entry, modify, fails, mbind, eff_bind.
  destruct (refused ph SysOpenFile (temporary_of p)); [done|].
  assert (Hopen : forall m (t0 : tree), t0 = <[temporary_of p := EFile m ""]> t ->
    delete (temporary_of p) (write_data (temporary_of p) d t0) = delete (temporary_of p) t /\ write_data (temporary_of p) d t0 !! temporary_of p = Some (EFile m d)).
  { intros m t0 ->. unfold write_data. rewrite alter_insert_eq. split; [by rewrite delete_insert_eq|apply lookup_insert_eq]. }
  assert (Hrest : forall m (t0 : tree), t0 = <[temporary_of p := EFile m ""]> t ->
    match (match refused ph SysWrite (temporary_of p) with
           | Some e => (write_data (temporary_of p) (str_take (written_first ph (temporary_of p)) d) t0, Err e)
           | None => (write_data (temporary_of p) d t0, Ok ()) end) with
    | (t1, Ok _) => match (match refused ph SysRename p with Some e => Err e | None => Ok () end) with
                    | Ok _ => match t1 !! temporary_of p with
                              | None => (t1, Err err_not_exist)
                              | Some e => match t1 !! p with Some (EDir _) => (t1, Err err_is_dir) | _ => (<[p := e]> (delete (temporary_of p) t1), Ok ()) end
                              end
                    | Err e => (t1, Err e) end
    | (t1, Err e) => (t1, Err e) end = (t', Ok ()) -> exists m, t' = <[p := EFile m d]> (delete (temporary_of p) t)).
  { intros m t0 Ht0. destruct (Hopen m t0 Ht0) as [H1 H2]. destruct (refused ph SysWrite _); [done|]. destruct (refused ph SysRename p); [done|]. rewrite H2.
    intros Hr. exists m. rewrite <- H1. by destruct (_ !! p) as [[]|]; injection Hr as <-. }
  destruct Hclear as [Hc|(m & b & Hc)]; rewrite Hc.
  - destruct (in_folder t _); [|done]. intros Hr. apply (Hrest mode _ eq_refl). destruct (refused ph SysWrite _); [done|]. exact Hr.
  - intros Hr. apply (Hrest m _ eq_refl). destruct (refused ph SysWrite _); [done|]. exact Hr.
Qed.

Lemma temporary_of_other p : temporary_of p <> p -> ~ temporary_of p `prefix_of` p /\ ~ p `prefix_of` temporary_of p.
Proof.
  intros Hne. assert (Hlen : length (temporary_of p) = length p).
  { unfold temporary_of, Dir. destruct (last p) as [n|] eqn:Hl; [|done]. apply last_Some in Hl as [l ->]. rewrite removelast_last, !length_app. done. }
  split; intros Hpre; apply Hne; [|symmetry]; apply (prefix_length_eq _ _ Hpre); lia.
Qed.

(** What copying an entry needs when it is a file. *)
Definition can_copy (ph : phase) (p : path) (e : entry) (t : tree) : Prop :=
  match e with
  | EFile _ d => tmp_clear p t /\ refused ph SysSumSource p = None /\ (forall m' d', t !! p = Some (EFile m' d') -> sha256 d = sha256 d' -> d = d')
  | _ => True
  end.

Lemma copy_file_step (ph : phase) (src : tree) (p : path) (m : Z) (d : string) (t t' : tree) : (forall d, sha256 d <> "") -> src !! p = Some (EFile m d) -> can_copy ph p (EFile m d) t ->
  (forall e, t !! p = Some e -> is_regular e = true) -> copy_file ph src p m d t = (t', Ok ()) ->
  changes p t t' /\ exists m', t' !! p = Some (EFile m' d).
Proof.
  intros Hsha Hsrc (Htmp & Hread & Hcol) Hreg. unfold copy_file, get, mbind, eff_bind. unfold checksum at 1. rewrite Hsrc, Hread.
  destruct (String.eqb_spec (sha256 d) (checksum ph SysSumTarget t p)) as [Heq|_].
  - intros [= <-]. split; [reflexivity|]. unfold checksum in Heq. destruct (t !! p) as [[m' d'| | |]|] eqn:Ht; try (by destruct (Hsha d)).
    destruct (refused ph SysSumTarget p); [by destruct (Hsha d)|]. exists m'. by rewrite (Hcol _ _ eq_refl Heq).
  - unfold sys at 1. destruct (refused ph SysOpen p); [done|]. intros Hc. destruct (copy_file_copies _ _ _ _ _ _ Htmp Hc) as [m' ->]. split; [|exists m'; apply lookup_insert_eq].
    split.
    + intros q e Hq Hp Hne. rewrite lookup_insert_ne by (intros ->; by apply Hp). by rewrite lookup_delete_ne.
    + intros q e Hq. destruct (decide (q = p)) as [->|Hne]; [by right|]. rewrite lookup_insert_ne in Hq by done. apply lookup_delete_Some in Hq as [_ Hq]. by left.
Qed.

Lemma copy_path_step (ph : phase) (src : tree) (p : path) (e : entry) (t t' : tree) : (forall d, sha256 d <> "") -> src !! p = Some e -> can_copy ph p e t -> copy_path ph src p t = (t', Ok ()) ->
  changes p t t' /\ exists e', t' !! p = Some e' /\ same_entry e e'.
Proof.
  intros Hsha Hsrc Hcan. unfold copy_path. rewrite Hsrc.
  assert (Hroom : forall t1 e, make_room ph e p t = (t1, Ok ()) -> clears p t t1) by (intros t1 e' Hm; assert (Hl := leaves_make_room ph e' p t); by rewrite Hm in Hl).
  destruct e as [m d|m|g|m]; [| | |done]; rewrite eff_bind_Ok; intros (t1 & [] & H1 & H2); assert (Hc := Hroom _ _ H1).
  - destruct (copy_file_step ph src p m d t1 t') as [Hch [m' Hp]]; try done; [| |split; [etrans; [by apply clears_changes|done]|by exists (EFile m' d)]].
    + destruct Hcan as ([Hne Hclear] & Hread & Hcol), Hc as [Hc1 Hc2]. split; [|split; [done|intros m' d' Hp; apply (Hcol m'); by eapply lookup_weaken]].
      split; [done|]. rewrite Hc1; [done|]. by apply temporary_of_other.
    + intros e He. assert (Hm := make_room_makes _ _ _ _ _ H1 e He). cbn [is_folder is_regular] in Hm. rewrite andb_false_r, andb_true_r in Hm. exact Hm.
  - assert (Hd := mkdirs_changes ph m p [] p (reflexivity _) t1). unfold mkdir_all in H2. rewrite H2 in Hd.
    split; [etrans; [by apply clears_changes|exact Hd]|]. destruct (mkdirs_makes _ _ _ _ _ _ H2) as [m' Hm']. by exists (EDir m').
  - unfold sys in H2. apply eff_bind_Ok in H2 as (t2 & [] & H2 & H3). destruct (refused ph SysReadlink p); [done|]. injection H2 as <-.
    apply symlink_makes in H3 as ->. split; [etrans; [by apply clears_changes|by apply changes_insert; [done|right]]|]. exists (ELink g). split; [apply lookup_insert_eq|done].
Qed.

(** *** Walks *)

Lemma walk_paths_ok {St : Type} (Inv : list path -> St -> Prop) (ph : phase) (f : path -> eff St err ()) (ps before : list path) (s s' : St) :
  (forall done p rest s s', before ++ ps = done ++ p :: rest -> Inv done s -> f p s = (s', Ok ()) -> Inv (done ++ [p]) s') ->
  Inv before s -> walk_paths ph ps f s = (s', Ok ()) -> Inv (before ++ ps) s'.
Proof.
  revert before s. induction ps as [|p ps IH]; intros before s Hstep Hinv; cbn [walk_paths]; [intros [= <-]; by rewrite app_nil_r|].
  rewrite eff_bind_Ok. intros (s1 & [] & H1 & H2). unfold reads in H1. injection H1 as -> _. apply eff_bind_Ok in H2 as (s2 & [] & H2 & H3).
  replace (before ++ p :: ps) with ((before ++ [p]) ++ ps) by (by rewrite <- app_assoc). apply (IH (before ++ [p]) s2); [|by eapply Hstep|done].
  intros done q rest s3 s4 He. apply Hstep with rest. rewrite <- He. by rewrite <- app_assoc.
Qed.

Lemma walk_tree_ok {St : Type} (Inv : list path -> St -> Prop) (ph : phase) (t : tree) (f : path -> eff St err ()) (s s' : St) :
  (forall done p rest s s', walk_order t = done ++ p :: rest -> Inv done s -> f p s = (s', Ok ()) -> Inv (done ++ [p]) s') ->
  Inv [] s -> walk_tree ph t f s = (s', Ok ()) -> Inv (walk_order t) s'.
Proof. intros Hstep Hinv. unfold walk_tree. destruct (decide _); [|done]. by apply (walk_paths_ok Inv ph f _ []). Qed.

(** A tree with a folder at its root and above everything else. *)
Definition well_formed (t : tree) : Prop :=
  (exists m, t !! [] = Some (EDir m)) /\ forall p e, t !! p = Some e -> p <> [] -> exists m, t !! Dir p = Some (EDir m).

Lemma well_formed_prefix (t : tree) (p q : path) : well_formed t -> is_Some (t !! p) -> q `prefix_of` p -> is_Some (t !! q).
Proof.
  intros [_ Hwf] Hp [k ->]. induction k as [|n k IH] using rev_ind; [by rewrite app_nil_r in Hp|]. apply IH. destruct Hp as [e He].
  destruct (Hwf _ _ He) as [m Hm]; [by destruct q, k|]. unfold Dir in Hm. rewrite app_assoc, removelast_last in Hm. by exists (EDir m).
Qed.

(** The source is a folder whose files can be read, where nothing has the name of another's temporary file; in the target such names are of files, and no file there has the hash of another one it is to be replaced by. *)
Definition copy_ready (ph : phase) (src t : tree) : Prop :=
  well_formed src /\
  (forall p, is_Some (src !! p) -> p <> [] -> src !! temporary_of p = None) /\
  forall p m d, src !! p = Some (EFile m d) ->
    (t !! temporary_of p = None \/ exists m' d', t !! temporary_of p = Some (EFile m' d')) /\
    refused ph SysSumSource p = None /\ (forall m' d', t !! p = Some (EFile m' d') -> sha256 d = sha256 d' -> d = d').

(** While copying: what was done is as it should be, and the rest is what was there, or less. *)
Definition copied (src t0 : tree) (done : list path) (t : tree) : Prop :=
  (forall q e, q ∈ done -> src !! q = Some e -> exists e', t !! q = Some e' /\ same_entry e e') /\
  (forall q e, t !! q = Some e -> q ∉ done -> t0 !! q = Some e).

Lemma copied_step (ph : phase) (src t0 : tree) (done : list path) (p : path) (rest : list path) (t t' : tree) : (forall d, sha256 d <> "") -> copy_ready ph src t0 -> walk_order src = done ++ p :: rest ->
  copied src t0 done t -> copy_path ph src p t = (t', Ok ()) -> copied src t0 (done ++ [p]) t'.
Proof.
  intros Hsha (Hwf & Hnotmp & Hready) Hw [Hdone Hrest] Hc.
  assert (Hin : forall q, q ∈ done -> is_Some (src !! q)) by (intros q Hq; apply elem_of_walk_order; rewrite Hw; apply elem_of_app; by left).
  assert (Hsrc : is_Some (src !! p)) by (apply elem_of_walk_order; rewrite Hw; apply elem_of_app; right; left). destruct Hsrc as [e Hsrc].
  assert (Hnot : forall q, src !! q = None -> q ∉ done) by (intros q Hq Hd; destruct (Hin q Hd); congruence).
  assert (Hp : p ∉ done) by (intros Hd; by apply (walk_order_not_below _ _ _ _ _ Hw Hd)).
  destruct (copy_path_step ph src p e t t' Hsha Hsrc) as [[Hch1 Hch2] (e' & He' & Hsame)]; [|done|].
  - destruct e as [m d| | |]; try done. destruct (Hready _ _ _ Hsrc) as (Hclear & Hread & Hcol).
    assert (Hne : p <> []) by (intros ->; destruct Hwf as [[? ?] _]; congruence). assert (Htmp := Hnotmp p (mk_is_Some _ _ Hsrc) Hne).
    split; [split; [intros He; congruence|]|split; [done|intros m' d' Ht; apply (Hcol m'); by apply Hrest]].
    destruct (t !! temporary_of p) as [x|] eqn:Hx; [right|by left]. apply Hrest in Hx; [|by apply Hnot]. destruct Hclear as [Hn|(m' & d' & Hs)]; [congruence|].
    exists m', d'. congruence.
  - split.
    + intros q x Hq Hx. apply elem_of_app in Hq as [Hq| ->%list_elem_of_singleton]; [|exists e'; split; [done|congruence]].
      destruct (Hdone q x Hq Hx) as (y & Hy & Hxy). exists y. split; [|done]. apply (Hch1 _ _ Hy); [by apply (walk_order_not_below _ _ _ _ _ Hw)|].
      intros ->. destruct (decide (p = [])) as [->|Hne]; [done|]. apply (Hnot _ (Hnotmp p (mk_is_Some _ _ Hsrc) Hne) Hq).
    + intros q x Hq Hx. rewrite not_elem_of_app, list_elem_of_singleton in Hx. destruct Hx as [Hx Hqp]. destruct (Hch2 _ _ Hq) as [Ht|Hpre]; [by apply Hrest|].
      destruct Hx. apply (walk_order_split _ _ _ _ Hw); [|done..]. by apply (well_formed_prefix src p).
Qed.

(** Copying a folder succeeds only with everything in it at its place, and nothing else is new. *)
Lemma copyRecursively_copies (ph : phase) (src t t' : tree) : (forall d, sha256 d <> "") -> copy_ready ph src t -> copyRecursively ph src t = (t', Ok ()) ->
  forall p, match src !! p with Some e => exists e', t' !! p = Some e' /\ same_entry e e' | None => t' !! p = None \/ t' !! p = t !! p end.
Proof.
  intros Hsha Hready Hc p.
  assert (Hinv : copied src t (walk_order src) t').
  { apply (walk_tree_ok (copied src t) ph src (copy_path ph src) t); [|by split; [intros q e Hq; apply elem_of_nil in Hq|]|done].
    intros done q rest s s' Hw. by eapply copied_step. }
  destruct Hinv as [H1 H2]. destruct (src !! p) as [e|] eqn:Hp.
  - apply H1; [|done]. apply elem_of_walk_order. by exists e.
  - destruct (t' !! p) as [e|] eqn:He; [right|by left]. symmetry. apply H2; [done|]. rewrite elem_of_walk_order. intros [? ?]. congruence.
Qed.

(** *** Removing *)

Lemma existing_paths_ok (ph : phase) (t : tree) (keep : gset path) : existing_paths ph t = (keep, Ok ()) -> forall p, p ∈ keep <-> is_Some (t !! p).
Proof.
  intros Hk p. rewrite <- elem_of_walk_order.
  apply (walk_tree_ok (fun done (k : gset path) => forall p, p ∈ k <-> p ∈ done) ph t (fun p => modify (fun s : gset path => {[p]} ∪ s)) ∅); [|set_solver|exact Hk].
  intros done q rest k k' _ Hd [= <-] r. rewrite elem_of_union, elem_of_singleton, elem_of_app, list_elem_of_singleton, Hd. tauto.
Qed.

Lemma missing_paths_ok (ph : phase) (keep : gset path) (t : tree) (del : list path) : missing_paths ph keep t = (del, Ok ()) -> forall p, p ∈ del <-> is_Some (t !! p) /\ p ∉ keep.
Proof.
  intros Hk p. rewrite <- elem_of_walk_order.
  apply (walk_tree_ok (fun done (l : list path) => forall p, p ∈ l <-> p ∈ done /\ p ∉ keep) ph t (fun p => modify (fun l : list path => if decide (p ∈ keep) then l else l ++ [p])) []); [|set_solver|exact Hk].
  intros done q rest k k' _ Hd [= <-] r. rewrite elem_of_app, list_elem_of_singleton. destruct (decide (q ∈ keep)) as [Hq|Hq]; [|rewrite elem_of_app, list_elem_of_singleton]; rewrite Hd; naive_solver.
Qed.

Lemma remove_all_each (ph : phase) (del : list path) (t t' : tree) : for_each del (remove_all ph) t = (t', Ok ()) ->
  forall q e, t' !! q = Some e <-> t !! q = Some e /\ forall p, p ∈ del -> ~ p `prefix_of` q.
Proof.
  revert t. induction del as [|p del IH]; intros t; cbn [for_each]; [intros [= <-] q e; split; [split; [done|by intros p Hp%elem_of_nil]|tauto]|].
  rewrite eff_bind_Ok. intros (t1 & [] & H1 & H2) q e. unfold remove_all in H1. destruct (refused ph SysRemoveAll p); [done|]. injection H1 as <-.
  rewrite (IH _ H2), map_lookup_filter_Some. setoid_rewrite elem_of_cons. naive_solver.
Qed.

(** What is left is what the update has. *)
Lemma removeMissing_keeps (keep t t' : tree) : well_formed keep -> removeMissing keep t = (t', Ok ()) ->
  forall q e, t' !! q = Some e <-> t !! q = Some e /\ is_Some (keep !! q).
Proof.
  intros Hwf. unfold removeMissing. destruct (existing_paths Cleaning keep) as [ks r] eqn:Hk. rewrite eff_bind_Ok. intros (t1 & [] & H1 & H2). injection H1 as <- ->.
  apply eff_bind_Ok in H2 as (t2 & t3 & H2 & H3). unfold get in H2. injection H2 as <- <-. destruct (missing_paths Cleaning ks t) as [del r] eqn:Hm.
  apply eff_bind_Ok in H3 as (t2 & [] & H3 & H4). injection H3 as <- ->. intros q e. rewrite (remove_all_each _ _ _ _ H4).
  assert (Hks := existing_paths_ok _ _ _ Hk). assert (Hdel := missing_paths_ok _ _ _ _ Hm). split; intros [Hq Hrest]; split; try done.
  - destruct (decide (is_Some (keep !! q))) as [|Hno]; [done|]. destruct (Hrest q); [|done]. apply Hdel. split; [by exists e|]. by rewrite Hks.
  - intros p [_ Hp]%Hdel Hpre. apply Hp, Hks. by eapply well_formed_prefix.
Qed.

(** ** The whole *)

(** Two trees have the same entries, but for their modes. *)
Definition same_tree (t t' : tree) : Prop := forall p, match t !! p, t' !! p with Some e, Some e' => same_entry e e' | None, None => True | _, _ => False end.


Definition empty_backup : tree := {[ [] := EDir backup_mode ]}.

Lemma createBackup_same (t b b' : tree) : (forall d, sha256 d <> "") -> copy_ready BackingUp t empty_backup -> createBackup t b = (b', Ok ()) -> same_tree t b'.
Proof.
  intros Hsha Hready. unfold createBackup. rewrite eff_bind_Ok. intros (t1 & [] & H1 & H2).
  assert (t1 = empty_backup) as ->.
  { unfold mkdirAllClear in H1. apply eff_bind_Ok in H1 as (t2 & [] & H1 & H3). unfold remove_all in H1. destruct (refused _ SysRemoveAll _); [done|]. injection H1 as <-.
    match type of H3 with _ ?t0 = _ => assert (He : t0 = ∅) by (apply map_empty; intros q; apply map_lookup_filter_None; right; intros e _ Hq; apply Hq, prefix_nil); rewrite He in H3 end.
    unfold mkdir_all, mkdirs, mkdir_one, sys, modify, mbind, eff_bind, mret, eff_ret in H3. rewrite lookup_empty in H3. destruct (refused _ SysMkdir _); [done|]. by injection H3 as <-. }
  intros p. assert (Hp := copyRecursively_copies _ _ _ _ Hsha Hready H2 p). destruct (t !! p) as [e|] eqn:He.
  - destruct Hp as (e' & -> & Hs). done.
  - destruct p as [|n p]; [destruct Hready as [[[m Hm] _] _]; congruence|]. unfold empty_backup in Hp. rewrite lookup_singleton_ne in Hp by done. by destruct Hp as [->| ->].
Qed.

(** When the replacement fails, the update is unchanged, and the application's folder too unless the backup
    was complete; then what was done is followed by a restore, and if that succeeds every file, link and
    folder of the application is back with its content. *)
Theorem syncFolders_restores (fs fs' : folders) (e : err) :
  (forall d, sha256 d <> "") -> copy_ready BackingUp (local fs) empty_backup -> syncFolders fs = (fs', Err e) ->
  update fs' = update fs /\
  (local fs' = local fs \/
   exists t, local fs' = (restoreFromBackup (backup fs') t).1 /\ same_tree (local fs) (backup fs') /\
     (copy_ready Restoring (backup fs') t -> is_ok (copyRecursively Restoring (backup fs') t).2 = true ->
      forall p x, local fs !! p = Some x -> exists x', local fs' !! p = Some x' /\ same_entry x x')).
Proof.
  intros Hsha Hready. unfold syncFolders. destruct (createBackup (local fs) (backup fs)) as [b [[]|e1]] eqn:Hb; [|intros [= <- _]; auto].
  destruct ((removeMissing _ ≫= _) (local fs)) as [t [[]|e1]] eqn:Hrun; [done|]. intros [= <- _]. split; [done|]. right. exists t. cbn [update local backup]. split; [done|].
  assert (Hsame := createBackup_same _ _ _ Hsha Hready Hb). split; [done|]. intros Hr Hok p x Hx.
  unfold restoreFromBackup, ignoring. cbn [fst]. destruct (copyRecursively Restoring b t) as [t' [[]|]] eqn:Hc; [|done].
  assert (Hp := copyRecursively_copies _ _ _ _ Hsha Hr Hc p). specialize (Hsame p). rewrite Hx in Hsame.
  destruct (b !! p) as [y|]; [|done]. destruct Hp as (x' & Hx' & Hs). exists x'. split; [done|]. destruct x, y, x'; try done; cbn [same_entry] in *; congruence.
Qed.

End sync_facts.

(** ** Examples *)

Section examples.
Definition ex_sha : Sha256 := fun d => "#" +:+ d.
Definition no_faults : SysFaults := {| refused := fun _ _ _ => None; removed_first := fun _ _ _ => false; written_first := fun _ _ => 0%nat |}.
Definition faulty (ph : phase) (c : sys_call) (p : path) : SysFaults :=
  {| refused := fun ph' c' p' => match ph, ph' with
       | BackingUp, BackingUp | Cleaning, Cleaning | Copying, Copying | Restoring, Restoring =>
           match c, c' with SysSumSource, SysSumSource | SysRename, SysRename => if bool_decide (p = p') then Some err_denied else None | _, _ => None end
       | _, _ => None end;
     removed_first := fun _ _ _ => false; written_first := fun _ _ => 0%nat |}.
Local Existing Instances ex_sha.

Definition ex_local : tree := list_to_map [([], EDir 493); (["bin"], EDir 493); (["bin"; "app"], EFile 420 "one"); (["old"], EFile 420 "x"); (["lib"], ELink "bin")].
Definition ex_update : tree := list_to_map [([], EDir 493); (["bin"], EDir 448); (["bin"; "app"], EFile 493 "one"); (["bin"; "new"], EFile 420 "two"); (["lib"], EDir 493); (["lib"; "a"], ELink "b")].
Definition ex_folders : folders := mkFolders ex_local ex_update ∅.

Definition after (SF : SysFaults) : list (path * entry) * bool := let '(fs, r) := syncFolders ex_folders in (map_to_list (local fs), is_ok r).

(** The new application has the entries of the update, but the modes are the old ones where a folder or the
    content of a file is the same. *)
Example modes_kept :
  (local (syncFolders (SF := no_faults) ex_folders).1 !! ["bin"; "app"], local (syncFolders (SF := no_faults) ex_folders).1 !! ["bin"]) =
    (Some (EFile 420 "one"), Some (EDir 493)).
Proof. vm_compute. reflexivity. Qed.

Example lib_replaced : local (syncFolders (SF := no_faults) ex_folders).1 !! ["lib"; "a"] = Some (ELink "b").
Proof. vm_compute. reflexivity. Qed.

(** A new file that cannot be read is left out, and no error is reported. *)
Example unreadable_skipped :
  let r := syncFolders (SF := faulty Copying SysSumSource ["bin"; "new"]) ex_folders in (is_ok r.2, local r.1 !! ["bin"; "new"]) = (true, None).
Proof. vm_compute. reflexivity. Qed.

(** After a failure what was removed is back, but what is new is not removed. *)
Definition ex_failing : SysFaults := faulty Copying SysRename ["bin"; "new"].
Example failed_restored :
  let r := syncFolders (SF := ex_failing) ex_folders in
  (is_ok r.2, local r.1 !! ["old"], local r.1 !! ["bin"; "new.tmp"]) = (false, Some (EFile 420 "x"), Some (EFile 420 "two")).
Proof. vm_compute. reflexivity. Qed.

(** Deciding whether copying can be relied on. *)
Definition ready_b `{SF : SysFaults} (ph : phase) (src t : tree) : bool :=
  (match src !! [] with Some (EDir _) => true | _ => false end) &&
  forallb (fun '(p, e) =>
    match p with
    | [] => true
    | _ => (match src !! Dir p with Some (EDir _) => true | _ => false end) && (match src !! temporary_of p with None => true | _ => false end)
    end &&
    match e with
    | EFile _ d =>
        (match t !! temporary_of p with None | Some (EFile _ _) => true | _ => false end) && (match refused ph SysSumSource p with None => true | _ => false end) &&
        (match t !! p with Some (EFile _ d') => negb (String.eqb (sha256 d) (sha256 d')) || String.eqb d d' | _ => true end)
    | _ => true
    end) (map_to_list src).

Lemma ready_b_ready `{SF : SysFaults} ph src t : ready_b ph src t = true -> copy_ready ph src t.
Proof.
  unfold ready_b. rewrite andb_true_iff, forallb_forall. intros [Hroot Hall].
  assert (Hat : forall p e, src !! p = Some e -> _) by (intros p e He; exact (Hall (p, e) (proj1 (list_elem_of_In _ _) (proj2 (elem_of_map_to_list src p e) He)))).
  clear Hall. cbv beta iota in Hat. split; [split|split].
  - destruct (src !! []) as [[]|]; try done. eauto.
  - intros p e He Hne. specialize (Hat p e He). destruct p; [done|]. destruct (src !! Dir _) as [[]|]; try done. eauto.
  - intros p [e He] Hne. specialize (Hat p e He). destruct p; [done|]. rewrite !andb_true_iff in Hat. destruct Hat as [[_ Hat] _]. by destruct (src !! temporary_of _).
  - intros p m d He. specialize (Hat p _ He). apply andb_true_iff in Hat as [_ Hat]. rewrite !andb_true_iff in Hat. destruct Hat as [[H1 H2] H3]. split; [|split].
    + destruct (t !! temporary_of p) as [[]|]; try done; eauto.
    + by destruct (refused _ _ _).
    + intros m' d' Ht Heq. rewrite Ht, Heq, String.eqb_refl in H3. by apply String.eqb_eq in H3.
Qed.

Local Existing Instance no_faults.

Definition failing_result : folders * result err () := syncFolders (SF := ex_failing) ex_folders.
Lemma syncFolders_restores_witness : update failing_result.1 = ex_update.
Proof.
  assert (Hbad : failing_result = (failing_result.1, Err err_denied)) by (vm_compute; reflexivity).
  refine (proj1 (syncFolders_restores (SF := ex_failing) ex_folders failing_result.1 err_denied _ _ Hbad)); [done|]. apply ready_b_ready. vm_compute. reflexivity.
Defined.

End examples.
