(* ===== verification/Logs.v ===== *)
(** * Log files (internal/logging)

    Each start of the program is a session with its own log files, of the launcher, the
    graphical interface and the bridge.  [Rotator] starts a new file when one is full;
    [pruneLogs] keeps the size of all files within a limit; a bug report takes the files of the
    last sessions, as many as fit into an archive.

    A directory maps names to files with their sizes; [can_remove] says which files the
    system lets the program delete.  Sizes are not bounded: the code adds file sizes in
    64 bits.  Compression is the class [Zip]. *)

From S2P Require Import Prelude.
From S2P Require Import Strings.
From S2P Require Import UserEvents.

(** ** Names of log files *)

Definition underscore : Ascii.ascii := Ascii.ascii_of_nat 95.
Definition is_digit (c : Ascii.ascii) : bool := let n := Ascii.nat_of_ascii c in (48 <=? n)%nat && (n <=? 57)%nat.
Fixpoint all_digits (s : string) : bool := match s with EmptyString => true | String c s => is_digit c && all_digits s end.
Definition has_suffix (suffix s : string) : bool :=
  (String.length suffix <=? String.length s)%nat && String.eqb (str_drop (String.length s - String.length suffix) s) suffix.

(** The pattern of a log file begins with the identifier of the session, 8 digits, an
    underscore and 9 digits, and ends in [.log]. *)
Definition session_length : nat := 18.
Definition is_session_id (s : string) : bool :=
  (String.length s =? session_length)%nat && all_digits (str_take 8 s) && has_prefix "_" (str_drop 8 s) && all_digits (str_drop 9 s).
Definition match_session (name : string) : option string :=
  let sid := str_take session_length name in
  let rest := str_drop session_length name in
  if is_session_id sid && has_prefix "_" rest && has_suffix ".log" (str_drop 1 rest) then Some sid else None.

(** The digits at the beginning, and what follows. *)
Fixpoint digits_prefix (s : string) : nat * string :=
  match s with
  | String c s' => if is_digit c then let '(n, r) := digits_prefix s' in (S n, r) else (0%nat, s)
  | EmptyString => (0%nat, s)
  end.

(** The pattern of a file of a session: the identifier, the application, which has no
    underscore, a number and more, ending in [.log]; the result is the application. *)
Definition match_app (sid name : string) : option string :=
  if negb (has_prefix (sid +:+ "_") name) then None
  else
    let rest := str_drop (S (String.length sid)) name in
    n ← Index underscore rest;
    let '(digits, rest') := digits_prefix (str_drop (S n) rest) in
    if negb (digits =? 0)%nat && has_prefix "_" rest' && has_suffix ".log" (str_drop 1 rest') then Some (str_take n rest) else None.

Definition BridgeShortAppName : string := "bri".
Definition LauncherShortAppName : string := "lau".
Definition GUIShortAppName : string := "gui".

(** A file of a given application, with a number of three digits. *)
Definition matchLogName (logName appName : string) : bool :=
  let sid := str_take session_length logName in
  let start := "_" +:+ appName +:+ "_" in
  let rest := str_drop session_length logName in
  let rest' := str_drop (String.length start) rest in
  is_session_id sid && has_prefix start rest &&
  (String.length (str_take 3 rest') =? 3)%nat && all_digits (str_take 3 rest') &&
  has_prefix "_" (str_drop 3 rest') && has_suffix ".log" (str_drop 4 rest').
Definition MatchBridgeLogName (filename : string) : bool := matchLogName filename BridgeShortAppName.
Definition MatchGUILogName (filename : string) : bool := matchLogName filename GUIShortAppName.
Definition MatchLauncherLogName (filename : string) : bool := matchLogName filename LauncherShortAppName.

Definition err_invalid_name : err := ErrOther "log file name is invalid".
Definition getLogSessionID (filename : string) : result err string :=
  match match_session filename with Some sid => Ok sid | None => Err err_invalid_name end.

(** ** Sessions (pruning.go) *)

Record log_entry : Type := mkLogEntry { le_is_dir : bool; le_size : Z }.
Notation log_dir := (gmap string log_entry).

Record logFileInfo : Type := mkLogFileInfo { filename : string; size : Z }.
Record sessionInfo : Type := mkSessionInfo {
  sessionID : string; launcherLogs : list logFileInfo; guiLogs : list logFileInfo; bridgeLogs : list logFileInfo
}.

Section logs.
Context `{MR : MapRange, SO : SortLess}.

Definition name_before (a b : string) : bool := match String.compare a b with Lt => true | _ => false end.
Definition sort_files (l : list logFileInfo) : list logFileInfo := sort_Sort (fun a b => name_before (filename a) (filename b)) l.

(** The files of a session written by one application. *)
Definition app_files (dir : log_dir) (sid app : string) : list logFileInfo :=
  omap (fun '(name, e) =>
          if has_prefix (sid +:+ "_") name && has_suffix ".log" name && bool_decide (match_app sid name = Some app)
          then Some (mkLogFileInfo name (le_size e)) else None) (map_to_list dir).

Definition newSessionInfo (dir : log_dir) (sid : string) : sessionInfo :=
  mkSessionInfo sid (sort_files (app_files dir sid LauncherShortAppName)) (sort_files (app_files dir sid GUIShortAppName))
    (sort_files (app_files dir sid BridgeShortAppName)).

Definition buildSessionInfoList (dir : log_dir) : gmap string sessionInfo :=
  foldl (fun result '(name, e) =>
           if le_is_dir e then result
           else match match_session name with
                | None => result
                | Some sid => if bool_decide (is_Some (result !! sid)) then result else <[sid := newSessionInfo dir sid]> result
                end) ∅ (map_to_list dir).

Definition sum_sizes (l : list logFileInfo) : Z := foldr (fun f acc => size f + acc) 0 l.
Definition session_size (s : sessionInfo) : Z := sum_sizes (launcherLogs s) + sum_sizes (guiLogs s) + sum_sizes (bridgeLogs s).

(** [os.Remove] of each file; counts the failures. *)
Variable can_remove : string -> bool.
Definition remove_file (st : log_dir * Z) (name : string) : log_dir * Z :=
  let '(dir, failures) := st in
  match dir !! name with
  | Some _ => if can_remove name then (delete name dir, failures) else (dir, failures + 1)
  | None => (dir, failures + 1)
  end.
Definition remove_files (names : list string) (st : log_dir * Z) : log_dir * Z := foldl remove_file st names.

Definition all_logs (s : sessionInfo) : list logFileInfo := launcherLogs s ++ guiLogs s ++ bridgeLogs s.
Definition deleteFiles (s : sessionInfo) (st : log_dir * Z) : log_dir * Z := remove_files (filename <$> all_logs s) st.

(** [s.bridgeLogs[1 : len(s.bridgeLogs)-1]]. *)
Definition intermediate (l : list logFileInfo) : list logFileInfo := removelast (drop 1 l).

Fixpoint prune_intermediate (logs : list logFileInfo) (size' pruningSize : Z) (st : log_dir * Z) : log_dir * Z :=
  match logs with
  | [] => st
  | f :: logs =>
      let st := remove_file st (filename f) in
      let size' := size' - size f in
      if size' <=? pruningSize then st else prune_intermediate logs size' pruningSize st
  end.

Definition pruneAsCurrentSession (s : sessionInfo) (pruningSize : Z) (st : log_dir * Z) : log_dir * Z :=
  if (length (bridgeLogs s) <? 3)%nat then st
  else if session_size s <=? pruningSize then st
  else prune_intermediate (intermediate (bridgeLogs s)) (session_size s) pruningSize st.

Definition session_before (a b : sessionInfo) : bool := name_before (sessionID a) (sessionID b).

(** The oldest sessions, until the rest is small enough. *)
Fixpoint prune_oldest (sessions : list sessionInfo) (totalSize pruningSize : Z) (st : log_dir * Z) : log_dir * Z :=
  match sessions with
  | [] => st
  | s :: sessions =>
      let totalSize := totalSize - session_size s in
      let st := deleteFiles s st in
      if totalSize <=? pruningSize then st else prune_oldest sessions totalSize pruningSize st
  end.

Definition total_size (sessions : gmap string sessionInfo) : Z := foldr (fun s acc => session_size s + acc) 0 (Values sessions).

(** The directory and the number of files that could not be deleted; reading the directory may
    fail before. *)
Definition pruneLogs (dir : log_dir) (currentSessionID : string) (pruningSize : Z) : log_dir * Z :=
  let sessions := buildSessionInfoList dir in
  let totalSize := total_size sessions in
  if totalSize <=? pruningSize then (dir, 0)
  else
    match sessions !! currentSessionID with
    | Some current =>
        let sessions := delete currentSessionID sessions in
        if session_size current >? pruningSize
        then pruneAsCurrentSession current pruningSize (foldl (fun st s => deleteFiles s st) (dir, 0) (Values sessions))
        else prune_oldest (sort_Sort session_before (Values sessions)) totalSize pruningSize (dir, 0)
    | None => prune_oldest (sort_Sort session_before (Values sessions)) totalSize pruningSize (dir, 0)
    end.

(** ** Bug reports (logging.go, compression.go) *)

Definition report_files (s : sessionInfo) : list logFileInfo :=
  let l := bridgeLogs s in
  let n := length l in
  (match l !! (n - 1)%nat with Some f => [f] | None => [] end) ++
  (if (1 <? n)%nat then match l !! (n - 2)%nat with Some f => [f] | None => [] end else []) ++
  (if (2 <? n)%nat then match l !! 0%nat with Some f => [f] | None => [] end else []) ++
  guiLogs s ++ launcherLogs s ++
  (if (3 <? n)%nat then take (n - 3) (drop 1 l) else []).

Definition getOrderedLogFileListForBugReport (dir : log_dir) (maxSessionCount : nat) : list string :=
  filename <$> (take maxSessionCount (sort_Sort (fun a b => session_before b a) (Values (buildSessionInfoList dir))) ≫= report_files).

End logs.

(** An archive of files: creating it, adding a file and its length. *)
Class Zip (A : Type) : Type := {
  createZipFromFile : string -> result err A;
  addFileToArchive : A -> string -> result err A;
  zip_len : A -> Z
}.

Section zip.
Context {A : Type} `{ZA : Zip A}.

Definition errNoInputFile : err := ErrOther "no file was provided to put in the archive".
Definition errCannotFitAnyFile : err := ErrOther "no file can fit in the archive".

Fixpoint zip_more (filePaths : list string) (maxSize : Z) (buffer : A) (fileCount : nat) : result err (A * nat) :=
  match filePaths with
  | [] => Ok (buffer, fileCount)
  | filePath :: filePaths =>
      match addFileToArchive buffer filePath with
      | Err e => Err e
      | Ok bigger => if zip_len bigger >? maxSize then Ok (buffer, fileCount) else zip_more filePaths maxSize bigger (S fileCount)
      end
  end.

Definition zipFilesWithMaxSize (filePaths : list string) (maxSize : Z) : result err (A * nat) :=
  match filePaths with
  | [] => Err errNoInputFile
  | first :: filePaths =>
      buffer ← createZipFromFile first;
      if zip_len buffer >? maxSize then Err errCannotFitAnyFile else zip_more filePaths maxSize buffer 1
  end.

End zip.

(** ** Rotation (rotator.go) *)

(** A file is its number and what was written to it; the system says whether creating the file of
    a number works, whether pruning before it does, and how much of a write succeeds. *)
Record log_file : Type := mkLogFile { lf_index : Z; lf_open : bool; lf_data : string }.
Record rotator_env : Type := mkRotatorEnv { env_prune : Z -> option err; env_getFile : Z -> option err; env_write : string -> option (nat * err) }.

Record Rotator : Type := mkRotator { wc : option log_file; rot_size : Z; maxFileSize : Z; nextIndex : Z; rot_old : list log_file }.

Definition closing_file (f : log_file) : log_file := mkLogFile (lf_index f) false (lf_data f).

Definition rotate (env : rotator_env) (r : Rotator) : Rotator * option err :=
  let r := mkRotator (closing_file <$> wc r) (rot_size r) (maxFileSize r) (nextIndex r) (rot_old r) in
  match env_prune env (nextIndex r) with
  | Some e => (r, Some e)
  | None =>
      match env_getFile env (nextIndex r) with
      | Some e => (r, Some e)
      | None => (mkRotator (Some (mkLogFile (nextIndex r) true "")) 0 (maxFileSize r) (nextIndex r + 1)
                   (rot_old r ++ match wc r with Some f => [f] | None => [] end), None)
      end
  end.

Definition NewRotator (env : rotator_env) (maxFileSize : Z) : result err Rotator :=
  match rotate env (mkRotator None 0 maxFileSize 0 []) with (r, None) => Ok r | (_, Some e) => Err e end.

Definition err_closed : err := ErrOther "file already closed".

(** Writing to the file: how much is written, and the error. *)
Definition file_Write (env : rotator_env) (p : string) (f : log_file) : log_file * nat * option err :=
  if negb (lf_open f) then (f, 0%nat, Some err_closed)
  else match env_write env p with
       | None => (mkLogFile (lf_index f) true (lf_data f +:+ p), String.length p, None)
       | Some (n, e) => (mkLogFile (lf_index f) true (lf_data f +:+ str_take n p), n, Some e)
       end.

(** [None] is a panic. *)
Definition rot_Write (env : rotator_env) (p : string) (r : Rotator) : option (Rotator * nat * option err) :=
  let '(r, e) := if rot_size r + Z.of_nat (String.length p) >? maxFileSize r then rotate env r else (r, None) in
  match e with
  | Some e => Some (r, 0%nat, Some e)
  | None =>
      f ← wc r;
      let '(f, n, e) := file_Write env p f in
      Some (mkRotator (Some f) (match e with None => rot_size r + Z.of_nat n | Some _ => rot_size r end) (maxFileSize r) (nextIndex r) (rot_old r), n, e)
  end.

(** ** Pruning *)

(** The order of names is that of an unstable sort by [strings.Compare]. *)
Lemma name_before_asym a b : name_before a b = true -> name_before b a = false.
Proof. unfold name_before. rewrite (String.compare_antisym b a). by destruct (String.compare a b). Qed.

Lemma ascii_compare_nat a b : Ascii.compare a b = N.compare (Ascii.N_of_ascii a) (Ascii.N_of_ascii b).
Proof. done. Qed.

Lemma string_compare_ge_trans x y z :
  String.compare y x <> Lt -> String.compare z y <> Lt -> String.compare z x <> Lt.
Proof.
  revert y z. induction x as [|a x IH]; intros [|b y] [|c z]; simpl; try done.
  rewrite !ascii_compare_nat.
  destruct (N.compare_spec (Ascii.N_of_ascii b) (Ascii.N_of_ascii a)) as [Hba|Hba|Hba]; [|done|];
  destruct (N.compare_spec (Ascii.N_of_ascii c) (Ascii.N_of_ascii b)) as [Hcb|Hcb|Hcb]; try done;
  destruct (N.compare_spec (Ascii.N_of_ascii c) (Ascii.N_of_ascii a)) as [Hca|Hca|Hca]; try done; try lia.
  apply IH.
Qed.

Lemma name_before_trans x y z : name_before y x = false -> name_before z y = false -> name_before z x = false.
Proof.
  unfold name_before. intros H1 H2. assert (H := string_compare_ge_trans x y z).
  destruct (String.compare y x), (String.compare z y), (String.compare z x); naive_solver.
Qed.

Section pruning.
Context `{MR : MapRange, SO : SortLess}.
Variable can_remove : string -> bool.

Lemma remove_file_lookup n dir k name :
  (remove_file can_remove (dir, k) n).1 !! name = if decide (name = n /\ can_remove n = true) then None else dir !! name.
Proof.
  unfold remove_file. destruct (dir !! n) as [e|] eqn:Hn, (can_remove n) eqn:Hc; cbn [fst]; case_decide as Hd; try naive_solver.
  - destruct Hd as [-> _]. by rewrite lookup_delete_eq.
  - rewrite lookup_delete_ne; [done|]. intros ->. by apply Hd.
Qed.

Lemma remove_files_lookup names st name :
  (remove_files can_remove names st).1 !! name = if decide (name ∈ names /\ can_remove name = true) then None else st.1 !! name.
Proof.
  revert st. induction names as [|n names IH]; intros [dir k].
  - cbn. case_decide as Hd; [|done]. destruct Hd as [Hd _]. by apply elem_of_nil in Hd.
  - unfold remove_files in *. cbn [foldl]. rewrite IH, remove_file_lookup. cbn [fst].
    repeat case_decide; rewrite ?elem_of_cons in *; naive_solver.
Qed.

(** *** What is deleted *)

Definition log_names (l : list logFileInfo) : list string := filename <$> l.
Definition sessions_size (l : list sessionInfo) : Z := foldr (fun s acc => session_size s + acc) 0 l.
Definition session_names (l : list sessionInfo) : list string := l ≫= fun s => log_names (all_logs s).

Lemma remove_files_app names names' st : remove_files can_remove (names ++ names') st = remove_files can_remove names' (remove_files can_remove names st).
Proof. apply foldl_app. Qed.

Lemma delete_sessions l st : foldl (fun st s => deleteFiles can_remove s st) st l = remove_files can_remove (session_names l) st.
Proof.
  revert st. induction l as [|s l IH]; intros st; cbn [foldl]; [done|].
  rewrite IH. unfold session_names. simpl. by rewrite remove_files_app.
Qed.

Lemma prune_intermediate_spec logs size' limit st : limit < size' ->
  exists mid, mid `prefix_of` logs /\ prune_intermediate can_remove logs size' limit st = remove_files can_remove (log_names mid) st /\
    (size' - sum_sizes mid <= limit \/ mid = logs).
Proof.
  revert size' st. induction logs as [|f logs IH]; intros size' st Hs; cbn [prune_intermediate].
  - exists []. split; [done|]. split; [done|]. by right.
  - destruct (size' - size f <=? limit) eqn:Hle; boolp.
    + exists [f]. split; [by exists logs|]. split; [done|]. left. simpl. lia.
    + destruct (IH (size' - size f) (remove_file can_remove st (filename f)) Hle) as (mid & Hp & -> & Hm).
      exists (f :: mid). split; [by apply prefix_cons|]. split; [done|]. simpl. destruct Hm as [?| ->]; [left; lia|by right].
Qed.

Lemma pruneAsCurrent_spec s limit st : limit < session_size s ->
  exists mid, mid `prefix_of` intermediate (bridgeLogs s) /\ pruneAsCurrentSession can_remove s limit st = remove_files can_remove (log_names mid) st /\
    (session_size s - sum_sizes mid <= limit \/ mid = intermediate (bridgeLogs s)).
Proof.
  intros Hs. unfold pruneAsCurrentSession. destruct (length (bridgeLogs s) <? 3)%nat eqn:Hl.
  - exists []. split; [apply prefix_nil|]. split; [done|]. right. apply Nat.ltb_lt in Hl.
    destruct (bridgeLogs s) as [|? [|? [|? ?]]]; simpl in *; try done; lia.
  - rewrite (proj2 (Z.leb_gt _ _)) by done. by apply prune_intermediate_spec.
Qed.

Lemma prune_oldest_spec l total limit st : limit < total ->
  exists olds kept, l = olds ++ kept /\ prune_oldest can_remove l total limit st = remove_files can_remove (session_names olds) st /\
    (total - sessions_size olds <= limit \/ kept = []).
Proof.
  revert total st. induction l as [|s l IH]; intros total st Ht; cbn [prune_oldest].
  - exists [], []. split; [done|]. split; [done|]. by right.
  - destruct (total - session_size s <=? limit) eqn:Hle; boolp.
    + exists [s], l. split; [done|]. split; [unfold session_names; simpl; by rewrite app_nil_r|]. left. simpl. lia.
    + destruct (IH (total - session_size s) (deleteFiles can_remove s st) Hle) as (olds & kept & -> & -> & Hm).
      exists (s :: olds), kept. split; [done|]. split; [unfold session_names; simpl; by rewrite remove_files_app|].
      simpl. destruct Hm as [?| ->]; [left; lia|by right].
Qed.

Definition oldest_first (l : list sessionInfo) : Prop := StronglySorted (fun a b => session_before b a = false) l.

Lemma sort_sessions l : oldest_first (sort_Sort session_before l).
Proof.
  apply (sort_Sort_sorted session_before); unfold session_before; intros; [by apply name_before_asym|by eapply name_before_trans].
Qed.

Lemma Values_delete (m : gmap string sessionInfo) k v : m !! k = Some v -> sessions_size (Values m) = session_size v + sessions_size (Values (delete k m)).
Proof.
  intros Hk. assert (Hp : Values m ≡ₚ v :: Values (delete k m)).
  { unfold Values. rewrite !map_range_perm, <- (map_to_list_delete m k v) by done. done. }
  clear Hk. enough (H : forall l l', l ≡ₚ l' -> sessions_size l = sessions_size l') by (by rewrite (H _ _ Hp)).
  induction 1; simpl; lia.
Qed.

(** When the logs take more than the limit, whole sessions are deleted, the oldest first, until the
    rest is within the limit; the running session loses files only when it alone is over the
    limit: then all other sessions go and files of the bridge between its first and its last,
    in order, until the session is within the limit or none is left.  Nothing else is touched,
    even if deleting fails. *)
Theorem pruneLogs_spec dir cur limit (sessions := buildSessionInfoList dir) : limit < total_size sessions ->
  exists olds kept mid,
    olds ++ kept ≡ₚ Values (delete cur sessions) /\
    pruneLogs can_remove dir cur limit = remove_files can_remove (session_names olds ++ log_names mid) (dir, 0) /\
    (forall name, name ∉ session_names olds ++ log_names mid -> (pruneLogs can_remove dir cur limit).1 !! name = dir !! name) /\
    (kept <> [] -> oldest_first (olds ++ kept)) /\
    (total_size sessions - sessions_size olds - sum_sizes mid <= limit \/
       kept = [] /\ forall s, sessions !! cur = Some s -> limit < session_size s -> mid = intermediate (bridgeLogs s)) /\
    (mid <> [] -> exists s, sessions !! cur = Some s /\ limit < session_size s /\ mid `prefix_of` intermediate (bridgeLogs s)).
Proof.
  intros Ht. change (total_size sessions) with (sessions_size (Values sessions)) in *.
  enough (exists olds kept mid, olds ++ kept ≡ₚ Values (delete cur sessions) /\
    pruneLogs can_remove dir cur limit = remove_files can_remove (session_names olds ++ log_names mid) (dir, 0) /\
    (kept <> [] -> oldest_first (olds ++ kept)) /\
    (sessions_size (Values sessions) - sessions_size olds - sum_sizes mid <= limit \/
       kept = [] /\ forall s, sessions !! cur = Some s -> limit < session_size s -> mid = intermediate (bridgeLogs s)) /\
    (mid <> [] -> exists s, sessions !! cur = Some s /\ limit < session_size s /\ mid `prefix_of` intermediate (bridgeLogs s)))
    as (olds & kept & mid & H1 & H2 & H3).
  { exists olds, kept, mid. split; [done|]. split; [done|]. split; [|done].
    intros name Hn. rewrite H2, remove_files_lookup. by destruct (decide _) as [[]|]. }
  unfold pruneLogs. fold sessions. change (total_size sessions) with (sessions_size (Values sessions)).
  rewrite (proj2 (Z.leb_gt _ _)) by done. destruct (sessions !! cur) as [s|] eqn:Hs.
  - rewrite Z.gtb_ltb. destruct (limit <? session_size s) eqn:Hbig; boolp.
    + destruct (pruneAsCurrent_spec s limit (remove_files can_remove (session_names (Values (delete cur sessions))) (dir, 0)) Hbig) as (mid & Hp & He & Hm).
      exists (Values (delete cur sessions)), [], mid. rewrite app_nil_r, delete_sessions, He, remove_files_app.
      split; [done|]. split; [done|]. split; [done|]. split; [|by intros _; exists s].
      rewrite (Values_delete _ _ _ Hs). destruct Hm as [Hm| ->]; [left; lia|right]. split; [done|]. intros s' [= <-] _. done.
    + destruct (prune_oldest_spec (sort_Sort session_before (Values (delete cur sessions))) _ limit (dir, 0) Ht) as (olds & kept & Hl & He & Hm).
      exists olds, kept, []. rewrite <- Hl, app_nil_r. split; [by rewrite sort_Sort_perm|]. split; [done|].
      split; [intros _; apply sort_sessions|]. split; [|done].
      destruct Hm as [Hm| ->]; [left; simpl; lia|right]. split; [done|]. intros s' [= <-] ?. lia.
  - rewrite (delete_id sessions) by done.
    destruct (prune_oldest_spec (sort_Sort session_before (Values sessions)) _ limit (dir, 0) Ht) as (olds & kept & Hl & He & Hm).
    exists olds, kept, []. rewrite <- Hl, app_nil_r. split; [by rewrite sort_Sort_perm|]. split; [done|].
    split; [intros _; apply sort_sessions|]. split; [|done].
    destruct Hm as [Hm| ->]; [left; simpl; lia|right]. done.
Qed.

End pruning.

(** ** Reports *)

Section reports.
Context `{MR : MapRange, SO : SortLess}.

(** The files of the bridge: none, one, two, or the first, some, the last but one and the last. *)
Lemma bridge_cases {A} (l : list A) :
  l = [] \/ (exists a, l = [a]) \/ (exists a b, l = [a; b]) \/ exists a mid y z, l = a :: mid ++ [y; z].
Proof.
  destruct l as [|a l]; [by left|right]. destruct l as [|z l _] using rev_ind; [left; by exists a|right].
  destruct l as [|y l _] using rev_ind; [left; by exists a, z|right]. exists a, l, y, z. by rewrite <- app_assoc.
Qed.

Lemma report_files_perm s : report_files s ≡ₚ bridgeLogs s ++ guiLogs s ++ launcherLogs s.
Proof.
  unfold report_files. rewrite (app_assoc (guiLogs s)). set (rest := guiLogs s ++ launcherLogs s).
  destruct (bridge_cases (bridgeLogs s)) as [->|[(a & ->)|[(a & b & ->)|(a & mid & y & z & ->)]]].
  - simpl. by rewrite app_nil_r.
  - simpl. by rewrite app_nil_r.
  - simpl. rewrite app_nil_r. apply perm_swap.
  - assert (Hlen : length (a :: mid ++ [y; z]) = (length mid + 3)%nat) by (simpl; rewrite length_app; simpl; lia).
    assert (Hz : (a :: mid ++ [y; z]) !! (length mid + 2)%nat = Some z).
    { change (a :: mid ++ [y; z]) with ((a :: mid) ++ [y] ++ z :: []). rewrite app_assoc.
      apply list_lookup_middle. rewrite length_app. simpl. lia. }
    assert (Hy : (a :: mid ++ [y; z]) !! (length mid + 1)%nat = Some y).
    { change (a :: mid ++ [y; z]) with ((a :: mid) ++ y :: [z]). apply list_lookup_middle. simpl. lia. }
    rewrite Hlen, (proj2 (Nat.ltb_lt 1 _)), (proj2 (Nat.ltb_lt 2 _)) by lia.
    replace (length mid + 3 - 1)%nat with (length mid + 2)%nat by lia.
    replace (length mid + 3 - 2)%nat with (length mid + 1)%nat by lia. replace (length mid + 3 - 3)%nat with (length mid) by lia.
    rewrite Hz, Hy. cbn [lookup list_lookup].
    assert (Hmid : (if (3 <? length mid + 3)%nat then take (length mid) (drop 1 (a :: mid ++ [y; z])) else []) = mid).
    { destruct (3 <? length mid + 3)%nat eqn:H3; [by rewrite skipn_cons, drop_0, take_app_length|].
      apply Nat.ltb_ge in H3. destruct mid; [done|simpl in H3; lia]. }
    rewrite Hmid. cbn [app]. rewrite <- app_assoc. cbn [app].
    rewrite <- !Permutation_middle, (Permutation_app_comm rest mid).
    etrans; [apply perm_skip, perm_swap|]. etrans; [apply perm_swap|]. apply perm_skip, perm_swap.
Qed.

Lemma newest_first l : StronglySorted (fun a b => session_before a b = false) (sort_Sort (fun a b => session_before b a) l).
Proof.
  apply (sort_Sort_sorted (fun a b => session_before b a)); unfold session_before.
  - intros x y. apply name_before_asym.
  - intros x y z H1 H2. eapply name_before_trans; [exact H2|exact H1].
Qed.

(** A bug report lists every log file of the newest sessions once, session by session, the newest
    first. *)
Theorem report_lists_newest dir n :
  exists newest older,
    newest ++ older ≡ₚ Values (buildSessionInfoList dir) /\ length newest = Nat.min n (length (Values (buildSessionInfoList dir))) /\
    StronglySorted (fun a b => session_before a b = false) (newest ++ older) /\
    getOrderedLogFileListForBugReport dir n = log_names (newest ≫= report_files) /\
    forall s, s ∈ newest -> report_files s ≡ₚ bridgeLogs s ++ guiLogs s ++ launcherLogs s.
Proof.
  set (l := sort_Sort (fun a b => session_before b a) (Values (buildSessionInfoList dir))).
  assert (Hl : l ≡ₚ Values (buildSessionInfoList dir)) by apply sort_Sort_perm.
  exists (take n l), (drop n l). rewrite take_drop. split; [done|]. split; [by rewrite length_take, Hl|].
  split; [apply newest_first|]. split; [done|]. intros s _. apply report_files_perm.
Qed.

End reports.

(** *** Archives *)

Section archives_of_logs.
Context {A : Type} `{ZA : Zip A}.

Definition archive_of (paths : list string) : result err A :=
  match paths with [] => Err errNoInputFile | p :: paths => foldl (fun r p => r ≫= fun a => addFileToArchive a p) (createZipFromFile p) paths end.

Lemma archive_of_snoc p paths q : archive_of ((p :: paths) ++ [q]) = archive_of (p :: paths) ≫= fun a => addFileToArchive a q.
Proof. simpl. by rewrite foldl_app. Qed.

Lemma zip_more_spec p done_ rest maxSize b k b' n :
  archive_of (p :: done_) = Ok b -> zip_len b <= maxSize -> zip_more rest maxSize b k = Ok (b', n) ->
  exists m, (m <= length rest)%nat /\ n = (k + m)%nat /\ archive_of (p :: done_ ++ take m rest) = Ok b' /\ zip_len b' <= maxSize /\
    (m = length rest \/ exists q b'', rest !! m = Some q /\ addFileToArchive b' q = Ok b'' /\ maxSize < zip_len b'').
Proof.
  revert done_ b k. induction rest as [|q rest IH]; intros done_ b k Hb Hlen; simpl.
  - intros [= <- <-]. exists 0%nat. rewrite app_nil_r. split; [done|]. split; [lia|]. split; [done|]. split; [done|]. by left.
  - destruct (addFileToArchive b q) as [bigger|e] eqn:Hadd; [|done]. rewrite Z.gtb_ltb. destruct (maxSize <? zip_len bigger) eqn:Hbig; boolp.
    + intros [= <- <-]. exists 0%nat. rewrite app_nil_r. split; [lia|]. split; [lia|]. split; [done|]. split; [done|]. right. by exists q, bigger.
    + intros Hz. destruct (IH (done_ ++ [q]) bigger (S k)) as (m & Hm & -> & Ha & Hl & Hr); [|done|done|].
      { rewrite app_comm_cons, archive_of_snoc, Hb. exact Hadd. }
      exists (S m). rewrite <- app_assoc in Ha. split; [lia|]. split; [lia|]. split; [exact Ha|]. split; [done|].
      destruct Hr as [->|Hr]; [by left|by right].
Qed.

(** The archive of a bug report holds the longest beginning of the list of files whose archive is
    within the limit, and at least one file. *)
Theorem zip_longest_prefix paths maxSize b n :
  zipFilesWithMaxSize paths maxSize = Ok (b, n) ->
  (1 <= n <= length paths)%nat /\ archive_of (take n paths) = Ok b /\ zip_len b <= maxSize /\
  (n = length paths \/ exists b', archive_of (take (S n) paths) = Ok b' /\ maxSize < zip_len b').
Proof.
  unfold zipFilesWithMaxSize. destruct paths as [|p paths]; [done|]. intros (b0 & Hc & Hz)%result_bind_Ok.
  rewrite Z.gtb_ltb in Hz. destruct (maxSize <? zip_len b0) eqn:Hl; [done|]. boolp.
  destruct (zip_more_spec p [] paths maxSize b0 1 b n Hc Hl Hz) as (m & Hm & -> & Ha & Hlen & Hr).
  cbn [Nat.add take length]. split; [lia|]. split; [exact Ha|]. split; [done|].
  destruct Hr as [->|(q & b'' & Hq & Hadd & Hbig)]; [by left|]. right. exists b''. split; [|done].
  rewrite (take_S_r _ _ _ Hq), app_comm_cons, archive_of_snoc. cbn [app] in Ha. rewrite Ha. exact Hadd.
Qed.

End archives_of_logs.

(** ** Rotation *)

Section rotation.

(** A write of the program; the answer of the system comes with it. *)
Definition log_write : Type := rotator_env * string.

Fixpoint rot_run (ws : list log_write) (r : Rotator) : option (Rotator * string) :=
  match ws with
  | [] => Some (r, "")
  | (env, p) :: ws =>
      '(r, n, _) ← rot_Write env p r;
      '(r, accepted) ← rot_run ws r;
      Some (r, str_take n p +:+ accepted)
  end.

Definition rot_files (r : Rotator) : list log_file := rot_old r ++ match wc r with Some f => [f] | None => [] end.
Definition contents (fs : list log_file) : string := foldr (fun f acc => lf_data f +:+ acc) "" fs.

Lemma contents_app l l' : contents (l ++ l') = contents l +:+ contents l'.
Proof. induction l as [|f l IH]; simpl; [done|]. rewrite IH. by rewrite str_app_assoc. Qed.

(** The files are numbered from 0, and the last is open unless a rotation failed. *)
Definition rot_ok (r : Rotator) : Prop :=
  is_Some (wc r) /\ lf_index <$> rot_files r = seqZ 0 (nextIndex r) /\ 0 < nextIndex r.

Lemma str_take_length s : str_take (String.length s) s = s.
Proof. apply str_take_all. Qed.

Lemma rotate_keeps env r r' e : rotate env r = (r', e) ->
  maxFileSize r' = maxFileSize r /\ contents (rot_files r') = contents (rot_files r) /\
  (rot_ok r -> rot_ok r') /\ (e = None -> rot_size r' = 0 /\ exists i, wc r' = Some (mkLogFile i true "")).
Proof.
  unfold rotate. cbn [nextIndex]. assert (Hcl : contents (rot_old r ++ match closing_file <$> wc r with Some f => [f] | None => [] end) = contents (rot_files r)).
  { unfold rot_files. rewrite !contents_app. by destruct (wc r). }
  assert (Hidx : lf_index <$> (rot_old r ++ match closing_file <$> wc r with Some f => [f] | None => [] end) = lf_index <$> rot_files r).
  { unfold rot_files. rewrite !fmap_app. by destruct (wc r). }
  destruct (env_prune env (nextIndex r)); [|destruct (env_getFile env (nextIndex r))]; intros [= <- <-]; (split; [done|]).
  1,2: split; [exact Hcl|]; split; [|done]; intros (Hs & Hi & Hn); split; [|by split; [unfold rot_files; simpl; rewrite Hidx|]];
       by destruct (wc r).
  split; [|split; [|by intros _; split; [|eexists]]].
  - unfold rot_files at 1. cbn [rot_old wc]. rewrite contents_app, Hcl. simpl. apply str_app_nil.
  - intros (Hs & Hi & Hn). split; [done|]. cbn [nextIndex]. split; [|lia]. unfold rot_files at 1. cbn [rot_old wc].
    rewrite fmap_app, Hidx, Hi. simpl. by rewrite seqZ_app by lia.
Qed.

Lemma rot_files_some r f : wc r = Some f -> rot_files r = rot_old r ++ [f].
Proof. unfold rot_files. by intros ->. Qed.

Lemma file_Write_keeps env p f f' n e : file_Write env p f = (f', n, e) ->
  lf_index f' = lf_index f /\ lf_data f' = lf_data f +:+ str_take n p.
Proof.
  unfold file_Write. destruct (negb (lf_open f)); [|destruct (env_write env p) as [[m e']|]]; intros [= <- <- <-]; (split; [done|]).
  - simpl. by rewrite str_app_nil.
  - done.
  - simpl. by rewrite str_take_length.
Qed.

Lemma rot_Write_keeps env p r : rot_ok r -> exists r' n e, rot_Write env p r = Some (r', n, e) /\
  rot_ok r' /\ contents (rot_files r') = contents (rot_files r) +:+ str_take n p /\ maxFileSize r' = maxFileSize r.
Proof.
  intros Hok. unfold rot_Write.
  destruct (if rot_size r + Z.of_nat (String.length p) >? maxFileSize r then rotate env r else (r, None)) as [r1 e1] eqn:Hr.
  assert (H1 : rot_ok r1 /\ contents (rot_files r1) = contents (rot_files r) /\ maxFileSize r1 = maxFileSize r).
  { destruct (rot_size r + _ >? maxFileSize r); [|by injection Hr as <- <-]. destruct (rotate_keeps _ _ _ _ Hr) as (? & ? & ? & _). auto. }
  destruct H1 as (Hok1 & Hc & Hm). destruct e1 as [e1|].
  { exists r1, 0%nat, (Some e1). split; [done|]. split; [done|]. split; [|done]. simpl. by rewrite str_app_nil. }
  destruct Hok1 as ([f Hf] & Hi & Hn). rewrite Hf. cbn [mbind option_bind].
  destruct (file_Write env p f) as [[f' n] e] eqn:Hw. destruct (file_Write_keeps _ _ _ _ _ _ Hw) as [Hidx Hdata].
  eexists _, n, e. split; [reflexivity|]. rewrite (rot_files_some r1 f Hf) in *.
  split; [|split; [|exact Hm]].
  - split; [done|]. cbn [nextIndex]. split; [|done]. unfold rot_files. cbn [rot_old wc]. rewrite <- Hi, !fmap_app. simpl. by rewrite Hidx.
  - rewrite <- Hc. unfold rot_files. cbn [rot_old wc]. rewrite !contents_app. simpl. by rewrite !str_app_nil, Hdata, str_app_assoc.
Qed.

Lemma rot_run_keeps ws r : rot_ok r -> exists r' accepted, rot_run ws r = Some (r', accepted) /\
  rot_ok r' /\ contents (rot_files r') = contents (rot_files r) +:+ accepted.
Proof.
  revert r. induction ws as [|[env p] ws IH]; intros r Hok; cbn [rot_run].
  - exists r, "". by rewrite str_app_nil.
  - destruct (rot_Write_keeps env p r Hok) as (r1 & n & e & Hw & Hok1 & Hc & _). rewrite Hw. cbn [mbind option_bind].
    destruct (IH r1 Hok1) as (r2 & acc & Hr & Hok2 & Hc2). rewrite Hr. cbn [mbind option_bind].
    exists r2, (str_take n p +:+ acc). split; [done|]. split; [done|]. by rewrite Hc2, Hc, str_app_assoc.
Qed.

Lemma NewRotator_ok env m r : NewRotator env m = Ok r ->
  rot_ok r /\ contents (rot_files r) = "" /\ maxFileSize r = m /\ rot_size r = 0 /\ rot_files r = [mkLogFile 0 true ""].
Proof.
  unfold NewRotator, rotate. simpl. destruct (env_prune env 0); [done|]. destruct (env_getFile env 0); [done|]. intros [= <-].
  by repeat split.
Qed.

(** Whatever fails, the writer of the logs never panics, the log files together hold exactly what
    was written, in order, and they are numbered one after the other. *)
Theorem rotator_keeps_all env m r0 ws : NewRotator env m = Ok r0 ->
  exists r accepted, rot_run ws r0 = Some (r, accepted) /\ contents (rot_files r) = accepted /\
    lf_index <$> rot_files r = seqZ 0 (nextIndex r).
Proof.
  intros Hn. destruct (NewRotator_ok env m r0 Hn) as (Hok & Hc & _).
  destruct (rot_run_keeps ws r0 Hok) as (r & acc & Hr & (_ & Hi & _) & Hcr). exists r, acc. rewrite Hc in Hcr. auto.
Qed.

(** While writing works, the size kept is that of the last file. *)
Definition rot_bounded (L : Z) (r : Rotator) : Prop :=
  (exists f, wc r = Some f /\ rot_size r = Z.of_nat (String.length (lf_data f))) /\
  forall f, f ∈ rot_files r -> Z.of_nat (String.length (lf_data f)) <= Z.max (maxFileSize r) L.

Lemma rotate_bounded L env r r' e : 0 <= maxFileSize r -> rot_bounded L r -> rotate env r = (r', e) -> rot_bounded L r'.
Proof.
  intros Hm [(f & Hf & Hs) Hb] Hr. rewrite (rot_files_some r f Hf) in Hb. unfold rotate in Hr. rewrite Hf in Hr. cbn in Hr.
  assert (Hold : forall g, g ∈ rot_old r ++ [closing_file f] -> Z.of_nat (String.length (lf_data g)) <= Z.max (maxFileSize r) L).
  { intros g [Hg|Hg%list_elem_of_singleton]%elem_of_app; [apply Hb, elem_of_app; by left|]. subst g. apply (Hb f), elem_of_app. right. by left. }
  destruct (env_prune env (nextIndex r)); [|destruct (env_getFile env (nextIndex r))]; injection Hr as <- <-.
  1,2: split; [by exists (closing_file f)|exact Hold].
  split; [by exists (mkLogFile (nextIndex r) true "")|]. unfold rot_files. cbn. intros g [Hg|Hg%list_elem_of_singleton]%elem_of_app; [by apply Hold|].
  subst g. simpl. lia.
Qed.

Lemma rot_Write_bounded L env p r r' n e :
  0 <= maxFileSize r -> (forall q, env_write env q = None) -> Z.of_nat (String.length p) <= L ->
  rot_bounded L r -> rot_Write env p r = Some (r', n, e) -> rot_bounded L r' /\ maxFileSize r' = maxFileSize r.
Proof.
  intros Hm Hw Hp Hb. unfold rot_Write.
  destruct (if rot_size r + Z.of_nat (String.length p) >? maxFileSize r then rotate env r else (r, None)) as [r1 e1] eqn:Hr.
  assert (H1 : rot_bounded L r1 /\ maxFileSize r1 = maxFileSize r /\ (e1 = None -> rot_size r1 + Z.of_nat (String.length p) <= Z.max (maxFileSize r) L)).
  { rewrite Z.gtb_ltb in Hr. destruct (maxFileSize r <? rot_size r + _) eqn:Hbig; boolp.
    - destruct (rotate_keeps _ _ _ _ Hr) as (He & _ & _ & Hz). split; [by eapply rotate_bounded|]. split; [done|].
      intros H. destruct (Hz H) as [-> _]. lia.
    - injection Hr as <- <-. split; [done|]. split; [done|]. intros _. lia. }
  destruct H1 as ([(f & Hf & Hs) Hb1] & Hmr & Hsize). destruct e1 as [e1|]; [intros [= <- <- <-]; split; [by split; [exists f|]|done]|].
  rewrite Hf. cbn [mbind option_bind]. unfold file_Write. rewrite Hw. rewrite (rot_files_some r1 f Hf) in Hb1. specialize (Hsize eq_refl).
  destruct (negb (lf_open f)) eqn:Ho; intros [= <- <- <-]; (split; [|done]).
  - split; [by exists f|]. by rewrite (rot_files_some _ f).
  - split; [eexists; split; [reflexivity|]; cbn; rewrite str_app_length; lia|]. cbn [maxFileSize]. intros g.
    unfold rot_files. cbn [rot_old wc]. intros [Hg|Hg%list_elem_of_singleton]%elem_of_app; [apply Hb1, elem_of_app; by left|].
    subst g. simpl. rewrite str_app_length. lia.
Qed.


End rotation.

(** ** Examples *)

#[local] Existing Instances canonical_range merge_sort_lists.

Definition ex_file (n : Z) : log_entry := mkLogEntry false n.
Definition ex_name (sid app n : string) : string := sid +:+ "_" +:+ app +:+ "_" +:+ n +:+ "_v3.20.0_br.log".
Definition ex_old : string := "20240101_120000000".
Definition ex_new : string := "20240102_120000000".
Definition ex_logs : log_dir :=
  list_to_map [(ex_name ex_old "bri" "000", ex_file 10); (ex_name ex_new "lau" "000", ex_file 5); (ex_name ex_new "bri" "000", ex_file 10);
               (ex_name ex_new "bri" "001", ex_file 10); (ex_name ex_new "bri" "002", ex_file 10); ("notes.txt", ex_file 99)].

Lemma pruneLogs_spec_witness : exists olds kept mid,
  olds ++ kept ≡ₚ Values (delete ex_new (buildSessionInfoList ex_logs)) /\
  pruneLogs (fun _ => true) ex_logs ex_new 30 = remove_files (fun _ => true) (session_names olds ++ log_names mid) (ex_logs, 0).
Proof.
  destruct (pruneLogs_spec (fun _ => true) ex_logs ex_new 30) as (olds & kept & mid & H1 & H2 & _).
  - vm_compute. reflexivity.
  - exists olds, kept, mid. split; [exact H1|exact H2].
Defined.

Example pruned : (fun p => p.1) <$> map_to_list (pruneLogs (fun _ => true) ex_logs ex_new 30).1 ≡ₚ
  [ex_name ex_new "lau" "000"; ex_name ex_new "bri" "000"; ex_name ex_new "bri" "002"; "notes.txt"].
Proof. apply (bool_decide_eq_true_1 _). vm_compute. reflexivity. Qed.

(** An archive is its files, each as long as its name. *)
Definition ex_zip : Zip (list string) :=
  {| createZipFromFile := fun p => Ok [p]; addFileToArchive := fun a p => Ok (a ++ [p]);
     zip_len := fun a => foldr (fun p n => Z.of_nat (String.length p) + n) 0 a |}.
Lemma zip_longest_prefix_witness : zipFilesWithMaxSize (ZA := ex_zip) ["aa"; "bb"; "cc"] 5 = Ok (["aa"; "bb"], 2%nat) /\
  zip_len (Zip := ex_zip) ["aa"; "bb"] <= 5.
Proof.
  assert (Hz : zipFilesWithMaxSize (ZA := ex_zip) ["aa"; "bb"; "cc"] 5 = Ok (["aa"; "bb"], 2%nat)) by reflexivity.
  split; [exact Hz|]. apply (zip_longest_prefix (ZA := ex_zip) ["aa"; "bb"; "cc"] 5 _ _ Hz).
Defined.

Definition ex_works : rotator_env := mkRotatorEnv (fun _ => None) (fun _ => None) (fun _ => None).
Definition ex_fails : rotator_env := mkRotatorEnv (fun _ => None) (fun _ => Some (ErrOther "no space")) (fun _ => None).
Definition ex_rotator : Rotator := mkRotator (Some (mkLogFile 0 true "")) 0 4 1 [].

Lemma rotator_keeps_all_witness : NewRotator ex_works 4 = Ok ex_rotator /\
  exists r accepted, rot_run [(ex_works, "abc"); (ex_fails, "de"); (ex_works, "fg")] ex_rotator = Some (r, accepted) /\ contents (rot_files r) = accepted.
Proof.
  assert (Hn : NewRotator ex_works 4 = Ok ex_rotator) by reflexivity. split; [exact Hn|].
  destruct (rotator_keeps_all ex_works 4 ex_rotator [(ex_works, "abc"); (ex_fails, "de"); (ex_works, "fg")] Hn) as (r & acc & Hr & Hc & _).
  exists r, acc. split; [exact Hr|exact Hc].
Defined.


(** The number of a file has three digits: the file number 1000 comes before 999, counts as an
    intermediate file of the session, and is not recognised as a log of the bridge. *)
Example thousandth_file_misplaced :
  let dir : log_dir := list_to_map [(ex_name ex_new "bri" "000", ex_file 1); (ex_name ex_new "bri" "999", ex_file 1); (ex_name ex_new "bri" "1000", ex_file 1)] in
  log_names (intermediate (bridgeLogs (newSessionInfo dir ex_new))) = [ex_name ex_new "bri" "1000"] /\
  MatchBridgeLogName (ex_name ex_new "bri" "1000") = false.
Proof. vm_compute. split; reflexivity. Qed.

(** A rotation that fails has already closed the file: a later entry that would fit is lost. *)
Example failed_rotation_loses_entries :
  (fun '(_, n, e) => (n, e)) <$> (('(r, _, _) ← rot_Write ex_works "abc" ex_rotator; '(r, _, _) ← rot_Write ex_fails "de" r; rot_Write ex_works "f" r))
    = Some (0%nat, Some err_closed).
Proof. reflexivity. Qed.
