(* ===== verification/MediaTypes.v ===== *)
(** * Parameters of media types (pkg/mime/mediaType.go)

    Before Go's parser sees a Content-Type or Content-Disposition header, the bridge keeps
    only the last definition of each parameter and converts parameters in a foreign
    character set to UTF-8 (RFC 2231).  A header that needs neither is passed on as it is.

    Text is bytes; letters and spaces are those of ASCII.  Decoding a character set is the
    class [DecodeText]. *)

From stdpp Require Import pretty.
From S2P Require Import Prelude.
From S2P Require Import Strings.
From S2P Require Import UserEvents.

(** [DecodeCharset] of some bytes for a content type. *)
Class DecodeText : Type := DecodeCharset : string -> string -> result err string.

(** ** Characters *)

Definition code (c : Ascii.ascii) : Z := Z.of_nat (Ascii.nat_of_ascii c).
Definition chr (z : Z) : Ascii.ascii := Ascii.ascii_of_nat (Z.to_nat z).
Definition semicolon : Ascii.ascii := chr 59.
Definition equals : Ascii.ascii := chr 61.
Definition quote : Ascii.ascii := chr 34.
Definition backslash : Ascii.ascii := chr 92.
Definition star : Ascii.ascii := chr 42.
Definition apostrophe : Ascii.ascii := chr 39.
Definition percent : Ascii.ascii := chr 37.
Definition cr : Ascii.ascii := chr 13.
Definition lf : Ascii.ascii := chr 10.

Definition IsSpace (c : Ascii.ascii) : bool := let n := code c in (n =? 32) || ((9 <=? n) && (n <=? 13)).
(** The characters ( ) < > @ , ; : \ / [ ] ? = and the double quote. *)
Definition isTSpecial (c : Ascii.ascii) : bool :=
  existsb (Z.eqb (code c)) [40; 41; 60; 62; 64; 44; 59; 58; 92; 34; 47; 91; 93; 63; 61].
Definition isTokenChar (c : Ascii.ascii) : bool := (code c >? 32) && (code c <? 127) && negb (isTSpecial c).
Definition isNotTokenChar (c : Ascii.ascii) : bool := negb (isTokenChar c).

Fixpoint TrimLeftSpace (s : string) : string :=
  match s with EmptyString => "" | String c s' => if IsSpace c then TrimLeftSpace s' else s end.
Fixpoint TrimRightSpace (s : string) : string :=
  match s with
  | EmptyString => ""
  | String c s' => match TrimRightSpace s' with EmptyString => if IsSpace c then "" else String c "" | t => String c t end
  end.
Definition ToLower (s : string) : string := str_map lower s.

(** ** Tokens and values *)

Fixpoint consumeToken (v : string) : string * string :=
  match v with
  | EmptyString => ("", "")
  | String c v' => if isNotTokenChar c then ("", v) else let '(token, rest) := consumeToken v' in (String c token, rest)
  end.

(** The rest of a quoted string: what it holds and what follows; [None] when it does not end. *)
Fixpoint consume_quoted (v : string) : option (string * string) :=
  match v with
  | EmptyString => None
  | String r v' =>
      if Ascii.eqb r quote then Some ("", v')
      else
        let plain (_ : unit) := if Ascii.eqb r cr || Ascii.eqb r lf then None
                                else '(s, rest) ← consume_quoted v'; Some (String r s, rest) in
        match v' with
        | String n v'' =>
            if Ascii.eqb r backslash && negb (isTokenChar n) then '(s, rest) ← consume_quoted v''; Some (String n s, rest)
            else plain ()
        | EmptyString => plain ()
        end
  end.

Definition consumeValue (v : string) : string * string :=
  match v with
  | EmptyString => ("", "")
  | String c v' => if negb (Ascii.eqb c quote) then consumeToken v else match consume_quoted v' with Some r => r | None => ("", v) end
  end.

(** [strings.HasPrefix] of one character and the rest. *)
Definition after (c : Ascii.ascii) (v : string) : option string :=
  match v with String d v' => if Ascii.eqb d c then Some v' else None | EmptyString => None end.

Definition consumeMediaParam (v : string) : string * string * string :=
  match after semicolon (TrimLeftSpace v) with
  | None => ("", "", v)
  | Some rest =>
      let '(param, rest) := consumeToken (TrimLeftSpace rest) in
      let param := ToLower param in
      if String.eqb param "" then ("", "", v)
      else match after equals (TrimLeftSpace rest) with
           | None => ("", "", v)
           | Some rest =>
               let rest := TrimLeftSpace rest in
               let '(value, rest2) := consumeValue rest in
               if String.eqb value "" && String.eqb rest2 rest then ("", "", v) else (param, value, rest2)
           end
  end.

(** ** RFC 2231 *)

(** [strings.SplitN(v, "'", 3)] when it has three parts. *)
Definition get2231Charset (v : string) : result err (string * string) :=
  match Index apostrophe v with
  | None => Err (ErrOther "incorrect RFC2231 charset format")
  | Some i =>
      match Index apostrophe (str_drop (S i) v) with
      | None => Err (ErrOther "incorrect RFC2231 charset format")
      | Some j => Ok (ToLower (str_take i v), str_drop (S j) (str_drop (S i) v))
      end
  end.

Definition isFirstContinuation (key : string) : bool :=
  match Index star key with
  | None => false
  | Some idx => String.eqb (str_drop idx key) "*" || String.eqb (str_drop idx key) "*0*"
  end.

Definition ishex (c : Ascii.ascii) : bool :=
  let n := code c in ((48 <=? n) && (n <=? 57)) || ((97 <=? n) && (n <=? 102)) || ((65 <=? n) && (n <=? 70)).
Definition unhex (c : Ascii.ascii) : Z :=
  let n := code c in
  if (48 <=? n) && (n <=? 57) then n - 48
  else if (97 <=? n) && (n <=? 102) then n - 97 + 10
  else if (65 <=? n) && (n <=? 70) then n - 65 + 10
  else 0.

Fixpoint percentHexUnescape (s : string) : result err string :=
  match s with
  | EmptyString => Ok ""
  | String c s' =>
      if negb (Ascii.eqb c percent) then t ← percentHexUnescape s'; Ok (String c t)
      else match s' with
           | String a (String b s'') =>
               if ishex a && ishex b then t ← percentHexUnescape s''; Ok (String (chr (Z.lor (Z.shiftl (unhex a) 4) (unhex b))) t)
               else Err (ErrOther "mime: bogus characters after %")
           | _ => Err (ErrOther "mime: bogus characters after %")
           end
  end.

(** [fmt.Sprintf("%%%x", v)]: lower-case digits without leading zeros. *)
Definition hex_digit (n : Z) : Ascii.ascii := chr (if n <? 10 then n + 48 else n + 87).
Definition hex (n : Z) : string := if n <? 16 then String (hex_digit n) "" else String (hex_digit (n / 16)) (String (hex_digit (n mod 16)) "").
Fixpoint percentHexEscape (raw : string) : string :=
  match raw with EmptyString => "" | String v raw => String percent (hex (code v) +:+ percentHexEscape raw) end.

Section media_types.
Context `{MR : MapRange, DT : DecodeText}.

Definition convertHexToUTF (charset value : string) : result err string :=
  raw ← percentHexUnescape value;
  utf8 ← DecodeCharset raw ("text/plain; charset=" +:+ charset);
  Ok ("utf-8''" +:+ percentHexEscape utf8).

(** The sections from [n] on, with the character set and value of those before; there are as many
    sections as the map has entries at most. *)
Fixpoint merge_sections (fuel : nat) (paramKey : string) (contMap : gmap string string) (n : nat) (charset value : string) : result err (string * string) :=
  match fuel with
  | O => Err (ErrOther "not valid RFC2231 continuation")
  | S fuel =>
      let contKey := paramKey +:+ "*" +:+ pretty n in
      let isLast := bool_decide (is_Some (contMap !! contKey)) in
      match (if isLast then contMap !! contKey else contMap !! (contKey +:+ "*")) with
      | None => Err (ErrOther "not valid RFC2231 continuation")
      | Some contValue =>
          if (n =? 0)%nat then
            match get2231Charset contValue with
            | Err e => Err e
            | Ok (charset, value) =>
                if String.eqb charset "" then Ok ("", "")
                else if isLast then Ok (charset, value) else merge_sections fuel paramKey contMap (S n) charset value
            end
          else if isLast then Ok (charset, value +:+ contValue) else merge_sections fuel paramKey contMap (S n) charset (value +:+ contValue)
      end
  end.

(** A missing character set returns an empty value and no error. *)
Definition mergeContinuations (paramKey : string) (contMap : gmap string string) : result err string :=
  match contMap !! (paramKey +:+ "*") with
  | Some contValue => '(charset, value) ← get2231Charset contValue; convertHexToUTF charset value
  | None =>
      '(charset, value) ← merge_sections (S (size contMap)) paramKey contMap 0 "" "";
      if String.eqb charset "" then Ok "" else convertHexToUTF charset value
  end.

(** What the loop over the parameters collects. *)
Record param_state : Type := mkParamState { params : gmap string string; continuation : gmap string (gmap string string); keepOrig : bool }.

Definition add_param (key value : string) (st : param_state) : param_state :=
  match Index star key with
  | None =>
      mkParamState (<[key := value]> (params st)) (continuation st)
        (keepOrig st && negb (bool_decide (is_Some (params st !! key))))
  | Some i =>
      let baseName := str_take i key in
      let pmap := default ∅ (continuation st !! baseName) in
      let st := mkParamState (params st) (<[baseName := pmap]> (continuation st)) (keepOrig st) in
      let add (st : param_state) :=
        mkParamState (params st) (<[baseName := <[key := value]> pmap]> (continuation st))
          (keepOrig st && negb (bool_decide (is_Some (pmap !! key)))) in
      if isFirstContinuation key then
        match get2231Charset value with
        | Err _ => st
        | Ok (charset, _) =>
            add (if String.eqb charset "utf-8" || String.eqb charset "us-ascii" then st
                 else mkParamState (params st) (continuation st) false)
        end
      else add st
  end.

(** [None]: the fuel ran out. *)
Fixpoint collect_params (fuel : nat) (v : string) (st : param_state) : option param_state :=
  match fuel with
  | O => None
  | S fuel =>
      let v := TrimLeftSpace v in
      if String.eqb v "" then Some st
      else let '(key, value, rest) := consumeMediaParam v in
           if String.eqb key "" then Some st else collect_params fuel rest (add_param key value st)
  end.

Definition merge_all (st : param_state) : gmap string string :=
  foldl (fun ps '(paramKey, contMap) =>
           match mergeContinuations paramKey contMap with
           | Ok value => <[paramKey +:+ "*" := value]> ps
           | Err _ => contMap ∪ ps
           end) (params st) (map_range (continuation st)).

Definition render_params (ps : list (string * string)) : string :=
  foldr (fun '(k, v) out => ";" +:+ k +:+ "=" +:+ v +:+ out) "" ps.

Definition changeEncodingAndKeepLastParamDefinition (v : string) : option string :=
  let i := match Index semicolon v with Some i => i | None => String.length v end in
  let mediatype := TrimRightSpace (TrimLeftSpace (ToLower (str_take i v))) in
  st ← collect_params (S (String.length v)) (str_drop i v) (mkParamState ∅ ∅ true);
  Some (if keepOrig st then v else mediatype +:+ render_params (map_range (merge_all st))).

End media_types.

(** ** Sections of a parameter *)

Section sections.

Lemma distinct_keys_size {A} (m : gmap string A) (l : list string) : NoDup l -> (forall k, k ∈ l -> is_Some (m !! k)) -> (length l <= size m)%nat.
Proof.
  intros Hnd Hl. rewrite <- (size_dom m), <- (size_list_to_set (C := gset string) l) by done.
  apply subseteq_size. intros k. rewrite elem_of_list_to_set, elem_of_dom. apply Hl.
Qed.

Definition section_key (paramKey : string) (n : nat) : string := paramKey +:+ "*" +:+ pretty n.

Lemma str_app_star_inj s t : s +:+ "*" = t +:+ "*" -> s = t.
Proof.
  revert t. induction s as [|c s IH]; intros [|d t]; [done|intros [= _ H]; by destruct t|intros [= _ H]; by destruct s|].
  intros [= -> H]. f_equal. by apply IH.
Qed.

Lemma section_key_inj paramKey n m : section_key paramKey n = section_key paramKey m -> n = m.
Proof. intros H%str_app_inj%str_app_inj. by apply (inj pretty) in H. Qed.

(** As long as sections are found there are as many entries. *)
Lemma sections_size (contMap : gmap string string) paramKey n :
  (forall i, (i < n)%nat -> is_Some (contMap !! (section_key paramKey i +:+ "*"))) -> (n <= size contMap)%nat.
Proof.
  intros Hi. rewrite <- (length_seq n 0), <- (length_fmap (fun i => section_key paramKey i +:+ "*")).
  apply distinct_keys_size.
  - apply NoDup_fmap_2_strong; [|apply NoDup_seq]. intros x y _ _ H%str_app_star_inj. by apply section_key_inj in H.
  - intros k (i & -> & Hin)%list_elem_of_fmap. apply elem_of_seq in Hin. apply Hi. lia.
Qed.

Lemma merge_sections_fuel contMap paramKey n f1 f2 charset value :
  (forall i, (i < n)%nat -> is_Some (contMap !! (section_key paramKey i +:+ "*"))) ->
  (size contMap < n + f1)%nat -> (size contMap < n + f2)%nat ->
  merge_sections f1 paramKey contMap n charset value = merge_sections f2 paramKey contMap n charset value.
Proof.
  revert n f2 charset value. induction f1 as [|f1 IH]; intros n [|f2] charset value Hi H1 H2; try (apply sections_size in Hi; lia).
  cbn [merge_sections]. fold (section_key paramKey n).
  destruct (bool_decide (is_Some (contMap !! section_key paramKey n))) eqn:Hl; [done|].
  change (paramKey +:+ "*" +:+ pretty n) with (section_key paramKey n).
  destruct (contMap !! (section_key paramKey n +:+ "*")) as [v|] eqn:Hv; [|done].
  assert (Hnext : forall i, (i < S n)%nat -> is_Some (contMap !! (section_key paramKey i +:+ "*"))).
  { intros i Hlt. destruct (decide (i = n)) as [->|]; [eauto|apply Hi; lia]. }
  destruct (n =? 0)%nat; [destruct (get2231Charset v) as [[cs val]|]; [destruct (String.eqb cs "")|]; try done|]; apply IH; (done || lia).
Qed.

End sections.

(** ** Reading what is written *)

Definition is_token (s : string) : Prop := s <> "" /\ forall c, c ∈ String.list_ascii_of_string s -> isTokenChar c = true.

Lemma token_cons c s : (forall d, d ∈ String.list_ascii_of_string (String c s) -> isTokenChar d = true) ->
  isTokenChar c = true /\ forall d, d ∈ String.list_ascii_of_string s -> isTokenChar d = true.
Proof. intros H. split; [apply H; by left|]. intros d Hd. apply H. by right. Qed.

(** A token ends where it does, before a character that is none or at the end. *)
Definition ends_token (rest : string) : Prop := match rest with EmptyString => True | String c _ => isTokenChar c = false end.

Lemma consumeToken_app s rest : (forall c, c ∈ String.list_ascii_of_string s -> isTokenChar c = true) -> ends_token rest ->
  consumeToken (s +:+ rest) = (s, rest).
Proof.
  intros Hs Hr. induction s as [|c s IH].
  - destruct rest as [|c rest]; [done|]. simpl in *. unfold isNotTokenChar. by rewrite Hr.
  - apply token_cons in Hs as [Hc Hs]. change (String c s +:+ rest) with (String c (s +:+ rest)). simpl.
    unfold isNotTokenChar. rewrite Hc. simpl. by rewrite IH.
Qed.

(** A quoted string with its special characters escaped. *)
Fixpoint escape (s : string) : string :=
  match s with
  | EmptyString => ""
  | String c s => if Ascii.eqb c quote || Ascii.eqb c backslash then String backslash (String c (escape s)) else String c (escape s)
  end.
Definition no_line_break (s : string) : Prop := forall c, c ∈ String.list_ascii_of_string s -> Ascii.eqb c cr || Ascii.eqb c lf = false.

Lemma consume_quoted_escape s rest : no_line_break s -> consume_quoted (escape s +:+ String quote rest) = Some (s, rest).
Proof.
  induction s as [|c s IH]; intros Hs; [reflexivity|].
  assert (Hs' : no_line_break s) by (intros d Hd; apply Hs; by right). specialize (IH Hs').
  assert (Hc : Ascii.eqb c cr || Ascii.eqb c lf = false) by (apply Hs; by left).
  cbn [escape]. destruct (Ascii.eqb c quote || Ascii.eqb c backslash) eqn:He.
  - change (String backslash (String c (escape s)) +:+ String quote rest) with (String backslash (String c (escape s +:+ String quote rest))).
    assert (Hn : isTokenChar c = false).
    { apply orb_true_iff in He as [He|He]; apply Ascii.eqb_eq in He as ->; reflexivity. }
    cbn -[isTokenChar]. rewrite Hn. cbn [negb]. by rewrite IH.
  - apply orb_false_iff in He as [Hq Hb].
    change (String c (escape s) +:+ String quote rest) with (String c (escape s +:+ String quote rest)).
    cbn [consume_quoted]. rewrite Hq, Hb, Hc, IH. simpl. by destruct (escape s +:+ String quote rest).
Qed.

(** ** Headers as programs write them *)

Section headers.
Context `{MR : MapRange, DT : DecodeText}.

Fixpoint all_token (s : string) : bool := match s with EmptyString => true | String c s => isTokenChar c && all_token s end.
Definition write_value (v : string) : string :=
  if negb (String.eqb v "") && all_token v then v else String quote (escape v +:+ String quote "").
Definition write_params (ps : list (string * string)) : string :=
  foldr (fun '(k, v) out => ";" +:+ " " +:+ k +:+ "=" +:+ write_value v +:+ out) "" ps.

(** A lower-case name without a star, and a value on one line. *)
Definition simple_param (kv : string * string) : Prop :=
  is_token kv.1 /\ ToLower kv.1 = kv.1 /\ Index star kv.1 = None /\ no_line_break kv.2.

Lemma all_token_spec s : all_token s = true <-> forall c, c ∈ String.list_ascii_of_string s -> isTokenChar c = true.
Proof.
  induction s as [|c s IH]; simpl.
  - split; [|done]. intros _ c H. by apply elem_of_nil in H.
  - rewrite andb_true_iff, IH. split.
    + intros [Hc Hs] d [->|Hd]%elem_of_cons; auto.
    + intros H. split; [apply H; by left|]. intros d Hd. apply H. by right.
Qed.

Lemma token_not_space c : isTokenChar c = true -> IsSpace c = false.
Proof. unfold isTokenChar, IsSpace. rewrite Z.gtb_ltb. intros H. boolp. apply orb_false_iff. split; [apply Z.eqb_neq; lia|]. apply andb_false_iff. right. apply Z.leb_gt. lia. Qed.

Lemma trim_token s rest : is_token s -> TrimLeftSpace (s +:+ rest) = s +:+ rest.
Proof.
  intros [Hne Hs]. destruct s as [|c s]; [done|]. change (String c s +:+ rest) with (String c (s +:+ rest)). simpl.
  rewrite (token_not_space c); [done|]. apply Hs. by left.
Qed.

Lemma consumeValue_written v out : no_line_break v -> ends_token out -> consumeValue (write_value v +:+ out) = (v, out) /\
  TrimLeftSpace (write_value v +:+ out) = write_value v +:+ out /\ (write_value v +:+ out) <> "" /\ (v = "" -> out <> write_value v +:+ out).
Proof.
  intros Hn Ho. unfold write_value. destruct (negb (String.eqb v "") && all_token v) eqn:Ht.
  - apply andb_true_iff in Ht as [Hv Ht]. apply negb_true_iff, String.eqb_neq in Hv. assert (Ht' := proj1 (all_token_spec v) Ht). clear Ht. rename Ht' into Ht.
    split; [|split; [by apply trim_token|split; [by destruct v|done]]].
    destruct v as [|c v]; [done|]. change (String c v +:+ out) with (String c (v +:+ out)). cbn [consumeValue].
    destruct (Ascii.eqb c quote) eqn:Hq.
    + apply Ascii.eqb_eq in Hq as ->. specialize (Ht quote (list_elem_of_here _ _)). discriminate Ht.
    + by rewrite <- (consumeToken_app (String c v) out).
  - change (String quote (escape v +:+ String quote "") +:+ out) with (String quote ((escape v +:+ String quote "") +:+ out)).
    rewrite str_app_assoc. change (String quote "" +:+ out) with (String quote out).
    split; [simpl; by rewrite consume_quoted_escape|]. split; [done|]. split; [done|]. intros -> He.
    apply (f_equal String.length) in He. simpl in He. lia.
Qed.

Lemma trim_keep c v : IsSpace c = false -> TrimLeftSpace (String c v) = String c v.
Proof. simpl. by intros ->. Qed.
Lemma trim_skip c v : IsSpace c = true -> TrimLeftSpace (String c v) = TrimLeftSpace v.
Proof. simpl. by intros ->. Qed.
Lemma after_eq c v : after c (String c v) = Some v.
Proof. simpl. by rewrite Ascii.eqb_refl. Qed.

Lemma consumeMediaParam_written k v out : simple_param (k, v) -> ends_token out ->
  consumeMediaParam (";" +:+ " " +:+ k +:+ "=" +:+ write_value v +:+ out) = (k, v, out).
Proof.
  intros (Hk & Hl & _ & Hv) Ho. cbn [fst snd] in *. destruct (consumeValue_written v out Hv Ho) as (Hc & Ht & _ & Hne).
  unfold consumeMediaParam.
  change (";" +:+ " " +:+ k +:+ "=" +:+ write_value v +:+ out) with (String semicolon (String (chr 32) (k +:+ "=" +:+ write_value v +:+ out))).
  rewrite trim_keep, after_eq, trim_skip, trim_token by done.
  rewrite (consumeToken_app k) by (done || apply Hk). rewrite Hl.
  destruct (String.eqb_spec k "") as [->|_]; [by destruct Hk|].
  change ("=" +:+ write_value v +:+ out) with (String equals (write_value v +:+ out)).
  rewrite trim_keep, after_eq, Ht, Hc by done.
  destruct (String.eqb_spec v "") as [Hv0|_]; cbn [andb]; [|done].
  by rewrite (proj2 (String.eqb_neq _ _)) by by apply Hne.
Qed.

Lemma ends_token_written ps : ends_token (write_params ps).
Proof. by destruct ps as [|[k v] ps]. Qed.

Definition add_all (ps : list (string * string)) (st : param_state) : param_state := foldl (fun st '(k, v) => add_param k v st) st ps.

Lemma collect_written ps fuel st : Forall simple_param ps -> (length ps < fuel)%nat ->
  collect_params fuel (write_params ps) st = Some (add_all ps st).
Proof.
  revert ps st. induction fuel as [|fuel IH]; intros [|[k v] ps] st Hs Hf; simpl in Hf; try lia; [done|].
  apply Forall_cons in Hs as [Hkv Hs]. cbn [collect_params].
  change (TrimLeftSpace (write_params ((k, v) :: ps))) with (write_params ((k, v) :: ps)). cbn [write_params foldr].
  fold (write_params ps). rewrite consumeMediaParam_written by (done || apply ends_token_written).
  change (String.eqb (";" +:+ _) "") with false. cbn iota.
  destruct (String.eqb_spec k "") as [->|_]; [by destruct Hkv as [[] _]|].
  change (add_all ((k, v) :: ps) st) with (add_all ps (add_param k v st)). apply IH; [done|lia].
Qed.

(** The last value of a name. *)
Definition last_value (k : string) (ps : list (string * string)) : option string :=
  foldl (fun acc '(k', v) => if decide (k' = k) then Some v else acc) None ps.

Lemma add_all_simple ps st : Forall simple_param ps ->
  continuation (add_all ps st) = continuation st /\
  (forall k, params (add_all ps st) !! k = foldl (fun acc '(k', v) => if decide (k' = k) then Some v else acc) (params st !! k) ps) /\
  keepOrig (add_all ps st) = keepOrig st && bool_decide (NoDup ps.*1 /\ Forall (fun k => params st !! k = None) ps.*1).
Proof.
  revert st. induction ps as [|[k v] ps IH]; intros st Hs; simpl.
  - split; [done|]. split; [done|]. by rewrite andb_true_r.
  - apply Forall_cons in Hs as [(_ & _ & Hstar & _) Hs]. cbn [fst] in Hstar.
    destruct (IH (add_param k v st) Hs) as (Hc & Hp & Hk). unfold add_param in *. rewrite Hstar in *. simpl in *.
    split; [done|]. split.
    + intros k'. rewrite Hp. f_equal. destruct (decide (k = k')) as [->|Hne]; [by rewrite lookup_insert_eq|by rewrite lookup_insert_ne].
    + rewrite Hk, <- andb_assoc. f_equal. apply eq_iff_eq_true. rewrite andb_true_iff, negb_true_iff, bool_decide_eq_false, !bool_decide_eq_true.
      rewrite NoDup_cons, Forall_cons, !Forall_forall, <- eq_None_not_Some. split.
      * intros (Hnone & Hnd & Hrest). change (list_fmap (string * string)%type string fst ps) with (ps.*1) in *.
        assert (Hkin : k ∉ ps.*1) by (intros Hin; specialize (Hrest k Hin); by rewrite lookup_insert_eq in Hrest).
        split; [done|]. split; [done|]. intros k' Hin. specialize (Hrest k' Hin). by apply lookup_insert_None in Hrest as [].
      * intros ((Hkin & Hnd) & Hnone & Hrest). split; [done|]. split; [done|]. intros k' Hin. apply lookup_insert_None.
        split; [auto|]. by intros ->.
Qed.

Lemma Index_app_first c s t : Index c s = None -> Index c (s +:+ String c t) = Some (String.length s).
Proof. intros H. rewrite Index_app_None by done. simpl. rewrite Ascii.eqb_refl. simpl. f_equal. lia. Qed.

Lemma length_written ps : (length ps <= String.length (write_params ps))%nat.
Proof.
  induction ps as [|[k v] ps IH]; [done|]. cbn [write_params foldr]. fold (write_params ps).
  rewrite !str_app_length. cbn [length String.length]. lia.
Qed.

(** A header with simple parameters is passed on as it is when their names are distinct; otherwise
    each name keeps its last value. *)
Theorem last_definition_kept mt ps : Index semicolon mt = None -> Forall simple_param ps ->
  exists m, changeEncodingAndKeepLastParamDefinition (mt +:+ write_params ps) =
      Some (if decide (NoDup ps.*1) then mt +:+ write_params ps
            else TrimRightSpace (TrimLeftSpace (ToLower mt)) +:+ render_params (map_range m)) /\
    forall k, m !! k = last_value k ps.
Proof.
  intros Hmt Hps. destruct (add_all_simple ps (mkParamState ∅ ∅ true) Hps) as (Hc & Hp & Hk). simpl in Hc, Hp, Hk.
  exists (params (add_all ps (mkParamState ∅ ∅ true))). split; [|intros k; by rewrite Hp, lookup_empty].
  unfold changeEncodingAndKeepLastParamDefinition.
  assert (Hi : match Index semicolon (mt +:+ write_params ps) with Some i => i | None => String.length (mt +:+ write_params ps) end = String.length mt).
  { destruct ps as [|[k v] ps]; [|change (write_params ((k, v) :: ps)) with (String semicolon (" " +:+ k +:+ "=" +:+ write_value v +:+ write_params ps));
      by rewrite (Index_app_first semicolon mt)].
    change (write_params []) with "". by rewrite str_app_nil, Hmt. }
  rewrite Hi, str_take_app, str_take_all, str_drop_app by done.
  rewrite collect_written; [|done|].
  - cbn [mbind option_bind]. rewrite Hk. unfold merge_all. rewrite Hc.
    destruct (decide (NoDup ps.*1)) as [Hnd|Hnd].
    + rewrite bool_decide_eq_true_2; [done|]. split; [done|]. apply Forall_forall. intros k _. apply lookup_empty.
    + rewrite bool_decide_eq_false_2 by naive_solver. f_equal. f_equal. f_equal.
      assert (Hr : map_range (∅ : gmap string (gmap string string)) = []).
      { apply Permutation_nil. rewrite map_range_perm. by rewrite map_to_list_empty. }
      by rewrite Hr.
  - assert (H := length_written ps). rewrite str_app_length. lia.
Qed.

(** The text that is read gets shorter with every parameter. *)
Lemma consumeToken_rest v : (String.length (consumeToken v).2 <= String.length v)%nat.
Proof. induction v as [|c v IH]; simpl; [done|]. destruct (isNotTokenChar c); [done|]. destruct (consumeToken v). simpl in *. lia. Qed.

Lemma TrimLeftSpace_rest v : (String.length (TrimLeftSpace v) <= String.length v)%nat.
Proof. induction v as [|c v IH]; simpl; [done|]. destruct (IsSpace c); simpl; lia. Qed.

Lemma consume_quoted_rest v s rest : consume_quoted v = Some (s, rest) -> (String.length rest < String.length v)%nat.
Proof.
  remember (String.length v) as n eqn:Hn. revert v s rest Hn. induction n as [n IH] using lt_wf_ind. intros [|r v] s rest ->; [done|].
  assert (Hplain : forall s rest, (if Ascii.eqb r cr || Ascii.eqb r lf then None else '(s, rest) ← consume_quoted v; Some (String r s, rest)) = Some (s, rest) ->
    (String.length rest < S (String.length v))%nat).
  { intros s' rest'. destruct (_ || _); [done|]. destruct (consume_quoted v) as [[s1 r1]|] eqn:Hq; simpl; [|done]. intros [= <- <-].
    apply (IH (String.length v)) in Hq; [simpl; lia|simpl; lia|done]. }
  cbn [consume_quoted]. destruct (Ascii.eqb r quote); [intros [= <- <-]; simpl; lia|].
  destruct v as [|n0 v]; [apply Hplain|]. destruct (Ascii.eqb r backslash && negb (isTokenChar n0)); [|apply Hplain].
  destruct (consume_quoted v) as [[s1 r1]|] eqn:Hq; simpl; [|done]. intros [= <- <-].
  apply (IH (String.length v)) in Hq; [simpl; lia|simpl; lia|done].
Qed.

Lemma consumeMediaParam_rest v key value rest : consumeMediaParam v = (key, value, rest) -> key <> "" -> (String.length rest < String.length v)%nat.
Proof.
  unfold consumeMediaParam. assert (Ht := TrimLeftSpace_rest v). destruct (TrimLeftSpace v) as [|c v1]; cbn [after]; [intros [= <- <- <-]; done|].
  destruct (Ascii.eqb c semicolon); [|intros [= <- <- <-]; done].
  assert (H2 := TrimLeftSpace_rest v1). assert (H3 := consumeToken_rest (TrimLeftSpace v1)). destruct (consumeToken (TrimLeftSpace v1)) as [param rest1].
  destruct (String.eqb (ToLower param) ""); [intros [= <- <- <-]; done|]. assert (H4 := TrimLeftSpace_rest rest1).
  destruct (TrimLeftSpace rest1) as [|d v2]; cbn [after]; [intros [= <- <- <-]; done|]. destruct (Ascii.eqb d equals); [|intros [= <- <- <-]; done].
  assert (H5 := TrimLeftSpace_rest v2). assert (H6 : (String.length (consumeValue (TrimLeftSpace v2)).2 <= String.length (TrimLeftSpace v2))%nat).
  { destruct (TrimLeftSpace v2) as [|q v3]; simpl; [done|]. destruct (Ascii.eqb q quote); cbn [negb]; [|apply (consumeToken_rest (String q v3))].
    destruct (consume_quoted v3) as [[s r]|] eqn:Hq; simpl; [|lia]. apply consume_quoted_rest in Hq. lia. }
  destruct (consumeValue (TrimLeftSpace v2)) as [value' rest2]. simpl in *.
  destruct (String.eqb value' "" && String.eqb rest2 (TrimLeftSpace v2)); intros [= <- <- <-] Hk; [done|]. lia.
Qed.

Lemma collect_terminates fuel v st : (String.length v < fuel)%nat -> collect_params fuel v st <> None.
Proof.
  revert v st. induction fuel as [|fuel IH]; intros v st Hf; [lia|]. cbn [collect_params]. assert (Ht := TrimLeftSpace_rest v).
  destruct (String.eqb (TrimLeftSpace v) ""); [done|]. destruct (consumeMediaParam (TrimLeftSpace v)) as [[key value] rest] eqn:Hc.
  destruct (String.eqb_spec key "") as [|Hk]; [done|]. apply IH. apply consumeMediaParam_rest in Hc; [lia|done].
Qed.

Lemma str_drop_rest n s : (String.length (str_drop n s) <= String.length s)%nat.
Proof. revert n. induction s as [|c s IH]; intros [|n]; simpl; try lia. specialize (IH n). lia. Qed.

(** Filtering a header ends for every input. *)
Theorem media_type_terminates v : changeEncodingAndKeepLastParamDefinition v <> None.
Proof.
  unfold changeEncodingAndKeepLastParamDefinition. set (i := match Index _ _ with Some i => i | None => _ end).
  assert (H := str_drop_rest i v). destruct (collect_params _ _ _) eqn:Hc; [done|]. exfalso. revert Hc. apply collect_terminates. lia.
Qed.

End headers.

(** ** Escapes *)

Definition two_digits (c : Ascii.ascii) : bool :=
  match hex (code c) with
  | String a (String b "") => ishex a && ishex b && Ascii.eqb (chr (Z.lor (Z.shiftl (unhex a) 4) (unhex b))) c
  | _ => false
  end.

Lemma two_digits_all c : 16 <= code c -> two_digits c = true.
Proof.
  assert (Hall : forall c, (code c <? 16) || two_digits c = true) by (intros [[] [] [] [] [] [] [] []]; vm_compute; reflexivity).
  intros Hc. specialize (Hall c). rewrite (proj2 (Z.ltb_ge _ _)) in Hall by done. done.
Qed.

(** Text without control characters below 16 is read back from its escapes. *)
Theorem percent_round_trip raw : (forall c, c ∈ String.list_ascii_of_string raw -> 16 <= code c) ->
  percentHexUnescape (percentHexEscape raw) = Ok raw.
Proof.
  induction raw as [|c raw IH]; intros Hc; [done|].
  assert (H2 := two_digits_all c (Hc c (list_elem_of_here _ _))). unfold two_digits in H2. cbn [percentHexEscape].
  destruct (hex (code c)) as [|a [|b [|? ?]]]; try done. apply andb_true_iff in H2 as [Hh He]. apply Ascii.eqb_eq in He.
  change (String a (String b "") +:+ percentHexEscape raw) with (String a (String b (percentHexEscape raw))).
  cbn [percentHexUnescape]. change (negb (Ascii.eqb percent percent)) with false. cbn iota. rewrite Hh.
  rewrite IH by (intros d Hd; apply Hc; by right). cbn. by rewrite He.
Qed.

(** ** Examples *)

#[local] Existing Instance canonical_range.

(** A decoder that leaves text as it is. *)
Definition ex_decode : DecodeText := fun raw contentType => Ok raw.
#[local] Existing Instance ex_decode.

Lemma simple_params_dec (ps : list (string * string)) :
  forallb (fun '(k, v) => negb (String.eqb k "") && all_token k && String.eqb (ToLower k) k &&
             match Index star k with None => true | Some _ => false end &&
             forallb (fun c => negb (Ascii.eqb c cr || Ascii.eqb c lf)) (String.list_ascii_of_string v)) ps = true -> Forall simple_param ps.
Proof.
  intros H. apply Forall_forall. intros [k v] Hin. assert (Hkv := proj1 (List.forallb_forall _ _) H (k, v) (proj1 (list_elem_of_In _ _) Hin)). cbn in Hkv. boolp.
  split; [split; [done|by apply all_token_spec]|]. split; [done|]. split; [simpl; by destruct (Index star k)|].
  intros c Hc. apply negb_true_iff.
  match goal with Hb : forallb _ _ = true |- _ => exact (proj1 (List.forallb_forall _ _) Hb c (proj1 (list_elem_of_In _ _) Hc)) end.
Qed.

Definition quoted (s : string) : string := String quote (s +:+ String quote "").
Definition ex_params : list (string * string) := [("name", "a.txt"); ("size", "12"); ("name", "b c.txt")].

Lemma last_definition_kept_witness : exists m,
  changeEncodingAndKeepLastParamDefinition ("text/plain; name=a.txt; size=12; name=" +:+ quoted "b c.txt") = Some ("text/plain" +:+ render_params (map_range m)) /\
  m !! "name" = Some "b c.txt".
Proof.
  destruct (last_definition_kept "text/plain" ex_params eq_refl (simple_params_dec ex_params eq_refl)) as (m & H & Hm).
  exists m. split; [|rewrite (Hm "name"); reflexivity]. exact H.
Defined.

Lemma percent_round_trip_witness : percentHexUnescape (percentHexEscape "naïve") = Ok "naïve".
Proof.
  apply (percent_round_trip "naïve"). intros c Hc.
  assert (H : forallb (fun c => 16 <=? code c) (String.list_ascii_of_string "naïve") = true) by reflexivity.
  apply Z.leb_le. exact (proj1 (List.forallb_forall _ _) H c (proj1 (list_elem_of_In _ _) Hc)).
Defined.

(** A control character is written with one digit, which is not read back. *)
Example control_character_escape : percentHexEscape (String (chr 9) "x") = "%9%78" /\ is_ok (percentHexUnescape "%9%78") = false.
Proof. vm_compute. split; reflexivity. Qed.

(** When a header is written again, values lose their quotes: what is read afterwards ends at the space. *)
Example quotes_lost :
  changeEncodingAndKeepLastParamDefinition ("text/plain; name=" +:+ quoted "b c.txt" +:+ "; name=" +:+ quoted "b c.txt") = Some "text/plain;name=b c.txt".
Proof. vm_compute. reflexivity. Qed.

(** A section without a star ends the parameter, and a parameter whose last section has one is not
    merged but copied section by section. *)
Example sections_dropped :
  changeEncodingAndKeepLastParamDefinition "attachment; filename*0*=big5''a; filename*1=b; filename*2=c" = Some "attachment;filename*=utf-8''%61%62" /\
  exists s, changeEncodingAndKeepLastParamDefinition "attachment; filename*0*=big5''a; filename*1*=b" = Some s /\ str_contains s "big5''a" = true.
Proof. vm_compute. split; [reflexivity|]. eexists. split; reflexivity. Qed.

(** Without a character set the value is lost. *)
Example missing_charset_empties :
  changeEncodingAndKeepLastParamDefinition "attachment; filename*0*=''a; filename*1=.txt" = Some "attachment;filename*=".
Proof. vm_compute. reflexivity. Qed.
