(* ===== verification/Charsets.v ===== *)
(** * Names of character sets (pkg/mime/encoding.go)

    Mail names character sets in many ways.  [getEncoding] rewrites a name to one that the
    library of encodings knows, with four regular expressions and a table; the text of a
    part is then decoded with it.

    Regular expressions are interpreted as Go does, preferring the first alternative and
    longer repetitions; letters are those of ASCII.  The library of encodings, the parsers of Go's mime
    package and the guess of an encoding are the class [TextLib]. *)

From S2P Require Import Prelude.
From S2P Require Import Strings.
From S2P Require Import UserEvents.
From S2P Require Import MediaTypes.

(** ** Regular expressions *)

Inductive re : Type :=
| Chars (p : Ascii.ascii -> bool)
| Lit (s : string)
| Seq (l : list re)
| Alt (l : list re)
| Opt (r : re)
| Digits (least most : nat)
| Group (i : nat) (r : re)
| Start
| End.

Definition captures : Type := list (nat * string).
Definition capture (i : nat) (c : captures) : string := default "" (snd <$> find_first (fun '(j, _) => Nat.eqb i j) c).

Definition digit (c : Ascii.ascii) : bool := let n := code c in (48 <=? n) && (n <=? 57).
Fixpoint count_digits (s : string) : nat := match s with String c s => if digit c then S (count_digits s) else 0%nat | EmptyString => 0%nat end.

(** The matches at the beginning of a text, the preferred first: what follows and the captures. *)
Section matching.
Variable at_start : bool.
Definition matches : Type := list (string * captures).

Fixpoint match_re (r : re) (whole : bool) (s : string) (c : captures) {struct r} : matches :=
  match r with
  | Chars p => match s with String x s' => if p x then [(s', c)] else [] | EmptyString => [] end
  | Lit l => if has_prefix l s then [(str_drop (String.length l) s, c)] else []
  | Seq l =>
      (fix seq (l : list re) (whole : bool) (s : string) (c : captures) : matches :=
         match l with
         | [] => [(s, c)]
         | r :: l => match_re r whole s c ≫= fun '(s', c') => seq l (whole && String.eqb s s') s' c'
         end) l whole s c
  | Alt l => (fix alt (l : list re) : matches := match l with [] => [] | r :: l => match_re r whole s c ++ alt l end) l
  | Opt r => match_re r whole s c ++ [(s, c)]
  | Digits least most =>
      let n := Nat.min most (count_digits s) in
      (fix from (k : nat) : matches :=
         match k with
         | O => if (0 <? least)%nat then [] else [(s, c)]
         | S k' => if (k <? least)%nat then [] else (str_drop k s, c) :: from k'
         end) n
  | Group i r => (fun '(s', c') => (s', (i, str_take (String.length s - String.length s') s) :: c')) <$> match_re r whole s c
  | Start => if whole && at_start then [(s, c)] else []
  | End => match s with EmptyString => [(s, c)] | _ => [] end
  end.
End matching.

(** [FindAllStringSubmatch(s, -1)]: the captures of the matches, from left to right. *)
Fixpoint find_all (fuel : nat) (at_start : bool) (r : re) (s : string) : list captures :=
  match fuel with
  | O => []
  | S fuel =>
      match match_re at_start r true s [] with
      | (s', c) :: _ => c :: find_all fuel false r s'
      | [] => match s with EmptyString => [] | String _ s' => find_all fuel false r s' end
      end
  end.
Definition FindAllStringSubmatch (r : re) (s : string) : list captures := find_all (S (String.length s)) true r s.

(** ** Rewriting a name *)

Definition is_char (l : string) (c : Ascii.ascii) : bool := existsb (Ascii.eqb c) (String.list_ascii_of_string l).
Definition sep : re := Opt (Chars (is_char "-_ ")).

Definition koi_re : re :=
  Seq [Opt (Group 1 (Lit "cs")); Lit "koi"; sep; Opt (Lit "8"); sep; Opt (Group 2 (Alt [Lit "r"; Lit "ru"; Lit "u"; Lit "uk"])); End].
Definition windows_re : re :=
  Seq [Group 1 (Alt [Lit "cp"; Seq [Opt (Group 2 (Lit "cs")); Lit "win"; Opt (Group 3 (Lit "dows"))]]); sep; Group 4 (Digits 3 4); End].
Definition iso_re : re :=
  Seq [Lit "iso"; sep; Group 1 (Digits 4 4); sep; Opt (Group 2 (Alt [Digits 1 1000; Lit "jp"])); sep; Opt (Group 3 (Alt [Lit "i"; Lit "e"]))].
Definition latin_re : re :=
  Seq [Start; Opt (Group 1 (Alt [Lit "cs"; Lit "csiso"])); Lit "l"; Opt (Group 2 (Lit "atin")); sep; Group 3 (Digits 1 2); End].

Definition one_of (s : string) (l : list string) : bool := existsb (String.eqb s) l.

Definition koi_step (preparsed : string) : string :=
  match FindAllStringSubmatch koi_re preparsed with
  | [m] => if one_of (capture 2 m) ["u"; "uk"] then "koi8-u" else "koi8-r"
  | _ => preparsed
  end.

Definition windows_pages : list string := ["874"; "1250"; "1251"; "1252"; "1253"; "1254"; "1255"; "1256"; "1257"; "1258"].
Definition windows_step (preparsed : string) : string :=
  match FindAllStringSubmatch windows_re preparsed with
  | [m] => if one_of (capture 4 m) windows_pages then "windows-" +:+ capture 4 m else preparsed
  | _ => preparsed
  end.

Definition iso_parts : list string := ["1"; "2"; "3"; "4"; "5"; "7"; "8"; "9"; "10"; "11"; "13"; "14"; "15"; "16"].
Definition iso_step (preparsed : string) : string :=
  match FindAllStringSubmatch iso_re preparsed with
  | [m] =>
      let preparsed := if String.eqb (capture 1 m) "2022" && String.eqb (capture 2 m) "jp" then "iso-2022-jp" else preparsed in
      if String.eqb (capture 1 m) "8859" then
        if one_of (capture 2 m) iso_parts then "iso-8859-" +:+ capture 2 m +:+ (if String.eqb (capture 3 m) "i" then "-" +:+ capture 3 m else "")
        else if String.eqb (capture 2 m) "" then "iso-8859-1"
        else preparsed
      else preparsed
  | _ => preparsed
  end.

Definition latin_step (preparsed : string) : string :=
  match FindAllStringSubmatch latin_re preparsed with
  | [m] =>
      let n := capture 3 m in
      if String.eqb n "1" then "windows-1252"
      else if one_of n ["2"; "3"; "4"; "5"] then "iso-8859-" +:+ n
      else if String.eqb n "6" then "iso-8859-10"
      else if String.eqb n "8" then "iso-8859-14"
      else if String.eqb n "9" then "iso-8859-15"
      else if String.eqb n "10" then "iso-8859-16"
      else preparsed
  | _ => preparsed
  end.

Definition substitutions : list (list string * string) :=
  [(["csutf8"; "iso-utf-8"; "utf8mb4"], "utf-8");
   (["cp932"; "windows-932"; "windows-31J"; "ibm-943"; "cp943"], "shift_jis");
   (["eucjp"; "ibm-eucjp"], "euc-jp");
   (["euckr"; "ibm-euckr"; "cp949"], "euc-kr");
   (["euccn"; "ibm-euccn"], "gbk");
   (["zht16mswin950"; "cp950"], "big5");
   (["csascii"; "ansi_x3.4-1968"; "ansi_x3.4-1986"; "ansi_x3.110-1983"; "cp850"; "cp858"; "us"; "iso646"; "iso-646"; "iso646-us";
     "iso_646.irv:1991"; "cp367"; "ibm367"; "ibm-367"; "iso-ir-6"], "ascii");
   (["ibm852"], "iso-8859-2");
   (["iso-ir-199"; "iso-celtic"], "iso-8859-14");
   (["iso-ir-226"], "iso-8859-16");
   (["macroman"], "macintosh")].
Definition table_step (preparsed : string) : string :=
  match find_first (fun '(names, _) => one_of preparsed names) substitutions with Some (_, name) => name | None => preparsed end.

(** [strings.Trim(s, " \t\r\n")]. *)
Definition trimmed (c : Ascii.ascii) : bool := let n := code c in (n =? 32) || (n =? 9) || (n =? 13) || (n =? 10).
Fixpoint trim_left (s : string) : string := match s with String c s' => if trimmed c then trim_left s' else s | EmptyString => "" end.
Fixpoint trim_right (s : string) : string :=
  match s with
  | EmptyString => ""
  | String c s' => match trim_right s' with EmptyString => if trimmed c then "" else String c "" | t => String c t end
  end.
Definition prepare (charset : string) : string := trim_right (trim_left (ToLower charset)).

(** The name [getEncoding] looks up. *)
Definition preparsed_name (charset : string) : string := table_step (latin_step (iso_step (windows_step (koi_step (prepare charset))))).

(** ** Decoding *)

Class TextLib (Enc : Type) : Type := {
  htmlindex_Get : string -> option Enc;
  decode_with : Enc -> string -> result err string;
  Utf7 : Enc;
  utf8_Valid : string -> bool;
  DetermineEncoding : string -> string -> Enc;
  WordDec_DecodeHeader : string -> result err string;
  mime_ParseMediaType : string -> result err (string * gmap string string)
}.

Section decoding.
Context {Enc : Type} `{TL : TextLib Enc} `{MR : MapRange}.

Definition getEncoding (charset : string) : result err Enc :=
  match htmlindex_Get (preparsed_name charset) with
  | Some enc => Ok enc
  | None => Err (ErrOther ("can not get encoding for '" +:+ charset +:+ "' (or '" +:+ preparsed_name charset +:+ "')"))
  end.

Definition SelectDecoder (charset : string) : result err Enc :=
  let lcharset := prepare charset in
  if one_of lcharset ["utf7"; "utf-7"; "unicode-1-1-utf-7"] then Ok Utf7 else getEncoding lcharset.

(** [CharsetReader] of a text that is read completely. *)
Definition CharsetReader (charset input : string) : result err string :=
  dec ← SelectDecoder charset; decode_with dec input.

(** The decoded header, and the error. *)
Definition DecodeHeader (raw : string) : string * option err :=
  let '(decoded, e) := match WordDec_DecodeHeader raw with Ok d => (d, None) | Err e => (raw, Some e) end in
  (decoded, if negb (utf8_Valid decoded) then Some (ErrOther "header contains non utf8 chars") else e).

(** [ParseMediaType] and [DecodeCharset] call each other; each takes the other as an argument. *)
Definition EmptyContentTypeErr : err := ErrOther "empty content type".
Definition ParseMediaType `{DT : DecodeText} (v : string) : option (result err (string * gmap string string)) :=
  if String.eqb v "" then Some (Err EmptyContentTypeErr)
  else match DecodeHeader v with
       | (_, Some e) => Some (Err e)
       | (decoded, None) => v ← changeEncodingAndKeepLastParamDefinition decoded; Some (mime_ParseMediaType v)
       end.

(** The bytes returned, and the error next to them.  When the guessed decoder writes text that is not
    UTF-8 the code wraps the error of the decoder, which is nil there, so no error is returned. *)
Definition DecodeCharset (ParseMediaType : string -> result err (string * gmap string string)) (original contentType : string) : string * option err :=
  let guess :=
    if utf8_Valid original then (original, None)
    else match decode_with (DetermineEncoding original contentType) original with
         | Err e => (original, Some (ErrWrap "failed to decode as windows-1252" e))
         | Ok decoded => if utf8_Valid decoded then (decoded, None) else (original, None)
         end in
  if String.eqb contentType "" then guess
  else match ParseMediaType contentType with
       | Err e => ("", Some e)
       | Ok (_, params) =>
           match params !! "charset" with
           | None => guess
           | Some charset =>
               match SelectDecoder charset with
               | Err e => (original, Some (ErrWrap "unknown charset was specified" e))
               | Ok decoder => match decode_with decoder original with Ok d => (d, None) | Err e => ("", Some e) end
               end
           end
       end.

End decoding.

(** ** Rewriting again changes nothing *)

(** What a step writes when it changes a name. *)
Definition iso_outputs : list string :=
  ["iso-2022-jp"; "iso-8859-1"] ++ ((fun n => "iso-8859-" +:+ n) <$> iso_parts) ++ ((fun n => "iso-8859-" +:+ n +:+ "-i") <$> iso_parts).
Definition outputs : list string :=
  ["koi8-u"; "koi8-r"] ++ ((fun n => "windows-" +:+ n) <$> windows_pages) ++ iso_outputs ++ (snd <$> substitutions).

Lemma one_of_elem s l : one_of s l = true <-> s ∈ l.
Proof.
  unfold one_of. rewrite List.existsb_exists. split.
  - intros (x & Hx & He). apply String.eqb_eq in He as ->. by apply list_elem_of_In.
  - intros Hs. exists s. split; [by apply list_elem_of_In|apply String.eqb_refl].
Qed.

Definition all_in (l : list string) : bool := forallb (fun s => one_of s outputs) l.
Lemma all_in_elem l s : all_in l = true -> s ∈ l -> s ∈ outputs.
Proof. intros Ha Hs. apply one_of_elem. exact (proj1 (List.forallb_forall _ _) Ha s (proj1 (list_elem_of_In _ _) Hs)). Qed.

Lemma koi_step_out s : koi_step s = s \/ koi_step s ∈ outputs.
Proof.
  unfold koi_step. destruct (FindAllStringSubmatch koi_re s) as [|m [|]]; [by left| |by left]. right.
  apply (all_in_elem ["koi8-u"; "koi8-r"]); [reflexivity|]. destruct (one_of _ _); set_solver.
Qed.

Lemma windows_step_out s : windows_step s = s \/ windows_step s ∈ outputs.
Proof.
  unfold windows_step. destruct (FindAllStringSubmatch windows_re s) as [|m [|]]; [by left| |by left].
  destruct (one_of (capture 4 m) windows_pages) eqn:Ho; [right|by left]. apply one_of_elem in Ho.
  apply (all_in_elem ((fun n => "windows-" +:+ n) <$> windows_pages)); [reflexivity|]. by apply (list_elem_of_fmap_2 (fun n => "windows-" +:+ n)).
Qed.

Lemma iso_step_out s : iso_step s = s \/ iso_step s ∈ outputs.
Proof.
  unfold iso_step. destruct (FindAllStringSubmatch iso_re s) as [|m [|]]; [by left| |by left].
  set (s1 := if String.eqb (capture 1 m) "2022" && _ then "iso-2022-jp" else s).
  assert (H1 : s1 = s \/ s1 ∈ outputs).
  { unfold s1. destruct (_ && _); [right|by left]. apply (all_in_elem ["iso-2022-jp"]); [reflexivity|by left]. }
  destruct (String.eqb (capture 1 m) "8859"); [|done].
  destruct (one_of (capture 2 m) iso_parts) eqn:Ho.
  - right. apply one_of_elem in Ho. destruct (String.eqb_spec (capture 3 m) "i") as [->|_].
    + apply (all_in_elem ((fun n => "iso-8859-" +:+ n +:+ "-i") <$> iso_parts)); [reflexivity|]. by apply (list_elem_of_fmap_2 (fun n => "iso-8859-" +:+ n +:+ "-i")).
    + apply (all_in_elem ((fun n => "iso-8859-" +:+ n) <$> iso_parts)); [reflexivity|]. rewrite str_app_nil. by apply (list_elem_of_fmap_2 (fun n => "iso-8859-" +:+ n)).
  - destruct (String.eqb (capture 2 m) ""); [right|done]. apply (all_in_elem ["iso-8859-1"]); [reflexivity|by left].
Qed.

Lemma latin_step_out s : latin_step s = s \/ latin_step s ∈ outputs.
Proof.
  unfold latin_step. destruct (FindAllStringSubmatch latin_re s) as [|m [|]]; [by left| |by left].
  destruct (String.eqb (capture 3 m) "1"); [right; apply (all_in_elem ["windows-1252"]); [reflexivity|by left]|].
  destruct (one_of (capture 3 m) ["2"; "3"; "4"; "5"]) eqn:Ho.
  { right. apply one_of_elem in Ho. apply (all_in_elem ((fun n => "iso-8859-" +:+ n) <$> ["2"; "3"; "4"; "5"])); [reflexivity|].
    by apply (list_elem_of_fmap_2 (fun n => "iso-8859-" +:+ n)). }
  repeat (destruct (String.eqb (capture 3 m) _);
    [right; apply (all_in_elem ["iso-8859-10"; "iso-8859-14"; "iso-8859-15"; "iso-8859-16"]); [reflexivity|set_solver]|]). by left.
Qed.

Lemma table_step_out s : table_step s = s \/ table_step s ∈ outputs.
Proof.
  unfold table_step. destruct (find_first _ substitutions) as [[names name]|] eqn:Hf; [right|by left].
  apply find_first_Some in Hf as [Hin _]. apply (all_in_elem (snd <$> substitutions)); [reflexivity|].
  by apply (list_elem_of_fmap_2 snd _ (names, name)).
Qed.

Definition steps (s : string) : string := table_step (latin_step (iso_step (windows_step (koi_step s)))).

(** A step after another: unchanged so far, or written by one of them; [s] is the prepared name. *)
Lemma steps_out s : (koi_step s = s /\ windows_step s = s /\ iso_step s = s /\ latin_step s = s /\ table_step s = s) \/ steps s ∈ outputs.
Proof.
  assert (Hout : forall f, (forall t, f t = t \/ f t ∈ outputs) -> forall t, t ∈ outputs -> f t ∈ outputs).
  { intros f Hf t Ht. by destruct (Hf t) as [->|]. }
  assert (Kw := Hout _ windows_step_out). assert (Ki := Hout _ iso_step_out). assert (Kl := Hout _ latin_step_out). assert (Kt := Hout _ table_step_out).
  unfold steps. destruct (koi_step_out s) as [H1|H1]; [|by right; auto]. rewrite H1.
  destruct (windows_step_out s) as [H2|H2]; [|by right; auto]. rewrite H2.
  destruct (iso_step_out s) as [H3|H3]; [|by right; auto]. rewrite H3.
  destruct (latin_step_out s) as [H4|H4]; [|by right; auto]. rewrite H4.
  destruct (table_step_out s) as [H5|H5]; [by left|by right].
Qed.

Lemma lower_lower c : lower (lower c) = lower c.
Proof. destruct c as [[] [] [] [] [] [] [] []]; reflexivity. Qed.
Lemma lower_trimmed c : trimmed (lower c) = trimmed c.
Proof. destruct c as [[] [] [] [] [] [] [] []]; reflexivity. Qed.
Lemma ToLower_idempotent s : ToLower (ToLower s) = ToLower s.
Proof. unfold ToLower. induction s as [|c s IH]; simpl; [done|]. by rewrite lower_lower, IH. Qed.

Lemma ToLower_trim_left s : ToLower (trim_left s) = trim_left (ToLower s).
Proof. unfold ToLower. induction s as [|c s IH]; simpl; [done|]. rewrite lower_trimmed. by destruct (trimmed c). Qed.
Lemma ToLower_trim_right s : ToLower (trim_right s) = trim_right (ToLower s).
Proof.
  unfold ToLower. induction s as [|c s IH]; simpl; [done|]. rewrite <- IH, lower_trimmed.
  destruct (trim_right s); simpl; [by destruct (trimmed c)|done].
Qed.
Lemma trim_right_idempotent s : trim_right (trim_right s) = trim_right s.
Proof.
  induction s as [|c s IH]; simpl; [done|]. destruct (trim_right s) as [|d t] eqn:Ht; [destruct (trimmed c) eqn:Hc; simpl; [done|by rewrite Hc]|].
  simpl in *. by rewrite IH.
Qed.
Lemma trim_left_right s : trim_left (trim_right s) = trim_right (trim_left s).
Proof.
  induction s as [|c s IH]; [done|]. cbn [trim_right trim_left]. destruct (trimmed c) eqn:Hc.
  - rewrite <- IH. destruct (trim_right s); [done|]. cbn [trim_left]. by rewrite Hc.
  - cbn [trim_right]. destruct (trim_right s); cbn [trim_left]; by rewrite Hc.
Qed.
Lemma trim_left_idempotent s : trim_left (trim_left s) = trim_left s.
Proof. induction s as [|c s IH]; simpl; [done|]. destruct (trimmed c) eqn:Hc; [done|]. simpl. by rewrite Hc. Qed.

Lemma prepare_idempotent s : prepare (prepare s) = prepare s.
Proof.
  unfold prepare. rewrite ToLower_trim_right, ToLower_trim_left, ToLower_idempotent.
  by rewrite trim_left_right, trim_left_idempotent, trim_right_idempotent.
Qed.

Lemma outputs_stable s : s ∈ outputs -> preparsed_name s = s.
Proof.
  intros Hs. assert (Hall : forallb (fun s => String.eqb (preparsed_name s) s) outputs = true) by (vm_compute; reflexivity).
  apply String.eqb_eq. exact (proj1 (List.forallb_forall _ _) Hall s (proj1 (list_elem_of_In _ _) Hs)).
Qed.

(** The name a character set is rewritten to is not rewritten again. *)
Theorem preparsed_name_idempotent charset : preparsed_name (preparsed_name charset) = preparsed_name charset.
Proof.
  assert (Hs : preparsed_name charset = steps (prepare charset)) by done.
  destruct (steps_out (prepare charset)) as [(H1 & H2 & H3 & H4 & H5)|Hout].
  - assert (Hfix : steps (prepare charset) = prepare charset) by (unfold steps; by rewrite H1, H2, H3, H4, H5).
    rewrite Hs, Hfix. unfold preparsed_name. rewrite prepare_idempotent. exact Hfix.
  - rewrite Hs. by apply outputs_stable.
Qed.

Section texts.
Context {Enc : Type} `{TL : TextLib Enc}.

(** Text whose character set the content type does not name is passed on as it is or decoded to
    UTF-8, the latter only when it is not UTF-8 already; with an error it is returned as it was. *)
Theorem unnamed_charset_decoded parse original contentType :
  contentType = "" \/ (exists mt ps, parse contentType = Ok (mt, ps) /\ ps !! "charset" = None) ->
  match DecodeCharset parse original contentType with
  | (decoded, None) => decoded = original \/ utf8_Valid original = false /\ utf8_Valid decoded = true
  | (decoded, Some _) => decoded = original /\ utf8_Valid original = false
  end.
Proof.
  intros Hct. assert (Hguess : DecodeCharset parse original contentType =
    (if utf8_Valid original then (original, None)
     else match decode_with (DetermineEncoding original contentType) original with
          | Err e => (original, Some (ErrWrap "failed to decode as windows-1252" e))
          | Ok decoded => if utf8_Valid decoded then (decoded, None) else (original, None)
          end)).
  { unfold DecodeCharset. destruct (String.eqb_spec contentType "") as [|Hne]; [done|].
    destruct Hct as [?|(mt & ps & -> & Hcs)]; [done|]. by rewrite Hcs. }
  rewrite Hguess. destruct (utf8_Valid original) eqn:Hv; [by left|].
  destruct (decode_with _ original) as [d|e]; [|done]. destruct (utf8_Valid d) eqn:Hd; [by right|by left].
Qed.

End texts.

(** ** Examples *)

Example names_rewritten :
  (preparsed_name <$> ["KOI8"; "cskoi8r"; "koi-8-u"; "WINDOWS 1252"; "cp1251"; "iso88598i"; "latin1"; "csisolatin6"; "l5"; " UTF8 "])
    = ["koi8-r"; "koi8-r"; "koi8-u"; "windows-1252"; "windows-1251"; "iso-8859-8-i"; "windows-1252"; "iso-8859-10"; "iso-8859-5"; "utf8"].
Proof. vm_compute. reflexivity. Qed.

(** The table has a name with a capital letter, but names are compared in lower case. *)
Example capital_never_matches : preparsed_name "windows-31J" = "windows-31j".
Proof. vm_compute. reflexivity. Qed.

(** Text of one letter per byte: only ASCII is UTF-8. *)
Definition ex_text : TextLib () :=
  {| htmlindex_Get := fun _ => Some (); decode_with := fun _ s => Ok "decoded"; Utf7 := ();
     utf8_Valid := fun s => forallb (fun c => code c <? 128) (String.list_ascii_of_string s); DetermineEncoding := fun _ _ => ();
     WordDec_DecodeHeader := fun s => Ok s; mime_ParseMediaType := fun s => Ok (s, ∅) |}.
Lemma unnamed_charset_decoded_witness :
  DecodeCharset (TL := ex_text) (fun s => Ok (s, ∅)) "é" "text/plain" = ("decoded", None) /\
  ("decoded" = "é" \/ utf8_Valid (TextLib := ex_text) "é" = false /\ utf8_Valid (TextLib := ex_text) "decoded" = true).
Proof.
  split; [vm_compute; reflexivity|].
  assert (H := unnamed_charset_decoded (TL := ex_text) (fun s => Ok (s, ∅)) "é" "text/plain").
  assert (Hd : DecodeCharset (TL := ex_text) (fun s => Ok (s, ∅)) "é" "text/plain" = ("decoded", None)) by (vm_compute; reflexivity).
  rewrite Hd in H. apply H. right. exists "text/plain", ∅. split; [reflexivity|apply lookup_empty].
Defined.

(** A decoder that does not write UTF-8: the text is returned as it was, and no error with it. *)
Definition ex_bad_text : TextLib () :=
  {| htmlindex_Get := fun _ => None; decode_with := fun _ s => Ok s; Utf7 := ();
     utf8_Valid := fun s => forallb (fun c => code c <? 128) (String.list_ascii_of_string s); DetermineEncoding := fun _ _ => ();
     WordDec_DecodeHeader := fun s => Ok s; mime_ParseMediaType := fun s => Ok (s, ∅) |}.
Example undecodable_text_no_error :
  DecodeCharset (TL := ex_bad_text) (fun s => Ok (s, ∅)) "é" "" = ("é", None) /\ utf8_Valid (TextLib := ex_bad_text) "é" = false.
Proof. vm_compute. split; reflexivity. Qed.
