(* ===== verification/Utf7.v ===== *)
(** * UTF-7 (pkg/mime/utf7Decoder.go)

    A decoder of UTF-7 in the style of Go's text transformers: it reads from a source that
    may be a part of the text and writes to a destination of limited size.  Printable ASCII
    stands for itself; other text is UTF-16 in base 64 between a plus sign and a minus sign or any
    other character.

    Bytes are the characters of a string.  [Transform] returns what was written, what is
    left of the source and the error. *)

From S2P Require Import Prelude.
From S2P Require Import Strings.
From S2P Require Import MediaTypes.

Definition u7min : Z := 32.
Definition u7max : Z := 126.

Definition isModifiedBase64 (r : Ascii.ascii) : bool :=
  let n := code r in
  if (65 <=? n) && (n <=? 90) then true
  else if (97 <=? n) && (n <=? 122) then true
  else if (48 <=? n) && (n <=? 57) then true
  else if (n =? 43) || (n =? 47) then true
  else false.

(** [modifiedbase64]: the value of a digit. *)
Definition modifiedbase64 : string := "ABCDEFGHIJKLMNOPQRSTUVWXYZabcdefghijklmnopqrstuvwxyz0123456789+/".
Definition sextet (c : Ascii.ascii) : option Z := Z.of_nat <$> Index c modifiedbase64.

(** Base 64 without padding: bits that are left over are dropped. *)
Fixpoint sextets (s : string) : option (list Z) :=
  match s with EmptyString => Some [] | String c s => x ← sextet c; xs ← sextets s; Some (x :: xs) end.
Fixpoint from_sextets (l : list Z) : option (list Z) :=
  match l with
  | [] => Some []
  | [_] => None
  | [a; b] => Some [a * 4 + b / 16]
  | [a; b; c] => Some [a * 4 + b / 16; (b mod 16) * 16 + c / 4]
  | a :: b :: c :: d :: l => rest ← from_sextets l; Some (a * 4 + b / 16 :: (b mod 16) * 16 + c / 4 :: (c mod 4) * 64 + d :: rest)
  end.

(** [unicode/utf16] and [unicode/utf8]. *)
Definition IsSurrogate (r : Z) : bool := (55296 <=? r) && (r <? 57344).
Definition DecodeRune (r1 r2 : Z) : option Z :=
  if (55296 <=? r1) && (r1 <? 56320) && ((56320 <=? r2) && (r2 <? 57344)) then Some ((r1 - 55296) * 1024 + (r2 - 56320) + 65536) else None.
Definition EncodeRune (r : Z) : string :=
  if r <? 128 then String (chr r) ""
  else if r <? 2048 then String (chr (192 + r / 64)) (String (chr (128 + r mod 64)) "")
  else if r <? 65536 then String (chr (224 + r / 4096)) (String (chr (128 + (r / 64) mod 64)) (String (chr (128 + r mod 64)) ""))
  else String (chr (240 + r / 262144)) (String (chr (128 + (r / 4096) mod 64)) (String (chr (128 + (r / 64) mod 64)) (String (chr (128 + r mod 64)) ""))).

Fixpoint from_utf16 (b : list Z) : option string :=
  match b with
  | [] => Some ""
  | [_] => None
  | hi :: lo :: b =>
      let r := hi * 256 + lo in
      if IsSurrogate r then
        match b with
        | hi2 :: lo2 :: b => c ← DecodeRune r (hi2 * 256 + lo2); s ← from_utf16 b; Some (EncodeRune c +:+ s)
        | _ => None
        end
      else s ← from_utf16 b; Some (EncodeRune r +:+ s)
  end.

(** An empty result stands for an error. *)
Definition utf7dec (b64 : string) : string := default "" (xs ← sextets b64; b ← from_sextets xs; from_utf16 b).

Inductive u7_status : Type := Decoded | ErrShortDst | ErrShortSrc | ErrBadUTF7.

(** The digits at the beginning of a text, and what follows. *)
Fixpoint base64_span (s : string) : string * string :=
  match s with
  | String c s' => if isModifiedBase64 c then let '(digits, rest) := base64_span s' in (String c digits, rest) else ("", s)
  | EmptyString => ("", "")
  end.

Definition plus : Ascii.ascii := chr 43.
Definition minus : Ascii.ascii := chr 45.
Definition illegal (c : Ascii.ascii) : bool :=
  (((code c <? u7min) || (code c >? u7max)) && negb (code c =? 9) && negb (code c =? 13) && negb (code c =? 10)) || (code c =? 126) || (code c =? 92).

(** [out]: put something before what a recursive call writes. *)
Definition out (s : string) (r : string * string * u7_status) : string * string * u7_status :=
  let '(o, rest, st) := r in (s +:+ o, rest, st).

(** The loop: [room] is what the destination still takes. *)
Fixpoint u7_loop (fuel : nat) (room : nat) (src : string) (atEOF : bool) : string * string * u7_status :=
  match fuel with
  | O => ("", src, Decoded)
  | S fuel =>
      match src with
      | EmptyString => ("", "", Decoded)
      | String c src' =>
          if (room =? 0)%nat then ("", src, ErrShortDst)
          else if illegal c then ("", src, ErrBadUTF7)
          else if negb (Ascii.eqb c plus) then out (String c "") (u7_loop fuel (room - 1) src' atEOF)
          else
            match base64_span src' with
            | (EmptyString, EmptyString) => ("", src, if atEOF then ErrBadUTF7 else ErrShortSrc)
            | (EmptyString, String e rest) =>
                if Ascii.eqb e minus then out (String plus "") (u7_loop fuel (room - 1) rest atEOF) else ("", String e rest, ErrBadUTF7)
            | (segment, rest) =>
                if String.eqb rest "" && negb atEOF then ("", src, ErrShortSrc)
                else
                  let b := utf7dec segment in
                  if String.eqb b "" then ("", src, ErrBadUTF7)
                  else if (room <? String.length b)%nat then ("", src, ErrShortDst)
                  else
                    let room := (room - String.length b)%nat in
                    match rest with
                    | EmptyString => (b, "", Decoded)
                    | String e rest' =>
                        if Ascii.eqb e minus then out b (u7_loop fuel room rest' atEOF)
                        else if (room =? 0)%nat then (b, rest, ErrShortDst)
                        else out (b +:+ String e "") (u7_loop fuel (room - 1) rest' atEOF)
                    end
            end
      end
  end.

Definition Transform (room : nat) (src : string) (atEOF : bool) : string * string * u7_status :=
  if String.eqb src "" && negb atEOF then ("", src, ErrShortSrc) else u7_loop (S (String.length src)) room src atEOF.

(** ** Text written by the standard *)

(** The digits of bytes in base 64. *)
Definition digit_of (n : Z) : Ascii.ascii := default (chr 65) (String.list_ascii_of_string modifiedbase64 !! Z.to_nat n).
Fixpoint to_sextets (b : list Z) : list Z :=
  match b with
  | [] => []
  | [x] => [x / 4; (x mod 4) * 16]
  | [x; y] => [x / 4; (x mod 4) * 16 + y / 16; (y mod 16) * 4]
  | x :: y :: z :: b => x / 4 :: (x mod 4) * 16 + y / 16 :: (y mod 16) * 4 + z / 64 :: z mod 64 :: to_sextets b
  end.
Definition to_digits (b : list Z) : string := String.string_of_list_ascii (digit_of <$> to_sextets b).

(** UTF-16 with the high byte first. *)
Definition utf16_of (r : Z) : list Z :=
  if r <? 65536 then [r / 256; r mod 256]
  else let v := r - 65536 in
       let hi := 55296 + v / 1024 in let lo := 56320 + v mod 1024 in [hi / 256; hi mod 256; lo / 256; lo mod 256].

(** A code point: not a surrogate. *)
Definition scalar (r : Z) : Prop := 0 <= r < 1114112 /\ IsSurrogate r = false.
Definition direct (r : Z) : bool := (r <? 128) && negb (illegal (chr r)) && negb (r =? 43).

(** Each code point by itself, a plus sign as [+-], or a run of others in base 64. *)
Inductive piece : Type := Direct (r : Z) | Plus | Run (rs : list Z).
Definition piece_ok (p : piece) : Prop :=
  match p with Direct r => 0 <= r /\ direct r = true | Plus => True | Run rs => rs <> [] /\ Forall scalar rs end.
Definition piece_text (p : piece) : list Z := match p with Direct r => [r] | Plus => [43] | Run rs => rs end.
Definition write_piece (p : piece) : string :=
  match p with
  | Direct r => String (chr r) ""
  | Plus => "+-"
  | Run rs => "+" +:+ to_digits (rs ≫= utf16_of) +:+ "-"
  end.
Definition write_utf7 (ps : list piece) : string := foldr (fun p s => write_piece p +:+ s) "" ps.
Definition utf8_of (rs : list Z) : string := foldr (fun r s => EncodeRune r +:+ s) "" rs.

(** ** Base 64 and UTF-16 *)

Ltac div_mod := Z.div_mod_to_equations; lia.

Definition byte (z : Z) : Prop := 0 <= z < 256.
Definition is_sextet (z : Z) : Prop := 0 <= z < 64.

(** Lists in threes. *)
Lemma threes_ind {A} (P : list A -> Prop) :
  P [] -> (forall a, P [a]) -> (forall a b, P [a; b]) -> (forall a b c l, P l -> P (a :: b :: c :: l)) -> forall l, P l.
Proof.
  intros H0 H1 H2 H3 l. remember (length l) as n eqn:Hn. revert l Hn. induction n as [n IH] using lt_wf_ind.
  intros [|a [|b [|c l]]] ->; auto. apply H3. apply (IH (length l)); [simpl; lia|done].
Qed.

Lemma to_sextets_ok b : Forall byte b -> Forall is_sextet (to_sextets b).
Proof.
  induction b as [|x|x y|x y z b IH] using threes_ind; simpl; intros Hb; rewrite ?Forall_cons in *; unfold byte, is_sextet in *.
  - done.
  - repeat constructor; div_mod.
  - repeat constructor; div_mod.
  - destruct Hb as (Hx & Hy & Hz & Hb). repeat split; try div_mod. by apply IH.
Qed.

Lemma from_to_sextets b : Forall byte b -> from_sextets (to_sextets b) = Some b.
Proof.
  induction b as [|x|x y|x y z b IH] using threes_ind; cbn [to_sextets from_sextets]; intros Hb; rewrite ?Forall_cons in *; unfold byte in *.
  - done.
  - do 2 f_equal. div_mod.
  - f_equal. f_equal; [div_mod|f_equal; div_mod].
  - destruct Hb as (Hx & Hy & Hz & Hb). rewrite IH by done. simpl. f_equal. f_equal; [div_mod|]. f_equal; [div_mod|]. f_equal. div_mod.
Qed.

Lemma digit_table : forallb (fun n => bool_decide (sextet (digit_of n) = Some n) && isModifiedBase64 (digit_of n)) (seqZ 0 64) = true.
Proof. vm_compute. reflexivity. Qed.

Lemma digit_of_ok n : is_sextet n -> sextet (digit_of n) = Some n /\ isModifiedBase64 (digit_of n) = true.
Proof.
  intros Hn. assert (H := proj1 (List.forallb_forall _ _) digit_table n). rewrite <- list_elem_of_In, elem_of_seqZ in H.
  specialize (H ltac:(unfold is_sextet in Hn; lia)). cbn beta in H. by boolp.
Qed.

Lemma sextets_digits xs : Forall is_sextet xs -> sextets (String.string_of_list_ascii (digit_of <$> xs)) = Some xs.
Proof.
  induction 1 as [|x xs Hx _ IH]; [done|]. rewrite fmap_cons. cbn [String.string_of_list_ascii sextets].
  by rewrite (proj1 (digit_of_ok x Hx)), IH.
Qed.

Lemma span_digits xs c rest : Forall is_sextet xs -> isModifiedBase64 c = false ->
  base64_span (String.string_of_list_ascii (digit_of <$> xs) +:+ String c rest) = (String.string_of_list_ascii (digit_of <$> xs), String c rest).
Proof.
  intros Hxs Hc. induction Hxs as [|x xs Hx _ IH]; [simpl; by rewrite Hc|].
  rewrite fmap_cons. cbn [String.string_of_list_ascii]. set (s := String.string_of_list_ascii (digit_of <$> xs)) in *.
  change (String (digit_of x) s +:+ String c rest) with (String (digit_of x) (s +:+ String c rest)). cbn [base64_span].
  rewrite (proj2 (digit_of_ok x Hx)). by rewrite IH.
Qed.

Lemma utf16_bytes r : scalar r -> Forall byte (utf16_of r).
Proof. intros [Hr _]. unfold utf16_of, byte. destruct (r <? 65536) eqn:H; boolp; repeat constructor; div_mod. Qed.

Lemma from_utf16_run rs : Forall scalar rs -> from_utf16 (rs ≫= utf16_of) = Some (utf8_of rs).
Proof.
  induction 1 as [|r rs Hr _ IH]; [done|]. cbn [mbind list_bind utf8_of foldr]. fold (utf8_of rs).
  change (foldr (fun x acc => utf16_of x ++ acc) [] rs) with (rs ≫= utf16_of) in *.
  destruct Hr as [Hr Hs]. unfold utf16_of at 1. destruct (r <? 65536) eqn:Hlt; boolp.
  - cbn [app from_utf16]. replace (r / 256 * 256 + r mod 256) with r by div_mod. rewrite Hs, IH. done.
  - set (v := r - 65536). cbn [app from_utf16].
    replace ((55296 + v / 1024) / 256 * 256 + (55296 + v / 1024) mod 256) with (55296 + v / 1024) by div_mod.
    replace ((56320 + v mod 1024) / 256 * 256 + (56320 + v mod 1024) mod 256) with (56320 + v mod 1024) by div_mod.
    assert (Hsur : IsSurrogate (55296 + v / 1024) = true).
    { unfold IsSurrogate. apply andb_true_iff. rewrite Z.leb_le, Z.ltb_lt. unfold v. div_mod. }
    rewrite Hsur. unfold DecodeRune.
    assert (Hdec : (55296 <=? 55296 + v / 1024) && (55296 + v / 1024 <? 56320) && ((56320 <=? 56320 + v mod 1024) && (56320 + v mod 1024 <? 57344)) = true).
    { rewrite !andb_true_iff, !Z.leb_le, !Z.ltb_lt. unfold v. div_mod. }
    rewrite Hdec, IH. cbn [mbind option_bind]. do 3 f_equal. unfold v. div_mod.
Qed.

Lemma utf7dec_digits rs : Forall scalar rs -> utf7dec (to_digits (rs ≫= utf16_of)) = utf8_of rs.
Proof.
  intros Hrs. assert (Hb : Forall byte (rs ≫= utf16_of)).
  { apply Forall_bind. eapply Forall_impl; [exact Hrs|]. apply utf16_bytes. }
  unfold utf7dec, to_digits. rewrite sextets_digits by by apply to_sextets_ok. simpl. rewrite from_to_sextets by done. simpl. by rewrite from_utf16_run.
Qed.

(** ** The loop *)

Lemma base64_span_rest s : (String.length (base64_span s).2 <= String.length s)%nat.
Proof. induction s as [|c s IH]; simpl; [done|]. destruct (isModifiedBase64 c); [|done]. destruct (base64_span s). simpl in *. lia. Qed.

(** Fuel beyond the length of the source changes nothing. *)
Lemma u7_loop_fuel f1 f2 room src eof : (String.length src < f1)%nat -> (String.length src < f2)%nat -> u7_loop f1 room src eof = u7_loop f2 room src eof.
Proof.
  revert f2 room src. induction f1 as [|f1 IH]; intros [|f2] room src H1 H2; try lia. cbn [u7_loop].
  destruct src as [|c src]; [done|]. simpl in H1, H2. destruct (room =? 0)%nat; [done|]. destruct (illegal c); [done|].
  destruct (negb (Ascii.eqb c plus)); [f_equal; apply IH; lia|]. assert (Hs := base64_span_rest src).
  destruct (base64_span src) as [[|d seg] [|e rest]]; simpl in Hs; try done.
  - destruct (Ascii.eqb e minus); [|done]. f_equal. apply IH; lia.
  - destruct (_ && _); [done|]. destruct (String.eqb _ ""); [done|]. destruct (_ <? _)%nat; [done|].
    destruct (Ascii.eqb e minus); [f_equal; apply IH; lia|]. destruct (_ =? 0)%nat; [done|]. f_equal. apply IH; lia.
Qed.

Lemma length_utf8 r : (0 < String.length (EncodeRune r))%nat.
Proof. unfold EncodeRune. repeat (destruct (_ <? _)); simpl; lia. Qed.

Lemma out_out s t r : out s (out t r) = out (s +:+ t) r.
Proof. destruct r as [[o rest] st]. simpl. by rewrite str_app_assoc. Qed.

Lemma code_chr z : byte z -> code (chr z) = z.
Proof. intros Hz. unfold code, chr. rewrite Ascii.nat_ascii_embedding by (unfold byte in Hz; lia). unfold byte in Hz. lia. Qed.

Lemma u7_direct fuel room c src eof : (0 < room)%nat -> illegal c = false -> Ascii.eqb c plus = false ->
  u7_loop (S fuel) room (String c src) eof = out (String c "") (u7_loop fuel (room - 1) src eof).
Proof. intros Hr Hi Hp. cbn [u7_loop]. rewrite (proj2 (Nat.eqb_neq room 0)) by lia. by rewrite Hi, Hp. Qed.

Lemma u7_run fuel room rs src eof : rs <> [] -> Forall scalar rs -> (String.length (utf8_of rs) <= room)%nat ->
  u7_loop (S fuel) room ("+" +:+ to_digits (rs ≫= utf16_of) +:+ String minus src) eof =
    out (utf8_of rs) (u7_loop fuel (room - String.length (utf8_of rs)) src eof).
Proof.
  intros Hne Hrs Hroom. set (d := to_digits (rs ≫= utf16_of)).
  assert (Hpos : (0 < String.length (utf8_of rs))%nat).
  { destruct rs as [|r rs]; [done|]. cbn [utf8_of foldr]. rewrite str_app_length. assert (H := length_utf8 r). lia. }
  assert (Hd : utf7dec d = utf8_of rs) by by apply utf7dec_digits.
  assert (Hspan : base64_span (d +:+ String minus src) = (d, String minus src)).
  { apply span_digits; [|done]. apply to_sextets_ok, Forall_bind. eapply Forall_impl; [exact Hrs|]. apply utf16_bytes. }
  change ("+" +:+ d +:+ String minus src) with (String plus (d +:+ String minus src)). cbn [u7_loop].
  rewrite (proj2 (Nat.eqb_neq room 0)) by lia. change (illegal plus) with false. change (negb (Ascii.eqb plus plus)) with false. cbn iota.
  rewrite Hspan. destruct d as [|c d]; [exfalso; rewrite <- Hd in Hpos; simpl in Hpos; lia|].
  change (String.eqb (String minus src) "" && negb eof) with false. cbn iota. rewrite Hd.
  rewrite (proj2 (String.eqb_neq _ _)) by (intros H; rewrite H in Hpos; simpl in Hpos; lia).
  by rewrite (proj2 (Nat.ltb_ge _ _)) by lia.
Qed.

Lemma utf8_of_app rs rs' : utf8_of (rs ++ rs') = utf8_of rs +:+ utf8_of rs'.
Proof. induction rs as [|r rs IH]; [done|]. change (utf8_of ((r :: rs) ++ rs')) with (EncodeRune r +:+ utf8_of (rs ++ rs')). by rewrite IH, <- str_app_assoc. Qed.

Lemma utf8_direct r : 0 <= r -> direct r = true -> utf8_of [r] = String (chr r) "" /\ illegal (chr r) = false /\ Ascii.eqb (chr r) plus = false.
Proof.
  intros Hr Hd. unfold direct in Hd. boolp. split; [|split; [done|]].
  - unfold utf8_of, EncodeRune. simpl. by rewrite (proj2 (Z.ltb_lt r 128)).
  - apply Ascii.eqb_neq. intros He. apply (f_equal code) in He. rewrite code_chr in He by (unfold byte; lia). change (code plus) with 43 in He. lia.
Qed.

Lemma shifted_app d w : ("+" +:+ d +:+ "-") +:+ w = "+" +:+ d +:+ String minus w.
Proof. change (String plus ((d +:+ "-") +:+ w) = String plus (d +:+ String minus w)). f_equal. by rewrite str_app_assoc. Qed.

Lemma u7_written ps fuel room eof : Forall piece_ok ps -> (String.length (utf8_of (ps ≫= piece_text)) <= room)%nat -> (length ps < fuel)%nat ->
  u7_loop fuel room (write_utf7 ps) eof = (utf8_of (ps ≫= piece_text), "", Decoded).
Proof.
  revert fuel room. induction ps as [|p ps IH]; intros fuel room Hok Hroom Hf; [by destruct fuel|].
  apply Forall_cons in Hok as [Hp Hok]. destruct fuel as [|fuel]; [simpl in Hf; lia|].
  change (write_utf7 (p :: ps)) with (write_piece p +:+ write_utf7 ps).
  change ((p :: ps) ≫= piece_text) with (piece_text p ++ (ps ≫= piece_text)) in *. rewrite utf8_of_app, str_app_length in *.
  assert (Hrest : forall s, String.length s = String.length (utf8_of (piece_text p)) -> s = utf8_of (piece_text p) ->
    out s (u7_loop fuel (room - String.length s) (write_utf7 ps) eof) = (utf8_of (piece_text p) +:+ utf8_of (ps ≫= piece_text), "", Decoded)).
  { intros s Hl ->. rewrite IH; [done|done|lia|simpl in Hf; lia]. }
  destruct p as [r| |rs]; cbn [write_piece piece_text] in *.
  - destruct Hp as [Hr Hd]. destruct (utf8_direct r Hr Hd) as (Hu & Hi & Hpl). rewrite Hu in *. simpl in Hroom.
    change (String (chr r) "" +:+ write_utf7 ps) with (String (chr r) (write_utf7 ps)). rewrite u7_direct by (done || lia). by apply (Hrest (String (chr r) "")).
  - change (utf8_of [43]) with (String plus "") in *. simpl in Hroom. change ("+-" +:+ write_utf7 ps) with (String plus (String minus (write_utf7 ps))).
    cbn [u7_loop]. rewrite (proj2 (Nat.eqb_neq room 0)) by lia. by apply (Hrest (String plus "")).
  - destruct Hp as [Hne Hrs]. rewrite shifted_app, u7_run by (done || lia). by apply Hrest.
Qed.

Lemma length_write_utf7 ps : (length ps <= String.length (write_utf7 ps))%nat.
Proof.
  induction ps as [|p ps IH]; [done|]. change (write_utf7 (p :: ps)) with (write_piece p +:+ write_utf7 ps).
  rewrite str_app_length. destruct p; cbn [write_piece]; rewrite ?str_app_length; simpl; lia.
Qed.


(** ** Reading in parts *)

Lemma base64_span_app s t d e r : base64_span s = (d, String e r) -> base64_span (s +:+ t) = (d, String e r +:+ t).
Proof.
  revert d. induction s as [|c s IH]; intros d; [done|]. change (String c s +:+ t) with (String c (s +:+ t)). cbn [base64_span].
  destruct (isModifiedBase64 c); [|by intros [= <- <- <-]]. destruct (base64_span s) as [d' r'] eqn:Hs. intros [= <- ->]. by rewrite (IH d').
Qed.

Definition needs_source (st : u7_status) : Prop := st = Decoded \/ st = ErrShortSrc.

Lemma out_inv s r o rest st : out s r = (o, rest, st) -> exists o', o = s +:+ o' /\ r = (o', rest, st).
Proof. destruct r as [[o' rest'] st']. simpl. intros [= <- -> ->]. eauto. Qed.

Lemma u7_chunk f1 f2 f3 room s t eof o rest st :
  u7_loop f1 room s false = (o, rest, st) -> needs_source st ->
  (String.length s < f1)%nat -> (String.length (s +:+ t) < f2)%nat -> (String.length (s +:+ t) < f3)%nat ->
  u7_loop f2 room (s +:+ t) eof = out o (u7_loop f3 (room - String.length o) (rest +:+ t) eof).
Proof.
  revert f2 room s o. induction f1 as [|f1 IH]; intros f2 room s o Hu Hst H1 H2 H3; [lia|].
  destruct s as [|c s].
  { injection Hu as <- <- <-. change ("" +:+ t) with t in *. simpl String.length. rewrite Nat.sub_0_r.
    rewrite (u7_loop_fuel f2 f3) by done. by destruct (u7_loop f3 room t eof) as [[? ?] ?]. }
  change (String c s +:+ t) with (String c (s +:+ t)) in *. simpl in H1, H2, H3. destruct f2 as [|f2]; [lia|].
  assert (Hsame : (o, rest, st) = ("", String c s, ErrShortSrc) -> u7_loop (S f2) room (String c (s +:+ t)) eof = out o (u7_loop f3 (room - String.length o) (rest +:+ t) eof)).
  { intros [= -> -> ->]. simpl String.length. rewrite Nat.sub_0_r. change (String c s +:+ t) with (String c (s +:+ t)).
    rewrite (u7_loop_fuel (S f2) f3) by (simpl; lia). by destruct (u7_loop f3 room (String c (s +:+ t)) eof) as [[? ?] ?]. }
  assert (Hnext : forall w room' s', (String.length s' <= String.length s)%nat -> (String.length w <= room)%nat -> room' = (room - String.length w)%nat ->
    out w (u7_loop f1 room' s' false) = (o, rest, st) ->
    out w (u7_loop f2 room' (s' +:+ t) eof) = out o (u7_loop f3 (room - String.length o) (rest +:+ t) eof)).
  { intros w room' s' Hs' Hw -> Hout. apply out_inv in Hout as (o' & -> & Hr). rewrite str_app_length in H2, H3.
    rewrite (IH f2 (room - String.length w)%nat s' o' Hr Hst) by (rewrite ?str_app_length; lia).
    rewrite out_out, str_app_length. do 2 f_equal. lia. }
  cbn [u7_loop] in Hu. destruct (room =? 0)%nat eqn:Hr0; [injection Hu as <- <- <-; by destruct Hst|]. assert (Hroom := proj1 (Nat.eqb_neq _ _) Hr0).
  destruct (illegal c) eqn:Hill; [injection Hu as <- <- <-; by destruct Hst|].
  destruct (negb (Ascii.eqb c plus)) eqn:Hpl; [cbn [u7_loop]; rewrite Hr0, Hill, Hpl; by apply (Hnext (String c "") (room - 1)%nat s); simpl; try lia|].
  assert (Hrest := base64_span_rest s). destruct (base64_span s) as [d [|e r]] eqn:Hspan; simpl in Hrest.
  - destruct d as [|a d]; [by apply Hsame|]. change (String.eqb "" "" && negb false) with true in Hu. by apply Hsame.
  - clear Hsame. cbn [u7_loop]. rewrite Hr0, Hill, Hpl, (base64_span_app s t d e r Hspan). change (String e r +:+ t) with (String e (r +:+ t)). destruct d as [|a d].
    + destruct (Ascii.eqb e minus); [|injection Hu as <- <- <-; by destruct Hst]. by apply (Hnext (String plus "") (room - 1)%nat r); simpl; try lia.
    + change (String.eqb (String e r) "" && negb false) with false in Hu. change (String.eqb (String e (r +:+ t)) "" && negb eof) with false. cbn iota in *.
      destruct (String.eqb (utf7dec (String a d)) ""); [injection Hu as <- <- <-; by destruct Hst|].
      destruct (room <? String.length (utf7dec (String a d)))%nat eqn:Hb; [injection Hu as <- <- <-; by destruct Hst|]. apply Nat.ltb_ge in Hb.
      destruct (Ascii.eqb e minus); [by apply Hnext; try lia|].
      destruct (room - String.length (utf7dec (String a d)) =? 0)%nat eqn:Hz; [injection Hu as <- <- <-; by destruct Hst|]. apply Nat.eqb_neq in Hz.
      by apply Hnext; rewrite ?str_app_length; simpl; try lia.
Qed.


(** ** Examples *)



(** The character that ends a run is passed on without the check other characters get; with
    a smaller destination the same text is rejected. *)
Example ending_character_unchecked :
  Transform 3 "+A8A~" true = (EncodeRune 960 +:+ "~", "", Decoded) /\ Transform 2 "+A8A~" true = (EncodeRune 960, "~", ErrShortDst) /\
  Transform 1 "~" true = ("", "~", ErrBadUTF7).
Proof. vm_compute. repeat split; reflexivity. Qed.
