(* ===== verification/MailHeaders.v ===== *)
(** * Headers of messages (pkg/message/header.go)

    A message is split into its header and its body, and the header into fields, before the
    bridge writes it again.  There are two ways of splitting; a feature flag chooses.

    Text is bytes; spaces are those of ASCII.  The header type of the MIME library is the
    class [HeaderLib], with the behaviour the code relies on in [HeaderLaws]. *)

From stdpp Require Import pretty.
From S2P Require Import Prelude.
From S2P Require Import Strings.
From S2P Require Import UserEvents.
From S2P Require Import MediaTypes.

(** ** The header type of the library *)

Class HeaderLib (H : Type) : Type := {
  h_empty : H;
  h_Get : H -> string -> string;
  h_Has : H -> string -> bool;
  h_Values : H -> string -> list string;
  h_Fields : H -> list (string * string);
  h_Set : string -> string -> H -> H;
  h_Del : string -> H -> H;
  h_AddRaw : string -> H -> H
}.

(** Keys are compared without regard to case; [Set] replaces all fields of a key. *)
Class HeaderLaws (H : Type) `{HL : HeaderLib H} : Prop := {
  get_set k k' v h : h_Get (h_Set k v h) k' = if EqualFold k k' then v else h_Get h k';
  get_del k k' h : h_Get (h_Del k h) k' = if EqualFold k k' then "" else h_Get h k';
  has_set k k' v h : h_Has (h_Set k v h) k' = EqualFold k k' || h_Has h k';
  has_del k k' h : h_Has (h_Del k h) k' = negb (EqualFold k k') && h_Has h k';
  values_set k k' v h : h_Values (h_Set k v h) k' = if EqualFold k k' then [v] else h_Values h k';
  get_empty k : h_Get h_empty k = "";
  has_empty k : h_Has h_empty k = false
}.

(** ** Lines *)

(** The lines [ReadBytes] returns one after the other, each with its newline. *)
Fixpoint read_lines (s : string) : list string :=
  match s with
  | EmptyString => []
  | String c s' =>
      if Ascii.eqb c lf then String c "" :: read_lines s'
      else match read_lines s' with [] => [String c ""] | l :: ls => String c l :: ls end
  end.
Definition concat_lines (ls : list string) : string := foldr (fun l s => l +:+ s) "" ls.

Definition TrimSpace (s : string) : string := TrimRightSpace (TrimLeftSpace s).
Definition blank (line : string) : bool := String.eqb (TrimSpace line) "".
Definition count_quotes (s : string) : nat := length (filter (fun c => c = quote) (String.list_ascii_of_string s)).

(** [bytes.SplitN(line, ": ", 2)[0]]. *)
Fixpoint before_colon (line : string) : string :=
  match line with
  | EmptyString => ""
  | String c s => if has_prefix ": " line then "" else String c (before_colon s)
  end.

(** Put a line at the end of the last one, or make it the first. *)
Fixpoint append_last (lines : list string) (line : string) : list string :=
  match lines with [] => [line] | [l] => [l +:+ line] | l :: ls => l :: append_last ls line end.

Definition header_line (st : list string * nat) (line : string) : list string * nat :=
  let '(lines, quotes) := st in
  let name := before_colon line in
  let isLineContinuation := negb (Nat.eqb (quotes mod 2) 0) || negb (String.eqb (TrimLeftSpace name) name) in
  (if blank line then lines ++ [line] else if isLineContinuation then append_last lines line else lines ++ [line],
   (quotes + count_quotes line)%nat).

(** [HeaderLines]; [forEachLine] calls its function on every line. *)
Definition HeaderLines (header : string) : list string := (foldl header_line ([], 0%nat) (read_lines header)).1.

Definition isHeaderValid (headerLines : list string) : bool :=
  match headerLines with
  | [] => false
  | _ => forallb (fun line => negb (bool_decide (Index (chr 58) line = None) && negb (blank line))) headerLines
  end.

(** ** Header and body *)

(** The lines up to the first blank one. A last line without a newline is not copied. *)
Fixpoint split_lines_v1 (lines : list string) (header : string) : string * string :=
  match lines with
  | [] => (header, "")
  | b :: lines =>
      if bool_decide (Index lf b = None) then (header, concat_lines lines)
      else if blank b then (header +:+ b, concat_lines lines)
      else split_lines_v1 lines (header +:+ b)
  end.
Definition splitHeaderBody (b : string) : string * string := split_lines_v1 (read_lines b) "".

(** [bytes.Index]. *)
Fixpoint str_index (sep s : string) : option nat :=
  if has_prefix sep s then Some 0%nat
  else match s with EmptyString => None | String _ s' => S <$> str_index sep s' end.

Definition crlf2 : string := String cr (String lf (String cr (String lf ""))).
Definition lf2 : string := String lf (String lf "").

(** The length of the lines up to the first blank one; [None] when there is none that ends. *)
Fixpoint header_len (lines : list string) (len : nat) : option nat :=
  match lines with
  | [] => None
  | line :: lines =>
      if bool_decide (Index lf line = None) then None
      else let len := (len + String.length line)%nat in if blank line then Some len else header_len lines len
  end.

Definition splitHeaderBodyV2 (b : string) : string * string :=
  match str_index crlf2 b with
  | Some i => (str_take (i + 4) b, str_drop (i + 4) b)
  | None =>
      match str_index lf2 b with
      | Some i => (str_take (i + 2) b, str_drop (i + 2) b)
      | None => match header_len (read_lines b) 0 with Some len => (str_take len b, str_drop len b) | None => (b, "") end
      end
  end.

Section reading.
Context {H : Type} `{HL : HeaderLib H}.

(** [SplitHeaderBodyV2Disabled] is the flag. Reading from memory does not fail. *)
Definition readHeaderBody (SplitHeaderBodyV2Disabled : bool) (b : string) : H * string :=
  let '(rawHeader, body) := if SplitHeaderBodyV2Disabled then splitHeaderBody b else splitHeaderBodyV2 b in
  let lines := HeaderLines rawHeader in
  if negb (isHeaderValid lines) then (h_empty, b)
  else (foldr (fun line h => if blank line then h else h_AddRaw line h) h_empty lines, body).

End reading.

(** ** Nothing is lost *)

Lemma concat_lines_app l l' : concat_lines (l ++ l') = concat_lines l +:+ concat_lines l'.
Proof. induction l as [|s l IH]; [done|]. change (s +:+ concat_lines (l ++ l') = (s +:+ concat_lines l) +:+ concat_lines l'). by rewrite IH, str_app_assoc. Qed.

Lemma read_lines_concat s : concat_lines (read_lines s) = s.
Proof.
  induction s as [|c s IH]; [done|]. simpl read_lines. destruct (Ascii.eqb c lf).
  - change (String c (concat_lines (read_lines s)) = String c s). by rewrite IH.
  - destruct (read_lines s) as [|l ls]; [by rewrite <- IH|].
    change (String c (l +:+ concat_lines ls) = String c s). f_equal. exact IH.
Qed.

Lemma concat_append_last lines line : concat_lines (append_last lines line) = concat_lines lines +:+ line.
Proof.
  induction lines as [|l ls IH]; [change (line +:+ "" = line); apply str_app_nil|]. destruct ls as [|l' ls].
  - change ((l +:+ line) +:+ "" = (l +:+ "") +:+ line). by rewrite !str_app_nil.
  - change (l +:+ concat_lines (append_last (l' :: ls) line) = (l +:+ concat_lines (l' :: ls)) +:+ line). by rewrite IH, str_app_assoc.
Qed.

Lemma header_line_concat st line : concat_lines (header_line st line).1 = concat_lines st.1 +:+ line.
Proof.
  destruct st as [lines quotes]. unfold header_line. simpl.
  assert (Hend : concat_lines (lines ++ [line]) = concat_lines lines +:+ line) by (rewrite concat_lines_app; f_equal; apply str_app_nil).
  destruct (blank line); [done|]. destruct (_ || _); [apply concat_append_last|done].
Qed.

(** The fields [HeaderLines] returns are the whole header, in order. *)
Theorem HeaderLines_concat header : concat_lines (HeaderLines header) = header.
Proof.
  unfold HeaderLines. rewrite <- (read_lines_concat header) at 2.
  change (concat_lines (read_lines header)) with (concat_lines ([], 0%nat).1 +:+ concat_lines (read_lines header)).
  generalize ([] : list string, 0%nat) as st. induction (read_lines header) as [|line lines IH]; intros st; [symmetry; apply str_app_nil|].
  simpl foldl. rewrite IH, header_line_concat, str_app_assoc. done.
Qed.

(** The second way of splitting loses nothing and adds nothing. *)
Theorem splitHeaderBodyV2_concat b : (splitHeaderBodyV2 b).1 +:+ (splitHeaderBodyV2 b).2 = b.
Proof.
  unfold splitHeaderBodyV2. destruct (str_index crlf2 b); [apply str_take_drop|]. destruct (str_index lf2 b); [apply str_take_drop|].
  destruct (header_len _ 0); [apply str_take_drop|apply str_app_nil].
Qed.

(** ** Both ways agree on well-formed messages *)

(** A line: one newline, at the end. *)
Definition is_line (l : string) : Prop := exists t, l = t +:+ String lf "" /\ Index lf t = None.
Definition crlf : string := String cr (String lf "").

Lemma read_lines_cons t s : Index lf t = None -> read_lines (t +:+ String lf s) = (t +:+ String lf "") :: read_lines s.
Proof.
  induction t as [|c t IH]; [done|]. change (String c t +:+ String lf s) with (String c (t +:+ String lf s)). simpl Index.
  intros Ht. simpl read_lines. destruct (Ascii.eqb c lf); [done|]. apply fmap_None in Ht. by rewrite (IH Ht).
Qed.

Lemma read_lines_app hs s : Forall is_line hs -> read_lines (concat_lines hs +:+ s) = hs ++ read_lines s.
Proof.
  induction 1 as [|l hs (t & -> & Ht) _ IH]; [done|].
  change (concat_lines ((t +:+ String lf "") :: hs)) with ((t +:+ String lf "") +:+ concat_lines hs).
  rewrite !str_app_assoc. change (String lf "" +:+ concat_lines hs +:+ s) with (String lf (concat_lines hs +:+ s)).
  rewrite read_lines_cons, IH by done. done.
Qed.

Lemma no_lf_head c t : Index lf (String c t) = None -> Ascii.eqb c lf = false /\ Index lf t = None.
Proof. simpl. destruct (Ascii.eqb c lf); [done|]. intros Ht%fmap_None. done. Qed.

(** A line before one that is not blank holds no end of the header. *)
Lemma crlf2_skip t r : Index lf t = None -> has_prefix crlf r = false ->
  str_index crlf2 (t +:+ String lf r) = (fun i => (String.length t + 1 + i)%nat) <$> str_index crlf2 r.
Proof.
  intros Ht Hr. induction t as [|c t IH].
  - change ("" +:+ String lf r) with (String lf r). simpl str_index. by destruct (str_index crlf2 r).
  - apply no_lf_head in Ht as [Hc Ht]. change (String c t +:+ String lf r) with (String c (t +:+ String lf r)).
    assert (Hp : has_prefix crlf2 (String c (t +:+ String lf r)) = false).
    { cbn [has_prefix crlf2]. destruct (Ascii.eqb cr c); [|done]. destruct t as [|d t].
      - change ("" +:+ String lf r) with (String lf r). cbn [has_prefix]. exact Hr.
      - apply no_lf_head in Ht as [Hd _]. change (String d t +:+ String lf r) with (String d (t +:+ String lf r)). cbn [has_prefix].
        by rewrite Ascii.eqb_sym, Hd. }
    cbn [str_index]. rewrite Hp, IH by done. by destruct (str_index crlf2 r).
Qed.

Lemma crlf2_found t s : Index lf t = None -> str_index crlf2 (t +:+ crlf2 +:+ s) = Some (String.length t).
Proof.
  intros Ht. induction t as [|c t IH]; [done|]. apply no_lf_head in Ht as [Hc Ht].
  change (String c t +:+ crlf2 +:+ s) with (String c (t +:+ crlf2 +:+ s)).
  assert (Hp : has_prefix crlf2 (String c (t +:+ crlf2 +:+ s)) = false).
  { cbn [has_prefix crlf2]. destruct (Ascii.eqb cr c); [|done]. destruct t as [|d t]; [done|].
    apply no_lf_head in Ht as [Hd _]. change (String d t +:+ crlf2 +:+ s) with (String d (t +:+ crlf2 +:+ s)). cbn [has_prefix].
    by rewrite Ascii.eqb_sym, Hd. }
  cbn [str_index]. by rewrite Hp, IH.
Qed.

Lemma crlf_starts_blank l s : is_line l -> blank l = false -> has_prefix crlf (l +:+ s) = false.
Proof.
  intros (t & -> & Ht) Hb. destruct t as [|c t]; [done|]. apply no_lf_head in Ht as [_ Ht].
  change ((String c t +:+ String lf "") +:+ s) with (String c ((t +:+ String lf "") +:+ s)). cbn [has_prefix crlf].
  destruct (Ascii.eqb cr c) eqn:Hc; [|done]. apply Ascii.eqb_eq in Hc as <-. destruct t as [|d t]; [by vm_compute in Hb|].
  apply no_lf_head in Ht as [Hd _]. change ((String d t +:+ String lf "") +:+ s) with (String d ((t +:+ String lf "") +:+ s)). cbn [has_prefix].
  by rewrite Ascii.eqb_sym, Hd.
Qed.

Lemma crlf2_lines hs t s : Forall (fun l => is_line l /\ blank l = false) hs -> Index lf t = None -> blank (t +:+ crlf) = false ->
  str_index crlf2 (concat_lines hs +:+ t +:+ crlf2 +:+ s) = Some (String.length (concat_lines hs +:+ t)).
Proof.
  intros Hhs Ht Hb. induction Hhs as [|l hs [Hl Hlb] Hhs IH]; [by apply crlf2_found|].
  destruct Hl as (u & -> & Hu). change (concat_lines ((u +:+ String lf "") :: hs)) with ((u +:+ String lf "") +:+ concat_lines hs).
  rewrite !str_app_assoc. change (String lf "" +:+ ?x) with (String lf x). rewrite crlf2_skip; [|done|].
  - rewrite IH. simpl. rewrite !str_app_length. simpl. f_equal. rewrite str_app_length. lia.
  - destruct Hhs as [|l' hs [Hl' Hlb'] _].
    + change (concat_lines [] +:+ t +:+ crlf2 +:+ s) with (t +:+ crlf2 +:+ s).
      replace (t +:+ crlf2 +:+ s) with ((t +:+ crlf) +:+ crlf +:+ s) by (rewrite str_app_assoc; done). apply crlf_starts_blank; [|done].
      exists (t +:+ String cr ""). rewrite str_app_assoc. split; [done|]. by rewrite (Index_app_None lf t (String cr "") Ht).
    + change (concat_lines (l' :: hs)) with (l' +:+ concat_lines hs). rewrite str_app_assoc. by apply crlf_starts_blank.
Qed.

Lemma split_lines_v1_app hs rest header : Forall (fun l => is_line l /\ blank l = false) hs ->
  split_lines_v1 (hs ++ rest) header = split_lines_v1 rest (header +:+ concat_lines hs).
Proof.
  intros Hhs. revert header. induction Hhs as [|l hs [(t & -> & Ht) Hb] _ IH]; intros header; [simpl; by rewrite str_app_nil|].
  simpl app. cbn [split_lines_v1]. rewrite (Index_app_None lf t _ Ht). simpl (Index lf (String lf "")). rewrite bool_decide_false by done.
  rewrite Hb, IH, str_app_assoc. done.
Qed.

(** On a message whose header lines are not blank, the last of them ending as the standard says,
    followed by a blank line, both ways of splitting give that header and the rest. *)
Theorem split_ways_agree hs t body :
  Forall (fun l => is_line l /\ blank l = false) hs -> Index lf t = None -> blank (t +:+ crlf) = false ->
  let header := concat_lines hs +:+ t +:+ crlf2 in
  splitHeaderBody (header +:+ body) = (header, body) /\ splitHeaderBodyV2 (header +:+ body) = (header, body).
Proof.
  intros Hhs Ht Hb header. assert (Hlast : Forall (fun l => is_line l /\ blank l = false) (hs ++ [t +:+ crlf])).
  { apply Forall_app; split; [done|]. apply Forall_singleton. split; [|done]. exists (t +:+ String cr ""). rewrite str_app_assoc.
    split; [done|]. by rewrite (Index_app_None lf t (String cr "") Ht). }
  assert (Hheader : header = concat_lines (hs ++ [t +:+ crlf]) +:+ crlf).
  { unfold header. rewrite concat_lines_app. change (concat_lines [t +:+ crlf]) with ((t +:+ crlf) +:+ ""). rewrite str_app_nil, !str_app_assoc. done. }
  split.
  - unfold splitHeaderBody. rewrite Hheader, str_app_assoc, read_lines_app by (eapply Forall_impl; [exact Hlast|naive_solver]).
    change (crlf +:+ body) with (String cr (String lf body)). rewrite split_lines_v1_app by done.
    change (read_lines (String cr (String lf body))) with (crlf :: read_lines body). cbn [split_lines_v1].
    change (bool_decide (Index lf crlf = None)) with false. change (blank crlf) with true. cbn iota. by rewrite read_lines_concat.
  - unfold splitHeaderBodyV2, header. rewrite !str_app_assoc, crlf2_lines by done.
    assert (Hlen : (String.length (concat_lines hs +:+ t) + 4)%nat = String.length (concat_lines hs +:+ t +:+ crlf2)).
    { rewrite <- str_app_assoc, (str_app_length _ crlf2). done. }
    rewrite Hlen, <- !str_app_assoc. rewrite str_take_app, str_take_all, str_drop_app by lia. by rewrite str_app_assoc.
Qed.

(** ** A header as a list of fields *)

(** Fields from the first to the last. *)
Definition field_line (line : string) : string * string :=
  match Index (chr 58) line with
  | Some i => (str_take i line, TrimSpace (str_drop (S i) line))
  | None => (line, "")
  end.
Definition not_key (k : string) (f : string * string) : bool := negb (EqualFold k f.1).
Definition list_header : HeaderLib (list (string * string)) :=
  {| h_empty := []; h_Get := fun h k => default "" (snd <$> find_first (fun f => EqualFold k f.1) h);
     h_Has := fun h k => existsb (fun f => EqualFold k f.1) h;
     h_Values := fun h k => (Prelude.Filter h (fun f => EqualFold k f.1)).*2; h_Fields := fun h => h;
     h_Set := fun k v h => (k, v) :: Prelude.Filter h (not_key k); h_Del := fun k h => Prelude.Filter h (not_key k);
     h_AddRaw := fun line h => field_line line :: h |}.

Lemma EqualFold_lower a b : EqualFold a b = String.eqb (str_map lower a) (str_map lower b).
Proof. revert b. induction a as [|c a IH]; intros [|d b]; simpl; [done..|]. rewrite IH. by destruct (Ascii.eqb _ _). Qed.

Lemma EqualFold_eq a b : EqualFold a b = true <-> str_map lower a = str_map lower b.
Proof. rewrite EqualFold_lower. apply String.eqb_eq. Qed.

Lemma EqualFold_congr a b c : EqualFold a b = true -> EqualFold a c = EqualFold b c.
Proof. rewrite EqualFold_eq, !EqualFold_lower. by intros ->. Qed.

Lemma EqualFold_sym a b : EqualFold a b = EqualFold b a.
Proof. rewrite !EqualFold_lower. apply String.eqb_sym. Qed.

Section list_header.
Local Existing Instance list_header.

Lemma find_not_key k k' (h : list (string * string)) :
  find_first (fun f => EqualFold k' f.1) (Prelude.Filter h (not_key k)) = if EqualFold k k' then None else find_first (fun f => EqualFold k' f.1) h.
Proof.
  induction h as [|f h IH]; simpl; [by destruct (EqualFold k k')|]. unfold not_key at 1. destruct (EqualFold k f.1) eqn:Hf; simpl; rewrite IH.
  - rewrite (EqualFold_sym k' f.1), <- (EqualFold_congr _ _ k' Hf). by destruct (EqualFold k k').
  - destruct (EqualFold k k') eqn:Hk; [|done]. rewrite <- (EqualFold_congr _ _ f.1 Hk). by rewrite Hf.
Qed.

Lemma has_not_key k k' (h : list (string * string)) :
  existsb (fun f => EqualFold k' f.1) (Prelude.Filter h (not_key k)) = negb (EqualFold k k') && existsb (fun f => EqualFold k' f.1) h.
Proof.
  induction h as [|f h IH]; simpl; [by rewrite andb_false_r|]. unfold not_key at 1. destruct (EqualFold k f.1) eqn:Hf; simpl; rewrite IH.
  - rewrite (EqualFold_sym k' f.1), <- (EqualFold_congr _ _ k' Hf). by destruct (EqualFold k k').
  - destruct (EqualFold k k') eqn:Hk; simpl; [|done]. rewrite <- (EqualFold_congr _ _ f.1 Hk). by rewrite Hf.
Qed.

Lemma values_not_key k k' (h : list (string * string)) :
  Prelude.Filter (Prelude.Filter h (not_key k)) (fun f => EqualFold k' f.1) = if EqualFold k k' then [] else Prelude.Filter h (fun f => EqualFold k' f.1).
Proof.
  induction h as [|f h IH]; simpl; [by destruct (EqualFold k k')|]. unfold not_key at 1. destruct (EqualFold k f.1) eqn:Hf; simpl; rewrite IH.
  - rewrite (EqualFold_sym k' f.1), <- (EqualFold_congr _ _ k' Hf). by destruct (EqualFold k k').
  - destruct (EqualFold k k') eqn:Hk; [|done]. rewrite <- (EqualFold_congr _ _ f.1 Hk). by rewrite Hf.
Qed.

#[export] Instance list_header_laws : HeaderLaws (list (string * string)).
Proof.
  split; try done; intros; cbn [h_Get h_Set h_Del h_Has h_Values list_header find_first existsb fst].
  - rewrite EqualFold_sym. destruct (EqualFold k k') eqn:Hk; [done|]. by rewrite find_not_key, Hk.
  - rewrite find_not_key. by destruct (EqualFold k k').
  - rewrite EqualFold_sym. destruct (EqualFold k k') eqn:Hk; [done|]. by rewrite has_not_key, Hk.
  - by rewrite has_not_key.
  - cbn [Prelude.Filter fst]. rewrite values_not_key, EqualFold_sym. by destruct (EqualFold k k').
Qed.

(** ** Examples *)

Definition lines_of (ls : list string) : string := concat_lines ((fun l => l +:+ crlf) <$> ls).

Example header_read :
  readHeaderBody false (lines_of ["Subject: a"; " b"; "To: c"; ""; "text"]) =
    ([("Subject", "a" +:+ crlf +:+ " b"); ("To", "c")], "text" +:+ crlf).
Proof. vm_compute. reflexivity. Qed.

Lemma split_ways_agree_witness :
  let header := concat_lines ["Subject: a" +:+ crlf] +:+ "To: b" +:+ crlf2 in
  splitHeaderBody (header +:+ "text") = (header, "text") /\ splitHeaderBodyV2 (header +:+ "text") = (header, "text").
Proof.
  apply (split_ways_agree ["Subject: a" +:+ crlf] "To: b" "text"); [|reflexivity|vm_compute; reflexivity].
  constructor; [|constructor]. split; [|vm_compute; reflexivity]. exists ("Subject: a" +:+ String cr ""). split; vm_compute; reflexivity.
Defined.

(** The first way loses the last line when it has no newline and no blank line comes before it. *)
Example last_line_lost : splitHeaderBody ("To: a" +:+ crlf +:+ "Subject: b") = ("To: a" +:+ crlf, "").
Proof. vm_compute. reflexivity. Qed.

(** With lines that end in a single newline the second way goes on to a blank line of the body that
    does not, and takes the text before it for header; that is no header, so the whole message is. *)
Example body_taken_for_header :
  let b := "To: a" +:+ lf2 +:+ "text" +:+ crlf2 +:+ "more" in
  splitHeaderBody b = ("To: a" +:+ lf2, "text" +:+ crlf2 +:+ "more") /\ splitHeaderBodyV2 b = ("To: a" +:+ lf2 +:+ "text" +:+ crlf2, "more") /\
  readHeaderBody false b = ([], b).
Proof. vm_compute. repeat split; reflexivity. Qed.

(** A quotation mark opened in one field and closed in the next joins them. *)
Example quote_joins_fields : HeaderLines (lines_of ["Subject: a " +:+ String quote "b"; "To: c"; ""]) =
  ["Subject: a " +:+ String quote "b" +:+ crlf +:+ "To: c" +:+ crlf; crlf].
Proof. vm_compute. reflexivity. Qed.

End list_header.
