(* ===== verification/MessageParts.v ===== *)
(** * The tree of a message (pkg/message/parser)

    A message is a tree of parts with a header and a body each.  The parser builds the tree
    from the entities of the MIME library with a stack; walkers and visitors run handlers
    on it; a writer gives it back to the library.

    A part belongs to one tree and is changed through a pointer to it; a function that changes
    a part returns the new one.  Handlers change the header and the body of the part they are
    given, never its children.  The MIME and HTML libraries are classes. *)

From stdpp Require Import pretty.
From S2P Require Import Prelude.
From S2P Require Import Strings.
From S2P Require Import UserEvents.
From S2P Require Import MediaTypes.
From S2P Require Import Charsets.
From S2P Require Import MailHeaders.

(** [ParseMediaType] is the one of pkg/mime (file [Charsets]); the others are those of the
    libraries: reading and writing the value of a content header, and encoding words. *)
Class MimeLib : Type := {
  ParseMediaType : string -> result err (string * gmap string string);
  header_ContentType : string -> result err (string * gmap string string);
  header_format : string -> gmap string string -> string;
  FormatMediaType : string -> gmap string string -> string;
  QEncode : string -> string
}.
Class MimeLaws `{ML : MimeLib} : Prop := {
  parse_nothing : ParseMediaType "" = Err EmptyContentTypeErr;
  content_type_none : header_ContentType "" = Ok ("text/plain", ∅);
  content_type_mixed : header_ContentType "multipart/mixed" = Ok ("multipart/mixed", ∅);
  content_type_text : exists ps, header_ContentType "text/plain;charset=utf8" = Ok ("text/plain", ps)
}.

(** Documents: the content and charset attributes of the meta elements. *)
Class HtmlLib (Doc : Type) : Type := {
  html_Parse : string -> result err Doc;
  html_metas : Doc -> list (option string * option string);
  html_set_metas : list (option string * option string) -> Doc -> Doc;
  html_Render : Doc -> result err string
}.

Inductive Part (H : Type) : Type := mkPart (h : H) (b : string) (cs : list (Part H)).
Arguments mkPart {H} _ _ _.
Definition Header {H} (p : Part H) : H := let '(mkPart h _ _) := p in h.
Definition Body {H} (p : Part H) : string := let '(mkPart _ b _) := p in b.
Definition Children {H} (p : Part H) : list (Part H) := let '(mkPart _ _ cs) := p in cs.
Definition set_header {H} (h : H) (p : Part H) : Part H := mkPart h (Body p) (Children p).

Section parts.
Context {H : Type} `{HL : HeaderLib H} `{ML : MimeLib}.
Notation Part := (Part H).

(** ** Parts (part.go) *)

Definition utf8Charset : string := "UTF-8".

Definition ContentType (p : Part) : result err (string * gmap string string) :=
  match header_ContentType (h_Get (Header p) "Content-Type") with
  | Ok r => Ok r
  | Err _ => ParseMediaType (h_Get (Header p) "Content-Type")
  end.
Definition ContentDisposition (p : Part) : result err (string * gmap string string) :=
  ParseMediaType (h_Get (Header p) "Content-Disposition").
Definition HasContentID (p : Part) : bool := negb (String.eqb (h_Get (Header p) "content-id") "").

(** [None]: indexing out of range panics. *)
Definition Child (n : Z) (p : Part) : option (result err Part) :=
  if Z.of_nat (length (Children p)) <? n then Some (Err (ErrOther "no such part"))
  else if n <=? 0 then None
  else Ok <$> Children p !! Z.to_nat (n - 1).

Definition type_is (ts : list string) (p : Part) : bool :=
  match ContentType p with Ok (t, _) => Contains ts t | Err _ => false end.
Definition isMultipartMixed (p : Part) : bool := type_is ["multipart/mixed"] p.
Definition isMultipartMixedOrRelated (p : Part) : bool := type_is ["multipart/mixed"; "multipart/related"] p.
Definition IsAttachment (p : Part) : bool :=
  match ContentDisposition p with Ok (disp, _) => String.eqb disp "attachment" | Err _ => false end.

Definition copy_header (k : string) (from res : H) : H :=
  if String.eqb (h_Get from k) "" then res else h_Set k (h_Get from k) res.
Definition getContentHeaders (header : H) : H :=
  copy_header "Content-Transfer-Encoding" header (copy_header "Content-Disposition" header (copy_header "Content-Type" header h_empty)).
Definition stripContentHeaders (header : H) : H :=
  h_Del "Content-Transfer-Encoding" (h_Del "Content-Disposition" (h_Del "Content-Type" header)).

Definition AddChild (child p : Part) : Part :=
  if isMultipartMixed p then mkPart (Header p) (Body p) (Children p ++ [child])
  else
    let root := mkPart (getContentHeaders (Header p)) (Body p) (Children p) in
    mkPart (h_Set "Content-Type" "multipart/mixed" (stripContentHeaders (Header p))) "" [root; child].

(** [slices.Insert] panics beyond the end. *)
Definition InsertChild (index : nat) (child p : Part) : option Part :=
  if isMultipartMixedOrRelated p then
    if (length (Children p) <? index)%nat then None
    else Some (mkPart (Header p) (Body p) (take index (Children p) ++ child :: drop index (Children p)))
  else Some (AddChild child p).

Definition SetContentType (t : string) (ps : gmap string string) (h : H) : H := h_Set "Content-Type" (header_format t ps) h.

Definition is7BitClean (p : Part) : bool := forallb (fun b => negb (code b >? 128)) (String.list_ascii_of_string (Body p)).

Section decoding.
Context {Enc Doc : Type} `{TL : TextLib Enc} `{HT : HtmlLib Doc} `{MR : MapRange}.

(** The decoder; the one that does nothing accepts everything. *)
Definition selectSuitableDecoder (p : Part) (t : string) (params : gmap string string) : string -> result err string :=
  let guess := if utf8_Valid (Body p) then Ok else decode_with (DetermineEncoding (Body p) t) in
  match params !! "charset" with
  | Some charset => match SelectDecoder charset with Ok decoder => decode_with decoder | Err _ => guess end
  | None => guess
  end.

Definition ConvertToUTF8 (p : Part) : result err (H * string) :=
  '(t, params) ← ContentType p;
  body ← selectSuitableDecoder p t params (Body p);
  Ok (SetContentType t (<["charset" := utf8Charset]> params) (Header p), body).

(** The attributes of one element and whether they changed; an error leaves it as it is. *)
Definition convert_meta (m : option string * option string) : option string * option string * bool :=
  let '(content, charset) := m in
  let charset_step (content : option string) (modified : bool) :=
    match charset with
    | Some c => if String.eqb c utf8Charset then (content, charset, modified) else (content, Some utf8Charset, true)
    | None => (content, charset, modified)
    end in
  match content with
  | None => charset_step content false
  | Some val =>
      match ParseMediaType val with
      | Err _ => (content, charset, false)
      | Ok (t, params) =>
          match params !! "charset" with
          | Some c => if String.eqb c utf8Charset then charset_step content false
                      else charset_step (Some (FormatMediaType t (<["charset" := utf8Charset]> params))) true
          | None => charset_step content false
          end
      end
  end.

Definition ConvertMetaCharset (body : string) : result err string :=
  doc ← html_Parse body;
  let metas := convert_meta <$> html_metas doc in
  if existsb snd metas then html_Render (html_set_metas (fst <$> metas) doc) else Ok body.

End decoding.

(** ** Walkers (walker.go, handler.go) *)

(** A regular expression is literal text, with [.*] behind it or not; it may match anywhere. *)
Definition MatchString (re s : string) : bool := str_contains s (TrimSuffix re ".*").

(** A handler changes the header and the body of its part and a state of its own. *)
Definition HandlerFunc (St : Type) : Type := Part -> St -> result err (H * string * St).
Record handler (St : Type) : Type := mkHandler { typeRegExp : option string; dispRegExp : option string; fn : HandlerFunc St }.
Arguments mkHandler {St} _ _ _.
Arguments typeRegExp {St} _.
Arguments dispRegExp {St} _.
Arguments fn {St} _.

Definition type_text (p : Part) : string := match ContentType p with Ok (t, _) => t | Err _ => "" end.
Definition disp_text (p : Part) : string := match ContentDisposition p with Ok (d, _) => d | Err _ => "" end.
Definition matchType {St} (h : handler St) (p : Part) : bool :=
  match typeRegExp h with None => false | Some re => MatchString re (type_text p) end.
Definition matchDisp {St} (h : handler St) (p : Part) : bool :=
  match dispRegExp h with None => false | Some re => MatchString re (disp_text p) end.
Definition matchPart {St} (h : handler St) (p : Part) : bool := matchType h p || matchDisp h p.
Definition matchPartSkipAttachment {St} (h : handler St) (p : Part) : bool := negb (IsAttachment p) && matchPart h p.

Record Walker (St : Type) : Type := mkWalker { handlers : list (handler St); defaultHandler : HandlerFunc St }.
Arguments mkWalker {St} _ _.
Arguments handlers {St} _.
Arguments defaultHandler {St} _.

Definition keep {St} : HandlerFunc St := fun p s => Ok (Header p, Body p, s).
Definition NewWalker {St} : Walker St := mkWalker [] keep.
Definition RegisterDefaultHandler {St} (f : HandlerFunc St) (w : Walker St) : Walker St := mkWalker (handlers w) f.
Definition RegisterContentTypeHandler {St} (re : string) (f : HandlerFunc St) (w : Walker St) : Walker St :=
  mkWalker (handlers w ++ [mkHandler (Some re) None f]) (defaultHandler w).
Definition RegisterContentDispositionHandler {St} (re : string) (f : HandlerFunc St) (w : Walker St) : Walker St :=
  mkWalker (handlers w ++ [mkHandler None (Some re) f]) (defaultHandler w).

Definition getHandlerFunc {St} (w : Walker St) (p : Part) : HandlerFunc St :=
  match find_first (fun h => matchPart h p) (handlers w) with Some h => fn h | None => defaultHandler w end.
Definition getHandlerFuncSkipAttachment {St} (w : Walker St) (p : Part) : HandlerFunc St :=
  match find_first (fun h => matchPartSkipAttachment h p) (handlers w) with Some h => fn h | None => defaultHandler w end.

(** The handler of a part runs before those of its children. *)
Fixpoint walk {St} (handler_of : Part -> HandlerFunc St) (p : Part) (s : St) : result err (Part * St) :=
  match p with
  | mkPart _ _ cs =>
      '(h, b, s) ← handler_of p p s;
      '(cs, s) ← (fix walk_children (cs : list Part) (s : St) : result err (list Part * St) :=
                    match cs with
                    | [] => Ok ([], s)
                    | c :: cs => '(c, s) ← walk handler_of c s; '(cs, s) ← walk_children cs s; Ok (c :: cs, s)
                    end) cs s;
      Ok (mkPart h b cs, s)
  end.
Definition walkOverPart {St} (w : Walker St) : Part -> St -> result err (Part * St) := walk (getHandlerFunc w).
Definition walkOverPartSkipAttachment {St} (w : Walker St) : Part -> St -> result err (Part * St) := walk (getHandlerFuncSkipAttachment w).

(** ** Visitors (visitor.go) *)

(** A rule gets the results of visiting the children, of which it uses all up to an error or none. *)
Definition VisitorRule (R : Type) : Type := Part -> list (result err R) -> result err R.

Fixpoint visit {R} (rules : list (string * VisitorRule R)) (defaultRule : VisitorRule R) (p : Part) : result err R :=
  match p with
  | mkPart _ _ cs =>
      '(t, _) ← ContentType p;
      let rule := match find_first (fun '(re, _) => MatchString re t) rules with Some (_, rule) => rule | None => defaultRule end in
      rule p ((fix visit_children (cs : list Part) : list (result err R) :=
                 match cs with [] => [] | c :: cs => visit rules defaultRule c :: visit_children cs end) cs)
  end.

(** ** Writer (writer.go) *)

(** What is done with the writers of the library, in order. *)
Inductive write_op : Type := CreateWriter (h : H) | CreatePart (h : H) | WriteBody (b : string) | CloseWriter.

Definition encode_header (p : Part) : H :=
  if negb (is7BitClean p) then h_Set "Content-Transfer-Encoding" "base64" (Header p) else Header p.

Fixpoint write_part (p : Part) : list write_op :=
  match p with
  | mkPart _ b cs =>
      (fix write_children (cs : list Part) : list write_op :=
         match cs with
         | [] => []
         | c :: cs => (CreatePart (encode_header c) :: write_part c ++ [CloseWriter]) ++ write_children cs
         end) cs ++ [WriteBody b]
  end.
Definition writeAsChild (p : Part) : list write_op := CreatePart (encode_header p) :: write_part p ++ [CloseWriter].

(** What the library writes, or its error. *)
Class WriterLib : Type := render : list write_op -> result err string.
Definition Write `{WL : WriterLib} (p : Part) : result err string :=
  render (CreateWriter (encode_header p) :: write_part p ++ [CloseWriter]).

(** The headers the writer changes stay changed. *)
Fixpoint encode_all (p : Part) : Part :=
  match p with
  | mkPart h b cs =>
      mkPart (encode_header p) b
        ((fix encode_children (cs : list Part) : list Part := match cs with [] => [] | c :: cs => encode_all c :: encode_children cs end) cs)
  end.

(** ** Building the tree (parser.go) *)

(** An entity with the body that is read from it, or with the entities of its multipart reader up
    to the error that ends it; [None] is the end of the text.  Entities whose character set is
    unknown are entities like the others. *)
Inductive Entity : Type :=
| Leaf (h : H) (body : result err string)
| Multi (h : H) (es : list Entity) (ending : option err).

Inductive read_error : Type := UnknownCharset | UnknownEncoding | ReadError (e : err).

(** [message.Read] of a text. *)
Class EntityLib : Type := message_Read : string -> Entity * option read_error.

Record Parser : Type := mkParser { stack : list Part; root : option Part }.

(** The top of the stack is the head of the list. *)
Definition on_top (f : Part -> Part) (p : Parser) : Parser :=
  mkParser (match stack p with [] => [] | t :: st => f t :: st end) (root p).
Definition beginPart (p : Parser) : Parser := mkParser (mkPart h_empty "" [] :: stack p) (root p).
Definition endPart (p : Parser) : Parser :=
  match stack p with
  | [] => p
  | part :: st =>
      match st with
      | [] => mkParser [] (Some part)
      | _ => on_top (fun t => mkPart (Header t) (Body t) (Children t ++ [part])) (mkParser st (root p))
      end
  end.
Definition withHeader (h : H) : Parser -> Parser := on_top (set_header h).
Definition withBody (b : string) : Parser -> Parser := on_top (fun t => mkPart (Header t) b (Children t)).

(** The part is ended whether parsing it failed or not. *)
Fixpoint parseEntity (e : Entity) (p : Parser) : Parser * option err :=
  match e with
  | Leaf h body =>
      let p := withHeader h (beginPart p) in
      match body with Ok b => (endPart (withBody b p), None) | Err e => (endPart p, Some e) end
  | Multi h es ending =>
      let p := withHeader h (beginPart p) in
      let '(p, e) :=
        (fix parseMultipart (es : list Entity) (p : Parser) : Parser * option err :=
           match es with
           | [] => (p, ending)
           | child :: es => match parseEntity child p with (p, Some e) => (p, Some e) | (p, None) => parseMultipart es p end
           end) es p in
      (endPart p, e)
  end.

Section reading.
Context `{EL : EntityLib}.

(** ** The end of a mail (trimmer.go) *)

Definition endOfMail : string := String cr (String lf (String (chr 46) (String cr (String lf "")))).

(** What is left of the underlying text, and the buffer. *)
Record endOfMailTrimmer : Type := mkTrimmer { t_rest : string; t_buf : string }.
Definition newEndOfMailTrimmer (text : string) : endOfMailTrimmer := mkTrimmer text "".

(** Reading up to [n] bytes; [None] is the end of the text. *)
Definition trimmer_Read (n : nat) (r : endOfMailTrimmer) : endOfMailTrimmer * option string :=
  let want := (n + 5 - String.length (t_buf r))%nat in
  let buf := t_buf r +:+ str_take want (t_rest r) in
  let buf := if (String.length (t_rest r) <? want)%nat then TrimSuffix buf endOfMail else buf in
  (mkTrimmer (str_drop want (t_rest r)) (str_drop n buf), if String.eqb buf "" then None else Some (str_take n buf)).

(** [New]: what the library reads is the text without the end of the mail. *)
Definition New (text : string) : result err Parser :=
  let '(entity, e) := message_Read (TrimSuffix text endOfMail) in
  match e with
  | Some (ReadError e) => Err e
  | _ => match parseEntity entity (mkParser [] None) with (p, None) => Ok p | (_, Some e) => Err e end
  end.

End reading.

(** ** Operations on the root *)

Definition AttachPublicKey (key keyName : string) (root : Part) : Part :=
  let encName := QEncode (keyName +:+ ".asc") in
  let params := <["name" := encName]> (<["filename" := encName]> ∅) in
  let h := h_Set "Content-Type" (FormatMediaType "application/pgp-keys" params) h_empty in
  let h := h_Set "Content-Disposition" (FormatMediaType "attachment" params) h in
  AddChild (mkPart (h_Set "Content-Transfer-Encoding" "base64" h) key []) root.

(** The content type of a header, read by the library alone. *)
Definition is_text_header (h : H) : bool :=
  match header_ContentType (h_Get h "Content-Type") with Ok (t, _) => has_prefix "text/" t | Err _ => false end.
Definition has_text_part (root : Part) : bool :=
  if isMultipartMixed root
  then existsb (fun v => negb (h_Has (Header v) "Content-Disposition") && is_text_header (Header v)) (Children root)
  else is_text_header (Header root).
Definition empty_text_part : Part :=
  mkPart (h_Set "Content-Transfer-Encoding" "quoted-printable" (h_Set "Content-Type" "text/plain;charset=utf8" h_empty)) "" [].
Definition AttachEmptyTextPartIfNoneExists (root : Part) : Part * bool :=
  if has_text_part root then (root, false) else (AddChild empty_text_part root, true).

(** [None]: a section number below one. *)
Fixpoint Section_ (section : list Z) (part : Part) : option (result err Part) :=
  match section with
  | [] => Some (Ok part)
  | n :: section => match Child n part with None => None | Some (Err e) => Some (Err e) | Some (Ok part) => Section_ section part end
  end.

End parts.
Arguments mkHandler {H St} _ _ _.
Arguments typeRegExp {H St} _.
Arguments dispRegExp {H St} _.
Arguments fn {H St} _.
Arguments mkWalker {H St} _ _.
Arguments handlers {H St} _.
Arguments defaultHandler {H St} _.
Arguments Leaf {H} _ _.
Arguments Multi {H} _ _ _.
Arguments mkParser {H} _ _.
Arguments stack {H} _.
Arguments root {H} _.
Arguments CreateWriter {H} _.
Arguments CreatePart {H} _.
Arguments WriteBody {H} _.
Arguments CloseWriter {H}.

(** ** Trees *)

Section part_ind.
Context {H : Type}.
Variables (P : Part H -> Prop) (Q : list (Part H) -> Prop).
Hypotheses (Hpart : forall h b cs, Q cs -> P (mkPart h b cs)) (Hnil : Q []) (Hcons : forall p ps, P p -> Q ps -> Q (p :: ps)).

Fixpoint part_ind (p : Part H) : P p :=
  match p with
  | mkPart h b cs =>
      Hpart h b cs ((fix parts_ind (cs : list (Part H)) : Q cs := match cs with [] => Hnil | c :: cs => Hcons c cs (part_ind c) (parts_ind cs) end) cs)
  end.
End part_ind.

(** A part and all below it, each before its children. *)
Fixpoint preorder {H} (p : Part H) : list (Part H) :=
  match p with
  | mkPart _ _ cs =>
      p :: (fix preorders (cs : list (Part H)) : list (Part H) := match cs with [] => [] | c :: cs => preorder c ++ preorders cs end) cs
  end.

Lemma preorder_eq {H} h b (cs : list (Part H)) : preorder (mkPart h b cs) = mkPart h b cs :: (cs ≫= preorder).
Proof. reflexivity. Qed.

Lemma preorder_self {H} (p : Part H) : p ∈ preorder p.
Proof. destruct p. rewrite preorder_eq. left. Qed.

(** The texts a message holds. *)
Definition texts {H} (p : Part H) : list string := Prelude.Filter (Body <$> preorder p) (fun b => negb (String.eqb b "")).

(** A loop over parts that may fail. *)
Fixpoint over_parts {H St} (f : Part H -> St -> result err St) (ps : list (Part H)) (s : St) : result err St :=
  match ps with [] => Ok s | p :: ps => s ← f p s; over_parts f ps s end.

Lemma over_parts_app {H St} (f : Part H -> St -> result err St) ps qs s :
  over_parts f (ps ++ qs) s = over_parts f ps s ≫= over_parts f qs.
Proof. revert s. induction ps as [|p ps IH]; intros s; [done|]. simpl. destruct (f p s); [apply IH|done]. Qed.

Section walking.
Context {H : Type} {St : Type}.
Variable handler_of : Part H -> HandlerFunc (H:=H) St.

Fixpoint walk_list (cs : list (Part H)) (s : St) : result err (list (Part H) * St) :=
  match cs with
  | [] => Ok ([], s)
  | c :: cs => '(c, s) ← walk handler_of c s; '(cs, s) ← walk_list cs s; Ok (c :: cs, s)
  end.

Lemma walk_eq h b cs s : walk handler_of (mkPart h b cs) s =
  ('(h', b', s) ← handler_of (mkPart h b cs) (mkPart h b cs) s; '(cs', s) ← walk_list cs s; Ok (mkPart h' b' cs', s)).
Proof. reflexivity. Qed.

(** Handlers that change no part: the walk is a loop over all parts. *)
Lemma walk_reads (f : Part H -> St -> result err St) p s :
  (forall q s, handler_of q q s = (fun s' => (Header q, Body q, s')) <$> f q s) ->
  walk handler_of p s = (fun s' => (p, s')) <$> over_parts f (preorder p) s.
Proof.
  intros Hf. revert s. apply (part_ind (fun p => forall s, walk handler_of p s = (fun s' => (p, s')) <$> over_parts f (preorder p) s)
    (fun cs => forall s, walk_list cs s = (fun s' => (cs, s')) <$> over_parts f (cs ≫= preorder) s)).
  - intros h b cs IH s. rewrite walk_eq, Hf, preorder_eq. simpl. destruct (f _ s) as [s'|]; [|done]. simpl. rewrite IH.
    by destruct (over_parts f _ s').
  - done.
  - intros q qs IHq IHqs s. cbn [walk_list mbind list_bind]. rewrite IHq. change (preorder q ++ (qs ≫= preorder)) with (preorder q ++ (qs ≫= preorder)).
    rewrite over_parts_app. destruct (over_parts f (preorder q) s) as [s'|]; [|done]. simpl. rewrite IHqs.
    by destruct (over_parts f _ s').
Qed.

End walking.

(** ** The parser builds the tree *)

Section building.
Context {H : Type} `{HL : HeaderLib H}.

Fixpoint tree_of (e : Entity) : result err (Part H) :=
  match e with
  | Leaf h body => b ← body; Ok (mkPart h b [])
  | Multi h es ending =>
      cs ← (fix trees (es : list Entity) : result err (list (Part H)) :=
              match es with [] => match ending with None => Ok [] | Some e => Err e end | e :: es => c ← tree_of e; cs ← trees es; Ok (c :: cs) end) es;
      Ok (mkPart h "" cs)
  end.

Section lists.
Variable ending : option err.
Fixpoint tree_list (es : list Entity) : result err (list (Part H)) :=
  match es with [] => match ending with None => Ok [] | Some e => Err e end | e :: es => c ← tree_of e; cs ← tree_list es; Ok (c :: cs) end.
Fixpoint parse_list (es : list Entity) (p : Parser) : Parser * option err :=
  match es with
  | [] => (p, ending)
  | child :: es => match parseEntity child p with (p, Some e) => (p, Some e) | (p, None) => parse_list es p end
  end.
End lists.

Lemma tree_of_multi h es ending : tree_of (Multi h es ending) = (cs ← tree_list ending es; Ok (mkPart h "" cs)).
Proof. reflexivity. Qed.
Lemma parseEntity_multi h es ending p : parseEntity (Multi h es ending) p =
  let '(p, e) := parse_list ending es (withHeader h (beginPart p)) in (endPart p, e).
Proof. reflexivity. Qed.

(** Give a finished part to the part on the top of the stack, or make it the root. *)
Definition give (part : Part H) (p : Parser) : Parser :=
  match stack p with
  | [] => mkParser [] (Some part)
  | _ => on_top (fun t => mkPart (Header t) (Body t) (Children t ++ [part])) p
  end.

Definition parsed (e : Entity) (p : Parser) : Prop :=
  match tree_of e with Ok t => parseEntity e p = (give t p, None) | Err er => (parseEntity e p).2 = Some er end.

Section entity_ind.
Variable P : @Entity H -> Prop.
Hypotheses (Hleaf : forall h b, P (Leaf h b)) (Hmulti : forall h es ending, Forall P es -> P (Multi h es ending)).
Fixpoint entity_ind (e : @Entity H) : P e :=
  match e with
  | Leaf h b => Hleaf h b
  | Multi h es ending =>
      Hmulti h es ending ((fix entities_ind (es : list (@Entity H)) : Forall P es :=
        match es with [] => List.Forall_nil P | e :: es => @List.Forall_cons _ P e es (entity_ind e) (entities_ind es) end) es)
  end.
End entity_ind.

Lemma parseEntity_tree e p : parsed e p.
Proof.
  revert p. induction e as [h body|h es ending IH] using entity_ind; intros p; unfold parsed; [by destruct body, p as [[|t st] r]|].
  rewrite tree_of_multi, parseEntity_multi.
  assert (Hloop : forall ps t st r, match tree_list ending es with
    | Ok cs => parse_list ending es (mkParser (mkPart (Header t) (Body t) (Children t ++ ps) :: st) r) = (mkParser (mkPart (Header t) (Body t) (Children t ++ ps ++ cs) :: st) r, None)
    | Err er => (parse_list ending es (mkParser (mkPart (Header t) (Body t) (Children t ++ ps) :: st) r)).2 = Some er end).
  { induction IH as [|e es He _ IHes]; intros ps t st r; cbn [tree_list parse_list]; [destruct ending; rewrite ?app_nil_r; done|].
    specialize (He (mkParser (mkPart (Header t) (Body t) (Children t ++ ps) :: st) r)). unfold parsed in He.
    destruct (tree_of e) as [c|er]; cbn [mbind result_bind].
    - rewrite He. change (give c _) with (mkParser (mkPart (Header t) (Body t) ((Children t ++ ps) ++ [c]) :: st) r). cbn iota.
      rewrite <- app_assoc. specialize (IHes (ps ++ [c]) t st r). destruct (tree_list ending es); cbn [mbind result_bind] in *; [|done].
      by rewrite IHes, <- (app_assoc ps).
    - destruct (parseEntity e _) as [q o]. simpl in He. by subst o. }
  specialize (Hloop [] (mkPart h "" []) (stack p) (root p)). cbn [Header Body Children app] in Hloop.
  change (withHeader h (beginPart p)) with (mkParser (mkPart h "" [] :: stack p) (root p)).
  destruct (tree_list ending es) as [cs|er]; cbn [mbind result_bind].
  - rewrite Hloop. destruct p as [[|t st] r]; done.
  - destruct (parse_list ending es _) as [q o]. simpl in Hloop. by subst o.
Qed.

(** C29: The parser with its stack builds the tree of the entities the library reads, and fails with
    the first error it meets. *)
Theorem New_builds_tree `{EL : EntityLib H} text :
  New text = match message_Read (TrimSuffix text endOfMail) with
             | (_, Some (ReadError e)) => Err e
             | (entity, _) => (fun t => mkParser [] (Some t)) <$> tree_of entity
             end.
Proof.
  unfold New. destruct (message_Read _) as [entity e]. assert (Ht := parseEntity_tree entity (mkParser [] None)). unfold parsed in Ht.
  assert (Hrun : match parseEntity entity (mkParser [] None) with (p, None) => Ok p | (_, Some e) => Err e end =
                 (fun t => mkParser [] (Some t)) <$> tree_of entity).
  { destruct (tree_of entity) as [t|er]; [by rewrite Ht|]. destruct (parseEntity entity _) as [q o]. simpl in Ht. by subst o. }
  rewrite Hrun. by destruct e as [[]|].
Qed.

End building.

(** ** The trimmer reads the text without the end of the mail *)

Lemma TrimSuffix_short s suffix : (String.length s < String.length suffix)%nat -> TrimSuffix s suffix = s.
Proof.
  induction s as [|c s IH]; intros Hl; cbn [TrimSuffix].
  - by destruct (String.eqb "" suffix).
  - destruct (String.eqb_spec (String c s) suffix) as [<-|]; [lia|]. simpl in Hl. by rewrite IH by lia.
Qed.

Lemma TrimSuffix_app s t suffix : (String.length suffix <= String.length t)%nat -> TrimSuffix (s +:+ t) suffix = s +:+ TrimSuffix t suffix.
Proof.
  intros Hl. induction s as [|c s IH]; [done|]. change (String c s +:+ ?u) with (String c (s +:+ u)). cbn [TrimSuffix].
  destruct (String.eqb_spec (String c (s +:+ t)) suffix) as [<-|]; [simpl in Hl; rewrite str_app_length in Hl; lia|]. by rewrite IH.
Qed.

Lemma TrimSuffix_length s suffix : (0 < String.length suffix)%nat -> TrimSuffix s suffix = s \/ String.length s = (String.length (TrimSuffix s suffix) + String.length suffix)%nat.
Proof.
  intros Hl. induction s as [|c s IH]; cbn [TrimSuffix]; [destruct (String.eqb "" suffix); by left|].
  destruct (String.eqb_spec (String c s) suffix) as [<-|]; [by right|]. destruct IH as [->|IH]; [by left|right]. simpl. lia.
Qed.

Definition unread (r : endOfMailTrimmer) : string := TrimSuffix (t_buf r +:+ t_rest r) endOfMail.
Definition small_buffer (r : endOfMailTrimmer) : Prop := (String.length (t_buf r) <= 5)%nat.

Lemma trimmer_Read_spec n r r' o : small_buffer r -> (0 < n)%nat -> trimmer_Read n r = (r', o) ->
  small_buffer r' /\ match o with Some s => s <> "" /\ unread r = s +:+ unread r' | None => unread r = "" end.
Proof.
  intros Hs Hn. unfold trimmer_Read, small_buffer in *. set (want := (n + 5 - String.length (t_buf r))%nat). intros [= <- <-]. cbn [t_buf].
  destruct (String.length (t_rest r) <? want)%nat eqn:He.
  - apply Nat.ltb_lt in He. rewrite str_take_ge by lia. set (buf := t_buf r +:+ t_rest r). change (unread r) with (TrimSuffix buf endOfMail).
    assert (Hlen : (String.length buf < n + 5)%nat) by (unfold buf; rewrite str_app_length; unfold want in He; lia).
    assert (Hrest : str_drop want (t_rest r) = "") by (apply str_drop_ge; lia).
    unfold unread. cbn [t_buf t_rest]. rewrite Hrest, str_app_nil. rewrite length_str_drop.
    destruct (TrimSuffix_length buf endOfMail ltac:(simpl; lia)) as [Hk|Hk].
    + rewrite Hk. split; [lia|]. destruct (String.eqb_spec buf "") as [->|Hne]; [done|]. split.
      * destruct buf; [done|]. destruct n; [lia|done].
      * rewrite (TrimSuffix_short (str_drop n buf)) by (rewrite length_str_drop; simpl; lia). symmetry. apply str_take_drop.
    + simpl (String.length endOfMail) in Hk. split; [lia|]. destruct (String.eqb_spec (TrimSuffix buf endOfMail) "") as [->|Hne]; [done|].
      rewrite str_drop_ge, str_app_nil, str_take_ge by lia. split; [by destruct (TrimSuffix buf endOfMail)|done].
  - apply Nat.ltb_ge in He. unfold want in *. set (k := (n + 5 - String.length (t_buf r))%nat) in *. set (buf := t_buf r +:+ str_take k (t_rest r)).
    assert (Hlen : String.length buf = (n + 5)%nat) by (unfold buf; rewrite str_app_length, length_str_take; lia).
    rewrite length_str_drop. split; [lia|]. destruct (String.eqb_spec buf "") as [Hb|Hne]; [rewrite Hb in Hlen; simpl in Hlen; lia|].
    split; [destruct buf; [done|]; destruct n; [lia|done]|]. unfold unread. cbn [t_buf t_rest].
    rewrite <- TrimSuffix_app by (rewrite str_app_length, length_str_drop; simpl; lia). f_equal.
    rewrite <- str_app_assoc, str_take_drop. unfold buf. rewrite str_app_assoc. by rewrite str_take_drop.
Qed.

(** Read with buffers of the given sizes up to the end of the text; the flag says whether it was reached. *)
Fixpoint read_all (ns : list nat) (r : endOfMailTrimmer) : string * bool :=
  match ns with
  | [] => ("", false)
  | n :: ns => match trimmer_Read n r with (_, None) => ("", true) | (r, Some s) => let '(t, eof) := read_all ns r in (s +:+ t, eof) end
  end.

Lemma read_all_unread ns r : small_buffer r -> Forall (fun n => (0 < n)%nat) ns -> (String.length (unread r) < length ns)%nat ->
  read_all ns r = (unread r, true).
Proof.
  intros Hs Hns. revert r Hs. induction Hns as [|n ns Hn _ IH]; intros r Hs Hl; [simpl in Hl; lia|]. cbn [read_all].
  destruct (trimmer_Read n r) as [r' o] eqn:Hr. destruct (trimmer_Read_spec n r r' o Hs Hn Hr) as [Hs' Ho]. destruct o as [s|]; [|by rewrite Ho].
  destruct Ho as [Hne Hu]. rewrite Hu in *. rewrite str_app_length in Hl. rewrite IH; [done|done|]. destruct s; [done|]. simpl in Hl. lia.
Qed.

(** Whatever the sizes of the buffers it is read with, the trimmer gives the text without one end of
    mail at its end, and then the end of the text. *)
Theorem trimmer_trims text ns :
  Forall (fun n => (0 < n)%nat) ns -> (String.length text < length ns)%nat ->
  read_all ns (newEndOfMailTrimmer text) = (TrimSuffix text endOfMail, true).
Proof.
  intros Hns Hl. apply (read_all_unread ns (newEndOfMailTrimmer text)); [unfold small_buffer; simpl; lia|done|].
  unfold unread. cbn [t_buf t_rest newEndOfMailTrimmer]. change ("" +:+ text) with text.
  destruct (TrimSuffix_length text endOfMail ltac:(simpl; lia)) as [->|]; lia.
Qed.

(** ** Adding parts *)

Section adding.
Context {H : Type} `{HW : HeaderLaws H} `{MW : MimeLaws}.

Lemma mixed_type h b (cs : list (Part H)) : isMultipartMixed (mkPart (h_Set "Content-Type" "multipart/mixed" h) b cs) = true.
Proof. unfold isMultipartMixed, type_is, ContentType. simpl. rewrite get_set. simpl. by rewrite content_type_mixed. Qed.

Lemma texts_eq h b (cs : list (Part H)) : texts (mkPart h b cs) = (if String.eqb b "" then [] else [b]) ++ (cs ≫= texts).
Proof.
  unfold texts at 1. rewrite preorder_eq, fmap_cons. simpl. assert (Hcs : Prelude.Filter (Body <$> (cs ≫= preorder)) (fun b => negb (String.eqb b "")) = cs ≫= texts).
  { induction cs as [|c cs IH]; [done|]. cbn [mbind list_bind]. by rewrite fmap_app, Filter_app, IH. }
  rewrite Hcs. by destruct (String.eqb b "").
Qed.

(** What is asked of a part that is wrapped stays the same. *)
Definition content_key (k : string) : bool := EqualFold "Content-Type" k || EqualFold "Content-Disposition" k || EqualFold "Content-Transfer-Encoding" k.

Lemma get_copy k (from res : H) k' : h_Get (copy_header k from res) k' =
  if negb (String.eqb (h_Get from k) "") && EqualFold k k' then h_Get from k else h_Get res k'.
Proof. unfold copy_header. destruct (String.eqb (h_Get from k) ""); [done|]. apply get_set. Qed.

Lemma getContentHeaders_get (h : H) :
  h_Get (getContentHeaders h) "Content-Type" = h_Get h "Content-Type" /\
  h_Get (getContentHeaders h) "Content-Disposition" = h_Get h "Content-Disposition" /\
  h_Get (getContentHeaders h) "Content-Transfer-Encoding" = h_Get h "Content-Transfer-Encoding".
Proof.
  unfold getContentHeaders. rewrite !get_copy, !get_empty. cbn [EqualFold andb]. simpl. rewrite !andb_false_r, !andb_true_r.
  assert (Hs : forall s, (if negb (String.eqb s "") then s else "") = s) by (intros s; by destruct (String.eqb_spec s "") as [->|]).
  repeat split; apply Hs.
Qed.

(** Adding a part makes the message multipart/mixed and keeps every text; the part that was the
    message before keeps its content headers, the message its others. *)
Theorem AddChild_keeps (child p : Part H) :
  isMultipartMixed (AddChild child p) = true /\ texts (AddChild child p) = texts p ++ texts child /\
  (isMultipartMixed p = false -> exists q, Children (AddChild child p) = [q; child] /\ Body q = Body p /\ Children q = Children p /\
     ContentType q = ContentType p /\ IsAttachment q = IsAttachment p /\
     (forall k, content_key k = false -> h_Get (Header (AddChild child p)) k = h_Get (Header p) k)).
Proof.
  unfold AddChild. destruct p as [h b cs]. destruct (isMultipartMixed (mkPart h b cs)) eqn:Hm.
  - split; [exact Hm|]. split; [|done]. rewrite !texts_eq, bind_app. cbn [mbind list_bind]. by rewrite app_nil_r, app_assoc.
  - split; [apply mixed_type|]. split.
    + rewrite !texts_eq. cbn [mbind list_bind]. rewrite texts_eq. simpl. by rewrite !app_nil_r.
    + intros _. eexists. split; [reflexivity|]. destruct (getContentHeaders_get h) as (Ht & Hd & _).
      unfold ContentType, IsAttachment, ContentDisposition. simpl. rewrite Ht, Hd. do 4 (split; [done|]).
      intros k Hk. unfold content_key in Hk. rewrite !orb_false_iff in Hk. destruct Hk as [[H1 H2] H3].
      unfold stripContentHeaders. by rewrite get_set, !get_del, H1, H2, H3.
Qed.

Lemma empty_text_is_text : is_text_header (Header (empty_text_part (H := H))) = true /\ h_Has (Header (empty_text_part (H := H))) "Content-Disposition" = false.
Proof.
  unfold empty_text_part, is_text_header. simpl. rewrite !get_set, !has_set. simpl.
  destruct content_type_text as [ps ->]. split; [done|]. apply has_empty.
Qed.

(** After an empty text was attached because there was none, there is one: it is attached once, and
    all texts are kept. *)
Theorem empty_text_once (p p' : Part H) added :
  AttachEmptyTextPartIfNoneExists p = (p', added) ->
  AttachEmptyTextPartIfNoneExists p' = (p', false) /\ texts p' = texts p /\ (added = false -> p' = p).
Proof.
  intros Hp. assert (Hhas : has_text_part p' = true /\ texts p' = texts p /\ (added = false -> p' = p)).
  { unfold AttachEmptyTextPartIfNoneExists in Hp. destruct (has_text_part p) eqn:Ht; injection Hp as <- <-; [done|].
    destruct (AddChild_keeps empty_text_part p) as (Hm & Htx & Hw). split; [|split; [|done]].
    - unfold has_text_part. rewrite Hm. destruct empty_text_is_text as [Hi Hd]. apply existsb_exists. exists empty_text_part.
      rewrite Hi, Hd. split; [|done]. unfold AddChild. destruct (isMultipartMixed p); [apply in_app_iff; right; by left|right; by left].
    - rewrite Htx. unfold texts at 2. simpl. by rewrite app_nil_r. }
  destruct Hhas as (Hh & Htx & Ha). unfold AttachEmptyTextPartIfNoneExists at 1. by rewrite Hh.
Qed.

(** ** Writing *)

Section encode_list.
Fixpoint encode_list (cs : list (Part H)) : list (Part H) := match cs with [] => [] | c :: cs => encode_all c :: encode_list cs end.
End encode_list.

Lemma encode_all_eq h b (cs : list (Part H)) : encode_all (mkPart h b cs) = mkPart (encode_header (mkPart h b cs)) b (encode_list cs).
Proof. reflexivity. Qed.

(** Once a message was written, every part whose body is found not to be 7-bit clean is declared to be
    in base 64, and no body changed. *)
Theorem written_encoded (p : Part H) :
  (forall q, q ∈ preorder (encode_all p) -> is7BitClean q = false -> h_Get (Header q) "Content-Transfer-Encoding" = "base64") /\
  Body <$> preorder (encode_all p) = Body <$> preorder p.
Proof.
  apply (part_ind (fun p => (forall q, q ∈ preorder (encode_all p) -> is7BitClean q = false -> h_Get (Header q) "Content-Transfer-Encoding" = "base64") /\
      Body <$> preorder (encode_all p) = Body <$> preorder p)
    (fun cs => (forall q, q ∈ (encode_list cs ≫= preorder) -> is7BitClean q = false -> h_Get (Header q) "Content-Transfer-Encoding" = "base64") /\
      Body <$> (encode_list cs ≫= preorder) = Body <$> (cs ≫= preorder))).
  - intros h b cs [IH1 IH2]. rewrite encode_all_eq, !preorder_eq. split; [|rewrite !fmap_cons; f_equal; exact IH2].
    intros q [->|Hq]%elem_of_cons; [|by apply IH1]. unfold is7BitClean, encode_header. simpl. unfold is7BitClean. simpl.
    intros ->. simpl. by rewrite get_set.
  - split; [intros q Hq; by apply elem_of_nil in Hq|done].
  - intros c cs [H1 H2] [H3 H4]. cbn [encode_list]. rewrite !bind_cons. split.
    + intros q [Hq|Hq]%elem_of_app; [by apply H1|by apply H3].
    + rewrite !fmap_app. by rewrite H2, H4.
Qed.

End adding.

(** ** Examples *)

(** The type and parameters before the first semicolon and after it, separated by semicolons. *)
Definition simple_params (s : string) : gmap string string :=
  list_to_map ((fun part => let '(k, v) := match Index equals part with Some i => (str_take i part, str_drop (S i) part) | None => (part, "") end in
                            (TrimLeftSpace k, v)) <$> Split semicolon s).
Definition simple_media_type (s : string) : result err (string * gmap string string) :=
  match Index semicolon s with
  | None => Ok (s, ∅)
  | Some i => Ok (str_take i s, simple_params (str_drop (S i) s))
  end.
Definition simple_mime : MimeLib :=
  {| ParseMediaType := fun s => if String.eqb s "" then Err EmptyContentTypeErr else simple_media_type s;
     header_ContentType := fun s => if String.eqb s "" then Ok ("text/plain", ∅) else simple_media_type s;
     header_format := fun t ps => t +:+ render_params (map_to_list ps); FormatMediaType := fun t ps => t +:+ render_params (map_to_list ps);
     QEncode := fun s => s |}.

Section examples.
Local Existing Instances list_header simple_mime.

#[export] Instance simple_mime_laws : MimeLaws.
Proof. split; try reflexivity. exists {[ "charset" := "utf8" ]}. vm_compute. reflexivity. Qed.

Definition typed (t : string) : list (string * string) := [("Content-Type", t)].
Definition ex_leaf (t body : string) : Part (list (string * string)) := mkPart (typed t) body [].

(** What is read of a multipart text that ends early is an error; the part stays in the tree. *)
Definition ex_entity : EntityLib (H := list (string * string)) := fun text =>
  (Multi (typed "multipart/mixed") [Leaf (typed "text/plain") (Ok text); Multi (typed "multipart/related") [Leaf (typed "text/html") (Ok "html")] None] None, None).
Example parsed_tree : New (EL := ex_entity) ("text" +:+ endOfMail) =
  Ok (mkParser [] (Some (mkPart (typed "multipart/mixed") "" [ex_leaf "text/plain" "text"; mkPart (typed "multipart/related") "" [ex_leaf "text/html" "html"]]))).
Proof. vm_compute. reflexivity. Qed.

Lemma trimmer_trims_witness : read_all [1; 3; 2; 8; 1; 1; 1; 1; 1; 1]%nat (newEndOfMailTrimmer ("mail" +:+ endOfMail)) = ("mail", true).
Proof. apply (trimmer_trims ("mail" +:+ endOfMail)); [|simpl; lia]. repeat (constructor; [lia|]). constructor. Defined.

Lemma empty_text_once_witness :
  let p := mkPart (typed "multipart/mixed") "" [ex_leaf "image/png" "png"] in
  exists p', AttachEmptyTextPartIfNoneExists p = (p', true) /\ AttachEmptyTextPartIfNoneExists p' = (p', false).
Proof.
  intros p. eexists. split; [vm_compute; reflexivity|]. eapply (fun Hp => proj1 (empty_text_once p _ true Hp)). vm_compute. reflexivity.
Defined.

(** The byte 128 passes for 7-bit clean. *)
Example byte_128_clean : is7BitClean (ex_leaf "text/plain" (String (chr 128) "")) = true /\ is7BitClean (ex_leaf "text/plain" (String (chr 129) "")) = false.
Proof. vm_compute. split; reflexivity. Qed.

(** A section number below one. *)
Example section_zero_panics : Section_ [0] (ex_leaf "text/plain" "a") = None.
Proof. reflexivity. Qed.

End examples.
