(* ===== verification/InlineImages.v ===== *)
(** * Inline images (pkg/message/parser.go)

    Apple Mail sends short texts with images as plain text parts next to image parts.  Before
    a message is used, such texts are converted to HTML that refers to the images by an identifier they
    are given; an image without a text before it gets an HTML part of its own.

    The jobs hold pointers to children of the root, which move while parts are inserted: the
    children are cells, and the places of the root hold the number of a cell or a new part. *)

From stdpp Require Import pretty.
From S2P Require Import Prelude.
From S2P Require Import Strings.
From S2P Require Import UserEvents.
From S2P Require Import MediaTypes.
From S2P Require Import Charsets.
From S2P Require Import MailHeaders.
From S2P Require Import MessageParts.

Definition TextPlain : string := "text/plain".

(** ** Line breaks *)

(** [None]: the fuel ran out. *)
Fixpoint break_lines (fuel : nat) (slice : string) : option string :=
  match fuel with
  | O => None
  | S fuel =>
      match Index lf slice with
      | None => Some slice
      | Some newLineIndex =>
          let injectIndex :=
            if (0 <? newLineIndex)%nat && String.eqb (str_take 1 (str_drop (newLineIndex - 1) slice)) (String cr "") then (newLineIndex - 1)%nat
            else newLineIndex in
          rest ← break_lines fuel (str_drop (S newLineIndex) slice);
          Some (str_take injectIndex slice +:+ "<br/>" +:+ str_drop injectIndex (str_take (S newLineIndex) slice) +:+ rest)
      end
  end.
Definition patchNewLineWithHTMLBreaks (input : string) : option string := break_lines (S (String.length input)) input.

(** A line break before every newline, and before the carriage return in front of it. *)
Fixpoint html_breaks (s : string) : string :=
  match s with
  | EmptyString => ""
  | String c s' =>
      if Ascii.eqb c lf then "<br/>" +:+ String lf (html_breaks s')
      else match s' with
           | String d s'' => if Ascii.eqb c cr && Ascii.eqb d lf then "<br/>" +:+ crlf +:+ html_breaks s'' else String c (html_breaks s')
           | EmptyString => String c ""
           end
  end.

Lemma html_breaks_plain t : Index lf t = None -> html_breaks t = t.
Proof.
  induction t as [|c t IH]; [done|]. intros Ht. apply no_lf_head in Ht as [Hc Ht]. cbn [html_breaks]. rewrite Hc. destruct t as [|d t]; [done|].
  rewrite IH by done. apply no_lf_head in Ht as [Hd _]. by rewrite Hd, andb_false_r.
Qed.

(** What is put before and after the break on a line. *)
Definition break_line (t s : string) : string :=
  if String.eqb (str_take 1 (str_drop (String.length t - 1) t)) (String cr "")
  then str_take (String.length t - 1) t +:+ "<br/>" +:+ crlf +:+ s else t +:+ "<br/>" +:+ String lf s.

Lemma break_line_cons c t s : t <> "" -> break_line (String c t) s = String c (break_line t s).
Proof.
  intros Ht. unfold break_line. destruct t as [|d t]; [done|]. cbn [String.length]. rewrite !Nat.sub_succ, !Nat.sub_0_r. cbn [str_drop].
  by destruct (String.eqb (str_take 1 (str_drop (String.length t) (String d t))) _).
Qed.

Lemma html_breaks_line t s : Index lf t = None -> html_breaks (t +:+ String lf s) = break_line t (html_breaks s).
Proof.
  induction t as [|c t IH]; [done|]. intros Ht. apply no_lf_head in Ht as [Hc Ht].
  change (String c t +:+ String lf s) with (String c (t +:+ String lf s)). cbn [html_breaks]. rewrite Hc.
  destruct t as [|d t].
  - change ((if Ascii.eqb c cr && true then "<br/>" +:+ crlf +:+ html_breaks s else String c ("<br/>" +:+ String lf (html_breaks s))) = break_line (String c "") (html_breaks s)).
    rewrite andb_true_r. unfold break_line. simpl.
    destruct (Ascii.eqb c cr) eqn:Hcr; [apply Ascii.eqb_eq in Hcr as ->; done|]. done.
  - change (String d t +:+ String lf s) with (String d (t +:+ String lf s)) in *. cbn iota. destruct (no_lf_head d t Ht) as [Hd _].
    rewrite Hd, andb_false_r, IH by done. by rewrite (break_line_cons c (String d t)) by done.
Qed.

Lemma Index_split s n : Index lf s = Some n -> exists t u, s = t +:+ String lf u /\ Index lf t = None /\ String.length t = n.
Proof.
  revert n. induction s as [|c s IH]; intros n; [done|]. cbn [Index]. destruct (Ascii.eqb c lf) eqn:Hc.
  - intros [= <-]. apply Ascii.eqb_eq in Hc as ->. by exists "", s.
  - intros (k & Hk & ->)%fmap_Some. destruct (IH k Hk) as (t & u & -> & Ht & Hl). exists (String c t), u. split; [done|]. cbn [Index]. rewrite Hc, Ht.
    split; [done|]. simpl. by rewrite Hl.
Qed.

Lemma str_take_1_last t u : t <> "" -> str_take 1 (str_drop (String.length t - 1) (t +:+ u)) = str_take 1 (str_drop (String.length t - 1) t).
Proof.
  induction t as [|c t IH]; [done|]. intros _. destruct t as [|d t]; [done|]. cbn [String.length]. rewrite !Nat.sub_succ, !Nat.sub_0_r.
  change (String c (String d t) +:+ u) with (String c (String d t +:+ u)). cbn [str_drop]. cbn [String.length] in IH.
  rewrite Nat.sub_succ, Nat.sub_0_r in IH. by apply IH.
Qed.

Lemma break_lines_spec fuel s : (String.length s < fuel)%nat -> break_lines fuel s = Some (html_breaks s).
Proof.
  revert s. induction fuel as [|fuel IH]; intros s Hl; [lia|]. cbn [break_lines]. destruct (Index lf s) as [n|] eqn:Hi; [|by rewrite html_breaks_plain].
  destruct (Index_split s n Hi) as (t & u & -> & Ht & <-). rewrite str_app_length in Hl. simpl in Hl.
  assert (Hdrop : forall v, str_drop (S (String.length t)) (t +:+ String lf v) = v) by (intros v; clear; induction t; [done|]; exact IHt).
  assert (Htake : str_take (S (String.length t)) (t +:+ String lf u) = t +:+ String lf "") by (clear; induction t as [|c t IHt]; [done|]; exact (f_equal (String c) IHt)).
  rewrite Hdrop, IH, Htake, html_breaks_line by (done || lia). cbn [mbind option_bind]. f_equal. unfold break_line.
  destruct t as [|c t]; [done|]. rewrite str_take_1_last by done. change (0 <? String.length (String c t))%nat with true. cbn [andb].
  destruct (String.eqb_spec (str_take 1 (str_drop (String.length (String c t) - 1) (String c t))) (String cr "")) as [Hcr|Hcr].
  - rewrite str_take_app by lia. do 2 f_equal. change crlf with (String cr (String lf "")).
    assert (Hlast : str_drop (String.length (String c t) - 1) (String c t +:+ String lf "") = String cr (String lf "")); [|by rewrite Hlast].
    clear -Hcr. cbn [String.length] in *. rewrite Nat.sub_succ, Nat.sub_0_r in *. revert c Hcr. induction t as [|d t IHt]; intros c Hcr; [by injection Hcr as ->|].
    exact (IHt d Hcr).
  - rewrite str_take_app, str_take_all, str_drop_app by lia. done.
Qed.

(** The loop that puts line breaks into a text ends, with a break before every end of a line and the
    rest of the text unchanged. *)
Theorem patchNewLineWithHTMLBreaks_spec input : patchNewLineWithHTMLBreaks input = Some (html_breaks input).
Proof. unfold patchNewLineWithHTMLBreaks. apply break_lines_spec. lia. Qed.

(** ** Jobs *)

(** [uuid.NewString], by the number of identifiers made before. *)
Class NewUUID : Type := new_uuid : nat -> string.

Section patch.
Context {H : Type} `{HL : HeaderLib H} `{ML : MimeLib} `{NU : NewUUID}.
Notation Part := (Part H).

Definition getImageContentDisposition (curPart : Part) : result err string :=
  match ContentDisposition curPart with
  | Ok (disposition, _) => Ok disposition
  | Err e =>
      if negb (String.eqb (h_Get (Header curPart) "Content-Disposition") "") then Err e
      else if HasContentID curPart then Ok "inline" else Ok "attachment"
  end.

(** Children are pointed to by their place among the children of the root before anything is moved. *)
Inductive inlinePatchJob : Type :=
| inlinePatchBodyOnly (part : nat) (contentTypeMap : gmap string string)
| inlinePatchBodyWithInlineImage (textPart : nat) (textContentTypeMap : gmap string string) (imagePart : nat)
| inlinePatchInlineImageOnly (part partIndex : nat).

(** The variables of the loop: the jobs, whether one is needed, and the child before. *)
Record plan : Type := mkPlan {
  jobs : list (option inlinePatchJob); transformationNeeded : bool; prevPart : nat; prevContentType : string; prevContentTypeMap : gmap string string
}.

Definition plan_child (i : nat) (curPart : Part) (st : plan) : result err plan :=
  match ContentType curPart with
  | Err e => Err (ErrWrap ("failed to get content type for for child " +:+ pretty i) e)
  | Ok (contentType, contentTypeMap) =>
      let next (jobs : list (option inlinePatchJob)) (needed : bool) := Ok (mkPlan jobs needed i contentType contentTypeMap) in
      if String.eqb contentType TextPlain then
        next (<[i := Some (inlinePatchBodyOnly i contentTypeMap)]> (jobs st)) (transformationNeeded st)
      else if has_prefix "image/" contentType then
        match getImageContentDisposition curPart with
        | Err e => Err (ErrWrap ("failed to get content disposition for child " +:+ pretty i) e)
        | Ok disposition =>
            if String.eqb disposition "inline" && negb (HasContentID curPart) then
              if String.eqb (prevContentType st) TextPlain
              then next (<[(i - 1)%nat := Some (inlinePatchBodyWithInlineImage (prevPart st) (prevContentTypeMap st) i)]> (jobs st)) true
              else next (<[i := Some (inlinePatchInlineImageOnly i i)]> (jobs st)) true
            else next (jobs st) (transformationNeeded st)
        end
      else next (jobs st) (transformationNeeded st)
  end.
Fixpoint plan_children (i : nat) (cs : list Part) (st : plan) : result err plan :=
  match cs with [] => Ok st | c :: cs => st ← plan_child i c st; plan_children (S i) cs st end.

(** ** Patching *)

Inductive slot : Type := Old (i : nat) | New (p : Part) | Wrapped (h : H) (b : string) (l : list slot).
Record patch_state : Type := mkPatch { cells : list Part; root_header : H; root_body : string; places : list slot; uuids : nat }.

Fixpoint resolve (cs : list Part) (s : slot) : Part :=
  match s with
  | Old i => default (mkPart h_empty "" []) (cs !! i)
  | New p => p
  | Wrapped h b l => mkPart h b ((fix resolve_all (l : list slot) : list Part := match l with [] => [] | s :: l => resolve cs s :: resolve_all l end) l)
  end.
Definition resolve_root (st : patch_state) : Part := mkPart (root_header st) (root_body st) (resolve (cells st) <$> places st).

(** [InsertChild] and [AddChild] on the places. *)
Definition insert_place (index : nat) (child : Part) (st : patch_state) : option patch_state :=
  let root := mkPart (root_header st) (root_body st) [] in
  if isMultipartMixedOrRelated root then
    if (length (places st) <? index)%nat then None
    else Some (mkPatch (cells st) (root_header st) (root_body st) (take index (places st) ++ New child :: drop index (places st)) (uuids st))
  else Some (mkPatch (cells st) (h_Set "Content-Type" "multipart/mixed" (stripContentHeaders (root_header st))) ""
               [Wrapped (getContentHeaders (root_header st)) (root_body st) (places st); New child] (uuids st)).

Definition on_cell (i : nat) (f : Part -> Part) (st : patch_state) : patch_state :=
  mkPatch (alter f i (cells st)) (root_header st) (root_body st) (places st) (uuids st).
Definition set_html (body : string) (m : gmap string string) (p : Part) : Part := mkPart (SetContentType "text/html" m (Header p)) body (Children p).
Definition set_content_id (id : string) (p : Part) : Part := set_header (h_Set "content-id" id (Header p)) p.
Definition next_uuid (st : patch_state) : patch_state := mkPatch (cells st) (root_header st) (root_body st) (places st) (S (uuids st)).
Definition cell_body (i : nat) (st : patch_state) : string := match cells st !! i with Some p => Body p | None => "" end.

Definition img (contentID : string) : string := "<img src=" +:+ String quote ("cid:" +:+ contentID +:+ String quote "/>").

Definition Patch (job : inlinePatchJob) (st : patch_state) : option patch_state :=
  match job with
  | inlinePatchBodyOnly part m =>
      text ← patchNewLineWithHTMLBreaks (cell_body part st);
      Some (on_cell part (set_html ("<html><body><p>" +:+ text +:+ "</p></body></html>") m) st)
  | inlinePatchBodyWithInlineImage textPart m imagePart =>
      let contentID := new_uuid (uuids st) in
      text ← patchNewLineWithHTMLBreaks (cell_body textPart st);
      Some (on_cell imagePart (set_content_id contentID)
              (on_cell textPart (set_html ("<html><body><p>" +:+ text +:+ "</p>" +:+ img contentID +:+ "</body></html>") m) (next_uuid st)))
  | inlinePatchInlineImageOnly part partIndex =>
      let contentID := new_uuid (uuids st) in
      let textPart := mkPart (SetContentType "text/html" (<["charset" := "UTF-8"]> ∅) h_empty) ("<html><body>" +:+ img contentID +:+ "</body></html>") [] in
      insert_place partIndex textPart (on_cell part (set_content_id contentID) (next_uuid st))
  end.
Fixpoint patch_all (jobs : list (option inlinePatchJob)) (st : patch_state) : option patch_state :=
  match jobs with
  | [] => Some st
  | Some job :: jobs => st ← Patch job st; patch_all jobs st
  | None :: jobs => patch_all jobs st
  end.

Definition first_plan (n : nat) : plan := mkPlan (replicate n None) false 0 "" ∅.
Definition first_state (root : Part) : patch_state :=
  mkPatch (Children root) (Header root) (Body root) (Old <$> seq 0 (length (Children root))) 0.

(** [None]: a panic, which the caller turns into an error. *)
Definition patchInlineImages (root : Part) : option (result err Part) :=
  let children := Children root in
  if (length children <? 2)%nat then Some (Ok root)
  else match plan_children 0 children (first_plan (length children)) with
       | Err e => Some (Err e)
       | Ok st =>
           if negb (transformationNeeded st) then Some (Ok root)
           else (fun st => Ok (resolve_root st)) <$> patch_all (jobs st) (first_state root)
       end.

End patch.
Arguments Old {H} _.
Arguments New {H} _.
Arguments Wrapped {H} _ _ _.
Arguments mkPatch {H} _ _ _ _ _.
Arguments cells {H} _.
Arguments root_header {H} _.
Arguments root_body {H} _.
Arguments places {H} _.
Arguments uuids {H} _.

(** ** The plan *)

Section plans.
Context {H : Type} `{HL : HeaderLib H} `{ML : MimeLib}.
Notation Part := (Part H).

Definition type_of (p : Part) : string := match ContentType p with Ok (t, _) => t | Err _ => "" end.
Definition type_params (p : Part) : gmap string string := match ContentType p with Ok (_, m) => m | Err _ => ∅ end.
Definition is_plain (p : Part) : bool := String.eqb (type_of p) TextPlain.
(** An image to show in the text that nothing can refer to. *)
Definition is_target (p : Part) : bool :=
  negb (is_plain p) && has_prefix "image/" (type_of p) &&
  match getImageContentDisposition p with Ok d => String.eqb d "inline" && negb (HasContentID p) | Err _ => false end.
Definition at_place (f : Part -> bool) (o : option Part) : bool := match o with Some p => f p | None => false end.

(** The job at a place. *)
Definition job_at (cs : list Part) (k : nat) : option inlinePatchJob :=
  match cs !! k with
  | None => None
  | Some p =>
      if is_plain p then
        Some (if at_place is_target (cs !! S k) then inlinePatchBodyWithInlineImage k (type_params p) (S k) else inlinePatchBodyOnly k (type_params p))
      else if is_target p then
        match k with
        | S k' => if at_place is_plain (cs !! k') then None else Some (inlinePatchInlineImageOnly k k)
        | O => Some (inlinePatchInlineImageOnly k k)
        end
      else None
  end.

Lemma plain_not_target p : is_plain p = true -> is_target p = false.
Proof. unfold is_target. by intros ->. Qed.

(** The variables after the children [pre] of [n]. *)
Definition planned (n : nat) (pre : list Part) (st : plan) : Prop :=
  length (jobs st) = n /\ (forall k, (k < n)%nat -> jobs st !! k = Some (job_at pre k)) /\
  transformationNeeded st = existsb is_target pre /\
  match last pre with
  | None => prevContentType st = ""
  | Some p => prevPart st = (length pre - 1)%nat /\ prevContentType st = type_of p /\ prevContentTypeMap st = type_params p
  end.

Lemma job_at_other pre c k : (k <> length pre)%nat -> (S k = length pre -> at_place is_plain (pre !! k) && is_target c = false) ->
  job_at (pre ++ [c]) k = job_at pre k.
Proof.
  intros Hk Hlast. unfold job_at. destruct (decide (k < length pre)%nat) as [Hlt|Hge].
  - rewrite (lookup_app_l pre [c] k) by done. destruct (pre !! k) as [p|] eqn:Hp; [|done]. simpl in Hlast.
    assert (Hprev : forall k', k = S k' -> (pre ++ [c]) !! k' = pre !! k') by (intros k' ->; apply lookup_app_l; lia).
    destruct (is_plain p) eqn:Hpl.
    + destruct (decide (S k < length pre)%nat) as [Hs|Hs]; [by rewrite lookup_app_l|]. assert (Hn : S k = length pre) by lia.
      rewrite (lookup_ge_None_2 pre (S k)) by lia. rewrite lookup_app_r, Hn, Nat.sub_diag by lia. simpl. simpl in Hlast. by rewrite (Hlast Hn).
    + destruct (is_target p); [|done]. destruct k as [|k']; [done|]. by rewrite Hprev.
  - rewrite (lookup_ge_None_2 (pre ++ [c])) by (rewrite length_app; simpl; lia). by rewrite (lookup_ge_None_2 pre) by lia.
Qed.

Lemma job_at_end pre c : job_at (pre ++ [c]) (length pre) =
  if is_plain c then Some (inlinePatchBodyOnly (length pre) (type_params c))
  else if is_target c then if at_place is_plain (last pre) then None else Some (inlinePatchInlineImageOnly (length pre) (length pre)) else None.
Proof.
  unfold job_at. rewrite list_lookup_middle by done. rewrite (lookup_ge_None_2 _ (S (length pre))) by (rewrite length_app; simpl; lia). simpl.
  destruct (is_plain c); [done|]. destruct (is_target c); [|done]. rewrite last_lookup. destruct (length pre) as [|k'] eqn:Hl; [by destruct pre|].
  by rewrite lookup_app_l by lia.
Qed.

Lemma job_at_beyond pre k : (length pre <= k)%nat -> job_at pre k = None.
Proof. intros Hk. unfold job_at. by rewrite lookup_ge_None_2. Qed.

(** The job of a text becomes one with an image. *)
Lemma job_at_text pre p c : last pre = Some p -> is_plain p = true -> is_target c = true ->
  job_at (pre ++ [c]) (length pre - 1) = Some (inlinePatchBodyWithInlineImage (length pre - 1) (type_params p) (length pre)).
Proof.
  intros Hl Hp Hc. assert (Hpos : (0 < length pre)%nat) by (destruct pre; [done|simpl; lia]). rewrite last_lookup in Hl.
  replace (pred (length pre)) with (length pre - 1)%nat in Hl by lia. unfold job_at. rewrite lookup_app_l, Hl, Hp by lia.
  replace (S (length pre - 1)) with (length pre) by lia. rewrite list_lookup_middle by done. simpl. by rewrite Hc.
Qed.

Lemma planned_next n pre c js need :
  length js = n -> (forall k, (k < n)%nat -> js !! k = Some (job_at (pre ++ [c]) k)) -> need = existsb is_target pre || is_target c ->
  planned n (pre ++ [c]) (mkPlan js need (length pre) (type_of c) (type_params c)).
Proof.
  intros H1 H2 ->. split; [done|]. split; [done|]. split; [rewrite existsb_app; simpl; by rewrite orb_false_r|].
  rewrite last_snoc, length_app. simpl. split; [lia|done].
Qed.

(** A child that needs no patch. *)
Lemma planned_skip n pre c st : planned n pre st -> is_plain c = false -> is_target c = false ->
  planned n (pre ++ [c]) (mkPlan (jobs st) (transformationNeeded st) (length pre) (type_of c) (type_params c)).
Proof.
  intros Hst Hp Hc. destruct Hst as (Hlen & Hjobs & Hneed & _).
  apply (planned_next n pre c); [done| |by rewrite Hneed, Hc, orb_false_r]. intros k Hk. rewrite Hjobs by done. f_equal.
  destruct (decide (k = length pre)) as [->|Hne]; [|rewrite job_at_other; [done|done|by rewrite Hc, andb_false_r]].
  by rewrite job_at_end, Hp, Hc, job_at_beyond.
Qed.

Lemma planned_text n pre c st : planned n pre st -> (length pre < n)%nat -> is_plain c = true ->
  planned n (pre ++ [c]) (mkPlan (<[length pre := Some (inlinePatchBodyOnly (length pre) (type_params c))]> (jobs st)) (transformationNeeded st) (length pre) (type_of c) (type_params c)).
Proof.
  intros Hst Hn Hp. assert (Hc := plain_not_target c Hp). destruct Hst as (Hlen & Hjobs & Hneed & _).
  apply (planned_next n pre c); [by rewrite length_insert| |by rewrite Hneed, Hc, orb_false_r].
  intros k Hk. destruct (decide (k = length pre)) as [->|Hne]; [rewrite list_lookup_insert_eq by lia; by rewrite job_at_end, Hp|].
  rewrite list_lookup_insert_ne, job_at_other; [by apply Hjobs|done|by rewrite Hc, andb_false_r|done].
Qed.

Lemma planned_image n pre c st : planned n pre st -> (length pre < n)%nat -> is_target c = true -> at_place is_plain (last pre) = false ->
  planned n (pre ++ [c]) (mkPlan (<[length pre := Some (inlinePatchInlineImageOnly (length pre) (length pre))]> (jobs st)) true (length pre) (type_of c) (type_params c)).
Proof.
  intros Hst Hn Hc Hl. assert (Hp : is_plain c = false) by (destruct (is_plain c) eqn:E; [by rewrite plain_not_target in Hc|done]).
  destruct Hst as (Hlen & Hjobs & Hneed & _). apply (planned_next n pre c); [by rewrite length_insert| |by rewrite Hc, orb_true_r].
  intros k Hk. destruct (decide (k = length pre)) as [->|Hne]; [rewrite list_lookup_insert_eq by lia; by rewrite job_at_end, Hp, Hc, Hl|].
  rewrite list_lookup_insert_ne, job_at_other; [by apply Hjobs|done| |done]. intros HS. rewrite last_lookup, <- HS in Hl. simpl in Hl. by rewrite Hl.
Qed.

Lemma planned_text_image n pre p c st : planned n pre st -> (length pre < n)%nat -> is_target c = true -> last pre = Some p -> is_plain p = true ->
  planned n (pre ++ [c]) (mkPlan (<[(length pre - 1)%nat := Some (inlinePatchBodyWithInlineImage (length pre - 1) (type_params p) (length pre))]> (jobs st)) true
    (length pre) (type_of c) (type_params c)).
Proof.
  intros Hst Hn Hc Hl Hpl. assert (Hp : is_plain c = false) by (destruct (is_plain c) eqn:E; [by rewrite plain_not_target in Hc|done]).
  destruct Hst as (Hlen & Hjobs & Hneed & _). assert (Hpos : (0 < length pre)%nat) by (destruct pre; [done|simpl; lia]).
  apply (planned_next n pre c); [by rewrite length_insert| |by rewrite Hc, orb_true_r]. intros k Hk.
  destruct (decide (k = (length pre - 1)%nat)) as [->|Hne]; [rewrite list_lookup_insert_eq by lia; by rewrite (job_at_text pre p c Hl)|].
  rewrite list_lookup_insert_ne, Hjobs by done. f_equal. destruct (decide (k = length pre)) as [->|Hne'].
  - rewrite job_at_end, Hp, Hc, Hl. simpl. by rewrite Hpl, job_at_beyond.
  - rewrite job_at_other; [done|done|lia].
Qed.

Lemma plan_child_planned n pre c st st' : planned n pre st -> (length pre < n)%nat -> plan_child (length pre) c st = Ok st' -> planned n (pre ++ [c]) st'.
Proof.
  intros Hst Hn. unfold plan_child. destruct (ContentType c) as [[t m]|] eqn:Ht; [|done].
  assert (Htype : t = type_of c) by (unfold type_of; by rewrite Ht). assert (Hmap : m = type_params c) by (unfold type_params; by rewrite Ht). subst t m.
  fold (is_plain c). assert (Htar : is_plain c = false -> is_target c = has_prefix "image/" (type_of c) &&
    match getImageContentDisposition c with Ok d => String.eqb d "inline" && negb (HasContentID c) | Err _ => false end) by (unfold is_target; by intros ->).
  destruct (is_plain c) eqn:Hp; [intros [= <-]; by apply planned_text|]. specialize (Htar eq_refl).
  destruct (has_prefix "image/" (type_of c)); [|intros [= <-]; by apply planned_skip].
  destruct (getImageContentDisposition c) as [d|]; [|done]. simpl in Htar.
  destruct (String.eqb d "inline" && negb (HasContentID c)); [|intros [= <-]; by apply planned_skip].
  assert (Hprev := Hst). destruct Hprev as (_ & _ & _ & Hprev). destruct (last pre) as [p|] eqn:Hl.
  - destruct Hprev as (Hpp & Hpt & Hpm). rewrite Hpt, Hpp, Hpm. fold (is_plain p).
    destruct (is_plain p) eqn:Hpl; intros [= <-]; [by apply planned_text_image|]. apply planned_image; [done..|]. by rewrite Hl.
  - rewrite Hprev. intros [= <-]. apply planned_image; [done..|]. by rewrite Hl.
Qed.

Lemma plan_children_planned n cs pre st st' : planned n pre st -> (length pre + length cs <= n)%nat ->
  plan_children (length pre) cs st = Ok st' -> planned n (pre ++ cs) st'.
Proof.
  revert pre st. induction cs as [|c cs IH]; intros pre st Hst Hn; cbn [plan_children]; [intros [= <-]; by rewrite app_nil_r|].
  destruct (plan_child (length pre) c st) as [st1|] eqn:Hc; [|done]. simpl in Hn. intros Hrest.
  rewrite (cons_middle c pre cs), app_assoc. apply (IH (pre ++ [c]) st1); [apply (plan_child_planned n pre c st st1); (done || lia)|rewrite length_app; simpl; lia|].
  rewrite length_app, Nat.add_comm. exact Hrest.
Qed.

Lemma plan_all cs st : plan_children 0 cs (first_plan (length cs)) = Ok st ->
  jobs st = job_at cs <$> seq 0 (length cs) /\ transformationNeeded st = existsb is_target cs.
Proof.
  intros Hp. assert (Hst : planned (length cs) ([] ++ cs) st).
  { apply (plan_children_planned (length cs) cs [] (first_plan (length cs))); [|done|exact Hp]. unfold planned, first_plan. simpl.
    split; [apply length_replicate|]. split; [|done]. intros k Hk. by rewrite lookup_replicate_2. }
  destruct Hst as (Hlen & Hjobs & Hneed & _). split; [|done]. apply list_eq. intros k. rewrite list_lookup_fmap.
  destruct (decide (k < length cs)%nat) as [Hk|Hk].
  - rewrite Hjobs by done. by rewrite lookup_seq_lt.
  - rewrite lookup_ge_None_2 by lia. by rewrite lookup_seq_ge by lia.
Qed.

End plans.

(** ** Patching keeps the children and shows the images *)

Section patched.
Context {H : Type} `{HL : HeaderLib H} `{ML : MimeLib} `{NU : NewUUID}.
Notation Part := (Part H).

(** The slots at the places, those of a wrapped part included. *)
Fixpoint flat_slot (s : slot (H := H)) : list slot :=
  match s with
  | Wrapped _ _ l => (fix flat_slots (l : list slot) : list slot := match l with [] => [] | s :: l => flat_slot s ++ flat_slots l end) l
  | s => [s]
  end.
Definition flat (l : list (slot (H := H))) : list slot := l ≫= flat_slot.

Section slot_ind.
Variable P : slot (H := H) -> Prop.
Hypotheses (Hold : forall i, P (Old i)) (Hnew : forall p, P (New p)) (Hwrap : forall h b l, Forall P l -> P (Wrapped h b l)).
Fixpoint slot_ind' (s : slot (H := H)) : P s :=
  match s with
  | Old i => Hold i
  | New p => Hnew p
  | Wrapped h b l => Hwrap h b l ((fix slots_ind (l : list slot) : Forall P l :=
      match l with [] => List.Forall_nil P | s :: l => @List.Forall_cons _ P s l (slot_ind' s) (slots_ind l) end) l)
  end.
End slot_ind.

Lemma resolve_wrapped cs h b l : resolve cs (Wrapped h b l) = mkPart h b (resolve cs <$> l).
Proof. reflexivity. Qed.
Lemma flat_wrapped h b l : flat_slot (Wrapped h b l) = flat l.
Proof. reflexivity. Qed.

Lemma flat_resolve_slot cs s s0 : s ∈ flat_slot s0 -> resolve cs s ∈ preorder (resolve cs s0).
Proof.
  induction s0 as [i|p|h b l IH] using slot_ind'; [intros ->%list_elem_of_singleton; apply preorder_self..|].
  rewrite flat_wrapped, resolve_wrapped, preorder_eq. intros (s1 & Hs1 & Hin)%list_elem_of_bind. right. apply list_elem_of_bind.
  exists (resolve cs s1). split; [|by apply list_elem_of_fmap_2]. rewrite Forall_forall in IH. by apply IH.
Qed.

Lemma flat_resolve st s : s ∈ flat (places st) -> resolve (cells st) s ∈ preorder (resolve_root st).
Proof. exact (flat_resolve_slot (cells st) s (Wrapped (root_header st) (root_body st) (places st))). Qed.

(** Inserting is inserting into the tree. *)
Lemma insert_place_InsertChild index child st :
  resolve_root <$> insert_place index child st = InsertChild index child (resolve_root st).
Proof.
  unfold insert_place, InsertChild. change (isMultipartMixedOrRelated (resolve_root st)) with (isMultipartMixedOrRelated (mkPart (root_header st) (root_body st) [])).
  destruct (isMultipartMixedOrRelated (mkPart (root_header st) (root_body st) [])) eqn:Hm; [|cbn [fmap option_fmap option_map]].
  - change (Children (resolve_root st)) with (resolve (cells st) <$> places st). rewrite length_fmap. destruct (_ <? _)%nat; [done|].
    cbn [fmap option_fmap option_map]. unfold resolve_root. simpl. by rewrite fmap_app, fmap_cons, fmap_take, fmap_drop.
  - unfold AddChild. assert (Hn : isMultipartMixed (resolve_root st) = false).
    { unfold isMultipartMixed, isMultipartMixedOrRelated, type_is in *. change (ContentType (resolve_root st)) with (ContentType (mkPart (root_header st) (root_body st) [])).
      destruct (ContentType (mkPart (root_header st) (root_body st) [])) as [[t m]|]; [|done]. unfold Contains in *.
      apply bool_decide_eq_false in Hm. apply bool_decide_eq_false. set_solver. }
    by rewrite Hn.
Qed.

Lemma insert_place_flat index child st st' : insert_place index child st = Some st' ->
  cells st' = cells st /\ New child ∈ flat (places st') /\ forall s, s ∈ flat (places st) -> s ∈ flat (places st').
Proof.
  unfold insert_place. destruct (isMultipartMixedOrRelated _).
  - destruct (_ <? _)%nat; [done|]. intros [= <-]. cbn [cells places]. split; [done|]. unfold flat. rewrite bind_app, bind_cons.
    split; [rewrite !elem_of_app; right; left; by apply list_elem_of_singleton|].
    intros s. rewrite <- (take_drop index (places st)) at 1. rewrite bind_app, !elem_of_app. naive_solver.
  - intros [= <-]. cbn [cells places]. split; [done|]. unfold flat at 1 3. rewrite !bind_cons, flat_wrapped. split; [rewrite !elem_of_app; right; left; by apply list_elem_of_singleton|].
    intros s Hs. rewrite elem_of_app. by left.
Qed.

Variable cs : list Part.

(** The job that patches a child. *)
Definition owner (k : nat) : nat :=
  match k with S k' => if at_place is_target (cs !! k) && at_place is_plain (cs !! k') then k' else k | O => k end.

(** A text that refers to an identifier, in a new part or in a child whose job is done. *)
Definition referred (j : nat) (id : string) (st : patch_state) : Prop :=
  (exists t, New t ∈ flat (places st) /\ str_contains (Body t) (img id) = true) \/
  (exists i t, (owner i < j)%nat /\ cells st !! i = Some t /\ str_contains (Body t) (img id) = true).

Definition patched_cell (j : nat) (p q : Part) (st : patch_state) : Prop :=
  if is_plain p then Children q = Children p /\ exists tail, Body q = "<html><body><p>" +:+ html_breaks (Body p) +:+ "</p>" +:+ tail
  else if is_target p then exists id, q = set_content_id id p /\ referred j id st
  else q = p.

Definition patch_inv (j : nat) (st : patch_state) : Prop :=
  (forall k, (k < length cs)%nat -> Old k ∈ flat (places st)) /\
  (forall k p, cs !! k = Some p -> exists q, cells st !! k = Some q /\ if (owner k <? j)%nat then patched_cell j p q st else q = p).

Lemma patch_inv_step j st st' :
  patch_inv j st -> (forall k, owner k <> j -> cells st' !! k = cells st !! k) -> (forall s, s ∈ flat (places st) -> s ∈ flat (places st')) ->
  (forall k p, cs !! k = Some p -> owner k = j -> exists q, cells st' !! k = Some q /\ patched_cell (S j) p q st') ->
  patch_inv (S j) st'.
Proof.
  intros [Hold Hcells] Hsame Hflat Hnew. split; [intros k Hk; by apply Hflat, Hold|]. intros k p Hp.
  destruct (decide (owner k = j)) as [Hj|Hne].
  - destruct (Hnew k p Hp Hj) as (q & Hq & Hpq). exists q. split; [done|]. by rewrite (proj2 (Nat.ltb_lt _ _)) by lia.
  - destruct (Hcells k p Hp) as (q & Hq & Hpq). exists q. rewrite Hsame by done. split; [done|].
    destruct (owner k <? j)%nat eqn:Hlt; [apply Nat.ltb_lt in Hlt; rewrite (proj2 (Nat.ltb_lt _ _)) by lia|apply Nat.ltb_ge in Hlt; rewrite (proj2 (Nat.ltb_ge _ _)) by lia; done].
    unfold patched_cell in *. destruct (is_plain p); [done|]. destruct (is_target p); [|done]. destruct Hpq as (id & -> & Href). exists id. split; [done|].
    destruct Href as [(t & Ht & Hc)|(i & t & Hi & Ht & Hc)]; [left; eauto|right]. exists i, t. split; [lia|]. split; [|done]. rewrite Hsame by lia. done.
Qed.

Lemma owner_cases k j : owner k = j -> k = j \/ (k = S j /\ at_place is_target (cs !! S j) = true /\ at_place is_plain (cs !! j) = true).
Proof.
  unfold owner. destruct k as [|k']; [by left|]. destruct (_ && _) eqn:Hc; [|by left]. intros <-. right. by apply andb_true_iff in Hc.
Qed.

Lemma owner_not_image j : at_place is_target (cs !! j) = false -> owner j = j.
Proof. unfold owner. destruct j as [|j]; [done|]. by intros ->. Qed.

Lemma owner_next j : at_place is_target (cs !! S j) = true -> at_place is_plain (cs !! j) = true -> owner (S j) = j.
Proof. unfold owner. by intros -> ->. Qed.

(** Nothing is to be done at a place. *)
Lemma patch_nothing j st : patch_inv j st -> job_at cs j = None -> patch_inv (S j) st.
Proof.
  intros Hinv Hjob. apply (patch_inv_step j st st Hinv); [done|done|]. intros k p Hp Hk. destruct (proj2 Hinv k p Hp) as (q & Hq & Hpq).
  rewrite Hk, Nat.ltb_irrefl in Hpq. exists q. split; [done|]. subst q. unfold job_at in Hjob. unfold patched_cell.
  destruct (owner_cases k j Hk) as [->|(-> & _ & Hpl)]; [|destruct (cs !! j); [|done]; simpl in Hpl; by rewrite Hpl in Hjob].
  rewrite Hp in Hjob. destruct (is_plain p) eqn:Hpl; [done|]. destruct (is_target p) eqn:Ht; [|done]. destruct j as [|j']; [done|].
  destruct (at_place is_plain (cs !! j')) eqn:Hb; [|done]. unfold owner in Hk. rewrite Hp in Hk. simpl in Hk. rewrite Ht, Hb in Hk. simpl in Hk. lia.
Qed.

Lemma cell_body_at j st p : patch_inv j st -> cs !! j = Some p -> owner j = j -> cells st !! j = Some p.
Proof. intros [_ Hc] Hp Ho. destruct (Hc j p Hp) as (q & -> & Hq). rewrite Ho, Nat.ltb_irrefl in Hq. by subst q. Qed.

(** A text alone. *)
Lemma patch_text j st st' p : patch_inv j st -> cs !! j = Some p -> is_plain p = true -> at_place is_target (cs !! S j) = false ->
  Patch (inlinePatchBodyOnly j (type_params p)) st = Some st' -> patch_inv (S j) st'.
Proof.
  intros Hinv Hp Hpl Hnext. assert (Ho : owner j = j) by (apply owner_not_image; rewrite Hp; by apply plain_not_target).
  assert (Hc := cell_body_at j st p Hinv Hp Ho). cbn [Patch]. unfold cell_body. rewrite Hc, patchNewLineWithHTMLBreaks_spec. cbn [mbind option_bind]. intros [= <-].
  apply (patch_inv_step j st _ Hinv); cbn [cells places on_cell].
  - intros k Hk. apply list_lookup_alter_ne. intros ->. by rewrite Ho in Hk.
  - done.
  - intros k p' Hp' Hk. destruct (owner_cases k j Hk) as [->|(-> & Ht & _)]; [|by rewrite Hnext in Ht].
    rewrite Hp in Hp'. injection Hp' as <-. rewrite list_lookup_alter_eq, Hc. eexists. split; [done|]. unfold patched_cell. rewrite Hpl. split; [done|].
    by exists "</body></html>".
Qed.

(** A text before an image. *)
Lemma patch_text_image j st st' p p' : patch_inv j st -> cs !! j = Some p -> is_plain p = true -> cs !! S j = Some p' -> is_target p' = true ->
  Patch (inlinePatchBodyWithInlineImage j (type_params p) (S j)) st = Some st' -> patch_inv (S j) st'.
Proof.
  intros Hinv Hp Hpl Hp' Ht. assert (Ho : owner j = j) by (apply owner_not_image; rewrite Hp; by apply plain_not_target).
  assert (Ho' : owner (S j) = j) by (apply owner_next; [by rewrite Hp'|by rewrite Hp]).
  assert (Hc := cell_body_at j st p Hinv Hp Ho). destruct (proj2 Hinv (S j) p' Hp') as (q' & Hq' & Heq). rewrite Ho', Nat.ltb_irrefl in Heq. subst q'.
  cbn [Patch]. unfold cell_body. rewrite Hc, patchNewLineWithHTMLBreaks_spec. cbn [mbind option_bind]. intros [= <-].
  set (id := new_uuid (uuids st)). assert (Hnp : is_plain p' = false) by (destruct (is_plain p') eqn:E; [by rewrite plain_not_target in Ht|done]).
  apply (patch_inv_step j st _ Hinv); cbn [cells places on_cell next_uuid].
  - intros k Hk. rewrite !list_lookup_alter_ne; [done|intros <-; congruence|intros <-; congruence].
  - done.
  - intros k r Hr Hk. destruct (owner_cases k j Hk) as [->|(-> & _ & _)].
    + rewrite Hp in Hr. injection Hr as <-. rewrite list_lookup_alter_ne, list_lookup_alter_eq, Hc by lia. eexists. split; [done|].
      unfold patched_cell. rewrite Hpl. split; [done|]. by exists (img id +:+ "</body></html>").
    + rewrite Hp' in Hr. injection Hr as <-. rewrite list_lookup_alter_eq, list_lookup_alter_ne, Hq' by lia. eexists. split; [done|].
      unfold patched_cell. rewrite Hnp, Ht. exists id. split; [done|]. right. exists j. eexists. split; [lia|].
      cbn [cells on_cell next_uuid]. rewrite list_lookup_alter_ne, list_lookup_alter_eq, Hc by lia. split; [reflexivity|].
      set (b := html_breaks (Body p)). cbn [Body set_html].
      replace ("<html><body><p>" +:+ b +:+ "</p>" +:+ img id +:+ "</body></html>") with (("<html><body><p>" +:+ b +:+ "</p>") +:+ img id +:+ "</body></html>") by by rewrite !str_app_assoc.
      apply str_contains_mid.
Qed.

(** An image alone. *)
Lemma patch_image j st st' p : patch_inv j st -> cs !! j = Some p -> is_target p = true -> owner j = j ->
  Patch (inlinePatchInlineImageOnly j j) st = Some st' -> patch_inv (S j) st'.
Proof.
  intros Hinv Hp Ht Ho. assert (Hc := cell_body_at j st p Hinv Hp Ho). cbn [Patch]. set (id := new_uuid (uuids st)). set (t := mkPart _ _ []). intros Hins.
  assert (Hnp : is_plain p = false) by (destruct (is_plain p) eqn:E; [by rewrite plain_not_target in Ht|done]).
  destruct (insert_place_flat j t _ st' Hins) as (Hcells & Hnew & Hflat). cbn [cells places on_cell next_uuid] in *.
  apply (patch_inv_step j st st' Hinv); rewrite ?Hcells.
  - intros k Hk. apply list_lookup_alter_ne. intros ->. by rewrite Ho in Hk.
  - exact Hflat.
  - intros k r Hr Hk. destruct (owner_cases k j Hk) as [->|(_ & _ & Hpl)]; [|rewrite Hp in Hpl; simpl in Hpl; congruence].
    rewrite Hp in Hr. injection Hr as <-. rewrite list_lookup_alter_eq, Hc. eexists. split; [done|]. unfold patched_cell. rewrite Hnp, Ht.
    exists id. split; [done|]. left. exists t. split; [done|]. apply str_contains_mid.
Qed.

Lemma patch_job j st st' : patch_inv j st -> (match job_at cs j with Some job => Patch job st | None => Some st end) = Some st' -> patch_inv (S j) st'.
Proof.
  intros Hinv. destruct (job_at cs j) as [job|] eqn:Hjob; [|intros [= <-]; by apply patch_nothing].
  unfold job_at in Hjob. destruct (cs !! j) as [p|] eqn:Hp; [|done]. destruct (is_plain p) eqn:Hpl.
  - destruct (at_place is_target (cs !! S j)) eqn:Hnext; injection Hjob as <-; [|by apply patch_text].
    destruct (cs !! S j) as [p'|] eqn:Hp'; [|done]. by apply (patch_text_image j st st' p p').
  - destruct (is_target p) eqn:Ht; [|done].
    assert (Ho : job = inlinePatchInlineImageOnly j j /\ owner j = j).
    { unfold owner. destruct j as [|j']; [by injection Hjob as <-|]. destruct (at_place is_plain (cs !! j')) eqn:Hb; [done|]. injection Hjob as <-.
      rewrite andb_false_r. done. }
    destruct Ho as [-> Ho]. by apply (patch_image j st st' p).
Qed.

Lemma patch_all_inv n j st st' : patch_inv j st -> patch_all (job_at cs <$> seq j n) st = Some st' -> patch_inv (j + n) st'.
Proof.
  revert j st. induction n as [|n IH]; intros j st Hinv; [intros [= <-]; by rewrite Nat.add_0_r|]. cbn [seq fmap list_fmap patch_all].
  rewrite <- Nat.add_succ_comm. destruct (job_at cs j) as [job|] eqn:Hjob.
  - destruct (Patch job st) as [st1|] eqn:Hst1; [|done]. intros Hrest. apply (IH (S j) st1); [|exact Hrest]. apply (patch_job j st st1 Hinv). by rewrite Hjob.
  - intros Hrest. apply (IH (S j) st); [|exact Hrest]. apply (patch_job j st st Hinv). by rewrite Hjob.
Qed.

End patched.

Section results.
Context {H : Type} `{HL : HeaderLib H} `{ML : MimeLib} `{NU : NewUUID}.
Notation Part := (Part H).

(** What becomes of a child in a patched message. *)
Definition child_kept (root' p : Part) : Prop :=
  exists q, q ∈ preorder root' /\
    if is_plain p then Children q = Children p /\ exists tail, Body q = "<html><body><p>" +:+ html_breaks (Body p) +:+ "</p>" +:+ tail
    else if is_target p then exists id, q = set_content_id id p /\ exists t, t ∈ preorder root' /\ str_contains (Body t) (img id) = true
    else q = p.

Lemma first_state_inv (root : Part) : patch_inv (Children root) 0 (first_state root).
Proof.
  split; [|intros k p Hp; by exists p]. intros k Hk. cbn [places first_state]. unfold flat. apply list_elem_of_bind.
  exists (Old k). split; [by apply list_elem_of_singleton|]. apply list_elem_of_fmap_2, elem_of_seq. lia.
Qed.


(** ** When it panics *)

Lemma Patch_places job st : isMultipartMixedOrRelated (mkPart (root_header st) (root_body st) []) = true ->
  match job with inlinePatchInlineImageOnly _ i => (i <= length (places st))%nat | _ => True end ->
  exists st', Patch job st = Some st' /\ root_header st' = root_header st /\ root_body st' = root_body st /\ (length (places st) <= length (places st'))%nat.
Proof.
  intros Hm Hi. destruct job as [k m|k m k'|k i]; cbn [Patch]; rewrite ?patchNewLineWithHTMLBreaks_spec; cbn [mbind option_bind]; [eexists; done..|].
  unfold insert_place. cbn [root_header root_body places on_cell next_uuid]. rewrite Hm, (proj2 (Nat.ltb_ge _ _) Hi). eexists. split; [reflexivity|].
  split; [done|]. split; [done|]. cbn [places]. rewrite length_app. simpl. rewrite length_take, length_drop. lia.
Qed.

Lemma patch_all_total cs n j st : isMultipartMixedOrRelated (mkPart (root_header st) (root_body st) []) = true ->
  (j + n <= length (places st))%nat -> is_Some (patch_all (job_at cs <$> seq j n) st).
Proof.
  revert j st. induction n as [|n IH]; intros j st Hm Hlen; [eexists; reflexivity|]. cbn [seq fmap list_fmap patch_all].
  destruct (job_at cs j) as [job|] eqn:Hjob; [|apply IH; [done|lia]]. destruct (Patch_places job st Hm) as (st1 & -> & Hh & Hb & Hl).
  - destruct job; [done|done|]. unfold job_at in Hjob. destruct (cs !! j) as [p|]; [|done]. destruct (is_plain p); [destruct (at_place _ _); done|].
    destruct (is_target p); [|done]. destruct j as [|j']; [injection Hjob as <- <-; lia|]. destruct (at_place is_plain _); [done|]. injection Hjob as <- <-. lia.
  - cbn [mbind option_bind]. apply IH; [by rewrite Hh, Hb|lia].
Qed.

(** Patching a message of type multipart/mixed or multipart/related never panics. *)
Theorem patch_never_panics (root : Part) : isMultipartMixedOrRelated root = true -> is_Some (patchInlineImages root).
Proof.
  intros Hm. unfold patchInlineImages. destruct (_ <? 2)%nat; [eauto|]. destruct (plan_children 0 _ _) as [pl|] eqn:Hplan; [|eauto].
  apply plan_all in Hplan as [-> _]. destruct (negb _); [eauto|].
  destruct (patch_all_total (Children root) (length (Children root)) 0 (first_state root)) as [st Hst]; [exact Hm| |].
  - cbn [places first_state]. by rewrite length_fmap, length_seq.
  - rewrite Hst. eauto.
Qed.

End results.

(** ** Examples *)

Section examples.
Local Existing Instances list_header simple_mime.
Definition ex_uuid : NewUUID := fun n => "id" +:+ pretty n.
Local Existing Instance ex_uuid.

Definition ex_image : MessageParts.Part (list (string * string)) := mkPart [("Content-Type", "image/png"); ("Content-Disposition", "inline")] "png" [].
Definition ex_mixed : MessageParts.Part (list (string * string)) :=
  mkPart (typed "multipart/mixed") "" [ex_leaf "text/plain" ("a" +:+ crlf +:+ "b"); ex_image; ex_image].

Definition ex_patched : MessageParts.Part (list (string * string)) := match patchInlineImages ex_mixed with Some (Ok root') => root' | _ => ex_mixed end.


Lemma patch_never_panics_witness : is_Some (patchInlineImages ex_mixed).
Proof. apply patch_never_panics. vm_compute. reflexivity. Defined.

(** A message of another type becomes multipart/mixed with the first new part; its children are then
    those two, and inserting before the fourth child of the original message panics. *)
Example second_image_panics :
  patchInlineImages (mkPart (typed "multipart/signed") "" [ex_leaf "text/html" "a"; ex_image; ex_leaf "text/html" "b"; ex_image]) = None.
Proof. vm_compute. reflexivity. Qed.

End examples.
