(* ===== verification/MessageParse.v ===== *)
(** * Reading a message (pkg/message/parser.go)

    From the tree of a message to what the API is given: the fields of the header, the
    attachments and the bodies.

    The libraries that decode words and addresses and convert HTML to text are classes. *)

From stdpp Require Import pretty.
From S2P Require Import Prelude.
From S2P Require Import Strings.
From S2P Require Import UserEvents.
From S2P Require Import MediaTypes.
From S2P Require Import Charsets.
From S2P Require Import MailHeaders.
From S2P Require Import MessageParts.
From S2P Require Import InlineImages.

(** ** Data *)

Record Address : Type := mkAddress { adr_Name : string; adr_Address : string }.

(** A header of an attachment has one value per key. *)
Record Attachment : Type := mkAttachment {
  att_Header : gmap string string; att_Name : string; att_ContentID : string; att_MIMEType : string; att_MIMEParams : gmap string string;
  att_Disposition : string; att_Data : string
}.

Record Message : Type := mkMessage {
  MIMEBody : string; RichBody : string; PlainBody : string; Attachments : list Attachment; MIMEType : string;
  Subject : string; Sender : option Address; ToList : list Address; CCList : list Address; BCCList : list Address; ReplyTos : list Address;
  References : list string; ExternalID : string; InReplyTo : string; XForward : string
}.
Definition zeroMessage : Message := mkMessage "" "" "" [] "" "" None [] [] [] [] [] "" "" "".

(** The text of a field with its words decoded. *)
Inductive field_text : Type := FieldText (s : string) | FieldUnknownCharset | FieldError (e : err).

#[export] Instance err_eq_dec : EqDecision err.
Proof. solve_decision. Defined.

Class ReadLib : Type := {
  field_Text : string -> field_text;
  ParseAddressList : string -> list Address * option err;
  ExtensionsByType : string -> result err (list string);
  html2text : string -> result err string
}.

(** ** Text *)

Definition less : Ascii.ascii := chr 60.
Definition greater : Ascii.ascii := chr 62.
Definition comma : Ascii.ascii := chr 44.

Fixpoint last_index (c : Ascii.ascii) (s : string) : option nat :=
  match s with
  | EmptyString => None
  | String x s' => match last_index c s' with Some i => Some (S i) | None => if Ascii.eqb x c then Some 0%nat else None end
  end.

(** Replacing what the expression with brackets around any text matches by that text, on one line:
    the text between the first opening and the last closing bracket stays, they go. *)
Definition strip_brackets_line (s : string) : string :=
  match Index less s with
  | None => s
  | Some i =>
      let rest := str_drop (S i) s in
      match last_index greater rest with
      | None => s
      | Some j => str_take i s +:+ str_take j rest +:+ str_drop (S j) rest
      end
  end.
Definition strip_brackets (s : string) : string := String.concat (String lf "") (strip_brackets_line <$> Split lf s).

(** [strings.Fields] and [strings.Trim]. *)
Fixpoint Fields (s : string) : list string :=
  match s with
  | EmptyString => []
  | String c s' =>
      if IsSpace c then Fields s'
      else match s' with
           | EmptyString => [String c ""]
           | String d _ => if IsSpace d then String c "" :: Fields s'
                           else match Fields s' with w :: ws => String c w :: ws | [] => [String c ""] end
           end
  end.
Definition in_set (cutset : string) (c : Ascii.ascii) : bool := existsb (Ascii.eqb c) (String.list_ascii_of_string cutset).
Fixpoint trim_left_set (cutset s : string) : string :=
  match s with EmptyString => "" | String c s' => if in_set cutset c then trim_left_set cutset s' else s end.
Fixpoint trim_right_set (cutset s : string) : string :=
  match s with
  | EmptyString => ""
  | String c s' => match trim_right_set cutset s' with EmptyString => if in_set cutset c then "" else String c "" | t => String c t end
  end.
Definition Trim (s cutset : string) : string := trim_right_set cutset (trim_left_set cutset s).

Section parsing.
Context {H : Type} `{HL : HeaderLib H} `{ML : MimeLib} `{RL : ReadLib} {Enc Doc : Type} `{TL : TextLib Enc} `{HT : HtmlLib Doc} `{MR : MapRange} `{NU : NewUUID}
        `{WL : @WriterLib H}.
Notation Part := (Part H).

(** ** The header *)

Definition set_subject (s : string) (m : Message) : Message :=
  mkMessage (MIMEBody m) (RichBody m) (PlainBody m) (Attachments m) (MIMEType m) s (Sender m) (ToList m) (CCList m) (BCCList m) (ReplyTos m) (References m) (ExternalID m) (InReplyTo m) (XForward m).
Definition set_sender (s : option Address) (m : Message) : Message :=
  mkMessage (MIMEBody m) (RichBody m) (PlainBody m) (Attachments m) (MIMEType m) (Subject m) s (ToList m) (CCList m) (BCCList m) (ReplyTos m) (References m) (ExternalID m) (InReplyTo m) (XForward m).
Definition set_lists (to cc bcc reply : list Address) (m : Message) : Message :=
  mkMessage (MIMEBody m) (RichBody m) (PlainBody m) (Attachments m) (MIMEType m) (Subject m) (Sender m) to cc bcc reply (References m) (ExternalID m) (InReplyTo m) (XForward m).
Definition set_ids (refs : list string) (ext reply forward : string) (m : Message) : Message :=
  mkMessage (MIMEBody m) (RichBody m) (PlainBody m) (Attachments m) (MIMEType m) (Subject m) (Sender m) (ToList m) (CCList m) (BCCList m) (ReplyTos m) refs ext reply forward.
Definition set_content (rich plain mime mimeType : string) (atts : list Attachment) (m : Message) : Message :=
  mkMessage mime rich plain atts mimeType (Subject m) (Sender m) (ToList m) (CCList m) (BCCList m) (ReplyTos m) (References m) (ExternalID m) (InReplyTo m) (XForward m).

(** The list of a field; an error is not one when invalid lists are allowed. *)
Definition address_list (allowInvalidAddressLists : bool) (what value : string) : result err (list Address) :=
  let '(l, e) := ParseAddressList value in
  match e with
  | Some e => if negb allowInvalidAddressLists then Err (ErrWrap ("failed to parse " +:+ what) e) else Ok l
  | None => Ok l
  end.

Definition parse_subject (value : string) : result err string :=
  match field_Text value with
  | FieldText s => Ok s
  | _ => match DecodeHeader (Enc := Enc) value with (s, None) => Ok s | (_, Some e) => Err (ErrWrap "failed to parse subject" e) end
  end.

Definition references_of (value : string) : list string :=
  (Fields value) ≫= fun ref => (fun ref => Trim ref "<>") <$> Split comma ref.

Definition header_field (allow : bool) (field : string * string) (m : Message) : result err Message :=
  let '(key, value) := field in
  let key := ToLower key in
  if String.eqb key "subject" then s ← parse_subject value; Ok (set_subject s m)
  else if String.eqb key "from" then
    sender ← address_list allow "from" value; Ok (match sender with a :: _ => set_sender (Some a) m | [] => m end)
  else if String.eqb key "to" then l ← address_list allow "to" value; Ok (set_lists l (CCList m) (BCCList m) (ReplyTos m) m)
  else if String.eqb key "reply-to" then l ← address_list allow "reply-to" value; Ok (set_lists (ToList m) (CCList m) (BCCList m) l m)
  else if String.eqb key "cc" then l ← address_list allow "cc" value; Ok (set_lists (ToList m) l (BCCList m) (ReplyTos m) m)
  else if String.eqb key "bcc" then l ← address_list allow "bcc" value; Ok (set_lists (ToList m) (CCList m) l (ReplyTos m) m)
  else if String.eqb key "message-id" then Ok (set_ids (References m) (strip_brackets value) (InReplyTo m) (XForward m) m)
  else if String.eqb key "in-reply-to" then Ok (set_ids (References m) (ExternalID m) (strip_brackets value) (XForward m) m)
  else if String.eqb key "x-forwarded-message-id" then Ok (set_ids (References m) (ExternalID m) (InReplyTo m) (strip_brackets value) m)
  else if String.eqb key "references" then Ok (set_ids (References m ++ references_of value) (ExternalID m) (InReplyTo m) (XForward m) m)
  else Ok m.
Fixpoint header_fields (allow : bool) (fields : list (string * string)) (m : Message) : result err Message :=
  match fields with [] => Ok m | f :: fields => m ← header_field allow f m; header_fields allow fields m end.
Definition parseMessageHeader (h : H) (allowInvalidAddressLists : bool) : result err Message :=
  header_fields allowInvalidAddressLists (h_Fields h) zeroMessage.

(** ** Attachments *)

Definition decode_field (value : string) : result err string :=
  match field_Text value with
  | FieldText s => Ok s
  | FieldUnknownCharset => match DecodeHeader (Enc := Enc) value with (s, None) => Ok s | (_, Some e) => Err e end
  | FieldError e => Err e
  end.
Fixpoint forEachDecodedHeaderField {A} (fields : list (string * string)) (fn : string -> string -> A -> result err A) (a : A) : result err A :=
  match fields with
  | [] => Ok a
  | (key, value) :: fields => text ← decode_field value; a ← fn key text a; forEachDecodedHeaderField fields fn a
  end.
Definition toMailHeader (h : H) : result err (gmap string string) :=
  forEachDecodedHeaderField (h_Fields h) (fun key val m => Ok (<[key := val]> m)) ∅.

Definition attachment_name (dispName : option string) (mimeType : string) (mimeTypeParams : gmap string string) : string :=
  let name := default "" dispName in
  if negb (String.eqb name "") then name
  else match mimeTypeParams !! "name" with
       | Some filename => filename
       | None =>
           if String.eqb mimeType "message/rfc822" then "message.eml"
           else match ExtensionsByType mimeType with Ok (ext :: _) => "attachment" +:+ ext | _ => "attachment.bin" end
       end.

Definition parseAttachment (h : H) (body : string) : result err Attachment :=
  mimeHeader ← toMailHeader h;
  '(mimeType, mimeTypeParams) ←
    match ParseMediaType (h_Get h "Content-Type") with
    | Ok r => Ok r
    | Err e => if bool_decide (e = EmptyContentTypeErr) then Ok ("text/plain", ∅) else Err e
    end;
  let parsed := ParseMediaType (h_Get h "Content-Disposition") in
  let disposition := match parsed with Ok (disp, _) => disp | Err _ => "" end in
  let dispName := match parsed with Ok (_, dispParams) => dispParams !! "filename" | Err _ => None end in
  let name := attachment_name dispName mimeType mimeTypeParams in
  let att contentID := mkAttachment mimeHeader name contentID mimeType mimeTypeParams disposition body in
  let id := Trim (h_Get h "Content-Id") " <>" in
  if h_Has h "Content-Disposition" then
    '(disp, _) ← parsed; Ok (att (if String.eqb disp "inline" then id else ""))
  else Ok (att (if h_Has h "Content-Id" then id else "")).

Definition add_attachment : HandlerFunc (H := H) (list Attachment) := fun p atts =>
  att ← parseAttachment (Header p) (Body p); Ok (Header p, Body p, atts ++ [att]).

Definition attachment_walker : Walker (H := H) (list Attachment) :=
  RegisterDefaultHandler (fun p atts => if (0 <? length (Children p))%nat then keep p atts else add_attachment p atts)
    (RegisterContentTypeHandler "text/.*" keep
      (RegisterContentTypeHandler "text/calendar" add_attachment
        (RegisterContentDispositionHandler "attachment" add_attachment NewWalker))).
Definition collectAttachments (p : Part) : result err (list Attachment) := snd <$> walkOverPart attachment_walker p [].

(** ** Bodies *)

(** The results of all children, or the first error. *)
Fixpoint collectChildParts (rs : list (result err (list Part))) : result err (list (list Part)) :=
  match rs with [] => Ok [] | r :: rs => res ← r; childParts ← collectChildParts rs; Ok (res :: childParts) end.
Definition joinChildParts (childParts : list (list Part)) : list Part := concat childParts.

Definition allPartsHaveContentType (parts : list Part) (contentType : string) : bool :=
  match parts with
  | [] => false
  | _ => forallb (fun part => match ContentType part with Ok (t, _) => String.eqb t contentType | Err _ => false end) parts
  end.

(** From the last to the first. *)
Definition bestChoice (childParts : list (list Part)) (preferredContentType : string) : list Part :=
  match find_first (fun parts => allPartsHaveContentType parts preferredContentType) (rev childParts) with
  | Some parts => parts
  | None => default [] (last childParts)
  end.

Definition text_rule : VisitorRule (H := H) (list Part) := fun p _ => if IsAttachment p then Ok [] else Ok [p].
Definition collectBodyParts (p : Part) (preferredContentType : string) : result err (list Part) :=
  visit [("multipart/alternative", fun p children => childParts ← collectChildParts children; Ok (bestChoice childParts preferredContentType));
         ("text/plain", text_rule); ("text/html", text_rule)]
    (fun p children => childParts ← collectChildParts children; Ok (joinChildParts childParts)) p.

Definition getPlainBody (part : Part) : string :=
  match ContentType part with
  | Err _ => Body part
  | Ok (contentType, _) =>
      if String.eqb contentType "text/html" then match html2text (Body part) with Ok text => text | Err _ => Body part end else Body part
  end.

Definition buildBodies (p : Part) : result err (string * string) :=
  richParts ← collectBodyParts p "text/html";
  plainParts ← collectBodyParts p "text/plain";
  Ok (foldr (fun q s => Body q +:+ s) "" richParts, foldr (fun q s => getPlainBody q +:+ s) "" plainParts).

Definition html_walker : Walker (H := H) bool := RegisterContentTypeHandler "text/html" (fun p _ => Ok (Header p, Body p, true)) NewWalker.
Definition determineBodyMIMEType (p : Part) : result err string :=
  '(_, isHTML) ← walkOverPartSkipAttachment html_walker p false;
  Ok (if isHTML : bool then "text/html" else "text/plain").

(** ** Encodings *)

Definition encoding_walker : Walker (H := H) () :=
  RegisterDefaultHandler (fun p s =>
    let encoding := h_Get (Header p) "Content-Transfer-Encoding" in
    if String.eqb encoding "" then keep p s
    else dec ← WordDec_DecodeHeader (Enc := Enc) encoding; Ok (h_Set "Content-Transfer-Encoding" dec (Header p), Body p, s)) NewWalker.
Definition convertEncodedTransferEncoding (p : Part) : result err Part := fst <$> walkOverPart encoding_walker p ().

Definition foreign_walker : Walker (H := H) () :=
  RegisterContentTypeHandler "text/.*" (fun p s => if IsAttachment p then keep p s else '(h, b) ← ConvertToUTF8 p; Ok (h, b, s))
    (RegisterContentTypeHandler "text/html" (fun p s => '(h, b) ← ConvertToUTF8 p; b ← ConvertMetaCharset b; Ok (h, b, s)) NewWalker).
Definition convertForeignEncodings (p : Part) : result err Part := fst <$> walkOverPart foreign_walker p ().

Definition buildMIMEBody (p : Part) : result err string :=
  match Write p with Ok s => Ok s | Err e => Err (ErrWrap "failed to write message" e) end.

(** ** The whole message *)

Definition wrap {A} (msg : string) (r : result err A) : result err A := match r with Ok a => Ok a | Err e => Err (ErrWrap msg e) end.

(** [None]: a panic. *)
Definition parse (p : Part) (allowInvalidAddressLists : bool) : option (result err Message) :=
  match (p ← wrap "failed to convert encoded transfer encoding" (convertEncodedTransferEncoding p);
         wrap "failed to convert foreign encodings" (convertForeignEncodings p)) with
  | Err e => Some (Err e)
  | Ok p =>
      match patchInlineImages p with
      | None => None
      | Some (Err e) => Some (Err (ErrWrap "patching inline images failed" e))
      | Some (Ok p) => Some (
          m ← wrap "failed to parse message header" (parseMessageHeader (Header p) allowInvalidAddressLists);
          atts ← wrap "failed to collect attachments" (collectAttachments p);
          '(richBody, plainBody) ← wrap "failed to build bodies" (buildBodies p);
          mimeBody ← wrap "failed to build mime body" (buildMIMEBody p);
          mimeType ← wrap "failed to get mime type" (determineBodyMIMEType (encode_all p));
          Ok (set_content richBody plainBody mimeBody mimeType atts m))
      end
  end.

Definition panic_error : err := ErrOther "panic while parsing message".
Definition recovered (r : option (result err Message)) : result err Message := match r with Some r => r | None => Err panic_error end.
Definition ParseWithParser (p : Part) (allowInvalidAddressLists : bool) : result err Message := recovered (parse p allowInvalidAddressLists).

Definition parseIOReaderImpl `{EL : @EntityLib H} (text : string) (allowInvalidAddressLists : bool) : result err Message :=
  match MessageParts.New text with
  | Err e => Err (ErrWrap "failed to create new parser" e)
  | Ok p => match root p with Some r => recovered (parse r allowInvalidAddressLists) | None => Err panic_error end
  end.
Definition Parse `{EL : @EntityLib H} (text : string) : result err Message := parseIOReaderImpl text false.
Definition ParseAndAllowInvalidAddressLists `{EL : @EntityLib H} (text : string) : result err Message := parseIOReaderImpl text true.

End parsing.

(** ** The header is read completely *)

Section header.
Context `{RL : ReadLib} {Enc : Type} `{TL : TextLib Enc}.

(** What the last field of a key says, or [a] when there is none. *)
Definition last_field {A} (key : string) (f : string -> A) (fields : list (string * string)) (a : A) : A :=
  foldl (fun a '(k, v) => if String.eqb (ToLower k) key then f v else a) a fields.
Definition addresses (value : string) : list Address := (ParseAddressList value).1.
Definition all_references (fields : list (string * string)) : list string :=
  fields ≫= fun '(k, v) => if String.eqb (ToLower k) "references" then references_of v else [].

(** Whether a field can be read. *)
Definition address_key (key : string) : bool := existsb (String.eqb key) ["from"; "to"; "reply-to"; "cc"; "bcc"].
Definition field_ok (allow : bool) (field : string * string) : bool :=
  let '(key, value) := field in
  let key := ToLower key in
  if String.eqb key "subject" then is_ok (parse_subject (Enc := Enc) value)
  else if address_key key then allow || bool_decide ((ParseAddressList value).2 = None)
  else true.

(** What the fields of a message are when those of [m] and then [fields] were read. *)
Definition read_from (fields : list (string * string)) (m m' : Message) : Prop :=
  ToList m' = last_field "to" addresses fields (ToList m) /\ CCList m' = last_field "cc" addresses fields (CCList m) /\
  BCCList m' = last_field "bcc" addresses fields (BCCList m) /\ ReplyTos m' = last_field "reply-to" addresses fields (ReplyTos m) /\
  ExternalID m' = last_field "message-id" strip_brackets fields (ExternalID m) /\
  InReplyTo m' = last_field "in-reply-to" strip_brackets fields (InReplyTo m) /\
  XForward m' = last_field "x-forwarded-message-id" strip_brackets fields (XForward m) /\
  References m' = References m ++ all_references fields.

Lemma address_list_ok allow what value : is_ok (address_list allow what value) = allow || bool_decide ((ParseAddressList value).2 = None).
Proof. unfold address_list. destruct (ParseAddressList value) as [l [e|]], allow; done. Qed.

Lemma address_list_value allow what value l : address_list allow what value = Ok l -> l = addresses value.
Proof. unfold address_list, addresses. destruct (ParseAddressList value) as [l' [e|]], allow; simpl; congruence. Qed.

Lemma header_field_ok allow f m : is_ok (header_field (Enc := Enc) allow f m) = field_ok allow f.
Proof.
  destruct f as [key value]. unfold header_field, field_ok, address_key. simpl existsb.
  generalize (ToLower key) as k. intros k. destruct (String.eqb k "subject"); [by destruct (parse_subject value)|].
  repeat (match goal with |- context [if String.eqb k ?s then _ else _] => destruct (String.eqb_spec k s) as [->|] end;
    [try (match goal with |- context [address_list allow ?w value] => assert (Hl := address_list_ok allow w value); destruct (address_list allow w value) end);
     simpl in *; congruence|]).
  rewrite !orb_false_r. done.
Qed.

Lemma header_field_read allow f m m' : header_field (Enc := Enc) allow f m = Ok m' -> read_from [f] m m'.
Proof.
  destruct f as [key value]. unfold header_field, read_from, last_field, all_references. rewrite bind_cons. simpl foldl.
  destruct (String.eqb_spec (ToLower key) "subject") as [->|].
  { destruct (parse_subject value); [|done]. intros [= <-]. simpl. by rewrite app_nil_r. }
  destruct (String.eqb_spec (ToLower key) "from") as [->|].
  { destruct (address_list _ _ _) as [[|a l]|]; [| |done]; intros [= <-]; simpl; by rewrite app_nil_r. }
  repeat (match goal with |- context [if String.eqb (ToLower key) ?s then (_ ← address_list _ _ _; _) else _] => destruct (String.eqb_spec (ToLower key) s) as [->|] end;
    [destruct (address_list _ _ _) as [l|] eqn:Hl; [|done]; apply address_list_value in Hl as ->; intros [= <-]; simpl; by rewrite app_nil_r|]).
  repeat (match goal with |- context [if String.eqb (ToLower key) ?s then Ok _ else _] => destruct (String.eqb_spec (ToLower key) s) as [->|] end;
    [intros [= <-]; simpl; by rewrite ?app_nil_r|]).
  destruct (String.eqb (ToLower key) "references"); intros [= <-]; [|by rewrite app_nil_r]. repeat split.
  change (References m ++ references_of value = References m ++ references_of value ++ []). by rewrite app_nil_r.
Qed.

Lemma read_from_trans f fields m m1 m' : read_from [f] m m1 -> read_from fields m1 m' -> read_from (f :: fields) m m'.
Proof.
  intros (H1 & H2 & H3 & H4 & H5 & H6 & H7 & H8) (G1 & G2 & G3 & G4 & G5 & G6 & G7 & G8).
  unfold read_from, last_field, all_references in *. simpl foldl in *. rewrite bind_cons in *. rewrite H1 in G1. rewrite H2 in G2. rewrite H3 in G3.
  rewrite H4 in G4. rewrite H5 in G5. rewrite H6 in G6. rewrite H7 in G7. rewrite H8 in G8. destruct f as [k v]. repeat (split; [assumption|]).
  rewrite G8. rewrite <- app_assoc. f_equal. f_equal. by rewrite app_nil_r.
Qed.

(** The header of a message is read exactly when every field can be: the subject and, unless invalid
    lists are allowed, the lists of addresses.  Of every list and identifier the last field counts; references
    are those of all fields, in order. *)
Theorem parseMessageHeader_spec {H} `{HL : HeaderLib H} (h : H) allow :
  is_ok (parseMessageHeader (Enc := Enc) h allow) = forallb (field_ok allow) (h_Fields h) /\
  match parseMessageHeader (Enc := Enc) h allow with Ok m => read_from (h_Fields h) zeroMessage m | Err _ => True end.
Proof.
  unfold parseMessageHeader. generalize (h_Fields h) as fields. generalize zeroMessage as m. intros m fields. revert m.
  induction fields as [|f fields IH]; intros m; cbn [header_fields forallb].
  - split; [done|]. unfold read_from, last_field, all_references. simpl. by rewrite app_nil_r.
  - assert (Hok := header_field_ok allow f m). destruct (header_field allow f m) as [m1|] eqn:Hf; cbn [mbind result_bind]; simpl in Hok; rewrite <- Hok; [|done].
    destruct (IH m1) as [H1 H2]. split; [done|]. destruct (header_fields allow fields m1) as [m'|]; [|done].
    apply (read_from_trans f fields m m1); [by apply (header_field_read allow)|done].
Qed.

End header.

(** ** Which parts are attachments *)

Section contents.
Context {H : Type} `{HL : HeaderLib H} `{ML : MimeLib} `{RL : ReadLib} {Enc : Type} `{TL : TextLib Enc}.
Notation Part := (Part H).

(** Declared as one, a calendar, or no text and without children. *)
Definition is_attachment_part (p : Part) : bool :=
  MatchString "attachment" (disp_text p) || MatchString "text/calendar" (type_text p) ||
  negb (MatchString "text/.*" (type_text p)) && (length (Children p) =? 0)%nat.
Definition one_more (q : Part) (atts : list Attachment) : result err (list Attachment) :=
  att ← parseAttachment (Enc := Enc) (Header q) (Body q); Ok (atts ++ [att]).

Lemma over_parts_filter {St} (f g : Part -> St -> result err St) (keep : Part -> bool) ps s :
  (forall q s, f q s = if keep q then g q s else Ok s) -> over_parts f ps s = over_parts g (Prelude.Filter ps keep) s.
Proof.
  intros Hf. revert s. induction ps as [|p ps IH]; intros s; [done|]. cbn [over_parts Prelude.Filter]. rewrite Hf. destruct (keep p).
  - cbn [over_parts]. destruct (g p s); [apply IH|done].
  - apply IH.
Qed.

(** C26: The attachments of a message are those of its parts that are declared to be one, of the calendars
    and of the parts that are no text, in order; reading them fails as soon as one cannot be read. *)
Theorem collectAttachments_spec (p : Part) :
  collectAttachments (Enc := Enc) p = over_parts one_more (Prelude.Filter (preorder p) is_attachment_part) [].
Proof.
  unfold collectAttachments, walkOverPart.
  set (f := fun (q : Part) (atts : list Attachment) => if is_attachment_part q then one_more q atts else Ok atts).
  rewrite (walk_reads _ f).
  - rewrite (over_parts_filter f one_more is_attachment_part) by done. by destruct (over_parts one_more _ []).
  - intros q atts. unfold f, is_attachment_part, getHandlerFunc, attachment_walker. cbn [handlers RegisterDefaultHandler RegisterContentTypeHandler RegisterContentDispositionHandler NewWalker app find_first defaultHandler fn].
    unfold matchPart, matchType, matchDisp. cbn [typeRegExp dispRegExp]. rewrite !orb_false_r. cbn [orb].
    assert (Hadd : add_attachment (Enc := Enc) q atts = (fun s => (Header q, Body q, s)) <$> one_more q atts) by (unfold add_attachment, one_more; by destruct (parseAttachment _ _)).
    destruct (MatchString "attachment" (disp_text q)); [exact Hadd|]. destruct (MatchString "text/calendar" (type_text q)); [exact Hadd|].
    destruct (MatchString "text/.*" (type_text q)); [done|]. cbn [orb negb andb]. by destruct (Children q).
Qed.

(** A message is HTML exactly when it has a part of that type that is no attachment. *)
Theorem determineBodyMIMEType_spec (p : Part) :
  determineBodyMIMEType p = Ok (if existsb (fun q => negb (IsAttachment q) && MatchString "text/html" (type_text q)) (preorder p) then "text/html" else "text/plain").
Proof.
  unfold determineBodyMIMEType, walkOverPartSkipAttachment.
  set (html := fun q : Part => negb (IsAttachment q) && MatchString "text/html" (type_text q)).
  rewrite (walk_reads _ (fun q s => Ok (html q || s))).
  - assert (Hfold : forall ps s, over_parts (fun (q : Part) s => Ok (html q || s)) ps s = Ok (existsb html ps || s)).
    { induction ps as [|q ps IH]; intros s; [done|]. cbn [over_parts existsb mbind result_bind]. rewrite IH. f_equal.
      by destruct (html q), (existsb html ps), s. }
    by rewrite Hfold, orb_false_r.
  - intros q s. unfold getHandlerFuncSkipAttachment, html_walker, html. cbn [handlers RegisterContentTypeHandler NewWalker app find_first defaultHandler fn].
    unfold matchPartSkipAttachment, matchPart, matchType, matchDisp. cbn [typeRegExp dispRegExp]. rewrite orb_false_r.
    by destruct (negb (IsAttachment q) && MatchString "text/html" (type_text q)).
Qed.

(** ** Which parts are the body *)

Section visits.
Variables (R : Type) (rules : list (string * VisitorRule (H := H) R)) (defaultRule : VisitorRule (H := H) R).
Fixpoint visit_list (cs : list Part) : list (result err R) := match cs with [] => [] | c :: cs => visit rules defaultRule c :: visit_list cs end.
Lemma visit_eq h b cs : visit rules defaultRule (mkPart h b cs) =
  ('(t, _) ← ContentType (mkPart h b cs);
   (match find_first (fun '(re, _) => MatchString re t) rules with Some (_, rule) => rule | None => defaultRule end) (mkPart h b cs) (visit_list cs)).
Proof. reflexivity. Qed.
End visits.

Definition is_alternative (p : Part) : bool := MatchString "multipart/alternative" (type_text p).
Definition is_text_body (p : Part) : bool := MatchString "text/plain" (type_text p) || MatchString "text/html" (type_text p).
Definition is_body_part (p : Part) : bool := negb (is_alternative p) && is_text_body p && negb (IsAttachment p).

Section preferred.
Variable pref : string.
Fixpoint body_list (cs : list Part) : list (result err (list Part)) := match cs with [] => [] | c :: cs => collectBodyParts c pref :: body_list cs end.

Lemma collectBodyParts_eq h b cs : collectBodyParts (mkPart h b cs) pref =
  match ContentType (mkPart h b cs) with
  | Err e => Err e
  | Ok _ =>
      if is_alternative (mkPart h b cs) then childParts ← collectChildParts (body_list cs); Ok (bestChoice childParts pref)
      else if is_text_body (mkPart h b cs) then Ok (if IsAttachment (mkPart h b cs) then [] else [mkPart h b cs])
      else childParts ← collectChildParts (body_list cs); Ok (joinChildParts childParts)
  end.
Proof.
  unfold collectBodyParts at 1. rewrite visit_eq. unfold is_alternative, is_text_body, type_text.
  destruct (ContentType (mkPart h b cs)) as [[t m]|e]; [|done]. cbn [mbind result_bind find_first].
  destruct (MatchString "multipart/alternative" t); [reflexivity|].
  destruct (MatchString "text/plain" t); [cbn [orb]; unfold text_rule; by destruct (IsAttachment _)|].
  destruct (MatchString "text/html" t); [cbn [orb]; unfold text_rule; by destruct (IsAttachment _)|]. reflexivity.
Qed.
End preferred.

Lemma collectChildParts_Ok rs ls : collectChildParts (H := H) rs = Ok ls <-> rs = Ok <$> ls.
Proof.
  revert ls. induction rs as [|r rs IH]; intros ls; cbn [collectChildParts]; [destruct ls; naive_solver|].
  destruct r as [l|e]; cbn [mbind result_bind].
  - destruct (collectChildParts rs) as [ls'|e]; cbn [mbind result_bind].
    + destruct ls as [|l0 ls]; [naive_solver|]. rewrite fmap_cons. specialize (IH ls). naive_solver.
    + split; [done|]. destruct ls as [|l0 ls]; [done|]. rewrite fmap_cons. intros [= -> Hrs]. apply IH in Hrs. done.
  - split; [done|]. destruct ls; [done|]. by rewrite fmap_cons.
Qed.

Lemma bestChoice_elem ls pref : bestChoice ls pref = [] \/ bestChoice (H := H) ls pref ∈ ls.
Proof.
  unfold bestChoice. destruct (find_first _ (rev ls)) as [l|] eqn:Hf.
  - right. apply find_first_Some in Hf as [Hin _]. apply list_elem_of_In. apply list_elem_of_In in Hin. by apply in_rev.
  - destruct (last ls) as [l|] eqn:Hl; [right|by left]. rewrite last_lookup in Hl. simpl. by eapply list_elem_of_lookup_2.
Qed.

(** Of the children of a multipart/alternative the last one that has only parts of the preferred type
    is taken, and the last one of all when there is none. *)
Theorem bestChoice_spec pre l post pref :
  allPartsHaveContentType l pref = true -> Forall (fun l' => allPartsHaveContentType (H := H) l' pref = false) post ->
  bestChoice (pre ++ l :: post) pref = l /\ (forall ls l', Forall (fun l => allPartsHaveContentType (H := H) l pref = false) (ls ++ [l']) -> bestChoice (ls ++ [l']) pref = l').
Proof.
  intros Hl Hpost. unfold bestChoice. split.
  - rewrite rev_app_distr. simpl. rewrite <- app_assoc. assert (Hrev : Forall (fun l' => allPartsHaveContentType (H := H) l' pref = false) (rev post)) by by apply Forall_rev.
    induction Hrev as [|x xs Hx _ IH]; cbn [app find_first]; [by rewrite Hl|]. by rewrite Hx.
  - intros ls l' Hall. rewrite (proj2 (find_first_None _ _)); [by rewrite last_snoc|]. intros x Hx. rewrite Forall_forall in Hall. apply Hall.
    apply list_elem_of_In. apply list_elem_of_In in Hx. by apply in_rev.
Qed.

Lemma sublist_concat {A} (ls : list (list A)) l : l ∈ ls -> l `sublist_of` concat ls.
Proof.
  induction ls as [|l' ls IH]; [by intros ?%elem_of_nil|]. intros [->|Hl]%elem_of_cons; simpl; [by apply sublist_inserts_r|].
  apply sublist_inserts_l. by apply IH.
Qed.

(** No alternatives, and texts are leaves. *)
Definition flat_body (ps : list Part) : Prop := Forall (fun q => is_alternative q = false /\ (is_text_body q = true -> Children q = [])) ps.
Definition body_parts_of (ps : list Part) : list Part := Prelude.Filter ps is_body_part.

(** The parts a body is made of are texts of the message that are no attachments, in order; without
    alternatives, and when texts have no parts, it is all of them. *)
Theorem collectBodyParts_spec pref p ps : collectBodyParts p pref = Ok ps ->
  ps `sublist_of` body_parts_of (preorder p) /\ (flat_body (preorder p) -> ps = body_parts_of (preorder p)).
Proof.
  revert ps. apply (part_ind (fun p => forall ps, collectBodyParts p pref = Ok ps ->
      ps `sublist_of` body_parts_of (preorder p) /\ (flat_body (preorder p) -> ps = body_parts_of (preorder p)))
    (fun cs => forall ls, body_list pref cs = Ok <$> ls ->
      concat ls `sublist_of` body_parts_of (cs ≫= preorder) /\ (flat_body (cs ≫= preorder) -> concat ls = body_parts_of (cs ≫= preorder)))).
  - intros h b cs IH ps. rewrite collectBodyParts_eq, preorder_eq. set (q := mkPart h b cs). destruct (ContentType q); [|done].
    unfold body_parts_of. cbn [Prelude.Filter]. fold (body_parts_of (cs ≫= preorder)). unfold is_body_part.
    assert (Htext : forall rest, (if IsAttachment q then [] else [q]) `sublist_of` (if negb (IsAttachment q) then q :: rest else rest)).
    { intros rest. destruct (IsAttachment q); [apply sublist_nil_l|apply sublist_skip, sublist_nil_l]. }
    assert (Hleaf : Children q = [] -> (if IsAttachment q then [] else [q]) = (if negb (IsAttachment q) then q :: body_parts_of (cs ≫= preorder) else body_parts_of (cs ≫= preorder))).
    { intros Hcs. simpl in Hcs. subst cs. by destruct (IsAttachment q). }
    destruct (is_alternative q) eqn:Ha, (is_text_body q) eqn:Ht; cbn [negb andb];
      [..|destruct (collectChildParts _) as [ls|] eqn:Hc; [apply collectChildParts_Ok, IH in Hc as [Hsub Heq]|done]; intros [= <-]; split; [done|]; intros [_ Hf]%Forall_cons; by apply Heq].
    3: { intros [= <-]. split; [apply Htext|]. intros [[_ Hf] _]%Forall_cons. by apply Hleaf, Hf. }
    all: destruct (collectChildParts _) as [ls|] eqn:Hc; [apply collectChildParts_Ok, IH in Hc as [Hsub _]|done]; intros [= <-];
      (split; [|intros [[Hf _] _]%Forall_cons; congruence]); destruct (bestChoice_elem ls pref) as [->|Hin]; [apply sublist_nil_l|];
      etrans; [by apply sublist_concat|done].
  - intros [|] Hls; [done|]. by rewrite fmap_cons in Hls.
  - intros c cs IHc IHcs [|l ls]; cbn [body_list]; [done|]. rewrite fmap_cons. intros [= Hc Hcs]. rewrite bind_cons. cbn [concat].
    destruct (IHc l Hc) as [H1 H2], (IHcs ls Hcs) as [H3 H4]. unfold body_parts_of. rewrite Filter_app. split; [by apply sublist_app|].
    intros [Hf1 Hf2]%Forall_app. f_equal; [by apply H2|by apply H4].
Qed.

End contents.

(** ** Examples *)

Section examples.
Local Existing Instances list_header simple_mime ex_uuid.

(** Lists of addresses separated by commas; an at sign is needed. *)
Definition ex_read : ReadLib :=
  {| field_Text := FieldText; ParseAddressList := fun s => if str_contains s "@" then (mkAddress "" <$> Split comma s, None) else ([], Some (ErrOther "no address"));
     ExtensionsByType := fun t => if String.eqb t "image/png" then Ok [".png"] else Ok []; html2text := fun s => Ok ("text of " +:+ s) |}.
Definition ex_html : HtmlLib string := {| html_Parse := Ok; html_metas := fun _ => []; html_set_metas := fun _ d => d; html_Render := Ok |}.
Definition ex_utf8 : TextLib () :=
  {| htmlindex_Get := fun _ => Some (); decode_with := fun _ s => Ok s; Utf7 := (); utf8_Valid := fun _ => true; DetermineEncoding := fun _ _ => ();
     WordDec_DecodeHeader := fun s => Ok s; mime_ParseMediaType := fun s => Ok (s, ∅) |}.
Definition ex_writer : WriterLib (H := list (string * string)) := fun ops => Ok "written".
Local Existing Instances ex_read ex_html ex_utf8 ex_writer.

Notation part := (MessageParts.Part (list (string * string))).
Definition ex_fields : list (string * string) :=
  [("Subject", "hello"); ("To", "a@b"); ("to", "c@d,e@f"); ("Message-Id", "<1@x>"); ("References", "<0@x>,<2@x> <3@x>"); ("Content-Type", "multipart/alternative")].
Definition ex_alternative : part := mkPart ex_fields "" [ex_leaf "text/plain" "plain"; ex_leaf "text/html" "rich"].
Definition ex_parsed : result err Message := ParseWithParser (Enc := ()) ex_alternative false.

Example alternative_parsed :
  (fun m => (RichBody m, PlainBody m, MIMEType m, adr_Address <$> ToList m, ExternalID m, References m, Attachments m)) <$> ex_parsed =
    Ok ("rich", "plain", "text/html", ["c@d"; "e@f"], "1@x", ["0@x"; "2@x"; "3@x"], []).
Proof. vm_compute. reflexivity. Qed.

Definition ex_related : part := mkPart (typed "multipart/mixed") "" [ex_leaf "text/plain" "a"; ex_leaf "image/png" "b"; ex_leaf "text/html" "c"].
Lemma collectBodyParts_spec_witness :
  collectBodyParts ex_related "text/html" = Ok (body_parts_of (preorder ex_related)) /\ body_parts_of (preorder ex_related) `sublist_of` body_parts_of (preorder ex_related).
Proof.
  assert (Hc : collectBodyParts ex_related "text/html" = Ok (body_parts_of (preorder ex_related))) by (vm_compute; reflexivity).
  split; [exact Hc|]. exact (proj1 (collectBodyParts_spec "text/html" ex_related _ Hc)).
Defined.

Lemma bestChoice_spec_witness : bestChoice [[ex_leaf "text/html" "a"]; [ex_leaf "text/plain" "b"]] "text/html" = [ex_leaf "text/html" "a"].
Proof.
  refine (proj1 (bestChoice_spec [] [ex_leaf "text/html" "a"] [[ex_leaf "text/plain" "b"]] "text/html" _ _)); [vm_compute; reflexivity|].
  constructor; [vm_compute; reflexivity|constructor].
Defined.

(** A text of another type that is not declared as an attachment is neither an attachment nor in a body. *)
Example inline_table_dropped :
  let p := mkPart (typed "multipart/mixed") "" [ex_leaf "text/plain" "a"; mkPart [("Content-Type", "text/csv"); ("Content-Disposition", "inline;filename=t.csv")] "1,2" []] in
  (fun m => (RichBody m, PlainBody m, Attachments m)) <$> ParseWithParser (Enc := ()) p false = Ok ("a", "a", []).
Proof. vm_compute. reflexivity. Qed.

(** A disposition without a value makes the whole message unreadable. *)
Example empty_disposition_fails :
  let p := mkPart (typed "multipart/mixed") "" [ex_leaf "text/plain" "a"; mkPart [("Content-Type", "image/png"); ("Content-Disposition", "")] "png" []] in
  is_ok (ParseWithParser (Enc := ()) p false) = false.
Proof. vm_compute. reflexivity. Qed.

(** Two images in a message that is not multipart/mixed: the panic is reported as an error. *)
Example images_unreadable :
  ParseWithParser (Enc := ()) (mkPart (typed "multipart/alternative") "" [ex_leaf "text/html" "a"; ex_image; ex_leaf "text/html" "b"; ex_image]) false = Err panic_error.
Proof. vm_compute. reflexivity. Qed.

End examples.
