(* ===== verification/MboxLines.v ===== *)
(** * Lines of mailbox files in messages (pkg/message/build.go)

    Messages that were stored in a mailbox file can have a line in their header that begins with
    the word From and a space, which is no header field.  Before a message is built again such
    lines are removed from the body that is its source. *)

From stdpp Require Import pretty.
From S2P Require Import Prelude.
From S2P Require Import Strings.
From S2P Require Import UserEvents.
From S2P Require Import MediaTypes.
From S2P Require Import MailHeaders.

Definition mboxFrom : string := "From ".
Definition mboxGtFrom : string := ">From ".

(** The name of the field of a line, when there is one. *)
Definition field_name (line : string) : string :=
  match Index (chr 58) line with Some (S i) => ToLower (str_take (S i) line) | _ => "" end.

(** The end of the header; -1, when the header has not all of the required fields, is [None]. *)
Definition extractHeaderPartEnd (body : string) : option nat :=
  headerEnd ← (match str_index lf2 body with Some i => Some i | None => str_index crlf2 body end);
  let names := field_name <$> Split lf (str_take headerEnd body) in
  if forallb (fun required => Contains names required) ["from"; "to"; "date"] then Some headerEnd else None.

Definition mbox_line (s : string) : bool := has_prefix mboxFrom s || has_prefix mboxGtFrom s.

(** The loop over the first [n] places, from place [i] on: at the first one ([first]) it looks for a line that
    begins there, at others for one that begins after a newline there. *)
Fixpoint find_mbox_line (n i : nat) (first : bool) (s : string) : option nat :=
  match n with
  | O => None
  | S n =>
      if first && mbox_line s then Some i
      else match s with
           | EmptyString => None
           | String c s' => if negb first && Ascii.eqb c lf && mbox_line s' then Some (S i) else find_mbox_line n (S i) false s'
           end
  end.
Definition indexMBOXHeaderLine (body : string) : option nat :=
  headerEnd ← extractHeaderPartEnd body; find_mbox_line headerEnd 0 true body.

(** [None]: the fuel ran out. *)
Fixpoint remove_mbox_lines (fuel : nat) (body : string) : option (result err string) :=
  match indexMBOXHeaderLine body with
  | None => Some (Ok body)
  | Some i =>
      match fuel with
      | O => None
      | S fuel =>
          let rest := str_drop i body in
          match Index lf rest with
          | None | Some O => Some (Err (ErrOther "cannot find end of mbox line"))
          | Some eol => remove_mbox_lines fuel (str_take i body +:+ str_drop (S eol) rest)
          end
      end
  end.
Definition sanitizeMBOXHeaderLine (body : string) : option (result err string) := remove_mbox_lines (String.length body) body.

(** ** Only such lines are removed *)

(** The place that is found begins a line. *)
Definition line_start (j : nat) (s : string) : Prop := j = 0%nat \/ exists p, str_take j s = p +:+ String lf "".

Lemma find_mbox_line_spec n i first s pre j :
  String.length pre = i -> (first = true -> line_start i (pre +:+ s)) -> (n <= String.length s)%nat ->
  find_mbox_line n i first s = Some j ->
  line_start j (pre +:+ s) /\ mbox_line (str_drop j (pre +:+ s)) = true /\ (j <= i + n)%nat.
Proof.
  revert i first s pre. induction n as [|n IH]; intros i first s pre Hi Hat Hn; cbn [find_mbox_line]; [done|].
  destruct (first && mbox_line s) eqn:Hs.
  { apply andb_true_iff in Hs as [Ha Hm]. intros [= <-]. split; [by apply Hat|]. split; [|lia]. by rewrite <- Hi, str_drop_app. }
  destruct s as [|c s]; [simpl in Hn; lia|]. simpl in Hn.
  assert (Hpre : pre +:+ String c s = (pre +:+ String c "") +:+ s) by by rewrite str_app_assoc.
  assert (Hlen : String.length (pre +:+ String c "") = S i) by (rewrite str_app_length; simpl; lia).
  destruct (negb first && Ascii.eqb c lf && mbox_line s) eqn:Hc.
  - apply andb_true_iff in Hc as [[_ Hc]%andb_true_iff Hm]. apply Ascii.eqb_eq in Hc as ->. intros [= <-]. rewrite Hpre. split; [|split; [|lia]].
    + right. exists pre. rewrite str_take_app by lia. by rewrite <- Hlen, str_take_all.
    + by rewrite <- Hlen, str_drop_app.
  - intros Hf. rewrite Hpre. destruct (IH (S i) false s (pre +:+ String c "") Hlen ltac:(done) ltac:(lia) Hf) as (H1 & H2 & H3). split; [done|split; [done|lia]].
Qed.

(** The header ends before a newline. *)
Lemma str_index_spec sep s i : str_index sep s = Some i -> has_prefix sep (str_drop i s) = true /\ (i <= String.length s)%nat.
Proof.
  revert i. induction s as [|c s IH]; intros i; cbn [str_index].
  - destruct (has_prefix sep "") eqn:Hp; [intros [= <-]; split; [done|simpl; lia]|done].
  - destruct (has_prefix sep (String c s)) eqn:Hp; [intros [= <-]; split; [done|simpl; lia]|]. intros (k & Hk & ->)%fmap_Some.
    destruct (IH k Hk). split; [done|simpl; lia].
Qed.

Lemma Index_drop_Some c j k s : (j <= k)%nat -> is_Some (Index c (str_drop k s)) -> is_Some (Index c (str_drop j s)).
Proof.
  revert j k. induction s as [|x s IH]; intros j k Hjk; [by destruct j, k|]. destruct k as [|k]; [by replace j with 0%nat by lia|].
  destruct j as [|j]; [|apply IH; lia]. cbn [str_drop]. intros Hk. cbn [Index]. destruct (Ascii.eqb x c); [eauto|].
  destruct (IH 0%nat k ltac:(lia) Hk) as [i Hi]. replace (str_drop 0 s) with s in Hi by by destruct s. rewrite Hi. eauto.
Qed.

Lemma header_end_newline body e : extractHeaderPartEnd body = Some e -> (e <= String.length body)%nat /\ is_Some (Index lf (str_drop e body)).
Proof.
  unfold extractHeaderPartEnd. intros (i & Hi & He)%bind_Some. destruct (forallb _ _); [|done]. injection He as <-.
  assert (Hend : exists sep, str_index sep body = Some i /\ (sep = lf2 \/ sep = crlf2)) by (destruct (str_index lf2 body) eqn:H2; [injection Hi as ->|]; eauto).
  destruct Hend as (sep & Hs & Hsep). apply str_index_spec in Hs as [Hp Hl]. split; [done|].
  destruct (str_drop i body) as [|c s]; [destruct Hsep as [-> | ->]; done|]. cbn [Index]. destruct (Ascii.eqb c lf) eqn:Hc; [eauto|].
  destruct Hsep as [-> | ->]; cbn [has_prefix lf2 crlf2] in Hp; [by rewrite Ascii.eqb_sym, Hc in Hp|].
  apply andb_true_iff in Hp as [_ Hp]. destruct s as [|d s]; [done|]. cbn [Index]. apply andb_true_iff in Hp as [Hd _]. rewrite Ascii.eqb_sym in Hd. rewrite Hd. eauto.
Qed.

(** What is found is a whole line between whole lines. *)
Lemma index_splits body i : indexMBOXHeaderLine body = Some i ->
  exists hs t rest, body = concat_lines hs +:+ (t +:+ String lf "") +:+ rest /\ String.length (concat_lines hs) = i /\
    Forall is_line hs /\ Index lf t = None /\ mbox_line (t +:+ String lf "") = true /\ t <> "".
Proof.
  unfold indexMBOXHeaderLine. intros (e & He & Hf)%bind_Some. destruct (header_end_newline body e He) as [Hle Hnl].
  destruct (find_mbox_line_spec e 0 true body "" i eq_refl ltac:(intros _; by left) Hle Hf) as (Hst & Hm & Hie).
  change ("" +:+ body) with body in *. assert (Hlen : String.length (str_take i body) = i) by (rewrite length_str_take; lia).
  assert (Hhs : exists hs, str_take i body = concat_lines hs /\ Forall is_line hs).
  { exists (read_lines (str_take i body)). rewrite read_lines_concat. split; [done|]. destruct Hst as [->|(p & Hp)]; [by destruct body; constructor|].
    rewrite Hp. clear. induction p as [|c p IH]; [constructor; [exists ""; done|constructor]|]. change (String c p +:+ ?x) with (String c (p +:+ x)). cbn [read_lines].
    destruct (Ascii.eqb c lf) eqn:Hc; [constructor; [apply Ascii.eqb_eq in Hc as ->; exists ""; done|done]|].
    destruct (read_lines (p +:+ String lf "")) as [|l ls] eqn:Hr; [exfalso; apply (f_equal concat_lines) in Hr; rewrite read_lines_concat in Hr; by destruct p|].
    apply Forall_cons in IH as [(t & -> & Ht) Hls]. constructor; [|done]. exists (String c t). split; [done|]. cbn [Index]. by rewrite Hc, Ht. }
  destruct Hhs as (hs & Hcat & Hhs). destruct (Index_drop_Some lf i e body ltac:(lia) Hnl) as [n Hn].
  assert (Hsplit : exists t rest, str_drop i body = (t +:+ String lf "") +:+ rest /\ Index lf t = None).
  { revert Hn. generalize (str_drop i body) as s. clear. intros s. revert n. induction s as [|c s IH]; intros n; [done|]. cbn [Index]. destruct (Ascii.eqb c lf) eqn:Hc.
    - intros _. apply Ascii.eqb_eq in Hc as ->. by exists "", s.
    - intros (k & Hk & _)%fmap_Some. destruct (IH k Hk) as (t & rest & -> & Ht). exists (String c t), rest. split; [done|]. cbn [Index]. by rewrite Hc, Ht. }
  destruct Hsplit as (t & rest & Hd & Ht). exists hs, t, rest. rewrite <- Hcat, <- Hd. split; [symmetry; apply str_take_drop|]. split; [done|]. split; [done|].
  split; [done|]. rewrite Hd in Hm. assert (Hne : t <> "") by (intros ->; by vm_compute in Hm). split; [|done].
  revert Hm. unfold mbox_line, mboxFrom, mboxGtFrom. clear -Ht. intros Hm.
  assert (Hp : forall p, Index lf p = None -> has_prefix p ((t +:+ String lf "") +:+ rest) = true -> has_prefix p (t +:+ String lf "") = true).
  { clear Hm. revert Ht. induction t as [|c t IH]; intros Ht p Hp.
    - destruct p as [|a p]; [done|]. apply no_lf_head in Hp as [Ha _]. change (("" +:+ String lf "") +:+ rest) with (String lf rest). cbn [has_prefix]. by rewrite Ha.
    - apply no_lf_head in Ht as [_ Ht]. destruct p as [|a p]; [done|]. apply no_lf_head in Hp as [_ Hp]. change (Ascii.eqb a c && has_prefix p ((t +:+ String lf "") +:+ rest) = true -> Ascii.eqb a c && has_prefix p (t +:+ String lf "") = true).
      intros [-> Hr]%andb_true_iff. simpl. by apply IH. }
  apply orb_true_iff in Hm as [Hm|Hm]; apply Hp in Hm; try done; rewrite Hm; [done|apply orb_true_r].
Qed.

Lemma concat_is_line hs t rest : Forall is_line hs -> Index lf t = None ->
  read_lines (concat_lines hs +:+ (t +:+ String lf "") +:+ rest) = hs ++ (t +:+ String lf "") :: read_lines rest /\
  read_lines (concat_lines hs +:+ rest) = hs ++ read_lines rest.
Proof.
  intros Hhs Ht. split; rewrite read_lines_app by done; [|done]. f_equal. rewrite str_app_assoc. change (String lf "" +:+ rest) with (String lf rest).
  by apply read_lines_cons.
Qed.

Definition other_lines (s : string) : list string := Prelude.Filter (read_lines s) (fun l => negb (mbox_line l)).

Lemma remove_mbox_lines_spec fuel body : (String.length body <= fuel)%nat ->
  exists r, remove_mbox_lines fuel body = Some (Ok r) /\ indexMBOXHeaderLine r = None /\ other_lines r = other_lines body.
Proof.
  revert body. induction fuel as [|fuel IH]; intros body Hl; cbn [remove_mbox_lines]; (destruct (indexMBOXHeaderLine body) as [i|] eqn:Hi; [|by exists body]);
    destruct (index_splits body i Hi) as (hs & t & rest & -> & Hlen & Hhs & Ht & Hm & Hne).
  - exfalso. rewrite !str_app_length in Hl. simpl in Hl. lia.
  - assert (Hd : str_drop i (concat_lines hs +:+ (t +:+ String lf "") +:+ rest) = (t +:+ String lf "") +:+ rest) by (rewrite <- Hlen; apply str_drop_app).
    assert (Htk : str_take i (concat_lines hs +:+ (t +:+ String lf "") +:+ rest) = concat_lines hs) by (rewrite str_take_app by lia; by rewrite <- Hlen, str_take_all).
    assert (He : Index lf ((t +:+ String lf "") +:+ rest) = Some (String.length t)).
    { rewrite str_app_assoc, (Index_app_None lf t _ Ht). simpl. by rewrite Nat.add_0_r. }
    assert (Hr : str_drop (S (String.length t)) ((t +:+ String lf "") +:+ rest) = rest).
    { replace (S (String.length t)) with (String.length (t +:+ String lf "")) by (rewrite str_app_length; simpl; lia). apply str_drop_app. }
    rewrite Hd, Htk, He. destruct (String.length t) as [|n] eqn:Hn; [by destruct t|]. rewrite Hr.
    destruct (concat_is_line hs t rest Hhs Ht) as [Hl1 Hl2].
    destruct (IH (concat_lines hs +:+ rest)) as (r & Hrun & Hnone & Hsame); [rewrite !str_app_length in *; simpl in Hl; lia|].
    exists r. split; [done|]. split; [done|]. rewrite Hsame. unfold other_lines. rewrite Hl1, Hl2, !Filter_app. simpl. by rewrite Hm.
Qed.

Lemma sanitize_ok body : exists r, sanitizeMBOXHeaderLine body = Some (Ok r).
Proof. destruct (remove_mbox_lines_spec (String.length body) body (le_n _)) as (r & Hr & _). by exists r. Qed.

(** Removing the lines of mailbox files ends and does not fail; afterwards none is found in the header, and
    all other lines are still there, in order. *)
Theorem sanitizeMBOXHeaderLine_spec body :
  exists r, sanitizeMBOXHeaderLine body = Some (Ok r) /\ indexMBOXHeaderLine r = None /\ other_lines r = other_lines body.
Proof. unfold sanitizeMBOXHeaderLine. by apply remove_mbox_lines_spec. Qed.

(** ** Examples *)

Example mbox_line_removed :
  sanitizeMBOXHeaderLine (lines_of ["From a@b Mon"; "From: a@b"; ">From c"; "To: d"; "Date: e"; ""; "From the body"]) =
    Some (Ok (lines_of ["From: a@b"; "To: d"; "Date: e"; ""; "From the body"])).
Proof. vm_compute. reflexivity. Qed.

(** A message that begins with an empty line is searched from its second line's end only. *)
Example second_line_missed :
  sanitizeMBOXHeaderLine (String lf (lines_of ["From a@b Mon"; "From: a@b"; "To: d"; "Date: e"; ""])) =
    Some (Ok (String lf (lines_of ["From a@b Mon"; "From: a@b"; "To: d"; "Date: e"; ""]))).
Proof. vm_compute. reflexivity. Qed.

(** The end of the header is the first empty line without carriage returns anywhere in the message; text
    of the body before it counts as header. *)
Example body_line_removed :
  sanitizeMBOXHeaderLine (lines_of ["From: a@b"; "To: d"; "Date: e"; ""; "From here on"] +:+ "code" +:+ lf2) =
    Some (Ok (lines_of ["From: a@b"; "To: d"; "Date: e"; ""] +:+ "code" +:+ lf2)).
Proof. vm_compute. reflexivity. Qed.
