(* ===== verification/MessageBuild.v ===== *)
(** * Building a message (pkg/message/build.go, build_custom.go, decrypt.go)

    A message of the API is decrypted and built again as a mail: a header made of the fields the
    API parsed and of what the bridge adds, and a body in one part, with attachments in several,
    or with a signature.

    The writers of the MIME library are used in order; what is done with them is a list of
    operations, which the library turns into text or an error.  OpenPGP, dates and the random
    boundaries are parameters. *)

From stdpp Require Import pretty.
From S2P Require Import Prelude.
From S2P Require Import Strings.
From S2P Require Import Effects.
From S2P Require Import UserEvents.
From S2P Require Import MediaTypes.
From S2P Require Import Charsets.
From S2P Require Import MailHeaders.
From S2P Require Import MboxLines.
From S2P Require Import MessageParts.

(** ** Messages of the API *)

Record MailAddress : Type := mkMailAddress { ma_Name : string; ma_Address : string }.

Record Headers : Type := mkHeaders { Order : list string; Values : gmap string (list string) }.

Record ApiAttachment : Type := mkApiAttachment {
  aa_ID : string; aa_Name : string; aa_MIMEType : string; aa_Disposition : string; aa_Headers : Headers; aa_KeyPackets : string
}.

(** Addresses are pointers. *)
Record ApiMessage : Type := mkApiMessage {
  am_ID : string; am_ExternalID : string; am_Subject : string; am_Sender : option MailAddress; am_ToList : list (option MailAddress);
  am_CCList : list (option MailAddress); am_BCCList : list (option MailAddress); am_ReplyTos : list (option MailAddress); am_Time : Z;
  am_IsDraft : bool; am_MIMEType : string; am_Body : string; am_ParsedHeaders : Headers; am_Attachments : list ApiAttachment
}.

Record DecryptedAttachment : Type := mkDecryptedAttachment { da_Packet : string; da_Encrypted : string; da_Data : string; da_Err : option err }.
Record DecryptedMessage : Type := mkDecryptedMessage {
  Msg : ApiMessage; dm_Body : string; BodyErr : option err; dm_Attachments : list DecryptedAttachment
}.

Record JobOptions : Type := mkJobOptions {
  IgnoreDecryptionErrors : bool; SanitizeDate : bool; AddInternalID : bool; AddExternalID : bool; AddMessageDate : bool;
  AddMessageIDReference : bool; SanitizeMBOXHeaderLine : bool
}.

Definition ErrDecryptionFailed : string := "message could not be decrypted".
Definition ErrInvalidAttachmentPacket : string := "invalid attachment packet".
Definition ErrRNGUnavailable : string := "OS RNG unavailable: cannot generate secure MIME boundary".
Definition InternalIDDomain : string := "protonmail.internalid".

(** Times are seconds since the epoch.  [random] is the random text of the boundaries, by the number made before. *)
Class BuildLib (KeyRing PGPMessage Sig : Type) : Type := {
  DecryptInto : KeyRing -> ApiMessage -> result err string;
  base64_Decode : string -> result err string;
  DecryptStream : KeyRing -> string -> result err (result err string);
  ExtractSignatures : KeyRing -> string -> list Sig;
  sig_Hash : Sig -> string;
  sig_Armored : Sig -> result err string;
  NewPGPMessageFromArmored : string -> result err PGPMessage;
  PGPMessage_of : string -> PGPMessage;
  GetArmoredWithCustomHeaders : PGPMessage -> string -> result err string;
  random : nat -> result err string;
  address_String : MailAddress -> string;
  ParseDateTime : string -> result err Z;
  FormatDate : Z -> string;
  error_text : err -> string
}.

(** ** Decryption (decrypt.go) *)

Section build.
Context {KeyRing PGPMessage Sig : Type} `{BL : BuildLib KeyRing PGPMessage Sig}.

Definition wrap_as (what : string) (e : err) : err := ErrWrap (error_text e) (ErrOther what).

(** What was decrypted before an error is dropped here; nothing reads it when there is one. *)
Definition decrypt_attachment (kr : KeyRing) (attachment : ApiAttachment) (data : string) : DecryptedAttachment :=
  match base64_Decode (aa_KeyPackets attachment) with
  | Err e => mkDecryptedAttachment "" data "" (Some (wrap_as ErrInvalidAttachmentPacket e))
  | Ok kps =>
      match DecryptStream kr (kps +:+ data) with
      | Err e => mkDecryptedAttachment kps data "" (Some (wrap_as ErrDecryptionFailed e))
      | Ok (Err e) => mkDecryptedAttachment kps data "" (Some (wrap_as ErrDecryptionFailed e))
      | Ok (Ok text) => mkDecryptedAttachment kps data text None
      end
  end.

(** [None]: there are fewer data than attachments, and indexing them panics. *)
Fixpoint decrypt_attachments (kr : KeyRing) (attachments : list ApiAttachment) (attData : list string) : option (list DecryptedAttachment) :=
  match attachments with
  | [] => Some []
  | a :: attachments =>
      match attData with
      | [] => None
      | data :: attData => rest ← decrypt_attachments kr attachments attData; Some (decrypt_attachment kr a data :: rest)
      end
  end.

Definition DecryptMessage (kr : KeyRing) (msg : ApiMessage) (attData : list string) : option DecryptedMessage :=
  let '(body, bodyErr) := match DecryptInto kr msg with Ok b => (b, None) | Err e => ("", Some (wrap_as ErrDecryptionFailed e)) end in
  atts ← decrypt_attachments kr (am_Attachments msg) attData;
  Some (mkDecryptedMessage msg body bodyErr atts).

(** ** The header *)

Section headers.
Context {H : Type} `{HL : HeaderLib H} `{ML : MimeLib} {Enc : Type} `{TL : TextLib Enc}.

Definition toMessageHeader (hdr : Headers) : H :=
  foldr (fun key h => foldr (fun value h => h_AddRaw (key +:+ ": " +:+ value +:+ crlf) h) h (default [] (Values hdr !! key))) h_empty (Order hdr).

Definition addressEmpty (address : option MailAddress) : bool :=
  match address with None => true | Some a => String.eqb (ma_Name a) "" && String.eqb (ma_Address a) "" end.

Definition setHeaderIfNeeded (key value : string) (header : H) : H :=
  if h_Has header key && String.eqb (h_Get header key) value then header else h_Set key value header.
Definition setUTF8EncodedHeaderIfNeeded (k v : string) (header : H) : H := setHeaderIfNeeded k (QEncode v) header.

(** A list with a missing address panics in the code; [String] of one is the empty text here. *)
Definition toAddressList (addrs : list (option MailAddress)) : string :=
  String.concat ", " ((fun a => match a with Some a => address_String a | None => "" end) <$> addrs).

Definition setMessageIDIfNeeded (msg : ApiMessage) (hdr : H) : H :=
  if String.eqb (h_Get hdr "Message-Id") "" then
    if negb (String.eqb (am_ExternalID msg) "") then h_Set "Message-Id" ("<" +:+ am_ExternalID msg +:+ ">") hdr
    else h_Set "Message-Id" ("<" +:+ am_ID msg +:+ "@" +:+ InternalIDDomain +:+ ">") hdr
  else hdr.

(** The day RFC 822 was published. *)
Definition rfc822_day : Z := 398044800.
Definition SanitizeMessageDate (msgTime : Z) : Z := if 0 <? msgTime then msgTime else rfc822_day.
(** The zero time, which is returned with an error. *)
Definition zero_time : Z := -62135596800.

Definition when (b : bool) (f : H -> H) (h : H) : H := if b then f h else h.

Definition sanitize_date (msg : ApiMessage) (hdr : H) : H :=
  let '(date, bad) := match ParseDateTime (h_Get hdr "Date") with Ok d => (d, d <? 0) | Err _ => (zero_time, true) end in
  if bad then
    let hdr := setHeaderIfNeeded "Date" (FormatDate (SanitizeMessageDate (am_Time msg))) hdr in
    when (negb (h_Has hdr "X-Original-Date")) (h_Set "X-Original-Date" (FormatDate date)) hdr
  else hdr.

Definition add_reference (msg : ApiMessage) (hdr : H) : H :=
  let refs := h_Values hdr "References" in
  if existsb (fun ref => str_contains ref (am_ID msg)) refs then hdr
  else h_Set "References" (String.concat " " (refs ++ ["<" +:+ am_ID msg +:+ "@" +:+ InternalIDDomain +:+ ">"])) hdr.

(** The fields of the people a message is from and to. *)
Definition add_people (msg : ApiMessage) (hdr : H) : H :=
  let hdr := when (negb (String.eqb (am_Subject msg) "")) (setUTF8EncodedHeaderIfNeeded "Subject" (am_Subject msg)) hdr in
  let hdr := match am_Sender msg with
             | Some a => when (negb (addressEmpty (Some a))) (setHeaderIfNeeded "From" (address_String a)) hdr
             | None => hdr
             end in
  let hdr := when ((0 <? length (am_ReplyTos msg))%nat && negb (am_IsDraft msg) &&
                   (negb (length (am_ReplyTos msg) =? 1)%nat || negb (addressEmpty (default None (am_ReplyTos msg !! 0%nat)))))
               (setHeaderIfNeeded "Reply-To" (toAddressList (am_ReplyTos msg))) hdr in
  let hdr := when (0 <? length (am_ToList msg))%nat (setHeaderIfNeeded "To" (toAddressList (am_ToList msg))) hdr in
  let hdr := when (0 <? length (am_CCList msg))%nat (setHeaderIfNeeded "Cc" (toAddressList (am_CCList msg))) hdr in
  when (0 <? length (am_BCCList msg))%nat (setHeaderIfNeeded "Bcc" (toAddressList (am_BCCList msg))) hdr.

Definition getMessageHeader (msg : ApiMessage) (opts : JobOptions) : H :=
  let hdr := setMessageIDIfNeeded msg (add_people msg (toMessageHeader (am_ParsedHeaders msg))) in
  let hdr := when (SanitizeDate opts) (sanitize_date msg) hdr in
  let hdr := when (AddInternalID opts) (setHeaderIfNeeded "X-Pm-Internal-Id" (am_ID msg)) hdr in
  let hdr := when (AddExternalID opts && negb (String.eqb (am_ExternalID msg) "")) (h_Set "X-Pm-External-Id" ("<" +:+ am_ExternalID msg +:+ ">")) hdr in
  let hdr := when (AddMessageDate opts) (setHeaderIfNeeded "X-Pm-Date" (FormatDate (am_Time msg))) hdr in
  when (AddMessageIDReference opts) (add_reference msg) hdr.

Definition SetContentDisposition (t : string) (ps : gmap string string) (h : H) : H := h_Set "Content-Disposition" (header_format t ps) h.

Definition getTextPartHeader (hdr : H) (body mimeType : string) : H :=
  let params := if utf8_Valid (Enc := Enc) body then {[ "charset" := "utf-8" ]} else ∅ in
  h_Set "Content-Transfer-Encoding" "quoted-printable" (SetContentType mimeType params hdr).

Definition getAttachmentPartHeader (att : ApiAttachment) : H :=
  let encodedName := QEncode (aa_Name att) in
  let hdr := toMessageHeader (aa_Headers att) in
  let hdr := match mime_ParseMediaType (Enc := Enc) (aa_MIMEType att) with
             | Err _ => h_Set "Content-Type" (aa_MIMEType att) hdr
             | Ok (mimeType, params) => SetContentType mimeType (<["filename" := encodedName]> (<["name" := encodedName]> params)) hdr
             end in
  let hdr := SetContentDisposition (aa_Disposition att) {[ "filename" := encodedName ]} hdr in
  if negb (String.eqb (aa_MIMEType att) "message/rfc822") then h_Set "Content-Transfer-Encoding" "base64" hdr
  else h_Del "Content-Transfer-Encoding" hdr.

End headers.

(** ** The body *)

Section bodies.
Context {H : Type} `{HL : HeaderLib H} `{ML : MimeLib} {Enc : Type} `{TL : TextLib Enc}.

(** What is done with the writers of the library; [RawHeader], [RawPart] and those below are of
    its package textproto, which writes what it is given. *)
Inductive build_op : Type :=
| NewMessage (h : H) | OpenPart (h : H) | Data (b : string) | ClosePart | CloseMessage
| RawHeader (h : H) | RawBoundary (b : string) | RawPart (h : H) | RawData (b : string) | CloseRaw.

Record build_state : Type := mkBuildState { ops : list build_op; boundaries : nat }.
Notation M := (eff build_state err).

Definition emit (op : build_op) : M () := modify (fun s => mkBuildState (ops s ++ [op]) (boundaries s)).
Definition lift {A} (r : result err A) : M A := reads (fun _ => r).

Definition newBoundary : M string := fun s =>
  (mkBuildState (ops s) (S (boundaries s)),
   match random (boundaries s) with Ok b => Ok b | Err e => Err (ErrWrap ErrRNGUnavailable e) end).

Definition createPart (hdr : H) (fn : M ()) : M () := emit (OpenPart hdr) ≫= fun _ => fn ≫= fun _ => emit ClosePart.
Definition writePart (hdr : H) (body : string) : M () := createPart hdr (emit (Data body)).

(** The part of a text that was not decrypted is not closed. *)
Definition writeCustomTextPart (decrypted : DecryptedMessage) (decError : err) : M () :=
  enc ← lift (NewPGPMessageFromArmored (am_Body (Msg decrypted)));
  arm ← lift (GetArmoredWithCustomHeaders enc ("This message could not be decrypted: " +:+ error_text decError));
  emit (OpenPart (SetContentType (am_MIMEType (Msg decrypted)) ∅ h_empty)) ≫= fun _ => emit (Data arm).

Definition writeCustomAttachmentPart (att : ApiAttachment) (msg : PGPMessage) (decError : err) : M () :=
  arm ← lift (GetArmoredWithCustomHeaders msg ("This attachment could not be decrypted: " +:+ error_text decError));
  let filename := QEncode (aa_Name att +:+ ".pgp") in
  let hdr := SetContentDisposition (aa_Disposition att) {[ "filename" := filename ]} (SetContentType "application/octet-stream" {[ "name" := filename ]} h_empty) in
  emit (OpenPart hdr) ≫= fun _ => emit (Data arm) ≫= fun _ => emit ClosePart.

Definition writeTextPart (decrypted : DecryptedMessage) (opts : JobOptions) : M () :=
  match BodyErr decrypted with
  | Some e => if negb (IgnoreDecryptionErrors opts) then fails e else writeCustomTextPart decrypted e
  | None => writePart (getTextPartHeader (Enc := Enc) h_empty (dm_Body decrypted) (am_MIMEType (Msg decrypted))) (dm_Body decrypted)
  end.

Definition writeAttachmentPart (opts : JobOptions) (att : ApiAttachment * DecryptedAttachment) : M () :=
  let '(att, data) := att in
  match da_Err data with
  | Some e =>
      if negb (IgnoreDecryptionErrors opts) then fails e
      else writeCustomAttachmentPart att (PGPMessage_of (da_Packet data +:+ da_Encrypted data)) e
  | None => writePart (getAttachmentPartHeader (Enc := Enc) att) (da_Data data)
  end.

Definition boundary_params (boundary : string) : gmap string string := {[ "boundary" := boundary ]}.

Definition writeRelatedParts (decrypted : DecryptedMessage) (atts : list (ApiAttachment * DecryptedAttachment)) (opts : JobOptions) : M () :=
  boundary ← newBoundary;
  createPart (SetContentType "multipart/related" (boundary_params boundary) h_empty)
    (writeTextPart decrypted opts ≫= fun _ => for_each atts (writeAttachmentPart opts)).

Definition is_inline (att : ApiAttachment * DecryptedAttachment) : bool := String.eqb (aa_Disposition att.1) "inline".
(** The attachments with their data; decryption gives as many as there are attachments. *)
Definition with_data (decrypted : DecryptedMessage) : list (ApiAttachment * DecryptedAttachment) := combine (am_Attachments (Msg decrypted)) (dm_Attachments decrypted).

Definition buildMultipartRFC822 (decrypted : DecryptedMessage) (opts : JobOptions) : M () :=
  boundary ← newBoundary;
  emit (NewMessage (SetContentType "multipart/mixed" (boundary_params boundary) (getMessageHeader (Msg decrypted) opts))) ≫= fun _ =>
  let inlineAtts := Prelude.Filter (with_data decrypted) is_inline in
  let attachAtts := Prelude.Filter (with_data decrypted) (fun att => negb (is_inline att)) in
  (if (0 <? length inlineAtts)%nat then writeRelatedParts decrypted inlineAtts opts else writeTextPart decrypted opts) ≫= fun _ =>
  for_each attachAtts (writeAttachmentPart opts) ≫= fun _ =>
  emit CloseMessage.

Definition buildSimpleRFC822 (decrypted : DecryptedMessage) (opts : JobOptions) : M () :=
  match BodyErr decrypted with
  | Some e => if negb (IgnoreDecryptionErrors opts) then fails e else buildMultipartRFC822 decrypted opts
  | None =>
      emit (NewMessage (getTextPartHeader (Enc := Enc) (getMessageHeader (Msg decrypted) opts) (dm_Body decrypted) (am_MIMEType (Msg decrypted)))) ≫= fun _ =>
      emit (Data (dm_Body decrypted)) ≫= fun _ => emit CloseMessage
  end.

Definition buildPGPMIMEFallbackRFC822 (decrypted : DecryptedMessage) (opts : JobOptions) : M () :=
  boundary ← newBoundary;
  emit (NewMessage (SetContentType "multipart/encrypted" (<["protocol" := "application/pgp-encrypted"]> (boundary_params boundary)) (getMessageHeader (Msg decrypted) opts))) ≫= fun _ =>
  writePart (h_Set "Content-Description" "PGP/MIME version identification" (SetContentType "application/pgp-encrypted" ∅ h_empty)) "Version: 1" ≫= fun _ =>
  writePart (h_Set "Content-Description" "OpenPGP encrypted message"
              (SetContentDisposition "inline" {[ "filename" := "encrypted.asc" ]} (SetContentType "application/octet-stream" {[ "name" := "encrypted.asc" ]} h_empty)))
    (am_Body (Msg decrypted)) ≫= fun _ =>
  emit CloseMessage.

Variable SplitHeaderBodyV2Disabled : bool.

Definition writeMultipartSignedRFC822 (header : H) (body : string) (sig : Sig) : M () :=
  boundary ← newBoundary;
  emit (RawHeader (SetContentType "multipart/signed" (<["micalg" := sig_Hash sig]> (<["protocol" := "application/pgp-signature"]> (boundary_params boundary))) header)) ≫= fun _ =>
  emit (RawBoundary boundary) ≫= fun _ =>
  let '(bodyHeader, bodyData) := readHeaderBody (H := H) SplitHeaderBodyV2Disabled body in
  emit (RawPart bodyHeader) ≫= fun _ =>
  emit (RawData bodyData) ≫= fun _ =>
  emit (RawPart (h_Set "Content-Description" "OpenPGP digital signature"
    (SetContentDisposition "attachment" {[ "filename" := "OpenPGP_signature" ]} (SetContentType "application/pgp-signature" {[ "name" := "OpenPGP_signature.asc" ]} h_empty)))) ≫= fun _ =>
  sigData ← lift (sig_Armored sig);
  emit (RawData sigData) ≫= fun _ => emit CloseRaw.

(** The fields of the body that the message does not have. *)
Definition merge_fields (header bodyHeader : H) : H :=
  foldl (fun h '(k, v) => if negb (h_Has h k) then h_Set k v h else h) (h_Del "Content-Type" header) (h_Fields bodyHeader).
Definition writeMultipartEncryptedRFC822 (header : H) (body : string) : M () :=
  let '(bodyHeader, bodyData) := readHeaderBody (H := H) SplitHeaderBodyV2Disabled body in
  emit (RawHeader (merge_fields header bodyHeader)) ≫= fun _ => emit (RawData bodyData).

Definition buildPGPRFC822 (kr : KeyRing) (decrypted : DecryptedMessage) (opts : JobOptions) : M () :=
  match BodyErr decrypted with
  | Some e => if negb (IgnoreDecryptionErrors opts) then fails e else buildPGPMIMEFallbackRFC822 decrypted opts
  | None =>
      let hdr := getMessageHeader (Msg decrypted) opts in
      match ExtractSignatures kr (am_Body (Msg decrypted)) with
      | sig :: _ => writeMultipartSignedRFC822 hdr (dm_Body decrypted) sig
      | [] => writeMultipartEncryptedRFC822 hdr (dm_Body decrypted)
      end
  end.

Definition sanitized (decrypted : DecryptedMessage) (opts : JobOptions) : result err DecryptedMessage :=
  if MessageBuild.SanitizeMBOXHeaderLine opts then
    match sanitizeMBOXHeaderLine (dm_Body decrypted) with
    | Some (Ok body) => Ok (mkDecryptedMessage (Msg decrypted) body (BodyErr decrypted) (dm_Attachments decrypted))
    | Some (Err e) => Err (ErrWrap "failed to sanitize MBOX header" e)
    | None => Err (ErrOther "the loop does not end")
    end
  else Ok decrypted.

Definition BuildRFC822Into (kr : KeyRing) (decrypted : DecryptedMessage) (opts : JobOptions) : M () :=
  decrypted ← lift (sanitized decrypted opts);
  if (0 <? length (am_Attachments (Msg decrypted)))%nat then buildMultipartRFC822 decrypted opts
  else if String.eqb (am_MIMEType (Msg decrypted)) "multipart/mixed" then buildPGPRFC822 kr decrypted opts
  else buildSimpleRFC822 decrypted opts.

(** What the library makes of the operations: the text, or the error of the first it refuses. *)
Class BuildWriter : Type := write_ops : list build_op -> result err string.

(** [None]: a panic. *)
Definition DecryptAndBuildRFC822 `{BW : BuildWriter} (kr : KeyRing) (msg : ApiMessage) (attData : list string) (opts : JobOptions) : option (result err string) :=
  decrypted ← DecryptMessage kr msg attData;
  Some (let '(s, r) := BuildRFC822Into kr decrypted opts (mkBuildState [] 0) in
        text ← write_ops (ops s);
        match r with Ok _ => Ok text | Err e => Err e end).

End bodies.
End build.
Arguments build_op H : clear implicits.
Arguments NewMessage {H} _.
Arguments OpenPart {H} _.
Arguments Data {H} _.
Arguments ClosePart {H}.
Arguments CloseMessage {H}.
Arguments RawHeader {H} _.
Arguments RawBoundary {H} _.
Arguments RawPart {H} _.
Arguments RawData {H} _.
Arguments CloseRaw {H}.
Arguments build_state H : clear implicits.
Arguments mkBuildState {H} _ _.
Arguments ops {H} _.
Arguments boundaries {H} _.

(** ** The header has what the bridge needs *)

Section header_facts.
Context {KeyRing PGPMessage Sig : Type} `{BL : BuildLib KeyRing PGPMessage Sig} {H : Type} `{HW : HeaderLaws H} `{ML : MimeLib}.

Lemma get_needed k v (h : H) : h_Get (setHeaderIfNeeded k v h) k = v.
Proof.
  unfold setHeaderIfNeeded. destruct (h_Has h k && String.eqb (h_Get h k) v) eqn:Hk; [|by rewrite get_set, EqualFold_refl].
  apply andb_true_iff in Hk as [_ Hk]. by apply String.eqb_eq in Hk.
Qed.

Lemma get_needed_ne k v (h : H) k' : EqualFold k k' = false -> h_Get (setHeaderIfNeeded k v h) k' = h_Get h k'.
Proof. intros Hk. unfold setHeaderIfNeeded. destruct (_ && _); [done|]. by rewrite get_set, Hk. Qed.

Lemma get_when b (f : H -> H) h k : (forall h, h_Get (f h) k = h_Get h k) -> h_Get (when b f h) k = h_Get h k.
Proof. intros Hf. destruct b; [apply Hf|done]. Qed.

(** A step leaves a field alone. *)
Definition leaves_field (k : string) (f : H -> H) : Prop := forall h, h_Get (f h) k = h_Get h k.

Lemma leaves_needed k k' v : EqualFold k k' = false -> leaves_field k' (setHeaderIfNeeded k v).
Proof. intros Hk h. by apply get_needed_ne. Qed.
Lemma leaves_set k k' v : EqualFold k k' = false -> leaves_field k' (h_Set k v).
Proof. intros Hk h. by rewrite get_set, Hk. Qed.
Lemma leaves_when b f k : leaves_field k f -> leaves_field k (when b f).
Proof. intros Hf h. by apply get_when. Qed.
Lemma leaves_reference msg k : EqualFold "References" k = false -> leaves_field k (add_reference msg).
Proof. intros Hk h. unfold add_reference. destruct (existsb _ _); [done|]. by rewrite get_set, Hk. Qed.
Lemma leaves_date msg k : EqualFold "Date" k = false -> EqualFold "X-Original-Date" k = false -> leaves_field k (sanitize_date msg).
Proof.
  intros H1 H2 h. unfold sanitize_date. destruct (match ParseDateTime _ with Ok d => _ | Err _ => _ end) as [d [|]]; [|done].
  rewrite (leaves_when _ _ k (leaves_set _ _ _ H2)). by apply get_needed_ne.
Qed.

Lemma when_reference b msg (h : H) k : EqualFold "References" k = false -> h_Get (when b (add_reference msg) h) k = h_Get h k.
Proof. intros Hk. by apply get_when, leaves_reference. Qed.
Lemma when_needed b k v (h : H) k' : EqualFold k k' = false -> h_Get (when b (setHeaderIfNeeded k v) h) k' = h_Get h k'.
Proof. intros Hk. by apply get_when, leaves_needed. Qed.
Lemma when_set b k v (h : H) k' : EqualFold k k' = false -> h_Get (when b (h_Set k v) h) k' = h_Get h k'.
Proof. intros Hk. by apply get_when, leaves_set. Qed.

(** The steps after the identifier of the message. *)
Definition later_steps (msg : ApiMessage) (opts : JobOptions) (h : H) : H :=
  when (AddMessageIDReference opts) (add_reference msg)
    (when (AddMessageDate opts) (setHeaderIfNeeded "X-Pm-Date" (FormatDate (am_Time msg)))
      (when (AddExternalID opts && negb (String.eqb (am_ExternalID msg) "")) (h_Set "X-Pm-External-Id" ("<" +:+ am_ExternalID msg +:+ ">"))
        (when (AddInternalID opts) (setHeaderIfNeeded "X-Pm-Internal-Id" (am_ID msg)) (when (SanitizeDate opts) (sanitize_date msg) h)))).

Lemma getMessageHeader_steps msg opts :
  getMessageHeader (H := H) msg opts = later_steps msg opts (setMessageIDIfNeeded msg (add_people msg (toMessageHeader (am_ParsedHeaders msg)))).
Proof. reflexivity. Qed.

Lemma message_id_set msg (h : H) : h_Get (setMessageIDIfNeeded msg h) "Message-Id" <> "".
Proof.
  unfold setMessageIDIfNeeded. destruct (String.eqb_spec (h_Get h "Message-Id") "") as [_|Hne]; [|done].
  destruct (negb _); rewrite get_set; simpl; discriminate.
Qed.

Lemma later_keeps msg opts (h : H) k :
  forallb (fun s => negb (EqualFold s k)) ["References"; "X-Pm-Date"; "X-Pm-External-Id"; "X-Pm-Internal-Id"; "Date"; "X-Original-Date"] = true ->
  h_Get (later_steps msg opts h) k = h_Get h k.
Proof.
  cbn [forallb]. rewrite !andb_true_iff, !negb_true_iff. intros (H1 & H2 & H3 & H4 & H5 & H6 & _). unfold later_steps.
  rewrite !get_when; [done|..]; [by apply leaves_date|by apply leaves_needed|by apply leaves_set|by apply leaves_needed|by apply leaves_reference].
Qed.

Lemma reference_added msg (h : H) : exists ref, ref ∈ h_Values (add_reference msg h) "References" /\ str_contains ref (am_ID msg) = true.
Proof.
  unfold add_reference. destruct (existsb _ _) eqn:He.
  - apply existsb_exists in He as (ref & Hin & Hc). exists ref. split; [by apply list_elem_of_In|done].
  - rewrite values_set. simpl. eexists. split; [left|]. set (id := am_ID msg). set (refs := h_Values h "References").
    assert (Hend : str_contains ("<" +:+ id +:+ "@" +:+ InternalIDDomain +:+ ">") id = true) by apply (str_contains_mid "<").
    induction refs as [|r rs IH]; [exact Hend|]. change ((r :: rs) ++ ["<" +:+ id +:+ "@" +:+ InternalIDDomain +:+ ">"]) with (r :: (rs ++ ["<" +:+ id +:+ "@" +:+ InternalIDDomain +:+ ">"])).
    assert (Hcons : String.concat " " (r :: (rs ++ ["<" +:+ id +:+ "@" +:+ InternalIDDomain +:+ ">"])) = (r +:+ " ") +:+ String.concat " " (rs ++ ["<" +:+ id +:+ "@" +:+ InternalIDDomain +:+ ">"])).
    { rewrite str_app_assoc. by destruct rs. }
    rewrite Hcons. revert IH. generalize (String.concat " " (rs ++ ["<" +:+ id +:+ "@" +:+ InternalIDDomain +:+ ">"])) as s. generalize (r +:+ " ") as t. clear.
    intros t s Hs. induction t as [|c t IH]; [done|]. change (String c t +:+ s) with (String c (t +:+ s)). cbn [str_contains]. by rewrite IH, orb_true_r.
Qed.

(** The fields the bridge adds. *)
Definition added_fields : list string :=
  ["References"; "X-Pm-Date"; "X-Pm-External-Id"; "X-Pm-Internal-Id"; "Date"; "X-Original-Date"; "Message-Id"; "Subject"; "From"; "Reply-To"; "To"; "Cc"; "Bcc"].
Definition not_added (k : string) : bool := forallb (fun s => negb (EqualFold s k)) added_fields.

Lemma people_keep msg (h : H) k : not_added k = true -> h_Get (setMessageIDIfNeeded msg (add_people msg h)) k = h_Get h k.
Proof.
  unfold not_added, added_fields. cbn [forallb]. rewrite !andb_true_iff, !negb_true_iff. intros (_ & _ & _ & _ & _ & _ & H1 & H2 & H3 & H4 & H5 & H6 & H7 & _).
  assert (Hid : leaves_field k (setMessageIDIfNeeded msg)).
  { intros h'. unfold setMessageIDIfNeeded. destruct (String.eqb _ ""); [|done]. destruct (negb _); by rewrite get_set, H1. }
  rewrite Hid. unfold add_people. rewrite !when_needed by done. destruct (am_Sender msg); rewrite ?when_needed by done; apply get_when, leaves_needed; done.
Qed.

(** The header of a built message has an identifier, and what the options ask for: the message's
    internal identifier, its date, and a reference to it; any date it has can be read and is not before
    the epoch, or is the one the bridge chose. Fields the bridge does not add are those of the message. *)
Theorem getMessageHeader_spec (msg : ApiMessage) (opts : JobOptions) :
  let h : H := getMessageHeader msg opts in
  h_Get h "Message-Id" <> "" /\
  (AddInternalID opts = true -> h_Get h "X-Pm-Internal-Id" = am_ID msg) /\
  (AddMessageDate opts = true -> h_Get h "X-Pm-Date" = FormatDate (am_Time msg)) /\
  (AddMessageIDReference opts = true -> exists ref, ref ∈ h_Values h "References" /\ str_contains ref (am_ID msg) = true) /\
  (SanitizeDate opts = true -> (exists d, ParseDateTime (h_Get h "Date") = Ok d /\ 0 <= d) \/ h_Get h "Date" = FormatDate (SanitizeMessageDate (am_Time msg))) /\
  (forall k, not_added k = true -> h_Get h k = h_Get (toMessageHeader (am_ParsedHeaders msg) : H) k).
Proof.
  intros h. unfold h. rewrite getMessageHeader_steps. set (h0 := setMessageIDIfNeeded msg _).
  split; [rewrite later_keeps by reflexivity; apply message_id_set|]. split; [|split; [|split; [|split]]]; [..|intros k Hk; rewrite later_keeps; [by apply people_keep|unfold not_added, added_fields in Hk; cbn [forallb] in *; rewrite !andb_true_iff in *; tauto]]; unfold later_steps.
  - intros ->. rewrite when_reference, when_needed, when_set by done. apply get_needed.
  - intros ->. rewrite when_reference by done. apply get_needed.
  - intros ->. apply reference_added.
  - intros ->. rewrite when_reference, when_needed, when_set, when_needed by done. cbn [when].
    unfold sanitize_date. destruct (ParseDateTime (h_Get h0 "Date")) as [d|e] eqn:Hd.
    + destruct (d <? 0) eqn:Hneg; [right; rewrite when_set by done; apply get_needed|left; exists d; split; [done|by apply Z.ltb_ge]].
    + right. rewrite when_set by done. apply get_needed.
Qed.

End header_facts.

(** ** What is written *)

Section body_facts.
Context {KeyRing PGPMessage Sig : Type} `{BL : BuildLib KeyRing PGPMessage Sig} {H : Type} `{HL : HeaderLib H} `{ML : MimeLib} {Enc : Type} `{TL : TextLib Enc}.
Notation M := (eff (build_state H) err).

(** The texts among the operations. *)
Definition data_of (ops : list (build_op H)) : list string := omap (fun op => match op with Data b => Some b | _ => None end) ops.

(** How deep writers are nested after the operations; [None]: one is closed that was not opened. *)
Definition depth_op (op : build_op H) (d : nat) : option nat :=
  match op with NewMessage _ | OpenPart _ => Some (S d) | ClosePart | CloseMessage => match d with S d => Some d | O => None end | _ => Some d end.
Fixpoint depth (ops : list (build_op H)) (d : nat) : option nat :=
  match ops with [] => Some d | op :: ops => depth_op op d ≫= depth ops end.

Lemma depth_app os os' d : depth (os ++ os') d = depth os d ≫= depth os'.
Proof. revert d. induction os as [|op os IH]; intros d; [done|]. cbn [depth app]. destruct (depth_op op d); [apply IH|done]. Qed.

(** [m] succeeds, writes the texts [ds], and [up] more writers are open afterwards. *)
Definition gives (m : M ()) (up : nat) (ds : list string) : Prop :=
  forall s, exists os n, m s = (mkBuildState (ops s ++ os) n, Ok ()) /\ data_of os = ds /\ forall d, depth os d = Some (up + d)%nat.

Lemma gives_bind m f up up' ds ds' : gives m up ds -> gives (f ()) up' ds' -> gives (m ≫= f) (up' + up) (ds ++ ds').
Proof.
  intros Hm Hf s. destruct (Hm s) as (os & n & Hos & Hds & Hd). destruct (Hf (mkBuildState (ops s ++ os) n)) as (os' & n' & Hos' & Hds' & Hd').
  exists (os ++ os'), n'. unfold mbind, eff_bind. rewrite Hos, Hos'. cbn [ops]. rewrite <- app_assoc. split; [done|].
  split; [unfold data_of in *; by rewrite omap_app, Hds, Hds'|]. intros d. rewrite depth_app, Hd. cbn [mbind option_bind]. rewrite Hd'. f_equal. lia.
Qed.

Lemma gives_emit op up : (forall d, depth_op op d = Some (up + d)%nat) -> gives (emit op) up (data_of [op]).
Proof. intros Hop [o n]. exists [op], n. split; [done|]. split; [done|]. intros d. cbn [depth]. by rewrite Hop. Qed.

(** Between opening and closing a writer. *)
Lemma gives_within open close (m : M ()) ds : (forall d, depth_op open d = Some (S d)) -> (forall d, depth_op close (S d) = Some d) ->
  data_of [open] = [] -> data_of [close] = [] -> gives m 0 ds -> gives (emit open ≫= fun _ => m ≫= fun _ => emit close) 0 ds.
Proof.
  intros Ho Hc Hdo Hdc Hm s. destruct (Hm (mkBuildState (ops s ++ [open]) (boundaries s))) as (os & n & Hos & Hds & Hd).
  exists (open :: os ++ [close]), n. unfold mbind, eff_bind. unfold emit at 1, modify. rewrite Hos. unfold emit, modify. cbn [ops boundaries].
  rewrite <- !app_assoc. split; [done|]. change (open :: os ++ [close]) with ([open] ++ os ++ [close]).
  split; [unfold data_of in *; by rewrite !omap_app, Hdo, Hds, Hdc, app_nil_r|].
  intros d. cbn [app depth]. rewrite Ho. cbn [mbind option_bind]. rewrite depth_app, Hd. cbn [mbind option_bind depth plus]. by rewrite Hc.
Qed.

(** The same, with two things between. *)
Lemma gives_within_2 open close (m m' : M ()) ds ds' : (forall d, depth_op open d = Some (S d)) -> (forall d, depth_op close (S d) = Some d) ->
  data_of [open] = [] -> data_of [close] = [] -> gives m 0 ds -> gives m' 0 ds' ->
  gives (emit open ≫= fun _ => m ≫= fun _ => m' ≫= fun _ => emit close) 0 (ds ++ ds').
Proof.
  intros Ho Hc Hdo Hdc Hm Hm' s. destruct (gives_within open close (m ≫= fun _ => m') _ Ho Hc Hdo Hdc (gives_bind m _ 0 0 _ _ Hm Hm') s) as (os & n & Hrun & Hrest).
  exists os, n. split; [|exact Hrest]. rewrite <- Hrun. unfold mbind, eff_bind. destruct (emit open s) as [s1 [[]|]]; [|done]. by destruct (m s1) as [s2 [[]|]].
Qed.

Lemma gives_part hdr (m : M ()) ds : gives m 0 ds -> gives (createPart hdr m) 0 ds.
Proof. intros Hm. by apply gives_within. Qed.

Lemma gives_writePart hdr body : gives (writePart hdr body) 0 [body].
Proof. apply gives_part. by apply (gives_emit (Data body) 0). Qed.

Lemma gives_for_each {A} (l : list A) (f : A -> M ()) (g : A -> string) : (forall a, a ∈ l -> gives (f a) 0 [g a]) -> gives (for_each l f) 0 (g <$> l).
Proof.
  induction l as [|a l IH]; intros Hf; cbn [for_each].
  - intros [o n]. exists [], n. split; [by cbn [ops]; rewrite app_nil_r|done].
  - rewrite fmap_cons. change (g a :: (g <$> l)) with ([g a] ++ (g <$> l)). apply (gives_bind (f a) _ 0 0); [apply Hf; left|]. apply IH. intros b Hb. apply Hf. by right.
Qed.

Lemma gives_boundary (f : string -> M ()) up ds : (forall n, is_ok (random n) = true) -> (forall b, gives (f b) up ds) -> gives (newBoundary ≫= f) up ds.
Proof.
  intros Hr Hf [o n]. specialize (Hr n). unfold mbind, eff_bind, newBoundary. cbn [ops boundaries]. destruct (random n) as [b|]; [|done]. apply (Hf b (mkBuildState o (S n))).
Qed.

Definition all_decrypted (decrypted : DecryptedMessage) : Prop :=
  BodyErr decrypted = None /\ Forall (fun a => da_Err a.2 = None) (with_data decrypted).

Lemma gives_text decrypted opts : BodyErr decrypted = None -> gives (writeTextPart (Enc := Enc) decrypted opts) 0 [dm_Body decrypted].
Proof. intros He. unfold writeTextPart. rewrite He. apply gives_writePart. Qed.

Lemma gives_attachment opts a : da_Err a.2 = None -> gives (writeAttachmentPart (Enc := Enc) opts a) 0 [da_Data a.2].
Proof. destruct a as [att data]. intros He. cbn in He. unfold writeAttachmentPart. rewrite He. apply gives_writePart. Qed.


(** ** When building fails *)

(** [m] succeeds whatever was done before. *)
Definition succeeds {A} (m : M A) : Prop := forall s, is_ok (m s).2 = true.

Lemma succeeds_bind {A B} (m : M A) (f : A -> M B) : succeeds m -> (forall a, succeeds (f a)) -> succeeds (m ≫= f).
Proof. intros Hm Hf s. unfold mbind, eff_bind. specialize (Hm s). destruct (m s) as [s' [a|e]]; [apply Hf|done]. Qed.
Lemma succeeds_emit op : succeeds (emit op).
Proof. by intros s. Qed.
Lemma succeeds_lift {A} (r : result err A) : is_ok r = true -> succeeds (lift r).
Proof. by intros Hr s. Qed.
Lemma succeeds_for_each {A} (l : list A) (f : A -> M ()) : (forall a, succeeds (f a)) -> succeeds (for_each l f).
Proof. intros Hf. induction l as [|a l IH]; cbn [for_each]; [by intros s|]. apply succeeds_bind; [done|]. by intros []. Qed.

(** The libraries never fail: random text, armored text, signatures. *)
Definition library_works : Prop :=
  (forall n, is_ok (random n) = true) /\ (forall s, is_ok (NewPGPMessageFromArmored s) = true) /\
  (forall m s, is_ok (GetArmoredWithCustomHeaders m s) = true) /\ (forall sig, is_ok (sig_Armored sig) = true).

Hypothesis Hlib : library_works.

Lemma succeeds_boundary : succeeds newBoundary.
Proof. intros s. unfold newBoundary. simpl. destruct Hlib as [Hr _]. specialize (Hr (boundaries s)). by destruct (random _). Qed.
Lemma succeeds_part hdr (m : M ()) : succeeds m -> succeeds (createPart hdr m).
Proof. intros Hm. apply succeeds_bind; [apply succeeds_emit|]. intros _. apply succeeds_bind; [done|]. intros _. apply succeeds_emit. Qed.
Lemma succeeds_text decrypted opts : IgnoreDecryptionErrors opts = true -> succeeds (writeTextPart (Enc := Enc) decrypted opts).
Proof.
  intros Hi. unfold writeTextPart. destruct (BodyErr decrypted); [|apply succeeds_part, succeeds_emit]. rewrite Hi. cbn [negb]. destruct Hlib as (_ & H1 & H2 & _).
  apply succeeds_bind; [by apply succeeds_lift|]. intros enc. apply succeeds_bind; [by apply succeeds_lift|]. intros arm. apply succeeds_bind; [apply succeeds_emit|].
  intros _. apply succeeds_emit.
Qed.
Lemma succeeds_attachment opts a : IgnoreDecryptionErrors opts = true -> succeeds (writeAttachmentPart (Enc := Enc) opts a).
Proof.
  intros Hi. destruct a as [att data]. unfold writeAttachmentPart. destruct (da_Err data); [|apply succeeds_part, succeeds_emit]. rewrite Hi. cbn [negb]. destruct Hlib as (_ & _ & H2 & _).
  apply succeeds_bind; [by apply succeeds_lift|]. intros arm. apply succeeds_bind; [apply succeeds_emit|]. intros _. apply succeeds_bind; [apply succeeds_emit|]. intros _. apply succeeds_emit.
Qed.
Lemma succeeds_multipart decrypted opts : IgnoreDecryptionErrors opts = true -> succeeds (buildMultipartRFC822 (Enc := Enc) decrypted opts).
Proof.
  intros Hi. apply succeeds_bind; [apply succeeds_boundary|]. intros b. apply succeeds_bind; [apply succeeds_emit|]. intros _. apply succeeds_bind.
  - destruct (0 <? _)%nat; [|by apply succeeds_text]. apply succeeds_bind; [apply succeeds_boundary|]. intros b'. apply succeeds_part.
    apply succeeds_bind; [by apply succeeds_text|]. intros _. apply succeeds_for_each. intros a. by apply succeeds_attachment.
  - intros _. apply succeeds_bind; [apply succeeds_for_each; intros a; by apply succeeds_attachment|]. intros _. apply succeeds_emit.
Qed.

Ltac emits := repeat first [apply succeeds_emit | apply succeeds_boundary | (apply succeeds_bind; [|intros ?]) | apply succeeds_part].


End body_facts.

(** ** Decryption *)

Section decrypt_facts.
Context {KeyRing PGPMessage Sig : Type} `{BL : BuildLib KeyRing PGPMessage Sig}.

Lemma decrypt_attachments_panics kr (atts : list ApiAttachment) (attData : list string) :
  decrypt_attachments kr atts attData = None <-> (length attData < length atts)%nat.
Proof.
  revert attData. induction atts as [|a atts IH]; intros attData; cbn [decrypt_attachments length]; [split; [done|lia]|].
  destruct attData as [|data attData]; cbn [length]; [split; [lia|done]|].
  rewrite <- Nat.succ_lt_mono, <- IH. destruct (decrypt_attachments kr atts attData); cbn [mbind option_bind]; split; congruence.
Qed.

Lemma decrypt_attachments_are kr (atts : list ApiAttachment) (attData : list string) das :
  decrypt_attachments kr atts attData = Some das -> das = zip_with (decrypt_attachment kr) atts attData /\ length das = length atts.
Proof.
  revert attData das. induction atts as [|a atts IH]; intros attData das; cbn [decrypt_attachments]; [by intros [= <-]|].
  destruct attData as [|data attData]; [done|]. destruct (decrypt_attachments kr atts attData) as [rest|] eqn:Hr; [|done].
  cbn [mbind option_bind]. intros [= <-]. destruct (IH _ _ Hr) as [-> Hlen]. split; [done|]. cbn [length]. by rewrite Hlen.
Qed.

Lemma decrypt_attachment_keeps kr a data : da_Encrypted (decrypt_attachment kr a data) = data /\ (da_Err (decrypt_attachment kr a data) <> None -> da_Data (decrypt_attachment kr a data) = "").
Proof. unfold decrypt_attachment. destruct (base64_Decode _); [|done]. by destruct (DecryptStream _ _) as [[]|]. Qed.

(** Decrypting a message panics exactly when fewer data than attachments were downloaded. Otherwise the
    message is kept, there is one result for each attachment, in order, with the data it was made of; a failure
    to decrypt the body or an attachment is recorded there and does not stop the others. *)
Theorem DecryptMessage_spec (kr : KeyRing) (msg : ApiMessage) (attData : list string) :
  (DecryptMessage kr msg attData = None <-> (length attData < length (am_Attachments msg))%nat) /\
  (forall d, DecryptMessage kr msg attData = Some d ->
    Msg d = msg /\ dm_Attachments d = zip_with (decrypt_attachment kr) (am_Attachments msg) attData /\
    length (dm_Attachments d) = length (am_Attachments msg) /\
    (BodyErr d = None <-> is_ok (DecryptInto kr msg) = true) /\
    (forall da, da ∈ dm_Attachments d -> da_Encrypted da ∈ attData)).
Proof.
  unfold DecryptMessage. destruct (match DecryptInto kr msg with Ok _ => _ | Err _ => _ end) as [body bodyErr] eqn:Hb. split.
  - rewrite <- (decrypt_attachments_panics kr). destruct (decrypt_attachments _ _ _); cbn [mbind option_bind]; split; congruence.
  - intros d. destruct (decrypt_attachments _ _ _) as [das|] eqn:Ha; [|done]. cbn [mbind option_bind]. intros [= <-]. cbn [Msg dm_Attachments BodyErr].
    destruct (decrypt_attachments_are _ _ _ _ Ha) as [-> Hlen]. split; [done|]. split; [done|]. split; [done|]. split.
    + destruct (DecryptInto kr msg); injection Hb as <- <-; done.
    + intros da Hda. apply elem_of_lookup_zip_with in Hda as (i & a & data & -> & _ & Hi).
      rewrite (proj1 (decrypt_attachment_keeps kr a data)). by eapply list_elem_of_lookup_2.
Qed.

End decrypt_facts.

(** ** Examples *)

Section examples.
Local Existing Instances list_header simple_mime.

Definition ex_text_lib : TextLib () :=
  {| htmlindex_Get := fun _ => Some (); decode_with := fun _ s => Ok s; Utf7 := (); utf8_Valid := fun _ => true; DetermineEncoding := fun _ _ => ();
     WordDec_DecodeHeader := fun s => Ok s; mime_ParseMediaType := fun s => Ok (s, ∅) |}.

(** A text is decrypted to itself, except the one of garbage; a message that says so is signed. *)
Definition ex_build : BuildLib () string string :=
  {| DecryptInto := fun _ m => if String.eqb (am_Body m) "garbage" then Err (ErrOther "no key") else Ok (am_Body m);
     base64_Decode := Ok; DecryptStream := fun _ s => if String.eqb s "garbage" then Err (ErrOther "no key") else Ok (Ok s);
     ExtractSignatures := fun _ s => if String.prefix "signed" s then ["sig"] else []; sig_Hash := fun _ => "pgp-sha512"; sig_Armored := Ok;
     NewPGPMessageFromArmored := Ok; PGPMessage_of := fun s => s; GetArmoredWithCustomHeaders := fun m c => Ok (c +:+ m);
     random := fun n => Ok ("b" +:+ pretty n); address_String := ma_Address; ParseDateTime := fun s => if String.eqb s "" then Err (ErrOther "no date") else Ok 7;
     FormatDate := fun _ => "a date"; error_text := fun _ => "no key" |}.
Local Existing Instances ex_text_lib ex_build.

Definition no_headers : Headers := mkHeaders [] ∅.
Definition ex_attachment (id disposition : string) : ApiAttachment := mkApiAttachment id id "image/png" disposition no_headers "".
Definition ex_message (mime body : string) (atts : list ApiAttachment) : ApiMessage :=
  mkApiMessage "id" "ext" "hello" (Some (mkMailAddress "" "a@b")) [Some (mkMailAddress "" "c@d")] [] [] [] 7 false mime body no_headers atts.
Definition ex_options : JobOptions := mkJobOptions true true true true true true false.
Definition ex_two : ApiMessage := ex_message "text/html" "text" [ex_attachment "1" "attachment"; ex_attachment "2" "inline"].
Definition ex_decrypted : DecryptedMessage :=
  mkDecryptedMessage ex_two "text" None [mkDecryptedAttachment "" "one" "one" None; mkDecryptedAttachment "" "two" "two" None].

Example two_decrypted : DecryptMessage () ex_two ["one"; "two"] = Some ex_decrypted.
Proof. vm_compute. reflexivity. Qed.
Example one_missing : DecryptMessage () ex_two ["one"] = None.
Proof. reflexivity. Qed.

(** The inline image is beside the text, in a part of its own, and the attachment after them. *)
Definition shape_op (op : build_op (list (string * string))) : string :=
  match op with
  | NewMessage _ => "message" | OpenPart _ => "part" | Data b => b | ClosePart => "end" | CloseMessage => "done"
  | RawHeader _ => "header" | RawBoundary b => b | RawPart _ => "raw part" | RawData b => b | CloseRaw => "raw end"
  end.
Definition shape_of (d : DecryptedMessage) : list string := shape_op <$> ops (BuildRFC822Into (Enc := ()) false () d ex_options (mkBuildState [] 0)).1.
Example two_built : shape_of ex_decrypted = ["message"; "part"; "part"; "text"; "end"; "part"; "two"; "end"; "end"; "part"; "one"; "end"; "done"].
Proof. vm_compute. reflexivity. Qed.

(** The part of a text that was not decrypted is never closed, even when others follow. *)
Example undecrypted_part_open :
  let d := mkDecryptedMessage (ex_message "text/html" "garbage" [ex_attachment "1" "attachment"]) "" (Some (ErrOther "no key")) [mkDecryptedAttachment "" "one" "one" None] in
  shape_of d = ["message"; "part"; "This message could not be decrypted: no keygarbage"; "part"; "one"; "end"; "done"] /\
  depth (ops (BuildRFC822Into (Enc := ()) false () d ex_options (mkBuildState [] 0)).1) 0 = Some 1%nat.
Proof. vm_compute. split; reflexivity. Qed.

(** The parts of a signed message. *)
Example signed_built :
  shape_of (mkDecryptedMessage (ex_message "multipart/mixed" "signed" []) ("K: v" +:+ crlf +:+ crlf +:+ "text") None []) =
    ["header"; "b0"; "raw part"; "text"; "raw part"; "sig"; "raw end"].
Proof. vm_compute. reflexivity. Qed.

(** A field that the body of an encrypted message has several times is kept once. *)
Example repeated_field_lost :
  let h := merge_fields (H := list (string * string)) [("Subject", "s")] [("Received", "one"); ("Received", "two")] in
  h_Values h "Received" = ["one"] /\ h_Get h "Subject" = "s".
Proof. vm_compute. split; reflexivity. Qed.


Definition ex_undecrypted : DecryptedMessage := mkDecryptedMessage (ex_message "text/html" "garbage" []) "" (Some (ErrOther "no key")) [].
Definition built_ok : bool := is_ok (BuildRFC822Into (Enc := ()) false () ex_undecrypted ex_options (mkBuildState [] 0)).2.

End examples.
