(* ===== verification/Observability.v ===== *)
(** * Metrics sent to the API (internal/services/observability, internal/plan)

    Parts of the bridge add metrics to a store; one goroutine sends them in batches with the
    client of a user who allows it, at most once in a while.  Signals are channels that hold at most
    one value; a dispatch that has to wait is a goroutine with a timer.

    A step of the service is an input: a call from outside, a turn of the goroutine's loop, or a
    timer.  Times are nanoseconds, given by a clock that never goes back. *)

From stdpp Require Import pretty.
From S2P Require Import Prelude.
From S2P Require Import Strings.
From S2P Require Import UserEvents.
From S2P Require Import MediaTypes.
From S2P Require Import MailHeaders.

(** ** Metrics *)

(** The data of a counter, or data of a kind of their own. *)
Inductive metric_data : Type := Counted (value : Z) (labels : gmap string string) | OtherData (d : string).
Record Metric : Type := mkMetric { m_Name : string; m_Version : Z; m_Timestamp : Z; m_Data : metric_data; m_ShouldCache : bool }.

Definition zero_metric : Metric := mkMetric "" 0 0 (OtherData "") false.

Inductive DistinctionMetricTypeEnum : Type :=
| SyncError | GluonImapError | GluonMessageError | GluonOtherError | SMTPError | EventLoopError | NewIMAPConnectionsExceedThreshold.
#[export] Instance metric_type_eq_dec : EqDecision DistinctionMetricTypeEnum.
Proof. solve_decision. Defined.
Definition metric_type_code (t : DistinctionMetricTypeEnum) : nat :=
  match t with SyncError => 0 | GluonImapError => 1 | GluonMessageError => 2 | GluonOtherError => 3 | SMTPError => 4 | EventLoopError => 5 | NewIMAPConnectionsExceedThreshold => 6 end.
Definition metric_type_of (n : nat) : option DistinctionMetricTypeEnum :=
  match n with 0 => Some SyncError | 1 => Some GluonImapError | 2 => Some GluonMessageError | 3 => Some GluonOtherError | 4 => Some SMTPError
  | 5 => Some EventLoopError | 6 => Some NewIMAPConnectionsExceedThreshold | _ => None end%nat.
#[export] Instance metric_type_countable : Countable DistinctionMetricTypeEnum.
Proof. apply (inj_countable metric_type_code metric_type_of). by intros []. Defined.

Definition errorSchemaMap (t : DistinctionMetricTypeEnum) : option string :=
  match t with
  | SyncError => Some "bridge_sync_errors_users_total"
  | EventLoopError => Some "bridge_event_loop_events_errors_users_total"
  | GluonImapError => Some "bridge_gluon_imap_errors_users_total"
  | GluonMessageError => Some "bridge_gluon_message_errors_users_total"
  | SMTPError => Some "bridge_smtp_errors_users_total"
  | GluonOtherError => Some "bridge_gluon_other_errors_users_total"
  | NewIMAPConnectionsExceedThreshold => None
  end.

(** ** Plans (internal/plan/plan.go) *)

Definition plan_Unknown : string := "unknown".
Definition plan_Other : string := "other".
Definition plan_Business : string := "business".
Definition plan_Individual : string := "individual".
Definition plan_Group : string := "group".

Definition planHierarchy (p : string) : option Z :=
  if String.eqb p plan_Business then Some 4 else if String.eqb p plan_Group then Some 3 else if String.eqb p plan_Individual then Some 2
  else if String.eqb p plan_Other then Some 1 else if String.eqb p plan_Unknown then Some 0 else None.

Definition IsHigherPriority (currentPlan newPlan : string) : bool :=
  match planHierarchy newPlan with
  | None => false
  | Some newRank => match planHierarchy currentPlan with None => true | Some currentRank => currentRank <? newRank end
  end.

Definition MapUserPlan (planName : string) : string :=
  if String.eqb planName "" then plan_Unknown
  else
    let p := TrimSpace (ToLower planName) in
    if existsb (String.eqb p) [plan_Individual; "mail2022"; "bundle2022"] then plan_Individual
    else if String.eqb p plan_Unknown then plan_Unknown
    else if existsb (String.eqb p) [plan_Business; "mailpro2022"; "planbiz2024"; "mailbiz2024"; "mailbiz2025"; "bundlebiz2025"; "bundlepro2022"; "bundlepro2024"; "enterprise2022"] then plan_Business
    else if existsb (String.eqb p) [plan_Group; "family2022"; "visionary2022"; "duo2024"] then plan_Group
    else plan_Other.

(** ** Settings and user agents (utils.go) *)

Record settingsGetter : Type := mkSettingsGetter { GetCurrentUserAgent : string; GetProxyAllowed : bool; early_channel : bool }.

Definition matchUserAgent (userAgent : string) : string :=
  if String.eqb userAgent "" then "unknown"
  else
    let ua := ToLower userAgent in
    if str_contains ua "outlook" then "outlook"
    else if str_contains ua "thunderbird" then "thunderbird"
    else if str_contains ua "mac" && str_contains ua "mail" then "apple_mail"
    else if str_contains ua "mac" && str_contains ua "notes" then "unknown"
    else "other".

Definition getEnabled (value : bool) : string := if value then "enabled" else "disabled".
Definition FormatBool (b : bool) : string := if b then "true" else "false".

Definition BucketIMAPConnections (val : Z) : string :=
  if val <? 10 then "<10" else if val <? 25 then "10-24" else if val <? 50 then "25-49" else if val <? 100 then "50-99"
  else if val <? 200 then "100-199" else if val <? 300 then "200-299" else if val <? 500 then "300-499" else if val <? 1000 then "500-999"
  else if val <? 2000 then "1000-1999" else if val <? 3000 then "2000-2999" else "3000+".

(** ** The distinction utility and its heartbeat *)

Record heartbeatData : Type := mkHeartbeatData { receivedSyncError : bool; receivedEventLoopError : bool; receivedOtherError : bool; receivedGluonError : bool }.

Record distinctionUtility : Type := mkDistinctionUtility {
  lastSentMap : gmap DistinctionMetricTypeEnum Z; du_settingsGetter : option settingsGetter; userPlanUnsafe : string; du_heartbeat : heartbeatData
}.

Definition minute : Z := 60000000000.
Definition updateInterval : Z := 5 * minute.

Definition createLastSentMap (now : Z) : gmap DistinctionMetricTypeEnum Z :=
  list_to_map ((fun t => (t, now - updateInterval)) <$> [SyncError; GluonImapError; GluonMessageError; GluonOtherError; SMTPError; EventLoopError]).

Definition newDistinctionUtility (now : Z) : distinctionUtility := mkDistinctionUtility (createLastSentMap now) None plan_Unknown (mkHeartbeatData false false false false).

Definition setSettingsGetter (g : settingsGetter) (d : distinctionUtility) : distinctionUtility :=
  mkDistinctionUtility (lastSentMap d) (Some g) (userPlanUnsafe d) (du_heartbeat d).
Definition set_heartbeat (h : heartbeatData) (d : distinctionUtility) : distinctionUtility :=
  mkDistinctionUtility (lastSentMap d) (du_settingsGetter d) (userPlanUnsafe d) h.

Definition checkAndUpdateLastSentMap (curTime : Z) (key : DistinctionMetricTypeEnum) (d : distinctionUtility) : distinctionUtility * bool :=
  let set := mkDistinctionUtility (<[key := curTime]> (lastSentMap d)) (du_settingsGetter d) (userPlanUnsafe d) (du_heartbeat d) in
  match lastSentMap d !! key with
  | None => (set, true)
  | Some val => if val + updateInterval <? curTime then (set, true) else (d, false)
  end.

Definition setUserPlan (planName : string) (d : distinctionUtility) : distinctionUtility :=
  if String.eqb planName "" then d
  else if IsHigherPriority (userPlanUnsafe d) (MapUserPlan planName) then mkDistinctionUtility (lastSentMap d) (du_settingsGetter d) (MapUserPlan planName) (du_heartbeat d)
  else d.

Definition getEmailClientUserAgent (d : distinctionUtility) : string :=
  matchUserAgent (match du_settingsGetter d with Some g => GetCurrentUserAgent g | None => "" end).
Definition getBetaAccessEnabled (d : distinctionUtility) : bool := match du_settingsGetter d with Some g => early_channel g | None => false end.
Definition getProxyAllowed (d : distinctionUtility) : bool := match du_settingsGetter d with Some g => GetProxyAllowed g | None => false end.

Definition user_metric (nowUnix : Z) (schemaName plan mailClient dohEnabled betaAccess : string) : Metric :=
  mkMetric schemaName 1 nowUnix
    (Counted 1 (list_to_map [("plan", plan); ("mailClient", mailClient); ("dohEnabled", dohEnabled); ("betaAccessEnabled", betaAccess)])) false.

Definition second : Z := 1000000000.
Definition generateUserMetric (now : Z) (metricType : DistinctionMetricTypeEnum) (d : distinctionUtility) : Metric :=
  match errorSchemaMap metricType with
  | None => zero_metric
  | Some schemaName => user_metric (now / second) schemaName (userPlanUnsafe d) (getEmailClientUserAgent d) (getEnabled (getProxyAllowed d)) (getEnabled (getBetaAccessEnabled d))
  end.

Definition resetHeartbeatData : heartbeatData := mkHeartbeatData false false false false.
Definition updateHeartbeatData (errType : DistinctionMetricTypeEnum) (d : distinctionUtility) : distinctionUtility :=
  let h := du_heartbeat d in
  match errType with
  | SyncError => set_heartbeat (mkHeartbeatData true (receivedEventLoopError h) (receivedOtherError h) (receivedGluonError h)) d
  | EventLoopError => set_heartbeat (mkHeartbeatData (receivedSyncError h) true (receivedOtherError h) (receivedGluonError h)) d
  | GluonMessageError | GluonImapError | GluonOtherError => set_heartbeat (mkHeartbeatData (receivedSyncError h) (receivedEventLoopError h) (receivedOtherError h) true) d
  | _ => d
  end.

Definition generateDistinctMetrics (now : Z) (errType : DistinctionMetricTypeEnum) (metrics : list Metric) (d : distinctionUtility) : distinctionUtility * list Metric :=
  let d := updateHeartbeatData errType d in
  match checkAndUpdateLastSentMap now errType d with
  | (d, true) => (d, metrics ++ [generateUserMetric now errType d])
  | (d, false) => (d, metrics)
  end.

(** [None]: the settings were not given yet, and reading them panics. *)
Definition generateHeartbeatUserMetric (now : Z) (d : distinctionUtility) : option Metric :=
  match du_settingsGetter d with
  | None => None
  | Some g =>
      let h := du_heartbeat d in
      Some (mkMetric "bridge_generic_user_heartbeat_total" 2 (now / second)
        (Counted 1 (list_to_map [("plan", userPlanUnsafe d); ("mailClient", getEmailClientUserAgent d); ("dohEnabled", getEnabled (GetProxyAllowed g));
           ("betaAccessEnabled", getEnabled (getBetaAccessEnabled d)); ("receivedOtherError", FormatBool (receivedOtherError h)); ("receivedSyncError", FormatBool (receivedSyncError h));
           ("receivedEventLoopError", FormatBool (receivedEventLoopError h)); ("receivedGluonError", FormatBool (receivedGluonError h))])) false)
  end.

(** ** The service *)

Definition throttleDuration : Z := 5 * second.
Definition maxStorageSize : nat := 5000.
Definition maxBatchSize : nat := 1000.

(** Timers are goroutines that wait to send the dispatch signal; the signals say whether their channels are full. *)
Record dispatcher : Type := mkDispatcher {
  lastDispatch : Z; isDispatchScheduled : bool; timers : list Z; signalDataArrived : bool; signalDispatch : bool
}.

(** [sends]: what was sent when, and with whose client, the last first.  [closed]: the service was stopped. *)
Record Service : Type := mkService {
  disp : dispatcher; metricStore : list Metric; userClientStore : gset string; utility : distinctionUtility;
  closed : bool; crashed : bool; sends : list (Z * string * list Metric)
}.

Definition set_disp (d : dispatcher) (s : Service) : Service := mkService d (metricStore s) (userClientStore s) (utility s) (closed s) (crashed s) (sends s).
Definition set_store (l : list Metric) (s : Service) : Service := mkService (disp s) l (userClientStore s) (utility s) (closed s) (crashed s) (sends s).
Definition set_clients (c : gset string) (s : Service) : Service := mkService (disp s) (metricStore s) c (utility s) (closed s) (crashed s) (sends s).
Definition set_utility (u : distinctionUtility) (s : Service) : Service := mkService (disp s) (metricStore s) (userClientStore s) u (closed s) (crashed s) (sends s).

Definition Initialize (now : Z) (store : list Metric) : Service :=
  mkService (mkDispatcher (now - throttleDuration) false [] false false) store ∅ (newDistinctionUtility now) false false [].

(** Sending on a closed channel panics. *)
Definition sendSignal (f : dispatcher -> dispatcher) (s : Service) : Service :=
  if closed s then mkService (disp s) (metricStore s) (userClientStore s) (utility s) (closed s) true (sends s) else set_disp (f (disp s)) s.
Definition data_arrived (d : dispatcher) : dispatcher := mkDispatcher (lastDispatch d) (isDispatchScheduled d) (timers d) true (signalDispatch d).
Definition dispatch_now (d : dispatcher) : dispatcher := mkDispatcher (lastDispatch d) (isDispatchScheduled d) (timers d) (signalDataArrived d) true.

Definition scheduleDispatch (now : Z) (s : Service) : Service :=
  let waitTime := throttleDuration - (now - lastDispatch (disp s)) in
  if waitTime <=? 0 then sendSignal dispatch_now s
  else let d := disp s in set_disp (mkDispatcher (lastDispatch d) true (timers d ++ [now + waitTime]) (signalDataArrived d) (signalDispatch d)) s.

(** The oldest are dropped when the store is full. *)
Definition make_place (store : list Metric) : list Metric :=
  if (maxStorageSize <=? length store)%nat then drop (length store - maxStorageSize + 1) store else store.

Definition addMetrics (metric : list Metric) (s : Service) : Service :=
  let s := set_store (make_place (metricStore s) ++ metric) s in
  if closed s then s else sendSignal data_arrived s.

Definition has_clients (s : Service) : bool := (0 <? size (userClientStore s))%nat.
Definition addMetricsIfClients (metric : list Metric) (s : Service) : Service := if has_clients s then addMetrics metric s else s.

Definition AddDistinctMetrics (now : Z) (errType : DistinctionMetricTypeEnum) (metrics : list Metric) (s : Service) : Service :=
  let '(u, metrics) := generateDistinctMetrics now errType metrics (utility s) in addMetricsIfClients metrics (set_utility u s).

Definition AddTimeLimitedMetric (now : Z) (metricType : DistinctionMetricTypeEnum) (metric : Metric) (s : Service) : Service :=
  match checkAndUpdateLastSentMap now metricType (utility s) with
  | (u, true) => addMetricsIfClients [metric] (set_utility u s)
  | (u, false) => set_utility u s
  end.

Definition GetEmailClient (s : Service) : string := getEmailClientUserAgent (utility s).

Definition RegisterUserClient (userID userPlan : string) (s : Service) : Service :=
  sendSignal data_arrived (set_utility (setUserPlan userPlan (utility s)) (set_clients ({[userID]} ∪ userClientStore s) s)).
Definition DeregisterUserClient (userID : string) (s : Service) : Service := set_clients (userClientStore s ∖ {[userID]}) s.

Definition haveMetricsAndClients (s : Service) : bool := (0 <? length (metricStore s))%nat && has_clients s.

(** The first client, in the order the map is ranged over, whose user allows it; an error of sending is logged. *)
Definition dispatchViaClient (now : Z) (order : list string) (isTelemetryEnabled : string -> bool) (metricsToSend : list Metric) (s : Service) : Service * bool :=
  match find_first isTelemetryEnabled order with
  | Some u =>
      let d := disp s in
      (mkService (mkDispatcher now (isDispatchScheduled d) (timers d) (signalDataArrived d) (signalDispatch d)) (metricStore s) (userClientStore s) (utility s)
         (closed s) (crashed s) ((now, u, metricsToSend) :: sends s), true)
  | None => (s, false)
  end.

Definition dispatchData (now : Z) (order : list string) (isTelemetryEnabled : string -> bool) (s : Service) : Service :=
  let d := disp s in
  let s := set_disp (mkDispatcher (lastDispatch d) false (timers d) (signalDataArrived d) (signalDispatch d)) s in
  if negb (haveMetricsAndClients s) then s
  else
    let metricsToSend := take maxBatchSize (metricStore s) in
    let remaining := drop maxBatchSize (metricStore s) in
    match dispatchViaClient now order isTelemetryEnabled metricsToSend (set_store remaining s) with
    | (s, enabled) => if (0 <? length remaining)%nat && enabled then scheduleDispatch now s else s
    end.

(** The turn of the loop that receives the arrival of data. *)
Definition on_data_arrived (now : Z) (s : Service) : Service :=
  if isDispatchScheduled (disp s) then s
  else if now - lastDispatch (disp s) <=? throttleDuration then scheduleDispatch now s
  else sendSignal dispatch_now s.

Definition sendHeartbeat (now : Z) (s : Service) : option Service :=
  m ← generateHeartbeatUserMetric now (utility s);
  let s := addMetricsIfClients [m] s in
  Some (set_utility (set_heartbeat resetHeartbeatData (utility s)) s).

Definition Stop (s : Service) : Service := mkService (disp s) (metricStore s) (userClientStore s) (utility s) true (crashed s) (sends s).

(** Signals and timers taken. *)
Definition take_data (d : dispatcher) : dispatcher := mkDispatcher (lastDispatch d) (isDispatchScheduled d) (timers d) false (signalDispatch d).
Definition take_dispatch (d : dispatcher) : dispatcher := mkDispatcher (lastDispatch d) (isDispatchScheduled d) (timers d) (signalDataArrived d) false.
Definition take_timer (k : nat) (d : dispatcher) : dispatcher := mkDispatcher (lastDispatch d) (isDispatchScheduled d) (delete k (timers d)) (signalDataArrived d) (signalDispatch d).

Inductive input : Type :=
| InAdd (ms : list Metric) | InDistinct (t : DistinctionMetricTypeEnum) (ms : list Metric) | InTimeLimited (t : DistinctionMetricTypeEnum) (m : Metric)
| InRegister (userID userPlan : string) | InDeregister (userID : string) | InHeartbeat | InStop
| LoopData | LoopDispatch (order : list string) (isTelemetryEnabled : string -> bool) | TimerFires (k : nat).

(** [None]: it cannot happen now. The loop has ended when the service is stopped; a timer that is due may
    still send. *)
Definition step (now : Z) (i : input) (s : Service) : option Service :=
  match i with
  | InAdd ms => Some (addMetrics ms s)
  | InDistinct t ms => Some (AddDistinctMetrics now t ms s)
  | InTimeLimited t m => Some (AddTimeLimitedMetric now t m s)
  | InRegister u p => Some (RegisterUserClient u p s)
  | InDeregister u => Some (DeregisterUserClient u s)
  | InHeartbeat => sendHeartbeat now s
  | InStop => if closed s then None else Some (Stop s)
  | LoopData => if signalDataArrived (disp s) && negb (closed s) then Some (on_data_arrived now (set_disp (take_data (disp s)) s)) else None
  | LoopDispatch order enabled =>
      if signalDispatch (disp s) && negb (closed s) && bool_decide (order ≡ₚ elements (userClientStore s))
      then Some (dispatchData now order enabled (set_disp (take_dispatch (disp s)) s)) else None
  | TimerFires k =>
      due ← timers (disp s) !! k;
      if due <=? now then Some (sendSignal dispatch_now (set_disp (take_timer k (disp s)) s)) else None
  end.

(** A run: inputs with the times they happen at. *)
Fixpoint run (t : Z) (is_ : list (Z * input)) (s : Service) : option (Z * Service) :=
  match is_ with
  | [] => Some (t, s)
  | (now, i) :: is_ => if t <=? now then s' ← step now i s; run now is_ s' else None
  end.

(** ** The cache of metrics, and metrics of other packages *)

(** [encode_metrics] and [decode_metrics] are the JSON of the metrics without [ShouldCache]; the second decodes into
    a list that is there already. *)
Class MetricCodec : Type := {
  encode_metrics : list Metric -> string;
  decode_metrics : list Metric -> string -> list Metric * option err
}.

Definition should_cache (b : bool) (m : Metric) : Metric := mkMetric (m_Name m) (m_Version m) (m_Timestamp m) (m_Data m) b.

(** The file of the cache, [None] when it is not there or cannot be opened. *)
Definition readCacheFile `{MC : MetricCodec} (file : option string) (metricStore : list Metric) : list Metric :=
  match file with None => metricStore | Some text => should_cache true <$> (decode_metrics metricStore text).1 end.
Definition writeCacheFile `{MC : MetricCodec} (can_create : bool) (file : option string) (metricStore : list Metric) : option string :=
  if can_create then Some (encode_metrics (Prelude.Filter metricStore m_ShouldCache)) else file.

(** Values of no particular type. *)
Inductive any : Type := AnyString (s : string) | AnyInt (z : Z) | AnyInt64 (z : Z) | AnyData (d : metric_data).

Definition VerifyAndParseGenericMetrics (metric : gmap string any) : option Metric :=
  match metric !! "Name", metric !! "Version", metric !! "Timestamp", metric !! "Data" with
  | Some (AnyString name), Some (AnyInt version), Some (AnyInt64 timestamp), Some data =>
      Some (mkMetric name version timestamp (match data with AnyData d => d | AnyString s => OtherData s | AnyInt z | AnyInt64 z => OtherData (pretty z) end) false)
  | _, _, _, _ => None
  end.

Definition adapter_AddMetrics (metrics : list (gmap string any)) (s : Service) : Service :=
  let typedMetrics := omap VerifyAndParseGenericMetrics metrics in
  if (0 <? length typedMetrics)%nat then addMetrics typedMetrics s else s.
Definition adapter_AddDistinctMetrics (now : Z) (errType : any) (metrics : list (gmap string any)) (s : Service) : Service :=
  match errType with
  | AnyInt z =>
      let typedMetrics := omap VerifyAndParseGenericMetrics metrics in
      if (0 <? length typedMetrics)%nat then
        match metric_type_of (Z.to_nat z) with
        | Some t => if 0 <=? z then AddDistinctMetrics now t typedMetrics s else s
        | None => s
        end
      else s
  | _ => s
  end.

(** ** Sends are spaced *)

Lemma throttle_pos : 0 < throttleDuration.
Proof. reflexivity. Qed.

(** What waits: at most a timer or a signal, neither before the time. *)
Definition spaced (clock : Z) (s : Service) : Prop :=
  let d := disp s in
  (signalDispatch d = true -> timers d = [] /\ lastDispatch d + throttleDuration <= clock) /\
  (timers d = [] \/ (isDispatchScheduled d = true /\ timers d = [lastDispatch d + throttleDuration])) /\
  lastDispatch d <= clock /\
  (forall a, sends s !! 0%nat = Some a -> a.1.1 = lastDispatch d) /\
  (forall i a b, sends s !! i = Some a -> sends s !! S i = Some b -> b.1.1 + throttleDuration <= a.1.1).

Lemma spaced_later t t' s : t <= t' -> spaced t s -> spaced t' s.
Proof. intros Ht (H1 & H2 & H3 & H4). split; [intros Hs; destruct (H1 Hs); split; [done|lia]|]. split; [done|]. split; [lia|done]. Qed.

(** Only what a dispatch and a send touch matters. *)
Lemma spaced_disp (t : Z) (s s' : Service) : spaced t s -> sends s' = sends s -> lastDispatch (disp s') = lastDispatch (disp s) -> timers (disp s') = timers (disp s) ->
  isDispatchScheduled (disp s') = isDispatchScheduled (disp s) -> signalDispatch (disp s') = signalDispatch (disp s) -> spaced t s'.
Proof. unfold spaced. intros Hs -> -> -> -> ->. exact Hs. Qed.

Lemma addMetrics_disp (ms : list Metric) (s : Service) : exists b : bool, disp (addMetrics ms s) = (if b then data_arrived (disp s) else disp s) /\ sends (addMetrics ms s) = sends s.
Proof. unfold addMetrics. destruct (closed _) eqn:Hc; [by exists false|]. exists true. unfold sendSignal. by rewrite Hc. Qed.

Lemma addMetrics_spaced t ms s : spaced t s -> spaced t (addMetrics ms s).
Proof. intros Hs. destruct (addMetrics_disp ms s) as (b & Hd & Hsends). apply (spaced_disp t s); rewrite ?Hd; try done; by destruct b. Qed.

Lemma addMetricsIfClients_spaced t ms s : spaced t s -> spaced t (addMetricsIfClients ms s).
Proof. unfold addMetricsIfClients. destruct (has_clients s); [apply addMetrics_spaced|done]. Qed.

Lemma signal_spaced t s : spaced t s -> timers (disp s) = [] -> lastDispatch (disp s) + throttleDuration <= t -> spaced t (sendSignal dispatch_now s).
Proof.
  intros (H1 & H2 & H3 & H4) Ht Hl. unfold sendSignal. destruct (closed s); [by apply (spaced_disp t s)|].
  split; [done|]. split; [by left|]. done.
Qed.

Lemma schedule_spaced now s : spaced now s -> timers (disp s) = [] -> spaced now (scheduleDispatch now s).
Proof.
  intros Hs Ht. unfold scheduleDispatch. destruct (Z.leb_spec (throttleDuration - (now - lastDispatch (disp s))) 0) as [Hle|Hlt]; [apply signal_spaced; [done|done|lia]|].
  destruct Hs as (H1 & H2 & H3 & H4). cbn [disp set_disp]. split; [intros Hsig; cbn in Hsig; destruct (H1 Hsig); lia|]. split.
  - right. split; [done|]. cbn [disp set_disp timers lastDispatch]. rewrite Ht. cbn [app]. apply (f_equal (fun x => [x])). lia.
  - done.
Qed.

Lemma on_data_arrived_spaced now s : spaced now s -> spaced now (on_data_arrived now s).
Proof.
  intros Hs. unfold on_data_arrived. destruct (isDispatchScheduled (disp s)) eqn:Hd; [done|].
  assert (Ht : timers (disp s) = []) by (destruct Hs as (_ & [Ht|[? _]] & _); [done|congruence]).
  destruct (Z.leb_spec (now - lastDispatch (disp s)) throttleDuration); [by apply schedule_spaced|]. apply signal_spaced; [done|done|lia].
Qed.

Lemma dispatchData_spaced now order enabled s : spaced now s -> signalDispatch (disp s) = true -> spaced now (dispatchData now order enabled (set_disp (take_dispatch (disp s)) s)).
Proof.
  intros (H1 & H2 & H3 & H4 & H5) Hsig. destruct (H1 Hsig) as [Ht Hl]. unfold dispatchData. cbn [disp set_disp take_dispatch].
  set (s1 := set_disp _ (set_disp _ s)). assert (Hs1 : spaced now s1) by (split; [done|]; split; [left; exact Ht|]; done).
  destruct (negb (haveMetricsAndClients s1)); [done|]. unfold dispatchViaClient. destruct (find_first enabled order) as [u|].
  - set (s2 := mkService _ _ _ _ _ _ _). assert (Hs2 : spaced now s2).
    { split; [done|]. split; [left; exact Ht|]. split; [cbn; lia|]. split; [intros a; cbn; by intros [= <-]|].
      intros [|i] a b; cbn; [intros [= <-] Hb; cbn; rewrite (H4 _ Hb); lia|apply H5]. }
    destruct (_ && true); [by apply schedule_spaced|done].
  - rewrite andb_false_r. by apply (spaced_disp now s1).
Qed.

Lemma step_spaced now i s s' : spaced now s -> step now i s = Some s' -> spaced now s'.
Proof.
  intros Hs. destruct i as [ms|t ms|t m|u p|u| | | |order enabled|k]; cbn [step].
  - intros [= <-]. by apply addMetrics_spaced.
  - intros [= <-]. unfold AddDistinctMetrics. destruct (generateDistinctMetrics _ _ _ _) as [d ms']. apply addMetricsIfClients_spaced. by apply (spaced_disp now s).
  - intros [= <-]. unfold AddTimeLimitedMetric. destruct (checkAndUpdateLastSentMap _ _ _) as [d []]; [apply addMetricsIfClients_spaced|]; by apply (spaced_disp now s).
  - intros [= <-]. unfold RegisterUserClient, sendSignal. destruct (closed _); by apply (spaced_disp now s).
  - intros [= <-]. by apply (spaced_disp now s).
  - unfold sendHeartbeat. destruct (generateHeartbeatUserMetric _ _) as [m|]; [|done]. intros [= <-]. apply (spaced_disp now (addMetricsIfClients [m] s)); [by apply addMetricsIfClients_spaced|done..].
  - destruct (closed s); [done|]. intros [= <-]. by apply (spaced_disp now s).
  - destruct (_ && _); [|done]. intros [= <-]. apply on_data_arrived_spaced. by apply (spaced_disp now s).
  - destruct (signalDispatch (disp s)) eqn:Hsig; [|done]. destruct (_ && _); [|done]. intros [= <-]. by apply dispatchData_spaced.
  - destruct Hs as (H1 & H2 & Hrest). destruct (timers (disp s) !! k) as [due|] eqn:Hk; [|done]. cbn [mbind option_bind].
    destruct (Z.leb_spec due now); [|done]. intros [= <-]. destruct H2 as [H2|[Hsch H2]]; rewrite H2 in Hk; [done|].
    destruct k as [|k]; [|done]. injection Hk as <-. apply signal_spaced; cbn; [|by rewrite H2|done].
    split; [intros Hs; destruct (H1 Hs); congruence|]. split; [left; cbn; by rewrite H2|exact Hrest].
Qed.

(** Runs keep what every step keeps. *)
Lemma run_invariant (P : Z -> Service -> Prop) (ok : Z * input -> Prop) :
  (forall t t' s, t <= t' -> P t s -> P t' s) -> (forall now i s s', ok (now, i) -> P now s -> step now i s = Some s' -> P now s') ->
  forall is_ t s t' s', Forall ok is_ -> P t s -> run t is_ s = Some (t', s') -> P t' s'.
Proof.
  intros Hlater Hstep. induction is_ as [|[now i] is_ IH]; intros t s t' s' Hok HP; cbn [run]; [by intros [= <- <-]|].
  apply Forall_cons in Hok as [Hi Hok]. destruct (Z.leb_spec t now); [|done]. destruct (step now i s) as [s1|] eqn:Hs; [|done]. cbn [mbind option_bind].
  apply IH; [done|]. by eapply Hstep, Hs; [|eapply Hlater].
Qed.

(** C36: However metrics arrive, users come and go and timers fire, two batches are sent at least the throttling
    time apart. *)
Theorem sends_throttled (t0 t : Z) (store : list Metric) (is_ : list (Z * input)) (s : Service) :
  run t0 is_ (Initialize t0 store) = Some (t, s) ->
  forall i later earlier, sends s !! i = Some later -> sends s !! S i = Some earlier -> earlier.1.1 + throttleDuration <= later.1.1.
Proof.
  intros Hrun. assert (Hs : spaced t s).
  { apply (run_invariant spaced (fun _ => True) spaced_later (fun now i s s' _ => step_spaced now i s s') is_ t0 (Initialize t0 store)); [by apply Forall_true| |done].
    split; [done|]. split; [by left|]. split; [cbn; unfold throttleDuration, second; lia|]. done. }
  apply Hs.
Qed.

(** ** What is sent *)

(** The metrics that a step puts into the store. *)
Definition offered (now : Z) (i : input) (s : Service) : list Metric :=
  match i with
  | InAdd ms => ms
  | InDistinct t ms => if has_clients s then (generateDistinctMetrics now t ms (utility s)).2 else []
  | InTimeLimited t m => if (checkAndUpdateLastSentMap now t (utility s)).2 && has_clients s then [m] else []
  | InHeartbeat => match generateHeartbeatUserMetric now (utility s) with Some m => if has_clients s then [m] else [] | None => [] end
  | _ => []
  end.

Definition all_sent (s : Service) : list Metric := concat (reverse (snd <$> sends s)).

Lemma addMetrics_adds (ms : list Metric) (s : Service) : metricStore (addMetrics ms s) = make_place (metricStore s) ++ ms /\ sends (addMetrics ms s) = sends s.
Proof. unfold addMetrics, sendSignal. cbn [closed set_store]. by destruct (closed s). Qed.

Lemma addMetrics_store (ms : list Metric) (s : Service) : metricStore (addMetrics ms s) `sublist_of` metricStore s ++ ms /\ sends (addMetrics ms s) = sends s.
Proof.
  destruct (addMetrics_adds ms s) as [-> ->]. split; [|done]. apply sublist_app; [|done]. unfold make_place. destruct (_ <=? _)%nat; [apply sublist_drop|done].
Qed.

Lemma sendSignal_store (f : dispatcher -> dispatcher) (s : Service) : metricStore (sendSignal f s) = metricStore s /\ sends (sendSignal f s) = sends s.
Proof. unfold sendSignal. by destruct (closed s). Qed.
Lemma schedule_store (now : Z) (s : Service) : metricStore (scheduleDispatch now s) = metricStore s /\ sends (scheduleDispatch now s) = sends s.
Proof. unfold scheduleDispatch. destruct (_ <=? 0); [apply sendSignal_store|done]. Qed.

Lemma dispatchData_store (now : Z) (order : list string) (enabled : string -> bool) (s : Service) :
  all_sent (dispatchData now order enabled s) ++ metricStore (dispatchData now order enabled s) `sublist_of` all_sent s ++ metricStore s.
Proof.
  unfold dispatchData. destruct (negb _); [done|]. unfold dispatchViaClient. cbn [disp set_disp set_store metricStore userClientStore utility closed crashed sends].
  destruct (find_first enabled order) as [u|].
  - set (s1 := mkService _ _ _ _ _ _ _).
    assert (H1 : all_sent s1 ++ metricStore s1 `sublist_of` all_sent s ++ metricStore s).
    { unfold all_sent, s1. cbn [sends metricStore]. rewrite fmap_cons, reverse_cons, concat_app. cbn [concat snd]. rewrite app_nil_r, <- app_assoc, take_drop. done. }
    destruct (_ && true); [|done]. unfold all_sent in *. destruct (schedule_store now s1) as [-> ->]. exact H1.
  - rewrite andb_false_r. unfold all_sent. cbn. apply sublist_app; [done|]. apply sublist_drop.
Qed.

Lemma step_sent (now : Z) (i : input) (s s' : Service) : step now i s = Some s' -> all_sent s' ++ metricStore s' `sublist_of` (all_sent s ++ metricStore s) ++ offered now i s.
Proof.
  assert (Hadd : forall s1 ms, sends s1 = sends s -> metricStore s1 = metricStore s -> all_sent (addMetrics ms s1) ++ metricStore (addMetrics ms s1) `sublist_of` (all_sent s ++ metricStore s) ++ ms).
  { intros s1 ms Hs Hm. destruct (addMetrics_store ms s1) as [H1 H2]. unfold all_sent. rewrite H2, Hs, <- app_assoc. apply sublist_app; [done|]. by rewrite <- Hm. }
  assert (Hsame : forall s1 ms, sends s1 = sends s -> metricStore s1 = metricStore s -> all_sent s1 ++ metricStore s1 `sublist_of` (all_sent s ++ metricStore s) ++ ms).
  { intros s1 ms Hs Hm. unfold all_sent. rewrite Hs, Hm. by apply sublist_inserts_r. }
  destruct i as [ms|t ms|t m|u p|u| | | |order enabled|k]; cbn [step offered].
  - intros [= <-]. by apply Hadd.
  - intros [= <-]. unfold AddDistinctMetrics. destruct (generateDistinctMetrics _ _ _ _) as [d ms']. unfold addMetricsIfClients. change (has_clients (set_utility d s)) with (has_clients s).
    destruct (has_clients s); [by apply Hadd|by apply Hsame].
  - intros [= <-]. unfold AddTimeLimitedMetric. destruct (checkAndUpdateLastSentMap _ _ _) as [d b]. cbn [snd]. destruct b; [|by apply Hsame].
    unfold addMetricsIfClients. change (has_clients (set_utility d s)) with (has_clients s). destruct (has_clients s); [by apply Hadd|by apply Hsame].
  - intros [= <-]. unfold RegisterUserClient. by apply Hsame; destruct (sendSignal_store data_arrived (set_utility (setUserPlan p (utility s)) (set_clients ({[u]} ∪ userClientStore s) s))).
  - intros [= <-]. by apply Hsame.
  - unfold sendHeartbeat. destruct (generateHeartbeatUserMetric _ _) as [m|]; [|done]. intros [= <-]. unfold addMetricsIfClients.
    destruct (has_clients s); [exact (Hadd s [m] eq_refl eq_refl)|by apply Hsame].
  - destruct (closed s); [done|]. intros [= <-]. by apply Hsame.
  - destruct (_ && _); [|done]. intros [= <-]. unfold on_data_arrived. destruct (isDispatchScheduled _); [by apply Hsame|].
    set (s1 := set_disp _ s). destruct (_ <=? _); apply Hsame; [apply (proj2 (schedule_store now s1))|apply (proj1 (schedule_store now s1))|apply (proj2 (sendSignal_store dispatch_now s1))|apply (proj1 (sendSignal_store dispatch_now s1))].
  - destruct (_ && _ && _); [|done]. intros [= <-]. rewrite app_nil_r. apply (dispatchData_store now order enabled (set_disp (take_dispatch (disp s)) s)).
  - destruct (timers (disp s) !! k) as [due|]; [|done]. cbn [mbind option_bind]. destruct (_ <=? _); [|done]. intros [= <-]. set (s1 := set_disp _ s).
    apply Hsame; [apply (proj2 (sendSignal_store dispatch_now s1))|apply (proj1 (sendSignal_store dispatch_now s1))].
Qed.

Fixpoint all_offered (is_ : list (Z * input)) (s : Service) : list Metric :=
  match is_ with [] => [] | (now, i) :: is_ => offered now i s ++ match step now i s with Some s' => all_offered is_ s' | None => [] end end.

(** Metrics are sent in the order they were added, each at most once: what was sent, followed by what is still
    stored, is part of what was cached before and added since. *)
Theorem sent_in_order (t0 t : Z) (store : list Metric) (is_ : list (Z * input)) (s : Service) :
  run t0 is_ (Initialize t0 store) = Some (t, s) -> all_sent s ++ metricStore s `sublist_of` store ++ all_offered is_ (Initialize t0 store).
Proof.
  assert (Hgen : forall t0 s0, run t0 is_ s0 = Some (t, s) -> all_sent s ++ metricStore s `sublist_of` (all_sent s0 ++ metricStore s0) ++ all_offered is_ s0).
  { induction is_ as [|[now i] is_ IH]; intros t1 s0; cbn [run all_offered]; [intros [= -> ->]; by rewrite app_nil_r|].
    destruct (t1 <=? now); [|done]. destruct (step now i s0) as [s1|] eqn:Hs; [|done]. cbn [mbind option_bind]. intros Hr. apply IH in Hr.
    etrans; [exact Hr|]. rewrite app_assoc. apply sublist_app; [|done]. by apply step_sent. }
  intros Hrun. exact (Hgen _ _ Hrun).
Qed.

(** ** The size of the store *)

Definition adds_at_most (k : nat) (i : Z * input) : Prop :=
  match i.2 with InAdd ms => (length ms <= k)%nat | InDistinct _ ms => (length ms < k)%nat | _ => True end.

Lemma addMetrics_bounded (k : nat) (ms : list Metric) (s : Service) : (length ms <= k)%nat -> (length (metricStore s) < maxStorageSize + k)%nat -> (length (metricStore (addMetrics ms s)) < maxStorageSize + k)%nat.
Proof.
  intros Hms Hs. assert (Hpos : (0 < maxStorageSize)%nat) by apply Nat.lt_0_succ. rewrite (proj1 (addMetrics_adds ms s)), length_app. unfold make_place.
  destruct (Nat.leb_spec maxStorageSize (length (metricStore s))); rewrite ?length_drop; lia.
Qed.

(** The store never holds more than the maximum and what is added at once with a metric that fills it. *)
Theorem store_bounded (k : nat) (t0 t : Z) (store : list Metric) (is_ : list (Z * input)) (s : Service) :
  (1 <= k)%nat -> (length store < maxStorageSize + k)%nat -> Forall (adds_at_most k) is_ -> run t0 is_ (Initialize t0 store) = Some (t, s) ->
  (length (metricStore s) < maxStorageSize + k)%nat.
Proof.
  intros Hk Hstore Hall Hrun. refine (run_invariant (fun _ s => (length (metricStore s) < maxStorageSize + k)%nat) (adds_at_most k) (fun _ _ _ _ H => H) _ is_ t0 (Initialize t0 store) t s Hall Hstore Hrun).
  clear - Hk. intros now i s s' Hi Hs Hstep.
  assert (Hadd : forall ms s1, metricStore s1 = metricStore s -> (length ms <= k)%nat -> (length (metricStore (addMetricsIfClients ms s1)) < maxStorageSize + k)%nat).
  { intros ms s1 Hm Hl. unfold addMetricsIfClients. destruct (has_clients s1); [apply addMetrics_bounded; by rewrite ?Hm|by rewrite Hm]. }
  destruct i as [ms|ty ms|ty m|u p|u| | | |order enabled|n]; cbn [step adds_at_most snd] in *.
  - injection Hstep as <-. by apply addMetrics_bounded.
  - injection Hstep as <-. unfold AddDistinctMetrics. destruct (generateDistinctMetrics _ _ _ _) as [d ms'] eqn:Hg. apply Hadd; [done|].
    unfold generateDistinctMetrics in Hg. destruct (checkAndUpdateLastSentMap _ _ _) as [d' []]; injection Hg as <- <-; rewrite ?length_app; cbn; lia.
  - injection Hstep as <-. unfold AddTimeLimitedMetric. destruct (checkAndUpdateLastSentMap _ _ _) as [d []]; [by apply Hadd|done].
  - injection Hstep as <-. unfold RegisterUserClient. by rewrite (proj1 (sendSignal_store _ _)).
  - by injection Hstep as <-.
  - unfold sendHeartbeat in Hstep. destruct (generateHeartbeatUserMetric _ _) as [m|]; [|done]. injection Hstep as <-. by apply (Hadd [m] s).
  - destruct (closed s); [done|]. by injection Hstep as <-.
  - destruct (_ && _); [|done]. injection Hstep as <-. unfold on_data_arrived. destruct (isDispatchScheduled _); [done|]. destruct (_ <=? _); [by rewrite (proj1 (schedule_store _ _))|by rewrite (proj1 (sendSignal_store _ _))].
  - destruct (_ && _ && _); [|done]. injection Hstep as <-. unfold dispatchData. destruct (negb _); [done|]. unfold dispatchViaClient.
    assert (Hd : (length (drop maxBatchSize (metricStore s)) < maxStorageSize + k)%nat) by (rewrite length_drop; lia).
    destruct (find_first enabled order); [destruct (_ && true); [rewrite (proj1 (schedule_store _ _))|]; exact Hd|rewrite andb_false_r; exact Hd].
  - destruct (timers (disp s) !! n) as [due|]; [|done]. cbn [mbind option_bind] in Hstep. destruct (_ <=? _); [|done]. injection Hstep as <-. by rewrite (proj1 (sendSignal_store _ _)).
Qed.

(** ** Nothing waits for ever *)

(** A timer, or the signal to dispatch. *)
Definition active (s : Service) : Prop := timers (disp s) <> [] \/ signalDispatch (disp s) = true.

Definition attended (s : Service) : Prop :=
  closed s = false ->
  (isDispatchScheduled (disp s) = true -> active s) /\ (haveMetricsAndClients s = true -> signalDataArrived (disp s) = true \/ active s).

(** Whoever may send when metrics are dispatched, someone may. *)
Definition someone_allows (i : Z * input) : Prop :=
  match i.2 with LoopDispatch order isTelemetryEnabled => order = [] \/ is_Some (find_first isTelemetryEnabled order) | _ => True end.

Lemma signal_active (s : Service) : closed s = false -> active (sendSignal dispatch_now s).
Proof. intros Hc. unfold sendSignal. rewrite Hc. by right. Qed.
Lemma schedule_active (now : Z) (s : Service) : closed s = false -> active (scheduleDispatch now s).
Proof. intros Hc. unfold scheduleDispatch. destruct (_ <=? 0); [by apply signal_active|]. left. cbn. by destruct (timers (disp s)). Qed.

Lemma active_attended (s : Service) : active s -> attended s.
Proof. intros Ha _. auto. Qed.

Lemma attended_same (s s' : Service) : attended s -> closed s' = closed s -> disp s' = disp s -> (haveMetricsAndClients s' = true -> haveMetricsAndClients s = true) -> attended s'.
Proof. intros Hs Hc Hd Hh Hcl. rewrite Hc in Hcl. destruct (Hs Hcl) as [H1 H2]. unfold active. rewrite Hd. split; [exact H1|]. intros Hm. apply H2, Hh, Hm. Qed.

Lemma addMetrics_attended (ms : list Metric) (s : Service) : attended s -> attended (addMetrics ms s).
Proof.
  intros Hs. unfold addMetrics. cbn [closed set_store]. destruct (closed s) eqn:Hc; [intros Hcl; cbn in Hcl; congruence|].
  intros Hcl. unfold sendSignal. cbn [closed set_store]. rewrite Hc. split; [apply (Hs Hc)|]. by left.
Qed.
Lemma addMetricsIfClients_attended (ms : list Metric) (s : Service) : attended s -> attended (addMetricsIfClients ms s).
Proof. unfold addMetricsIfClients. destruct (has_clients s); [apply addMetrics_attended|done]. Qed.

Lemma dispatchData_attended (now : Z) (order : list string) (enabled : string -> bool) (s : Service) : closed s = false -> order ≡ₚ elements (userClientStore s) ->
  order = [] \/ is_Some (find_first enabled order) -> attended (dispatchData now order enabled s).
Proof.
  intros Hc Hperm Hok. unfold dispatchData. set (s1 := set_disp _ s). destruct (haveMetricsAndClients s1) eqn:Hm; cbn [negb]; [|by intros _; rewrite Hm].
  unfold dispatchViaClient. destruct Hok as [->|[u ->]].
  - exfalso. unfold haveMetricsAndClients, has_clients in Hm. apply andb_true_iff in Hm as [_ Hm]. apply Nat.ltb_lt in Hm. cbn in Hm.
    unfold size, set_size in Hm. cbn in Hm. rewrite <- Hperm in Hm. cbn in Hm. lia.
  - set (s2 := mkService _ _ _ _ _ _ _). destruct (0 <? length _)%nat eqn:Hl; cbn [andb].
    + apply active_attended, schedule_active. exact Hc.
    + intros _. split; [done|]. unfold haveMetricsAndClients. change (metricStore s2) with (drop maxBatchSize (metricStore s1)). by rewrite Hl.
Qed.

Lemma step_attended (now : Z) (i : input) (s s' : Service) : someone_allows (now, i) -> attended s -> step now i s = Some s' -> attended s'.
Proof.
  intros Hok Hs. destruct i as [ms|t ms|t m|u p|u| | | |order enabled|k]; cbn [step].
  - intros [= <-]. by apply addMetrics_attended.
  - intros [= <-]. unfold AddDistinctMetrics. destruct (generateDistinctMetrics _ _ _ _) as [d ms']. apply addMetricsIfClients_attended. by apply (attended_same s).
  - intros [= <-]. unfold AddTimeLimitedMetric. destruct (checkAndUpdateLastSentMap _ _ _) as [d []]; [apply addMetricsIfClients_attended|]; by apply (attended_same s).
  - intros [= <-]. unfold RegisterUserClient, sendSignal. cbn [closed set_utility set_clients]. intros Hc. destruct (closed s) eqn:Hcs; [done|]. split; [apply (Hs Hcs)|by left].
  - intros [= <-]. apply (attended_same s); [done..|]. unfold haveMetricsAndClients, has_clients. cbn [metricStore userClientStore DeregisterUserClient set_clients].
    rewrite !andb_true_iff, !Nat.ltb_lt. intros [H1 H2]. split; [done|]. assert (Hsub := subseteq_size (userClientStore s ∖ {[u]}) (userClientStore s) ltac:(set_solver)). lia.
  - unfold sendHeartbeat. destruct (generateHeartbeatUserMetric _ _) as [m|]; [|done]. intros [= <-]. apply (attended_same (addMetricsIfClients [m] s)); [by apply addMetricsIfClients_attended|done..].
  - destruct (closed s); [done|]. intros [= <-]. by intros [=].
  - destruct (closed s) eqn:Hc; rewrite ?andb_false_r; [done|]. destruct (_ && _); [|done]. intros [= <-]. unfold on_data_arrived. cbn [disp set_disp isDispatchScheduled take_data lastDispatch].
    destruct (isDispatchScheduled (disp s)) eqn:Hsch; [|destruct (_ <=? _); apply active_attended; [by apply schedule_active|by apply signal_active]].
    apply active_attended. exact (proj1 (Hs Hc) Hsch).
  - destruct (closed s) eqn:Hc; rewrite ?andb_false_r; [done|]. destruct (signalDispatch (disp s)); [|done]. cbn [andb negb].
    destruct (bool_decide (order ≡ₚ elements (userClientStore s))) eqn:Hp; [|done]. apply bool_decide_eq_true in Hp. intros [= <-]. by apply dispatchData_attended.
  - destruct (timers (disp s) !! k) as [due|]; [|done]. cbn [mbind option_bind]. destruct (_ <=? _); [|done]. intros [= <-]. intros Hc. apply active_attended; [|done].
    apply signal_active. unfold sendSignal in Hc. cbn [closed set_disp] in *. by destruct (closed s).
Qed.


(** ** Limits, plans and the cache *)

(** The calls that may send, of those at the times and for the types given. *)
Fixpoint accepted (calls : list (Z * DistinctionMetricTypeEnum)) (d : distinctionUtility) : list (Z * DistinctionMetricTypeEnum) :=
  match calls with
  | [] => []
  | (now, key) :: calls => let '(d, ok) := checkAndUpdateLastSentMap now key d in (if ok then [(now, key)] else []) ++ accepted calls d
  end.

Lemma accepted_after calls d key last : lastSentMap d !! key = Some last -> Forall (fun c => c.2 = key -> last + updateInterval < c.1) (accepted calls d).
Proof.
  revert d last. induction calls as [|[now k] calls IH]; intros d last Hl; [constructor|]. cbn [accepted]. unfold checkAndUpdateLastSentMap.
  destruct (lastSentMap d !! k) as [val|] eqn:Hk; [destruct (Z.ltb_spec (val + updateInterval) now) as [Hlt|Hge]|].
  - cbn [app]. destruct (decide (k = key)) as [->|Hne].
    + constructor; [intros _; cbn; rewrite Hl in Hk; by injection Hk as ->|]. assert (val = last) as -> by congruence.
      eapply Forall_impl; [apply IH; cbn; apply lookup_insert_eq|]. cbn. intros [n' k'] Hn He. specialize (Hn He). unfold updateInterval, minute in *. lia.
    + constructor; [done|]. apply IH. cbn. by rewrite lookup_insert_ne.
  - by apply IH.
  - cbn [app]. destruct (decide (k = key)) as [->|Hne]; [congruence|]. constructor; [done|]. apply IH. cbn. by rewrite lookup_insert_ne.
Qed.

(** Of the metrics of a type that are limited in time, two are sent only when more than the interval lies
    between them. *)
Theorem limited_in_time (calls before between after : list (Z * DistinctionMetricTypeEnum)) (d : distinctionUtility) t1 t2 key :
  accepted calls d = before ++ (t1, key) :: between ++ (t2, key) :: after -> t1 + updateInterval < t2.
Proof.
  revert before d. induction calls as [|[now k] calls IH]; intros before d; [by destruct before|]. cbn [accepted].
  destruct (checkAndUpdateLastSentMap now k d) as [d' ok] eqn:Hc. destruct ok; cbn [app]; [|apply IH].
  destruct before as [|b before]; cbn [app]; [|intros [= _ Hr]; by eapply IH]. intros [= -> -> Hr].
  assert (Hl : lastSentMap d' !! key = Some t1).
  { unfold checkAndUpdateLastSentMap in Hc. destruct (lastSentMap d !! key); [destruct (_ <? _); [|done]|]; injection Hc as <-; apply lookup_insert_eq. }
  assert (Hall := accepted_after calls d' key t1 Hl). rewrite Hr, Forall_app, Forall_cons in Hall. by apply Hall.
Qed.

(** The plan that is reported is the highest of the users' plans that were registered. *)
Theorem highest_plan_reported (plans : list string) (d : distinctionUtility) (rank : Z) :
  planHierarchy (userPlanUnsafe d) = Some rank ->
  exists rank', planHierarchy (userPlanUnsafe (foldl (fun d p => setUserPlan p d) d plans)) = Some rank' /\
    rank <= rank' /\ (forall p r, p ∈ plans -> p <> "" -> planHierarchy (MapUserPlan p) = Some r -> r <= rank').
Proof.
  revert d rank. induction plans as [|p plans IH]; intros d rank Hr; cbn [foldl]; [exists rank; split; [done|]; split; [lia|]; intros p r Hp; by apply elem_of_nil in Hp|].
  assert (Hstep : exists r', planHierarchy (userPlanUnsafe (setUserPlan p d)) = Some r' /\ rank <= r' /\ (p <> "" -> forall r, planHierarchy (MapUserPlan p) = Some r -> r <= r')).
  { unfold setUserPlan, IsHigherPriority. destruct (String.eqb_spec p ""); [exists rank; split; [done|]; split; [lia|done]|].
    destruct (planHierarchy (MapUserPlan p)) as [r'|] eqn:Hp; [|exists rank; split; [done|]; split; [lia|congruence]]. rewrite Hr.
    destruct (Z.ltb_spec rank r'); [exists r'|exists rank]; (split; [done|]; split; [lia|intros _ r [= <-]; lia]). }
  destruct Hstep as (r1 & H1 & H2 & H3). destruct (IH _ _ H1) as (r2 & H4 & H5 & H6). exists r2. split; [done|]. split; [lia|].
  intros q r [->|Hq]%elem_of_cons Hne Hr'; [specialize (H3 Hne r Hr'); lia|by apply (H6 q)].
Qed.

(** What the JSON library promises: decoding into an empty list reads back all but [ShouldCache] and the types in the data. *)
Class MetricCodecLaws `{MC : MetricCodec} : Prop := {
  decode_metrics_encode : forall l, exists l', decode_metrics [] (encode_metrics l) = (l', None) /\
    (fun m => (m_Name m, m_Version m, m_Timestamp m)) <$> l' = (fun m => (m_Name m, m_Version m, m_Timestamp m)) <$> l
}.

(** The metrics that are to be cached, and no others, are in the store after a restart, in order and to be
    cached again. *)
Theorem cache_survives `{MC : MetricCodec} `{!MetricCodecLaws} (file : option string) (store : list Metric) :
  let restored := readCacheFile (writeCacheFile true file store) [] in
  (fun m => (m_Name m, m_Version m, m_Timestamp m)) <$> restored = (fun m => (m_Name m, m_Version m, m_Timestamp m)) <$> Prelude.Filter store m_ShouldCache /\
  Forall (fun m => m_ShouldCache m = true) restored.
Proof.
  intros restored. unfold restored, writeCacheFile, readCacheFile. destruct (decode_metrics_encode (Prelude.Filter store m_ShouldCache)) as (l' & -> & Hl). cbn [fst]. split.
  - rewrite <- Hl, <- list_fmap_compose. done.
  - apply Forall_fmap. by apply Forall_true.
Qed.

(** ** Examples *)

Definition ex_metric (n : string) : Metric := mkMetric n 1 0 (Counted 1 ∅) false.
Definition all_allow (order : list string) : Z -> Z * input := fun t => (t, LoopDispatch order (fun _ => true)).

(** What was sent and when, what is stored, the timers. *)
Definition ex_after (is_ : list (Z * input)) : option (list (Z * list string) * list string * list Z) :=
  match run 0 is_ (Initialize (-1) []) with
  | Some (_, s) => Some ((fun x : Z * string * list Metric => (x.1.1, m_Name <$> x.2)) <$> sends s, m_Name <$> metricStore s, timers (disp s))
  | None => None
  end.

(** Two metrics, the second a second after the first was sent: it waits for its time. *)
Definition ex_inputs : list (Z * input) :=
  [(0, InRegister "u" "mail2022"); (1, LoopData); (2, InAdd [ex_metric "a"]); (3, LoopDispatch ["u"] (fun _ => true)); (3, LoopData); (second, InAdd [ex_metric "b"])].
Definition ex_rest : list (Z * input) := [(10 * second, TimerFires 0); (10 * second, LoopDispatch ["u"] (fun _ => true))].
Example second_waits : ex_after ex_inputs = Some ([(3, ["a"])], ["b"], [3 + throttleDuration]).
Proof. vm_compute. reflexivity. Qed.
Example second_sent : ex_after (ex_inputs ++ ex_rest) = Some ([(10 * second, ["b"]); (3, ["a"])], [], []).
Proof. vm_compute. reflexivity. Qed.

(** Metrics that are dispatched while no user allows it are gone, and those left have nothing that sends them when it is allowed. *)
Definition many : list Metric := repeat (ex_metric "m") 1001.
Example left_behind :
  ex_after [(0, InRegister "u" ""); (1, InAdd many); (1, LoopData); (2, LoopDispatch ["u"] (fun _ => false))] = Some ([], ["m"], []).
Proof. vm_compute. reflexivity. Qed.

(** The store grows past its maximum when several metrics are added at once. *)
Example store_exceeds : length (metricStore (addMetrics [ex_metric "a"; ex_metric "b"] (Initialize 0 (repeat (ex_metric "m") 4999)))) = 5001%nat.
Proof. vm_compute. reflexivity. Qed.

(** A client that is registered after the service stopped makes it panic. *)
Example register_after_stop : crashed (RegisterUserClient "u" "" (Stop (Initialize 0 []))) = true.
Proof. reflexivity. Qed.

(** No type of metric sets the flag for other errors. *)
Lemma other_error_never (t : DistinctionMetricTypeEnum) (d : distinctionUtility) : receivedOtherError (du_heartbeat (updateHeartbeatData t d)) = receivedOtherError (du_heartbeat d).
Proof. by destruct t. Qed.

Definition end_of (is_ : list (Z * input)) : Service := match run 0 is_ (Initialize 0 []) with Some (_, s) => s | None => Initialize 0 [] end.
Definition end_time (is_ : list (Z * input)) : Z := match run 0 is_ (Initialize 0 []) with Some (t, _) => t | None => 0 end.
Lemma end_runs (is_ : list (Z * input)) : bool_decide (is_Some (run 0 is_ (Initialize 0 []))) = true -> run 0 is_ (Initialize 0 []) = Some (end_time is_, end_of is_).
Proof. unfold end_time, end_of. destruct (run 0 is_ _) as [[]|]; [done|]. by rewrite bool_decide_eq_true => -[]. Qed.

Definition ex_times (s : Service) : list Z := (fun x => x.1.1) <$> sends s.
Lemma sends_throttled_witness : ex_times (end_of (ex_inputs ++ ex_rest)) = [10 * second; 3] /\ 3 + throttleDuration <= 10 * second.
Proof.
  split; [vm_compute; reflexivity|].
  assert (Hrun : run 0 (ex_inputs ++ ex_rest) (Initialize 0 []) = Some (end_time (ex_inputs ++ ex_rest), end_of (ex_inputs ++ ex_rest))) by (apply end_runs; vm_compute; reflexivity).
  exact (sends_throttled 0 _ [] _ _ Hrun 0%nat (10 * second, "u", [ex_metric "b"]) (3, "u", [ex_metric "a"]) eq_refl eq_refl).
Defined.

Lemma sent_in_order_witness :
  all_sent (end_of (ex_inputs ++ ex_rest)) ++ metricStore (end_of (ex_inputs ++ ex_rest)) `sublist_of` [] ++ all_offered (ex_inputs ++ ex_rest) (Initialize 0 []).
Proof. apply (sent_in_order 0 (end_time (ex_inputs ++ ex_rest)) [] (ex_inputs ++ ex_rest)). apply end_runs. vm_compute. reflexivity. Defined.

Lemma store_bounded_witness : (length (metricStore (end_of ex_inputs)) < maxStorageSize + 1)%nat.
Proof.
  apply (store_bounded 1 0 (end_time ex_inputs) [] ex_inputs); [lia|apply Nat.lt_0_succ| |apply end_runs; vm_compute; reflexivity].
  repeat constructor.
Defined.


Definition ex_utility : distinctionUtility := newDistinctionUtility 0.
Lemma limited_in_time_witness : 1 + updateInterval < 10 * minute.
Proof. exact (limited_in_time [(1, SyncError); (2, SyncError); (10 * minute, SyncError)] [] [] [] ex_utility 1 (10 * minute) SyncError eq_refl). Defined.

Lemma highest_plan_reported_witness :
  exists r, planHierarchy (userPlanUnsafe (foldl (fun d p => setUserPlan p d) ex_utility ["mail2022"; "duo2024"])) = Some r /\ 0 <= r.
Proof. destruct (highest_plan_reported ["mail2022"; "duo2024"] ex_utility 0 eq_refl) as (r & H1 & H2 & _). by exists r. Defined.

(** A codec that writes the digits of a code. *)
Definition zero_digit : Ascii.ascii := Ascii.ascii_of_nat 48.
Definition one_digit : Ascii.ascii := Ascii.ascii_of_nat 49.
Fixpoint bits (p : positive) : string := match p with xH => "" | xO p => String zero_digit (bits p) | xI p => String one_digit (bits p) end.
Fixpoint unbits (s : string) : positive := match s with "" => xH | String c s => if Ascii.eqb c zero_digit then xO (unbits s) else xI (unbits s) end.
Lemma unbits_bits p : unbits (bits p) = p.
Proof. induction p as [p IH|p IH|]; cbn; by rewrite ?IH. Qed.

#[export] Instance ex_codec : MetricCodec :=
  {| encode_metrics := fun l => bits (encode ((fun m => (m_Name m, m_Version m, m_Timestamp m)) <$> l));
     decode_metrics := fun old s =>
       match decode (unbits s) with
       | Some l => ((fun '(n, v, t) => mkMetric n v t (OtherData "") false) <$> (l : list (string * Z * Z)), None)
       | None => (old, Some (ErrOther "not JSON"))
       end |}.
#[export] Instance ex_codec_laws : MetricCodecLaws.
Proof.
  constructor. intros l. cbn [decode_metrics encode_metrics ex_codec]. rewrite unbits_bits, decode_encode. eexists. split; [done|].
  rewrite <- !list_fmap_compose. apply list_fmap_ext. by intros.
Qed.

Lemma cache_survives_witness : m_Name <$> readCacheFile (writeCacheFile true None [ex_metric "a"; should_cache true (ex_metric "b")]) [] = ["b"].
Proof.
  assert (H := proj1 (cache_survives (MC := ex_codec) None [ex_metric "a"; should_cache true (ex_metric "b")])).
  apply (f_equal (fmap (fun x => x.1.1))) in H. rewrite <- !list_fmap_compose in H. exact H.
Defined.
