(* ===== verification/JsonMaps.v ===== *)
(** * Maps kept in JSON files

    What [json.NewEncoder(file).Encode(m)] writes for a map with text keys, and what
    [json.NewDecoder(file).Decode(&m)] does to the map that is there: the part of encoding/json
    that the caches of notifications and of feature flags use, and the round trip. *)

From S2P Require Import Prelude.
From S2P Require Import Json.
From S2P Require Import UserEvents.

(** A value that is read: one that fits, one of another type (an error is kept and the zero value stored), or
    one that ends the decoding. *)
Inductive read_value (V : Type) : Type := Fits (v : V) | Unfit (zero : V) | Broken.
Arguments Fits {V} _.
Arguments Unfit {V} _.
Arguments Broken {V}.

Class JsonValue (V : Type) : Type := { to_json : V -> json; of_json : json -> read_value V }.

Definition err_json : err := ErrOther "json: cannot unmarshal".

Section maps.
Context {V : Type} `{JV : JsonValue V}.

Definition member_le (a b : string * json) : Prop := String.leb a.1 b.1 = true.
#[export] Instance member_le_dec a b : Decision (member_le a b).
Proof. unfold member_le. apply _. Defined.

(** Keys are written in order, and a new line at the end. *)
Definition members_of (m : gmap string V) : list (string * json) := merge_sort member_le ((fun '(k, v) => (k, to_json v)) <$> map_to_list m).
Definition new_line : string := String (Ascii.ascii_of_nat 10) "".
Definition encode_map (m : gmap string V) : string := print_json (JObj (members_of m)) new_line.

Fixpoint decode_members (ms : list (string * json)) (m : gmap string V) (e : option err) : gmap string V * option err :=
  match ms with
  | [] => (m, e)
  | (k, j) :: ms =>
      match of_json j with
      | Fits v => decode_members ms (<[k := v]> m) e
      | Unfit zero => decode_members ms (<[k := zero]> m) (Some (default err_json e))
      | Broken => (m, Some err_json)
      end
  end.

(** The first value of the text; a text that is not JSON changes nothing, and [null] is the map that is not there. *)
Definition decode_map (text : string) (m : gmap string V) : gmap string V * option err :=
  match parse_json (2 * String.length text + 2) (skip_spaces text) with
  | None => (m, Some err_json)
  | Some (JNull, _) => (∅, None)
  | Some (JObj ms, _) => decode_members ms m None
  | Some _ => (m, Some err_json)
  end.

(** ** What was written is read *)

Class JsonValueLaws : Prop := { of_to_json : forall v, of_json (to_json v) = Fits v }.
Context `{!JsonValueLaws}.

Lemma decode_members_fits (l : list (string * V)) (m : gmap string V) :
  NoDup l.*1 -> decode_members ((fun '(k, v) => (k, to_json v)) <$> l) m None = (list_to_map l ∪ m, None).
Proof.
  revert m. induction l as [|[k v] l IH]; intros m Hnd; [cbn; by rewrite (left_id_L ∅ (∪))|].
  apply NoDup_cons in Hnd as [Hk Hnd]. rewrite fmap_cons. cbn [decode_members]. rewrite of_to_json, IH by done. f_equal.
  rewrite list_to_map_cons, <- insert_union_l, insert_union_r; [done|]. by apply not_elem_of_list_to_map_1.
Qed.

Lemma members_of_list (m : gmap string V) : exists l, members_of m = (fun '(k, v) => (k, to_json v)) <$> l /\ l ≡ₚ map_to_list m.
Proof.
  unfold members_of. set (f := fun '(k, v) => (k, to_json v)). assert (Hp := merge_sort_Permutation member_le (f <$> map_to_list m)).
  apply Permutation_map_inv in Hp as (l & Hl & Hp). exists l. split; [done|by symmetry].
Qed.

(** The maps of a file are read as they were written, into what was there before. *)
Lemma decode_encode_map (m old : gmap string V) : decode_map (encode_map m) old = (m ∪ old, None).
Proof.
  unfold decode_map, encode_map. rewrite print_json_skip.
  assert (Hlen := proj1 (json_fuel_length (json_fuel (JObj (members_of m)))) (JObj (members_of m)) new_line ltac:(lia)).
  rewrite (proj1 (parse_print _) (JObj (members_of m)) new_line); [|simpl in Hlen |- *; lia|done].
  destruct (members_of_list m) as (l & -> & Hp). rewrite decode_members_fits; [|rewrite Hp; apply NoDup_fst_map_to_list].
  f_equal. f_equal. rewrite (list_to_map_proper l (map_to_list m)); [apply list_to_map_to_list| |done]. rewrite Hp. apply NoDup_fst_map_to_list.
Qed.

End maps.
Arguments JsonValueLaws V {JV}.
