(* ===== verification/FeatureFlags.v ===== *)
(** * Feature flags (internal/unleash/service.go, startup.go)

    A goroutine fetches the flags of the API now and then and hands them over a channel to
    another one, which stores them and writes them to a file; the flags are asked for by name.
    The file is what a new service starts from.  Before the bridge is set up the flags are fetched
    once, with a file of their own. *)

From S2P Require Import Prelude.
From S2P Require Import Json.
From S2P Require Import UserEvents.
From S2P Require Import JsonMaps.

Notation flags := (gmap string bool) (only parsing).

#[export] Instance json_bool : JsonValue bool :=
  {| to_json := JBool; of_json := fun j => match j with JBool b => Fits b | JNull => Fits false | _ => Unfit false end |}.
#[export] Instance json_bool_laws : JsonValueLaws bool.
Proof. by constructor. Qed.

(** The toggles of a response; of two with one name the last counts. *)
Definition readResponseData (toggles : list (string * bool)) : flags := foldl (fun m el => <[el.1 := el.2]> m) ∅ toggles.

Definition GetFlagValue (store : flags) (key : string) : bool := default false (store !! key).
(** The service of tests. *)
Definition NullGetFlagValue (key : string) : bool := false.

(** ** The service *)

Inductive poller_state : Type := Polling | Handing (res : flags) | PollerDone | PollerPanicked.
Inductive receiver_state : Type := Receiving | ReceiverDone.

Record Service : Type := mkService {
  ffStore : flags; file : option string; poller : poller_state; receiver : receiver_state; cancelled : bool; channel_closed : bool
}.

(** A file that cannot be opened is [None]; one that cannot be read as JSON leaves the flags that were read. *)
Definition readCacheFile (file : option string) (store : flags) : flags := match file with None => store | Some text => (decode_map text store).1 end.
Definition writeCacheFile (can_create : bool) (store : flags) (file : option string) : option string := if can_create then Some (encode_map store) else file.
(** The map that is not there is written so. *)
Definition writeNull (can_create : bool) (file : option string) : option string := if can_create then Some ("null" +:+ new_line) else file.

Definition newService (file : option string) : Service := mkService (readCacheFile file ∅) file Polling Receiving false false.

Definition set_poller (p : poller_state) (s : Service) : Service := mkService (ffStore s) (file s) p (receiver s) (cancelled s) (channel_closed s).

(** [fs_ok]: files can always be created.  [runFlagPoll] hands over what was fetched; [runReceiver] stores it and writes the file; [Close] cancels
    and then closes the channel. *)
Inductive step (fs_ok : bool) : Service -> Service -> Prop :=
| step_fetched s toggles : poller s = Polling -> step fs_ok s (set_poller (Handing (readResponseData toggles)) s)
| step_fetch_failed s : poller s = Polling -> step fs_ok s s
| step_handed s res can_create : poller s = Handing res -> receiver s = Receiving -> channel_closed s = false -> (fs_ok = true -> can_create = true) ->
    step fs_ok s (mkService res (writeCacheFile can_create res (file s)) Polling Receiving (cancelled s) false)
| step_poller_stops s : poller s = Polling -> cancelled s = true -> step fs_ok s (set_poller PollerDone s)
| step_receiver_stops s : receiver s = Receiving -> cancelled s = true ->
    step fs_ok s (mkService (ffStore s) (file s) (poller s) ReceiverDone true (channel_closed s))
| step_cancel s : cancelled s = false -> step fs_ok s (mkService (ffStore s) (file s) (poller s) (receiver s) true (channel_closed s))
| step_close s : cancelled s = true -> channel_closed s = false -> step fs_ok s (mkService (ffStore s) (file s) (poller s) (receiver s) true true)
| step_received_closed s can_create : receiver s = Receiving -> channel_closed s = true -> (fs_ok = true -> can_create = true) ->
    step fs_ok s (mkService ∅ (writeNull can_create (file s)) (poller s) Receiving (cancelled s) true)
| step_handed_closed s res : poller s = Handing res -> channel_closed s = true -> step fs_ok s (set_poller PollerPanicked s).

(** ** The start of the program *)

(** [cachePath] is whether there is a path; the file can be missing, and creating it can fail. *)
Definition readStartupCacheFile (cachePath : bool) (file : option string) : flags * option err :=
  if cachePath then match file with None => (∅, Some (ErrOther "open")) | Some text => decode_map text ∅ end else (∅, None).
Definition saveStartupCacheFile (cachePath can_create : bool) (store : flags) (file : option string) : option string :=
  if cachePath && can_create then Some (encode_map store) else file.

(** The flags, and the file afterwards. *)
Definition GetStartupFeatureFlagsAndStore (cachePath can_create : bool) (file : option string) (features : result err (list (string * bool))) : flags * option string :=
  let ffStore := (readStartupCacheFile cachePath file).1 in
  let ffStore := match features with Ok toggles => readResponseData toggles | Err _ => ffStore end in
  (ffStore, saveStartupCacheFile cachePath can_create ffStore file).

(** ** What is asked for *)

(** The value of the last toggle of the name. *)
Definition value_of (toggles : list (string * bool)) (key : string) : option bool := last (snd <$> Prelude.Filter toggles (fun el => String.eqb el.1 key)).

Lemma readResponseData_lookup (toggles : list (string * bool)) (key : string) : readResponseData toggles !! key = value_of toggles key.
Proof.
  unfold readResponseData, value_of. induction toggles as [|[k b] toggles IH] using rev_ind; [done|].
  rewrite foldl_app, Filter_app, fmap_app, last_app. cbn [foldl fst snd Prelude.Filter]. destruct (String.eqb_spec k key) as [->|Hne]; cbn [fmap list_fmap last].
  - apply lookup_insert_eq.
  - by rewrite lookup_insert_ne, IH.
Qed.

(** A flag has the value of the last toggle of its name in the response, and is off when there is none. *)
Theorem flag_of_response (toggles : list (string * bool)) (key : string) :
  GetFlagValue (readResponseData toggles) key = default false (value_of toggles key).
Proof. unfold GetFlagValue. by rewrite readResponseData_lookup. Qed.

(** ** A restart *)

Lemma cache_round_trip (store : flags) (file : option string) : readCacheFile (writeCacheFile true store file) ∅ = store.
Proof. unfold readCacheFile, writeCacheFile. rewrite decode_encode_map. cbn [fst]. apply (right_id_L ∅ (∪)). Qed.

(** As long as the service is not closed, its flags are those of its file at the start or of a response, and
    when files can be created, a new service that starts from the file it left has the same flags. *)
Theorem flags_survive_restart (fs_ok : bool) (file0 : option string) (s : Service) : rtc (step fs_ok) (newService file0) s -> channel_closed s = false ->
  (ffStore s = readCacheFile file0 ∅ \/ exists toggles, ffStore s = readResponseData toggles) /\
  (fs_ok = true -> ffStore (newService (file s)) = ffStore s).
Proof.
  set (inv := fun s : Service =>
    (forall res, poller s = Handing res -> exists toggles, res = readResponseData toggles) /\
    (channel_closed s = false ->
     (ffStore s = readCacheFile file0 ∅ \/ exists toggles, ffStore s = readResponseData toggles) /\ (fs_ok = true -> readCacheFile (file s) ∅ = ffStore s))).
  enough (forall s1 s2, rtc (step fs_ok) s1 s2 -> inv s1 -> inv s2) as Hinv.
  { intros Hrun Hc. apply (Hinv _ _ Hrun); [|done]. split; [done|]. intros _. split; [by left|done]. }
  clear s. intros s1 s2 Hrun. induction Hrun as [|s1 s2 s3 Hstep _ IH]; [done|]. intros [Hp Hf]. apply IH. clear IH.
  destruct Hstep as [s toggles Hpol|s Hpol|s res cc Hpol Hrec Hcl Hcc|s Hpol Hcan|s Hrec Hcan|s Hcan|s Hcan Hcl|s cc Hrec Hcl Hcc|s res Hpol Hcl]; split; cbn [poller channel_closed ffStore file set_poller]; try done.
  - intros res [= <-]. eauto.
  - intros _. destruct (Hp _ Hpol) as [toggles ->]. split; [eauto|]. intros Hok. rewrite (Hcc Hok). apply cache_round_trip.
Qed.

(** When the flags were fetched at the start of the program and saved, a later start that cannot fetch them
    has the same ones; fetched flags replace those of the file. *)
Theorem startup_flags_kept (file : option string) (toggles : list (string * bool)) (can_create : bool) (e : err) :
  let '(flags1, file1) := GetStartupFeatureFlagsAndStore true true file (Ok toggles) in
  let '(flags2, file2) := GetStartupFeatureFlagsAndStore true can_create file1 (Err e) in
  flags1 = readResponseData toggles /\ flags2 = flags1 /\ file2 = file1.
Proof.
  unfold GetStartupFeatureFlagsAndStore, readStartupCacheFile, saveStartupCacheFile. cbn [andb]. rewrite decode_encode_map. cbn [fst].
  rewrite (right_id_L ∅ (∪)). split; [done|]. split; [done|]. by destruct can_create.
Qed.

(** ** Examples *)

Example flags_written : encode_map (readResponseData [("b", true); ("a", false); ("b", false)]) = "{" +:+ String quote ("a" +:+ String quote (":false," +:+ String quote ("b" +:+ String quote (":false}" +:+ new_line)))).
Proof. vm_compute. reflexivity. Qed.

Lemma flags_survive_restart_witness : GetFlagValue (ffStore (newService (Some (encode_map (readResponseData [("a", true)]))))) "a" = true.
Proof.
  set (f := readResponseData [("a", true)]). set (s := mkService f (Some (encode_map f)) Polling Receiving false false).
  assert (Hrun : rtc (step true) (newService None) s).
  { eapply rtc_l; [by apply (step_fetched true _ [("a", true)])|]. eapply rtc_l; [apply (step_handed true _ f true); done|]. apply rtc_refl. }
  assert (H := proj2 (flags_survive_restart true None s Hrun eq_refl) eq_refl). change (ffStore (newService (Some (encode_map f))) = f) in H. rewrite H. vm_compute. reflexivity.
Defined.

(** A service that is closed can still receive from the closed channel before it sees that it was cancelled: its
    flags are all off, and the file says so to the next start. *)
Example closing_clears_flags :
  let file0 := Some (encode_map (readResponseData [("a", true)])) in
  exists s, rtc (step true) (newService file0) s /\ GetFlagValue (ffStore (newService file0)) "a" = true /\
    file s = Some ("null" +:+ new_line) /\ ffStore (newService (file s)) = ∅.
Proof.
  intros file0. exists (mkService ∅ (Some ("null" +:+ new_line)) Polling Receiving true true). split; [|vm_compute; split; [reflexivity|split; reflexivity]].
  eapply rtc_l; [by apply step_cancel|]. eapply rtc_l; [by apply step_close|]. eapply rtc_l; [by apply (step_received_closed true _ true)|]. apply rtc_refl.
Qed.

(** A response that arrives while the service is closed makes the goroutine that fetches panic. *)
Example closing_panics : exists s, rtc (step true) (newService None) s /\ poller s = PollerPanicked.
Proof.
  eexists. split; [|shelve]. eapply rtc_l; [by apply (step_fetched true _ [])|]. eapply rtc_l; [by apply step_cancel|]. eapply rtc_l; [by apply step_close|].
  eapply rtc_l; [by eapply step_handed_closed|]. apply rtc_refl.
  Unshelve. reflexivity.
Qed.
