(* ===== verification/Notifications.v ===== *)
(** * Notifications of the API (internal/services/notifications)

    Events of a user can carry notifications for the bridge's window. Each is shown once a day
    at most: the store keeps until when a notification counts as shown, by the hash of its
    text, in memory and in a file that is read at the next start. *)

From S2P Require Import Prelude.
From S2P Require Import Strings.
From S2P Require Import Json.
From S2P Require Import UserEvents.
From S2P Require Import MediaTypes.
From S2P Require Import JsonMaps.

Record NotificationPayload : Type := mkPayload { Title : string; Subtitle : string; np_Body : string }.
(** [ne_Time] is in seconds. *)
Record NotificationEvent : Type := mkNotification { ne_ID : string; ne_Type : string; ne_Time : Z; Payload : NotificationPayload }.

(** Times are nanoseconds. [format_time] and [parse_time] are how JSON writes a [time.Time]; [zero_time] is what [null] leaves. *)
Class TimeText : Type := { format_time : Z -> string; parse_time : string -> option Z; zero_time : Z }.
Class TimeTextLaws `{TT : TimeText} : Prop := { parse_format_time : forall t, parse_time (format_time t) = Some t }.
(** The hexadecimal digits of the SHA-256 of a text. *)
Class HashText : Type := hash_text : string -> string.

#[export] Instance json_time `{TT : TimeText} : JsonValue Z :=
  {| to_json := fun t => JStr (format_time t);
     of_json := fun j => match j with JStr s => match parse_time s with Some t => Fits t | None => Broken end | JNull => Fits zero_time | _ => Broken end |}.
#[export] Instance json_time_laws `{TL : TimeTextLaws} : JsonValueLaws Z.
Proof. constructor. intros t. cbn. by rewrite parse_format_time. Qed.

Section notifications.
Context `{TT : TimeText} `{HT : HashText}.

(** ** The store (store.go) *)

Definition timeOffset : Z := 24 * 3600 * 1000000000.
Definition expiry (notification : NotificationEvent) : Z := ne_Time notification * 1000000000 + timeOffset.

(** [displayedMessages] is [None] when the map is not there; [cache] is the file, [None] when it cannot be opened. *)
Record Store : Type := mkStore { displayedMessages : option (gmap string Z); useCache : bool; cache : option string }.

Definition generateHash (payload : NotificationPayload) : string := hash_text (np_Body payload +:+ Subtitle payload +:+ Title payload).

Definition is_null (text : string) : bool := match parse_json (2 * String.length text + 2) (skip_spaces text) with Some (JNull, _) => true | _ => false end.
Definition redundant (curTime value : Z) : bool := value <? curTime.
Definition readCache (now : Z) (s : Store) : Store :=
  if useCache s then
    match cache s with
    | None => s
    | Some text =>
        if is_null text then mkStore None (useCache s) (cache s)
        else mkStore ((fun m => filter (fun '(_, v) => redundant now v = false) (decode_map text m).1) <$> displayedMessages s) (useCache s) (cache s)
    end
  else s.

Definition NewStore (now : Z) (cachePath : bool) (file : option string) : Store := readCache now (mkStore (Some ∅) cachePath file).

Definition writeCache (can_create : bool) (s : Store) : Store :=
  if useCache s && can_create then
    mkStore (displayedMessages s) (useCache s) (Some (match displayedMessages s with Some m => encode_map m | None => "null" +:+ new_line end))
  else s.

(** [None]: writing into a map that is not there panics. *)
Definition shouldSendAndStore (now : Z) (can_create : bool) (notification : NotificationEvent) (s : Store) : option (Store * bool) :=
  let uid := generateHash (Payload notification) in
  let add := m ← displayedMessages s; Some (writeCache can_create (mkStore (Some (<[uid := expiry notification]> m)) (useCache s) (cache s)), true) in
  match displayedMessages s ≫= fun m => m !! uid with
  | None => add
  | Some value => if negb (value <? now) then Some (s, false) else add
  end.

(** ** The service (service.go) *)

Definition is_digit (c : Ascii.ascii) : bool := let n := Ascii.nat_of_ascii c in (48 <=? n)%nat && (n <=? 57)%nat.
(** A backslash and a digit at the start. *)
Definition isBodyBitfieldValid (notification : NotificationEvent) : bool :=
  match np_Body (Payload notification) with String a (String b _) => Ascii.eqb a Json.backslash && is_digit b | _ => false end.

(** What is published, and the numbers of the metrics of those received and processed. *)
Record published : Type := mkPublished { pub_events : list NotificationEvent; received : list nat; processed : list nat }.

Definition shown_type (e : NotificationEvent) : bool := String.eqb (ToLower (ne_Type e)) "bridge_modal".

Fixpoint handle_events (now : Z) (can_create : bool) (es : list NotificationEvent) (s : Store) (p : published) : option (Store * published) :=
  match es with
  | [] => Some (s, p)
  | e :: es =>
      if shown_type e then
        if isBodyBitfieldValid e then handle_events now can_create es s p
        else '(s, shouldSend) ← shouldSendAndStore now can_create e s;
             if (shouldSend : bool) then handle_events now can_create es s (mkPublished (pub_events p ++ [e]) (received p) (processed p ++ [1%nat]))
             else handle_events now can_create es s p
      else handle_events now can_create es s p
  end.

Definition HandleNotificationEvents (killSwitch : bool) (now : Z) (can_create : bool) (es : list NotificationEvent) (s : Store) (p : published) : option (Store * published) :=
  if killSwitch then Some (s, p) else handle_events now can_create es s (mkPublished (pub_events p) (received p ++ [length es]) (processed p)).

(** The text of a notification as it is compared. *)
Definition text_of (e : NotificationEvent) : string := generateHash (Payload e).

(** The program runs: batches of events, and restarts, with the times they happen at. *)
Inductive happening : Type := Batch (killSwitch : bool) (es : list NotificationEvent) | RestartProgram.

(** What was published when, the last first. *)
Fixpoint runs (t : Z) (hs : list (Z * happening)) (s : Store) (log : list (Z * NotificationEvent)) : option (Z * Store * list (Z * NotificationEvent)) :=
  match hs with
  | [] => Some (t, s, log)
  | (now, h) :: hs =>
      if t <=? now then
        match h with
        | RestartProgram => runs now hs (NewStore now (useCache s) (cache s)) log
        | Batch kill es =>
            '(s', p) ← HandleNotificationEvents kill now true es s (mkPublished [] [] []);
            runs now hs s' (rev ((fun e => (now, e)) <$> pub_events p) ++ log)
        end
      else None
  end.

(** ** Shown once a day *)

Context `{!TimeTextLaws}.

(** The last time a text was shown counts, in memory and in the file, until it is over. *)
Definition remembered (now : Z) (s : Store) (log : list (Z * NotificationEvent)) : Prop :=
  useCache s = true /\ is_Some (displayedMessages s) /\ (match cache s with Some text => is_null text = false | None => True end) /\
  forall before t e after, log = before ++ (t, e) :: after -> text_of e ∉ ((fun x => text_of x.2) <$> before) ->
    expiry e < now \/ ((exists m, displayedMessages s = Some m /\ m !! text_of e = Some (expiry e)) /\ (exists text, cache s = Some text /\ (decode_map text ∅).1 !! text_of e = Some (expiry e))).

(** Two showings of one text: the later after the earlier is over. *)
Definition spaced (log : list (Z * NotificationEvent)) : Prop :=
  forall before t e between t' e' after, log = before ++ (t, e) :: between ++ (t', e') :: after -> text_of e = text_of e' ->
    text_of e ∉ ((fun x => text_of x.2) <$> between) -> expiry e' < t.

Lemma encoded_not_null (m : gmap string Z) : is_null (encode_map m) = false.
Proof.
  unfold is_null, encode_map. rewrite print_json_skip.
  assert (Hlen := proj1 (json_fuel_length (json_fuel (JObj (members_of m)))) (JObj (members_of m)) new_line ltac:(lia)).
  rewrite (proj1 (parse_print _) (JObj (members_of m)) new_line); [done|simpl in Hlen |- *; lia|done].
Qed.

Lemma remembered_restart now now' s log : now <= now' -> remembered now s log -> remembered now' (NewStore now' (useCache s) (cache s)) log.
Proof.
  intros Hle (Hu & Hd & Hn & Hlog). unfold NewStore, readCache. rewrite Hu. cbn [useCache cache displayedMessages].
  destruct (cache s) as [text|] eqn:Hc; [rewrite Hn|]; (split; [done|]; split; [done|]; split; [by rewrite ?Hc|]); intros before t e after Hl Hb.
  - destruct (Hlog _ _ _ _ Hl Hb) as [He|[_ (text' & [= <-] & Ht)]]; [left; lia|]. destruct (Z.ltb_spec (expiry e) now') as [Hlt|Hge]; [by left|]. right. split; [|exists text; done].
    eexists. split; [done|]. apply map_lookup_filter_Some. split; [done|]. unfold redundant. by apply Z.ltb_ge.
  - destruct (Hlog _ _ _ _ Hl Hb) as [He|[_ (text' & Ht & _)]]; [left; lia|done].
Qed.

Definition kept (now : Z) (s : Store) (log : list (Z * NotificationEvent)) : Prop := remembered now s log /\ spaced log.

Lemma spaced_cons now e log :
  spaced log -> (forall before t' e' after, log = before ++ (t', e') :: after -> text_of e = text_of e' -> text_of e ∉ ((fun x => text_of x.2) <$> before) -> expiry e' < now) ->
  spaced ((now, e) :: log).
Proof.
  intros Hs Hnew [|b before] t e1 between t' e' after; cbn [app].
  - intros [= <- <- Hl] Ht Hnot. by eapply Hnew.
  - intros [= _ Hl] Ht Hnot. by eapply Hs.
Qed.

(** A text that was shown is in the map until it is over. *)
Lemma last_shown now s log m e t' e' before after :
  remembered now s log -> displayedMessages s = Some m -> log = before ++ (t', e') :: after -> text_of e = text_of e' -> text_of e ∉ ((fun x => text_of x.2) <$> before) ->
  expiry e' < now \/ m !! text_of e = Some (expiry e').
Proof.
  intros (_ & _ & _ & Hlog) Hm Hl Ht Hnot. rewrite Ht in Hnot |- *. destruct (Hlog _ _ _ _ Hl Hnot) as [|[(m' & Hm' & Hv) _]]; [by left|right]. congruence.
Qed.

Lemma kept_shown now e s log m : kept now s log -> displayedMessages s = Some m -> (forall v, m !! text_of e = Some v -> v < now) ->
  kept now (writeCache true (mkStore (Some (<[text_of e := expiry e]> m)) (useCache s) (cache s))) ((now, e) :: log).
Proof.
  intros [Hr Hs] Hm Hv. split.
  - destruct Hr as (Hu & Hd & Hn & Hlog). unfold writeCache. cbn [useCache displayedMessages cache]. rewrite Hu. cbn [andb].
    split; [done|]. split; [done|]. split; [apply encoded_not_null|].
    intros [|b before] t e1 after; cbn [app]; [intros [= <- <- _] _|intros [= <- Hl] Hnot].
    + right. split; eexists; (split; [done|]); [|rewrite decode_encode_map; cbn [fst]; rewrite (right_id_L ∅ (∪))]; apply lookup_insert_eq.
    + rewrite fmap_cons, not_elem_of_cons in Hnot. destruct Hnot as [Hne Hnot]. cbn [snd] in Hne. destruct (Hlog _ _ _ _ Hl Hnot) as [|[(m' & Hm' & Hv') _]]; [by left|right].
      assert (m' = m) as -> by congruence. split; eexists; (split; [done|]); [|rewrite decode_encode_map; cbn [fst]; rewrite (right_id_L ∅ (∪))]; by rewrite lookup_insert_ne.
  - apply spaced_cons; [done|]. intros before t' e' after Hl Ht Hnot. destruct (last_shown _ _ _ _ _ _ _ _ _ Hr Hm Hl Ht Hnot) as [|Hx]; [done|]. by apply Hv.
Qed.

Lemma handle_events_kept now es s p s' p' log : kept now s (rev ((fun e => (now, e)) <$> pub_events p) ++ log) -> handle_events now true es s p = Some (s', p') ->
  kept now s' (rev ((fun e => (now, e)) <$> pub_events p') ++ log).
Proof.
  revert s p. induction es as [|e es IH]; intros s p Hk; cbn [handle_events]; [by intros [= <- <-]|].
  destruct (shown_type e); [|by apply IH]. destruct (isBodyBitfieldValid e); [by apply IH|]. unfold shouldSendAndStore. fold (text_of e).
  assert (Hd := Hk). destruct Hd as [(_ & [m Hm] & _) _]. rewrite Hm. cbn [mbind option_bind].
  assert (Hadd : (forall v, m !! text_of e = Some v -> v < now) -> kept now (writeCache true (mkStore (Some (<[text_of e := expiry e]> m)) (useCache s) (cache s)))
    (rev ((fun e => (now, e)) <$> (pub_events p ++ [e])) ++ log)).
  { intros Hv. rewrite fmap_app, rev_app_distr. by apply kept_shown. }
  destruct (m !! text_of e) as [v|] eqn:Hv; [destruct (Z.ltb_spec v now); cbn [negb mbind option_bind]|]; [apply IH, Hadd; by intros ? [= <-]|by apply IH|apply IH, Hadd; done].
Qed.

(** A notification whose text was shown is not shown again until the day that began with it is over, however
    events come and the program is restarted, when the cache can be written. *)
Theorem shown_once_a_day (t0 t : Z) (file : option string) (hs : list (Z * happening)) (s : Store) (log : list (Z * NotificationEvent)) :
  (match file with Some text => is_null text = false | None => True end) -> runs t0 hs (NewStore t0 true file) [] = Some (t, s, log) -> spaced log.
Proof.
  intros Hfile. assert (Hgen : forall t0 s0 log0, kept t0 s0 log0 -> runs t0 hs s0 log0 = Some (t, s, log) -> spaced log).
  { clear Hfile. induction hs as [|[now h] hs IH]; intros t1 s0 log0 Hk; cbn [runs]; [intros [= _ _ <-]; apply Hk|].
    destruct (Z.leb_spec t1 now) as [Hle|]; [|done].
    assert (Hk' : kept now s0 log0).
    { destruct Hk as [(Hu & Hd & Hn & Hlog) Hs]. split; [|done]. split; [done|]. split; [done|]. split; [done|]. intros before t' e after Hl Hb.
      destruct (Hlog _ _ _ _ Hl Hb) as [|]; [left; lia|by right]. }
    destruct h as [kill es|].
    - unfold HandleNotificationEvents. destruct kill; cbn [mbind option_bind]; [apply IH, Hk'|].
      destruct (handle_events now true es s0 _) as [[s1 p1]|] eqn:Hh; [|done]. cbn [mbind option_bind]. apply IH. by apply (handle_events_kept now es s0 _ s1 p1 log0) in Hh.
    - apply IH. destruct Hk as [Hr Hs]. split; [|done]. by apply (remembered_restart t1). }
  apply Hgen. split; [|by intros [|? []] ?????? ?].
  unfold NewStore, readCache. cbn [useCache cache]. destruct file as [text|]; [rewrite Hfile|]; (split; [done|]; split; [done|]; split; [done|]); intros [|? ?] ????; done.
Qed.

End notifications.

(** ** Examples *)

Section examples.
(** Unary times, and a hash that is the text. *)
Definition ex_time : TimeText := {| format_time := fun t => print_Z t ""; parse_time := fun s => match parse_number s with Some (z, "") => Some z | _ => None end; zero_time := 0 |}.
Local Existing Instance ex_time.
#[export] Instance ex_time_laws : TimeTextLaws.
Proof. constructor. intros t. cbn. by rewrite (parse_print_Z t ""). Qed.
Definition ex_hash : HashText := fun s => s.
Local Existing Instance ex_hash.

Definition ex_event (t : Z) (title subtitle body : string) : NotificationEvent := mkNotification "id" "Bridge_Modal" t (mkPayload title subtitle body).
Definition hour : Z := 3600 * 1000000000.
Definition ex_happenings : list (Z * happening) :=
  [(hour, Batch false [ex_event 3600 "t" "s" "b"; ex_event 3600 "t" "s" "b"; ex_event 3600 "t" "s" ("\" +:+ "1")]); (2 * hour, RestartProgram); (3 * hour, Batch false [ex_event 3600 "t" "s" "b"]);
   (26 * hour, Batch true [ex_event 3600 "t" "s" "b"]); (26 * hour, Batch false [ex_event 93600 "t" "s" "b"])].
Definition ex_log : list (Z * NotificationEvent) := match runs 0 ex_happenings (NewStore 0 true None) [] with Some (_, _, log) => log | None => [] end.
Example shown_twice : fst <$> ex_log = [26 * hour; hour].
Proof. vm_compute. reflexivity. Qed.

(** Texts that are divided differently count as the same notification. *)
Example same_text : text_of (ex_event 0 "cd" "" "ab") = text_of (ex_event 0 "d" "bc" "a").
Proof. reflexivity. Qed.

(** A cache that holds [null] makes the first notification panic. *)
Example null_cache_panics : runs 0 ex_happenings (NewStore 0 true (Some "null")) [] = None.
Proof. vm_compute. reflexivity. Qed.

Definition ex_end : Z * Store := match runs 0 ex_happenings (NewStore 0 true None) [] with Some (t, s, _) => (t, s) | None => (0, NewStore 0 true None) end.
Lemma shown_once_a_day_witness : expiry (ex_event 3600 "t" "s" "b") < 26 * hour.
Proof.
  assert (Hrun : runs 0 ex_happenings (NewStore 0 true None) [] = Some (ex_end.1, ex_end.2, ex_log)) by (vm_compute; reflexivity).
  refine (shown_once_a_day 0 ex_end.1 None ex_happenings ex_end.2 ex_log I Hrun [] (26 * hour) (ex_event 93600 "t" "s" "b") [] hour (ex_event 3600 "t" "s" "b") [] _ _ _); [vm_compute; reflexivity|reflexivity|].
  intros H. by apply elem_of_nil in H.
Defined.

End examples.
