(* ===== verification/Dialers.v ===== *)
(** * Connecting to the API (internal/dialer)

    A connection is made with TLS and accepted only when the server shows a key the bridge trusts;
    the chain of certificates is verified too for the domain of the API.  A key that is not
    trusted is reported and announced.  When the API cannot be reached, and the user allows it, the
    dialer switches to another server, whose name is looked up, for a day.

    Several connections are made at once: a dial is a thread whose parts, between which it holds no lock,
    are steps that interleave.  The network, the parsing of URLs and the hash are parameters. *)

From S2P Require Import Prelude.
From S2P Require Import Strings.
From S2P Require Import UserEvents.

(** [url_Parse] gives scheme, host and path; [SplitHostPort] host and port. *)
Class NetText : Type := { url_Parse : string -> option (string * string * string); SplitHostPort : string -> option (string * string) }.

(** ** Plain TLS (dialer_basic.go) *)

Definition dot : Ascii.ascii := Ascii.ascii_of_nat 46.

Definition extractDomain (hostname : string) : string :=
  let parts := Split dot hostname in
  if (2 <=? length parts)%nat then String.concat "." (drop (length parts - 2) parts) else hostname.

Definition ShouldSkipCertificateChainVerification `{NT : NetText} (hostURL address : string) : bool :=
  match url_Parse hostURL with
  | None => true
  | Some (_, host, _) =>
      let addressHost := match SplitHostPort address with Some (h, _) => h | None => address end in
      negb (String.eqb (extractDomain addressHost) (extractDomain host))
  end.

(** Certificates by their key; a verified chain has a leaf. *)
Record Certificate : Type := mkCertificate { RawSubjectPublicKeyInfo : string; Raw : string }.
Record ConnectionState : Type := mkConnState { VerifiedChains : list (Certificate * list Certificate); PeerCertificates : list Certificate; ServerName : string }.
Inductive Conn : Type := TlsConn (state : ConnectionState) | PlainConn.

(** What the TLS library gives for an address, with the chain verified or not. *)
Class TlsNet : Type := tls_dial : bool -> string -> result err Conn.
Definition basic_DialTLSContext `{NT : NetText} `{TN : TlsNet} (hostURL address : string) : result err Conn :=
  tls_dial (ShouldSkipCertificateChainVerification hostURL address) address.

(** ** Pins (dialer_pinning_checker.go, dialer_pinning_checker_default.go) *)

Class HashBase64SHA256 : Type := hash_base64 : string -> string.

Definition quote_mark : string := String (Ascii.ascii_of_nat 34) "".
Definition certFingerprint `{HB : HashBase64SHA256} (cert : Certificate) : string := "pin-sha256=" +:+ quote_mark +:+ hash_base64 (RawSubjectPublicKeyInfo cert) +:+ quote_mark.
Definition isCertFoundInKnownPins `{HB : HashBase64SHA256} (trustedPins : list string) (cert : Certificate) : bool := existsb (String.eqb (certFingerprint cert)) trustedPins.

Definition ErrTLSMismatch : err := ErrOther "no TLS fingerprint match found".

Definition CheckCertificate `{HB : HashBase64SHA256} (trustedPins : list string) (conn : Conn) (certificateChainVerificationSkipped : bool) : option err :=
  match conn with
  | PlainConn => Some (ErrOther "connection is not a TLS connection")
  | TlsConn st =>
      if negb certificateChainVerificationSkipped then
        match VerifiedChains st with
        | [] => Some (ErrOther "no verified certificate chains")
        | chains => if existsb (fun chain => isCertFoundInKnownPins trustedPins chain.1) chains then None else Some ErrTLSMismatch
        end
      else
        match PeerCertificates st with
        | [] => Some (ErrOther "no peer certificates available")
        | leaf :: _ => if isCertFoundInKnownPins trustedPins leaf then None else Some ErrTLSMismatch
        end
  end.

(** ** Reports (dialer_pinning_report.go, dialer_pinning_reporter.go) *)

(** The fields that are filled before a report is compared; dates are added when it is sent. *)
Record tlsReport : Type := mkTLSReport { Hostname : string; Port : string; NotedHostname : string; ServedCertificateChain : list string; KnownPins : list string; AppVersion : string }.
#[export] Instance tlsReport_eq_dec : EqDecision tlsReport.
Proof. solve_decision. Defined.

Definition newTLSReport (host port server : string) (certChain knownPins : list string) (appVersion : string) : tlsReport := mkTLSReport host port server certChain knownPins appVersion.

(** [pem] is the text of a certificate. *)
Class PemText : Type := pem_Encode : string -> string.
Definition marshalCert7468 `{PT : PemText} (certs : list Certificate) : list string := (fun c => pem_Encode (Raw c)) <$> certs.

Record TLSReporter : Type := mkTLSReporter { rep_appVersion : string; rep_trustedPins : list string; sentReports : list (tlsReport * Z) }.
Definition set_sent (l : list (tlsReport * Z)) (r : TLSReporter) : TLSReporter := mkTLSReporter (rep_appVersion r) (rep_trustedPins r) l.

Definition day : Z := 24 * 3600 * 1000000000.

Definition hasRecentlySentReport (now : Z) (report : tlsReport) (r : TLSReporter) : TLSReporter * bool :=
  let validReports := Prelude.Filter (sentReports r) (fun s => now - s.2 <? day) in
  (set_sent validReports r, existsb (fun s => bool_decide (report = s.1)) validReports).
Definition recordReport (now : Z) (report : tlsReport) (r : TLSReporter) : TLSReporter := set_sent (sentReports r ++ [(report, now)]) r.

(** The report, when it is sent; an error of sending is logged. *)
Definition reported (now : Z) (report : tlsReport) (r : TLSReporter) : TLSReporter * option tlsReport :=
  match hasRecentlySentReport now report r with
  | (r, true) => (r, None)
  | (r, false) => (recordReport now report r, Some report)
  end.
Definition ReportCertIssue `{PT : PemText} (now : Z) (host port : string) (st : ConnectionState) (r : TLSReporter) : TLSReporter * option tlsReport :=
  let certChain := match last (VerifiedChains st) with Some (leaf, rest) => marshalCert7468 (leaf :: rest) | None => marshalCert7468 (PeerCertificates st) end in
  reported now (newTLSReport host port (ServerName st) certChain (rep_trustedPins r) (rep_appVersion r)) r.

(** ** Pinned connections (dialer_pinning.go) *)

(** [tlsIssueCh]: whether the channel is full. *)
Record PinningTLSDialer : Type := mkPinning { hostURL : string; trustedPins : list string; reporter : option TLSReporter; tlsIssueCh : bool }.

Inductive dialed : Type := Returned (r : result err Conn) | BlockedOnIssue (e : err).

Definition pinning_DialTLSContext `{NT : NetText} `{TN : TlsNet} `{HB : HashBase64SHA256} `{PT : PemText} (now : Z) (address : string) (p : PinningTLSDialer) : PinningTLSDialer * dialed * option tlsReport :=
  let skip := ShouldSkipCertificateChainVerification (hostURL p) address in
  match basic_DialTLSContext (hostURL p) address with
  | Err e => (p, Returned (Err e), None)
  | Ok conn =>
      match SplitHostPort address with
      | None => (p, Returned (Err (ErrOther "missing port in address")), None)
      | Some (host, port) =>
          match CheckCertificate (trustedPins p) conn skip with
          | None => (p, Returned (Ok conn), None)
          | Some e =>
              let '(rep, sent) := match conn, reporter p with
                                  | TlsConn st, Some r => let '(r, sent) := ReportCertIssue now host port st r in (Some r, sent)
                                  | _, rep => (rep, None)
                                  end in
              (mkPinning (hostURL p) (trustedPins p) rep true, if tlsIssueCh p then BlockedOnIssue e else Returned (Err e), sent)
          end
      end
  end.

(** *** What is accepted *)

Lemma CheckCertificate_accepts `{HB : HashBase64SHA256} pins conn skip : CheckCertificate pins conn skip = None ->
  exists st cert, conn = TlsConn st /\ certFingerprint cert ∈ pins /\ (if skip then head (PeerCertificates st) = Some cert else exists rest, (cert, rest) ∈ VerifiedChains st).
Proof.
  destruct conn as [st|]; [|done]. unfold CheckCertificate. assert (Hpin : forall c, isCertFoundInKnownPins pins c = true -> certFingerprint c ∈ pins).
  { intros c (x & Hx & Heq)%existsb_exists. apply String.eqb_eq in Heq as ->. by apply list_elem_of_In. }
  destruct skip; cbn [negb].
  - destruct (PeerCertificates st) as [|leaf rest] eqn:Hp; [done|]. destruct (isCertFoundInKnownPins pins leaf) eqn:Hl; [|done]. intros _. exists st, leaf. rewrite Hp. auto.
  - destruct (VerifiedChains st) as [|c chains] eqn:Hv; [done|]. destruct (existsb _ _) eqn:He; [|done]. intros _.
    apply existsb_exists in He as ([leaf rest] & Hin & Hl). exists st, leaf. split; [done|]. split; [by apply Hpin|]. exists rest. rewrite Hv. by apply list_elem_of_In.
Qed.


(** The reports that are sent, of those that are made at the times given. *)
Fixpoint reports_sent (calls : list (Z * tlsReport)) (r : TLSReporter) : list (Z * tlsReport) :=
  match calls with
  | [] => []
  | (now, report) :: calls => match reported now report r with (r, Some report) => (now, report) :: reports_sent calls r | (r, None) => reports_sent calls r end
  end.

Lemma reported_keeps now report (r : TLSReporter) x t : (x, t) ∈ sentReports r -> now - t < day -> (x, t) ∈ sentReports (reported now report r).1.
Proof.
  intros Hx Ht. assert (Hv : (x, t) ∈ Prelude.Filter (sentReports r) (fun s => now - s.2 <? day)) by (apply elem_of_Filter; split; [done|by apply Z.ltb_lt]).
  unfold reported, hasRecentlySentReport. destruct (existsb _ _); cbn; [done|]. apply elem_of_app. by left.
Qed.

Lemma reports_after calls (r : TLSReporter) x t0 t : (x, t) ∈ sentReports r -> t <= t0 -> StronglySorted Z.le (t0 :: (fst <$> calls)) -> Forall (fun c => c.2 = x -> t + day <= c.1) (reports_sent calls r).
Proof.
  revert r t0. induction calls as [|[now report] calls IH]; intros r t0 Hx Ht Hs; cbn [reports_sent]; [constructor|].
  rewrite fmap_cons in Hs. apply StronglySorted_cons in Hs as [Hle Hs]. rewrite Forall_cons in Hle. destruct Hle as [Hle _]. cbn [fst] in *.
  destruct (Z.ltb_spec (now - t) day) as [Hlt|Hge].
  - assert (Hk := reported_keeps now report r x t Hx Hlt). destruct (reported now report r) as [r' [rep|]] eqn:Hr; cbn [fst] in Hk; [|apply (IH r' now); [done|lia|done]].
    constructor; [|apply (IH r' now); [done|lia|done]]. cbn [fst snd]. intros ->. exfalso. unfold reported, hasRecentlySentReport in Hr.
    destruct (existsb _ _) eqn:He; [done|]. injection Hr as _ ->. apply not_true_iff_false in He. apply He, existsb_exists. exists (x, t).
    split; [apply list_elem_of_In, elem_of_Filter; split; [done|by apply Z.ltb_lt]|by apply bool_decide_eq_true].
  - assert (Hall : Forall (fun c => t + day <= c.1) (reports_sent calls (reported now report r).1)).
    { generalize (reported now report r).1. clear - Hs Hge. revert now Hs Hge. induction calls as [|[n2 rep2] calls IH]; intros now Hs Hge r; cbn [reports_sent]; [constructor|].
      rewrite fmap_cons in Hs. apply StronglySorted_cons in Hs as [Hle Hs]. rewrite Forall_cons in Hle. destruct Hle as [Hle _]. cbn [fst] in *.
      destruct (reported n2 rep2 r) as [r2 [|]]; [constructor; [cbn; lia|]|]; (eapply IH; [exact Hs|lia]). }
    destruct (reported now report r) as [r' [rep|]]; cbn [fst] in Hall; [constructor; [cbn [fst]; lia|]|]; (eapply Forall_impl; [exact Hall|]; intros c Hc _; exact Hc).
Qed.

(** Of two equal reports that are sent, the second is sent a day or more after the first. *)
Theorem reported_once_a_day (calls : list (Z * tlsReport)) (r : TLSReporter) before t1 between t2 after report :
  StronglySorted Z.le (fst <$> calls) -> reports_sent calls r = before ++ (t1, report) :: between ++ (t2, report) :: after -> t1 + day <= t2.
Proof.
  revert before r. induction calls as [|[now x] calls IH]; intros before r Hs; cbn [reports_sent]; [by destruct before|].
  rewrite fmap_cons in Hs. assert (Hs' := Hs). apply StronglySorted_cons in Hs' as [_ Hs'].
  destruct (reported now x r) as [r' [rep|]] eqn:Hr; [|by apply IH].
  destruct before as [|b before]; cbn [app]; [|intros [= _ Hrest]; by eapply IH]. intros [= -> -> Hrest].
  assert (Hin : (report, t1) ∈ sentReports r').
  { unfold reported in Hr. destruct (hasRecentlySentReport _ _ r) as [r1 []]; [done|]. injection Hr as <- <-. unfold recordReport, set_sent. cbn. apply elem_of_app. right. left. }
  assert (Hall := reports_after calls r' report t1 t1 Hin ltac:(lia) Hs). rewrite Hrest, Forall_app, Forall_cons in Hall. by apply Hall.
Qed.

(** ** Looking for another server (dialer_proxy_provider.go) *)

Definition second : Z := 1000000000.
Definition proxyUseDuration : Z := day.
Definition proxyLookupWait : Z := 5 * second.

(** What the network answers while a server is looked for: which URLs answer a ping, the records each provider of DNS over
    HTTPS has, and whether looking them up takes too long. *)
Record lookup_env : Type := mkLookupEnv { canReach : string -> bool; dohLookup : string -> result err (list string); too_long : bool }.

Record proxyProvider : Type := mkProxyProvider { pp_hostURL : string; providers : list string; proxyCache : list string; lastLookup : Z }.
Definition set_cache (l : list string) (p : proxyProvider) : proxyProvider := mkProxyProvider (pp_hostURL p) (providers p) l (lastLookup p).

Definition err_refresh : err := ErrOther "timed out while refreshing proxy cache".

(** The records of the first provider that answers. *)
Fixpoint first_answer (env : lookup_env) (providers : list string) : option (list string) :=
  match providers with
  | [] => None
  | provider :: providers => match dohLookup env provider with Ok proxies => Some proxies | Err _ => first_answer env providers end
  end.
Definition refreshProxyCache (env : lookup_env) (p : proxyProvider) : proxyProvider * option err :=
  match first_answer env (providers p) with
  | Some proxies => if too_long env then (p, Some err_refresh) else (set_cache proxies p, None)
  | None => (p, Some err_refresh)
  end.

(** Both the API and the lookup are tried; the error of the lookup is returned even with the API's URL. *)
Definition findReachableServer (now : Z) (env : lookup_env) (p : proxyProvider) : proxyProvider * string * option err :=
  if now <? lastLookup p + proxyLookupWait then (p, "", Some (ErrOther "not looking for a proxy, too soon"))
  else
    let p := mkProxyProvider (pp_hostURL p) (providers p) (proxyCache p) now in
    let apiReachable := canReach env (pp_hostURL p) in
    let '(p, e) := refreshProxyCache env p in
    if apiReachable then (p, pp_hostURL p, e)
    else match e with
         | Some e => (p, "", Some e)
         | None => match find_first (canReach env) (proxyCache p) with
                   | Some url => (p, url, None)
                   | None => (p, "", Some (ErrOther "no reachable server could be found"))
                   end
         end.

(** ** Switching (dialer_proxy.go) *)

(** [timers]: when the goroutines wake that go back to the API. *)
Record ProxyTLSDialer : Type := mkProxyDialer { directAddress : string; proxyAddress : string; allowProxy : bool; provider : proxyProvider; timers : list Z }.

Definition colon : Ascii.ascii := Ascii.ascii_of_nat 58.
Definition JoinHostPort (host port : string) : string :=
  match Index colon host with Some _ => "[" +:+ host +:+ "]:" +:+ port | None => host +:+ ":" +:+ port end.

(** [None]: the URL cannot be parsed, and the code panics. *)
Definition formatAsAddress `{NT : NetText} (rawURL : string) : option string :=
  match url_Parse rawURL with
  | None => None
  | Some (scheme, host, path) => Some (JoinHostPort (if String.eqb host "" then path else host) (if String.eqb scheme "http" then "80" else "443"))
  end.

Definition DoHProviders : list string := ["https://dns11.quad9.net/dns-query"; "https://dns11.quad9.net:5053/dns-query"; "https://dns.google/dns-query"].
(** The zero time. *)
Definition never : Z := -62135596800 * second.
Definition newProxyProvider (hostURL : string) (providers : list string) : proxyProvider := mkProxyProvider hostURL providers [] never.
Definition NewProxyTLSDialer `{NT : NetText} (hostURL : string) : option ProxyTLSDialer :=
  a ← formatAsAddress hostURL; Some (mkProxyDialer a a false (newProxyProvider hostURL DoHProviders) []).

Definition set_provider (p : proxyProvider) (d : ProxyTLSDialer) : ProxyTLSDialer := mkProxyDialer (directAddress d) (proxyAddress d) (allowProxy d) p (timers d).
Definition set_proxy (a : string) (d : ProxyTLSDialer) : ProxyTLSDialer := mkProxyDialer (directAddress d) a (allowProxy d) (provider d) (timers d).

Definition ErrNoConnection : err := ErrOther "no connection".

Inductive switched : Type := SwitchedTo | NotSwitched (e : err) | SwitchPanics.

Definition switchToReachableServer `{NT : NetText} (now : Z) (env : lookup_env) (d : ProxyTLSDialer) : ProxyTLSDialer * switched :=
  match findReachableServer now env (provider d) with
  | (p, _, Some e) => (set_provider p d, NotSwitched (ErrWrap "failed to find a usable proxy" e))
  | (p, proxy, None) =>
      let d := set_provider p d in
      match formatAsAddress proxy with
      | None => (d, SwitchPanics)
      | Some address =>
          if String.eqb address (directAddress d) then (set_proxy address d, NotSwitched ErrNoConnection)
          else
            let ts := if String.eqb (proxyAddress d) (directAddress d) then timers d ++ [now + proxyUseDuration] else timers d in
            (mkProxyDialer (directAddress d) address (allowProxy d) (provider d) ts, SwitchedTo)
      end
  end.

Definition AllowProxy (d : ProxyTLSDialer) : ProxyTLSDialer := mkProxyDialer (directAddress d) (proxyAddress d) true (provider d) (timers d).
Definition DisallowProxy (d : ProxyTLSDialer) : ProxyTLSDialer := mkProxyDialer (directAddress d) (directAddress d) false (provider d) (timers d).

(** *** Dials at once *)

(** A dial that waits for its address, that failed and may switch, that dials the other server, or that is over. *)
Inductive thread : Type := Dialing (address : string) | Switching | Redialing (address : string) | Finished.

Definition first_address (address : string) (d : ProxyTLSDialer) : string := if String.eqb address (directAddress d) then proxyAddress d else address.

Inductive dial_input : Type :=
| DialStarts (address : string)
| DialEnds (i : nat) (ok canceled : bool)
| Switches (i : nat) (env : lookup_env)
| RedialEnds (i : nat)
| Allows | Disallows | TimerFires (k : nat).

Record world : Type := mkWorld { dialer : ProxyTLSDialer; threads : list thread }.

(** [None]: it cannot happen now. *)
Definition dial_step `{NT : NetText} (now : Z) (i : dial_input) (w : world) : option world :=
  let d := dialer w in
  match i with
  | DialStarts address => Some (mkWorld d (threads w ++ [Dialing (first_address address d)]))
  | DialEnds i ok canceled =>
      match threads w !! i with
      | Some (Dialing _) => Some (mkWorld d (<[i := if ok || negb (allowProxy d) || canceled then Finished else Switching]> (threads w)))
      | _ => None
      end
  | Switches i env =>
      match threads w !! i with
      | Some Switching =>
          let '(d, r) := switchToReachableServer now env d in
          Some (mkWorld d (<[i := match r with SwitchedTo => Redialing (proxyAddress d) | _ => Finished end]> (threads w)))
      | _ => None
      end
  | RedialEnds i => match threads w !! i with Some (Redialing _) => Some (mkWorld d (<[i := Finished]> (threads w))) | _ => None end
  | Allows => Some (mkWorld (AllowProxy d) (threads w))
  | Disallows => Some (mkWorld (DisallowProxy d) (threads w))
  | TimerFires k =>
      due ← timers d !! k;
      if due <=? now then Some (mkWorld (mkProxyDialer (directAddress d) (directAddress d) (allowProxy d) (provider d) (delete k (timers d))) (threads w)) else None
  end.

Fixpoint dial_run `{NT : NetText} (t : Z) (is_ : list (Z * dial_input)) (w : world) : option (Z * world) :=
  match is_ with
  | [] => Some (t, w)
  | (now, i) :: is_ => if t <=? now then w' ← dial_step now i w; dial_run now is_ w' else None
  end.

Section dial_facts.
Context `{NT : NetText}.

(** The servers that lookups have named. *)
Definition named_by (i : dial_input) : list string :=
  match i with Switches _ env => DoHProviders ≫= fun p => match dohLookup env p with Ok l => l | Err _ => [] end | _ => [] end.

(** The address in use is the API's, or of a server that was named, and a timer then goes back to the API within a day. *)
Definition proxy_ok (named : list string) (t : Z) (d : ProxyTLSDialer) : Prop :=
  formatAsAddress (pp_hostURL (provider d)) = Some (directAddress d) /\ providers (provider d) = DoHProviders /\ proxyCache (provider d) ⊆ named /\
  (proxyAddress d = directAddress d \/
   ((exists url, url ∈ named /\ formatAsAddress url = Some (proxyAddress d)) /\ exists due, due ∈ timers d /\ due <= t + proxyUseDuration)).

Lemma first_answer_named env ps l : first_answer env ps = Some l -> l ⊆ ps ≫= fun p => match dohLookup env p with Ok l => l | Err _ => [] end.
Proof.
  induction ps as [|p ps IH]; cbn [first_answer]; [done|]. rewrite bind_cons. destruct (dohLookup env p) as [l'|]; [intros [= <-]; set_solver|]. intros Hl. by apply IH.
Qed.

Lemma proxy_ok_later named named' t t' d : named ⊆ named' -> t <= t' -> proxy_ok named t d -> proxy_ok named' t' d.
Proof.
  intros Hn Ht (H1 & H2 & H3 & H4). split; [done|]. split; [done|]. split; [set_solver|]. destruct H4 as [H4|[(url & Hu & Hf) (due & Hd & Hle)]]; [by left|right].
  split; [exists url; split; [set_solver|done]|]. exists due. split; [done|lia].
Qed.

Lemma find_ok named now env p p' url e : providers p = DoHProviders -> proxyCache p ⊆ named -> findReachableServer now env p = (p', url, e) ->
  let named' := named ++ (DoHProviders ≫= fun p => match dohLookup env p with Ok l => l | Err _ => [] end) in
  pp_hostURL p' = pp_hostURL p /\ providers p' = DoHProviders /\ proxyCache p' ⊆ named' /\ (e = None -> url = pp_hostURL p \/ url ∈ named').
Proof.
  intros Hps Hc. unfold findReachableServer. destruct (now <? _); [intros [= <- <- <-]; split; [done|]; split; [done|]; split; [set_solver|done]|].
  unfold refreshProxyCache. cbn [providers pp_hostURL]. rewrite Hps.
  destruct (first_answer env DoHProviders) as [l|] eqn:Hl; [apply first_answer_named in Hl; destruct (too_long env)|]; cbn [pp_hostURL set_cache proxyCache providers];
    destruct (canReach env (pp_hostURL p)); intros Hf; try (injection Hf as <- <- <-; cbn; split; [done|]; split; [done|]; split; [set_solver|auto]; done).
  destruct (find_first (canReach env) l) as [u|] eqn:Hu; injection Hf as <- <- <-; cbn; (split; [done|]; split; [done|]; split; [set_solver|]); [|done].
  intros _. right. apply find_first_Some in Hu as [Hu _]. set_solver.
Qed.

Lemma switch_ok named now env d : proxy_ok named now d ->
  proxy_ok (named ++ (DoHProviders ≫= fun p => match dohLookup env p with Ok l => l | Err _ => [] end)) now (switchToReachableServer now env d).1.
Proof.
  intros (H1 & H2 & H3 & H4). unfold switchToReachableServer. destruct (findReachableServer now env (provider d)) as [[p url] e] eqn:Hf.
  destruct (find_ok named _ _ _ _ _ _ H2 H3 Hf) as (G1 & G2 & G3 & G4). set (named' := named ++ _) in *.
  assert (Hkeep : proxy_ok named' now (set_provider p d)).
  { split; [cbn; by rewrite G1|]. split; [done|]. split; [done|]. destruct H4 as [|[(u & Hu & Hfu) Hd]]; [by left|right]. split; [exists u; split; [set_solver|done]|done]. }
  destruct e as [e|]; [done|]. destruct (formatAsAddress url) as [a|] eqn:Ha; [|done]. cbn [directAddress set_provider proxyAddress allowProxy provider timers].
  destruct (String.eqb_spec a (directAddress d)) as [->|Hne]; [split; [cbn; by rewrite G1|]; split; [done|]; split; [done|]; by left|].
  split; [cbn; by rewrite G1|]. split; [done|]. split; [done|]. right. cbn [proxyAddress timers]. split.
  - destruct (G4 eq_refl) as [->|Hu]; [congruence|]. by exists url.
  - destruct (String.eqb_spec (proxyAddress d) (directAddress d)) as [|Hp]; [exists (now + proxyUseDuration); split; [apply elem_of_app; right; left|lia]|].
    by destruct H4 as [|[_ H4]].
Qed.

Lemma dial_step_ok named now i w w' : proxy_ok named now (dialer w) -> dial_step now i w = Some w' -> proxy_ok (named ++ named_by i) now (dialer w').
Proof.
  intros Hok. assert (Hsame : proxy_ok (named ++ named_by i) now (dialer w)) by (eapply proxy_ok_later, Hok; [set_solver|done]).
  destruct i as [a|n ok canceled|n env|n| | |k]; cbn [dial_step].
  - by intros [= <-].
  - destruct (threads w !! n) as [[]|]; try done. by intros [= <-].
  - destruct (threads w !! n) as [[]|]; try done. destruct (switchToReachableServer now env (dialer w)) as [d r] eqn:Hs. intros [= <-]. cbn [dialer named_by].
    assert (Hd := switch_ok named now env (dialer w) Hok). by rewrite Hs in Hd.
  - destruct (threads w !! n) as [[]|]; try done. by intros [= <-].
  - intros [= <-]. exact Hsame.
  - intros [= <-]. destruct Hsame as (H1 & H2 & H3 & _). split; [done|]. split; [done|]. split; [done|]. by left.
  - destruct (timers (dialer w) !! k) as [due|]; [|done]. cbn [mbind option_bind]. destruct (due <=? now); [|done]. intros [= <-].
    destruct Hsame as (H1 & H2 & H3 & _). split; [done|]. split; [done|]. split; [done|]. by left.
Qed.

(** Whatever dials, switches, and changes of the setting interleave, the address in use is that of the API or of a
    server that a lookup named; and while it is such a server, a timer goes back to the API within a day. *)
Theorem proxies_limited (host : string) (d0 : ProxyTLSDialer) (t0 t : Z) (is_ : list (Z * dial_input)) (w : world) :
  NewProxyTLSDialer host = Some d0 -> dial_run t0 is_ (mkWorld d0 []) = Some (t, w) ->
  proxyAddress (dialer w) = directAddress (dialer w) \/
  ((exists url, url ∈ (is_ ≫= fun i => named_by i.2) /\ formatAsAddress url = Some (proxyAddress (dialer w))) /\ exists due, due ∈ timers (dialer w) /\ due <= t + proxyUseDuration).
Proof.
  intros Hnew Hrun.
  assert (Hgen : forall named t0 w0, proxy_ok named t0 (dialer w0) -> dial_run t0 is_ w0 = Some (t, w) -> proxy_ok (named ++ (is_ ≫= fun i => named_by i.2)) t (dialer w)).
  { clear. induction is_ as [|[now i] is_ IH]; intros named t0 w0 Hok; cbn [dial_run]; [intros [= <- <-]; by rewrite app_nil_r|].
    destruct (Z.leb_spec t0 now); [|done]. destruct (dial_step now i w0) as [w1|] eqn:Hs; [|done]. cbn [mbind option_bind]. intros Hr.
    rewrite bind_cons, app_assoc. eapply IH, Hr. eapply dial_step_ok, Hs. by eapply proxy_ok_later, Hok. }
  assert (Hok : proxy_ok [] t0 d0).
  { unfold NewProxyTLSDialer in Hnew. destruct (formatAsAddress host) as [a|] eqn:Ha; [|done]. injection Hnew as <-. split; [done|]. split; [done|]. split; [set_solver|]. by left. }
  destruct (Hgen [] t0 (mkWorld d0 []) Hok Hrun) as (_ & _ & _ & H). exact H.
Qed.

(** No dial has failed and is about to switch. *)
Definition none_switches (w : world) : Prop := forall i, threads w !! i <> Some Switching.

(** The setting is switched off only when no dial is about to switch. *)
Fixpoint quietly (is_ : list (Z * dial_input)) (w : world) : Prop :=
  match is_ with
  | [] => True
  | (now, i) :: is_ => (i = Disallows -> none_switches w) /\ match dial_step now i w with Some w' => quietly is_ w' | None => True end
  end.

Definition obeys (w : world) : Prop := allowProxy (dialer w) = false -> proxyAddress (dialer w) = directAddress (dialer w) /\ none_switches w.

Lemma none_switches_insert w d i x : none_switches w -> x <> Switching -> none_switches (mkWorld d (<[i := x]> (threads w))).
Proof.
  intros Hn Hx j. cbn [threads]. destruct (decide (i = j)) as [->|Hne]; [|rewrite list_lookup_insert_ne by done; apply Hn].
  destruct (decide (j < length (threads w))%nat) as [Hl|Hl]; [rewrite list_lookup_insert_eq by done; congruence|]. rewrite list_insert_ge by lia. apply Hn.
Qed.

Lemma dial_step_obeys now i w w' : obeys w -> (i = Disallows -> none_switches w) -> dial_step now i w = Some w' -> obeys w'.
Proof.
  intros Hok Hq. destruct i as [a|n ok canceled|n env|n| | |k]; cbn [dial_step].
  - intros [= <-] Ha. destruct (Hok Ha) as [H1 H2]. split; [done|]. intros j. cbn [threads]. intros Hj. apply lookup_app_Some in Hj as [Hj|[_ Hj]]; [by apply (H2 j)|].
    by destruct (j - _)%nat.
  - destruct (threads w !! n) as [[]|] eqn:Hn; try done. intros [= <-] Ha. cbn [dialer] in *. destruct (Hok Ha) as [H1 H2]. split; [done|]. apply none_switches_insert; [done|].
    rewrite Ha. cbn [negb]. by rewrite orb_true_r.
  - destruct (threads w !! n) as [[]|] eqn:Hn; try done. destruct (switchToReachableServer now env (dialer w)) as [d r] eqn:Hs. intros [= <-] Ha. cbn [dialer] in *.
    assert (Hd : allowProxy d = allowProxy (dialer w)).
    { unfold switchToReachableServer in Hs. destruct (findReachableServer _ _ _) as [[p url] [e|]]; [by injection Hs as <- _|].
      destruct (formatAsAddress url); [|by injection Hs as <- _]. destruct (String.eqb _ _); by injection Hs as <- _. }
    rewrite Hd in Ha. destruct (Hok Ha) as [_ H2]. by destruct (H2 n).
  - destruct (threads w !! n) as [[]|] eqn:Hn; try done. intros [= <-] Ha. destruct (Hok Ha) as [H1 H2]. split; [done|]. by apply none_switches_insert.
  - by intros [= <-].
  - intros [= <-] _. split; [done|]. by apply Hq.
  - destruct (timers (dialer w) !! k) as [due|]; [|done]. cbn [mbind option_bind]. destruct (due <=? now); [|done]. intros [= <-] Ha. split; [done|]. by apply Hok.
Qed.

(** When proxies are not allowed the API is dialed directly, if the setting was never switched off while a dial that
    failed was about to switch. *)
Theorem disallowed_direct (host : string) (d0 : ProxyTLSDialer) (t0 t : Z) (is_ : list (Z * dial_input)) (w : world) :
  NewProxyTLSDialer host = Some d0 -> quietly is_ (mkWorld d0 []) -> dial_run t0 is_ (mkWorld d0 []) = Some (t, w) ->
  allowProxy (dialer w) = false -> first_address (directAddress (dialer w)) (dialer w) = directAddress (dialer w).
Proof.
  intros Hnew Hq Hrun Ha.
  assert (Hgen : forall t0 w0, obeys w0 -> quietly is_ w0 -> dial_run t0 is_ w0 = Some (t, w) -> obeys w).
  { clear. induction is_ as [|[now i] is_ IH]; intros t0 w0 Hok; cbn [dial_run quietly]; [by intros _ [= _ <-]|].
    intros [Hi Hq]. destruct (t0 <=? now); [|done]. destruct (dial_step now i w0) as [w1|] eqn:Hs; [|done]. cbn [mbind option_bind]. eapply IH; [|done]. by eapply dial_step_obeys. }
  assert (Hok : obeys w).
  { eapply Hgen, Hrun; [|done]. intros _. split; [|by intros i]. unfold NewProxyTLSDialer in Hnew. destruct (formatAsAddress host); [|done]. by injection Hnew as <-. }
  unfold first_address. rewrite String.eqb_refl. by apply Hok.
Qed.

End dial_facts.

(** ** Examples *)

Section examples.

(** URLs with a scheme, or hosts; a host with a port and no scheme is not a URL. *)
Definition ex_split_port (s : string) : option (string * string) := match Index colon s with Some i => Some (str_take i s, str_drop (S i) s) | None => None end.
Definition ex_net : NetText :=
  {| url_Parse := fun s =>
       if has_prefix "https://" s then Some ("https", str_drop 8 s, "")
       else match Index colon s with Some _ => None | None => Some ("", "", s) end;
     SplitHostPort := ex_split_port |}.
Local Existing Instance ex_net.

Definition ex_host : string := "https://mail-api.proton.me".
Example api_domain_verified :
  ShouldSkipCertificateChainVerification ex_host "api.proton.me:443" = false /\ ShouldSkipCertificateChainVerification ex_host "proton.com:443" = true.
Proof. vm_compute. split; reflexivity. Qed.

(** A server on another domain, whose key is trusted without a chain; its connection is accepted. *)
Definition ex_cert : Certificate := mkCertificate "key" "raw".
Definition ex_tls : TlsNet := fun skip a => Ok (TlsConn (mkConnState (if skip then [] else [(ex_cert, [])]) [ex_cert] a)).
Definition ex_hash : HashBase64SHA256 := fun s => s.
Definition ex_pem : PemText := fun s => s.
Local Existing Instances ex_tls ex_hash ex_pem.
Definition ex_pinning : PinningTLSDialer := mkPinning ex_host [certFingerprint ex_cert] (Some (mkTLSReporter "3.0" [] [])) false.
Definition ex_conn (a : string) : Conn := match (pinning_DialTLSContext 0 a ex_pinning).1.2 with Returned (Ok c) => c | _ => PlainConn end.


(** When nobody reads the issues, the second untrusted server blocks its dial. *)
Example second_issue_blocks :
  let p := mkPinning ex_host [] None false in
  let p1 := (pinning_DialTLSContext 0 "a.proton.me:443" p).1.1 in
  (pinning_DialTLSContext 1 "a.proton.me:443" p1).1.2 = BlockedOnIssue ErrTLSMismatch.
Proof. vm_compute. reflexivity. Qed.

Definition ex_report : tlsReport := newTLSReport "h" "443" "h" [] [] "3.0".
Lemma reported_once_a_day_witness : 1 + day <= 2 * day.
Proof.
  refine (reported_once_a_day [(1, ex_report); (2, ex_report); (2 * day, ex_report)] (mkTLSReporter "3.0" [] []) [] 1 [] (2 * day) [] ex_report _ _); [|vm_compute; reflexivity].
  repeat constructor; discriminate.
Defined.

Definition ex_dialer : ProxyTLSDialer := default (mkProxyDialer "" "" false (newProxyProvider "" []) []) (NewProxyTLSDialer ex_host).
Definition blocked_api : lookup_env := mkLookupEnv (fun u => String.eqb u "https://proxy") (fun _ => Ok ["https://proxy"]) false.
Definition ex_dials : list (Z * dial_input) := [(0, Allows); (1, DialStarts "mail-api.proton.me:443"); (2, DialEnds 0 false false); (3, Switches 0 blocked_api)].
Definition world_after (is_ : list (Z * dial_input)) : world := match dial_run 0 is_ (mkWorld ex_dialer []) with Some (_, w) => w | None => mkWorld ex_dialer [] end.
Example switched_to_proxy : proxyAddress (dialer (world_after ex_dials)) = "proxy:443" /\ timers (dialer (world_after ex_dials)) = [3 + day].
Proof. vm_compute. split; reflexivity. Qed.

Lemma ex_dialer_new : NewProxyTLSDialer ex_host = Some ex_dialer.
Proof. vm_compute. reflexivity. Qed.

Lemma proxies_limited_witness : exists due, due ∈ timers (dialer (world_after ex_dials)) /\ due <= 3 + proxyUseDuration.
Proof.
  assert (Hrun : dial_run 0 ex_dials (mkWorld ex_dialer []) = Some (3, world_after ex_dials)) by (vm_compute; reflexivity).
  destruct (proxies_limited ex_host ex_dialer 0 3 ex_dials (world_after ex_dials) ex_dialer_new Hrun) as [H|[_ H]]; [|exact H]. vm_compute in H. discriminate.
Defined.

Definition ex_quiet : list (Z * dial_input) := ex_dials ++ [(4, Disallows)].
Lemma disallowed_direct_witness : first_address "mail-api.proton.me:443" (dialer (world_after ex_quiet)) = "mail-api.proton.me:443".
Proof.
  assert (Hrun : dial_run 0 ex_quiet (mkWorld ex_dialer []) = Some (4, world_after ex_quiet)) by (vm_compute; reflexivity).
  refine (disallowed_direct ex_host ex_dialer 0 4 ex_quiet (world_after ex_quiet) ex_dialer_new _ Hrun _); [|vm_compute; reflexivity].
  vm_compute. repeat (split; [discriminate|]). split; [|exact I]. intros _ [|i]; discriminate.
Defined.

(** The setting is switched off between a dial's failure and its switch: the proxy stays in use all the same. *)
Example switches_when_disallowed :
  let w := world_after [(0, Allows); (1, DialStarts "mail-api.proton.me:443"); (2, DialEnds 0 false false); (2, Disallows); (3, Switches 0 blocked_api)] in
  allowProxy (dialer w) = false /\ first_address "mail-api.proton.me:443" (dialer w) = "proxy:443".
Proof. vm_compute. split; reflexivity. Qed.

(** The API can be reached again but no provider answers: the dialer keeps the proxy that does not work. *)
Definition api_back : lookup_env := mkLookupEnv (fun u => String.eqb u ex_host) (fun _ => Err (ErrOther "blocked")) false.
Example proxy_kept_without_lookup :
  let w := world_after (ex_dials ++ [(4, RedialEnds 0); (10 * second, DialStarts "mail-api.proton.me:443"); (11 * second, DialEnds 1 false false); (12 * second, Switches 1 api_back)]) in
  first_address "mail-api.proton.me:443" (dialer w) = "proxy:443" /\ threads w = [Finished; Finished].
Proof. vm_compute. split; reflexivity. Qed.

(** A record with a port and no scheme answers the ping, which adds the scheme, but is not a URL. *)
Example record_with_port_panics :
  (switchToReachableServer 0 (mkLookupEnv (fun u => String.eqb u "1.2.3.4:8443") (fun _ => Ok ["1.2.3.4:8443"]) false) ex_dialer).2 = SwitchPanics.
Proof. vm_compute. reflexivity. Qed.

End examples.
