(* ===== verification/SyncReporter.v ===== *)
(** * Reports of a sync's progress (internal/services/imapservice/sync_reporter.go)

    The reporter counts the messages a sync has done and publishes how far it is, not too
    often. Times are nanoseconds, and durations are 64-bit integers that wrap. *)

From S2P Require Import Prelude.
From S2P Require Import UserEvents.

(** [sd_last] is [None] while it is the zero time, which no time is near to. *)
Record syncData : Type := mkSyncData { sd_start : Z; sd_total : Z; sd_count : Z; sd_last : option Z; sd_freq : Z }.

(** Progress is a fraction; [None] is zero divided by zero. *)
Inductive sync_event : Type :=
| SyncStarted | SyncFinished | SyncFailed (e : err)
| SyncProgress (progress : option (Z * Z)) (elapsed remaining : Z).

Record syncReporter : Type := mkSyncReporter { rep_data : syncData; published : list (Z * sync_event) }.

Definition wrap64 (z : Z) : Z := (z + 2 ^ 63) mod 2 ^ 64 - 2 ^ 63.
(** [time.Since] does not wrap: it is at most the longest duration. *)
Definition since (now t : Z) : Z := Z.max (- 2 ^ 63) (Z.min (now - t) (2 ^ 63 - 1)).
Definition since_last (now : Z) (last : option Z) : Z := match last with Some t => since now t | None => 2 ^ 63 - 1 end.

Definition newSyncReporter (now freq : Z) : syncReporter := mkSyncReporter (mkSyncData now 0 0 None freq) [].
Definition publish (now : Z) (e : sync_event) (r : syncReporter) : syncReporter := mkSyncReporter (rep_data r) (published r ++ [(now, e)]).
Definition set_data (d : syncData) (r : syncReporter) : syncReporter := mkSyncReporter d (published r).

Definition OnStart (now : Z) (r : syncReporter) : syncReporter :=
  let d := rep_data r in publish now SyncStarted (set_data (mkSyncData now (sd_total d) (sd_count d) (sd_last d) (sd_freq d)) r).
Definition OnFinished (now : Z) (r : syncReporter) : syncReporter := publish now SyncFinished r.
Definition OnError (now : Z) (e : err) (r : syncReporter) : syncReporter := publish now (SyncFailed e) r.

Definition progress_of (d : syncData) : option (Z * Z) :=
  if sd_total d <? sd_count d then Some (1, 1) else if sd_total d =? 0 then None else Some (sd_count d, sd_total d).
(** Go's division rounds towards zero. *)
Definition remaining_of (now : Z) (d : syncData) : Z :=
  if sd_total d <? sd_count d then 0
  else wrap64 (wrap64 (since now (sd_start d) * wrap64 (sd_total d - (sd_count d + 1))) ÷ wrap64 (sd_count d + 1)).

(** [None]: a panic; the count is -1 and the division is by zero. *)
Definition OnProgress (now delta : Z) (r : syncReporter) : option syncReporter :=
  let d := rep_data r in
  let d := mkSyncData (sd_start d) (sd_total d) (wrap64 (sd_count d + delta)) (sd_last d) (sd_freq d) in
  if negb (sd_total d <? sd_count d) && (wrap64 (sd_count d + 1) =? 0) then None
  else if sd_freq d <? since_last now (sd_last d) then
    let r := publish now (SyncProgress (progress_of d) (since now (sd_start d)) (remaining_of now d)) r in
    Some (set_data (mkSyncData (sd_start d) (sd_total d) (sd_count d) (Some now) (sd_freq d)) r)
  else Some (set_data d r).

Definition InitializeProgressCounter (current total : Z) (r : syncReporter) : syncReporter :=
  let d := rep_data r in set_data (mkSyncData (sd_start d) total current (sd_last d) (sd_freq d)) r.

(** ** How often and how much *)

Inductive report_call : Type := CallStart | CallFinished | CallError (e : err) | CallProgress (delta : Z) | CallInitialize (current total : Z).
Definition report (now : Z) (c : report_call) (r : syncReporter) : option syncReporter :=
  match c with
  | CallStart => Some (OnStart now r) | CallFinished => Some (OnFinished now r) | CallError e => Some (OnError now e r)
  | CallProgress delta => OnProgress now delta r | CallInitialize current total => Some (InitializeProgressCounter current total r)
  end.
Fixpoint reports (cs : list (Z * report_call)) (r : syncReporter) : option syncReporter :=
  match cs with [] => Some r | (now, c) :: cs => r ← report now c r; reports cs r end.

(** The times of the reports of progress. *)
Definition progress_times (r : syncReporter) : list Z := omap (fun x => match x.2 with SyncProgress _ _ _ => Some x.1 | _ => None end) (published r).

(** Each time is more than [freq] after the one before. *)
Fixpoint spaced_by (freq : Z) (ts : list Z) : Prop :=
  match ts with t1 :: ((t2 :: _) as rest) => t1 + freq < t2 /\ spaced_by freq rest | _ => True end.

Definition rare (freq : Z) (r : syncReporter) : Prop :=
  sd_freq (rep_data r) = freq /\ spaced_by freq (progress_times r) /\ match last (progress_times r) with Some t => Some t = sd_last (rep_data r) | None => True end.

Lemma spaced_app freq ts t : spaced_by freq ts -> (forall t0, last ts = Some t0 -> t0 + freq < t) -> spaced_by freq (ts ++ [t]).
Proof.
  induction ts as [|t1 ts IH]; intros Hs Hl; [done|]. destruct ts as [|t2 ts]; [cbn; split; [by apply Hl|done]|].
  change (spaced_by freq (t1 :: (t2 :: ts) ++ [t])). destruct Hs as [H1 H2]. split; [done|]. by apply IH.
Qed.

Lemma progress_times_app r x : progress_times (mkSyncReporter (rep_data r) (published r ++ [x])) = progress_times r ++ match x.2 with SyncProgress _ _ _ => [x.1] | _ => [] end.
Proof. unfold progress_times. cbn [published]. rewrite omap_app. f_equal. destruct x as [now []]; done. Qed.

Lemma report_rare freq now c r r' : 0 <= freq -> rare freq r -> report now c r = Some r' -> rare freq r'.
Proof.
  intros Hfreq (Hf & Hs & Hl).
  assert (Hpub : forall x d, (match x.2 with SyncProgress _ _ _ => False | _ => True end) -> sd_freq d = freq -> sd_last d = sd_last (rep_data r) ->
    rare freq (mkSyncReporter d (published r ++ [x]))).
  { intros x d Hx Hd Hla. split; [done|]. unfold progress_times in *. cbn [published rep_data]. rewrite omap_app.
    assert (omap (fun x => match x.2 with SyncProgress _ _ _ => Some x.1 | _ => None end) [x] = []) as -> by (destruct x as [now' []]; done). rewrite app_nil_r, Hla. done. }
  destruct c as [| |e|delta|current total]; cbn [report].
  - intros [= <-]. by apply Hpub.
  - intros [= <-]. by apply Hpub.
  - intros [= <-]. by apply Hpub.
  - unfold OnProgress. cbn [sd_freq sd_last sd_start sd_total sd_count]. destruct (negb _ && _); [done|]. rewrite Hf. destruct (Z.ltb_spec freq (since_last now (sd_last (rep_data r)))) as [Hlt|_]; intros [= <-]; [|done].
    split; [done|]. assert (Ht : progress_times (set_data (mkSyncData (sd_start (rep_data r)) (sd_total (rep_data r)) (wrap64 (sd_count (rep_data r) + delta)) (Some now) freq)
      (publish now (SyncProgress (progress_of (mkSyncData (sd_start (rep_data r)) (sd_total (rep_data r)) (wrap64 (sd_count (rep_data r) + delta)) (sd_last (rep_data r)) freq)) (since now (sd_start (rep_data r)))
        (remaining_of now (mkSyncData (sd_start (rep_data r)) (sd_total (rep_data r)) (wrap64 (sd_count (rep_data r) + delta)) (sd_last (rep_data r)) freq))) r)) = progress_times r ++ [now])
      by (unfold progress_times, set_data, publish; cbn [published]; by rewrite omap_app).
    rewrite Ht. split; [|by rewrite last_snoc]. apply spaced_app; [done|]. intros t0 Ht0. rewrite Ht0 in Hl. rewrite <- Hl in Hlt. unfold since_last, since in Hlt. lia.
  - intros [= <-]. done.
Qed.

(** Reports of progress are published more than the frequency apart. *)
Theorem progress_rare (now freq : Z) (cs : list (Z * report_call)) (r : syncReporter) : 0 <= freq -> reports cs (newSyncReporter now freq) = Some r -> spaced_by freq (progress_times r).
Proof.
  intros Hfreq Hr. assert (Hgen : forall r0, rare freq r0 -> reports cs r0 = Some r -> rare freq r).
  { clear Hr. induction cs as [|[t c] cs IH]; intros r0 Hr0; cbn [reports]; [by intros [= <-]|].
    destruct (report t c r0) as [r1|] eqn:Hc; [|done]. cbn [mbind option_bind]. apply IH. by eapply report_rare. }
  apply (Hgen (newSyncReporter now freq)); [|done]. done.
Qed.

Lemma wrap64_small z : - 2 ^ 63 <= z < 2 ^ 63 -> wrap64 z = z.
Proof. intros Hz. unfold wrap64. rewrite Z.mod_small; lia. Qed.

(** While messages are left and nothing overflows, the time that remains is in proportion to the time it took, the
    share done is less than all, and neither is negative. *)
Theorem remaining_in_proportion (now : Z) (d : syncData) :
  sd_start d <= now -> 0 <= sd_count d < sd_total d -> sd_total d < 2 ^ 63 -> (now - sd_start d) * (sd_total d - (sd_count d + 1)) < 2 ^ 63 -> now - sd_start d < 2 ^ 63 ->
  progress_of d = Some (sd_count d, sd_total d) /\
  0 <= remaining_of now d /\ remaining_of now d * (sd_count d + 1) <= (now - sd_start d) * (sd_total d - (sd_count d + 1)) < (remaining_of now d + 1) * (sd_count d + 1).
Proof.
  intros Hst Hc Ht Hprod Hel. unfold progress_of, remaining_of. destruct (Z.ltb_spec (sd_total d) (sd_count d)); [lia|]. destruct (Z.eqb_spec (sd_total d) 0); [lia|].
  split; [done|]. assert (since now (sd_start d) = now - sd_start d) as -> by (unfold since; lia).
  assert (Hp : 0 <= (now - sd_start d) * (sd_total d - (sd_count d + 1))) by (apply Z.mul_nonneg_nonneg; lia).
  rewrite (wrap64_small (sd_count d + 1)) by lia. rewrite (wrap64_small (sd_total d - (sd_count d + 1))) by lia.
  set (p := (now - sd_start d) * (sd_total d - (sd_count d + 1))) in *. rewrite (wrap64_small p) by lia. rewrite Z.quot_div_nonneg by lia.
  assert (Hdiv := Z.div_mod p (sd_count d + 1) ltac:(lia)). assert (Hmod := Z.mod_pos_bound p (sd_count d + 1) ltac:(lia)).
  assert (Hq : 0 <= p / (sd_count d + 1) <= p) by (split; [apply Z.div_pos; lia | apply Z.div_le_upper_bound; [lia|]; nia]).
  rewrite wrap64_small by lia. split; [lia|]. nia.
Qed.

(** ** Examples *)

Definition second : Z := 1000000000.
Definition ex_calls : list (Z * report_call) := [(0, CallStart); (0, CallInitialize 0 10); (10 * second, CallProgress 4); (10 * second + 1, CallProgress 1); (20 * second, CallProgress 5); (20 * second, CallFinished)].
Definition ex_reporter : syncReporter := default (newSyncReporter 0 0) (reports ex_calls (newSyncReporter 0 second)).
Example ex_published : published ex_reporter =
  [(0, SyncStarted); (10 * second, SyncProgress (Some (4, 10)) (10 * second) (10 * second)); (20 * second, SyncProgress (Some (10, 10)) (20 * second) (-1818181818)); (20 * second, SyncFinished)].
Proof. vm_compute. reflexivity. Qed.

(** When everything is done the time that remains is negative; after three hours with a million messages left it wraps. *)
Example remaining_negative : remaining_of (20 * second) (mkSyncData 0 10 10 None 0) = -1818181818.
Proof. reflexivity. Qed.
Example remaining_wraps : remaining_of (3 * 3600 * second) (mkSyncData 0 1000000 9 None 0) < 0.
Proof. reflexivity. Qed.

Lemma progress_rare_witness : spaced_by second (progress_times ex_reporter).
Proof. apply (progress_rare 0 second ex_calls); [done|]. vm_compute. reflexivity. Defined.
Lemma remaining_in_proportion_witness : remaining_of (10 * second) (mkSyncData 0 10 4 None 0) * 5 <= 10 * second * 5.
Proof. apply (remaining_in_proportion (10 * second) (mkSyncData 0 10 4 None 0)); cbn; unfold second; lia. Defined.
