(* ===== verification/Sanitizer.v ===== *)
(** * Names of files (pkg/sanitizer/filename.go)

    The name of an attachment or an export is made fit for the file system. Texts are lists of
    code points; the tables of package unicode are a parameter. *)

From S2P Require Import Prelude.

Notation rune := Z (only parsing).

Class Unicode : Type := { IsSpace : rune -> bool; IsPrint : rune -> bool; ToUpperRune : rune -> rune }.
(** On ASCII the tables are known. *)
Class UnicodeLaws `{UC : Unicode} : Prop := {
  visible_ascii : forall c, 33 <= c <= 126 -> IsSpace c = false /\ IsPrint c = true;
  upper_ascii : forall c, 0 <= c <= 127 -> ToUpperRune c = if (97 <=? c) && (c <=? 122) then c - 32 else c
}.

Definition dot : rune := 46.
Definition dash : rune := 45.

(** Code points of a text that is written in ASCII. *)
Fixpoint runes (s : string) : list rune := match s with EmptyString => [] | String c s => Z.of_nat (Ascii.nat_of_ascii c) :: runes s end.

Section sanitizer.
Context `{UC : Unicode}.

Fixpoint TrimLeftFunc (l : list rune) (f : rune -> bool) : list rune :=
  match l with [] => [] | c :: l' => if f c then TrimLeftFunc l' f else l end.
Definition TrimRightFunc (l : list rune) (f : rune -> bool) : list rune := rev (TrimLeftFunc (rev l) f).
Definition TrimSpaceRunes (l : list rune) : list rune := TrimRightFunc (TrimLeftFunc l IsSpace) IsSpace.

(** [strings.Split] and [strings.Join] by a dot. *)
Fixpoint split_dots (l : list rune) : list (list rune) :=
  match l with
  | [] => [[]]
  | c :: l => if c =? dot then [] :: split_dots l else match split_dots l with [] => [[c]] | p :: ps => (c :: p) :: ps end
  end.
Fixpoint join_dots (ps : list (list rune)) : list rune :=
  match ps with [] => [] | [p] => p | p :: ps => p ++ dot :: join_dots ps end.

Definition removed (illegalChars : list rune) (c : rune) : bool := (c <=? 31) || negb (IsPrint c) || bool_decide (c ∈ illegalChars) || IsSpace c.
Definition removeIllegalChars (input : list rune) (illegalChars : list rune) : list rune := Prelude.Filter input (fun c => negb (removed illegalChars c)).

(** The parts between dots, without those that are empty. *)
Definition sanitizedParts (result : list rune) : list (list rune) := Prelude.Filter (TrimSpaceRunes <$> split_dots result) (fun p => negb (bool_decide (p = []))).

Definition illegal_unix : list rune := [0; 58; 127; 47; 92; 124; 38; 36; 63; 60; 62; 59; 34].
Definition illegal_windows : list rune := [60; 62; 58; 34; 47; 92; 124; 63; 42; 127].

Definition trimmed_unix (c : rune) : bool := IsSpace c || (c =? dash) || (c =? dot).
Definition sanitizeFilenameUnix (input : list rune) : list rune :=
  let input := TrimRightFunc (TrimLeftFunc input trimmed_unix) trimmed_unix in
  let out := removeIllegalChars input illegal_unix in
  if bool_decide (out = []) then [] else join_dots (sanitizedParts out).

Definition reserved : list (list rune) :=
  runes <$> ["CON"; "PRN"; "AUX"; "NUL"; "COM1"; "COM2"; "COM3"; "COM4"; "COM5"; "COM6"; "COM7"; "COM8"; "COM9"; "LPT1"; "LPT2"; "LPT3"; "LPT4"; "LPT5"; "LPT6"; "LPT7"; "LPT8"; "LPT9"].
Definition is_reserved (p : list rune) : bool := bool_decide ((ToUpperRune <$> p) ∈ reserved).

Definition trimmed_windows (c : rune) : bool := IsSpace c || (c =? dot).
Definition sanitizeFilenameWindows (input : list rune) : list rune :=
  let input := TrimRightFunc (TrimLeftFunc input trimmed_windows) trimmed_windows in
  if bool_decide (input = []) then []
  else
    let out := removeIllegalChars input illegal_windows in
    if bool_decide (out = []) then []
    else
      match sanitizedParts out with
      | p :: ps => join_dots (if is_reserved p then TrimSpaceRunes (runes "RESERVED_" ++ p) :: ps else p :: ps)
      | [] => []
      end.

Definition Filename (windows : bool) (input : list rune) : list rune :=
  match input with [] => [] | _ => if windows then sanitizeFilenameWindows input else sanitizeFilenameUnix input end.

(** ** What is left *)

(** Parts that are not empty, of characters that are allowed and are no dots. *)
Definition good_parts (illegal : list rune) (ps : list (list rune)) : Prop :=
  Forall (fun p => p <> [] /\ Forall (fun c => removed illegal c = false /\ c <> dot) p) ps.

Lemma TrimLeftFunc_none l f : Forall (fun c => f c = false) l -> TrimLeftFunc l f = l.
Proof. destruct l as [|c l]; [done|]. intros [Hc _]%Forall_cons. cbn. by rewrite Hc. Qed.
Lemma TrimRightFunc_none l f : Forall (fun c => f c = false) l -> TrimRightFunc l f = l.
Proof. intros Hl. unfold TrimRightFunc. rewrite TrimLeftFunc_none by (by apply Forall_rev). apply rev_involutive. Qed.

Lemma TrimLeftFunc_incl l f c : c ∈ TrimLeftFunc l f -> c ∈ l.
Proof. induction l as [|x l IH]; cbn; [done|]. destruct (f x); [intros Hc; right; by apply IH|done]. Qed.

Lemma removeIllegal_allowed l illegal : Forall (fun c => removed illegal c = false) (removeIllegalChars l illegal).
Proof. apply Forall_forall. intros c [_ Hc]%elem_of_Filter. by apply negb_true_iff. Qed.
Lemma removeIllegal_all l illegal : Forall (fun c => removed illegal c = false) l -> removeIllegalChars l illegal = l.
Proof. intros Hl. apply Filter_all. rewrite Forall_forall in Hl. intros c Hc. by rewrite Hl. Qed.

Lemma removed_space illegal c : removed illegal c = false -> IsSpace c = false.
Proof. unfold removed. rewrite !orb_false_iff. tauto. Qed.

Lemma TrimSpace_allowed illegal l : Forall (fun c => removed illegal c = false) l -> TrimSpaceRunes l = l.
Proof.
  intros Hl. assert (Hs : Forall (fun c => IsSpace c = false) l) by (eapply Forall_impl; [exact Hl|]; intros c; apply removed_space).
  unfold TrimSpaceRunes. rewrite TrimLeftFunc_none by done. by apply TrimRightFunc_none.
Qed.

Lemma split_dots_parts illegal l : Forall (fun c => removed illegal c = false) l -> Forall (fun p => Forall (fun c => removed illegal c = false /\ c <> dot) p) (split_dots l).
Proof.
  induction l as [|c l IH]; intros Hl; cbn [split_dots]; [by repeat constructor|]. apply Forall_cons in Hl as [Hc Hl]. specialize (IH Hl).
  destruct (Z.eqb_spec c dot) as [->|Hne]; [by constructor|]. destruct (split_dots l) as [|p ps]; [by repeat constructor|].
  apply Forall_cons in IH as [Hp Hps]. constructor; [|done]. by constructor.
Qed.

Lemma sanitizedParts_good illegal l : Forall (fun c => removed illegal c = false) l -> good_parts illegal (sanitizedParts l).
Proof.
  intros Hl. apply Forall_forall. intros p [Hp Hne]%elem_of_Filter. apply negb_true_iff, bool_decide_eq_false in Hne. split; [done|].
  apply list_elem_of_fmap in Hp as (q & -> & Hq). assert (Hparts := split_dots_parts illegal l Hl). rewrite Forall_forall in Hparts. specialize (Hparts q Hq).
  rewrite (TrimSpace_allowed illegal); [done|]. eapply Forall_impl; [exact Hparts|]. by intros c [].
Qed.

Lemma split_join (p : list rune) : Forall (fun c => c <> dot) p -> forall l, split_dots (p ++ dot :: l) = p :: split_dots l.
Proof.
  induction p as [|c p IH]; intros Hp l; cbn [app split_dots]; [by rewrite Z.eqb_refl|]. apply Forall_cons in Hp as [Hc Hp].
  destruct (Z.eqb_spec c dot); [done|]. by rewrite IH.
Qed.
Lemma split_one (p : list rune) : Forall (fun c => c <> dot) p -> split_dots p = [p].
Proof.
  induction p as [|c p IH]; intros Hp; cbn [split_dots]; [done|]. apply Forall_cons in Hp as [Hc Hp]. destruct (Z.eqb_spec c dot); [done|]. by rewrite IH.
Qed.

Lemma good_no_dots illegal p ps : good_parts illegal (p :: ps) -> Forall (fun c => c <> dot) p.
Proof. intros [[_ Hp] _]%Forall_cons. eapply Forall_impl; [exact Hp|]. by intros c []. Qed.

Lemma split_join_dots illegal ps : good_parts illegal ps -> ps <> [] -> split_dots (join_dots ps) = ps.
Proof.
  induction ps as [|p ps IH]; intros Hg Hne; [done|]. assert (Hp := good_no_dots _ _ _ Hg). apply Forall_cons in Hg as [_ Hg].
  destruct ps as [|q ps]; [by apply split_one|]. cbn [join_dots]. rewrite split_join by done. f_equal. by apply IH.
Qed.

(** A name made of good parts is left as it is. *)
Lemma join_allowed illegal ps c : removed illegal dot = false -> good_parts illegal ps -> c ∈ join_dots ps -> removed illegal c = false.
Proof.
  intros Hdot. induction ps as [|p ps IH]; intros Hg; [by intros Hc%elem_of_nil|]. apply Forall_cons in Hg as [[_ Hp] Hg]. rewrite Forall_forall in Hp.
  destruct ps as [|q ps]; cbn [join_dots]; [intros Hc; by apply Hp|]. rewrite elem_of_app, elem_of_cons. intros [Hc|[->|Hc]]; [by apply Hp|done|by apply IH].
Qed.

Lemma sanitizedParts_join illegal ps : good_parts illegal ps -> ps <> [] -> sanitizedParts (join_dots ps) = ps.
Proof.
  intros Hg Hne. unfold sanitizedParts. rewrite (split_join_dots illegal) by done.
  assert (Hm : TrimSpaceRunes <$> ps = ps).
  { clear Hne. induction ps as [|p ps IH]; [done|]. apply Forall_cons in Hg as [[_ Hp] Hg]. rewrite fmap_cons, IH by done. f_equal. apply (TrimSpace_allowed illegal).
    eapply Forall_impl; [exact Hp|]. by intros c []. }
  rewrite Hm. apply Filter_all. intros p Hp. unfold good_parts in Hg. rewrite Forall_forall in Hg. apply negb_true_iff, bool_decide_eq_false. by apply Hg.
Qed.

(** The first and last characters of a name made of good parts are no dots. *)
Lemma join_ends illegal ps (f : rune -> bool) : good_parts illegal ps -> (forall c, removed illegal c = false -> c <> dot -> f c = false) ->
  TrimRightFunc (TrimLeftFunc (join_dots ps) f) f = join_dots ps.
Proof.
  intros Hg Hf.
  assert (Hhead : forall l, match l with [] => True | c :: _ => f c = false end -> TrimLeftFunc l f = l) by (intros [|c l] Hc; [done|cbn; by rewrite Hc]).
  assert (Hleft : TrimLeftFunc (join_dots ps) f = join_dots ps).
  { apply Hhead. destruct ps as [|p ps]; [done|]. apply Forall_cons in Hg as [[Hne Hp] _]. destruct p as [|c p]; [done|]. apply Forall_cons in Hp as [[H1 H2] _].
    destruct ps; cbn; by apply Hf. }
  rewrite Hleft. unfold TrimRightFunc. rewrite Hhead; [apply rev_involutive|].
  clear Hleft. induction ps as [|p ps IH]; [done|]. apply Forall_cons in Hg as [[Hne Hp] Hg]. destruct ps as [|q ps].
  - cbn [join_dots]. destruct p as [|c p] using rev_ind; [done|]. rewrite rev_app_distr. cbn. apply Forall_app in Hp as [_ Hp]. apply Forall_cons in Hp as [[H1 H2] _]. by apply Hf.
  - specialize (IH Hg). change (join_dots (p :: q :: ps)) with (p ++ dot :: join_dots (q :: ps)). rewrite rev_app_distr. cbn [rev]. destruct (rev (join_dots (q :: ps))) as [|c l] eqn:Hr; [|done]. exfalso.
    apply (f_equal (@rev _)) in Hr. rewrite rev_involutive in Hr. apply Forall_cons in Hg as [[Hq _] _]. destruct q; [done|]. by destruct ps.
Qed.

(** ** What is promised *)

(** A text fit for a name: parts that are not empty, of allowed characters, joined by dots. *)
Definition fit (illegal : list rune) (name : list rune) : Prop := name = [] \/ exists ps, ps <> [] /\ good_parts illegal ps /\ name = join_dots ps.

Lemma sanitizeUnix_fit input : fit illegal_unix (sanitizeFilenameUnix input).
Proof.
  unfold sanitizeFilenameUnix. case_bool_decide; [by left|]. destruct (sanitizedParts _) as [|p ps] eqn:Hs; [by left|]. right. exists (p :: ps). split; [done|]. split; [|done].
  rewrite <- Hs. apply sanitizedParts_good, removeIllegal_allowed.
Qed.

Context `{!UnicodeLaws}.

Lemma ascii_allowed illegal c : 33 <= c <= 126 -> bool_decide (c ∈ illegal) = false -> removed illegal c = false.
Proof. intros Hc Hi. destruct (visible_ascii c Hc) as [Hs Hp]. unfold removed. rewrite Hs, Hp, Hi. destruct (Z.leb_spec c 31); [lia|done]. Qed.

Lemma reserved_allowed : Forall (fun c => removed illegal_windows c = false /\ c <> dot) (runes "RESERVED_").
Proof. change (runes "RESERVED_") with [82; 69; 83; 69; 82; 86; 69; 68; 95]. repeat (apply Forall_cons_2; [split; [apply ascii_allowed; [lia|reflexivity]|discriminate]|]). apply Forall_nil_2. Qed.

Lemma good_reserved p ps : good_parts illegal_windows (p :: ps) -> good_parts illegal_windows ((runes "RESERVED_" ++ p) :: ps).
Proof. intros [[_ Hp] Hps]%Forall_cons. apply Forall_cons_2; [|done]. split; [done|]. apply Forall_app_2; [apply reserved_allowed|done]. Qed.

Lemma reserved_trim p ps : good_parts illegal_windows (p :: ps) -> TrimSpaceRunes (runes "RESERVED_" ++ p) = runes "RESERVED_" ++ p.
Proof.
  intros Hg%good_reserved. apply (TrimSpace_allowed illegal_windows). apply Forall_cons in Hg as [[_ Hg] _]. eapply Forall_impl; [exact Hg|]. by intros c [].
Qed.

Lemma not_reserved p : is_reserved (runes "RESERVED_" ++ p) = false.
Proof.
  unfold is_reserved. apply bool_decide_eq_false. intros Hin. apply list_elem_of_fmap in Hin as (s & Hs & Hin). rewrite fmap_app in Hs.
  assert (Hl : (9 <= length (runes s))%nat) by (rewrite <- Hs, length_app; cbn; lia). clear Hs.
  repeat (apply elem_of_cons in Hin as [->|Hin]; [cbn in Hl; lia|]). by apply elem_of_nil in Hin.
Qed.

Lemma sanitizeWindows_parts input : sanitizeFilenameWindows input = [] \/
  exists p ps, good_parts illegal_windows (p :: ps) /\ is_reserved p = false /\ sanitizeFilenameWindows input = join_dots (p :: ps).
Proof.
  unfold sanitizeFilenameWindows. case_bool_decide; [by left|]. case_bool_decide; [by left|]. destruct (sanitizedParts _) as [|p ps] eqn:Hs; [by left|]. right.
  assert (Hg : good_parts illegal_windows (p :: ps)) by (rewrite <- Hs; apply sanitizedParts_good, removeIllegal_allowed).
  destruct (is_reserved p) eqn:Hr; [|by exists p, ps]. rewrite (reserved_trim p ps Hg). exists (runes "RESERVED_" ++ p), ps. split; [by apply good_reserved|]. split; [apply not_reserved|done].
Qed.

(** A name has no character that is illegal, a control character, a space or not printable, and no dot at its
    ends or next to another; on Windows it does not begin with a reserved word either. *)
Theorem filename_fit (windows : bool) (input : list rune) :
  fit (if windows then illegal_windows else illegal_unix) (Filename windows input) /\
  (windows = true -> forall p ps, good_parts illegal_windows (p :: ps) -> Filename windows input = join_dots (p :: ps) -> is_reserved p = false).
Proof.
  destruct input as [|c input]; [split; [by left|]; intros _ [|? ?] [|? ?] Hg; apply Forall_cons in Hg as [[Hne _] _]; done|]. cbn [Filename]. set (l := c :: input).
  destruct windows; [|split; [apply sanitizeUnix_fit|done]]. destruct (sanitizeWindows_parts l) as [He|(p & ps & Hg & Hr & He)]; rewrite He.
  - split; [by left|]. intros _ [|? ?] [|? ?] Hg; apply Forall_cons in Hg as [[Hne _] _]; done.
  - split; [right; by exists (p :: ps)|]. intros _ q qs Hq Hj. apply (f_equal split_dots) in Hj. rewrite !(split_join_dots illegal_windows) in Hj by done. by injection Hj as <- _.
Qed.

Lemma windows_keeps p ps : good_parts illegal_windows (p :: ps) -> is_reserved p = false -> sanitizeFilenameWindows (join_dots (p :: ps)) = join_dots (p :: ps).
Proof.
  intros Hg Hr. assert (Hdot : removed illegal_windows dot = false) by (apply ascii_allowed; [unfold dot; lia|reflexivity]).
  assert (Hne : join_dots (p :: ps) <> []) by (apply Forall_cons in Hg as [[Hp _] _]; destruct p; [done|]; by destruct ps).
  unfold sanitizeFilenameWindows. rewrite (join_ends illegal_windows); [|done|].
  - rewrite bool_decide_eq_false_2 by done. rewrite removeIllegal_all by (apply Forall_forall; intros c; by apply join_allowed). rewrite bool_decide_eq_false_2 by done.
    rewrite (sanitizedParts_join illegal_windows) by done. by rewrite Hr.
  - intros c Hc Hd. unfold trimmed_windows. rewrite (removed_space _ _ Hc). by apply Z.eqb_neq.
Qed.

(** On Windows, making a name fit twice is the same as once. *)
Theorem windows_idempotent (input : list rune) : Filename true (Filename true input) = Filename true input.
Proof.
  destruct input as [|c input]; [done|]. cbn [Filename]. destruct (sanitizeWindows_parts (c :: input)) as [->|(p & ps & Hg & Hr & ->)]; [done|].
  assert (Hk := windows_keeps p ps Hg Hr). destruct (join_dots (p :: ps)) as [|x l] eqn:Hj; [done|]. exact Hk.
Qed.

End sanitizer.

(** ** Examples *)

Section examples.
(** The tables on ASCII; everything else is printable. *)
Definition ascii_tables : Unicode :=
  {| IsSpace := fun c => (c =? 32) || ((9 <=? c) && (c <=? 13)); IsPrint := fun c => (32 <=? c) && negb (c =? 127);
     ToUpperRune := fun c => if (97 <=? c) && (c <=? 122) then c - 32 else c |}.
Local Existing Instance ascii_tables.
#[export] Instance ascii_tables_laws : UnicodeLaws.
Proof.
  constructor; [|done]. intros c Hc. cbn. destruct (Z.eqb_spec c 32), (Z.eqb_spec c 127), (Z.leb_spec 9 c), (Z.leb_spec c 13), (Z.leb_spec 32 c); try lia; done.
Qed.

Example unix_name : Filename false (runes " .-a/b..c?.txt- ") = runes "ab.c.txt".
Proof. vm_compute. reflexivity. Qed.
Example windows_name : Filename true (runes "con.txt") = runes "RESERVED_con.txt".
Proof. vm_compute. reflexivity. Qed.

(** Dashes at the start are removed before illegal characters are: one can be left. *)
Example dash_left : Filename false (runes "/-rf") = runes "-rf" /\ Filename false (Filename false (runes "/-rf")) = runes "rf".
Proof. vm_compute. split; reflexivity. Qed.

Lemma filename_fit_witness : fit illegal_unix (Filename false (runes "a.b")).
Proof. exact (proj1 (filename_fit false (runes "a.b"))). Defined.
Lemma windows_idempotent_witness : Filename true (Filename true (runes "con.txt")) = Filename true (runes "con.txt").
Proof. exact (windows_idempotent (runes "con.txt")). Defined.

End examples.
