(* ===== verification/Locations.v ===== *)
(** * Where files are kept, and clearing them (internal/locations, pkg/files/removal.go)

    The bridge has a directory for its settings, one for its data and one for its cache. Clearing
    removes what is in them, except files that are named: a path is kept when its text
    and that of an exception begin alike.  The file system is that of Files. *)

From S2P Require Import Prelude.
From S2P Require Import Strings.
From S2P Require Import Effects.
From S2P Require Import UserEvents.
From S2P Require Import Files.

(** The text of an absolute path. *)
Definition path_text (p : path) : string := "/" +:+ path_string p.

(** ** Removing (pkg/files/removal.go) *)

Section removal.
Variable denied : path -> bool.

Record OpRemove : Type := mkOpRemove { targets : list path; exceptions : list string }.
Definition Remove (targets : list path) : OpRemove := mkOpRemove targets [].
Definition Except (exceptions : list string) (op : OpRemove) : OpRemove := mkOpRemove (targets op) exceptions.

Definition related (path exception : string) : bool := String.eqb path exception || has_prefix path exception || has_prefix exception path.
Definition excepted (except : list string) (p : path) : bool := existsb (related (path_text p)) except.

(** Sorted from the last path to the first. *)
Definition text_ge (p q : path) : Prop := String.leb (path_text q) (path_text p) = true.
#[global] Instance text_ge_dec p q : Decision (text_ge p q).
Proof. unfold text_ge. apply _. Defined.

Definition to_remove (fs : FS) (dir : path) (except : list string) : list path :=
  merge_sort text_ge (Prelude.Filter (Walk fs dir) (fun p => negb (excepted except p))).

(** Every target is tried; the errors are joined. *)
Fixpoint remove_each (ps : list path) (fs : FS) (errs : list err) : FS * list err :=
  match ps with
  | [] => (fs, errs)
  | p :: ps => match RemoveAll denied p fs with (fs, Some e) => remove_each ps fs (errs ++ [e]) | (fs, None) => remove_each ps fs errs end
  end.
Definition remove (dir : path) (except : list string) (fs : FS) : FS * list err := remove_each (to_remove fs dir except) fs [].

Fixpoint remove_targets (ts : list path) (except : list string) (fs : FS) (errs : list err) : FS * list err :=
  match ts with [] => (fs, errs) | t :: ts => let '(fs, es) := remove t except fs in remove_targets ts except fs (errs ++ es) end.
Definition Do (op : OpRemove) (fs : FS) : FS * list err := remove_targets (targets op) (exceptions op) fs [].

(** ** Locations (locations.go, provider.go) *)

Record Locations : Type := mkLocations { userConfig : path; userData : path; userCache : path; configName : string; configGuiName : string }.
Definition New (config data cache : path) (configName : string) : Locations := mkLocations config data cache configName (configName +:+ "-gui").

Definition GetLockFile (l : Locations) : path := userCache l ++ [configName l +:+ ".lock"].
Definition GetGuiLockFile (l : Locations) : path := userCache l ++ [configGuiName l +:+ ".lock"].
Definition getGluonCachePath (l : Locations) : path := userData l ++ ["gluon"].
Definition getGluonDataPath (l : Locations) : path := userData l ++ ["gluon"].
Definition getGUICertPath (l : Locations) : path := userConfig l.
Definition getSettingsPath (l : Locations) : path := userConfig l.
Definition getIMAPSyncConfigPath (l : Locations) : path := userConfig l ++ ["imap-sync"].
Definition getLogsPath (l : Locations) : path := userData l ++ ["logs"].
Definition getGoIMAPCachePath (l : Locations) : path := userConfig l ++ ["cache"].
Definition getUpdatesPath (l : Locations) : path := userData l ++ ["updates"].
Definition getNotificationsCachePath (l : Locations) : path := userCache l ++ ["notifications"].
Definition getUnleashCachePath (l : Locations) : path := userCache l ++ ["unleash_cache"].
Definition getUnleashStartupCachePath (l : Locations) : path := userCache l ++ ["unleash_startup_cache"].
Definition getObservabilityMetricsCachePath (l : Locations) : path := userCache l ++ ["observability_cache"].

(** Each [Provide] function makes its directory and returns it. *)
Definition provide (dir : path) (fs : FS) : FS * result err path := match MkdirAll denied dir fs with (fs, Some e) => (fs, Err e) | (fs, None) => (fs, Ok dir) end.
Definition ProvideSettingsPath (l : Locations) : FS -> FS * result err path := provide (getSettingsPath l).
Definition ProvideGluonCachePath (l : Locations) : FS -> FS * result err path := provide (getGluonCachePath l).
Definition ProvideGluonDataPath (l : Locations) : FS -> FS * result err path := provide (getGluonDataPath l).
Definition ProvideLogsPath (l : Locations) : FS -> FS * result err path := provide (getLogsPath l).
Definition ProvideGUICertPath (l : Locations) : FS -> FS * result err path := provide (getGUICertPath l).
Definition ProvideUpdatesPath (l : Locations) : FS -> FS * result err path := provide (getUpdatesPath l).
Definition ProvideIMAPSyncConfigPath (l : Locations) : FS -> FS * result err path := provide (getIMAPSyncConfigPath l).
Definition ProvideUnleashCachePath (l : Locations) : FS -> FS * result err path := provide (getUnleashCachePath l).
Definition ProvideUnleashStartupCachePath (l : Locations) : FS -> FS * result err path := provide (getUnleashStartupCachePath l).
Definition ProvideObservabilityMetricsCachePath (l : Locations) : FS -> FS * result err path := provide (getObservabilityMetricsCachePath l).
Definition ProvideNotificationsCachePath (l : Locations) : FS -> FS * result err path := provide (getNotificationsCachePath l).

Definition Clear (l : Locations) (except : list string) : FS -> FS * list err :=
  Do (Except (except ++ [path_text (GetGuiLockFile l); path_text (getUpdatesPath l)]) (Remove [userConfig l; userData l; userCache l])).
Definition ClearUpdates (l : Locations) : FS -> FS * list err := Do (Remove [getUpdatesPath l]).
Definition CleanGoIMAPCache (l : Locations) : FS -> FS * list err := Do (Remove [getGoIMAPCachePath l]).

(** The directories of the system: [XDG_DATA_HOME], [HOME]; empty when they are not set. *)
Definition userDataDir (linux : bool) (userConfigDir : result err string) (xdg home : string) : result err (list string) :=
  if negb linux then Clean <$> userConfigDir
  else if negb (String.eqb xdg "") then Ok (Clean xdg)
  else if negb (String.eqb home "") then Ok (Clean home ++ [".local"; "share"])
  else Err (ErrOther "neither $XDG_DATA_HOME nor $HOME are defined").

(** ** What stays and what goes *)

Lemma has_prefix_trans a b c : has_prefix a b = true -> has_prefix b c = true -> has_prefix a c = true.
Proof.
  revert b c. induction a as [|x a IH]; intros [|y b] [|z c]; cbn [has_prefix]; try done. rewrite !andb_true_iff, !Ascii.eqb_eq. intros [-> H1] [-> H2]. split; [done|by eapply IH].
Qed.
Lemma has_prefix_total a b c : has_prefix a c = true -> has_prefix b c = true -> has_prefix a b = true \/ has_prefix b a = true.
Proof.
  revert b c. induction a as [|x a IH]; intros [|y b] [|z c]; cbn [has_prefix]; auto; try done. rewrite !andb_true_iff, !Ascii.eqb_eq. intros [-> H1] [-> H2].
  destruct (IH b c H1 H2); auto.
Qed.

Lemma has_prefix_app a b : has_prefix a (a +:+ b) = true.
Proof. induction a as [|x a IH]; [done|]. change (String x a +:+ b) with (String x (a +:+ b)). cbn [has_prefix]. by rewrite Ascii.eqb_refl. Qed.

Lemma path_string_prefix p k : has_prefix (path_string p) (path_string (p ++ k)) = true.
Proof.
  induction p as [|x p IH]; [done|]. cbn [app]. destruct p as [|y p].
  - cbn [path_string app]. destruct k as [|z k]; [by rewrite <- (str_app_nil x) at 2; apply has_prefix_app|apply has_prefix_app].
  - change (path_string (x :: y :: p)) with (x +:+ "/" +:+ path_string (y :: p)). change (path_string (x :: (y :: p) ++ k)) with (x +:+ "/" +:+ path_string ((y :: p) ++ k)).
    induction x as [|c x IHx]; [exact IH|]. change (String c x +:+ ?r) with (String c (x +:+ r)). cbn [has_prefix]. by rewrite Ascii.eqb_refl.
Qed.

Lemma path_text_prefix p q : p `prefix_of` q -> has_prefix (path_text p) (path_text q) = true.
Proof. intros [k ->]. unfold path_text. cbn. apply path_string_prefix. Qed.

Lemma excepted_below except p q : p `prefix_of` q -> excepted except q = true -> excepted except p = true.
Proof.
  intros Hpq%path_text_prefix (e & He & Hr)%existsb_exists. apply existsb_exists. exists e. split; [done|]. unfold related in *. rewrite !orb_true_iff in *.
  assert (Hq : has_prefix (path_text q) e = true \/ has_prefix e (path_text q) = true) by (destruct Hr as [[Heq|]|]; auto; apply String.eqb_eq in Heq as <-; left; rewrite <- (str_app_nil (path_text q)) at 2; apply has_prefix_app).
  destruct Hq as [Hq|Hq]; [left; right; by eapply has_prefix_trans|]. destruct (has_prefix_total _ _ _ Hpq Hq); auto.
Qed.

Lemma remove_each_keeps ps fs errs q : (forall p, p ∈ ps -> ~ p `prefix_of` q) -> (remove_each ps fs errs).1 !! q = fs !! q.
Proof.
  revert fs errs. induction ps as [|p ps IH]; intros fs errs Hq; cbn [remove_each]; [done|].
  assert (Hp : ~ p `prefix_of` q) by (apply Hq; left). assert (Hps : forall r, r ∈ ps -> ~ r `prefix_of` q) by (intros r Hr; apply Hq; by right).
  unfold RemoveAll. destruct (denied p); [by apply IH|]. rewrite IH by done. apply option_eq. intros n. rewrite map_lookup_filter_Some. naive_solver.
Qed.

Lemma remove_keeps dir except fs q : excepted except q = true -> (remove dir except fs).1 !! q = fs !! q.
Proof.
  intros Hq. apply remove_each_keeps. intros p Hp Hpre. unfold to_remove in Hp. rewrite merge_sort_Permutation in Hp. apply elem_of_Filter in Hp as [_ Hp].
  apply negb_true_iff in Hp. by rewrite (excepted_below _ _ _ Hpre Hq) in Hp.
Qed.

Lemma remove_each_removes ps fs errs q p : (forall r, denied r = false) -> p ∈ ps -> p `prefix_of` q -> (remove_each ps fs errs).1 !! q = None.
Proof.
  intros Hd. revert fs errs. induction ps as [|x ps IH]; intros fs errs Hp Hpre; [by apply elem_of_nil in Hp|]. cbn [remove_each]. unfold RemoveAll. rewrite Hd.
  apply elem_of_cons in Hp as [->|Hp]; [|by apply IH]. set (fs1 := filter _ fs). assert (Hn : fs1 !! q = None) by (apply map_lookup_filter_None; right; intros n _ H; by apply H).
  clear IH. revert Hn. generalize fs1. induction ps as [|y ps IH]; intros f Hn; cbn [remove_each]; [done|]. unfold RemoveAll. rewrite Hd. apply IH. apply map_lookup_filter_None. by left.
Qed.

Lemma remove_removes dir except fs q : (forall r, denied r = false) -> dir `prefix_of` q -> excepted except q = false -> (remove dir except fs).1 !! q = None.
Proof.
  intros Hd Hdir Hq. destruct (fs !! q) as [n|] eqn:Hn.
  - eapply (remove_each_removes _ _ _ _ q); [done| |done]. unfold to_remove. rewrite merge_sort_Permutation. apply elem_of_Filter. split; [|by rewrite Hq].
    unfold Walk. rewrite merge_sort_Permutation. apply list_elem_of_fmap. exists (q, n). split; [done|]. apply elem_of_map_to_list. by apply map_lookup_filter_Some.
  - unfold remove. generalize (to_remove fs dir except) ([] : list err). intros ps. revert fs Hn. induction ps as [|y ps IH]; intros f Hn errs; cbn [remove_each]; [done|].
    unfold RemoveAll. rewrite Hd. apply IH. apply map_lookup_filter_None. by left.
Qed.

Lemma remove_targets_keeps ts except fs errs q : excepted except q = true -> (remove_targets ts except fs errs).1 !! q = fs !! q.
Proof.
  intros Hq. revert fs errs. induction ts as [|t ts IH]; intros fs errs; [done|]. cbn [remove_targets]. assert (Hk := remove_keeps t except fs q Hq).
  destruct (remove t except fs) as [fs1 es]. rewrite IH. exact Hk.
Qed.

Lemma remove_targets_removes ts except fs errs q t : (forall r, denied r = false) -> t ∈ ts -> t `prefix_of` q -> excepted except q = false -> (remove_targets ts except fs errs).1 !! q = None.
Proof.
  intros Hd Ht Hpre Hq. assert (Hmono : forall t fs, fs !! q = None -> (remove t except fs).1 !! q = None).
  { intros t' f Hn. unfold remove. generalize (to_remove f t' except) ([] : list err). intros ps. revert f Hn. induction ps as [|y ps IH]; intros f Hn es; cbn [remove_each]; [done|].
    unfold RemoveAll. rewrite Hd. apply IH. apply map_lookup_filter_None. by left. }
  revert fs errs. induction ts as [|x ts IH]; intros fs errs; [by apply elem_of_nil in Ht|]. cbn [remove_targets]. apply elem_of_cons in Ht as [->|Ht].
  - assert (Hn := remove_removes x except fs q Hd Hpre Hq). destruct (remove x except fs) as [f es]. cbn [fst] in Hn. clear IH. revert f Hn es errs.
    induction ts as [|y ts IH]; intros f Hn es errs; cbn [remove_targets]; [done|]. assert (Hm := Hmono y f Hn). destruct (remove y except f) as [f2 es2]. apply (IH f2 Hm es2).
  - destruct (remove x except fs). by apply IH.
Qed.

(** Clearing keeps the updates, the lock of the front end and the exceptions it is given, with all that is in them
    and above them; everything else in the three directories is removed when the system refuses nothing. *)
Theorem Clear_spec (l : Locations) (except : list string) (fs : FS) (q : path) :
  let kept := except ++ [path_text (GetGuiLockFile l); path_text (getUpdatesPath l)] in
  (excepted kept q = true -> (Clear l except fs).1 !! q = fs !! q) /\
  ((forall r, denied r = false) -> userConfig l `prefix_of` q \/ userData l `prefix_of` q \/ userCache l `prefix_of` q -> excepted kept q = false -> (Clear l except fs).1 !! q = None).
Proof.
  intros kept. unfold Clear, Do. cbn [targets exceptions Except Remove]. split; [by apply remove_targets_keeps|].
  intros Hd [Hq|[Hq|Hq]] He; (eapply remove_targets_removes; [done| |exact Hq|done]); set_solver.
Qed.

End removal.

(** ** Examples *)

Definition ex_locations : Locations := New ["config"] ["data"] ["cache"] "bridge".
Definition ex_files : FS := list_to_map
  [(["config"], NDir); (["config"; "vault.enc"], NFile false "v"); (["data"], NDir); (["data"; "updates"], NDir); (["data"; "updates"; "3.0"], NFile true "u"); (["data"; "updates-old"], NFile false "o");
   (["data"; "logs"], NDir); (["data"; "logs"; "a.log"], NFile false "l"); (["cache"], NDir); (["cache"; "bridge.lock"], NFile false ""); (["cache"; "bridge-gui.lock"], NFile false "")].
Definition cleared : FS := (Clear (fun _ => false) ex_locations ["/config/vault.enc"] ex_files).1.

Example vault_and_updates_kept :
  (cleared !! ["config"; "vault.enc"], cleared !! ["data"; "updates"; "3.0"], cleared !! ["data"; "logs"; "a.log"]) = (Some (NFile false "v"), Some (NFile true "u"), None).
Proof. vm_compute. reflexivity. Qed.

(** The lock of the bridge is removed, only that of the front end is kept; so is a file whose name begins like an exception. *)
Example bridge_lock_removed : (cleared !! GetLockFile ex_locations, cleared !! GetGuiLockFile ex_locations) = (None, Some (NFile false "")).
Proof. vm_compute. reflexivity. Qed.
Example alike_kept : cleared !! ["data"; "updates-old"] = Some (NFile false "o").
Proof. vm_compute. reflexivity. Qed.

Lemma Clear_spec_witness : cleared !! ["data"; "updates"; "3.0"] = Some (NFile true "u") /\ cleared !! ["cache"; "bridge.lock"] = None.
Proof.
  split.
  - unfold cleared. rewrite (proj1 (Clear_spec (fun _ => false) ex_locations ["/config/vault.enc"] ex_files ["data"; "updates"; "3.0"])); vm_compute; reflexivity.
  - refine (proj2 (Clear_spec (fun _ => false) ex_locations ["/config/vault.enc"] ex_files ["cache"; "bridge.lock"]) (fun _ => eq_refl) _ _); [|vm_compute; reflexivity]. right. right. by exists ["bridge.lock"].
Defined.
