(* ===== verification/VaultKey.v ===== *)
(** * The key of the vault at the start (internal/app/vault.go, internal/vault/helper.go, pkg/keychain)

    The vault is encrypted with a key that a keychain of the system keeps. At the start the bridge
    finds out which keychain that is, takes the key from it and opens the vault. On Linux the
    keychain may not be there yet: the bridge ends with an error two times before it turns to the
    default keychain, with which it starts over. When a key cannot be had at all
    another vault in a directory of its own is opened, which is not protected.

    The vault is that of Vault; the programs that keep secrets are a parameter. *)

From Stdlib Require Import Ascii.
From S2P Require Import Prelude.
From S2P Require Import Strings.
From S2P Require Import Effects.
From S2P Require Import Json.
From S2P Require Import SyncState.
From S2P Require Import UserIdentity.
From S2P Require Import Vault.

Inductive kerr : Type :=
| ErrNoKeychain
| ErrKeychainNoItem
| ErrPreferredKeychainNotAvailable
| KHelper (msg : string)
| KVault (f : fault)
| KOther (msg : string)
| KWrap (msg : string) (e : kerr).

(** [errors.Is]. *)
Fixpoint errors_Is (e target : kerr) : Prop :=
  e = target \/ match e with KWrap _ e => errors_Is e target | _ => False end.

Fixpoint is_preferred (e : kerr) : bool :=
  match e with ErrPreferredKeychainNotAvailable => true | KWrap _ e => is_preferred e | _ => false end.
Fixpoint is_no_item (e : kerr) : bool :=
  match e with ErrKeychainNoItem => true | KWrap _ e => is_no_item e | _ => false end.

(** ** Files of settings (internal/vault/storage/storage.go) *)

Definition nl : string := String (Ascii.ascii_of_nat 10) "".

(** [json.MarshalIndent] of a struct of plain values, with two spaces. *)
Fixpoint print_lines (ms : list (string * json)) : string :=
  match ms with
  | [] => "}"
  | (k, v) :: ms =>
      "  " +:+ String quote (quote_body k (": " +:+ print_json v (match ms with [] => nl +:+ "}" | _ => "," +:+ nl +:+ print_lines ms end)))
  end.
Definition MarshalIndent (ms : list (string * json)) : string := "{" +:+ nl +:+ print_lines ms.

(** [json.Unmarshal] into a struct whose fields are set by [field]. *)
Fixpoint unmarshal_fields {T} (field : string -> json -> T -> option T) (ms : list (string * json)) (x : T) : option T :=
  match ms with [] => Some x | (k, v) :: ms => x ← field k v x; unmarshal_fields field ms x end.
Definition Unmarshal {T} (field : string -> json -> T -> option T) (zero : T) (text : string) : option T :=
  j ← parse_document text; match j with JObj ms => unmarshal_fields field ms zero | JNull => Some zero | _ => None end.

Record KeychainSettings : Type := mkKeychainSettings { Helper : string; DisableTest : bool }.
Definition marshal_settings (k : KeychainSettings) : string := MarshalIndent [("Helper", JStr (Helper k)); ("DisableTest", JBool (DisableTest k))].
Definition settings_field (k : string) (v : json) (x : KeychainSettings) : option KeychainSettings :=
  if EqualFold k "Helper" then h ← decode_string v (Helper x); Some (mkKeychainSettings h (DisableTest x))
  else if EqualFold k "DisableTest" then b ← decode_bool v (DisableTest x); Some (mkKeychainSettings (Helper x) b)
  else Some x.
Definition unmarshal_settings : string -> option KeychainSettings := Unmarshal settings_field (mkKeychainSettings "" false).

Record KeychainState : Type := mkKeychainState { FailedAttempts : Z }.
Definition marshal_state (k : KeychainState) : string := MarshalIndent [("FailedAttempts", JNum (FailedAttempts k))].
Definition state_field (k : string) (v : json) (x : KeychainState) : option KeychainState :=
  if EqualFold k "FailedAttempts" then n ← decode_int64 v (FailedAttempts x); Some (mkKeychainState n) else Some x.
Definition unmarshal_state : string -> option KeychainState := Unmarshal state_field (mkKeychainState 0).

(** ** Keychains (pkg/keychain/keychain.go) *)

(** A program that keeps secrets: what docker-credential-helpers offers. *)
Class CredHelper : Type := {
  hstate : Type;
  help_Add : string -> string -> bytes -> hstate -> hstate * option kerr;
  help_Get : string -> hstate -> result kerr (string * bytes);
  help_Delete : string -> hstate -> hstate * option kerr;
  help_List : hstate -> result kerr (list (string * string));
  IsErrCredentialsNotFound : kerr -> bool
}.

Definition MaxFailedKeychainAttemptsLinux : Z := 2.
Definition KeyChainName : string := "bridge-v3".
Definition vaultSecretName : string := "bridge-vault-key".

(** What a start gets from the system: is it Linux; the feature flags; the keychains that are usable and the default one; failures of
    the programs and of files; random bytes; and what the vault gets. *)
Record kenv : Type := mkKenv {
  linux : bool;
  retry_disabled : bool;
  deletion_disabled : bool;
  helpers : list string;
  defaultHelper : string;
  helper_new : string -> option kerr;
  helper_fault : string -> option kerr;
  hostURL : string -> string;
  settings_dir : result kerr string;
  gluon_dir : result kerr string;
  file_read : string -> option kerr;
  file_write : string -> option (kerr * option string);
  remove_fails : option (kerr * (string -> bool));
  token32 : result kerr bytes;
  env_vault : venv
}.

Section start.
Context `{VC : VaultCodec} `{CH : CredHelper}.

(** The files of the vaults, the files of settings, the secrets of each keychain, and whether there is a directory for the vault
    that is not protected. *)
Record kstate : Type := mkKstate {
  k_disk : gmap string bytes;
  k_json : gmap string string;
  k_secrets : string -> hstate;
  k_insecure : bool
}.

Notation K := (eff kstate kerr).

(** ** Loading and saving *)

Definition load {T} (env : kenv) (path : string) (unmarshal : string -> option T) (zero : T) : K T := reads (fun s =>
  match file_read env path, k_json s !! path with
  | Some e, _ => Err e
  | None, None => Ok zero
  | None, Some text => match unmarshal text with Some x => Ok x | None => Err (KWrap "file has invalid data" (KOther "json")) end
  end).
Definition set_json (path text : string) (s : kstate) : kstate := mkKstate (k_disk s) (<[path := text]> (k_json s)) (k_secrets s) (k_insecure s).
(** A write that fails may leave something else in the file. *)
Definition save (env : kenv) (path text : string) : K () := calls (fun s =>
  match file_write env path with
  | None => (set_json path text s, None)
  | Some (e, None) => (s, Some e)
  | Some (e, Some partial) => (set_json path partial s, Some e)
  end).

Definition settings_path (vaultDir : string) : string := vaultDir +:+ "/keychain.json".
Definition state_path (vaultDir : string) : string := vaultDir +:+ "/keychain_state.json".
Definition LoadKeychainSettings (env : kenv) (vaultDir : string) : K KeychainSettings := load env (settings_path vaultDir) unmarshal_settings (mkKeychainSettings "" false).
Definition settings_Save (env : kenv) (vaultDir : string) (k : KeychainSettings) : K () := save env (settings_path vaultDir) (marshal_settings k).
Definition LoadKeychainState (env : kenv) (vaultDir : string) : K KeychainState :=
  if negb (linux env) then mret (mkKeychainState 0) else load env (state_path vaultDir) unmarshal_state (mkKeychainState 0).
Definition state_Save (env : kenv) (vaultDir : string) (k : KeychainState) : K () :=
  if negb (linux env) then mret () else save env (state_path vaultDir) (marshal_state k).
Definition ResetAndSave (env : kenv) (vaultDir : string) (k : KeychainState) : K () := state_Save env vaultDir (mkKeychainState 0).

(** ** Settings of the keychain (internal/vault/helper.go) *)

Definition GetShouldSkipKeychainTest (env : kenv) (vaultDir : string) : K bool := settings ← LoadKeychainSettings env vaultDir; mret (DisableTest settings).
Definition SetShouldSkipKeychainTest (env : kenv) (vaultDir : string) (skip : bool) : K () :=
  settings ← LoadKeychainSettings env vaultDir;
  if Bool.eqb skip (DisableTest settings) then mret () else settings_Save env vaultDir (mkKeychainSettings (Helper settings) skip).
Definition GetHelper (env : kenv) (vaultDir : string) : K string := settings ← LoadKeychainSettings env vaultDir; mret (Helper settings).
Definition SetHelper (env : kenv) (vaultDir helper : string) : K () :=
  if String.eqb helper "" then mret ()
  else settings ← LoadKeychainSettings env vaultDir; settings_Save env vaultDir (mkKeychainSettings helper (DisableTest settings)).
Definition GetKeychainFailedAttemptCount (env : kenv) (vaultDir : string) : K Z := keychainState ← LoadKeychainState env vaultDir; mret (FailedAttempts keychainState).
Definition IncrementKeychainFailedAttemptCount (env : kenv) (vaultDir : string) : K () :=
  keychainState ← LoadKeychainState env vaultDir; state_Save env vaultDir (mkKeychainState (i64 (FailedAttempts keychainState + 1))).
Definition ResetFailedKeychainAttemptCount (env : kenv) (vaultDir : string) : K () :=
  keychainState ← LoadKeychainState env vaultDir; ResetAndSave env vaultDir keychainState.

(** ** Keychains *)

Record Keychain : Type := mkKeychain { kc_helper : string; kc_url : string }.

Definition IsErrKeychainNoItem (e : kerr) : bool := is_no_item e || IsErrCredentialsNotFound e.
Definition PreferredKeychainRetryError (attemptCount : Z) : kerr :=
  KWrap (Json.print_Z (MaxFailedKeychainAttemptsLinux - attemptCount) " attempts remaining till vault reset") ErrPreferredKeychainNotAvailable.
Definition ShouldRetryPreferredKeychain (env : kenv) (preferredKeychain : string) : bool :=
  negb (retry_disabled env) && linux env && negb (String.eqb preferredKeychain "").
Definition known (env : kenv) (helper : string) : bool := existsb (String.eqb helper) (helpers env).

(** The keychain, and the name of the program it uses. *)
Definition NewKeychain (env : kenv) (preferred keychainName : string) (keychainFailedAttemptCount : Z) : result kerr (Keychain * string) :=
  match helpers env with
  | [] => Err ErrNoKeychain
  | _ =>
      preferred ←
        (if known env preferred then Ok preferred
         else if ShouldRetryPreferredKeychain env preferred && (keychainFailedAttemptCount <? MaxFailedKeychainAttemptsLinux)
         then Err (PreferredKeychainRetryError keychainFailedAttemptCount)
         else Ok (defaultHelper env));
      if negb (known env preferred) then Err ErrNoKeychain
      else match helper_new env preferred with
           | Some e => Err e
           | None => Ok (mkKeychain preferred (hostURL env keychainName), preferred)
           end
  end.

Definition secretURL (kc : Keychain) (userID : string) : string := kc_url kc +:+ "/" +:+ userID.

(** A call of the program that keeps the secrets, which may not answer. *)
Definition asks {A} (env : kenv) (kc : Keychain) (f : hstate -> result kerr A) : K A := reads (fun s =>
  match helper_fault env (kc_helper kc) with Some e => Err e | None => f (k_secrets s (kc_helper kc)) end).
Definition tells (env : kenv) (kc : Keychain) (f : hstate -> hstate * option kerr) : K () := calls (fun s =>
  match helper_fault env (kc_helper kc) with
  | Some e => (s, Some e)
  | None => let '(h, e) := f (k_secrets s (kc_helper kc)) in
            (mkKstate (k_disk s) (k_json s) (fun n => if String.eqb n (kc_helper kc) then h else k_secrets s n) (k_insecure s), e)
  end).

Definition kc_List (env : kenv) (kc : Keychain) : K (list string) :=
  userIDsByURL ← asks env kc help_List;
  mret (snd <$> Prelude.Filter userIDsByURL (fun '(url, userID) => String.eqb url (secretURL kc userID))).
Definition kc_Delete (env : kenv) (kc : Keychain) (userID : string) : K () :=
  userIDsByURL ← asks env kc help_List;
  if negb (existsb (fun '(url, _) => String.eqb url (secretURL kc userID)) userIDsByURL) then mret ()
  else tells env kc (help_Delete (secretURL kc userID)).
Definition kc_Clear (env : kenv) (kc : Keychain) : K () := entries ← kc_List env kc; for_each entries (kc_Delete env kc).
Definition kc_Get (env : kenv) (kc : Keychain) (userID : string) : K (string * bytes) :=
  '(id, key) ← asks env kc (help_Get (secretURL kc userID));
  match key with [] => fails ErrKeychainNoItem | _ => mret (id, key) end.
Definition kc_Put (env : kenv) (kc : Keychain) (userID : string) (secret : bytes) : K () := tells env kc (help_Add (secretURL kc userID) userID secret).

(** [base64.StdEncoding]: that of UserIdentity with two other characters, and padding. *)
Definition std_of_raw (c : Z) : Z := if c =? 45 then 43 else if c =? 95 then 47 else c.
Definition raw_of_std (c : Z) : option Z := if (c =? 45) || (c =? 95) then None else Some (if c =? 43 then 45 else if c =? 47 then 95 else c).
Definition padding (n : nat) : bytes := match (n mod 4)%nat with 2%nat => [61; 61] | 3%nat => [61] | _ => [] end.
Definition EncodeToString (b : bytes) : bytes := let c := B64RawEncode b in (std_of_raw <$> c) ++ padding (length c).
(** The padding has to fit. *)
Definition unpadded (c : bytes) : option bytes :=
  if negb (length c mod 4 =? 0)%nat then None
  else let d := match rev c with 61 :: 61 :: r => rev r | 61 :: r => rev r | _ => c end in Some d.
Definition DecodeString (b : bytes) : option bytes :=
  c ← unpadded (Prelude.Filter b (fun c => negb ((c =? 10) || (c =? 13)))); c ← mapM raw_of_std c; b64_groups c.

Definition GetVaultKey (env : kenv) (kc : Keychain) : K bytes :=
  '(_, keyEnc) ← wrapping (KWrap "could not get keychain item") (kc_Get env kc vaultSecretName);
  match DecodeString keyEnc with Some keyDec => mret keyDec | None => fails (KWrap "could not decode keychain item" (KOther "base64")) end.
Definition SetVaultKey (env : kenv) (kc : Keychain) (key : bytes) : K () := kc_Put env kc vaultSecretName (EncodeToString key).
Definition NewVaultKey (env : kenv) (kc : Keychain) : K bytes :=
  tok ← wrapping (KWrap "could not generate random token") (reads (fun _ => token32 env));
  _ ← wrapping (KWrap "could not put keychain item") (kc_Put env kc vaultSecretName (EncodeToString tok));
  mret tok.

(** ** The start (internal/app/vault.go) *)

Definition attempt {A} (m : K A) : K (result kerr A) := fun s => let '(s, r) := m s in (s, Ok r).

Definition loadVaultKey (env : kenv) (vaultDir : string) : K (bytes * string) :=
  keychainHelper ← wrapping (KWrap "could not get keychain helper") (GetHelper env vaultDir);
  keychainFailedAttemptCount ← wrapping (KWrap "could not get keychain failed attempt count") (GetKeychainFailedAttemptCount env vaultDir);
  '(kc, keychainHelper) ← wrapping (KWrap "could not create keychain") (reads (fun _ => NewKeychain env keychainHelper KeyChainName keychainFailedAttemptCount));
  r ← attempt (GetVaultKey env kc);
  match r with
  | Ok key => mret (key, keychainHelper)
  | Err e =>
      if IsErrKeychainNoItem e then key ← NewVaultKey env kc; mret (key, keychainHelper)
      else if ShouldRetryPreferredKeychain env keychainHelper && (keychainFailedAttemptCount <? MaxFailedKeychainAttemptsLinux)
      then fails (PreferredKeychainRetryError keychainFailedAttemptCount)
      else fails (KWrap "could not check for vault key" e)
  end.

Definition insecure_dir (vaultDir : string) : string := vaultDir +:+ "/insecure".

(** Opening makes the directory. *)
Definition open_vault (env : kenv) (insecure : bool) (vaultDir gluonCacheDir : string) (key : bytes) : K (Vault * option verr) := fun s =>
  let made := match env_mkdir (env_vault env) with None => insecure || k_insecure s | Some _ => k_insecure s end in
  match Vault.New (env_vault env) vaultDir gluonCacheDir key (k_disk s) with
  | (disk, Ok x) => (mkKstate disk (k_json s) (k_secrets s) made, Ok x)
  | (disk, Err f) => (mkKstate disk (k_json s) (k_secrets s) made, Err (KVault f))
  end.

Definition below (dir name : string) : bool := has_prefix (dir +:+ "/") name.
(** [os.RemoveAll]; when it fails some files are left. *)
Definition remove_insecure (env : kenv) (insecureVaultDir : string) : K () := modify (fun s =>
  let left_over name := match remove_fails env with None => false | Some (_, keeps) => keeps name end in
  let stays name := negb (below insecureVaultDir name) || left_over name in
  mkKstate (filter (fun x => stays x.1 = true) (k_disk s)) (filter (fun x => stays x.1 = true) (k_json s)) (k_secrets s)
    (match remove_fails env with None => false | Some _ => k_insecure s end)).

(** The vault, whether it is the one that is not protected, and the error for which it was made anew. *)
Definition app_newVault (env : kenv) : K (Vault * bool * option verr) :=
  vaultDir ← wrapping (KWrap "could not get vault dir") (reads (fun _ => settings_dir env));
  let insecureVaultDir := insecure_dir vaultDir in
  r ← attempt (loadVaultKey env vaultDir);
  '(vaultKey, insecure, lastUsedHelper, dir) ←
    match r with
    | Err e => if is_preferred e then ignoring (IncrementKeychainFailedAttemptCount env vaultDir) ≫= fun _ => fails e
               else mret ([], true, "", insecureVaultDir)
    | Ok (key, helper) => mret (key, false, helper, vaultDir)
    end;
  gluonCacheDir ← wrapping (KWrap "could not provide gluon path") (reads (fun _ => gluon_dir env));
  '(userVault, corrupt) ← wrapping (KWrap "could not create vault") (open_vault env insecure dir gluonCacheDir vaultKey);
  _ ← (if linux env then ignoring (SetHelper env dir lastUsedHelper) ≫= fun _ => ignoring (ResetFailedKeychainAttemptCount env dir) else mret ());
  if deletion_disabled env || insecure then mret (userVault, insecure, corrupt)
  else
    there ← reads (fun s => Ok (k_insecure s));
    if negb there then mret (userVault, insecure, corrupt)
    else remove_insecure env insecureVaultDir ≫= fun _ => mret (userVault, insecure, corrupt).

End start.

(** ** Settings and keys are read as they were written *)

Definition plain_value (j : json) : Prop := match j with JObj _ => False | _ => True end.

Lemma skip_nl s : skip_spaces (nl +:+ s) = skip_spaces s.
Proof. reflexivity. Qed.
Lemma skip_indent s : skip_spaces ("  " +:+ s) = skip_spaces s.
Proof. reflexivity. Qed.

(** A member and what follows it. *)
Lemma parse_line fuel first k v tail : plain_value v -> starts_with_digit tail = false ->
  parse_members (S (S fuel)) first (String quote (quote_body k (": " +:+ print_json v tail))) =
  match skip_spaces tail with
  | String c2 s4 =>
      if Ascii.eqb c2 ","%char then '(ms, r) ← parse_members (S fuel) false (skip_spaces s4); Some ((k, v) :: ms, r)
      else if Ascii.eqb c2 "}"%char then Some ([(k, v)], s4) else None
  | EmptyString => None
  end.
Proof.
  intros Hv Ht. change (parse_members (S (S fuel))) with (fun (first : bool) (s : string) => match s with
    | EmptyString => None
    | String c s' => if Ascii.eqb c "}"%char && first then Some ([], s')
        else '(k, s1) ← parse_literal s;
          match skip_spaces s1 with
          | String c1 s2 => if Ascii.eqb c1 ":"%char then '(v, s3) ← parse_json (S fuel) (skip_spaces s2);
              match skip_spaces s3 with
              | String c2 s4 => if Ascii.eqb c2 ","%char then '(ms, r) ← parse_members (S fuel) false (skip_spaces s4); Some ((k, v) :: ms, r)
                  else if Ascii.eqb c2 "}"%char then Some ([(k, v)], s4) else None
              | EmptyString => None end else None
          | EmptyString => None end end).
  cbv beta iota. change (Ascii.eqb quote "}"%char) with false. cbn [andb parse_literal]. rewrite Ascii.eqb_refl, unquote_quote_body. cbn [mbind option_bind].
  change (skip_spaces (": " +:+ print_json v tail)) with (String ":"%char (" " +:+ print_json v tail)). cbv iota. rewrite Ascii.eqb_refl.
  change (skip_spaces (" " +:+ print_json v tail)) with (skip_spaces (print_json v tail)). rewrite print_json_skip.
  rewrite (proj1 (parse_print (S fuel)) v tail); [done| |done]. destruct v; cbn; try lia. done.
Qed.

Lemma print_lines_length ms : (length ms < String.length (print_lines ms))%nat.
Proof.
  induction ms as [|[k v] ms IH]; [cbv; lia|]. cbn [print_lines length]. set (tail := match ms with [] => _ | _ => _ end).
  assert (length ms < String.length tail)%nat.
  { subst tail. destruct ms as [|m ms]; [cbv; lia|]. change (String.length ("," +:+ nl +:+ print_lines (m :: ms))) with (S (S (String.length (print_lines (m :: ms))))). lia. }
  assert (Hq := quote_body_length k (": " +:+ print_json v tail)). assert (Hv := proj1 (json_fuel_length (json_fuel v)) v tail ltac:(lia)).
  change (String.length ("  " +:+ ?s)) with (S (S (String.length s))). cbn [String.length].
  change (String.length (": " +:+ print_json v tail)) with (S (S (String.length (print_json v tail)))) in Hq.
  change (String.length ("  " +:+ String quote (quote_body k (": " +:+ print_json v tail)))) with (S (S (S (String.length (quote_body k (": " +:+ print_json v tail)))))). lia.
Qed.

Lemma parse_lines ms : forall fuel, (length ms < fuel)%nat -> ms <> [] -> Forall (fun m => plain_value m.2) ms -> forall first,
  parse_members (S fuel) first (skip_spaces (print_lines ms)) = Some (ms, "").
Proof.
  induction ms as [|[k v] ms IH]; intros fuel Hf Hne Hp first; [done|]. apply Forall_cons in Hp as [Hv Hp]. cbn [print_lines]. rewrite skip_indent.
  set (tail := match ms with [] => _ | _ => _ end). change (skip_spaces (String quote ?s)) with (String quote s).
  destruct fuel as [|fuel]; [cbn in Hf; lia|]. rewrite parse_line; [|done|subst tail; by destruct ms]. subst tail. destruct ms as [|m ms]; [done|].
  change (skip_spaces ("," +:+ nl +:+ print_lines (m :: ms))) with (String ","%char (nl +:+ print_lines (m :: ms))). cbv iota. rewrite Ascii.eqb_refl, skip_nl.
  rewrite IH; [done| |done|done]. cbn [length] in *. lia.
Qed.

Lemma parse_MarshalIndent ms : ms <> [] -> Forall (fun m => plain_value m.2) ms -> parse_document (MarshalIndent ms) = Some (JObj ms).
Proof.
  intros Hne Hp. unfold parse_document, MarshalIndent. change (skip_spaces ("{" +:+ nl +:+ print_lines ms)) with (String "{"%char (nl +:+ print_lines ms)).
  assert (Hl := print_lines_length ms). change (String.length ("{" +:+ nl +:+ print_lines ms)) with (S (S (String.length (print_lines ms)))).
  set (n := String.length (print_lines ms)) in *. replace (2 * S (S n) + 2)%nat with (S (S (2 * n + 4)))%nat by lia.
  change (parse_json (S (S (2 * n + 4))) (String "{"%char (nl +:+ print_lines ms))) with
    ('(ms, r) ← parse_members (S (2 * n + 4)) true (skip_spaces (nl +:+ print_lines ms)); Some (JObj ms, r)).
  rewrite skip_nl, (parse_lines ms) by (done || lia). done.
Qed.

Lemma unmarshal_marshal_settings k : unmarshal_settings (marshal_settings k) = Some k.
Proof. unfold unmarshal_settings, Unmarshal, marshal_settings. rewrite parse_MarshalIndent by (done || by repeat constructor). by destruct k. Qed.
Lemma unmarshal_marshal_state k : i64_ok (FailedAttempts k) -> unmarshal_state (marshal_state k) = Some k.
Proof.
  intros Hk. unfold unmarshal_state, Unmarshal, marshal_state. rewrite parse_MarshalIndent by (done || by repeat constructor). cbn [mbind option_bind unmarshal_fields].
  unfold state_field. change (EqualFold "FailedAttempts" "FailedAttempts") with true. cbv iota. unfold decode_int64. unfold i64_ok in Hk.
  rewrite (proj2 (Z.leb_le _ _) (proj1 Hk)), (proj2 (Z.ltb_lt _ _) (proj2 Hk)). by destruct k.
Qed.

(** *** Base64 *)

Lemma raw_std_char v : 0 <= v < 64 -> raw_of_std (std_of_raw (b64_char v)) = Some (b64_char v) /\ std_of_raw (b64_char v) <> 61 /\ negb ((std_of_raw (b64_char v) =? 10) || (std_of_raw (b64_char v) =? 13)) = true.
Proof.
  intros Hv. assert (Hall : forallb (fun v => let c := std_of_raw (b64_char v) in bool_decide (raw_of_std c = Some (b64_char v)) && negb (c =? 61) && negb ((c =? 10) || (c =? 13))) (seqZ 0 64) = true) by (vm_compute; done).
  rewrite forallb_forall in Hall. specialize (Hall v). rewrite <- list_elem_of_In, elem_of_seqZ in Hall. specialize (Hall ltac:(lia)). cbv zeta in Hall.
  apply andb_true_iff in Hall as [[H1 H2]%andb_true_iff H3]. apply bool_decide_eq_true in H1. split; [done|]. split; [|done]. by destruct (Z.eqb_spec (std_of_raw (b64_char v)) 61).
Qed.

Definition sextet_char (c : Z) : Prop := exists v, 0 <= v < 64 /\ c = b64_char v.

Lemma B64RawEncode_chars b : Forall is_byte b -> Forall sextet_char (B64RawEncode b) /\ (length (B64RawEncode b) mod 4 <> 1)%nat.
Proof.
  assert (Hgen : forall n b, (length b <= n)%nat -> Forall is_byte b -> Forall sextet_char (B64RawEncode b) /\ (length (B64RawEncode b) mod 4 <> 1)%nat); [|by eapply Hgen].
  clear b. induction n as [|n IH]; intros b Hn Hb; [destruct b; [split; [constructor|done]|cbn in Hn; lia]|].
  unfold is_byte in *. destruct b as [|x [|y [|z rest]]]; [split; [constructor|done]|..]; repeat match goal with H : Forall _ (_ :: _) |- _ => apply Forall_cons in H as [? ?] end.
  - cbn [B64RawEncode]. split; [|done]. repeat constructor; eexists; (split; [|reflexivity]); sextets.
  - cbn [B64RawEncode]. split; [|done]. repeat constructor; eexists; (split; [|reflexivity]); sextets.
  - cbn [B64RawEncode]. destruct (IH rest) as [IH1 IH2]; [cbn in Hn; lia|done|]. split.
    + repeat (constructor; [eexists; (split; [|reflexivity]); sextets|]). done.
    + cbn [length]. replace (S (S (S (S (length (B64RawEncode rest)))))) with (length (B64RawEncode rest) + 1 * 4)%nat by lia. by rewrite Nat.Div0.mod_add.
Qed.

Lemma filter_app {A} (l k : list A) f : Prelude.Filter (l ++ k) f = Prelude.Filter l f ++ Prelude.Filter k f.
Proof. induction l as [|x l IH]; [done|]. cbn. rewrite IH. by destruct (f x). Qed.

Lemma filter_chars c : Forall sextet_char c -> Prelude.Filter (std_of_raw <$> c) (fun c => negb ((c =? 10) || (c =? 13))) = std_of_raw <$> c.
Proof.
  induction 1 as [|x c (v & Hv & ->) _ IH]; [done|]. rewrite fmap_cons. cbn [Prelude.Filter]. destruct (raw_std_char v Hv) as (_ & _ & ->). by rewrite IH.
Qed.

Lemma raw_of_std_chars c : Forall sextet_char c -> mapM raw_of_std (std_of_raw <$> c) = Some c.
Proof.
  induction 1 as [|x c (v & Hv & ->) _ IH]; [done|]. rewrite fmap_cons. cbn [mapM]. rewrite (proj1 (raw_std_char v Hv)). cbn. by rewrite IH.
Qed.

Lemma last_char c d x : Forall sextet_char c -> rev (std_of_raw <$> c) = x :: d -> x <> 61.
Proof.
  intros Hc Hr. assert (Hin : x ∈ (std_of_raw <$> c)) by (rewrite list_elem_of_In, in_rev, Hr; by left).
  apply list_elem_of_fmap in Hin as (y & -> & Hy). rewrite Forall_forall in Hc. destruct (Hc y Hy) as (v & Hv & ->). apply raw_std_char, Hv.
Qed.

Lemma unpad_pad c : Forall sextet_char c -> (length c mod 4 <> 1)%nat -> unpadded ((std_of_raw <$> c) ++ padding (length c)) = Some (std_of_raw <$> c).
Proof.
  intros Hc Hm. unfold unpadded. assert (Hb := Nat.mod_upper_bound (length c) 4 ltac:(lia)). assert (Hd := Nat.div_mod_eq (length c) 4).
  assert (Hl : (length ((std_of_raw <$> c) ++ padding (length c)) mod 4 = 0)%nat).
  { rewrite length_app, length_fmap. unfold padding. set (q := (length c / 4)%nat) in *. destruct (length c mod 4)%nat as [|[|[|[|?]]]] eqn:Hr; cbn [length]; try lia; rewrite Hd.
    - replace (4 * q + 0 + 0)%nat with (0 + q * 4)%nat by lia. by rewrite Nat.Div0.mod_add.
    - replace (4 * q + 2 + 2)%nat with (0 + (q + 1) * 4)%nat by lia. by rewrite Nat.Div0.mod_add.
    - replace (4 * q + 3 + 1)%nat with (0 + (q + 1) * 4)%nat by lia. by rewrite Nat.Div0.mod_add. }
  rewrite Hl. cbn [Nat.eqb negb]. cbv iota zeta. f_equal. rewrite rev_app_distr.
  assert (Hlast : forall x d, rev (std_of_raw <$> c) = x :: d -> x <> 61) by (intros x d; by apply last_char).
  unfold padding. destruct (length c mod 4)%nat as [|[|[|[|?]]]]; cbn [rev app]; try lia.
  - destruct (rev (std_of_raw <$> c)) as [|x d] eqn:Hr; [by rewrite app_nil_r|]. specialize (Hlast x d eq_refl). rewrite app_nil_r.
    destruct x as [|x|x]; try done. repeat (destruct x as [x|x|]; try done).
  - by rewrite rev_involutive.
  - destruct (rev (std_of_raw <$> c)) as [|x d] eqn:Hr; [by rewrite <- (rev_involutive (std_of_raw <$> c)), Hr|]. specialize (Hlast x d eq_refl). rewrite <- (rev_involutive (std_of_raw <$> c)), Hr.
    destruct x as [|x|x]; try done. repeat (destruct x as [x|x|]; try done).
Qed.

Lemma DecodeString_EncodeToString b : Forall is_byte b -> DecodeString (EncodeToString b) = Some b.
Proof.
  intros Hb. destruct (B64RawEncode_chars b Hb) as [Hc Hm]. unfold DecodeString, EncodeToString. rewrite filter_app, filter_chars by done.
  assert (Prelude.Filter (padding (length (B64RawEncode b))) (fun c => negb ((c =? 10) || (c =? 13))) = padding (length (B64RawEncode b))) as ->
    by (unfold padding; by destruct (length (B64RawEncode b) mod 4)%nat as [|[|[|[|?]]]]).
  rewrite unpad_pad by done. cbn [mbind option_bind]. rewrite raw_of_std_chars by done. cbn [mbind option_bind].
  assert (Hd := B64RawDecode_Encode b Hb). unfold B64RawDecode in Hd. rewrite <- Hd. f_equal.
  clear -Hc. induction Hc as [|x c (v & Hv & ->) _ IH]; [done|]. cbn [Prelude.Filter]. rewrite b64_char_visible by done. by rewrite <- IH.
Qed.

Lemma EncodeToString_nonempty b : b <> [] -> EncodeToString b <> [].
Proof. destruct b as [|x [|y [|z b]]]; done. Qed.

(** ** Opening a vault that is there *)

Section opening.
Context `{VC : VaultCodec} `{VL : !VaultCodecLaws}.

Definition vault_path (vaultDir : string) : string := vaultDir +:+ "/vault.enc".

(** Nothing fails that has to do with the vault. *)
Definition quiet (env : venv) : Prop := venv_ok env /\ env_mkdir env = None /\ env_read env = None /\ env_write env = None /\ env_rename env = None.

(** The key for feature flags is put into a vault that has none. *)
Lemma sticky_keeps (env : venv) (v : Vault) k us b :
  quiet env -> v_gcm v = Some k -> readable k (v_enc v) us -> v_disk v !! v_path v = Some b -> readable k b us ->
  exists v' b', setFeatureFlagStickyKeyIfEmpty env v = (v', Ok ()) /\ readable k (v_enc v') us /\ v_disk v' !! v_path v = Some b' /\ readable k b' us.
Proof.
  intros (Hn & _ & _ & Hw & Hre) Hk Hr Hb Hrb. destruct (Hr env) as (d & Hd & Hu).
  unfold setFeatureFlagStickyKeyIfEmpty, GetFeatureFlagStickyKey, getSafe, getUnsafe, mbind, eff_bind, reads. rewrite Hk, Hd. cbn. destruct (negb _); [by exists v, b|].
  unfold modSafe, modUnsafe. rewrite Hk, Hd, Hw, Hre. cbn. eexists _, _. split; [reflexivity|]. cbn [v_enc v_disk set_disk set_enc].
  assert (Hm' := readable_marshalFile env k (set_StickyKey (env_uuid env) d) Hn). change (Data_Users (set_StickyKey (env_uuid env) d)) with (Data_Users d) in Hm'. rewrite Hu in Hm'.
  split; [done|]. by rewrite lookup_insert_eq.
Qed.

Lemma New_keeps (env : venv) (dir gluonDir : string) (key : bytes) (us : list UserData) (disk : gmap string bytes) b :
  quiet env -> disk !! vault_path dir = Some b -> readable (newGCM key) b us ->
  exists disk' v b', New env dir gluonDir key disk = (disk', Ok (v, None)) /\ readable (newGCM key) (v_enc v) us /\
    disk' !! vault_path dir = Some b' /\ readable (newGCM key) b' us.
Proof.
  intros Hq Hb Hread. assert (Hq' := Hq). destruct Hq' as (Hn & Hm & Hr & Hw & Hre). unfold New, Vault.newVault. fold (vault_path dir). rewrite Hm, Hb, Hr, Hb. destruct (Hread env) as (d & Hd & Hu). rewrite Hd.
  destruct (sticky_keeps env (mkVault (vault_path dir) (Some (newGCM key)) b ∅ disk) (newGCM key) us b Hq eq_refl Hread Hb Hread) as (v' & b' & -> & H1 & H2 & H3). by exists (v_disk v'), v', b'.
Qed.

(** A vault that is not there or cannot be decrypted is made anew. *)
Lemma New_replaces (env : venv) (dir gluonDir : string) (key : bytes) (disk : gmap string bytes) (corrupt : option verr) :
  quiet env -> match disk !! vault_path dir with None => corrupt = None | Some b => exists e, unmarshalFile env (Some (newGCM key)) b = Err (Fails e) /\ corrupt = Some e end ->
  exists disk' v b', New env dir gluonDir key disk = (disk', Ok (v, corrupt)) /\ readable (newGCM key) (v_enc v) [] /\ disk' !! vault_path dir = Some b' /\ readable (newGCM key) b' [].
Proof.
  intros Hq Hd. assert (Hq' := Hq). destruct Hq' as (Hn & Hm & Hr & Hw & Hre). unfold New. fold (vault_path dir). rewrite Hm. set (enc := marshalFile env (newGCM key) (newDefaultData env gluonDir)).
  assert (HN : Vault.newVault env (vault_path dir) gluonDir (newGCM key) disk = (<[vault_path dir := enc]> disk, Ok (mkVault (vault_path dir) (Some (newGCM key)) enc ∅ (<[vault_path dir := enc]> disk), corrupt))).
  { destruct (disk !! vault_path dir) as [b|] eqn:Hb; [|subst corrupt; by apply newVault_fresh]. destruct Hd as (e & He & ->).
    unfold Vault.newVault, initVault. by rewrite Hb, Hr, Hb, He, Hw. }
  rewrite HN. assert (Hread : readable (newGCM key) enc []) by apply (readable_marshalFile env (newGCM key) (newDefaultData env gluonDir) Hn).
  destruct (sticky_keeps env (mkVault (vault_path dir) (Some (newGCM key)) enc ∅ (<[vault_path dir := enc]> disk)) (newGCM key) [] enc Hq eq_refl Hread) as (v' & b' & -> & H1 & H2 & H3); [cbn; apply lookup_insert_eq|done|].
  by exists (v_disk v'), v', b'.
Qed.

Lemma initVault_frame (env : venv) path gluonDir k (disk : gmap string bytes) p : p <> path -> (initVault env path gluonDir k disk).1 !! p = disk !! p.
Proof. intros Hp. unfold initVault. destruct (env_write env) as [[e partial]|]; cbn; by rewrite lookup_insert_ne. Qed.

Lemma newVault_frame (env : venv) path gluonDir k (disk : gmap string bytes) p : p <> path -> (Vault.newVault env path gluonDir k disk).1 !! p = disk !! p /\
  forall v c, (Vault.newVault env path gluonDir k disk).2 = Ok (v, c) -> v_disk v = (Vault.newVault env path gluonDir k disk).1 /\ v_path v = path.
Proof.
  intros Hp. unfold Vault.newVault. set (d0 := match disk !! path with Some _ => _ | None => _ end).
  assert (H0 : d0.1 !! p = disk !! p) by (subst d0; destruct (disk !! path); [done|by apply initVault_frame]).
  destruct d0 as [disk0 init]. cbn [fst] in H0. rewrite <- H0. destruct init as [enc|e]; [|done]. destruct (env_read env) as [e|]; [done|].
  destruct (disk0 !! path) as [enc'|]; [|done]. destruct (unmarshalFile env (Some k) enc') as [d|[|corrupt]]; [split; [done|by intros v c [= <- <-]]|done|].
  assert (Hi := initVault_frame env path gluonDir k disk0 p Hp). destruct (initVault env path gluonDir k disk0) as [disk1 [enc1|e]]; cbn [fst] in Hi; [|done].
  split; [done|by intros v c [= <- <-]].
Qed.

Lemma modUnsafe_frame (env : venv) fn (v : Vault) p : p <> v_path v -> p <> tmp_path (v_path v) -> v_disk (modUnsafe env fn v).1 !! p = v_disk v !! p.
Proof.
  intros Hp Ht. unfold modUnsafe. destruct (unmarshalFile _ _ _) as [d|e]; [|done]. destruct (v_gcm v) as [k|]; [|done]. destruct (fn d) as [d'|e]; [|done].
  destruct (env_write env) as [[e partial]|]; [cbn; by rewrite lookup_insert_ne|]. destruct (env_rename env) as [e|]; cbn.
  - by rewrite lookup_insert_ne.
  - rewrite lookup_insert_ne, lookup_delete_ne, lookup_insert_ne by done. done.
Qed.

(** Opening touches no other file than the vault's and its temporary one. *)
Lemma New_frame (env : venv) dir gluonDir key (disk : gmap string bytes) p :
  p <> vault_path dir -> p <> tmp_path (vault_path dir) -> (New env dir gluonDir key disk).1 !! p = disk !! p.
Proof.
  intros Hp Ht. unfold New. fold (vault_path dir). destruct (env_mkdir env) as [e|]; [done|].
  destruct (newVault_frame env (vault_path dir) gluonDir (newGCM key) disk p Hp) as [H1 H2].
  destruct (Vault.newVault env (vault_path dir) gluonDir (newGCM key) disk) as [disk1 [[v c]|e]]; cbn [fst snd] in *; [|done].
  destruct (H2 v c eq_refl) as [Hdisk Hpath]. unfold setFeatureFlagStickyKeyIfEmpty, GetFeatureFlagStickyKey, getSafe, getUnsafe, mbind, eff_bind, reads.
  destruct (unmarshalFile env (v_gcm v) (v_enc v)) as [d|e]; cbn; [|by rewrite Hdisk]. destruct (negb _); cbn; [by rewrite Hdisk|].
  unfold modSafe. assert (Hm := modUnsafe_frame env (fun d => Ok (set_StickyKey (env_uuid env) d)) v p). rewrite Hpath, Hdisk in Hm. specialize (Hm Hp Ht).
  destruct (modUnsafe _ _ v) as [v' [[]|e]]; cbn in *; by rewrite Hm.
Qed.
End opening.

(** *** Paths *)

Lemma has_prefix_cancel a b c : has_prefix (a +:+ b) (a +:+ c) = has_prefix b c.
Proof. induction a as [|x a IH]; [done|]. change (String x a +:+ ?s) with (String x (a +:+ s)). cbn [has_prefix]. by rewrite Ascii.eqb_refl. Qed.

(** The files of a directory, and that they are not those of the other. *)
Definition main_file (dir name : string) : Prop := name = vault_path dir \/ name = settings_path dir \/ name = state_path dir.
Lemma main_file_outside dir name : main_file dir name -> below (insecure_dir dir) name = false.
Proof.
  unfold main_file, below, insecure_dir, vault_path, settings_path, state_path. intros [-> | [-> | ->]]; rewrite str_app_assoc, has_prefix_cancel; done.
Qed.
Lemma main_file_other dir name : main_file dir name ->
  name <> vault_path (insecure_dir dir) /\ name <> tmp_path (vault_path (insecure_dir dir)) /\ name <> settings_path (insecure_dir dir) /\ name <> state_path (insecure_dir dir).
Proof.
  unfold main_file, tmp_path, insecure_dir, vault_path, settings_path, state_path. intros [-> | [-> | ->]]; rewrite !str_app_assoc; (split_and!; intros H%str_app_inj; done).
Qed.

(** ** Starts *)

Section starts.
Context `{VC : VaultCodec} `{VL : !VaultCodecLaws} `{CH : CredHelper}.

(** An ordinary Linux system, on which files can be read and written. *)
Record calm (dir url : string) (env : kenv) : Prop := {
  calm_linux : linux env = true;
  calm_retry : retry_disabled env = false;
  calm_dir : settings_dir env = Ok dir;
  calm_gluon : exists g, gluon_dir env = Ok g;
  calm_url : hostURL env KeyChainName = url;
  calm_read : forall p, file_read env p = None;
  calm_write : forall p, file_write env p = None;
  calm_vault : quiet (env_vault env)
}.

(** At a start the keychain in use works; it is not there or does not answer; or no keychain can be used. *)
Inductive outlook : Type := Available | Missing | Without.
Definition start_with (h : string) (env : kenv) (o : outlook) : Prop :=
  match o with
  | Available => known env h = true /\ helper_new env h = None /\ helper_fault env h = None
  | Missing => (helpers env <> [] /\ known env h = false) \/
      (known env h = true /\ helper_new env h = None /\ exists e, helper_fault env h = Some e /\ IsErrKeychainNoItem (KWrap "could not get keychain item" e) = false)
  | Without => helpers env = [] \/ (known env h = true /\ exists e, helper_new env h = Some e /\ is_preferred e = false)
  end.

(** The vault of these users is encrypted with the key that the keychain [h] has, and [count] starts failed. *)
Record secured (dir url h : string) (key : bytes) (us : list UserData) (count : Z) (s : kstate) : Prop := {
  sec_settings : exists text skip, k_json s !! settings_path dir = Some text /\ unmarshal_settings text = Some (mkKeychainSettings h skip);
  sec_count : match k_json s !! state_path dir with None => count = 0 | Some text => unmarshal_state text = Some (mkKeychainState count) end;
  sec_key : exists user, help_Get (secretURL (mkKeychain h url) vaultSecretName) (k_secrets s h) = Ok (user, EncodeToString key);
  sec_vault : exists b, k_disk s !! vault_path dir = Some b /\ readable (newGCM key) b us
}.

Definition usable_key (key : bytes) : Prop := Forall is_byte key /\ key <> [].

Lemma known_helpers env h : known env h = true -> helpers env <> [].
Proof. unfold known. by destruct (helpers env). Qed.

Lemma reads_settings dir url h key us count s env : calm dir url env -> secured dir url h key us count s ->
  GetHelper env dir s = (s, Ok h) /\ GetKeychainFailedAttemptCount env dir s = (s, Ok count).
Proof.
  intros Hc Hs. split.
  - unfold GetHelper, LoadKeychainSettings, load, mbind, eff_bind, reads. destruct (sec_settings _ _ _ _ _ _ _ Hs) as (text & skip & -> & Hu). rewrite (calm_read _ _ _ Hc), Hu. done.
  - unfold GetKeychainFailedAttemptCount, LoadKeychainState, load, mbind, eff_bind. rewrite (calm_linux _ _ _ Hc). cbn [negb]. unfold reads. rewrite (calm_read _ _ _ Hc).
    assert (Hn := sec_count _ _ _ _ _ _ _ Hs). destruct (k_json s !! state_path dir) as [text|]; [by rewrite Hn|by subst count].
Qed.

(** What is done when the settings of the keychain were read. *)
Lemma loadVaultKey_loaded dir h count s env : GetHelper env dir s = (s, Ok h) -> GetKeychainFailedAttemptCount env dir s = (s, Ok count) ->
  loadVaultKey env dir s =
  ('(kc, keychainHelper) ← wrapping (KWrap "could not create keychain") (reads (fun _ => NewKeychain env h KeyChainName count));
   r ← attempt (GetVaultKey env kc);
   match r with
   | Ok key => mret (key, keychainHelper)
   | Err e => if IsErrKeychainNoItem e then key ← NewVaultKey env kc; mret (key, keychainHelper)
       else if ShouldRetryPreferredKeychain env keychainHelper && (count <? MaxFailedKeychainAttemptsLinux) then fails (PreferredKeychainRetryError count)
       else fails (KWrap "could not check for vault key" e)
   end) s.
Proof.
  intros H1 H2. unfold loadVaultKey. unfold mbind at 1, eff_bind at 1. unfold wrapping at 1. rewrite H1. cbv iota beta.
  unfold mbind at 1, eff_bind at 1. unfold wrapping at 1. rewrite H2. reflexivity.
Qed.

Lemma NewKeychain_known env h count : known env h = true -> NewKeychain env h KeyChainName count =
  match helper_new env h with Some e => Err e | None => Ok (mkKeychain h (hostURL env KeyChainName), h) end.
Proof. intros Hk. unfold NewKeychain. assert (Hh := known_helpers env h Hk). destruct (helpers env); [done|]. rewrite Hk. cbn. by rewrite Hk. Qed.

Lemma available_key dir url h key us count s env : calm dir url env -> secured dir url h key us count s -> usable_key key -> start_with h env Available ->
  loadVaultKey env dir s = (s, Ok (key, h)).
Proof.
  intros Hc Hs [Hb Hne] (Hk & Hnew & Hf). destruct (reads_settings _ _ _ _ _ _ _ _ Hc Hs) as [G1 G2]. rewrite (loadVaultKey_loaded _ _ _ _ _ G1 G2). unfold mbind at 1, eff_bind at 1. unfold wrapping, reads.
  rewrite NewKeychain_known, Hnew, (calm_url _ _ _ Hc) by done. cbv iota beta. unfold attempt, GetVaultKey, kc_Get, asks, wrapping, mbind, eff_bind, reads. cbn [kc_helper]. rewrite Hf.
  destruct (sec_key _ _ _ _ _ _ _ Hs) as (user & ->). cbv iota beta. assert (He := EncodeToString_nonempty key Hne). destruct (EncodeToString key) eqn:Hkey; [done|]. cbn. rewrite <- Hkey.
  by rewrite DecodeString_EncodeToString.
Qed.

Lemma should_retry dir url h env : calm dir url env -> h <> "" -> ShouldRetryPreferredKeychain env h = true.
Proof. intros Hc Hh. unfold ShouldRetryPreferredKeychain. rewrite (calm_retry _ _ _ Hc), (calm_linux _ _ _ Hc). cbn. by destruct (String.eqb_spec h ""). Qed.

Lemma missing_key dir url h key us count s env : calm dir url env -> secured dir url h key us count s -> h <> "" -> count < 2 -> start_with h env Missing ->
  exists e, loadVaultKey env dir s = (s, Err e) /\ is_preferred e = true.
Proof.
  intros Hc Hs Hh Hcount Hm. destruct (reads_settings _ _ _ _ _ _ _ _ Hc Hs) as [G1 G2]. rewrite (loadVaultKey_loaded _ _ _ _ _ G1 G2). assert (Hr := should_retry _ _ h _ Hc Hh). assert (Hlt : (count <? MaxFailedKeychainAttemptsLinux) = true) by (apply Z.ltb_lt; done).
  unfold mbind at 1, eff_bind at 1. unfold wrapping, reads. destruct Hm as [[Hne Hk]|(Hk & Hnew & e & Hf & He)].
  - unfold NewKeychain. destruct (helpers env); [done|]. rewrite Hk, Hr, Hlt. cbn. eexists. split; [reflexivity|done].
  - rewrite NewKeychain_known, Hnew by done. cbv iota beta. unfold attempt, GetVaultKey, kc_Get, asks, wrapping, mbind, eff_bind, reads. cbn [kc_helper]. rewrite Hf. cbv iota beta.
    rewrite He, Hr, Hlt. cbn. eexists. split; [reflexivity|done].
Qed.

Lemma without_key dir url h key us count s env : calm dir url env -> secured dir url h key us count s -> start_with h env Without ->
  exists e, loadVaultKey env dir s = (s, Err e) /\ is_preferred e = false.
Proof.
  intros Hc Hs Hm. destruct (reads_settings _ _ _ _ _ _ _ _ Hc Hs) as [G1 G2]. rewrite (loadVaultKey_loaded _ _ _ _ _ G1 G2). unfold mbind at 1, eff_bind at 1. unfold wrapping, reads. destruct Hm as [Hh|(Hk & e & Hnew & He)].
  - unfold NewKeychain. rewrite Hh. eexists. split; [reflexivity|done].
  - rewrite NewKeychain_known, Hnew by done. eexists. split; [reflexivity|done].
Qed.

Lemma bind_step {A B} (m : eff kstate kerr A) (f : A -> eff kstate kerr B) s s1 a : m s = (s1, Ok a) -> (m ≫= f) s = f a s1.
Proof. intros Hm. unfold mbind, eff_bind. by rewrite Hm. Qed.
Lemma bind_stop {A B} (m : eff kstate kerr A) (f : A -> eff kstate kerr B) s s1 e : m s = (s1, Err e) -> (m ≫= f) s = (s1, Err e).
Proof. intros Hm. unfold mbind, eff_bind. by rewrite Hm. Qed.

(** Only the files of the directory and the secrets matter. *)
Lemma secured_frame dir url h key us count (s s' : kstate) :
  (forall p, main_file dir p -> k_json s' !! p = k_json s !! p) -> k_disk s' !! vault_path dir = k_disk s !! vault_path dir -> k_secrets s' = k_secrets s ->
  secured dir url h key us count s -> secured dir url h key us count s'.
Proof.
  intros Hj Hd Hk [H1 H2 H3 H4]. split.
  - rewrite Hj by (right; by left). done.
  - rewrite Hj by (right; by right). done.
  - by rewrite Hk.
  - by rewrite Hd.
Qed.

Lemma settings_state dir : settings_path dir <> state_path dir.
Proof. by intros H%str_app_inj. Qed.

Lemma secured_count dir url h key us count count' (s : kstate) : i64_ok count' -> secured dir url h key us count s ->
  secured dir url h key us count' (set_json (state_path dir) (marshal_state (mkKeychainState count')) s).
Proof.
  intros Hok [H1 H2 H3 H4]. split; cbn [k_json k_disk k_secrets set_json]; [|rewrite lookup_insert_eq; by rewrite unmarshal_marshal_state|done|done].
  by rewrite lookup_insert_ne by (symmetry; apply settings_state).
Qed.

Lemma calm_save dir url env p text (s : kstate) : calm dir url env -> save env p text s = (set_json p text s, Ok ()).
Proof. intros Hc. unfold save, calls. by rewrite (calm_write _ _ _ Hc). Qed.

Lemma counts_failure dir url h key us count s env : calm dir url env -> secured dir url h key us count s -> 0 <= count < 2 ->
  exists s', IncrementKeychainFailedAttemptCount env dir s = (s', Ok ()) /\ secured dir url h key us (count + 1) s'.
Proof.
  intros Hc Hs Hcount. assert (Hok : i64_ok (count + 1)) by (unfold i64_ok; lia). eexists. split; [|by eapply (secured_count _ _ _ _ _ count)].
  destruct (reads_settings _ _ _ _ _ _ _ _ Hc Hs) as [_ H2]. unfold GetKeychainFailedAttemptCount, mbind at 1, eff_bind at 1 in H2.
  unfold IncrementKeychainFailedAttemptCount, mbind, eff_bind. destruct (LoadKeychainState env dir s) as [s1 [[n]|e]]; [|done]. injection H2 as -> ->. cbn [FailedAttempts].
  rewrite i64_id by done. unfold state_Save. rewrite (calm_linux _ _ _ Hc). cbn [negb]. by rewrite (calm_save _ _ _ _ _ _ Hc).
Qed.

(** The files of settings can be read. *)
Definition settings_fit (dir : string) (s : kstate) : Prop :=
  match k_json s !! settings_path dir with None => True | Some text => is_Some (unmarshal_settings text) end /\
  match k_json s !! state_path dir with None => True | Some text => is_Some (unmarshal_state text) end.

Lemma secured_fit dir url h key us count s : secured dir url h key us count s -> settings_fit dir s.
Proof.
  intros [(text & skip & Ht & Hu) H2 _ _]. split; [rewrite Ht; by eexists|]. destruct (k_json s !! state_path dir); [by eexists|done].
Qed.

(** The state after the keychain was remembered. *)
Definition remembered (dir h : string) (skip : bool) (s : kstate) : kstate :=
  set_json (state_path dir) (marshal_state (mkKeychainState 0)) (set_json (settings_path dir) (marshal_settings (mkKeychainSettings h skip)) s).

(** What is saved after the vault was opened. *)
Lemma remembers dir url h s env : calm dir url env -> h <> "" -> settings_fit dir s ->
  exists skip, (ignoring (SetHelper env dir h) ≫= fun _ => ignoring (ResetFailedKeychainAttemptCount env dir)) s = (remembered dir h skip s, Ok ()).
Proof.
  intros Hc Hh [Hset Hst]. assert (Hhelper : exists skip, SetHelper env dir h s = (set_json (settings_path dir) (marshal_settings (mkKeychainSettings h skip)) s, Ok ())).
  { unfold SetHelper. destruct (String.eqb_spec h ""); [done|]. unfold LoadKeychainSettings, load, mbind, eff_bind, reads. rewrite (calm_read _ _ _ Hc). unfold settings_Save.
    destruct (k_json s !! settings_path dir) as [text|]; [destruct Hset as [[h0 skip] ->]; exists skip|exists false]; apply (calm_save _ _ _ _ _ _ Hc). }
  destruct Hhelper as (skip & Hhelper). exists skip. set (s1 := set_json _ _ s) in *.
  assert (Hreset : ResetFailedKeychainAttemptCount env dir s1 = (remembered dir h skip s, Ok ())).
  { unfold ResetFailedKeychainAttemptCount, LoadKeychainState, load, ResetAndSave, state_Save. rewrite (calm_linux _ _ _ Hc). cbn [negb]. unfold mbind, eff_bind, reads. rewrite (calm_read _ _ _ Hc).
    subst s1. cbn [k_json set_json]. rewrite lookup_insert_ne by apply settings_state. destruct (k_json s !! state_path dir) as [text|]; [destruct Hst as [n ->]|]; apply (calm_save _ _ _ _ _ _ Hc). }
  unfold mbind, eff_bind, ignoring. rewrite Hhelper. cbn [fst]. by rewrite Hreset.
Qed.

Lemma secured_remembered dir url h key us skip (s : kstate) b :
  (exists user, help_Get (secretURL (mkKeychain h url) vaultSecretName) (k_secrets s h) = Ok (user, EncodeToString key)) ->
  k_disk s !! vault_path dir = Some b -> readable (newGCM key) b us -> secured dir url h key us 0 (remembered dir h skip s).
Proof.
  intros Hk Hb Hr. split; cbn [k_json k_disk k_secrets set_json remembered]; [|rewrite lookup_insert_eq; by rewrite unmarshal_marshal_state|done|by exists b].
  rewrite lookup_insert_ne by (symmetry; apply settings_state). rewrite lookup_insert_eq. eexists _, skip. split; [done|]. apply unmarshal_marshal_settings.
Qed.

Lemma cleans_up dir url h key us count s env : secured dir url h key us count s -> secured dir url h key us count (remove_insecure env (insecure_dir dir) s).1.
Proof.
  assert (Hkeeps : forall {A} (m : gmap string A) (keeps : string -> bool) p, main_file dir p -> filter (fun x => negb (below (insecure_dir dir) x.1) || keeps x.1 = true) m !! p = m !! p).
  { intros A m keeps p Hp. apply main_file_outside in Hp. destruct (m !! p) as [x|] eqn:Hx.
    - apply map_lookup_filter_Some. split; [done|]. cbn. by rewrite Hp.
    - apply map_lookup_filter_None. by left. }
  apply secured_frame; [|apply (Hkeeps _ _ _ _ (or_introl eq_refl))|done]. intros p Hp. by apply Hkeeps.
Qed.

(** With a key, the vault is opened and what is needed for the next start is saved. *)
Lemma newVault_opens dir url h key env (s s0 : kstate) g disk' v corrupt us b :
  calm dir url env -> gluon_dir env = Ok g -> h <> "" -> settings_fit dir s0 ->
  loadVaultKey env dir s = (s0, Ok (key, h)) -> New (env_vault env) dir g key (k_disk s0) = (disk', Ok (v, corrupt)) ->
  (exists user, help_Get (secretURL (mkKeychain h url) vaultSecretName) (k_secrets s0 h) = Ok (user, EncodeToString key)) ->
  disk' !! vault_path dir = Some b -> readable (newGCM key) b us ->
  exists s', app_newVault env s = (s', Ok (v, false, corrupt)) /\ secured dir url h key us 0 s'.
Proof.
  intros Hc Hg Hh Hfit Hload HN Hkey Hb Hr. unfold app_newVault.
  rewrite (bind_step _ _ s s dir) by (unfold wrapping, reads; by rewrite (calm_dir _ _ _ Hc)). cbv zeta.
  rewrite (bind_step _ _ s s0 (Ok (key, h))) by (unfold attempt; by rewrite Hload). cbv iota beta.
  rewrite (bind_step _ _ s0 s0 (key, false, h, dir)) by done. cbv iota beta. rewrite (bind_step _ _ s0 s0 g) by (unfold wrapping, reads; by rewrite Hg).
  set (s1 := mkKstate disk' (k_json s0) (k_secrets s0) (k_insecure s0)). rewrite (bind_step _ _ s0 s1 (v, corrupt)).
  2: { unfold wrapping, open_vault. rewrite HN. by destruct (env_mkdir (env_vault env)). }
  cbv iota beta. rewrite (calm_linux _ _ _ Hc). destruct (remembers dir url h s1 env Hc Hh Hfit) as (skip & Hrem). rewrite (bind_step _ _ s1 _ () Hrem).
  assert (Hs2 := secured_remembered dir url h key us skip s1 b Hkey Hb Hr). set (s2 := remembered dir h skip s1) in *. cbn [orb].
  destruct (deletion_disabled env || false); [by exists s2|]. rewrite (bind_step _ _ s2 s2 (k_insecure s2)) by done. destruct (negb (k_insecure s2)); [by exists s2|].
  assert (Hs3 := cleans_up _ _ _ _ _ _ _ env Hs2). by exists (remove_insecure env (insecure_dir dir) s2).1.
Qed.

Lemma start_available dir url h key us count s env : calm dir url env -> secured dir url h key us count s -> usable_key key -> h <> "" -> start_with h env Available ->
  exists v s', app_newVault env s = (s', Ok (v, false, None)) /\ readable (newGCM key) (v_enc v) us /\ secured dir url h key us 0 s'.
Proof.
  intros Hc Hs Hkey Hh Ha. destruct (calm_gluon _ _ _ Hc) as (g & Hg). destruct (sec_vault _ _ _ _ _ _ _ Hs) as (b & Hb & Hread).
  destruct (New_keeps (env_vault env) dir g key us (k_disk s) b (calm_vault _ _ _ Hc) Hb Hread) as (disk' & v & b' & HN & Hv & Hb' & Hread').
  destruct (newVault_opens dir url h key env s s g disk' v None us b' Hc Hg Hh (secured_fit _ _ _ _ _ _ _ Hs) (available_key _ _ _ _ _ _ _ _ Hc Hs Hkey Ha) HN (sec_key _ _ _ _ _ _ _ Hs) Hb' Hread') as (s' & Hn & Hs').
  by exists v, s'.
Qed.

Lemma start_missing dir url h key us count s env : calm dir url env -> secured dir url h key us count s -> h <> "" -> 0 <= count < 2 -> start_with h env Missing ->
  exists e s', app_newVault env s = (s', Err e) /\ is_preferred e = true /\ secured dir url h key us (count + 1) s'.
Proof.
  intros Hc Hs Hh Hcount Hm. destruct (missing_key _ _ _ _ _ _ _ _ Hc Hs Hh ltac:(lia) Hm) as (e & Hk & He). destruct (counts_failure _ _ _ _ _ _ _ _ Hc Hs Hcount) as (s1 & Hi & Hs1).
  exists e, s1. split; [|done]. unfold app_newVault.
  rewrite (bind_step _ _ s s dir) by (unfold wrapping, reads; by rewrite (calm_dir _ _ _ Hc)). cbv zeta. rewrite (bind_step _ _ s s (Err e)) by (unfold attempt; by rewrite Hk). cbv iota beta. rewrite He.
  apply bind_stop. unfold mbind, eff_bind, ignoring. by rewrite Hi.
Qed.

Lemma reset_elsewhere dir url env (s : kstate) d : calm dir url env -> (ignoring (ResetFailedKeychainAttemptCount env d) s).2 = Ok () /\
  exists text, (ignoring (ResetFailedKeychainAttemptCount env d) s).1 = s \/ (ignoring (ResetFailedKeychainAttemptCount env d) s).1 = set_json (state_path d) text s.
Proof.
  intros Hc. split; [done|]. exists (marshal_state (mkKeychainState 0)). unfold ignoring, ResetFailedKeychainAttemptCount, ResetAndSave, state_Save, LoadKeychainState, load. rewrite (calm_linux _ _ _ Hc). cbn [negb].
  unfold mbind, eff_bind, reads. rewrite (calm_read _ _ _ Hc). destruct (k_json s !! state_path d) as [text|].
  - destruct (unmarshal_state text); [|by left]. rewrite (calm_save _ _ _ _ _ _ Hc). by right.
  - rewrite (calm_save _ _ _ _ _ _ Hc). by right.
Qed.

Lemma start_without dir url h key us count s env : calm dir url env -> secured dir url h key us count s -> start_with h env Without ->
  secured dir url h key us count (app_newVault env s).1 /\ forall v i c, (app_newVault env s).2 = Ok (v, i, c) -> i = true.
Proof.
  intros Hc Hs Hm. destruct (without_key _ _ _ _ _ _ _ _ Hc Hs Hm) as (e & Hk & He). destruct (calm_gluon _ _ _ Hc) as (g & Hg).
  destruct (app_newVault env s) as [s' r] eqn:Hnv. cbn [fst snd]. revert Hnv. unfold app_newVault.
  rewrite (bind_step _ _ s s dir) by (unfold wrapping, reads; by rewrite (calm_dir _ _ _ Hc)). cbv zeta. rewrite (bind_step _ _ s s (Err e)) by (unfold attempt; by rewrite Hk). cbv iota beta. rewrite He.
  rewrite (bind_step _ _ s s ([], true, "", insecure_dir dir)) by done. cbv iota beta. rewrite (bind_step _ _ s s g) by (unfold wrapping, reads; by rewrite Hg).
  destruct (main_file_other dir (vault_path dir) (or_introl eq_refl)) as (O1 & O2 & _). assert (Hframe := New_frame (env_vault env) (insecure_dir dir) g [] (k_disk s) _ O1 O2).
  unfold mbind at 1, eff_bind at 1. unfold wrapping, open_vault. destruct (New (env_vault env) (insecure_dir dir) g [] (k_disk s)) as [disk [[v c]|f]]; cbn [fst] in Hframe.
  2: { intros [= <- <-]. split; [|done]. apply (secured_frame _ _ _ _ _ _ s); done. }
  set (made := match env_mkdir _ with Some _ => _ | None => _ end). set (s1 := mkKstate disk (k_json s) (k_secrets s) made).
  assert (Hs1 : secured dir url h key us count s1) by (apply (secured_frame _ _ _ _ _ _ s); done). clearbody s1. cbv iota beta.
  rewrite (calm_linux _ _ _ Hc). destruct (reset_elsewhere dir url env s1 (insecure_dir dir) Hc) as (Hok & text & Hreset).
  destruct (ignoring (ResetFailedKeychainAttemptCount env (insecure_dir dir)) s1) as [s2 r2] eqn:Hr2. cbn [fst snd] in *. subst r2.
  rewrite (bind_step _ _ s1 s2 ()) by exact Hr2.
  rewrite orb_true_r. intros [= <- <-]. split; [|by intros v' i c' [= <- <- <-]]. destruct Hreset as [->| ->]; [done|].
  apply (secured_frame _ _ _ _ _ _ s1); [|done|done|done]. intros p Hp. cbn [k_json set_json]. rewrite lookup_insert_ne; [done|]. apply not_eq_sym, (main_file_other dir p Hp).
Qed.

(** One start after another. *)
Fixpoint start_all (envs : list kenv) (s : kstate) : kstate := match envs with [] => s | env :: envs => start_all envs (app_newVault env s).1 end.

(** The keychain is not missing at three starts in a row, leaving out those at which there is none at all. *)
Fixpoint patient (count : Z) (os : list outlook) : Prop :=
  match os with [] => True | Available :: os => patient 0 os | Missing :: os => count < 2 /\ patient (count + 1) os | Without :: os => patient count os end.

Lemma start_all_secured dir url h key us envs os : usable_key key -> h <> "" -> Forall2 (fun env o => calm dir url env /\ start_with h env o) envs os ->
  forall count s, secured dir url h key us count s -> 0 <= count -> patient count os -> exists count', secured dir url h key us count' (start_all envs s).
Proof.
  intros Hkey Hh. induction 1 as [|env o envs os [Hc Ho] _ IH]; intros count s Hs Hcount Hp; [by exists count|]. cbn [start_all]. destruct o; cbn [patient] in Hp.
  - destruct (start_available _ _ _ _ _ _ _ _ Hc Hs Hkey Hh Ho) as (v & s' & -> & _ & Hs'). by apply (IH 0 s').
  - destruct Hp as [Hlt Hp]. destruct (start_missing _ _ _ _ _ _ _ _ Hc Hs Hh ltac:(lia) Ho) as (e & s' & -> & _ & Hs'). apply (IH (count + 1) s'); [done|lia|done].
  - destruct (start_without _ _ _ _ _ _ _ _ Hc Hs Ho) as [Hs' _]. by apply (IH count).
Qed.

(** C9: The users of the vault are there after any number of starts at which the keychain is late or there is none, unless it
    is missing three times without a start that finds it: the next start at which the keychain works opens the vault with them, and
    not a new one. *)
Theorem vault_survives_starts (dir url h : string) (key : bytes) (us : list UserData) (count : Z) (s : kstate) (envs : list kenv) (os : list outlook) (env : kenv) :
  secured dir url h key us count s -> usable_key key -> h <> "" -> 0 <= count ->
  Forall2 (fun env o => calm dir url env /\ start_with h env o) envs os -> patient count os -> calm dir url env -> start_with h env Available ->
  exists v s', app_newVault env (start_all envs s) = (s', Ok (v, false, None)) /\ readable (newGCM key) (v_enc v) us.
Proof.
  intros Hs Hkey Hh Hcount Hall Hp Hc Ha. destruct (start_all_secured _ _ _ _ _ _ _ Hkey Hh Hall _ _ Hs Hcount Hp) as (count' & Hs').
  destruct (start_available _ _ _ _ _ _ _ _ Hc Hs' Hkey Hh Ha) as (v & s' & Hn & Hr & _). by exists v, s'.
Qed.

(** A start at which the keychain is missing for the first or second time ends with an error that says so, and one at which there is no
    keychain opens the vault that is not protected; neither touches the vault. *)
Theorem failed_start_keeps (dir url h : string) (key : bytes) (us : list UserData) (count : Z) (s : kstate) (env : kenv) :
  secured dir url h key us count s -> h <> "" -> 0 <= count -> calm dir url env ->
  (count < 2 -> start_with h env Missing -> exists e s', app_newVault env s = (s', Err e) /\ is_preferred e = true /\ secured dir url h key us (count + 1) s') /\
  (start_with h env Without -> secured dir url h key us count (app_newVault env s).1 /\ forall v i c, (app_newVault env s).2 = Ok (v, i, c) -> i = true).
Proof.
  intros Hs Hh Hcount Hc. split; [intros Hlt; apply start_missing; [done..|lia]|by apply start_without].
Qed.


(** *** New keys *)

(** The keychain has no key, and takes a new one. *)
Record takes_key (url h : string) (key : bytes) (s : kstate) (hs : hstate) : Prop := {
  take_get : exists e, help_Get (secretURL (mkKeychain h url) vaultSecretName) (k_secrets s h) = Err e /\ IsErrKeychainNoItem (KWrap "could not get keychain item" e) = true;
  take_add : help_Add (secretURL (mkKeychain h url) vaultSecretName) vaultSecretName (EncodeToString key) (k_secrets s h) = (hs, None);
  take_kept : exists user, help_Get (secretURL (mkKeychain h url) vaultSecretName) hs = Ok (user, EncodeToString key)
}.

Lemma made_key dir url h0 h key count s env hs : calm dir url env -> GetHelper env dir s = (s, Ok h0) -> GetKeychainFailedAttemptCount env dir s = (s, Ok count) ->
  known env h0 = false -> ShouldRetryPreferredKeychain env h0 && (count <? MaxFailedKeychainAttemptsLinux) = false ->
  defaultHelper env = h -> start_with h env Available -> token32 env = Ok key -> takes_key url h key s hs ->
  exists s0, loadVaultKey env dir s = (s0, Ok (key, h)) /\ k_disk s0 = k_disk s /\ k_json s0 = k_json s /\ k_secrets s0 h = hs.
Proof.
  intros Hc H1 H2 Hk0 Hretry Hdef (Hk & Hnew & Hf) Htok [(e & Hget & He) Hadd _]. rewrite (loadVaultKey_loaded _ _ _ _ _ H1 H2). unfold mbind at 1, eff_bind at 1. unfold wrapping, reads.
  unfold NewKeychain. assert (Hhs := known_helpers env h Hk). destruct (helpers env); [done|]. rewrite Hk0, Hretry, Hdef. cbn [mbind result_bind]. rewrite Hk, Hnew, (calm_url _ _ _ Hc). cbn [negb]. cbv iota beta.
  unfold attempt, GetVaultKey, kc_Get, asks, wrapping, mbind, eff_bind, reads. cbn [kc_helper]. rewrite Hf, Hget. cbv iota beta. rewrite He.
  unfold NewVaultKey, kc_Put, tells, calls, wrapping, mbind, eff_bind, reads. cbn [kc_helper]. rewrite Htok. cbv iota beta. rewrite Hf, Hadd. cbv iota beta. eexists. split; [reflexivity|]. cbn. split; [done|]. split; [done|]. by rewrite String.eqb_refl.
Qed.

Definition fresh (dir : string) (s : kstate) : Prop := (forall p, main_file dir p -> k_json s !! p = None) /\ k_disk s !! vault_path dir = None.

(** After the first start the vault has a key that the default keychain keeps, and no users: it is what
    [vault_survives_starts] begins with. *)
Theorem first_start_secures (dir url h : string) (key : bytes) (s : kstate) (env : kenv) (hs : hstate) :
  fresh dir s -> calm dir url env -> defaultHelper env = h -> start_with h env Available -> known env "" = false -> h <> "" -> token32 env = Ok key -> takes_key url h key s hs ->
  exists v s', app_newVault env s = (s', Ok (v, false, None)) /\ readable (newGCM key) (v_enc v) [] /\ secured dir url h key [] 0 s'.
Proof.
  intros [Hj Hd] Hc Hdef Ha Hempty Hh Htok Ht. destruct (calm_gluon _ _ _ Hc) as (g & Hg).
  assert (Js : k_json s !! settings_path dir = None) by (apply Hj; right; by left). assert (Jc : k_json s !! state_path dir = None) by (apply Hj; right; by right).
  assert (H1 : GetHelper env dir s = (s, Ok "")) by (unfold GetHelper, LoadKeychainSettings, load, mbind, eff_bind, reads; by rewrite (calm_read _ _ _ Hc), Js).
  assert (H2 : GetKeychainFailedAttemptCount env dir s = (s, Ok 0)) by (unfold GetKeychainFailedAttemptCount, LoadKeychainState, load, mbind, eff_bind, reads; rewrite (calm_linux _ _ _ Hc); cbn [negb]; by rewrite (calm_read _ _ _ Hc), Jc).
  assert (Hretry : ShouldRetryPreferredKeychain env "" && (0 <? MaxFailedKeychainAttemptsLinux) = false) by (unfold ShouldRetryPreferredKeychain; by rewrite andb_false_r).
  destruct (made_key dir url "" h key 0 s env hs Hc H1 H2 Hempty Hretry Hdef Ha Htok Ht) as (s0 & Hload & D0 & J0 & S0).
  destruct (New_replaces (env_vault env) dir g key (k_disk s0) None (calm_vault _ _ _ Hc)) as (disk' & v & b & HN & Hv & Hb & Hr); [by rewrite D0, Hd|].
  destruct (newVault_opens dir url h key env s s0 g disk' v None [] b Hc Hg Hh) as (s' & Hn & Hs'); [by split; rewrite J0, ?Js, ?Jc|done|done|rewrite S0; apply (take_kept _ _ _ _ _ Ht)|done|done|].
  by exists v, s'.
Qed.

(** After two starts at which the keychain in use was not there, a third one takes the default keychain: a new key is made, with which the
    vault cannot be decrypted, and a new one without users is in its place. *)
Theorem third_failure_starts_over (dir url h d : string) (key key' : bytes) (us : list UserData) (count : Z) (s : kstate) (env : kenv) (hs : hstate) (corrupt : verr) :
  secured dir url h key us count s -> calm dir url env -> known env h = false -> 2 <= count -> defaultHelper env = d -> d <> "" -> start_with d env Available ->
  token32 env = Ok key' -> takes_key url d key' s hs -> (forall b, k_disk s !! vault_path dir = Some b -> unmarshalFile (env_vault env) (Some (newGCM key')) b = Err (Fails corrupt)) ->
  exists v s', app_newVault env s = (s', Ok (v, false, Some corrupt)) /\ readable (newGCM key') (v_enc v) [] /\ secured dir url d key' [] 0 s'.
Proof.
  intros Hs Hc Hk Hcount Hdef Hd Ha Htok Ht Hcor. destruct (calm_gluon _ _ _ Hc) as (g & Hg). destruct (reads_settings _ _ _ _ _ _ _ _ Hc Hs) as [H1 H2].
  assert (Hretry : ShouldRetryPreferredKeychain env h && (count <? MaxFailedKeychainAttemptsLinux) = false) by (assert ((count <? MaxFailedKeychainAttemptsLinux) = false) as -> by (by apply Z.ltb_ge); by rewrite andb_false_r).
  destruct (made_key dir url h d key' count s env hs Hc H1 H2 Hk Hretry Hdef Ha Htok Ht) as (s0 & Hload & D0 & J0 & S0). destruct (sec_vault _ _ _ _ _ _ _ Hs) as (b0 & Hb0 & _).
  destruct (New_replaces (env_vault env) dir g key' (k_disk s0) (Some corrupt) (calm_vault _ _ _ Hc)) as (disk' & v & b & HN & Hv & Hb & Hr); [rewrite D0, Hb0; exists corrupt; split; [by apply Hcor|done]|].
  destruct (newVault_opens dir url d key' env s s0 g disk' v (Some corrupt) [] b Hc Hg Hd) as (s' & Hn & Hs'); [|done|done|rewrite S0; apply (take_kept _ _ _ _ _ Ht)|done|done|by exists v, s'].
  assert (Hfit := secured_fit _ _ _ _ _ _ _ Hs). unfold settings_fit in *. by rewrite J0.
Qed.

(** A file of settings that cannot be read is not taken for the default settings: the start goes on without the vault. *)
Lemma invalid_settings_unprotected dir url s env text : calm dir url env -> k_json s !! settings_path dir = Some text -> unmarshal_settings text = None ->
  exists e, loadVaultKey env dir s = (s, Err e) /\ is_preferred e = false.
Proof.
  intros Hc Ht Hu. eexists. split; [unfold loadVaultKey; apply bind_stop; unfold wrapping, GetHelper, LoadKeychainSettings, load, mbind, eff_bind, reads; rewrite (calm_read _ _ _ Hc), Ht, Hu; reflexivity|done].
Qed.

End starts.

(** ** Examples *)

Section examples.

(** Programs that keep secrets in a map; not found is one of their errors. *)
#[local] Instance ex_helper : CredHelper := {
  hstate := gmap string (string * bytes);
  help_Add := fun url user secret h => (<[url := (user, secret)]> h, None);
  help_Get := fun url h => match h !! url with Some x => Ok x | None => Err (KHelper "credentials not found in native keychain") end;
  help_Delete := fun url h => (delete url h, None);
  help_List := fun h => Ok ((fun '(url, x) => (url, x.1)) <$> map_to_list h);
  IsErrCredentialsNotFound := fix is_not_found e := match e with KHelper msg => String.eqb msg "credentials not found in native keychain" | KWrap _ e => is_not_found e | _ => false end
}.

(** A cipher that writes its key before the data. *)
#[local] Instance ex_keyed : VaultCodec := {
  gcm := bytes;
  newGCM := fun k => k;
  NonceSize := 1;
  gcm_Seal := fun k _ dec => Z.of_nat (length k) :: k ++ dec;
  gcm_Open := fun k _ b => match b with n :: c => if bool_decide (n = Z.of_nat (length k)) && bool_decide (take (length k) c = k) then Some (drop (length k) c) else None | [] => None end;
  marshal_File := @marshal_File ex_codec; unmarshal_File := @unmarshal_File ex_codec;
  marshal_Data := @marshal_Data ex_codec; unmarshal_Data := @unmarshal_Data ex_codec;
  marshal_2_4_x := @marshal_2_4_x ex_codec; unmarshal_2_4_x := @unmarshal_2_4_x ex_codec; unmarshal_2_3_x := @unmarshal_2_3_x ex_codec;
  emailHashString := fun s => s
}.

#[local] Instance ex_keyed_laws : VaultCodecLaws.
Proof.
  split; [|apply (@unmarshal_marshal_File ex_codec ex_laws)|apply (@unmarshal_marshal_Data ex_codec ex_laws)|apply (@unmarshal_marshal_2_4_x ex_codec ex_laws)].
  intros k nonce dec _. cbn. rewrite take_app_length, drop_app_length. by rewrite !bool_decide_eq_true_2.
Qed.

Definition ex_url : string := "protonmail/bridge-v3/users".
Definition ex_kenv (names : list string) (token : bytes) : kenv :=
  mkKenv true false false names "pass" (fun _ => None) (fun _ => None) (fun name => "protonmail/" +:+ name +:+ "/users") (Ok "/d") (Ok "/g") (fun _ => None) (fun _ => None) None (Ok token) ex_env.

Lemma ex_calm names token : calm "/d" ex_url (ex_kenv names token).
Proof. split; try done. by exists "/g". Qed.

Definition ex_user : UserData := newDefaultUser ex_env "u" "me" "me@pm.me" "uid" "ref" [1] [2].
Definition ex_file : bytes := marshalFile ex_env (newGCM [9; 8; 7]) (set_Users [ex_user] (newDefaultData ex_env "/g")).
Definition ex_start : kstate :=
  mkKstate (<[vault_path "/d" := ex_file]> ∅) (<[settings_path "/d" := marshal_settings (mkKeychainSettings "secretservice" false)]> ∅)
    (fun h => if String.eqb h "secretservice" then <[ex_url +:+ "/" +:+ vaultSecretName := (vaultSecretName, EncodeToString [9; 8; 7])]> ∅ else ∅) false.

Lemma ex_secured count text : unmarshal_state text = Some (mkKeychainState count) -> secured "/d" ex_url "secretservice" [9; 8; 7] [ex_user] count (set_json (state_path "/d") text ex_start).
Proof.
  intros Ht. split.
  - eexists _, false. split; [cbn; rewrite lookup_insert_ne by done; by rewrite lookup_insert_eq|apply unmarshal_marshal_settings].
  - cbn. by rewrite lookup_insert_eq.
  - exists vaultSecretName. done.
  - exists ex_file. split; [done|]. apply (readable_marshalFile (VC := ex_keyed) ex_env (newGCM [9; 8; 7]) (set_Users [ex_user] (newDefaultData ex_env "/g"))). done.
Qed.

Lemma ex_usable : usable_key [9; 8; 7].
Proof. split; [|done]. repeat (constructor; [unfold is_byte; lia|]). constructor. Qed.

Definition ex_here : kenv := ex_kenv ["secretservice"; "pass"] [1; 1].
Definition ex_late : kenv := ex_kenv ["pass"] [1; 1].
Definition ex_none : kenv := ex_kenv [] [1; 1].
Definition ex_zero : string := marshal_state (mkKeychainState 0).
Definition ex_two : string := marshal_state (mkKeychainState 2).

Lemma vault_survives_starts_witness :
  exists v s', app_newVault ex_here (start_all [ex_late; ex_none; ex_late; ex_here; ex_late] (set_json (state_path "/d") ex_zero ex_start)) = (s', Ok (v, false, None)) /\ readable (newGCM [9; 8; 7]) (v_enc v) [ex_user].
Proof.
  apply (vault_survives_starts "/d" ex_url "secretservice" [9; 8; 7] [ex_user] 0 (set_json (state_path "/d") ex_zero ex_start)
    [ex_late; ex_none; ex_late; ex_here; ex_late] [Missing; Without; Missing; Available; Missing] ex_here).
  - apply ex_secured. by apply unmarshal_marshal_state.
  - exact ex_usable.
  - done.
  - done.
  - apply Forall2_cons; split; [split; [apply ex_calm|by left]|]. apply Forall2_cons; split; [split; [apply ex_calm|by left]|]. apply Forall2_cons; split; [split; [apply ex_calm|by left]|].
    apply Forall2_cons; split; [split; [apply ex_calm|done]|]. apply Forall2_cons; split; [split; [apply ex_calm|by left]|]. done.
  - cbn. lia.
  - apply ex_calm.
  - done.
Defined.

Lemma failed_start_keeps_witness : exists e s', app_newVault ex_late (set_json (state_path "/d") ex_zero ex_start) = (s', Err e) /\ is_preferred e = true /\ secured "/d" ex_url "secretservice" [9; 8; 7] [ex_user] 1 s'.
Proof.
  apply (failed_start_keeps "/d" ex_url "secretservice" [9; 8; 7] [ex_user] 0 (set_json (state_path "/d") ex_zero ex_start) ex_late); [|done|done|apply ex_calm|done|by left].
  apply ex_secured. by apply unmarshal_marshal_state.
Defined.

Lemma ex_takes key (s : kstate) : k_secrets s "pass" = ∅ -> takes_key ex_url "pass" key s (<[ex_url +:+ "/" +:+ vaultSecretName := (vaultSecretName, EncodeToString key)]> ∅).
Proof.
  intros Hs. split; rewrite ?Hs; [by eexists|done|]. exists vaultSecretName. done.
Qed.

Lemma first_start_secures_witness : exists v s', app_newVault ex_late (mkKstate ∅ ∅ (fun _ => ∅) false) = (s', Ok (v, false, None)) /\ readable (newGCM [1; 1]) (v_enc v) [] /\ secured "/d" ex_url "pass" [1; 1] [] 0 s'.
Proof.
  apply (first_start_secures "/d" ex_url "pass" [1; 1] (mkKstate ∅ ∅ (fun _ => ∅) false) ex_late (<[ex_url +:+ "/" +:+ vaultSecretName := (vaultSecretName, EncodeToString [1; 1])]> ∅));
    [split; [intros p _; apply lookup_empty|apply lookup_empty]|apply ex_calm|done|done|done|done|done|by apply ex_takes].
Defined.

Lemma ex_other_key b : k_disk (set_json (state_path "/d") ex_two ex_start) !! vault_path "/d" = Some b -> unmarshalFile ex_env (Some (newGCM [1; 1])) b = Err (Fails ErrDecryptFailed).
Proof.
  intros Hb. change (Some ex_file = Some b) in Hb. injection Hb as <-. unfold ex_file, marshalFile, unmarshalFile. rewrite (@unmarshal_marshal_File ex_keyed ex_keyed_laws). reflexivity.
Qed.

Lemma third_failure_starts_over_witness :
  exists v s', app_newVault ex_late (set_json (state_path "/d") ex_two ex_start) = (s', Ok (v, false, Some ErrDecryptFailed)) /\ readable (newGCM [1; 1]) (v_enc v) [] /\ secured "/d" ex_url "pass" [1; 1] [] 0 s'.
Proof.
  apply (third_failure_starts_over "/d" ex_url "secretservice" "pass" [9; 8; 7] [1; 1] [ex_user] 2 (set_json (state_path "/d") ex_two ex_start) ex_late
    (<[ex_url +:+ "/" +:+ vaultSecretName := (vaultSecretName, EncodeToString [1; 1])]> ∅) ErrDecryptFailed);
    [apply ex_secured; by apply unmarshal_marshal_state|apply ex_calm|done|lia|done|done|done|done|by apply ex_takes|exact ex_other_key].
Defined.

Example key_text : EncodeToString [9; 8; 7; 255] = [67; 81; 103; 72; 47; 119; 61; 61].
Proof. reflexivity. Qed.

(** The comment of [LoadKeychainSettings] says that invalid data gives the default settings. *)
Example invalid_settings : (loadVaultKey ex_here "/d" (mkKstate ∅ (<[settings_path "/d" := "{"]> ∅) (fun _ => ∅) false)).2 =
  Err (KWrap "could not get keychain helper" (KWrap "file has invalid data" (KOther "json"))).
Proof. vm_compute. reflexivity. Qed.

End examples.
