(* ===== verification/Migration.v ===== *)
(** * Migration from version 2 (internal/app/migration.go, internal/legacy/credentials)

    At the first start the vault takes over what an older bridge left: its settings, from a file,
    and its accounts, which are entries of the keychain. An account that cannot be taken over is reported and does not keep
    the others from being migrated.

    The vault is that of Vault and the keychain that of VaultKey. *)

From Stdlib Require Import QArith.
From S2P Require Import Prelude.
From S2P Require Import Strings.
From S2P Require Import Effects.
From S2P Require Import UserIdentity.
From S2P Require Import Vault.
From S2P Require Import VaultKey.

(** ** Credentials (internal/legacy/credentials/credentials.go) *)

Definition nul : Ascii.ascii := Ascii.ascii_of_nat 0.
Definition semicolon : Ascii.ascii := Ascii.ascii_of_nat 59.
Definition colon : Ascii.ascii := Ascii.ascii_of_nat 58.

(** Text as bytes, and bytes as text. *)
Definition bytes_of (s : string) : bytes := (fun c => Z.of_nat (Ascii.nat_of_ascii c)) <$> String.list_ascii_of_string s.
Definition text_of (b : bytes) : string := String.string_of_list_ascii ((fun n => Ascii.ascii_of_nat (Z.to_nat n)) <$> b).

(** [strings.Join]. *)
Fixpoint Join (l : list string) (sep : Ascii.ascii) : string :=
  match l with [] => "" | [x] => x | x :: l => x +:+ String sep (Join l sep) end.

Record Credentials : Type := mkCredentials {
  c_UserID : string; c_Name : string; c_Emails : string; c_APIToken : string; c_MailboxPassword : bytes;
  c_BridgePassword : string; c_Version : string; c_Timestamp : Z; c_IsHidden : bool; c_IsCombinedAddressMode : bool
}.

(** [fmt.Sscan] into a number. *)
Class ScanInt : Type := { Sscan : string -> option Z }.
Class ScanIntLaws `{ScanInt} : Prop := { Sscan_Sprint : forall z, i64_ok z -> Sscan (Json.print_Z z "") = Some z }.

Definition flag_text (b : bool) : string := if b then "1" else "".
Definition Marshal (c : Credentials) : bytes :=
  EncodeToString (bytes_of (Join [c_Name c; c_Emails c; c_APIToken c; text_of (c_MailboxPassword c); c_BridgePassword c; c_Version c;
    Json.print_Z (c_Timestamp c) ""; flag_text (c_IsHidden c); flag_text (c_IsCombinedAddressMode c)] nul)).

Definition ErrWrongFormat : kerr := KOther "malformed credentials".

(** The fields that are not in the format of the importer keep what the new credentials have. *)
Definition Unmarshal `{ScanInt} (userID : string) (secret : bytes) : result kerr Credentials :=
  match DecodeString secret with
  | None => Err (KOther "base64")
  | Some b =>
      match Split nul (text_of b) with
      | [name; emails; token; password; bridgePassword; version; timestamp; hidden; combined] =>
          Ok (mkCredentials userID name emails token (bytes_of password) bridgePassword version (default 0 (Sscan timestamp)) (String.eqb hidden "1") (String.eqb combined "1"))
      | [name; emails; token; password; version; timestamp] =>
          Ok (mkCredentials userID name emails token (bytes_of password) "" version (default 0 (Sscan timestamp)) false false)
      | _ => Err ErrWrongFormat
      end
  end.

Definition EmailList (c : Credentials) : list string := Split semicolon (c_Emails c).
Definition SplitAPIToken (c : Credentials) : option (string * string) :=
  match Split colon (c_APIToken c) with [a; b] => Some (a, b) | _ => None end.

(** ** Errors and state *)

Inductive merr : Type := MKeychain (e : kerr) | MVault (f : fault) | MOther (msg : string) | MWrap (msg : string) (e : merr).
Fixpoint panics (e : merr) : bool := match e with MVault Panics => true | MWrap _ e => panics e | _ => false end.

(** The settings of the older bridge; a field that is not in the file is zero. Reading numbers and truth values from text is
    a parameter. *)
Record prefs : Type := mkPrefs {
  p_IMAPPort : Z; p_SMTPPort : Z; p_SMTPSSL : bool; p_AutoUpdate : bool; p_UpdateChannel : string; p_UpdateRollout : Q;
  p_FirstStart : bool; p_ColorScheme : string; p_LastVersion : option string; p_Autostart : bool; p_AllowProxy : bool; p_ShowAllMail : bool; p_Cookies : string
}.
Class PrefsText : Type := { read_prefs : string -> option prefs }.

Section migration.
Context `{VC : VaultCodec} `{CH : CredHelper} `{SI : ScanInt} `{SF : SortFunc}.

Notation M := (eff (kstate * Vault) merr).

Definition on_keychain {A} (m : eff kstate kerr A) : M A := fun s =>
  match m s.1 with (ks, Ok a) => ((ks, s.2), Ok a) | (ks, Err e) => ((ks, s.2), Err (MKeychain e)) end.
Definition on_vault {A} (m : eff Vault fault A) : M A := fun s =>
  match m s.2 with (v, Ok a) => ((s.1, v), Ok a) | (v, Err e) => ((s.1, v), Err (MVault e)) end.

(** ** The store (internal/legacy/credentials/store.go) *)

(** A secret that cannot be read is removed. *)
Definition store_get (env : kenv) (kc : Keychain) (userID : string) : eff kstate kerr Credentials :=
  '(_, secret) ← kc_Get env kc userID;
  match secret with
  | [] => fails (KOther "secret is empty")
  | _ => match Unmarshal userID secret with
         | Ok c => mret c
         | Err e => ignoring (kc_Delete env kc userID) ≫= fun _ => fails e
         end
  end.

Fixpoint list_credentials (env : kenv) (kc : Keychain) (ids : list string) : eff kstate kerr (list Credentials) :=
  match ids with
  | [] => mret []
  | id :: ids =>
      r ← attempt (store_get env kc id);
      rest ← list_credentials env kc ids;
      mret (match r with Ok c => if c_Timestamp c =? 0 then rest else c :: rest | Err _ => rest end)
  end.
Definition store_List (env : kenv) (kc : Keychain) : eff kstate kerr (list string) :=
  allUserIDs ← kc_List env kc;
  credentialList ← list_credentials env kc allUserIDs;
  mret (c_UserID <$> sort_by c_Timestamp credentialList).

(** ** Accounts (internal/app/migration.go) *)

(** The system's answers at each of the changes of the vault for an account. *)
Record account_env : Type := mkAccountEnv { at_add : venv; at_password : venv; at_mode : venv }.

(** The handle is closed however the migration ends. *)
Definition closing {A} (userID : string) (m : M A) : M A := fun s =>
  let '(s, r) := m s in ((s.1, (user_Close userID s.2).1), r).

Definition migrateOldAccount (env : kenv) (aenv : account_env) (kc : Keychain) (userID : string) : M () :=
  creds ← wrapping (MWrap "failed to get user") (on_keychain (store_get env kc userID));
  match SplitAPIToken creds with
  | None => fails (MWrap "failed to split api token for user" (MOther "malformed API token"))
  | Some (authUID, authRef) =>
      let primaryEmail := hd "" (EmailList creds) in
      user ← wrapping (MWrap "failed to add user") (on_vault (AddUser (at_add aenv) (c_UserID creds) (c_Name creds) primaryEmail authUID authRef (c_MailboxPassword creds)));
      closing user
        (match B64RawDecode (bytes_of (c_BridgePassword creds)) with
         | None => fails (MWrap "failed to decode bridge password for user" (MOther "base64"))
         | Some dec =>
             wrapping (MWrap "failed to set bridge password for user") (on_vault (user_SetBridgePass (at_password aenv) user dec)) ≫= fun _ =>
             if negb (c_IsCombinedAddressMode creds)
             then wrapping (MWrap "failed to set split address mode to user") (on_vault (user_SetAddressMode (at_mode aenv) user SplitMode))
             else mret ()
         end)
  end.

(** Errors are joined; a panic is not one of them. *)
Fixpoint migrate_each (env : kenv) (aenvs : string -> account_env) (kc : Keychain) (users : list string) (errs : list (string * merr)) : M (list (string * merr)) := fun s =>
  match users with
  | [] => (s, Ok errs)
  | userID :: users =>
      match migrateOldAccount env (aenvs userID) kc userID s with
      | (s, Ok _) => migrate_each env aenvs kc users errs s
      | (s, Err e) => if panics e then (s, Err e) else migrate_each env aenvs kc users (errs ++ [(userID, e)]) s
      end
  end.

(** No feature flag is set and no failed start is counted here. *)
Definition without_flags (env : kenv) : kenv :=
  mkKenv (linux env) false false (helpers env) (defaultHelper env) (helper_new env) (helper_fault env) (hostURL env) (settings_dir env) (gluon_dir env)
    (file_read env) (file_write env) (remove_fails env) (token32 env) (env_vault env).

Definition migrateOldAccounts (env : kenv) (aenvs : string -> account_env) : M (list (string * merr)) :=
  settings ← wrapping (MWrap "failed to get settings path") (on_keychain (reads (fun _ => settings_dir env)));
  helper ← wrapping (MWrap "failed to get helper") (on_keychain (GetHelper env settings));
  '(keychain, _) ← wrapping (MWrap "failed to create keychain") (on_keychain (reads (fun _ => NewKeychain (without_flags env) helper "bridge" 0)));
  users ← wrapping (MWrap "failed to create credentials store") (on_keychain (store_List env keychain));
  migrate_each env aenvs keychain users [].

(** ** Settings *)

(** [SetLastVersion] of no version calls a method of a nil pointer. *)
Definition setting_calls (envs : nat -> venv) (p : prefs) : list (string * eff Vault fault ()) := [
  ("failed to migrate IMAP port", SetIMAPPort (envs 0%nat) (p_IMAPPort p));
  ("failed to migrate SMTP port", SetSMTPPort (envs 1%nat) (p_SMTPPort p));
  ("failed to migrate SMTP SSL", SetSMTPSSL (envs 2%nat) (p_SMTPSSL p));
  ("failed to migrate auto update", SetAutoUpdate (envs 3%nat) (p_AutoUpdate p));
  ("failed to migrate update channel", SetUpdateChannel (envs 4%nat) (p_UpdateChannel p));
  ("failed to migrate rollout", SetUpdateRollout (envs 5%nat) (p_UpdateRollout p));
  ("failed to migrate first start", SetFirstStart (envs 6%nat) (p_FirstStart p));
  ("failed to migrate color scheme", SetColorScheme (envs 7%nat) (p_ColorScheme p));
  ("failed to migrate last version", match p_LastVersion p with Some v => SetLastVersion (envs 8%nat) v | None => fails Panics end);
  ("failed to migrate autostart", SetAutostart (envs 9%nat) (p_Autostart p));
  ("failed to migrate allow proxy", SetProxyAllowed (envs 10%nat) (p_AllowProxy p));
  ("failed to migrate show all mail", SetShowAllMail (envs 11%nat) (p_ShowAllMail p));
  ("failed to migrate cookies", SetCookies (envs 12%nat) (bytes_of (p_Cookies p)))
].

(** Each setting is set; errors are joined. *)
Fixpoint set_each (calls : list (string * eff Vault fault ())) (errs : list merr) : eff Vault fault (list merr) := fun v =>
  match calls with
  | [] => (v, Ok errs)
  | (msg, call) :: calls =>
      match call v with
      | (v, Ok _) => set_each calls errs v
      | (v, Err Panics) => (v, Err Panics)
      | (v, Err e) => set_each calls (errs ++ [MWrap msg (MVault e)]) v
      end
  end.

Definition migratePrefsToVault `{PrefsText} (envs : nat -> venv) (b : string) : M () :=
  match read_prefs b with
  | None => fails (MWrap "failed to unmarshal old prefs file" (MOther "json"))
  | Some p => errs ← on_vault (set_each (setting_calls envs p) []); match errs with [] => mret () | e :: _ => fails e end
  end.

(** The files of the older bridge: [Ok None] is a file that does not exist. *)
Definition migrateOldSettingsWithDir `{PrefsText} (old : string -> result kerr (option string)) (envs : nat -> venv) : M () :=
  match old "prefs.json" with
  | Err e => fails (MWrap "failed to read old prefs file" (MKeychain e))
  | Ok None => mret ()
  | Ok (Some b) =>
      wrapping (MWrap "failed to migrate prefs to vault") (migratePrefsToVault envs b) ≫= fun _ =>
      match old "cert.pem" with
      | Err e => fails (MWrap "failed to read old cert file" (MKeychain e))
      | Ok None => mret ()
      | Ok (Some certPEM) =>
          match old "key.pem" with
          | Err e => fails (MWrap "failed to read old key file" (MKeychain e))
          | Ok None => mret ()
          | Ok (Some keyPEM) => on_vault (SetBridgeTLSCertKey (envs 13%nat) (bytes_of certPEM) (bytes_of keyPEM))
          end
      end
  end.

(** What is done when the vault was not migrated (app.go): errors are logged, and it is not done again. *)
Definition logging {A} (m : M A) : M () := fun s => let '(s, r) := m s in match r with Err e => if panics e then (s, Err e) else (s, Ok ()) | Ok _ => (s, Ok ()) end.
Definition migrate `{PrefsText} (env : kenv) (old : result kerr (string -> result kerr (option string))) (envs : nat -> venv) (aenvs : string -> account_env) : M () :=
  done ← on_vault (Migrated (envs 14%nat));
  if (done : bool) then mret ()
  else
    logging (match old with Err e => fails (MWrap "failed to get user config dir" (MKeychain e)) | Ok old => migrateOldSettingsWithDir old envs end) ≫= fun _ =>
    logging (migrateOldAccounts env aenvs) ≫= fun _ =>
    logging (on_vault (SetMigrated (envs 14%nat))).

(** The keychain that the older bridge used. *)
Definition helper_field (k : string) (v : Json.json) (x : string) : option string :=
  if EqualFold k "preferred_keychain" then SyncState.decode_string v x else Some x.
Definition migrateKeychainHelper (env : kenv) (old : result kerr (string -> result kerr (option string))) : eff kstate kerr () :=
  settings ← wrapping (KWrap "failed to get settings path") (reads (fun _ => settings_dir env));
  keychainName ← attempt (GetHelper env settings);
  if negb (String.eqb (match keychainName with Ok n => n | Err _ => "" end) "") then mret ()
  else
    match old with
    | Err e => fails (KWrap "failed to get user config dir" e)
    | Ok old =>
        match old "prefs.json" with
        | Ok None => mret ()
        | Err e => fails (KWrap "failed to read old prefs file" e)
        | Ok (Some b) =>
            match VaultKey.Unmarshal helper_field "" b with
            | None => fails (KWrap "failed to unmarshal old prefs file" (KOther "json"))
            | Some helper => SetHelper env settings helper
            end
        end
    end.

End migration.

(** ** Credentials are read as they were written *)

Lemma text_bytes s : text_of (bytes_of s) = s.
Proof.
  unfold text_of, bytes_of. induction s as [|c s IH]; [done|]. cbn. rewrite Nat2Z.id, Ascii.ascii_nat_embedding. f_equal. exact IH.
Qed.
Lemma bytes_of_bytes s : Forall is_byte (bytes_of s).
Proof.
  unfold bytes_of. apply Forall_forall. intros n (c & -> & _)%list_elem_of_fmap. assert (Hc := Ascii.nat_ascii_bounded c). unfold is_byte. lia.
Qed.
Lemma bytes_text b : Forall is_byte b -> bytes_of (text_of b) = b.
Proof.
  unfold text_of, bytes_of. rewrite String.list_ascii_of_string_of_list_ascii. induction 1 as [|x b Hx _ IH]; [done|]. unfold is_byte in Hx.
  rewrite !fmap_cons. f_equal; [|exact IH]. rewrite Ascii.nat_ascii_embedding; lia.
Qed.

Lemma Split_Join sep l : l <> [] -> Forall (fun s => Index sep s = None) l -> Split sep (Join l sep) = l.
Proof.
  intros Hne Hl. induction l as [|x l IH]; [done|]. apply Forall_cons in Hl as [Hx Hl]. cbn [Join]. destruct l as [|y l]; [by apply Split_no_sep|].
  rewrite Split_app_sep by done. by rewrite IH.
Qed.

Lemma print_Z_no_nul z : Index nul (Json.print_Z z "") = None.
Proof.
  assert (Hd : forall fuel n acc, 0 <= n -> Index nul acc = None -> Index nul (Json.print_digits fuel n acc) = None).
  { induction fuel as [|fuel IH]; intros n acc Hn Hacc; [done|]. cbn [Json.print_digits].
    assert (Hc : Index nul (String (Json.digit (n mod 10)) acc) = None).
    { cbn [Index]. rewrite Hacc. destruct (Ascii.eqb_spec (Json.digit (n mod 10)) nul) as [He|]; [|done]. exfalso. apply (f_equal Ascii.nat_of_ascii) in He.
      unfold Json.digit, nul in He. assert (Hm := Z.mod_pos_bound n 10 ltac:(lia)). rewrite !Ascii.nat_ascii_embedding in He; lia. }
    destruct (n <? 10); [done|]. apply IH; [apply Z.div_pos; lia|done]. }
  unfold Json.print_Z. destruct (z <? 0); [|apply Hd; [apply Z.abs_nonneg|done]]. change (Index nul (String ?c ?s)) with (if Ascii.eqb c nul then Some 0%nat else S <$> Index nul s).
  rewrite Hd; [done|apply Z.abs_nonneg|done].
Qed.

(** Credentials are read as they were written, unless a field has a NUL in it, which separates the fields. *)
Theorem credentials_round_trip `{SI : ScanInt} `{!ScanIntLaws} (c : Credentials) :
  Forall (fun s => Index nul s = None) [c_Name c; c_Emails c; c_APIToken c; text_of (c_MailboxPassword c); c_BridgePassword c; c_Version c] ->
  Forall is_byte (c_MailboxPassword c) -> i64_ok (c_Timestamp c) -> Unmarshal (c_UserID c) (Marshal c) = Ok c.
Proof.
  intros Hf Hp Ht. unfold Unmarshal, Marshal. rewrite DecodeString_EncodeToString by apply bytes_of_bytes. rewrite text_bytes, Split_Join.
  - rewrite bytes_text by done. rewrite Sscan_Sprint by done. destruct c as [? ? ? ? ? ? ? ? hidden combined]. cbn. by destruct hidden, combined.
  - done.
  - repeat (apply Forall_cons in Hf as [? Hf]). repeat (apply Forall_cons; split; [first [done|apply print_Z_no_nul|by destruct (c_IsHidden c)|by destruct (c_IsCombinedAddressMode c)]|]). constructor.
Qed.

(** ** Accounts *)

Section accounts.
Context `{VC : VaultCodec} `{VL : !VaultCodecLaws} `{CH : CredHelper} `{SI : ScanInt} `{SF : SortFunc}.

Lemma ids_app us us' : ids (us ++ us') = ids us ++ ids us'.
Proof. unfold ids. by rewrite fmap_app. Qed.

(** Adding a user while no handle is open. *)
Lemma AddUser_outcome env userID username primaryEmail authUID authRef keyPass k (v v' : Vault) us r :
  venv_ok env -> vault_ok v k us -> v_ref v = ∅ -> AddUser env userID username primaryEmail authUID authRef keyPass v = (v', r) ->
  exists us', vault_ok v' k us' /\ ids us ⊆ ids us' /\ r <> Err Panics /\
    match r with
    | Ok h => h = userID /\ userID ∉ ids us /\ v_ref v' = {[userID := 1]} /\ exists bp, us' = us ++ [newDefaultUser env userID username primaryEmail authUID authRef keyPass bp]
    | Err _ => v_ref v' = ∅
    end.
Proof.
  intros Hn Hv Href. unfold AddUser, addUserUnsafe. destruct (ok_enc _ _ _ Hv env) as (d & Hd & Hu).
  set (fn := fun data => Ok (add_user_data env userID username primaryEmail authUID authRef keyPass data)).
  set (Q := fun d' => match find_user userID us with Some _ => Data_Users d' = us | None => exists bp, Data_Users d' = us ++ [newDefaultUser env userID username primaryEmail authUID authRef keyPass bp] end).
  destruct (modUnsafe_ok env fn k v us Q Hn (ok_gcm _ _ _ Hv) (ok_enc _ _ _ Hv)) as (d' & HQ & Hp & Hk & Hr & Hpath & Henc & Hdisk & _).
  { intros d0 Hd0. eexists. split; [reflexivity|]. unfold Q, add_user_data. rewrite Hd0. destruct (find_user userID us); [done|]. by eexists. }
  unfold mbind, eff_bind, reads. rewrite (ok_gcm _ _ _ Hv), Hd, Hu. fold fn. destruct (modUnsafe env fn v) as [v1 r1]. cbn [fst snd] in *. rewrite Href in Hr.
  assert (Hread : readable k (marshalFile env k d') (Data_Users d')) by by apply readable_marshalFile.
  assert (Hok : NoDup (ids (Data_Users d')) -> vault_ok v1 k (Data_Users d')).
  { intros Hnd. split; [done|by rewrite Henc|done|rewrite Hr; intros i n Hi; by rewrite lookup_empty in Hi|]. rewrite Hpath. destruct Hdisk as [->| ->]; [apply (ok_disk _ _ _ Hv)|by eauto]. }
  unfold Q in HQ. destruct (find_user userID us) as [[i u]|] eqn:Hf.
  - rewrite HQ in *. intros Hrun. exists us. assert (Hv1 := Hok (ok_ids _ _ _ Hv)). destruct r1 as [[]|e]; injection Hrun as <- <-; (split; [done|]; split; [reflexivity|]; split; [first [done|intros [= ->]; by apply Hp]|done]).
  - destruct HQ as (bp & HQ). rewrite HQ in *. apply find_user_None in Hf. set (u := newDefaultUser _ _ _ _ _ _ _ bp) in *.
    assert (Hnd : NoDup (ids (us ++ [u]))). { rewrite ids_app. apply NoDup_app. split; [apply (ok_ids _ _ _ Hv)|]. split; [|apply NoDup_singleton]. by intros x Hx ->%list_elem_of_singleton. }
    assert (Hsub : ids us ⊆ ids (us ++ [u])) by (rewrite ids_app; set_solver). assert (Hv1 := Hok Hnd). intros Hrun. exists (us ++ [u]).
    destruct r1 as [[]|e]; [|injection Hrun as <- <-; split; [done|]; split; [done|]; split; [intros [= ->]; by apply Hp|done]]. unfold attachUserUnsafe in Hrun. injection Hrun as <- <-. rewrite Hr in *. split; [|split; [done|split; [done|split; [done|split; [done|split; [done|by exists bp]]]]]].
    destruct Hv1 as [A1 A2 A3 A4 A5]. split; try done. cbn [v_ref set_ref]. intros j n [[<- <-]|[_ Hj]]%lookup_insert_Some; [|by rewrite lookup_empty in Hj].
    split; [done|]. rewrite ids_app. apply elem_of_app. right. by apply list_elem_of_singleton.
Qed.

(** A change of the user who was added last. *)
Lemma modUser_last env userID f k (v v' : Vault) us u r :
  venv_ok env -> vault_ok v k (us ++ [u]) -> ud_UserID u = userID -> ud_UserID (f u) = userID -> modUser env userID f v = (v', r) ->
  vault_ok v' k (us ++ [f u]) /\ r <> Err Panics /\ v_ref v' = v_ref v.
Proof.
  intros Hn Hv Hid Hfid Hrun. assert (Hnd := ok_ids _ _ _ Hv). rewrite ids_app in Hnd. apply NoDup_app in Hnd as (_ & Hnd & _).
  assert (Hf : find_user userID (us ++ [u]) = Some (length us, u)).
  { apply list_find_Some. split; [by rewrite lookup_app_r, Nat.sub_diag|]. split; [done|]. intros j x Hj Hlt He. rewrite lookup_app_l in Hj by done. apply (Hnd userID).
    - apply list_elem_of_fmap. exists x. split; [done|by eapply list_elem_of_lookup_2].
    - cbn. rewrite Hid. by apply list_elem_of_singleton. }
  destruct (modUserUnsafe_vault_ok env userID (fun u => Ok (f u)) k v _ _ u (f u) Hn Hv Hf eq_refl) as (H1 & H2 & H3); [by rewrite Hfid|].
  unfold modUser in Hrun. rewrite Hrun in *. cbn [fst snd] in *. rewrite insert_app_r_alt, Nat.sub_diag in H1 by done. done.
Qed.

Lemma close_last userID k (v : Vault) us : vault_ok v k us -> v_ref v = {[userID := 1]} -> vault_ok (user_Close userID v).1 k us /\ v_ref (user_Close userID v).1 = ∅.
Proof.
  intros Hv Href. split.
  - apply detach_vault_ok; [done|]. unfold handles_fit. rewrite Href. intros i n [<- <-]%lookup_singleton_Some. done.
  - unfold user_Close, detachUser. rewrite Href, lookup_singleton_eq. change (i64 (1 - 1) =? 0) with true. cbv iota zeta. cbn [fst v_ref set_ref]. apply delete_singleton_eq.
Qed.

(** The data of a user that was taken over. *)
Definition migrated_user (u : UserData) (dec : bytes) (combined : bool) : UserData :=
  let u := with_ud_BridgePass dec u in if combined then u else with_ud_AddressMode SplitMode u.

Lemma store_get_id env kc userID ks ks' c : store_get env kc userID ks = (ks', Ok c) -> c_UserID c = userID.
Proof.
  unfold store_get. intros (ks1 & [id secret] & _ & Hr)%eff_bind_Ok. destruct secret as [|b secret]; [done|]. destruct (Unmarshal userID (b :: secret)) as [c0|e] eqn:Hu.
  - injection Hr as _ <-. unfold Unmarshal in Hu. destruct (DecodeString _) as [x|]; [|done]. repeat case_match; try done; injection Hu as <-; done.
  - apply eff_bind_Ok in Hr as (? & ? & _ & Hr). done.
Qed.

Definition quiet_account (aenv : account_env) : Prop := venv_ok (at_add aenv) /\ venv_ok (at_password aenv) /\ venv_ok (at_mode aenv).

(** The vault when no handle is open. *)
Definition at_rest (v : Vault) (k : gcm) (us : list UserData) : Prop := vault_ok v k us /\ v_ref v = ∅.

(** What is done with the user that was added, and the closing of its handle. *)
Lemma finish_account aenv creds k (ks ks' : kstate) (v1 v' : Vault) us u r :
  quiet_account aenv -> vault_ok v1 k (us ++ [u]) -> ud_UserID u = c_UserID creds -> v_ref v1 = {[c_UserID creds := 1]} ->
  closing (c_UserID creds)
    (match B64RawDecode (bytes_of (c_BridgePassword creds)) with
     | None => fails (MWrap "failed to decode bridge password for user" (MOther "base64"))
     | Some dec =>
         wrapping (MWrap "failed to set bridge password for user") (on_vault (user_SetBridgePass (at_password aenv) (c_UserID creds) dec)) ≫= fun _ =>
         if negb (c_IsCombinedAddressMode creds)
         then wrapping (MWrap "failed to set split address mode to user") (on_vault (user_SetAddressMode (at_mode aenv) (c_UserID creds) SplitMode))
         else mret ()
     end) (ks, v1) = ((ks', v'), r) ->
  ks' = ks /\ (exists u', at_rest v' k (us ++ [u']) /\ ud_UserID u' = c_UserID creds) /\ (forall e, r = Err e -> panics e = false) /\
  (r = Ok () -> exists dec, B64RawDecode (bytes_of (c_BridgePassword creds)) = Some dec /\ at_rest v' k (us ++ [migrated_user u dec (c_IsCombinedAddressMode creds)])).
Proof.
  intros (_ & Hn1 & Hn2) Hv Hid Href. unfold closing. destruct (B64RawDecode _) as [dec|] eqn:Hdec.
  2: { intros [= <- <- <-]. destruct (close_last _ _ _ _ Hv Href). split; [done|]. split; [by exists u|]. split; [by intros e [= <-]|done]. }
  unfold mbind at 1, eff_bind at 1. unfold wrapping at 1, on_vault at 1. cbn [fst snd]. unfold user_SetBridgePass.
  destruct (modUser (at_password aenv) (c_UserID creds) (with_ud_BridgePass dec) v1) as [v2 r2] eqn:H2.
  destruct (modUser_last _ _ (with_ud_BridgePass dec) _ _ _ _ _ _ Hn1 Hv Hid Hid H2) as (Hv2 & Hp2 & Hr2). rewrite Href in Hr2. assert (Hc2 := close_last _ _ _ _ Hv2 Hr2).
  destruct r2 as [[]|e2].
  2: { intros [= <- <- <-]. split; [done|]. split; [by exists (with_ud_BridgePass dec u)|]. split; [|done]. intros e [= <-]. cbn. by destruct e2. }
  destruct (c_IsCombinedAddressMode creds) eqn:Hcomb; cbn [negb].
  - intros [= <- <- <-]. split; [done|]. split; [by exists (with_ud_BridgePass dec u)|]. split; [done|]. intros _. by exists dec.
  - unfold wrapping, on_vault, user_SetAddressMode. cbn [fst snd]. destruct (modUser (at_mode aenv) (c_UserID creds) (with_ud_AddressMode SplitMode) v2) as [v3 r3] eqn:H3.
    destruct (modUser_last _ _ (with_ud_AddressMode SplitMode) _ _ _ _ (with_ud_BridgePass dec u) _ Hn2 Hv2 Hid Hid H3) as (Hv3 & Hp3 & Hr3). rewrite Hr2 in Hr3. assert (Hc3 := close_last _ _ _ _ Hv3 Hr3).
    destruct r3 as [[]|e3]; intros [= <- <- <-]; (split; [done|]; split; [by exists (with_ud_AddressMode SplitMode (with_ud_BridgePass dec u))|]).
    + split; [done|]. intros _. by exists dec.
    + split; [|done]. intros e [= <-]. cbn. by destruct e3.
Qed.

(** One account: what is there stays, nothing panics, and without an error the user has the data of the credentials. *)
Lemma account_step env aenv kc userID k (ks ks' : kstate) (v v' : Vault) us r :
  quiet_account aenv -> at_rest v k us -> migrateOldAccount env aenv kc userID (ks, v) = ((ks', v'), r) ->
  exists us', at_rest v' k us' /\ ids us ⊆ ids us' /\ (forall e, r = Err e -> panics e = false) /\
    (r = Ok () -> exists creds authUID authRef dec bp, (store_get env kc userID ks).2 = Ok creds /\ SplitAPIToken creds = Some (authUID, authRef) /\
       B64RawDecode (bytes_of (c_BridgePassword creds)) = Some dec /\ userID ∉ ids us /\
       us' = us ++ [migrated_user (newDefaultUser (at_add aenv) userID (c_Name creds) (hd "" (EmailList creds)) authUID authRef (c_MailboxPassword creds) bp) dec (c_IsCombinedAddressMode creds)]).
Proof.
  intros Hq [Hv Href]. unfold migrateOldAccount. unfold mbind at 1, eff_bind at 1. unfold wrapping at 1, on_keychain. cbn [fst snd].
  destruct (store_get env kc userID ks) as [ks1 [creds|e]] eqn:Hget.
  2: { intros [= <- <- <-]. exists us. split; [done|]. split; [done|]. split; [by intros e' [= <-]|done]. }
  assert (Hid := store_get_id _ _ _ _ _ _ Hget). destruct (SplitAPIToken creds) as [[authUID authRef]|] eqn:Hsplit.
  2: { intros [= <- <- <-]. exists us. split; [done|]. split; [done|]. split; [by intros e' [= <-]|done]. }
  cbv zeta. unfold mbind at 1, eff_bind at 1. unfold wrapping at 1, on_vault at 1. cbn [fst snd].
  destruct (AddUser (at_add aenv) (c_UserID creds) (c_Name creds) (hd "" (EmailList creds)) authUID authRef (c_MailboxPassword creds) v) as [v1 r1] eqn:Hadd.
  destruct (AddUser_outcome _ _ _ _ _ _ _ _ _ _ _ _ (proj1 Hq) Hv Href Hadd) as (us1 & Hv1 & Hsub & Hp & Hr1). destruct r1 as [h|e].
  2: { intros [= <- <- <-]. exists us1. split; [done|]. split; [done|]. split; [|done]. intros e' [= <-]. cbn. destruct e; [by exfalso; apply Hp|done]. }
  destruct Hr1 as (-> & Hnew & Hr1 & bp & ->). intros Hrun.
  destruct (finish_account aenv creds k ks1 ks' v1 v' us _ r Hq Hv1 eq_refl Hr1 Hrun) as (-> & (u' & Hu' & Hid') & Hpan & Hok).
  destruct r as [[]|e].
  - destruct (Hok eq_refl) as (dec & Hdec & Hrest). eexists. split; [exact Hrest|]. split; [rewrite ids_app; set_solver|]. split; [done|]. intros _. exists creds, authUID, authRef, dec, bp. rewrite Hid in *. done.
  - exists (us ++ [u']). split; [done|]. split; [rewrite ids_app; set_solver|]. done.
Qed.

Lemma migrate_each_step env aenvs kc k users : (forall id, quiet_account (aenvs id)) -> forall errs (ks : kstate) (v : Vault) us s' r,
  at_rest v k us -> migrate_each env aenvs kc users errs (ks, v) = (s', r) ->
  exists us' errs', r = Ok errs' /\ at_rest s'.2 k us' /\ ids us ⊆ ids us' /\ errs `prefix_of` errs' /\
    forall id, id ∈ users -> (id ∈ ids us') \/ exists e, (id, e) ∈ errs'.
Proof.
  intros Hq. induction users as [|id users IH]; intros errs ks v us s' r Hv; cbn [migrate_each].
  { intros [= <- <-]. exists us, errs. split; [done|]. split; [done|]. split; [done|]. split; [done|]. intros id Hid. by apply elem_of_nil in Hid. }
  destruct (migrateOldAccount env (aenvs id) kc id (ks, v)) as [[ks1 v1] r1] eqn:H1. destruct (account_step _ _ _ _ _ _ _ _ _ _ _ (Hq id) Hv H1) as (us1 & Hv1 & Hsub1 & Hpan & Hok). destruct r1 as [[]|e].
  - intros Hrun. destruct (IH errs ks1 v1 us1 s' r Hv1 Hrun) as (us' & errs' & -> & Hv' & Hsub & Hpre & Hall). exists us', errs'. split; [done|]. split; [done|]. split; [set_solver|]. split; [done|].
    intros i [->|Hi]%elem_of_cons; [|by apply Hall]. left. destruct (Hok eq_refl) as (creds & au & ar & dec & bp & _ & _ & _ & _ & ->). apply Hsub. rewrite ids_app. apply elem_of_app. right.
    unfold ids, migrated_user. by destruct (c_IsCombinedAddressMode creds); apply list_elem_of_singleton.
  - rewrite (Hpan e eq_refl). intros Hrun. destruct (IH _ ks1 v1 us1 s' r Hv1 Hrun) as (us' & errs' & -> & Hv' & Hsub & Hpre & Hall). exists us', errs'. split; [done|]. split; [done|]. split; [set_solver|].
    split; [etrans; [|exact Hpre]; by apply prefix_app_r|]. intros i [->|Hi]%elem_of_cons; [|by apply Hall]. right. exists e. destruct Hpre as [rest ->]. set_solver.
Qed.


(** An account that is migrated without an error is a new user with the name, the first address, the session, the password of the
    mailbox, the password for mail clients and the mode of its credentials, and the other users are as they were. *)
Theorem account_migrated (env : kenv) (aenv : account_env) (kc : Keychain) (userID : string) (k : gcm) (ks ks' : kstate) (v v' : Vault) (us : list UserData) :
  quiet_account aenv -> at_rest v k us -> migrateOldAccount env aenv kc userID (ks, v) = ((ks', v'), Ok ()) ->
  exists creds u dec, (store_get env kc userID ks).2 = Ok creds /\ userID ∉ ids us /\ at_rest v' k (us ++ [u]) /\
    ud_UserID u = userID /\ ud_Username u = c_Name creds /\ ud_PrimaryEmail u = hd "" (EmailList creds) /\ SplitAPIToken creds = Some (ud_AuthUID u, ud_AuthRef u) /\
    ud_KeyPass u = c_MailboxPassword creds /\ B64RawDecode (bytes_of (c_BridgePassword creds)) = Some dec /\ ud_BridgePass u = dec /\
    ud_AddressMode u = if c_IsCombinedAddressMode creds then CombinedMode else SplitMode.
Proof.
  intros Hq Hv Hrun. destruct (account_step _ _ _ _ _ _ _ _ _ _ _ Hq Hv Hrun) as (us' & Hv' & _ & _ & Hok). destruct (Hok eq_refl) as (creds & au & ar & dec & bp & H1 & H2 & H3 & H4 & ->).
  exists creds. eexists. exists dec. split; [done|]. split; [done|]. split; [exact Hv'|]. unfold migrated_user. destruct (c_IsCombinedAddressMode creds); done.
Qed.

(** *** When nothing fails *)

Definition writes (env : venv) : Prop := venv_ok env /\ env_write env = None /\ env_rename env = None.

Lemma modUnsafe_writes env fn k (v : Vault) us : writes env -> v_gcm v = Some k -> readable k (v_enc v) us ->
  (forall d, Data_Users d = us -> exists d', fn d = Ok d') -> (modUnsafe env fn v).2 = Ok ().
Proof.
  intros (_ & Hw & Hr) Hk Hread Hfn. unfold modUnsafe. destruct (Hread env) as (d & Hd & Hu). destruct (Hfn d Hu) as (d' & Hd'). by rewrite Hk, Hd, Hd', Hw, Hr.
Qed.

Lemma AddUser_writes env userID username primaryEmail authUID authRef keyPass k (v : Vault) us :
  writes env -> vault_ok v k us -> userID ∉ ids us -> (AddUser env userID username primaryEmail authUID authRef keyPass v).2 = Ok userID.
Proof.
  intros Hw Hv Hnew. unfold AddUser, addUserUnsafe, mbind, eff_bind, reads. destruct (ok_enc _ _ _ Hv env) as (d & Hd & Hu). rewrite (ok_gcm _ _ _ Hv), Hd, Hu.
  assert (Hm := modUnsafe_writes env (fun data => Ok (add_user_data env userID username primaryEmail authUID authRef keyPass data)) k v us Hw (ok_gcm _ _ _ Hv) (ok_enc _ _ _ Hv) ltac:(intros; by eexists)).
  destruct (modUnsafe env _ v) as [v1 r1]. cbn [snd] in Hm. subst r1. apply find_user_None in Hnew. by rewrite Hnew.
Qed.

Lemma modUser_writes env userID f k (v : Vault) us u : writes env -> vault_ok v k (us ++ [u]) -> ud_UserID u = userID -> (modUser env userID f v).2 = Ok ().
Proof.
  intros Hw Hv Hid. apply (modUnsafe_writes env _ k v (us ++ [u]) Hw (ok_gcm _ _ _ Hv) (ok_enc _ _ _ Hv)). intros d ->.
  destruct (find_user_ids userID (us ++ [u])) as (i & u' & ->); [|by eexists]. rewrite ids_app. apply elem_of_app. right. subst userID. by apply list_elem_of_singleton.
Qed.

Lemma account_succeeds env aenv kc userID k (ks ks1 : kstate) (v : Vault) us creds authUID authRef dec :
  writes (at_add aenv) -> writes (at_password aenv) -> writes (at_mode aenv) -> at_rest v k us -> userID ∉ ids us ->
  store_get env kc userID ks = (ks1, Ok creds) -> SplitAPIToken creds = Some (authUID, authRef) -> B64RawDecode (bytes_of (c_BridgePassword creds)) = Some dec ->
  (migrateOldAccount env aenv kc userID (ks, v)).2 = Ok ().
Proof.
  intros W1 W2 W3 [Hv Href] Hnew Hget Hsplit Hdec. assert (Hid := store_get_id _ _ _ _ _ _ Hget). unfold migrateOldAccount. unfold mbind at 1, eff_bind at 1. unfold wrapping at 1, on_keychain. cbn [fst snd]. rewrite Hget, Hsplit. cbv zeta.
  unfold mbind at 1, eff_bind at 1. unfold wrapping at 1, on_vault at 1. cbn [fst snd].
  assert (HA := AddUser_writes (at_add aenv) (c_UserID creds) (c_Name creds) (hd "" (EmailList creds)) authUID authRef (c_MailboxPassword creds) k v us W1 Hv ltac:(by rewrite Hid)).
  destruct (AddUser (at_add aenv) (c_UserID creds) (c_Name creds) (hd "" (EmailList creds)) authUID authRef (c_MailboxPassword creds) v) as [v1 r1] eqn:Hadd. cbn [snd] in HA. subst r1.
  destruct (AddUser_outcome _ _ _ _ _ _ _ _ _ _ _ _ (proj1 W1) Hv Href Hadd) as (us1 & Hv1 & _ & _ & (_ & _ & Hr1 & bp & ->)). set (u := newDefaultUser _ _ _ _ _ _ _ bp) in *.
  unfold closing. rewrite Hdec. unfold mbind at 1, eff_bind at 1. unfold wrapping at 1, on_vault at 1. cbn [fst snd]. unfold user_SetBridgePass.
  assert (HB := modUser_writes (at_password aenv) (c_UserID creds) (with_ud_BridgePass dec) k v1 us u W2 Hv1 eq_refl). destruct (modUser (at_password aenv) _ _ v1) as [v2 r2] eqn:H2. cbn [snd] in HB. subst r2.
  destruct (modUser_last _ _ (with_ud_BridgePass dec) _ _ _ _ u _ (proj1 W2) Hv1 eq_refl eq_refl H2) as (Hv2 & _ & _). destruct (c_IsCombinedAddressMode creds); cbn [negb]; [done|].
  unfold wrapping, on_vault, user_SetAddressMode. cbn [fst snd]. assert (HC := modUser_writes (at_mode aenv) (c_UserID creds) (with_ud_AddressMode SplitMode) k v2 us (with_ud_BridgePass dec u) W3 Hv2 eq_refl).
  destruct (modUser (at_mode aenv) _ _ v2) as [v3 r3]. cbn [snd] in HC. by subst r3.
Qed.

(** ** Settings *)

(** The bytes hold these data. *)
Definition holds (k : gcm) (b : bytes) (d : Data) : Prop := forall env, unmarshalFile env (Some k) b = Ok d.

Lemma modSafe_holds env f k (v : Vault) d : venv_ok env -> v_gcm v = Some k -> holds k (v_enc v) d ->
  v_gcm (modSafe env f v).1 = Some k /\ holds k (v_enc (modSafe env f v).1) (f d) /\ (modSafe env f v).2 <> Err Panics /\ (writes env -> (modSafe env f v).2 = Ok ()).
Proof.
  intros Hn Hk Hd. unfold modSafe, modUnsafe. rewrite Hk, (Hd env). assert (Hm : holds k (marshalFile env k (f d)) (f d)) by (intros env'; by apply unmarshal_marshalFile).
  destruct (env_write env) as [[e partial]|] eqn:Hw; [split; [done|]; split; [done|]; split; [done|]; intros (_ & Hx & _); by rewrite Hw in Hx|].
  destruct (env_rename env) as [e|] eqn:Hr; (split; [done|]; split; [done|]; split; [done|]); [|done]. intros (_ & _ & Hx). by rewrite Hr in Hx.
Qed.

Lemma set_Settings_comp f g d : set_Settings f (set_Settings g d) = set_Settings (fun s => f (g s)) d.
Proof. reflexivity. Qed.

(** The settings with those of the older bridge. *)
Definition with_prefs (p : prefs) (lv : string) (d : Data) : Data :=
  set_Cookies (bytes_of (p_Cookies p)) (set_Settings (fun s => with_ShowAllMail (p_ShowAllMail p) (with_ProxyAllowed (p_AllowProxy p) (with_Autostart (p_Autostart p)
    (with_LastVersion lv (with_ColorScheme (p_ColorScheme p) (with_FirstStart (p_FirstStart p) (with_UpdateRollout (p_UpdateRollout p) (with_UpdateChannel (p_UpdateChannel p)
    (with_AutoUpdate (p_AutoUpdate p) (with_SMTPSSL (p_SMTPSSL p) (with_SMTPPort (p_SMTPPort p) (with_IMAPPort (p_IMAPPort p) s)))))))))))) d).

Lemma set_each_modSafe k (fs : list (string * venv * (Data -> Data))) : forall errs (v : Vault) d, Forall (fun x => venv_ok x.1.2) fs -> v_gcm v = Some k -> holds k (v_enc v) d ->
  exists v' errs', set_each ((fun x => (x.1.1, modSafe x.1.2 x.2)) <$> fs) errs v = (v', Ok errs') /\ v_gcm v' = Some k /\ holds k (v_enc v') (foldl (fun d x => x.2 d) d fs) /\
    (Forall (fun x => writes x.1.2) fs -> errs' = errs).
Proof.
  induction fs as [|[[msg env] f] fs IH]; intros errs v d Hn Hk Hd; [by exists v, errs|]. apply Forall_cons in Hn as [Hn1 Hn]. rewrite fmap_cons. cbn [set_each fst snd foldl].
  destruct (modSafe_holds env f k v d Hn1 Hk Hd) as (Hk1 & Hd1 & Hp & Hw). destruct (modSafe env f v) as [v1 [[]|e]]; cbn [fst snd] in *.
  - destruct (IH errs v1 (f d) Hn Hk1 Hd1) as (v' & errs' & H1 & H2 & H3 & H4). exists v', errs'. split; [done|]. split; [done|]. split; [done|]. intros [_ Hall]%Forall_cons. by apply H4.
  - destruct e as [|e]; [done|]. destruct (IH (errs ++ [MWrap msg (MVault (Fails e))]) v1 (f d) Hn Hk1 Hd1) as (v' & errs' & H1 & H2 & H3 & _). exists v', errs'. split; [done|]. split; [done|]. split; [done|].
    intros [Hw1 _]%Forall_cons. by specialize (Hw Hw1).
Qed.

Definition first_changes (envs : nat -> venv) (p : prefs) : list (string * venv * (Data -> Data)) := [
  ("failed to migrate IMAP port", envs 0%nat, set_Settings (with_IMAPPort (p_IMAPPort p))); ("failed to migrate SMTP port", envs 1%nat, set_Settings (with_SMTPPort (p_SMTPPort p)));
  ("failed to migrate SMTP SSL", envs 2%nat, set_Settings (with_SMTPSSL (p_SMTPSSL p))); ("failed to migrate auto update", envs 3%nat, set_Settings (with_AutoUpdate (p_AutoUpdate p)));
  ("failed to migrate update channel", envs 4%nat, set_Settings (with_UpdateChannel (p_UpdateChannel p))); ("failed to migrate rollout", envs 5%nat, set_Settings (with_UpdateRollout (p_UpdateRollout p)));
  ("failed to migrate first start", envs 6%nat, set_Settings (with_FirstStart (p_FirstStart p))); ("failed to migrate color scheme", envs 7%nat, set_Settings (with_ColorScheme (p_ColorScheme p)))].
Definition last_changes (envs : nat -> venv) (p : prefs) (lv : string) : list (string * venv * (Data -> Data)) := [
  ("failed to migrate last version", envs 8%nat, set_Settings (with_LastVersion lv)); ("failed to migrate autostart", envs 9%nat, set_Settings (with_Autostart (p_Autostart p)));
  ("failed to migrate allow proxy", envs 10%nat, set_Settings (with_ProxyAllowed (p_AllowProxy p))); ("failed to migrate show all mail", envs 11%nat, set_Settings (with_ShowAllMail (p_ShowAllMail p)));
  ("failed to migrate cookies", envs 12%nat, set_Cookies (bytes_of (p_Cookies p)))].
Definition as_call (x : string * venv * (Data -> Data)) : string * eff Vault fault () := (x.1.1, modSafe x.1.2 x.2).

Lemma calls_with_version envs p lv : p_LastVersion p = Some lv -> setting_calls envs p = as_call <$> (first_changes envs p ++ last_changes envs p lv).
Proof. intros Hlv. unfold setting_calls. rewrite Hlv. reflexivity. Qed.
Lemma calls_without_version envs p : p_LastVersion p = None -> exists msg rest, setting_calls envs p = (as_call <$> first_changes envs p) ++ (msg, fails Panics) :: rest.
Proof. intros Hlv. unfold setting_calls. rewrite Hlv. eexists _, _. reflexivity. Qed.
Lemma changes_with_prefs envs p lv d : foldl (fun d x => x.2 d) d (first_changes envs p ++ last_changes envs p lv) = with_prefs p lv d.
Proof. unfold first_changes, last_changes. cbn [app foldl snd]. rewrite !set_Settings_comp. reflexivity. Qed.
Lemma changes_envs (P : venv -> Prop) envs p lv : (forall n, P (envs n)) -> Forall (fun x => P x.1.2) (first_changes envs p ++ last_changes envs p lv) /\ Forall (fun x => P x.1.2) (first_changes envs p).
Proof. intros HP. split; repeat (apply Forall_cons; split; [apply HP|]); by apply Forall_nil. Qed.

Lemma set_each_app c1 c2 : forall errs (w : Vault), set_each (c1 ++ c2) errs w = match set_each c1 errs w with (w, Ok errs) => set_each c2 errs w | (w, Err e) => (w, Err e) end.
Proof. induction c1 as [|[msg call] c1 IH]; intros errs w; [done|]. cbn [app set_each]. destruct (call w) as [w1 [[]|[|e]]]; [apply IH|done|apply IH]. Qed.

(** The settings of the older bridge are taken over, all of them even when some cannot be written, and the migration reports an error
    only when one cannot; but a file without the last version ends the program. *)
Theorem settings_taken_over (envs : nat -> venv) (p : prefs) (k : gcm) (v : Vault) (d : Data) :
  (forall n, venv_ok (envs n)) -> v_gcm v = Some k -> holds k (v_enc v) d ->
  match p_LastVersion p with
  | Some lv => exists v' errs, set_each (setting_calls envs p) [] v = (v', Ok errs) /\ holds k (v_enc v') (with_prefs p lv d) /\ ((forall n, writes (envs n)) -> errs = [])
  | None => (set_each (setting_calls envs p) [] v).2 = Err Panics
  end.
Proof.
  intros Hn Hk Hd. destruct (p_LastVersion p) as [lv|] eqn:Hlv.
  - rewrite (calls_with_version _ _ _ Hlv), <- (changes_with_prefs envs). destruct (changes_envs venv_ok envs p lv Hn) as [Hall _].
    destruct (set_each_modSafe k (first_changes envs p ++ last_changes envs p lv) [] v d Hall Hk Hd) as (v' & errs & H1 & _ & H3 & H4).
    exists v', errs. split; [exact H1|]. split; [exact H3|]. intros Hw. apply H4. by apply (changes_envs writes).
  - destruct (calls_without_version envs p Hlv) as (msg & rest & ->). rewrite set_each_app. destruct (changes_envs venv_ok envs p "" Hn) as [_ Hall].
    destruct (set_each_modSafe k (first_changes envs p) [] v d Hall Hk Hd) as (v' & errs & H1 & _). unfold as_call. rewrite H1. reflexivity.
Qed.

End accounts.

(** ** Examples *)

Section examples.
#[local] Existing Instance ex_helper.
#[local] Existing Instance ex_codec.
#[local] Existing Instance ex_laws.
#[local] Instance ex_scan : ScanInt := {| Sscan := fun s => match Json.parse_number s with Some (z, EmptyString) => Some z | _ => None end |}.
#[local] Instance ex_scan_laws : ScanIntLaws.
Proof. split. intros z _. unfold Sscan, ex_scan. by rewrite Json.parse_print_Z. Qed.
#[local] Existing Instance merge_sort_by.

Definition ex_creds : Credentials := mkCredentials "id1" "me" "me@pm.me;alias@pm.me" "uid:ref" [1; 2] "AQID" "v2" 17 false false.
Definition ex_old : Credentials := mkCredentials "id2" "old" "" "no token" [] "" "v2" 5 false true.

Lemma credentials_round_trip_witness : Unmarshal "id1" (Marshal ex_creds) = Ok ex_creds.
Proof. apply (credentials_round_trip ex_creds); [repeat constructor|repeat (constructor; [unfold is_byte; lia|]); constructor|unfold i64_ok; cbn; lia]. Defined.

(** Entries of the importer have no password for mail clients, and an empty one is set: the empty password then matches. *)
Definition importer_secret : bytes := EncodeToString (bytes_of (Join ["name"; "mails"; "uid:ref"; "pass"; "v1"; "7"] nul)).
Example importer_password_empty : (c_BridgePassword <$> Unmarshal "id" importer_secret, B64RawDecode (bytes_of "")) = (Ok "", Some []).
Proof. vm_compute. reflexivity. Qed.

Definition ex_kc : Keychain := mkKeychain "pass" "protonmail/bridge/users".
Definition ex_secrets : gmap string (string * bytes) :=
  <[secretURL ex_kc "id1" := ("id1", Marshal ex_creds)]> (<[secretURL ex_kc "id2" := ("id2", Marshal ex_old)]> ∅).
Definition ex_ks : kstate := mkKstate ∅ ∅ (fun _ => ex_secrets) false.
Definition ex_menv : kenv := ex_kenv ["pass"] [].

Example ex_accounts_listed : (store_List ex_menv ex_kc ex_ks).2 = Ok ["id2"; "id1"].
Proof. vm_compute. reflexivity. Qed.

Definition ex_vault0 : Vault := ex_with [] ∅.
Lemma ex_rest : at_rest ex_vault0 ex_key [].
Proof. split; [|done]. apply ex_with_ok; [constructor|]. intros i n Hi. by rewrite lookup_empty in Hi. Qed.
Definition ex_aenv : account_env := mkAccountEnv Vault.ex_env Vault.ex_env Vault.ex_env.
Lemma ex_got : store_get ex_menv ex_kc "id1" ex_ks = (ex_ks, Ok ex_creds).
Proof. vm_compute. reflexivity. Qed.

Lemma ex_quiet : forall id : string, quiet_account ((fun _ => ex_aenv) id).
Proof. intros id. by split. Qed.
Lemma ex_writes : writes Vault.ex_env.
Proof. by split. Qed.
Lemma ex_succeeds : (migrateOldAccount ex_menv ex_aenv ex_kc "id1" (ex_ks, ex_vault0)).2 = Ok ().
Proof.
  apply (account_succeeds ex_menv ex_aenv ex_kc "id1" ex_key ex_ks ex_ks ex_vault0 [] ex_creds "uid" "ref" [1; 2; 3]);
    [exact ex_writes|exact ex_writes|exact ex_writes|exact ex_rest|apply not_elem_of_nil|exact ex_got|reflexivity|reflexivity].
Qed.

Lemma account_migrated_witness : exists creds u dec, (store_get ex_menv ex_kc "id1" ex_ks).2 = Ok creds /\ ud_Username u = c_Name creds /\ ud_BridgePass u = dec /\ B64RawDecode (bytes_of (c_BridgePassword creds)) = Some dec.
Proof.
  destruct (migrateOldAccount ex_menv ex_aenv ex_kc "id1" (ex_ks, ex_vault0)) as [[ks' v'] r] eqn:Hrun.
  assert (Hr := ex_succeeds). rewrite Hrun in Hr. cbn [snd] in Hr. subst r.
  destruct (account_migrated ex_menv ex_aenv ex_kc "id1" ex_key ex_ks ks' ex_vault0 v' [] (ex_quiet "id1") ex_rest Hrun) as (creds & u & dec & H1 & _ & _ & _ & H2 & _ & _ & _ & H3 & H4 & _). exists creds, u, dec. exact (conj H1 (conj H2 (conj H4 H3))).
Defined.

Lemma ex_listing : store_List ex_menv ex_kc ex_ks = (ex_ks, Ok ["id2"; "id1"]).
Proof. vm_compute. reflexivity. Qed.

Definition ex_prefs : prefs := mkPrefs 1144 1026 true false "early" (1 # 2) false "dark" (Some "2.4.8") true false true "".
Lemma settings_taken_over_witness : exists v' errs, set_each (setting_calls (fun _ => Vault.ex_env) ex_prefs) [] ex_vault0 = (v', Ok errs) /\
  holds ex_key (v_enc v') (with_prefs ex_prefs "2.4.8" (ex_data [])) /\ ((forall n, writes ((fun _ : nat => Vault.ex_env) n)) -> errs = []).
Proof.
  apply (settings_taken_over (fun _ => Vault.ex_env) ex_prefs ex_key ex_vault0 (ex_data [])); [done|done|]. intros env. apply unmarshal_marshalFile. done.
Defined.

(** A file of the older bridge without its version ends the program in the middle of the migration. *)
Example version_missing_panics (p : prefs) : p_LastVersion p = None -> exists msg rest, setting_calls (fun _ => Vault.ex_env) p = (as_call <$> first_changes (fun _ => Vault.ex_env) p) ++ (msg, fails Panics) :: rest.
Proof. apply calls_without_version. Qed.

End examples.
