(* ===== verification/Heartbeat.v ===== *)
(** * The daily heartbeat (internal/telemetry, internal/bridge/heartbeat.go, internal/services/telemetry)

    Once a day the bridge tells the API how it is set up, when neither its own setting nor
    that of one of its users forbids it. What it tells follows the settings as they change; whether a user allows it is known to a
    service for each user, which asks the API and follows its events. *)

From Stdlib Require Import QArith Qround.
From S2P Require Import Prelude.
From S2P Require Import Strings.
From S2P Require Import UserIdentity.
From S2P Require Import MediaTypes.
From S2P Require Import Observability.
From S2P Require Vault.

(** ** What is told (internal/telemetry/types_heartbeat.go, heartbeat.go) *)

Definition dimensionSSL : string := "ssl".
Definition dimensionStartTLS : string := "starttls".

Record HeartbeatValues : Type := mkValues { NumberConnectedAccounts : Z; Rollout : Z }.
Record HeartbeatDimensions : Type := mkDimensions {
  AutoUpdateEnabled : string; AutoStartEnabled : string; BetaEnabled : string; DohEnabled : string; UseSplitMode : string; ShowAllMail : string;
  UseDefaultIMAPPort : string; UseDefaultSMTPPort : string; UseDefaultCacheLocation : string; UseDefaultKeychain : string; ContactedByAppleNotes : string;
  PrevVersion : string; IMAPConnectionMode : string; SMTPConnectionMode : string; UserPlanGroup : string
}.
Record HeartbeatData : Type := mkHeartbeatData' { MeasurementGroup : string; Event : string; Values : HeartbeatValues; Dimensions : HeartbeatDimensions }.

Definition NewHeartbeatDimensions : HeartbeatDimensions :=
  mkDimensions "false" "false" "false" "false" "false" "false" "false" "false" "false" "false" "false" "unknown" dimensionSSL dimensionSSL plan_Unknown.

Record Heartbeat : Type := mkHeartbeat { metrics : HeartbeatData; defaultIMAPPort : Z; defaultSMTPPort : Z; defaultCache : string; defaultKeychain : string }.
Definition NewHeartbeat (imapPort smtpPort : Z) (cacheDir keychain : string) : Heartbeat :=
  mkHeartbeat (mkHeartbeatData' "bridge.any.heartbeat" "bridge_heartbeat_new" (mkValues 0 0) NewHeartbeatDimensions) imapPort smtpPort cacheDir keychain.

Definition FormatBool (b : bool) : string := if b then "true" else "false".
Definition EarlyChannel : string := "early".

(** Each setter changes one value. *)
Definition on_metrics (f : HeartbeatData -> HeartbeatData) (h : Heartbeat) : Heartbeat := mkHeartbeat (f (metrics h)) (defaultIMAPPort h) (defaultSMTPPort h) (defaultCache h) (defaultKeychain h).
Definition on_values (f : HeartbeatValues -> HeartbeatValues) : Heartbeat -> Heartbeat := on_metrics (fun m => mkHeartbeatData' (MeasurementGroup m) (Event m) (f (Values m)) (Dimensions m)).
Definition on_dimensions (f : HeartbeatDimensions -> HeartbeatDimensions) : Heartbeat -> Heartbeat := on_metrics (fun m => mkHeartbeatData' (MeasurementGroup m) (Event m) (Values m) (f (Dimensions m))).
Definition dims (h : Heartbeat) : HeartbeatDimensions := Dimensions (metrics h).

(** The product of a 64-bit float with 10, which is rounded. *)
Class FloatTimesTen : Type := { times_ten : Q -> Q }.

(** [int(math.Floor(val * 10))]. *)
Definition SetRollout `{FloatTimesTen} (val : Q) : Heartbeat -> Heartbeat := on_values (fun v => mkValues (NumberConnectedAccounts v) (Qfloor (times_ten val))).
Definition GetRollout (h : Heartbeat) : Z := Rollout (Values (metrics h)).
Definition SetNumberConnectedAccounts (val : Z) : Heartbeat -> Heartbeat := on_values (fun v => mkValues val (Rollout v)).
Definition SetAutoUpdate (val : bool) : Heartbeat -> Heartbeat := on_dimensions (fun d =>
  mkDimensions (FormatBool val) (AutoStartEnabled d) (BetaEnabled d) (DohEnabled d) (UseSplitMode d) (ShowAllMail d) (UseDefaultIMAPPort d) (UseDefaultSMTPPort d) (UseDefaultCacheLocation d) (UseDefaultKeychain d) (ContactedByAppleNotes d) (PrevVersion d) (IMAPConnectionMode d) (SMTPConnectionMode d) (UserPlanGroup d)).
Definition SetAutoStart (val : bool) : Heartbeat -> Heartbeat := on_dimensions (fun d =>
  mkDimensions (AutoUpdateEnabled d) (FormatBool val) (BetaEnabled d) (DohEnabled d) (UseSplitMode d) (ShowAllMail d) (UseDefaultIMAPPort d) (UseDefaultSMTPPort d) (UseDefaultCacheLocation d) (UseDefaultKeychain d) (ContactedByAppleNotes d) (PrevVersion d) (IMAPConnectionMode d) (SMTPConnectionMode d) (UserPlanGroup d)).
Definition SetBeta (val : string) : Heartbeat -> Heartbeat := on_dimensions (fun d =>
  mkDimensions (AutoUpdateEnabled d) (AutoStartEnabled d) (FormatBool (String.eqb val EarlyChannel)) (DohEnabled d) (UseSplitMode d) (ShowAllMail d) (UseDefaultIMAPPort d) (UseDefaultSMTPPort d) (UseDefaultCacheLocation d) (UseDefaultKeychain d) (ContactedByAppleNotes d) (PrevVersion d) (IMAPConnectionMode d) (SMTPConnectionMode d) (UserPlanGroup d)).
Definition SetDoh (val : bool) : Heartbeat -> Heartbeat := on_dimensions (fun d =>
  mkDimensions (AutoUpdateEnabled d) (AutoStartEnabled d) (BetaEnabled d) (FormatBool val) (UseSplitMode d) (ShowAllMail d) (UseDefaultIMAPPort d) (UseDefaultSMTPPort d) (UseDefaultCacheLocation d) (UseDefaultKeychain d) (ContactedByAppleNotes d) (PrevVersion d) (IMAPConnectionMode d) (SMTPConnectionMode d) (UserPlanGroup d)).
Definition SetSplitMode (val : bool) : Heartbeat -> Heartbeat := on_dimensions (fun d =>
  mkDimensions (AutoUpdateEnabled d) (AutoStartEnabled d) (BetaEnabled d) (DohEnabled d) (FormatBool val) (ShowAllMail d) (UseDefaultIMAPPort d) (UseDefaultSMTPPort d) (UseDefaultCacheLocation d) (UseDefaultKeychain d) (ContactedByAppleNotes d) (PrevVersion d) (IMAPConnectionMode d) (SMTPConnectionMode d) (UserPlanGroup d)).
Definition SetShowAllMail (val : bool) : Heartbeat -> Heartbeat := on_dimensions (fun d =>
  mkDimensions (AutoUpdateEnabled d) (AutoStartEnabled d) (BetaEnabled d) (DohEnabled d) (UseSplitMode d) (FormatBool val) (UseDefaultIMAPPort d) (UseDefaultSMTPPort d) (UseDefaultCacheLocation d) (UseDefaultKeychain d) (ContactedByAppleNotes d) (PrevVersion d) (IMAPConnectionMode d) (SMTPConnectionMode d) (UserPlanGroup d)).
Definition SetIMAPConnectionMode (val : bool) : Heartbeat -> Heartbeat := on_dimensions (fun d =>
  mkDimensions (AutoUpdateEnabled d) (AutoStartEnabled d) (BetaEnabled d) (DohEnabled d) (UseSplitMode d) (ShowAllMail d) (UseDefaultIMAPPort d) (UseDefaultSMTPPort d) (UseDefaultCacheLocation d) (UseDefaultKeychain d) (ContactedByAppleNotes d) (PrevVersion d) (if val then dimensionSSL else dimensionStartTLS) (SMTPConnectionMode d) (UserPlanGroup d)).
Definition SetSMTPConnectionMode (val : bool) : Heartbeat -> Heartbeat := on_dimensions (fun d =>
  mkDimensions (AutoUpdateEnabled d) (AutoStartEnabled d) (BetaEnabled d) (DohEnabled d) (UseSplitMode d) (ShowAllMail d) (UseDefaultIMAPPort d) (UseDefaultSMTPPort d) (UseDefaultCacheLocation d) (UseDefaultKeychain d) (ContactedByAppleNotes d) (PrevVersion d) (IMAPConnectionMode d) (if val then dimensionSSL else dimensionStartTLS) (UserPlanGroup d)).
Definition SetIMAPPort (val : Z) (h : Heartbeat) : Heartbeat := on_dimensions (fun d =>
  mkDimensions (AutoUpdateEnabled d) (AutoStartEnabled d) (BetaEnabled d) (DohEnabled d) (UseSplitMode d) (ShowAllMail d) (FormatBool (val =? defaultIMAPPort h)) (UseDefaultSMTPPort d) (UseDefaultCacheLocation d) (UseDefaultKeychain d) (ContactedByAppleNotes d) (PrevVersion d) (IMAPConnectionMode d) (SMTPConnectionMode d) (UserPlanGroup d)) h.
Definition SetSMTPPort (val : Z) (h : Heartbeat) : Heartbeat := on_dimensions (fun d =>
  mkDimensions (AutoUpdateEnabled d) (AutoStartEnabled d) (BetaEnabled d) (DohEnabled d) (UseSplitMode d) (ShowAllMail d) (UseDefaultIMAPPort d) (FormatBool (val =? defaultSMTPPort h)) (UseDefaultCacheLocation d) (UseDefaultKeychain d) (ContactedByAppleNotes d) (PrevVersion d) (IMAPConnectionMode d) (SMTPConnectionMode d) (UserPlanGroup d)) h.
Definition SetCacheLocation (val : string) (h : Heartbeat) : Heartbeat := on_dimensions (fun d =>
  mkDimensions (AutoUpdateEnabled d) (AutoStartEnabled d) (BetaEnabled d) (DohEnabled d) (UseSplitMode d) (ShowAllMail d) (UseDefaultIMAPPort d) (UseDefaultSMTPPort d) (FormatBool (String.eqb val (defaultCache h))) (UseDefaultKeychain d) (ContactedByAppleNotes d) (PrevVersion d) (IMAPConnectionMode d) (SMTPConnectionMode d) (UserPlanGroup d)) h.
Definition SetKeyChainPref (val : string) (h : Heartbeat) : Heartbeat := on_dimensions (fun d =>
  mkDimensions (AutoUpdateEnabled d) (AutoStartEnabled d) (BetaEnabled d) (DohEnabled d) (UseSplitMode d) (ShowAllMail d) (UseDefaultIMAPPort d) (UseDefaultSMTPPort d) (UseDefaultCacheLocation d) (FormatBool (String.eqb val (defaultKeychain h))) (ContactedByAppleNotes d) (PrevVersion d) (IMAPConnectionMode d) (SMTPConnectionMode d) (UserPlanGroup d)) h.
Definition SetPrevVersion (val : string) : Heartbeat -> Heartbeat := on_dimensions (fun d =>
  mkDimensions (AutoUpdateEnabled d) (AutoStartEnabled d) (BetaEnabled d) (DohEnabled d) (UseSplitMode d) (ShowAllMail d) (UseDefaultIMAPPort d) (UseDefaultSMTPPort d) (UseDefaultCacheLocation d) (UseDefaultKeychain d) (ContactedByAppleNotes d) (val) (IMAPConnectionMode d) (SMTPConnectionMode d) (UserPlanGroup d)).
(** The plan is compared as a group and stored as it is named. *)
Definition set_plan (val : string) : Heartbeat -> Heartbeat := on_dimensions (fun d =>
  mkDimensions (AutoUpdateEnabled d) (AutoStartEnabled d) (BetaEnabled d) (DohEnabled d) (UseSplitMode d) (ShowAllMail d) (UseDefaultIMAPPort d) (UseDefaultSMTPPort d) (UseDefaultCacheLocation d) (UseDefaultKeychain d) (ContactedByAppleNotes d) (PrevVersion d) (IMAPConnectionMode d) (SMTPConnectionMode d) (val)).
Definition SetUserPlan (val : string) (h : Heartbeat) : Heartbeat :=
  let mappedUserPlan := MapUserPlan val in if IsHigherPriority (UserPlanGroup (dims h)) mappedUserPlan then set_plan val h else h.
Definition set_notes  : Heartbeat -> Heartbeat := on_dimensions (fun d =>
  mkDimensions (AutoUpdateEnabled d) (AutoStartEnabled d) (BetaEnabled d) (DohEnabled d) (UseSplitMode d) (ShowAllMail d) (UseDefaultIMAPPort d) (UseDefaultSMTPPort d) (UseDefaultCacheLocation d) (UseDefaultKeychain d) (FormatBool true) (PrevVersion d) (IMAPConnectionMode d) (SMTPConnectionMode d) (UserPlanGroup d)).
Definition SetContactedByAppleNotes (uaName : string) (h : Heartbeat) : Heartbeat :=
  let uaNameLowered := ToLower uaName in if str_contains uaNameLowered "mac" && str_contains uaNameLowered "notes" then set_notes h else h.

(** ** The telemetry service of a user (internal/services/telemetry/service.go) *)

Record telemetry_service : Type := mkTelemetry { isTelemetryEnabled : bool; isInitialised : bool }.
Definition NewService : telemetry_service := mkTelemetry false false.

(** The answer of the API to [GetUserSettings]: whether telemetry is enabled; [None] is an error. *)
Definition initialise (answer : option bool) (s : telemetry_service) : telemetry_service :=
  match answer with None => mkTelemetry false false | Some enabled => mkTelemetry enabled true end.

Inductive telemetry_input : Type :=
| IsTelemetryEnabledReq (answer : option bool)
| HandleRefreshEvent (answer : option bool)
| HandleUserSettingsEvent (enabled : bool).

(** One turn of [run], and the reply to a request. *)
Definition telemetry_step (i : telemetry_input) (s : telemetry_service) : telemetry_service * option bool :=
  match i with
  | IsTelemetryEnabledReq answer => let s := if isInitialised s then s else initialise answer s in (s, Some (isTelemetryEnabled s))
  | HandleRefreshEvent answer => (initialise answer s, None)
  | HandleUserSettingsEvent enabled => (mkTelemetry enabled true, None)
  end.
Definition telemetry_run (answer : option bool) (l : list telemetry_input) : telemetry_service := foldl (fun s i => (telemetry_step i s).1) (initialise answer NewService) l.

(** ** Sending (internal/bridge/heartbeat.go, telemetry/heartbeat.go) *)

(** The calendar of the place where the bridge runs. *)
Class Calendar : Type := { Year : Z -> Z; YearDay : Z -> Z }.

(** The state of the task, the time of the last heartbeat in the vault and in its file, and what was sent. *)
Record heart : Type := mkHeart {
  h_beat : Heartbeat; taskStarted : bool; lastSent : Z; savedSent : Z; h_sent : list (Z * HeartbeatData)
}.

(** At a try: the setting of the bridge, the replies of the users' services, which of them the API accepts data from, and whether the time
    can be written to the file. *)
Record beat_env : Type := mkBeatEnv { telemetryDisabled : bool; users_allow : list bool; users_send : list bool; saves : bool }.

Definition IsTelemetryAvailable (env : beat_env) : bool := negb (telemetryDisabled env) && forallb id (users_allow env).
(** The first user for whom it works sends it. *)
Definition SendHeartbeat (env : beat_env) : bool := existsb id (users_send env).
Definition SetLastHeartbeatSent (env : beat_env) (now : Z) (s : heart) : heart :=
  mkHeart (h_beat s) (taskStarted s) now (if saves env then now else savedSent s) (h_sent s).

Definition later_day `{Calendar} (now last : Z) : bool := (Year last <? Year now) || ((Year now =? Year last) && (YearDay last <? YearDay now)).
Definition TrySending `{Calendar} (env : beat_env) (now : Z) (s : heart) : heart :=
  if IsTelemetryAvailable env && later_day now (lastSent s) then
    if SendHeartbeat env then SetLastHeartbeatSent env now (mkHeart (h_beat s) (taskStarted s) (lastSent s) (savedSent s) (h_sent s ++ [(now, metrics (h_beat s))])) else s
  else s.

Definition start (s : heart) : heart := mkHeart (h_beat s) true (lastSent s) (savedSent s) (h_sent s).
Definition stop (s : heart) : heart := mkHeart (h_beat s) false (lastSent s) (savedSent s) (h_sent s).

(** [init]: the settings, the outcome of [GetKeychainApp], the last version, and the mode and the plan of each user. *)
Definition add_heartbeat_user (u : VaultMode * string) (acc : bool * Heartbeat) : bool * Heartbeat :=
  (match u.1 with SplitMode => true | CombinedMode => acc.1 end, SetUserPlan u.2 acc.2).
Definition init `{FloatTimesTen} (st : Vault.Settings) (keychainApp : option string) (defaultHelper : string) (lastVersion : string) (users : list (VaultMode * string)) (last : Z) : heart :=
  let h := NewHeartbeat 1143 1025 (Vault.GluonDir st) defaultHelper in
  let h := SetRollout (Vault.UpdateRollout st) h in
  let h := SetAutoStart (Vault.Autostart st) h in
  let h := SetAutoUpdate (Vault.AutoUpdate st) h in
  let h := SetBeta (Vault.UpdateChannel st) h in
  let h := SetDoh (Vault.ProxyAllowed st) h in
  let h := SetShowAllMail (Vault.ShowAllMail st) h in
  let h := SetIMAPConnectionMode (Vault.IMAPSSL st) h in
  let h := SetSMTPConnectionMode (Vault.SMTPSSL st) h in
  let h := SetIMAPPort (Vault.IMAPPort st) h in
  let h := SetSMTPPort (Vault.SMTPPort st) h in
  let h := SetCacheLocation (Vault.GluonDir st) h in
  let h := match keychainApp with None => SetKeyChainPref "" h | Some _ => SetKeyChainPref defaultHelper h end in
  let h := SetPrevVersion lastVersion h in
  let '(splitMode, h) := foldl (fun acc u => add_heartbeat_user u acc) (false, h) users in
  let h := SetNumberConnectedAccounts (Z.of_nat (length users)) h in
  let h := SetSplitMode splitMode h in
  let s := mkHeart h false last last [] in
  if (0 <? Z.of_nat (length users)) then start s else s.

(** ** What is sent when *)

Inductive beat_input : Type :=
| Tick (env : beat_env)
| StartTask
| StopTask
| Change (f : Heartbeat -> Heartbeat).

(** The task tries while it is started. *)
Definition beat_step `{Calendar} (now : Z) (i : beat_input) (s : heart) : heart :=
  match i with
  | Tick env => if taskStarted s then TrySending env now s else s
  | StartTask => start s
  | StopTask => stop s
  | Change f => mkHeart (f (h_beat s)) (taskStarted s) (lastSent s) (savedSent s) (h_sent s)
  end.
Fixpoint beats `{Calendar} (l : list (Z * beat_input)) (s : heart) : heart := match l with [] => s | (now, i) :: l => beats l (beat_step now i s) end.

(** Each time is on a later day than the one before. *)
Fixpoint on_days `{Calendar} (ts : list Z) : Prop := match ts with t1 :: ((t2 :: _) as rest) => later_day t2 t1 = true /\ on_days rest | _ => True end.

Lemma on_days_snoc `{Calendar} ts t : on_days ts -> (forall t0, last ts = Some t0 -> later_day t t0 = true) -> on_days (ts ++ [t]).
Proof.
  induction ts as [|t1 ts IH]; intros Hs Hl; [done|]. destruct ts as [|t2 ts]; [cbn; split; [by apply Hl|done]|].
  change (on_days (t1 :: (t2 :: ts) ++ [t])). destruct Hs as [H1 H2]. split; [done|]. by apply IH.
Qed.

(** A try that sent. *)
Definition sent_at `{Calendar} (l : list (Z * beat_input)) (t : Z) : Prop :=
  exists env, (t, Tick env) ∈ l /\ telemetryDisabled env = false /\ Forall (fun b => b = true) (users_allow env) /\ true ∈ users_send env.

Lemma TrySending_cases `{Calendar} env now s :
  TrySending env now s = s \/
  (later_day now (lastSent s) = true /\ telemetryDisabled env = false /\ Forall (fun b => b = true) (users_allow env) /\ true ∈ users_send env /\
   h_sent (TrySending env now s) = h_sent s ++ [(now, metrics (h_beat s))] /\ lastSent (TrySending env now s) = now).
Proof.
  unfold TrySending. destruct (IsTelemetryAvailable env) eqn:Ha; cbn [andb]; [|by left]. destruct (later_day now (lastSent s)) eqn:Hd; [|by left].
  destruct (SendHeartbeat env) eqn:Hs; [|by left]. right. split; [done|]. unfold IsTelemetryAvailable in Ha. apply andb_true_iff in Ha as [H1 H2]. apply negb_true_iff in H1. split; [done|].
  split; [apply Forall_forall; intros b Hb; rewrite forallb_forall in H2; apply (H2 b); by apply list_elem_of_In|]. split; [|done].
  unfold SendHeartbeat in Hs. apply existsb_exists in Hs as (b & Hb & Ht). unfold id in Ht. subst b. by apply list_elem_of_In.
Qed.

(** A heartbeat is sent only while the bridge and every user allow telemetry, and the heartbeats of a run are on days that follow
    each other, the first on a later day than the last one before. *)
Theorem heartbeat_once_a_day `{Calendar} (l : list (Z * beat_input)) (s : heart) :
  h_sent s = [] -> on_days (lastSent s :: (h_sent (beats l s)).*1) /\ Forall (sent_at l) (h_sent (beats l s)).*1.
Proof.
  intros H0. assert (Hgen : forall l s, on_days (lastSent s :: []) -> forall base sent0, on_days (base :: sent0.*1) -> last (base :: sent0.*1) = Some (lastSent s) -> h_sent s = sent0 ->
    on_days (base :: (h_sent (beats l s)).*1) /\ exists more, h_sent (beats l s) = sent0 ++ more /\ Forall (sent_at l) more.*1).
  { clear. induction l as [|[now i] l IH]; intros s Ht base sent0 Hd Hl Hs; cbn [beats]; [rewrite Hs; split; [done|]; exists []; rewrite app_nil_r; done|].
    assert (Hsame : forall s', lastSent s' = lastSent s -> h_sent s' = h_sent s ->
      on_days (base :: (h_sent (beats l s')).*1) /\ exists more, h_sent (beats l s') = sent0 ++ more /\ Forall (sent_at ((now, i) :: l)) more.*1).
    { intros s' H1 H2. destruct (IH s' I base sent0 Hd) as (A & more & B & C); [by rewrite H1|by rewrite H2|]. split; [done|]. exists more. split; [done|].
      eapply Forall_impl; [exact C|]. intros t (env & He & ?). exists env. split; [by right|done]. }
    destruct i as [env| | |f]; cbn [beat_step]; try by apply Hsame. destruct (taskStarted s); [|by apply Hsame].
    destruct (TrySending_cases env now s) as [->|(Hday & H1 & H2 & H3 & H4 & H5)]; [by apply Hsame|].
    destruct (IH (TrySending env now s) I base (sent0 ++ [(now, metrics (h_beat s))])) as (A & more & B & C).
    - rewrite fmap_app. change (base :: sent0.*1 ++ [(now, metrics (h_beat s))].*1) with ((base :: sent0.*1) ++ [now]). apply on_days_snoc; [done|]. intros t0 Ht0. rewrite Hl in Ht0. by injection Ht0 as <-.
    - rewrite H5, fmap_app. change (base :: sent0.*1 ++ [(now, metrics (h_beat s))].*1) with ((base :: sent0.*1) ++ [now]). by rewrite last_snoc.
    - by rewrite H4, Hs.
    - split; [done|]. exists ((now, metrics (h_beat s)) :: more). split; [by rewrite B, <- app_assoc|]. rewrite fmap_cons. constructor.
      + exists env. split; [left|done].
      + eapply Forall_impl; [exact C|]. intros t (env' & He & ?). exists env'. split; [by right|done]. }
  destruct (Hgen l s I (lastSent s) [] I eq_refl H0) as (A & more & B & C). split; [done|]. by rewrite B.
Qed.

(** What the API said last: its answers and the events; a failure to answer forgets it. A request asks only when nothing is known. *)
Fixpoint last_known (known : option bool) (l : list telemetry_input) : option bool :=
  match l with
  | [] => known
  | IsTelemetryEnabledReq answer :: l => last_known (match known with Some _ => known | None => answer end) l
  | HandleRefreshEvent answer :: l => last_known answer l
  | HandleUserSettingsEvent enabled :: l => last_known (Some enabled) l
  end.

(** A user's telemetry counts as enabled only when the API said so last; when it did not answer it counts as disabled until it
    is asked again. *)
Theorem telemetry_as_known (answer : option bool) (l : list telemetry_input) (next : option bool) :
  (telemetry_step (IsTelemetryEnabledReq next) (telemetry_run answer l)).2 = Some (default false (last_known answer (l ++ [IsTelemetryEnabledReq next]))).
Proof.
  assert (Hstate : forall l s k, s = mkTelemetry (default false k) (bool_decide (is_Some k)) -> foldl (fun s i => (telemetry_step i s).1) s l = let k := last_known k l in mkTelemetry (default false k) (bool_decide (is_Some k))).
  { clear. induction l as [|i l IH]; intros s k ->; [done|]. cbn [foldl last_known]. destruct i as [a|a|e]; cbn [telemetry_step fst]; apply IH.
    - destruct k; [done|]. by destruct a.
    - by destruct a.
    - done. }
  assert (Happ : forall l k, last_known k (l ++ [IsTelemetryEnabledReq next]) = match last_known k l with Some b => Some b | None => next end).
  { clear. induction l as [|[a|a|e] l IH]; intros k; cbn [app last_known]; [by destruct k|apply IH..]. }
  unfold telemetry_run. rewrite (Hstate l (initialise answer NewService) answer) by by destruct answer. rewrite Happ. cbn zeta. destruct (last_known answer l) as [b|]; [done|]. by destruct next.
Qed.

(** ** Examples *)

Section examples.
#[local] Instance ex_calendar : Calendar := {| Year := fun t => t / 365; YearDay := fun t => t mod 365 + 1 |}.

Definition ex_heart : heart := start (mkHeart (NewHeartbeat 1143 1025 "/cache" "keychain") false 0 0 []).
Definition ex_allowed : beat_env := mkBeatEnv false [true; true] [false; true] true.
Definition ex_beats : list (Z * beat_input) := [(0, Tick ex_allowed); (1, Tick ex_allowed); (1, Tick ex_allowed); (2, Change (SetDoh true)); (2, Tick (mkBeatEnv false [true; false] [true] true)); (3, Tick ex_allowed)].

Example ex_sent : (fun x => (x.1, DohEnabled (Dimensions x.2))) <$> h_sent (beats ex_beats ex_heart) = [(1, "false"); (3, "true")].
Proof. vm_compute. reflexivity. Qed.

Lemma heartbeat_once_a_day_witness : on_days [0; 1; 3].
Proof. exact (proj1 (heartbeat_once_a_day ex_beats ex_heart eq_refl)). Defined.

(** The plan that is stored is not a group: any other plan then takes its place, so that the last user counts and not the highest plan. *)
Example plan_not_mapped :
  (UserPlanGroup (dims (SetUserPlan "mailpro2022" (h_beat ex_heart))), UserPlanGroup (dims (SetUserPlan "mail2022" (SetUserPlan "mailpro2022" (h_beat ex_heart))))) = ("mailpro2022", "mail2022").
Proof. vm_compute. reflexivity. Qed.

(** When the name of the keychain can be read, the default one is told in its place. *)
Lemma keychain_not_told `{FloatTimesTen} st app helper version users t : UseDefaultKeychain (dims (h_beat (init st (Some app) helper version users t))) = "true".
Proof.
  unfold init. set (h := SetPrevVersion version _). assert (Hh : UseDefaultKeychain (dims h) = "true") by (subst h; unfold dims, SetKeyChainPref, SetPrevVersion, on_dimensions, on_metrics; cbn; by rewrite String.eqb_refl).
  clearbody h. assert (Hf : forall b, UseDefaultKeychain (dims (foldl (fun acc u => add_heartbeat_user u acc) (b, h) users).2) = "true").
  { revert h Hh. induction users as [|u users IH]; intros h Hh b; [done|]. cbn [foldl add_heartbeat_user]. apply IH. unfold SetUserPlan. by destruct (IsHigherPriority _ _). }
  specialize (Hf false). destruct (foldl _ (false, h) users) as [split h']. destruct (_ <? _); done.
Qed.

End examples.
