(* ===== verification/EventStream.v ===== *)
(** * The event stream of the graphical front end (internal/frontend/grpc)

    The bridge tells the graphical client what happens through one stream of events.  Events that happen
    before the client listens wait in a queue.  The goroutines of the service share the channel
    of the stream, the queue and two locks: each is a thread here, its program counter says where it stands, and a run is
    any sequence of their steps.  Who holds a lock, or waits for it, follows from the program counters. *)

From S2P Require Import Prelude.
From S2P Require Import Strings.

(** ** Events (event_factory.go) *)

Inductive AppEvent : Type :=
| InternetStatus (connected : bool) | ToggleAutostartFinished | ResetFinished | ReportBugFinished | ReportBugSuccess | ReportBugError | ReportBugFallback
| CertificateInstallSuccess | CertificateInstallCanceled | CertificateInstallFailed | ShowMainWindow | KnowledgeBaseSuggestions (l : list (string * string))
| RepairStarted | AllUsersLoaded | UserNotification (userID title subtitle body : string).

Inductive LoginErrorType : Type :=
| USERNAME_PASSWORD_ERROR | FREE_USER | TFA_ERROR | TFA_ABORT | TWO_PASSWORDS_ERROR | TWO_PASSWORDS_ABORT | HV_ERROR | FIDO_PIN_INVALID | FIDO_PIN_BLOCKED | FIDO_ERROR.
Inductive LoginEvent : Type :=
| LoginError (t : LoginErrorType) (message : string) | TfaRequested (username : string) | FidoRequested (username : string) | TfaOrFidoRequested (username : string)
| LoginFidoTouchRequested (username : string) | LoginFidoTouchCompleted (username : string) | LoginFidoPinRequired (username : string) | TwoPasswordRequested (username : string)
| LoginFinished (userID : string) (wasSignedOut : bool) | AlreadyLoggedIn (userID : string) | HvRequested (url : string).

Inductive UpdateErrorType : Type := UPDATE_MANUAL_ERROR | UPDATE_SILENT_ERROR.
Inductive UpdateEvent : Type :=
| UpdateError (t : UpdateErrorType) | ManualReady (version : string) | ManualRestartNeeded | UpdateForce (version : string) | SilentRestartNeeded | IsLatestVersion | CheckFinished | VersionChanged.

Inductive DiskCacheEvent : Type := CantMoveDiskCache | PathChanged (path : string) | PathChangeFinished.

Inductive MailServerSettingsErrorType : Type :=
| IMAP_PORT_STARTUP_ERROR | SMTP_PORT_STARTUP_ERROR | IMAP_PORT_CHANGE_ERROR | SMTP_PORT_CHANGE_ERROR | IMAP_CONNECTION_MODE_CHANGE_ERROR | SMTP_CONNECTION_MODE_CHANGE_ERROR.
Record ImapSmtpSettings : Type := mkMailSettings { gs_ImapPort : Z; gs_SmtpPort : Z; gs_UseSSLForImap : bool; gs_UseSSLForSmtp : bool }.
Inductive MailServerSettingsEvent : Type := SettingsError (t : MailServerSettingsErrorType) | MailServerSettingsChanged (s : ImapSmtpSettings) | ChangeMailServerSettingsFinished.

Inductive KeychainEvent : Type := ChangeKeychainFinished | HasNoKeychain | RebuildKeychain.
Inductive MailEvent : Type := AddressChanged (email : string) | AddressChangedLogout (email : string) | ApiCertIssue.
Inductive UserEvent : Type :=
| ToggleSplitModeFinished (userID : string) | UserDisconnected (email : string) | UserChanged (userID : string) | UserBadEvent (userID message : string) | UsedBytesChanged (userID : string) (bytes : Z)
| ImapLoginFailed (username : string) | SyncStarted (userID : string) | SyncFinished (userID : string) | SyncProgress (userID : string) (progress elapsedMs remainingMs : Z).

Inductive StreamEvent : Type :=
| App (e : AppEvent) | Login (e : LoginEvent) | Update (e : UpdateEvent) | Cache (e : DiskCacheEvent) | MailServerSettings (e : MailServerSettingsEvent)
| Keychain (e : KeychainEvent) | Mail (e : MailEvent) | User (e : UserEvent).

Definition isInternetStatus (e : StreamEvent) : bool := match e with App (InternetStatus _) => true | _ => false end.
Definition filterOutInternetStatusEvents (events : list StreamEvent) : list StreamEvent := Prelude.Filter events (fun e => negb (isInternetStatus e)).

(** ** Threads (service_stream.go, service_methods.go) *)

(** A channel is a number; a variable of a channel that is nil is [None]. *)
Inductive thread : Type :=
(* RunEventStream *)
| RunCheck | RunCreate | RunCreateWait | RunSetDone | RunLoop | RunSelect (ch done : option nat) | RunSend (e : option StreamEvent) | RunClose | RunDelete | RunDeleteWait | RunCloseDone
(* its goroutine that sends the queue *)
| FlushLock | FlushNext (l : list StreamEvent) | FlushSend (ch : option nat) (e : StreamEvent) (l : list StreamEvent)
(* SendEvent *)
| SendCheck (e : StreamEvent) | SendRead (e : StreamEvent) | SendSend (ch : option nat) (e : StreamEvent) | SendQueue (e : StreamEvent)
(* stopEventStream, which quit calls too *)
| StopLock (quits : bool) | StopRead (quits : bool) | StopSend (done : option nat) (quits : bool)
(* quit *)
| QuitParent | QuitCheck | QuitStop
| Finished | Panicked.

(** The service: [monitor] is whether [monitorParentPID] still runs, if there is a parent to watch; [received] is what the client got, an event or
    nothing; [stopped] is whether the server was told to stop. *)
Record service : Type := mkService {
  threads : list thread; streamCh : option nat; doneCh : option nat; nextCh : nat; closedChs : list nat;
  eventQueue : list StreamEvent; monitor : option bool; received : list (option StreamEvent); stopped : bool
}.

Definition set_threads (ts : list thread) (s : service) : service := mkService ts (streamCh s) (doneCh s) (nextCh s) (closedChs s) (eventQueue s) (monitor s) (received s) (stopped s).
Definition set_queue (q : list StreamEvent) (s : service) : service := mkService (threads s) (streamCh s) (doneCh s) (nextCh s) (closedChs s) q (monitor s) (received s) (stopped s).
Definition set_streamCh (c : option nat) (s : service) : service := mkService (threads s) c (doneCh s) (nextCh s) (closedChs s) (eventQueue s) (monitor s) (received s) (stopped s).
Definition set_doneCh (c : option nat) (s : service) : service := mkService (threads s) (streamCh s) c (nextCh s) (closedChs s) (eventQueue s) (monitor s) (received s) (stopped s).
Definition fresh_ch (s : service) : service := mkService (threads s) (streamCh s) (doneCh s) (S (nextCh s)) (closedChs s) (eventQueue s) (monitor s) (received s) (stopped s).
Definition close_ch (c : nat) (s : service) : service := mkService (threads s) (streamCh s) (doneCh s) (nextCh s) (c :: closedChs s) (eventQueue s) (monitor s) (received s) (stopped s).
Definition set_monitor (m : option bool) (s : service) : service := mkService (threads s) (streamCh s) (doneCh s) (nextCh s) (closedChs s) (eventQueue s) m (received s) (stopped s).
Definition receive (e : option StreamEvent) (s : service) : service := mkService (threads s) (streamCh s) (doneCh s) (nextCh s) (closedChs s) (eventQueue s) (monitor s) (received s ++ [e]) (stopped s).
Definition set_stopped (s : service) : service := mkService (threads s) (streamCh s) (doneCh s) (nextCh s) (closedChs s) (eventQueue s) (monitor s) (received s) true.

(** [eventStreamChMutex]: a writer waits for the readers, and a writer that waits keeps new readers out. *)
Definition reads (t : thread) : bool := match t with StopRead _ | StopSend _ _ => true | _ => false end.
Definition waits_to_write (t : thread) : bool := match t with RunCreateWait | RunDeleteWait => true | _ => false end.
Definition read_free (s : service) : bool := negb (existsb waits_to_write (threads s)).
Definition write_free (s : service) : bool := negb (existsb reads (threads s)).
(** [eventQueueMutex]. *)
Definition flushing (t : thread) : bool := match t with FlushNext _ | FlushSend _ _ _ => true | _ => false end.
Definition queue_free (s : service) : bool := negb (existsb flushing (threads s)).

Definition is_closed (c : option nat) (s : service) : bool := match c with Some c => existsb (Nat.eqb c) (closedChs s) | None => false end.

Definition queueEvent (event : StreamEvent) (s : service) : service :=
  if isInternetStatus event then set_queue (filterOutInternetStatusEvents (eventQueue s) ++ [event]) s else set_queue (eventQueue s ++ [event]) s.

Definition createEventStreamChannel (s : service) : service := set_streamCh (Some (nextCh s)) (fresh_ch s).
Definition deleteEventStreamChannel (s : service) : service := set_streamCh None s.
Definition isStreamingEvents (s : service) : bool := match streamCh s with Some _ => true | None => false end.

(** What is left after [stopEventStream]. *)
Definition after_stop (quits : bool) : thread := if quits then QuitStop else Finished.
(** Closing a channel that is nil or closed panics. *)
Definition close_var (c : option nat) (next : thread) (s : service) : service * thread * list thread :=
  match c with
  | Some n => if is_closed c s then (s, Panicked, []) else (close_ch n s, next, [])
  | None => (s, Panicked, [])
  end.

(** A step of a thread of its own; [None] while it is blocked. [ok] is the outcome of [server.Send], or which of two channels that are closed [select] takes. *)
Definition advance (t : thread) (ok : bool) (s : service) : option (service * thread * list thread) :=
  match t with
  | RunCheck => if read_free s then Some (s, if isStreamingEvents s then Finished else RunCreate, []) else None
  | RunCreate => if write_free s then Some (createEventStreamChannel s, RunSetDone, []) else Some (s, RunCreateWait, [])
  | RunCreateWait => if write_free s then Some (createEventStreamChannel s, RunSetDone, []) else None
  | RunSetDone => Some (set_doneCh (Some (nextCh s)) (fresh_ch s), RunLoop, [FlushLock])
  | RunLoop => Some (s, RunSelect (streamCh s) (doneCh s), [])
  | RunSelect ch done =>
      if is_closed done s && (ok || negb (is_closed ch s)) then Some (s, RunClose, [])
      else if is_closed ch s then Some (s, RunSend None, []) else None
  | RunSend e => if ok then Some (receive e s, RunLoop, []) else Some (s, RunClose, [])
  | RunClose => Some (close_var (streamCh s) RunDelete s)
  | RunDelete => if write_free s then Some (deleteEventStreamChannel s, RunCloseDone, []) else Some (s, RunDeleteWait, [])
  | RunDeleteWait => if write_free s then Some (deleteEventStreamChannel s, RunCloseDone, []) else None
  | RunCloseDone => let '(s', t, more) := close_var (doneCh s) Finished s in Some (match t with Panicked => s' | _ => set_doneCh None s' end, t, more)
  | FlushLock => if queue_free s then Some (s, FlushNext (eventQueue s), []) else None
  | FlushNext [] => Some (set_queue [] s, Finished, [])
  | FlushNext (e :: l) => Some (s, FlushSend (streamCh s) e l, [])
  | FlushSend ch e l => if is_closed ch s then Some (s, Panicked, []) else None
  | SendCheck e => if read_free s then Some (s, if isStreamingEvents s then SendRead e else SendQueue e, []) else None
  | SendRead e => Some (s, SendSend (streamCh s) e, [])
  | SendSend ch e => if is_closed ch s then Some (s, Panicked, []) else None
  | SendQueue e => if queue_free s then Some (queueEvent e s, Finished, []) else None
  | StopLock q => if read_free s then Some (s, if isStreamingEvents s then StopRead q else after_stop q, []) else None
  | StopRead q => Some (s, StopSend (doneCh s) q, [])
  | StopSend d q => if is_closed d s then Some (s, Panicked, []) else None
  | QuitParent => match monitor s with None => Some (s, QuitCheck, []) | Some true => Some (set_monitor (Some false) s, QuitCheck, []) | Some false => None end
  | QuitCheck => if read_free s then Some (s, if isStreamingEvents s then StopLock true else QuitStop, []) else None
  | QuitStop => Some (set_stopped s, Finished, [])
  | Finished | Panicked => None
  end.

(** A value passes from a thread that sends to one in its [select]. *)
Definition same_ch (a b : option nat) : bool := match a, b with Some a, Some b => Nat.eqb a b | _, _ => false end.
Definition meet (receiver sender : thread) (s : service) : option (thread * thread) :=
  match receiver, sender with
  | RunSelect ch _, SendSend c e => if same_ch ch c && negb (is_closed ch s) then Some (RunSend (Some e), Finished) else None
  | RunSelect ch _, FlushSend c e l => if same_ch ch c && negb (is_closed ch s) then Some (RunSend (Some e), FlushNext l) else None
  | RunSelect _ done, StopSend d q => if same_ch done d && negb (is_closed done s) then Some (RunClose, after_stop q) else None
  | _, _ => None
  end.

(** What happens next: a call (of the client, or of the bridge that has an event), a step of a thread, two threads that meet at a channel, or
    the client that closes the stream. *)
Inductive choice : Type := Call (t : thread) | Step (i : nat) (ok : bool) | Meet (i j : nat) | ClientCloses (i : nat).
Definition can_be_called (t : thread) : bool := match t with RunCheck | SendCheck _ | StopLock false | QuitParent => true | _ => false end.

Definition step (c : choice) (s : service) : option service :=
  match c with
  | Call t => if can_be_called t then Some (set_threads (threads s ++ [t]) s) else None
  | Step i ok =>
      t ← threads s !! i; '(s', t', more) ← advance t ok s; Some (set_threads (<[i := t']> (threads s) ++ more) s')
  | Meet i j =>
      r ← threads s !! i; t ← threads s !! j; '(r', t') ← meet r t s; Some (set_threads (<[j := t']> (<[i := r']> (threads s))) s)
  | ClientCloses i =>
      match threads s !! i with
      | Some (RunSelect _ _) => Some (set_threads (<[i := RunClose]> (threads s) ++ [QuitParent]) s)
      | _ => None
      end
  end.

Fixpoint steps (l : list choice) (s : service) : option service :=
  match l with [] => Some s | c :: l => s' ← step c s; steps l s' end.

Definition newService (parent : bool) : service := mkService [] None None 0 [] [] (if parent then Some true else None) [] false.

(** ** No event is lost while the stream is open *)

#[export] Instance AppEvent_eq : EqDecision AppEvent. Proof. solve_decision. Defined.
#[export] Instance LoginErrorType_eq : EqDecision LoginErrorType. Proof. solve_decision. Defined.
#[export] Instance LoginEvent_eq : EqDecision LoginEvent. Proof. solve_decision. Defined.
#[export] Instance UpdateErrorType_eq : EqDecision UpdateErrorType. Proof. solve_decision. Defined.
#[export] Instance UpdateEvent_eq : EqDecision UpdateEvent. Proof. solve_decision. Defined.
#[export] Instance DiskCacheEvent_eq : EqDecision DiskCacheEvent. Proof. solve_decision. Defined.
#[export] Instance MailServerSettingsErrorType_eq : EqDecision MailServerSettingsErrorType. Proof. solve_decision. Defined.
#[export] Instance ImapSmtpSettings_eq : EqDecision ImapSmtpSettings. Proof. solve_decision. Defined.
#[export] Instance MailServerSettingsEvent_eq : EqDecision MailServerSettingsEvent. Proof. solve_decision. Defined.
#[export] Instance KeychainEvent_eq : EqDecision KeychainEvent. Proof. solve_decision. Defined.
#[export] Instance MailEvent_eq : EqDecision MailEvent. Proof. solve_decision. Defined.
#[export] Instance UserEvent_eq : EqDecision UserEvent. Proof. solve_decision. Defined.
#[export] Instance StreamEvent_eq : EqDecision StreamEvent. Proof. solve_decision. Defined.

(** The events a thread still has to hand over, and all that wait somewhere. *)
Definition in_thread (t : thread) : list StreamEvent :=
  match t with
  | RunSend (Some e) | SendCheck e | SendRead e | SendSend _ e | SendQueue e => [e]
  | FlushNext l => l
  | FlushSend _ e l => e :: l
  | _ => []
  end.
Definition in_threads (ts : list thread) : list StreamEvent := concat (in_thread <$> ts).
Definition pending (s : service) : list StreamEvent := in_threads (threads s) ++ (if existsb flushing (threads s) then [] else eventQueue s).
Definition delivered (s : service) : list StreamEvent := omap id (received s).

(** The events of a run, and runs in which the stream is not ended, by the client, by an error or by the bridge. *)
Definition call_event (c : choice) : option StreamEvent := match c with Call (SendCheck e) => Some e | _ => None end.
Definition events_of (l : list choice) : list StreamEvent := omap call_event l.
Definition plain (c : choice) : bool := match c with Call RunCheck | Call (SendCheck _) | Step _ true | Meet _ _ => true | _ => false end.

(** Threads of such runs. *)
Definition calm (t : thread) : bool :=
  match t with
  | RunSend None | RunClose | RunDelete | RunDeleteWait | RunCloseDone | StopLock _ | StopRead _ | StopSend _ _ | QuitParent | QuitCheck | QuitStop | Panicked => false
  | _ => true
  end.

Definition cnt (x : StreamEvent) (l : list StreamEvent) : nat := count_occ StreamEvent_eq l x.
Lemma cnt_app x l l' : cnt x (l ++ l') = (cnt x l + cnt x l')%nat.
Proof. apply count_occ_app. Qed.
Lemma cnt_filter x l : cnt x (filterOutInternetStatusEvents l) = if isInternetStatus x then 0%nat else cnt x l.
Proof.
  unfold cnt, filterOutInternetStatusEvents. induction l as [|y l IH]; [by destruct (isInternetStatus x)|]. cbn [Prelude.Filter].
  destruct (isInternetStatus y) eqn:Hy; cbn [negb count_occ]; destruct (StreamEvent_eq y x) as [->|?]; rewrite ?IH, ?Hy; by destruct (isInternetStatus x).
Qed.

Lemma insert_middle {A} (l1 l2 : list A) (x y : A) : <[length l1 := y]> (l1 ++ x :: l2) = l1 ++ y :: l2.
Proof. by rewrite list_insert_alter, alter_app_r_alt, Nat.sub_diag by done. Qed.
Lemma in_threads_app ts ts' : in_threads (ts ++ ts') = in_threads ts ++ in_threads ts'.
Proof. unfold in_threads. by rewrite fmap_app, concat_app. Qed.

(** Counts of one event: in the threads, and with the queue. *)
Lemma cnt_threads_middle x ts1 t ts2 : cnt x (in_threads (ts1 ++ t :: ts2)) = (cnt x (in_threads ts1) + cnt x (in_thread t) + cnt x (in_threads ts2))%nat.
Proof. rewrite in_threads_app, cnt_app. change (in_threads (t :: ts2)) with (in_thread t ++ in_threads ts2). rewrite cnt_app. lia. Qed.
Lemma cnt_pending x s : cnt x (pending s) = (cnt x (in_threads (threads s)) + if existsb flushing (threads s) then 0 else cnt x (eventQueue s))%nat.
Proof. unfold pending. rewrite cnt_app. by destruct (existsb _ _). Qed.
Lemma cnt_queueEvent x e s : isInternetStatus x = false -> cnt x (eventQueue (queueEvent e s)) = (cnt x (eventQueue s) + cnt x [e])%nat.
Proof.
  intros Hx. unfold queueEvent. destruct (isInternetStatus e); cbn [eventQueue set_queue]; rewrite cnt_app; [|done]. by rewrite cnt_filter, Hx.
Qed.

(** One step of a thread on its own: what it holds, what was received and what is in the queue. *)
Lemma advance_plain t s s' t' more : calm t = true -> closedChs s = [] -> advance t true s = Some (s', t', more) ->
  calm t' = true /\ forallb calm more = true /\ existsb flushing more = false /\ in_threads more = [] /\ closedChs s' = [] /\ threads s' = threads s.
Proof.
  intros Hc Hn. assert (Hcl : forall c, is_closed c s = false) by (intros [c|]; [unfold is_closed; by rewrite Hn|done]).
  destruct t as [| | | | | |[e|]| | | | | |[|e l]| | | | | | | | | | | | |]; try discriminate; cbn [advance]; rewrite ?Hcl; cbn [andb]; intros Hadv; repeat case_match; try discriminate; simplify_eq; (split; [done|]); (repeat split); try done.
  all: by unfold queueEvent; case_match.
Qed.

(** What a step changes in the queue and in what was received. *)
Lemma advance_counts x t s s' t' more : isInternetStatus x = false -> calm t = true -> closedChs s = [] -> advance t true s = Some (s', t', more) ->
  (t = FlushLock /\ existsb flushing (threads s) = false /\ t' = FlushNext (eventQueue s) /\ s' = s) \/
  (t = FlushNext [] /\ t' = Finished /\ s' = set_queue [] s) \/
  (existsb flushing (threads s) = false /\ flushing t = false /\ flushing t' = false /\ delivered s' = delivered s /\ (cnt x (eventQueue s') + cnt x (in_thread t') = cnt x (eventQueue s) + cnt x (in_thread t))%nat) \/
  (flushing t' = flushing t /\ eventQueue s' = eventQueue s /\ (cnt x (delivered s') + cnt x (in_thread t') = cnt x (delivered s) + cnt x (in_thread t))%nat).
Proof.
  intros Hx Hc Hn. assert (Hcl : forall c, is_closed c s = false) by (intros [c|]; [unfold is_closed; by rewrite Hn|done]).
  destruct t as [| | | | | |[e|]| | | | | |[|e l]| | | | | | | | | | | | |]; try discriminate; cbn [advance]; rewrite ?Hcl; cbn [andb]; intros Hadv; repeat case_match; try discriminate; simplify_eq.
  all: try (right; right; right; done).
  - right; right; right. split; [done|]. split; [done|]. unfold delivered. cbn [received receive]. rewrite omap_app, cnt_app. cbn. unfold cnt. cbn [count_occ]. lia.
  - left. unfold queue_free in *. by rewrite negb_true_iff in *.
  - right; left. done.
  - right; right; left. unfold queue_free in *. rewrite negb_true_iff in *. repeat split; try done; [by unfold queueEvent; case_match|]. rewrite (cnt_queueEvent x) by done. cbn. lia.
Qed.

Definition orderly (s : service) : Prop := forallb calm (threads s) = true /\ closedChs s = [].

Lemma step_own i ok s s1 : step (Step i ok) s = Some s1 ->
  exists ts1 t ts2 s' t' more, threads s = ts1 ++ t :: ts2 /\ advance t ok s = Some (s', t', more) /\ s1 = set_threads ((ts1 ++ t' :: ts2) ++ more) s'.
Proof.
  cbn [step]. destruct (threads s !! i) as [t|] eqn:Ht; cbn [mbind option_bind]; [|done]. destruct (advance t ok s) as [[[s' t'] more]|] eqn:Ha; cbn; [|done]. intros [= <-].
  apply list_elem_of_split_length in Ht as (ts1 & ts2 & Hts & ->). exists ts1, t, ts2, s', t', more. split; [done|]. split; [done|]. by rewrite Hts, insert_middle.
Qed.

Lemma plain_own x i s s1 : isInternetStatus x = false -> orderly s -> step (Step i true) s = Some s1 ->
  orderly s1 /\ (cnt x (delivered s1) + cnt x (pending s1) = cnt x (delivered s) + cnt x (pending s))%nat.
Proof.
  intros Hx [Hc Hn] (ts1 & t & ts2 & s' & t' & more & Hts & Ha & ->)%step_own. rewrite Hts, forallb_app in Hc. cbn [forallb] in Hc. apply andb_true_iff in Hc as [C1 [C2 C3]%andb_true_iff].
  destruct (advance_plain _ _ _ _ _ C2 Hn Ha) as (K1 & K2 & K3 & K4 & K5 & _). destruct (advance_counts x _ _ _ _ _ Hx C2 Hn Ha) as [(-> & F & -> & ->)|[(-> & -> & ->)|[(F & F1 & F2 & D & Q)|(F & Q & D)]]].
  all: split; [split; cbn [threads set_threads closedChs]; [|done]; rewrite !forallb_app; cbn [forallb]; rewrite C1, C3, K1, K2; done|].
  all: rewrite !cnt_pending; cbn [threads set_threads eventQueue set_queue]; rewrite Hts in *; rewrite (in_threads_app (ts1 ++ _)), cnt_app, !cnt_threads_middle, K4, (existsb_app _ (ts1 ++ _)), K3, orb_false_r, !existsb_app; cbn [existsb].
  all: change (cnt x []) with 0%nat.
  - rewrite existsb_app in F. cbn [existsb flushing] in F. cbn [flushing orb]. rewrite orb_true_r. apply orb_false_iff in F as [F1 F2]. rewrite F1, F2. cbn [orb in_thread]. change (cnt x []) with 0%nat. unfold delivered. cbn [received set_threads]. lia.
  - cbn [flushing orb in_thread]. rewrite orb_true_r. change (cnt x []) with 0%nat. unfold delivered. cbn [received set_queue set_threads]. destruct (_ || _); lia.
  - rewrite existsb_app in F. cbn [existsb] in F. rewrite F1 in F |- *. rewrite F2, F. change (delivered (set_threads ((ts1 ++ t' :: ts2) ++ more) s')) with (delivered s'). rewrite D. lia.
  - rewrite F, Q. change (delivered (set_threads ((ts1 ++ t' :: ts2) ++ more) s')) with (delivered s'). lia.
Qed.

Lemma meet_plain r t s r' t' : calm r = true -> calm t = true -> meet r t s = Some (r', t') ->
  calm r' = true /\ calm t' = true /\ flushing r = false /\ flushing r' = false /\ flushing t' = flushing t /\ in_thread r ++ in_thread t = in_thread r' ++ in_thread t' /\
  exists ch done, r = RunSelect ch done.
Proof.
  intros Hr Ht Hm. destruct r; try discriminate; destruct t; try discriminate; cbn [meet] in Hm; case_match; try discriminate; simplify_eq; naive_solver.
Qed.

Lemma plain_step x c s s1 : isInternetStatus x = false -> plain c = true -> orderly s -> step c s = Some s1 ->
  orderly s1 /\ (cnt x (delivered s1) + cnt x (pending s1) = cnt x (delivered s) + cnt x (pending s) + cnt x (events_of [c]))%nat.
Proof.
  intros Hx Hp [Hc Hn] Hs. destruct c as [t|i ok|i j|i]; [| | |done].
  - cbn [step] in Hs. destruct (can_be_called t) eqn:Hk; [|done]. injection Hs as <-.
    assert (Ht : calm t = true /\ flushing t = false /\ events_of [Call t] = in_thread t) by (by destruct t). destruct Ht as (T1 & T2 & ->).
    split; [split; [|done]; cbn [threads set_threads]; by rewrite forallb_app, Hc; cbn; rewrite T1|].
    rewrite !cnt_pending. cbn [threads set_threads eventQueue]. rewrite in_threads_app, cnt_app, existsb_app. cbn [existsb]. rewrite T2, !orb_false_r.
    change (in_threads [t]) with (in_thread t ++ []). rewrite app_nil_r. change (delivered (set_threads (threads s ++ [t]) s)) with (delivered s). lia.
  - destruct ok; [|done]. destruct (plain_own x i s s1 Hx (conj Hc Hn) Hs) as [H1 H2]. split; [done|]. rewrite H2. cbn. lia.
  - cbn [step] in Hs. destruct (threads s !! i) as [r|] eqn:Hi; cbn [mbind option_bind] in Hs; [|done]. destruct (threads s !! j) as [t|] eqn:Hj; cbn [mbind option_bind] in Hs; [|done].
    destruct (meet r t s) as [[r' t']|] eqn:Hm; cbn in Hs; [|done]. injection Hs as <-.
    assert (Hcr : calm r = true /\ calm t = true) by (rewrite forallb_forall in Hc; split; apply Hc, list_elem_of_In; eapply list_elem_of_lookup_2; eauto). destruct Hcr as [Cr Ct].
    destruct (meet_plain _ _ _ _ _ Cr Ct Hm) as (K1 & K2 & F1 & F2 & F3 & E & ch & dn & ->).
    assert (Hne : i <> j) by (intros ->; rewrite Hi in Hj; injection Hj as <-; discriminate Hm).
    pose proof (list_elem_of_split_length _ _ _ Hi) as (ts1 & ts2 & Hts & ->). rewrite Hts, insert_middle.
    assert (Hj' : (ts1 ++ r' :: ts2) !! j = Some t) by (rewrite <- (insert_middle ts1 ts2 (RunSelect ch dn)), <- Hts, list_lookup_insert_ne by done; exact Hj).
    pose proof (list_elem_of_split_length _ _ _ Hj') as (us1 & us2 & Hus & ->). rewrite Hus, insert_middle.
    split; [split; [|done]; cbn [threads set_threads]; rewrite Hts in Hc; rewrite forallb_app in *; cbn [forallb] in *; apply andb_true_iff in Hc as [C1 [C2 C3]%andb_true_iff]|].
    + assert (Hall : forallb calm (us1 ++ t :: us2) = true) by (rewrite <- Hus, forallb_app; cbn [forallb]; by rewrite C1, K1, C3). rewrite forallb_app in Hall. cbn [forallb] in Hall. rewrite Ct in Hall. by rewrite K2.
    + rewrite !cnt_pending. cbn [threads set_threads eventQueue]. rewrite cnt_threads_middle. pose proof (cnt_threads_middle x ts1 (RunSelect ch dn) ts2) as A1. pose proof (cnt_threads_middle x ts1 r' ts2) as A2. rewrite <- Hts in A1. rewrite Hus, cnt_threads_middle in A2.
      assert (Hf : existsb flushing (us1 ++ t' :: us2) = existsb flushing (threads s)).
      { transitivity (existsb flushing (us1 ++ t :: us2)); [rewrite !existsb_app; cbn [existsb]; by rewrite F3|]. rewrite <- Hus, Hts, !existsb_app. cbn [existsb]. by rewrite F1, F2. }
      rewrite Hf. apply (f_equal (cnt x)) in E. rewrite !cnt_app in E. change (delivered (set_threads (us1 ++ t' :: us2) s)) with (delivered s). change (events_of [Meet (length ts1) (length us1)]) with (@nil StreamEvent). change (cnt x []) with 0%nat. lia.
Qed.

Lemma plain_steps x l : forall s s', isInternetStatus x = false -> forallb plain l = true -> orderly s -> steps l s = Some s' ->
  orderly s' /\ (cnt x (delivered s') + cnt x (pending s') = cnt x (delivered s) + cnt x (pending s) + cnt x (events_of l))%nat.
Proof.
  induction l as [|c l IH]; intros s s' Hx Hp Ho Hs; cbn [steps] in Hs; [injection Hs as <-; split; [done|]; change (cnt x (events_of [])) with 0%nat; lia|].
  destruct (step c s) as [s1|] eqn:H1; cbn in Hs; [|done]. cbn [forallb] in Hp. apply andb_true_iff in Hp as [P1 P2].
  destruct (plain_step x c s s1 Hx P1 Ho H1) as [O1 E1]. destruct (IH s1 s' Hx P2 O1 Hs) as [O2 E2]. split; [done|].
  change (c :: l) with ([c] ++ l). unfold events_of in *. rewrite omap_app, cnt_app. lia.
Qed.

(** ** The stream drains *)

(** One client: the call of [RunEventStream] is the first thread, and it is the only one. *)
Definition served (parent : bool) : service := set_threads [RunCheck] (newService parent).
Definition one_client (c : choice) : bool := match c with Call (SendCheck _) | Step _ true | Meet _ _ => true | _ => false end.

Definition opened (ch : option nat) : bool := match ch with Some _ => true | None => false end.

(** Where the stream's thread stands for the channel of the service, and where the others may. *)
Definition loop_ok (ch : option nat) (t : thread) : bool :=
  match t with
  | RunCheck | RunCreate => negb (opened ch)
  | RunSetDone | RunLoop | RunSend (Some _) => opened ch
  | RunSelect c _ => same_ch ch c
  | _ => false
  end.
Definition other_ok (ch : option nat) (t : thread) : bool :=
  match t with
  | SendCheck _ | SendQueue _ | Finished => true
  | SendRead _ | FlushLock | FlushNext _ => opened ch
  | SendSend c _ | FlushSend c _ _ => same_ch ch c
  | _ => false
  end.
Definition well_placed (s : service) : Prop :=
  closedChs s = [] /\ exists t0 rest, threads s = t0 :: rest /\ loop_ok (streamCh s) t0 = true /\ forallb (other_ok (streamCh s)) rest = true.

Lemma same_ch_eq a b : same_ch a b = true -> exists n, a = Some n /\ b = Some n.
Proof. destruct a as [a|], b as [b|]; try done. intros ->%Nat.eqb_eq. by exists b. Qed.
Lemma same_ch_refl n : same_ch (Some n) (Some n) = true.
Proof. apply Nat.eqb_refl. Qed.

(** Nobody reads or waits for the lock of the channel. *)
Lemma placed_locks s : well_placed s -> write_free s = true /\ read_free s = true /\ (forall c, is_closed c s = false).
Proof.
  intros (Hn & t0 & rest & Ht & H0 & Hr). unfold write_free, read_free. rewrite Ht.
  assert (Hl : reads t0 = false /\ waits_to_write t0 = false) by (by destruct t0 as [| | | | | |[?|]| | | | | | | | | | | | | | | | | | |]).
  destruct Hl as [L1 L2]. cbn [existsb]. rewrite L1, L2. cbn [orb]. split; [|split].
  - apply negb_true_iff. clear Ht. induction rest as [|t rest IH]; [done|]. cbn [forallb existsb] in *. apply andb_true_iff in Hr as [R1 R2]. rewrite (IH R2). by destruct t.
  - apply negb_true_iff. clear Ht. induction rest as [|t rest IH]; [done|]. cbn [forallb existsb] in *. apply andb_true_iff in Hr as [R1 R2]. rewrite (IH R2). by destruct t.
  - intros [c|]; [unfold is_closed; by rewrite Hn|done].
Qed.

(** When the channel is made the other threads stand where they may. *)
Lemma other_ok_open ch ts : forallb (other_ok None) ts = true -> forallb (other_ok ch) ts = true.
Proof. rewrite !forallb_forall. intros H t Ht. specialize (H t Ht). by destruct t. Qed.

(** Measure of what is left to do: 6 steps for each event in the queue, which another thread puts and takes. *)
Definition weight (t : thread) : nat :=
  match t with
  | RunCheck => 6 | RunCreate => 5 | RunSetDone => 4 | RunLoop => 1 | RunSend _ => 2
  | FlushLock => 2 | FlushNext l => 1 + 5 * length l | FlushSend _ _ l => 5 + 5 * length l
  | SendCheck _ => 9 | SendRead _ => 5 | SendSend _ _ => 4 | SendQueue _ => 8
  | _ => 0
  end.
Definition left_to_do (s : service) : nat := list_sum (weight <$> threads s) + if existsb flushing (threads s) then 0 else 6 * length (eventQueue s).

Lemma weight_middle ts1 t ts2 : list_sum (weight <$> ts1 ++ t :: ts2) = (list_sum (weight <$> ts1) + weight t + list_sum (weight <$> ts2))%nat.
Proof. rewrite fmap_app, fmap_cons, list_sum_app. change (list_sum (weight t :: (weight <$> ts2))) with (weight t + list_sum (weight <$> ts2))%nat. lia. Qed.

Lemma queueEvent_length e s : (length (eventQueue (queueEvent e s)) <= S (length (eventQueue s)))%nat.
Proof.
  unfold queueEvent. destruct (isInternetStatus e); cbn [eventQueue set_queue]; rewrite length_app; cbn; [|lia].
  pose proof (sublist_length _ _ (Filter_sublist (eventQueue s) (fun e => negb (isInternetStatus e)))). unfold filterOutInternetStatusEvents. lia.
Qed.

#[local] Ltac placed_solve :=
  repeat match goal with H : streamCh _ = _ |- _ => rewrite H in * end; repeat split;
  first [done | by left | by right | by intros _; apply same_ch_refl | by intros Hf; match goal with Ht : _ \/ _ |- _ => destruct Ht as [Ht|Ht]; [rewrite Ht in Hf|] end | cbn; destruct (existsb _ _); cbn; lia].

(** A thread that moves keeps its place, and what is left to do gets less. *)
Lemma placed_advance t s s' t' more : well_placed s -> loop_ok (streamCh s) t = true \/ other_ok (streamCh s) t = true -> advance t true s = Some (s', t', more) ->
  closedChs s' = [] /\ (streamCh s = None \/ streamCh s' = streamCh s) /\
  (loop_ok (streamCh s) t = true -> loop_ok (streamCh s') t' = true) /\ (loop_ok (streamCh s) t = false -> other_ok (streamCh s') t' = true) /\ forallb (other_ok (streamCh s')) more = true /\
  existsb flushing more = false /\ (weight t' + list_sum (weight <$> more) + (if existsb flushing (threads s) && negb (flushing t) || flushing t' then 0 else 6 * length (eventQueue s')) < weight t + (if existsb flushing (threads s) then 0 else 6 * length (eventQueue s)))%nat.
Proof.
  intros Hw Ht Ha. destruct (placed_locks s Hw) as (Lw & Lr & Lc). destruct Hw as [Hn _].
  assert (Hq : forall b, negb b = true -> b = false) by (by intros []).
  destruct t as [| | | | |ch done|[e|]| | | | | |[|e l]|ch e l|e|e|ch e|e| | | | | | | |]; cbn [advance] in Ha; rewrite ?Lw, ?Lr, ?Lc in Ha; cbn [andb] in Ha; try (by destruct Ht); unfold isStreamingEvents in Ha.
  - destruct (streamCh s) eqn:Hs; [by destruct Ht|]. injection Ha as <- <- <-. placed_solve.
  - destruct (streamCh s) eqn:Hs; [by destruct Ht|]. injection Ha as <- <- <-. placed_solve.
  - injection Ha as <- <- <-. destruct (streamCh s) eqn:Hs; [|by destruct Ht]. cbn [streamCh set_doneCh fresh_ch]. placed_solve.
  - injection Ha as <- <- <-. destruct (streamCh s) eqn:Hs; [|by destruct Ht]. placed_solve.
  - injection Ha as <- <- <-. cbn [streamCh receive]. placed_solve.
  - destruct (queue_free s) eqn:Hf; [|done]. injection Ha as <- <- <-. unfold queue_free in Hf. apply Hq in Hf. destruct Ht as [?|Ht]; [done|]. rewrite Hf. placed_solve.
  - injection Ha as <- <- <-. destruct Ht as [?|Ht]; [done|]. placed_solve.
  - injection Ha as <- <- <-. destruct Ht as [?|Ht]; [done|]. cbn in Ht. destruct (streamCh s) eqn:Hs; [|done]. placed_solve.
  - destruct Ht as [?|Ht]; [done|]. destruct (streamCh s) eqn:Hs; injection Ha as <- <- <-; placed_solve.
  - injection Ha as <- <- <-. destruct Ht as [?|Ht]; [done|]. cbn in Ht. destruct (streamCh s) eqn:Hs; [|done]. placed_solve.
  - destruct (queue_free s) eqn:Hf; [|done]. injection Ha as <- <- <-. unfold queue_free in Hf. apply Hq in Hf. rewrite Hf. destruct Ht as [?|Ht]; [done|].
    pose proof (queueEvent_length e s). assert (Hs : streamCh (queueEvent e s) = streamCh s /\ closedChs (queueEvent e s) = closedChs s) by (unfold queueEvent; by case_match). destruct Hs as [-> ->].
    repeat split; try done; [by right|]. cbn -[eventQueue queueEvent]. lia.
Qed.

Lemma other_not_loop ch t : other_ok ch t = true -> loop_ok ch t = false.
Proof. by destruct t. Qed.
Lemma others_kept s s' ts : streamCh s = None \/ streamCh s' = streamCh s -> forallb (other_ok (streamCh s)) ts = true -> forallb (other_ok (streamCh s')) ts = true.
Proof. intros [Hs| ->]; [rewrite Hs; apply other_ok_open|done]. Qed.

Lemma placed_own i s s1 : well_placed s -> step (Step i true) s = Some s1 -> well_placed s1 /\ (left_to_do s1 < left_to_do s)%nat.
Proof.
  intros Hw (ts1 & t & ts2 & s' & t' & more & Hts & Ha & ->)%step_own. pose proof Hw as (Hn & t0 & rest & Ht & H0 & Hr).
  assert (Hk : (ts1 = [] /\ t = t0 /\ ts2 = rest) \/ (exists us, ts1 = t0 :: us /\ rest = us ++ t :: ts2)) by (rewrite Hts in Ht; destruct ts1 as [|u us]; injection Ht as -> <-; eauto).
  assert (Hor : loop_ok (streamCh s) t = true \/ other_ok (streamCh s) t = true).
  { destruct Hk as [(-> & -> & ->)|(us & -> & ->)]; [by left|]. rewrite forallb_app in Hr. cbn [forallb] in Hr. apply andb_true_iff in Hr as [_ [R _]%andb_true_iff]. by right. }
  destruct (placed_advance _ _ _ _ _ Hw Hor Ha) as (K1 & K2 & K3 & K4 & K5 & K6 & K7). split.
  - split; [done|]. destruct Hk as [(-> & -> & ->)|(us & -> & ->)]; cbn [app threads set_threads].
    + exists t', (rest ++ more). split; [done|]. split; [by apply K3|]. rewrite forallb_app. cbn [streamCh set_threads]. rewrite K5, andb_true_r. by apply (others_kept s).
    + exists t0, ((us ++ t' :: ts2) ++ more). split; [done|]. rewrite forallb_app in Hr. cbn [forallb] in Hr. apply andb_true_iff in Hr as [R1 [R2 R3]%andb_true_iff]. split.
      * change (streamCh (set_threads _ s')) with (streamCh s'). destruct K2 as [K2| ->]; [|done]. pose proof (other_not_loop _ _ R2) as Hl. cbn [advance] in Ha.
        assert (Hs : streamCh s' = streamCh s); [|by rewrite Hs]. clear -Ha R2. destruct t; try done; cbn [advance] in Ha; repeat case_match; try discriminate; simplify_eq; try done. unfold queueEvent. by case_match.
      * change (streamCh (set_threads _ s')) with (streamCh s'). rewrite !forallb_app. cbn [forallb]. rewrite K5, (others_kept s s' us K2 R1), (others_kept s s' ts2 K2 R3), (K4 (other_not_loop _ _ R2)). done.
  - unfold left_to_do. cbn [threads set_threads eventQueue]. rewrite fmap_app, list_sum_app, Hts, !weight_middle, (existsb_app _ (ts1 ++ _)), K6, orb_false_r, !existsb_app. cbn [existsb]. rewrite Hts, existsb_app in K7. cbn [existsb] in K7.
    destruct (existsb flushing ts1), (existsb flushing ts2), (flushing t), (flushing t'); cbn [orb andb negb] in *; lia.
Qed.

Lemma placed_meet i j s s1 : well_placed s -> step (Meet i j) s = Some s1 -> well_placed s1 /\ (left_to_do s1 < left_to_do s)%nat.
Proof.
  intros Hw Hs. destruct (placed_locks s Hw) as (_ & _ & Lc). destruct Hw as (Hn & t0 & rest & Ht & H0 & Hr). cbn [step] in Hs. rewrite Ht in Hs.
  destruct ((t0 :: rest) !! i) as [r|] eqn:Hi; cbn [mbind option_bind] in Hs; [|done]. destruct ((t0 :: rest) !! j) as [t|] eqn:Hj; cbn [mbind option_bind] in Hs; [|done].
  destruct (meet r t s) as [[r' t']|] eqn:Hm; cbn in Hs; [|done]. injection Hs as <-. rewrite forallb_forall in Hr.
  assert (Hin : forall k u, rest !! k = Some u -> other_ok (streamCh s) u = true) by (intros k u Hk; apply Hr, list_elem_of_In; by eapply list_elem_of_lookup_2).
  destruct i as [|i]; [|exfalso; cbn in Hi; apply Hin in Hi; by destruct r]. cbn in Hi. injection Hi as <-. destruct j as [|j]; [exfalso; cbn in Hj; injection Hj as <-; by destruct t0|]. cbn in Hj |- *.
  pose proof (Hin j t Hj) as Hot. assert (Hrest : forall u, other_ok (streamCh s) u = true -> forallb (other_ok (streamCh s)) (<[j := u]> rest) = true).
  { intros u Hu. apply forallb_forall. intros v Hv%list_elem_of_In%list_elem_of_lookup. destruct Hv as (k & Hk). destruct (decide (k = j)) as [->|Hne].
    - rewrite list_lookup_insert_eq in Hk by (by eapply lookup_lt_Some). by injection Hk as <-.
    - rewrite list_lookup_insert_ne in Hk by done. by apply (Hin k). }
  assert (Hcase : loop_ok (streamCh s) r' = true /\ other_ok (streamCh s) t' = true /\ flushing t0 = false /\ flushing r' = false /\ flushing t' = flushing t /\ (weight r' + weight t' < weight t0 + weight t)%nat).
  { destruct t0; try discriminate; destruct t; try discriminate; cbn [meet] in Hm; rewrite Lc, andb_true_r in Hm; case_match; try discriminate; simplify_eq; cbn [loop_ok other_ok weight flushing length] in *; (destruct (streamCh s); [|discriminate]); repeat split; lia. }
  destruct Hcase as (C1 & C2 & C3 & C4 & C5 & C6). split.
  - split; [done|]. exists r', (<[j := t']> rest). split; [done|]. split; [done|]. by apply Hrest.
  - apply list_elem_of_split_length in Hj as (us1 & us2 & -> & ->). change (left_to_do (set_threads (r' :: <[length us1 := t']> (us1 ++ t :: us2)) s) < left_to_do s)%nat. rewrite insert_middle. unfold left_to_do. rewrite Ht. cbn [threads set_threads eventQueue]. rewrite !fmap_cons.
    change (list_sum (weight r' :: (weight <$> us1 ++ t' :: us2))) with (weight r' + list_sum (weight <$> us1 ++ t' :: us2))%nat. change (list_sum (weight t0 :: (weight <$> us1 ++ t :: us2))) with (weight t0 + list_sum (weight <$> us1 ++ t :: us2))%nat.
    rewrite !weight_middle. cbn [existsb]. rewrite !existsb_app. cbn [existsb]. rewrite C3, C4, C5. lia.
Qed.

Definition settled (t : thread) : bool := match t with Finished | RunSelect _ _ => true | _ => false end.
Definition goes_on (c : choice) : bool := match c with Step _ true | Meet _ _ => true | _ => false end.

Lemma moves_own s ts1 t ts2 : threads s = ts1 ++ t :: ts2 -> is_Some (advance t true s) -> exists c s', goes_on c = true /\ step c s = Some s'.
Proof.
  intros Hts [[[s' t'] more] Ha]. exists (Step (length ts1) true), (set_threads (<[length ts1 := t']> (threads s) ++ more) s'). split; [done|].
  cbn [step]. rewrite Hts at 1. rewrite list_lookup_middle by done. cbn [mbind option_bind]. by rewrite Ha.
Qed.

(** While a thread has something to do, some step is possible. *)
Lemma placed_moves s : well_placed s -> forallb settled (threads s) = false -> exists c s', goes_on c = true /\ step c s = Some s'.
Proof.
  intros Hw Hset. destruct (placed_locks s Hw) as (Lw & Lr & Lc). destruct Hw as (Hn & t0 & rest & Ht & H0 & Hr). destruct (settled t0) eqn:Hs0.
  2:{ apply (moves_own s [] t0 rest Ht). destruct t0 as [| | | | | |[?|]| | | | | | | | | | | | | | | | | | |]; try done; cbn [advance]; rewrite ?Lw, ?Lr; by eexists. }
  destruct t0 as [| | | | |ch dn| | | | | | | | | | | | | | | | | | | |]; try done. cbn [loop_ok] in H0. apply same_ch_eq in H0 as (n & Hch & ->).
  assert (Hmeet : forall us1 t us2, rest = us1 ++ t :: us2 -> is_Some (meet (RunSelect (Some n) dn) t s) -> exists c s', goes_on c = true /\ step c s = Some s').
  { intros us1 t us2 -> [[r' t'] Hm]. assert (L0 : threads s !! 0%nat = Some (RunSelect (Some n) dn)) by (by rewrite Ht).
    assert (L1 : threads s !! S (length us1) = Some t) by (rewrite Ht; by apply list_lookup_middle).
    eexists (Meet 0 (S (length us1))), _. split; [done|]. cbn [step]. rewrite L0. cbn [mbind option_bind]. rewrite L1. cbn [mbind option_bind]. rewrite Hm. reflexivity. }
  assert (Hsplit : forall t, t ∈ rest -> exists us1 us2, rest = us1 ++ t :: us2 /\ threads s = (RunSelect (Some n) dn :: us1) ++ t :: us2 /\ other_ok (streamCh s) t = true).
  { intros t Hin. rewrite forallb_forall in Hr. pose proof (Hr t (proj1 (list_elem_of_In rest t) Hin)). apply list_elem_of_split in Hin as (us1 & us2 & ->). exists us1, us2. by rewrite Ht. }
  destruct (existsb flushing rest) eqn:Hf.
  - apply existsb_exists in Hf as (t & Hin%list_elem_of_In & Hf). destruct (Hsplit t Hin) as (us1 & us2 & Hr' & Hts & Ho). destruct t as [| | | | | | | | | | | |[|e l]|c e l| | | | | | | | | | | |]; try done.
    + apply (moves_own s _ _ _ Hts). by eexists.
    + apply (moves_own s _ _ _ Hts). by eexists.
    + apply (Hmeet us1 (FlushSend c e l) us2 Hr'). cbn [other_ok] in Ho. apply same_ch_eq in Ho as (m & Hm & ->). rewrite Hch in Hm. injection Hm as <-. cbn [meet]. rewrite same_ch_refl, Lc. by eexists.
  - rewrite Ht in Hset. cbn [forallb settled andb] in Hset. assert (Hex : exists t, t ∈ rest /\ settled t = false).
    { clear -Hset. induction rest as [|t rest IH]; [done|]. cbn [forallb] in Hset. destruct (settled t) eqn:E; [|exists t; split; [left|done]]. destruct (IH Hset) as (u & ? & ?). exists u. split; [by right|done]. }
    destruct Hex as (t & Hin & Hst). destruct (Hsplit t Hin) as (us1 & us2 & Hr' & Hts & Ho).
    assert (Hq : queue_free s = true) by (unfold queue_free; rewrite Ht; cbn [existsb flushing orb]; by rewrite Hf).
    assert (Hnf : flushing t = false) by (rewrite Hr', existsb_app in Hf; cbn [existsb] in Hf; by apply orb_false_iff in Hf as [_ [? _]%orb_false_iff]).
    destruct t; try done; try (apply (moves_own s _ _ _ Hts); cbn [advance]; rewrite ?Lr, ?Hq; by eexists).
    apply (Hmeet us1 (SendSend ch e) us2 Hr'). cbn [other_ok] in Ho. apply same_ch_eq in Ho as (m & Hm & ->). rewrite Hch in Hm. injection Hm as <-. cbn [meet]. rewrite same_ch_refl, Lc. by eexists.
Qed.

Lemma placed_steps l : forall s s', forallb one_client l = true -> well_placed s -> steps l s = Some s' -> well_placed s'.
Proof.
  induction l as [|c l IH]; intros s s' Hl Hw Hs; cbn [steps] in Hs; [by injection Hs as <-|]. cbn [forallb] in Hl. apply andb_true_iff in Hl as [L1 L2].
  destruct (step c s) as [s1|] eqn:H1; cbn in Hs; [|done]. apply (IH s1 s' L2); [|done]. destruct c as [t|i ok|i j|i]; try done.
  - cbn [step] in H1. destruct t; try done. injection H1 as <-. destruct Hw as (Hn & t0 & rest & Ht & H0 & Hr). split; [done|]. exists t0, (rest ++ [SendCheck e]). cbn [threads set_threads streamCh]. rewrite Ht, forallb_app, Hr. done.
  - destruct ok; [|done]. by apply (placed_own i s).
  - by apply (placed_meet i j s).
Qed.

Lemma goes_on_less l : forall s s', forallb goes_on l = true -> well_placed s -> steps l s = Some s' -> (length l + left_to_do s' <= left_to_do s)%nat.
Proof.
  induction l as [|c l IH]; intros s s' Hl Hw Hs; cbn [steps] in Hs; [injection Hs as <-; cbn; lia|]. cbn [forallb] in Hl. apply andb_true_iff in Hl as [L1 L2].
  destruct (step c s) as [s1|] eqn:H1; cbn in Hs; [|done]. assert (Hp : well_placed s1 /\ (left_to_do s1 < left_to_do s)%nat) by (destruct c as [|i [|]|i j|]; try done; [by apply (placed_own i)|by apply (placed_meet i j)]).
  destruct Hp as [W1 M1]. specialize (IH s1 s' L2 W1 Hs). cbn [length]. lia.
Qed.

Lemma settles s : well_placed s -> exists l s', forallb goes_on l = true /\ steps l s = Some s' /\ forallb settled (threads s') = true.
Proof.
  induction s as [s IH] using (well_founded_induction (well_founded_ltof _ left_to_do)). intros Hw.
  destruct (forallb settled (threads s)) eqn:Hset; [by exists [], s|]. destruct (placed_moves s Hw Hset) as (c & s1 & Hc & H1).
  assert (Hp : well_placed s1 /\ (left_to_do s1 < left_to_do s)%nat) by (destruct c as [|i [|]|i j|]; try done; [by apply (placed_own i)|by apply (placed_meet i j)]).
  destruct Hp as [W1 M1]. destruct (IH s1 M1 W1) as (l & s' & Hl & Hs & Hset'). exists (c :: l), s'. cbn [forallb steps]. rewrite Hc, H1. done.
Qed.

Lemma settled_pending s : forallb settled (threads s) = true -> pending s = eventQueue s.
Proof.
  intros Hs. assert (H : in_threads (threads s) = [] /\ existsb flushing (threads s) = false).
  { induction (threads s) as [|t ts IH]; [done|]. cbn [forallb] in Hs. apply andb_true_iff in Hs as [S1 S2]. destruct (IH S2) as [I1 I2]. cbn [existsb]. rewrite I2. unfold in_threads in *. rewrite fmap_cons. cbn [concat]. rewrite I1. by destruct t. }
  destruct H as [H1 H2]. unfold pending. by rewrite H1, H2.
Qed.

Lemma served_placed parent : well_placed (served parent).
Proof. split; [done|]. by exists RunCheck, []. Qed.

Lemma same_events l l' : (forall x, isInternetStatus x = false -> cnt x l = cnt x l') -> filterOutInternetStatusEvents l ≡ₚ filterOutInternetStatusEvents l'.
Proof.
  intros H. apply (Permutation_count_occ StreamEvent_eq). intros x. pose proof (cnt_filter x l) as A. pose proof (cnt_filter x l') as B. unfold cnt in *. rewrite A, B. destruct (isInternetStatus x) eqn:Hx; [done|]. by apply H.
Qed.

Lemma one_client_plain l : forallb one_client l = true -> forallb plain l = true.
Proof. rewrite !forallb_forall. intros H c Hc. specialize (H c Hc). by destruct c as [[]| | |]. Qed.
Lemma goes_on_plain l : forallb goes_on l = true -> forallb plain l = true /\ events_of l = [].
Proof.
  intros H. split; [rewrite forallb_forall in *; intros c Hc; specialize (H c Hc); by destruct c|].
  induction l as [|c l IH]; [done|]. cbn [forallb] in H. apply andb_true_iff in H as [H1 H2]. unfold events_of in *. cbn. by destruct c; [done| | |]; rewrite IH.
Qed.

(** C10: While the client keeps its one stream open, each event (but for the internet status, of which the queue keeps the last) is at every moment
    exactly once with the client, in the queue or on its way; without new events the threads stop after a number of steps that the state bounds,
    nothing blocks them before, and then each event was received or waits in the queue. *)
Theorem stream_delivers (parent : bool) (l : list choice) (s : service) :
  forallb one_client l = true -> steps l (served parent) = Some s ->
  filterOutInternetStatusEvents (events_of l) ≡ₚ filterOutInternetStatusEvents (delivered s ++ pending s) /\
  (forall l' s', forallb goes_on l' = true -> steps l' s = Some s' -> (length l' <= left_to_do s)%nat) /\
  exists l' s', forallb goes_on l' = true /\ steps l' s = Some s' /\ forallb settled (threads s') = true /\
    filterOutInternetStatusEvents (events_of l) ≡ₚ filterOutInternetStatusEvents (delivered s' ++ eventQueue s').
Proof.
  intros Hl Hs. pose proof (placed_steps l _ _ Hl (served_placed parent) Hs) as Hw. pose proof (one_client_plain l Hl) as Hp.
  assert (Ho : orderly (served parent)) by done.
  assert (Hcnt : forall x, isInternetStatus x = false -> orderly s /\ (cnt x (delivered s) + cnt x (pending s) = cnt x (events_of l))%nat).
  { intros x Hx. destruct (plain_steps x l _ _ Hx Hp Ho Hs) as [O E]. split; [done|]. rewrite E. by destruct parent. }
  split; [|split].
  - apply same_events. intros x Hx. rewrite cnt_app. destruct (Hcnt x Hx) as [_ ->]. done.
  - intros l' s' Hl' Hs'. pose proof (goes_on_less l' s s' Hl' Hw Hs'). lia.
  - destruct (settles s Hw) as (l' & s' & Hl' & Hs' & Hset). exists l', s'. split; [done|]. split; [done|]. split; [done|]. apply same_events. intros x Hx.
    destruct (Hcnt x Hx) as [O E]. destruct (goes_on_plain l' Hl') as [P' E']. destruct (plain_steps x l' _ _ Hx P' O Hs') as [_ E2]. rewrite E', (settled_pending s' Hset) in E2. rewrite cnt_app, E2, E. change (cnt x []) with 0%nat. lia.
Qed.

(** ** A client that closes its stream can leave the service blocked *)

(** [quit] runs in a goroutine while the stream ends: it can hold the lock as a reader and wait for a stream that does not listen any more, which in turn
    waits for the lock as a writer. *)
Definition blocked_by (d : nat) (t : thread) : bool :=
  match t with
  | RunCheck | RunDeleteWait | SendCheck _ | StopLock _ | QuitParent | QuitCheck | Finished => true
  | StopSend c _ => same_ch (Some d) c
  | _ => false
  end.
Definition hung (d : nat) (s : service) : Prop :=
  is_closed (Some d) s = false /\ existsb waits_to_write (threads s) = true /\ existsb reads (threads s) = true /\ forallb (blocked_by d) (threads s) = true.

Lemma hung_thread d s i t : hung d s -> threads s !! i = Some t -> blocked_by d t = true.
Proof. intros (_ & _ & _ & H) Ht. rewrite forallb_forall in H. apply H, list_elem_of_In. by eapply list_elem_of_lookup_2. Qed.

Lemma hung_advance d s t ok r : hung d s -> blocked_by d t = true -> advance t ok s = Some r -> exists m, t = QuitParent /\ r = (set_monitor m s, QuitCheck, []).
Proof.
  intros (Hc & Hw & Hr & _) Hb Ha. assert (Lr : read_free s = false) by (unfold read_free; by rewrite Hw). assert (Lw : write_free s = false) by (unfold write_free; by rewrite Hr).
  destruct t; try done; cbn [advance] in Ha; rewrite ?Lr, ?Lw in Ha; try done.
  - cbn [blocked_by] in Hb. apply same_ch_eq in Hb as (n & [= <-] & ->). by rewrite Hc in Ha.
  - destruct (monitor s) as [[|]|] eqn:Hm; [| done |]; injection Ha as <-; [by exists (Some false)|]. exists None. split; [done|]. destruct s. cbn in Hm. by subst.
Qed.

Lemma hung_step d c s s' : hung d s -> step c s = Some s' ->
  hung d s' /\ received s' = received s /\ stopped s' = stopped s /\ (length (threads s) <= length (threads s'))%nat /\ (forall k, threads s' !! k = Some Finished -> threads s !! k = Some Finished).
Proof.
  intros Hh Hs. pose proof Hh as (Hc & Hw & Hr & Hb). destruct c as [t|i ok|i j|i].
  - cbn [step] in Hs. destruct (can_be_called t) eqn:Hk; [|done]. injection Hs as <-. assert (Ht : blocked_by d t = true /\ t <> Finished) by (by destruct t as [| | | | | | | | | | | | | | | | | |[]| | | | | | |]). destruct Ht as [T1 T2].
    split; [split; [done|]; cbn [threads set_threads]; rewrite !existsb_app, forallb_app, Hw, Hr, Hb; cbn; by rewrite T1|]. split; [done|]. split; [done|]. cbn [threads set_threads]. rewrite length_app. split; [lia|].
    intros k [Hk'|[_ Hk']]%lookup_app_Some; [done|]. destruct (k - _)%nat; cbn in Hk'; [by injection Hk' as ->|done].
  - apply step_own in Hs as (ts1 & t & ts2 & s1 & t' & more & Hts & Ha & ->). assert (Ht : threads s !! length ts1 = Some t) by (rewrite Hts; by apply list_lookup_middle).
    destruct (hung_advance d s t ok _ Hh (hung_thread _ _ _ _ Hh Ht) Ha) as (m & -> & [= -> -> ->]). rewrite app_nil_r. rewrite Hts in Hw, Hr, Hb. rewrite existsb_app in Hw, Hr. rewrite forallb_app in Hb.
    split; [split; [done|]; cbn [threads set_threads]; rewrite !existsb_app, forallb_app; done|]. split; [done|]. split; [done|]. cbn [threads set_threads]. rewrite Hts, !length_app. cbn [length]. split; [lia|].
    intros k Hk. rewrite <- (insert_middle ts1 ts2 QuitParent) in Hk. destruct (decide (k = length ts1)) as [->|Hne]; [|by rewrite list_lookup_insert_ne in Hk].
    rewrite list_lookup_insert_eq in Hk by (rewrite length_app; cbn; lia). done.
  - exfalso. cbn [step] in Hs. destruct (threads s !! i) as [r|] eqn:Hi; cbn [mbind option_bind] in Hs; [|done]. destruct (threads s !! j); cbn [mbind option_bind] in Hs; [|done]. pose proof (hung_thread _ _ _ _ Hh Hi). by destruct r.
  - exfalso. cbn [step] in Hs. destruct (threads s !! i) as [r|] eqn:Hi; [|done]. pose proof (hung_thread _ _ _ _ Hh Hi). by destruct r.
Qed.

Lemma hung_steps d l : forall s s', hung d s -> steps l s = Some s' ->
  received s' = received s /\ stopped s' = stopped s /\ (forall k, threads s' !! k = Some Finished -> threads s !! k = Some Finished).
Proof.
  induction l as [|c l IH]; intros s s' Hh Hs; cbn [steps] in Hs; [by injection Hs as <-|]. destruct (step c s) as [s1|] eqn:H1; cbn in Hs; [|done].
  destruct (hung_step d c s s1 Hh H1) as (H' & R1 & S1 & _ & F1). destruct (IH s1 s' H' Hs) as (R2 & S2 & F2). rewrite R2, S2. split; [done|]. split; [done|]. auto.
Qed.

(** The client listens, the queue is empty, the client closes; [quit] takes the lock before the stream is deleted. *)
Definition closing_run : list choice :=
  [Step 0 true; Step 0 true; Step 0 true; Step 0 true; Step 1 true; Step 1 true; ClientCloses 0; Step 2 true; Step 2 true; Step 2 true; Step 2 true; Step 0 true; Step 0 true].

(** There is a run in which the client closes its stream and after which nothing works: no call that follows ever returns, no event is received,
    and the server is never told to stop. *)
Theorem client_close_hangs :
  exists s, steps closing_run (served true) = Some s /\
    forall l s', steps l s = Some s' -> received s' = received s /\ stopped s' = false /\ (forall k, (length (threads s) <= k)%nat -> threads s' !! k <> Some Finished).
Proof.
  eexists. split; [vm_compute; reflexivity|]. intros l s' Hs. match type of Hs with steps _ ?s0 = _ => assert (Hh : hung 1 s0) by (repeat split; vm_compute; reflexivity) end.
  destruct (hung_steps 1 l _ _ Hh Hs) as (H1 & H2 & H3). split; [done|]. split; [done|]. intros k Hk Hf. apply H3 in Hf. apply lookup_lt_Some in Hf. lia.
Qed.

(** ** Examples *)

Definition ex_event (n : string) : StreamEvent := User (UserChanged n).
(** The client connects, two events are sent. *)
Definition ex_run : list choice :=
  [Call (SendCheck (ex_event "a")); Step 1 true; Step 1 true; Step 0 true; Step 0 true; Step 0 true; Step 0 true; Call (SendCheck (ex_event "b")); Step 3 true; Step 3 true; Meet 0 3; Step 0 true; Step 0 true; Step 2 true; Step 2 true].

(** The event of the queue comes after the one that was sent later. *)
Example overtaken : (fun s => (delivered s, pending s)) <$> steps (ex_run ++ [Meet 0 2; Step 0 true; Step 0 true; Step 2 true]) (served false) = Some ([ex_event "b"; ex_event "a"], []).
Proof. vm_compute. reflexivity. Qed.

(** An event that found no stream but enters the queue after it was sent: it waits for the next stream. *)
Example left_in_queue :
  (fun s => (delivered s, eventQueue s, forallb settled (threads s))) <$>
    steps [Call (SendCheck (ex_event "a")); Step 1 true; Step 0 true; Step 0 true; Step 0 true; Step 0 true; Step 2 true; Step 2 true; Step 1 true] (served false) = Some ([], [ex_event "a"], true).
Proof. vm_compute. reflexivity. Qed.

(** The stream ends with an error while another event is being sent: the goroutine of that event sends on a closed channel. *)
Example send_on_closed :
  (fun s => (delivered s, threads s)) <$> steps (ex_run ++ [Meet 0 2; Step 0 false; Step 0 true; Call (SendCheck (ex_event "c")); Step 4 true; Step 4 true; Step 4 true; Step 0 true; Step 0 true]) (served false) =
    Some ([ex_event "b"], [Finished; Finished; FlushNext []; Finished; Panicked]).
Proof. vm_compute. reflexivity. Qed.

Lemma ex_run_ok : is_Some (steps ex_run (served false)).
Proof. vm_compute. by eexists. Qed.

Lemma stream_delivers_witness : exists s, steps ex_run (served false) = Some s /\ filterOutInternetStatusEvents (events_of ex_run) ≡ₚ filterOutInternetStatusEvents (delivered s ++ pending s).
Proof. destruct ex_run_ok as [s Hs]. exists s. split; [exact Hs|]. exact (proj1 (stream_delivers false ex_run s eq_refl Hs)). Defined.
