(* ===== verification/GuiLogin.v ===== *)
(** * Logging in with the graphical client (internal/frontend/grpc: service.go, service_methods.go, fido.go)

    A login takes several calls of the client: the password, a second factor, the password of the
    mailbox, a human verification in between.  Each call returns at once and its work is done by a goroutine, which
    answers with an event.  The service keeps what the calls share: the session, the password and the
    number of attempts.  A goroutine is a thread whose parts, between which it waits for the API or for a
    security key, are steps that interleave.  A slice of bytes is a place in a memory of buffers, so that the model says which copies of a
    password are overwritten.  The bridge is that of [Users.v]. *)

From S2P Require Import Prelude.
From S2P Require Import Strings.
From S2P Require Import Api.
From S2P Require Import UserEvents.
From S2P Require Import UserIdentity.
From S2P Require Import Effects.
From S2P Require Vault.
From S2P Require Import Users.
From S2P Require EventStream.

(** Base64, the text of an error, and the codes of the API, which are different. *)
Class LoginText : Type := {
  base64Decode : string -> option string;
  Error_text : uerr -> string;
  PasswordWrong : Z; UsernameInvalid : Z; PaidPlanRequired : Z; HumanValidationInvalidToken : Z
}.

(** ** State *)

Inductive TwoFAStatus : Type := NoTwoFA | HasTOTP | HasFIDO2 | HasFIDO2AndTOTP.
Inductive PasswordModes : Type := NoMode | OnePasswordMode | TwoPasswordMode.
Record Auth : Type := mkAuth { a_UserID : string; a_UID : string; a_RefreshToken : string; a_TwoFA : TwoFAStatus; a_PasswordMode : PasswordModes }.
Definition noAuth : Auth := mkAuth "" "" "" NoTwoFA NoMode.

Record APIHVDetails : Type := mkHv { Methods : list string; Token : string }.
Definition FormatHvURL (details : APIHVDetails) : string := "https://verify.proton.me/?methods=" +:+ String.concat "," (Methods details) +:+ "&token=" +:+ Token details.
Definition ExtractionErrorMsg : string := "Human verification requested, but an issue occurred. Please try again.".
Definition VerificationFailedErrorMsg : string := "Human verification failed. Please try again.".

Definition twoPasswordsMaxAttemptCount : Z := 3.

(** A slice: a buffer and how much of it; a nil slice has no buffer. *)
Record slice : Type := mkSlice { sl_at : option nat; sl_len : nat }.

(** The goroutines: before they start, and while they wait for [LoginAuth], [Auth2FA], the security key and [LoginUser]. [FCancelled] and [FAborted]
    end without an answer. *)
Inductive flow : Type :=
| FLogin (username password : string) (hv : option APIHVDetails)
| FLoginAuth (username : string) (password : slice) (hv : option APIHVDetails)
| F2FA (username code : string)
| F2FACall (username : string)
| FFido (username pin : string)
| FFidoCall (username : string)
| F2Passwords (password : string)
| FLoginUser (client : nat) (auth : Auth) (password : slice) (hv : option APIHVDetails) (wasSignedOut : bool)
| FAbort
| FDone | FCancelled | FAborted | FPanicked.

(** What the API was asked to do with a session; [refused]: it failed, and not because of a human verification. *)
Inductive api_call : Type :=
| CalledLoginAuth (username password : string) | CalledAuth2FA (client : nat) (code : string) | CalledLoginUser (client : nat) (password : string) (refused : bool) | CalledAuthDelete (client : nat).

Record gui `{VC : Vault.VaultCodec} : Type := mkGui {
  g_bridge : Bridge; g_auth : Auth; g_client : option nat; g_password : slice; g_mem : list string; g_attempts : Z;
  g_hv : option APIHVDetails; g_useHv : bool; g_flows : list flow; g_told : list EventStream.StreamEvent; g_api : list api_call
}.

(** What the steps get from outside: the API and the disk for the bridge, a client for a new session with what it demands, the flag for security keys, the
    details of a human verification if they can be read, the reply to a second factor, and the security key. *)
Inductive fido_end : Type := FidoOk | PinAuthBlocked | PinInvalid | AssertionCancelled | FidoFails (e : uerr).
Record answers : Type := mkAnswers {
  an_login : login_env; an_client : nat; an_twoFA : TwoFAStatus; an_mode : PasswordModes; an_u2f : bool; an_hv : option APIHVDetails;
  an_vault : Vault.venv; an_2fa : option uerr; an_pin : result uerr bool; an_touches : nat; an_fido : fido_end
}.

Section login.
Context `{VC : Vault.VaultCodec} `{MR : MapRange, SF : SortFunc} `{LT : LoginText}.

Definition set_bridge (b : Bridge) (g : gui) : gui := mkGui VC b (g_auth g) (g_client g) (g_password g) (g_mem g) (g_attempts g) (g_hv g) (g_useHv g) (g_flows g) (g_told g) (g_api g).
Definition set_session (a : Auth) (c : option nat) (g : gui) : gui := mkGui VC (g_bridge g) a c (g_password g) (g_mem g) (g_attempts g) (g_hv g) (g_useHv g) (g_flows g) (g_told g) (g_api g).
Definition set_password (p : slice) (g : gui) : gui := mkGui VC (g_bridge g) (g_auth g) (g_client g) p (g_mem g) (g_attempts g) (g_hv g) (g_useHv g) (g_flows g) (g_told g) (g_api g).
Definition set_mem (m : list string) (g : gui) : gui := mkGui VC (g_bridge g) (g_auth g) (g_client g) (g_password g) m (g_attempts g) (g_hv g) (g_useHv g) (g_flows g) (g_told g) (g_api g).
Definition set_attempts (n : Z) (g : gui) : gui := mkGui VC (g_bridge g) (g_auth g) (g_client g) (g_password g) (g_mem g) n (g_hv g) (g_useHv g) (g_flows g) (g_told g) (g_api g).
Definition set_hv (h : option APIHVDetails) (g : gui) : gui := mkGui VC (g_bridge g) (g_auth g) (g_client g) (g_password g) (g_mem g) (g_attempts g) h (g_useHv g) (g_flows g) (g_told g) (g_api g).
Definition set_useHv (b : bool) (g : gui) : gui := mkGui VC (g_bridge g) (g_auth g) (g_client g) (g_password g) (g_mem g) (g_attempts g) (g_hv g) b (g_flows g) (g_told g) (g_api g).
Definition set_flows (l : list flow) (g : gui) : gui := mkGui VC (g_bridge g) (g_auth g) (g_client g) (g_password g) (g_mem g) (g_attempts g) (g_hv g) (g_useHv g) l (g_told g) (g_api g).
Definition SendEvent (e : EventStream.LoginEvent) (g : gui) : gui := mkGui VC (g_bridge g) (g_auth g) (g_client g) (g_password g) (g_mem g) (g_attempts g) (g_hv g) (g_useHv g) (g_flows g) (g_told g ++ [EventStream.Login e]) (g_api g).
Definition called (c : api_call) (g : gui) : gui := mkGui VC (g_bridge g) (g_auth g) (g_client g) (g_password g) (g_mem g) (g_attempts g) (g_hv g) (g_useHv g) (g_flows g) (g_told g) (g_api g ++ [c]).

(** A new buffer with a text; what a slice holds. *)
Definition allocate (text : string) (g : gui) : gui * slice := (set_mem (g_mem g ++ [text]) g, mkSlice (Some (length (g_mem g))) (String.length text)).
Definition read_slice (p : slice) (g : gui) : string := String.substring 0 (sl_len p) (default "" (a ← sl_at p; g_mem g !! a)).

(** Overwriting a slice with zeros. *)
Definition nul : Ascii.ascii := Ascii.ascii_of_nat 0.
Fixpoint zeroed (n : nat) (s : string) : string := match n, s with S n, String _ s => String nul (zeroed n s) | _, _ => s end.
Definition zero (p : slice) (m : list string) : list string := match sl_at p with Some a => alter (zeroed (sl_len p)) a m | None => m end.

Definition loginClean (g : gui) : gui :=
  set_useHv false (set_password (mkSlice (sl_at (g_password g)) 0) (set_mem (zero (g_password g) (g_mem g)) (set_session noAuth None g))).

Definition LoginError (t : EventStream.LoginErrorType) (message : string) (g : gui) : gui := SendEvent (EventStream.LoginError t message) g.

Definition handleHvRequest (details : option APIHVDetails) (g : gui) : gui :=
  match details with
  | None => LoginError EventStream.HV_ERROR ExtractionErrorMsg g
  | Some d => SendEvent (EventStream.HvRequested (FormatHvURL d)) (set_hv (Some d) g)
  end.

(** ** Finishing (service.go) *)

Definition gui_HasUser (env : Vault.venv) (userID : string) (g : gui) : gui * option bool :=
  let '(b, r) := vaulted (Vault.HasUser env userID) (g_bridge g) in (set_bridge b g, match r with Ok has => Some has | Err _ => None end).

(** [finishLogin] up to the call of [LoginUser]. *)
Definition finishLogin (env : answers) (g : gui) : gui * flow :=
  match gui_HasUser (an_vault env) (a_UserID (g_auth g)) g with
  | (g, None) => (loginClean g, FPanicked)
  | (g, Some wasSignedOut) =>
      match g_client g with
      | Some client =>
          if (sl_len (g_password g) =? 0)%nat || String.eqb (a_UID (g_auth g)) "" then
            (loginClean (LoginError EventStream.TWO_PASSWORDS_ABORT "Missing authentication, try again." g), FDone)
          else (g, FLoginUser client (g_auth g) (g_password g) (if g_useHv g then g_hv g else None) wasSignedOut)
      | None => (loginClean (LoginError EventStream.TWO_PASSWORDS_ABORT "Missing authentication, try again." g), FDone)
      end
  end.

(** From the return of [LoginUser]; a session that another goroutine took away makes [AuthDelete] panic. *)
Definition login_failed (e : uerr) (env : answers) (client : nat) (g : gui) : gui * flow :=
  if bool_decide (api_code e = Some HumanVerificationRequired) then (handleHvRequest (an_hv env) g, FDone)
  else if bool_decide (api_code e = Some HumanValidationInvalidToken) then
    (loginClean (LoginError EventStream.HV_ERROR VerificationFailedErrorMsg (set_hv None g)), FDone)
  else
    let g := set_attempts (g_attempts g + 1) g in
    if is_failed_to_unlock e then
      if g_attempts g <? twoPasswordsMaxAttemptCount then (LoginError EventStream.TWO_PASSWORDS_ERROR (Error_text e) g, FDone)
      else
        match g_client g with
        | Some c => (loginClean (LoginError EventStream.TWO_PASSWORDS_ABORT (Error_text e) (called (CalledAuthDelete c) g)), FDone)
        | None => (loginClean g, FPanicked)
        end
    else (loginClean (LoginError EventStream.TWO_PASSWORDS_ABORT (Error_text e) g), FDone).

(** [bridge.LoginUser]: when it fails for another reason than the keys, it ends the session. *)
Definition call_LoginUser (env : answers) (client : nat) (auth : Auth) (password : slice) (g : gui) : gui * result ufault string :=
  let '(b, r) := LoginUser (an_login env) (a_UID auth) (a_RefreshToken auth) (g_bridge g) in
  let refused := match r with Err (UFails e) => negb (bool_decide (api_code e = Some HumanVerificationRequired)) | _ => false end in
  let g := called (CalledLoginUser client (read_slice password g) refused) (set_bridge b g) in
  (match r with Err (UFails e) => if is_failed_to_unlock e then g else called (CalledAuthDelete client) g | _ => g end, r).

Definition finish_LoginUser (env : answers) (client : nat) (auth : Auth) (password : slice) (wasSignedOut : bool) (g : gui) : gui * flow :=
  match call_LoginUser env client auth password g with
  | (g, Err UPanics) => (loginClean g, FPanicked)
  | (g, Err (UFails e)) => login_failed e env client g
  | (g, Ok userID) => (loginClean (SendEvent (EventStream.LoginFinished userID wasSignedOut) g), FDone)
  end.

(** ** The goroutines (service_methods.go, fido.go) *)

Fixpoint is_already_logged_in (e : uerr) : bool :=
  match e with ErrUserAlreadyLoggedIn => true | UWrap _ e => is_already_logged_in e | UBoth e e' => is_already_logged_in e || is_already_logged_in e' | _ => false end.

(** [Login] until it calls [LoginAuth]. *)
Definition start_Login (username password : string) (hv : option APIHVDetails) (g : gui) : gui * flow :=
  let g := set_attempts 0 g in
  match base64Decode password with
  | None => (LoginError EventStream.USERNAME_PASSWORD_ERROR "Cannot decode password" g, FDone)
  | Some text => let '(g, p) := allocate text g in (g, FLoginAuth username p hv)
  end.

(** What is told when [LoginAuth] fails; [auth] is what it returned. *)
Definition auth_failed (e : uerr) (auth : Auth) (env : answers) (g : gui) : gui :=
  if is_already_logged_in e then SendEvent (EventStream.AlreadyLoggedIn (a_UserID auth)) g
  else
    match api_code e with
    | Some code =>
        if (code =? PasswordWrong) || (code =? UsernameInvalid) then LoginError EventStream.USERNAME_PASSWORD_ERROR "" g
        else if code =? PaidPlanRequired then LoginError EventStream.FREE_USER "" g
        else if code =? HumanVerificationRequired then handleHvRequest (an_hv env) g
        else if code =? HumanValidationInvalidToken then LoginError EventStream.HV_ERROR VerificationFailedErrorMsg (set_hv None g)
        else LoginError EventStream.USERNAME_PASSWORD_ERROR (Error_text e) g
    | None => LoginError EventStream.USERNAME_PASSWORD_ERROR (Error_text e) g
    end.

(** What comes after the password. *)
Definition next_factor (username : string) (env : answers) (g : gui) : gui * flow :=
  match a_TwoFA (g_auth g) with
  | HasTOTP => (SendEvent (EventStream.TfaRequested username) g, FDone)
  | HasFIDO2 =>
      if an_u2f env then (SendEvent (EventStream.FidoRequested username) g, FDone)
      else (LoginError EventStream.FIDO_ERROR "Security key authentication required but not enabled in server configuration." g, FDone)
  | HasFIDO2AndTOTP =>
      (SendEvent (if an_u2f env then EventStream.TfaOrFidoRequested username else EventStream.TfaRequested username) g, FDone)
  | NoTwoFA =>
      match a_PasswordMode (g_auth g) with
      | TwoPasswordMode => (SendEvent (EventStream.TwoPasswordRequested username) g, FDone)
      | _ => finishLogin env g
      end
  end.

Definition finish_LoginAuth (env : answers) (username : string) (password : slice) (hv : option APIHVDetails) (g : gui) : gui * flow :=
  let g := called (CalledLoginAuth username (read_slice password g)) g in
  let '(b, r) := LoginAuth (an_login env) username (g_bridge g) in
  let g := set_bridge b g in
  match r with
  | Err UPanics => (g, FPanicked)
  | Err (UFails e) =>
      let g := if is_already_logged_in e then called (CalledAuthDelete (an_client env)) g else g in
      (loginClean (auth_failed e noAuth env g), FDone)
  | Ok (userID, (uid, ref)) =>
      next_factor username env (set_session (mkAuth userID uid ref (an_twoFA env) (an_mode env)) (Some (an_client env)) (set_password password g))
  end.

(** A second factor needs a session. *)
Definition authenticated (g : gui) : option nat := if String.eqb (a_UID (g_auth g)) "" then None else g_client g.

Definition start_2FA (username code : string) (g : gui) : gui * flow :=
  match authenticated g with
  | None => (loginClean (LoginError EventStream.TFA_ABORT "Missing authentication, try again." g), FDone)
  | Some client =>
      match base64Decode code with
      | None => (loginClean (LoginError EventStream.USERNAME_PASSWORD_ERROR "Cannot decode 2fa code" g), FDone)
      | Some text => (called (CalledAuth2FA client text) g, F2FACall username)
      end
  end.

(** After a second factor. *)
Definition after_factor (username : string) (env : answers) (g : gui) : gui * flow :=
  match a_PasswordMode (g_auth g) with
  | TwoPasswordMode => (SendEvent (EventStream.TwoPasswordRequested username) g, FDone)
  | _ => finishLogin env g
  end.

Definition finish_2FA (env : answers) (username : string) (g : gui) : gui * flow :=
  match an_2fa env with
  | Some e =>
      if bool_decide (api_code e = Some PasswordWrong) then (LoginError EventStream.TFA_ERROR "" g, FDone)
      else (loginClean (LoginError EventStream.TFA_ABORT (Error_text e) g), FDone)
  | None => after_factor username env g
  end.

Definition start_Fido (env : answers) (username pin : string) (g : gui) : gui * flow :=
  match authenticated g with
  | None => (loginClean (LoginError EventStream.FIDO_ERROR "Missing authentication, try again." g), FDone)
  | Some _ =>
      match an_pin env with
      | Err e => (loginClean (LoginError EventStream.FIDO_ERROR ("Could not obtain security key pin requirements: " +:+ Error_text e) g), FDone)
      | Ok pinSupported =>
          if pinSupported && String.eqb pin "" then (SendEvent (EventStream.LoginFidoPinRequired username) g, FDone)
          else
            match base64Decode pin with
            | None => (LoginError EventStream.FIDO_PIN_INVALID "Could not decode security key PIN" g, FDone)
            | Some _ => (g, FFidoCall username)
            end
      end
  end.

(** The goroutine beside it tells that the key waits to be touched, and that it was. *)
Definition tell_touches (n : nat) (username : string) (g : gui) : gui :=
  match n with
  | 0%nat => g
  | 1%nat => SendEvent (EventStream.LoginFidoTouchRequested username) g
  | _ => SendEvent (EventStream.LoginFidoTouchCompleted username) (SendEvent (EventStream.LoginFidoTouchRequested username) g)
  end.

Definition finish_Fido (env : answers) (username : string) (g : gui) : gui * flow :=
  let g := tell_touches (an_touches env) username g in
  match an_fido env with
  | PinAuthBlocked => (LoginError EventStream.FIDO_PIN_BLOCKED "Security key PIN code is blocked" g, FDone)
  | PinInvalid => (LoginError EventStream.FIDO_PIN_INVALID "Security key PIN code is incorrect" g, FDone)
  | AssertionCancelled => (g, FCancelled)
  | FidoFails e => (loginClean (LoginError EventStream.FIDO_ERROR ("Security key authentication failed: " +:+ Error_text e) g), FDone)
  | FidoOk => after_factor username env g
  end.

Definition start_2Passwords (env : answers) (password : string) (g : gui) : gui * flow :=
  match base64Decode password with
  | None => (loginClean (LoginError EventStream.USERNAME_PASSWORD_ERROR "Cannot decode mbox password" g), FDone)
  | Some text => let '(g, p) := allocate text g in finishLogin env (set_password p g)
  end.

(** The next part of a goroutine; [None] when it ended. *)
Definition flow_step (env : answers) (f : flow) (g : gui) : option (gui * flow) :=
  match f with
  | FLogin username password hv => Some (start_Login username password hv g)
  | FLoginAuth username password hv => Some (finish_LoginAuth env username password hv g)
  | F2FA username code => Some (start_2FA username code g)
  | F2FACall username => Some (finish_2FA env username g)
  | FFido username pin => Some (start_Fido env username pin g)
  | FFidoCall username => Some (finish_Fido env username g)
  | F2Passwords password => Some (start_2Passwords env password g)
  | FLoginUser client auth password _ was => Some (finish_LoginUser env client auth password was g)
  | FAbort => Some (loginClean g, FAborted)
  | FDone | FCancelled | FAborted | FPanicked => None
  end.

(** The calls of the client; [Login] itself takes the details of the human verification. *)
Inductive gui_request : Type :=
| Login (username password : string) (useHvDetails : bool) | Login2FA (username code : string) | LoginFido (username pin : string) | Login2Passwords (password : string) | LoginAbort.
Definition start_request (r : gui_request) (g : gui) : gui * flow :=
  match r with
  | Login username password useHvDetails => (set_useHv useHvDetails g, FLogin username password (if useHvDetails then g_hv g else None))
  | Login2FA username code => (g, F2FA username code)
  | LoginFido username pin => (g, FFido username pin)
  | Login2Passwords password => (g, F2Passwords password)
  | LoginAbort => (g, FAbort)
  end.

Inductive gui_choice : Type := Request (r : gui_request) | Advance (i : nat) (env : answers).
Definition gui_step (c : gui_choice) (g : gui) : option gui :=
  match c with
  | Request r => let '(g, f) := start_request r g in Some (set_flows (g_flows g ++ [f]) g)
  | Advance i env => f ← g_flows g !! i; '(g', f') ← flow_step env f g; Some (set_flows (<[i := f']> (g_flows g')) g')
  end.
Fixpoint gui_run (l : list gui_choice) (g : gui) : option gui := match l with [] => Some g | c :: l => g' ← gui_step c g; gui_run l g' end.

Definition new_gui (b : Bridge) : gui := mkGui VC b noAuth None (mkSlice None 0) [] 0 None false [] [] [].

(** ** Each request is answered *)

Definition is_verdict (e : EventStream.LoginEvent) : bool :=
  match e with EventStream.LoginFidoTouchRequested _ | EventStream.LoginFidoTouchCompleted _ => false | _ => true end.
(** After these the client starts over. *)
Definition ends_login (e : EventStream.LoginEvent) : bool :=
  match e with
  | EventStream.LoginFinished _ _ | EventStream.AlreadyLoggedIn _ => true
  | EventStream.LoginError (EventStream.TFA_ABORT | EventStream.TWO_PASSWORDS_ABORT | EventStream.FREE_USER) _ => true
  | _ => false
  end.

(** Nothing of a session is kept. *)
Definition forgotten (g : gui) : Prop := g_auth g = noAuth /\ g_client g = None /\ g_useHv g = false /\ sl_len (g_password g) = 0%nat.
Definition logged_in (id : string) (g : gui) : Prop := is_Some (b_users (g_bridge g) !! id).

(** What a part of a goroutine tells: at its end one verdict, before it at most that a key waits for a touch. *)
Definition outcome (g g' : gui) (f' : flow) : Prop :=
  exists pre vs, g_told g' = g_told g ++ (EventStream.Login <$> pre ++ vs) /\ Forall (fun e => is_verdict e = false) pre /\
    match f' with
    | FDone => exists v, vs = [v] /\ is_verdict v = true /\ (ends_login v = true -> forgotten g') /\ (forall id was, v = EventStream.LoginFinished id was -> logged_in id g')
    | _ => vs = []
    end.

Lemma clean_forgotten g : forgotten (loginClean g).
Proof. done. Qed.

(** One verdict, with the session forgotten or not the end of the login. *)
Lemma verdict_outcome g g' v : g_told g' = g_told g ++ [EventStream.Login v] -> is_verdict v = true -> (ends_login v = true -> forgotten g') ->
  (forall id was, v = EventStream.LoginFinished id was -> logged_in id g') -> outcome g g' FDone.
Proof. intros H Hv He Hp. exists [], [v]. split; [done|]. split; [done|]. by exists v. Qed.
Lemma silent_outcome g g' f : g_told g' = g_told g -> f <> FDone -> outcome g g' f.
Proof. intros H Hf. exists [], []. cbn. rewrite app_nil_r. split; [done|]. split; [done|]. by destruct f. Qed.
Lemma outcome_from g g0 g' f : g_told g0 = g_told g -> outcome g0 g' f -> outcome g g' f.
Proof. intros H (pre & vs & Ht & ?). exists pre, vs. by rewrite Ht, H. Qed.

(** *** The bridge has the user after a login *)

Lemma undo_add_fails env apiUser vaultUser isNew isLogin e s s' : undo_add env apiUser vaultUser isNew isLogin e s <> (s', Ok ()).
Proof. unfold undo_add. intros (s1 & a1 & _ & (s2 & a2 & _ & (s3 & a3 & _ & H)%eff_bind_Ok)%eff_bind_Ok)%eff_bind_Ok. discriminate. Qed.

Lemma addUser_logged_in env apiUser authUID authRef keyPass isLogin s s' :
  addUser env apiUser authUID authRef keyPass isLogin s = (s', Ok ()) -> is_Some (b_users s' !! user_ID (au_user apiUser)).
Proof.
  unfold addUser. intros (s1 & added & _ & H1)%eff_bind_Ok. unfold handling in H1.
  destruct (addUserWithVault env apiUser added.1 added.2 s1) as [s2 [[]|[|e]]] eqn:Hadd; [| done | by apply undo_add_fails in H1]. injection H1 as <-.
  unfold addUserWithVault in Hadd. apply eff_bind_Ok in Hadd as (s3 & a3 & _ & (s4 & user & _ & (s5 & a5 & H5 & (s6 & a6 & H6 & H7)%eff_bind_Ok)%eff_bind_Ok)%eff_bind_Ok).
  injection H5 as <- _. injection H6 as <- _. injection H7 as <-. cbn [b_users set_users SetNumberConnectedAccounts]. rewrite lookup_alter_eq, lookup_insert_eq. by eexists.
Qed.

Lemma LoginUser_logged_in env authUID authRef s s' id : LoginUser env authUID authRef s = (s', Ok id) -> is_Some (b_users s' !! id).
Proof.
  unfold LoginUser. intros (s1 & userID & H1 & (s2 & a2 & H2 & H3)%eff_bind_Ok)%eff_bind_Ok. injection H2 as <- _. injection H3 as <- <-. cbn [b_users add_event].
  apply wrapping_Ok_iff in H1. unfold catching in H1. destruct (loginUser env authUID authRef s) as [s3 [r|[|e]]] eqn:Hl; [|done|done]. injection H1 as <- <-.
  unfold loginUser in Hl. apply eff_bind_Ok in Hl as (t1 & apiUser & _ & (t2 & a & _ & (t3 & salted & _ & (t4 & n & _ & Hn)%eff_bind_Ok)%eff_bind_Ok)%eff_bind_Ok).
  destruct (n =? 0); [discriminate|]. apply eff_bind_Ok in Hn as (t5 & [] & H5%wrapping_Ok_iff & H6). injection H6 as <- <-. by apply addUser_logged_in in H5.
Qed.

(** *** Verdicts *)

Lemma gui_HasUser_told env id g g' r : gui_HasUser env id g = (g', r) -> g_told g' = g_told g.
Proof. unfold gui_HasUser. destruct (vaulted _ _) as [b x]. intros [= <- _]. done. Qed.

(** One event that is a verdict. *)
#[local] Ltac told_one := by eapply verdict_outcome; [reflexivity|..].

Lemma finishLogin_outcome env g g' f : finishLogin env g = (g', f) -> outcome g g' f.
Proof.
  unfold finishLogin. destruct (gui_HasUser _ _ g) as [g1 [was|]] eqn:Hh; apply gui_HasUser_told in Hh.
  - assert (Hno : outcome g (loginClean (LoginError EventStream.TWO_PASSWORDS_ABORT "Missing authentication, try again." g1)) FDone).
    { apply (outcome_from g g1); [done|]. told_one. }
    destruct (g_client g1) as [c|]; [|by intros [= <- <-]]. destruct (_ || _); intros [= <- <-]; [done|]. by apply silent_outcome.
  - intros [= <- <-]. by apply silent_outcome.
Qed.

Lemma handleHvRequest_outcome d g : outcome g (handleHvRequest d g) FDone.
Proof. destruct d; told_one. Qed.

Lemma login_failed_outcome e env client g g' f : login_failed e env client g = (g', f) -> outcome g g' f.
Proof.
  unfold login_failed. destruct (bool_decide _); [intros [= <- <-]; apply handleHvRequest_outcome|]. destruct (bool_decide _); [intros [= <- <-]; told_one|].
  cbv zeta. destruct (is_failed_to_unlock e); [|intros [= <- <-]; told_one]. destruct (_ <? _); [intros [= <- <-]; told_one|].
  cbn [g_client set_attempts]. destruct (g_client g); intros [= <- <-]; [told_one|]. by apply silent_outcome.
Qed.

Lemma finish_LoginUser_outcome env client auth p was g g' f : finish_LoginUser env client auth p was g = (g', f) -> outcome g g' f.
Proof.
  unfold finish_LoginUser, call_LoginUser. destruct (LoginUser _ _ _ (g_bridge g)) as [b r] eqn:Hl. cbv zeta. destruct r as [id|[|e]].
  - intros [= <- <-]. eapply verdict_outcome; [reflexivity|done|done|]. intros id' was' [= <- <-]. by apply LoginUser_logged_in in Hl.
  - intros [= <- <-]. by apply silent_outcome.
  - intros H%login_failed_outcome. revert H. by apply outcome_from; destruct (is_failed_to_unlock e).
Qed.

Lemma auth_failed_outcome e env g : outcome g (loginClean (auth_failed e noAuth env g)) FDone.
Proof.
  unfold auth_failed, handleHvRequest. repeat case_match; told_one.
Qed.

Lemma next_factor_outcome username env g g' f : next_factor username env g = (g', f) -> outcome g g' f.
Proof.
  unfold next_factor. destruct (a_TwoFA (g_auth g)).
  - destruct (a_PasswordMode _); try apply finishLogin_outcome. intros [= <- <-]. told_one.
  - intros [= <- <-]. told_one.
  - destruct (an_u2f env); intros [= <- <-]; told_one.
  - intros [= <- <-]. destruct (an_u2f env); told_one.
Qed.

Lemma after_factor_outcome username env g g' f : after_factor username env g = (g', f) -> outcome g g' f.
Proof. unfold after_factor. destruct (a_PasswordMode _); try apply finishLogin_outcome. intros [= <- <-]. told_one. Qed.

(** Touches come before the verdict. *)
Lemma touches_outcome n username g g' f : outcome (tell_touches n username g) g' f -> outcome g g' f.
Proof.
  intros (pre & vs & Ht & Hp & Hv). destruct n as [|[|n]].
  - exists pre, vs. by rewrite Ht.
  - exists (EventStream.LoginFidoTouchRequested username :: pre), vs. rewrite Ht. split; [cbn; by rewrite <- app_assoc|]. split; [by constructor|done].
  - exists (EventStream.LoginFidoTouchRequested username :: EventStream.LoginFidoTouchCompleted username :: pre), vs. rewrite Ht. split; [cbn; by rewrite <- !app_assoc|]. split; [by repeat constructor|done].
Qed.

Lemma flow_step_outcome env f g g' f' : flow_step env f g = Some (g', f') -> outcome g g' f'.
Proof.
  destruct f as [username password hv|username p hv|username code|username|username pin|username|password|client auth p hv was| | | | |]; try done; cbn [flow_step]; intros [= H].
  - unfold start_Login, allocate in H. destruct (base64Decode password); simplify_eq; [by apply silent_outcome|told_one].
  - unfold finish_LoginAuth in H. cbv zeta in H. destruct (LoginAuth _ _ _) as [b r]. destruct r as [[userID [uid ref]]|[|e]].
    + apply next_factor_outcome in H. revert H. by apply outcome_from.
    + simplify_eq. by apply silent_outcome.
    + simplify_eq. match goal with |- outcome _ (loginClean (auth_failed _ _ _ ?g1)) _ => apply (outcome_from g g1); [|apply auth_failed_outcome] end. by destruct (is_already_logged_in e).
  - unfold start_2FA in H. destruct (authenticated g); [|simplify_eq; told_one]. destruct (base64Decode code); simplify_eq; [by apply silent_outcome|told_one].
  - unfold finish_2FA in H. destruct (an_2fa env) as [e|]; [|by apply after_factor_outcome in H]. destruct (bool_decide _); simplify_eq; told_one.
  - unfold start_Fido in H. destruct (authenticated g); [|simplify_eq; told_one]. destruct (an_pin env) as [[|]|e]; cbn [andb] in H; [destruct (String.eqb pin "")| |]; [simplify_eq; told_one| | |simplify_eq; told_one];
      (destruct (base64Decode pin); simplify_eq; [by apply silent_outcome|told_one]).
  - unfold finish_Fido in H. cbv zeta in H. apply (touches_outcome (an_touches env) username). destruct (an_fido env); simplify_eq; try told_one; [by apply after_factor_outcome in H|by apply silent_outcome].
  - unfold start_2Passwords, allocate in H. destruct (base64Decode password); [|simplify_eq; told_one]. apply finishLogin_outcome in H. revert H. by apply outcome_from.
  - by apply finish_LoginUser_outcome in H.
  - simplify_eq. by apply silent_outcome.
Qed.

(** *** What is overwritten *)

Fixpoint all_nul (s : string) : bool := match s with EmptyString => true | String c s => Ascii.eqb c nul && all_nul s end.
(** A slice is a whole buffer, or its buffer was overwritten. *)
Definition covers (m : list string) (p : slice) : Prop := forall a, sl_at p = Some a -> exists s, m !! a = Some s /\ (sl_len p = String.length s \/ all_nul s = true).
Definition whole (m : list string) (p : slice) : Prop := exists a s, sl_at p = Some a /\ m !! a = Some s /\ sl_len p = String.length s.
Definition flow_memory (m : list string) (f : flow) : Prop := match f with FLoginAuth _ p _ => whole m p | _ => True end.
Definition wf_memory (g : gui) : Prop := covers (g_mem g) (g_password g) /\ Forall (flow_memory (g_mem g)) (g_flows g).

Lemma length_zeroed n s : String.length (zeroed n s) = String.length s.
Proof. revert s. induction n as [|n IH]; intros [|c s]; cbn; try done. by rewrite IH. Qed.
Lemma zeroed_all s : all_nul (zeroed (String.length s) s) = true.
Proof. induction s as [|c s IH]; [done|]. cbn. exact IH. Qed.
Lemma zeroed_nul n s : all_nul s = true -> all_nul (zeroed n s) = true.
Proof. revert s. induction n as [|n IH]; intros [|c s] H; try done. cbn in *. apply andb_true_iff in H as [_ H]. by apply IH. Qed.

(** Memory only grows, and what is in it is only overwritten with zeros. *)
Definition fades (m m' : list string) : Prop := forall a s, m !! a = Some s -> exists s', m' !! a = Some s' /\ String.length s' = String.length s /\ (all_nul s = true -> all_nul s' = true).

Lemma fades_refl m : fades m m.
Proof. intros a s H. by exists s. Qed.
Lemma fades_trans m1 m2 m3 : fades m1 m2 -> fades m2 m3 -> fades m1 m3.
Proof. intros H1 H2 a s (s2 & E2 & L2 & N2)%H1. destruct (H2 a s2 E2) as (s3 & E3 & L3 & N3). exists s3. split; [done|]. split; [congruence|auto]. Qed.
Lemma fades_app m l : fades m (m ++ l).
Proof. intros a s H. exists s. split; [by apply lookup_app_l_Some|done]. Qed.
Lemma fades_zero p m : fades m (zero p m).
Proof.
  intros a s H. unfold zero. destruct (sl_at p) as [b|]; [|by exists s]. destruct (decide (a = b)) as [->|Hne].
  - exists (zeroed (sl_len p) s). rewrite list_lookup_alter_eq, H. split; [done|]. split; [apply length_zeroed|apply zeroed_nul].
  - exists s. by rewrite list_lookup_alter_ne.
Qed.
Lemma whole_fades m m' p : fades m m' -> whole m p -> whole m' p.
Proof. intros Hf (a & s & H1 & H2 & H3). destruct (Hf a s H2) as (s' & E & L & _). exists a, s'. split; [done|]. split; [done|congruence]. Qed.
Lemma flow_memory_fades m m' f : fades m m' -> flow_memory m f -> flow_memory m' f.
Proof. intros Hf. destruct f; try done. by apply whole_fades. Qed.

Lemma covers_fades m m' p : fades m m' -> covers m p -> covers m' p.
Proof. intros Hf Hc a Ha. destruct (Hc a Ha) as (s & E & H). destruct (Hf a s E) as (s' & E' & L & N). exists s'. split; [done|]. destruct H as [->|H]; [by left|right; auto]. Qed.
Lemma whole_covers m p : whole m p -> covers m p.
Proof. intros (a & s & H1 & H2 & H3) b Hb. rewrite H1 in Hb. injection Hb as <-. exists s. by split; [|left]. Qed.

(** What a part of a goroutine does to the memory. *)
Definition tidy (g g' : gui) : Prop := fades (g_mem g) (g_mem g') /\ (covers (g_mem g) (g_password g) -> covers (g_mem g') (g_password g')) /\ g_flows g' = g_flows g.
Lemma tidy_refl g : tidy g g.
Proof. split; [apply fades_refl|done]. Qed.
Lemma tidy_trans g1 g2 g3 : tidy g1 g2 -> tidy g2 g3 -> tidy g1 g3.
Proof. intros (A1 & B1 & C1) (A2 & B2 & C2). split; [by eapply fades_trans|]. split; [auto|congruence]. Qed.
Lemma tidy_same g g' : g_mem g' = g_mem g -> g_password g' = g_password g -> g_flows g' = g_flows g -> tidy g g'.
Proof. intros H1 H2 H3. unfold tidy. rewrite H1, H2. split; [apply fades_refl|done]. Qed.

Lemma tidy_clean g : tidy g (loginClean g).
Proof.
  split; [apply fades_zero|]. split; [|done]. intros Hc a Ha. cbn [g_password loginClean set_useHv set_password sl_at] in Ha. destruct (Hc a Ha) as (s & E & H).
  cbn [g_mem loginClean set_useHv set_password set_mem set_session]. unfold zero. rewrite Ha, list_lookup_alter_eq, E. eexists. split; [done|]. right. destruct H as [->|H]; [apply zeroed_all|by apply zeroed_nul].
Qed.
Lemma tidy_clean_after g g' : tidy g g' -> tidy g (loginClean g').
Proof. intros H. eapply tidy_trans; [exact H|apply tidy_clean]. Qed.
#[local] Hint Resolve tidy_refl tidy_clean tidy_clean_after : core.
#[local] Ltac tidy_solve := first [by apply tidy_same | apply tidy_clean_after; by apply tidy_same].

Lemma gui_HasUser_tidy env id g g' r : gui_HasUser env id g = (g', r) -> tidy g g'.
Proof. unfold gui_HasUser. destruct (vaulted _ _) as [b x]. intros [= <- _]. tidy_solve. Qed.

Lemma finishLogin_tidy env g g' f : finishLogin env g = (g', f) -> tidy g g' /\ flow_memory (g_mem g') f.
Proof.
  unfold finishLogin. destruct (gui_HasUser _ _ g) as [g1 [was|]] eqn:Hh; apply gui_HasUser_tidy in Hh; [|intros [= <- <-]; (split; [auto|done])].
  assert (Hno : tidy g (loginClean (LoginError EventStream.TWO_PASSWORDS_ABORT "Missing authentication, try again." g1))) by (eapply tidy_trans; [exact Hh|tidy_solve]).
  destruct (g_client g1); [|intros [= <- <-]; (split; [auto|done])]. destruct (_ || _); intros [= <- <-]; (split; [auto|done]).
Qed.
Lemma after_factor_tidy username env g g' f : after_factor username env g = (g', f) -> tidy g g' /\ flow_memory (g_mem g') f.
Proof. unfold after_factor. destruct (a_PasswordMode _); try apply finishLogin_tidy. intros [= <- <-]. split; [tidy_solve|done]. Qed.
Lemma next_factor_tidy username env g g' f : next_factor username env g = (g', f) -> tidy g g' /\ flow_memory (g_mem g') f.
Proof.
  unfold next_factor. destruct (a_TwoFA _); [destruct (a_PasswordMode _); try apply finishLogin_tidy|..]; try destruct (an_u2f env); intros [= <- <-]; (split; [tidy_solve|done]).
Qed.
Lemma login_failed_tidy e env client g g' f : login_failed e env client g = (g', f) -> tidy g g' /\ flow_memory (g_mem g') f.
Proof.
  unfold login_failed, handleHvRequest. cbv zeta. cbn [g_client set_attempts]. repeat case_match; intros [= <- <-]; (split; [tidy_solve|done]).
Qed.
Lemma finish_LoginUser_tidy env client auth p was g g' f : finish_LoginUser env client auth p was g = (g', f) -> tidy g g' /\ flow_memory (g_mem g') f.
Proof.
  unfold finish_LoginUser, call_LoginUser. destruct (LoginUser _ _ _ (g_bridge g)) as [b r]. cbv zeta. destruct r as [id|[|e]]; [intros [= <- <-]; split; [tidy_solve|done]..|].
  intros [H Hf]%login_failed_tidy. split; [|done]. eapply tidy_trans; [|exact H]. destruct (is_failed_to_unlock e); tidy_solve.
Qed.

(** A new buffer becomes the password, or that of a flow. *)
Lemma tidy_set_password g p : whole (g_mem g) p -> tidy g (set_password p g).
Proof. intros Hp. split; [apply fades_refl|]. split; [|done]. intros _. by apply whole_covers. Qed.
Lemma tidy_allocate text g g' p : allocate text g = (g', p) -> tidy g g' /\ whole (g_mem g') p.
Proof.
  intros [= <- <-]. split.
  - split; [apply fades_app|]. split; [|done]. intros Hc. eapply covers_fades; [apply fades_app|exact Hc].
  - exists (length (g_mem g)), text. cbn [sl_at sl_len g_mem set_mem]. split; [done|]. split; [|done]. by rewrite lookup_app_r, Nat.sub_diag by done.
Qed.

Lemma flow_step_tidy env f g g' f' : flow_memory (g_mem g) f -> flow_step env f g = Some (g', f') -> tidy g g' /\ flow_memory (g_mem g') f'.
Proof.
  intros Hm. destruct f as [username password hv|username p hv|username code|username|username pin|username|password|client auth p hv was| | | | |]; try done; cbn [flow_step]; intros [= H].
  - unfold start_Login in H. destruct (base64Decode password) as [text|]; [|simplify_eq; split; [tidy_solve|done]]. destruct (allocate text (set_attempts 0 g)) as [g1 p] eqn:Ha. apply tidy_allocate in Ha as [T W]. simplify_eq. split; [|done]. eapply tidy_trans; [|exact T]. tidy_solve.
  - unfold finish_LoginAuth in H. cbv zeta in H. destruct (LoginAuth _ _ _) as [b r]. destruct r as [[userID [uid ref]]|[|e]].
    + apply next_factor_tidy in H as [T F]. split; [|done]. eapply tidy_trans; [|exact T]. eapply tidy_trans; [by apply (tidy_set_password g p)|]. tidy_solve.
    + simplify_eq. split; [tidy_solve|done].
    + simplify_eq. split; [|done]. apply tidy_clean_after. unfold auth_failed, handleHvRequest. repeat case_match; tidy_solve.
  - unfold start_2FA in H. destruct (authenticated g); [|simplify_eq; split; [tidy_solve|done]]. destruct (base64Decode code); simplify_eq; (split; [tidy_solve|done]).
  - unfold finish_2FA in H. destruct (an_2fa env) as [e|]; [|by apply after_factor_tidy in H]. destruct (bool_decide _); simplify_eq; (split; [tidy_solve|done]).
  - unfold start_Fido in H. destruct (authenticated g); [|simplify_eq; split; [tidy_solve|done]]. repeat case_match; simplify_eq; (split; [first [tidy_solve|apply tidy_refl]|done]).
  - unfold finish_Fido in H. cbv zeta in H. assert (Ht : tidy g (tell_touches (an_touches env) username g)) by (destruct (an_touches env) as [|[|n]]; tidy_solve).
    destruct (an_fido env); simplify_eq; try (split; [eapply tidy_trans; [exact Ht|tidy_solve]|done]). apply after_factor_tidy in H as [T F]. split; [by eapply tidy_trans|done].
  - unfold start_2Passwords in H. destruct (base64Decode password) as [text|]; [|simplify_eq; split; [tidy_solve|done]]. destruct (allocate text g) as [g1 p] eqn:Ha. apply tidy_allocate in Ha as [T W].
    apply finishLogin_tidy in H as [T2 F]. split; [|done]. eapply tidy_trans; [exact T|]. eapply tidy_trans; [by apply tidy_set_password|exact T2].
  - by apply finish_LoginUser_tidy in H.
  - simplify_eq. split; [auto|done].
Qed.

(** *** Runs *)

Lemma wf_step c g g' : wf_memory g -> gui_step c g = Some g' -> wf_memory g'.
Proof.
  intros [Hc Hf] Hs. destruct c as [r|i env]; cbn [gui_step] in Hs.
  - destruct r; cbn [start_request] in Hs; injection Hs as <-; (split; [exact Hc|]); apply Forall_app; (split; [exact Hf|by repeat constructor]).
  - destruct (g_flows g !! i) as [f|] eqn:Hi; cbn [mbind option_bind] in Hs; [|done]. destruct (flow_step env f g) as [[g1 f1]|] eqn:H1; cbn in Hs; [|done]. injection Hs as <-.
    destruct (flow_step_tidy env f g g1 f1) as [(T1 & T2 & T3) F]; [rewrite Forall_lookup in Hf; by eapply Hf|done|]. split; [by apply T2|]. cbn [g_flows set_flows g_mem]. rewrite T3.
    apply Forall_insert; [|exact F]. eapply Forall_impl; [exact Hf|]. intros f2. by apply flow_memory_fades.
Qed.
Lemma wf_run l : forall g g', wf_memory g -> gui_run l g = Some g' -> wf_memory g'.
Proof.
  induction l as [|c l IH]; intros g g' Hw Hr; cbn [gui_run] in Hr; [by injection Hr as <-|]. destruct (gui_step c g) as [g1|] eqn:H1; cbn in Hr; [|done]. eapply IH; [|exact Hr]. by eapply wf_step.
Qed.

Lemma step_flow i env g g' : gui_step (Advance i env) g = Some g' ->
  exists f g1 f1, g_flows g !! i = Some f /\ flow_step env f g = Some (g1, f1) /\ g' = set_flows (<[i := f1]> (g_flows g1)) g1.
Proof.
  cbn [gui_step]. destruct (g_flows g !! i) as [f|]; cbn [mbind option_bind]; [|done]. destruct (flow_step env f g) as [[g1 f1]|] eqn:H1; cbn; [|done]. intros [= <-]. by exists f, g1, f1.
Qed.

(** The buffer of the last password that the service held is overwritten. *)
Definition overwritten (g : gui) : Prop := forall a, sl_at (g_password g) = Some a -> exists s, g_mem g !! a = Some s /\ all_nul s = true.

Lemma forgotten_overwritten g : covers (g_mem g) (g_password g) -> forgotten g -> overwritten g.
Proof.
  intros Hc (_ & _ & _ & H0) a Ha. destruct (Hc a Ha) as (s & E & H). exists s. split; [done|]. destruct H as [H|H]; [|done]. rewrite H0 in H. by destruct s.
Qed.


(** How many verdicts were told, and how many goroutines ended with one. *)
Definition verdict_event (e : EventStream.StreamEvent) : bool := match e with EventStream.Login e => is_verdict e | _ => false end.
Definition verdicts (g : gui) : nat := length (Prelude.Filter (g_told g) verdict_event).
Definition ended_done (f : flow) : bool := match f with FDone => true | _ => false end.
Definition answered (g : gui) : nat := length (Prelude.Filter (g_flows g) ended_done).

Lemma verdicts_outcome g g' f : outcome g g' f -> verdicts g' = (verdicts g + if ended_done f then 1 else 0)%nat.
Proof.
  intros (pre & vs & Ht & Hp & Hv). unfold verdicts. rewrite Ht, Filter_app, length_app, fmap_app, Filter_app, length_app.
  assert (Hz : length (Prelude.Filter (EventStream.Login <$> pre) verdict_event) = 0%nat) by (clear -Hp; induction Hp as [|e pre He _ IH]; [done|]; cbn [fmap list_fmap Prelude.Filter verdict_event]; by rewrite He).
  rewrite Hz. destruct f; try (subst vs; cbn; lia). destruct Hv as (v & -> & Hv & _). cbn [fmap list_fmap Prelude.Filter verdict_event]. rewrite Hv. cbn. lia.
Qed.

Lemma answered_insert fs i f f' : fs !! i = Some f -> ended_done f = false ->
  length (Prelude.Filter (<[i := f']> fs) ended_done) = (length (Prelude.Filter fs ended_done) + if ended_done f' then 1 else 0)%nat.
Proof.
  intros Hi Hf. apply list_elem_of_split_length in Hi as (l1 & l2 & -> & ->). rewrite EventStream.insert_middle, !Filter_app, !length_app. cbn [Prelude.Filter]. rewrite Hf. destruct (ended_done f'); cbn; lia.
Qed.

Lemma verdicts_step c g g' : wf_memory g -> gui_step c g = Some g' -> (verdicts g' + answered g = verdicts g + answered g')%nat.
Proof.
  intros [_ Hf] Hs. destruct c as [r|i env].
  - cbn [gui_step] in Hs. destruct (start_request r g) as [g1 f] eqn:Hr. injection Hs as <-. assert (H : ended_done f = false /\ g_told g1 = g_told g /\ g_flows g1 = g_flows g) by (destruct r; by injection Hr as <- <-).
    destruct H as (H1 & H2 & H3). unfold verdicts, answered. cbn [g_told g_flows set_flows]. rewrite H2, H3, Filter_app, length_app. cbn [Prelude.Filter]. rewrite H1. cbn. lia.
  - destruct (step_flow i env g g' Hs) as (f & g1 & f1 & Hi & H1 & ->). rewrite Forall_lookup in Hf. destruct (flow_step_tidy env f g g1 f1 (Hf i f Hi) H1) as [(_ & _ & Hfl) _].
    assert (Hd : ended_done f = false) by (by destruct f). pose proof (verdicts_outcome _ _ _ (flow_step_outcome env f g g1 f1 H1)) as Hv.
    unfold answered. cbn [g_flows set_flows]. rewrite Hfl, (answered_insert _ i f f1 Hi Hd). change (verdicts (set_flows (<[i:=f1]> (g_flows g)) g1)) with (verdicts g1). lia.
Qed.

(** However the calls of the client interleave, each that ended was answered with exactly one verdict, but for those that were to abort, a key that was
    not touched, and a panic; a call that did not end yet was not answered. *)
Theorem calls_answered (b : Bridge) (l : list gui_choice) (g : gui) :
  gui_run l (new_gui b) = Some g -> verdicts g = answered g.
Proof.
  assert (H : forall l g g', wf_memory g -> gui_run l g = Some g' -> (verdicts g' + answered g = verdicts g + answered g')%nat).
  { clear. induction l as [|c l IH]; intros g g' Hw Hr; cbn [gui_run] in Hr; [by injection Hr as <-; lia|]. destruct (gui_step c g) as [g1|] eqn:H1; cbn in Hr; [|done].
    pose proof (verdicts_step c g g1 Hw H1). specialize (IH g1 g' (wf_step c g g1 Hw H1) Hr). lia. }
  intros Hr. assert (Hw : wf_memory (new_gui b)) by (split; [intros a Ha; done|constructor]). specialize (H l _ _ Hw Hr). change (verdicts (new_gui b)) with 0%nat in H. change (answered (new_gui b)) with 0%nat in H. lia.
Qed.

(** ** The password of the mailbox can be tried three times *)

(** Calls one after the other: a call is made when the goroutines of the others ended. *)
Definition ended (f : flow) : bool := match f with FDone | FCancelled | FAborted | FPanicked => true | _ => false end.
Definition idle (g : gui) : bool := forallb ended (g_flows g).
Fixpoint in_turn (l : list gui_choice) (g : gui) : bool :=
  match l with
  | [] => true
  | c :: l => match c with Request _ => idle g | Advance _ _ => true end && match gui_step c g with Some g' => in_turn l g' | None => true end
  end.

Definition was_refused (c : api_call) : bool := match c with CalledLoginUser _ _ refused => refused | _ => false end.
Definition refusals (g : gui) : Z := Z.of_nat (length (Prelude.Filter (g_api g) was_refused)).

(** What is left of the attempts, and the states that occur in turn. *)
Definition tries_left (g : gui) : Z := match g_client g with Some _ => twoPasswordsMaxAttemptCount - g_attempts g | None => 0 end.
Definition turn_ok (g : gui) (f : flow) : Prop :=
  (is_Some (g_client g) -> 0 <= g_attempts g < twoPasswordsMaxAttemptCount) /\
  match f with FLoginAuth _ _ _ => g_attempts g = 0 | FLoginUser _ _ _ _ _ => is_Some (g_client g) | _ => True end.
Definition logs_in (f : flow) : bool := match f with FLogin _ _ _ | FLoginAuth _ _ _ => true | _ => false end.

(** [keeps g g' f']: no attempt is won, and each that fails is counted. *)
Definition keeps (g g' : gui) (f' : flow) : Prop := turn_ok g' f' /\ logs_in f' = false /\ refusals g' + tries_left g' <= refusals g + tries_left g.

Lemma tries_nonneg g : (is_Some (g_client g) -> 0 <= g_attempts g < twoPasswordsMaxAttemptCount) -> 0 <= tries_left g.
Proof. unfold tries_left. destruct (g_client g); [|lia]. intros H. specialize (H ltac:(by eexists)). lia. Qed.
Lemma keeps_same g g' f' : (is_Some (g_client g) -> 0 <= g_attempts g < twoPasswordsMaxAttemptCount) ->
  g_client g' = g_client g -> g_attempts g' = g_attempts g -> refusals g' = refusals g -> match f' with FLoginUser _ _ _ _ _ => is_Some (g_client g) | _ => True end -> logs_in f' = false -> keeps g g' f'.
Proof. intros H Hc Ha Hf Hu Hl. split; [split; [by rewrite Hc, Ha|destruct f'; try done; by rewrite Hc]|]. split; [done|]. unfold tries_left. rewrite Hc, Ha. lia. Qed.
Lemma keeps_clean g g' f' : (is_Some (g_client g) -> 0 <= g_attempts g < twoPasswordsMaxAttemptCount) ->
  g_client g' = None -> refusals g' = refusals g -> match f' with FLoginUser _ _ _ _ _ => False | _ => True end -> logs_in f' = false -> keeps g g' f'.
Proof.
  intros H Hc Hf Hu Hl. split; [split; [rewrite Hc; intros [? ?]; done|by destruct f']|]. split; [done|]. pose proof (tries_nonneg g H). unfold tries_left at 1. rewrite Hc. lia.
Qed.
Lemma failed_called c g : refusals (called c g) = refusals g + if was_refused c then 1 else 0.
Proof. unfold refusals. cbn [g_api called]. rewrite Filter_app, length_app. cbn [Prelude.Filter]. destruct (was_refused c); cbn; lia. Qed.

Lemma gui_HasUser_eq env id g g' r : gui_HasUser env id g = (g', r) -> exists b, g' = set_bridge b g.
Proof. unfold gui_HasUser. destruct (vaulted _ _) as [b x]. intros [= <- _]. by exists b. Qed.

Lemma finishLogin_keeps env g g' f : (is_Some (g_client g) -> 0 <= g_attempts g < twoPasswordsMaxAttemptCount) -> finishLogin env g = (g', f) -> keeps g g' f.
Proof.
  intros Hok. unfold finishLogin. destruct (gui_HasUser _ _ g) as [g1 [was|]] eqn:Hh; apply gui_HasUser_eq in Hh as [b ->]; [|intros [= <- <-]; by apply keeps_clean]. cbn [g_client set_bridge].
  destruct (g_client g) as [c|] eqn:Hc; [|intros [= <- <-]; by apply keeps_clean; rewrite ?Hc].
  destruct (_ || _); intros [= <- <-]; [by apply keeps_clean; rewrite ?Hc|]. apply keeps_same; rewrite ?Hc; try done; by eexists.
Qed.

Lemma after_factor_keeps username env g g' f : (is_Some (g_client g) -> 0 <= g_attempts g < twoPasswordsMaxAttemptCount) -> after_factor username env g = (g', f) -> keeps g g' f.
Proof. intros Hok. unfold after_factor. destruct (a_PasswordMode _); try by apply finishLogin_keeps. intros [= <- <-]. by apply keeps_same. Qed.


(** [LoginUser] failed: an attempt is counted or the session ends, and with the third it ends too. *)
Lemma login_failed_keeps e env client g0 g g' f : (is_Some (g_client g0) /\ 0 <= g_attempts g0 < twoPasswordsMaxAttemptCount) ->
  g_client g = g_client g0 -> g_attempts g = g_attempts g0 -> refusals g = refusals g0 + (if bool_decide (api_code e = Some HumanVerificationRequired) then 0 else 1) ->
  login_failed e env client g = (g', f) -> keeps g0 g' f.
Proof.
  intros [[c Hc] Ha] Hgc Hga Hr. rewrite Hc in Hgc. unfold login_failed, handleHvRequest. destruct (bool_decide (api_code e = Some HumanVerificationRequired)).
  - intros [= <- <-]. apply keeps_same; rewrite ?Hc; try done; destruct (an_hv env); cbn [g_client g_attempts SendEvent set_hv LoginError]; rewrite ?Hgc, ?Hga; try done; change (refusals g = refusals g0); lia.
  - assert (Hclean : forall g1 f1, g_client g1 = None -> refusals g1 = refusals g -> match f1 with FLoginUser _ _ _ _ _ => False | _ => True end -> logs_in f1 = false -> keeps g0 g1 f1).
    { intros g1 f1 H1 H2 H3 H4. split; [split; [rewrite H1; by intros [? ?]|by destruct f1]|]. split; [done|]. unfold tries_left. rewrite H1, Hc. unfold twoPasswordsMaxAttemptCount in *. lia. }
    destruct (bool_decide _); [intros [= <- <-]; by apply Hclean|]. cbv zeta. cbn [g_client g_attempts set_attempts]. rewrite Hgc.
    destruct (is_failed_to_unlock e); [|intros [= <- <-]; by apply Hclean]. destruct (_ <? _) eqn:Hlt.
    + intros [= <- <-]. apply Z.ltb_lt in Hlt. rewrite Hga in Hlt. split; [split; [cbn; rewrite Hga; lia|done]|]. split; [done|]. unfold tries_left. cbn [g_client g_attempts LoginError SendEvent set_attempts]. rewrite Hgc, Hc, Hga.
      change (refusals (LoginError EventStream.TWO_PASSWORDS_ERROR (Error_text e) (set_attempts (g_attempts g + 1) g))) with (refusals g). change (refusals (LoginError EventStream.TWO_PASSWORDS_ERROR (Error_text e) (set_attempts (g_attempts g0 + 1) g))) with (refusals g). lia.
    + intros [= <- <-]. apply Hclean; try done. rewrite <- (Z.add_0_r (refusals g)). exact (failed_called (CalledAuthDelete c) (set_attempts (g_attempts g + 1) g)).
Qed.

Lemma finish_LoginUser_keeps env client auth p was g g' f : is_Some (g_client g) -> 0 <= g_attempts g < twoPasswordsMaxAttemptCount ->
  finish_LoginUser env client auth p was g = (g', f) -> keeps g g' f.
Proof.
  intros Hc Ha. unfold finish_LoginUser, call_LoginUser. destruct (LoginUser _ _ _ (g_bridge g)) as [b r]. cbv zeta.
  set (text := read_slice p g). clearbody text. destruct r as [id|[|e]].
  - intros [= <- <-]. apply keeps_clean; try done. rewrite <- (Z.add_0_r (refusals g)). exact (failed_called (CalledLoginUser client text false) g).
  - intros [= <- <-]. apply keeps_clean; try done. rewrite <- (Z.add_0_r (refusals g)). exact (failed_called (CalledLoginUser client text false) g).
  - apply login_failed_keeps; [done|by destruct (is_failed_to_unlock e)..|]. pose proof (failed_called (CalledLoginUser client text (negb (bool_decide (api_code e = Some HumanVerificationRequired)))) g) as H1.
    assert (H2 : forall g1, refusals (if is_failed_to_unlock e then g1 else called (CalledAuthDelete client) g1) = refusals g1) by (intros g1; destruct (is_failed_to_unlock e); [done|]; rewrite failed_called; cbn; lia).
    rewrite H2. etrans; [exact H1|]. cbn [was_refused]. by destruct (bool_decide _).
Qed.

(** A part of a goroutine that does not begin a login. *)
Lemma flow_step_keeps env f g g' f' : logs_in f = false -> turn_ok g f -> flow_step env f g = Some (g', f') -> keeps g g' f'.
Proof.
  intros Hl [Hok Hf] Hs. destruct f as [username password hv|username p hv|username code|username|username pin|username|password|client auth p hv was| | | | |]; try done; cbn [flow_step] in Hs; injection Hs as H.
  - unfold start_2FA in H. destruct (authenticated g); [|simplify_eq; by apply keeps_clean]. destruct (base64Decode code) as [text|]; simplify_eq; [|by apply keeps_clean].
    apply keeps_same; try done. rewrite failed_called. cbn. lia.
  - unfold finish_2FA in H. destruct (an_2fa env) as [e|]; [|by apply after_factor_keeps in H]. destruct (bool_decide _); simplify_eq; [by apply keeps_same|by apply keeps_clean].
  - unfold start_Fido in H. destruct (authenticated g); [|simplify_eq; by apply keeps_clean]. repeat case_match; simplify_eq; first [by apply keeps_same | by apply keeps_clean].
  - unfold finish_Fido in H. cbv zeta in H. set (g1 := tell_touches (an_touches env) username g) in H.
    assert (E : g_client g1 = g_client g /\ g_attempts g1 = g_attempts g /\ refusals g1 = refusals g) by (subst g1; by destruct (an_touches env) as [|[|n]]). destruct E as (E1 & E2 & E3). clearbody g1.
    assert (Hk : forall g2 f2, keeps g1 g2 f2 -> keeps g g2 f2) by (intros g2 f2 (K1 & K2 & K3); split; [done|]; split; [done|]; unfold tries_left in *; rewrite E1, E2, E3 in K3; exact K3).
    apply Hk. assert (Hok1 : is_Some (g_client g1) -> 0 <= g_attempts g1 < twoPasswordsMaxAttemptCount) by (rewrite E1, E2; exact Hok).
    destruct (an_fido env); simplify_eq; first [by apply keeps_same | by apply keeps_clean | by apply after_factor_keeps in H].
  - unfold start_2Passwords, allocate in H. destruct (base64Decode password) as [text|]; [|simplify_eq; by apply keeps_clean].
    apply finishLogin_keeps in H; [|exact Hok]. exact H.
  - by apply finish_LoginUser_keeps in H; [|done|by apply Hok].
  - simplify_eq. by apply keeps_clean.
Qed.

Lemma next_factor_turn username env g g' f : 0 <= g_attempts g < twoPasswordsMaxAttemptCount -> next_factor username env g = (g', f) -> turn_ok g' f.
Proof.
  intros Ha. assert (Hok : is_Some (g_client g) -> 0 <= g_attempts g < twoPasswordsMaxAttemptCount) by done. unfold next_factor. destruct (a_TwoFA _).
  - destruct (a_PasswordMode _); try (intros H%finishLogin_keeps; [by destruct H|done]). by intros [= <- <-].
  - by intros [= <- <-].
  - by destruct (an_u2f env); intros [= <- <-].
  - by intros [= <- <-].
Qed.

Lemma flow_step_turn env f g g' f' : turn_ok g f -> flow_step env f g = Some (g', f') -> turn_ok g' f'.
Proof.
  intros Ht Hs. destruct (logs_in f) eqn:Hl; [|by destruct (flow_step_keeps env f g g' f' Hl Ht Hs)]. destruct Ht as [Hok Hf]. destruct f as [username password hv|username p hv| | | | | | | | | | |]; try done; cbn [flow_step] in Hs; injection Hs as H.
  - unfold start_Login, allocate in H. destruct (base64Decode password); simplify_eq; (split; [intros _; by vm_compute|done]).
  - unfold finish_LoginAuth in H. cbv zeta in H. destruct (LoginAuth _ _ _) as [b r]. destruct r as [[userID [uid ref]]|[|e]].
    + apply next_factor_turn in H; [done|]. cbn [g_attempts set_session set_password set_bridge called]. rewrite Hf. by vm_compute.
    + simplify_eq. by split.
    + simplify_eq. split; [by intros [? ?]|done].
Qed.

(** In turn only the last goroutine can be at work. *)
Definition turn (g : gui) : Prop :=
  (forall i f, g_flows g !! i = Some f -> ended f = true \/ S i = length (g_flows g)) /\
  (is_Some (g_client g) -> 0 <= g_attempts g < twoPasswordsMaxAttemptCount) /\ Forall (turn_ok g) (g_flows g).
Definition no_login (c : gui_choice) : bool := match c with Request (Login _ _ _) => false | _ => true end.

Lemma ended_turn_ok g f : (is_Some (g_client g) -> 0 <= g_attempts g < twoPasswordsMaxAttemptCount) -> ended f = true -> turn_ok g f.
Proof. intros H Hf. split; [done|by destruct f]. Qed.
Lemma ended_step env f g : ended f = true -> flow_step env f g = None.
Proof. by destruct f. Qed.

Lemma turn_step c g g' : wf_memory g -> turn g -> match c with Request _ => idle g = true | Advance _ _ => True end -> gui_step c g = Some g' -> turn g' /\
  (no_login c = true -> forallb (fun f => negb (logs_in f)) (g_flows g) = true -> forallb (fun f => negb (logs_in f)) (g_flows g') = true /\ refusals g' + tries_left g' <= refusals g + tries_left g).
Proof.
  intros Hw (Hlast & Hok & Hall) Hi Hs. destruct c as [r|i env].
  - unfold idle in Hi. rewrite forallb_forall in Hi. cbn [gui_step] in Hs. destruct (start_request r g) as [g1 f] eqn:Hr. injection Hs as <-.
    assert (H : g_flows g1 = g_flows g /\ g_client g1 = g_client g /\ g_attempts g1 = g_attempts g /\ g_api g1 = g_api g /\ turn_ok g1 f /\ (no_login (Request r) = true -> logs_in f = false)) by (destruct r; injection Hr as <- <-; do 4 (split; [done|]); (split; [split; [exact Hok|done]|done])).
    destruct H as (H1 & H2 & H3 & H4 & H5 & H6). split.
    + split; [|split; [cbn [g_client g_attempts set_flows]; by rewrite H2, H3|]].
      * cbn [g_flows set_flows]. rewrite H1. intros i f0 [Hf|[Hle Hf]]%lookup_app_Some; [left; apply Hi, list_elem_of_In; by eapply list_elem_of_lookup_2|].
        destruct (i - length (g_flows g))%nat as [|n] eqn:Hn; cbn in Hf; [|done]. right. rewrite length_app. cbn. lia.
      * cbn [g_flows set_flows]. rewrite H1. apply Forall_app. split; [|by constructor; [exact H5|constructor]]. eapply Forall_impl; [exact Hall|]. intros f0 [_ F0]. split; [cbn; by rewrite H2, H3|]. cbn [g_attempts g_client set_flows]. by rewrite H2, H3.
    + intros Hn Hfl. cbn [g_flows set_flows]. rewrite H1, forallb_app, Hfl. cbn [forallb]. rewrite (H6 Hn). split; [done|]. unfold refusals, tries_left. cbn [g_api g_client g_attempts set_flows]. rewrite H2, H3, H4. lia.
  - destruct (step_flow i env g g' Hs) as (f & g1 & f1 & Hf & H1 & ->). destruct Hw as [_ Hm]. rewrite Forall_lookup in Hm, Hall. destruct (flow_step_tidy env f g g1 f1 (Hm i f Hf) H1) as [(_ & _ & Hfl) _].
    pose proof (Hall i f Hf) as Hto. pose proof (flow_step_turn env f g g1 f1 Hto H1) as Ht1. split.
    + assert (Hothers : forall j f0, <[i:=f1]> (g_flows g) !! j = Some f0 -> (j = i /\ f0 = f1) \/ (j <> i /\ g_flows g !! j = Some f0 /\ ended f0 = true)).
      { intros j f0 Hj. destruct (decide (j = i)) as [->|Hne]; [left; rewrite list_lookup_insert_eq in Hj by (by eapply lookup_lt_Some); by injection Hj as <-|]. right. rewrite list_lookup_insert_ne in Hj by done. split; [done|]. split; [done|].
        destruct (Hlast j f0 Hj) as [|Hlj]; [done|]. exfalso. destruct (Hlast i f Hf) as [He|Hli]; [|lia]. by rewrite (ended_step env f g He) in H1. }
      split; [|split; [exact (proj1 Ht1)|]]; cbn [g_flows set_flows]; rewrite Hfl.
      * intros j f0 Hj. destruct (Hothers j f0 Hj) as [[-> ->]|(_ & _ & He)]; [|by left]. right. rewrite length_insert. destruct (Hlast i f Hf) as [He|Hli]; [|done]. by rewrite (ended_step env f g He) in H1.
      * apply Forall_lookup. intros j f0 Hj. destruct (Hothers j f0 Hj) as [[-> ->]|(_ & _ & He)]; [exact Ht1|]. apply ended_turn_ok; [exact (proj1 Ht1)|done].
    + intros _ Hfl'. assert (Hl : logs_in f = false) by (rewrite forallb_forall in Hfl'; apply negb_true_iff, Hfl', list_elem_of_In; by eapply list_elem_of_lookup_2).
      destruct (flow_step_keeps env f g g1 f1 Hl Hto H1) as (_ & K2 & K3). split; [|exact K3]. cbn [g_flows set_flows]. rewrite Hfl. rewrite forallb_forall in Hfl' |- *. intros f0 Hf0%list_elem_of_In%list_elem_of_lookup. destruct Hf0 as (j & Hj).
      destruct (decide (j = i)) as [->|Hne]; [rewrite list_lookup_insert_eq in Hj by (by eapply lookup_lt_Some); injection Hj as <-; by rewrite K2|]. rewrite list_lookup_insert_ne in Hj by done. apply Hfl', list_elem_of_In. by eapply list_elem_of_lookup_2.
Qed.

Lemma turn_run l : forall g g', wf_memory g -> turn g -> in_turn l g = true -> gui_run l g = Some g' -> wf_memory g' /\ turn g' /\
  (forallb no_login l = true -> forallb (fun f => negb (logs_in f)) (g_flows g) = true -> refusals g' + tries_left g' <= refusals g + tries_left g).
Proof.
  induction l as [|c l IH]; intros g g' Hw Ht Hin Hr; cbn [gui_run] in Hr; [injection Hr as <-; do 2 (split; [done|]); lia|]. cbn [in_turn] in Hin. apply andb_true_iff in Hin as [Hi Hin].
  destruct (gui_step c g) as [g1|] eqn:H1; cbn in Hr; [|done]. destruct (turn_step c g g1 Hw Ht ltac:(by destruct c) H1) as [Ht1 K1]. destruct (IH g1 g' (wf_step c g g1 Hw H1) Ht1 Hin Hr) as (W & T & K). do 2 (split; [done|]).
  cbn [forallb]. intros [N1 N2]%andb_true_iff Hf. destruct (K1 N1 Hf) as [F R]. specialize (K N2 F). lia.
Qed.

Lemma in_turn_app l l' : forall g g', in_turn (l ++ l') g = true -> gui_run l g = Some g' -> in_turn l g = true /\ in_turn l' g' = true.
Proof.
  induction l as [|c l IH]; intros g g' Hin Hr; cbn [gui_run app in_turn] in *; [by injection Hr as <-|]. destruct (gui_step c g) as [g1|]; cbn in Hr; [|done]. apply andb_true_iff in Hin as [H1 H2]. destruct (IH g1 g' H2 Hr) as [-> ->]. by rewrite H1.
Qed.

Lemma idle_no_logs_in g : idle g = true -> forallb (fun f => negb (logs_in f)) (g_flows g) = true.
Proof. unfold idle. rewrite !forallb_forall. intros H f Hf. specialize (H f Hf). by destruct f. Qed.

(** When the client makes its calls one after the other, then between two logins at most three calls of [LoginUser] are refused, not counting
    requests for a human verification, and with the third the session is gone. *)
Theorem login_attempts (b : Bridge) (l l' : list gui_choice) (g g' : gui) :
  in_turn (l ++ l') (new_gui b) = true -> gui_run l (new_gui b) = Some g -> idle g = true -> forallb no_login l' = true -> gui_run l' g = Some g' ->
  refusals g' <= refusals g + twoPasswordsMaxAttemptCount /\ (refusals g' = refusals g + twoPasswordsMaxAttemptCount -> g_client g' = None).
Proof.
  intros Hin Hr Hi Hn Hr'. destruct (in_turn_app l l' _ _ Hin Hr) as [I1 I2].
  assert (Hw : wf_memory (new_gui b)) by (split; [intros a Ha; done|constructor]).
  assert (Ht : turn (new_gui b)) by (split; [intros i f Hf; done|split; [by intros [? ?]|constructor]]).
  destruct (turn_run l _ _ Hw Ht I1 Hr) as (W & T & _). destruct (turn_run l' _ _ W T I2 Hr') as (_ & T' & K). specialize (K Hn (idle_no_logs_in g Hi)).
  destruct T as (_ & T & _), T' as (_ & T' & _). unfold tries_left in K. unfold twoPasswordsMaxAttemptCount in *.
  destruct (g_client g') as [c'|]; [specialize (T' ltac:(by eexists))|]; (destruct (g_client g); [specialize (T ltac:(by eexists))|]); (split; [lia|]); intros; first [done | exfalso; lia].
Qed.

(** ** What does not work *)

(** The goroutine of [Login] waits for the API while the client aborts: the login goes on. *)
Lemma abort_overtaken env username p hv g b userID uid ref :
  LoginAuth (an_login env) username (g_bridge g) = (b, Ok (userID, (uid, ref))) -> an_twoFA env = HasTOTP ->
  let g' := (finish_LoginAuth env username p hv (loginClean g)).1 in
  g_client g' = Some (an_client env) /\ g_told g' = g_told g ++ [EventStream.Login (EventStream.TfaRequested username)].
Proof.
  intros Ha Ht. unfold finish_LoginAuth. cbv zeta. change (g_bridge (called _ (loginClean g))) with (g_bridge g). rewrite Ha. unfold next_factor. cbn [g_auth set_session a_TwoFA]. by rewrite Ht.
Qed.

(** A password that the API does not accept stays in memory: only the one that the service holds is overwritten. *)
Lemma refused_password_kept env username p hv g b e a :
  LoginAuth (an_login env) username (g_bridge g) = (b, Err (UFails e)) -> is_already_logged_in e = false -> api_code e = Some PasswordWrong ->
  sl_at p = Some a -> sl_at (g_password g) <> Some a ->
  let g' := (finish_LoginAuth env username p hv g).1 in forgotten g' /\ g_mem g' !! a = g_mem g !! a.
Proof.
  intros Ha He Hc Hp Hn. unfold finish_LoginAuth. cbv zeta. change (g_bridge (called _ g)) with (g_bridge g). rewrite Ha, He. split; [done|]. unfold auth_failed. rewrite He, Hc, Z.eqb_refl. cbn [orb fst].
  cbn [g_mem loginClean set_useHv set_password set_mem set_session]. unfold zero. cbn [g_password LoginError SendEvent set_bridge called set_session g_mem].
  destruct (sl_at (g_password g)) as [a'|]; [|done]. apply list_lookup_alter_ne. congruence.
Qed.

(** The password of the mailbox takes the place of that of the account, which stays in memory. *)
Lemma first_password_kept env password g a :
  sl_at (g_password g) = Some a -> (a < length (g_mem g))%nat -> is_Some (base64Decode password) -> g_mem (start_2Passwords env password g).1 !! a = g_mem g !! a.
Proof.
  intros Ha Hl [text Ht]. unfold start_2Passwords, allocate. rewrite Ht. set (g1 := set_password _ _). assert (Hm : g_mem g1 = g_mem g ++ [text]) by done. assert (Hp : sl_at (g_password g1) = Some (length (g_mem g))) by done. clearbody g1.
  assert (Hz : forall g2, g_mem g2 = g_mem g1 -> g_password g2 = g_password g1 -> g_mem (loginClean g2) !! a = g_mem g !! a).
  { intros g2 H1 H2. cbn [g_mem loginClean set_useHv set_password set_mem set_session]. unfold zero. rewrite H1, H2, Hp, list_lookup_alter_ne by lia. by rewrite Hm, lookup_app_l. }
  unfold finishLogin. destruct (gui_HasUser _ _ g1) as [g2 [was|]] eqn:Hh; apply gui_HasUser_eq in Hh as [b ->]; [|by apply Hz]. cbn [g_client set_bridge]. destruct (g_client g1); [|by apply Hz]. destruct (_ || _); [by apply Hz|]. cbn [fst]. change (g_mem (set_bridge b g1)) with (g_mem g1). by rewrite Hm, lookup_app_l.
Qed.

(** A user that is logged in already is told without its name: the bridge returns no session with that error. *)
Lemma already_logged_in_unnamed env username password hv g userID uid ref u :
  String.eqb username "crash@bandicoot" = false -> le_login (an_login env) = Ok (userID, (uid, ref)) -> b_users (g_bridge g) !! userID = Some u ->
  g_told (finish_LoginAuth env username password hv g).1 = g_told g ++ [EventStream.Login (EventStream.AlreadyLoggedIn "")].
Proof.
  intros Hn Hl Hu. unfold finish_LoginAuth. cbv zeta. cbn [g_bridge called]. unfold LoginAuth. rewrite Hn. unfold mbind, eff_bind, wrapping, outside, reads, get. rewrite Hl. cbn [fst]. rewrite Hu. cbn. done.
Qed.

End login.

(** ** Examples *)

#[local] Existing Instance Vault.ex_codec.
#[local] Existing Instance canonical_range.
#[local] Existing Instance merge_sort_by.
#[local] Instance ex_text : LoginText := {| base64Decode := Some; Error_text := fun _ => "error"; PasswordWrong := 8002; UsernameInvalid := 6003; PaidPlanRequired := 10004; HumanValidationInvalidToken := 12087 |}.

Definition ex_bridge : Bridge := mkBridge _ (Vault.ex_with [] ∅) ∅ 0 false [].
Definition ex_add : add_env := mkAddEnv Vault.ex_env Vault.ex_env Vault.ex_env Vault.ex_env None (Ok false) (Ok []) None None (Ok false) None None None.
Definition ex_api (login : result uerr (string * (string * string))) : login_env := mkLoginEnv login None None (Err UResponse) None (Ok []) (Ok 1) ex_add.
Definition ex_answers (login : result uerr (string * (string * string))) (factor : option uerr) : answers :=
  mkAnswers (ex_api login) 7 HasTOTP TwoPasswordMode true None Vault.ex_env factor (Ok true) 0 FidoOk.

(** A free account; an account whose second factor was wrong once. *)
Definition ex_free : answers := ex_answers (Err (UApi 10004)) None.
Definition ex_user : answers := ex_answers (Ok ("id", ("uid", "ref"))) (Some (UApi 8002)).
Definition ex_ok : answers := ex_answers (Ok ("id", ("uid", "ref"))) None.
Definition ex_login_run (env : answers) : list gui_choice := [Request (Login "me" "secret" false); Advance 0 env; Advance 0 env].
Definition ex_factor_run : list gui_choice := [Request (Login2FA "me" "123"); Advance 1 ex_user; Advance 1 ex_user; Request (Login2FA "me" "456"); Advance 2 ex_ok; Advance 2 ex_ok].

Definition told_of (o : option gui) : option (list EventStream.StreamEvent * bool * list string) := g ← o; Some (g_told g, bool_decide (is_Some (g_client g)), g_mem g).
Example ex_two_factor : told_of (gui_run (ex_login_run ex_user ++ ex_factor_run) (new_gui ex_bridge)) =
  Some ([EventStream.Login (EventStream.TfaRequested "me"); EventStream.Login (EventStream.LoginError EventStream.TFA_ERROR ""); EventStream.Login (EventStream.TwoPasswordRequested "me")], true, ["secret"]).
Proof. vm_compute. reflexivity. Qed.

#[local] Existing Instance EventStream.StreamEvent_eq.
Definition ex_first_steps : list gui_choice := [Request (Login "me" "secret" false); Advance 0 ex_free].
Definition ex_free_check (r : option gui) : bool :=
  match r with
  | Some g => match gui_step (Advance 0 ex_free) g with Some g' => bool_decide (EventStream.Login (EventStream.LoginError EventStream.FREE_USER "") ∈ drop (length (g_told g)) (g_told g')) | None => false end
  | None => false
  end.
Lemma ex_free_run : ex_free_check (gui_run ex_first_steps (new_gui ex_bridge)) = true.
Proof. vm_compute. reflexivity. Qed.


Definition is_running (r : option gui) : bool := match r with Some _ => true | None => false end.
Lemma ex_whole_run : is_running (gui_run (ex_login_run ex_user ++ ex_factor_run) (new_gui ex_bridge)) = true.
Proof. vm_compute. reflexivity. Qed.
Lemma calls_answered_witness : exists g, verdicts g = answered g.
Proof.
  pose proof ex_whole_run as H. destruct (gui_run (ex_login_run ex_user ++ ex_factor_run) (new_gui ex_bridge)) as [g|] eqn:Hg; [|discriminate H].
  exists g. exact (calls_answered ex_bridge (ex_login_run ex_user ++ ex_factor_run) g Hg).
Defined.

Definition ex_turn_check (r : option gui) : bool := match r with Some g => idle g && match gui_run ex_factor_run g with Some _ => true | None => false end | None => false end.
Lemma ex_turns : ex_turn_check (gui_run (ex_login_run ex_user) (new_gui ex_bridge)) = true.
Proof. vm_compute. reflexivity. Qed.
Lemma ex_in_turn : in_turn (ex_login_run ex_user ++ ex_factor_run) (new_gui ex_bridge) = true.
Proof. vm_compute. reflexivity. Qed.

Lemma login_attempts_witness : exists g g', refusals g' <= refusals g + twoPasswordsMaxAttemptCount.
Proof.
  pose proof ex_turns as H. destruct (gui_run (ex_login_run ex_user) (new_gui ex_bridge)) as [g|] eqn:H1; [|discriminate H]. unfold ex_turn_check in H. apply andb_true_iff in H as [H2 H3].
  destruct (gui_run ex_factor_run g) as [g'|] eqn:H4; [|discriminate H3]. exists g, g'. exact (proj1 (login_attempts ex_bridge (ex_login_run ex_user) ex_factor_run g g' ex_in_turn H1 H2 eq_refl H4)).
Defined.
