(* ===== verification/Tasks.v ===== *)
(** * Calls between goroutines and groups of goroutines (pkg/cpc, internal/services/orderedtasks)

    A service is a goroutine that takes requests from a channel, one at a time, and replies to each on a channel
    of its own; callers wait in turn for both and leave when their context ends.  The services of a user are started in
    an order in which each uses those before it, and ended in the reverse order.  Both are modelled as steps
    that interleave; what a service does with a request is a parameter. *)

From S2P Require Import Prelude.
From S2P Require Import UserEvents.

(** ** Procedure calls (pkg/cpc/cpc.go) *)

Section calls.
Context {St Req Val : Type}.

(** What the loop of the service does with a request. *)
Record reply : Type := mkReply { r_value : option Val; r_error : option err }.
Definition zero_reply : reply := mkReply None None.
Context (handler : St -> Req -> St * reply).

(** A caller: at the request channel, at its reply channel, with what [execute] returned, with the error of its context, and after a panic. *)
Inductive caller_pc : Type := Sending | Waiting | Returned (r : reply) | ContextDone | SendPanicked.
Record caller : Type := mkCaller { c_req : Req; c_cancelled : bool; c_replyClosed : bool; c_pc : caller_pc }.

(** The loop: at the request channel, with a request, in [Reply], and after [Close]. *)
Inductive server_pc : Type := Receiving | Handling (i : nat) (req : Req) | Replying (i : nat) (r : reply) | Closed.

(** [handled] are the requests that were handled, with what was to be replied. *)
Record cpc : Type := mkCpc { callers : list caller; server : server_pc; service : St; serverCancelled : bool; handled : list (nat * (Req * reply)) }.
Definition NewCPC (st : St) : cpc := mkCpc [] Receiving st false [].

Definition set_callers (l : list caller) (s : cpc) : cpc := mkCpc l (server s) (service s) (serverCancelled s) (handled s).
Definition set_server (p : server_pc) (s : cpc) : cpc := mkCpc (callers s) p (service s) (serverCancelled s) (handled s).
Definition on_caller (f : caller -> caller) (i : nat) (s : cpc) : cpc := set_callers (alter f i (callers s)) s.
Definition at_pc (p : caller_pc) (c : caller) : caller := mkCaller (c_req c) (c_cancelled c) (c_replyClosed c) p.
Definition cancelled_caller (c : caller) : caller := mkCaller (c_req c) true (c_replyClosed c) (c_pc c).
Definition closed_reply (c : caller) : caller := mkCaller (c_req c) (c_cancelled c) true (c_pc c).

Inductive event : Type :=
| NewCall (req : Req)          (* a goroutine calls Send *)
| CancelCall (i : nat)         (* its context ends *)
| LeaveCall (i : nat)          (* it takes the end of its context *)
| TakeRequest (i : nat)        (* it and the service meet at the request channel *)
| Handle                       (* the service works on the request *)
| GiveReply                    (* the service and the caller meet at the reply channel *)
| DropReply                    (* Reply returns without the caller: the service's context ended, or the caller left and the ten seconds passed *)
| ReadClosed (i : nat)         (* a caller reads from a reply channel that was closed *)
| CancelServer                 (* the service's context ends *)
| CloseServer                  (* the loop ends and closes the request channel *)
| SendOnClosed (i : nat).      (* a caller at a request channel that was closed *)

Definition waits (c : caller) : bool := match c_pc c with Waiting => true | _ => false end.
Definition step (e : event) (s : cpc) : option cpc :=
  match e with
  | NewCall req => Some (set_callers (callers s ++ [mkCaller req false false Sending]) s)
  | CancelCall i => match callers s !! i with Some _ => Some (on_caller cancelled_caller i s) | None => None end
  | LeaveCall i =>
      match callers s !! i with
      | Some (mkCaller _ true _ (Sending | Waiting)) => Some (on_caller (at_pc ContextDone) i s)
      | _ => None
      end
  | TakeRequest i =>
      match callers s !! i, server s with
      | Some (mkCaller req _ _ Sending), Receiving => Some (set_server (Handling i req) (on_caller (at_pc Waiting) i s))
      | _, _ => None
      end
  | Handle =>
      match server s with
      | Handling i req =>
          let '(st, r) := handler (service s) req in
          Some (mkCpc (callers s) (Replying i r) st (serverCancelled s) (handled s ++ [(i, (req, r))]))
      | _ => None
      end
  | GiveReply =>
      match server s with
      | Replying i r =>
          match callers s !! i with
          | Some (mkCaller _ _ _ Waiting) => Some (set_server Receiving (on_caller (fun c => closed_reply (at_pc (Returned r) c)) i s))
          | _ => None
          end
      | _ => None
      end
  | DropReply =>
      match server s with
      | Replying i _ =>
          match callers s !! i with
          | Some c => if serverCancelled s || negb (waits c) then Some (set_server Receiving (on_caller closed_reply i s)) else None
          | None => None
          end
      | _ => None
      end
  | ReadClosed i =>
      match callers s !! i with
      | Some (mkCaller _ _ true Waiting) => Some (on_caller (at_pc (Returned zero_reply)) i s)
      | _ => None
      end
  | CancelServer => Some (mkCpc (callers s) (server s) (service s) true (handled s))
  | CloseServer => match server s with Receiving => if serverCancelled s then Some (set_server Closed s) else None | _ => None end
  | SendOnClosed i =>
      match callers s !! i, server s with
      | Some (mkCaller _ _ _ Sending), Closed => Some (on_caller (at_pc SendPanicked) i s)
      | _, _ => None
      end
  end.
Fixpoint steps (l : list event) (s : cpc) : option cpc := match l with [] => Some s | e :: l => s' ← step e s; steps l s' end.

(** [SendTyped] of what [execute] returned; the type assertion is [as_T]. *)
Definition ErrInvalidReplyType : err := ErrOther "reply type does not match".
Definition SendTyped {T} (as_T : Val -> option T) (r : reply) : result err T :=
  match r_error r with
  | Some e => Err e
  | None => match r_value r ≫= as_T with Some v => Ok v | None => Err ErrInvalidReplyType end
  end.

(** *** Specification: requests are handled one after the other *)

Fixpoint serially (st : St) (reqs : list Req) : St * list reply :=
  match reqs with
  | [] => (st, [])
  | req :: reqs => let '(st, r) := handler st req in let '(st, rs) := serially st reqs in (st, r :: rs)
  end.

Lemma serially_snoc st reqs req :
  serially st (reqs ++ [req]) = let '(st1, rs) := serially st reqs in let '(st2, r) := handler st1 req in (st2, rs ++ [r]).
Proof.
  revert st. induction reqs as [|q reqs IH]; intros st; cbn [app serially]; [by destruct (handler st req)|]. destruct (handler st q) as [st1 r1]. rewrite IH. destruct (serially st1 reqs) as [st2 rs]. by destruct (handler st2 req).
Qed.

(** *** Every answer is that of the handler *)

Definition reqs_of (h : list (nat * (Req * reply))) : list Req := (fun x => x.2.1) <$> h.
Definition replies_of (h : list (nat * (Req * reply))) : list reply := (fun x => x.2.2) <$> h.

(** Where a caller can be while the service is where it is. *)
Definition busy_with (p : server_pc) (i : nat) : Prop := match p with Handling j _ | Replying j _ => j = i | _ => False end.
Definition caller_ok (p : server_pc) (h : list (nat * (Req * reply))) (ended : bool) (i : nat) (c : caller) : Prop :=
  match c_pc c with
  | Sending => i ∉ h.*1 /\ ~ busy_with p i /\ c_replyClosed c = false
  | Waiting => (busy_with p i /\ c_replyClosed c = false) \/ (ended = true /\ c_replyClosed c = true /\ ~ busy_with p i)
  | Returned r => ~ busy_with p i /\ ((i, (c_req c, r)) ∈ h \/ (r = zero_reply /\ ended = true))
  | _ => True
  end.
(** What the service is at. *)
Definition server_ok (p : server_pc) (h : list (nat * (Req * reply))) (l : list caller) : Prop :=
  match p with
  | Handling i req => i ∉ h.*1 /\ exists c, l !! i = Some c /\ c_req c = req
  | Replying i r => exists c, l !! i = Some c /\ (i, (c_req c, r)) ∈ h
  | _ => True
  end.
Record call_inv (st0 : St) (s : cpc) : Prop := {
  inv_serial : serially st0 (reqs_of (handled s)) = (service s, replies_of (handled s));
  inv_once : NoDup (handled s).*1;
  inv_callers : forall i c, callers s !! i = Some c -> caller_ok (server s) (handled s) (serverCancelled s) i c;
  inv_server : server_ok (server s) (handled s) (callers s);
  inv_reqs : forall i q r, (i, (q, r)) ∈ handled s -> exists c, callers s !! i = Some c /\ c_req c = q
}.

(** A step that changes one caller, and where the service is. *)
Lemma inv_one st0 s i c f p : call_inv st0 s -> callers s !! i = Some c -> (forall c, c_req (f c) = c_req c) ->
  caller_ok p (handled s) (serverCancelled s) i (f c) ->
  (forall j d, j <> i -> caller_ok (server s) (handled s) (serverCancelled s) j d -> caller_ok p (handled s) (serverCancelled s) j d) ->
  server_ok p (handled s) (alter f i (callers s)) -> call_inv st0 (set_server p (on_caller f i s)).
Proof.
  intros [I1 I2 I3 I4 I5] Hi Hf Hc Ho Hs. split; cbn [handled service callers server serverCancelled set_server on_caller set_callers]; try done.
  - intros j d Hj. destruct (decide (j = i)) as [->|Hne]; [rewrite list_lookup_alter_eq, Hi in Hj; by injection Hj as <-|]. rewrite list_lookup_alter_ne in Hj by done. apply Ho; [done|by apply I3].
  - intros j q r Hin. destruct (I5 j q r Hin) as (d & Hd & <-). destruct (decide (j = i)) as [->|Hne]; [exists (f d); by rewrite list_lookup_alter_eq, Hd|]. exists d. by rewrite list_lookup_alter_ne.
Qed.

Lemma server_ok_alter p h l f i : (forall c, c_req (f c) = c_req c) -> server_ok p h l -> server_ok p h (alter f i l).
Proof.
  intros Hf. destruct p as [|j req|j r|]; cbn; try done.
  - intros (Hn & c & Hc & Hq). split; [done|]. destruct (decide (j = i)) as [->|Hne]; [exists (f c); rewrite list_lookup_alter_eq, Hc, Hf; done|]. exists c. by rewrite list_lookup_alter_ne.
  - intros (c & Hc & Hin). destruct (decide (j = i)) as [->|Hne]; [exists (f c); rewrite list_lookup_alter_eq, Hc, Hf; done|]. exists c. by rewrite list_lookup_alter_ne.
Qed.

Lemma set_server_same s : set_server (server s) s = s.
Proof. by destruct s. Qed.

Lemma inv_new st0 req s : call_inv st0 s -> call_inv st0 (set_callers (callers s ++ [mkCaller req false false Sending]) s).
Proof.
  intros [I1 I2 I3 I4 I5]. split; cbn [handled service callers server serverCancelled set_callers]; try done.
  - intros j c [Hj|[Hle Hj]]%lookup_app_Some; [by apply I3|]. destruct (j - length (callers s))%nat as [|n] eqn:Hn; cbn in Hj; [|done]. injection Hj as <-. cbn.
    assert (Hnone : callers s !! j = None) by (by apply lookup_ge_None_2). split; [|split; [|done]].
    + intros ([k [q r]] & -> & Hin)%list_elem_of_fmap. destruct (I5 _ _ _ Hin) as (d & Hd & _). cbn in Hnone. by rewrite Hnone in Hd.
    + intros Hb. destruct (server s); cbn in Hb, I4; try done; subst; [destruct I4 as (_ & d & Hd & _)|destruct I4 as (d & Hd & _)]; by rewrite Hnone in Hd.
  - revert I4. destruct (server s); cbn; try done; [intros (? & c & Hc & ?); split; [done|]|intros (c & Hc & ?)]; exists c; (split; [by apply lookup_app_l_Some|done]).
  - intros j q r Hin. destruct (I5 j q r Hin) as (d & Hd & ?). exists d. split; [by apply lookup_app_l_Some|done].
Qed.

Lemma inv_handle st0 i req s : call_inv st0 s -> server s = Handling i req ->
  let '(st, r) := handler (service s) req in call_inv st0 (mkCpc (callers s) (Replying i r) st (serverCancelled s) (handled s ++ [(i, (req, r))])).
Proof.
  intros [I1 I2 I3 I4 I5] Hp. rewrite Hp in I3, I4. destruct I4 as (Hn & c & Hc & Hq). destruct (handler (service s) req) as [st r] eqn:Hh.
  split; cbn [handled service callers server serverCancelled].
  - unfold reqs_of, replies_of in *. rewrite !fmap_app. cbn. by rewrite serially_snoc, I1, Hh.
  - rewrite fmap_app. apply NoDup_app. split; [done|]. split; [|apply NoDup_singleton]. intros j Hj Hj2. apply list_elem_of_singleton in Hj2 as ->. done.
  - intros j d Hj. specialize (I3 j d Hj). unfold caller_ok in *. destruct (c_pc d); try done.
    + destruct I3 as (A & B & C). split; [|done]. rewrite fmap_app, elem_of_app. intros [?|Hj2]; [done|apply list_elem_of_singleton in Hj2 as ->]. by apply B.
    + destruct I3 as [B A]. split; [done|]. destruct A as [A|A]; [left; by apply elem_of_app; left|by right].
  - exists c. split; [done|]. rewrite Hq. apply elem_of_app. right. by left.
  - intros j q r' Hin. apply elem_of_app in Hin as [Hin|Hin]; [by apply (I5 j q r')|]. apply list_elem_of_singleton in Hin. injection Hin as -> -> ->. by exists c.
Qed.

(** The service leaves a caller, and is ready for the next. *)
Lemma not_busy_mono p h ended j d i : busy_with p i -> j <> i -> caller_ok p h ended j d -> caller_ok Receiving h ended j d.
Proof. intros Hb Hne. unfold caller_ok. destruct (c_pc d); try done; [tauto|intros [[Hj _]|?]; [|naive_solver]|naive_solver]. exfalso. apply Hne. destruct p; cbn in *; [done|congruence|congruence|done]. Qed.

Lemma inv_step st0 e s s' : call_inv st0 s -> step e s = Some s' -> call_inv st0 s'.
Proof.
  intros Hinv Hs. pose proof Hinv as [I1 I2 I3 I4 I5]. destruct e as [req|i|i|i| | | |i| | |i]; cbn [step] in Hs.
  - injection Hs as <-. by apply inv_new.
  - destruct (callers s !! i) as [c|] eqn:Hi; [|done]. injection Hs as <-. change (on_caller cancelled_caller i s) with (set_server (server s) (on_caller cancelled_caller i s)).
    eapply inv_one; [done|done|done|exact (I3 i c Hi)|done|by apply server_ok_alter].
  - destruct (callers s !! i) as [[q [|] cl pc]|] eqn:Hi; [|done..]. assert (Hs' : s' = set_server (server s) (on_caller (at_pc ContextDone) i s)) by (destruct pc; try done; by injection Hs as <-). subst s'.
    eapply inv_one; [done|done|done|done|done|by apply server_ok_alter].
  - destruct (callers s !! i) as [[q cn cl [ | | | | ]]|] eqn:Hi; try done. destruct (server s) eqn:Hp; try done. injection Hs as <-. pose proof (I3 i _ Hi) as (Hni & _ & Hcl). cbn in Hcl.
    eapply inv_one; [done|done|done| | |].
    + left. by split.
    + intros j d Hne. rewrite Hp. unfold caller_ok. destruct (c_pc d); try done; cbn; naive_solver.
    + split; [done|]. exists (at_pc Waiting (mkCaller q cn cl Sending)). by rewrite list_lookup_alter_eq, Hi.
  - destruct (server s) as [|i req| |] eqn:Hp; try done. pose proof (inv_handle st0 i req s Hinv Hp) as H. destruct (handler (service s) req). by injection Hs as <-.
  - destruct (server s) as [| |i r|] eqn:Hp; try done. destruct (callers s !! i) as [[q cn cl [ | | | | ]]|] eqn:Hi; try done. injection Hs as <-. destruct I4 as (c & Hc & Hin). rewrite Hi in Hc. injection Hc as <-.
    eapply inv_one; [done|done|done| | |done].
    + split; [exact id|]. by left.
    + intros j d Hne. rewrite Hp. by apply (not_busy_mono (Replying i r) _ _ _ _ i).
  - destruct (server s) as [| |i r|] eqn:Hp; try done. destruct (callers s !! i) as [c|] eqn:Hi; [|done]. destruct (serverCancelled s || negb (waits c)) eqn:Hd; [|done]. injection Hs as <-.
    eapply inv_one; [done|done|done| | |done].
    + pose proof (I3 i c Hi) as Hok. unfold caller_ok, waits in *. cbn [c_pc closed_reply c_replyClosed]. destruct (c_pc c); try done.
      * destruct Hok as (_ & B & _). exfalso. by apply B.
      * right. rewrite orb_false_r in Hd. split; [done|]. split; [done|exact id].
      * destruct Hok as [B _]. exfalso. by apply B.
    + intros j d Hne. rewrite Hp. by apply (not_busy_mono (Replying i r) _ _ _ _ i).
  - destruct (callers s !! i) as [[q cn [|] [ | | | | ]]|] eqn:Hi; try done. injection Hs as <-. change (on_caller ?f i s) with (set_server (server s) (on_caller f i s)).
    pose proof (I3 i _ Hi) as [[_ Hx]|(Hsc & _ & Hnb)]; [done|]. eapply inv_one; [done|done|done| |done|by apply server_ok_alter]. split; [done|]. by right.
  - injection Hs as <-. split; cbn [handled service callers server serverCancelled]; try done. intros j d Hj. specialize (I3 j d Hj). unfold caller_ok in *. destruct (c_pc d); naive_solver.
  - destruct (server s) eqn:Hp; try done. destruct (serverCancelled s) eqn:Hsc; [|done]. injection Hs as <-. split; cbn [handled service callers server serverCancelled set_server]; try done. intros j d Hj. rewrite Hsc. exact (I3 j d Hj).
  - destruct (callers s !! i) as [[q cn cl [ | | | | ]]|] eqn:Hi; try done. destruct (server s) eqn:Hp; try done. injection Hs as <-. change (on_caller ?f i s) with (set_server (server s) (on_caller f i s)). rewrite Hp.
    eapply inv_one; [done|done|done|done| |done]. intros j d _. by rewrite Hp.
Qed.

Lemma inv_steps st0 l : forall s s', call_inv st0 s -> steps l s = Some s' -> call_inv st0 s'.
Proof.
  induction l as [|e l IH]; intros s s' Hi Hs; cbn [steps] in Hs; [by injection Hs as <-|]. destruct (step e s) as [s1|] eqn:H1; cbn in Hs; [|done]. eapply IH; [|exact Hs]. by eapply inv_step.
Qed.
Lemma inv_init st0 : call_inv st0 (NewCPC st0).
Proof. split; try done; cbn; [constructor|]. intros i q r Hin. by apply elem_of_nil in Hin. Qed.

(** While the service was not ended its channel is open. *)
Definition open_calls (s : cpc) : Prop := serverCancelled s = false -> server s <> Closed /\ forall i c, callers s !! i = Some c -> c_pc c <> SendPanicked.
Lemma open_alter s f i p : server s <> Closed -> (forall j c, callers s !! j = Some c -> c_pc c <> SendPanicked) -> (forall c, c_pc c <> SendPanicked -> c_pc (f c) <> SendPanicked) -> p <> Closed ->
  server (set_server p (on_caller f i s)) <> Closed /\ forall j c, callers (set_server p (on_caller f i s)) !! j = Some c -> c_pc c <> SendPanicked.
Proof.
  intros H1 H2 Hf Hp. split; [done|]. intros j c Hj. cbn [callers set_server on_caller set_callers] in Hj. destruct (decide (j = i)) as [->|Hne]; [|rewrite list_lookup_alter_ne in Hj by done; by apply (H2 j)].
  rewrite list_lookup_alter_eq in Hj. destruct (callers s !! i) as [d|] eqn:Hd; [|done]. injection Hj as <-. by apply Hf, (H2 i).
Qed.
Lemma quiet_step e s s' : open_calls s -> step e s = Some s' -> open_calls s'.
Proof.
  intros Ho Hs Hc. assert (Hc0 : serverCancelled s = false) by (destruct (serverCancelled s) eqn:E; [exfalso|done]; destruct e; cbn [step] in Hs; repeat case_match; simplify_eq; cbn in Hc; congruence). destruct (Ho Hc0) as [H1 H2].
  assert (Hset : forall f i, on_caller f i s = set_server (server s) (on_caller f i s)) by done.
  destruct e as [req|i|i|i| | | |i| | |i]; cbn [step] in Hs.
  - injection Hs as <-. split; [done|]. intros j c [Hj|[_ Hj]]%lookup_app_Some; [by apply (H2 j)|]. destruct (j - _)%nat; cbn in Hj; [by injection Hj as <-|done].
  - destruct (callers s !! i); [|done]. injection Hs as <-. rewrite Hset. by apply open_alter.
  - destruct (callers s !! i) as [[q [|] cl pc]|]; [|done..]. assert (s' = on_caller (at_pc ContextDone) i s) as -> by (destruct pc; try done; by injection Hs as <-). rewrite Hset. by apply open_alter.
  - destruct (callers s !! i) as [[q cn cl []]|]; try done. destruct (server s) eqn:Hp; try done. injection Hs as <-. apply open_alter; by rewrite ?Hp.
  - destruct (server s) eqn:Hp; try done. destruct (handler _ _). injection Hs as <-. done.
  - destruct (server s) eqn:Hp; try done. destruct (callers s !! _) as [[q cn cl []]|]; try done. injection Hs as <-. apply open_alter; by rewrite ?Hp.
  - destruct (server s) eqn:Hp; try done. destruct (callers s !! _); try done. destruct (_ || _); [|done]. injection Hs as <-. apply open_alter; by rewrite ?Hp.
  - destruct (callers s !! i) as [[q cn [|] []]|]; try done. injection Hs as <-. rewrite Hset. by apply open_alter.
  - by injection Hs as <-.
  - destruct (server s); try done. by rewrite Hc0 in Hs.
  - destruct (callers s !! i) as [[q cn cl []]|]; try done. by destruct (server s).
Qed.
Lemma quiet_steps l : forall s s', open_calls s -> steps l s = Some s' -> open_calls s'.
Proof.
  induction l as [|e l IH]; intros s s' Ho Hs; cbn [steps] in Hs; [by injection Hs as <-|]. destruct (step e s) as [s1|] eqn:H1; cbn in Hs; [|done]. apply (IH s1); [|done]. by apply (quiet_step e s).
Qed.

(** Requests are handled one after the other, each at most once; a caller that gets an answer gets what the service made of its own request,
    unless the service was ended, when it can also be told nothing without an error; while the service runs no call panics. *)
Theorem calls_answered_serially (st0 : St) (l : list event) (s : cpc) :
  steps l (NewCPC st0) = Some s ->
  NoDup (handled s).*1 /\ serially st0 (reqs_of (handled s)) = (service s, replies_of (handled s)) /\
  (forall i c r, callers s !! i = Some c -> c_pc c = Returned r -> (i, (c_req c, r)) ∈ handled s \/ (r = zero_reply /\ serverCancelled s = true)) /\
  (serverCancelled s = false -> forall i c, callers s !! i = Some c -> c_pc c <> SendPanicked).
Proof.
  intros Hs. pose proof (inv_steps st0 l _ _ (inv_init st0) Hs) as [I1 I2 I3 I4 I5]. split; [done|]. split; [done|]. split.
  - intros i c r Hc Hr. specialize (I3 i c Hc). unfold caller_ok in I3. rewrite Hr in I3. apply I3.
  - intros Hn. assert (Ho : open_calls (NewCPC st0)) by done. exact (proj2 (quiet_steps l _ _ Ho Hs Hn)).
Qed.
End calls.

(** ** Groups that end in order (internal/services/orderedtasks/ordered_cancel.go) *)

Record task : Type := mkTask { t_running : bool; t_cancelled : bool }.
(** Where [CancelAndWait] is: not called, before the tasks that are left, at a task it waits for. *)
Inductive group_pc : Type := Idle | CancelNext (l : list nat) | WaitFor (i : nat) (l : list nat).
Record OrderedCancelGroup : Type := mkGroup { cancels : list task; group_at : group_pc }.
Definition NewOrderedCancelGroup : OrderedCancelGroup := mkGroup [] Idle.

Definition cancel (t : task) : task := mkTask (t_running t) true.
Definition task_ends (t : task) : task := mkTask false (t_cancelled t).
Definition reversed (g : OrderedCancelGroup) : list nat := rev (seq 0 (length (cancels g))).

Inductive group_event : Type :=
| Go               (* a task is started *)
| TaskEnds (i : nat) (* a task returns, because it was cancelled or of its own *)
| CancelAndWait    (* the group is told to end *)
| GroupStep.       (* CancelAndWait goes on *)

Definition group_step (e : group_event) (g : OrderedCancelGroup) : option OrderedCancelGroup :=
  match e with
  | Go => match group_at g with Idle => Some (mkGroup (cancels g ++ [mkTask true false]) Idle) | _ => None end
  | TaskEnds i => match cancels g !! i with Some (mkTask true _) => Some (mkGroup (alter task_ends i (cancels g)) (group_at g)) | _ => None end
  | CancelAndWait => match group_at g with Idle => Some (mkGroup (cancels g) (CancelNext (reversed g))) | _ => None end
  | GroupStep =>
      match group_at g with
      | Idle => None
      | CancelNext [] => Some (mkGroup [] Idle)
      | CancelNext (i :: l) => Some (mkGroup (alter cancel i (cancels g)) (WaitFor i l))
      | WaitFor i l => match cancels g !! i with Some (mkTask false _) => Some (mkGroup (cancels g) (CancelNext l)) | _ => None end
      end
  end.
Fixpoint group_steps (l : list group_event) (g : OrderedCancelGroup) : option OrderedCancelGroup :=
  match l with [] => Some g | e :: l => g' ← group_step e g; group_steps l g' end.

(** How many tasks were not cancelled yet: the first ones. *)
Definition untouched (g : OrderedCancelGroup) : nat := match group_at g with Idle => length (cancels g) | CancelNext l => length l | WaitFor _ l => length l end.
Record group_ok (g : OrderedCancelGroup) : Prop := {
  ok_first : forall i t, cancels g !! i = Some t -> (i < untouched g)%nat -> t_cancelled t = false;
  ok_rest : forall i t, cancels g !! i = Some t -> (untouched g <= i)%nat ->
    t_cancelled t = true /\ (t_running t = false \/ exists l, group_at g = WaitFor i l);
  ok_left : match group_at g with
            | Idle => True
            | CancelNext l => l = rev (seq 0 (length l)) /\ (length l <= length (cancels g))%nat
            | WaitFor i l => l = rev (seq 0 (length l)) /\ i = length l /\ (length l < length (cancels g))%nat
            end
}.

Lemma rev_seq_cons i l : i :: l = rev (seq 0 (length (i :: l))) -> i = length l /\ l = rev (seq 0 (length l)).
Proof. cbn [length]. rewrite seq_S, rev_app_distr. cbn. by intros [= -> H]. Qed.

Lemma group_ok_step e g g' : group_ok g -> group_step e g = Some g' -> group_ok g'.
Proof.
  intros [F R L] Hs. destruct e as [|i| |]; cbn [group_step] in Hs.
  - destruct (group_at g) eqn:Hp; try done. injection Hs as <-. unfold untouched in F. rewrite Hp in F. split; [|intros i t Hi Hlt|done]; unfold untouched in *; cbn [cancels group_at] in *.
    + intros i t [Hi|[_ Hi]]%lookup_app_Some _; [by apply (F i); [|by eapply lookup_lt_Some]|]. destruct (i - _)%nat; cbn in Hi; [by injection Hi as <-|done].
    + apply lookup_lt_Some in Hi. lia.
  - destruct (cancels g !! i) as [[[|] cn]|] eqn:Hi; try done. injection Hs as <-. assert (Hu : untouched (mkGroup (alter task_ends i (cancels g)) (group_at g)) = untouched g) by (unfold untouched; cbn; by rewrite length_alter).
    assert (Hback : forall j t, alter task_ends i (cancels g) !! j = Some t -> exists t0, cancels g !! j = Some t0 /\ t_cancelled t = t_cancelled t0 /\ (t_running t0 = false -> t_running t = false)).
    { intros j t Hj. destruct (decide (j = i)) as [->|Hne]; [rewrite list_lookup_alter_eq, Hi in Hj; injection Hj as <-; by eexists|]. rewrite list_lookup_alter_ne in Hj by done. by exists t. }
    split; rewrite ?Hu; cbn [cancels group_at].
    + intros j t (t0 & H0 & -> & _)%Hback Hlt. by apply (F j).
    + intros j t (t0 & H0 & -> & Hr)%Hback Hlt. destruct (R j t0 H0 Hlt) as [? [?|?]]; (split; [done|]); [left; auto|by right].
    + revert L. by rewrite length_alter.
  - destruct (group_at g) eqn:Hp; try done. injection Hs as <-. unfold untouched in *. rewrite Hp in F. unfold reversed. split; cbn [cancels group_at].
    + intros i t Hi. unfold untouched. cbn [group_at]. rewrite length_rev, length_seq. by apply F.
    + intros i t Hi. unfold untouched. cbn [group_at]. rewrite length_rev, length_seq. apply lookup_lt_Some in Hi. lia.
    + by rewrite length_rev, length_seq.
  - destruct (group_at g) as [|[|i l]|i l] eqn:Hp; try done.
    + injection Hs as <-. by split.
    + injection Hs as <-. unfold untouched in F, R. rewrite Hp in F, R. destruct L as [Hl Hn]. apply rev_seq_cons in Hl as [-> Hl]. cbn [length] in *. split; unfold untouched; cbn [cancels group_at].
      * intros j t Hj Hlt. rewrite list_lookup_alter_ne in Hj by lia. apply (F j t Hj). lia.
      * intros j t Hj Hle. destruct (decide (j = length l)) as [->|Hne]; [rewrite list_lookup_alter_eq in Hj; destruct (cancels g !! _); [injection Hj as <-; split; [done|]; right; by eexists|done]|].
        rewrite list_lookup_alter_ne in Hj by done. destruct (R j t Hj ltac:(lia)) as [? [?|[l' ?]]]; [|done]. split; [done|]. by left.
      * rewrite length_alter. split; [done|]. split; [done|lia].
    + destruct (cancels g !! i) as [[[|] cn]|] eqn:Hi; try done. injection Hs as <-. unfold untouched in F, R. rewrite Hp in F, R. destruct L as (Hl & -> & Hn). split; unfold untouched; cbn [cancels group_at].
      * exact F.
      * intros j t Hj Hle. destruct (R j t Hj Hle) as [? [?|[l' [= <- _]]]]; (split; [done|left]); [done|]. rewrite Hi in Hj. by injection Hj as <-.
      * split; [done|lia].
Qed.

Lemma group_ok_steps l : forall g g', group_ok g -> group_steps l g = Some g' -> group_ok g'.
Proof.
  induction l as [|e l IH]; intros g g' Hg Hs; cbn [group_steps] in Hs; [by injection Hs as <-|]. destruct (group_step e g) as [g1|] eqn:H1; cbn in Hs; [|done]. apply (IH g1); [|done]. by apply (group_ok_step e g).
Qed.

(** C12: A task is told to end only after all that were started after it have ended; while the group ends it goes on or waits for one task, which
    still runs and was told to end. *)
Theorem tasks_end_in_order (l : list group_event) (g : OrderedCancelGroup) :
  group_steps l NewOrderedCancelGroup = Some g ->
  (forall i j ti tj, (i < j)%nat -> cancels g !! i = Some ti -> cancels g !! j = Some tj -> t_cancelled ti = true -> t_running tj = false) /\
  (group_at g <> Idle -> is_Some (group_step GroupStep g) \/ exists i rest, group_at g = WaitFor i rest /\ cancels g !! i = Some (mkTask true true)).
Proof.
  intros Hs. assert (Hg : group_ok g) by (apply (group_ok_steps l NewOrderedCancelGroup); [by split|done]). destruct Hg as [F R L]. split.
  - intros i j ti tj Hij Hi Hj Hc. assert (Hu : (untouched g <= i)%nat) by (destruct (decide (i < untouched g)%nat) as [Hlt|?]; [by rewrite (F i ti Hi Hlt) in Hc|lia]).
    destruct (R j tj Hj ltac:(lia)) as [_ [?|[rest Hw]]]; [done|]. exfalso. rewrite Hw in L. destruct L as (_ & -> & _). unfold untouched in Hu. rewrite Hw in Hu. lia.
  - intros Hp. cbn [group_step]. destruct (group_at g) as [|[|i rest]|i rest] eqn:Hat; [done|left; by eexists|left; by eexists|]. destruct L as (_ & -> & Hlt). destruct (lookup_lt_is_Some_2 _ _ Hlt) as [[r c] Ht]. rewrite Ht.
    destruct r; [|left; by eexists]. right. exists (length rest), rest. split; [done|]. assert (Hu : (untouched g <= length rest)%nat) by (unfold untouched; by rewrite Hat). destruct (R _ _ Ht Hu) as [Hc _]. cbn in Hc. by subst c.
Qed.

(** ** Examples *)

Definition ex_handler (n : Z) (req : Z) : Z * @reply Z := if req <? 0 then (n, mkReply None (Some (ErrOther "negative"))) else (n + req, mkReply (Some (n + req)) None).

(** The service is ended after a request failed: the caller is told that it worked. *)
Example failure_lost : (fun s => c_pc <$> callers s) <$>
  steps ex_handler [NewCall (-1); TakeRequest 0; Handle; CancelServer; DropReply; ReadClosed 0] (NewCPC 5) = Some [Returned zero_reply].
Proof. vm_compute. reflexivity. Qed.

(** A caller waits for a service that is ended: its send panics. *)
Example call_panics : (fun s => c_pc <$> callers s) <$> steps ex_handler [NewCall 1; CancelServer; CloseServer; SendOnClosed 0] (NewCPC 5) = Some [SendPanicked].
Proof. vm_compute. reflexivity. Qed.

Definition ex_calls : list (@event Z) := [NewCall 1; NewCall 2; TakeRequest 1; Handle; GiveReply; TakeRequest 0; Handle; GiveReply].
Lemma calls_answered_serially_witness : exists s, steps ex_handler ex_calls (NewCPC 5) = Some s /\ serially ex_handler 5 (reqs_of (handled s)) = (service s, replies_of (handled s)).
Proof. eexists. split; [vm_compute; reflexivity|]. exact (proj1 (proj2 (calls_answered_serially ex_handler 5 ex_calls _ eq_refl))). Defined.

Definition ex_group : list group_event := [Go; Go; CancelAndWait; GroupStep; TaskEnds 1; GroupStep; GroupStep].
Lemma tasks_end_in_order_witness : exists g, group_steps ex_group NewOrderedCancelGroup = Some g /\ (forall i j ti tj, (i < j)%nat -> cancels g !! i = Some ti -> cancels g !! j = Some tj -> t_cancelled ti = true -> t_running tj = false).
Proof. eexists. split; [vm_compute; reflexivity|]. exact (proj1 (tasks_end_in_order ex_group _ eq_refl)). Defined.
