(* ===== verification/MessageEvents.v ===== *)
(** * Message events of the IMAP service (internal/services/imapservice:
      service_message_events.go, service_sync_events.go, sync_build.go)

    The service turns the message events of the API into updates for the IMAP server:
    new messages are fetched, decrypted and built, changed drafts and sent messages are
    built again, other changes only move a message between mailboxes or change its
    flags.  While a sync runs a handler of its own does the same with more tolerance.
    The IMAP server is the class [Gluon], its documented behaviour [GluonLaws]. *)

From S2P Require Import Prelude.
From S2P Require Import Api.
From S2P Require Import SyncInterfaces.
From S2P Require Import UserEvents.
From S2P Require Import UserIdentity.
From S2P Require Import ImapUpdates.
From S2P Require Import LabelEvents.
From S2P Require Import AddressEvents.
From S2P Require Import Effects.
From S2P Require Import Connector.
From S2P Require Import ConnectorImport.

(** ** Updates about messages *)

Record MessageCreated : Type := mkMessageCreated {
  mc_Message : IMAPMessage;
  mc_Literal : string;
  mc_MailboxIDs : list string;
  mc_Parsed : string
}.

Inductive msg_update : Type :=
| MessagesCreated (ignoreUnknownMailboxIDs : bool) (m : MessageCreated)
| MessageUpdated (m : MessageCreated) (allowCreate ignoreUnknownMailboxIDs : bool)
| MessageMailboxesUpdated (id : string) (mailboxIDs : list string) (flags : list flag)
| MessagesDeleted (id : string).

Definition update_id (u : msg_update) : string :=
  match u with
  | MessagesCreated _ m | MessageUpdated m _ _ => im_ID (mc_Message m)
  | MessageMailboxesUpdated id _ _ | MessagesDeleted id => id
  end.

(** The IMAP server's tables for one connector. *)
Class Gluon (B : Type) : Type := {
  gluon_apply : msg_update -> B -> B * option err;
  IsNoSuchMessage : err -> bool
}.

(** ** Building messages (sync_build.go) *)

(** Decryption, the parser of the IMAP library and the text that replaces a message
    that cannot be built.  The parser accepts that text; the panic otherwise is left
    out. *)
Class BuildLib (KeyRing : Type) : Type := {
  DecryptAndBuildRFC822Into : KeyRing -> FullMessage -> result err string;
  NewParsedMessage : string -> result err string;
  newFailedMessageLiteral : MessageMetadata -> err -> string;
  parsedFailed : string -> string;
  build_Unlock : list string -> list Z -> option KeyRing -> result err KeyRing
}.

Record buildRes : Type := mkBuildRes { br_messageID : string; br_addressID : string; br_update : MessageCreated; br_err : option err }.

Section service.
Context `{MR : MapRange} `{SP : StateProvider} {B : Type} `{GL : Gluon B} {KeyRing : Type} `{BL : BuildLib KeyRing}.

Definition build_newMessageCreatedUpdate (apiLabels : labelMap) (message : MessageMetadata) (literal : string)
    : result err MessageCreated :=
  parsed ← NewParsedMessage literal;
  Ok (mkMessageCreated (toIMAPMessage message) literal (wantLabels apiLabels (meta_LabelIDs message)) parsed).

Definition newMessageCreatedFailedUpdate (apiLabels : labelMap) (message : MessageMetadata) (e : err) : MessageCreated :=
  let literal := newFailedMessageLiteral message e in
  mkMessageCreated (toIMAPMessage message) literal (wantLabels apiLabels (meta_LabelIDs message)) (parsedFailed literal).

Definition buildRFC822 (apiLabels : labelMap) (full : FullMessage) (addrKR : KeyRing) : buildRes :=
  let message := full_Metadata full in
  let '(update, e) :=
    match DecryptAndBuildRFC822Into addrKR full with
    | Err buildErr => (newMessageCreatedFailedUpdate apiLabels message buildErr, Some buildErr)
    | Ok literal =>
        match build_newMessageCreatedUpdate apiLabels message literal with
        | Err parseErr => (newMessageCreatedFailedUpdate apiLabels message parseErr, Some parseErr)
        | Ok created => (created, None)
        end
    end in
  mkBuildRes (meta_ID message) (meta_AddressID message) update e.

(** ** The service *)

(** The identity, mode and connectors, the label map, the sync state, and the tables of
    the IMAP server by connector.  An update is applied when it is published; its
    outcome is what waiting for it reports. *)
Record MsgService : Type := mkMsgService {
  ms_addr : AddressService;
  ms_labels : labelMap;
  ms_sync : provider;
  ms_boxes : gmap string B
}.

Definition set_sync (p : provider) (s : MsgService) : MsgService := mkMsgService (ms_addr s) (ms_labels s) p (ms_boxes s).
Definition set_boxes (m : gmap string B) (s : MsgService) : MsgService :=
  mkMsgService (ms_addr s) (ms_labels s) (ms_sync s) m.

Notation M := (eff MsgService err).
Definition published : Type := msg_update * option err.

Definition ErrNoIMAPUser : err := ErrOther "no such user".

(** [publishUpdate] of the connector [c] (connector.go), with the outcome the IMAP server
    will report; a connector that is not served reports an error of its own. *)
Definition publishUpdate (c : string) (u : msg_update) : eff MsgService err published := fun s =>
  match ms_boxes s !! c with
  | None => (s, Ok (u, Some ErrNoIMAPUser))
  | Some box => let '(box, e) := gluon_apply u box in (set_boxes (<[c := box]> (ms_boxes s)) s, Ok (u, e))
  end.

Fixpoint wait_published (updates : list published) : option err :=
  match updates with
  | [] => None
  | (_, Some e) :: _ => Some (ErrWrap "failed to apply gluon update" e)
  | (_, None) :: rest => wait_published rest
  end.

(** The connector is the one under the address, or, in combined mode, under the primary
    address.  [Ok None]: there is none, the update is dropped. *)
Definition find_connector (addressID : string) (a : AddressService) : result err (option string) :=
  match as_connectors a !! addressID with
  | Some c => Ok (Some c)
  | None =>
      match as_mode a with
      | AddressModeCombined =>
          match state_GetPrimaryAddr (as_identity a) with
          | Err e => Err (ErrWrap "failed to get primary address" e)
          | Ok primAddr =>
              match as_connectors a !! addr_ID primAddr with
              | None => Err (ErrOther "primary address channel is not available")
              | Some c => Ok (Some c)
              end
          end
      | AddressModeSplit => Ok None
      end
  end.

(** The result is what was published, if anything. *)
Definition safePublishMessageUpdate (addressID : string) (u : msg_update) : M (option published) :=
  target ← reads (fun s => find_connector addressID (ms_addr s));
  match target with
  | None => mret None
  | Some c => p ← publishUpdate c u; mret (Some p)
  end.

Definition is_unprocessable_err (e : err) : bool := bool_decide (apiStatus (chain e) = Some 422).

(** [fetch] is [GetFullMessage] of the API. *)
Definition fetch_full (fetch : string -> result err FullMessage) (wrap : string) (id : string) : M (option FullMessage) :=
  match fetch id with
  | Ok full => mret (Some full)
  | Err e => if is_unprocessable_err e then mret None else fails (ErrWrap wrap e)
  end.

(** The closure of [onMessageCreated] and [onMessageUpdateDraftOrSent]: build the message,
    record the outcome in the sync state under [id] and publish it. *)
Definition build_and_publish (id : string) (apiLabels : labelMap) (full : FullMessage) (mk : MessageCreated -> msg_update)
    (addrKR : KeyRing) : M (option published) :=
  let res := buildRFC822 apiLabels full addrKR in
  match br_err res with
  | Some _ => modify (fun s => set_sync (AddFailedMessageID [id] (ms_sync s)).1 s) ≫= fun _ => mret None
  | None =>
      modify (fun s => set_sync (RemFailedMessageID [id] (ms_sync s)).1 s) ≫= fun _ =>
      safePublishMessageUpdate (meta_AddressID (full_Metadata full)) (mk (br_update res))
  end.

Definition to_list {A} (o : option A) : list A := match o with Some a => [a] | None => [] end.

Definition onMessageCreated (fetch : string -> result err FullMessage) (keyPass : list Z) (message : MessageMetadata)
    (allowUnknownLabels : bool) : M (list published) :=
  full ← fetch_full fetch "failed to get full message" (meta_ID message);
  match full with
  | None => mret []
  | Some full =>
      s ← get;
      update ← withAddrKR build_Unlock None (as_identity (ms_addr s)) keyPass (meta_AddressID message)
                 (build_and_publish (meta_ID message) (ms_labels s) full (MessagesCreated allowUnknownLabels));
      mret (to_list update)
  end.

Definition onMessageUpdateDraftOrSent (fetch : string -> result err FullMessage) (keyPass : list Z) (event : MessageEvent)
    (duringSync : bool) : M (list published) :=
  full ← fetch_full fetch "failed to get full draft" (meta_ID (me_Message event));
  match full with
  | None => mret []
  | Some full =>
      s ← get;
      update ← withAddrKR build_Unlock None (as_identity (ms_addr s)) keyPass (meta_AddressID (me_Message event))
                 (build_and_publish (me_ID event) (ms_labels s) full (fun m => MessageUpdated m true duringSync));
      mret (to_list update)
  end.

Definition onMessageUpdate (message : MessageMetadata) : M (list published) :=
  s ← get;
  p ← safePublishMessageUpdate (meta_AddressID message)
        (MessageMailboxesUpdated (meta_ID message) (wantLabels (ms_labels s) (meta_LabelIDs message))
           (BuildFlagSetFromMessageMetadata message));
  mret (to_list p).

(** The loop over the connectors, in the order of ranging over the map. *)
Fixpoint publish_all (cs : list string) (u : msg_update) : M (list published) :=
  match cs with
  | [] => mret []
  | c :: cs => p ← publishUpdate c u; ps ← publish_all cs u; mret (p :: ps)
  end.

Definition onMessageDeleted (event : MessageEvent) : M (list published) :=
  s ← get;
  publish_all (Values (as_connectors (ms_addr s))) (MessagesDeleted (me_ID event)).

(** [waitOnIMAPUpdates]. *)
Definition wait_for (updates : list published) : M () :=
  match wait_published updates with None => mret () | Some e => fails e end.

(** The update of a message; when the IMAP server does not know it, it is created. *)
Definition update_or_create (fetch : string -> result err FullMessage) (keyPass : list Z) (message : MessageMetadata)
    (allowUnknownLabels : bool) (wrap wrapCreate : string) : M () :=
  updates ← wrapping (ErrWrap wrap) (onMessageUpdate message);
  match wait_published updates with
  | None => mret ()
  | Some e =>
      if IsNoSuchMessage e then
        updates ← wrapping (ErrWrap wrapCreate) (onMessageCreated fetch keyPass message allowUnknownLabels);
        wait_for updates
      else fails e
  end.

Definition is_draft_or_sent (event : MessageEvent) : bool :=
  meta_IsDraft (me_Message event) || meta_FlagSent (me_Message event).

Definition HandleMessageEvent (fetch : string -> result err FullMessage) (keyPass : list Z) (event : MessageEvent) : M () :=
  match me_Action event with
  | EventCreate =>
      updates ← wrapping (ErrWrap "failed to handle create message event") (onMessageCreated fetch keyPass (me_Message event) false);
      wait_for updates
  | EventUpdate | EventUpdateFlags =>
      if is_draft_or_sent event && bool_decide (me_Action event = EventUpdate) then
        updates ← wrapping (ErrWrap "failed to handle update draft event") (onMessageUpdateDraftOrSent fetch keyPass event false);
        wait_for updates
      else
        update_or_create fetch keyPass (me_Message event) false "failed to handle update message event"
          "failed to handle update message event as create"
  | EventDelete =>
      updates ← onMessageDeleted event;
      wrapping (ErrWrap "failed to handle delete message event in gluon") (wait_for updates)
  | EventActionOther _ => mret ()
  end.

(** [fetches] gives the answers of the API for each event. *)
Fixpoint HandleMessageEvents (fetches : nat -> string -> result err FullMessage) (keyPass : list Z) (k : nat)
    (events : list MessageEvent) : M () :=
  match events with
  | [] => mret ()
  | event :: rest =>
      HandleMessageEvent (fetches k) keyPass event ≫= fun _ => HandleMessageEvents fetches keyPass (S k) rest
  end.

(** *** During a sync (service_sync_events.go) *)

Definition sync_HandleMessageEvent (fetch : string -> result err FullMessage) (keyPass : list Z) (event : MessageEvent) : M () :=
  match me_Action event with
  | EventCreate =>
      updates ← wrapping (ErrWrap "failed to handle create message event") (onMessageCreated fetch keyPass (me_Message event) true);
      wait_for updates
  | EventUpdate | EventUpdateFlags =>
      if is_draft_or_sent event then
        updates ← wrapping (ErrWrap "failed to handle update draft event (sync)") (onMessageUpdateDraftOrSent fetch keyPass event true);
        wait_for updates
      else
        update_or_create fetch keyPass (me_Message event) true "failed to handle update message event (sync)"
          "failed to handle update message event as create (sync)"
  | EventDelete =>
      updates ← onMessageDeleted event;
      wrapping (ErrWrap "failed to handle delete message event in gluon") (wait_for updates)
  | EventActionOther _ => mret ()
  end.

Fixpoint sync_HandleMessageEvents (fetches : nat -> string -> result err FullMessage) (keyPass : list Z) (k : nat)
    (events : list MessageEvent) : M () :=
  match events with
  | [] => mret ()
  | event :: rest =>
      sync_HandleMessageEvent (fetches k) keyPass event ≫= fun _ => sync_HandleMessageEvents fetches keyPass (S k) rest
  end.

End service.

(** ** What the IMAP server promises

    [box_view] gives, for the messages it has, their mailboxes and flags.  An update only
    touches its message; applied without error it has the effect it names. *)
Class GluonLaws (B : Type) `{Gluon B} : Type := {
  box_view : B -> gmap string (list string * list flag);
  apply_others u b id : id <> update_id u -> box_view (gluon_apply u b).1 !! id = box_view b !! id;
  apply_created i m b : (gluon_apply (MessagesCreated i m) b).2 = None ->
    is_Some (box_view (gluon_apply (MessagesCreated i m) b).1 !! im_ID (mc_Message m));
  apply_updated m c i b : (gluon_apply (MessageUpdated m c i) b).2 = None ->
    is_Some (box_view (gluon_apply (MessageUpdated m c i) b).1 !! im_ID (mc_Message m));
  apply_mailboxes id mbs fs b : (gluon_apply (MessageMailboxesUpdated id mbs fs) b).2 = None ->
    box_view (gluon_apply (MessageMailboxesUpdated id mbs fs) b).1 !! id = Some (mbs, fs);
  apply_deleted id b : (gluon_apply (MessagesDeleted id) b).2 = None ->
    box_view (gluon_apply (MessagesDeleted id) b).1 !! id = None
}.

Section laws.
Context `{MR : MapRange} `{SP : StateProvider} {PL : StateProviderLaws} {B : Type} `{GL : Gluon B}
        {GW : GluonLaws B} {KeyRing : Type} `{BL : BuildLib KeyRing}.

#[local] Notation Svc := (MsgService (B := B)).

(** The tables of the connector [c]. *)
Definition view_of (s : Svc) (c : string) : gmap string (list string * list flag) :=
  from_option box_view ∅ (ms_boxes s !! c).

(** Everything but the tables and the sync state stays. *)
Definition same_service (s s' : Svc) : Prop := ms_addr s' = ms_addr s /\ ms_labels s' = ms_labels s.

#[global] Instance same_service_refl : Reflexive same_service.
Proof. done. Qed.
#[global] Instance same_service_trans : Transitive same_service.
Proof. intros s1 s2 s3 [H1 H2] [H3 H4]. split; congruence. Qed.

Lemma publishUpdate_spec c u (s s' : Svc) p :
  publishUpdate c u s = (s', Ok p) ->
  same_service s s' /\ ms_sync s' = ms_sync s /\ p.1 = u /\
  (forall c' id, c' <> c \/ id <> update_id u -> view_of s' c' !! id = view_of s c' !! id) /\
  (p.2 = None -> exists box, ms_boxes s !! c = Some box /\ (gluon_apply u box).2 = None /\
                   view_of s' c = box_view (gluon_apply u box).1).
Proof.
  unfold publishUpdate, view_of. destruct (ms_boxes s !! c) as [box|] eqn:Hb.
  2:{ intros [= <- <-]. split_and!; done. }
  destruct (gluon_apply u box) as [box' e] eqn:Ha. intros [= <- <-]. simpl. split_and!; [done..| |].
  - intros c' id Hor. destruct (decide (c' = c)) as [->|Hne]; [|by rewrite lookup_insert_ne].
    rewrite lookup_insert_eq, Hb. simpl. destruct Hor as [|Hid]; [done|].
    pose proof (apply_others u box id Hid) as Ho. by rewrite Ha in Ho.
  - intros ->. exists box. by rewrite lookup_insert_eq, Ha.
Qed.

Lemma publishUpdate_total c u s : exists s' p, publishUpdate c u s = (s', Ok p).
Proof. unfold publishUpdate. destruct (ms_boxes s !! c); [destruct (gluon_apply u b)|]; eauto. Qed.

Lemma find_connector_mem a addressID c :
  find_connector addressID a = Ok (Some c) -> exists k, as_connectors a !! k = Some c.
Proof. unfold find_connector. repeat case_match; naive_solver. Qed.

Lemma safePublish_spec addressID u (s s' : Svc) o :
  safePublishMessageUpdate addressID u s = (s', Ok o) ->
  match o with
  | None => s' = s /\ find_connector addressID (ms_addr s) = Ok None
  | Some p => exists c, find_connector addressID (ms_addr s) = Ok (Some c) /\ publishUpdate c u s = (s', Ok p)
  end.
Proof.
  unfold safePublishMessageUpdate. intros (s0 & t & [= <- Ht] & Hrun)%eff_bind_Ok. destruct t as [c|].
  - apply eff_bind_Ok in Hrun as (s1 & p & Hp & [= <- <-]). eauto.
  - injection Hrun as <- <-. done.
Qed.

Lemma fetch_full_spec fetch wrap id (s s' : Svc) o :
  fetch_full fetch wrap id s = (s', Ok o) ->
  s' = s /\ match o with
            | Some full => fetch id = Ok full
            | None => exists e, fetch id = Err e /\ is_unprocessable_err e = true
            end.
Proof.
  unfold fetch_full. destruct (fetch id) as [full|e]; [|destruct (is_unprocessable_err e) eqn:He; [|done]];
    intros [= <- <-]; eauto.
Qed.

(** Where a message that the service was told to create has ended up: in the tables of
    its connector; or it is recorded as failed because it cannot be built; or the API
    has no such message any more; or its address has no connector. *)
Definition accounted (fetch : string -> result err FullMessage) (id recordID : string) (s s' : Svc) : Prop :=
  match fetch id with
  | Err e => is_unprocessable_err e = true
  | Ok full =>
      (exists kr e, br_err (buildRFC822 (ms_labels s) full kr) = Some e /\
                    ((AddFailedMessageID [recordID] (ms_sync s)).2 = None ->
                     recordID ∈ failedIDs (status_of (ms_sync s')))) \/
      find_connector (meta_AddressID (full_Metadata full)) (ms_addr s) = Ok None \/
      exists c, find_connector (meta_AddressID (full_Metadata full)) (ms_addr s) = Ok (Some c) /\
                is_Some (view_of s' c !! meta_ID (full_Metadata full))
  end.

Lemma wait_singleton (p : published) : wait_published [p] = None -> p.2 = None.
Proof. destruct p as [u [e|]]; done. Qed.

Lemma built_id apiLabels full kr : im_ID (mc_Message (br_update (buildRFC822 apiLabels full kr))) = meta_ID (full_Metadata full).
Proof.
  unfold buildRFC822, build_newMessageCreatedUpdate. destruct (DecryptAndBuildRFC822Into kr full) as [l|]; [|done].
  destruct (NewParsedMessage l); done.
Qed.

(** The closure, when it succeeds and its update is applied. *)
Lemma build_and_publish_spec recordID full mk kr (s s' : Svc) o :
  (forall m, mk m = MessagesCreated true m \/ mk m = MessagesCreated false m \/ exists b, mk m = MessageUpdated m true b) ->
  build_and_publish recordID (ms_labels s) full mk kr s = (s', Ok o) -> wait_published (to_list o) = None ->
  forall fetch id, fetch id = Ok full -> same_service s s' /\ accounted fetch id recordID s s'.
Proof.
  intros Hmk Hrun Hwait fetch id Hf. unfold accounted. rewrite Hf.
  unfold build_and_publish in Hrun. destruct (br_err _) as [e|] eqn:He.
  - apply eff_bind_Ok in Hrun as (s1 & [] & [= <-] & [= <- <-]). split; [done|]. left. exists kr, e. split; [done|].
    intros Hadd. simpl. destruct (AddFailedMessageID [recordID] (ms_sync s)) as [p' e'] eqn:Ha. simpl in *. subst e'.
    apply AddFailedMessageID_law in Ha as [-> _]. set_solver.
  - apply eff_bind_Ok in Hrun as (s1 & [] & [= <-] & Hrun). apply safePublish_spec in Hrun. destruct o as [p|].
    + destruct Hrun as (c & Hc & Hp). simpl in Hc. apply publishUpdate_spec in Hp as (Hsame & _ & _ & _ & Hok).
      split; [destruct Hsame; done|]. right. right. exists c. split; [done|].
      destruct (Hok (wait_singleton p Hwait)) as (box & _ & Ha & ->).
      specialize (Hmk (br_update (buildRFC822 (ms_labels s) full kr))). rewrite <- (built_id (ms_labels s) full kr).
      destruct Hmk as [->|[->|[b ->]]] in Ha |- *; eauto using apply_created, apply_updated.
    + destruct Hrun as [-> Hc]. split; [done|]. by right; left.
Qed.

Lemma wait_for_Ok ups (s s' : Svc) : wait_for ups s = (s', Ok ()) <-> s' = s /\ wait_published ups = None.
Proof. unfold wait_for. destruct (wait_published ups); (split; [intros [= <-]|intros [-> ?]]); done. Qed.

Lemma onMessageCreated_spec fetch keyPass message allow (s s' : Svc) ups :
  onMessageCreated fetch keyPass message allow s = (s', Ok ups) -> wait_published ups = None ->
  same_service s s' /\ accounted fetch (meta_ID message) (meta_ID message) s s'.
Proof.
  unfold onMessageCreated. intros (s0 & o & Ho & Hrun)%eff_bind_Ok Hwait.
  apply fetch_full_spec in Ho as [-> Ho]. destruct o as [full|].
  - apply eff_bind_Ok in Hrun as (s1 & x & [= <- <-] & Hrun). apply eff_bind_Ok in Hrun as (s1 & o & Hw & [= <- <-]).
    apply withAddrKR_Ok in Hw as (kr & Hw). eapply build_and_publish_spec; [|exact Hw|exact Hwait|exact Ho].
    intros m. destruct allow; auto.
  - injection Hrun as <- <-. split; [done|]. destruct Ho as (e & He & Hu). unfold accounted. by rewrite He.
Qed.

Lemma onMessageUpdateDraftOrSent_spec fetch keyPass event during (s s' : Svc) ups :
  onMessageUpdateDraftOrSent fetch keyPass event during s = (s', Ok ups) -> wait_published ups = None ->
  same_service s s' /\ accounted fetch (meta_ID (me_Message event)) (me_ID event) s s'.
Proof.
  unfold onMessageUpdateDraftOrSent. intros (s0 & o & Ho & Hrun)%eff_bind_Ok Hwait.
  apply fetch_full_spec in Ho as [-> Ho]. destruct o as [full|].
  - apply eff_bind_Ok in Hrun as (s1 & x & [= <- <-] & Hrun). apply eff_bind_Ok in Hrun as (s1 & o & Hw & [= <- <-]).
    apply withAddrKR_Ok in Hw as (kr & Hw).
    apply (build_and_publish_spec _ _ _ _ _ _ _ (fun m => or_intror (or_intror (ex_intro _ during eq_refl))) Hw Hwait _ _ Ho).
  - injection Hrun as <- <-. split; [done|]. destruct Ho as (e & He & Hu). unfold accounted. by rewrite He.
Qed.

(** The message has the mailboxes and flags of the event in the tables of its connector;
    without a connector nothing happened. *)
Definition moved (message : MessageMetadata) (s s' : Svc) : Prop :=
  match find_connector (meta_AddressID message) (ms_addr s) with
  | Ok (Some c) => view_of s' c !! meta_ID message =
                   Some (wantLabels (ms_labels s) (meta_LabelIDs message), BuildFlagSetFromMessageMetadata message)
  | Ok None => s' = s
  | Err _ => False
  end.

Lemma onMessageUpdate_spec message (s s' : Svc) ups :
  onMessageUpdate message s = (s', Ok ups) ->
  same_service s s' /\ ms_sync s' = ms_sync s /\ (wait_published ups = None -> moved message s s').
Proof.
  unfold onMessageUpdate. intros (s0 & x & [= <- <-] & Hrun)%eff_bind_Ok.
  apply eff_bind_Ok in Hrun as (s1 & o & Hs & [= <- <-]). apply safePublish_spec in Hs. unfold moved. destruct o as [p|].
  - destruct Hs as (c & -> & Hp). apply publishUpdate_spec in Hp as (? & ? & _ & _ & Hok). split_and!; [done..|].
    intros Hw%wait_singleton. destruct (Hok Hw) as (box & _ & Ha & ->). by apply apply_mailboxes.
  - destruct Hs as [-> ->]. done.
Qed.

Lemma accounted_from fetch id recordID (s s1 s' : Svc) :
  same_service s s1 -> ms_sync s1 = ms_sync s -> accounted fetch id recordID s1 s' -> accounted fetch id recordID s s'.
Proof. intros [Ha Hl] Hp. unfold accounted. by rewrite Ha, Hl, Hp. Qed.

Lemma update_or_create_spec fetch keyPass message allow wrap wrapCreate (s s' : Svc) :
  update_or_create fetch keyPass message allow wrap wrapCreate s = (s', Ok ()) ->
  same_service s s' /\ (moved message s s' \/ accounted fetch (meta_ID message) (meta_ID message) s s').
Proof.
  unfold update_or_create. intros (s1 & ups & Hu%wrapping_Ok_iff & Hrun)%eff_bind_Ok.
  apply onMessageUpdate_spec in Hu as (Hsame & Hsync & Hok).
  destruct (wait_published ups) as [e|]; [|by injection Hrun as <-; auto].
  destruct (IsNoSuchMessage e); [|done].
  apply eff_bind_Ok in Hrun as (s2 & ups2 & Hc%wrapping_Ok_iff & [-> Hw]%wait_for_Ok).
  apply onMessageCreated_spec in Hc as [Hsame' Hacc]; [|done]. split; [by etrans|right; by eapply accounted_from].
Qed.

(** After the loop over the connectors the message is in none of their tables. *)
Lemma publish_all_deleted cs id (s s' : Svc) ups :
  publish_all cs (MessagesDeleted id) s = (s', Ok ups) -> wait_published ups = None ->
  same_service s s' /\ (forall c, c ∈ cs \/ view_of s c !! id = None -> view_of s' c !! id = None).
Proof.
  revert s ups. induction cs as [|c cs IH]; intros s ups Hrun Hw; simpl in Hrun.
  { injection Hrun as <- <-. split; [done|]. intros c [Hc|Hc]; [by apply elem_of_nil in Hc|done]. }
  apply eff_bind_Ok in Hrun as (s1 & p & Hp & Hrun). apply eff_bind_Ok in Hrun as (s2 & ps & Hps & [= <- <-]).
  destruct p as [u [e|]]; [done|]. simpl in Hw.
  apply publishUpdate_spec in Hp as (Hsame & _ & _ & Hoth & Hok). destruct (Hok eq_refl) as (box & _ & Ha & Hv).
  destruct (IH _ _ Hps Hw) as [Hsame' Hgone]. split; [by etrans|].
  assert (view_of s1 c !! id = None) as Hc by (rewrite Hv; by apply apply_deleted).
  intros c' Hor. apply Hgone. destruct (decide (c' = c)) as [->|Hne]; [by right|].
  destruct Hor as [Hin|Hnone]; [left; set_solver|right; by rewrite Hoth by (by left)].
Qed.

Lemma delete_spec event wrap (s s' : Svc) :
  (onMessageDeleted event ≫= fun updates => wrapping wrap (wait_for updates)) s = (s', Ok ()) ->
  same_service s s' /\ forall k c, as_connectors (ms_addr s) !! k = Some c -> view_of s' c !! me_ID event = None.
Proof.
  intros (s1 & ups & Hd & Hw%wrapping_Ok_iff)%eff_bind_Ok. apply wait_for_Ok in Hw as [-> Hw].
  unfold onMessageDeleted in Hd. apply eff_bind_Ok in Hd as (s0 & x & [= <- <-] & Hd).
  destruct (publish_all_deleted _ _ _ _ _ Hd Hw) as [Hsame Hgone]. split; [done|].
  intros k c Hk. apply Hgone. left. apply elem_of_Values. eauto.
Qed.

(** What handling an event without an error has achieved. *)
Definition event_done (sync : bool) (fetch : string -> result err FullMessage) (event : MessageEvent) (s s' : Svc) : Prop :=
  let message := me_Message event in
  match me_Action event with
  | EventCreate => accounted fetch (meta_ID message) (meta_ID message) s s'
  | EventUpdate | EventUpdateFlags =>
      if is_draft_or_sent event && (sync || bool_decide (me_Action event = EventUpdate))
      then accounted fetch (meta_ID message) (me_ID event) s s'
      else moved message s s' \/ accounted fetch (meta_ID message) (meta_ID message) s s'
  | EventDelete => forall k c, as_connectors (ms_addr s) !! k = Some c -> view_of s' c !! me_ID event = None
  | EventActionOther _ => s' = s
  end.


End laws.

(** ** Examples *)

(** Tables in memory. *)
Notation tables := (gmap string (list string * list flag)).
Definition ErrNoSuchMessage : err := ErrOther "no such message".
Definition entry_of (m : MessageCreated) : list string * list flag := (mc_MailboxIDs m, im_Flags (mc_Message m)).

#[global] Instance tables_gluon : Gluon tables := {
  gluon_apply u b :=
    match u with
    | MessagesCreated _ m => (<[im_ID (mc_Message m) := entry_of m]> b, None)
    | MessageUpdated m allowCreate _ =>
        if allowCreate || bool_decide (is_Some (b !! im_ID (mc_Message m)))
        then (<[im_ID (mc_Message m) := entry_of m]> b, None) else (b, Some ErrNoSuchMessage)
    | MessageMailboxesUpdated id mbs fs =>
        if bool_decide (is_Some (b !! id)) then (<[id := (mbs, fs)]> b, None) else (b, Some ErrNoSuchMessage)
    | MessagesDeleted id => (delete id b, None)
    end;
  IsNoSuchMessage e := Is ErrNoSuchMessage e
}.

#[global] Instance tables_laws : GluonLaws tables.
Proof.
  refine {| box_view := fun b => b |}.
  - intros u b id Hid. destruct u; simpl in *; repeat case_match; simpl;
      rewrite ?lookup_insert_ne, ?lookup_delete_ne by done; done.
  - intros i m b _. simpl. rewrite lookup_insert_eq. eauto.
  - intros m c i b. simpl. case_match; [|done]. intros _. simpl. rewrite lookup_insert_eq. eauto.
  - intros id mbs fs b. simpl. case_match; [|done]. intros _. apply lookup_insert_eq.
  - intros id b _. apply lookup_delete_eq.
Defined.

#[global] Instance plain_build : BuildLib () := {
  DecryptAndBuildRFC822Into _ full := Ok (full_Payload full);
  NewParsedMessage s := Ok s;
  newFailedMessageLiteral _ _ := "failed";
  parsedFailed s := s;
  build_Unlock _ _ _ := Ok ()
}.

Definition ex_msg_service : MsgService (SP := pure_provider) (B := tables) :=
  @mkMsgService pure_provider tables (mkAddressService ex_identity AddressModeSplit {["a" := "a"; "b" := "b"]} ["a"; "b"])
    (server_labels ex_server) DefaultStatus {["a" := ∅; "b" := ∅]}.
Definition ex_meta (draft : bool) : MessageMetadata := mkMetadata "m" "a" ["3"; "5"] true false draft false false false false.
Definition ex_update (draft : bool) : MessageEvent := mkMessageEvent "m" EventUpdateFlags (ex_meta draft).
Definition ex_fetch (id : string) : result err FullMessage := Ok (mkFullMessage (ex_meta false) "text").

Definition ex_handled := HandleMessageEvent (MR := canonical_range) ex_fetch [] (ex_update false) ex_msg_service.


(** A change of the labels or flags of a draft needs nothing from the API, but while a
    sync runs the handler fetches and rebuilds the whole draft, as it does for a change
    of its content. *)
Lemma sync_refetches_draft_on_flags :
  let broken (id : string) : result err FullMessage := Err (ErrAPI 500) in
  let s := @mkMsgService pure_provider tables (ms_addr ex_msg_service) (ms_labels ex_msg_service) DefaultStatus
             {["a" := {["m" := (["5"], [])]}; "b" := ∅]} in
  is_ok (HandleMessageEvent (MR := canonical_range) broken [] (ex_update true) s).2 = true /\
  is_ok (sync_HandleMessageEvent (MR := canonical_range) broken [] (ex_update true) s).2 = false.
Proof. vm_compute. done. Qed.
