(* ===== verification/ImapServiceLoop.v ===== *)
(** * The loop of the IMAP service (internal/services/imapservice/service.go)

    The service of an account owns its connectors, starts and cancels the background
    sync, and handles requests, events, and changes of the connection one at a time.
    While a sync runs, events are handled by a handler that leaves labels alone; when it
    is over, a goroutine rewinds the event loop to where the sync started, so that what
    was skipped is seen again.  The goroutine runs next to the loop, so its steps are
    inputs of the state machine too. *)

From S2P Require Import Prelude.
From S2P Require Import Api.
From S2P Require Import SyncInterfaces.
From S2P Require Import SyncState.
From S2P Require Import UserEvents.
From S2P Require Import UserIdentity.
From S2P Require Import LabelEvents.
From S2P Require Import AddressEvents.
From S2P Require Import Effects.
From S2P Require Import Connector.
From S2P Require Import ConnectorImport.
From S2P Require Import MessageEvents.

(** The sync state also keeps the event at which a sync started. *)
Class StartEvent `{StateProvider} : Type := {
  SetStartSyncEventID : string -> provider -> provider * option providerErr
}.
Class StartEventLaws `{StartEvent} : Prop := {
  SetStartSyncEventID_law id p p' :
    SetStartSyncEventID id p = (p', None) -> status_of p' = withStartSyncEventID id (status_of p)
}.

(** ** State *)

(** The goroutine that ends a sync: before it reads the status, while it waits for the
    rewind, after the rewind, and before it clears [isSyncing]. *)
Inductive rewinder : Type :=
| RwRead
| RwRewind (to : string)
| RwClear
| RwStop.

#[global] Instance rewinder_eq_dec : EqDecision rewinder.
Proof. solve_decision. Defined.

(** What the service tells the rest of the application. *)
Inductive notice : Type :=
| NBadEvent (info : string)
| NNoRewindPoint
| NRewound (to : string).

Section service.
Context `{MR : MapRange} `{SF : SortFunc} `{SP : StateProvider} {SE : StartEvent} {B : Type} `{GL : Gluon B} {KeyRing : Type}
        `{BL : BuildLib KeyRing} (inject : providerErr -> err).

Record Service : Type := mkService {
  sv_msg : MsgService (B := B);
  sv_isSyncing : bool;
  sv_running : bool;
  sv_last : string;
  sv_rewinders : list rewinder;
  sv_notices : list notice
}.

Definition set_msg (m : MsgService) (s : Service) : Service :=
  mkService m (sv_isSyncing s) (sv_running s) (sv_last s) (sv_rewinders s) (sv_notices s).
Definition set_isSyncing (b : bool) (s : Service) : Service :=
  mkService (sv_msg s) b (sv_running s) (sv_last s) (sv_rewinders s) (sv_notices s).
Definition set_running (b : bool) (s : Service) : Service :=
  mkService (sv_msg s) (sv_isSyncing s) b (sv_last s) (sv_rewinders s) (sv_notices s).
Definition set_last (id : string) (s : Service) : Service :=
  mkService (sv_msg s) (sv_isSyncing s) (sv_running s) id (sv_rewinders s) (sv_notices s).
Definition set_rewinders (l : list rewinder) (s : Service) : Service :=
  mkService (sv_msg s) (sv_isSyncing s) (sv_running s) (sv_last s) l (sv_notices s).
Definition tell (n : notice) (s : Service) : Service :=
  mkService (sv_msg s) (sv_isSyncing s) (sv_running s) (sv_last s) (sv_rewinders s) (sv_notices s ++ [n]).

Definition set_address (a : AddressService) (s : Service) : Service :=
  set_msg (mkMsgService a (ms_labels (sv_msg s)) (ms_sync (sv_msg s)) (ms_boxes (sv_msg s))) s.
Definition set_labelmap (m : labelMap) (s : Service) : Service :=
  set_msg (mkMsgService (ms_addr (sv_msg s)) m (ms_sync (sv_msg s)) (ms_boxes (sv_msg s))) s.
Definition set_provider (p : provider) (s : Service) : Service := set_msg (set_sync p (sv_msg s)) s.

Definition sv_addr (s : Service) : AddressService := ms_addr (sv_msg s).
Definition sv_status (s : Service) : Status := status_of (ms_sync (sv_msg s)).

Notation M := (eff Service err).

Definition on_address (f : AddressService -> AddressService * option err) : M () :=
  calls (fun s => let '(a, e) := f (sv_addr s) in (set_address a s, e)).
Definition on_provider (f : provider -> provider * option providerErr) : M () :=
  calls (fun s => let '(p, e) := f (ms_sync (sv_msg s)) in (set_provider p s, inject <$> e)).

(** What the outside answers during one input: the IMAP server manager, the API behind
    the identity, and the handlers' environments. *)
Record service_env : Type := mkServiceEnv {
  se_AddIMAPUser : string -> option err;
  se_RemoveIMAPUser : list string -> option err;
  se_identity : IdentityProvider;
  se_address : nat -> address_env;
  se_fetch : nat -> string -> result err FullMessage;
  se_keyPass : list Z;
  (** [HandleLabelEvents] on the connectors and the label map (file [LabelEvents]). *)
  se_labels : list LabelEvent -> list string -> labelMap -> labelMap * option err;
  se_Rewind : string -> option err
}.

Variable env : service_env.

(** ** Connectors *)

Definition conns (a : AddressService) : list string := Values (as_connectors a).

(** One connector for the primary address, or one per address of the account. *)
Definition buildConnectors (a : AddressService) : result err (gmap string string) :=
  match as_mode a with
  | AddressModeCombined =>
      match state_GetPrimaryAddr (as_identity a) with
      | Err e => Err (ErrWrap "failed to build connector for combined mode" e)
      | Ok addr => Ok {[addr_ID addr := addr_ID addr]}
      end
  | AddressModeSplit =>
      Ok (foldl (fun m addr => <[addr_ID addr := addr_ID addr]> m) ∅ (AddressesSorted (as_identity a)))
  end.

Definition rebuildConnectors : M () :=
  on_address (fun a =>
    match buildConnectors a with
    | Err e => (a, Some e)
    | Ok m => (with_connectors m a, None)
    end).

(** The loop of [addConnectorsToServer]; [added] is its list of added connectors. *)
Fixpoint add_loop (cs added users : list string) : list string :=
  match cs with
  | [] => users
  | c :: cs =>
      match se_AddIMAPUser env c with
      | None => add_loop cs (added ++ [c]) (users ++ [c])
      | Some _ =>
          let users := match se_RemoveIMAPUser env added with
                       | None => Filter users (fun u => negb (Contains added u))
                       | Some _ => users
                       end in
          add_loop cs (added ++ [c]) users
      end
  end.

Definition addConnectorsToServer : M () :=
  on_address (fun a => (with_users (add_loop (conns a) [] (as_users a)) a, None)).

Definition removeConnectorsFromServer : M () :=
  on_address (fun a =>
    match se_RemoveIMAPUser env (conns a) with
    | Some e => (a, Some (ErrWrap "failed to remove gluon users from server" e))
    | None => (with_users (Filter (as_users a) (fun u => negb (Contains (conns a) u))) a, None)
    end).

(** ** Starting and cancelling a sync *)

Definition GetStatus : M Status :=
  reads (fun s => match GetSyncStatus (ms_sync (sv_msg s)) with Ok st => Ok st | Err e => Err (inject e) end).

Definition beforeStartSyncing (lastHandledEventID : string) : M () :=
  status ← GetStatus;
  if negb (String.eqb (StartSyncEventID status) "") then mret ()
  else on_provider (SetStartSyncEventID lastHandledEventID).

Definition startSyncing (lastHandledEventID : string) : M () :=
  beforeStartSyncing lastHandledEventID ≫= fun _ =>
  modify (fun s => set_running true (set_isSyncing true s)).

Definition cancelSync : M () := modify (fun s => set_isSyncing false (set_running false s)).

(** ** Handlers *)

Definition imap_HandleRefreshEvent (eventID : string) : M () :=
  on_address (fun a => let '(i, e) := OnRefreshEvent (se_identity env) (as_identity a) in (with_identity i a, e)) ≫= fun _ =>
  cancelSync ≫= fun _ =>
  removeConnectorsFromServer ≫= fun _ =>
  rebuildConnectors ≫= fun _ =>
  wrapping (ErrWrap "failed to clear sync status") (on_provider ClearSyncStatus) ≫= fun _ =>
  addConnectorsToServer ≫= fun _ =>
  modify (set_last eventID) ≫= fun _ =>
  startSyncing eventID.

Definition imap_HandleUserEvent (user : User) : M () :=
  on_address (fun a => (with_identity (OnUserEvent user (as_identity a)) a, None)).

Definition setAddressMode (mode : AddressMode) (lastEventID : string) : M () :=
  s ← get;
  if bool_decide (as_mode (sv_addr s) = mode) then mret ()
  else
    on_address (fun a => (mkAddressService (as_identity a) mode (as_connectors a) (as_users a), None)) ≫= fun _ =>
    cancelSync ≫= fun _ =>
    removeConnectorsFromServer ≫= fun _ =>
    wrapping (ErrWrap "failed to clear sync status") (on_provider ClearSyncStatus) ≫= fun _ =>
    wrapping (ErrWrap "failed to rebuild connectors") rebuildConnectors ≫= fun _ =>
    addConnectorsToServer ≫= fun _ =>
    startSyncing lastEventID.

(** The handlers as [EventHandler]s. *)
Definition as_handling {A} (f : A -> M ()) : A -> Service -> Service * option err :=
  fun a s => match f a s with (s', Ok _) => (s', None) | (s', Err e) => (s', Some e) end.

Definition on_messages (sync : bool) (events : list MessageEvent) : M () := fun s =>
  let f := if sync then sync_HandleMessageEvents (se_fetch env) (se_keyPass env) 0 events
           else HandleMessageEvents (se_fetch env) (se_keyPass env) 0 events in
  let '(m, r) := f (sv_msg s) in (set_msg m s, r).

Definition on_labels (events : list LabelEvent) : M () :=
  calls (fun s => let '(m, e) := se_labels env events (conns (sv_addr s)) (ms_labels (sv_msg s)) in (set_labelmap m s, e)).

Definition on_addresses (events : list AddressEvent) : M () :=
  on_address (imap_HandleAddressEvents (se_address env) events).

Definition eventHandler : EventHandler Service :=
  mkEventHandler (Some (as_handling (fun r => imap_HandleRefreshEvent r.2))) None (Some (as_handling imap_HandleUserEvent))
    (Some (as_handling on_addresses)) (Some (as_handling on_labels)) (Some (as_handling (on_messages false))) None None.

Definition syncEventHandler : EventHandler Service :=
  mkEventHandler (Some (as_handling (fun r => imap_HandleRefreshEvent r.2))) None (Some (as_handling imap_HandleUserEvent))
    (Some (as_handling on_addresses)) None (Some (as_handling (on_messages true))) None None.

(** The function given to [Consume]. *)
Definition consume (event : Event) : Service -> Service * option err := fun s =>
  let h := if sv_isSyncing s then syncEventHandler else eventHandler in
  match OnEvent h event s with
  | (s', Some e) => (s', Some e)
  | (s', None) => (set_last (ev_EventID event) s', None)
  end.

(** ** Requests *)

Inductive imap_request : Type :=
| setAddressModeReq (mode : AddressMode)
| imap_resyncReq
| getLabelsReq
| onBadEventReq
| onBadEventResyncReq
| onLogoutReq
| onDeleteReq
| getSyncFailedMessagesReq
| getSyncStatusReq.

Inductive imap_reply : Type :=
| RepNone
| RepLabels (m : labelMap)
| RepFailed (ids : list string)
| RepStatus (st : Status).

Definition imap_serve (r : imap_request) : M imap_reply :=
  match r with
  | setAddressModeReq mode => s ← get; setAddressMode mode (sv_last s) ≫= fun _ => mret RepNone
  | imap_resyncReq => s ← get; imap_HandleRefreshEvent (sv_last s) ≫= fun _ => mret RepNone
  | getLabelsReq => s ← get; mret (RepLabels (ms_labels (sv_msg s)))
  | onBadEventReq | onLogoutReq | onDeleteReq => removeConnectorsFromServer ≫= fun _ => mret RepNone
  | onBadEventResyncReq => addConnectorsToServer ≫= fun _ => mret RepNone
  | getSyncFailedMessagesReq =>
      status ← wrapping (ErrWrap "failed to get sync status") GetStatus; mret (RepFailed (elements (failedIDs status)))
  | getSyncStatusReq => status ← wrapping (ErrWrap "failed to get sync status") GetStatus; mret (RepStatus status)
  end.

(** ** The goroutine at the end of a sync *)

(** One step of the goroutine; [canceled] is whether the context is done. *)
Definition rewind_step (canceled : bool) (r : rewinder) (s : Service) : option rewinder * Service :=
  match r with
  | RwRead =>
      if canceled then (None, s)
      else
        match GetSyncStatus (ms_sync (sv_msg s)) with
        | Err _ => (Some RwStop, s)
        | Ok status =>
            if String.eqb (StartSyncEventID status) "" then (Some RwStop, tell NNoRewindPoint s)
            else (Some (RwRewind (StartSyncEventID status)), s)
        end
  | RwRewind to =>
      match se_Rewind env to with
      | None => (Some RwClear, tell (NRewound to) s)
      | Some e =>
          if existsb is_canceled (chain e) then (None, s)
          else (Some RwClear, tell (NBadEvent "failed to rewind event loop") s)
      end
  | RwClear => (Some RwStop, set_provider (SetStartSyncEventID "" (ms_sync (sv_msg s))).1 s)
  | RwStop => (None, set_isSyncing false s)
  end.

(** ** The loop *)

Inductive loop_input : Type :=
| InRequest (r : imap_request)
| InSyncFinished
| InSyncProgress (p : provider)
| InRewinder (k : nat) (canceled : bool)
| InEvent (event : Event)
| InServerCreated
| InConnUp
| InConnDown.

(** [if err := startSyncing(...); err != nil { publish a bad event }]. *)
Definition start_or_tell (info : string) (id : string) (s : Service) : Service :=
  match startSyncing id s with
  | (s', Ok _) => s'
  | (s', Err _) => tell (NBadEvent info) s'
  end.

(** A sync can only finish or change its state while one runs, and it leaves the start
    event alone (file [SyncHandler]); a step of a goroutine needs one. *)
Definition loop_step (i : loop_input) (s : Service) : option Service :=
  match i with
  | InRequest r => Some (imap_serve r s).1
  | InSyncFinished => if sv_running s then Some (set_rewinders (sv_rewinders s ++ [RwRead]) (set_running false s)) else None
  | InSyncProgress p =>
      if sv_running s && String.eqb (StartSyncEventID (status_of p)) (StartSyncEventID (sv_status s))
      then Some (set_provider p s) else None
  | InRewinder k canceled =>
      match sv_rewinders s !! k with
      | None => None
      | Some r =>
          let '(r', s') := rewind_step canceled r s in
          Some (set_rewinders (take k (sv_rewinders s) ++ to_list r' ++ drop (S k) (sv_rewinders s)) s')
      end
  | InEvent event => Some (consume event s).1
  | InServerCreated => Some (addConnectorsToServer s).1
  | InConnUp => Some (start_or_tell "Failed to start syncing after connection restored." (sv_last s) (cancelSync s).1)
  | InConnDown => Some (cancelSync s).1
  end.

End service.

(** ** The rewind point of a sync *)

(** Operations that have nothing to do with the start event leave it alone, even when
    they fail. *)
Class StartEventKept `{StartEvent} : Prop := {
  AddFailed_start ids p : StartSyncEventID (status_of (AddFailedMessageID ids p).1) = StartSyncEventID (status_of p);
  RemFailed_start ids p : StartSyncEventID (status_of (RemFailedMessageID ids p).1) = StartSyncEventID (status_of p)
}.

Section laws.
Context `{MR : MapRange} `{SF : SortFunc} `{SP : StateProvider} {PL : StateProviderLaws} {SE : StartEvent}
        {SL : StartEventLaws} {SK : StartEventKept} {B : Type} `{GL : Gluon B} {KeyRing : Type}
        `{BL : BuildLib KeyRing} (inject : providerErr -> err).

#[local] Notation Svc := (Service (B := B)).
#[local] Notation MsgSvc := (MsgService (B := B)).

(** *** Message events leave the start event alone *)

Definition same_start (m m' : MsgSvc) : Prop :=
  ms_addr m' = ms_addr m /\ StartSyncEventID (status_of (ms_sync m')) = StartSyncEventID (status_of (ms_sync m)).

#[global] Instance same_start_refl : Reflexive same_start.
Proof. done. Qed.
#[global] Instance same_start_trans : Transitive same_start.
Proof. intros ??? [H1 H2] [H3 H4]. split; congruence. Qed.

Lemma leaves_publishUpdate c u : leaves same_start (publishUpdate c u).
Proof. intros s. unfold publishUpdate. destruct (ms_boxes s !! c); [destruct (gluon_apply u b)|]; done. Qed.

Lemma leaves_get : leaves (E := err) same_start get.
Proof. done. Qed.

Lemma leaves_safePublish a u : leaves same_start (safePublishMessageUpdate a u).
Proof.
  unfold safePublishMessageUpdate. apply leaves_bind; [apply _|by intros s|]. intros [c|]; [|by intros s].
  apply leaves_bind; [apply _|apply leaves_publishUpdate|by intros ? s].
Qed.

Lemma leaves_build id ls full mk kr : leaves same_start (build_and_publish id ls full mk kr).
Proof.
  unfold build_and_publish. destruct (br_err _); (apply leaves_bind; [apply _| |]).
  - intros s. split; [done|apply AddFailed_start].
  - by intros ? s.
  - intros s. split; [done|apply RemFailed_start].
  - intros _. apply leaves_safePublish.
Qed.

Lemma leaves_fetch fetch wrap id : leaves same_start (fetch_full fetch wrap id).
Proof. unfold fetch_full. repeat case_match; by intros s. Qed.

Lemma leaves_onMessageCreated fetch kp m allow : leaves same_start (onMessageCreated fetch kp m allow).
Proof.
  unfold onMessageCreated. apply leaves_bind; [apply _|apply leaves_fetch|]. intros [full|]; [|by intros s].
  apply leaves_bind; [apply _|apply leaves_get|]. intros s0.
  apply leaves_bind; [apply _| |by intros ? s]. apply withAddrKR_leaves; [apply _|]. intros kr. apply leaves_build.
Qed.

Lemma leaves_onMessageUpdateDraftOrSent fetch kp ev during : leaves same_start (onMessageUpdateDraftOrSent fetch kp ev during).
Proof.
  unfold onMessageUpdateDraftOrSent. apply leaves_bind; [apply _|apply leaves_fetch|]. intros [full|]; [|by intros s].
  apply leaves_bind; [apply _|apply leaves_get|]. intros s0.
  apply leaves_bind; [apply _| |by intros ? s]. apply withAddrKR_leaves; [apply _|]. intros kr. apply leaves_build.
Qed.

Lemma leaves_wait ups : leaves same_start (wait_for ups).
Proof. unfold wait_for. case_match; by intros s. Qed.

Lemma leaves_update_or_create fetch kp m allow w w' : leaves same_start (update_or_create fetch kp m allow w w').
Proof.
  unfold update_or_create. apply leaves_bind; [apply _|apply leaves_wrapping|].
  - unfold onMessageUpdate. apply leaves_bind; [apply _|apply leaves_get|]. intros s0.
    apply leaves_bind; [apply _|apply leaves_safePublish|by intros ? s].
  - intros ups. case_match; [|by intros s]. case_match; [|by intros s].
    apply leaves_bind; [apply _|apply leaves_wrapping, leaves_onMessageCreated|intros; apply leaves_wait].
Qed.

Lemma leaves_onMessageDeleted ev w :
  leaves same_start (onMessageDeleted ev ≫= fun updates => wrapping w (wait_for updates)).
Proof.
  apply leaves_bind; [apply _| |intros; apply leaves_wrapping, leaves_wait].
  unfold onMessageDeleted. apply leaves_bind; [apply _|apply leaves_get|]. intros s0.
  induction (Values _) as [|c cs IH]; simpl; [by intros s|].
  apply leaves_bind; [apply _|apply leaves_publishUpdate|]. intros p.
  apply leaves_bind; [apply _|exact IH|by intros ? s].
Qed.

Lemma leaves_event (sync : bool) fetch kp ev :
  leaves same_start (if sync then sync_HandleMessageEvent fetch kp ev else HandleMessageEvent fetch kp ev).
Proof.
  destruct sync; unfold HandleMessageEvent, sync_HandleMessageEvent;
    destruct (me_Action ev); try (by intros s); try apply leaves_onMessageDeleted; repeat case_match;
    try apply leaves_update_or_create;
    (apply leaves_bind; [apply _|apply leaves_wrapping|intros; apply leaves_wait]);
    apply leaves_onMessageCreated || apply leaves_onMessageUpdateDraftOrSent.
Qed.

Lemma leaves_events (sync : bool) fetches kp k evs :
  leaves same_start (if sync then sync_HandleMessageEvents fetches kp k evs else HandleMessageEvents fetches kp k evs).
Proof.
  revert k. induction evs as [|ev evs IH]; intros k; [by destruct sync|].
  specialize (IH (S k)). pose proof (leaves_event sync (fetches k) kp ev).
  destruct sync; simpl; (apply leaves_bind; [apply _|done|by intros _]).
Qed.

(** *** The invariant *)

(** While events are handled in sync mode there is an event to rewind to, unless the
    goroutine that ends the sync is about to end the mode. *)
Definition rewind_ok (s : Svc) : Prop :=
  sv_last s <> "" /\ (sv_isSyncing s = true -> StartSyncEventID (sv_status s) <> "" \/ RwStop ∈ sv_rewinders s).
Definition quiet (s : Svc) : Prop := sv_last s <> "" /\ sv_isSyncing s = false.

Lemma quiet_ok s : quiet s -> rewind_ok s.
Proof. intros [Hl Hq]. split; [done|]. by rewrite Hq. Qed.

Lemma address_ok f : triple rewind_ok (on_address f) rewind_ok.
Proof. intros s Hs. unfold on_address, calls. destruct (f (sv_addr s)) as [a [e|]]; exact Hs. Qed.
Lemma address_quiet f : triple quiet (on_address f) quiet.
Proof. intros s Hs. unfold on_address, calls. destruct (f (sv_addr s)) as [a [e|]]; exact Hs. Qed.
Lemma provider_quiet f : triple quiet (on_provider inject f) quiet.
Proof. intros s Hs. unfold on_provider, calls. destruct (f (ms_sync (sv_msg s))) as [a [e|]]; exact Hs. Qed.
Lemma cancel_quiet : triple (E := err) rewind_ok cancelSync quiet.
Proof. intros s [Hl _]. by split. Qed.
Lemma last_quiet id : id <> "" -> triple (E := err) quiet (modify (set_last id)) quiet.
Proof. intros Hid s [_ Hq]. by split. Qed.

Lemma startSyncing_ok id : id <> "" -> triple quiet (startSyncing inject id) rewind_ok.
Proof.
  intros Hid s [Hl Hq]. unfold startSyncing, beforeStartSyncing, GetStatus, mbind, eff_bind, reads.
  destruct (GetSyncStatus (ms_sync (sv_msg s))) as [st|e] eqn:Hst; [|by apply quiet_ok].
  apply GetSyncStatus_law in Hst as ->. destruct (String.eqb _ _) eqn:He; simpl.
  - unfold on_provider, calls. destruct (SetStartSyncEventID id (ms_sync (sv_msg s))) as [p [e|]] eqn:Hset; simpl.
    + by apply quiet_ok.
    + split; [done|]. intros _. left. apply SetStartSyncEventID_law in Hset. unfold sv_status. simpl. by rewrite Hset.
  - boolp. split; [done|]. intros _. left. exact He.
Qed.

#[local] Hint Resolve quiet_ok address_ok address_quiet provider_quiet cancel_quiet last_quiet startSyncing_ok : core.

Lemma rebuild_quiet : triple quiet rebuildConnectors quiet.
Proof. apply address_quiet. Qed.
Lemma add_quiet env : triple quiet (addConnectorsToServer env) quiet.
Proof. apply address_quiet. Qed.
Lemma remove_quiet env : triple quiet (removeConnectorsFromServer env) quiet.
Proof. apply address_quiet. Qed.
#[local] Hint Resolve rebuild_quiet add_quiet remove_quiet triple_wrapping : core.

Lemma refresh_ok env id : id <> "" -> triple rewind_ok (imap_HandleRefreshEvent inject env id) rewind_ok.
Proof.
  intros Hid. unfold imap_HandleRefreshEvent. apply triple_seq with rewind_ok; [auto|intros _|done].
  apply triple_seq with quiet; [auto|intros _|auto].
  repeat (apply triple_bind; [by auto|intros _|by auto]). auto.
Qed.

Lemma setAddressMode_ok mode id : forall env, id <> "" -> triple rewind_ok (setAddressMode inject env mode id) rewind_ok.
Proof.
  intros env Hid. unfold setAddressMode. apply triple_seq with rewind_ok; [by intros s|intros s0|done].
  case_bool_decide; [by intros s|]. apply triple_seq with rewind_ok; [auto|intros _|done].
  apply triple_seq with quiet; [auto|intros _|auto].
  repeat (apply triple_bind; [by auto|intros _|by auto]). auto.
Qed.

Lemma handling_ok {A} (f : A -> eff Svc err ()) a s : triple rewind_ok (f a) rewind_ok -> rewind_ok s -> rewind_ok (as_handling f a s).1.
Proof. intros Hf Hs. specialize (Hf s Hs). unfold as_handling. by destruct (f a s) as [? [|]]. Qed.

Lemma messages_ok env sync evs : triple rewind_ok (on_messages env sync evs) rewind_ok.
Proof.
  intros s [Hl Hs]. unfold on_messages.
  pose proof (leaves_events sync (se_fetch env) (se_keyPass env) 0 evs (sv_msg s)) as [_ Hstart].
  set (f := if sync then _ else _) in *. destruct (f (sv_msg s)) as [m r]. simpl in Hstart.
  split; [done|]. unfold sv_status. simpl. rewrite Hstart. exact Hs.
Qed.

Lemma labels_ok env evs : triple rewind_ok (on_labels env evs) rewind_ok.
Proof.
  intros s Hs. unfold on_labels, calls. destruct (se_labels _ _ _ _) as [m [e|]]; exact Hs.
Qed.

Lemma consume_ok env event s : ev_EventID event <> "" -> rewind_ok s -> rewind_ok (consume inject env event s).1.
Proof.
  intros Hid Hs. unfold consume.
  set (h := if sv_isSyncing s then _ else _).
  assert (rewind_ok (OnEvent h event s).1) as Hk.
  { assert (handler_keeps rewind_ok (UserHandler h) /\ handler_keeps rewind_ok (AddressHandler h) /\
            handler_keeps rewind_ok (LabelHandler h) /\ handler_keeps rewind_ok (MessageHandler h) /\
            UserSettingsHandler h = None /\ UsedSpaceHandler h = None /\ NotificationHandler h = None /\
            RefreshHandler h = Some (as_handling (fun r => imap_HandleRefreshEvent inject env r.2)))
      as (Hu & Ha & Hl & Hm & H1 & H2 & H3 & Hr).
    { unfold h. destruct (sv_isSyncing s); split_and!; try done;
        intros f a s0 [= <-] Hs0; apply handling_ok; auto; first [apply messages_ok|apply labels_ok|apply address_ok]. }
    unfold OnEvent. set (rest := then_handle (UserSettingsHandler h) _ _ _).
    assert (rewind_ok (rest s).1) as Hrest.
    { assert (forall A (o : option (handling Svc A)), o = None -> handler_keeps rewind_ok o) as Hnone by (by intros A o -> f a s0).
      unfold rest. clearbody h. clear rest Hr. revert s Hs. repeat (apply then_handle_keeps; [by auto|]). done. }
    destruct (negb _); [|done]. rewrite Hr. apply handling_ok; [|done]. by apply refresh_ok. }
  destruct (OnEvent h event s) as [s' [e|]]; [done|]. destruct Hk as [_ Hk]. split; [done|exact Hk].
Qed.

Definition input_ok (i : loop_input) : Prop := match i with InEvent event => ev_EventID event <> "" | _ => True end.

(** The states of a service that starts with a last event and then handles inputs, each
    with answers of its own. *)
Inductive reachable (s0 : Svc) : Svc -> Prop :=
| reach_start : sv_last s0 <> "" -> sv_isSyncing s0 = false -> reachable s0 (start_or_tell inject "Failed to start syncing on IMAP service start." (sv_last s0) s0)
| reach_step s s' env i : reachable s0 s -> input_ok i -> loop_step inject env i s = Some s' -> reachable s0 s'.

Lemma start_or_tell_ok info id s : id <> "" -> quiet s -> rewind_ok (start_or_tell inject info id s).
Proof.
  intros Hid Hs. unfold start_or_tell. pose proof (startSyncing_ok id Hid s Hs) as Hk.
  destruct (startSyncing inject id s) as [s' [|]]; exact Hk.
Qed.

Lemma elem_of_middle {A} (l : list A) k r x : l !! k = Some r -> x ∈ l -> x = r \/ x ∈ take k l ++ drop (S k) l.
Proof.
  intros Hk Hx. rewrite <- (take_drop_middle l k r Hk) in Hx. rewrite elem_of_app, elem_of_cons in Hx.
  rewrite elem_of_app. tauto.
Qed.

Lemma rewinder_step_ok env k canceled s r :
  sv_rewinders s !! k = Some r -> rewind_ok s ->
  let '(r', s') := rewind_step env canceled r s in
  rewind_ok (set_rewinders (take k (sv_rewinders s) ++ to_list r' ++ drop (S k) (sv_rewinders s)) s').
Proof.
  intros Hk [Hl Hs].
  assert (forall (o : option rewinder) s', r <> RwStop -> sv_last s' = sv_last s -> sv_isSyncing s' = sv_isSyncing s ->
            sv_status s' = sv_status s ->
            rewind_ok (set_rewinders (take k (sv_rewinders s) ++ to_list o ++ drop (S k) (sv_rewinders s)) s')) as Hmove.
  { intros o s' Hr El Ei Es. split; [unfold set_rewinders; cbn; congruence|]. unfold sv_status in *. cbn.
    rewrite Ei, Es. intros Hi. destruct (Hs Hi) as [Hst|Hst]; [by left|right].
    destruct (elem_of_middle _ _ _ _ Hk Hst) as [<-|Hin]; [done|]. set_solver. }
  destruct r; cbn [rewind_step].
  - destruct canceled; [by apply Hmove|]. destruct (GetSyncStatus _) as [st|e]; [|by apply Hmove].
    destruct (String.eqb _ _); by apply Hmove.
  - destruct (se_Rewind env to) as [e|]; [destruct (existsb _ _)|]; by apply Hmove.
  - split; [done|]. intros _. right. cbn. set_solver.
  - split; [done|]. by intros [=].
Qed.

Lemma then_ret_ok {A C} (m : eff Svc err A) (c : C) : triple rewind_ok m rewind_ok -> triple rewind_ok (m ≫= fun _ => mret c) rewind_ok.
Proof. intros Hm. apply triple_bind; [done|intros _; apply triple_ret|done]. Qed.

Lemma serve_ok env r s : rewind_ok s -> rewind_ok (imap_serve inject env r s).1.
Proof.
  intros Hs. pose proof Hs as [Hl _].
  assert (triple rewind_ok (removeConnectorsFromServer env) rewind_ok) as Hrm by apply address_ok.
  assert (triple rewind_ok (addConnectorsToServer env) rewind_ok) as Hadd by apply address_ok.
  assert (forall A (f : Status -> A), triple rewind_ok (wrapping (ErrWrap "failed to get sync status") (GetStatus inject) ≫= fun st => mret (f st)) rewind_ok) as Hget.
  { intros A f. apply triple_bind; [apply triple_wrapping, triple_reads|intros st; apply triple_ret|done]. }
  destruct r; cbn [imap_serve].
  - apply (then_ret_ok _ RepNone (setAddressMode_ok mode (sv_last s) env Hl) s Hs).
  - apply (then_ret_ok _ RepNone (refresh_ok env (sv_last s) Hl) s Hs).
  - exact Hs.
  - apply (then_ret_ok _ RepNone Hrm s Hs).
  - apply (then_ret_ok _ RepNone Hadd s Hs).
  - apply (then_ret_ok _ RepNone Hrm s Hs).
  - apply (then_ret_ok _ RepNone Hrm s Hs).
  - apply (Hget _ (fun st => RepFailed (elements (failedIDs st))) s Hs).
  - apply (Hget _ RepStatus s Hs).
Qed.


(** ** The end of a sync *)

(** The goroutine alone, with the answers of the rewind and of the sync state. *)
Fixpoint rewinder_run (fuel : nat) (env : service_env) (r : rewinder) (s : Svc) : option Svc :=
  match fuel with
  | O => None
  | S fuel =>
      match rewind_step env false r s with
      | (None, s') => Some s'
      | (Some r', s') => rewinder_run fuel env r' s'
      end
  end.

(** The goroutine that ends a sync is done after at most four steps.  Unless the rewind
    was cancelled, events are then handled normally again; and when there was an event
    to rewind to and the rewind worked, the event loop was rewound to it before. *)
Theorem rewinder_finishes env s :
  exists s', rewinder_run 4 env RwRead s = Some s' /\
  ((forall to e, se_Rewind env to = Some e -> existsb is_canceled (chain e) = false) -> sv_isSyncing s' = false) /\
  (forall st, GetSyncStatus (ms_sync (sv_msg s)) = Ok st -> StartSyncEventID st <> "" ->
     se_Rewind env (StartSyncEventID st) = None -> sv_notices s' = sv_notices s ++ [NRewound (StartSyncEventID st)]).
Proof.
  cbn [rewinder_run rewind_step].
  destruct (GetSyncStatus (ms_sync (sv_msg s))) as [st|e] eqn:Hst; cbn [rewinder_run rewind_step].
  2:{ eexists. split_and!; [done..|]. by intros st [=]. }
  destruct (String.eqb (StartSyncEventID st) "") eqn:Hid; cbn [rewinder_run rewind_step].
  { boolp. eexists. split_and!; [done..|]. intros st' [= <-] Hne. by rewrite Hid in Hne. }
  destruct (se_Rewind env (StartSyncEventID st)) as [e|] eqn:Hr; [destruct (existsb is_canceled (chain e)) eqn:Hc|];
    cbn [rewinder_run rewind_step]; eexists; (split; [reflexivity|]).
  - split; [intros Hall; rewrite (Hall _ _ Hr) in Hc; done|]. intros st' [= <-] _ Hr'. congruence.
  - split; [done|]. intros st' [= <-] _ Hr'. congruence.
  - split; [done|]. by intros st' [= <-] _ _.
Qed.

(** ** Refresh *)

(** After a refresh that succeeded the sync starts from scratch: the connectors are
    exactly those of the new identity, the sync state is empty but for the event to
    rewind to, and events are handled in sync mode. *)
Theorem refresh_restarts env id (s s' : Svc) :
  imap_HandleRefreshEvent inject env id s = (s', Ok ()) ->
  buildConnectors (sv_addr s') = Ok (as_connectors (sv_addr s')) /\
  as_mode (sv_addr s') = as_mode (sv_addr s) /\
  sv_status s' = withStartSyncEventID id DefaultStatus /\
  sv_isSyncing s' = true /\ sv_running s' = true /\ sv_last s' = id.
Proof.
  unfold imap_HandleRefreshEvent. intros (s1 & [] & H1 & Hrun)%eff_bind_Ok.
  apply eff_bind_Ok in Hrun as (s2 & [] & [= <-] & Hrun).
  apply eff_bind_Ok in Hrun as (s3 & [] & H3 & Hrun). apply eff_bind_Ok in Hrun as (s4 & [] & H4 & Hrun).
  apply eff_bind_Ok in Hrun as (s5 & [] & H5%wrapping_Ok_iff & Hrun). apply eff_bind_Ok in Hrun as (s6 & [] & [= <-] & Hrun).
  apply eff_bind_Ok in Hrun as (s7 & [] & [= <-] & Hrun).
  unfold on_address, calls in H1. destruct (OnRefreshEvent _ _) as [i [e|]]; [done|]. injection H1 as <-.
  unfold removeConnectorsFromServer, on_address, calls in H3. cbn in H3. destruct (se_RemoveIMAPUser _ _); [done|]. injection H3 as <-.
  unfold rebuildConnectors, on_address, calls in H4. cbn in H4. destruct (buildConnectors _) as [m|] eqn:Hm; [|done]. injection H4 as <-.
  unfold on_provider, calls in H5. cbn in H5. destruct (ClearSyncStatus _) as [p [e|]] eqn:Hc; [done|]. injection H5 as <-.
  apply ClearSyncStatus_law in Hc.
  apply eff_bind_Ok in Hrun as (s8 & [] & Hb & [= <-]). unfold beforeStartSyncing in Hb.
  apply eff_bind_Ok in Hb as (s9 & st & [= <- Hst] & Hb).
  cbn in Hst. destruct (GetSyncStatus p) as [st'|] eqn:Hg; [|done]. injection Hst as ->.
  apply GetSyncStatus_law in Hg. rewrite Hg, Hc in Hb. cbn in Hb.
  unfold on_provider, calls in Hb. cbn in Hb. destruct (SetStartSyncEventID id p) as [p' [e|]] eqn:Hset; [done|].
  injection Hb as <-. apply SetStartSyncEventID_law in Hset. unfold sv_status, sv_addr. cbn. rewrite Hset, Hc.
  split_and!; [|done..]. exact Hm.
Qed.

End laws.

(** ** The connectors that are built *)

Section build.
Context `{MR : MapRange} `{SF : SortFunc}.

Lemma foldl_addresses l (m : gmap string string) :
  dom (foldl (fun m addr => <[addr_ID addr := addr_ID addr]> m) m l) = dom m ∪ list_to_set (addr_ID <$> l).
Proof.
  revert m. induction l as [|a l IH]; intros m; simpl; [set_solver|]. rewrite IH, dom_insert_L. set_solver.
Qed.

Lemma enabled_ids_spec i id : id ∈ enabled_ids i <-> exists ad, Addresses i !! id = Some ad /\ enabled (addr_Status ad) = true.
Proof.
  destruct i as [l m u]. unfold enabled_ids. rewrite elem_of_dom, enabled_emails_lookup. cbn. split.
  - intros [e He]. destruct (m !! id) as [ad|]; [|done]. cbn in He. destruct (enabled _) eqn:?; [eauto|done].
  - intros (ad & -> & He). cbn. rewrite He. eauto.
Qed.

Lemma sorted_ids i id : identity_ok i -> id ∈ addr_ID <$> AddressesSorted i <-> is_Some (Addresses i !! id).
Proof.
  intros (Hkey & Hperm & _). rewrite Hperm, list_elem_of_fmap. split.
  - intros (ad & -> & Had). apply list_elem_of_fmap in Had as ([k ad'] & -> & Hin). apply elem_of_map_to_list in Hin.
    cbn [snd]; rewrite (Hkey _ _ Hin). eauto.
  - intros [ad Had]. exists ad. split; [symmetry; by apply (Hkey id)|].
    apply list_elem_of_fmap. exists (id, ad). by rewrite elem_of_map_to_list.
Qed.

(** Building the connectors establishes what address events rely on, one connector for
    the primary address or one for every enabled address, exactly when no address of
    the account is disabled in split mode. *)
Theorem buildConnectors_ok a m :
  identity_ok (as_identity a) -> buildConnectors a = Ok m ->
  connectors_ok (with_connectors m a) <->
  (as_mode a = AddressModeSplit -> forall id ad, Addresses (as_identity a) !! id = Some ad -> enabled (addr_Status ad) = true).
Proof.
  intros Hid Hb. unfold buildConnectors in Hb. unfold connectors_ok, with_connectors. cbn.
  destruct (as_mode a).
  - destruct (state_GetPrimaryAddr _) as [p|] eqn:Hp; [|done]. injection Hb as <-.
    split; [done|]. intros _. exists p. split; [done|]. apply dom_singleton_L.
  - injection Hb as <-. rewrite foldl_addresses, dom_empty_L. split.
    + intros Heq _ id ad Had. assert (id ∈ enabled_ids (as_identity a)) as Hin.
      { rewrite <- Heq. rewrite elem_of_union, elem_of_list_to_set, sorted_ids by done. eauto. }
      apply enabled_ids_spec in Hin as (ad' & Had' & He). congruence.
    + intros Hall. apply set_eq. intros id. rewrite elem_of_union, elem_of_list_to_set, sorted_ids, enabled_ids_spec by done.
      split; [intros [?|[ad Had]]; [set_solver|eauto]|]. intros (ad & Had & _). right. eauto.
Qed.

End build.

(** ** The instances of the sync state *)

#[global] Instance pure_start : StartEvent (H := pure_provider) := {
  SetStartSyncEventID id (s : Status) := (withStartSyncEventID id s, None)
}.
Lemma pure_start_laws : @StartEventLaws pure_provider pure_start.
Proof. split. by intros id p p' [= <-]. Qed.
Lemma pure_start_kept : @StartEventKept pure_provider pure_start.
Proof. split; done. Qed.

(** The file-backed state, with any outcome of its stores. *)
Definition file_start (env : nat -> store_env) : StartEvent (H := file_provider env) :=
  {| SetStartSyncEventID := ss_SetStartSyncEventID env : string -> @provider (file_provider env) -> _ |}.

Lemma file_start_laws env : @StartEventLaws _ (file_start env).
Proof.
  split. intros id p p' Hset. cbn in *. unfold ss_SetStartSyncEventID in Hset.
  by apply storeUnsafe_status in Hset.
Qed.

Lemma store_keeps env s : status (storeUnsafe env s).1 = status s.
Proof. destruct (storeUnsafe env s) as [s' e] eqn:Hs. exact (storeUnsafe_status _ _ _ _ Hs). Qed.

Lemma file_start_kept env : @StartEventKept _ (file_start env).
Proof.
  split; intros ids p; cbn.
  - unfold ss_AddFailedMessageID. destruct (FailedMessages (status p)), ids; try done;
      case_match; rewrite ?store_keeps; done.
  - unfold ss_RemFailedMessageID. destruct (FailedMessages (status p)); [|done].
    case_match; rewrite ?store_keeps; done.
Qed.

(** ** Examples *)

Definition ex_env (add : string -> option err) (remove : list string -> option err) (rewind : string -> option err) : service_env :=
  mkServiceEnv add remove
    (mkProvider (Ok (mkUser "u" "user" 0 [])) (Ok [mkAddress "a" "first@pm.me" AddressStatusEnabled 1 [] (AddressTypeOther 1) true ""]))
    (fun _ => ex_ok) (fun _ => ex_fetch) [] (fun _ _ m => (m, None)) rewind.
Definition ex_fine : service_env := ex_env (fun _ => None) (fun _ => None) (fun _ => None).
Definition ex_service : Service (SP := pure_provider) (B := tables) := mkService ex_msg_service false false "e1" [] [].
Definition ex_inject (e : @providerErr pure_provider) : err := match e with end.

Definition ex_step (env : service_env) (i : loop_input) (s : option (Service (SP := pure_provider) (B := tables))) :=
  s ≫= loop_step (MR := canonical_range) (SF := merge_sort_by) (SE := pure_start) ex_inject env i.
Definition ex_started : Service (SP := pure_provider) (B := tables) :=
  start_or_tell (SE := pure_start) ex_inject "Failed to start syncing on IMAP service start." (sv_last ex_service) ex_service.

Definition ex_finished := loop_step (MR := canonical_range) (SF := merge_sort_by) (SE := pure_start) ex_inject ex_fine InSyncFinished ex_started.


Definition ex_refreshed := imap_HandleRefreshEvent (MR := canonical_range) (SF := merge_sort_by) (SE := pure_start) ex_inject ex_fine "e2" ex_started.

Lemma refresh_restarts_witness : sv_status ex_refreshed.1 = withStartSyncEventID "e2" DefaultStatus.
Proof.
  assert (is_ok ex_refreshed.2 = true) as Hok by (vm_compute; reflexivity).
  destruct ex_refreshed as [s' [[]|e]] eqn:Hrun; [|done]. unfold ex_refreshed in Hrun.
  apply (refresh_restarts (PL := pure_provider_laws) (SL := pure_start_laws) ex_inject ex_fine "e2" ex_started s' Hrun).
Defined.

(** The identity of the example, without and with its disabled address. *)
Definition ex_enabled : AddressService :=
  mkAddressService (with_addresses (MR := canonical_range) (SF := merge_sort_by) (delete "c" (Addresses ex_identity)) ex_identity)
    AddressModeSplit ∅ [].

Lemma buildConnectors_ok_witness :
  exists m, buildConnectors ex_enabled = Ok m /\ connectors_ok (with_connectors m ex_enabled).
Proof.
  eexists. split; [reflexivity|].
  apply (buildConnectors_ok ex_enabled _); [|reflexivity|].
  - unfold ex_enabled. cbn [as_identity]. apply with_addresses_ok.
    intros id ad Had. apply lookup_delete_Some in Had as [_ Had]. revert id ad Had. apply map_Forall_to_list.
    vm_compute. repeat constructor.
  - intros _ id ad Had. revert id ad Had. apply map_Forall_to_list. vm_compute. repeat constructor.
Defined.

(** In split mode a disabled address gets a connector at start-up. *)
Lemma disabled_gets_connector :
  exists m, buildConnectors (mkAddressService ex_identity AddressModeSplit ∅ []) = Ok m /\
  is_Some (m !! "c") /\ enabled_ids ex_identity = {["a"; "b"]}.
Proof. eexists. split; [reflexivity|]. split; [eexists; reflexivity|]. vm_compute. reflexivity. Qed.

(** A change of the address mode whose first step fails has already stored the mode, so
    that asking again succeeds without doing anything. *)
Lemma setAddressMode_retry :
  let failing := ex_env (fun _ => None) (fun _ => Some (ErrAPI 503)) (fun _ => None) in
  let serve env s := imap_serve (MR := canonical_range) (SF := merge_sort_by) (SE := pure_start) ex_inject env (setAddressModeReq AddressModeCombined) s in
  let first := serve failing ex_started in
  let second := serve ex_fine first.1 in
  is_ok first.2 = false /\ is_ok second.2 = true /\
  as_mode (sv_addr second.1) = AddressModeCombined /\
  map_to_list (as_connectors (sv_addr second.1)) = [("a", "a"); ("b", "b")].
Proof. vm_compute. done. Qed.

(** Adding the connectors reports success although the second one failed and the first one
    was removed again. *)
Lemma addConnectors_reports_success :
  let failing := ex_env (fun c => if String.eqb c "b" then Some (ErrAPI 503) else None) (fun _ => None) (fun _ => None) in
  let r := addConnectorsToServer (MR := canonical_range) failing (set_address (with_users [] (sv_addr ex_started)) ex_started) in
  is_ok r.2 = true /\ as_users (sv_addr r.1) = [].
Proof. vm_compute. done. Qed.

(** A connection that comes back while the goroutine of a finished sync is rewinding starts
    a sync; when the goroutine goes on, events are handled normally, with labels, while
    that sync runs, and there is nothing to rewind to when it ends. *)
Lemma rewinder_stops_next_sync :
  match ex_step ex_fine (InRewinder 0 false) (ex_step ex_fine (InRewinder 0 false) (ex_step ex_fine (InRewinder 0 false)
         (ex_step ex_fine InConnUp (ex_step ex_fine (InRewinder 0 false) (ex_step ex_fine InSyncFinished (Some ex_started)))))) with
  | Some s => sv_running s = true /\ sv_isSyncing s = false /\ StartSyncEventID (sv_status s) = "" /\ sv_rewinders s = []
  | None => False
  end.
Proof. vm_compute. done. Qed.

(** When the rewind fails the event to rewind to is forgotten all the same, and events
    are handled normally again. *)
Lemma failed_rewind_forgotten :
  let failing := ex_env (fun _ => None) (fun _ => None) (fun _ => Some (ErrAPI 503)) in
  match rewinder_run (SE := pure_start) 4 failing RwRead ex_started with
  | Some s => StartSyncEventID (sv_status s) = "" /\ sv_isSyncing s = false
  | None => False
  end.
Proof. vm_compute. done. Qed.
